(* ===== verification/_CoqProject ===== *)
-Q . S2P
Prelude.v
GoStrings.v
Lru.v
Ranges.v
Wildcard.v
GoNet.v
GoNetText.v
FakeIP.v
Metadata.v
Rules.v
RulesTheory.v
RuleParser.v
RuleParserTheory.v
Tunnel.v
RejectBan.v
DropParker.v
GoIO.v
Socks5.v
DomainTrie.v
Hosts.v
TlsSniffer.v
BufConn.v
Sniffer.v
HttpSniffer.v
Enhancer.v
DnsHandler.v
JumpHash.v
SingleDo.v
Health.v
Groups.v
GroupsTheory.v
GroupGraph.v
DomainSet.v
DomainSetTheory.v
DomainSetSearch.v
DomainSetTrie.v
DomainSetBin.v
Arc.v
DevCache.v
DevCacheTheory.v
DevCacheRefresh.v
DevBackends.v
DevRegistry.v
DevRegistryTheory.v
OverridePath.v
OverridePathTheory.v
OverrideValue.v
OverrideEval.v
OverrideEvalTheory.v
OverrideParser.v
OverrideParserTheory.v
OverrideText.v
OpenVpnPacket.v
OpenVpnData.v
OpenVpnControl.v
OpenVpnControlTheory.v
OpenVpnStream.v
OpenVpnGate.v
OpenVpnKeys.v
OpenVpnText.v
DnsMessage.v
DnsClients.v
DnsResolver.v
DnsResolverTheory.v
ResolverLookup.v
