(* ===== verification/Prelude.v ===== *)
(** * A verification development of the proxy core

    The program is a rule-based network proxy.  A connection enters through an
    inbound listener as metadata (addresses, host name, process, inbound); the
    tunnel prepares the metadata, matches it against the configured rules and
    hands the connection to the outbound proxy the rules name.  Fake addresses,
    the hosts table and the domain trie connect names and addresses; caches bound
    what is remembered; rejected connections are counted, banned or parked.

    ** Files, in the order of the dependencies

    - [Prelude]: results ([(A, error)] in Go), machine integers, tactics, shared lemmas.
    - [GoStrings], [GoNet], [GoNetText], [GoIO]: what the code uses of Go's
      standard library: byte strings ([strings], [strconv]), addresses and prefixes
      ([net/netip]), their text forms, and byte streams ([io.ReadFull], writes).
      A connection is a tree of reads and writes; [talk_step] runs two of them
      against each other in any order.
    - [Lru]: [common/lru/lrucache.go].  A world of entry cells, and caches that
      point into it, so that sharing by [CloneTo] is visible.
    - [Ranges]: [common/utils/range.go], [common/utils/ranges.go].
    - [Wildcard]: [component/wildcard/wildcard.go].
    - [FakeIP]: [component/fakeip/pool.go], [component/fakeip/memory.go]; the pool
      is proved against the class of stores, and the memory store, built on two
      LRU caches, is an instance of it.
    - [Metadata]: [constant/metadata.go], [constant/rule.go], [constant/dns.go].
    - [Rules], [RulesTheory]: [rules/common], [rules/logic], [rules/provider] (the
      matching side) and the check of sub-rules in [config/config.go].  A rule is a
      sum of all rule types; matching threads the metadata and the state of the
      match helper.
    - [RuleParser], [RuleParserTheory]: [rules/parser.go], [rules/common/base.go],
      the payload of logic rules, [rules/wrapper], and [parseRules] of the
      configuration.
    - [Tunnel]: [tunnel/tunnel.go]: metadata preparation, the choice of a proxy,
      rematching, retrying; [tunnel/mode.go], [tunnel/status.go].
    - [RejectBan]: [tunnel/reject_ban.go], on top of [Lru] and [Tunnel].
    - [DropParker]: [tunnel/reject.go], as a step relation over the critical
      sections of [Park] and [run].
    - [Socks5]: [transport/socks5/socks5.go].
    - [DomainTrie]: [component/trie/node.go], [component/trie/domain.go].
    - [Hosts]: [component/resolver/host.go] and [parseHosts] of [config/config.go],
      on top of [DomainTrie].
    - [TlsSniffer]: [component/sniffer/tls_sniffer.go], as an operation on the
      bytes received so far.
    - [BufConn]: [common/net/bufconn.go], [common/net/bufconn_unsafe.go]: the
      buffered reader with its array and positions.
    - [Sniffer]: [component/sniffer/dispatcher.go], [base_sniffer.go], against the
      class [SnifferLaws] of what a sniffer promises to the dispatcher; the TLS
      sniffer is an instance.
    - [HttpSniffer]: [component/sniffer/http_sniffer.go]; HTTP/1 on ASCII streams is
      another instance.
    - [Enhancer]: [dns/enhancer.go], [component/fakeip/skipper.go]: owns the pools
      of [FakeIP] and the mapping cache, and is an instance of the class [Resolver]
      through which [Tunnel] sees it.
    - [DnsHandler]: [dns/middleware.go], [dns/fakeip_svcb.go],
      [dns/fakeip_hostname.go]: the chain of handlers from hosts table and fake IP to
      the resolver.
    - [Health]: [adapter/adapter.go], [common/queue/queue.go]: what tests leave in
      the state of a proxy.
    - [SingleDo]: [common/singledo/singledo.go], as a step relation over the critical
      sections of [Do] and [Reset].
    - [JumpHash]: the consistent hash of [adapter/outboundgroup/loadbalance.go] with
      its [float64] arithmetic.
    - [Groups], [GroupsTheory]: [adapter/outboundgroup]: the members of a group and
      the four kinds of groups.
    - [GroupGraph]: [config/utils.go]: the order of nested groups, chains of dialer
      proxies.
    - [DomainSet], [DomainSetTheory], [DomainSetSearch], [DomainSetTrie], [DomainSetBin]:
      [component/trie/domain_set.go], [domain_set_bin.go]: the succinct set in its three
      arrays, what building writes into them, the search, the comparison with [DomainTrie],
      and the binary form.
    - [Arc]: [common/arc/arc.go], [common/arc/entry.go]: the adaptive replacement cache.
    - [DevCache], [DevCacheTheory], [DevCacheRefresh]: [component/dev_cache/cache.go]:
      values with a refresh deadline, against the class [Backend] of replacement
      policies; refreshes are flights whose workers return at any time.
    - [DevBackends]: [Lru] and [Arc] as instances of [Backend].
    - [DevRegistry], [DevRegistryTheory]: [component/dev_cache/registry.go],
      [component/dev_cache/scope.go].
    - [OverridePath], [OverridePathTheory]: [adapter/provider/override_expr.go]:
      documents, paths into them, updates, selected targets and deletions.
    - [OverrideValue], [OverrideEval], [OverrideEvalTheory]: the same file: numbers,
      operators, functions, expressions as streams of values, statements and [Apply].
    - [OverrideParser], [OverrideParserTheory]: its lexer and parser.
    - [OverrideText]: from the text of an assignment to its effect; examples of what the
      code does against its documentation.
    - [OpenVpnPacket]: [transport/openvpn]: control packets ([packet.go]), their protection
      ([tlsauth.go], [tlscrypt.go], [tlscrypt_v2.go]) and their framing on TCP
      ([packetio.go]).
    - [OpenVpnData]: [data.go]: the data channel.
    - [OpenVpnControl], [OpenVpnControlTheory]: [control.go]: the reliable control channel
      and what it guarantees.
    - [OpenVpnStream]: the bytes of a control connection from end to end.
    - [OpenVpnGate]: [mux.go]: the gate before the physical connection.
    - [OpenVpnKeys]: [keymethod.go], and the choice of ciphers of [config.go].
    - [OpenVpnText]: [push.go], and static keys and names of [config.go].
    - [DnsMessage]: [dns/util.go], [dns/upstream_answer.go], [dns/direct_negative.go],
      [dns/edns0_subnet.go]: what the resolver reads from messages, their deadlines and
      times to live.
    - [DnsClients]: clients, wrappers and batches of [dns/util.go], [dns/rcode.go],
      [common/picker]; shared transports of [dns/resolver.go].
    - [DnsResolver], [DnsResolverTheory]: [dns/resolver.go], [dns/policy.go], on a cache of
      [DevCache]: queries, workers that return, restored records and network changes are
      the events of a sequence.
    - [ResolverLookup]: [component/resolver/resolver.go] and the lookups of
      [dns/resolver.go].

    ** What the theorems show

    - Routing: the proxy chosen comes from a rule in force and can carry the
      connection; the choice ends although rematching repeats it; a fake-IP
      connection reaches a remote proxy with its name and without an address;
      matching changes only cached facts of the metadata.
    - Termination of configurations: parsing a rule ends on every text; sub-rules
      that pass the circularity check make matching end; the hosts table is safe
      for plain names.  Where the code can run forever, this is a theorem too
      (rule providers that contain themselves, names mapped to themselves).
    - Refinement: the LRU cache, the ban cache of one key and the domain trie
      behave as small abstract specifications after every sequence of operations;
      the wildcard matcher and the SOCKS5 readers agree with reference
      definitions; two SOCKS5 handshakes against each other agree in every
      interleaving.
    - Invariants: fake addresses and names stay in bijection, sizes stay bounded,
      every parked connection is released exactly once under every interleaving.
    - Round trips: ranges, UDP packets, addresses, fake-IP lookups.
    - Sniffing: the TLS and HTTP sniffers answer every input without a panic and ask
      only for more than they have; the dispatcher ends, consumes nothing and keeps
      its buffer bounded whatever the peer sends; a client hello or an HTTP request
      gives the connection its name in whatever pieces it arrives.  A buffered
      connection is a queue of bytes.
    - DNS: the handlers answer every query and keep the pools consistent; an address
      answered in fake-IP mode is one the tunnel turns back into the name; no address
      of a real server reaches a client in a service binding.
    - Groups: a group offers what its options ask for and never nothing; failover,
      the fastest proxy, turns, consistent hashing and sticky sessions choose as they
      promise; what a group knows about a proxy is what its last tests said; shared
      computations never give a value from before a reset.
    - Configurations: the sort of groups always ends, with an order or with an error that
      is true of the configuration; so does the check of dialer proxies.
    - Succinct set: its search is the search of the trie, and no key is lost in its arrays
      or in its binary form.
    - Caches: the adaptive cache stays within its size and answers what was last
      written; a value is handed out within 30 days of its last update only, nothing
      invalidated comes back, waiters always get an answer, a failed refresh loses
      nothing; saving and restoring keep values and times, evicting a network scope is
      complete and leaves other scopes alone.
    - Override expressions: what an update along a path changes and what it leaves alone;
      selected targets and plain paths write the same; deleting several paths at once
      means the positions in the document as it was; [*] merges mappings at every depth.
      Reading a program ends on every text, what it accepts turns mappings into mappings,
      and the text of an assignment does what it says.
    - OpenVPN: control packets survive protection and the wire; the control channel
      returns every message once and in order, and its connection is a byte stream, over
      a network that loses, repeats and reorders; acknowledgements are neither lost nor
      early; no protected packet and no data packet is taken twice, and the window of the
      data channel is a specification without a window; one writer at a time, control
      packets first; the end of a key record does not depend on how it arrives; derived
      keys fit every supported cipher.
    - Name resolution: a reply fits its request, comes from an answer of the servers for
      that question or a restored record and never has a fake address; a filtered address
      never comes from the main servers; no record outlives its time to live; races are
      won by the first usable answer; transports are shared exactly where they may be; the
      test in front of the address parser loses no address.

    ** Bounds and fuel

    Loops and recursions of the code that are not structural take fuel and answer
    [None] when it runs out; a theorem about their result either proves that some
    fuel is enough, for [matchLocked] one more round than there are rematch
    adapters, for rule matching a bound computed from the rules, for sniffing two
    rounds more than the 65536 bytes the buffer may grow to, since every round but
    the last gains a byte, for the search of the succinct set twice the number of its edges and
    two more, since no edge is visited twice, for reading an override expression one
    step for each byte of the text and one more, since every nested expression is
    shorter than what it is nested in, for repeated reads of a control channel one more
    than what arrives, or that no fuel is.  Integers that can overflow are kept at their width ([wrap], [norm],
    [i64]); times are integers of nanoseconds.

    ** Parameters

    Code outside the repository is a parameter: regular expressions, MMDB readers
    and geodata files (class [Externals]), case mapping outside ASCII (class
    [UnicodeCase]), sorting (class [SliceSort]), name resolution (class
    [Resolver]), the system's hosts file, the validity test of domain names, the
    HPACK decoder (class [Hpack]), the DNS message library (class [DnsLib]) and
    exchanges with name servers, the hash of strings and the
    public suffixes (class [Balance]), rank and select on bitmaps (class [Bitmap] with
    [BitmapLaws]), regular expressions, YAML encoding and the text of floats in override
    expressions (class [OverrideLib]), digests and ciphers (class [Crypto] with
    [CryptoLaws]), random bytes (class [Random]) and two functions of a slice library
    (class [Lo] with [LoLaws]).  Each class has a concrete instance that
    the witnesses use.

    ** Not modelled

    Encrypted transports other than OpenVPN, of OpenVPN the goroutines of the client
    ([client.go]), deadlines and cancellation, and the outbound and inbound protocols
    other than the SOCKS5 wire format, of DNS the transports, the choice among the addresses
    of a server, the domain client and the candidates of the direct resolver, the QUIC sniffer, the construction of the sniffing dispatcher, [PatchFrom] of the
    enhancer, [ReadByte] and [UnreadByte] of buffered connections, the HTTP API, the platform
    layers (TUN, iptables, process lookup), reading configuration files beyond the
    rules and hosts sections, and the dialling and relaying goroutines of the
    tunnel: they are I/O, cryptography, or code driven by libraries outside the
    repository.  Documents of override expressions are trees: the sharing that [|=] can
    create inside one document is not modelled.  Mutexes are not modelled as such: an operation that runs under
    one is one step. *)

From Stdlib Require Import ZArith Lia Bool.
From stdpp Require Import base list gmap strings numbers.

#[global] Open Scope Z_scope.

(** ** Results: a Go function returning [(A, error)] *)

Inductive result (E A : Type) : Type :=
| Ok (a : A)
| Err (e : E).
Arguments Ok {E A} _.
Arguments Err {E A} _.

#[export] Instance result_eq_dec {E A} `{EqDecision E} `{EqDecision A} : EqDecision (result E A).
Proof. solve_decision. Defined.

Declare Scope go_scope.
Delimit Scope go_scope with go.
#[global] Open Scope go_scope.

Notation "'let!' x ':=' c 'in' k" :=
  (match c with Ok x => k | Err e => Err e end)
  (at level 10, x pattern, c at level 100, k at level 200) : go_scope.

Definition is_ok {E A} (r : result E A) : bool :=
  match r with Ok _ => true | Err _ => false end.

(** ** Machine integers: a [w]-bit unsigned value is a [Z] in [[0, 2^w)] *)

Definition wrap (w x : Z) : Z := x `mod` 2 ^ w.
Definition unsigned_ok (w x : Z) : Prop := 0 ≤ x < 2 ^ w.

(** ** Tactics and hint databases *)

Create HintDb go discriminated.
#[export] Hint Constructors Forall : go.

(** Case analysis on the scrutinee of a [match]/[if] of the goal or of a hypothesis, keeping its equation. *)
Ltac go_case :=
  match goal with
  | |- context [match ?x with _ => _ end] => destruct x eqn:?
  | H : context [match ?x with _ => _ end] |- _ => destruct x eqn:?
  end.

Ltac go_cases := repeat (go_case; simplify_eq/=; try done).

(** Booleans of the source's conditions turned into propositions. *)
Ltac breflect :=
  repeat match goal with
  | H : andb _ _ = true |- _ => apply andb_true_iff in H as [??]
  | H : andb _ _ = false |- _ => apply andb_false_iff in H
  | H : orb _ _ = true |- _ => apply orb_true_iff in H
  | H : orb _ _ = false |- _ => apply orb_false_iff in H as [??]
  | H : negb _ = true |- _ => apply negb_true_iff in H
  | H : negb _ = false |- _ => apply negb_false_iff in H
  | H : (_ <? _) = true |- _ => apply Z.ltb_lt in H
  | H : (_ <? _) = false |- _ => apply Z.ltb_ge in H
  | H : (_ <=? _) = true |- _ => apply Z.leb_le in H
  | H : (_ <=? _) = false |- _ => apply Z.leb_gt in H
  | H : (_ =? _) = true |- _ => apply Z.eqb_eq in H
  | H : (_ =? _) = false |- _ => apply Z.eqb_neq in H
  | H : bool_decide _ = true |- _ => apply bool_decide_eq_true in H
  | H : bool_decide _ = false |- _ => apply bool_decide_eq_false in H
  end.

(** ** Generic lemmas *)

Lemma wrap_range w x : 0 ≤ w → unsigned_ok w (wrap w x).
Proof. intros Hw. unfold unsigned_ok, wrap. apply Z.mod_pos_bound. lia. Qed.

Lemma wrap_small w x : unsigned_ok w x → wrap w x = x.
Proof. intros H. unfold wrap. by apply Z.mod_small. Qed.
#[export] Hint Resolve wrap_range wrap_small : go.

(** ** Signed 64-bit arithmetic *)

Definition i64 (x : Z) : Z := (x + 2 ^ 63) `mod` 2 ^ 64 - 2 ^ 63.

Lemma i64_small x : - 2 ^ 63 ≤ x < 2 ^ 63 → i64 x = x.
Proof. intros H. unfold i64. rewrite Z.mod_small; lia. Qed.
#[export] Hint Resolve i64_small : go.

Lemma list_filter_all {A} (P : A → Prop) `{∀ x, Decision (P x)} (l : list A) :
  (∀ x, x ∈ l → P x) → filter P l = l.
Proof.
  induction l as [|x l IH]; intros Hl; [done|].
  rewrite filter_cons_True by (apply Hl; left). rewrite IH; [done|].
  intros y Hy. apply Hl. by right.
Qed.

Lemma filter_none {A} (P : A → Prop) `{∀ x, Decision (P x)} (l : list A) : (∀ x, x ∈ l → ¬ P x) → filter P l = [].
Proof.
  intros Hl. destruct (filter P l) as [|x k] eqn:E; [done|]. exfalso.
  assert (x ∈ filter P l) as [Hp Hx]%list_elem_of_filter by (rewrite E; left). by apply (Hl x).
Qed.

Lemma length_omap_total {A B} (f : A → option B) (l : list A) :
  (∀ x, x ∈ l → ∃ y, f x = Some y) → length (omap f l) = length l.
Proof.
  induction l as [|x l IH]; intros Hl; [done|]. simpl.
  destruct (Hl x) as [y Hy]; [left|]. rewrite Hy. simpl. f_equal.
  apply IH. intros z Hz. apply Hl. by right.
Qed.

(** ** Go's fixed-width integer types *)

Record int_type := IntType { width : Z; signed : bool }.

Definition uint8 := IntType 8 false.
Definition uint16 := IntType 16 false.
Definition uint32 := IntType 32 false.
Definition int32 := IntType 32 true.

Definition int_min (T : int_type) : Z := if signed T then - 2 ^ (width T - 1) else 0.
Definition int_max (T : int_type) : Z := if signed T then 2 ^ (width T - 1) - 1 else 2 ^ width T - 1.

(** The conversion [T(x)] and the result of an arithmetic operation at type [T]. *)
Definition norm (T : int_type) (x : Z) : Z := (x - int_min T) `mod` 2 ^ width T + int_min T.

Definition in_type (T : int_type) (x : Z) : Prop := int_min T ≤ x ≤ int_max T.

(** Widths are positive. *)
Definition int_ok (T : int_type) : Prop := 0 < width T.

Lemma int_span T : int_ok T → int_max T - int_min T + 1 = 2 ^ width T.
Proof.
  unfold int_ok, int_max, int_min. intros Hw. destruct (signed T); [|lia].
  replace (width T) with (width T - 1 + 1) at 3 by lia. rewrite Z.pow_add_r by lia. lia.
Qed.

Lemma norm_in_type T x : int_ok T → in_type T (norm T x).
Proof.
  intros HT. pose proof (int_span T HT) as Hs. unfold in_type, norm.
  pose proof (Z.mod_pos_bound (x - int_min T) (2 ^ width T)). unfold int_ok in HT. lia.
Qed.

Lemma norm_id T x : int_ok T → in_type T x → norm T x = x.
Proof.
  intros HT Hx. pose proof (int_span T HT) as Hs. unfold in_type in Hx. unfold norm.
  rewrite Z.mod_small; lia.
Qed.

(** Incrementing wraps exactly at the largest value. *)
Lemma norm_succ T x : int_ok T → in_type T x →
  norm T (x + 1) = if x =? int_max T then int_min T else x + 1.
Proof.
  intros HT Hx. pose proof (int_span T HT) as Hs. unfold in_type in Hx.
  destruct (Z.eqb_spec x (int_max T)) as [->|Hne].
  - unfold norm. replace (int_max T + 1 - int_min T) with (2 ^ width T) by lia.
    rewrite Z.mod_same by (unfold int_ok in HT; lia). lia.
  - apply norm_id; [done|]. unfold in_type. lia.
Qed.
#[export] Hint Resolve norm_in_type norm_id : go.

(** Filtering a mapped list when the two predicates agree on its elements. *)
Lemma filter_fmap_ext {A B} (f : A → B) (P : B → Prop) (Q : A → Prop)
    `{∀ x, Decision (P x)} `{∀ x, Decision (Q x)} (l : list A) :
  (∀ x, x ∈ l → P (f x) ↔ Q x) → filter P (f <$> l) = f <$> filter Q l.
Proof.
  induction l as [|x l IH]; intros Hl; [done|]. rewrite fmap_cons, !filter_cons.
  rewrite IH by (intros y Hy; apply Hl; by right).
  destruct (Hl x) as [H1 H2]; [left|]. destruct (decide (Q x)) as [Hq|Hq].
  - by rewrite decide_True by auto.
  - by rewrite decide_False by auto.
Qed.
