(* ===== verification/GoStrings.v ===== *)
(** * The part of Go's [strings], [strconv], [unicode] and [slices] packages the sources call.

    A Go string is a sequence of bytes, here a Rocq [string].  The functions
    below are exact on every byte string, with one exception: lower-casing,
    upper-casing and case folding of a string with a non-ASCII byte go through
    Unicode's case tables, which are the fields of the class [UnicodeCase]. *)

From Stdlib Require Import ZArith Lia Ascii.
From stdpp Require Import base list strings numbers.
From S2P Require Import Prelude.
#[local] Open Scope string_scope.
#[local] Open Scope list_scope.
#[local] Open Scope Z_scope.

(** ** Bytes *)

Definition byte_val (c : ascii) : Z := Z.of_N (N_of_ascii c).
Definition byte_of (z : Z) : ascii := ascii_of_N (Z.to_N (z `mod` 256)).

Definition is_ascii (c : ascii) : bool := byte_val c <? 128.

Fixpoint all_ascii (s : string) : bool :=
  match s with
  | EmptyString => true
  | String c s => is_ascii c && all_ascii s
  end.

Definition lower_byte (c : ascii) : ascii :=
  if (65 <=? byte_val c) && (byte_val c <=? 90) then byte_of (byte_val c + 32) else c.
Definition upper_byte (c : ascii) : ascii :=
  if (97 <=? byte_val c) && (byte_val c <=? 122) then byte_of (byte_val c - 32) else c.

Fixpoint map_bytes (f : ascii → ascii) (s : string) : string :=
  match s with
  | EmptyString => EmptyString
  | String c s => String (f c) (map_bytes f s)
  end.

(** ** Unicode case tables *)

Class UnicodeCase := {
  unicode_lower : string → string;
  unicode_upper : string → string;
  unicode_fold_eq : string → string → bool;
}.

(** Case tables that map no rune outside ASCII, used to evaluate the
    definitions on concrete (ASCII) inputs. *)
Definition ascii_case : UnicodeCase := {|
  unicode_lower := map_bytes lower_byte;
  unicode_upper := map_bytes upper_byte;
  unicode_fold_eq s t := bool_decide (map_bytes lower_byte s = map_bytes lower_byte t);
|}.

(** [strings.ToLower], [strings.ToUpper], [strings.EqualFold]. *)
Definition ToLower `{UnicodeCase} (s : string) : string :=
  if all_ascii s then map_bytes lower_byte s else unicode_lower s.
Definition ToUpper `{UnicodeCase} (s : string) : string :=
  if all_ascii s then map_bytes upper_byte s else unicode_upper s.
Definition EqualFold `{UnicodeCase} (s t : string) : bool :=
  if all_ascii s && all_ascii t
  then bool_decide (map_bytes lower_byte s = map_bytes lower_byte t)
  else unicode_fold_eq s t.

(** ** Searching *)

(** [strings.HasPrefix], [strings.HasSuffix], [strings.Contains]. *)
Fixpoint HasPrefix (s p : string) : bool :=
  match p, s with
  | EmptyString, _ => true
  | String c p, String d s => bool_decide (c = d) && HasPrefix s p
  | String _ _, EmptyString => false
  end.

Fixpoint HasSuffix (s p : string) : bool :=
  bool_decide (s = p) ||
  match s with
  | EmptyString => false
  | String _ s => HasSuffix s p
  end.

Fixpoint Contains (s p : string) : bool :=
  HasPrefix s p ||
  match s with
  | EmptyString => false
  | String _ s => Contains s p
  end.

(** [strings.Split(s, sep)] for a one-byte separator: never an empty slice. *)
Fixpoint Split (s : string) (sep : ascii) : list string :=
  match s with
  | EmptyString => [""]
  | String c s =>
      if bool_decide (c = sep) then "" :: Split s sep
      else match Split s sep with
           | [] => [String c EmptyString]
           | h :: t => String c h :: t
           end
  end.

(** [strings.Join(l, sep)]. *)
Fixpoint Join (l : list string) (sep : string) : string :=
  match l with
  | [] => ""
  | [x] => x
  | x :: l => x +:+ sep +:+ Join l sep
  end.

(** [strings.ReplaceAll(s, old, new)] for one-byte arguments. *)
Definition ReplaceAll (s : string) (old new : ascii) : string :=
  map_bytes (λ c, if bool_decide (c = old) then new else c) s.

(** ** Trimming *)

Fixpoint trim_left (drop : ascii → bool) (s : string) : string :=
  match s with
  | EmptyString => EmptyString
  | String c t => if drop c then trim_left drop t else s
  end.

Fixpoint trim_right (drop : ascii → bool) (s : string) : string :=
  match s with
  | EmptyString => EmptyString
  | String c t =>
      match trim_right drop t with
      | EmptyString => if drop c then EmptyString else String c EmptyString
      | t' => String c t'
      end
  end.

(** [strings.Trim(s, cutset)] for an ASCII cutset, given as a predicate. *)
Definition Trim (s : string) (cutset : ascii → bool) : string :=
  trim_right cutset (trim_left cutset s).

(** [strings.TrimSuffix]. *)
Fixpoint TrimSuffix (s p : string) : string :=
  if bool_decide (s = p) then EmptyString
  else match s with
       | EmptyString => EmptyString
       | String c s => String c (TrimSuffix s p)
       end.

(** The UTF-8 encodings of the runes for which [unicode.IsSpace] holds. *)
Definition ascii_space (c : ascii) : bool :=
  ((9 <=? byte_val c) && (byte_val c <=? 13)) || (byte_val c =? 32).

Definition space2 (a b : ascii) : bool :=
  (byte_val a =? 0xC2) && ((byte_val b =? 0x85) || (byte_val b =? 0xA0)).

Definition space3 (a b c : ascii) : bool :=
  let a := byte_val a in let b := byte_val b in let c := byte_val c in
  ((a =? 0xE1) && (b =? 0x9A) && (c =? 0x80)) ||
  ((a =? 0xE2) && (b =? 0x80) &&
     (((0x80 <=? c) && (c <=? 0x8A)) || (c =? 0xA8) || (c =? 0xA9) || (c =? 0xAF))) ||
  ((a =? 0xE2) && (b =? 0x81) && (c =? 0x9F)) ||
  ((a =? 0xE3) && (b =? 0x80) && (c =? 0x80)).

(** The number of bytes of the space rune [s] starts with, 0 if none. *)
Definition leading_space (s : string) : nat :=
  match s with
  | String a t =>
      if ascii_space a then 1%nat
      else match t with
           | String b t =>
               if space2 a b then 2%nat
               else match t with
                    | String c _ => if space3 a b c then 3%nat else 0%nat
                    | EmptyString => 0%nat
                    end
           | EmptyString => 0%nat
           end
  | EmptyString => 0%nat
  end.

(** Whether the last rune of [s] is a space: the reversed bytes start with one. *)
Definition trailing_space (rev_s : string) : nat :=
  match rev_s with
  | String a t =>
      if ascii_space a then 1%nat
      else match t with
           | String b t =>
               if space2 b a then 2%nat
               else match t with
                    | String c _ => if space3 c b a then 3%nat else 0%nat
                    | EmptyString => 0%nat
                    end
           | EmptyString => 0%nat
           end
  | EmptyString => 0%nat
  end.

Fixpoint string_rev_app (s acc : string) : string :=
  match s with
  | EmptyString => acc
  | String c s => string_rev_app s (String c acc)
  end.
Definition string_rev (s : string) : string := string_rev_app s "".

Fixpoint drop_bytes (n : nat) (s : string) : string :=
  match n, s with
  | O, _ => s
  | S n, String _ s => drop_bytes n s
  | S _, EmptyString => EmptyString
  end.

(** Repeatedly drop what [sp] finds at the head; [fuel] bounds the rounds. *)
Fixpoint trim_runs (sp : string → nat) (fuel : nat) (s : string) : string :=
  match fuel with
  | O => s
  | S fuel => match sp s with O => s | n => trim_runs sp fuel (drop_bytes n s) end
  end.

(** [strings.TrimSpace]: every round drops a byte, so the length is fuel enough. *)
Definition TrimSpace (s : string) : string :=
  let s1 := trim_runs leading_space (String.length s) s in
  string_rev (trim_runs trailing_space (String.length s1) (string_rev s1)).

(** ** [strconv] *)

Definition digit_val (c : ascii) : option Z :=
  if (48 <=? byte_val c) && (byte_val c <=? 57) then Some (byte_val c - 48) else None.

Fixpoint parse_digits (acc : Z) (s : string) : option Z :=
  match s with
  | EmptyString => Some acc
  | String c s => match digit_val c with
                  | Some d => parse_digits (acc * 10 + d) s
                  | None => None
                  end
  end.

(** [strconv.ParseUint(s, 10, bits)]: a syntax or a range error is [None]. *)
Definition ParseUint (s : string) (bits : Z) : option Z :=
  match s with
  | EmptyString => None
  | _ => match parse_digits 0 s with
         | Some v => if v <? 2 ^ bits then Some v else None
         | None => None
         end
  end.

(** [strconv.ParseInt(s, 10, bits)]. *)
Definition ParseInt (s : string) (bits : Z) : option Z :=
  let '(neg, digits) :=
    match s with
    | String "+" t => (false, t)
    | String "-" t => (true, t)
    | _ => (false, s)
    end in
  match digits with
  | EmptyString => None
  | _ => match parse_digits 0 digits with
         | Some v =>
             if neg then if v <=? 2 ^ (bits - 1) then Some (- v) else None
             else if v <? 2 ^ (bits - 1) then Some v else None
         | None => None
         end
  end.

(** Decimal printing of a non-negative integer, as [%v] and [strconv.Itoa] do. *)
Definition digit_char (d : Z) : ascii := byte_of (48 + d).

Fixpoint print_nat_aux (fuel : nat) (n : Z) (acc : string) : string :=
  match fuel with
  | O => acc
  | S fuel =>
      let acc := String (digit_char (n `mod` 10)) acc in
      if n `div` 10 =? 0 then acc else print_nat_aux fuel (n `div` 10) acc
  end.

(** 20 digits are enough for a 64-bit value. *)
Definition FormatUint (n : Z) : string := print_nat_aux 20 n "".
Definition Itoa (n : Z) : string :=
  if n <? 0 then String "-" (FormatUint (- n)) else FormatUint n.

(** ** Strings all of whose bytes satisfy a predicate *)

Fixpoint str_all (p : ascii → bool) (s : string) : bool :=
  match s with
  | EmptyString => true
  | String c s => p c && str_all p s
  end.

Lemma str_all_app p s t : str_all p (s +:+ t) = str_all p s && str_all p t.
Proof. induction s as [|c s IH]; simpl; [done|]. by rewrite IH, andb_assoc. Qed.

Lemma str_all_impl (p q : ascii → bool) s :
  (∀ c, p c = true → q c = true) → str_all p s = true → str_all q s = true.
Proof.
  intros Hpq. induction s as [|c s IH]; simpl; [done|].
  rewrite !andb_true_iff. intros [??]. auto.
Qed.

Lemma Split_none s sep : str_all (λ c, negb (bool_decide (c = sep))) s = true → Split s sep = [s].
Proof.
  induction s as [|c s IH]; simpl; [done|]. intros [Hc Hs]%andb_true_iff.
  apply negb_true_iff in Hc. rewrite Hc. by rewrite IH.
Qed.

Lemma Split_app s t sep :
  str_all (λ c, negb (bool_decide (c = sep))) s = true →
  Split (s +:+ String sep t) sep = s :: Split t sep.
Proof.
  induction s as [|c s IH]; simpl; [by rewrite bool_decide_eq_true_2|].
  intros [Hc Hs]%andb_true_iff. apply negb_true_iff in Hc. rewrite Hc. by rewrite IH.
Qed.

Lemma Split_Join l sep :
  l ≠ [] → Forall (λ s, str_all (λ c, negb (bool_decide (c = sep))) s = true) l →
  Split (Join l (String sep "")) sep = l.
Proof.
  intros Hne Hall. induction Hall as [|s l Hs Hall IH]; [done|].
  destruct l as [|s' l]; [by apply Split_none|].
  change (Join (s :: s' :: l) (String sep "")) with (s +:+ String sep (Join (s' :: l) (String sep ""))).
  rewrite Split_app by done. by rewrite IH.
Qed.

Lemma Split_nonempty s sep : Split s sep ≠ [].
Proof. destruct s as [|c s]; simpl; [done|]. by destruct (bool_decide _), (Split s sep). Qed.

Lemma Join_Split d sep : Join (Split d sep) (String sep EmptyString) = d.
Proof.
  induction d as [|c d IH]; [done|]. cbn [Split]. destruct (Split d sep) as [|w ws] eqn:E; [by apply Split_nonempty in E|].
  case_bool_decide as Hc.
  - subst c. rewrite <- IH. done.
  - rewrite <- IH. by destruct ws.
Qed.

Lemma trim_left_id drop s : str_all (λ c, negb (drop c)) s = true → trim_left drop s = s.
Proof. destruct s as [|c s]; simpl; [done|]. intros [Hc _]%andb_true_iff. apply negb_true_iff in Hc. by rewrite Hc. Qed.

Lemma trim_right_id drop s : str_all (λ c, negb (drop c)) s = true → trim_right drop s = s.
Proof.
  induction s as [|c s IH]; simpl; [done|]. intros [Hc Hs]%andb_true_iff. apply negb_true_iff in Hc.
  rewrite IH by done. destruct s; [by rewrite Hc|done].
Qed.

Lemma Trim_id drop s : str_all (λ c, negb (drop c)) s = true → Trim s drop = s.
Proof. intros Hs. unfold Trim. by rewrite trim_left_id, trim_right_id. Qed.

Lemma string_rev_app_app s acc t : string_rev_app s (acc +:+ t) = string_rev_app s acc +:+ t.
Proof. revert acc. induction s as [|c s IH]; intros acc; simpl; [done|]. apply (IH (String c acc)). Qed.

Lemma string_rev_app_rev s acc t :
  string_rev_app (string_rev_app s acc) t = string_rev_app acc (s +:+ t).
Proof. revert acc t. induction s as [|c s IH]; intros acc t; simpl; [done|]. by rewrite IH. Qed.

Lemma string_app_nil_r (s : string) : s +:+ "" = s.
Proof. induction s as [|c s IH]; [done|]. change (String c (s +:+ "") = String c s). by rewrite IH. Qed.

Lemma string_rev_involutive s : string_rev (string_rev s) = s.
Proof. unfold string_rev. rewrite string_rev_app_rev. simpl. apply string_app_nil_r. Qed.

Lemma str_all_rev_app p s acc : str_all p (string_rev_app s acc) = str_all p s && str_all p acc.
Proof.
  revert acc. induction s as [|c s IH]; intros acc; simpl; [done|]. rewrite IH. simpl.
  by destruct (p c), (str_all p s), (str_all p acc).
Qed.

Lemma string_length_rev_app s acc :
  String.length (string_rev_app s acc) = (String.length s + String.length acc)%nat.
Proof. revert acc. induction s as [|c s IH]; intros acc; simpl; [done|]. rewrite IH. simpl. lia. Qed.

Definition graphic (c : ascii) : bool := is_ascii c && negb (ascii_space c).

Lemma graphic_no_space2 a b : graphic a = true → space2 a b = false ∧ space2 b a = false.
Proof.
  unfold graphic, is_ascii, space2. intros [Ha%Z.ltb_lt _]%andb_true_iff.
  split; apply andb_false_iff; [left; apply Z.eqb_neq; lia|right].
  rewrite orb_false_iff, !Z.eqb_neq. lia.
Qed.

Lemma graphic_no_space3 a b c : graphic a = true → space3 a b c = false ∧ space3 c b a = false.
Proof.
  unfold graphic, is_ascii, space3. intros [Ha%Z.ltb_lt _]%andb_true_iff.
  rewrite !orb_false_iff, !andb_false_iff, !orb_false_iff, !andb_false_iff, !Z.eqb_neq, !Z.leb_gt. lia.
Qed.

Lemma leading_space_graphic s : str_all graphic s = true → leading_space s = 0%nat.
Proof.
  destruct s as [|a s]; simpl; [done|]. intros [Ha _]%andb_true_iff.
  assert (ascii_space a = false) as -> by (unfold graphic in Ha; by apply andb_true_iff in Ha as [_ ?%negb_true_iff]).
  destruct s as [|b s]; [done|]. rewrite (proj1 (graphic_no_space2 a b Ha)).
  destruct s as [|c s]; [done|]. by rewrite (proj1 (graphic_no_space3 a b c Ha)).
Qed.

Lemma trailing_space_graphic s : str_all graphic s = true → trailing_space s = 0%nat.
Proof.
  destruct s as [|a s]; simpl; [done|]. intros [Ha _]%andb_true_iff.
  assert (ascii_space a = false) as -> by (unfold graphic in Ha; by apply andb_true_iff in Ha as [_ ?%negb_true_iff]).
  destruct s as [|b s]; [done|]. rewrite (proj2 (graphic_no_space2 a b Ha)).
  destruct s as [|c s]; [done|]. by rewrite (proj2 (graphic_no_space3 a b c Ha)).
Qed.

Lemma trim_runs_id sp fuel s : sp s = 0%nat → trim_runs sp fuel s = s.
Proof. intros Hs. destruct fuel; simpl; [done|]. by rewrite Hs. Qed.

Lemma TrimSpace_graphic s : str_all graphic s = true → TrimSpace s = s.
Proof.
  intros Hs. unfold TrimSpace. rewrite (trim_runs_id leading_space) by by apply leading_space_graphic.
  rewrite (trim_runs_id trailing_space); [apply string_rev_involutive|].
  apply trailing_space_graphic. unfold string_rev. by rewrite str_all_rev_app, Hs.
Qed.

Lemma map_bytes_id f s : str_all (λ c, bool_decide (f c = c)) s = true → map_bytes f s = s.
Proof.
  induction s as [|c s IH]; simpl; [done|]. intros [Hc%bool_decide_eq_true Hs]%andb_true_iff.
  by rewrite Hc, IH.
Qed.

(** ** Printing and parsing decimal numbers *)

Definition is_digit (c : ascii) : bool := bool_decide (is_Some (digit_val c)).

Lemma digit_cases d : 0 ≤ d < 10 → d ∈ seqZ 0 10.
Proof. intros ?. apply elem_of_seqZ. lia. Qed.

Lemma digit_val_char d : 0 ≤ d < 10 → digit_val (digit_char d) = Some d.
Proof.
  intros Hd%digit_cases. revert d Hd. apply list.Forall_forall.
  apply (bool_decide_unpack _). vm_compute. done.
Qed.

Lemma print_parse fuel n s :
  0 ≤ n < 10 ^ Z.of_nat fuel → (0 < fuel)%nat →
  ∃ k, 0 ≤ k ∧ ∀ acc, parse_digits acc (print_nat_aux fuel n s) = parse_digits (acc * 10 ^ k + n) s.
Proof.
  revert n s. induction fuel as [|fuel IH]; intros n s Hn Hf; [lia|].
  cbn [print_nat_aux]. pose proof (Z.mod_pos_bound n 10). pose proof (Z.div_mod n 10).
  destruct (Z.eqb_spec (n `div` 10) 0) as [Hz|Hz].
  - exists 1. split; [lia|]. intros acc. simpl. rewrite digit_val_char by lia. f_equal. lia.
  - assert (0 < fuel)%nat. { destruct fuel; [|lia]. simpl in Hn. rewrite Z.div_small in Hz; lia. }
    destruct (IH (n `div` 10) (String (digit_char (n `mod` 10)) s)) as (k & Hk & Hp); [|done|].
    { split; [apply Z.div_pos; lia|]. apply Z.div_lt_upper_bound; [lia|].
      rewrite Nat2Z.inj_succ, Z.pow_succ_r in Hn by lia. lia. }
    exists (k + 1). split; [lia|]. intros acc. rewrite Hp. simpl. rewrite digit_val_char by lia.
    f_equal. rewrite Z.pow_add_r by lia. lia.
Qed.

Lemma print_digits fuel n s :
  0 ≤ n → str_all is_digit s = true → str_all is_digit (print_nat_aux fuel n s) = true.
Proof.
  revert n s. induction fuel as [|fuel IH]; intros n s Hn Hs; [done|]. cbn [print_nat_aux].
  assert (str_all is_digit (String (digit_char (n `mod` 10)) s) = true).
  { simpl. rewrite Hs, andb_true_r. unfold is_digit. apply bool_decide_eq_true_2.
    rewrite digit_val_char by (apply Z.mod_pos_bound; lia). eauto. }
  destruct (_ =? 0); [done|]. apply IH; [apply Z.div_pos; lia|done].
Qed.

Lemma print_nonempty fuel n s : (0 < fuel)%nat ∨ s ≠ "" → print_nat_aux fuel n s ≠ "".
Proof.
  revert n s. induction fuel as [|fuel IH]; intros n s H; [destruct H; [lia|done]|]. cbn [print_nat_aux].
  destruct (_ =? 0); [done|]. apply IH. by right.
Qed.

(** [strconv.ParseUint] reads back what the decimal printer wrote. *)
Lemma ParseUint_FormatUint n bits :
  0 ≤ n < 2 ^ bits → n < 2 ^ 64 → ParseUint (FormatUint n) bits = Some n.
Proof.
  intros Hn H64. unfold ParseUint, FormatUint.
  assert (print_nat_aux 20 n "" ≠ "") as Hne by (apply print_nonempty; left; lia).
  destruct (print_parse 20 n "") as (k & Hk & Hp); [|lia|].
  { split; [lia|]. etrans; [exact H64|]. vm_compute. done. }
  rewrite (Hp 0). destruct (print_nat_aux 20 n "") eqn:E; [done|]. simpl.
  by rewrite (proj2 (Z.ltb_lt _ _)) by lia.
Qed.

Lemma FormatUint_digits n : 0 ≤ n → str_all is_digit (FormatUint n) = true.
Proof. intros Hn. by apply print_digits. Qed.

Lemma FormatUint_nonempty n : FormatUint n ≠ "".
Proof. apply print_nonempty. left. lia. Qed.

Lemma byte_val_of z : 0 ≤ z < 256 → byte_val (byte_of z) = z.
Proof.
  intros Hz. unfold byte_val, byte_of. rewrite Z.mod_small, N_ascii_embedding by lia. lia.
Qed.

Lemma byte_of_val c : byte_of (byte_val c) = c.
Proof.
  unfold byte_val, byte_of. pose proof (N_ascii_bounded c).
  rewrite Z.mod_small, N2Z.id by lia. apply ascii_N_embedding.
Qed.

Lemma byte_val_range c : 0 ≤ byte_val c < 256.
Proof. unfold byte_val. pose proof (N_ascii_bounded c). lia. Qed.

(** A decimal digit is a byte between 48 and 57. *)
Lemma is_digit_range c : is_digit c = true → 48 ≤ byte_val c ≤ 57.
Proof.
  unfold is_digit, digit_val. intros [v Hv]%bool_decide_eq_true.
  destruct (_ && _) eqn:E; [|done]. breflect. lia.
Qed.

Lemma is_digit_ne c d : is_digit c = true → is_digit d = false → bool_decide (c = d) = false.
Proof. intros Hc Hd. apply bool_decide_eq_false_2. congruence. Qed.

Lemma is_digit_graphic c : is_digit c = true → graphic c = true.
Proof.
  intros Hc%is_digit_range. unfold graphic, is_ascii, ascii_space.
  rewrite andb_true_iff, negb_true_iff, Z.ltb_lt, orb_false_iff, andb_false_iff, !Z.leb_gt, Z.eqb_neq. lia.
Qed.

(** ** A string as the list of its bytes *)

Fixpoint bytes (s : string) : list ascii :=
  match s with
  | EmptyString => []
  | String c s => c :: bytes s
  end.

Fixpoint of_bytes (l : list ascii) : string :=
  match l with
  | [] => EmptyString
  | c :: l => String c (of_bytes l)
  end.

Lemma of_bytes_bytes s : of_bytes (bytes s) = s.
Proof. induction s as [|c s IH]; simpl; [done|]. by rewrite IH. Qed.

Lemma bytes_of_bytes l : bytes (of_bytes l) = l.
Proof. induction l as [|c l IH]; simpl; [done|]. by rewrite IH. Qed.

Lemma bytes_inj s t : bytes s = bytes t → s = t.
Proof. intros Heq. by rewrite <- (of_bytes_bytes s), Heq, of_bytes_bytes. Qed.

Lemma length_bytes s : length (bytes s) = String.length s.
Proof. induction s as [|c s IH]; simpl; [done|]. by rewrite IH. Qed.
