(* ===== verification/Lru.v ===== *)
(** * [common/lru]: the LRU cache with ages, and the abstract cache it refines.

    [LruCache] is the struct of [lrucache.go].  The [*entry] cells live in a
    store ([world]) because [CloneTo] makes two caches share them; a list
    element and its cell are in bijection inside one cache, so the linked list
    is the list of the cells' addresses, the front (least recent) first.  The
    clock is read once per operation.  [spec_*] is the abstract cache: the list
    of entries in recency order. *)

From Stdlib Require Import ZArith Lia.
From stdpp Require Import base list gmap numbers.
From S2P Require Import Prelude.
#[local] Open Scope Z_scope.

Section lru.
Context {K V : Type} `{EqK : EqDecision K} `{CountK : !Countable K}.

(** ** Data *)

Record entry := Entry { key : K; value : V; expires : Z }.

Record LruCache := Cache {
  maxAge : Z;
  maxSize : Z;
  cache : gmap K positive;
  lru : list positive;
  updateAgeOnGet : bool;
  staleReturn : bool;
  onEvict : bool;
}.

(** The cells, and the trace of the calls of the eviction callback. *)
Record world := World { heap : gmap positive entry; evicted : list (K * V) }.

Definition set_lists (c : LruCache) (m : gmap K positive) (l : list positive) : LruCache :=
  Cache (maxAge c) (maxSize c) m l (updateAgeOnGet c) (staleReturn c) (onEvict c).

Definition set_cell (w : world) (le : positive) (e : entry) : world :=
  World (<[le := e]> (heap w)) (evicted w).

(** ** Options and construction *)

Inductive Option_ :=
| WithEvict
| WithUpdateAgeOnGet
| WithAge (maxAge : Z)
| WithSize (maxSize : Z)
| WithStale (stale : bool).

Definition apply_option (c : LruCache) (o : Option_) : LruCache :=
  match o with
  | WithEvict => Cache (maxAge c) (maxSize c) (cache c) (lru c) (updateAgeOnGet c) (staleReturn c) true
  | WithUpdateAgeOnGet => Cache (maxAge c) (maxSize c) (cache c) (lru c) true (staleReturn c) (onEvict c)
  | WithAge a => Cache a (maxSize c) (cache c) (lru c) (updateAgeOnGet c) (staleReturn c) (onEvict c)
  | WithSize n => Cache (maxAge c) n (cache c) (lru c) (updateAgeOnGet c) (staleReturn c) (onEvict c)
  | WithStale b => Cache (maxAge c) (maxSize c) (cache c) (lru c) (updateAgeOnGet c) b (onEvict c)
  end.

Definition Clear (c : LruCache) : LruCache := set_lists c ∅ [].

Definition New (options : list Option_) : LruCache :=
  fold_left apply_option options (Clear (Cache 0 0 ∅ [] false false false)).

(** ** Internal operations *)

Definition deleteElement (w : world) (c : LruCache) (le : positive) : world * LruCache :=
  match heap w !! le with
  | Some e =>
      (World (heap w) (if onEvict c then evicted w ++ [(key e, value e)] else evicted w),
       set_lists c (delete (key e) (cache c)) (filter (.≠ le) (lru c)))
  | None => (w, c)
  end.

(** The loop of [maybeDeleteOldest]; each round removes the front element. *)
Fixpoint delete_oldest (fuel : nat) (now : Z) (w : world) (c : LruCache) : world * LruCache :=
  match fuel, lru c with
  | S fuel, le :: _ =>
      match heap w !! le with
      | Some e =>
          if expires e <=? now
          then let '(w, c) := deleteElement w c le in delete_oldest fuel now w c
          else (w, c)
      | None => (w, c)
      end
  | _, _ => (w, c)
  end.

Definition maybeDeleteOldest (now : Z) (w : world) (c : LruCache) : world * LruCache :=
  if negb (staleReturn c) && (0 <? maxAge c)
  then delete_oldest (length (lru c)) now w c
  else (w, c).

Definition MoveToBack (c : LruCache) (le : positive) : LruCache :=
  set_lists c (cache c) (filter (.≠ le) (lru c) ++ [le]).

Definition get (now : Z) (w : world) (c : LruCache) (k : K) : world * LruCache * option entry :=
  match cache c !! k with
  | None => (w, c, None)
  | Some le =>
      match heap w !! le with
      | None => (w, c, None)
      | Some e =>
          if negb (staleReturn c) && (0 <? maxAge c) && (expires e <=? now)
          then let '(w, c) := deleteElement w c le in
               let '(w, c) := maybeDeleteOldest now w c in
               (w, c, None)
          else
            let c := MoveToBack c le in
            if (0 <? maxAge c) && updateAgeOnGet c
            then let e := Entry (key e) (value e) (i64 (now + maxAge c)) in
                 (set_cell w le e, c, Some e)
            else (w, c, Some e)
      end
  end.

Definition setWithExpire (now : Z) (w : world) (c : LruCache) (k : K) (v : V) (exp : Z) : world * LruCache :=
  let '(w, c) :=
    match cache c !! k with
    | Some le => (set_cell w le (Entry k v exp), MoveToBack c le)
    | None =>
        let le := fresh (dom (heap w)) in
        let w := set_cell w le (Entry k v exp) in
        let c := set_lists c (<[k := le]> (cache c)) (lru c ++ [le]) in
        if 0 <? maxSize c
        then if maxSize c <? Z.of_nat (length (lru c))
             then match head (lru c) with
                  | Some front => deleteElement w c front
                  | None => (w, c)
                  end
             else (w, c)
        else (w, c)
    end in
  maybeDeleteOldest now w c.

Definition set (now : Z) (w : world) (c : LruCache) (k : K) (v : V) : world * LruCache :=
  let exp := if 0 <? maxAge c then i64 (now + maxAge c) else 0 in
  setWithExpire now w c k v exp.

Definition delete_ (w : world) (c : LruCache) (k : K) : world * LruCache :=
  match cache c !! k with
  | Some le => deleteElement w c le
  | None => (w, c)
  end.

(** ** Exported operations *)

Definition Get (now : Z) (w : world) (c : LruCache) (k : K) : world * LruCache * option V :=
  let '(w, c, el) := get now w c k in (w, c, value <$> el).

Definition GetOrStore (now : Z) (w : world) (c : LruCache) (k : K) (constructor : unit → V)
    : world * LruCache * (V * bool) :=
  let '(w, c, el) := get now w c k in
  match el with
  | None => let v := constructor tt in let '(w, c) := set now w c k v in (w, c, (v, false))
  | Some e => (w, c, (value e, true))
  end.

Definition GetWithExpire (now : Z) (w : world) (c : LruCache) (k : K)
    : world * LruCache * option (V * Z) :=
  let '(w, c, el) := get now w c k in (w, c, (λ e, (value e, expires e)) <$> el).

Definition Exist (c : LruCache) (k : K) : bool := bool_decide (is_Some (cache c !! k)).

Definition Set_ (now : Z) (w : world) (c : LruCache) (k : K) (v : V) : world * LruCache :=
  set now w c k v.

Definition SetWithExpire (now : Z) (w : world) (c : LruCache) (k : K) (v : V) (exp : Z) : world * LruCache :=
  setWithExpire now w c k v exp.

Definition Delete (w : world) (c : LruCache) (k : K) : world * LruCache := delete_ w c k.

Definition Compute_ (now : Z) (w : world) (c : LruCache) (k : K) (valueFn : option V → V * bool)
    : world * LruCache * option V :=
  let '(w, c, el) := get now w c k in
  let '(newValue, del) := valueFn (value <$> el) in
  if del
  then match el with
       | Some _ => let '(w, c) := delete_ w c k in (w, c, None)
       | None => (w, c, None)
       end
  else let '(w, c) := set now w c k newValue in (w, c, Some newValue).

(** [Snapshot]: the entries in list order; a cell is copied into an [Item]. *)
Definition Snapshot (w : world) (c : LruCache) : list entry :=
  omap (λ le, heap w !! le) (lru c).

(** [CloneTo]: [n] ends up holding the very cells of [c]. *)
Definition CloneTo (w : world) (c n : LruCache) : LruCache :=
  fold_left
    (λ n le, match heap w !! le with
             | Some e => set_lists n (<[key e := le]> (cache n)) (lru n ++ [le])
             | None => n
             end)
    (lru c) (set_lists n ∅ []).

(** ** The abstract cache: entries in recency order, and the eviction trace *)

Abbreviation astate := (list entry * list (K * V))%type.

Definition a_find (k : K) (l : list entry) : option entry := snd <$> list_find (λ e, key e = k) l.
Definition a_remove (k : K) (l : list entry) : list entry := filter (λ e, key e ≠ k) l.
Definition a_log (c : LruCache) (ev : list (K * V)) (e : entry) : list (K * V) :=
  if onEvict c then ev ++ [(key e, value e)] else ev.
Definition expiring (c : LruCache) : bool := negb (staleReturn c) && (0 <? maxAge c).

Fixpoint a_drop (c : LruCache) (now : Z) (l : list entry) (ev : list (K * V)) : astate :=
  match l with
  | e :: l' => if expires e <=? now then a_drop c now l' (a_log c ev e) else (l, ev)
  | [] => ([], ev)
  end.

Definition a_trim (c : LruCache) (now : Z) (a : astate) : astate :=
  if expiring c then a_drop c now a.1 a.2 else a.

Definition a_delete (c : LruCache) (a : astate) (k : K) : astate :=
  match a_find k a.1 with
  | Some e => (a_remove k a.1, a_log c a.2 e)
  | None => a
  end.

Definition a_refresh (c : LruCache) (now : Z) (e : entry) : entry :=
  if (0 <? maxAge c) && updateAgeOnGet c then Entry (key e) (value e) (i64 (now + maxAge c)) else e.

Definition a_get (c : LruCache) (now : Z) (a : astate) (k : K) : astate * option entry :=
  match a_find k a.1 with
  | None => (a, None)
  | Some e =>
      if expiring c && (expires e <=? now)
      then (a_trim c now (a_delete c a k), None)
      else ((a_remove k a.1 ++ [a_refresh c now e], a.2), Some (a_refresh c now e))
  end.

(** Make room: drop the least recent entry when the bound is exceeded. *)
Definition a_bound (c : LruCache) (a : astate) : astate :=
  match a.1 with
  | e :: l => if (0 <? maxSize c) && (maxSize c <? Z.of_nat (length (e :: l)))
              then (l, a_log c a.2 e) else a
  | [] => a
  end.

Definition a_put (c : LruCache) (now : Z) (a : astate) (k : K) (v : V) (exp : Z) : astate :=
  a_trim c now
    (match a_find k a.1 with
     | Some _ => (a_remove k a.1 ++ [Entry k v exp], a.2)
     | None => a_bound c (a.1 ++ [Entry k v exp], a.2)
     end).

Definition a_set (c : LruCache) (now : Z) (a : astate) (k : K) (v : V) : astate :=
  a_put c now a k v (if 0 <? maxAge c then i64 (now + maxAge c) else 0).

(** ** Sequences of operations, concrete and abstract *)

Inductive op :=
| OGet (k : K) | OGetOrStore (k : K) (v : V) | OGetWithExpire (k : K) | OExist (k : K)
| OSet (k : K) (v : V) | OSetWithExpire (k : K) (v : V) (exp : Z) | ODelete (k : K)
| OCompute (k : K) (f : option V → V * bool) | OClear | OSnapshot.

Inductive out :=
| RVal (r : option V) | RStored (r : V * bool) | RExpire (r : option (V * Z)) | RBool (b : bool)
| RItems (l : list entry) | RUnit.

Definition step (now : Z) (w : world) (c : LruCache) (o : op) : world * LruCache * out :=
  match o with
  | OGet k => let '(w, c, r) := Get now w c k in (w, c, RVal r)
  | OGetOrStore k v => let '(w, c, r) := GetOrStore now w c k (λ _, v) in (w, c, RStored r)
  | OGetWithExpire k => let '(w, c, r) := GetWithExpire now w c k in (w, c, RExpire r)
  | OExist k => (w, c, RBool (Exist c k))
  | OSet k v => let '(w, c) := Set_ now w c k v in (w, c, RUnit)
  | OSetWithExpire k v exp => let '(w, c) := SetWithExpire now w c k v exp in (w, c, RUnit)
  | ODelete k => let '(w, c) := Delete w c k in (w, c, RUnit)
  | OCompute k f => let '(w, c, r) := Compute_ now w c k f in (w, c, RVal r)
  | OClear => (w, Clear c, RUnit)
  | OSnapshot => (w, c, RItems (Snapshot w c))
  end.

Definition a_step (c : LruCache) (now : Z) (a : astate) (o : op) : astate * out :=
  match o with
  | OGet k => let '(a, r) := a_get c now a k in (a, RVal (value <$> r))
  | OGetOrStore k v =>
      let '(a, r) := a_get c now a k in
      match r with
      | Some e => (a, RStored (value e, true))
      | None => (a_set c now a k v, RStored (v, false))
      end
  | OGetWithExpire k => let '(a, r) := a_get c now a k in (a, RExpire ((λ e, (value e, expires e)) <$> r))
  | OExist k => (a, RBool (bool_decide (is_Some (a_find k a.1))))
  | OSet k v => (a_set c now a k v, RUnit)
  | OSetWithExpire k v exp => (a_put c now a k v exp, RUnit)
  | ODelete k => (a_delete c a k, RUnit)
  | OCompute k f =>
      let '(a, r) := a_get c now a k in
      let '(v, del) := f (value <$> r) in
      if del then (match r with Some _ => a_delete c a k | None => a end, RVal None)
      else (a_set c now a k v, RVal (Some v))
  | OClear => (([], a.2), RUnit)
  | OSnapshot => (a, RItems a.1)
  end.

Fixpoint run (w : world) (c : LruCache) (l : list (Z * op)) : world * LruCache * list out :=
  match l with
  | [] => (w, c, [])
  | (now, o) :: l =>
      let '(w, c, r) := step now w c o in
      let '(w, c, rs) := run w c l in (w, c, r :: rs)
  end.

Fixpoint a_run (c : LruCache) (a : astate) (l : list (Z * op)) : astate * list out :=
  match l with
  | [] => (a, [])
  | (now, o) :: l =>
      let '(a, r) := a_step c now a o in
      let '(a, rs) := a_run c a l in (a, r :: rs)
  end.

(** ** The representation invariant *)

Record wf (w : world) (c : LruCache) : Prop := {
  wf_nodup : NoDup (lru c);
  wf_elem le : le ∈ lru c → ∃ e, heap w !! le = Some e ∧ cache c !! key e = Some le;
  wf_cache k le : cache c !! k = Some le → le ∈ lru c ∧ ∃ e, heap w !! le = Some e ∧ key e = k;
}.

Definition abs (w : world) (c : LruCache) : astate := (Snapshot w c, evicted w).

(** Operations never change the options of a cache. *)
Definition same_config (c c' : LruCache) : Prop := c' = set_lists c (cache c') (lru c').

End lru.
Arguments entry : clear implicits.
Arguments world : clear implicits.
Arguments LruCache K {_ _}.
Arguments op : clear implicits.
Arguments out : clear implicits.

Section proofs.
Context {K V : Type} `{EqK : EqDecision K} `{CountK : !Countable K}.
Implicit Types (w : world K V) (c : LruCache K) (l : list (entry K V)).

(** ** Views of the list of cells *)

Lemma Snapshot_app w (ls1 ls2 : list positive) :
  omap (λ le, heap w !! le) (ls1 ++ ls2) = omap (λ le, heap w !! le) ls1 ++ omap (λ le, heap w !! le) ls2.
Proof. apply omap_app. Qed.

Lemma omap_heap_insert (h : gmap positive (entry K V)) le e (ls : list positive) :
  le ∉ ls → omap (λ x, <[le := e]> h !! x) ls = omap (λ x, h !! x) ls.
Proof.
  induction ls as [|x ls IH]; [done|]. intros [? ?]%not_elem_of_cons. simpl.
  rewrite lookup_insert_ne by done. destruct (h !! x); [f_equal|]; by apply IH.
Qed.

(** Dropping a cell from the list is dropping its key from the view. *)
Lemma omap_heap_filter (h : gmap positive (entry K V)) le e (ls : list positive) :
  h !! le = Some e →
  (∀ x, x ∈ ls → ∃ e', h !! x = Some e' ∧ (key e' = key e → x = le)) →
  omap (λ x, h !! x) (filter (.≠ le) ls) = a_remove (key e) (omap (λ x, h !! x) ls).
Proof.
  intros Hle. induction ls as [|x ls IH]; intros Hall; [done|].
  destruct (Hall x) as (e' & He' & Hk); [left|].
  assert (omap (λ y, h !! y) (x :: ls) = e' :: omap (λ y, h !! y) ls) as -> by (simpl; by rewrite He').
  unfold a_remove in *. rewrite !filter_cons.
  rewrite <- IH by (intros y Hy; apply Hall; by right).
  destruct (decide (x ≠ le)) as [Hn|Hn].
  - rewrite decide_True by naive_solver. simpl. by rewrite He'.
  - assert (x = le) as -> by (by destruct (decide (x = le))).
    rewrite decide_False by naive_solver. done.
Qed.

Lemma a_find_Some k l e : a_find k l = Some e → e ∈ l ∧ key e = k.
Proof.
  unfold a_find. destruct (list_find _ l) as [[i x]|] eqn:E; [|done].
  intros [= ->]. apply list_find_Some in E as (Hi & Hk & _).
  split; [by eapply list_elem_of_lookup_2|done].
Qed.

Lemma a_find_None k l : a_find k l = None ↔ ∀ e, e ∈ l → key e ≠ k.
Proof.
  unfold a_find. rewrite fmap_None, list_find_None, list.Forall_forall. done.
Qed.

Lemma a_remove_notin k l : (∀ e, e ∈ l → key e ≠ k) → a_remove k l = l.
Proof. intros Hl. apply list_filter_all. done. Qed.

Lemma elem_of_a_remove k l e : e ∈ a_remove k l ↔ e ∈ l ∧ key e ≠ k.
Proof. unfold a_remove. rewrite list_elem_of_filter. naive_solver. Qed.

Lemma elem_of_Snapshot w c e : e ∈ Snapshot w c ↔ ∃ le, le ∈ lru c ∧ heap w !! le = Some e.
Proof. unfold Snapshot. rewrite list_elem_of_omap. naive_solver. Qed.

(** With the invariant, the map finds exactly what a scan of the view finds. *)
Lemma wf_lookup_None w c k : wf w c → cache c !! k = None → a_find k (Snapshot w c) = None.
Proof.
  intros Hwf Hk. apply a_find_None. intros e (le & Hin & He)%elem_of_Snapshot <-.
  destruct (wf_elem _ _ Hwf _ Hin) as (e' & He' & Hc). congruence.
Qed.

Lemma wf_lookup_Some w c k le :
  wf w c → cache c !! k = Some le →
  ∃ e, heap w !! le = Some e ∧ key e = k ∧ le ∈ lru c ∧ a_find k (Snapshot w c) = Some e.
Proof.
  intros Hwf Hk. destruct (wf_cache _ _ Hwf _ _ Hk) as (Hin & e & He & Hke).
  exists e. split_and!; try done.
  destruct (a_find k (Snapshot w c)) as [e'|] eqn:E.
  - apply a_find_Some in E as [(le' & Hin' & He')%elem_of_Snapshot Hke'].
    destruct (wf_elem _ _ Hwf _ Hin') as (e'' & He'' & Hc). congruence.
  - rewrite a_find_None in E. exfalso. apply (E e); [|done].
    apply elem_of_Snapshot. eauto.
Qed.

Lemma wf_remove_view w c le e :
  wf w c → heap w !! le = Some e → le ∈ lru c →
  omap (λ x, heap w !! x) (filter (.≠ le) (lru c)) = a_remove (key e) (Snapshot w c).
Proof.
  intros Hwf He Hle. apply omap_heap_filter; [done|].
  intros x Hx. destruct (wf_elem _ _ Hwf _ Hx) as (e' & He' & Hc).
  destruct (wf_elem _ _ Hwf _ Hle) as (e'' & He'' & Hc'').
  exists e'. split; [done|]. intros Hkk. rewrite Hkk in Hc. simplify_eq. congruence.
Qed.

(** ** Preservation and simulation, one internal operation at a time *)

(** The result of an operation on [(w, c)] keeps the invariant and the options
    and shows the abstract state [a]. *)
Definition shows (c : LruCache K) (r : world K V * LruCache K) (a : list (entry K V) * list (K * V)) : Prop :=
  wf r.1 r.2 ∧ same_config c r.2 ∧ abs r.1 r.2 = a.

Lemma same_config_refl c : same_config c c.
Proof. by destruct c. Qed.

Lemma same_config_trans c1 c2 c3 : same_config c1 c2 → same_config c2 c3 → same_config c1 c3.
Proof. unfold same_config. intros -> ->. done. Qed.

Lemma a_drop_config c c' now l ev : same_config c c' → a_drop (V:=V) c' now l ev = a_drop c now l ev.
Proof.
  intros ->. revert ev. induction l as [|e l IH]; intros ev; simpl; [done|].
  destruct (_ <=? _); [|done]. apply IH.
Qed.

Lemma a_trim_config c c' now a : same_config c c' → a_trim (V:=V) c' now a = a_trim c now a.
Proof.
  intros Hc. unfold a_trim. rewrite (a_drop_config c c') by done. by rewrite Hc.
Qed.

Lemma shows_refl w c a : wf w c → abs w c = a → shows c (w, c) a.
Proof. intros ??. split_and!; [done|apply same_config_refl|done]. Qed.

Lemma shows_trans c c' r a : same_config c c' → shows c' r a → shows c r a.
Proof. intros ? (? & ? & ?). split_and!; [done|by eapply same_config_trans|done]. Qed.

Lemma deleteElement_shows w c le e :
  wf w c → heap w !! le = Some e → le ∈ lru c →
  shows c (deleteElement w c le) (a_remove (key e) (Snapshot w c), a_log c (evicted w) e).
Proof.
  intros Hwf He Hle. unfold deleteElement. rewrite He.
  split_and!; simpl; [|done|unfold abs, Snapshot, a_log; simpl; f_equal; by apply wf_remove_view].
  destruct (wf_elem _ _ Hwf _ Hle) as (? & ? & Hce); simplify_eq.
  constructor; simpl.
  - apply list.NoDup_filter, Hwf.
  - intros x [Hne Hx]%list_elem_of_filter. destruct (wf_elem _ _ Hwf _ Hx) as (e' & He' & Hc).
    exists e'. split; [done|]. rewrite lookup_delete_ne; [done|]. intros Heq. rewrite Heq in Hce. congruence.
  - intros k x Hk. apply lookup_delete_Some in Hk as [Hne Hk].
    destruct (wf_cache _ _ Hwf _ _ Hk) as (Hx & e' & He' & <-).
    split; [|eauto]. apply list_elem_of_filter. split; [|done]. intros ->. congruence.
Qed.

Lemma delete_oldest_shows fuel now w c :
  wf w c → (length (lru c) ≤ fuel)%nat →
  shows c (delete_oldest fuel now w c) (a_drop c now (Snapshot w c) (evicted w)).
Proof.
  revert w c. induction fuel as [|fuel IH]; intros w c Hwf Hlen; simpl.
  { apply shows_refl; [done|]. unfold abs, Snapshot. destruct (lru c); simpl in *; [done|lia]. }
  destruct (lru c) as [|le ls] eqn:El.
  { apply shows_refl; [done|]. unfold abs, Snapshot. by rewrite El. }
  destruct (wf_elem _ _ Hwf le) as (e & He & Hc); [rewrite El; left|].
  assert (Snapshot w c = e :: omap (λ x, heap w !! x) ls) as Hs
    by (unfold Snapshot; rewrite El; simpl; by rewrite He).
  rewrite He. rewrite Hs. simpl. destruct (expires e <=? now) eqn:Ee.
  2:{ apply shows_refl; [done|]. unfold abs. by rewrite Hs. }
  destruct (deleteElement_shows w c le e) as (Hwf' & Hcfg & Habs); [done|done|rewrite El; left|].
  destruct (deleteElement w c le) as [w' c'] eqn:Ed; simpl in *.
  assert (le ∉ ls) as Hn by (pose proof (wf_nodup _ _ Hwf) as Hnd; rewrite El in Hnd; by inversion Hnd).
  assert (length (lru c') ≤ fuel)%nat as Hlen'.
  { unfold deleteElement in Ed. rewrite He in Ed. simplify_eq/=. rewrite El.
    rewrite filter_cons_False by tauto. pose proof (length_filter (.≠ le) ls). simpl in Hlen. lia. }
  destruct (IH w' c' Hwf' Hlen') as (H1 & H2 & H3).
  split_and!; [done|by eapply same_config_trans|]. rewrite H3.
  injection Habs as Hsn Hev. rewrite Hsn, Hev, Hs.
  rewrite (a_drop_config c c') by done. f_equal.
  unfold a_remove. rewrite filter_cons_False by tauto. apply a_remove_notin.
  intros e' (x & Hx & He')%list_elem_of_omap Hk.
  destruct (wf_elem _ _ Hwf x) as (e2 & He2 & Hc2); [rewrite El; by right|]. congruence.
Qed.

Lemma maybeDeleteOldest_shows now w c :
  wf w c → shows c (maybeDeleteOldest now w c) (a_trim c now (abs w c)).
Proof.
  intros Hwf. unfold maybeDeleteOldest, a_trim, expiring.
  destruct (_ && _); [by apply delete_oldest_shows|by apply shows_refl].
Qed.

(** Sequencing: trim what a first operation shows. *)
Lemma trim_after now c r a :
  shows c r a → shows c (maybeDeleteOldest now r.1 r.2) (a_trim c now a).
Proof.
  intros (Hwf & Hcfg & <-). eapply shows_trans; [done|].
  rewrite <- (a_trim_config c r.2) by done. by apply maybeDeleteOldest_shows.
Qed.

Lemma MoveToBack_wf w c k le e :
  wf w c → cache c !! k = Some le → key e = k →
  wf (set_cell w le e) (MoveToBack c le) ∧
  Snapshot (set_cell w le e) (MoveToBack c le) = a_remove k (Snapshot w c) ++ [e].
Proof.
  intros Hwf Hk <-. destruct (wf_cache _ _ Hwf _ _ Hk) as (Hin & e0 & He0 & Hk0).
  assert (le ∉ filter (.≠ le) (lru c)) as Hn by (intros [? _]%list_elem_of_filter; done).
  split.
  - constructor; simpl.
    + apply list.NoDup_app. split_and!; [apply list.NoDup_filter, Hwf| |apply NoDup_singleton].
      intros x Hx ->%list_elem_of_singleton. done.
    + intros x [Hx|Hx]%elem_of_app.
      * apply list_elem_of_filter in Hx as [Hne Hx]. rewrite lookup_insert_ne by done.
        by apply (wf_elem _ _ Hwf).
      * apply list_elem_of_singleton in Hx as ->. rewrite lookup_insert_eq. eauto.
    + intros k x Hkx. destruct (wf_cache _ _ Hwf _ _ Hkx) as (Hx & e' & He' & Hke').
      destruct (decide (x = le)) as [->|Hne].
      * split; [set_solver|]. exists e. rewrite lookup_insert_eq. split; [done|congruence].
      * rewrite lookup_insert_ne by done. split; [|eauto].
        apply elem_of_app. left. by apply list_elem_of_filter.
  - unfold Snapshot at 1. simpl. rewrite omap_app, omap_heap_insert by done.
    simpl. rewrite lookup_insert_eq. f_equal. rewrite <- Hk0. by apply wf_remove_view.
Qed.

Lemma set_cell_same w le e : heap w !! le = Some e → set_cell w le e = w.
Proof. intros He. destruct w as [h ev]. unfold set_cell; simpl in *. by rewrite insert_id. Qed.

Lemma get_shows now w c k :
  wf w c →
  shows c (get now w c k).1 (a_get c now (abs w c) k).1 ∧
  (get now w c k).2 = (a_get c now (abs w c) k).2.
Proof.
  intros Hwf. unfold get, a_get. destruct (cache c !! k) as [le|] eqn:Ek.
  2:{ simpl. rewrite (wf_lookup_None w c k) by done. by split; [apply shows_refl|]. }
  destruct (wf_lookup_Some w c k le) as (e & He & Hk & Hin & Hf); [done..|].
  rewrite He. simpl. rewrite Hf. fold (expiring c). destruct (expiring c && (expires e <=? now)) eqn:Ee.
  - pose proof (deleteElement_shows w c le e Hwf He Hin) as Hd.
    destruct (deleteElement w c le) as [w' c'] eqn:Ed.
    apply (trim_after now) in Hd. simpl in Hd.
    destruct (maybeDeleteOldest now w' c') as [w'' c''] eqn:Em. simpl.
    unfold a_delete. simpl. rewrite Hf. by rewrite <- Hk.
  - destruct (MoveToBack_wf w c k le (a_refresh c now e)) as [Hwf' Hs]; [done|done| |].
    { unfold a_refresh. destruct ((0 <? maxAge c) && updateAgeOnGet c); exact Hk. }
    unfold a_refresh in *. simpl. destruct ((0 <? maxAge c) && updateAgeOnGet c); simpl.
    + split; [|done]. split_and!; [done|done|]. unfold abs. f_equal. exact Hs.
    + rewrite set_cell_same in * by done. split; [|done].
      split_and!; [done|done|]. unfold abs. f_equal. exact Hs.
Qed.

(** A fresh cell at the back: the view grows by one entry. *)
Lemma push_shows w c k e :
  wf w c → cache c !! k = None → key e = k →
  let le := fresh (dom (heap w)) in
  shows c (set_cell w le e, set_lists c (<[k := le]> (cache c)) (lru c ++ [le]))
    (Snapshot w c ++ [e], evicted w).
Proof.
  intros Hwf Hk Hke le.
  assert (heap w !! le = None) as Hle by (apply not_elem_of_dom, is_fresh).
  assert (∀ x, x ∈ lru c → x ≠ le) as Hn.
  { intros x Hx ->. destruct (wf_elem _ _ Hwf _ Hx) as (? & ? & _). congruence. }
  split_and!; simpl; [|done|].
  - constructor; simpl.
    + apply list.NoDup_app. split_and!; [apply Hwf| |apply NoDup_singleton].
      intros x Hx ->%list_elem_of_singleton. by eapply Hn.
    + intros x [Hx|Hx]%elem_of_app.
      * rewrite lookup_insert_ne by (symmetry; by apply Hn).
        destruct (wf_elem _ _ Hwf _ Hx) as (e' & He' & Hc). exists e'. split; [done|].
        rewrite lookup_insert_ne; [done|]. intros ->. congruence.
      * apply list_elem_of_singleton in Hx as ->. exists e. rewrite Hke, !lookup_insert_eq. done.
    + intros k' x [[<- <-]|[Hne Hkx]]%lookup_insert_Some.
      * split; [set_solver|]. exists e. rewrite lookup_insert_eq. done.
      * destruct (wf_cache _ _ Hwf _ _ Hkx) as (Hx & e' & He' & Hke').
        split; [set_solver|]. rewrite lookup_insert_ne by (symmetry; by apply Hn). eauto.
  - unfold abs, Snapshot. simpl. f_equal. rewrite omap_app, omap_heap_insert.
    + simpl. by rewrite lookup_insert_eq.
    + intros Hx. by apply (Hn le).
Qed.

(** Removing the front element is removing the first entry of the view. *)
Lemma delete_front_shows w c le ls :
  wf w c → lru c = le :: ls →
  ∃ e, heap w !! le = Some e ∧ Snapshot w c = e :: omap (λ x, heap w !! x) ls ∧
       shows c (deleteElement w c le) (omap (λ x, heap w !! x) ls, a_log c (evicted w) e).
Proof.
  intros Hwf El. destruct (wf_elem _ _ Hwf le) as (e & He & Hc); [rewrite El; left|].
  assert (Snapshot w c = e :: omap (λ x, heap w !! x) ls) as Hs
    by (unfold Snapshot; rewrite El; simpl; by rewrite He).
  exists e. split_and!; [done|done|].
  destruct (deleteElement_shows w c le e) as (H1 & H2 & H3); [done|done|rewrite El; left|].
  split_and!; [done|done|]. rewrite H3, Hs. f_equal.
  unfold a_remove. rewrite filter_cons_False by tauto. apply a_remove_notin.
  intros e' (x & Hx & He')%list_elem_of_omap Hk.
  destruct (wf_elem _ _ Hwf x) as (e2 & He2 & Hc2); [rewrite El; by right|].
  pose proof (wf_nodup _ _ Hwf) as Hnd. rewrite El in Hnd. inversion Hnd. congruence.
Qed.

Lemma setWithExpire_shows now w c k v exp :
  wf w c → shows c (setWithExpire now w c k v exp) (a_put c now (abs w c) k v exp).
Proof.
  intros Hwf. unfold setWithExpire, a_put. destruct (cache c !! k) as [le|] eqn:Ek.
  - destruct (wf_lookup_Some w c k le) as (e & He & Hk & Hin & Hf); [done..|].
    simpl. rewrite Hf.
    destruct (MoveToBack_wf w c k le (Entry k v exp)) as [Hwf' Hs]; [done..|].
    apply (trim_after now c (_, _)). split_and!; [done|done|]. unfold abs. f_equal. exact Hs.
  - simpl. rewrite (wf_lookup_None w c k) by done.
    pose proof (push_shows w c k (Entry k v exp) Hwf Ek eq_refl) as Hp. simpl in Hp.
    set (w1 := set_cell w _ _) in *. set (c1 := set_lists c _ _) in *.
    change (lru c ++ [fresh (dom (heap w))]) with (lru c1).
    assert (lru c1 ≠ []) as Hne by (unfold c1; simpl; by destruct (lru c)).
    destruct (lru c1) as [|le ls] eqn:El; [done|].
    destruct Hp as (Hwf1 & Hc1 & Ha1). simpl in Hwf1, Hc1, Ha1.
    destruct (delete_front_shows w1 c1 le ls) as (e & He & Hs & Hd); [done..|].
    injection Ha1 as Hsn.
    assert (Snapshot w c ++ [Entry k v exp] = e :: omap (λ x, heap w1 !! x) ls) as Hv by congruence.
    assert (length (le :: ls) = length (Snapshot w c ++ [Entry k v exp])) as Hlen.
    { rewrite <- El. rewrite <- Hsn. unfold Snapshot. symmetry.
      apply length_omap_total. intros x Hx. destruct (wf_elem _ _ Hwf1 x Hx) as (? & ? & _). eauto. }
    unfold a_bound. cbn [fst snd]. rewrite Hv. rewrite Hv in Hlen. rewrite <- Hlen.
    change (maxSize c1) with (maxSize c).
    assert (shows c (w1, c1) (e :: omap (λ x, heap w1 !! x) ls, evicted w)) as H1
      by (split_and!; [done|done|unfold abs; simpl; by rewrite Hs]).
    destruct (0 <? maxSize c); cbn [andb]; [|exact (trim_after now c (w1, c1) _ H1)].
    destruct (maxSize c <? _); [|exact (trim_after now c (w1, c1) _ H1)].
    simpl. destruct (deleteElement w1 c1 le) as [w2 c2]. apply (trim_after now c (w2, c2)).
    eapply shows_trans; [done|]. exact Hd.
Qed.

Lemma set_shows now w c k v : wf w c → shows c (set now w c k v) (a_set c now (abs w c) k v).
Proof. intros Hwf. by apply setWithExpire_shows. Qed.

Lemma delete_shows w c k : wf w c → shows c (delete_ w c k) (a_delete c (abs w c) k).
Proof.
  intros Hwf. unfold delete_, a_delete. destruct (cache c !! k) as [le|] eqn:Ek; simpl.
  - destruct (wf_lookup_Some w c k le) as (e & He & Hk & Hin & Hf); [done..|].
    rewrite Hf, <- Hk. by apply deleteElement_shows.
  - rewrite (wf_lookup_None w c k) by done. by apply shows_refl.
Qed.

Lemma a_set_config c now k v c' a :
  same_config c c' → a_set (V:=V) c' now a k v = a_set c now a k v.
Proof.
  intros Hc. unfold a_set, a_put, a_bound. rewrite !(a_trim_config c c') by done. by rewrite Hc.
Qed.

Lemma a_delete_config c c' a k : same_config c c' → a_delete (V:=V) c' a k = a_delete c a k.
Proof. intros ->. done. Qed.

(** A second operation after a first one that shows [a]. *)
Lemma set_after now c r a k v :
  shows c r a → shows c (set now r.1 r.2 k v) (a_set c now a k v).
Proof.
  intros (Hwf & Hcfg & <-). eapply shows_trans; [done|].
  rewrite <- (a_set_config c now k v r.2) by done. by apply set_shows.
Qed.

Lemma delete_after c r a k :
  shows c r a → shows c (delete_ r.1 r.2 k) (a_delete c a k).
Proof.
  intros (Hwf & Hcfg & <-). eapply shows_trans; [done|].
  rewrite <- (a_delete_config c r.2) by done. by apply delete_shows.
Qed.

Lemma Exist_view w c k : wf w c → Exist c k = bool_decide (is_Some (a_find k (Snapshot w c))).
Proof.
  intros Hwf. unfold Exist. apply bool_decide_ext. destruct (cache c !! k) as [le|] eqn:Ek.
  - destruct (wf_lookup_Some w c k le) as (e & _ & _ & _ & Hf); [done..|]. rewrite Hf. split; eauto.
  - rewrite (wf_lookup_None w c k) by done. done.
Qed.

Lemma Clear_wf w c : wf w (Clear c).
Proof.
  constructor; simpl; [constructor|intros ? []%not_elem_of_nil|].
  intros k le Hk. by rewrite lookup_empty in Hk.
Qed.

(** One operation of the code simulates the same operation of the abstract cache. *)
Lemma step_simulates now w c o :
  wf w c →
  shows c (step now w c o).1 (a_step c now (abs w c) o).1 ∧
  (step now w c o).2 = (a_step c now (abs w c) o).2.
Proof.
  intros Hwf. pose proof (λ k, get_shows now w c k Hwf) as Hget.
  destruct o as [k|k v|k|k|k v|k v exp|k|k f| |]; simpl;
    unfold Get, GetOrStore, GetWithExpire, Set_, SetWithExpire, Delete, Compute_.
  - destruct (Hget k) as [Hs Hr]. destruct (get now w c k) as [[w' c'] r], (a_get c now (abs w c) k) as [a' r'].
    simpl in *. by subst.
  - destruct (Hget k) as [Hs Hr]. destruct (get now w c k) as [[w' c'] r], (a_get c now (abs w c) k) as [a' r'].
    simpl in *. subst. destruct r' as [e|]; [done|].
    pose proof (set_after now c (w', c') a' k v Hs) as Hs2. simpl in Hs2.
    by destruct (set now w' c' k v).
  - destruct (Hget k) as [Hs Hr]. destruct (get now w c k) as [[w' c'] r], (a_get c now (abs w c) k) as [a' r'].
    simpl in *. by subst.
  - split; [by apply shows_refl|]. by rewrite (Exist_view w c k).
  - pose proof (set_shows now w c k v Hwf). by destruct (set now w c k v).
  - pose proof (setWithExpire_shows now w c k v exp Hwf). by destruct (setWithExpire now w c k v exp).
  - pose proof (delete_shows w c k Hwf). by destruct (delete_ w c k).
  - destruct (Hget k) as [Hs Hr]. destruct (get now w c k) as [[w' c'] r], (a_get c now (abs w c) k) as [a' r'].
    simpl in *. subst. destruct (f (value <$> r')) as [v del]. destruct del.
    + destruct r'; [|done]. pose proof (delete_after c (w', c') a' k Hs) as Hs2. simpl in Hs2.
      by destruct (delete_ w' c' k).
    + pose proof (set_after now c (w', c') a' k v Hs) as Hs2. simpl in Hs2. by destruct (set now w' c' k v).
  - split; [|done]. split_and!; [apply Clear_wf|done|done].
  - split; [by apply shows_refl|done].
Qed.

Lemma a_step_config c c' now a o : same_config c c' → a_step (V:=V) c' now a o = a_step c now a o.
Proof.
  intros Hc. assert (∀ a k, a_get (V:=V) c' now a k = a_get c now a k) as Hg.
  { intros a0 k. unfold a_get. rewrite (a_trim_config c c') by done. by rewrite Hc. }
  assert (∀ a k v e, a_put (V:=V) c' now a k v e = a_put c now a k v e) as Hp.
  { intros. unfold a_put. rewrite (a_trim_config c c') by done. by rewrite Hc. }
  assert (∀ a k v, a_set (V:=V) c' now a k v = a_set c now a k v) as Hs by (intros; by apply a_set_config).
  destruct o as [k|k v|k|k|k v|k v exp|k|k f| |]; simpl; rewrite ?Hg, ?Hp, ?Hs; try done.
  - destruct (a_get c now a k) as [a' r]. by rewrite Hs.
  - by rewrite (a_delete_config c c').
  - destruct (a_get c now a k) as [a' r]. destruct (f _) as [v del].
    by rewrite Hs, (a_delete_config c c').
Qed.

Lemma run_simulates w c ops :
  wf w c →
  let '(w', c', rs) := run w c ops in
  shows c (w', c') (a_run c (abs w c) ops).1 ∧ rs = (a_run c (abs w c) ops).2.
Proof.
  revert w c. induction ops as [|[now o] ops IH]; intros w c Hwf; simpl; [by split; [apply shows_refl|]|].
  destruct (step_simulates now w c o Hwf) as [(Hwf1 & Hc1 & Ha1) Hr].
  destruct (step now w c o) as [[w1 c1] r], (a_step c now (abs w c) o) as [a1 r1]. simpl in *. subst.
  specialize (IH w1 c1 Hwf1). destruct (run w1 c1 ops) as [[w2 c2] rs].
  assert (∀ a, a_run c1 a ops = a_run c a ops) as Hcfg.
  { clear IH. induction ops as [|[now' o'] ops IHo]; intros a; simpl; [done|].
    rewrite (a_step_config c c1) by done. destruct (a_step c now' a o') as [a' r']. by rewrite IHo. }
  rewrite Hcfg in IH. destruct (a_run c (abs w1 c1) ops) as [a2 rs2]. simpl in *.
  destruct IH as [IH ->]. split; [by eapply shows_trans|done].
Qed.

Lemma options_lists options c :
  lru (fold_left apply_option options c) = lru c ∧ cache (fold_left apply_option options c) = cache c.
Proof.
  revert c. induction options as [|o options IH]; intros c; simpl; [done|].
  destruct (IH (apply_option c o)) as [-> ->]. by destruct o.
Qed.

Lemma New_wf w options : wf w (New options).
Proof.
  destruct (options_lists options (Clear (Cache 0 0 (∅ : gmap K positive) [] false false false))) as [Hl Hc].
  constructor; unfold New; rewrite ?Hl, ?Hc; simpl; [constructor|intros ? []%not_elem_of_nil|].
  intros k le Hk. by rewrite lookup_empty in Hk.
Qed.

Lemma New_abs w options : abs w (New options) = ([], evicted w).
Proof.
  destruct (options_lists options (Clear (Cache 0 0 (∅ : gmap K positive) [] false false false))) as [Hl Hc].
  unfold abs, Snapshot, New. by rewrite Hl.
Qed.

(** ** The bound on the number of entries *)

Lemma a_drop_suffix c now l ev : ∃ l0, l = l0 ++ (a_drop (V:=V) c now l ev).1.
Proof.
  revert ev. induction l as [|e l IH]; intros ev; simpl; [by exists []|].
  destruct (_ <=? _); [|by exists []]. destruct (IH (a_log c ev e)) as [l0 Hl0].
  exists (e :: l0). simpl. by rewrite <- Hl0.
Qed.

Lemma a_trim_suffix c now a : ∃ l0, a.1 = l0 ++ (a_trim (V:=V) c now a).1.
Proof. unfold a_trim. destruct (expiring c); [apply a_drop_suffix|by exists []]. Qed.

Lemma a_trim_length c now a : (length (a_trim (V:=V) c now a).1 ≤ length a.1)%nat.
Proof. destruct (a_trim_suffix c now a) as [l0 Hl0]. rewrite Hl0, length_app. lia. Qed.

Lemma a_remove_length_lt k l e : a_find k l = Some e → (length (a_remove k l) < length l)%nat.
Proof.
  intros [Hin Hk]%a_find_Some. apply (length_filter_lt _ _ e); [done|]. tauto.
Qed.

Lemma a_delete_length c a k : (length (a_delete (V:=V) c a k).1 ≤ length a.1)%nat.
Proof.
  unfold a_delete. destruct (a_find k a.1) eqn:E; simpl; [|lia].
  apply a_remove_length_lt in E. lia.
Qed.

Lemma a_get_length c now a k : (length (a_get (V:=V) c now a k).1.1 ≤ length a.1)%nat.
Proof.
  unfold a_get. destruct (a_find k a.1) as [e|] eqn:E; simpl; [|lia].
  destruct (_ && _); simpl.
  - etrans; [apply a_trim_length|apply a_delete_length].
  - rewrite length_app. apply a_remove_length_lt in E. simpl. lia.
Qed.

Lemma a_put_length c now a k v exp :
  0 < maxSize c → Z.of_nat (length a.1) ≤ maxSize c →
  Z.of_nat (length (a_put (V:=V) c now a k v exp).1) ≤ maxSize c.
Proof.
  intros Hpos Hlen. unfold a_put.
  match goal with |- context [a_trim c now ?a] => pose proof (a_trim_length c now a) as Ht end.
  etrans; [apply Nat2Z.inj_le; exact Ht|]. clear Ht.
  destruct (a_find k a.1) as [e|] eqn:E; simpl.
  - rewrite length_app. apply a_remove_length_lt in E. simpl. lia.
  - unfold a_bound; cbn [fst snd]. destruct (a.1 ++ [Entry k v exp]) as [|e0 l0] eqn:El; [simpl; lia|].
    assert (length (e0 :: l0) = S (length a.1)) as Hl by (rewrite <- El, length_app; simpl; lia).
    destruct (_ && _) eqn:Eb; [simpl in *; lia|].
    apply andb_false_iff in Eb as [Eb|Eb]; breflect; simpl in *; lia.
Qed.

Lemma a_step_length c now a o :
  0 < maxSize c → Z.of_nat (length a.1) ≤ maxSize c →
  Z.of_nat (length (a_step (V:=V) c now a o).1.1) ≤ maxSize c.
Proof.
  intros Hpos Hlen. pose proof (λ k, a_get_length c now a k) as Hg.
  destruct o as [k|k v|k|k|k v|k v exp|k|k f| |]; simpl; try done; try (specialize (Hg k)).
  - destruct (a_get c now a k) as [a' r]; simpl in *; lia.
  - destruct (a_get c now a k) as [a' [e|]]; simpl in *; [lia|]. apply a_put_length; lia.
  - destruct (a_get c now a k) as [a' r]; simpl in *; lia.
  - by apply a_put_length.
  - by apply a_put_length.
  - pose proof (a_delete_length c a k). lia.
  - destruct (a_get c now a k) as [a' r]; simpl in *. destruct (f _) as [v del]. destruct del.
    + destruct r; simpl; [pose proof (a_delete_length c a' k)|]; lia.
    + apply a_put_length; lia.
  - lia.
Qed.

Lemma a_run_length c a ops :
  0 < maxSize c → Z.of_nat (length a.1) ≤ maxSize c →
  Z.of_nat (length (a_run (V:=V) c a ops).1.1) ≤ maxSize c.
Proof.
  intros Hpos. revert a. induction ops as [|[now o] ops IH]; intros a Hlen; simpl; [done|].
  pose proof (a_step_length c now a o Hpos Hlen) as Hs. destruct (a_step c now a o) as [a' r].
  specialize (IH a' Hs). by destruct (a_run c a' ops).
Qed.

(** ** Lookups after a store *)

Lemma a_find_last k e l :
  key e = k → (∀ x, x ∈ l → key x ≠ k) → a_find k (l ++ [e]) = Some e.
Proof.
  intros Hk Hl. unfold a_find. rewrite list_find_app_r.
  - simpl. rewrite decide_True by done. done.
  - apply list_find_None, list.Forall_forall. done.
Qed.

Lemma a_drop_keep c now l e ev :
  now < expires e → ∃ l', (a_drop (V:=V) c now (l ++ [e]) ev).1 = l' ++ [e] ∧ l' ⊆ l.
Proof.
  intros He. revert ev. induction l as [|x l IH]; intros ev; simpl.
  - destruct (Z.leb_spec (expires e) now); [lia|]. by exists [].
  - destruct (_ <=? _); [|by exists (x :: l)].
    destruct (IH (a_log c ev x)) as (l' & Hl' & Hsub). exists l'. split; [done|set_solver].
Qed.

(** After a store that is not already expired, the entry is the last of the view and its key occurs nowhere else. *)
Lemma a_put_last c now a k v exp :
  (expiring c = true → now < exp) →
  ∃ l, (a_put (V:=V) c now a k v exp).1 = l ++ [Entry k v exp] ∧ ∀ x, x ∈ l → key x ≠ k.
Proof.
  intros Hexp. unfold a_put.
  assert (∃ a1 l1, match a_find k a.1 with
                   | Some _ => (a_remove k a.1 ++ [Entry k v exp], a.2)
                   | None => a_bound c (a.1 ++ [Entry k v exp], a.2)
                   end = a1 ∧ a1.1 = l1 ++ [Entry k v exp] ∧ ∀ x, x ∈ l1 → key x ≠ k)
    as (a1 & l1 & -> & Ha1 & Hk1).
  { destruct (a_find k a.1) as [e|] eqn:E.
    - eexists _, _. split_and!; [done|done|]. by intros x [_ ?]%elem_of_a_remove.
    - rewrite a_find_None in E. unfold a_bound; cbn [fst snd]. destruct a as [[|e0 l0] ev]; simpl in *.
      + destruct (0 <? maxSize c) eqn:E0; simpl.
        * destruct (maxSize c <? Z.of_nat _) eqn:E1; breflect; simpl in *; [lia|].
          eexists _, []. split_and!; [done|done|]. by intros x []%not_elem_of_nil.
        * eexists _, []. split_and!; [done|done|]. by intros x []%not_elem_of_nil.
      + destruct (_ && _); simpl.
        * eexists _, l0. split_and!; [done|done|]. intros x Hx. apply E. by right.
        * eexists _, (e0 :: l0). split_and!; [done|done|]. intros x Hx. by apply E. }
  unfold a_trim. destruct (expiring c) eqn:Ee.
  - rewrite Ha1. destruct (a_drop_keep c now l1 (Entry k v exp) a1.2) as (l' & Hl' & Hsub); [by apply Hexp|].
    exists l'. split; [done|]. intros x Hx. apply Hk1. by apply Hsub.
  - exists l1. done.
Qed.

(** ** Cloning *)

Lemma clone_fold w c ls n :
  wf w c → (∀ le, le ∈ ls → le ∈ lru c) →
  let n' := fold_left
    (λ n le, match heap w !! le with
             | Some e => set_lists n (<[key e := le]> (cache n)) (lru n ++ [le])
             | None => n
             end) ls n in
  same_config n n' ∧ lru n' = lru n ++ ls ∧
  ∀ k, cache n' !! k = match cache c !! k with
                       | Some le => if decide (le ∈ ls) then Some le else cache n !! k
                       | None => cache n !! k
                       end.
Proof.
  intros Hwf. revert n. induction ls as [|le ls IH]; intros n Hin; simpl.
  { split_and!; [apply same_config_refl|by rewrite app_nil_r|].
    intros k. by destruct (cache c !! k). }
  destruct (wf_elem _ _ Hwf le) as (e & He & Hc); [apply Hin; left|]. rewrite He.
  destruct (IH (set_lists n (<[key e := le]> (cache n)) (lru n ++ [le]))) as (H1 & H2 & H3).
  { intros x Hx. apply Hin. by right. }
  split_and!; [exact H1|rewrite H2; simpl; by rewrite <- app_assoc|].
  intros k. rewrite H3. simpl. destruct (decide (key e = k)) as [<-|Hne].
  - rewrite Hc, lookup_insert_eq, (decide_True (P := le ∈ le :: ls)) by left. by case_decide.
  - rewrite lookup_insert_ne by done. destruct (cache c !! k) as [le'|] eqn:Ek; [|done].
    destruct (wf_cache _ _ Hwf _ _ Ek) as (_ & e' & He' & Hk').
    assert (le' ≠ le) by congruence.
    destruct (decide (le' ∈ ls)); [by rewrite decide_True by (by right)|].
    rewrite decide_False; [done|]. by intros [?|?]%elem_of_cons.
Qed.

Lemma CloneTo_lists w c n :
  wf w c → lru (CloneTo w c n) = lru c ∧ cache (CloneTo w c n) = cache c.
Proof.
  intros Hwf. destruct (clone_fold w c (lru c) (set_lists n ∅ []) Hwf) as (_ & Hl & Hc); [done|].
  unfold CloneTo. split; [done|]. apply map_eq. intros k. rewrite Hc. simpl.
  rewrite lookup_empty. destruct (cache c !! k) as [le|] eqn:Ek; [|done].
  rewrite decide_True; [done|]. by apply (wf_cache _ _ Hwf _ _ Ek).
Qed.

Lemma CloneTo_wf w c n : wf w c → wf w (CloneTo w c n) ∧ Snapshot w (CloneTo w c n) = Snapshot w c.
Proof.
  intros Hwf. destruct (CloneTo_lists w c n Hwf) as [Hl Hc].
  split; [|unfold Snapshot; by rewrite Hl].
  constructor; rewrite ?Hl, ?Hc; apply Hwf.
Qed.

(** Deleting elements leaves the cells in place. *)
Lemma deleteElement_heap w c le : heap (deleteElement w c le).1 = heap w.
Proof. unfold deleteElement. by destruct (heap w !! le). Qed.

Lemma maybeDeleteOldest_heap now w c : heap (maybeDeleteOldest now w c).1 = heap w.
Proof.
  unfold maybeDeleteOldest. destruct (_ && _); [|done].
  generalize (length (lru c)) as fuel. intros fuel. revert w c.
  induction fuel as [|fuel IH]; intros w c; simpl; [done|].
  destruct (lru c) as [|le ls]; [done|]. destruct (heap w !! le); [|done].
  destruct (_ <=? _); [|done]. pose proof (deleteElement_heap w c le) as Hd.
  destruct (deleteElement w c le). rewrite IH. done.
Qed.

Lemma set_cell_wf w c k le e : wf w c → cache c !! k = Some le → key e = k → wf (set_cell w le e) c.
Proof.
  intros Hwf Hk Hke. destruct (wf_cache _ _ Hwf _ _ Hk) as (Hin & e0 & He0 & Hk0).
  constructor; simpl; [apply Hwf| |].
  - intros x Hx. destruct (decide (x = le)) as [->|Hne].
    + rewrite lookup_insert_eq. exists e. by rewrite Hke.
    + rewrite lookup_insert_ne by done. by apply (wf_elem _ _ Hwf).
  - intros k' x Hkx. destruct (wf_cache _ _ Hwf _ _ Hkx) as (Hx & e' & He' & Hke').
    split; [done|]. destruct (decide (x = le)) as [->|Hne].
    + rewrite lookup_insert_eq. exists e. split; [done|congruence].
    + rewrite lookup_insert_ne by done. eauto.
Qed.

(** ** Caches without an age *)

(** A cache made with only a size bound: entries never expire. *)
Definition plain (n : Z) (c : LruCache K) : Prop := same_config (New [WithSize n]) c.

Definition bound (n : Z) (l : list (entry K V)) : list (entry K V) :=
  if (0 <? n) && (n <? Z.of_nat (length l)) then tail l else l.

Lemma plain_trans n c c' : plain n c → same_config c c' → plain n c'.
Proof. apply same_config_trans. Qed.

Lemma wf_nodup_keys w c : wf w c → NoDup (key <$> Snapshot w c).
Proof.
  intros Hwf. unfold Snapshot.
  assert (∀ le, le ∈ lru c → ∃ e, heap w !! le = Some e ∧ cache c !! key e = Some le) as Hin by apply Hwf.
  pose proof (wf_nodup _ _ Hwf) as Hnd. revert Hnd Hin. generalize (lru c) as ls.
  induction ls as [|le ls IH]; intros Hnd Hin; simpl; [constructor|].
  apply list.NoDup_cons in Hnd as [Hn Hnd]. destruct (Hin le) as (e & He & Hc); [left|]. rewrite He. simpl.
  constructor; [|apply IH; [done|]; intros x Hx; apply Hin; by right].
  intros (e' & Hk & (x & Hx & He')%list_elem_of_omap)%list_elem_of_fmap.
  destruct (Hin x) as (e2 & He2 & Hc2); [by right|]. congruence.
Qed.

Lemma a_find_nodup l e : NoDup (key <$> l) → e ∈ l → a_find (key e) l = Some e.
Proof.
  intros Hnd He. destruct (a_find (key e) l) as [e'|] eqn:E.
  - apply a_find_Some in E as [He' Hk]. f_equal.
    apply list_elem_of_lookup in He as [i Hi]. apply list_elem_of_lookup in He' as [j Hj].
    assert (i = j) as ->; [|congruence].
    eapply (NoDup_lookup _ _ _ (key e)); [exact Hnd| |]; rewrite list_lookup_fmap.
    + by rewrite Hi.
    + by rewrite Hj, <- Hk.
  - rewrite a_find_None in E. by destruct (E e He).
Qed.

Lemma plain_get n w c k :
  wf w c → plain n c →
  let '(w', c', r) := Get 0 w c k in
  wf w' c' ∧ plain n c' ∧
  match a_find k (Snapshot w c) with
  | Some e => r = Some (value e) ∧ Snapshot w' c' = a_remove k (Snapshot w c) ++ [e]
  | None => r = None ∧ Snapshot w' c' = Snapshot w c
  end.
Proof.
  intros Hwf Hp. unfold Get. destruct (get_shows 0 w c k Hwf) as [(Hwf' & Hc & Ha) Hr].
  destruct (get 0 w c k) as [[w' c'] r]. simpl in *. split_and!; [done|by eapply plain_trans|].
  unfold a_get in Ha, Hr. simpl in Ha, Hr. destruct (a_find k (Snapshot w c)) as [e|].
  - assert (expiring c = false) as Hex by (by rewrite Hp). rewrite Hex in Ha, Hr. simpl in Ha, Hr.
    assert (a_refresh c 0 e = e) as Hre by (unfold a_refresh; by rewrite Hp). rewrite Hre in Ha, Hr.
    injection Ha as Hs _. by rewrite Hr.
  - injection Ha as Hs _. by rewrite Hr.
Qed.

Lemma plain_delete n w c k :
  wf w c → plain n c →
  let '(w', c') := Delete w c k in
  wf w' c' ∧ plain n c' ∧ Snapshot w' c' = a_remove k (Snapshot w c).
Proof.
  intros Hwf Hp. unfold Delete. destruct (delete_shows w c k Hwf) as (Hwf' & Hc & Ha).
  destruct (delete_ w c k) as [w' c']. simpl in *. split_and!; [done|by eapply plain_trans|].
  unfold a_delete in Ha. simpl in Ha. destruct (a_find k (Snapshot w c)) as [e|] eqn:E; injection Ha as Hs _; [done|].
  rewrite a_remove_notin; [done|]. by apply a_find_None.
Qed.

Lemma plain_set n w c k v :
  wf w c → plain n c → a_find k (Snapshot w c) = None →
  let '(w', c') := Set_ 0 w c k v in
  wf w' c' ∧ plain n c' ∧ Snapshot w' c' = bound n (Snapshot w c ++ [Entry k v 0]).
Proof.
  intros Hwf Hp Hf. unfold Set_. destruct (set_shows 0 w c k v Hwf) as (Hwf' & Hc & Ha).
  destruct (set 0 w c k v) as [w' c']. simpl in *. split_and!; [done|by eapply plain_trans|].
  assert (∀ a, a_trim (V:=V) c 0 a = a) as Ht by (intros a; unfold a_trim; by rewrite Hp).
  unfold a_set, a_put, a_bound in Ha. rewrite Ht in Ha. simpl in Ha. rewrite Hf in Ha.
  assert (maxAge c = 0 ∧ maxSize c = n) as [Hage Hsize] by (by rewrite Hp).
  rewrite Hage, Hsize in Ha. simpl in Ha. unfold bound.
  destruct (Snapshot w c ++ [Entry k v 0]) as [|e l] eqn:El; [by destruct (Snapshot w c)|].
  destruct (_ && _); injection Ha as Hs _; done.
Qed.

Lemma plain_set_find n w c k v :
  wf w c → plain n c →
  let '(w', c') := Set_ 0 w c k v in
  wf w' c' ∧ plain n c' ∧ a_find k (Snapshot w' c') = Some (Entry k v 0).
Proof.
  intros Hwf Hp. unfold Set_. destruct (set_shows 0 w c k v Hwf) as (Hwf' & Hc & Ha).
  destruct (set 0 w c k v) as [w' c']. simpl in *. split_and!; [done|by eapply plain_trans|].
  unfold a_set in Ha. assert (maxAge c = 0) as Hage by (by rewrite Hp). rewrite Hage in Ha. simpl in Ha.
  destruct (a_put_last c 0 (abs w c) k v 0) as (l & Hl & Hk); [unfold expiring; rewrite Hage, andb_false_r; done|].
  rewrite <- Ha in Hl. simpl in Hl. rewrite Hl. by apply a_find_last.
Qed.

(** Looking a key up does not change what is found for it. *)
Lemma plain_get_find n w c k :
  wf w c → plain n c →
  let '(w', c', r) := Get 0 w c k in
  wf w' c' ∧ plain n c' ∧ r = value <$> a_find k (Snapshot w c) ∧
  a_find k (Snapshot w' c') = a_find k (Snapshot w c).
Proof.
  intros Hwf Hp. pose proof (plain_get n w c k Hwf Hp) as Hg. destruct (Get 0 w c k) as [[w' c'] r].
  destruct Hg as (? & ? & Hg). split_and!; [done|done| |].
  - destruct (a_find k (Snapshot w c)); by destruct Hg as [-> _].
  - destruct (a_find k (Snapshot w c)) as [e|] eqn:E; destruct Hg as [_ ->]; [|done].
    apply a_find_Some in E as [_ Hk]. apply a_find_last; [done|]. intros x Hx. unfold a_remove in Hx.
    by apply list_elem_of_filter in Hx as [? _].
Qed.

Lemma plain_delete_find n w c k :
  wf w c → plain n c →
  let '(w', c') := Delete w c k in
  wf w' c' ∧ plain n c' ∧ a_find k (Snapshot w' c') = None.
Proof.
  intros Hwf Hp. pose proof (plain_delete n w c k Hwf Hp) as Hd. destruct (Delete w c k) as [w' c'].
  destruct Hd as (? & ? & ->). split_and!; [done|done|]. apply a_find_None. intros e He.
  unfold a_remove in He. by apply list_elem_of_filter in He as [? _].
Qed.

(** *** What happens to the other keys *)

Lemma a_find_app k l e : a_find k (l ++ [e]) = match a_find k l with
                                               | Some x => Some x
                                               | None => if decide (key e = k) then Some e else None
                                               end.
Proof.
  destruct (a_find k l) as [x|] eqn:E.
  - unfold a_find in *. destruct (list_find _ l) as [[i y]|] eqn:F; [|done]. by rewrite (list_find_app_l _ _ _ _ _ F).
  - rewrite a_find_None in E. unfold a_find. rewrite list_find_app_r by (by apply list_find_None, list.Forall_forall).
    simpl. by destruct (decide (key e = k)).
Qed.

Lemma a_find_remove_ne k k' l : k ≠ k' → a_find k' (a_remove k l) = a_find k' l.
Proof.
  intros Hne. unfold a_find, a_remove. induction l as [|e l IH]; [done|]. rewrite filter_cons. simpl.
  destruct (decide (key e = k')) as [<-|Hk].
  - rewrite decide_True by done. simpl. by rewrite decide_True.
  - destruct (decide (key e ≠ k)) as [?|?]; simpl; [rewrite decide_False by done|].
    + destruct (list_find _ (filter _ _)) as [[??]|], (list_find _ l) as [[??]|]; simpl in *; congruence.
    + destruct (list_find _ (filter _ _)) as [[??]|], (list_find _ l) as [[??]|]; simpl in *; congruence.
Qed.

Lemma plain_get_other n w c k k' :
  wf w c → plain n c →
  let '(w', c', _) := Get 0 w c k in a_find k' (Snapshot w' c') = a_find k' (Snapshot w c).
Proof.
  intros Hwf Hp. destruct (decide (k = k')) as [<-|Hne].
  { pose proof (plain_get_find n w c k Hwf Hp) as Hg. destruct (Get 0 w c k) as [[w' c'] r]. apply Hg. }
  pose proof (plain_get n w c k Hwf Hp) as Hg. destruct (Get 0 w c k) as [[w' c'] r]. destruct Hg as (_ & _ & Hg).
  destruct (a_find k (Snapshot w c)) as [e|] eqn:E; destruct Hg as [_ ->]; [|done].
  apply a_find_Some in E as [_ Hk]. rewrite a_find_app, a_find_remove_ne by done.
  destruct (a_find k' (Snapshot w c)); [done|]. by rewrite decide_False by congruence.
Qed.

Lemma plain_delete_other n w c k k' :
  wf w c → plain n c → k ≠ k' →
  let '(w', c') := Delete w c k in a_find k' (Snapshot w' c') = a_find k' (Snapshot w c).
Proof.
  intros Hwf Hp Hne. pose proof (plain_delete n w c k Hwf Hp) as Hd. destruct (Delete w c k) as [w' c'].
  destruct Hd as (_ & _ & ->). by apply a_find_remove_ne.
Qed.

(** A store drops another key only when the cache was full and the key stored was new. *)
Lemma plain_set_other n w c k k' v :
  wf w c → plain n c → k ≠ k' →
  let '(w', c') := Set_ 0 w c k v in
  a_find k' (Snapshot w' c') = a_find k' (Snapshot w c) ∨
  (a_find k' (Snapshot w' c') = None ∧ a_find k (Snapshot w c) = None ∧ n ≤ Z.of_nat (length (Snapshot w c))).
Proof.
  intros Hwf Hp Hne. unfold Set_. destruct (set_shows 0 w c k v Hwf) as (_ & _ & Ha).
  destruct (set 0 w c k v) as [w' c']. simpl in *.
  assert (∀ a, a_trim (V:=V) c 0 a = a) as Ht by (intros a; unfold a_trim; by rewrite Hp).
  unfold a_set, a_put, a_bound in Ha. rewrite Ht in Ha. cbn [fst snd abs] in Ha.
  assert (maxSize c = n) as Hsize by (by rewrite Hp). rewrite Hsize in Ha.
  destruct (a_find k (Snapshot w c)) as [e|] eqn:E.
  - injection Ha as Hs _. left. rewrite Hs, a_find_app, a_find_remove_ne by done.
    destruct (a_find k' (Snapshot w c)); [done|]. by rewrite decide_False.
  - assert (∀ x, a_find k' (Snapshot w c ++ [Entry k v x]) = a_find k' (Snapshot w c)) as Hf.
    { intros x. rewrite a_find_app. destruct (a_find k' (Snapshot w c)); [done|]. by rewrite decide_False. }
    destruct (Snapshot w c ++ [_]) as [|e l] eqn:El; [by destruct (Snapshot w c)|].
    destruct ((0 <? n) && _) eqn:Eb; injection Ha as Hs _; rewrite Hs; [|left; rewrite <- El; apply Hf].
    breflect. assert (length (e :: l) = S (length (Snapshot w c))) as Hlen by (rewrite <- El, length_app; simpl; lia).
    rewrite <- (Hf (if 0 <? maxAge c then i64 (0 + maxAge c) else 0)), El.
    destruct (decide (key e = k')) as [Hk|Hk]; [right|left].
    + split_and!; [|done|lia]. apply a_find_None. intros x Hx Hkx.
      assert (NoDup (key <$> (e :: l))) as Hnd.
      { rewrite <- El. rewrite fmap_app. apply list.NoDup_app. split_and!; [by apply wf_nodup_keys| |apply NoDup_singleton].
        intros y (z & -> & Hz)%list_elem_of_fmap Hy. rewrite a_find_None in E. apply (E z Hz).
        by apply list_elem_of_singleton in Hy. }
      rewrite fmap_cons in Hnd. apply list.NoDup_cons in Hnd as [Hnd _]. apply Hnd. apply list_elem_of_fmap. exists x.
      split; [congruence|done].
    + unfold a_find. simpl. rewrite decide_False by done. destruct (list_find _ l) as [[??]|]; done.
Qed.

(** ** Properties *)


(** A cache made with a positive size bound never holds more entries than
    that bound, after any sequence of operations. *)
Theorem lru_size_bounded (options : list Option_) (ops : list (Z * op K V)) :
  0 < maxSize (K:=K) (New options) →
  let '(w, c, _) := run (World ∅ []) (New options) ops in
  Z.of_nat (length (Snapshot w c)) ≤ maxSize (K:=K) (New options).
Proof.
  intros Hpos. pose proof (run_simulates (World ∅ []) (New options) ops (New_wf _ _)) as Hr.
  rewrite New_abs in Hr. pose proof (a_run_length (New options) ([], []) ops Hpos) as Hl.
  destruct (run _ _ ops) as [[w c] rs]. destruct Hr as [(_ & _ & Ha) _]. simpl in Ha.
  rewrite <- Ha in Hl. apply Hl. simpl. lia.
Qed.

(** On a consistent cache, [Get] right after [Set] returns the stored value
    as long as the entry has not expired between the two. *)
Theorem Get_after_Set now now' (w : world K V) (c : LruCache K) k v :
  wf w c →
  (expiring c = true → now < i64 (now + maxAge c) ∧ now' < i64 (now + maxAge c)) →
  let '(w1, c1) := Set_ now w c k v in
  (Get now' w1 c1 k).2 = Some v.
Proof.
  intros Hwf Hexp. unfold Set_. destruct (set_shows now w c k v Hwf) as (Hwf1 & Hc1 & Ha1).
  destruct (set now w c k v) as [w1 c1]. simpl in *. unfold Get.
  destruct (get_shows now' w1 c1 k Hwf1) as [_ Hr]. destruct (get now' w1 c1 k) as [[w2 c2] r].
  simpl in *. subst r. rewrite Ha1. unfold a_set.
  set (exp := if 0 <? maxAge c then _ else _).
  destruct (a_put_last c now (abs w c) k v exp) as (l & Hl & Hk).
  { intros He. destruct (Hexp He) as [? _]. unfold exp. unfold expiring in He. breflect.
    destruct (Z.ltb_spec 0 (maxAge c)); lia. }
  unfold a_get. rewrite Hl, (a_find_last k (Entry k v exp) l eq_refl Hk).
  assert (expiring c1 && (expires (Entry k v exp) <=? now') = false) as ->.
  { assert (expiring c1 = expiring c) as -> by (by rewrite Hc1).
    destruct (expiring c) eqn:Ee; [|done]. destruct (Hexp eq_refl) as [_ ?].
    unfold expiring in Ee. breflect. simpl. apply Z.leb_gt. unfold exp.
    destruct (Z.ltb_spec 0 (maxAge c)); lia. }
  simpl. unfold a_refresh. by destruct ((0 <? maxAge c1) && updateAgeOnGet c1).
Qed.

(** [CloneTo] shares the cells: the clone shows the entries of the
    original, and storing an existing key through the clone is visible in the
    original cache. *)
Theorem CloneTo_shares_entries now (w : world K V) (c n : LruCache K) k v :
  wf w c → Exist c k = true →
  Snapshot w (CloneTo w c n) = Snapshot w c ∧
  let '(w', _) := Set_ now w (CloneTo w c n) k v in
  value <$> a_find k (Snapshot w' c) = Some v.
Proof.
  intros Hwf Hex. destruct (CloneTo_wf w c n Hwf) as [Hwfn Hs]. split; [done|].
  unfold Exist in Hex. breflect. destruct Hex as [le Hle].
  destruct (CloneTo_lists w c n Hwf) as [_ Hc].
  unfold Set_, set, setWithExpire. rewrite Hc, Hle.
  set (exp := if _ <? _ then _ else _).
  pose proof (maybeDeleteOldest_heap now (set_cell w le (Entry k v exp)) (MoveToBack (CloneTo w c n) le)) as Hh.
  destruct (maybeDeleteOldest _ _ _) as [w' n']. simpl in Hh.
  assert (Snapshot w' c = Snapshot (set_cell w le (Entry k v exp)) c) as ->
    by (unfold Snapshot; by rewrite Hh).
  pose proof (set_cell_wf w c k le (Entry k v exp) Hwf Hle eq_refl) as Hwf'.
  destruct (wf_lookup_Some _ c k le Hwf' Hle) as (e & He & _ & _ & ->).
  simpl in He. rewrite lookup_insert_eq in He. by simplify_eq.
Qed.

End proofs.

(** ** Witnesses *)

Example three_sets : list (Z * op Z Z) := [(0, OSet 1 10); (0, OSet 2 20); (0, OGet 1); (0, OSet 3 30)].

Lemma lru_size_bounded_witness :
  let '(w, c, _) := run (World ∅ []) (New [WithSize 2]) three_sets in
  Z.of_nat (length (Snapshot w c)) ≤ 2.
Proof. exact (lru_size_bounded (K:=Z) (V:=Z) [WithSize 2] three_sets ltac:(vm_compute; reflexivity)). Defined.

Lemma Get_after_Set_witness :
  let '(w1, c1) := Set_ 5 (World ∅ []) (New [WithAge 10; WithSize 2]) (7 : Z) (70 : Z) in
  (Get 14 w1 c1 7).2 = Some 70.
Proof.
  apply (Get_after_Set 5 14 (World ∅ []) (New [WithAge 10; WithSize 2]) 7 70).
  - apply New_wf.
  - intros _. vm_compute. split; reflexivity.
Defined.

Lemma CloneTo_shares_entries_witness :
  let '(w, c) := Set_ 5 (World ∅ []) (New [WithSize 2]) (7 : Z) (70 : Z) in
  Snapshot w (CloneTo w c (New [])) = Snapshot w c ∧
  let '(w', _) := Set_ 6 w (CloneTo w c (New [])) 7 71 in
  value <$> a_find 7 (Snapshot w' c) = Some 71.
Proof.
  pose proof (set_shows 5 (World ∅ []) (New [WithSize 2]) (7 : Z) (70 : Z) (New_wf _ _)) as (Hwf & _ & _).
  destruct (Set_ 5 (World ∅ []) (New [WithSize 2]) 7 70) as [w c] eqn:E.
  unfold Set_ in E. rewrite E in Hwf. simpl in Hwf.
  apply (CloneTo_shares_entries 6 w c (New []) 7 71 Hwf).
  injection E as <- <-. reflexivity.
Defined.
