(* ===== verification/Ranges.v ===== *)
(** * [common/utils/range.go] and [common/utils/ranges.go]: integer ranges.

    A range is a pair of values of an integer type [T] (Prelude's [int_type]);
    arithmetic on [T] wraps.  [Merge] works in place on the array of its
    argument, which the model keeps as an explicit array with an index. *)

From Stdlib Require Import ZArith Lia Ascii.
From stdpp Require Import base list strings numbers sorting.
From S2P Require Import Prelude GoStrings.
#[local] Open Scope string_scope.
#[local] Open Scope list_scope.
#[local] Open Scope Z_scope.

(** ** A single range *)

Record Range := mkRange { start : Z; end_ : Z }.

Definition NewRange (s e : Z) : Range := if e <? s then mkRange e s else mkRange s e.

Definition Contains (r : Range) (t : Z) : bool := (start r <=? t) && (t <=? end_ r).
Definition LeftContains (r : Range) (t : Z) : bool := (start r <=? t) && (t <? end_ r).
Definition RightContains (r : Range) (t : Z) : bool := (start r <? t) && (t <=? end_ r).
Definition Start (r : Range) : Z := start r.
Definition End_ (r : Range) : Z := end_ r.

Definition String_ (r : Range) : string :=
  if start r =? end_ r then Itoa (start r) else Itoa (start r) +:+ "-" +:+ Itoa (end_ r).

(** ** Parsing *)

Inductive range_error := InvalidRange (s : string) | TooManyRanges.

(** [strconv] parses a 64-bit value; the conversion to [T] truncates it. *)
Definition parseUnsigned (T : int_type) (s : string) : option Z := norm T <$> ParseUint s 64.
Definition parseSigned (T : int_type) (s : string) : option Z := norm T <$> ParseInt s 64.

(** The cutset ["[ ]"]. *)
Definition bracket_or_space (c : ascii) : bool :=
  bool_decide (c = "["%char) || bool_decide (c = " "%char) || bool_decide (c = "]"%char).

Definition newIntRange (s : string) (parseFn : string → option Z) : result range_error Range :=
  let s := TrimSpace s in
  if (String.length s =? 0)%nat then Ok (NewRange 0 0)
  else
    let status := Split s "-" in
    match parseFn (Trim (default "" (status !! 0%nat)) bracket_or_space) with
    | None => Err (InvalidRange s)
    | Some st =>
        match status with
        | [_] => Ok (NewRange st st)
        | [_; e] =>
            match parseFn (Trim e bracket_or_space) with
            | None => Err (InvalidRange s)
            | Some en => Ok (NewRange st en)
            end
        | _ => Err (InvalidRange s)
        end
    end.

Definition NewUnsignedRange (T : int_type) (s : string) : result range_error Range :=
  newIntRange s (parseUnsigned T).
Definition NewSignedRange (T : int_type) (s : string) : result range_error Range :=
  newIntRange s (parseSigned T).

Abbreviation IntRanges := (list Range).

Fixpoint newIntRangesFromList (l : list string) (parseFn : string → option Z) : result range_error IntRanges :=
  match l with
  | [] => Ok []
  | s :: l =>
      if bool_decide (s = "") then newIntRangesFromList l parseFn
      else let! r := newIntRange s parseFn in
           let! rs := newIntRangesFromList l parseFn in
           Ok (r :: rs)
  end.

Definition newIntRanges (expected : string) (parseFn : string → option Z) : result range_error IntRanges :=
  let expected := TrimSpace expected in
  if bool_decide (expected = "") || bool_decide (expected = "*") then Ok []
  else
    let l := Split (ReplaceAll expected "," "/") "/" in
    if (28 <? length l)%nat then Err TooManyRanges
    else newIntRangesFromList l parseFn.

Definition NewUnsignedRanges (T : int_type) (expected : string) : result range_error IntRanges :=
  newIntRanges expected (parseUnsigned T).
Definition NewUnsignedRangesFromList (T : int_type) (l : list string) : result range_error IntRanges :=
  newIntRangesFromList l (parseUnsigned T).
Definition NewSignedRanges (T : int_type) (expected : string) : result range_error IntRanges :=
  newIntRanges expected (parseSigned T).
Definition NewSignedRangesFromList (T : int_type) (l : list string) : result range_error IntRanges :=
  newIntRangesFromList l (parseSigned T).

(** ** Queries *)

Definition Check_ (ranges : IntRanges) (status : Z) : bool :=
  match ranges with
  | [] => true
  | _ => existsb (λ segment, Contains segment status) ranges
  end.

Definition Strings (ranges : IntRanges) : string :=
  match ranges with
  | [] => "*"
  | _ => Join (String_ <$> ranges) "/"
  end.

(** ** Iteration: [for i := r.Start(); i <= r.End() && i >= r.Start(); i++] *)

Section iteration.
Context {S : Type} (f : S → Z → S * bool).

(** The flag of the result is false when [f] asked to stop. *)
Fixpoint range_loop (fuel : nat) (T : int_type) (r : Range) (i : Z) (s : S) : S * bool :=
  match fuel with
  | O => (s, true)
  | Datatypes.S fuel =>
      if (i <=? End_ r) && (Start r <=? i) then
        let '(s, go) := f s i in
        if negb go then (s, false)
        else if norm T (i + 1) <? i then (s, true)
        else range_loop fuel T r (norm T (i + 1)) s
      else (s, true)
  end.

(** One more round than the range has values. *)
Definition range_fuel (r : Range) : nat := Datatypes.S (Z.to_nat (End_ r - Start r + 1)).

Fixpoint Range_ (T : int_type) (ranges : IntRanges) (s : S) : S :=
  match ranges with
  | [] => s
  | r :: ranges =>
      let '(s, go) := range_loop (range_fuel r) T r (Start r) s in
      if go then Range_ T ranges s else s
  end.
End iteration.

(** ** Merging, in place *)

(** [sort.Slice] leaves a permutation of the slice, sorted by [less]; the order
    of elements [less] does not separate is unspecified. *)
Class SliceSort := {
  sort_slice {A} (less : A → A → bool) : list A → list A;
  sort_slice_perm {A} (less : A → A → bool) l : sort_slice less l ≡ₚ l;
  sort_slice_sorted {A} (less : A → A → bool) l :
    (∀ x y, less x y = true → less y x = false) →
    (∀ x y z, less y x = false → less z y = false → less z x = false) →
    StronglySorted (λ x y, less y x = false) (sort_slice less l);
}.

Definition lessStart (r r' : Range) : bool := Start r <? Start r'.

(** One round of the loop: [i] is the index read, [ri] is [rangeIndex]. *)
Definition merge_round (T : int_type) (arr : list Range) (ri i : nat) : list Range * nat :=
  match arr !! i, arr !! ri with
  | Some r, Some cur =>
      if (End_ cur <? norm T (End_ cur + 1)) && (norm T (End_ cur + 1) <? Start r)
      then (<[Datatypes.S ri := r]> arr, Datatypes.S ri)
      else if End_ cur <? End_ r
      then (<[ri := mkRange (start cur) (End_ r)]> arr, ri)
      else (arr, ri)
  | _, _ => (arr, ri)
  end.

Fixpoint merge_loop (T : int_type) (arr : list Range) (ri i : nat) (n : nat) : list Range * nat :=
  match n with
  | O => (arr, ri)
  | Datatypes.S n => let '(arr, ri) := merge_round T arr ri i in merge_loop T arr ri (Datatypes.S i) n
  end.

Definition Merge `{SliceSort} (T : int_type) (ranges : IntRanges) : IntRanges :=
  match ranges with
  | [] => []
  | _ =>
      let arr := sort_slice lessStart ranges in
      let '(arr, ri) := merge_loop T arr 0 1 (length arr - 1) in
      take (Datatypes.S ri) arr
  end.

(** A range of values of [T], lowest first. *)
Definition range_ok (T : int_type) (r : Range) : Prop :=
  in_type T (start r) ∧ in_type T (end_ r) ∧ start r ≤ end_ r.

(** The values of a range in ascending order. *)
Definition values (r : Range) : list Z := seqZ (start r) (end_ r - start r + 1).

(** Feed the values to [f] until it stops. *)
Fixpoint feed {S} (f : S → Z → S * bool) (l : list Z) (s : S) : S * bool :=
  match l with
  | [] => (s, true)
  | x :: l => let '(s, go) := f s x in if go then feed f l s else (s, false)
  end.

(** ** Iteration visits every value once, in order *)

Lemma feed_app {S} (f : S → Z → S * bool) l1 l2 s :
  feed f (l1 ++ l2) s = let '(s', go) := feed f l1 s in if go then feed f l2 s' else (s', false).
Proof.
  revert s. induction l1 as [|x l1 IH]; intros s; simpl; [done|].
  destruct (f s x) as [s' go]. by destruct go.
Qed.

Lemma range_loop_feed {S} (f : S → Z → S * bool) fuel T r i s :
  int_ok T → range_ok T r → start r ≤ i ≤ end_ r → (Z.to_nat (end_ r - i + 1) ≤ fuel)%nat →
  range_loop f fuel T r i s = feed f (seqZ i (end_ r - i + 1)) s.
Proof.
  intros HT (Hs & He & Hle). revert i s. induction fuel as [|fuel IH]; intros i s Hi Hfuel; [lia|].
  rewrite seqZ_cons by lia. simpl. unfold End_, Start.
  rewrite (proj2 (Z.leb_le i (end_ r))), (proj2 (Z.leb_le (start r) i)) by lia. simpl.
  destruct (f s i) as [s' go]. destruct go; simpl; [|done].
  rewrite norm_succ by (unfold in_type in *; lia || done).
  replace (Z.pred (end_ r - i + 1)) with (end_ r - (i + 1) + 1) by lia.
  replace (Z.succ i) with (i + 1) by lia.
  destruct (Z.eqb_spec i (int_max T)) as [->|Hne].
  - unfold in_type in *. rewrite (proj2 (Z.ltb_lt _ _)) by
      (pose proof (int_span T HT); pose proof (Z.pow_gt_1 2 (width T)); unfold int_ok in HT; lia).
    by rewrite seqZ_nil by lia.
  - rewrite (proj2 (Z.ltb_ge _ _)) by lia. destruct (decide (i = end_ r)) as [->|Hne'].
    + rewrite seqZ_nil by lia. destruct fuel; simpl; [done|]. unfold End_.
      by rewrite (proj2 (Z.leb_gt (end_ r + 1) (end_ r))) by lia.
    + apply IH; lia.
Qed.

Lemma Range_feed {S} (f : S → Z → S * bool) T ranges s :
  int_ok T → Forall (range_ok T) ranges →
  Range_ f T ranges s = (feed f (concat (values <$> ranges)) s).1.
Proof.
  intros HT Hall. revert s. induction Hall as [|r ranges Hr _ IH]; intros s; [done|].
  cbn [Range_ fmap list_fmap concat].
  pose proof Hr as (_ & _ & Hle).
  rewrite range_loop_feed; [|done|done|unfold Start; lia|unfold range_fuel, Start, End_; lia].
  rewrite feed_app. unfold Start. fold (values r). destruct (feed f _ s) as [s' go]. by destruct go.
Qed.

Lemma elem_of_values r t : t ∈ values r ↔ Contains r t = true.
Proof.
  unfold values, Contains. rewrite elem_of_seqZ, andb_true_iff, !Z.leb_le. lia.
Qed.

(** ** Merging *)

(** What the in-place loop computes, without the array. *)
Definition gap (T : int_type) (cur r : Range) : bool :=
  (End_ cur <? norm T (End_ cur + 1)) && (norm T (End_ cur + 1) <? Start r).
Definition extend (cur r : Range) : Range :=
  if End_ cur <? End_ r then mkRange (start cur) (End_ r) else cur.

Fixpoint merge_from (T : int_type) (cur : Range) (rest : list Range) : list Range :=
  match rest with
  | [] => [cur]
  | r :: rest => if gap T cur r then cur :: merge_from T r rest else merge_from T (extend cur r) rest
  end.

Lemma merge_loop_from T (done_ : list Range) cur mid rest :
  let '(arr, ri) := merge_loop T (done_ ++ cur :: mid ++ rest) (length done_)
                      (length (done_ ++ cur :: mid)) (length rest) in
  take (S ri) arr = done_ ++ merge_from T cur rest.
Proof.
  revert done_ cur mid. induction rest as [|r rest IH]; intros done_ cur mid; simpl.
  { rewrite app_nil_r. rewrite take_app_ge by lia. replace (S (length done_) - length done_)%nat with 1%nat by lia. done. }
  unfold merge_round.
  assert ((done_ ++ cur :: mid ++ r :: rest) !! length (done_ ++ cur :: mid) = Some r) as ->.
  { rewrite app_comm_cons, app_assoc. by rewrite list_lookup_middle. }
  rewrite list_lookup_middle by done. fold (gap T cur r).
  destruct (gap T cur r).
  - (* append: the slot after [cur] already was read *)
    destruct mid as [|m mid]; simpl.
    + specialize (IH (done_ ++ [cur]) r []). rewrite <- !app_assoc in IH. simpl in IH.
      replace (length (done_ ++ [cur])) with (S (length done_)) in IH by (rewrite length_app; simpl; lia).
      replace (length (done_ ++ [cur; r])) with (S (length (done_ ++ [cur]))) in IH by (rewrite !length_app; simpl; lia).
      rewrite insert_app_r_alt by lia. replace (S (length done_) - length done_)%nat with 1%nat by lia. simpl.
      exact IH.
    + specialize (IH (done_ ++ [cur]) r (mid ++ [r])). rewrite <- !app_assoc in IH. simpl in IH.
      replace (length (done_ ++ [cur])) with (S (length done_)) in IH by (rewrite length_app; simpl; lia).
      replace (length (done_ ++ cur :: r :: mid ++ [r])) with (S (length (done_ ++ cur :: m :: mid))) in IH
        by (rewrite !length_app; simpl; rewrite length_app; simpl; lia).
      rewrite insert_app_r_alt by lia. replace (S (length done_) - length done_)%nat with 1%nat by lia. simpl.
      exact IH.
  - unfold extend. destruct (End_ cur <? End_ r).
    + specialize (IH done_ (mkRange (start cur) (End_ r)) (mid ++ [r])).
      rewrite <- !app_assoc in IH. simpl in IH.
      replace (length (done_ ++ mkRange (start cur) (End_ r) :: mid ++ [r])) with (S (length (done_ ++ cur :: mid))) in IH
        by (rewrite !length_app; simpl; rewrite length_app; simpl; lia).
      rewrite insert_app_r_alt, Nat.sub_diag by lia. simpl.
      exact IH.
    + specialize (IH done_ cur (mid ++ [r])). rewrite <- !app_assoc in IH. simpl in IH.
      replace (length (done_ ++ cur :: mid ++ [r])) with (S (length (done_ ++ cur :: mid))) in IH
        by (rewrite !length_app; simpl; rewrite length_app; simpl; lia).
      exact IH.
Qed.

Definition covers (l : list Range) (t : Z) : bool := existsb (λ r, Contains r t) l.

(** Ranges that neither overlap nor touch. *)
Definition separated : list Range → Prop := Sorted (λ a b, end_ a + 1 < start b).

Lemma gap_spec T cur r :
  int_ok T → range_ok T cur → range_ok T r → gap T cur r = (end_ cur + 1 <? start r).
Proof.
  intros HT (_ & Hc & _) (Hr & _ & _). unfold gap, End_, Start.
  rewrite norm_succ by done. unfold in_type in *.
  pose proof (int_span T HT); pose proof (Z.pow_gt_1 2 (width T)); unfold int_ok in HT.
  destruct (Z.eqb_spec (end_ cur) (int_max T)) as [->|Hne].
  - rewrite (proj2 (Z.ltb_ge (int_max T) _)) by lia. symmetry. apply Z.ltb_ge. lia.
  - rewrite (proj2 (Z.ltb_lt (end_ cur) _)) by lia. done.
Qed.

Lemma extend_ok T cur r : range_ok T cur → range_ok T r → start cur ≤ start r → range_ok T (extend cur r).
Proof.
  unfold range_ok, extend, End_. intros (?&?&?) (?&?&?) ?. destruct (Z.ltb_spec (end_ cur) (end_ r)); simpl; [|done].
  split_and!; [done|done|lia].
Qed.

Lemma extend_covers cur r t :
  start cur ≤ start r ≤ end_ cur + 1 → start r ≤ end_ r →
  Contains (extend cur r) t = Contains cur t || Contains r t.
Proof.
  intros H1 H2. apply eq_true_iff_eq. unfold Contains, extend, End_.
  rewrite orb_true_iff. destruct (Z.ltb_spec (end_ cur) (end_ r)); simpl;
    rewrite !andb_true_iff, !Z.leb_le; lia.
Qed.

Lemma merge_from_spec T cur rest :
  int_ok T → Forall (range_ok T) (cur :: rest) →
  StronglySorted (λ x y, start x ≤ start y) (cur :: rest) →
  (∀ t, covers (merge_from T cur rest) t = covers (cur :: rest) t) ∧
  separated (merge_from T cur rest) ∧ Forall (range_ok T) (merge_from T cur rest) ∧
  ∃ c l, merge_from T cur rest = c :: l ∧ start c = start cur.
Proof.
  intros HT. revert cur. induction rest as [|r rest IH]; intros cur Hok Hs; simpl.
  { split_and!; [done|repeat constructor|done|by exists cur, []]. }
  apply Forall_cons in Hok as [Hc Hok]. apply Forall_cons in Hok as [Hr Hok].
  apply StronglySorted_inv in Hs as [Hs Hcr]. apply Forall_cons in Hcr as [Hcr Hcrest].
  rewrite gap_spec by done. destruct (Z.ltb_spec (end_ cur + 1) (start r)) as [Hg|Hg].
  - destruct (IH r) as (Hcov & Hsep & Hok' & c & l & Heq & Hst); [by constructor|done|].
    split_and!.
    + intros t. unfold covers in *. simpl. by rewrite Hcov.
    + constructor; [done|]. rewrite Heq. constructor. by rewrite Hst.
    + by constructor.
    + by eexists _, _.
  - pose proof (extend_ok T cur r Hc Hr Hcr) as He. pose proof Hr as (_ & _ & Hrle).
    assert (start (extend cur r) = start cur) as Hst by (unfold extend; by destruct (_ <? _)).
    destruct (IH (extend cur r)) as (Hcov & Hsep & Hok' & c & l & Heq & Hst').
    { by constructor. }
    { constructor; [by apply StronglySorted_inv in Hs as [? _]|].
      by rewrite Hst. }
    split_and!; [|done|done|exists c, l; by rewrite <- Hst].
    intros t. unfold covers in *. rewrite Hcov. simpl. rewrite extend_covers by lia. by rewrite orb_assoc.
Qed.

Lemma covers_perm l1 l2 t : l1 ≡ₚ l2 → covers l1 t = covers l2 t.
Proof.
  intros Hp. apply eq_true_iff_eq. unfold covers. rewrite !existsb_exists.
  setoid_rewrite <- list_elem_of_In. by setoid_rewrite Hp.
Qed.

Lemma StronglySorted_impl {A} (R1 R2 : A → A → Prop) l :
  (∀ x y, R1 x y → R2 x y) → StronglySorted R1 l → StronglySorted R2 l.
Proof.
  intros HR Hs. induction Hs as [|x l _ IH Hall]; constructor; [done|].
  eapply Forall_impl; [exact Hall|]. auto.
Qed.

Lemma Merge_merge_from `{SliceSort} T ranges cur rest :
  sort_slice lessStart ranges = cur :: rest → Merge T ranges = merge_from T cur rest.
Proof.
  intros Hs. unfold Merge. destruct ranges as [|r ranges].
  { pose proof (sort_slice_perm lessStart []) as Hp. rewrite Hs in Hp.
    by apply Permutation_nil_r in Hp. }
  rewrite Hs. pose proof (merge_loop_from T [] cur [] rest) as Hm. simpl in Hm |- *.
  rewrite Nat.sub_0_r. by destruct (merge_loop T (cur :: rest) 0 1 (length rest)).
Qed.

Lemma sorted_by_start `{SliceSort} ranges :
  StronglySorted (λ x y, start x ≤ start y) (sort_slice lessStart ranges).
Proof.
  eapply StronglySorted_impl; [|apply sort_slice_sorted].
  - intros x y. unfold lessStart, Start. rewrite Z.ltb_ge. done.
  - intros x y. unfold lessStart. rewrite Z.ltb_lt, Z.ltb_ge. lia.
  - intros x y z. unfold lessStart. rewrite !Z.ltb_ge. lia.
Qed.

(** ** Printing and parsing *)

Definition unsigned64 (T : int_type) : Prop := signed T = false ∧ 0 < width T ≤ 64.

Lemma unsigned64_ok T x : unsigned64 T → in_type T x → 0 ≤ x < 2 ^ 64.
Proof.
  intros [Hs Hw] Hx. unfold in_type, int_min, int_max in Hx. rewrite Hs in Hx.
  pose proof (Z.pow_le_mono_r 2 (width T) 64). lia.
Qed.

Lemma parseUnsigned_print T x : unsigned64 T → in_type T x → parseUnsigned T (FormatUint x) = Some x.
Proof.
  intros HT Hx. pose proof (unsigned64_ok T x HT Hx). unfold parseUnsigned.
  rewrite ParseUint_FormatUint by lia. simpl. f_equal. apply norm_id; [|done].
  destruct HT. unfold int_ok. lia.
Qed.

Lemma Itoa_unsigned x : 0 ≤ x → Itoa x = FormatUint x.
Proof. intros Hx. unfold Itoa. by rewrite (proj2 (Z.ltb_ge _ _)). Qed.

Lemma digits_bracket s : str_all is_digit s = true → Trim s bracket_or_space = s.
Proof.
  intros Hs. apply Trim_id. eapply str_all_impl; [|exact Hs]. intros c Hc. unfold bracket_or_space.
  by rewrite !(is_digit_ne c) by done.
Qed.

Lemma digits_no_byte s d :
  is_digit d = false → str_all is_digit s = true → str_all (λ c, negb (bool_decide (c = d))) s = true.
Proof.
  intros Hd Hs. eapply str_all_impl; [|exact Hs]. intros c Hc. by rewrite (is_digit_ne c).
Qed.

(** The bytes of a printed range. *)
Definition range_byte (c : ascii) : bool := is_digit c || bool_decide (c = "-"%char).

Lemma range_byte_graphic c : range_byte c = true → graphic c = true.
Proof.
  unfold range_byte. rewrite orb_true_iff, bool_decide_eq_true. intros [Hc| ->]; [|done].
  by apply is_digit_graphic.
Qed.

Lemma range_byte_ne c d : range_byte d = false → range_byte c = true → negb (bool_decide (c = d)) = true.
Proof. intros Hd Hc. apply negb_true_iff, bool_decide_eq_false_2. congruence. Qed.

Lemma String_bytes T r : unsigned64 T → range_ok T r → str_all range_byte (String_ r) = true.
Proof.
  intros HT (Hs & He & _). pose proof (unsigned64_ok T _ HT Hs). pose proof (unsigned64_ok T _ HT He).
  assert (∀ x, 0 ≤ x → str_all range_byte (FormatUint x) = true) as Hx.
  { intros x Hx. eapply str_all_impl; [|by apply FormatUint_digits]. intros c Hc. unfold range_byte. by rewrite Hc. }
  unfold String_. rewrite !Itoa_unsigned by lia. destruct (_ =? _); [apply Hx; lia|].
  rewrite !str_all_app, !Hx by lia. done.
Qed.

Lemma String_nonempty T r : unsigned64 T → range_ok T r → String_ r ≠ "".
Proof.
  intros HT (Hs & He & _). pose proof (unsigned64_ok T _ HT Hs).
  pose proof (unsigned64_ok T _ HT He).
  unfold String_. rewrite !Itoa_unsigned by lia. destruct (_ =? _); [apply FormatUint_nonempty|].
  pose proof (FormatUint_nonempty (start r)). by destruct (FormatUint (start r)).
Qed.

Lemma newIntRange_String T r :
  unsigned64 T → range_ok T r → newIntRange (String_ r) (parseUnsigned T) = Ok r.
Proof.
  intros HT Hr. pose proof (String_bytes T r HT Hr) as Hb. pose proof (String_nonempty T r HT Hr) as Hne.
  destruct Hr as (Hs & He & Hle). pose proof (unsigned64_ok T _ HT Hs). pose proof (unsigned64_ok T _ HT He).
  unfold newIntRange. rewrite TrimSpace_graphic by (eapply str_all_impl; [apply range_byte_graphic|done]).
  assert ((String.length (String_ r) =? 0)%nat = false) as -> by (by destruct (String_ r)).
  unfold String_. rewrite !Itoa_unsigned by lia.
  assert (∀ x, 0 ≤ x → str_all (λ c, negb (bool_decide (c = "-"%char))) (FormatUint x) = true) as Hd.
  { intros x Hx. apply digits_no_byte; [done|by apply FormatUint_digits]. }
  assert (∀ x, in_type T x → parseUnsigned T (Trim (FormatUint x) bracket_or_space) = Some x) as Hp.
  { intros x Hx. pose proof (unsigned64_ok T x HT Hx).
    rewrite digits_bracket by (apply FormatUint_digits; lia). by apply parseUnsigned_print. }
  destruct (Z.eqb_spec (start r) (end_ r)) as [Heq|Hneq].
  - rewrite Split_none by (apply Hd; lia). simpl. rewrite Hp by done.
    unfold NewRange. rewrite (proj2 (Z.ltb_ge _ _)) by lia. destruct r; simpl in *; congruence.
  - change ("-" +:+ FormatUint (end_ r)) with (String "-" (FormatUint (end_ r))).
    rewrite Split_app, Split_none by (apply Hd; lia). simpl. rewrite !Hp by done.
    unfold NewRange. rewrite (proj2 (Z.ltb_ge _ _)) by lia. by destruct r.
Qed.

Lemma FromList_Strings T ranges :
  unsigned64 T → Forall (range_ok T) ranges →
  newIntRangesFromList (String_ <$> ranges) (parseUnsigned T) = Ok ranges.
Proof.
  intros HT Hall. induction Hall as [|r ranges Hr _ IH]; [done|].
  rewrite fmap_cons. cbn [newIntRangesFromList].
  rewrite bool_decide_eq_false_2 by by eapply String_nonempty.
  by rewrite newIntRange_String, IH.
Qed.

Lemma Strings_bytes T ranges :
  unsigned64 T → Forall (range_ok T) ranges →
  str_all (λ c, range_byte c || bool_decide (c = "/"%char)) (Join (String_ <$> ranges) "/") = true.
Proof.
  intros HT Hall. induction Hall as [|r ranges Hr Hall IH]; [done|].
  assert (str_all (λ c, range_byte c || bool_decide (c = "/"%char)) (String_ r) = true) as Hs.
  { eapply str_all_impl; [|by eapply String_bytes]. intros c ->. done. }
  destruct ranges as [|r' ranges]; [done|]. simpl in *. rewrite !str_all_app, Hs. done.
Qed.

(** ** Properties *)

(** [Merge] sorts and coalesces in place: the merged ranges accept exactly
    the values the given ones accept, and no two of them overlap or touch, also
    at the largest value of the type, where [End()+1] wraps. *)
Theorem Merge_correct `{SliceSort} (T : int_type) (ranges : IntRanges) :
  int_ok T → Forall (range_ok T) ranges →
  (∀ t, Check_ (Merge T ranges) t = Check_ ranges t) ∧
  separated (Merge T ranges) ∧ Forall (range_ok T) (Merge T ranges).
Proof.
  intros HT Hall. destruct ranges as [|r ranges]; [by repeat constructor|].
  pose proof (sort_slice_perm lessStart (r :: ranges)) as Hp.
  destruct (sort_slice lessStart (r :: ranges)) as [|cur rest] eqn:Es.
  { by apply Permutation_nil_l in Hp. }
  rewrite (Merge_merge_from T _ cur rest Es). pose proof (sorted_by_start (r :: ranges)) as Hs. rewrite Es in Hs.
  destruct (merge_from_spec T cur rest HT) as (Hc & Hsep & Hok & c & l & Heq & _); [by rewrite Hp|done|].
  split_and!; [|done|done]. intros t.
  change (Check_ (r :: ranges) t) with (covers (r :: ranges) t). rewrite <- (covers_perm _ _ t Hp), <- Hc, Heq. done.
Qed.

(** [Range] calls its argument once per value, in ascending order within
    each range, until it returns false, and ends even for a range that reaches
    the largest value of the type. *)
Theorem Range_visits_values {S} (f : S → Z → S * bool) (T : int_type) (ranges : IntRanges) (s : S) :
  int_ok T → Forall (range_ok T) ranges →
  Range_ f T ranges s = (feed f (concat (values <$> ranges)) s).1 ∧
  ∀ t, t ∈ concat (values <$> ranges) ↔ covers ranges t = true.
Proof.
  intros HT Hall. split; [by apply Range_feed|]. intros t. unfold covers.
  rewrite existsb_exists, list_elem_of_In, in_concat. split.
  - intros (l & Hl & Ht). apply list_elem_of_In in Hl, Ht. apply list_elem_of_fmap in Hl as (r & -> & Hr).
    exists r. split; [by apply list_elem_of_In|by apply elem_of_values].
  - intros (r & Hr & Ht). exists (values r). split; [|by apply list_elem_of_In, elem_of_values].
    apply list_elem_of_In, list_elem_of_fmap. exists r. split; [done|by apply list_elem_of_In].
Qed.

(** Parsing the printed form of up to 28 ranges of an unsigned type gives
    the ranges back. *)
Theorem ranges_roundtrip (T : int_type) (ranges : IntRanges) :
  unsigned64 T → Forall (range_ok T) ranges → (length ranges ≤ 28)%nat →
  NewUnsignedRanges T (Strings ranges) = Ok ranges.
Proof.
  intros HT Hall Hlen. destruct ranges as [|r ranges]; [done|]. unfold NewUnsignedRanges, newIntRanges, Strings.
  pose proof (Strings_bytes T (r :: ranges) HT Hall) as Hb.
  rewrite TrimSpace_graphic.
  2:{ eapply str_all_impl; [|exact Hb]. intros c [Hc|Hc]%orb_true_iff; [by apply range_byte_graphic|].
      apply bool_decide_eq_true in Hc as ->. done. }
  assert (Join (String_ <$> r :: ranges) "/" ≠ "" ∧ Join (String_ <$> r :: ranges) "/" ≠ "*") as [H1 H2].
  { split; intros Hj; [|by rewrite Hj in Hb].
    pose proof (String_nonempty T r HT (Forall_inv Hall)) as Hne.
    destruct ranges; simpl in Hj; [done|]. by destruct (String_ r). }
  rewrite !bool_decide_eq_false_2 by done. simpl orb. cbv iota. unfold ReplaceAll. rewrite map_bytes_id.
  2:{ eapply str_all_impl; [|exact Hb]. intros c Hc. apply bool_decide_eq_true_2.
      rewrite bool_decide_eq_false_2; [done|]. intros ->. done. }
  rewrite Split_Join; [|done|].
  - rewrite (proj2 (Nat.ltb_ge _ _)) by (by rewrite length_fmap). by apply FromList_Strings.
  - apply Forall_fmap. eapply Forall_impl; [exact Hall|]. intros r' Hr'.
    eapply str_all_impl; [|by eapply String_bytes]. intros c. by apply range_byte_ne.
Qed.

(** A number above the type's range is not rejected but truncated: an
    unsigned type of [w] bits reads [2^w + n] as [n]. *)
Theorem parse_truncates (T : int_type) (n : Z) :
  signed T = false → 0 < width T < 64 → in_type T n →
  NewUnsignedRanges T (FormatUint (2 ^ width T + n)) = Ok [mkRange n n].
Proof.
  intros Hs Hw Hn. unfold in_type, int_min, int_max in Hn. rewrite Hs in Hn.
  pose proof (Z.pow_le_mono_r 2 (width T + 1) 64 ltac:(lia) ltac:(lia)) as Hpow. rewrite Z.pow_add_r in Hpow by lia.
  set (m := 2 ^ width T + n) in *.
  pose proof (FormatUint_digits m ltac:(lia)) as Hd. pose proof (FormatUint_nonempty m) as Hne.
  assert (str_all graphic (FormatUint m) = true) as Hg by (eapply str_all_impl; [apply is_digit_graphic|done]).
  unfold NewUnsignedRanges, newIntRanges. rewrite TrimSpace_graphic by done.
  rewrite !bool_decide_eq_false_2; [|intros Heq; by rewrite Heq in Hd|done]. simpl orb. cbv iota.
  unfold ReplaceAll. rewrite map_bytes_id.
  2:{ eapply str_all_impl; [|exact Hd]. intros c Hc. apply bool_decide_eq_true_2.
      by rewrite (is_digit_ne c) by done. }
  rewrite Split_none by (apply digits_no_byte; done). simpl.
  rewrite bool_decide_eq_false_2 by done. unfold newIntRange. rewrite TrimSpace_graphic by done.
  assert ((String.length (FormatUint m) =? 0)%nat = false) as -> by (by destruct (FormatUint m)).
  rewrite Split_none by (apply digits_no_byte; done). simpl.
  rewrite digits_bracket by done. unfold parseUnsigned. rewrite ParseUint_FormatUint by lia. simpl.
  unfold NewRange, norm, int_min. rewrite Hs, Z.sub_0_r, Z.add_0_r.
  assert (m `mod` 2 ^ width T = n) as ->.
  { unfold m. rewrite <- Z.add_mod_idemp_l, Z.mod_same, Z.mod_small; lia. }
  by rewrite Z.ltb_irrefl.
Qed.

(** ** A sort that satisfies the contract, and witnesses *)

Definition not_less {A} (less : A → A → bool) (x y : A) : Prop := less y x = false.

#[local] Instance not_less_dec {A} (less : A → A → bool) : RelDecision (not_less less).
Proof. intros x y. unfold not_less. apply _. Defined.

Lemma merge_sort_sorted {A} (less : A → A → bool) l :
  (∀ x y, less x y = true → less y x = false) →
  (∀ x y z, less y x = false → less z y = false → less z x = false) →
  StronglySorted (λ x y, less y x = false) (merge_sort (not_less less) l).
Proof.
  intros Has Htr. assert (Total (not_less less)) as Htot.
  { intros x y. unfold not_less. destruct (less y x) eqn:E; [right; by apply Has|by left]. }
  assert (Transitive (not_less less)) by (intros x y z; apply Htr).
  apply (StronglySorted_merge_sort (not_less less)).
Qed.

Definition merge_sort_slices : SliceSort := {|
  sort_slice A less := merge_sort (not_less less);
  sort_slice_perm A less := merge_sort_Permutation (not_less less);
  sort_slice_sorted A := merge_sort_sorted;
|}.

Lemma range_ok_dec T r :
  (int_min T <=? start r) && (start r <=? int_max T) && (int_min T <=? end_ r) &&
  (end_ r <=? int_max T) && (start r <=? end_ r) = true → range_ok T r.
Proof. intros Hr. breflect. unfold range_ok, in_type. lia. Qed.

Ltac ranges_ok :=
  repeat first [apply Forall_nil_2 | apply Forall_cons_2; [apply range_ok_dec; vm_compute; reflexivity|]].

Lemma Merge_correct_witness :
  Merge (H := merge_sort_slices) uint8 [mkRange 250 255; mkRange 4 9; mkRange 0 4] = [mkRange 0 9; mkRange 250 255] ∧
  (∀ t, Check_ (Merge (H := merge_sort_slices) uint8 [mkRange 250 255; mkRange 4 9; mkRange 0 4]) t
        = Check_ [mkRange 250 255; mkRange 4 9; mkRange 0 4] t).
Proof.
  split; [vm_compute; reflexivity|].
  apply (Merge_correct (H := merge_sort_slices) uint8 [mkRange 250 255; mkRange 4 9; mkRange 0 4]).
  - vm_compute. reflexivity.
  - ranges_ok.
Defined.

Lemma Range_visits_values_witness :
  Range_ (λ acc x, (acc ++ [x], true)) uint8 [mkRange 253 255; mkRange 1 2] [] =
  (feed (λ acc x, (acc ++ [x], true)) (concat (values <$> [mkRange 253 255; mkRange 1 2])) []).1.
Proof.
  apply (Range_visits_values (λ acc x, (acc ++ [x], true)) uint8 [mkRange 253 255; mkRange 1 2] []).
  - vm_compute. reflexivity.
  - ranges_ok.
Defined.

Lemma ranges_roundtrip_witness :
  Strings [mkRange 80 80; mkRange 443 8443] = "80/443-8443" ∧
  NewUnsignedRanges uint16 (Strings [mkRange 80 80; mkRange 443 8443]) = Ok [mkRange 80 80; mkRange 443 8443].
Proof.
  split; [vm_compute; reflexivity|]. apply ranges_roundtrip.
  - split; [reflexivity|vm_compute; split; [reflexivity|discriminate]].
  - ranges_ok.
  - simpl. lia.
Defined.

Lemma parse_truncates_witness : NewUnsignedRanges uint16 (FormatUint (2 ^ width uint16 + 80)) = Ok [mkRange 80 80].
Proof.
  apply (parse_truncates uint16 80); [reflexivity|simpl; lia|].
  unfold in_type. vm_compute. split; discriminate.
Defined.
