(* ===== verification/Wildcard.v ===== *)
(** * [component/wildcard]: glob matching with backtracking to the last star.

    [matchByString] is the [goto] loop of [wildcard.go] with its four
    variables; [glob] is the textbook definition it is compared with. *)

From Stdlib Require Import ZArith Lia Ascii.
From stdpp Require Import base list strings numbers.
From S2P Require Import Prelude GoStrings.
#[local] Open Scope string_scope.
#[local] Open Scope list_scope.
#[local] Open Scope nat_scope.

(** ** The code *)

(** The label [checkPattern]: skip trailing stars, then the pattern must be used up. *)
Fixpoint checkPattern (fuel : nat) (pattern : list ascii) (patternIndex : nat) : bool :=
  match fuel with
  | O => patternIndex =? length pattern
  | S fuel =>
      match pattern !! patternIndex with
      | Some c => if bool_decide (c = "*"%char)
                  then checkPattern fuel pattern (S patternIndex)
                  else patternIndex =? length pattern
      | None => patternIndex =? length pattern
      end
  end.

(** The label [Loop]; [star = None] is the code's -1, and the result is [None]
    when the fuel runs out. *)
Fixpoint Loop (fuel : nat) (pattern s : list ascii) (patternIndex sIndex lastStar : nat) (star : option nat)
    : option bool :=
  match fuel with
  | O => None
  | S fuel =>
      match s !! sIndex with
      | None => Some (checkPattern (length pattern) pattern patternIndex)
      | Some b =>
          let backtrack :=
            match star with
            | Some st => Loop fuel pattern s (S st) (S lastStar) (S lastStar) star
            | None => Some false
            end in
          match pattern !! patternIndex with
          | None => backtrack
          | Some c =>
              if bool_decide (c = "?"%char)
              then Loop fuel pattern s (S patternIndex) (S sIndex) lastStar star
              else if bool_decide (c = "*"%char)
              then Loop fuel pattern s (S patternIndex) sIndex sIndex (Some patternIndex)
              else if bool_decide (c = b)
              then Loop fuel pattern s (S patternIndex) (S sIndex) lastStar star
              else backtrack
          end
      end
  end.

(** A bound on the number of rounds. *)
Definition rounds (pattern s : list ascii) : nat := S (length s * (length pattern + 2) + length pattern + 1).

Definition matchByString (pattern s : string) : option bool :=
  let p := bytes pattern in let t := bytes s in Loop (rounds p t) p t 0 0 0 None.

Definition Match (pattern s : string) : option bool :=
  if bool_decide (pattern = "") then Some (bool_decide (s = pattern))
  else if bool_decide (pattern = "*") || bool_decide (s = pattern) then Some true
  else matchByString pattern s.

(** ** What a glob means: ['*'] any number of bytes, ['?'] exactly one *)

Fixpoint glob (p : list ascii) : list ascii → bool :=
  match p with
  | [] => λ s, match s with [] => true | _ => false end
  | c :: p =>
      if bool_decide (c = "*"%char) then
        fix star (s : list ascii) : bool :=
          glob p s || match s with [] => false | _ :: s => star s end
      else λ s,
        match s with
        | [] => false
        | b :: s => (bool_decide (c = "?"%char) || bool_decide (c = b)) && glob p s
        end
  end.

(** ** Lemmas about globs *)

Fixpoint glob_star (q s : list ascii) : bool :=
  glob q s || match s with [] => false | _ :: s => glob_star q s end.

Lemma glob_star_unfold q s : glob ("*"%char :: q) s = glob_star q s.
Proof. simpl. induction s as [|b s IH]; simpl; [done|]. by rewrite IH. Qed.

Definition star_free (l : list ascii) : Prop := Forall (.≠ "*"%char) l.

(** Without stars every pattern byte consumes one byte of the subject. *)
Lemma glob_literal l q s :
  star_free l → glob (l ++ q) s = true → length l ≤ length s ∧ glob q (drop (length l) s) = true.
Proof.
  intros Hl. revert s. induction Hl as [|c l Hc _ IH]; intros s Hg; simpl in *; [split; [lia|done]|].
  rewrite bool_decide_eq_false_2 in Hg by done. destruct s as [|b s]; [done|].
  apply andb_true_iff in Hg as [_ Hg]. apply IH in Hg as [??]. simpl. split; [lia|done].
Qed.

Lemma glob_star_drop q s k : glob_star q (drop k s) = true → glob_star q s = true.
Proof.
  revert k. induction s as [|b s IH]; intros k; [by rewrite drop_nil|].
  destruct k as [|k]; [done|]. simpl. intros Hg. apply orb_true_iff. right. by eapply IH.
Qed.

Lemma glob_star_exists q s : glob_star q s = true → ∃ k, k ≤ length s ∧ glob q (drop k s) = true.
Proof.
  induction s as [|b s IH]; simpl.
  - rewrite orb_false_r. intros Hg. exists 0. split; [lia|done].
  - intros [Hg|Hg]%orb_true_iff; [exists 0; split; [lia|done]|].
    apply IH in Hg as (k & Hk & Hg). exists (S k). split; [lia|done].
Qed.

Lemma glob_glob_star q s k : glob q (drop k s) = true → glob_star q s = true.
Proof. intros Hg. apply (glob_star_drop q s k). destruct (drop k s); simpl; by rewrite Hg. Qed.

(** A later star makes the alternatives of the earlier one superfluous. *)
Lemma star_commit l q s si :
  star_free l → length l ≤ si →
  glob_star (l ++ "*"%char :: q) (drop (si - length l) s) = true → glob_star q (drop si s) = true.
Proof.
  intros Hl Hsi (k & Hk & Hg)%glob_star_exists.
  apply (glob_literal l ("*"%char :: q)) in Hg as [_ Hg]; [|done].
  rewrite glob_star_unfold, !drop_drop in Hg.
  apply (glob_star_drop q _ k). rewrite drop_drop. etrans; [|exact Hg]. do 2 f_equal. lia.
Qed.

(** When the subject is used up, moving the star further cannot help. *)
Lemma star_exhausted l q s :
  star_free l → length l ≤ length s →
  glob_star (l ++ q) (drop (length s - length l) s) = true → glob q [] = true.
Proof.
  intros Hl Hls (k & Hk & Hg)%glob_star_exists. rewrite length_drop in Hk.
  apply (glob_literal l q) in Hg as [Hlen Hg]; [|done].
  rewrite !length_drop in Hlen. rewrite !drop_drop in Hg. by rewrite drop_ge in Hg by lia.
Qed.

Lemma glob_nil_cons c q : glob (c :: q) [] = bool_decide (c = "*"%char) && glob q [].
Proof. simpl. destruct (bool_decide (c = "*"%char)); [by rewrite orb_false_r|done]. Qed.

Lemma checkPattern_glob fuel p pi :
  pi ≤ length p → length p - pi ≤ fuel → checkPattern fuel p pi = glob (drop pi p) [].
Proof.
  revert pi. induction fuel as [|fuel IH]; intros pi Hpi Hf; simpl.
  - rewrite drop_ge by lia. simpl. apply Nat.eqb_eq. lia.
  - destruct (p !! pi) as [c|] eqn:Ec.
    + pose proof (lookup_lt_Some _ _ _ Ec). rewrite (drop_S p c pi) by done. rewrite glob_nil_cons.
      destruct (bool_decide (c = "*"%char)); simpl; [apply IH; lia|]. apply Nat.eqb_neq. lia.
    + apply lookup_ge_None in Ec. rewrite drop_ge by lia. simpl. apply Nat.eqb_eq. lia.
Qed.

(** ** The loop invariant *)

Record inv (p s : list ascii) (pi si ls : nat) (star : option nat) : Prop := {
  inv_pi : pi ≤ length p;
  inv_si : si ≤ length s;
  inv_star :
    match star with
    | None => ls = 0 ∧ glob p s = glob (drop pi p) (drop si s)
    | Some st => ∃ l,
        drop (S st) p = l ++ drop pi p ∧ star_free l ∧ pi = S st + length l ∧ si = ls + length l ∧
        glob p s = glob_star (drop (S st) p) (drop ls s) ∧
        glob (drop (S st) p) (drop ls s) = glob (drop pi p) (drop si s)
    end;
}.

Lemma inv_ls p s pi si ls star : inv p s pi si ls star → ls ≤ si.
Proof. intros [_ _ Hs]. destruct star; [destruct Hs as (l & _ & _ & _ & ? & _); lia|lia]. Qed.

(** A pattern byte that matches one subject byte. *)
Lemma inv_advance p s pi si ls star c b :
  inv p s pi si ls star → p !! pi = Some c → s !! si = Some b → c ≠ "*"%char →
  (bool_decide (c = "?"%char) || bool_decide (c = b)) = true →
  inv p s (S pi) (S si) ls star.
Proof.
  intros [Hpi Hsi Hst] Hc Hb Hns Hm.
  pose proof (lookup_lt_Some _ _ _ Hc). pose proof (lookup_lt_Some _ _ _ Hb).
  assert (glob (drop pi p) (drop si s) = glob (drop (S pi) p) (drop (S si) s)) as Hg.
  { rewrite (drop_S p c pi), (drop_S s b si) by done. simpl.
    by rewrite (bool_decide_eq_false_2 _ Hns), Hm. }
  constructor; [lia|lia|]. destruct star as [st|].
  - destruct Hst as (l & Hl & Hf & Hp & Hs & Hg1 & Hg2). exists (l ++ [c]).
    rewrite length_app; simpl. split_and!; [|by apply Forall_app_2; [|constructor]|lia|lia|done|congruence].
    rewrite Hl, (drop_S p c pi), <- app_assoc by done. done.
  - destruct Hst as [-> Hst]. split; [done|congruence].
Qed.

(** A star of the pattern: commit to it. *)
Lemma inv_new_star p s pi si ls star :
  inv p s pi si ls star → p !! pi = Some "*"%char → inv p s (S pi) si si (Some pi).
Proof.
  intros [Hpi Hsi Hst] Hc. pose proof (lookup_lt_Some _ _ _ Hc).
  constructor; [lia|lia|]. exists []. simpl. split_and!; [done|constructor|lia|lia| |done].
  destruct star as [st|].
  - destruct Hst as (l & Hl & Hf & Hp & Hs & Hg1 & Hg2). rewrite Hg1.
    rewrite (drop_S p "*"%char pi), glob_star_unfold in Hg2 by done.
    apply eq_true_iff_eq. split.
    + intros Hg. rewrite Hl, (drop_S p "*"%char pi) in Hg by done.
      apply (star_commit l); [done|lia|]. replace (si - length l) with ls by lia. done.
    + intros Hg. rewrite <- Hg2 in Hg. apply (glob_glob_star _ _ 0). by rewrite drop_0.
  - destruct Hst as [_ Hst]. by rewrite Hst, (drop_S p "*"%char pi), glob_star_unfold.
Qed.

(** A mismatch: move the last star one byte further. *)
Lemma inv_backtrack p s pi si ls st b :
  inv p s pi si ls (Some st) → s !! si = Some b → glob (drop pi p) (drop si s) = false →
  inv p s (S st) (S ls) (S ls) (Some st).
Proof.
  intros Hinv Hb Hg. pose proof (inv_ls _ _ _ _ _ _ Hinv). destruct Hinv as [Hpi Hsi (l & Hl & Hf & Hp & Hs & Hg1 & Hg2)].
  pose proof (lookup_lt_Some _ _ _ Hb). constructor; [lia|lia|].
  exists []. simpl. split_and!; [done|constructor|lia|lia| |done].
  rewrite Hg1. destruct (lookup_lt_is_Some_2 s ls) as [x Hx]; [lia|].
  rewrite (drop_S s x ls) by done. simpl. rewrite <- (drop_S s x ls) by done. by rewrite Hg2, Hg.
Qed.

(** No star to go back to, or the subject is used up: the answer is known. *)
Lemma inv_end p s pi ls star :
  inv p s pi (length s) ls star → glob p s = glob (drop pi p) [].
Proof.
  intros [Hpi _ Hst]. destruct star as [st|].
  - destruct Hst as (l & Hl & Hf & Hp & Hs & Hg1 & Hg2). rewrite Hg1.
    rewrite (drop_ge s (length s)) in Hg2 by lia.
    apply eq_true_iff_eq. split.
    + intros Hg. rewrite Hl in Hg. apply (star_exhausted l _ s); [done|lia|].
      replace (length s - length l) with ls by lia. done.
    + intros Hg. rewrite <- Hg2 in Hg. apply (glob_glob_star _ _ 0). by rewrite drop_0.
  - destruct Hst as [_ Hst]. by rewrite (drop_ge s) in Hst by lia.
Qed.

Definition measure (p s : list ascii) (pi ls : nat) : nat :=
  (length s - ls) * (length p + 2) + (length p + 1 - pi).

Lemma measure_backtrack p s pi ls st :
  ls < length s → st < length p → measure p s (S st) (S ls) < measure p s pi ls.
Proof.
  intros Hls Hst. unfold measure. replace (length s - ls) with (S (length s - S ls)) by lia. simpl. lia.
Qed.

Lemma Loop_correct fuel p s pi si ls star :
  inv p s pi si ls star → measure p s pi ls < fuel → Loop fuel p s pi si ls star = Some (glob p s).
Proof.
  revert pi si ls star. induction fuel as [|fuel IH]; intros pi si ls star Hinv Hf; [lia|]. simpl.
  pose proof (inv_ls _ _ _ _ _ _ Hinv) as Hls. pose proof (inv_pi _ _ _ _ _ _ Hinv) as Hpi.
  destruct (s !! si) as [b|] eqn:Eb.
  2:{ apply lookup_ge_None in Eb. pose proof (inv_si _ _ _ _ _ _ Hinv).
      assert (si = length s) as -> by lia. rewrite (inv_end _ _ _ _ _ Hinv).
      by rewrite checkPattern_glob by lia. }
  pose proof (lookup_lt_Some _ _ _ Eb) as Hsi.
  assert (glob (drop pi p) (drop si s) = false →
          match star with
          | Some st => Loop fuel p s (S st) (S ls) (S ls) star
          | None => Some false
          end = Some (glob p s)) as Hback.
  { intros Hg. destruct star as [st|].
    - apply IH; [by eapply inv_backtrack|]. destruct (inv_star _ _ _ _ _ _ Hinv) as (l & _ & _ & ? & _).
      pose proof (measure_backtrack p s pi ls st). lia.
    - destruct (inv_star _ _ _ _ _ _ Hinv) as [_ ->]. by rewrite Hg. }
  destruct (p !! pi) as [c|] eqn:Ec.
  2:{ apply Hback. apply lookup_ge_None in Ec. rewrite drop_ge by lia. by rewrite (drop_S s b si). }
  pose proof (lookup_lt_Some _ _ _ Ec).
  assert (∀ ls', ls ≤ ls' → measure p s (S pi) ls' < fuel) as Hm.
  { intros ls' ?. unfold measure in *. assert ((length s - ls') * (length p + 2) ≤ (length s - ls) * (length p + 2))
      by (apply Nat.mul_le_mono_r; lia). lia. }
  destruct (bool_decide (c = "?"%char)) eqn:Eq; [|destruct (bool_decide (c = "*"%char)) eqn:Es].
  - apply bool_decide_eq_true in Eq as ->. apply IH; [by eapply inv_advance|by apply Hm].
  - apply bool_decide_eq_true in Es as ->. apply IH; [by eapply inv_new_star|by apply Hm].
  - apply bool_decide_eq_false in Es. destruct (bool_decide (c = b)) eqn:Ecb.
    + apply IH; [|by apply Hm]. eapply inv_advance; try done. rewrite Eq, Ecb. done.
    + apply Hback. rewrite (drop_S p c pi), (drop_S s b si) by done. simpl.
      by rewrite (bool_decide_eq_false_2 _ Es), Eq, Ecb.
Qed.

Lemma inv_init p s : inv p s 0 0 0 None.
Proof. constructor; [lia|lia|]. by rewrite !drop_0. Qed.

Lemma glob_refl p : glob p p = true.
Proof.
  induction p as [|c p IH]; [done|]. destruct (decide (c = "*"%char)) as [->|Hne].
  - rewrite glob_star_unfold. apply (glob_glob_star p _ 1). exact IH.
  - simpl. rewrite bool_decide_eq_false_2 by done. rewrite (bool_decide_eq_true_2 (c = c)) by done.
    by rewrite orb_true_r, IH.
Qed.

(** ** Properties *)

(** The backtracking matcher terminates on every pattern and subject and
    answers exactly whether the subject is an instance of the glob: ['*'] for any
    run of bytes, ['?'] for exactly one byte, any other byte for itself. *)
Theorem Match_glob (pattern s : string) : Match pattern s = Some (glob (bytes pattern) (bytes s)).
Proof.
  unfold Match. destruct (bool_decide (pattern = "")) eqn:E1.
  { apply bool_decide_eq_true in E1 as ->. f_equal. by destruct s. }
  destruct (bool_decide (pattern = "*")) eqn:E2; simpl.
  { apply bool_decide_eq_true in E2 as ->. f_equal. symmetry.
    change (bytes "*") with ["*"%char]. rewrite glob_star_unfold.
    apply (glob_glob_star [] (bytes s) (length (bytes s))). by rewrite drop_ge by lia. }
  destruct (bool_decide (s = pattern)) eqn:E3.
  { apply bool_decide_eq_true in E3 as ->. by rewrite glob_refl. }
  apply Loop_correct; [apply inv_init|]. unfold measure, rounds. lia.
Qed.
