(* ===== verification/GoNet.v ===== *)
(** * The part of Go's [net/netip] the sources call: addresses and prefixes.

    An address is invalid, a 32-bit value, or a 128-bit value with a zone; a
    prefix is an address without zone and a number of bits. *)

From Stdlib Require Import ZArith Lia Ascii.
From stdpp Require Import base list strings numbers gmap.
From S2P Require Import Prelude GoStrings.
#[local] Open Scope string_scope.
#[local] Open Scope list_scope.
#[local] Open Scope Z_scope.

Inductive Addr :=
| NoAddr
| V4 (v : Z)
| V6 (v : Z) (zone : string).

#[export] Instance Addr_eq_dec : EqDecision Addr.
Proof. solve_decision. Defined.

Definition Addr_encode (a : Addr) : option (Z + Z * string) :=
  match a with NoAddr => None | V4 v => Some (inl v) | V6 v z => Some (inr (v, z)) end.
Definition Addr_decode (x : option (Z + Z * string)) : Addr :=
  match x with None => NoAddr | Some (inl v) => V4 v | Some (inr (v, z)) => V6 v z end.

#[export] Instance Addr_countable : Countable Addr.
Proof. refine (inj_countable' Addr_encode Addr_decode _). by intros []. Defined.

(** Values a Go address can hold. *)
Definition addr_ok (a : Addr) : Prop :=
  match a with NoAddr => True | V4 v => 0 ≤ v < 2 ^ 32 | V6 v _ => 0 ≤ v < 2 ^ 128 end.

Definition IsValid (a : Addr) : bool := match a with NoAddr => false | _ => true end.
Definition Is4 (a : Addr) : bool := match a with V4 _ => true | _ => false end.
Definition Is6 (a : Addr) : bool := match a with V6 _ _ => true | _ => false end.
Definition Is4In6 (a : Addr) : bool := match a with V6 v _ => Z.shiftr v 32 =? 0xffff | _ => false end.
Definition BitLen (a : Addr) : Z := match a with NoAddr => 0 | V4 _ => 32 | V6 _ _ => 128 end.
Definition addr_val (a : Addr) : Z := match a with NoAddr => 0 | V4 v => v | V6 v _ => v end.
Definition Zone (a : Addr) : string := match a with V6 _ z => z | _ => "" end.

Definition Unmap (a : Addr) : Addr :=
  match a with V6 v _ => if Is4In6 a then V4 (v `mod` 2 ^ 32) else a | _ => a end.

(** [WithZone("")]. *)
Definition WithoutZone (a : Addr) : Addr := match a with V6 v _ => V6 v "" | _ => a end.

Definition IsUnspecified (a : Addr) : bool :=
  match a with V4 v => v =? 0 | V6 v z => (v =? 0) && bool_decide (z = "") | NoAddr => false end.

(** Address classes; a mapped IPv4 address has the class of the IPv4 address. *)
Definition v4_byte (v : Z) (i : Z) : Z := Z.land (Z.shiftr v (8 * (3 - i))) 255.
Definition v6_u16_0 (v : Z) : Z := Z.shiftr v 112.

Definition IsPrivate (a : Addr) : bool :=
  match Unmap a with
  | V4 v => (v4_byte v 0 =? 10) || ((v4_byte v 0 =? 172) && (Z.land (v4_byte v 1) 0xf0 =? 16)) ||
            ((v4_byte v 0 =? 192) && (v4_byte v 1 =? 168))
  | V6 v _ => Z.land (Z.shiftr v 120) 0xfe =? 0xfc
  | NoAddr => false
  end.
Definition IsLoopback (a : Addr) : bool :=
  match Unmap a with V4 v => v4_byte v 0 =? 127 | V6 v _ => v =? 1 | NoAddr => false end.
Definition IsMulticast (a : Addr) : bool :=
  match Unmap a with
  | V4 v => Z.land (v4_byte v 0) 0xf0 =? 0xe0
  | V6 v _ => Z.shiftr v 120 =? 0xff
  | NoAddr => false
  end.
Definition IsLinkLocalUnicast (a : Addr) : bool :=
  match Unmap a with
  | V4 v => (v4_byte v 0 =? 169) && (v4_byte v 1 =? 254)
  | V6 v _ => Z.land (v6_u16_0 v) 0xffc0 =? 0xfe80
  | NoAddr => false
  end.

(** The address after and before; none past the ends of the family. *)
Definition Next (a : Addr) : Addr :=
  match a with
  | NoAddr => NoAddr
  | V4 v => if v + 1 =? 2 ^ 32 then NoAddr else V4 (v + 1)
  | V6 v z => if v + 1 =? 2 ^ 128 then NoAddr else V6 (v + 1) z
  end.
Definition Prev (a : Addr) : Addr :=
  match a with
  | NoAddr => NoAddr
  | V4 v => if v =? 0 then NoAddr else V4 (v - 1)
  | V6 v z => if v =? 0 then NoAddr else V6 (v - 1) z
  end.

Fixpoint string_ltb (s t : string) : bool :=
  match s, t with
  | _, EmptyString => false
  | EmptyString, String _ _ => true
  | String a s, String b t =>
      if byte_val a =? byte_val b then string_ltb s t else byte_val a <? byte_val b
  end.

(** [ip.Less(ip2)]: bit length first, then the value, then the zone. *)
Definition Less (a b : Addr) : bool :=
  if BitLen a =? BitLen b then
    if addr_val a =? addr_val b then string_ltb (Zone a) (Zone b)
    else addr_val a <? addr_val b
  else BitLen a <? BitLen b.

(** Big-endian bytes, as [AsSlice] gives them; the invalid address has none. *)
Fixpoint be_bytes (n : nat) (v : Z) : list Z :=
  match n with
  | O => []
  | S n => be_bytes n (v `div` 256) ++ [v `mod` 256]
  end.
Definition be_value (l : list Z) : Z := fold_left (λ acc b, acc * 256 + b) l 0.

Definition AsSlice (a : Addr) : list Z :=
  match a with NoAddr => [] | V4 v => be_bytes 4 v | V6 v _ => be_bytes 16 v end.

(** [netip.AddrFromSlice]. *)
Definition AddrFromSlice (l : list Z) : option Addr :=
  match length l with
  | 4%nat => Some (V4 (be_value l))
  | 16%nat => Some (V6 (be_value l) "")
  | _ => None
  end.

(** ** Prefixes *)

Record Prefix := mkPrefix { paddr : Addr; pbits : Z }.

Definition prefix_valid (p : Prefix) : bool :=
  IsValid (paddr p) && (0 <=? pbits p) && (pbits p <=? BitLen (paddr p)) && bool_decide (Zone (paddr p) = "").

Definition host_bits (p : Prefix) : Z := BitLen (paddr p) - pbits p.

Definition Masked (p : Prefix) : Prefix :=
  if prefix_valid p then
    let m v := Z.shiftl (Z.shiftr v (host_bits p)) (host_bits p) in
    mkPrefix (match paddr p with NoAddr => NoAddr | V4 v => V4 (m v) | V6 v z => V6 (m v) z end) (pbits p)
  else mkPrefix NoAddr 0.

Definition prefix_contains (p : Prefix) (ip : Addr) : bool :=
  prefix_valid p && bool_decide (Zone ip = "") &&
  (BitLen ip =? BitLen (paddr p)) && IsValid ip &&
  (Z.shiftr (addr_val ip) (host_bits p) =? Z.shiftr (addr_val (paddr p)) (host_bits p)).

(** The last address of a prefix: all host bits set. *)
Definition last_addr (p : Prefix) : Addr :=
  let l v := Z.shiftl (Z.shiftr v (host_bits p)) (host_bits p) + (2 ^ host_bits p - 1) in
  match paddr p with NoAddr => NoAddr | V4 v => V4 (l v) | V6 v z => V6 (l v) z end.

(** ** Lemmas *)

Lemma length_be_bytes n v : length (be_bytes n v) = n.
Proof. revert v. induction n as [|n IH]; intros v; simpl; [done|]. rewrite length_app, IH. simpl. lia. Qed.

Lemma be_value_app l x : be_value (l ++ [x]) = be_value l * 256 + x.
Proof. unfold be_value. by rewrite fold_left_app. Qed.

Lemma be_value_bytes n v : 0 ≤ v < 256 ^ Z.of_nat n → be_value (be_bytes n v) = v.
Proof.
  revert v. induction n as [|n IH]; intros v Hv; [simpl in *; unfold be_value; simpl; lia|].
  cbn [be_bytes]. rewrite be_value_app, IH.
  - pose proof (Z.div_mod v 256). lia.
  - rewrite Nat2Z.inj_succ, Z.pow_succ_r in Hv by lia. split; [apply Z.div_pos; lia|].
    apply Z.div_lt_upper_bound; lia.
Qed.

Lemma be_bytes_range n v : Forall (λ b, 0 ≤ b < 256) (be_bytes n v).
Proof.
  revert v. induction n as [|n IH]; intros v; simpl; [constructor|].
  apply Forall_app_2; [done|]. constructor; [apply Z.mod_pos_bound; lia|constructor].
Qed.

Lemma be_value_range l : Forall (λ b, 0 ≤ b < 256) l → 0 ≤ be_value l < 256 ^ Z.of_nat (length l).
Proof.
  induction l as [|x l IH] using rev_ind; intros Hl; [unfold be_value; simpl; lia|].
  apply Forall_app in Hl as [Hl Hx]. apply Forall_inv in Hx; cbv beta in Hx. specialize (IH Hl).
  rewrite be_value_app, length_app. simpl.
  replace (Z.of_nat (length l + 1)) with (Z.of_nat (length l) + 1) by lia. rewrite Z.pow_add_r, Z.pow_1_r by lia. lia.
Qed.

Lemma be_bytes_value l : Forall (λ b, 0 ≤ b < 256) l → be_bytes (length l) (be_value l) = l.
Proof.
  induction l as [|x l IH] using rev_ind; intros Hl; [done|].
  apply Forall_app in Hl as [Hl Hx]. apply Forall_inv in Hx; cbv beta in Hx.
  rewrite length_app, be_value_app. simpl. replace (length l + 1)%nat with (S (length l)) by lia. cbn [be_bytes].
  rewrite Z.div_add_l, (Z.div_small x) by lia. rewrite Z.add_0_r, IH by done. f_equal. f_equal.
  rewrite Z.add_comm, Z.mod_add by lia. by rewrite Z.mod_small.
Qed.

(** [AddrFromSlice] inverts [AsSlice] on addresses without zone. *)
Lemma AddrFromSlice_AsSlice a :
  addr_ok a → a ≠ NoAddr → Zone a = "" → AddrFromSlice (AsSlice a) = Some a.
Proof.
  intros Hok Hne Hz. destruct a as [|v|v z]; [done| |]; simpl in Hok; unfold AddrFromSlice.
  - change (AsSlice (V4 v)) with (be_bytes 4 v). rewrite length_be_bytes, be_value_bytes; [done|].
    change (256 ^ Z.of_nat 4) with (2 ^ 32). lia.
  - change (AsSlice (V6 v z)) with (be_bytes 16 v). rewrite length_be_bytes, be_value_bytes.
    + simpl in Hz. by rewrite Hz.
    + change (256 ^ Z.of_nat 16) with (2 ^ 128). lia.
Qed.
