(* ===== verification/GoNetText.v ===== *)
(** * Textual forms of Go's [net] and [net/netip]: parsing and printing addresses, prefixes and host:port pairs.

    Byte-level transcription of [netip.ParseAddr], [netip.ParsePrefix], their
    [String] methods, [net.SplitHostPort] and [net.JoinHostPort]. *)

From Stdlib Require Import ZArith Lia Ascii.
From stdpp Require Import base list strings numbers.
From S2P Require Import Prelude GoStrings GoNet.
#[local] Open Scope string_scope.
#[local] Open Scope list_scope.
#[local] Open Scope Z_scope.

Definition colon : ascii := ":"%char.
Definition dot : ascii := "."%char.

Definition hasb (c : ascii) (l : list ascii) : bool := existsb (Ascii.eqb c) l.

(** The bytes before and after the first occurrence of [c]. *)
Fixpoint cut (c : ascii) (l : list ascii) : option (list ascii * list ascii) :=
  match l with
  | [] => None
  | x :: l => if Ascii.eqb x c then Some ([], l)
              else match cut c l with Some (a, b) => Some (x :: a, b) | None => None end
  end.

(** The bytes before and after the last occurrence of [c]. *)
Definition cut_last (c : ascii) (l : list ascii) : option (list ascii * list ascii) :=
  match cut c (reverse l) with Some (a, b) => Some (reverse b, reverse a) | None => None end.

(** ** [netip.ParseAddr] *)

(** One octet: one to three digits without a leading zero, at most 255. *)
Definition parse_octet (s : string) : option Z :=
  match s with
  | EmptyString => None
  | String "0"%char EmptyString => Some 0
  | String "0"%char _ => None
  | _ => match parse_digits 0 s with Some v => if v <=? 255 then Some v else None | None => None end
  end.

Definition parseIPv4Fields (s : string) : option Z :=
  match Split s dot with
  | [a; b; c; d] =>
      match parse_octet a, parse_octet b, parse_octet c, parse_octet d with
      | Some a, Some b, Some c, Some d => Some (be_value [a; b; c; d])
      | _, _, _, _ => None
      end
  | _ => None
  end.

Definition hex_val (c : ascii) : option Z :=
  let v := byte_val c in
  if (48 <=? v) && (v <=? 57) then Some (v - 48)
  else if (97 <=? v) && (v <=? 102) then Some (v - 87)
  else if (65 <=? v) && (v <=? 70) then Some (v - 55)
  else None.

(** The hexadecimal digits a string starts with: their number, value and the rest. *)
Fixpoint hex_run (l : list ascii) (off acc : Z) : Z * Z * list ascii :=
  match l with
  | c :: l' => match hex_val c with Some d => hex_run l' (off + 1) (acc * 16 + d) | None => (off, acc, l) end
  | [] => (off, acc, [])
  end.

(** The groups read so far (in order), where the ellipsis is, and what is left
    of the string; at most [fuel] more groups are read. *)
Fixpoint parse_groups (fuel : nat) (l : list ascii) (groups : list Z) (ellipsis : option nat)
    : option (list Z * option nat) :=
  match fuel with
  | O => if decide (l = []) then Some (groups, ellipsis) else None
  | S fuel =>
      let '(off, acc, rest) := hex_run l 0 0 in
      if (off =? 0) || (4 <? off) then None
      else
        match rest with
        | "."%char :: _ =>
            if bool_decide (ellipsis = None) && negb (length groups =? 6)%nat then None
            else if (6 <? length groups)%nat then None
            else match parseIPv4Fields (of_bytes l) with
                 | Some v => Some (groups ++ [v / 65536; v mod 65536], ellipsis)
                 | None => None
                 end
        | [] => Some (groups ++ [acc], ellipsis)
        | ":"%char :: (":"%char :: rest') =>
            match ellipsis with
            | Some _ => None
            | None => if decide (rest' = []) then Some (groups ++ [acc], Some (S (length groups)))
                      else parse_groups fuel rest' (groups ++ [acc]) (Some (S (length groups)))
            end
        | ":"%char :: ((_ :: _) as rest') => parse_groups fuel rest' (groups ++ [acc]) ellipsis
        | _ => None
        end
  end.

Definition groups_value (g : list Z) : Z := fold_left (λ acc x, acc * 65536 + x) g 0.

(** Eight groups, or fewer with an ellipsis to expand. *)
Definition expand (g : list Z) (ellipsis : option nat) : option Z :=
  if (length g <? 8)%nat then
    match ellipsis with
    | Some e => Some (groups_value (take e g ++ replicate (8 - length g) 0 ++ drop e g))
    | None => None
    end
  else match ellipsis with Some _ => None | None => Some (groups_value g) end.

Definition parseIPv6 (s : list ascii) : option Addr :=
  let '(s, zone) := match cut "%"%char s with
                    | Some (a, z) => (a, Some z)
                    | None => (s, None)
                    end in
  if decide (zone = Some []) then None
  else
    let z := match zone with Some z => of_bytes z | None => "" end in
    match s with
    | ":"%char :: (":"%char :: []) => Some (V6 0 z)
    | ":"%char :: (":"%char :: s') =>
        match parse_groups 8 s' [] (Some 0%nat) with
        | Some (g, e) => match expand g e with Some v => Some (V6 v z) | None => None end
        | None => None
        end
    | _ =>
        match parse_groups 8 s [] None with
        | Some (g, e) => match expand g e with Some v => Some (V6 v z) | None => None end
        | None => None
        end
    end.

Fixpoint addr_kind (l : list ascii) : option ascii :=
  match l with
  | [] => None
  | c :: l => if Ascii.eqb c dot || Ascii.eqb c colon || Ascii.eqb c "%"%char then Some c else addr_kind l
  end.

Definition ParseAddr (s : string) : option Addr :=
  match addr_kind (bytes s) with
  | Some "."%char => V4 <$> parseIPv4Fields s
  | Some ":"%char => parseIPv6 (bytes s)
  | _ => None
  end.

(** ** [netip.ParsePrefix] *)

Definition ParsePrefix (s : string) : option Prefix :=
  match cut_last "/"%char (bytes s) with
  | None => None
  | Some (a, b) =>
      match ParseAddr (of_bytes a) with
      | None => None
      | Some ip =>
          let first_ok := match b with
                          | c :: _ :: _ => (49 <=? byte_val c) && (byte_val c <=? 57)
                          | _ => true
                          end in
          if negb (bool_decide (Zone ip = "")) || negb first_ok then None
          else match ParseInt (of_bytes b) 64 with
               | Some bits => if (bits <? 0) || (BitLen ip <? bits) then None else Some (mkPrefix ip bits)
               | None => None
               end
      end
  end.

(** ** [Addr.String], [Prefix.String] *)

Definition string4 (v : Z) : string := Join (FormatUint <$> be_bytes 4 v) ".".

Definition hex_digit (d : Z) : ascii := byte_of (if d <? 10 then 48 + d else 87 + d).
Fixpoint hex_aux (fuel : nat) (v : Z) (acc : string) : string :=
  match fuel with
  | O => acc
  | S fuel => if v <? 16 then String (hex_digit v) acc
              else hex_aux fuel (v / 16) (String (hex_digit (v mod 16)) acc)
  end.
Definition hex16 (v : Z) : string := hex_aux 4 v "".

(** The 16-bit groups of a 128-bit value. *)
Definition u16s (v : Z) : list Z :=
  (λ i, (v / 65536 ^ (7 - Z.of_nat i)) mod 65536) <$> seq 0 8.

Fixpoint zero_run (l : list Z) : nat :=
  match l with x :: l => if x =? 0 then S (zero_run l) else 0%nat | [] => 0%nat end.

(** Start and length of the first longest run of at least two zero groups. *)
Definition longest_zeros (l : list Z) : option (nat * nat) :=
  fold_left (λ best i, let n := zero_run (drop i l) in
                       let m := match best with Some (_, m) => m | None => 0%nat end in
                       if (2 <=? n)%nat && (m <? n)%nat then Some (i, n) else best) (seq 0 (length l)) None.

Definition string6 (v : Z) : string :=
  let l := u16s v in
  match longest_zeros l with
  | Some (i, n) => Join (hex16 <$> take i l) ":" +:+ "::" +:+ Join (hex16 <$> drop (i + n) l) ":"
  | None => Join (hex16 <$> l) ":"
  end.

Definition AddrString (a : Addr) : string :=
  match a with
  | NoAddr => "invalid IP"
  | V4 v => string4 v
  | V6 v z =>
      let s := if Is4In6 a then "::ffff:" +:+ string4 (v mod 2 ^ 32) else string6 v in
      if bool_decide (z = "") then s else s +:+ "%" +:+ z
  end.

Definition PrefixString (p : Prefix) : string :=
  if prefix_valid p then AddrString (paddr p) +:+ "/" +:+ Itoa (pbits p) else "invalid Prefix".

(** ** [net.SplitHostPort], [net.JoinHostPort] *)

Definition SplitHostPort (hostport : string) : option (string * string) :=
  let hp := bytes hostport in
  match cut_last colon hp with
  | None => None
  | Some (pre, port) =>
      match hp with
      | "["%char :: hp' =>
          match cut "]"%char hp' with
          | Some (host, ":"%char :: port') =>
              if hasb colon port' || hasb "["%char hp' || hasb "]"%char port' then None
              else Some (of_bytes host, of_bytes port')
          | _ => None
          end
      | _ => if hasb colon pre || hasb "["%char hp || hasb "]"%char hp then None
             else Some (of_bytes pre, of_bytes port)
      end
  end.

Definition JoinHostPort (host port : string) : string :=
  if hasb colon (bytes host) then "[" +:+ host +:+ "]:" +:+ port else host +:+ ":" +:+ port.

(** ** Evaluations *)

Example parse_v4 : ParseAddr "198.18.0.4" = Some (V4 0xC6120004).
Proof. reflexivity. Qed.
Example parse_v4_leading_zero : ParseAddr "198.18.00.4" = None.
Proof. reflexivity. Qed.
Example parse_v6 : ParseAddr "2001:db8::1%eth0" = Some (V6 0x20010db8000000000000000000000001 "eth0").
Proof. vm_compute. reflexivity. Qed.
Example parse_v6_v4 : ParseAddr "::ffff:1.2.3.4" = Some (V6 0xffff01020304 "").
Proof. vm_compute. reflexivity. Qed.
Example parse_v6_bad : ParseAddr "1:2:3:4:5:6:7::8" = None.
Proof. vm_compute. reflexivity. Qed.
Example parse_v6_full : ParseAddr "1:2:3:4:5:6:7:8" = Some (V6 0x00010002000300040005000600070008 "").
Proof. vm_compute. reflexivity. Qed.
Example parse_prefix : ParsePrefix "10.0.0.0/8" = Some (mkPrefix (V4 0x0A000000) 8).
Proof. reflexivity. Qed.
Example parse_prefix_bad : ParsePrefix "10.0.0.0/08" = None ∧ ParsePrefix "10.0.0.0/33" = None.
Proof. split; reflexivity. Qed.
Example print_v6 : AddrString (V6 0x20010db8000000000000000000000001 "") = "2001:db8::1".
Proof. vm_compute. reflexivity. Qed.
Example split_host_port :
  SplitHostPort "[::1]:80" = Some ("::1", "80") ∧ SplitHostPort "::1:80" = None ∧ SplitHostPort "a:b" = Some ("a", "b").
Proof. repeat split; vm_compute; reflexivity. Qed.
