(* ===== verification/FakeIP.v ===== *)
(** * [component/fakeip]: the fake-IP pool, its store interface and the in-memory store.

    The Go interface [store] is the class [Store]; what the pool relies on is
    the class [StoreLaws].  [memoryStore] (two LRU caches) is an instance; the
    pool's theorems are proved for any instance.  Operations run under the
    pool's mutex, so each is one state transformer. *)

From Stdlib Require Import ZArith Lia Ascii.
From stdpp Require Import base list strings numbers gmap.
From S2P Require Import Prelude GoStrings GoNet Lru.
#[local] Open Scope string_scope.
#[local] Open Scope list_scope.
#[local] Open Scope Z_scope.

(** ** The interface [store] *)

(** [isCachefile] is the outcome of the type assertion to [*cachefileStore];
    an operation that fails returns an error message. *)
Class Store (St : Type) := {
  isCachefile : bool;
  GetByHost : St → string → St * option Addr;
  PutByHost : St → string → Addr → St;
  PutMapping : St → string → Addr → St * option string;
  GetByIP : St → Addr → St * option string;
  ExistIP : St → Addr → bool;
  FlushStore : St → St * option string;
}.

(** What the pool relies on: a store shows a finite bijection between hosts and
    addresses; a new pair may push older ones out but never changes them. *)
Class StoreLaws (St : Type) `{Store St} := {
  store_wf : St → Prop;
  fwd : St → gmap string Addr;
  bwd : St → gmap Addr string;
  store_inverse s h a : store_wf s → fwd s !! h = Some a ↔ bwd s !! a = Some h;
  GetByHost_law s h : store_wf s →
    let '(s', r) := GetByHost s h in
    store_wf s' ∧ r = fwd s !! h ∧ fwd s' = fwd s ∧ bwd s' = bwd s;
  GetByIP_law s a : store_wf s →
    let '(s', r) := GetByIP s a in
    store_wf s' ∧ r = bwd s !! a ∧ fwd s' = fwd s ∧ bwd s' = bwd s;
  PutMapping_law s h a : store_wf s → fwd s !! h = None →
    let '(s', e) := PutMapping s h a in
    store_wf s' ∧
    match e with
    | None => fwd s' !! h = Some a ∧
              ∀ h' a', h' ≠ h → fwd s' !! h' = Some a' → fwd s !! h' = Some a' ∧ a' ≠ a
    | Some _ => fwd s' = fwd s
    end;
  ExistIP_law s a : store_wf s → ExistIP s a = bool_decide (is_Some (bwd s !! a));
  FlushStore_law s : store_wf s →
    let '(s', e) := FlushStore s in
    store_wf s' ∧ fwd s' = match e with None => ∅ | Some _ => fwd s end;
}.

(** ** The pool *)

Record Pool (St : Type) := mkPool {
  gateway : Addr;
  first : Addr;
  last : Addr;
  offset : Addr;
  cycle : bool;
  ipnet : Prefix;
  store : St;
}.
Arguments mkPool {St} _ _ _ _ _ _ _.
Arguments gateway {St} _.
Arguments first {St} _.
Arguments last {St} _.
Arguments offset {St} _.
Arguments cycle {St} _.
Arguments ipnet {St} _.
Arguments store {St} _.

Definition offsetKey : string := "key-offset-fake-ip".
Definition cycleKey : string := "key-cycle-fake-ip".

Section pool.
Context {St : Type} `{Store St} `{UnicodeCase}.

Definition with_store (p : Pool St) (s : St) : Pool St :=
  mkPool (gateway p) (first p) (last p) (offset p) (cycle p) (ipnet p) s.
Definition with_offset (p : Pool St) (o : Addr) (c : bool) : Pool St :=
  mkPool (gateway p) (first p) (last p) o c (ipnet p) (store p).

(** The next address to hand out: wraps to [first] when it reaches [last]. *)
Definition get (p : Pool St) : Pool St * Addr :=
  let o := Next (offset p) in
  if negb (Less o (last p)) then (with_offset p (first p) true, first p)
  else (with_offset p o (cycle p), o).

Definition LookupWithError (p : Pool St) (host : string) : Pool St * result string Addr :=
  let host := ToLower host in
  let '(s, early) := if isCachefile then GetByHost (store p) host else (store p, None) in
  match early with
  | Some ip => (with_store p s, Ok ip)
  | None =>
      let '(s, r) := GetByHost s host in
      match r with
      | Some ip => (with_store p s, Ok ip)
      | None =>
          let '(p1, ip) := get (with_store p s) in
          let '(s, err) := PutMapping (store p1) host ip in
          match err with
          | Some e => (with_offset (with_store p1 s) (offset p) (cycle p), Err e)
          | None => (with_store p1 s, Ok ip)
          end
      end
  end.

(** [Lookup] logs the error and returns the zero address. *)
Definition Lookup_ (p : Pool St) (host : string) : Pool St * Addr :=
  let '(p, r) := LookupWithError p host in
  (p, match r with Ok ip => ip | Err _ => NoAddr end).

Definition LookBack (p : Pool St) (ip : Addr) : Pool St * option string :=
  if negb (prefix_contains (ipnet p) ip) then (p, None)
  else let '(s, r) := GetByIP (store p) ip in (with_store p s, r).

Definition Exist (p : Pool St) (ip : Addr) : bool :=
  if negb (prefix_contains (ipnet p) ip) then false else ExistIP (store p) ip.

Definition Gateway (p : Pool St) : Addr := gateway p.
Definition Broadcast (p : Pool St) : Addr := last p.
Definition IPNet (p : Pool St) : Prefix := ipnet p.

Definition FlushFakeIP (p : Pool St) : Pool St * option string :=
  let '(s, err) := FlushStore (store p) in
  match err with
  | None => (with_offset (with_store p s) (Prev (first p)) false, None)
  | Some e => (with_store p s, Some e)
  end.

Definition StoreState (p : Pool St) : Pool St :=
  if isCachefile then
    let s := PutByHost (store p) offsetKey (offset p) in
    let s := if cycle p then PutByHost s cycleKey (offset p) else s in
    with_store p s
  else p.

Definition restoreState (p : Pool St) : Pool St :=
  if isCachefile then
    let '(s, c) := GetByHost (store p) cycleKey in
    let p := with_store p s in
    let p := match c with Some _ => with_offset p (offset p) true | None => p end in
    let '(s, o) := GetByHost (store p) offsetKey in
    let p := with_store p s in
    match o with
    | Some off => if prefix_contains (ipnet p) off then with_offset p off (cycle p) else (FlushFakeIP p).1
    | None => if ExistIP (store p) (first p) then (FlushFakeIP p).1 else p
    end
  else p.

(** [New]: [PrefixLastIP] is the function of the package [go4.org/netipx], and
    [s] the store the options ask for. *)
Definition New (PrefixLastIP : Prefix → Addr) (net : Prefix) (s : St) : result string (Pool St) :=
  let hostAddr := paddr (Masked net) in
  let gw := Next hostAddr in
  let fst_ := Next (Next (Next gw)) in
  let lst := PrefixLastIP net in
  if negb (prefix_valid net) || negb (IsValid fst_) || negb (Less fst_ lst)
  then Err "ipnet don't have valid ip"
  else Ok (restoreState (mkPool gw fst_ lst (Prev fst_) false net s)).

End pool.

(** ** The in-memory store *)

Module memoryStore.

(** The cells of the two caches, which a clone shares with the original. *)
Record cells := Cells { ipCells : world string Addr; hostCells : world Addr string }.

Record memoryStore := MemoryStore { cacheIP : LruCache string; cacheHost : LruCache Addr }.

Definition state := (cells * memoryStore)%type.

(** The caches have no age, so the clock is never read. *)
Definition onIP {R} (f : world string Addr → LruCache string → world string Addr * LruCache string * R)
    (s : state) : state * R :=
  let '(w, c, r) := f (ipCells s.1) (cacheIP s.2) in
  ((Cells w (hostCells s.1), MemoryStore c (cacheHost s.2)), r).
Definition onHost {R} (f : world Addr string → LruCache Addr → world Addr string * LruCache Addr * R)
    (s : state) : state * R :=
  let '(w, c, r) := f (hostCells s.1) (cacheHost s.2) in
  ((Cells (ipCells s.1) w, MemoryStore (cacheIP s.2) c), r).

Definition GetByHost (s : state) (host : string) : state * option Addr :=
  let '(s, r) := onIP (λ w c, Get 0 w c host) s in
  match r with
  | Some ip => let '(s, _) := onHost (λ w c, Get 0 w c ip) s in (s, Some ip)
  | None => (s, None)
  end.

Definition PutByHost (s : state) (host : string) (ip : Addr) : state :=
  (onIP (λ w c, (Set_ 0 w c host ip, tt)) s).1.

Definition GetByIP (s : state) (ip : Addr) : state * option string :=
  let '(s, r) := onHost (λ w c, Get 0 w c ip) s in
  match r with
  | Some host => let '(s, _) := onIP (λ w c, Get 0 w c host) s in (s, Some host)
  | None => (s, None)
  end.

Definition PutByIP (s : state) (ip : Addr) (host : string) : state :=
  (onHost (λ w c, (Set_ 0 w c ip host, tt)) s).1.

Definition DelByIP (s : state) (ip : Addr) : state :=
  let '(s, r) := onHost (λ w c, Get 0 w c ip) s in
  let s := match r with
           | Some host => (onIP (λ w c, (Delete w c host, tt)) s).1
           | None => s
           end in
  (onHost (λ w c, (Delete w c ip, tt)) s).1.

Definition PutMapping (s : state) (host : string) (ip : Addr) : state * option string :=
  let s := DelByIP s ip in
  let s := PutByIP s ip host in
  (PutByHost s host ip, None).

Definition Exist (s : state) (ip : Addr) : bool := Lru.Exist (cacheHost s.2) ip.

(** Cloning between two in-memory stores over the same cells. *)
Definition CloneTo (h : cells) (m n : memoryStore) : memoryStore :=
  MemoryStore (Lru.CloneTo (ipCells h) (cacheIP m) (cacheIP n))
              (Lru.CloneTo (hostCells h) (cacheHost m) (cacheHost n)).

Definition FlushFakeIP (s : state) : state * option string :=
  ((s.1, MemoryStore (Clear (cacheIP s.2)) (Clear (cacheHost s.2))), None).

Definition newMemoryStore (size : Z) : memoryStore :=
  MemoryStore (Lru.New [WithSize size]) (Lru.New [WithSize size]).

(** A new store with no cell allocated yet. *)
Definition fresh_state (size : Z) : state := (Cells (World ∅ []) (World ∅ []), newMemoryStore size).

End memoryStore.

#[export] Instance memoryStore_Store : Store memoryStore.state := {|
  isCachefile := false;
  GetByHost := memoryStore.GetByHost;
  PutByHost := memoryStore.PutByHost;
  PutMapping := memoryStore.PutMapping;
  GetByIP := memoryStore.GetByIP;
  ExistIP := memoryStore.Exist;
  FlushStore := memoryStore.FlushFakeIP;
|}.

(** ** The two caches of the in-memory store stay in lockstep *)

Section lockstep.
Implicit Types (s : memoryStore.state) (l : list (entry string Addr)).

Definition swap (e : entry string Addr) : entry Addr string := Entry (value e) (key e) (expires e).

Definition ipView s : list (entry string Addr) := Snapshot (memoryStore.ipCells s.1) (memoryStore.cacheIP s.2).
Definition hostView s : list (entry Addr string) := Snapshot (memoryStore.hostCells s.1) (memoryStore.cacheHost s.2).

(** Both caches are consistent, have the same size bound, and list the same
    pairs in the same recency order. *)
Record paired (n : Z) s : Prop := {
  paired_ip : wf (memoryStore.ipCells s.1) (memoryStore.cacheIP s.2);
  paired_host : wf (memoryStore.hostCells s.1) (memoryStore.cacheHost s.2);
  paired_ip_plain : plain n (memoryStore.cacheIP s.2);
  paired_host_plain : plain n (memoryStore.cacheHost s.2);
  paired_view : hostView s = swap <$> ipView s;
}.

Lemma paired_keys n s : paired n s → NoDup (key <$> ipView s) ∧ NoDup (value <$> ipView s).
Proof.
  intros Hp. split; [apply wf_nodup_keys, Hp|].
  assert (value <$> ipView s = key <$> hostView s) as ->.
  { rewrite (paired_view _ _ Hp), <- list_fmap_compose. done. }
  apply wf_nodup_keys, Hp.
Qed.

Lemma remove_swap l e :
  NoDup (key <$> l) → NoDup (value <$> l) → e ∈ l →
  a_remove (value e) (swap <$> l) = swap <$> a_remove (key e) l.
Proof.
  intros Hk Hv He. unfold a_remove. apply filter_fmap_ext. intros x Hx. simpl.
  assert (value x = value e ↔ key x = key e) as Hiff; [|tauto].
  apply list_elem_of_lookup in He as [i Hi]. apply list_elem_of_lookup in Hx as [j Hj].
  split; intros Heq.
  - assert (i = j) as ->; [|congruence].
    eapply (NoDup_lookup _ _ _ (value e)); [exact Hv| |]; rewrite list_lookup_fmap; [by rewrite Hi|by rewrite Hj, <- Heq].
  - assert (i = j) as ->; [|congruence].
    eapply (NoDup_lookup _ _ _ (key e)); [exact Hk| |]; rewrite list_lookup_fmap; [by rewrite Hi|by rewrite Hj, <- Heq].
Qed.

Lemma find_swap n s e : paired n s → e ∈ ipView s → a_find (value e) (hostView s) = Some (swap e).
Proof.
  intros Hp He. apply (a_find_nodup (hostView s) (swap e)); [apply wf_nodup_keys, Hp|].
  rewrite (paired_view _ _ Hp). by apply list_elem_of_fmap_2.
Qed.

Lemma find_swap_inv n s a e' :
  paired n s → a_find a (hostView s) = Some e' → ∃ e, e' = swap e ∧ e ∈ ipView s ∧ value e = a.
Proof.
  intros Hp [He Hk]%a_find_Some. rewrite (paired_view _ _ Hp) in He.
  apply list_elem_of_fmap in He as (e & -> & He). by exists e.
Qed.

(** The pair [e], used in either direction, becomes the most recent in both caches. *)
Definition touch (e : entry string Addr) l := a_remove (key e) l ++ [e].

Lemma GetByHost_paired n s h :
  paired n s →
  let '(s', r) := memoryStore.GetByHost s h in
  paired n s' ∧
  match a_find h (ipView s) with
  | Some e => r = Some (value e) ∧ ipView s' = touch e (ipView s)
  | None => r = None ∧ ipView s' = ipView s
  end.
Proof.
  intros Hp. destruct (paired_keys _ _ Hp) as [Hk Hv]. destruct s as [[wi wh] [ci ch]].
  unfold memoryStore.GetByHost, memoryStore.onIP, memoryStore.onHost. simpl.
  pose proof (plain_get n wi ci h (paired_ip _ _ Hp) (paired_ip_plain _ _ Hp)) as Hg.
  destruct (Lru.Get 0 wi ci h) as [[wi' ci'] r]. destruct Hg as (Hwf & Hpl & Hg).
  change (Snapshot wi ci) with (ipView (memoryStore.Cells wi wh, memoryStore.MemoryStore ci ch)) in Hg.
  revert Hg. destruct (a_find h (ipView _)) as [e|] eqn:Ef; intros [-> Hs].
  - apply a_find_Some in Ef as [He Hke]. pose proof (find_swap _ _ _ Hp He) as Hf. simpl.
    pose proof (plain_get n wh ch (value e) (paired_host _ _ Hp) (paired_host_plain _ _ Hp)) as Hg.
    destruct (Lru.Get 0 wh ch (value e)) as [[wh' ch'] r]. destruct Hg as (Hwf' & Hpl' & Hg).
    change (Snapshot wh ch) with (hostView (memoryStore.Cells wi wh, memoryStore.MemoryStore ci ch)) in Hg.
    rewrite Hf in Hg. destruct Hg as [_ Hs']. simpl. split; [|split; [done|by rewrite <- Hke in Hs]].
    constructor; try done. unfold hostView, ipView; simpl. rewrite Hs, Hs'.
    rewrite (paired_view _ _ Hp), remove_swap, fmap_app by done. by rewrite Hke.
  - split; [|done]. constructor; try done; [apply Hp|apply Hp|].
    unfold ipView; simpl. rewrite Hs. apply Hp.
Qed.

Lemma GetByIP_paired n s a :
  paired n s →
  let '(s', r) := memoryStore.GetByIP s a in
  paired n s' ∧
  match a_find a (hostView s) with
  | Some e => r = Some (value e) ∧ ∃ e0, e = swap e0 ∧ e0 ∈ ipView s ∧ ipView s' = touch e0 (ipView s)
  | None => r = None ∧ ipView s' = ipView s
  end.
Proof.
  intros Hp. destruct (paired_keys _ _ Hp) as [Hk Hv]. destruct s as [[wi wh] [ci ch]].
  unfold memoryStore.GetByIP, memoryStore.onIP, memoryStore.onHost. simpl.
  pose proof (plain_get n wh ch a (paired_host _ _ Hp) (paired_host_plain _ _ Hp)) as Hg.
  destruct (Lru.Get 0 wh ch a) as [[wh' ch'] r]. destruct Hg as (Hwf & Hpl & Hg).
  change (Snapshot wh ch) with (hostView (memoryStore.Cells wi wh, memoryStore.MemoryStore ci ch)) in Hg.
  revert Hg. destruct (a_find a (hostView _)) as [e'|] eqn:Ef; intros [-> Hs].
  - destruct (find_swap_inv _ _ _ _ Hp Ef) as (e & -> & He & Hva). simpl.
    pose proof (plain_get n wi ci (key e) (paired_ip _ _ Hp) (paired_ip_plain _ _ Hp)) as Hg.
    destruct (Lru.Get 0 wi ci (key e)) as [[wi' ci'] r]. destruct Hg as (Hwf' & Hpl' & Hg).
    change (Snapshot wi ci) with (ipView (memoryStore.Cells wi wh, memoryStore.MemoryStore ci ch)) in Hg.
    rewrite (a_find_nodup _ e) in Hg by done. destruct Hg as [_ Hs']. simpl.
    split; [|split; [done|by exists e]]. constructor; try done. unfold hostView, ipView; simpl. rewrite Hs, Hs'.
    rewrite (paired_view _ _ Hp), <- Hva, remove_swap, fmap_app by done. done.
  - split; [|done]. constructor; try done; [apply Hp|apply Hp|].
    unfold hostView; simpl. rewrite Hs. apply Hp.
Qed.

#[local] Instance swap_inj : Inj (=) (=) swap.
Proof. intros [] [] [=]. by subst. Qed.

Lemma remove_by_value l e :
  NoDup (key <$> l) → NoDup (value <$> l) → e ∈ l →
  a_remove (key e) l = filter (λ x, value x ≠ value e) l.
Proof.
  intros Hk Hv He. pose proof (remove_swap l e Hk Hv He) as Hr. unfold a_remove in Hr |- *.
  assert (filter (λ e0, key e0 ≠ value e) (swap <$> l) = swap <$> filter (λ x, value x ≠ value e) l) as Hl
    by (by apply filter_fmap_ext).
  rewrite Hl in Hr. apply (list_fmap_eq_inj swap) in Hr; [by symmetry|]. apply swap_inj.
Qed.

Lemma remove_absent (v : Addr) l : (∀ e, e ∈ l → value e ≠ v) → filter (λ x, value x ≠ v) l = l.
Proof. intros Hl. by apply list_filter_all. Qed.

Lemma remove_touch (l : list (entry Addr string)) (e : entry Addr string) a :
  key e = a → a_remove a (a_remove a l ++ [e]) = a_remove a l.
Proof.
  intros He. unfold a_remove. rewrite filter_app, list_filter_filter.
  rewrite filter_cons_False by tauto. rewrite filter_nil, app_nil_r. apply list_filter_iff. tauto.
Qed.

Lemma DelByIP_paired n s a :
  paired n s →
  paired n (memoryStore.DelByIP s a) ∧
  ipView (memoryStore.DelByIP s a) = filter (λ x, value x ≠ a) (ipView s).
Proof.
  intros Hp. destruct (paired_keys _ _ Hp) as [Hk Hv]. destruct s as [[wi wh] [ci ch]].
  unfold memoryStore.DelByIP, memoryStore.onIP, memoryStore.onHost. simpl.
  pose proof (plain_get n wh ch a (paired_host _ _ Hp) (paired_host_plain _ _ Hp)) as Hg.
  destruct (Lru.Get 0 wh ch a) as [[wh' ch'] r]. destruct Hg as (Hwf & Hpl & Hg).
  pose proof (plain_delete n wh' ch' a Hwf Hpl) as Hd.
  change (Snapshot wh ch) with (hostView (memoryStore.Cells wi wh, memoryStore.MemoryStore ci ch)) in Hg.
  revert Hg. destruct (a_find a (hostView _)) as [e'|] eqn:Ef; intros [-> Hs].
  - destruct (find_swap_inv _ _ _ _ Hp Ef) as (e & -> & He & <-). simpl.
    pose proof (plain_delete n wi ci (key e) (paired_ip _ _ Hp) (paired_ip_plain _ _ Hp)) as Hd'.
    destruct (Delete wi ci (key e)) as [wi' ci']. simpl. destruct (Delete wh' ch' (value e)) as [wh2 ch2]. simpl.
    destruct Hd as (? & ? & Hd), Hd' as (? & ? & Hd').
    change (Snapshot wi ci) with (ipView (memoryStore.Cells wi wh, memoryStore.MemoryStore ci ch)) in Hd'.
    rewrite <- remove_by_value by done. split; [|exact Hd'].
    constructor; try done. unfold hostView, ipView; simpl. rewrite Hd, Hd', Hs.
    rewrite remove_touch, (paired_view _ _ Hp), remove_swap by done. done.
  - simpl. destruct (Delete wh' ch' a) as [wh2 ch2]. simpl. destruct Hd as (? & ? & Hd). rewrite Hs in Hd.
    assert (∀ e, e ∈ ipView (memoryStore.Cells wi wh, memoryStore.MemoryStore ci ch) → value e ≠ a) as Hno.
    { intros e He Ha. rewrite a_find_None in Ef. apply (Ef (swap e)); [|done].
      rewrite (paired_view _ _ Hp). by apply list_elem_of_fmap_2. }
    rewrite remove_absent by done. split; [|done].
    constructor; try done; [apply Hp|apply Hp|]. unfold hostView; simpl. rewrite Hd, a_remove_notin; [apply Hp|].
    by apply a_find_None.
Qed.

Lemma bound_swap n l : bound n (swap <$> l) = swap <$> bound n l.
Proof. unfold bound. rewrite length_fmap. destruct (_ && _); [by destruct l|done]. Qed.

Lemma PutMapping_paired n s h a :
  paired n s → (∀ e, e ∈ ipView s → key e ≠ h) →
  let '(s', r) := memoryStore.PutMapping s h a in
  paired n s' ∧ r = None ∧
  ipView s' = bound n (filter (λ x, value x ≠ a) (ipView s) ++ [Entry h a 0]).
Proof.
  intros Hp Hh. unfold memoryStore.PutMapping, memoryStore.PutByIP, memoryStore.PutByHost.
  destruct (DelByIP_paired _ _ a Hp) as [Hp1 Hv1].
  destruct (memoryStore.DelByIP s a) as [[wi wh] [ci ch]]. unfold memoryStore.onIP, memoryStore.onHost. simpl.
  assert (a_find h (Snapshot wi ci) = None) as Fi.
  { apply a_find_None. intros e He. unfold ipView at 1 in Hv1; simpl in Hv1. rewrite Hv1 in He.
    apply list_elem_of_filter in He as [_ He]. by apply Hh. }
  assert (a_find a (Snapshot wh ch) = None) as Fh.
  { apply a_find_None. intros e He. pose proof (paired_view _ _ Hp1) as Hpv.
    unfold hostView in Hpv; simpl in Hpv. rewrite Hpv, Hv1 in He.
    apply list_elem_of_fmap in He as (e0 & -> & [He _]%list_elem_of_filter). done. }
  pose proof (plain_set n wi ci h a (paired_ip _ _ Hp1) (paired_ip_plain _ _ Hp1) Fi) as Hi.
  pose proof (plain_set n wh ch a h (paired_host _ _ Hp1) (paired_host_plain _ _ Hp1) Fh) as Hj.
  destruct (Set_ 0 wh ch a h) as [wh' ch']. simpl. destruct (Set_ 0 wi ci h a) as [wi' ci']. simpl.
  destruct Hi as (? & ? & Hi), Hj as (? & ? & Hj).
  split; [|split; [done|]].
  - constructor; try done. unfold hostView, ipView; simpl. rewrite Hi, Hj, <- bound_swap, fmap_app. simpl.
    do 2 f_equal. apply Hp1.
  - unfold ipView at 1; simpl. rewrite Hi. do 2 f_equal. exact Hv1.
Qed.

Lemma FlushFakeIP_paired n s :
  paired n s → paired n (memoryStore.FlushFakeIP s).1 ∧ ipView (memoryStore.FlushFakeIP s).1 = [].
Proof.
  intros Hp. split; [|done]. constructor; simpl; [apply Clear_wf|apply Clear_wf| | |done].
  - apply (plain_trans _ _ _ (paired_ip_plain _ _ Hp)). done.
  - apply (plain_trans _ _ _ (paired_host_plain _ _ Hp)). done.
Qed.

Lemma fresh_paired n : paired n (memoryStore.fresh_state n).
Proof. constructor; simpl; [apply New_wf|apply New_wf| | |]; done. Qed.

End lockstep.

(** ** The in-memory store satisfies the interface *)

Section memory_laws.
Implicit Types (s : memoryStore.state).

Definition mem_wf s : Prop := ∃ n, paired n s.
Definition mem_fwd s : gmap string Addr := list_to_map ((λ e, (key e, value e)) <$> ipView s).
Definition mem_bwd s : gmap Addr string := list_to_map ((λ e, (value e, key e)) <$> ipView s).

Lemma mem_fwd_lookup s h a :
  mem_wf s → mem_fwd s !! h = Some a ↔ ∃ e, e ∈ ipView s ∧ key e = h ∧ value e = a.
Proof.
  intros [n Hp]. destruct (paired_keys _ _ Hp) as [Hk _]. unfold mem_fwd.
  rewrite <- elem_of_list_to_map by (by rewrite <- list_fmap_compose).
  rewrite list_elem_of_fmap. split; [intros (e & [= -> ->] & ?); eauto|intros (e & ? & <- & <-); eauto].
Qed.

Lemma mem_bwd_lookup s h a :
  mem_wf s → mem_bwd s !! a = Some h ↔ ∃ e, e ∈ ipView s ∧ key e = h ∧ value e = a.
Proof.
  intros [n Hp]. destruct (paired_keys _ _ Hp) as [_ Hv]. unfold mem_bwd.
  rewrite <- elem_of_list_to_map by (by rewrite <- list_fmap_compose).
  rewrite list_elem_of_fmap. split; [intros (e & [= -> ->] & ?); eauto|intros (e & ? & <- & <-); eauto].
Qed.

Lemma mem_fwd_None s h : mem_wf s → mem_fwd s !! h = None ↔ ∀ e, e ∈ ipView s → key e ≠ h.
Proof.
  intros Hw. split.
  - intros Hn e He Hk. assert (mem_fwd s !! h = Some (value e)) as Hs by (apply mem_fwd_lookup; eauto). congruence.
  - intros Hn. destruct (mem_fwd s !! h) as [a|] eqn:E; [|done].
    apply mem_fwd_lookup in E as (e & He & Hk & _); [|done]. by destruct (Hn e He).
Qed.

Lemma mem_same_maps s s' :
  mem_wf s → mem_wf s' → (∀ e, e ∈ ipView s' ↔ e ∈ ipView s) → mem_fwd s' = mem_fwd s ∧ mem_bwd s' = mem_bwd s.
Proof.
  intros Hw Hw' Hiff. split; apply map_eq; intros x; apply option_eq; intros y.
  - rewrite !mem_fwd_lookup by done. by setoid_rewrite Hiff.
  - rewrite !mem_bwd_lookup by done. by setoid_rewrite Hiff.
Qed.

Lemma elem_of_touch e l x : NoDup (key <$> l) → e ∈ l → x ∈ touch e l ↔ x ∈ l.
Proof.
  intros Hk He. unfold touch, a_remove. rewrite elem_of_app, list_elem_of_filter, list_elem_of_singleton.
  split; [intros [[_ ?]| ->]; done|]. intros Hx. destruct (decide (key x = key e)) as [Heq|]; [right|by left].
  pose proof (a_find_nodup _ _ Hk He) as Hf. rewrite <- Heq, (a_find_nodup _ _ Hk Hx) in Hf. by simplify_eq.
Qed.

Lemma mem_GetByHost_law s h :
  mem_wf s →
  let '(s', r) := memoryStore.GetByHost s h in
  mem_wf s' ∧ r = mem_fwd s !! h ∧ mem_fwd s' = mem_fwd s ∧ mem_bwd s' = mem_bwd s.
Proof.
  intros [n Hp]. pose proof (GetByHost_paired n s h Hp) as Hg.
  destruct (paired_keys _ _ Hp) as [Hk _]. assert (mem_wf s) as Hw by (by exists n).
  destruct (memoryStore.GetByHost s h) as [s' r]. destruct Hg as [Hp' Hg].
  assert (mem_wf s') as Hw' by (by exists n). split; [done|].
  destruct (a_find h (ipView s)) as [e|] eqn:Ef; destruct Hg as [-> Hv].
  - apply a_find_Some in Ef as [He Hke]. split; [symmetry; apply mem_fwd_lookup; eauto|].
    apply mem_same_maps; try done. intros x. rewrite Hv. by apply elem_of_touch.
  - split; [symmetry; apply mem_fwd_None; [done|]; by apply a_find_None|].
    apply mem_same_maps; try done. intros x. by rewrite Hv.
Qed.

Lemma mem_GetByIP_law s a :
  mem_wf s →
  let '(s', r) := memoryStore.GetByIP s a in
  mem_wf s' ∧ r = mem_bwd s !! a ∧ mem_fwd s' = mem_fwd s ∧ mem_bwd s' = mem_bwd s.
Proof.
  intros [n Hp]. pose proof (GetByIP_paired n s a Hp) as Hg.
  destruct (paired_keys _ _ Hp) as [Hk _]. assert (mem_wf s) as Hw by (by exists n).
  destruct (memoryStore.GetByIP s a) as [s' r]. destruct Hg as [Hp' Hg].
  assert (mem_wf s') as Hw' by (by exists n). split; [done|].
  destruct (a_find a (hostView s)) as [e|] eqn:Ef; destruct Hg as [-> Hv].
  - destruct Hv as (e0 & -> & He0 & Hv). apply a_find_Some in Ef as [_ Ha].
    split; [symmetry; apply mem_bwd_lookup; [done|]; by exists e0|].
    apply mem_same_maps; try done. intros x. rewrite Hv. by apply elem_of_touch.
  - split; [|apply mem_same_maps; try done; intros x; by rewrite Hv].
    destruct (mem_bwd s !! a) as [h|] eqn:E; [|done].
    apply mem_bwd_lookup in E as (e & He & _ & <-); [|done]. by rewrite (find_swap n s e Hp He) in Ef.
Qed.

Lemma elem_of_bound n (l : list (entry string Addr)) e0 x :
  (x ∈ bound n (l ++ [e0]) → x ∈ l ∨ x = e0) ∧ e0 ∈ bound n (l ++ [e0]).
Proof.
  unfold bound. rewrite length_app. simpl. destruct (_ && _) eqn:E.
  - breflect. destruct l as [|y l]; simpl in *; [lia|]. split; [|set_solver].
    intros [?|?%list_elem_of_singleton]%elem_of_app; [left; by right|by right].
  - split; [|set_solver]. intros [?|?%list_elem_of_singleton]%elem_of_app; auto.
Qed.

Lemma mem_PutMapping_law s h a :
  mem_wf s → mem_fwd s !! h = None →
  let '(s', e) := memoryStore.PutMapping s h a in
  mem_wf s' ∧
  match e with
  | None => mem_fwd s' !! h = Some a ∧
            ∀ h' a', h' ≠ h → mem_fwd s' !! h' = Some a' → mem_fwd s !! h' = Some a' ∧ a' ≠ a
  | Some _ => mem_fwd s' = mem_fwd s
  end.
Proof.
  intros Hw Hn. pose proof Hw as [n Hp]. rewrite mem_fwd_None in Hn by done.
  pose proof (PutMapping_paired n s h a Hp Hn) as Hm.
  destruct (memoryStore.PutMapping s h a) as [s' e]. destruct Hm as (Hp' & -> & Hv).
  assert (mem_wf s') as Hw' by (by exists n). split; [done|]. split.
  - apply mem_fwd_lookup; [done|]. exists (Entry h a 0). split; [|done]. rewrite Hv. by apply elem_of_bound.
  - intros h' a' Hne (e & He & <- & <-)%mem_fwd_lookup; [|done]. rewrite Hv in He.
    apply elem_of_bound in He as [[Ha He]%list_elem_of_filter| ->]; [|done].
    split; [|done]. apply mem_fwd_lookup; eauto.
Qed.

Lemma mem_Exist_law s a : mem_wf s → memoryStore.Exist s a = bool_decide (is_Some (mem_bwd s !! a)).
Proof.
  intros Hw. pose proof Hw as [n Hp]. unfold memoryStore.Exist. rewrite (Exist_view _ _ a (paired_host _ _ Hp)).
  apply bool_decide_ext. fold (hostView s). split.
  - intros [e Hf]. destruct (find_swap_inv _ _ _ _ Hp Hf) as (e0 & -> & He0 & <-).
    exists (key e0). apply mem_bwd_lookup; eauto.
  - intros [h (e & He & _ & <-)%mem_bwd_lookup]; [|done]. rewrite (find_swap n s e Hp He). eauto.
Qed.

End memory_laws.

#[export] Instance memoryStore_laws : StoreLaws memoryStore.state.
Proof.
  refine {| store_wf := mem_wf; fwd := mem_fwd; bwd := mem_bwd |}.
  - intros s h a Hw. rewrite mem_fwd_lookup, mem_bwd_lookup; done.
  - exact mem_GetByHost_law.
  - exact mem_GetByIP_law.
  - exact mem_PutMapping_law.
  - exact mem_Exist_law.
  - intros s [n Hp]. destruct (FlushFakeIP_paired n s Hp) as [Hp' Hv]. split; [by exists n|done].
Defined.

Lemma memory_not_cachefile : isCachefile (St:=memoryStore.state) = false.
Proof. done. Qed.

Lemma fresh_wf size : store_wf (memoryStore.fresh_state size).
Proof. exists size. apply fresh_paired. Qed.

(** ** The pool over any lawful store *)

Section pool_theory.
Context {St : Type} `{StoreLaws St} `{UnicodeCase}.
Implicit Types (p : Pool St) (h : string) (a : Addr) (f l o v : Z).

(** The address with value [v] of one of the two families. *)
Definition at_ (six : bool) (v : Z) : Addr := if six then V6 v "" else V4 v.
Definition width (six : bool) : Z := if six then 128 else 32.

(** The layout of a pool: gateway, first and last are values [f - 3], [f] and
    [l] of one family, everything from [f - 4] to [l] is in the prefix, and the
    allocation pointer is at or after [f - 1] and before [l]. *)
Record geometry p (six : bool) (f l o : Z) : Prop := {
  geo_first : first p = at_ six f;
  geo_last : last p = at_ six l;
  geo_gateway : gateway p = at_ six (f - 3);
  geo_offset : offset p = at_ six o;
  geo_order : 4 ≤ f < l;
  geo_width : l < 2 ^ width six;
  geo_pointer : f - 1 ≤ o < l;
  geo_prefix v : f - 4 ≤ v ≤ l → prefix_contains (ipnet p) (at_ six v) = true;
}.

(** Every mapped address is one the pool may hand out. *)
Record pool_ok p (six : bool) (f l o : Z) : Prop := {
  ok_store : store_wf (store p);
  ok_geometry : geometry p six f l o;
  ok_range h a : fwd (store p) !! h = Some a → ∃ v, a = at_ six v ∧ f ≤ v < l;
}.

(** The pointer after one allocation. *)
Definition next_offset (f l o : Z) : Z := if o + 1 <? l then o + 1 else f.

Lemma Next_at six v : v + 1 < 2 ^ width six → Next (at_ six v) = at_ six (v + 1).
Proof. destruct six; simpl; intros Hv; by destruct (Z.eqb_spec (v + 1) (2 ^ 32)), (Z.eqb_spec (v + 1) (2 ^ 128)); try lia. Qed.

Lemma Prev_at six v : 0 < v → Prev (at_ six v) = at_ six (v - 1).
Proof. destruct six; simpl; intros Hv; by destruct (Z.eqb_spec v 0); try lia. Qed.

Lemma Less_at six v v' : Less (at_ six v) (at_ six v') = (v <? v').
Proof. unfold Less. destruct six; simpl; destruct (Z.eqb_spec v v'); try done; subst; by rewrite Z.ltb_irrefl. Qed.

Lemma get_spec p six f l o :
  geometry p six f l o →
  let '(p', a) := get p in
  geometry p' six f l (next_offset f l o) ∧ a = at_ six (next_offset f l o) ∧ store p' = store p ∧
  gateway p' = gateway p ∧ ipnet p' = ipnet p.
Proof.
  intros Hg. pose proof (geo_order _ _ _ _ _ Hg). pose proof (geo_pointer _ _ _ _ _ Hg).
  pose proof (geo_width _ _ _ _ _ Hg).
  unfold get. rewrite (geo_offset _ _ _ _ _ Hg), (geo_last _ _ _ _ _ Hg), Next_at, Less_at by lia.
  unfold next_offset. destruct (Z.ltb_spec (o + 1) l); simpl; split_and!; try done; try apply Hg;
    constructor; simpl; try apply Hg; done || lia.
Qed.

Lemma next_offset_range f l o : f < l → f - 1 ≤ o → f ≤ next_offset f l o < l.
Proof. intros. unfold next_offset. destruct (Z.ltb_spec (o + 1) l); lia. Qed.

Lemma with_store_ok p six f l o s :
  pool_ok p six f l o → store_wf s →
  (∀ h a, fwd s !! h = Some a → ∃ v, a = at_ six v ∧ f ≤ v < l) → pool_ok (with_store p s) six f l o.
Proof. intros Hp Hs Hr. destruct (ok_geometry _ _ _ _ _ Hp). by constructor; [|constructor|]. Qed.

Lemma LookBack_spec p six f l o h a :
  pool_ok p six f l o → fwd (store p) !! h = Some a → (LookBack p a).2 = Some h.
Proof.
  intros Hp Hf. destruct (ok_range _ _ _ _ _ Hp _ _ Hf) as (v & -> & Hv).
  unfold LookBack. rewrite (geo_prefix _ _ _ _ _ (ok_geometry _ _ _ _ _ Hp)) by lia. simpl.
  pose proof (GetByIP_law (store p) (at_ six v) (ok_store _ _ _ _ _ Hp)) as Hg.
  destruct (GetByIP (store p) (at_ six v)) as [s r]. simpl. destruct Hg as (_ & -> & _).
  apply store_inverse; [apply Hp|done].
Qed.

Lemma LookBack_ok p six f l o a : pool_ok p six f l o → pool_ok (LookBack p a).1 six f l o.
Proof.
  intros Hp. unfold LookBack. destruct (negb _); [done|].
  pose proof (GetByIP_law (store p) a (ok_store _ _ _ _ _ Hp)) as Hg. destruct (GetByIP (store p) a) as [s r].
  destruct Hg as (Hw & _ & Hf & _). apply with_store_ok; [done..|]. rewrite Hf. apply Hp.
Qed.

Lemma FlushFakeIP_ok p six f l o :
  pool_ok p six f l o →
  pool_ok (FlushFakeIP p).1 six f l (match (FlushFakeIP p).2 with None => f - 1 | Some _ => o end).
Proof.
  intros Hp. unfold FlushFakeIP. pose proof (FlushStore_law (store p) (ok_store _ _ _ _ _ Hp)) as Hl.
  pose proof (ok_geometry _ _ _ _ _ Hp) as Hg. pose proof (geo_order _ _ _ _ _ Hg).
  destruct (FlushStore (store p)) as [s [e|]]; destruct Hl as [Hw Hf]; simpl.
  { apply with_store_ok; [done..|]. rewrite Hf. apply Hp. }
  constructor; simpl; [done| |by intros h a; rewrite Hf, lookup_empty].
  constructor; simpl; try apply Hg; [|lia]. by rewrite (geo_first _ _ _ _ _ Hg), Prev_at by lia.
Qed.

(** What one lookup does, on every branch. *)
Lemma LookupWithError_spec p six f l o h :
  pool_ok p six f l o →
  let '(p', r) := LookupWithError p h in
  match r with
  | Ok a => fwd (store p') !! ToLower h = Some a ∧
            match fwd (store p) !! ToLower h with
            | Some b => a = b ∧ pool_ok p' six f l o ∧ fwd (store p') = fwd (store p)
            | None => a = at_ six (next_offset f l o) ∧ pool_ok p' six f l (next_offset f l o) ∧
                      ∀ k, k ≠ ToLower h → fwd (store p) !! k = None → fwd (store p') !! k = None
            end
  | Err _ => pool_ok p' six f l o ∧ fwd (store p') = fwd (store p) ∧ cycle p' = cycle p
  end.
Proof.
  intros Hp. pose proof (ok_geometry _ _ _ _ _ Hp) as Hg.
  unfold LookupWithError. set (host := ToLower h).
  assert (∀ s, store_wf s → fwd s = fwd (store p) → pool_ok (with_store p s) six f l o) as Hkeep.
  { intros s Hw Hf. apply with_store_ok; [done..|]. rewrite Hf. apply Hp. }
  destruct (if isCachefile then _ else _) as [s1 early] eqn:E1.
  assert (store_wf s1 ∧ fwd s1 = fwd (store p) ∧ (∀ b, early = Some b → fwd (store p) !! host = Some b)) as (Hw1 & Hf1 & He1).
  { destruct isCachefile; simplify_eq; [|split_and!; [apply Hp|done|done]].
    pose proof (GetByHost_law (store p) host (ok_store _ _ _ _ _ Hp)) as Hl. rewrite E1 in Hl.
    destruct Hl as (? & -> & ? & _). by split_and!. }
  destruct early as [b|]; [simpl; rewrite Hf1, (He1 b eq_refl); split; [done|]; by auto|].
  pose proof (GetByHost_law s1 host Hw1) as Hl. destruct (GetByHost s1 host) as [s2 r].
  destruct Hl as (Hw2 & -> & Hf2 & _). rewrite Hf1 in *.
  destruct (fwd (store p) !! host) as [b|] eqn:Eb; [simpl; rewrite Hf2; split; [done|]; by auto|].
  pose proof (get_spec (with_store p s2) six f l o (ok_geometry _ _ _ _ _ (Hkeep s2 Hw2 Hf2))) as Hget.
  destruct (get (with_store p s2)) as [p1 a]. destruct Hget as (Hg1 & -> & Hs1 & _).
  assert (f ≤ next_offset f l o < l) as Hno.
  { apply next_offset_range; [apply (geo_order _ _ _ _ _ Hg)|apply (geo_pointer _ _ _ _ _ Hg)]. }
  rewrite Hs1. simpl.
  assert (fwd s2 !! host = None) as Hfree by (by rewrite Hf2).
  pose proof (PutMapping_law s2 host (at_ six (next_offset f l o)) Hw2 Hfree) as Hl.
  destruct (PutMapping s2 host _) as [s3 [e|]]; destruct Hl as [Hw3 Hl]; simpl.
  - rewrite Hl. split_and!; [|done|done]. constructor; simpl; [done| |rewrite Hl, Hf2; apply Hp].
    destruct Hg1; constructor; simpl; try done; apply Hg.
  - destruct Hl as [Hnew Hold]. split_and!; [done|done|constructor; simpl; [done|by destruct Hg1; constructor|]|].
    + intros h' a' Ha'. destruct (decide (h' = host)) as [->|Hne]; [rewrite Hnew in Ha'; simplify_eq; by eauto|].
      destruct (Hold h' a' Hne Ha') as [Ho _]. rewrite Hf2 in Ho. by apply (ok_range _ _ _ _ _ Hp h').
    + intros k Hne Hnone. destruct (fwd s3 !! k) as [b|] eqn:Ek; [|done].
      destruct (Hold k b Hne Ek) as [Ho _]. by rewrite Hf2, Hnone in Ho.
Qed.

(** ** Sequences of requests *)

Inductive request := RLookup (host : string) | RLookBack (ip : Addr) | RFlush | RStoreState.

Definition serve p (r : request) : Pool St :=
  match r with
  | RLookup host => (Lookup_ p host).1
  | RLookBack ip => (LookBack p ip).1
  | RFlush => (FlushFakeIP p).1
  | RStoreState => StoreState p
  end.
Definition serve_all p (rs : list request) : Pool St := fold_left serve rs p.

Lemma serve_all_ok p six f l o rs :
  isCachefile = false → pool_ok p six f l o → ∃ o', pool_ok (serve_all p rs) six f l o'.
Proof.
  intros Hmem. revert p o. induction rs as [|r rs IH]; intros p o Hp; [by exists o|]. simpl.
  destruct r as [h|a| |]; simpl.
  - pose proof (LookupWithError_spec p six f l o h Hp) as Hs. unfold Lookup_.
    destruct (LookupWithError p h) as [p' [a|e]]; simpl.
    + destruct Hs as [_ Hs]. destruct (fwd (store p) !! ToLower h); destruct Hs as (_ & Hs & _); by apply (IH _ _ Hs).
    + destruct Hs as [Hs _]. by apply (IH _ _ Hs).
  - apply (IH _ o). by apply LookBack_ok.
  - eapply IH. by apply FlushFakeIP_ok.
  - unfold StoreState. rewrite Hmem. by apply (IH _ o).
Qed.

Lemma masked_block (m v hb : Z) :
  0 ≤ hb → m = Z.shiftl (Z.shiftr v hb) hb →
  ∀ x, m ≤ x ≤ m + (2 ^ hb - 1) → Z.shiftr x hb = Z.shiftr v hb.
Proof.
  intros Hhb -> x Hx. rewrite Z.shiftl_mul_pow2 in Hx by lia. rewrite !Z.shiftr_div_pow2 in * by lia.
  assert (0 < 2 ^ hb) by (apply Z.pow_pos_nonneg; lia).
  symmetry. apply (Z.div_unique_pos x (2 ^ hb) (v / 2 ^ hb) (x - v / 2 ^ hb * 2 ^ hb)); lia.
Qed.

Lemma prefix_valid_at (net : Prefix) :
  addr_ok (paddr net) → prefix_valid net = true →
  ∃ six v, paddr net = at_ six v ∧ 0 ≤ v < 2 ^ width six ∧ 0 ≤ host_bits net.
Proof.
  unfold prefix_valid, host_bits. destruct net as [[|v|v z] b]; simpl; intros Hok Hv; breflect.
  - done.
  - exists false, v. split_and!; simpl; lia || done.
  - exists true, v. subst. split_and!; simpl; lia || done.
Qed.

Lemma last_in_family (net : Prefix) six v :
  prefix_valid net = true → paddr net = at_ six v → 0 ≤ v < 2 ^ width six →
  Z.shiftl (Z.shiftr v (host_bits net)) (host_bits net) + (2 ^ host_bits net - 1) < 2 ^ width six.
Proof.
  intros Hv Hnet Hr.
  assert (0 ≤ host_bits net ≤ width six) as [Hb1 Hb2].
  { unfold prefix_valid, host_bits in *. rewrite Hnet in *. destruct six; simpl in *; breflect; lia. }
  rewrite Z.shiftl_mul_pow2, Z.shiftr_div_pow2 by done.
  assert (0 < 2 ^ host_bits net) by (apply Z.pow_pos_nonneg; lia).
  assert (2 ^ width six = 2 ^ (width six - host_bits net) * 2 ^ host_bits net) as Hsplit
    by (rewrite <- Z.pow_add_r by lia; f_equal; lia).
  assert (v / 2 ^ host_bits net < 2 ^ (width six - host_bits net)) by (apply Z.div_lt_upper_bound; lia).
  rewrite Hsplit. nia.
Qed.

Lemma Next_valid_at six v :
  v < 2 ^ width six → IsValid (Next (at_ six v)) = true → Next (at_ six v) = at_ six (v + 1) ∧ v + 1 < 2 ^ width six.
Proof.
  destruct six; simpl; intros Hv.
  - destruct (Z.eqb_spec (v + 1) (2 ^ 128)); [done|]. split; [done|lia].
  - destruct (Z.eqb_spec (v + 1) (2 ^ 32)); [done|]. split; [done|lia].
Qed.

Lemma Next_invalid a : IsValid (Next a) = true → IsValid a = true.
Proof. by destruct a. Qed.

Lemma New_ok (PrefixLastIP : Prefix → Addr) (net : Prefix) (s : St) p :
  (∀ q, prefix_valid q = true → PrefixLastIP q = last_addr q) →
  isCachefile = false → store_wf s → fwd s = ∅ → addr_ok (paddr net) →
  New PrefixLastIP net s = Ok p →
  ∃ six f l, pool_ok p six f l (f - 1) ∧ ipnet p = net ∧ last p = last_addr net.
Proof.
  intros Hlast Hmem Hw Hempty Hok. unfold New. destruct (negb _ || _ || _) eqn:Eg; [done|].
  intros [= Hp]. apply orb_false_iff in Eg as [[Hv Hvf]%orb_false_iff Hless].
  apply negb_false_iff in Hv, Hvf, Hless.
  destruct (prefix_valid_at net Hok Hv) as (six & v & Hnet & Hrange & Hhb).
  rewrite (Hlast net Hv) in *. unfold restoreState in Hp. rewrite Hmem in Hp. subst p.
  set (m := Z.shiftl (Z.shiftr v (host_bits net)) (host_bits net)).
  assert (paddr (Masked net) = at_ six m) as Hm.
  { unfold Masked. rewrite Hv. simpl. rewrite Hnet. by destruct six. }
  assert (last_addr net = at_ six (m + (2 ^ host_bits net - 1))) as Hl.
  { unfold last_addr. rewrite Hnet. by destruct six. }
  assert (0 ≤ m ≤ v) as Hmv.
  { unfold m. rewrite Z.shiftl_mul_pow2, Z.shiftr_div_pow2 by done.
    assert (0 < 2 ^ host_bits net) by (apply Z.pow_pos_nonneg; lia).
    pose proof (Z.mul_div_le v (2 ^ host_bits net)). pose proof (Z.div_pos v (2 ^ host_bits net)). lia. }
  rewrite Hm, Hl in *.
  pose proof (Next_invalid _ Hvf) as Hv3. pose proof (Next_invalid _ Hv3) as Hv2. pose proof (Next_invalid _ Hv2) as Hv1.
  destruct (Next_valid_at six m) as [N1 ?]; [lia|done|]. rewrite N1 in *.
  destruct (Next_valid_at six (m + 1)) as [N2 ?]; [lia|done|]. rewrite N2 in *.
  destruct (Next_valid_at six (m + 1 + 1)) as [N3 ?]; [lia|done|]. rewrite N3 in *.
  destruct (Next_valid_at six (m + 1 + 1 + 1)) as [N4 ?]; [lia|done|]. rewrite N4 in *.
  rewrite Less_at in Hless. apply Z.ltb_lt in Hless.
  exists six, (m + 4), (m + (2 ^ host_bits net - 1)). split; [|done].
  assert (m + (2 ^ host_bits net - 1) < 2 ^ width six) as Hwidth.
  { apply (last_in_family net six v); done. }
  constructor; simpl; [done| |by intros h a; rewrite Hempty, lookup_empty].
  constructor; simpl; [f_equal; lia|done|f_equal; lia|rewrite Prev_at by lia; f_equal; lia|lia|done|lia|].
  intros x Hx. unfold prefix_contains. rewrite Hv, Hnet.
  pose proof (masked_block m v (host_bits net) Hhb eq_refl x ltac:(lia)) as Hsh.
  assert (addr_val (at_ six x) = x) as -> by (by destruct six).
  assert (addr_val (at_ six v) = v) as -> by (by destruct six).
  rewrite Hsh, Z.eqb_refl. by destruct six.
Qed.

Lemma at_inj six v v' : at_ six v = at_ six v' → v = v'.
Proof. by destruct six; intros [=]. Qed.

(** A host that is mapped is answered from the store. *)
Lemma LookupWithError_known p six f l o h a :
  pool_ok p six f l o → fwd (store p) !! ToLower h = Some a → (LookupWithError p h).2 = Ok a.
Proof.
  intros Hp Hf. unfold LookupWithError. destruct isCachefile.
  - pose proof (GetByHost_law (store p) (ToLower h) (ok_store _ _ _ _ _ Hp)) as Hl.
    destruct (GetByHost (store p) (ToLower h)) as [s1 r]. destruct Hl as (_ & -> & _). by rewrite Hf.
  - pose proof (GetByHost_law (store p) (ToLower h) (ok_store _ _ _ _ _ Hp)) as Hl.
    destruct (GetByHost (store p) (ToLower h)) as [s1 r]. destruct Hl as (_ & -> & _). by rewrite Hf.
Qed.

Lemma LookupWithError_ipnet p h : ipnet (LookupWithError p h).1 = ipnet p.
Proof.
  unfold LookupWithError, get. destruct (if isCachefile then _ else _) as [s1 [?|]]; [done|].
  destruct (GetByHost s1 _) as [s2 [?|]]; [done|].
  destruct (negb _); destruct (PutMapping _ _ _) as [s3 [?|]]; done.
Qed.

Lemma serve_all_ipnet p rs : ipnet (serve_all p rs) = ipnet p.
Proof.
  revert p. induction rs as [|r rs IH]; intros p; [done|]. simpl. rewrite IH.
  destruct r as [h|a| |]; simpl.
  - unfold Lookup_. pose proof (LookupWithError_ipnet p h). by destruct (LookupWithError p h).
  - unfold LookBack. destruct (negb _); [done|]. by destruct (GetByIP _ _).
  - unfold FlushFakeIP. by destruct (FlushStore _) as [? []].
  - unfold StoreState. by destruct isCachefile.
Qed.

(** Looking up a list of hosts one after the other. *)
Fixpoint lookup_all p (hs : list string) : Pool St * list (result string Addr) :=
  match hs with
  | [] => (p, [])
  | h :: hs => let '(p1, r) := LookupWithError p h in
               let '(p2, rs) := lookup_all p1 hs in (p2, r :: rs)
  end.

Lemma next_offset_mod f l i : f < l → 0 ≤ i →
  next_offset f l (if i =? 0 then f - 1 else f + (i - 1) `mod` (l - f)) = f + i `mod` (l - f).
Proof.
  intros Hfl Hi. unfold next_offset. destruct (Z.eqb_spec i 0) as [->|Hne].
  - rewrite Z.mod_0_l by lia. destruct (Z.ltb_spec (f - 1 + 1) l); lia.
  - pose proof (Z.mod_pos_bound (i - 1) (l - f) ltac:(lia)).
    pose proof (Z.div_mod (i - 1) (l - f) ltac:(lia)) as Hd.
    destruct (Z.ltb_spec (f + (i - 1) `mod` (l - f) + 1) l).
    + rewrite <- (Z.mod_unique i (l - f) ((i - 1) / (l - f)) ((i - 1) `mod` (l - f) + 1)); lia.
    + rewrite <- (Z.mod_unique i (l - f) ((i - 1) / (l - f) + 1) 0); nia.
Qed.

Lemma lookup_all_spec hs p six f l i :
  (∀ s h a, (PutMapping s h a).2 = None) →
  0 ≤ i → pool_ok p six f l (if i =? 0 then f - 1 else f + (i - 1) `mod` (l - f)) →
  NoDup (ToLower <$> hs) → (∀ h, h ∈ hs → fwd (store p) !! ToLower h = None) →
  (lookup_all p hs).2 = imap (λ j _, Ok (at_ six (f + (i + Z.of_nat j) `mod` (l - f)))) hs.
Proof.
  intros Hput. revert p i. induction hs as [|h hs IH]; intros p i Hi Hp Hnd Hfree; [done|]. simpl.
  apply list.NoDup_cons in Hnd as [Hni Hnd].
  assert (f < l) by (apply (geo_order _ _ _ _ _ (ok_geometry _ _ _ _ _ Hp))).
  pose proof (LookupWithError_spec p six f l _ h Hp) as Hs.
  assert (∀ e, (LookupWithError p h).2 ≠ Err e) as Hne.
  { intros e. unfold LookupWithError. destruct (if isCachefile then _ else _) as [s1 [?|]]; [done|].
    destruct (GetByHost s1 _) as [s2 [?|]]; [done|]. destruct (get _) as [p1 a].
    specialize (Hput (store p1) (ToLower h) a). destruct (PutMapping _ _ _) as [s3 [?|]]; done. }
  destruct (LookupWithError p h) as [p1 [a|e]]; [|by destruct (Hne e)].
  rewrite Hfree in Hs by left. destruct Hs as (_ & -> & Hp1 & Hkeep).
  rewrite next_offset_mod in Hp1 |- * by done.
  specialize (IH p1 (i + 1) ltac:(lia)). destruct (lookup_all p1 hs) as [p2 rs]. simpl in *.
  rewrite IH; [| |done|].
  - rewrite Z.add_0_r. f_equal. apply imap_ext. intros j x _. simpl. do 4 f_equal. lia.
  - destruct (Z.eqb_spec (i + 1) 0); [lia|]. by replace (i + 1 - 1) with i by lia.
  - intros h' Hh'. apply Hkeep; [|apply Hfree; by right].
    intros Heq. apply Hni. rewrite <- Heq. by apply list_elem_of_fmap_2.
Qed.

End pool_theory.

(** ** Properties *)

Section pool_properties.
Context {St : Type} `{StoreLaws St} `{UnicodeCase}.

(** What the documentation of [netipx.PrefixLastIP] says. *)
Definition last_ip_documented (PrefixLastIP : Prefix → Addr) : Prop :=
  ∀ q, prefix_valid q = true → PrefixLastIP q = last_addr q.

(** C6. After any sequence of requests to a new pool with an empty in-memory
    store, a successful lookup of a host gives an address of the configured
    prefix that is neither the gateway nor the broadcast address, looking that
    address up gives back the host in lower case, and looking the host up again
    gives the same address. *)
Theorem fakeip_lookup_roundtrip PrefixLastIP net (s : St) p0 rs host :
  last_ip_documented PrefixLastIP → isCachefile = false → store_wf s → fwd s = ∅ →
  addr_ok (paddr net) → New PrefixLastIP net s = Ok p0 →
  let '(p, r) := LookupWithError (serve_all p0 rs) host in
  match r with
  | Ok ip => prefix_contains net ip = true ∧ ip ≠ Gateway p ∧ ip ≠ Broadcast p ∧
             (LookBack p ip).2 = Some (ToLower host) ∧ Exist p ip = true ∧
             (LookupWithError p host).2 = Ok ip
  | Err _ => store_wf (store p)
  end.
Proof.
  intros Hlast Hmem Hw Hempty Hok Hnew.
  destruct (New_ok _ _ _ _ Hlast Hmem Hw Hempty Hok Hnew) as (six & f & l & Hp0 & Hnet & _).
  destruct (serve_all_ok p0 six f l (f - 1) rs Hmem Hp0) as [o Hp].
  assert (ipnet (serve_all p0 rs) = net) as Hnet' by (by rewrite serve_all_ipnet).
  pose proof (LookupWithError_spec _ six f l o host Hp) as Hs.
  pose proof (LookupWithError_ipnet (serve_all p0 rs) host) as Hipn.
  destruct (LookupWithError (serve_all p0 rs) host) as [p [ip|e]]; [|by apply Hs].
  destruct Hs as [Hf Hs]. assert (∃ o', pool_ok p six f l o') as [o' Hp'].
  { destruct (fwd (store (serve_all p0 rs)) !! ToLower host); destruct Hs as (_ & ? & _); eauto. }
  destruct (ok_range _ _ _ _ _ Hp' _ _ Hf) as (v & -> & Hv). pose proof (ok_geometry _ _ _ _ _ Hp') as Hg.
  simpl in Hipn. rewrite <- Hnet', <- Hipn. unfold Gateway, Broadcast, Exist.
  rewrite (geo_prefix _ _ _ _ _ Hg), (geo_gateway _ _ _ _ _ Hg), (geo_last _ _ _ _ _ Hg) by lia.
  assert (∀ x, x ≠ v → at_ six v ≠ at_ six x) as Hinj by (intros x Hx Heq%at_inj; congruence).
  split_and!; [done|apply Hinj; lia|apply Hinj; lia|by apply (LookBack_spec _ six f l o')| |].
  - simpl. rewrite ExistIP_law by apply Hp'. apply bool_decide_eq_true. exists (ToLower host).
    apply store_inverse; [apply Hp'|done].
  - by apply (LookupWithError_known p six f l o').
Qed.

(** Hosts that are new to the pool are given consecutive addresses from the
    first one on, wrapping around before the last: the [i]-th distinct host
    gets the address [first + i mod (last - first)], so no address is reused
    before the whole range was handed out. *)
Theorem fakeip_sequential_allocation PrefixLastIP net (s : St) p hosts i ip :
  last_ip_documented PrefixLastIP → isCachefile = false → store_wf s → fwd s = ∅ →
  (∀ s h a, (PutMapping s h a).2 = None) →
  addr_ok (paddr net) → New PrefixLastIP net s = Ok p →
  NoDup (ToLower <$> hosts) →
  (lookup_all p hosts).2 !! i = Some (Ok ip) →
  addr_val ip = addr_val (first p) + Z.of_nat i `mod` (addr_val (last p) - addr_val (first p)).
Proof.
  intros Hlast Hmem Hw Hempty Hput Hok Hnew Hnd Hi.
  destruct (New_ok _ _ _ _ Hlast Hmem Hw Hempty Hok Hnew) as (six & f & l & Hp & _ & _).
  rewrite (lookup_all_spec hosts p six f l 0 Hput) in Hi; [|done|done|done|].
  - rewrite list_lookup_imap in Hi. destruct (hosts !! i); simplify_eq/=.
    pose proof (ok_geometry _ _ _ _ _ Hp) as Hg. rewrite (geo_first _ _ _ _ _ Hg), (geo_last _ _ _ _ _ Hg).
    by destruct six.
  - intros h _. unfold New in Hnew. destruct (_ || _); [done|]. injection Hnew as <-.
    unfold restoreState. rewrite Hmem. simpl. by rewrite Hempty.
Qed.

End pool_properties.

(** The in-memory store after any sequence of requests to a new pool: the
    two caches are inverse to each other, an address is found for a host
    exactly when the host is found for the address. *)
Theorem memory_store_bijection `{UnicodeCase} PrefixLastIP net size p0 rs host ip :
  last_ip_documented PrefixLastIP → addr_ok (paddr net) →
  New PrefixLastIP net (memoryStore.fresh_state size) = Ok p0 →
  let s := store (serve_all p0 rs) in
  (memoryStore.GetByHost s host).2 = Some ip ↔ (memoryStore.GetByIP s ip).2 = Some host.
Proof.
  intros Hlast Hok Hnew s.
  destruct (New_ok PrefixLastIP net _ p0 Hlast memory_not_cachefile (fresh_wf size) eq_refl Hok Hnew)
    as (six & f & l & Hp0 & _).
  destruct (serve_all_ok p0 six f l (f - 1) rs memory_not_cachefile Hp0) as [o Hp].
  assert (mem_wf s) as Hw by apply Hp.
  pose proof (mem_GetByHost_law s host Hw) as Hh. pose proof (mem_GetByIP_law s ip Hw) as Hi.
  destruct (memoryStore.GetByHost s host) as [? r], (memoryStore.GetByIP s ip) as [? r']. simpl.
  destruct Hh as (_ & -> & _), Hi as (_ & -> & _). by rewrite mem_fwd_lookup, mem_bwd_lookup.
Qed.

(** A lookup whose mapping cannot be committed reports the error, gives no
    address and restores the allocation pointer and the wrap-around flag. *)
Theorem fakeip_failed_put_rolls_back {St} `{Store St} `{UnicodeCase} (p p' : Pool St) host e :
  LookupWithError p host = (p', Err e) →
  offset p' = offset p ∧ cycle p' = cycle p ∧ (Lookup_ p host).2 = NoAddr.
Proof.
  intros Hl. unfold Lookup_. rewrite Hl. revert Hl. unfold LookupWithError.
  destruct (if isCachefile then _ else _) as [s1 [?|]]; [done|].
  destruct (GetByHost s1 _) as [s2 [?|]]; [done|]. destruct (get _) as [p1 a].
  destruct (PutMapping _ _ _) as [s3 [?|]]; [|done]. by intros [= <- <-].
Qed.

(** ** Witnesses *)

Definition demo_net : Prefix := mkPrefix (V4 0xC6120000) 29.

Lemma last_addr_documented : last_ip_documented last_addr.
Proof. by intros q _. Qed.

Definition demo_pool : Pool memoryStore.state :=
  mkPool (V4 0xC6120001) (V4 0xC6120004) (V4 0xC6120007) (V4 0xC6120003) false demo_net (memoryStore.fresh_state 2).

Lemma demo_new : New last_addr demo_net (memoryStore.fresh_state 2) = Ok demo_pool.
Proof. vm_compute. reflexivity. Qed.

#[local] Existing Instance ascii_case.

Definition demo_requests : list request :=
  [RLookup "a.org"; RLookup "b.org"; RLookBack (V4 0xC6120004); RLookup "C.org"; RLookup "d.org"].

Lemma fakeip_lookup_roundtrip_witness :
  let '(p, r) := LookupWithError (serve_all demo_pool demo_requests) "E.org" in
  r = Ok (V4 0xC6120005) ∧ (LookBack p (V4 0xC6120005)).2 = Some "e.org".
Proof.
  pose proof (fakeip_lookup_roundtrip last_addr demo_net (memoryStore.fresh_state 2) demo_pool demo_requests "E.org"
    last_addr_documented memory_not_cachefile (fresh_wf 2) eq_refl ltac:(simpl; lia) demo_new) as Hw.
  destruct (LookupWithError _ _) as [p r] eqn:E. assert (r = Ok (V4 0xC6120005)) as ->.
  { change r with (p, r).2. rewrite <- E. vm_compute. reflexivity. }
  split; [reflexivity|apply Hw].
Defined.

Lemma fakeip_sequential_allocation_witness :
  addr_val (V4 0xC6120004) = 0xC6120004 + 3 `mod` 3.
Proof.
  apply (fakeip_sequential_allocation last_addr demo_net (memoryStore.fresh_state 2) demo_pool
    ["a.org"; "b.org"; "c.org"; "d.org"] 3 (V4 0xC6120004) last_addr_documented memory_not_cachefile (fresh_wf 2) eq_refl).
  - done.
  - simpl. lia.
  - apply demo_new.
  - apply (bool_decide_eq_true_1 _). vm_compute. reflexivity.
  - vm_compute. reflexivity.
Defined.

Lemma memory_store_bijection_witness :
  let s := store (serve_all demo_pool demo_requests) in
  (memoryStore.GetByHost s "d.org").2 = Some (V4 0xC6120004) ∧
  (memoryStore.GetByIP s (V4 0xC6120004)).2 = Some "d.org".
Proof.
  assert ((memoryStore.GetByHost (store (serve_all demo_pool demo_requests)) "d.org").2 = Some (V4 0xC6120004)) as Hh
    by (vm_compute; reflexivity).
  split; [exact Hh|].
  exact (proj1 (memory_store_bijection last_addr demo_net 2 demo_pool demo_requests "d.org" (V4 0xC6120004)
    last_addr_documented ltac:(simpl; lia) demo_new) Hh).
Defined.

(** A store whose disk is full. *)
#[local] Instance full_disk : Store memoryStore.state | 100 := {|
  isCachefile := true;
  GetByHost := memoryStore.GetByHost;
  PutByHost s _ _ := s;
  PutMapping s _ _ := (s, Some "disk full");
  GetByIP := memoryStore.GetByIP;
  ExistIP := memoryStore.Exist;
  FlushStore s := (s, Some "disk full");
|}.

Lemma fakeip_failed_put_rolls_back_witness :
  let p' := (LookupWithError (H:=full_disk) demo_pool "a.org").1 in
  offset p' = V4 0xC6120003 ∧ cycle p' = false ∧ (Lookup_ (H:=full_disk) demo_pool "a.org").2 = NoAddr.
Proof.
  apply (fakeip_failed_put_rolls_back (H:=full_disk) demo_pool _ "a.org" "disk full"). vm_compute. reflexivity.
Defined.
