(* ===== verification/Metadata.v ===== *)
(** * [constant/metadata.go], [constant/dns.go], [constant/rule.go]: connection metadata and the enumerations of the rule engine. *)

From Stdlib Require Import ZArith Lia Ascii.
From stdpp Require Import base list strings numbers.
From S2P Require Import Prelude GoStrings GoNet GoNetText.
#[local] Open Scope string_scope.
#[local] Open Scope list_scope.
#[local] Open Scope Z_scope.

(** ** Enumerations *)

Inductive AddrType_t := AtypIPv4 | AtypDomainName | AtypIPv6.

Definition AddrType_String (a : AddrType_t) : string :=
  match a with AtypIPv4 => "IPv4" | AtypDomainName => "DomainName" | AtypIPv6 => "IPv6" end.

Inductive NetWork_t := TCP | UDP | ALLNet | InvalidNet.

Definition NetWork_String (n : NetWork_t) : string :=
  match n with TCP => "tcp" | UDP => "udp" | ALLNet => "all" | InvalidNet => "invalid" end.

Inductive Type_t :=
| HTTP | HTTPS | SOCKS4 | SOCKS5 | SHADOWSOCKS | SNELL | VMESS | VLESS | REDIR | TPROXY | TROJAN
| TUNNEL | TUN | TUIC | HYSTERIA2 | ANYTLS | MIERU | SUDOKU | TRUSTTUNNEL | SHADOWQUIC | INNER.

Definition Type_String (t : Type_t) : string :=
  match t with
  | HTTP => "HTTP" | HTTPS => "HTTPS" | SOCKS4 => "Socks4" | SOCKS5 => "Socks5"
  | SHADOWSOCKS => "ShadowSocks" | SNELL => "Snell" | VMESS => "Vmess" | VLESS => "Vless"
  | REDIR => "Redir" | TPROXY => "TProxy" | TROJAN => "Trojan" | TUNNEL => "Tunnel" | TUN => "Tun"
  | TUIC => "Tuic" | HYSTERIA2 => "Hysteria2" | ANYTLS => "AnyTLS" | MIERU => "Mieru"
  | SUDOKU => "Sudoku" | TRUSTTUNNEL => "TrustTunnel" | SHADOWQUIC => "ShadowQuic" | INNER => "Inner"
  end.

Definition ParseType (t : string) : option Type_t :=
  if decide (t = "HTTP") then Some HTTP
  else if decide (t = "HTTPS") then Some HTTPS
  else if decide (t = "SOCKS4") then Some SOCKS4
  else if decide (t = "SOCKS5") then Some SOCKS5
  else if decide (t = "SHADOWSOCKS") then Some SHADOWSOCKS
  else if decide (t = "SNELL") then Some SNELL
  else if decide (t = "VMESS") then Some VMESS
  else if decide (t = "VLESS") then Some VLESS
  else if decide (t = "REDIR") then Some REDIR
  else if decide (t = "TPROXY") then Some TPROXY
  else if decide (t = "TROJAN") then Some TROJAN
  else if decide (t = "TUNNEL") then Some TUNNEL
  else if decide (t = "TUN") then Some TUN
  else if decide (t = "TUIC") then Some TUIC
  else if decide (t = "HYSTERIA2") then Some HYSTERIA2
  else if decide (t = "ANYTLS") then Some ANYTLS
  else if decide (t = "MIERU") then Some MIERU
  else if decide (t = "SUDOKU") then Some SUDOKU
  else if decide (t = "TRUSTTUNNEL") then Some TRUSTTUNNEL
  else if decide (t = "SHADOWQUIC") then Some SHADOWQUIC
  else if decide (t = "INNER") then Some INNER
  else None.

Inductive DNSMode_t := DNSNormal | DNSFakeIP | DNSMapping | DNSHosts.

Definition DNSMode_String (e : DNSMode_t) : string :=
  match e with DNSNormal => "normal" | DNSFakeIP => "fake-ip" | DNSMapping => "redir-host" | DNSHosts => "hosts" end.

(** [DNSModeMapping] has no entry for [DNSHosts]. *)
Definition DNSMode_UnmarshalText `{UnicodeCase} (data : string) : option DNSMode_t :=
  let t := ToLower data in
  if decide (t = "normal") then Some DNSNormal
  else if decide (t = "fake-ip") then Some DNSFakeIP
  else if decide (t = "redir-host") then Some DNSMapping
  else None.

Inductive FilterMode_t := FilterBlackList | FilterWhiteList | FilterRule.

(** The rule types, in the name space of the package [constant]. *)
Module C.
Inductive RuleType :=
| Domain | DomainSuffix | DomainKeyword | DomainRegex | DomainWildcard | GEOSITE | GEOIP | SrcGEOIP
| IPASN | SrcIPASN | IPCIDR | SrcIPCIDR | IPSuffix | SrcIPSuffix | SrcPort | DstPort | InPort | DSCP
| InUser | InName | InType | ProcessName | ProcessPath | ProcessNameRegex | ProcessPathRegex
| ProcessNameWildcard | ProcessPathWildcard | RematchName | RuleSet | Network | Uid | SubRules
| MATCH | AND | OR | NOT.

Definition RuleType_String (rt : RuleType) : string :=
  match rt with
  | Domain => "Domain" | DomainSuffix => "DomainSuffix" | DomainKeyword => "DomainKeyword"
  | DomainRegex => "DomainRegex" | DomainWildcard => "DomainWildcard" | GEOSITE => "GeoSite"
  | GEOIP => "GeoIP" | SrcGEOIP => "SrcGeoIP" | IPASN => "IPASN" | SrcIPASN => "SrcIPASN"
  | IPCIDR => "IPCIDR" | SrcIPCIDR => "SrcIPCIDR" | IPSuffix => "IPSuffix" | SrcIPSuffix => "SrcIPSuffix"
  | SrcPort => "SrcPort" | DstPort => "DstPort" | InPort => "InPort" | InUser => "InUser"
  | InName => "InName" | InType => "InType" | ProcessName => "ProcessName" | ProcessPath => "ProcessPath"
  | ProcessNameRegex => "ProcessNameRegex" | ProcessPathRegex => "ProcessPathRegex"
  | ProcessNameWildcard => "ProcessNameWildcard" | ProcessPathWildcard => "ProcessPathWildcard"
  | RematchName => "RematchName" | MATCH => "Match" | RuleSet => "RuleSet" | Network => "Network"
  | DSCP => "DSCP" | Uid => "Uid" | SubRules => "SubRules" | AND => "AND" | OR => "OR" | NOT => "NOT"
  end.
End C.

#[export] Instance NetWork_eq_dec : EqDecision NetWork_t.
Proof. solve_decision. Defined.
#[export] Instance Type_eq_dec : EqDecision Type_t.
Proof. solve_decision. Defined.
#[export] Instance DNSMode_eq_dec : EqDecision DNSMode_t.
Proof. solve_decision. Defined.
#[export] Instance RuleType_eq_dec : EqDecision C.RuleType.
Proof. solve_decision. Defined.

(** ** Metadata *)

(** A [net.Addr]: what its optional methods [RawAddr], [AddrPort] and
    [AddrString] return ([None]: no such method, or a nil [RawAddr]), and its
    [String]. *)
Inductive NetAddr :=
| mkNetAddr (RawAddr : option NetAddr) (AddrPort_ : option (Addr * Z)) (AddrString_ : option string) (String_ : string).

(** A nil slice of country codes is [None]: never queried. *)
Record Metadata := mkMetadata {
  NetWork : NetWork_t;
  Type_ : Type_t;
  SrcIP : Addr;
  DstIP : Addr;
  SrcGeoIP : option (list string);
  DstGeoIP : option (list string);
  SrcIPASN : string;
  DstIPASN : string;
  SrcPort : Z;
  DstPort : Z;
  InIP : Addr;
  InPort : Z;
  InName : string;
  InUser : string;
  RematchName : string;
  Host : string;
  DNSMode : DNSMode_t;
  Uid : Z;
  Process : string;
  ProcessPath : string;
  SpecialProxy : string;
  SpecialRules : string;
  RemoteDst : string;
  DSCP : Z;
  RawSrcAddr : option NetAddr;
  RawDstAddr : option NetAddr;
  DontFragment : bool;
  SniffHost : string;
}.

Definition set_DstIP (m : Metadata) (ip : Addr) : Metadata :=
  mkMetadata
    (NetWork m) (Type_ m) (SrcIP m) ip (SrcGeoIP m) (DstGeoIP m) (SrcIPASN m) (DstIPASN m) (SrcPort m)
    (DstPort m) (InIP m) (InPort m) (InName m) (InUser m) (RematchName m) (Host m) (DNSMode m) (Uid m)
    (Process m) (ProcessPath m) (SpecialProxy m) (SpecialRules m) (RemoteDst m) (DSCP m) (RawSrcAddr m)
    (RawDstAddr m) (DontFragment m) (SniffHost m).
Definition set_DstPort (m : Metadata) (port : Z) : Metadata :=
  mkMetadata
    (NetWork m) (Type_ m) (SrcIP m) (DstIP m) (SrcGeoIP m) (DstGeoIP m) (SrcIPASN m) (DstIPASN m)
    (SrcPort m) port (InIP m) (InPort m) (InName m) (InUser m) (RematchName m) (Host m) (DNSMode m) (Uid m)
    (Process m) (ProcessPath m) (SpecialProxy m) (SpecialRules m) (RemoteDst m) (DSCP m) (RawSrcAddr m)
    (RawDstAddr m) (DontFragment m) (SniffHost m).
Definition set_Host (m : Metadata) (host : string) : Metadata :=
  mkMetadata
    (NetWork m) (Type_ m) (SrcIP m) (DstIP m) (SrcGeoIP m) (DstGeoIP m) (SrcIPASN m) (DstIPASN m)
    (SrcPort m) (DstPort m) (InIP m) (InPort m) (InName m) (InUser m) (RematchName m) host (DNSMode m)
    (Uid m) (Process m) (ProcessPath m) (SpecialProxy m) (SpecialRules m) (RemoteDst m) (DSCP m)
    (RawSrcAddr m) (RawDstAddr m) (DontFragment m) (SniffHost m).
Definition set_DNSMode (m : Metadata) (mode : DNSMode_t) : Metadata :=
  mkMetadata
    (NetWork m) (Type_ m) (SrcIP m) (DstIP m) (SrcGeoIP m) (DstGeoIP m) (SrcIPASN m) (DstIPASN m)
    (SrcPort m) (DstPort m) (InIP m) (InPort m) (InName m) (InUser m) (RematchName m) (Host m) mode (Uid m)
    (Process m) (ProcessPath m) (SpecialProxy m) (SpecialRules m) (RemoteDst m) (DSCP m) (RawSrcAddr m)
    (RawDstAddr m) (DontFragment m) (SniffHost m).
Definition set_GeoIP (m : Metadata) (src : option (list string)) (dst : option (list string)) : Metadata :=
  mkMetadata
    (NetWork m) (Type_ m) (SrcIP m) (DstIP m) src dst (SrcIPASN m) (DstIPASN m) (SrcPort m) (DstPort m)
    (InIP m) (InPort m) (InName m) (InUser m) (RematchName m) (Host m) (DNSMode m) (Uid m) (Process m)
    (ProcessPath m) (SpecialProxy m) (SpecialRules m) (RemoteDst m) (DSCP m) (RawSrcAddr m) (RawDstAddr m)
    (DontFragment m) (SniffHost m).
Definition set_IPASN (m : Metadata) (src : string) (dst : string) : Metadata :=
  mkMetadata
    (NetWork m) (Type_ m) (SrcIP m) (DstIP m) (SrcGeoIP m) (DstGeoIP m) src dst (SrcPort m) (DstPort m)
    (InIP m) (InPort m) (InName m) (InUser m) (RematchName m) (Host m) (DNSMode m) (Uid m) (Process m)
    (ProcessPath m) (SpecialProxy m) (SpecialRules m) (RemoteDst m) (DSCP m) (RawSrcAddr m) (RawDstAddr m)
    (DontFragment m) (SniffHost m).
Definition set_process (m : Metadata) (uid : Z) (name : string) (path : string) : Metadata :=
  mkMetadata
    (NetWork m) (Type_ m) (SrcIP m) (DstIP m) (SrcGeoIP m) (DstGeoIP m) (SrcIPASN m) (DstIPASN m)
    (SrcPort m) (DstPort m) (InIP m) (InPort m) (InName m) (InUser m) (RematchName m) (Host m) (DNSMode m)
    uid name path (SpecialProxy m) (SpecialRules m) (RemoteDst m) (DSCP m) (RawSrcAddr m) (RawDstAddr m)
    (DontFragment m) (SniffHost m).
Definition set_rematch (m : Metadata) (name : string) (rules : string) : Metadata :=
  mkMetadata
    (NetWork m) (Type_ m) (SrcIP m) (DstIP m) (SrcGeoIP m) (DstGeoIP m) (SrcIPASN m) (DstIPASN m)
    (SrcPort m) (DstPort m) (InIP m) (InPort m) (InName m) (InUser m) name (Host m) (DNSMode m) (Uid m)
    (Process m) (ProcessPath m) (SpecialProxy m) rules (RemoteDst m) (DSCP m) (RawSrcAddr m) (RawDstAddr m)
    (DontFragment m) (SniffHost m).
Definition set_sides (m : Metadata) (sip : Addr) (dip : Addr) (sport : Z) (dport : Z) (sasn : string) (dasn : string) (sgeo : option (list string)) (dgeo : option (list string)) : Metadata :=
  mkMetadata
    (NetWork m) (Type_ m) sip dip sgeo dgeo sasn dasn sport dport (InIP m) (InPort m) (InName m) (InUser m)
    (RematchName m) (Host m) (DNSMode m) (Uid m) (Process m) (ProcessPath m) (SpecialProxy m)
    (SpecialRules m) (RemoteDst m) (DSCP m) (RawSrcAddr m) (RawDstAddr m) (DontFragment m) (SniffHost m).

Definition empty_metadata : Metadata :=
  mkMetadata TCP HTTP NoAddr NoAddr None None "" "" 0 0 NoAddr 0 "" "" "" "" DNSNormal 0 "" "" "" "" "" 0
    None None false "".

Definition MihomoName : string := "mihomo".

Definition MetadataString (m : Metadata) : string :=
  if decide (Host m ≠ "") then Host m
  else if IsValid (DstIP m) then AddrString (DstIP m)
  else "<nil>".

Definition RemoteAddress (m : Metadata) : string := JoinHostPort (MetadataString m) (FormatUint (DstPort m)).
Definition SourceAddress (m : Metadata) : string := JoinHostPort (AddrString (SrcIP m)) (FormatUint (SrcPort m)).
Definition SourceAddrPort (m : Metadata) : Addr * Z := (Unmap (SrcIP m), SrcPort m).

Definition SourceDetail (m : Metadata) : string :=
  if decide (Type_ m = INNER) then MihomoName
  else if bool_decide (Process m ≠ "") && negb (Uid m =? 0)
  then SourceAddress m +:+ "(" +:+ Process m +:+ ", uid=" +:+ FormatUint (Uid m) +:+ ")"
  else if negb (Uid m =? 0) then SourceAddress m +:+ "(uid=" +:+ FormatUint (Uid m) +:+ ")"
  else if bool_decide (Process m ≠ "") then SourceAddress m +:+ "(" +:+ Process m +:+ ")"
  else SourceAddress m.

Definition SourceValid (m : Metadata) : bool := negb (SrcPort m =? 0) && IsValid (SrcIP m).

Definition AddrType (m : Metadata) : AddrType_t :=
  if bool_decide (Host m ≠ "") || negb (IsValid (DstIP m)) then AtypDomainName
  else if Is4 (DstIP m) then AtypIPv4
  else AtypIPv6.

Definition Resolved (m : Metadata) : bool := IsValid (DstIP m).
Definition RuleHost (m : Metadata) : string := if decide (SniffHost m = "") then Host m else SniffHost m.

Definition Pure (m : Metadata) : Metadata :=
  if (bool_decide (DNSMode m = DNSMapping) || bool_decide (DNSMode m = DNSHosts)) && IsValid (DstIP m)
  then set_Host m ""
  else m.

Definition AddrPort (m : Metadata) : Addr * Z := (Unmap (DstIP m), DstPort m).

Definition UDPAddr (m : Metadata) : option (Addr * Z) :=
  if negb (bool_decide (NetWork m = UDP)) || negb (IsValid (DstIP m)) then None else Some (AddrPort m).

Definition Valid (m : Metadata) : bool := bool_decide (Host m ≠ "") || IsValid (DstIP m).

Definition SetRemoteAddress (m : Metadata) (rawAddress : string) : Metadata * bool :=
  match SplitHostPort rawAddress with
  | None => (m, false)
  | Some (host, port) =>
      let uint16Port := match ParseUint port 16 with Some p => p | None => 0 end in
      let m := match ParseAddr host with
               | None => set_DstIP (set_Host m host) NoAddr
               | Some ip => set_DstIP (set_Host m "") (Unmap ip)
               end in
      (set_DstPort m uint16Port, true)
  end.

(** The flag says that no error was returned. *)
Fixpoint SetRemoteAddr (m : Metadata) (addr : NetAddr) : Metadata * bool :=
  match addr with
  | mkNetAddr raw ap fqdn str =>
      let '(m, ok) := match raw with Some r => SetRemoteAddr m r | None => (m, false) end in
      if ok then (m, true)
      else match ap with
           | Some (ip, port) =>
               if port =? 0 then SetRemoteAddress m str
               else
                 let m := set_DstPort m port in
                 if IsValid ip then (set_DstIP m (Unmap ip), true)
                 else match fqdn with
                      | Some host => (set_Host m host, true)
                      | None => SetRemoteAddress m str
                      end
           | None => SetRemoteAddress m str
           end
  end.

(** [SetRemoteAddr] of a possibly nil address. *)
Definition SetRemoteAddr_ (m : Metadata) (addr : option NetAddr) : Metadata * bool :=
  match addr with None => (m, true) | Some a => SetRemoteAddr m a end.

Definition SwapSrcDst (m : Metadata) : Metadata :=
  set_sides m (DstIP m) (SrcIP m) (DstPort m) (SrcPort m) (DstIPASN m) (SrcIPASN m) (DstGeoIP m) (SrcGeoIP m).

(** ** Lemmas *)

Lemma SwapSrcDst_involutive m : SwapSrcDst (SwapSrcDst m) = m.
Proof. by destruct m. Qed.

Lemma Unmap_not_4in6 a : addr_ok a → Is4In6 (Unmap a) = false.
Proof.
  intros Ha. destruct a as [|v|v z]; [done|done|]. unfold Unmap. by destruct (Is4In6 (V6 v z)) eqn:E.
Qed.

(** An accepted remote address leaves the metadata naming a destination in one
    way: by a host, or by an address that is not a mapped IPv4 address. *)
Lemma SetRemoteAddress_shape m raw m' :
  SetRemoteAddress m raw = (m', true) →
  (DstIP m' = NoAddr ∧ ParseAddr (Host m') = None) ∨ (Host m' = "" ∧ ∃ ip, DstIP m' = Unmap ip).
Proof.
  unfold SetRemoteAddress. destruct (SplitHostPort raw) as [[host port]|]; [|done].
  destruct (ParseAddr host) as [ip|] eqn:E; intros [= <-]; [right|left]; simpl; eauto.
Qed.
