(* ===== verification/Rules.v ===== *)
(** * [rules/common], [rules/logic], [rules/provider]: the rules and their matching.

    Each kind of rule is a module with the source's struct as a record [t], its
    constructor and its [Match].  A rule is a value of the sum type [Rule].
    Matching may change the metadata (a resolved address, the process of the
    connection, cached country codes), so [Match] passes a state: the metadata
    and the private state [H] of the closures in the [RuleMatchHelper].  Rule
    sets and sub-rules refer to rules by name; the names are looked up in the
    environment, so [Match] recurses on fuel. *)

From Stdlib Require Import ZArith Lia Ascii.
From stdpp Require Import base list strings numbers gmap.
From S2P Require Import Prelude GoStrings GoNet GoNetText Ranges Wildcard Metadata.
#[local] Open Scope string_scope.
#[local] Open Scope list_scope.
#[local] Open Scope Z_scope.

(** ** Code outside the modelled part *)

(** The regular expressions of [regexp2] (compiled ignoring case), the MMDB
    readers, the geodata files, and the operating system. *)
Class Externals := {
  RegexCompile : string → bool;
  RegexMatch : string → string → bool;
  GeodataMode : bool;
  InitGeoIP : bool;
  InitGeoSite : bool;
  InitASN : bool;
  LoadGeoIPMatcher : string → option (Addr → bool);
  LoadGeoSiteMatcher : string → option (string → bool);
  LookupCode : list Z → list string;
  LookupASN : list Z → string * string;
  uid_supported : bool;
}.

(** ** Matching *)

Section helper.
Context {H : Type}.

Record RuleMatchHelper := mkHelper {
  Diagnostic : bool;
  ResolveIP : option (Metadata * H → Metadata * H);
  FindProcess : option (Metadata * H → Metadata * H);
  CheckPassRule : option (Metadata * H → string → bool);
}.

Definition run_hook (f : option (Metadata * H → Metadata * H)) (s : Metadata * H) : Metadata * H :=
  match f with Some f => f s | None => s end.

Definition no_resolve (h : RuleMatchHelper) : RuleMatchHelper :=
  mkHelper (Diagnostic h) None (FindProcess h) (CheckPassRule h).

End helper.
Arguments RuleMatchHelper : clear implicits.

(** Rules that look at the destination address ask for it to be resolved first. *)
Definition with_ip {H} (noResolveIP isSourceIP : bool) (h : RuleMatchHelper H) (s : Metadata * H) : Metadata * H :=
  if negb noResolveIP && negb isSourceIP then run_hook (ResolveIP h) s else s.

Definition side_ip (isSourceIP : bool) (m : Metadata) : Addr := if isSourceIP then SrcIP m else DstIP m.

(** [strings.Split(x, "/")] with every item trimmed and none empty. *)
Fixpoint trimmed_items (l : list string) : option (list string) :=
  match l with
  | [] => Some []
  | x :: l =>
      let x := TrimSpace x in
      if decide (x = "") then None
      else match trimmed_items l with Some l => Some (x :: l) | None => None end
  end.

(** ** The basic rules *)

Definition errPayload : string := "payloadRule error".

Module Domain.
Record t := mk { domain : string; adapter : string }.
Definition Match (d : t) (m : Metadata) : bool * string := (bool_decide (RuleHost m = domain d), adapter d).
Definition NewDomain `{UnicodeCase} (domain adapter : string) : t := mk (ToLower domain) adapter.
End Domain.

Module DomainKeyword.
Record t := mk { keyword : string; adapter : string }.
Definition Match (dk : t) (m : Metadata) : bool * string := (GoStrings.Contains (RuleHost m) (keyword dk), adapter dk).
Definition NewDomainKeyword `{UnicodeCase} (keyword adapter : string) : t := mk (ToLower keyword) adapter.
End DomainKeyword.

Module DomainSuffix.
Record t := mk { suffix : string; adapter : string }.
Definition Match (ds : t) (m : Metadata) : bool * string :=
  let domain := RuleHost m in
  (HasSuffix domain ("." +:+ suffix ds) || bool_decide (domain = suffix ds), adapter ds).
Definition NewDomainSuffix `{UnicodeCase} (suffix adapter : string) : t := mk (ToLower suffix) adapter.
End DomainSuffix.

Module DomainRegex.
Record t := mk { regex : string; adapter : string }.
Definition Match `{Externals} (dr : t) (m : Metadata) : bool * string := (RegexMatch (regex dr) (RuleHost m), adapter dr).
Definition NewDomainRegex `{Externals} (regex adapter : string) : result string t :=
  if RegexCompile regex then Ok (mk regex adapter) else Err "regexp2 error".
End DomainRegex.

Module DomainWildcard.
Record t := mk { pattern : string; adapter : string }.
Definition Match (dw : t) (m : Metadata) : bool * string :=
  (default false (Wildcard.Match (pattern dw) (RuleHost m)), adapter dw).
Definition NewDomainWildcard `{UnicodeCase} (pattern adapter : string) : result string t := Ok (mk (ToLower pattern) adapter).
End DomainWildcard.

Module Port.
Record t := mk { adapter : string; port : string; ruleType : C.RuleType; portRanges : IntRanges }.
Definition Match (p : t) (m : Metadata) : bool * string :=
  let targetPort := match ruleType p with
                    | C.InPort => InPort m
                    | C.SrcPort => SrcPort m
                    | _ => DstPort m
                    end in
  (Check_ (portRanges p) targetPort, adapter p).
Definition NewPort (port adapter : string) (ruleType : C.RuleType) : result string t :=
  match NewUnsignedRanges uint16 port with
  | Err _ => Err errPayload
  | Ok portRanges => if decide (portRanges = []) then Err errPayload else Ok (mk adapter port ruleType portRanges)
  end.
End Port.

Module DSCP.
Record t := mk { ranges : IntRanges; payload : string; adapter : string }.
Definition Match (d : t) (m : Metadata) : bool * string := (Check_ (ranges d) (DSCP m), adapter d).
Definition NewDSCP (dscp adapter : string) : result string t :=
  match NewUnsignedRanges uint8 dscp with
  | Err _ => Err "parse DSCP rule fail"
  | Ok ranges => if existsb (λ r, 63 <? End_ r) ranges then Err "DSCP couldn't be negative or exceed 63"
                 else Ok (mk ranges dscp adapter)
  end.
End DSCP.

Module Uid.
Record t := mk { uids : IntRanges; oUid : string; adapter : string }.
Definition NewUid `{Externals} (oUid adapter : string) : result string t :=
  if negb uid_supported then Err "uid rule not support this platform"
  else match NewUnsignedRanges uint32 oUid with
       | Err _ => Err errPayload
       | Ok uidRange => if decide (uidRange = []) then Err errPayload else Ok (mk uidRange oUid adapter)
       end.
Definition Match {H} (u : t) (h : RuleMatchHelper H) (s : Metadata * H) : Metadata * H * (bool * string) :=
  let s := run_hook (FindProcess h) s in
  if negb (Uid s.1 =? 0) && Check_ (uids u) (Uid s.1) then (s, (true, adapter u)) else (s, (false, "")).
End Uid.

Module NetworkType.
Record t := mk { network : NetWork_t; adapter : string }.
Definition NewNetworkType `{UnicodeCase} (network adapter : string) : result string t :=
  if decide (ToUpper network = "TCP") then Ok (mk TCP adapter)
  else if decide (ToUpper network = "UDP") then Ok (mk UDP adapter)
  else Err "unsupported network type, only TCP/UDP".
Definition Match (n : t) (m : Metadata) : bool * string := (bool_decide (network n = NetWork m), adapter n).
Definition Payload (n : t) : string := NetWork_String (network n).
End NetworkType.

Module InName.
Record t := mk { names : list string; adapter : string; payload : string }.
Definition Match (u : t) (m : Metadata) : bool * string :=
  if bool_decide (InName m ∈ names u) then (true, adapter u) else (false, "").
Definition NewInName (iNames adapter : string) : result string t :=
  match trimmed_items (Split iNames "/") with
  | None => Err "in name couldn't be empty"
  | Some names => Ok (mk names adapter iNames)
  end.
End InName.

Module InUser.
Record t := mk { users : list string; adapter : string; payload : string }.
Definition Match (u : t) (m : Metadata) : bool * string :=
  if bool_decide (InUser m ∈ users u) then (true, adapter u) else (false, "").
Definition NewInUser (iUsers adapter : string) : result string t :=
  match trimmed_items (Split iUsers "/") with
  | None => Err "in user couldn't be empty"
  | Some users => Ok (mk users adapter iUsers)
  end.
End InUser.

Module RematchName.
Record t := mk { names : list string; adapter : string; payload : string }.
Definition Match (u : t) (m : Metadata) : bool * string :=
  if bool_decide (RematchName m ∈ names u) then (true, adapter u) else (false, "").
Definition NewRematchName (iNames adapter : string) : result string t :=
  match trimmed_items (Split iNames "/") with
  | None => Err "rematch name couldn't be empty"
  | Some names => Ok (mk names adapter iNames)
  end.
End RematchName.

Module InType.
Record t := mk { types : list Type_t; adapter : string; payload : string }.
Definition Match (u : t) (m : Metadata) : bool * string :=
  if bool_decide (Type_ m ∈ types u) then (true, adapter u) else (false, "").
Fixpoint parseInTypes `{UnicodeCase} (tps : list string) : result string (list Type_t) :=
  match tps with
  | [] => Ok []
  | tp :: tps =>
      let utp := ToUpper tp in
      let! r := (if decide (utp = "SOCKS") then Ok [SOCKS4; SOCKS5]
                 else match ParseType utp with
                      | Some t => Ok [t]
                      | None => Err ("unknown type: " +:+ utp)
                      end) in
      let! res := parseInTypes tps in
      Ok (r ++ res)
  end.
Definition NewInType `{UnicodeCase} (iTypes adapter : string) : result string t :=
  match trimmed_items (Split iTypes "/") with
  | None => Err "in type couldn't be empty"
  | Some types => let! tps := parseInTypes types in Ok (mk tps adapter (ToUpper iTypes))
  end.
End InType.

Module Match_.
Record t := mk { adapter : string }.
Definition Match (f : t) (m : Metadata) : bool * string := (true, adapter f).
Definition NewMatch (adapter : string) : t := mk adapter.
End Match_.

(** ** Rules on addresses *)

Module IPCIDR.
Record t := mk { ipnet : Prefix; adapter : string; isSourceIP : bool; noResolveIP : bool }.
Definition RuleType (i : t) : C.RuleType := if isSourceIP i then C.SrcIPCIDR else C.IPCIDR.
Definition Match {H} (i : t) (h : RuleMatchHelper H) (s : Metadata * H) : Metadata * H * (bool * string) :=
  let s := with_ip (noResolveIP i) (isSourceIP i) h s in
  let ip := side_ip (isSourceIP i) s.1 in
  (s, (IsValid ip && prefix_contains (ipnet i) (WithoutZone ip), adapter i)).
Definition NewIPCIDR (s adapter : string) (isSourceIP noResolveIP : bool) : result string t :=
  match ParsePrefix s with
  | None => Err errPayload
  | Some ipnet => Ok (mk ipnet adapter isSourceIP noResolveIP)
  end.
Definition Payload (i : t) : string := PrefixString (ipnet i).
End IPCIDR.

Module IPSuffix.
Record t := mk { ipBytes : list Z; bits : Z; payload : string; adapter : string; isSourceIP : bool; noResolveIP : bool }.
Definition RuleType (i : t) : C.RuleType := if isSourceIP i then C.SrcIPSuffix else C.IPSuffix.
Definition byte_at (l : list Z) (i : Z) : Z := nth (Z.to_nat i) l 0.
(** The loop over the whole bytes, from [i] down to 1. *)
Fixpoint same_bytes (a b : list Z) (size : Z) (i : nat) : bool :=
  match i with
  | O => true
  | S i' => (byte_at a (size - Z.of_nat i) =? byte_at b (size - Z.of_nat i)) && same_bytes a b size i'
  end.
Definition matchIP (is_ : t) (ip : Addr) : bool :=
  let mIPBytes := AsSlice ip in
  let size := Z.of_nat (length mIPBytes) in
  let bits := bits is_ in
  let shl b := wrap 8 (Z.shiftl b (8 - bits mod 8)) in
  (length (ipBytes is_) =? length mIPBytes)%nat &&
  same_bytes (ipBytes is_) mIPBytes size (Z.to_nat (bits / 8)) &&
  negb (negb (bits mod 8 =? 0) &&
        negb (shl (byte_at (ipBytes is_) (size - bits / 8 - 1)) =? shl (byte_at mIPBytes (size - bits / 8 - 1)))).
Definition Match {H} (i : t) (h : RuleMatchHelper H) (s : Metadata * H) : Metadata * H * (bool * string) :=
  let s := with_ip (noResolveIP i) (isSourceIP i) h s in
  if matchIP i (side_ip (isSourceIP i) s.1) then (s, (true, adapter i)) else (s, (false, "")).
Definition NewIPSuffix (payload adapter : string) (isSrc noResolveIP : bool) : result string t :=
  match ParsePrefix payload with
  | None => Err errPayload
  | Some ipnet => Ok (mk (AsSlice (paddr ipnet)) (pbits ipnet) payload adapter isSrc noResolveIP)
  end.
End IPSuffix.

Module ASN.
Record t := mk { asn : string; adapter : string; noResolveIP : bool; isSourceIP : bool }.
Definition RuleType (a : t) : C.RuleType := if isSourceIP a then C.SrcIPASN else C.IPASN.
Definition lookup `{Externals} {H} (a : t) (s : Metadata * H) : Metadata * H * (bool * string) :=
  let ip := side_ip (isSourceIP a) s.1 in
  if negb (IsValid ip) then (s, (false, ""))
  else
    let '(n, o) := LookupASN (AsSlice ip) in
    let text := n +:+ " " +:+ o in
    let m := if isSourceIP a then set_IPASN s.1 text (DstIPASN s.1) else set_IPASN s.1 (SrcIPASN s.1) text in
    ((m, s.2), (bool_decide (asn a = n), adapter a)).
Definition Match `{Externals} {H} (a : t) (h : RuleMatchHelper H) (s : Metadata * H) : Metadata * H * (bool * string) :=
  lookup a (with_ip (noResolveIP a) (isSourceIP a) h s).
Definition NewIPASN `{Externals} (asn adapter : string) (isSrc noResolveIP : bool) : result string t :=
  if InitASN then Ok (mk asn adapter noResolveIP isSrc) else Err "can't initial ASN".
End ASN.

Module GEOIP.
Record t := mk { country : string; adapter : string; noResolveIP : bool; isSourceIP : bool }.
Definition RuleType (g : t) : C.RuleType := if isSourceIP g then C.SrcGEOIP else C.GEOIP.
Definition isLan (ip : Addr) : bool :=
  IsPrivate ip || IsUnspecified ip || IsLoopback ip || IsMulticast ip || IsLinkLocalUnicast ip.
Definition getIPMatcher `{Externals} (g : t) : option (Addr → bool) := LoadGeoIPMatcher (country g).
(** The country codes cached in the metadata for the side of the rule. *)
Definition codes (g : t) (m : Metadata) : option (list string) := if isSourceIP g then SrcGeoIP m else DstGeoIP m.
Definition set_codes (g : t) (m : Metadata) (c : option (list string)) : Metadata :=
  if isSourceIP g then set_GeoIP m c (DstGeoIP m) else set_GeoIP m (SrcGeoIP m) c.
Definition contains (c : list string) (x : string) : bool := bool_decide (x ∈ c).
Definition lookup `{Externals} {H} (g : t) (s : Metadata * H) : Metadata * H * (bool * string) :=
  let m := s.1 in
  let ip := side_ip (isSourceIP g) m in
  if negb (IsValid ip) then (s, (false, ""))
  else if decide (country g = "lan") then (s, (isLan ip, adapter g))
  else if GeodataMode then
    if contains (default [] (codes g m)) (country g) then (s, (true, adapter g))
    else match getIPMatcher g with
         | None => (s, (false, ""))
         | Some matcher =>
             if matcher ip
             then ((set_codes g m (Some (default [] (codes g m) ++ [country g])), s.2), (true, adapter g))
             else (s, (false, adapter g))
         end
  else match codes g m with
       | Some c => (s, (contains c (country g), adapter g))
       | None =>
           let c := LookupCode (AsSlice ip) in
           let s := (set_codes g m (Some c), s.2) in
           if contains c (country g) then (s, (true, adapter g)) else (s, (false, ""))
       end.
Definition Match `{Externals} {H} (g : t) (h : RuleMatchHelper H) (s : Metadata * H) : Metadata * H * (bool * string) :=
  lookup g (with_ip (noResolveIP g) (isSourceIP g) h s).
Definition MatchIp `{Externals} (g : t) (ip : Addr) : bool :=
  if negb (IsValid ip) then false
  else if decide (country g = "lan") then isLan ip
  else if GeodataMode then match getIPMatcher g with None => false | Some matcher => matcher ip end
  else contains (LookupCode (AsSlice ip)) (country g).
(** [dnsFallbackFilter.MatchIp]. *)
Definition FallbackMatchIp `{Externals} (g : t) (ip : Addr) : bool :=
  if negb (IsValid ip) then false
  else if isLan ip then false
  else if decide (country g = "lan") then negb (isLan ip)
  else if GeodataMode then match getIPMatcher g with None => false | Some matcher => negb (matcher ip) end
  else negb (contains (LookupCode (AsSlice ip)) (country g)).
Definition NewGEOIP `{UnicodeCase} `{Externals} (country adapter : string) (isSrc noResolveIP : bool) : result string t :=
  let geoip := mk (ToLower country) adapter noResolveIP isSrc in
  if decide (ToLower country = "lan") then Ok geoip
  else if negb InitGeoIP then Err "can't initial GeoIP"
  else if GeodataMode then match getIPMatcher geoip with None => Err "[GeoIP]" | Some _ => Ok geoip end
  else Ok geoip.
End GEOIP.

Module GEOSITE.
Record t := mk { country : string; adapter : string }.
Definition MatchDomain `{Externals} (gs : t) (domain : string) : bool :=
  if decide (domain = "") then false
  else match LoadGeoSiteMatcher (country gs) with None => false | Some ApplyDomain => ApplyDomain domain end.
Definition Match `{Externals} (gs : t) (m : Metadata) : bool * string := (MatchDomain gs (RuleHost m), adapter gs).
Definition NewGEOSITE `{Externals} (country adapter : string) : result string t :=
  if negb InitGeoSite then Err "can't initial GeoSite"
  else match LoadGeoSiteMatcher country with
       | None => Err "load GeoSite data error"
       | Some _ => Ok (mk country adapter)
       end.
End GEOSITE.

(** ** Rules on processes *)

(** [filepath.Base] where the separator is a slash. *)
Definition FilepathBase (path : string) : string :=
  if decide (path = "") then "."
  else match trim_right (λ c, Ascii.eqb c "/"%char) path with
       | EmptyString => "/"
       | p => List.last (Split p "/") ""
       end.

Module Process.
Record t := mk { pattern : string; adapter : string; ruleType : C.RuleType }.
(** Rules on the name of the process, as opposed to its path. *)
Definition by_name (ps : t) : bool :=
  match ruleType ps with C.ProcessName | C.ProcessNameRegex | C.ProcessNameWildcard => true | _ => false end.
Definition matchTarget `{UnicodeCase} `{Externals} (ps : t) (target : string) : bool :=
  match ruleType ps with
  | C.ProcessNameRegex | C.ProcessPathRegex => RegexMatch (pattern ps) target
  | C.ProcessNameWildcard | C.ProcessPathWildcard =>
      default false (Wildcard.Match (ToLower (pattern ps)) (ToLower target))
  | _ => EqualFold target (pattern ps)
  end.
Definition Match `{UnicodeCase} `{Externals} {H} (ps : t) (h : RuleMatchHelper H) (s : Metadata * H)
    : Metadata * H * (bool * string) :=
  let s := run_hook (FindProcess h) s in
  let target := if by_name ps then Process s.1 else ProcessPath s.1 in
  (s, (matchTarget ps target, adapter ps)).
Definition MatchProcess `{UnicodeCase} `{Externals} (ps : t) (processPath : string) : bool :=
  matchTarget ps (if by_name ps then FilepathBase processPath else processPath).
Definition MatchProcessName `{UnicodeCase} `{Externals} (ps : t) (name : string) : bool :=
  if by_name ps then matchTarget ps name else true.
Definition NewProcess `{Externals} (pattern adapter : string) (ruleType : C.RuleType) : result string t :=
  match ruleType with
  | C.ProcessNameRegex | C.ProcessPathRegex =>
      if RegexCompile pattern then Ok (mk pattern adapter ruleType) else Err "regexp2 error"
  | _ => Ok (mk pattern adapter ruleType)
  end.
End Process.

(** ** The sum of all rules *)

(** [RLogic] is the struct [Logic]; its map of sub-rules is the one of the
    environment, which every sub-rule of a configuration shares. *)
Inductive Rule :=
| RDomain (r : Domain.t)
| RDomainKeyword (r : DomainKeyword.t)
| RDomainSuffix (r : DomainSuffix.t)
| RDomainRegex (r : DomainRegex.t)
| RDomainWildcard (r : DomainWildcard.t)
| RGEOSITE (r : GEOSITE.t)
| RGEOIP (r : GEOIP.t)
| RIPASN (r : ASN.t)
| RIPCIDR (r : IPCIDR.t)
| RIPSuffix (r : IPSuffix.t)
| RPort (r : Port.t)
| RDSCP (r : DSCP.t)
| RProcess (r : Process.t)
| RNetwork (r : NetworkType.t)
| RUid (r : Uid.t)
| RInType (r : InType.t)
| RInUser (r : InUser.t)
| RInName (r : InName.t)
| RRematchName (r : RematchName.t)
| RMatch (r : Match_.t)
| RRuleSet (ruleProviderName adapter : string) (isSrc noResolveIP : bool)
| RLogic (ruleType : C.RuleType) (payload adapter : string) (rules : list Rule).

(** The strategy of a rule provider: classical rules, a set of prefixes, a set
    of domains ([None]: no set loaded). *)
Inductive Strategy :=
| SClassical (rules : list Rule)
| SIPCIDR (cidrSet : option (Addr → bool))
| SDomain (domainSet : option (string → bool)).

Record RuleEnv := mkEnv {
  subRules : gmap string (list Rule);
  RuleProviders : gmap string Strategy;
}.

Definition RuleType (r : Rule) : C.RuleType :=
  match r with
  | RDomain _ => C.Domain | RDomainKeyword _ => C.DomainKeyword | RDomainSuffix _ => C.DomainSuffix
  | RDomainRegex _ => C.DomainRegex | RDomainWildcard _ => C.DomainWildcard | RGEOSITE _ => C.GEOSITE
  | RGEOIP r => GEOIP.RuleType r | RIPASN r => ASN.RuleType r | RIPCIDR r => IPCIDR.RuleType r
  | RIPSuffix r => IPSuffix.RuleType r | RPort r => Port.ruleType r | RDSCP _ => C.DSCP
  | RProcess r => Process.ruleType r | RNetwork _ => C.Network | RUid _ => C.Uid | RInType _ => C.InType
  | RInUser _ => C.InUser | RInName _ => C.InName | RRematchName _ => C.RematchName | RMatch _ => C.MATCH
  | RRuleSet _ _ _ _ => C.RuleSet | RLogic t _ _ _ => t
  end.

Definition Adapter (r : Rule) : string :=
  match r with
  | RDomain r => Domain.adapter r | RDomainKeyword r => DomainKeyword.adapter r
  | RDomainSuffix r => DomainSuffix.adapter r | RDomainRegex r => DomainRegex.adapter r
  | RDomainWildcard r => DomainWildcard.adapter r | RGEOSITE r => GEOSITE.adapter r
  | RGEOIP r => GEOIP.adapter r | RIPASN r => ASN.adapter r | RIPCIDR r => IPCIDR.adapter r
  | RIPSuffix r => IPSuffix.adapter r | RPort r => Port.adapter r | RDSCP r => DSCP.adapter r
  | RProcess r => Process.adapter r | RNetwork r => NetworkType.adapter r | RUid r => Uid.adapter r
  | RInType r => InType.adapter r | RInUser r => InUser.adapter r | RInName r => InName.adapter r
  | RRematchName r => RematchName.adapter r | RMatch r => Match_.adapter r
  | RRuleSet _ a _ _ => a | RLogic _ _ a _ => a
  end.

(** The text shown for a rule; that of AND, OR and NOT is made from their parts. *)
Fixpoint Payload (r : Rule) : string :=
  match r with
  | RDomain r => Domain.domain r | RDomainKeyword r => DomainKeyword.keyword r
  | RDomainSuffix r => DomainSuffix.suffix r | RDomainRegex r => DomainRegex.regex r
  | RDomainWildcard r => DomainWildcard.pattern r | RGEOSITE r => GEOSITE.country r
  | RGEOIP r => GEOIP.country r | RIPASN r => ASN.asn r | RIPCIDR r => IPCIDR.Payload r
  | RIPSuffix r => IPSuffix.payload r | RPort r => Port.port r | RDSCP r => DSCP.payload r
  | RProcess r => Process.pattern r | RNetwork r => NetworkType.Payload r | RUid r => Uid.oUid r
  | RInType r => InType.payload r | RInUser r => InUser.payload r | RInName r => InName.payload r
  | RRematchName r => RematchName.payload r | RMatch _ => ""
  | RRuleSet n _ _ _ => n
  | RLogic t p _ rules =>
      let part r := "(" +:+ C.RuleType_String (RuleType r) +:+ "," +:+ Payload r +:+ ")" in
      match t with
      | C.NOT => match rules with r :: _ => "(!" +:+ part r +:+ ")" | [] => p end
      | C.OR => "(" +:+ Join (List.map part rules) " || " +:+ ")"
      | C.AND => "(" +:+ Join (List.map part rules) " && " +:+ ")"
      | _ => p
      end
  end.

Fixpoint ProviderNames (r : Rule) : list string :=
  match r with
  | RRuleSet n _ _ _ => [n]
  | RLogic _ _ _ rules => List.concat (List.map ProviderNames rules)
  | _ => []
  end.

(** ** Matching a rule *)

Section matching.
Context `{UC : UnicodeCase} `{EX : Externals} {H : Type} (env : RuleEnv).
Implicit Types (h : RuleMatchHelper H) (s : Metadata * H).

(** The first rule of a list that matches (OR, classical rule sets). *)
Fixpoint any_match (M : Rule → Metadata * H → option (Metadata * H * (bool * string))) (rules : list Rule) s
    : option (Metadata * H * bool) :=
  match rules with
  | [] => Some (s, false)
  | r :: rules => match M r s with
                  | None => None
                  | Some (s, (true, _)) => Some (s, true)
                  | Some (s, (false, _)) => any_match M rules s
                  end
  end.

(** All rules of a list match (AND). *)
Fixpoint all_match (M : Rule → Metadata * H → option (Metadata * H * (bool * string))) (rules : list Rule) s
    : option (Metadata * H * bool) :=
  match rules with
  | [] => Some (s, true)
  | r :: rules => match M r s with
                  | None => None
                  | Some (s, (true, _)) => all_match M rules s
                  | Some (s, (false, _)) => Some (s, false)
                  end
  end.

Definition is_pass_rule h s (a : string) : bool :=
  bool_decide (a = "PASS-RULE") || match CheckPassRule h with Some f => f s a | None => false end.

(** The loop of [matchSubRules] over the rules of one name: a rule of type
    SUB-RULE that matches is followed by matching its target once more. *)
Fixpoint sub_loop (M : Rule → Metadata * H → option (Metadata * H * (bool * string)))
    (Sub : string → Metadata * H → option (Metadata * H * (bool * string))) h (rules : list Rule) s
    : option (Metadata * H * (bool * string)) :=
  match rules with
  | [] => Some (s, (false, ""))
  | r :: rules =>
      match M r s with
      | None => None
      | Some (s, (false, _)) => sub_loop M Sub h rules s
      | Some (s, (true, a)) =>
          match (if decide (RuleType r = C.SubRules) then Sub (Adapter r) s else Some (s, (true, a))) with
          | None => None
          | Some (s, (m, a)) => if m && is_pass_rule h s a then sub_loop M Sub h rules s else Some (s, (m, a))
          end
      end
  end.

(** [Strategy.Match] of a rule provider. *)
Definition strategy_match (M : Rule → Metadata * H → option (Metadata * H * (bool * string))) (st : Strategy) h s
    : option (Metadata * H * bool) :=
  match st with
  | SClassical rules => any_match M rules s
  | SIPCIDR set =>
      let s := run_hook (ResolveIP h) s in
      Some (s, match set with Some f => f (DstIP s.1) | None => false end)
  | SDomain set => Some (s, match set with Some f => f (RuleHost s.1) | None => false end)
  end.

Definition swap_state s : Metadata * H := (SwapSrcDst s.1, s.2).

Definition pure s (r : Metadata → bool * string) : option (Metadata * H * (bool * string)) := Some (s, r s.1).

#[local] Abbreviation matcher := (Rule → Metadata * H → option (Metadata * H * (bool * string))).
#[local] Abbreviation submatcher := (string → Metadata * H → option (Metadata * H * (bool * string))).

(** [RuleSet.Match], given how to match a rule: in source mode the two sides
    of the connection are swapped while the provider is asked. *)
Definition RuleSet_Match (M : RuleMatchHelper H → matcher) h (name adapter : string) (isSrc noResolveIP : bool) s
    : option (Metadata * H * (bool * string)) :=
  match RuleProviders env !! name with
  | None => Some (s, (false, ""))
  | Some st =>
      let h := if isSrc || noResolveIP then no_resolve h else h in
      let swap := if isSrc then swap_state else id in
      match strategy_match (M h) st h (swap s) with
      | None => None
      | Some (s, m) => Some (swap s, (m, adapter))
      end
  end.

(** [Logic.Match]; SUB-RULE and NOT have exactly one rule (their constructors
    check it). *)
Definition Logic_Match (M : matcher) (Sub : submatcher) (t : C.RuleType) (adapter : string) (rules : list Rule) s
    : option (Metadata * H * (bool * string)) :=
  match t, rules with
  | C.SubRules, r :: _ =>
      match M r s with
      | None => None
      | Some (s, (true, _)) => Sub adapter s
      | Some (s, (false, _)) => Some (s, (false, ""))
      end
  | C.NOT, r :: _ =>
      match M r s with
      | None => None
      | Some (s, (m, _)) => Some (s, if m then (false, "") else (true, adapter))
      end
  | C.OR, _ =>
      match any_match M rules s with
      | None => None
      | Some (s, m) => Some (s, if m then (true, adapter) else (false, ""))
      end
  | C.AND, _ =>
      match all_match M rules s with
      | None => None
      | Some (s, m) => Some (s, (m, adapter))
      end
  | _, _ => Some (s, (false, ""))
  end.

(** [Rule.Match], given how to match the rules and sub-rules it refers to. *)
Definition Match_body (M : RuleMatchHelper H → matcher) (Sub : RuleMatchHelper H → submatcher) h (r : Rule) s
    : option (Metadata * H * (bool * string)) :=
  match r with
  | RDomain r => pure s (Domain.Match r)
  | RDomainKeyword r => pure s (DomainKeyword.Match r)
  | RDomainSuffix r => pure s (DomainSuffix.Match r)
  | RDomainRegex r => pure s (DomainRegex.Match r)
  | RDomainWildcard r => pure s (DomainWildcard.Match r)
  | RGEOSITE r => pure s (GEOSITE.Match r)
  | RGEOIP r => Some (GEOIP.Match r h s)
  | RIPASN r => Some (ASN.Match r h s)
  | RIPCIDR r => Some (IPCIDR.Match r h s)
  | RIPSuffix r => Some (IPSuffix.Match r h s)
  | RPort r => pure s (Port.Match r)
  | RDSCP r => pure s (DSCP.Match r)
  | RProcess r => Some (Process.Match r h s)
  | RNetwork r => pure s (NetworkType.Match r)
  | RUid r => Some (Uid.Match r h s)
  | RInType r => pure s (InType.Match r)
  | RInUser r => pure s (InUser.Match r)
  | RInName r => pure s (InName.Match r)
  | RRematchName r => pure s (RematchName.Match r)
  | RMatch r => pure s (Match_.Match r)
  | RRuleSet name adapter isSrc noResolveIP => RuleSet_Match M h name adapter isSrc noResolveIP s
  | RLogic t _ adapter rules => Logic_Match (M h) (Sub h) t adapter rules s
  end.

Fixpoint Match (fuel : nat) h (r : Rule) s {struct fuel} : option (Metadata * H * (bool * string)) :=
  match fuel with
  | O => None
  | S fuel => Match_body (Match fuel) (matchSubRules fuel) h r s
  end
with matchSubRules (fuel : nat) h (name : string) s {struct fuel} : option (Metadata * H * (bool * string)) :=
  match fuel with
  | O => None
  | S fuel => sub_loop (Match fuel h) (matchSubRules fuel h) h (default [] (subRules env !! name)) s
  end.

End matching.

(** ** Checking the sub-rules of a configuration *)

Inductive verify_error :=
| NotFound (i : nat) (n adapter : string)
| CircularReferences (chain : list string).

(** The loop over the rules of one name; [Sub] checks the target of a SUB-RULE. *)
Fixpoint verify_loop (subRules : gmap string (list Rule)) (Sub : string → option (result verify_error unit))
    (n : string) (arr : list string) (i : nat) (rules : list Rule) : option (result verify_error unit) :=
  match rules with
  | [] => Some (Ok tt)
  | r :: rules =>
      if decide (RuleType r = C.SubRules) then
        match subRules !! Adapter r with
        | None => Some (Err (NotFound i n (Adapter r)))
        | Some _ =>
            if decide (Adapter r ∈ arr) then Some (Err (CircularReferences (arr ++ [Adapter r])))
            else match Sub (Adapter r) with
                 | Some (Ok _) => verify_loop subRules Sub n arr (S i) rules
                 | r => r
                 end
        end
      else verify_loop subRules Sub n arr (S i) rules
  end.

Fixpoint verifySubRuleCircularReferences (fuel : nat) (subRules : gmap string (list Rule)) (n : string) (arr : list string)
    : option (result verify_error unit) :=
  match fuel with
  | O => None
  | S fuel =>
      let arr := arr ++ [n] in
      verify_loop subRules (λ n', verifySubRuleCircularReferences fuel subRules n' arr) n arr 0
        (default [] (subRules !! n))
  end.

(** The names in any order; the first error is returned. *)
Fixpoint verify_names (fuel : nat) (subRules : gmap string (list Rule)) (names : list string)
    : option (result verify_error unit) :=
  match names with
  | [] => Some (Ok tt)
  | n :: names => match verifySubRuleCircularReferences fuel subRules n [] with
                  | Some (Ok _) => verify_names fuel subRules names
                  | r => r
                  end
  end.

(** A chain of names without repetition is not longer than the map. *)
Definition verifySubRule (subRules : gmap string (list Rule)) : option (result verify_error unit) :=
  verify_names (S (size subRules)) subRules (map_to_list subRules).*1.
