(* ===== verification/RulesTheory.v ===== *)
(** * Theory of rule matching: fuel, termination, sub-rules, what matching may change. *)

From Stdlib Require Import ZArith Lia Ascii.
From stdpp Require Import base list strings numbers gmap.
From S2P Require Import Prelude GoStrings GoNet GoNetText Ranges Metadata Rules.
#[local] Open Scope string_scope.
#[local] Open Scope list_scope.
#[local] Open Scope Z_scope.

(** ** Induction on rules, through the rules of a logic rule *)

Section rule_induction.
Variable P : Rule → Prop.
Hypothesis leaf : ∀ r, (∀ t p a rules, r ≠ RLogic t p a rules) → P r.
Hypothesis node : ∀ t p a rules, Forall P rules → P (RLogic t p a rules).

Fixpoint Rule_induction (r : Rule) : P r.
Proof.
  destruct r as [| | | | | | | | | | | | | | | | | | | | |t p a rules]; try (apply leaf; discriminate).
  apply node. induction rules as [|r rules IH]; constructor; [apply Rule_induction|exact IH].
Defined.

End rule_induction.

(** ** More fuel gives the same answer *)

Section fuel.
Context `{UC : UnicodeCase} `{EX : Externals} {H : Type} (env : RuleEnv).
Implicit Types (h : RuleMatchHelper H) (s : Metadata * H).
#[local] Abbreviation matcher := (Rule → Metadata * H → option (Metadata * H * (bool * string))).

Definition extends (M M' : matcher) : Prop := ∀ r s x, M r s = Some x → M' r s = Some x.

Lemma any_match_extends (M M' : matcher) rules s x :
  extends M M' → any_match M rules s = Some x → any_match M' rules s = Some x.
Proof.
  intros HM. revert s. induction rules as [|r rules IH]; intros s; simpl; [done|].
  destruct (M r s) as [[s1 [m a]]|] eqn:E; [|done]. rewrite (HM _ _ _ E). by destruct m; [|apply IH].
Qed.

Lemma all_match_extends (M M' : matcher) rules s x :
  extends M M' → all_match M rules s = Some x → all_match M' rules s = Some x.
Proof.
  intros HM. revert s. induction rules as [|r rules IH]; intros s; simpl; [done|].
  destruct (M r s) as [[s1 [m a]]|] eqn:E; [|done]. rewrite (HM _ _ _ E). by destruct m; [apply IH|].
Qed.

Lemma sub_loop_extends (M M' : matcher) (Sub Sub' : string → Metadata * H → option (Metadata * H * (bool * string)))
    h rules s x :
  extends M M' → (∀ n s x, Sub n s = Some x → Sub' n s = Some x) →
  sub_loop M Sub h rules s = Some x → sub_loop M' Sub' h rules s = Some x.
Proof.
  intros HM HS. revert s. induction rules as [|r rules IH]; intros s; simpl; [done|].
  destruct (M r s) as [[s1 [m a]]|] eqn:E; [|done]. rewrite (HM _ _ _ E). destruct m; [|apply IH].
  destruct (decide (RuleType r = C.SubRules)).
  - destruct (Sub (Adapter r) s1) as [[s2 [m2 a2]]|] eqn:E2; [|done]. rewrite (HS _ _ _ E2).
    destruct (m2 && is_pass_rule h s2 a2); [apply IH|done].
  - destruct (true && is_pass_rule h s1 a); [apply IH|done].
Qed.

Lemma strategy_match_extends (M M' : matcher) st h s x :
  extends M M' → strategy_match M st h s = Some x → strategy_match M' st h s = Some x.
Proof. intros HM. destruct st; simpl; [by apply any_match_extends|done|done]. Qed.

Lemma Logic_Match_extends (M M' : matcher) (Sub Sub' : string → Metadata * H → option (Metadata * H * (bool * string)))
    t a rules s x :
  extends M M' → (∀ n s x, Sub n s = Some x → Sub' n s = Some x) →
  Logic_Match M Sub t a rules s = Some x → Logic_Match M' Sub' t a rules s = Some x.
Proof.
  intros HM HS. unfold Logic_Match. destruct t; try done.
  - destruct rules as [|r rules]; [done|]. destruct (M r s) as [[s1 [m b]]|] eqn:E; [|done].
    rewrite (HM _ _ _ E). destruct m; [apply HS|done].
  - destruct (all_match M rules s) as [[s1 m]|] eqn:E; [|done]. by rewrite (all_match_extends M M' _ _ _ HM E).
  - destruct (any_match M rules s) as [[s1 m]|] eqn:E; [|done]. by rewrite (any_match_extends M M' _ _ _ HM E).
  - destruct rules as [|r rules]; [done|]. destruct (M r s) as [[s1 [m b]]|] eqn:E; [|done]. by rewrite (HM _ _ _ E).
Qed.

Lemma RuleSet_Match_extends (M M' : RuleMatchHelper H → matcher) h n a isSrc nr s x :
  (∀ h, extends (M h) (M' h)) →
  RuleSet_Match env M h n a isSrc nr s = Some x → RuleSet_Match env M' h n a isSrc nr s = Some x.
Proof.
  intros HM. unfold RuleSet_Match. destruct (RuleProviders env !! n) as [st|]; [|done].
  destruct (strategy_match _ st _ _) as [[s1 m]|] eqn:E; [|done].
  by rewrite (strategy_match_extends _ _ _ _ _ _ (HM _) E).
Qed.

Lemma Match_step fuel :
  (∀ h r s x, Match env fuel h r s = Some x → Match env (S fuel) h r s = Some x) ∧
  (∀ h n s x, matchSubRules env fuel h n s = Some x → matchSubRules env (S fuel) h n s = Some x).
Proof.
  induction fuel as [|fuel [IHm IHs]]; [done|].
  assert (∀ h, extends (Match env fuel h) (Match env (S fuel) h)) as HM by (intros ????; apply IHm). split.
  - intros h r s x. change (Match env (S (S fuel)) h r s) with (Match_body env (Match env (S fuel)) (matchSubRules env (S fuel)) h r s).
    change (Match env (S fuel) h r s) with (Match_body env (Match env fuel) (matchSubRules env fuel) h r s).
    destruct r; try done; cbn [Match_body]; [apply RuleSet_Match_extends; exact HM|apply Logic_Match_extends; [apply HM|apply IHs]].
  - intros h n s x. apply sub_loop_extends; [apply HM|apply IHs].
Qed.

Lemma Match_more_fuel fuel fuel' h r s x :
  (fuel ≤ fuel')%nat → Match env fuel h r s = Some x → Match env fuel' h r s = Some x.
Proof. induction 1 as [|fuel' Hle IH]; [done|]. intros Hx. by apply Match_step, IH. Qed.

Lemma matchSubRules_more_fuel fuel fuel' h n s x :
  (fuel ≤ fuel')%nat → matchSubRules env fuel h n s = Some x → matchSubRules env fuel' h n s = Some x.
Proof. induction 1 as [|fuel' Hle IH]; [done|]. intros Hx. by apply Match_step, IH. Qed.

End fuel.

(** ** Termination *)

(** What a rule refers to by name: sub-rules ([inl]) and rule providers ([inr]). *)
Fixpoint refs (r : Rule) : list (string + string) :=
  (if decide (RuleType r = C.SubRules) then [inl (Adapter r)] else []) ++
  match r with
  | RRuleSet n _ _ _ => [inr n]
  | RLogic t _ a rules => List.concat (List.map refs rules)
  | _ => []
  end.

(** The rules behind a name. *)
Definition rules_of (env : RuleEnv) (k : string + string) : list Rule :=
  match k with
  | inl n => default [] (subRules env !! n)
  | inr n => match RuleProviders env !! n with Some (SClassical rules) => rules | _ => [] end
  end.

(** [k'] is referred to by a rule behind [k]. *)
Definition refers (env : RuleEnv) (k' k : string + string) : Prop := ∃ r, r ∈ rules_of env k ∧ k' ∈ refs r.

Section termination.
Context `{UC : UnicodeCase} `{EX : Externals} {H : Type} (env : RuleEnv).
Implicit Types (h : RuleMatchHelper H) (s : Metadata * H) (rules : list Rule).
#[local] Abbreviation matcher := (Rule → Metadata * H → option (Metadata * H * (bool * string))).

Definition answers (fuel : nat) (r : Rule) : Prop := ∀ h s, is_Some (Match env fuel h r s).
Definition answers_name (fuel : nat) (n : string) : Prop := ∀ h s, is_Some (matchSubRules env fuel h n s).

Lemma answers_more fuel fuel' r : (fuel ≤ fuel')%nat → answers fuel r → answers fuel' r.
Proof. intros Hle Ha h s. destruct (Ha h s) as [x Hx]. exists x. by eapply Match_more_fuel. Qed.

Lemma answers_name_more fuel fuel' n : (fuel ≤ fuel')%nat → answers_name fuel n → answers_name fuel' n.
Proof. intros Hle Ha h s. destruct (Ha h s) as [x Hx]. exists x. by eapply matchSubRules_more_fuel. Qed.

(** One amount of fuel for all the rules of a list. *)
Lemma answers_all rules : Forall (λ r, ∃ fuel, answers fuel r) rules → ∃ fuel, Forall (answers fuel) rules.
Proof.
  induction 1 as [|r rules [f Hf] _ [f' Hf']]; [by exists 0%nat|]. exists (max f f'). constructor.
  - eapply answers_more; [|done]. lia.
  - eapply Forall_impl; [exact Hf'|]. intros x. apply answers_more. lia.
Qed.

Lemma any_match_answers (M : matcher) rules s :
  Forall (λ r, ∀ s, is_Some (M r s)) rules → is_Some (any_match M rules s).
Proof.
  intros HM. revert s. induction HM as [|r rules Hr _ IH]; intros s; simpl; [by eexists|].
  destruct (Hr s) as [[s1 [[] a]] ->]; [by eexists|apply IH].
Qed.

Lemma all_match_answers (M : matcher) rules s :
  Forall (λ r, ∀ s, is_Some (M r s)) rules → is_Some (all_match M rules s).
Proof.
  intros HM. revert s. induction HM as [|r rules Hr _ IH]; intros s; simpl; [by eexists|].
  destruct (Hr s) as [[s1 [[] a]] ->]; [apply IH|by eexists].
Qed.

Lemma sub_loop_answers (M : matcher) Sub h rules s :
  Forall (λ r, ∀ s, is_Some (M r s)) rules →
  Forall (λ r, RuleType r = C.SubRules → ∀ s, is_Some (Sub (Adapter r) s)) rules →
  is_Some (sub_loop M Sub h rules s).
Proof.
  intros HM. revert s. induction HM as [|r rules Hr _ IH]; intros s HS; simpl; [by eexists|].
  apply Forall_cons in HS as [HSr HS]. destruct (Hr s) as [[s1 [[] a]] ->]; [|by apply IH].
  destruct (decide (RuleType r = C.SubRules)) as [Ht|_].
  - destruct (HSr Ht s1) as [[s2 [m2 a2]] ->]. destruct (_ && _); [by apply IH|by eexists].
  - destruct (_ && _); [by apply IH|by eexists].
Qed.

Lemma Match_body_answers fuel r :
  (∀ t p a rules, r = RLogic t p a rules →
     Forall (answers fuel) rules ∧ (t = C.SubRules → answers_name fuel a)) →
  (∀ n a x y, r = RRuleSet n a x y → Forall (answers fuel) (rules_of env (inr n))) →
  answers (S fuel) r.
Proof.
  intros Hl Hr h s. change (is_Some (Match_body env (Match env fuel) (matchSubRules env fuel) h r s)).
  destruct r as [| | | | | | | | | | | | | | | | | | | |n a isSrc nr|t p a rules]; try (by eexists); cbn [Match_body].
  - specialize (Hr n a isSrc nr eq_refl). unfold RuleSet_Match, rules_of in *.
    destruct (RuleProviders env !! n) as [[rules|set|set]|]; [|by eexists..]. cbn [strategy_match].
    destruct (any_match_answers (Match env fuel (if isSrc || nr then no_resolve h else h)) rules
      ((if isSrc then swap_state else id) s)) as [[s1 m] ->]; [|by eexists].
    eapply Forall_impl; [exact Hr|]. intros x Hx. apply Hx.
  - destruct (Hl t p a rules eq_refl) as [HF Hn]. unfold Logic_Match. destruct t; try (by eexists).
    + destruct rules as [|r rules]; [by eexists|]. apply Forall_cons in HF as [Hr1 _].
      destruct (Hr1 h s) as [[s1 [[] b]] ->]; [by apply Hn|by eexists].
    + destruct (all_match_answers (Match env fuel h) rules s) as [[s1 m] ->]; [|by eexists].
      eapply Forall_impl; [exact HF|]. intros x Hx. apply Hx.
    + destruct (any_match_answers (Match env fuel h) rules s) as [[s1 m] ->]; [|by eexists].
      eapply Forall_impl; [exact HF|]. intros x Hx. apply Hx.
    + destruct rules as [|r rules]; [by eexists|]. apply Forall_cons in HF as [Hr1 _].
      destruct (Hr1 h s) as [[s1 [m b]] ->]. by eexists.
Qed.

(** The rules behind a name can all be matched. *)
Definition named (k : string + string) : Prop :=
  match k with
  | inl n => ∃ fuel, answers_name fuel n
  | inr n => ∃ fuel, Forall (answers fuel) (rules_of env (inr n))
  end.

Lemma refs_child t p a rules r k : r ∈ rules → k ∈ refs r → k ∈ refs (RLogic t p a rules).
Proof.
  intros Hr Hk. cbn [refs]. apply elem_of_app. right. apply list_elem_of_In, in_concat. exists (refs r).
  rewrite <- !list_elem_of_In. split; [|done]. apply list_elem_of_In, in_map. by apply list_elem_of_In.
Qed.

Lemma refs_sub r : RuleType r = C.SubRules → inl (Adapter r) ∈ refs r.
Proof. intros Ht. destruct r; cbn [refs]; rewrite decide_True by done; left. Qed.

Lemma answers_rule r : (∀ k, k ∈ refs r → named k) → ∃ fuel, answers fuel r.
Proof.
  induction r as [r Hleaf|t p a rules IH] using Rule_induction; intros Hn.
  - destruct r as [| | | | | | | | | | | | | | | | | | | |n a x y|t p a rules];
      try (exists 1%nat; apply Match_body_answers; discriminate).
    + destruct (Hn (inr n)) as [f Hf]; [cbn [refs]; apply elem_of_app; right; left|].
      exists (S f). apply Match_body_answers; [discriminate|]. by intros ???? [= <- <- <- <-].
    + by destruct (Hleaf t p a rules).
  - destruct (answers_all rules) as [f Hf].
    { rewrite Forall_forall in IH |- *. intros r Hr. apply IH; [done|]. intros k Hk.
      apply Hn. by eapply refs_child. }
    assert (∃ f', t = C.SubRules → answers_name f' a) as [f' Hf'].
    { destruct (decide (t = C.SubRules)) as [->|]; [|exists 0%nat; congruence].
      destruct (Hn (inl a)) as [f' ?]; [apply (refs_sub (RLogic C.SubRules p a rules) eq_refl)|]. by exists f'. }
    exists (S (max f f')). apply Match_body_answers; [|discriminate]. intros ???? [= <- <- <- <-]. split.
    + eapply Forall_impl; [exact Hf|]. intros x. apply answers_more. lia.
    + intros Ht. eapply answers_name_more; [|by apply Hf']. lia.
Qed.

Lemma named_of_acc k : Acc (refers env) k → named k.
Proof.
  induction 1 as [k _ IH].
  assert (∃ f, Forall (answers f) (rules_of env k)) as [f Hf].
  { apply answers_all. apply List.Forall_forall. intros r Hr%list_elem_of_In. apply answers_rule.
    intros k' Hk'. apply IH. by exists r. }
  assert (∃ f', Forall (λ r, RuleType r = C.SubRules → answers_name f' (Adapter r)) (rules_of env k)) as [f' Hf'].
  { assert (∀ r, r ∈ rules_of env k → RuleType r = C.SubRules → ∃ f, answers_name f (Adapter r)) as Hr.
    { intros r Hr Ht. apply (IH (inl (Adapter r))). exists r. split; [done|]. by apply refs_sub. }
    revert Hr. generalize (rules_of env k). intros l. induction l as [|r l IHl]; intros Hr; [by exists 0%nat|].
    destruct IHl as [f1 Hf1]; [intros; apply Hr; [by right|done]|].
    destruct (decide (RuleType r = C.SubRules)) as [Ht|Ht].
    - destruct (Hr r) as [f2 Hf2]; [left|done|]. exists (max f1 f2). constructor.
      + intros _. eapply answers_name_more; [|done]. lia.
      + eapply Forall_impl; [exact Hf1|]. intros x Hx Htx. eapply answers_name_more; [|by apply Hx]. lia.
    - exists f1. by constructor. }
  destruct k as [n|n]; simpl; [|by exists f].
  exists (S (max f f')). intros h s. apply sub_loop_answers.
  - eapply Forall_impl; [exact Hf|]. intros r Hr. apply (answers_more f); [lia|done].
  - eapply Forall_impl; [exact Hf'|]. intros r Hr Ht. apply (answers_name_more f'); [lia|by apply Hr].
Qed.

Lemma Match_total r : (∀ k, k ∈ refs r → Acc (refers env) k) → ∃ fuel, ∀ h s, is_Some (Match env fuel h r s).
Proof. intros Hr. apply answers_rule. intros k Hk. by apply named_of_acc, Hr. Qed.

End termination.

(** ** The check of the sub-rules *)

Section verify.
Implicit Types (sr : gmap string (list Rule)) (arr : list string).

Lemma verify_loop_ok sr Sub n arr i rules :
  verify_loop sr Sub n arr i rules = Some (Ok tt) →
  ∀ r, r ∈ rules → RuleType r = C.SubRules → is_Some (sr !! Adapter r) ∧ Sub (Adapter r) = Some (Ok tt).
Proof.
  revert i. induction rules as [|r rules IH]; intros i; simpl; [by intros _ ? ?%not_elem_of_nil|].
  intros Hv r' Hr' Ht. destruct (decide (RuleType r = C.SubRules)) as [Hsub|Hsub].
  - destruct (sr !! Adapter r) as [l|] eqn:El; [|done]. destruct (decide (Adapter r ∈ arr)); [done|].
    destruct (Sub (Adapter r)) as [[[]|err]|] eqn:Es; [|done|done].
    apply elem_of_cons in Hr' as [->|Hr']; [by rewrite El; eauto|]. by eapply IH.
  - apply elem_of_cons in Hr' as [->|Hr']; [done|]. by eapply IH.
Qed.

Lemma verify_loop_answers sr Sub n arr i rules :
  (∀ m, is_Some (sr !! m) → m ∉ arr → is_Some (Sub m)) → is_Some (verify_loop sr Sub n arr i rules).
Proof.
  intros HS. revert i. induction rules as [|r rules IH]; intros i; simpl; [by eexists|].
  destruct (decide (RuleType r = C.SubRules)); [|apply IH].
  destruct (sr !! Adapter r) eqn:El; [|by eexists]. destruct (decide (Adapter r ∈ arr)); [by eexists|].
  destruct (HS (Adapter r)) as [[[]|err] ->]; [by rewrite El|done|apply IH|by eexists].
Qed.

Lemma names_bound sr arr : NoDup arr → (∀ x, x ∈ arr → is_Some (sr !! x)) → (length arr ≤ size sr)%nat.
Proof.
  intros Hnd Hin. rewrite <- (size_dom (D:=gset string)). rewrite <- (size_list_to_set (C:=gset string)) by done.
  apply subseteq_size. intros x Hx. apply elem_of_list_to_set in Hx. by apply elem_of_dom, Hin.
Qed.

Lemma verify_answers sr fuel n arr :
  NoDup (arr ++ [n]) → (∀ x, x ∈ arr ++ [n] → is_Some (sr !! x)) → (size sr < fuel + length arr)%nat →
  is_Some (verifySubRuleCircularReferences fuel sr n arr).
Proof.
  revert n arr. induction fuel as [|fuel IH]; intros n arr Hnd Hin Hf.
  - assert (length arr ≤ size sr)%nat; [|lia]. apply names_bound; [by apply list.NoDup_app in Hnd as [? _]|].
    intros x Hx. apply Hin, elem_of_app. by left.
  - simpl. apply verify_loop_answers. intros m Hm Hni. apply IH.
    + apply list.NoDup_app. split_and!; [done| |apply NoDup_singleton]. intros x Hx ->%list_elem_of_singleton. done.
    + intros x [Hx| ->%list_elem_of_singleton]%elem_of_app; [by apply Hin|done].
    + rewrite length_app. simpl. lia.
Qed.

Lemma verify_names_answers sr fuel names :
  (size sr < fuel)%nat → (∀ n, n ∈ names → is_Some (sr !! n)) → is_Some (verify_names fuel sr names).
Proof.
  intros Hf. induction names as [|n names IH]; intros Hin; simpl; [by eexists|].
  destruct (verify_answers sr fuel n []) as [[[]|err] ->]; [apply NoDup_singleton| | |apply IH|by eexists].
  - intros x ->%list_elem_of_singleton. apply Hin. left.
  - simpl. lia.
  - intros x Hx. apply Hin. by right.
Qed.

Lemma verify_names_ok sr fuel names n :
  verify_names fuel sr names = Some (Ok tt) → n ∈ names → verifySubRuleCircularReferences fuel sr n [] = Some (Ok tt).
Proof.
  induction names as [|m names IH]; simpl; [by intros _ ?%not_elem_of_nil|].
  destruct (verifySubRuleCircularReferences fuel sr m []) as [[[]|e]|] eqn:E; [|done|done].
  intros Hv [->|Hn]%elem_of_cons; [done|by apply IH].
Qed.

(** Sub-rules are referred to only by rules of type SUB-RULE that are not
    inside a logic rule (the parser refuses the others). *)
Definition sub_rules_on_top (r : Rule) : Prop := ∀ n, inl n ∈ refs r → RuleType r = C.SubRules ∧ Adapter r = n.

Lemma verify_acc env fuel n arr :
  (∀ k r, r ∈ default [] (subRules env !! k) → sub_rules_on_top r) →
  (∀ k, Acc (refers env) (inr k)) →
  verifySubRuleCircularReferences fuel (subRules env) n arr = Some (Ok tt) → Acc (refers env) (inl n).
Proof.
  intros Htop Hprov. revert n arr. induction fuel as [|fuel IH]; intros n arr Hv; [done|]. simpl in Hv.
  constructor. intros [m|m] (r & Hr & Hk); [|apply Hprov].
  destruct (Htop n r Hr m Hk) as [Ht <-].
  destruct (verify_loop_ok _ _ _ _ _ _ Hv r Hr Ht) as [_ Hsub]. by eapply IH.
Qed.

End verify.

(** ** Relations that matching respects *)

Section relations.
Context `{UC : UnicodeCase} `{EX : Externals} {H : Type} (env : RuleEnv).
Implicit Types (h : RuleMatchHelper H) (s : Metadata * H).
#[local] Abbreviation matcher := (Rule → Metadata * H → option (Metadata * H * (bool * string))).

(** [Rel true] is what may happen when the destination may be resolved,
    [Rel false] when it may not. *)
Variable Rel : bool → Metadata * H → Metadata * H → Prop.
Hypothesis Rel_refl : ∀ b s, Rel b s s.
Hypothesis Rel_trans : ∀ b s1 s2 s3, Rel b s1 s2 → Rel b s2 s3 → Rel b s1 s3.
Hypothesis Rel_weaken : ∀ b s s', Rel false s s' → Rel b s s'.
Hypothesis Rel_swap : ∀ s s', Rel false (swap_state s) s' → Rel false s (swap_state s').
Hypothesis Rel_geoip : ∀ g s, Rel false s (GEOIP.lookup g s).1.
Hypothesis Rel_asn : ∀ a s, Rel false s (ASN.lookup a s).1.

Definition resolves h : bool := match ResolveIP h with Some _ => true | None => false end.
Definition hooks_respect h : Prop :=
  (∀ f, ResolveIP h = Some f → ∀ s, Rel true s (f s)) ∧ (∀ f, FindProcess h = Some f → ∀ s, Rel false s (f s)).

(** A matcher that respects the relation for the helper [h]. *)
Definition respects (b : bool) (M : matcher) : Prop := ∀ r s s' x, M r s = Some (s', x) → Rel b s s'.

Lemma no_resolve_respects h : hooks_respect h → hooks_respect (no_resolve h) ∧ resolves (no_resolve h) = false.
Proof. by intros [_ Hf]. Qed.

Lemma find_process_respects h b s : hooks_respect h → Rel b s (run_hook (FindProcess h) s).
Proof.
  intros [_ Hf]. unfold run_hook. destruct (FindProcess h) as [f|] eqn:E; [|apply Rel_refl].
  apply Rel_weaken. by apply Hf.
Qed.

Lemma resolve_respects h s : hooks_respect h → Rel (resolves h) s (run_hook (ResolveIP h) s).
Proof.
  intros [Hr _]. unfold run_hook, resolves. destruct (ResolveIP h) as [f|] eqn:E; [by apply Hr|apply Rel_refl].
Qed.

Lemma with_ip_respects h nr src s : hooks_respect h → Rel (resolves h) s (with_ip nr src h s).
Proof. intros Hh. unfold with_ip. destruct (_ && _); [by apply resolve_respects|apply Rel_refl]. Qed.

Lemma any_match_respects b M rules s s' m : respects b M → any_match M rules s = Some (s', m) → Rel b s s'.
Proof.
  intros HM. revert s. induction rules as [|r rules IH]; intros s; simpl; [intros [= <- <-]; apply Rel_refl|].
  destruct (M r s) as [[s1 [[] a]]|] eqn:E; [intros [= <- <-]; by eapply HM| |done].
  intros Hm. eapply Rel_trans; [by eapply HM|by apply IH].
Qed.

Lemma all_match_respects b M rules s s' m : respects b M → all_match M rules s = Some (s', m) → Rel b s s'.
Proof.
  intros HM. revert s. induction rules as [|r rules IH]; intros s; simpl; [intros [= <- <-]; apply Rel_refl|].
  destruct (M r s) as [[s1 [[] a]]|] eqn:E; [|intros [= <- <-]; by eapply HM|done].
  intros Hm. eapply Rel_trans; [by eapply HM|by apply IH].
Qed.

Lemma sub_loop_respects b M Sub h rules s s' x :
  respects b M → (∀ n s s' x, Sub n s = Some (s', x) → Rel b s s') →
  sub_loop M Sub h rules s = Some (s', x) → Rel b s s'.
Proof.
  intros HM HS. revert s. induction rules as [|r rules IH]; intros s; simpl; [intros [= <- <-]; apply Rel_refl|].
  destruct (M r s) as [[s1 [[] a]]|] eqn:E; [| |done].
  - intros Hm. eapply Rel_trans; [by eapply HM|]. revert Hm. destruct (decide _).
    + destruct (Sub (Adapter r) s1) as [[s2 [m2 a2]]|] eqn:E2; [|done].
      destruct (_ && _); [|intros [= <- <-]; by eapply HS].
      intros Hm. eapply Rel_trans; [by eapply HS|by apply IH].
    + destruct (_ && _); [apply IH|intros [= <- <-]; apply Rel_refl].
  - intros Hm. eapply Rel_trans; [by eapply HM|by apply IH].
Qed.

Lemma RuleSet_Match_respects (M : RuleMatchHelper H → matcher) h n a isSrc nr s s' x :
  (∀ h, hooks_respect h → respects (resolves h) (M h)) → hooks_respect h →
  RuleSet_Match env M h n a isSrc nr s = Some (s', x) → Rel (resolves h) s s'.
Proof.
  intros HM Hh. unfold RuleSet_Match. destruct (RuleProviders env !! n) as [st|]; [|intros [= <- <-]; apply Rel_refl].
  set (h1 := if isSrc || nr then no_resolve h else h).
  assert (hooks_respect h1) as Hh1 by (unfold h1; destruct (isSrc || nr); [by apply no_resolve_respects|done]).
  destruct (strategy_match (M h1) st h1 _) as [[s1 m]|] eqn:E; [|done]. intros [= <- <-].
  assert (Rel (resolves h1) ((if isSrc then swap_state else id) s) s1) as Hin.
  { destruct st as [rules|set|set]; simpl in E.
    - eapply any_match_respects; [|exact E]. by apply HM.
    - injection E as <- <-. by apply resolve_respects.
    - injection E as <- <-. apply Rel_refl. }
  destruct isSrc; simpl in *.
  - apply Rel_weaken. by apply Rel_swap.
  - destruct nr; [by apply Rel_weaken|done].
Qed.

Lemma Match_respects fuel :
  (∀ h, hooks_respect h → respects (resolves h) (Match env fuel h)) ∧
  (∀ h, hooks_respect h → ∀ n s s' x, matchSubRules env fuel h n s = Some (s', x) → Rel (resolves h) s s').
Proof.
  induction fuel as [|fuel [IHm IHs]]; [done|]. split.
  - intros h Hh r s s' x. change (Match env (S fuel) h r s) with (Match_body env (Match env fuel) (matchSubRules env fuel) h r s).
    destruct r as [| | | | | |g|a|i|i| | |ps| |u| | | | | |n a isSrc nr|t p a rules]; cbn [Match_body];
      try (intros [= <- <-]; apply Rel_refl).
    + intros [= Hg]. eapply Rel_trans; [by apply (with_ip_respects h (GEOIP.noResolveIP g) (GEOIP.isSourceIP g))|].
      apply Rel_weaken. change s' with (s', x).1. rewrite <- Hg. apply Rel_geoip.
    + intros [= Hg]. eapply Rel_trans; [by apply (with_ip_respects h (ASN.noResolveIP a) (ASN.isSourceIP a))|].
      apply Rel_weaken. change s' with (s', x).1. rewrite <- Hg. apply Rel_asn.
    + intros [= <- <-]. by apply with_ip_respects.
    + intros [= Hi]. unfold IPSuffix.Match in Hi. destruct (IPSuffix.matchIP _ _); injection Hi as <- <-; by apply with_ip_respects.
    + intros [= <- <-]. by apply find_process_respects.
    + intros [= Hu]. unfold Uid.Match in Hu. destruct (_ && _); injection Hu as <- <-; by apply find_process_respects.
    + by apply RuleSet_Match_respects.
    + specialize (IHm h Hh). specialize (IHs h Hh). unfold Logic_Match.
      destruct t; try (intros [= <- <-]; apply Rel_refl).
      * destruct rules as [|r rules]; [intros [= <- <-]; apply Rel_refl|].
        destruct (Match env fuel h r s) as [[s1 [[] b]]|] eqn:E; [| |done].
        -- intros Hs. eapply Rel_trans; [by eapply IHm|by eapply IHs].
        -- intros [= <- <-]. by eapply IHm.
      * destruct (all_match _ rules s) as [[s1 m]|] eqn:E; [|done]. intros [= <- <-]. by eapply all_match_respects.
      * destruct (any_match _ rules s) as [[s1 m]|] eqn:E; [|done]. intros [= <- <-]. by eapply any_match_respects.
      * destruct rules as [|r rules]; [intros [= <- <-]; apply Rel_refl|].
        destruct (Match env fuel h r s) as [[s1 [m b]]|] eqn:E; [|done]. intros [= <- <-]. by eapply IHm.
  - intros h Hh n s s' x. simpl. apply sub_loop_respects; [by apply IHm|by apply IHs].
Qed.

End relations.

(** ** What matching may change *)

(** The metadata without what rules may fill in: country codes, ASNs, the
    process and, when [resolve], the destination address. *)
Definition erase (resolve : bool) (m : Metadata) : Metadata :=
  let m := set_process (set_IPASN (set_GeoIP m None None) "" "") 0 "" "" in
  if resolve then set_DstIP m NoAddr else m.

Definition same_but {H} (resolve : bool) (s s' : Metadata * H) : Prop := erase resolve s'.1 = erase resolve s.1.

Section frame.
Context `{UC : UnicodeCase} `{EX : Externals} {H : Type}.
Implicit Types (s : Metadata * H).

Lemma same_but_weaken b s s' : same_but false s s' → same_but b s s'.
Proof. destruct b; [|done]. unfold same_but, erase. intros He. by rewrite He. Qed.

Lemma erase_swap (m : Metadata) : erase false (SwapSrcDst m) = SwapSrcDst (erase false m).
Proof. done. Qed.

Lemma same_but_swap s s' : same_but false (swap_state s) s' → same_but false s (swap_state s').
Proof.
  unfold same_but, swap_state. cbn [fst]. intros He. by rewrite erase_swap, He, erase_swap, SwapSrcDst_involutive.
Qed.

Lemma same_but_geoip g s : same_but false s (GEOIP.lookup g s).1.
Proof.
  unfold GEOIP.lookup, GEOIP.set_codes. destruct s as [m k]. simpl. repeat (case_match; try done).
Qed.

Lemma same_but_asn a s : same_but false s (ASN.lookup a s).1.
Proof. unfold ASN.lookup. destruct s as [m k]. simpl. repeat (case_match; try done). Qed.

End frame.

(** ** Cached country codes *)

Section geoip_cache.
Context `{UC : UnicodeCase} `{EX : Externals} {H : Type}.
Implicit Types (m : Metadata) (s : Metadata * H).

(** Codes cached for an address: the address is valid; without geodata they
    are what the database says, with geodata every one of them matches. *)
Definition codes_for (ip : Addr) (c : option (list string)) : Prop :=
  match c with
  | None => True
  | Some c => IsValid ip = true ∧
              (GeodataMode = false → c = LookupCode (AsSlice ip)) ∧
              (GeodataMode = true → ∀ x, x ∈ c → ∃ f, LoadGeoIPMatcher x = Some f ∧ f ip = true)
  end.

Definition coherent m : Prop := codes_for (SrcIP m) (SrcGeoIP m) ∧ codes_for (DstIP m) (DstGeoIP m).

Lemma coherent_swap m : coherent (SwapSrcDst m) ↔ coherent m.
Proof. unfold coherent. simpl. tauto. Qed.

Lemma side_codes g m : coherent m → codes_for (side_ip (GEOIP.isSourceIP g) m) (GEOIP.codes g m).
Proof. intros [Hs Hd]. unfold side_ip, GEOIP.codes. by destruct (GEOIP.isSourceIP g). Qed.

Lemma set_codes_coherent g m c :
  coherent m → codes_for (side_ip (GEOIP.isSourceIP g) m) c → coherent (GEOIP.set_codes g m c).
Proof. intros [Hs Hd] Hc. unfold side_ip, GEOIP.set_codes in *. by destruct (GEOIP.isSourceIP g). Qed.

(** The cached answer is the uncached one, and the cache stays coherent. *)
Lemma GEOIP_lookup_spec g s :
  coherent s.1 →
  coherent (GEOIP.lookup g s).1.1 ∧
  (GEOIP.lookup g s).2.1 = GEOIP.MatchIp g (side_ip (GEOIP.isSourceIP g) s.1).
Proof.
  intros Hc. pose proof (side_codes g s.1 Hc) as Hside. unfold GEOIP.lookup, GEOIP.MatchIp.
  set (ip := side_ip (GEOIP.isSourceIP g) s.1) in *.
  destruct (IsValid ip) eqn:Ev; simpl; [|by destruct s].
  destruct (decide (GEOIP.country g = "lan")); [by destruct s|]. destruct GeodataMode eqn:Eg.
  - unfold GEOIP.contains, GEOIP.getIPMatcher. destruct (bool_decide_reflect (GEOIP.country g ∈ default [] (GEOIP.codes g s.1))) as [Hin|Hin].
    + destruct (GEOIP.codes g s.1) as [c|] eqn:Ec; simpl in Hin; [|by apply elem_of_nil in Hin].
      destruct Hside as (_ & _ & Hall). destruct (Hall Eg _ Hin) as (f & -> & ->). by destruct s.
    + destruct (LoadGeoIPMatcher (GEOIP.country g)) as [f|] eqn:Ef; [|by destruct s].
      destruct (f ip) eqn:Em; [|by destruct s]. split; [|done]. simpl. apply set_codes_coherent; [done|].
      fold ip. simpl. split; [done|]. split; [by rewrite Eg|]. intros _ x [Hx|Hx]%elem_of_app.
      * destruct (GEOIP.codes g s.1) as [c|]; simpl in Hx; [|by apply elem_of_nil in Hx]. destruct Hside as (_ & _ & Hall). by apply Hall.
      * apply list_elem_of_singleton in Hx as ->. eauto.
  - unfold GEOIP.contains. destruct (GEOIP.codes g s.1) as [c|] eqn:Ec.
    + destruct Hside as (_ & Hdb & _). rewrite <- Hdb by done. by destruct s.
    + assert (coherent (GEOIP.set_codes g s.1 (Some (LookupCode (AsSlice ip))))) as Hset.
      { apply set_codes_coherent; [done|]. simpl. fold ip. rewrite Eg. done. }
      destruct (bool_decide _); split; done.
Qed.

End geoip_cache.

(** ** IP-SUFFIX compares the low bits *)

Section suffix.

Lemma nth_be_bytes n (i : nat) v : (i < n)%nat → nth (n - 1 - i) (be_bytes n v) 0 = (v / 256 ^ Z.of_nat i) mod 256.
Proof.
  revert v i. induction n as [|n IH]; intros v i Hi; [lia|]. cbn [be_bytes]. destruct i as [|i].
  - rewrite app_nth2; rewrite length_be_bytes; [|lia]. replace (S n - 1 - 0 - n)%nat with 0%nat by lia. simpl.
    by rewrite Z.div_1_r.
  - rewrite app_nth1 by (rewrite length_be_bytes; lia). replace (S n - 1 - S i)%nat with (n - 1 - i)%nat by lia.
    rewrite IH by lia.
    assert (0 < 256 ^ Z.of_nat i) by (apply Z.pow_pos_nonneg; lia).
    rewrite Z.div_div, Nat2Z.inj_succ, Z.pow_succ_r by lia. done.
Qed.

Lemma mod_step v b c : 0 < b → 0 < c → v mod (b * c) = v mod b + b * ((v / b) mod c).
Proof. intros. apply Z.rem_mul_r; lia. Qed.

(** The two parts of a number below and above [b] are equal iff the whole is. *)
Lemma mod_step_eq v w b c : 0 < b → 0 < c →
  v mod (b * c) = w mod (b * c) ↔ v mod b = w mod b ∧ (v / b) mod c = (w / b) mod c.
Proof.
  intros Hb Hc. rewrite !mod_step by done. pose proof (Z.mod_pos_bound v b Hb). pose proof (Z.mod_pos_bound w b Hb).
  split; [|intros [-> ->]; done]. intros He.
  destruct (Z.div_mod_unique b ((v / b) mod c) ((w / b) mod c) (v mod b) (w mod b)); [by left|by left|lia|done].
Qed.

Lemma same_bytes_spec n v w (k : nat) :
  (k ≤ n)%nat →
  IPSuffix.same_bytes (be_bytes n v) (be_bytes n w) (Z.of_nat n) k = true ↔
  v mod 256 ^ Z.of_nat k = w mod 256 ^ Z.of_nat k.
Proof.
  induction k as [|k IH]; intros Hk; [by rewrite !Z.mod_1_r|]. cbn [IPSuffix.same_bytes].
  unfold IPSuffix.byte_at. replace (Z.to_nat (Z.of_nat n - Z.of_nat (S k))) with (n - 1 - k)%nat by lia.
  rewrite !nth_be_bytes by lia. rewrite andb_true_iff, Z.eqb_eq, IH by lia.
  assert (0 < 256 ^ Z.of_nat k) by (apply Z.pow_pos_nonneg; lia).
  rewrite Nat2Z.inj_succ, Z.pow_succ_r, (Z.mul_comm 256), mod_step_eq by lia. tauto.
Qed.

Lemma shl_eq a b r : 0 < r < 8 → 0 ≤ a → 0 ≤ b →
  wrap 8 (Z.shiftl a (8 - r)) = wrap 8 (Z.shiftl b (8 - r)) ↔ a mod 2 ^ r = b mod 2 ^ r.
Proof.
  intros Hr Ha Hb. unfold wrap. rewrite !Z.shiftl_mul_pow2 by lia.
  replace (2 ^ 8) with (2 ^ r * 2 ^ (8 - r)) by (rewrite <- Z.pow_add_r by lia; f_equal; lia).
  assert (0 < 2 ^ r ∧ 0 < 2 ^ (8 - r)) as [? ?] by (split; apply Z.pow_pos_nonneg; lia).
  rewrite !Zmult_mod_distr_r. split; [|by intros ->]. intros He. by apply Z.mul_reg_r in He; [|lia].
Qed.

Lemma AsSlice_be a : ∃ n, AsSlice a = be_bytes n (addr_val a) ∧ BitLen a = 8 * Z.of_nat n.
Proof. destruct a as [|v|v z]; [by exists 0%nat|by exists 4%nat|by exists 16%nat]. Qed.

(** Bits [8 k] to [8 k + r] of a number, given the bytes below are compared. *)
Lemma low_bits_split v w (k : nat) r : 0 ≤ r < 8 →
  v mod 2 ^ (8 * Z.of_nat k + r) = w mod 2 ^ (8 * Z.of_nat k + r) ↔
  v mod 256 ^ Z.of_nat k = w mod 256 ^ Z.of_nat k ∧
  (v / 256 ^ Z.of_nat k) mod 2 ^ r = (w / 256 ^ Z.of_nat k) mod 2 ^ r.
Proof.
  intros Hr. rewrite Z.pow_add_r, (Z.pow_mul_r 2 8) by lia. change (2 ^ 8) with 256.
  apply mod_step_eq; [apply Z.pow_pos_nonneg; lia|apply Z.pow_pos_nonneg; lia].
Qed.

Lemma byte_mod v b r : 0 < r < 8 → (v / b) mod 256 mod 2 ^ r = (v / b) mod 2 ^ r.
Proof.
  intros Hr. replace 256 with (2 ^ r * 2 ^ (8 - r)) by (rewrite <- Z.pow_add_r by lia; replace (r + (8 - r)) with 8 by lia; done).
  assert (0 < 2 ^ r ∧ 0 < 2 ^ (8 - r)) as [? ?] by (split; apply Z.pow_pos_nonneg; lia).
  rewrite mod_step, (Z.mul_comm (2 ^ r)), Z.mod_add, Z.mod_mod by lia. done.
Qed.

Lemma matchIP_low_bits i (p : Addr) (ip : Addr) :
  IPSuffix.ipBytes i = AsSlice p → 0 ≤ IPSuffix.bits i ≤ BitLen p →
  IPSuffix.matchIP i ip = true ↔
  BitLen ip = BitLen p ∧ addr_val ip mod 2 ^ IPSuffix.bits i = addr_val p mod 2 ^ IPSuffix.bits i.
Proof.
  intros Hb Hbits. unfold IPSuffix.matchIP. rewrite Hb.
  destruct (AsSlice_be p) as (n & -> & Hn), (AsSlice_be ip) as (n' & -> & Hn'). rewrite !length_be_bytes, Hn, Hn' in *.
  rewrite !andb_true_iff, Nat.eqb_eq. set (bits := IPSuffix.bits i) in *.
  pose proof (Z.div_mod bits 8 ltac:(lia)) as Hdm. pose proof (Z.mod_pos_bound bits 8 ltac:(lia)) as Hr.
  set (r := bits mod 8) in *. assert (0 ≤ bits / 8) by (apply Z.div_pos; lia).
  remember (Z.to_nat (bits / 8)) as k eqn:Hk. assert (bits / 8 = Z.of_nat k) as Ek by lia. rewrite Ek in *.
  assert (k ≤ n)%nat by lia. replace bits with (8 * Z.of_nat k + r) by lia.
  destruct (decide (n = n')) as [<-|Hne]; [|split; [intros [[? _] _]; done|intros [? _]; lia]].
  rewrite same_bytes_spec, low_bits_split, negb_true_iff, andb_false_iff, !negb_false_iff, !Z.eqb_eq by lia.
  destruct (decide (r = 0)) as [->|Hr0].
  - rewrite Z.pow_0_r, !Z.mod_1_r. split; [intros [[_ ?] _]|intros [_ [? _]]]; (split; [|by auto]); auto.
  - unfold IPSuffix.byte_at. replace (Z.to_nat (Z.of_nat n - Z.of_nat k - 1)) with (n - 1 - k)%nat by lia.
    rewrite !nth_be_bytes by lia.
    rewrite (shl_eq _ _ r), !byte_mod by (lia || apply Z.mod_pos_bound; lia).
    split; [intros [[_ ?] [?|?]]; [done|]|intros [_ [? ?]]]; (split; [|by auto]); auto.
Qed.

End suffix.

(** ** Properties *)

(** The check of the sub-rules of a configuration always answers: following
    the references of a name either ends, meets an unknown name or meets a
    name of the chain again, however the references are arranged. *)
Theorem verifySubRule_terminates (sr : gmap string (list Rule)) : is_Some (verifySubRule sr).
Proof.
  apply verify_names_answers; [lia|]. intros n (x & -> & Hx)%list_elem_of_fmap.
  destruct x as [k rules]. apply elem_of_map_to_list in Hx. simpl. by rewrite Hx.
Qed.

Section properties.
Context `{UC : UnicodeCase} `{EX : Externals} {H : Type}.

(** When the check of the sub-rules has passed, every name is accessible. *)
Lemma verified_total (env : RuleEnv) (r : Rule) :
  verifySubRule (subRules env) = Some (Ok tt) →
  (∀ k x, x ∈ default [] (subRules env !! k) → sub_rules_on_top x) →
  (∀ k, Acc (refers env) (inr k)) →
  ∃ fuel, ∀ (h : RuleMatchHelper H) s, is_Some (Match env fuel h r s).
Proof.
  intros Hv Htop Hprov. apply Match_total. intros [n|n] _; [|apply Hprov].
  destruct (subRules env !! n) as [rules|] eqn:En.
  - eapply verify_acc; [done|done|]. eapply verify_names_ok; [exact Hv|].
    apply list_elem_of_fmap. exists (n, rules). split; [done|]. by apply elem_of_map_to_list.
  - constructor. intros k' (x & Hx & _). simpl in Hx. rewrite En in Hx. by apply elem_of_nil in Hx.
Qed.

(** A list of sub-rules never selects a target that stands for "pass this
    rule on": neither PASS-RULE nor an adapter the helper says unwraps to it. *)
Theorem sub_rules_never_pass (env : RuleEnv) fuel (h : RuleMatchHelper H) name s s' a :
  matchSubRules env fuel h name s = Some (s', (true, a)) →
  a ≠ "PASS-RULE" ∧ ∀ f, CheckPassRule h = Some f → f s' a = false.
Proof.
  intros Hm. assert (is_pass_rule h s' a = false) as Hp.
  { destruct fuel as [|fuel]; [done|]. simpl in Hm. revert s Hm.
    induction (default [] (subRules env !! name)) as [|r rules IH]; intros s; simpl; [done|].
    destruct (Match env fuel h r s) as [[s1 [[] b]]|]; [|apply IH|done].
    destruct (if decide _ then _ else _) as [[s2 [[] c]]|]; [|done|done].
    destruct (is_pass_rule h s2 c) eqn:E; [apply IH|]. by intros [= <- <-]. }
  unfold is_pass_rule in Hp. apply orb_false_iff in Hp as [Ha Hf]. apply bool_decide_eq_false in Ha.
  split; [done|]. intros f Hc. by rewrite Hc in Hf.
Qed.

(** Matching a rule changes nothing of the metadata except the cached
    country codes and ASNs, the process of the connection and, if the helper
    resolves, the destination address; in particular a rule set that looks at
    the source leaves source and destination in their places. *)
Theorem Match_changes_little (env : RuleEnv) fuel (h : RuleMatchHelper H) r s s' x :
  (∀ f, ResolveIP h = Some f → ∀ s, same_but true s (f s)) →
  (∀ f, FindProcess h = Some f → ∀ s, same_but false s (f s)) →
  Match env fuel h r s = Some (s', x) →
  same_but (resolves h) s s'.
Proof.
  intros Hr Hf Hm. refine (proj1 (Match_respects env same_but _ _ _ _ _ _ fuel) h (conj Hr Hf) r s s' x Hm);
    [done| |apply same_but_weaken|apply same_but_swap|apply same_but_geoip|apply same_but_asn].
  unfold same_but. intros. congruence.
Qed.

(** The country codes cached in the metadata never change an answer: as
    long as the hooks keep them coherent, matching any rule keeps them
    coherent, and a GEOIP rule answers what the uncached lookup of the address
    it looks at says. *)
Theorem geoip_cache_transparent (env : RuleEnv) fuel (h : RuleMatchHelper H) r s s' x :
  (∀ f, ResolveIP h = Some f → ∀ s, coherent s.1 → coherent (f s).1) →
  (∀ f, FindProcess h = Some f → ∀ s, coherent s.1 → coherent (f s).1) →
  coherent s.1 → Match env fuel h r s = Some (s', x) →
  coherent s'.1 ∧
  ∀ g, r = RGEOIP g →
       x.1 = GEOIP.MatchIp g (side_ip (GEOIP.isSourceIP g)
               (with_ip (GEOIP.noResolveIP g) (GEOIP.isSourceIP g) h s).1).
Proof.
  intros Hr Hf Hc Hm. split.
  - revert Hc. refine (proj1 (Match_respects env (λ _ s s', coherent s.1 → coherent s'.1) _ _ _ _ _ _ fuel)
      h (conj Hr Hf) r s s' x Hm); [done|by auto|done| | |].
    + intros s1 s2 Himp Hc1. apply coherent_swap, Himp. by apply coherent_swap.
    + intros g s1 Hc1. by apply GEOIP_lookup_spec.
    + intros a [m k] Hc1. unfold ASN.lookup. simpl. repeat (case_match; try done).
  - intros g ->. destruct fuel as [|fuel]; [done|]. injection Hm as Hg.
    set (s1 := with_ip _ _ h s) in *.
    assert (coherent s1.1) as Hc1.
    { unfold s1, with_ip, run_hook. destruct (_ && _); [|done]. destruct (ResolveIP h) eqn:E; [by eapply Hr|done]. }
    destruct (GEOIP_lookup_spec g s1 Hc1) as [_ <-]. unfold GEOIP.Match in Hg. fold s1 in Hg. by rewrite Hg.
Qed.

End properties.

(** An IP-SUFFIX rule matches exactly the addresses of the family of its
    prefix whose low bits, as many as the prefix length says, are those of the
    address in the prefix. *)
Theorem ip_suffix_low_bits (payload adapter : string) (isSrc noResolve : bool) (i : IPSuffix.t) (p : Prefix) (ip : Addr) :
  ParsePrefix payload = Some p → IPSuffix.NewIPSuffix payload adapter isSrc noResolve = Ok i →
  IPSuffix.matchIP i ip = true ↔
  BitLen ip = BitLen (paddr p) ∧ addr_val ip mod 2 ^ pbits p = addr_val (paddr p) mod 2 ^ pbits p.
Proof.
  intros Hp Hi. unfold IPSuffix.NewIPSuffix in Hi. rewrite Hp in Hi. injection Hi as <-.
  apply (matchIP_low_bits (IPSuffix.mk _ _ _ _ _ _) (paddr p) ip); [done|]. simpl.
  unfold ParsePrefix in Hp. destruct (cut_last _ _) as [[a b]|]; [|done]. destruct (ParseAddr _) as [q|]; [|done].
  destruct (_ || _); [done|]. destruct (ParseInt _ _) as [bits|]; [|done].
  destruct ((bits <? 0) || (BitLen q <? bits)) eqn:E; [done|]. injection Hp as <-. simpl. breflect. lia.
Qed.

(** A classical rule provider may contain a logic rule on a rule set, also
    on itself; then matching a rule on that provider never answers. *)
Theorem recursive_provider_diverges `{UC : UnicodeCase} `{EX : Externals} {H} (env : RuleEnv) name a p adapter
    (rest : list Rule) fuel (h : RuleMatchHelper H) s :
  RuleProviders env !! name = Some (SClassical (RLogic C.NOT p a [RRuleSet name "" false false] :: rest)) →
  Match env fuel h (RRuleSet name adapter false false) s = None.
Proof.
  intros Hp. revert adapter s. induction fuel as [fuel IH] using lt_wf_ind. intros adapter s.
  destruct fuel as [|[|[|fuel]]]; try done.
  - simpl. unfold RuleSet_Match. by rewrite Hp.
  - cbn. unfold RuleSet_Match. rewrite Hp. cbn. done.
  - change (RuleSet_Match env (Match env (S (S fuel))) h name adapter false false s = None).
    unfold RuleSet_Match. rewrite Hp. cbn [orb strategy_match any_match id].
    change (Match env (S (S fuel)) h (RLogic C.NOT p a [RRuleSet name "" false false]) s)
      with (Logic_Match (Match env (S fuel) h) (matchSubRules env (S fuel) h) C.NOT a [RRuleSet name "" false false] s).
    unfold Logic_Match. by rewrite IH by lia.
Qed.

(** ** Witnesses *)

Section witnesses.
#[local] Existing Instance ascii_case.

(** An MMDB that says "jp" of every address, and nothing else loaded. *)
#[local] Instance demo_externals : Externals := {|
  RegexCompile _ := true;
  RegexMatch _ _ := false;
  GeodataMode := false;
  InitGeoIP := true;
  InitGeoSite := true;
  InitASN := true;
  LoadGeoIPMatcher _ := None;
  LoadGeoSiteMatcher _ := None;
  LookupCode _ := ["jp"];
  LookupASN _ := ("64500", "Example");
  uid_supported := true;
|}.

Definition demo_env : RuleEnv :=
  mkEnv {[ "outer" := [RLogic C.SubRules "(NETWORK,tcp)" "inner" [RNetwork (NetworkType.mk TCP "")]];
           "inner" := [RMatch (Match_.mk "PASS-RULE"); RDomain (Domain.mk "a.org" "proxy")] ]} ∅.

Definition demo_rule : Rule := RLogic C.SubRules "(NETWORK,tcp)" "outer" [RNetwork (NetworkType.mk TCP "outer")].
Definition demo_helper : RuleMatchHelper unit := mkHelper false None None None.
Definition demo_state : Metadata * unit := (set_Host empty_metadata "a.org", tt).

Lemma demo_providers k : Acc (refers demo_env) (inr k).
Proof. constructor. intros k' (x & Hx & _). by apply elem_of_nil in Hx. Qed.

Lemma sub_rules_never_pass_witness :
  matchSubRules demo_env 5 demo_helper "outer" demo_state = Some (demo_state, (true, "proxy")) ∧ "proxy" ≠ "PASS-RULE".
Proof.
  assert (matchSubRules demo_env 5 demo_helper "outer" demo_state = Some (demo_state, (true, "proxy"))) as Hm
    by (vm_compute; reflexivity).
  split; [exact Hm|]. exact (proj1 (sub_rules_never_pass demo_env 5 demo_helper "outer" demo_state demo_state "proxy" Hm)).
Defined.

(** A helper that resolves every host to 192.0.2.1. *)
Definition resolving_helper : RuleMatchHelper unit :=
  mkHelper false (Some (λ s, (if IsValid (DstIP s.1) then s.1 else set_DstIP s.1 (V4 0xC0000201), s.2))) None None.

Definition geo_rule : Rule := RGEOIP (GEOIP.mk "jp" "proxy" false false).

Lemma resolving_coherent (f : Metadata * unit → Metadata * unit) :
  ResolveIP resolving_helper = Some f → ∀ s, coherent s.1 → coherent (f s).1.
Proof.
  intros [= <-] s [Hs Hd]. simpl. destruct (IsValid (DstIP s.1)) eqn:E; [by split|]. split; [done|]. simpl.
  unfold codes_for in *. destruct (DstGeoIP s.1) as [c|]; [|done]. destruct Hd as [Hv _]. by rewrite E in Hv.
Qed.

Lemma geoip_cache_transparent_witness :
  ∃ s', Match demo_env 1 resolving_helper geo_rule demo_state = Some (s', (true, "proxy")) ∧
        coherent s'.1 ∧ true = GEOIP.MatchIp (GEOIP.mk "jp" "proxy" false false) (V4 0xC0000201).
Proof.
  eexists. split; [vm_compute; reflexivity|].
  destruct (geoip_cache_transparent demo_env 1 resolving_helper geo_rule demo_state
    (set_GeoIP (set_DstIP demo_state.1 (V4 0xC0000201)) None (Some ["jp"]), tt) (true, "proxy")) as [Hc Hx].
  - exact resolving_coherent.
  - discriminate.
  - split; exact I.
  - vm_compute. reflexivity.
  - split; [exact Hc|]. exact (Hx (GEOIP.mk "jp" "proxy" false false) eq_refl).
Defined.

Lemma Match_changes_little_witness :
  same_but true demo_state (set_GeoIP (set_DstIP demo_state.1 (V4 0xC0000201)) None (Some ["jp"]), tt).
Proof.
  apply (Match_changes_little demo_env 1 resolving_helper geo_rule demo_state _ (true, "proxy")).
  - intros f [= <-] s. unfold same_but. simpl. by destruct (IsValid (DstIP s.1)).
  - discriminate.
  - vm_compute. reflexivity.
Defined.

Lemma ip_suffix_low_bits_witness :
  IPSuffix.matchIP (IPSuffix.mk [10; 20; 30; 40] 12 "10.20.30.40/12" "proxy" false false) (V4 0x07070E28) = true.
Proof.
  apply (ip_suffix_low_bits "10.20.30.40/12" "proxy" false false _ (mkPrefix (V4 0x0A141E28) 12));
    [reflexivity|reflexivity|split; reflexivity].
Defined.

Lemma recursive_provider_diverges_witness :
  Match (mkEnv ∅ {[ "p" := SClassical [RLogic C.NOT "(RULE-SET,p)" "" [RRuleSet "p" "" false false]] ]}) 50 demo_helper
    (RRuleSet "p" "proxy" false false) demo_state = None.
Proof.
  apply (recursive_provider_diverges _ "p" "" "(RULE-SET,p)" "proxy" [] 50 demo_helper demo_state). reflexivity.
Defined.

End witnesses.
