(* ===== verification/RuleParser.v ===== *)
(** * Parsing rules: [rules/common/base.go], the parser of [rules/logic/logic.go], [rules/parser.go], the rule lists of [config/config.go], classical rule sets and the rule wrapper. *)

From Stdlib Require Import ZArith Lia Ascii.
From stdpp Require Import base list strings numbers gmap.
From S2P Require Import Prelude GoStrings GoNet GoNetText Ranges Metadata Rules.
#[local] Open Scope string_scope.
#[local] Open Scope list_scope.
#[local] Open Scope Z_scope.

(** ** [rules/common/base.go] *)

Definition NoResolve : string := "no-resolve".
Definition Src : string := "src".

(** Returns [isSrc] and [noResolve]. *)
Definition ParseParams (params : list string) : bool * bool :=
  let isSrc := bool_decide (Src ∈ params) in
  (isSrc, if isSrc then true else bool_decide (NoResolve ∈ params)).

Definition is_blank (c : ascii) : bool := bool_decide (c = " "%char).
Definition trimArr (arr : list string) : list string := (λ e, Trim e is_blank) <$> arr.

(** The types whose payload may contain commas and which take no parameters. *)
Definition comma_types : list string :=
  ["NOT"; "OR"; "AND"; "SUB-RULE"; "DOMAIN-REGEX"; "PROCESS-NAME-REGEX"; "PROCESS-PATH-REGEX"].

Record parsed_payload := mkParsed { p_tp : string; p_payload : string; p_target : string; p_params : list string }.

Definition ParseRulePayload `{UnicodeCase} (ruleRaw : string) (needTarget : bool) : parsed_payload :=
  let item := trimArr (Split ruleRaw ",") in
  let tp := ToUpper (hd "" item) in
  match item with
  | _ :: ((payload :: rest) as args) =>
      if decide (tp = "MATCH") then mkParsed tp "" payload []
      else if decide (tp ∈ comma_types) then
        if needTarget then mkParsed tp (Join (removelast args) ",") (List.last args "") []
        else mkParsed tp (Join args ",") "" []
      else match rest with
           | [] => mkParsed tp payload "" []
           | target :: params => if needTarget then mkParsed tp payload target params
                                 else mkParsed tp payload "" rest
           end
  | _ => mkParsed tp "" "" []
  end.

(** ** The payload of a logic rule *)

Module Logic.

Record Range := mkRange { start : nat; end_ : nat }.

Definition containRange (r : Range) (preStart preEnd : nat) : bool := (preStart <? start r)%nat && (end_ r <? preEnd)%nat.

(** The loop over the bytes from index [i]: the open parentheses (innermost
    first) and the closed pairs in the order they were closed. *)
Fixpoint format_loop (l : list ascii) (i : nat) (stack : list nat) (subRanges : list Range)
    : result string (list nat * list Range) :=
  match l with
  | [] => Ok (stack, subRanges)
  | c :: l =>
      if Ascii.eqb c "("%char then format_loop l (S i) (i :: stack) subRanges
      else if Ascii.eqb c ")"%char then
        match stack with
        | [] => Err "missing '('"
        | start :: stack => format_loop l (S i) stack (subRanges ++ [mkRange start i])
        end
      else format_loop l (S i) stack subRanges
  end.

Definition lessStart (r r' : Range) : bool := (start r <? start r')%nat.

Definition format `{SliceSort} (payload : list ascii) : result string (list Range) :=
  let! r := format_loop payload 0 [] [] in
  match r.1 with
  | [] => Ok (sort_slice lessStart r.2)
  | _ => Err "format error is missing )"
  end.

(** One more range for the list of outermost ranges found so far. *)
Definition sub_rule_step (payloadLen : nat) (subRuleRange : list Range) (rr : Range) : list Range :=
  if (start rr =? 0)%nat && (end_ rr =? payloadLen - 1)%nat then subRuleRange
  else if existsb (λ r, containRange rr (start r) (end_ r)) subRuleRange then subRuleRange
  else subRuleRange ++ [rr].

Definition findSubRuleRange (payload : list ascii) (ruleRanges : list Range) : list Range :=
  fold_left (sub_rule_step (length payload)) ruleRanges [].

(** The slice [payload[subRange.start+1 : subRange.end]]. *)
Definition slice (payload : list ascii) (r : Range) : list ascii :=
  take (end_ r - (start r + 1)) (drop (start r + 1) payload).

(** The payloads of the rules inside a payload. *)
Definition sub_payloads `{SliceSort} (payload : string) : result string (list string) :=
  if negb (HasPrefix payload "(") || negb (HasSuffix payload ")") then Err "payload format error"
  else
    let! subAllRanges := format (bytes payload) in
    Ok ((λ r, of_bytes (slice (bytes payload) r)) <$> findSubRuleRange (bytes payload) subAllRanges).

End Logic.

(** ** [rules/parser.go] *)

Section parser.
Context `{UC : UnicodeCase} `{EX : Externals} `{SS : SliceSort}.

(** Rules parsed one after the other, up to the first error. *)
Fixpoint parse_all (parse : string → option (result string Rule)) (l : list string)
    : option (result string (list Rule)) :=
  match l with
  | [] => Some (Ok [])
  | x :: l => match parse x with
              | None => None
              | Some (Err e) => Some (Err e)
              | Some (Ok r) => match parse_all parse l with
                               | Some (Ok rs) => Some (Ok (r :: rs))
                               | e => e
                               end
              end
  end.

(** A rule inside a logic rule: [parse] is [ParseRule]. *)
Definition payloadToRule (parse : string → string → string → list string → option (result string Rule))
    (subPayload : string) : option (result string Rule) :=
  let p := ParseRulePayload subPayload false in
  if decide (p_tp p = "MATCH" ∨ p_tp p = "SUB-RULE")
  then Some (Err ("unsupported rule type [" +:+ p_tp p +:+ "] on logic rule"))
  else if decide (p_tp p = "") then Some (Err ("[" +:+ subPayload +:+ "] format is error"))
  else parse (p_tp p) (p_payload p) (p_target p) (p_params p).

Definition parsePayload (parse : string → string → string → list string → option (result string Rule))
    (payload : string) : option (result string (list Rule)) :=
  match Logic.sub_payloads payload with
  | Err e => Some (Err e)
  | Ok subs => parse_all (payloadToRule parse) subs
  end.

(** [NewSubRule], [NewNOT], [NewOR], [NewAND]: the rules of the payload, and
    how many there must be. *)
Definition NewLogic (parse : string → string → string → list string → option (result string Rule))
    (t : C.RuleType) (payload adapter : string) : option (result string Rule) :=
  match parsePayload parse (if decide (t = C.SubRules) then "(" +:+ payload +:+ ")" else payload) with
  | None => None
  | Some (Err e) => Some (Err e)
  | Some (Ok rules) =>
      Some (match t with
            | C.SubRules => if decide (length rules = 1%nat) then Ok (RLogic t payload adapter rules)
                            else Err "Sub-Rule rule must contain one rule"
            | C.NOT => if decide (length rules = 1%nat) then Ok (RLogic t payload adapter rules)
                       else Err "not rule must contain one rule"
            | _ => Ok (RLogic t payload adapter rules)
            end)
  end.

Definition rmap {A} (f : A → Rule) (r : result string A) : option (result string Rule) :=
  Some (let! a := r in Ok (f a)).

(** The types that are not made of other rules; [None]: no such type. *)
Definition parse_simple (tp payload target : string) (params : list string) : option (option (result string Rule)) :=
  let '(isSrc, noResolve) := ParseParams params in
  if decide (tp = "DOMAIN") then Some (Some (Ok (RDomain (Domain.NewDomain payload target))))
  else if decide (tp = "DOMAIN-SUFFIX") then Some (Some (Ok (RDomainSuffix (DomainSuffix.NewDomainSuffix payload target))))
  else if decide (tp = "DOMAIN-KEYWORD") then Some (Some (Ok (RDomainKeyword (DomainKeyword.NewDomainKeyword payload target))))
  else if decide (tp = "DOMAIN-REGEX") then Some (rmap RDomainRegex (DomainRegex.NewDomainRegex payload target))
  else if decide (tp = "DOMAIN-WILDCARD") then Some (rmap RDomainWildcard (DomainWildcard.NewDomainWildcard payload target))
  else if decide (tp = "GEOSITE") then Some (rmap RGEOSITE (GEOSITE.NewGEOSITE payload target))
  else if decide (tp = "GEOIP") then Some (rmap RGEOIP (GEOIP.NewGEOIP payload target isSrc noResolve))
  else if decide (tp = "SRC-GEOIP") then Some (rmap RGEOIP (GEOIP.NewGEOIP payload target true true))
  else if decide (tp = "IP-ASN") then Some (rmap RIPASN (ASN.NewIPASN payload target isSrc noResolve))
  else if decide (tp = "SRC-IP-ASN") then Some (rmap RIPASN (ASN.NewIPASN payload target true true))
  else if decide (tp = "IP-CIDR" ∨ tp = "IP-CIDR6") then Some (rmap RIPCIDR (IPCIDR.NewIPCIDR payload target isSrc noResolve))
  else if decide (tp = "SRC-IP-CIDR") then Some (rmap RIPCIDR (IPCIDR.NewIPCIDR payload target true true))
  else if decide (tp = "IP-SUFFIX") then Some (rmap RIPSuffix (IPSuffix.NewIPSuffix payload target isSrc noResolve))
  else if decide (tp = "SRC-IP-SUFFIX") then Some (rmap RIPSuffix (IPSuffix.NewIPSuffix payload target true true))
  else if decide (tp = "SRC-PORT") then Some (rmap RPort (Port.NewPort payload target C.SrcPort))
  else if decide (tp = "DST-PORT") then Some (rmap RPort (Port.NewPort payload target C.DstPort))
  else if decide (tp = "IN-PORT") then Some (rmap RPort (Port.NewPort payload target C.InPort))
  else if decide (tp = "DSCP") then Some (rmap RDSCP (DSCP.NewDSCP payload target))
  else if decide (tp = "PROCESS-NAME") then Some (rmap RProcess (Process.NewProcess payload target C.ProcessName))
  else if decide (tp = "PROCESS-PATH") then Some (rmap RProcess (Process.NewProcess payload target C.ProcessPath))
  else if decide (tp = "PROCESS-NAME-REGEX") then Some (rmap RProcess (Process.NewProcess payload target C.ProcessNameRegex))
  else if decide (tp = "PROCESS-PATH-REGEX") then Some (rmap RProcess (Process.NewProcess payload target C.ProcessPathRegex))
  else if decide (tp = "PROCESS-NAME-WILDCARD") then Some (rmap RProcess (Process.NewProcess payload target C.ProcessNameWildcard))
  else if decide (tp = "PROCESS-PATH-WILDCARD") then Some (rmap RProcess (Process.NewProcess payload target C.ProcessPathWildcard))
  else if decide (tp = "NETWORK") then Some (rmap RNetwork (NetworkType.NewNetworkType payload target))
  else if decide (tp = "UID") then Some (rmap RUid (Uid.NewUid payload target))
  else if decide (tp = "IN-TYPE") then Some (rmap RInType (InType.NewInType payload target))
  else if decide (tp = "IN-USER") then Some (rmap RInUser (InUser.NewInUser payload target))
  else if decide (tp = "IN-NAME") then Some (rmap RInName (InName.NewInName payload target))
  else if decide (tp = "REMATCH-NAME") then Some (rmap RRematchName (RematchName.NewRematchName payload target))
  else if decide (tp = "RULE-SET") then Some (Some (Ok (RRuleSet payload target isSrc noResolve)))
  else if decide (tp = "MATCH") then Some (Some (Ok (RMatch (Match_.NewMatch target))))
  else None.

Fixpoint ParseRule (fuel : nat) (tp payload target : string) (params : list string) : option (result string Rule) :=
  match fuel with
  | O => None
  | S fuel =>
      if decide (tp ≠ "MATCH" ∧ payload = "") then Some (Err ("missing subsequent parameters: " +:+ tp))
      else match parse_simple tp payload target params with
           | Some r => r
           | None =>
               if decide (tp = "SUB-RULE") then NewLogic (ParseRule fuel) C.SubRules payload target
               else if decide (tp = "AND") then NewLogic (ParseRule fuel) C.AND payload target
               else if decide (tp = "OR") then NewLogic (ParseRule fuel) C.OR payload target
               else if decide (tp = "NOT") then NewLogic (ParseRule fuel) C.NOT payload target
               else Some (Err ("unsupported rule type: " +:+ tp))
           end
  end.

(** Every level of nesting takes at least one byte of the payload. *)
Definition parse_rule (tp payload target : string) (params : list string) : option (result string Rule) :=
  ParseRule (S (String.length payload)) tp payload target params.

(** ** The rule lists of a configuration *)

(** One line of [parseRules]; only the names of proxies, providers and
    sub-rules matter. *)
Definition parse_line (proxies ruleProviders subRules : list string) (line : string) : option (result string Rule) :=
  let p := ParseRulePayload line true in
  if decide (p_target p = "") then Some (Err "format invalid")
  else if bool_decide (p_target p ∉ proxies) && bool_decide (p_tp p ≠ "SUB-RULE") then Some (Err "proxy not found")
  else if bool_decide (p_target p ∉ proxies) && bool_decide (p_target p ∉ subRules) then Some (Err "sub-rule not found")
  else match parse_rule (p_tp p) (p_payload p) (p_target p) (p_params p) with
       | Some (Ok r) => if forallb (λ n, bool_decide (n ∈ ruleProviders)) (ProviderNames r) then Some (Ok r)
                        else Some (Err "rule set not found")
       | e => e
       end.

Definition parseRules (proxies ruleProviders subRules lines : list string) : option (result string (list Rule)) :=
  parse_all (parse_line proxies ruleProviders subRules) lines.

(** ** Classical rule sets *)

Record classicalStrategy := mkClassical { cs_rules : list Rule; cs_count : Z }.

Definition NewClassicalStrategy : classicalStrategy := mkClassical [] 0.
Definition cs_Reset (c : classicalStrategy) : classicalStrategy := mkClassical [] 0.

Definition cs_payloadToRule (rule : string) : option (result string Rule) :=
  let p := ParseRulePayload rule false in
  if decide (p_tp p = "MATCH" ∨ p_tp p = "RULE-SET" ∨ p_tp p = "SUB-RULE")
  then Some (Err ("unsupported rule type on classical rule-set: " +:+ p_tp p))
  else parse_rule (p_tp p) (p_payload p) (p_target p) (p_params p).

(** A rule that does not parse is skipped with a warning. *)
Definition cs_Insert (c : classicalStrategy) (rule : string) : option classicalStrategy :=
  match cs_payloadToRule rule with
  | None => None
  | Some (Err _) => Some c
  | Some (Ok r) => Some (mkClassical (cs_rules c ++ [r]) (cs_count c + 1))
  end.

End parser.

(** ** [rules/wrapper/wrapper.go] *)

Record RuleWrapper := mkWrapper {
  w_rule : Rule;
  w_disabled : bool;
  w_hitCount : Z;
  w_hitAt : Z;
  w_missCount : Z;
  w_missAt : Z;
}.

Definition NewRuleWrapper (r : Rule) : RuleWrapper := mkWrapper r false 0 0 0 0.
Definition SetDisabled (w : RuleWrapper) (v : bool) : RuleWrapper :=
  mkWrapper (w_rule w) v (w_hitCount w) (w_hitAt w) (w_missCount w) (w_missAt w).

(** The counters are 64 bits wide; [now] is the time in nanoseconds. *)
Definition Hit (w : RuleWrapper) (now : Z) : RuleWrapper :=
  mkWrapper (w_rule w) (w_disabled w) (wrap 64 (w_hitCount w + 1)) now (w_missCount w) (w_missAt w).
Definition Miss (w : RuleWrapper) (now : Z) : RuleWrapper :=
  mkWrapper (w_rule w) (w_disabled w) (w_hitCount w) (w_hitAt w) (wrap 64 (w_missCount w + 1)) now.

Definition wrapper_Match `{UnicodeCase} `{Externals} {H} (env : RuleEnv) (fuel : nat) (now : Z)
    (h : RuleMatchHelper H) (w : RuleWrapper) (s : Metadata * H)
    : option (RuleWrapper * (Metadata * H) * (bool * string)) :=
  if w_disabled w then Some (w, s, (false, ""))
  else match Match env fuel h (w_rule w) s with
       | None => None
       | Some (s, (ok, adapter)) =>
           Some (if Diagnostic h then w else if ok then Hit w now else Miss w now, s, (ok, adapter))
       end.
