(* ===== verification/RuleParserTheory.v ===== *)
(** * Theory of the rule parser: nesting of parentheses, termination, what parsed rules look like. *)

From Stdlib Require Import ZArith Lia Ascii.
From stdpp Require Import base list strings numbers gmap sorting.
From S2P Require Import Prelude GoStrings GoNet GoNetText Ranges Metadata Rules RulesTheory RuleParser.
#[local] Open Scope string_scope.
#[local] Open Scope list_scope.
#[local] Open Scope nat_scope.
Import Logic.

(** ** Well-nested byte strings *)

Inductive nest :=
| NNil
| NChar (c : ascii) (rest : nest)
| NGroup (inner rest : nest).

Fixpoint show (n : nest) : list ascii :=
  match n with
  | NNil => []
  | NChar c r => c :: show r
  | NGroup a r => "("%char :: show a ++ ")"%char :: show r
  end.

Fixpoint ok_nest (n : nest) : Prop :=
  match n with
  | NNil => True
  | NChar c r => c ≠ "("%char ∧ c ≠ ")"%char ∧ ok_nest r
  | NGroup a r => ok_nest a ∧ ok_nest r
  end.

(** The groups that are not inside another group. *)
Fixpoint tops (n : nest) : list nest :=
  match n with
  | NNil => []
  | NChar _ r => tops r
  | NGroup a r => a :: tops r
  end.

(** All pairs of parentheses, by the position of the opening one. *)
Fixpoint pairs (n : nest) (i : nat) : list Range :=
  match n with
  | NNil => []
  | NChar _ r => pairs r (S i)
  | NGroup a r => mkRange i (i + length (show a) + 1) :: pairs a (S i) ++ pairs r (i + length (show a) + 2)
  end.

Fixpoint top_pairs (n : nest) (i : nat) : list Range :=
  match n with
  | NNil => []
  | NChar _ r => top_pairs r (S i)
  | NGroup a r => mkRange i (i + length (show a) + 1) :: top_pairs r (i + length (show a) + 2)
  end.

Definition within (i j : nat) (r : Range) : Prop := i ≤ start r ∧ start r < end_ r ∧ end_ r < j.

Lemma within_weaken i j i' j' r : i' ≤ i → j ≤ j' → within i j r → within i' j' r.
Proof. unfold within. lia. Qed.

Lemma pairs_within n i : Forall (within i (i + length (show n))) (pairs n i).
Proof.
  revert i. induction n as [|c r IH|a IHa r IHr]; intros i; simpl; [constructor| |].
  - eapply Forall_impl; [apply IH|]. intros x. apply within_weaken; lia.
  - rewrite length_app. simpl. constructor; [unfold within; simpl; lia|]. apply Forall_app_2.
    + eapply Forall_impl; [apply IHa|]. intros x. apply within_weaken; lia.
    + eapply Forall_impl; [apply IHr|]. intros x. apply within_weaken; lia.
Qed.

Lemma pairs_sorted n i : StronglySorted (λ r r', start r < start r') (pairs n i).
Proof.
  revert i. induction n as [|c r IH|a IHa r IHr]; intros i; simpl; [constructor|apply IH|].
  pose proof (pairs_within a (S i)) as Ha. pose proof (pairs_within r (i + length (show a) + 2)) as Hr.
  rewrite Forall_forall in Ha, Hr. constructor.
  - apply StronglySorted_app_2; [|apply IHa|apply IHr]. intros x y Hx%Ha Hy%Hr. unfold within in *. lia.
  - apply Forall_app_2; apply list.Forall_forall; intros x Hx; [apply Ha in Hx|apply Hr in Hx]; unfold within in *; simpl; lia.
Qed.

(** [format_loop] over a well-nested string closes all its pairs. *)
Lemma format_loop_show n rest i stack sub :
  ok_nest n →
  ∃ l, l ≡ₚ pairs n i ∧
       format_loop (show n ++ rest) i stack sub = format_loop rest (i + length (show n)) stack (sub ++ l).
Proof.
  revert rest i stack sub. induction n as [|c r IH|a IHa r IHr]; intros rest i stack sub Hok; simpl.
  - exists []. split; [done|]. by rewrite Nat.add_0_r, app_nil_r.
  - destruct Hok as (H1 & H2 & Hr). destruct (Ascii.eqb_spec c "("); [done|]. destruct (Ascii.eqb_spec c ")"); [done|].
    destruct (IH rest (S i) stack sub Hr) as (l & Hl & ->). exists l. split; [done|]. f_equal. lia.
  - destruct Hok as [Ha Hr]. rewrite <- app_assoc. simpl.
    destruct (IHa (")"%char :: (show r ++ rest)) (S i) (i :: stack) sub Ha) as (la & Hla & ->). simpl.
    destruct (IHr rest (S (S (i + length (show a)))) stack ((sub ++ la) ++ [mkRange i (S (i + length (show a)))]) Hr) as (lr & Hlr & ->).
    exists (la ++ [mkRange i (S (i + length (show a)))] ++ lr). split.
    + replace (i + length (show a) + 1) with (S (i + length (show a))) by lia.
      replace (i + length (show a) + 2) with (S (S (i + length (show a)))) by lia.
      rewrite Hla, Hlr. simpl. by rewrite Permutation_middle.
    + rewrite length_app. simpl. f_equal; [lia|]. by rewrite <- !app_assoc.
Qed.

(** Two sorted permutations are equal when the starts are distinct. *)
Lemma sort_pairs `{SliceSort} l n i : l ≡ₚ pairs n i → sort_slice lessStart l = pairs n i.
Proof.
  intros Hl. assert (sort_slice lessStart l ≡ₚ pairs n i) as Hp by (by rewrite sort_slice_perm).
  assert (StronglySorted (λ r r', start r < start r') (sort_slice lessStart l)) as Hs.
  { assert (StronglySorted (λ x y, lessStart y x = false) (sort_slice lessStart l)) as Hs.
    { apply sort_slice_sorted; unfold lessStart; intros *; rewrite ?Nat.ltb_lt, ?Nat.ltb_ge; lia. }
    assert (NoDup (start <$> sort_slice lessStart l)) as Hnd.
    { rewrite Hp. pose proof (pairs_sorted n i) as Hps. clear -Hps. induction Hps as [|x m Hm IH Hx]; simpl; [constructor|].
      constructor; [|done]. intros (y & Hy & Hin)%list_elem_of_fmap. rewrite Forall_forall in Hx. apply Hx in Hin. lia. }
    clear Hp. induction Hs as [|x m Hm IH Hx]; [constructor|]. simpl in Hnd. apply list.NoDup_cons in Hnd as [Hni Hnd].
    constructor; [by apply IH|]. rewrite Forall_forall in Hx |- *. intros y Hy. specialize (Hx y Hy).
    unfold lessStart in Hx. apply Nat.ltb_ge in Hx. assert (start x ≠ start y); [|lia].
    intros He. apply Hni. rewrite He. by apply list_elem_of_fmap_2. }
  apply (StronglySorted_unique_strong (λ r r', start r < start r')); [|done|apply pairs_sorted|done].
  intros x y _ _. lia.
Qed.

(** ** The outermost pairs *)

Lemma sub_rule_contained len acc l :
  Forall (λ rr, existsb (λ r, containRange rr (start r) (end_ r)) acc = true) l →
  fold_left (sub_rule_step len) l acc = acc.
Proof.
  induction 1 as [|rr l Hrr _ IH]; simpl; [done|]. unfold sub_rule_step at 2. rewrite Hrr. by destruct (_ && _).
Qed.

Lemma find_tops len n i acc :
  1 ≤ i → Forall (λ r, end_ r < i) acc →
  fold_left (sub_rule_step len) (pairs n i) acc = acc ++ top_pairs n i.
Proof.
  revert i acc. induction n as [|c r IH|a IHa r IHr]; intros i acc Hi Hacc; simpl; [by rewrite app_nil_r| |].
  - apply IH; [lia|]. eapply Forall_impl; [exact Hacc|]. simpl. lia.
  - set (g := mkRange i (i + length (show a) + 1)).
    assert (sub_rule_step len acc g = acc ++ [g]) as ->.
    { unfold sub_rule_step. simpl. destruct (Nat.eqb_spec i 0); [lia|]. simpl.
      assert (existsb (λ r0, containRange g (start r0) (end_ r0)) acc = false) as ->; [|done].
      apply not_true_iff_false. rewrite existsb_exists. intros (x & Hx & Hc). rewrite List.Forall_forall in Hacc.
      apply Hacc in Hx. unfold containRange in Hc. apply andb_true_iff in Hc as [_ Hc%Nat.ltb_lt]. simpl in Hc. lia. }
    rewrite fold_left_app, (sub_rule_contained len (acc ++ [g]) (pairs a (S i))).
    + rewrite IHr; [by rewrite <- app_assoc|lia|]. apply Forall_app_2.
      * eapply Forall_impl; [exact Hacc|]. simpl. lia.
      * constructor; [simpl; lia|constructor].
    + eapply Forall_impl; [apply (pairs_within a (S i))|]. intros x Hx. rewrite existsb_app. apply orb_true_iff. right.
      simpl. unfold containRange, within in *. rewrite orb_false_r. apply andb_true_iff. simpl.
      rewrite !Nat.ltb_lt. lia.
Qed.

Lemma slice_middle (p a q : list ascii) : slice (p ++ "("%char :: a ++ ")"%char :: q) (mkRange (length p) (length p + length a + 1)) = a.
Proof.
  unfold slice. simpl. replace (length p + 1) with (length (p ++ ["("%char])) by (rewrite length_app; simpl; lia).
  change (p ++ "("%char :: a ++ ")"%char :: q) with (p ++ ["("%char] ++ (a ++ ")"%char :: q)).
  rewrite (app_assoc p), drop_app_length.
  replace (length p + length a + 1 - length (p ++ ["("%char])) with (length a) by (rewrite length_app; simpl; lia).
  apply take_app_length.
Qed.

Lemma slices_tops p n q : slice (p ++ show n ++ q) <$> top_pairs n (length p) = show <$> tops n.
Proof.
  revert p. induction n as [|c r IH|a IHa r IHr]; intros p; simpl; [done| |].
  - specialize (IH (p ++ [c])). rewrite length_app, <- app_assoc in IH. simpl in IH.
    by replace (length p + 1) with (S (length p)) in IH by lia.
  - rewrite <- app_assoc. simpl. rewrite slice_middle. f_equal.
    specialize (IHr (p ++ "("%char :: show a ++ [")"%char])).
    replace (length (p ++ "("%char :: show a ++ [")"%char])) with (length p + length (show a) + 2) in IHr
      by (rewrite length_app; simpl; rewrite length_app; simpl; lia).
    etrans; [|exact IHr]. apply list_fmap_ext. intros _ x _. f_equal. rewrite <- app_assoc. simpl. by rewrite <- app_assoc.
Qed.

Lemma HasPrefix_of_bytes (l : list ascii) c : HasPrefix (of_bytes (c :: l)) (String c "") = true.
Proof. simpl. rewrite bool_decide_eq_true_2 by done. by destruct (of_bytes l). Qed.

Lemma HasSuffix_of_bytes (l : list ascii) c : HasSuffix (of_bytes (l ++ [c])) (String c "") = true.
Proof.
  induction l as [|x l IH]; simpl; [by rewrite bool_decide_eq_true_2|]. rewrite IH. apply orb_true_r.
Qed.

Lemma sub_payloads_show `{SliceSort} body :
  ok_nest body →
  sub_payloads (of_bytes (show (NGroup body NNil))) = Ok ((λ n, of_bytes (show n)) <$> tops body).
Proof.
  intros Hok. unfold sub_payloads. cbn [show].
  assert (HasSuffix (of_bytes ("("%char :: show body ++ [")"%char])) ")" = true) as ->
    by apply (HasSuffix_of_bytes ("("%char :: show body)).
  rewrite HasPrefix_of_bytes. cbn [negb orb].
  rewrite bytes_of_bytes.
  destruct (format_loop_show (NGroup body NNil) [] 0 [] []) as (l & Hl & Hf); [done|].
  rewrite app_nil_r in Hf. unfold format. cbn [show] in Hf. rewrite Hf. simpl. rewrite (sort_pairs l (NGroup body NNil) 0 Hl).
  f_equal. unfold findSubRuleRange. cbn [pairs fold_left]. rewrite app_nil_r.
  assert (sub_rule_step (length ("("%char :: show body ++ [")"%char])) [] (mkRange 0 (0 + length (show body) + 1)) = []) as ->.
  { unfold sub_rule_step. simpl. rewrite length_app. simpl. rewrite Nat.sub_0_r. by rewrite Nat.eqb_refl. }
  rewrite find_tops by (lia || constructor). simpl.
  pose proof (slices_tops ["("%char] body [")"%char]) as Hsl. simpl in Hsl.
  etrans; [apply (list_fmap_compose (slice ("("%char :: show body ++ [")"%char])) of_bytes)|].
  rewrite Hsl. symmetry. apply (list_fmap_compose show of_bytes).
Qed.

(** ** Payloads get shorter *)

Lemma length_string_app (s t : string) : String.length (s +:+ t) = String.length s + String.length t.
Proof. induction s as [|c s IH]; [done|]. change ((String c s) +:+ t) with (String c (s +:+ t)). simpl. by rewrite IH. Qed.

Lemma Join_cons2 x y l sep : Join (x :: y :: l) sep = x +:+ sep +:+ Join (y :: l) sep.
Proof. done. Qed.

Lemma length_Join_le l l' sep :
  Forall2 (λ x y, String.length x ≤ String.length y) l l' → String.length (Join l sep) ≤ String.length (Join l' sep).
Proof.
  induction 1 as [|x y l l' Hxy Hl IH]; [done|]. destruct l as [|x2 l], l' as [|y2 l']; [done|by inversion Hl..|].
  rewrite !Join_cons2, !length_string_app. lia.
Qed.

Lemma length_Join_tail x l sep : String.length (Join l sep) ≤ String.length (Join (x :: l) sep).
Proof. destruct l as [|y l]; [simpl; lia|]. rewrite Join_cons2, !length_string_app. lia. Qed.

Lemma length_Join_head x l sep : String.length x ≤ String.length (Join (x :: l) sep).
Proof. destruct l as [|y l]; [done|]. rewrite Join_cons2, !length_string_app. lia. Qed.

Lemma length_trim_left f s : String.length (trim_left f s) ≤ String.length s.
Proof. induction s as [|c s IH]; simpl; [done|]. destruct (f c); simpl; lia. Qed.

Lemma length_trim_right f s : String.length (trim_right f s) ≤ String.length s.
Proof. induction s as [|c s IH]; simpl; [done|]. destruct (trim_right f s); [destruct (f c); simpl; lia|simpl in *; lia]. Qed.

Lemma length_Trim f s : String.length (Trim s f) ≤ String.length s.
Proof. unfold Trim. etrans; [apply length_trim_right|apply length_trim_left]. Qed.

Lemma length_trimArr (raw : string) : String.length (Join (trimArr (Split raw ",")) ",") ≤ String.length raw.
Proof.
  pose proof (length_Join_le (trimArr (Split raw ",")) (Split raw ",") ",") as Hj. rewrite Join_Split in Hj.
  apply Hj. unfold trimArr. clear Hj. induction (Split raw ",") as [|x l IH]; simpl; constructor; [apply length_Trim|done].
Qed.

Lemma payload_shorter `{UnicodeCase} raw : String.length (p_payload (ParseRulePayload raw false)) ≤ String.length raw.
Proof.
  pose proof (length_trimArr raw) as Hl. unfold ParseRulePayload. destruct (trimArr (Split raw ",")) as [|tp [|x l]];
    [simpl; lia|simpl; lia|].
  pose proof (length_Join_tail tp (x :: l) ",") as Ht. pose proof (length_Join_head x l ",") as Hh.
  destruct (decide _); [simpl; lia|]. destruct (decide _); [cbn [p_payload]; lia|]. destruct l; cbn [p_payload]; lia.
Qed.

(** ** The ranges a parser slices *)

Lemma format_loop_bounds l i stack sub stack' sub' :
  format_loop l i stack sub = Ok (stack', sub') →
  Forall (λ j, j < i) stack → Forall (within 0 i) sub → Forall (within 0 (i + length l)) sub'.
Proof.
  revert i stack sub. induction l as [|c l IH]; intros i stack sub; simpl.
  - intros [= <- <-] _ Hs. eapply Forall_impl; [exact Hs|]. intros x. apply within_weaken; lia.
  - replace (i + S (length l)) with (S i + length l) by lia.
    assert (Forall (within 0 i) sub → Forall (within 0 (S i)) sub) as Hw.
    { intros Hs. eapply Forall_impl; [exact Hs|]. intros x. apply within_weaken; lia. }
    assert (Forall (λ j, j < i) stack → Forall (λ j, j < S i) stack) as Hst.
    { intros Hs. eapply Forall_impl; [exact Hs|]. simpl. lia. }
    destruct (Ascii.eqb c "("); [intros Hf Hs Hr; eapply IH; [exact Hf| |by auto]; constructor; [lia|by auto]|].
    destruct (Ascii.eqb c ")"); [|intros Hf Hs Hr; eapply IH; [exact Hf|by auto|by auto]].
    destruct stack as [|j stack]; [done|]. intros Hf [Hj Hs]%Forall_cons Hr. eapply IH; [exact Hf| |].
    + eapply Forall_impl; [exact Hs|]. simpl. lia.
    + apply Forall_app_2; [by auto|]. constructor; [|constructor]. unfold within; simpl. lia.
Qed.

Lemma find_subset len l acc r :
  r ∈ fold_left (sub_rule_step len) l acc → r ∈ acc ∨ (r ∈ l ∧ ¬ (start r = 0 ∧ end_ r = len - 1)).
Proof.
  revert acc. induction l as [|x l IH]; intros acc; simpl; [by left|]. intros Hr. apply IH in Hr as [Hr|[Hr Hw]].
  - unfold sub_rule_step in Hr. destruct ((start x =? 0) && (end_ x =? len - 1)) eqn:E; [by left|].
    destruct (existsb _ acc); [by left|]. apply elem_of_app in Hr as [Hr|Hr]; [by left|].
    apply list_elem_of_singleton in Hr as ->. right. split; [left|]. intros [H1 H2].
    apply andb_false_iff in E as [E|E]; apply Nat.eqb_neq in E; done.
  - right. split; [by right|done].
Qed.

Lemma length_slice p r : length (slice p r) ≤ end_ r - (start r + 1).
Proof. unfold slice. rewrite length_take. lia. Qed.

Lemma length_of_bytes l : String.length (of_bytes l) = length l.
Proof. by rewrite <- length_bytes, bytes_of_bytes. Qed.

Lemma sub_payloads_shorter `{SliceSort} payload subs x :
  sub_payloads payload = Ok subs → x ∈ subs → String.length x + 3 ≤ String.length payload.
Proof.
  unfold sub_payloads. destruct (_ || _); [done|]. unfold format.
  destruct (format_loop (bytes payload) 0 [] []) as [[stack sub]|] eqn:Ef; simpl; [|done].
  destruct stack; simpl; [|done]. intros [= <-] (r & -> & Hr)%list_elem_of_fmap.
  apply find_subset in Hr as [Hr|[Hr Hw]]; [by apply elem_of_nil in Hr|].
  rewrite sort_slice_perm in Hr.
  pose proof (format_loop_bounds _ _ _ _ _ _ Ef (Forall_nil_2 _) (Forall_nil_2 _)) as Hb. simpl in Hb.
  rewrite Forall_forall in Hb. apply Hb in Hr as (H1 & H2 & H3). rewrite length_bytes in *. rewrite length_of_bytes.
  pose proof (length_slice (bytes payload) r). lia.
Qed.

(** ** The parser always answers *)

Section total.
Context `{UC : UnicodeCase} `{EX : Externals} `{SS : SliceSort}.

Lemma parse_all_answers (parse : string → option (result string Rule)) l :
  (∀ x, x ∈ l → is_Some (parse x)) → is_Some (parse_all parse l).
Proof.
  induction l as [|x l IH]; intros Hp; simpl; [by eexists|].
  destruct (Hp x) as [[r|e] ->]; [left| |by eexists].
  destruct IH as [[rs|e] ->]; [intros; apply Hp; by right|by eexists|by eexists].
Qed.

Lemma NewLogic_answers parse t payload adapter :
  (∀ tp p target params, String.length p < String.length payload → is_Some (parse tp p target params)) →
  is_Some (NewLogic parse t payload adapter).
Proof.
  intros Hp. unfold NewLogic, parsePayload.
  set (w := if decide (t = C.SubRules) then "(" +:+ payload +:+ ")" else payload).
  assert (String.length w ≤ String.length payload + 2) as Hw.
  { unfold w. destruct (decide _); [|lia]. rewrite !length_string_app. simpl. lia. }
  destruct (sub_payloads w) as [subs|e] eqn:Es; [|by eexists].
  destruct (parse_all_answers (payloadToRule parse) subs) as [[rs|e] ->]; [|by eexists|by eexists].
  intros x Hx. unfold payloadToRule. pose proof (payload_shorter x). revert H.
  generalize (ParseRulePayload x false). intros p Hlen. cbv zeta.
  case_decide; [by eexists|]. case_decide; [by eexists|]. apply Hp. pose proof (sub_payloads_shorter _ _ _ Es Hx). lia.
Qed.

Lemma parse_simple_answers tp payload target params r :
  parse_simple tp payload target params = Some r → is_Some r.
Proof.
  unfold parse_simple, rmap. destruct (ParseParams params) as [isSrc nr].
  intros Hs. repeat (case_decide; [injection Hs as <-; eexists; reflexivity|]). done.
Qed.

Lemma ParseRule_answers fuel tp payload target params :
  String.length payload < fuel → is_Some (ParseRule fuel tp payload target params).
Proof.
  revert tp payload target params. induction fuel as [|fuel IH]; intros tp payload target params Hf; [lia|].
  cbn [ParseRule]. destruct (decide _); [by eexists|].
  destruct (parse_simple tp payload target params) as [r|] eqn:Es; [by eapply parse_simple_answers|].
  repeat (destruct (decide _); [apply NewLogic_answers; intros; apply IH; lia|]). by eexists.
Qed.

End total.

(** ** SUB-RULE is parsed only outside of logic rules *)

Section on_top.
Context `{UC : UnicodeCase} `{EX : Externals} `{SS : SliceSort}.

Definition sub_free (r : Rule) : Prop := ∀ n, inl n ∉ refs r.

Lemma leaf_sub_free r :
  (∀ t p a rules, r ≠ RLogic t p a rules) → RuleType r ≠ C.SubRules → sub_free r.
Proof.
  intros Hleaf Ht n. destruct r as [| | | | | | | | | | | | | | | | | | | |m a x y|t p a rules];
    cbn [refs]; rewrite ?decide_False by done; simpl; try (intros Hn; by apply elem_of_nil in Hn).
  - intros Hn. apply list_elem_of_singleton in Hn. done.
  - by destruct (Hleaf t p a rules).
Qed.

Lemma NewPort_type p a t r : Port.NewPort p a t = Ok r → Port.ruleType r = t.
Proof. unfold Port.NewPort. repeat (case_match; try done). by intros [= <-]. Qed.

Lemma NewProcess_type p a t r : Process.NewProcess p a t = Ok r → Process.ruleType r = t.
Proof. unfold Process.NewProcess. destruct t; repeat (case_match; try done); by intros [= <-]. Qed.

Lemma rmap_inv {A} (f : A → Rule) x r : rmap f x = Some (Ok r) → ∃ a, x = Ok a ∧ r = f a.
Proof. unfold rmap. destruct x as [a|e]; [|done]. intros [= <-]. eauto. Qed.

Lemma parse_simple_sub_free tp payload target params r :
  parse_simple tp payload target params = Some (Some (Ok r)) → sub_free r.
Proof.
  unfold parse_simple. destruct (ParseParams params) as [isSrc nr]. intros Hs.
  repeat (case_decide; [
    first [ let a := fresh "a" in let Ha := fresh "Ha" in
            apply (inj Some), rmap_inv in Hs as (a & Ha & ->);
            try apply NewPort_type in Ha; try apply NewProcess_type in Ha
          | injection Hs as <- ];
    apply leaf_sub_free; [discriminate|];
    simpl; try congruence; try discriminate;
    try (unfold GEOIP.RuleType, ASN.RuleType, IPCIDR.RuleType, IPSuffix.RuleType; case_match; discriminate) |]).
  done.
Qed.

Lemma parse_all_forall (P : Rule → Prop) parse l rs :
  (∀ x r, parse x = Some (Ok r) → P r) → parse_all parse l = Some (Ok rs) → Forall P rs.
Proof.
  intros HP. revert rs. induction l as [|x l IH]; intros rs; simpl; [intros [= <-]; constructor|].
  destruct (parse x) as [[r|e]|] eqn:E; [|done|done].
  destruct (parse_all parse l) as [[rs'|e]|]; [|done|done]. intros [= <-]. constructor; [by eapply HP|by apply IH].
Qed.

Lemma concat_refs_sub_free rules n : Forall sub_free rules → inl n ∉ List.concat (List.map refs rules).
Proof.
  induction 1 as [|r rules Hr _ IH]; simpl; [apply not_elem_of_nil|]. intros [Hn|Hn]%elem_of_app; [by apply (Hr n)|done].
Qed.

Lemma NewLogic_on_top (parse : string → string → string → list string → option (result string Rule)) t payload adapter r :
  (∀ tp p target params x, tp ≠ "SUB-RULE" → parse tp p target params = Some (Ok x) → sub_free x) →
  NewLogic parse t payload adapter = Some (Ok r) →
  sub_rules_on_top r ∧ (t ≠ C.SubRules → sub_free r).
Proof.
  intros Hp. unfold NewLogic, parsePayload. destruct (sub_payloads _) as [subs|e]; [|done].
  destruct (parse_all (payloadToRule parse) subs) as [[rules|e]|] eqn:Ea; [|done|done].
  apply (parse_all_forall sub_free) in Ea.
  2:{ intros x y. unfold payloadToRule. generalize (ParseRulePayload x false). intros q. cbv zeta.
      case_decide as H1; [done|]. case_decide; [done|]. apply Hp. intros Heq. apply H1. by right. }
  intros Hr. assert (r = RLogic t payload adapter rules) as ->.
  { destruct t; repeat case_decide; congruence. }
  pose proof (λ n, concat_refs_sub_free rules n Ea) as Hnone. clear Hr. split.
  - intros n. cbn [refs RuleType Adapter]. case_decide as Ht; simpl; [|intros Hn; by destruct (Hnone n Hn)].
    intros [Hn|Hn]%elem_of_cons; [by injection Hn as <-|by destruct (Hnone n Hn)].
  - intros Ht n. cbn [refs RuleType]. rewrite decide_False by done. apply Hnone.
Qed.

Lemma ParseRule_on_top fuel tp payload target params r :
  ParseRule fuel tp payload target params = Some (Ok r) →
  sub_rules_on_top r ∧ (tp ≠ "SUB-RULE" → sub_free r).
Proof.
  revert tp payload target params r. induction fuel as [|fuel IH]; intros tp payload target params r; [done|].
  cbn [ParseRule]. case_decide; [done|].
  destruct (parse_simple tp payload target params) as [x|] eqn:Es.
  { intros ->. apply parse_simple_sub_free in Es. split; [|done]. intros n Hn. by destruct (Es n Hn). }
  assert (∀ tp p target params x, tp ≠ "SUB-RULE" → ParseRule fuel tp p target params = Some (Ok x) → sub_free x) as Hp
    by (intros *; intros Ht Hx; by eapply IH).
  repeat (case_decide; [intros Hl; apply NewLogic_on_top in Hl as [? Hf]; [|done]; split; [done|intros; by apply Hf]|]).
  done.
Qed.

End on_top.

(** ** Properties *)

Section properties.
Context `{UC : UnicodeCase} `{EX : Externals} `{SS : SliceSort}.

(** The payload of a logic rule, a well-nested text in parentheses, is cut
    into the texts of its outermost inner groups, in order: deeper parentheses
    (nested logic rules, regular expressions) stay inside their group. *)
Theorem logic_payload_split parse (body : nest) :
  ok_nest body →
  parsePayload parse (of_bytes (show (NGroup body NNil))) =
  parse_all (payloadToRule parse) ((λ n, of_bytes (show n)) <$> tops body).
Proof. intros Hok. unfold parsePayload. by rewrite sub_payloads_show. Qed.

(** Parsing a rule always answers, with a rule or an error, whatever the
    text: as much fuel as the payload has bytes is enough for its nesting. *)
Theorem ParseRule_terminates tp payload target params : is_Some (parse_rule tp payload target params).
Proof. apply ParseRule_answers. lia. Qed.

(** C5. When the sub-rules of a configuration were parsed from its text and
    their check has passed, and rule providers do not refer to each other in a
    circle, matching any rule gives an answer, for every helper and metadata,
    within an amount of fuel that depends on the rule only: a SUB-RULE cannot
    hide inside a logic rule, so the check sees every reference. *)
Theorem parsed_rules_terminate {H} (env : RuleEnv) (r : Rule) :
  (∀ k rules, subRules env !! k = Some rules →
     ∃ proxies providers names lines, parseRules proxies providers names lines = Some (Ok rules)) →
  verifySubRule (subRules env) = Some (Ok tt) →
  (∀ k, Acc (refers env) (inr k)) →
  ∃ fuel, ∀ (h : RuleMatchHelper H) s, is_Some (Match env fuel h r s).
Proof.
  intros Hparsed Hv Hprov. apply verified_total; [done| |done]. intros k x Hx.
  destruct (subRules env !! k) as [rules|] eqn:Ek; [|by apply elem_of_nil in Hx].
  destruct (Hparsed k rules Ek) as (proxies & providers & names & lines & Hl).
  apply (parse_all_forall sub_rules_on_top) in Hl; [rewrite Forall_forall in Hl; by apply Hl|].
  intros line y. unfold parse_line. generalize (ParseRulePayload line true). intros q. cbv zeta.
  case_decide; [done|]. destruct (_ && _); [done|]. destruct (_ && _); [done|].
  destruct (parse_rule _ _ _ _) as [[z|e]|] eqn:Ep; [|done|done]. destruct (forallb _ _); [|done]. intros [= <-].
  by eapply ParseRule_on_top.
Qed.

End properties.

(** ** Witnesses *)

Section witnesses.
#[local] Existing Instance ascii_case.
#[local] Existing Instance merge_sort_slices.
#[local] Existing Instance demo_externals.

Fixpoint nest_of (l : list ascii) : nest := match l with [] => NNil | c :: l => NChar c (nest_of l) end.

(** [(NETWORK,tcp),(DOMAIN,a.org)]. *)
Definition demo_body : nest :=
  NGroup (nest_of (bytes "NETWORK,tcp")) (NChar ","%char (NGroup (nest_of (bytes "DOMAIN,a.org")) NNil)).

Lemma logic_payload_split_witness :
  parsePayload parse_rule "((NETWORK,tcp),(DOMAIN,a.org))" =
  Some (Ok [RNetwork (NetworkType.mk TCP ""); RDomain (Domain.mk "a.org" "")]).
Proof.
  assert (ok_nest demo_body) as Hok by (vm_compute; repeat split; discriminate).
  etrans; [exact (logic_payload_split parse_rule demo_body Hok)|]. vm_compute. reflexivity.
Defined.

Lemma demo_parsed k rules :
  subRules demo_env !! k = Some rules →
  ∃ proxies providers names lines, parseRules proxies providers names lines = Some (Ok rules).
Proof.
  intros Hk. exists ["proxy"; "PASS-RULE"], [], ["outer"; "inner"].
  cbn [subRules demo_env] in Hk. apply lookup_insert_Some in Hk as [[_ <-]|[_ Hk]].
  - exists ["SUB-RULE,(NETWORK,tcp),inner"]. vm_compute. reflexivity.
  - apply lookup_singleton_Some in Hk as [_ <-]. exists ["MATCH,PASS-RULE"; "DOMAIN,A.org,proxy"]. vm_compute. reflexivity.
Qed.

Lemma parsed_rules_terminate_witness :
  ∃ fuel, ∀ (h : RuleMatchHelper unit) s, is_Some (Match demo_env fuel h demo_rule s).
Proof.
  apply (parsed_rules_terminate demo_env demo_rule); [exact demo_parsed|vm_compute; reflexivity|exact demo_providers].
Defined.

End witnesses.
