(* ===== verification/Tunnel.v ===== *)
(** * [tunnel/tunnel.go]: from metadata to a proxy.

    Preparing the metadata, the helper closures of a connection, the loop over
    the rules with pass and rematch adapters, and the retry loop of dialing.
    Also [tunnel/mode.go], [tunnel/status.go], [adapter/outbound/rematch.go]. *)

From Stdlib Require Import ZArith Lia Ascii.
From stdpp Require Import base list strings numbers gmap.
From S2P Require Import Prelude GoStrings GoNet GoNetText Ranges Metadata Rules RulesTheory RuleParser.
#[local] Open Scope string_scope.
#[local] Open Scope list_scope.
#[local] Open Scope Z_scope.

(** ** Adapters *)

Inductive AdapterType_t :=
| Direct | Reject | RejectDrop | Compatible | Pass | PassRule | Rematch | Dns
| Relay | Selector | Fallback | URLTest | LoadBalance
| Shadowsocks | ShadowsocksR | Snell | Socks5 | Http | Vmess | Vless | Trojan | Hysteria | Hysteria2
| WireGuard | Tuic | Ssh | Mieru | AnyTLS | Sudoku | Masque | TrustTunnel | ShadowQuic | OpenVPN
| Tailscale | ZeroTier | EasyTier | GostRelay.

#[export] Instance AdapterType_eq_dec : EqDecision AdapterType_t.
Proof. solve_decision. Defined.

(** A proxy: its name, type, whether it relays UDP, the targets of a rematch
    adapter, and the proxy a group selects ([Unwrap(metadata, false)]).  Groups
    are nested finitely: the configuration refuses circular groups. *)
Inductive Proxy :=
| mkProxy (name : string) (type : AdapterType_t) (supportUDP : bool)
    (targetRematchName targetSubRule : option string) (unwrap : Metadata → option Proxy).

Definition Name (p : Proxy) : string := let '(mkProxy n _ _ _ _ _) := p in n.
Definition Type_of (p : Proxy) : AdapterType_t := let '(mkProxy _ t _ _ _ _) := p in t.
Definition SupportUDP (p : Proxy) : bool := let '(mkProxy _ _ u _ _ _) := p in u.
Definition Unwrap (p : Proxy) (m : Metadata) : option Proxy := let '(mkProxy _ _ _ _ _ f) := p in f m.

(** The proxies from a proxy to the one it finally dials through. *)
Fixpoint unwrap_chain (p : Proxy) (m : Metadata) : list Proxy :=
  match p with
  | mkProxy _ _ _ _ _ f => p :: match f m with Some q => unwrap_chain q m | None => [] end
  end.

(** [Rematch.applyMetadata], which dialing a rematch adapter does. *)
Definition applyMetadata (p : Proxy) (m : Metadata) : Metadata :=
  let '(mkProxy _ _ _ tn ts _) := p in
  set_rematch m (default (RematchName m) tn) (default (SpecialRules m) ts).

(** ** Mode and status *)

Inductive TunnelMode := Global | Rule_ | Direct_.
Definition TunnelMode_String (m : TunnelMode) : string :=
  match m with Global => "global" | Rule_ => "rule" | Direct_ => "direct" end.
Definition TunnelMode_UnmarshalText `{UnicodeCase} (data : string) : option TunnelMode :=
  let t := ToLower data in
  if decide (t = "global") then Some Global
  else if decide (t = "rule") then Some Rule_
  else if decide (t = "direct") then Some Direct_
  else None.

Inductive TunnelStatus := Suspend | Inner | Running.
Definition TunnelStatus_String (s : TunnelStatus) : string :=
  match s with Suspend => "suspend" | Inner => "inner" | Running => "running" end.
Definition TunnelStatus_UnmarshalText `{UnicodeCase} (data : string) : option TunnelStatus :=
  let t := ToLower data in
  if decide (t = "suspend") then Some Suspend
  else if decide (t = "inner") then Some Inner
  else if decide (t = "running") then Some Running
  else None.

Definition isHandle (s : TunnelStatus) (t : Type_t) : bool :=
  match s with Running => true | Inner => bool_decide (t = INNER) | Suspend => false end.

(** ** The resolver, as the tunnel calls it *)

Inductive HostNode := HostIPs (ip : Addr) | HostDomain (domain : string).

(** [HostsSearch host isDomain]: the node found, and whether the search says
    ok; [HostIPs] carries what [RandIP] picks. *)
Class Resolver := {
  MappingEnabled : bool;
  FindHostByIP : Addr → option string;
  IsFakeIP : Addr → bool;
  HostsSearch : string → bool → option HostNode * bool;
  ResolveHost : string → option Addr;
}.

Definition fixMetadata (m : Metadata) : Metadata :=
  let m := set_DstIP m (Unmap (DstIP m)) in
  match ParseAddr (Host m) with
  | Some ip => set_Host (set_DstIP m (Unmap ip)) ""
  | None => m
  end.

Section prepare.
Context `{Resolver}.

Definition needLookupIP (m : Metadata) : bool := MappingEnabled && bool_decide (Host m = "") && IsValid (DstIP m).

Definition node_ip (n : option HostNode) : Addr := match n with Some (HostIPs ip) => ip | _ => NoAddr end.
Definition node_domain (n : option HostNode) : string := match n with Some (HostDomain d) => d | _ => "" end.

(** [false]: the fake DNS record is missing. *)
Definition preHandleMetadata (m : Metadata) : Metadata * bool :=
  if needLookupIP m then
    match FindHostByIP (DstIP m) with
    | Some host =>
        let m := set_DNSMode (set_Host m host) DNSMapping in
        if IsFakeIP (DstIP m) then (set_DNSMode (set_DstIP m NoAddr) DNSFakeIP, true)
        else
          let '(node, ok) := HostsSearch host false in
          if ok then (set_DstIP m (node_ip node), true)
          else match node with
               | Some (HostDomain d) => (set_Host m d, true)
               | _ => (m, true)
               end
    | None => (m, negb (IsFakeIP (DstIP m)))
    end
  else
    let '(node, ok) := HostsSearch (Host m) true in
    if ok then (set_Host m (node_domain node), true) else (m, true).

End prepare.

(** ** Choosing a proxy *)

(** The private state of the helper closures. *)
Record closures := mkClosures { resolved : bool; attemptProcessLookup : bool }.

Record Tunnel := mkTunnel {
  t_rules : list RuleWrapper;
  t_env : RuleEnv;
  t_proxies : gmap string Proxy;
}.

Definition lookup_rule_adapter (t : Tunnel) (ada : string) : option Proxy := t_proxies t !! ada.

(** What the chain of a matched adapter asks for: to go on with the next rule,
    to match again, or nothing special. *)
Inductive chain_verdict := ChainPass | ChainRematch (p : Proxy) | ChainPlain.

Fixpoint chain_verdict_of (chain : list Proxy) : chain_verdict :=
  match chain with
  | [] => ChainPlain
  | p :: chain =>
      if decide (Type_of p = Pass) then ChainPass
      else if decide (Type_of p = Rematch) then ChainRematch p
      else chain_verdict_of chain
  end.

Inductive loop_result := LFound (p : Proxy) (r : Rule) | LRematch (p : Proxy) (r : Rule) | LNone.

Section choosing.
Context `{UC : UnicodeCase} `{EX : Externals} {H : Type} (t : Tunnel) (now : Z) (fuel : nat).
Implicit Types (h : RuleMatchHelper H) (s : Metadata * H).

(** What one matched rule leads to; [None]: go on with the next rule. *)
Definition consider (r : Rule) (ada : string) (m : Metadata) : option loop_result :=
  match lookup_rule_adapter t ada with
  | None => None
  | Some adapter =>
      match chain_verdict_of (unwrap_chain adapter m) with
      | ChainPass => None
      | ChainRematch p => Some (LRematch p r)
      | ChainPlain => if bool_decide (NetWork m = UDP) && negb (SupportUDP adapter) then None
                      else Some (LFound adapter r)
      end
  end.

(** The loop over the rules.  Top-level rules are wrapped and count hits and
    misses, the rules of a sub-rule list are not; [item] is either. *)
Fixpoint rule_loop {A} (step : A → Metadata * H → option (A * (Metadata * H) * (bool * string))) (rule : A → Rule)
    (items : list A) s : option (list A * (Metadata * H) * loop_result) :=
  match items with
  | [] => Some ([], s, LNone)
  | x :: items =>
      match step x s with
      | None => None
      | Some (x, s, (matched, ada)) =>
          match (if matched then consider (rule x) ada s.1 else None) with
          | Some r => Some (x :: items, s, r)
          | None => match rule_loop step rule items s with
                    | None => None
                    | Some (items, s, r) => Some (x :: items, s, r)
                    end
          end
      end
  end.

Definition plain_step h (r : Rule) s : option (Rule * (Metadata * H) * (bool * string)) :=
  match Match (t_env t) fuel h r s with Some (s, x) => Some (r, s, x) | None => None end.

End choosing.

(** [getRules]: the sub-rule list the metadata names, or the rules of the tunnel. *)
Definition match_round `{UC : UnicodeCase} `{EX : Externals} {H} (t : Tunnel) (now : Z) (fuel : nat)
    (h : RuleMatchHelper H) (s : Metadata * H) : option (Tunnel * (Metadata * H) * loop_result) :=
  match subRules (t_env t) !! SpecialRules s.1 with
  | Some sr => match rule_loop t (plain_step t fuel h) (λ r, r) sr s with
               | Some (_, s, r) => Some (t, s, r)
               | None => None
               end
  | None => match rule_loop t (wrapper_Match (t_env t) fuel now h) w_rule (t_rules t) s with
            | Some (ws, s, r) => Some (mkTunnel ws (t_env t) (t_proxies t), s, r)
            | None => None
            end
  end.

(** [matchLocked]: at most [rounds] passes over the rules. *)
Fixpoint matchLocked `{UC : UnicodeCase} `{EX : Externals} {H} (rounds : nat) (t : Tunnel) (now : Z) (fuel : nat)
    (h : RuleMatchHelper H) (rematchChain : list string) (s : Metadata * H)
    : option (Tunnel * (Metadata * H) * (option Proxy * option Rule)) :=
  match rounds with
  | O => None
  | S rounds =>
      match match_round t now fuel h s with
      | None => None
      | Some (t, s, LFound p r) => Some (t, s, (Some p, Some r))
      | Some (t, s, LNone) => Some (t, s, (t_proxies t !! "DIRECT", None))
      | Some (t, s, LRematch p r) =>
          if decide (Name p ∈ rematchChain) then Some (t, s, (Some p, Some r))
          else matchLocked rounds t now fuel h (rematchChain ++ [Name p]) (applyMetadata p s.1, s.2)
      end
  end.

(** ** The helper of a connection *)

Section helper.
Context `{UC : UnicodeCase} `{EX : Externals} `{RES : Resolver}.

(** [FindProcess] of the helper; [find] is the lookup of the process that owns
    the connection, [None] when it failed or no rule needs it. *)
Definition find_process_hook (find : Metadata → option (Z * string * string)) (s : Metadata * closures)
    : Metadata * closures :=
  if attemptProcessLookup s.2 then
    let c := mkClosures (resolved s.2) false in
    match find s.1 with
    | Some (uid, name, path) => (set_process s.1 uid name path, c)
    | None => (s.1, c)
    end
  else s.

Definition resolve_hook (s : Metadata * closures) : Metadata * closures :=
  if negb (resolved s.2) && bool_decide (Host s.1 ≠ "") && negb (Resolved s.1) then
    (match ResolveHost (Host s.1) with Some ip => set_DstIP s.1 ip | None => s.1 end,
     mkClosures true (attemptProcessLookup s.2))
  else s.

Definition check_pass_rule (proxies : gmap string Proxy) (s : Metadata * closures) (adapterName : string) : bool :=
  match proxies !! adapterName with
  | None => false
  | Some p => existsb (λ q, bool_decide (Type_of q = PassRule)) (unwrap_chain p s.1)
  end.

(** In fake-IP mode rules never resolve. *)
Definition fakeIPRuleResolver (m : Metadata) (f : Metadata * closures → Metadata * closures)
    : option (Metadata * closures → Metadata * closures) :=
  if decide (DNSMode m = DNSFakeIP) then None else Some f.

Definition keepResolvedFakeIP (at_ : AdapterType_t) : bool :=
  match at_ with Direct | Reject | RejectDrop => true | _ => false end.

Definition preserveFakeIPDomain (m : Metadata) (proxy : option Proxy) : Metadata :=
  match proxy with
  | None => m
  | Some p =>
      if negb (bool_decide (DNSMode m = DNSFakeIP)) || bool_decide (Host m = "") || negb (IsValid (DstIP m)) then m
      else
        let leaf := List.last (unwrap_chain p m) p in
        if keepResolvedFakeIP (Type_of leaf) then m else set_DstIP m NoAddr
  end.

Inductive FindProcessMode := FindProcessAlways | FindProcessStrict | FindProcessOff.

(** The helper of a connection: the process is looked up before matching
    (always), while matching (strict), or never. *)
Definition connection_helper (t : Tunnel) (fpm : FindProcessMode) (find : Metadata → option (Z * string * string))
    (m : Metadata) : RuleMatchHelper closures :=
  mkHelper false (fakeIPRuleResolver m resolve_hook)
    (match fpm with FindProcessStrict => Some (find_process_hook find) | _ => None end)
    (Some (check_pass_rule (t_proxies t))).

(** [resolveMetadata], with the process lookup [find]. *)
Definition resolveMetadata (rounds fuel : nat) (now : Z) (t : Tunnel) (mode : TunnelMode) (fpm : FindProcessMode)
    (find : Metadata → option (Z * string * string)) (m : Metadata)
    : option (Tunnel * Metadata * result string (option Proxy * option Rule)) :=
  if decide (SpecialProxy m ≠ "") then
    match t_proxies t !! SpecialProxy m with
    | Some p => Some (t, preserveFakeIPDomain m (Some p), Ok (Some p, None))
    | None => Some (t, m, Err ("proxy " +:+ SpecialProxy m +:+ " not found"))
    end
  else
    let '(node, ok) := HostsSearch (Host m) false in
    let m := if ok then set_DstIP m (node_ip node) else m in
    let c := mkClosures ok (bool_decide (Type_ m ≠ INNER)) in
    let h := connection_helper t fpm find m in
    let s := match fpm with FindProcessAlways => find_process_hook find (m, c) | _ => (m, c) end in
    match mode with
    | Direct_ => let p := t_proxies t !! "DIRECT" in Some (t, preserveFakeIPDomain s.1 p, Ok (p, None))
    | Global => let p := t_proxies t !! "GLOBAL" in Some (t, preserveFakeIPDomain s.1 p, Ok (p, None))
    | Rule_ =>
        match matchLocked rounds t now fuel h [] s with
        | None => None
        | Some (t, s, (p, r)) => Some (t, preserveFakeIPDomain s.1 p, Ok (p, r))
        end
    end.

End helper.

(** ** Retrying a dial *)

(** The errors that stop the loop. *)
Inductive dial_error := ErrIPNotFound | ErrIPVersion | ErrIPv6Disabled | ErrReject | ErrOther.

Definition shouldStopRetry (e : dial_error) : bool := match e with ErrOther => false | _ => true end.

(** [retry]: [ft i] is the outcome of attempt [i], [wait i] whether the pause
    after it ended before the context did.  Returns the last outcome and the
    number of attempts made. *)
Fixpoint retry_loop {T} (ft : nat → result dial_error T) (wait : nat → bool) (i n : nat)
    (last : option (result dial_error T)) : option (result dial_error T) * nat :=
  match n with
  | O => (last, i)
  | S n =>
      match ft i with
      | Ok x => (Some (Ok x), S i)
      | Err e => if shouldStopRetry e then (Some (Err e), S i)
                 else if wait i then retry_loop ft wait (S i) n (Some (Err e))
                 else (Some (Err e), S i)
      end
  end.
Definition retry {T} (ft : nat → result dial_error T) (wait : nat → bool) : option (result dial_error T) * nat :=
  retry_loop ft wait 0 10 None.

(** ** Lemmas *)

Section loop_lemmas.
Context `{UC : UnicodeCase} `{EX : Externals} {H : Type}.
Implicit Types (t : Tunnel) (h : RuleMatchHelper H) (s : Metadata * H).

(** A step over items that keeps the rule of an item and respects a relation
    on states. *)
Record good_step {A} (step : A → Metadata * H → option (A * (Metadata * H) * (bool * string))) (rule : A → Rule)
    (Rel : Metadata * H → Metadata * H → Prop) : Prop := {
  step_rule x s x' s' r : step x s = Some (x', s', r) → rule x' = rule x;
  step_rel x s x' s' r : step x s = Some (x', s', r) → Rel s s';
}.

Lemma rule_loop_spec {A} t step (rule : A → Rule) Rel items s items' s' res :
  (∀ s, Rel s s) → (∀ s1 s2 s3, Rel s1 s2 → Rel s2 s3 → Rel s1 s3) →
  good_step step rule Rel → rule_loop t step rule items s = Some (items', s', res) →
  rule <$> items' = rule <$> items ∧ Rel s s' ∧
  match res with
  | LFound p r | LRematch p r => ∃ x ada, x ∈ items ∧ rule x = r ∧ consider t r ada s'.1 = Some res
  | LNone => True
  end.
Proof.
  intros Hrefl Htrans [Hrule Hrel]. revert s items' s' res.
  induction items as [|x items IH]; intros s items' s' res; simpl; [by intros [= <- <- <-]|].
  destruct (step x s) as [[[x1 s1] [m ada]]|] eqn:Es; [|done].
  assert (rule x1 = rule x) as Hr by (by eapply Hrule). assert (Rel s s1) as Hs by (by eapply Hrel).
  destruct (if m then consider t (rule x1) ada s1.1 else None) as [r|] eqn:Ec.
  - intros [= <- <- <-]. split; [by rewrite !fmap_cons, Hr|]. split; [done|]. destruct m; [|done].
    assert (∀ p q, r = LFound p q ∨ r = LRematch p q → q = rule x1) as Hq.
    { revert Ec. unfold consider. destruct (lookup_rule_adapter t ada) as [ad|]; [|done].
      destruct (chain_verdict_of _); [done| |destruct (_ && _); [done|]]; intros [= <-] p' q' [|]; simplify_eq; done. }
    destruct r as [p q|p q|]; [| |done]; rewrite (Hq p q) by auto; exists x, ada;
      (split_and!; [left|done|]); rewrite Ec; by rewrite (Hq p q) by auto.
  - destruct (rule_loop t step rule items s1) as [[[its s2] r]|] eqn:El; [|done]. intros [= <- <- <-].
    destruct (IH _ _ _ _ El) as (Hits & Hs2 & Hres). split; [by rewrite !fmap_cons, Hr, Hits|]. split; [by eapply Htrans|].
    destruct r as [p q|p q|]; [| |done]; destruct Hres as (y & a & Hy & ?); exists y, a; (split; [by right|done]).
Qed.

Lemma plain_step_good t fuel h (Rel : Metadata * H → Metadata * H → Prop) :
  (∀ r s s' x, Match (t_env t) fuel h r s = Some (s', x) → Rel s s') → good_step (plain_step t fuel h) (λ r, r) Rel.
Proof.
  intros HM. split; intros x s x' s' r; unfold plain_step; destruct (Match _ _ _ _ _) as [[s1 y]|] eqn:E;
    try done; intros [= <- <- <-]; [done|by eapply HM].
Qed.

Lemma wrapper_step_good t fuel now h (Rel : Metadata * H → Metadata * H → Prop) :
  (∀ s, Rel s s) → (∀ r s s' x, Match (t_env t) fuel h r s = Some (s', x) → Rel s s') →
  good_step (wrapper_Match (t_env t) fuel now h) w_rule Rel.
Proof.
  intros Hrefl HM. split; intros x s x' s' r; unfold wrapper_Match; destruct (w_disabled x); try (by intros [= <- <- <-]);
    destruct (Match _ _ _ _ _) as [[s1 [ok a]]|] eqn:E; try done; intros [= <- <- <-];
    [destruct (Diagnostic h), ok; done|by eapply HM].
Qed.

(** The rules a tunnel may run over. *)
Definition rule_of t (r : Rule) : Prop :=
  r ∈ w_rule <$> t_rules t ∨ ∃ k, r ∈ default [] (subRules (t_env t) !! k).

(** The same tunnel, hit counters aside. *)
Definition same_tunnel t t' : Prop :=
  w_rule <$> t_rules t' = w_rule <$> t_rules t ∧ t_env t' = t_env t ∧ t_proxies t' = t_proxies t.

Lemma match_round_spec t now fuel h (Rel : Metadata * H → Metadata * H → Prop) s t' s' res :
  (∀ s, Rel s s) → (∀ s1 s2 s3, Rel s1 s2 → Rel s2 s3 → Rel s1 s3) →
  (∀ r s s' x, Match (t_env t) fuel h r s = Some (s', x) → Rel s s') →
  match_round t now fuel h s = Some (t', s', res) →
  same_tunnel t t' ∧ Rel s s' ∧
  match res with
  | LFound p r | LRematch p r => rule_of t r ∧ ∃ ada, consider t r ada s'.1 = Some res
  | LNone => True
  end.
Proof.
  intros Hrefl Htrans HM. unfold match_round, rule_of. destruct (subRules (t_env t) !! SpecialRules s.1) as [sr|] eqn:Es.
  - destruct (rule_loop t (plain_step t fuel h) (λ r, r) sr s) as [[[its s1] r]|] eqn:El; [|done]. intros [= <- <- <-].
    destruct (rule_loop_spec t _ _ Rel _ _ _ _ _ Hrefl Htrans (plain_step_good t fuel h Rel HM) El) as (_ & Hs & Hres).
    split; [done|]. split; [done|].
    destruct r as [p q|p q|]; [| |done]; destruct Hres as (x & ada & Hx & <- & Hc); (split; [|by exists ada]);
      right; exists (SpecialRules s.1); by rewrite Es.
  - destruct (rule_loop t _ w_rule (t_rules t) s) as [[[ws s1] r]|] eqn:El; [|done]. intros [= <- <- <-].
    destruct (rule_loop_spec t _ _ Rel _ _ _ _ _ Hrefl Htrans (wrapper_step_good t fuel now h Rel Hrefl HM) El) as (Hws & Hs & Hres).
    split; [done|]. split; [done|].
    destruct r as [p q|p q|]; [| |done]; destruct Hres as (x & ada & Hx & <- & Hc); (split; [|by exists ada]);
      left; by apply list_elem_of_fmap_2.
Qed.

Lemma rule_loop_answers {A} t step (rule : A → Rule) items s :
  (∀ x s, x ∈ items → is_Some (step x s)) → is_Some (rule_loop t step rule items s).
Proof.
  revert s. induction items as [|x items IH]; intros s Hst; simpl; [by eexists|].
  destruct (Hst x s) as [[[x1 s1] [m ada]] ->]; [left|]. destruct (if m then _ else _); [by eexists|].
  destruct (IH s1) as [[[its s2] r] ->]; [intros; apply Hst; by right|]. by eexists.
Qed.

Lemma match_round_answers t now fuel h s :
  (∀ r s, rule_of t r → is_Some (Match (t_env t) fuel h r s)) → is_Some (match_round t now fuel h s).
Proof.
  intros HM. unfold match_round. destruct (subRules (t_env t) !! SpecialRules s.1) as [sr|] eqn:Es.
  - destruct (rule_loop_answers t (plain_step t fuel h) (λ r, r) sr s) as [[[its s1] r] ->]; [|by eexists].
    intros r s0 Hr. unfold plain_step. destruct (HM r s0) as [[s1 y] ->]; [|by eexists].
    right. exists (SpecialRules s.1). by rewrite Es.
  - destruct (rule_loop_answers t (wrapper_Match (t_env t) fuel now h) w_rule (t_rules t) s) as [[[ws s1] r] ->]; [|by eexists].
    intros w s0 Hw. unfold wrapper_Match. destruct (w_disabled w); [by eexists|].
    destruct (HM (w_rule w) s0) as [[s1 [ok a]] ->]; [|by eexists]. left. by apply list_elem_of_fmap_2.
Qed.

Lemma consider_rematch t r ada m p q :
  consider t r ada m = Some (LRematch p q) → ∃ adapter, t_proxies t !! ada = Some adapter ∧ p ∈ unwrap_chain adapter m ∧ Type_of p = Rematch.
Proof.
  unfold consider, lookup_rule_adapter. destruct (t_proxies t !! ada) as [ad|]; [|done]. intros Hc. exists ad. split; [done|].
  destruct (chain_verdict_of (unwrap_chain ad m)) as [|p'|] eqn:Ev; [done| |by destruct (_ && _)].
  injection Hc as <- <-. revert Ev. induction (unwrap_chain ad m) as [|x l IH]; simpl; [done|].
  case_decide; [done|]. case_decide; [intros [= <-]; split; [left|done]|]. intros Hv. destruct (IH Hv). split; [by right|done].
Qed.

Lemma consider_found t r ada m p q :
  consider t r ada m = Some (LFound p q) →
  t_proxies t !! ada = Some p ∧ (NetWork m = UDP → SupportUDP p = true) ∧
  Forall (λ x, Type_of x ≠ Pass ∧ Type_of x ≠ Rematch) (unwrap_chain p m).
Proof.
  unfold consider, lookup_rule_adapter. destruct (t_proxies t !! ada) as [ad|]; [|done].
  destruct (chain_verdict_of (unwrap_chain ad m)) as [|p'|] eqn:Ev; [done|done|].
  destruct (bool_decide (NetWork m = UDP) && negb (SupportUDP ad)) eqn:Eu; [done|]. intros [= <- <-]. split; [done|]. split.
  - intros Hn. rewrite bool_decide_eq_true_2 in Eu by done. simpl in Eu. by apply negb_false_iff in Eu.
  - revert Ev. clear. induction (unwrap_chain ad m) as [|x l IH]; [constructor|]. simpl.
    destruct (decide (Type_of x = Pass)); [discriminate|]. destruct (decide (Type_of x = Rematch)); [discriminate|].
    intros Hv. constructor; [done|by apply IH].
Qed.

End loop_lemmas.

Section match_lemmas.
Context `{UC : UnicodeCase} `{EX : Externals} {H : Type}.
Implicit Types (t : Tunnel) (h : RuleMatchHelper H) (s : Metadata * H).

Lemma same_tunnel_rule_of t t' r : same_tunnel t t' → rule_of t' r → rule_of t r.
Proof. intros (Hw & He & _). unfold rule_of. by rewrite Hw, He. Qed.

(** The names of the rematch adapters a tunnel may meet. *)
Definition rematch_names t (names : list string) : Prop :=
  ∀ a adapter m p, t_proxies t !! a = Some adapter → p ∈ unwrap_chain adapter m → Type_of p = Rematch → Name p ∈ names.

Lemma matchLocked_answers rounds t now fuel h names chain s :
  (∀ r s, rule_of t r → is_Some (Match (t_env t) fuel h r s)) → rematch_names t names →
  NoDup chain → (∀ x, x ∈ chain → x ∈ names) → (length names < rounds + length chain)%nat →
  is_Some (matchLocked rounds t now fuel h chain s).
Proof.
  revert t chain s. induction rounds as [|rounds IH]; intros t chain s HM Hn Hnd Hin Hlen.
  { pose proof (submseteq_length chain names (NoDup_submseteq chain names Hnd Hin)). simpl in Hlen. lia. }
  simpl. destruct (match_round_answers t now fuel h s HM) as [[[t1 s1] res] Hr]. rewrite Hr.
  destruct (match_round_spec t now fuel h (λ _ _, True) s t1 s1 res) as (Ht & _ & Hres); [done..|].
  destruct res as [p r|p r|]; [by eexists| |by eexists]. destruct (decide (Name p ∈ chain)); [by eexists|].
  destruct Hres as (_ & ada & Hc). apply consider_rematch in Hc as (adapter & Ha & Hp & Htp).
  pose proof Ht as (_ & He & Hpr). apply IH.
  - intros r' s' Hr'. rewrite He. apply HM. by eapply same_tunnel_rule_of.
  - intros a ad m q. rewrite Hpr. apply Hn.
  - apply list.NoDup_app. split_and!; [done| |apply NoDup_singleton]. intros x Hx ->%list_elem_of_singleton. done.
  - intros x [Hx|Hx]%elem_of_app; [by apply Hin|]. apply list_elem_of_singleton in Hx as ->. by eapply Hn.
  - rewrite length_app. simpl. lia.
Qed.

(** What a choice is: a proxy some rule names, all of whose chain is neither
    pass nor rematch and which can relay the network; the rematch adapter of a
    rule when rematching met it again; or DIRECT without a rule. *)
Definition proper_choice t (m : Metadata) (p : option Proxy) (r : option Rule) : Prop :=
  match r with
  | None => p = t_proxies t !! "DIRECT"
  | Some r => rule_of t r ∧ ∃ q, p = Some q ∧
      (Type_of q = Rematch ∨
       ((∃ a, t_proxies t !! a = Some q) ∧ (NetWork m = UDP → SupportUDP q = true) ∧
        Forall (λ x, Type_of x ≠ Pass ∧ Type_of x ≠ Rematch) (unwrap_chain q m)))
  end.

Lemma matchLocked_proper rounds t now fuel h chain s t' s' p r (Rel : Metadata * H → Metadata * H → Prop) :
  (∀ s, Rel s s) → (∀ s1 s2 s3, Rel s1 s2 → Rel s2 s3 → Rel s1 s3) →
  (∀ r s s' x, Match (t_env t) fuel h r s = Some (s', x) → Rel s s') →
  (∀ p s, Rel s (applyMetadata p s.1, s.2)) →
  matchLocked rounds t now fuel h chain s = Some (t', s', (p, r)) →
  proper_choice t s'.1 p r ∧ same_tunnel t t' ∧ Rel s s'.
Proof.
  intros Hrefl Htrans HM Happ. revert t chain s HM. induction rounds as [|rounds IH]; intros t chain s HM; [done|]. simpl.
  destruct (match_round t now fuel h s) as [[[t1 s1] res]|] eqn:Er; [|done].
  destruct (match_round_spec t now fuel h Rel s t1 s1 res Hrefl Htrans HM Er) as (Ht & Hs & Hres).
  pose proof Ht as (Hw & He & Hpr). destruct res as [q r'|q r'|].
  - intros [= <- <- <- <-]. destruct Hres as (Hr & ada & Hc). split_and!; [|done..]. simpl. split; [done|].
    exists q. split; [done|]. right. apply consider_found in Hc as (Ha & Hu & Hc). split_and!; eauto.
  - destruct (decide (Name q ∈ chain)).
    + intros [= <- <- <- <-]. destruct Hres as (Hr & ada & Hc). split_and!; [|done..]. simpl. split; [done|].
      exists q. split; [done|]. left. by apply consider_rematch in Hc as (? & ? & ? & ?).
    + intros Hm. apply IH in Hm as (Hpc & (Hw2 & He2 & Hp2) & Hrel); [|by rewrite He]. split_and!.
      * destruct r as [r|]; simpl in *; [|by rewrite Hpc, Hpr].
        rewrite <- Hpr. destruct Hpc as [Hr Hq]. split; [by eapply same_tunnel_rule_of|done].
      * unfold same_tunnel. by rewrite Hw2, He2, Hp2.
      * eapply Htrans; [exact Hs|]. eapply Htrans; [apply Happ|exact Hrel].
  - intros [= <- <- <- <-]. split_and!; [|done..]. simpl. by rewrite Hpr.
Qed.

End match_lemmas.

Lemma last_mem {A} (l : list A) d : l ≠ [] → List.last l d ∈ l.
Proof.
  induction l as [|x l IH]; [done|]. intros _. destruct l as [|y l]; [left|]. right. by apply IH.
Qed.

(** The name and the DNS mode stay. *)
Definition keeps_name {H} (s s' : Metadata * H) : Prop := Host s'.1 = Host s.1 ∧ DNSMode s'.1 = DNSMode s.1.

#[local] Instance keeps_name_preorder {H} : PreOrder (keeps_name (H:=H)).
Proof. split; [done|]. intros s1 s2 s3 [H1 H2] [H3 H4]. split; congruence. Qed.

(** What a proxy gets of a named fake-IP connection: the name, and an address
    only when a proxy of its chain keeps resolved addresses. *)
Definition domain_kept (host : string) (p : Proxy) (m' : Metadata) : Prop :=
  Host m' = host ∧ DNSMode m' = DNSFakeIP ∧
  (DstIP m' = NoAddr ∨ ∃ m0 leaf, leaf ∈ unwrap_chain p m0 ∧ keepResolvedFakeIP (Type_of leaf) = true).

Lemma preserve_domain (m : Metadata) (p : Proxy) :
  DNSMode m = DNSFakeIP → Host m ≠ "" → domain_kept (Host m) p (preserveFakeIPDomain m (Some p)).
Proof.
  intros Hd Hh. unfold preserveFakeIPDomain, domain_kept. rewrite bool_decide_eq_true_2 by done.
  rewrite (bool_decide_eq_false_2 (Host m = "")) by done. simpl.
  destruct (IsValid (DstIP m)) eqn:Ev; simpl; [|split_and!; [done..|left; by destruct (DstIP m)]].
  destruct (keepResolvedFakeIP _) eqn:Ek; [|split_and!; [done..|by left]]. split_and!; [done..|right].
  exists m, (List.last (unwrap_chain p m) p). split; [|done]. apply last_mem. by destruct p.
Qed.

Lemma find_process_keeps_name find s : keeps_name s (find_process_hook find s).
Proof. unfold find_process_hook. destruct (attemptProcessLookup s.2); [|done]. by destruct (find s.1) as [[[? ?] ?]|]. Qed.

Lemma Match_keeps_name `{UC : UnicodeCase} `{EX : Externals} {H} env fuel (h : RuleMatchHelper H) :
  (∀ f, ResolveIP h = Some f → ∀ s, keeps_name s (f s)) → (∀ f, FindProcess h = Some f → ∀ s, keeps_name s (f s)) →
  ∀ r s s' x, Match env fuel h r s = Some (s', x) → keeps_name s s'.
Proof.
  intros Hr Hf r s s' x Hm. refine (proj1 (Match_respects env (λ _, keeps_name) _ _ _ _ _ _ fuel) h (conj Hr Hf) r s s' x Hm);
    [done|intros ?; apply transitivity|done|done| |].
  - intros g [m k]. unfold GEOIP.lookup, GEOIP.set_codes. simpl. repeat (case_match; try done).
  - intros a [m k]. unfold ASN.lookup. simpl. repeat (case_match; try done).
Qed.

(** ** Properties *)

Section properties.
Context `{UC : UnicodeCase} `{EX : Externals} `{RES : Resolver}.

(** C37. Choosing a proxy always ends: if every rule of the tunnel can be
    matched and the rematch adapters in use have finitely many names, one more
    pass over the rules than there are names is enough, because an adapter met
    a second time ends the rematching. *)
Theorem matchLocked_terminates {H} (t : Tunnel) now fuel (h : RuleMatchHelper H) names s :
  (∀ r s, rule_of t r → is_Some (Match (t_env t) fuel h r s)) →
  rematch_names t names →
  is_Some (matchLocked (S (length names)) t now fuel h [] s).
Proof.
  intros HM Hn. eapply matchLocked_answers; [done|done|apply NoDup_nil_2|by intros x ?%elem_of_nil|simpl; lia].
Qed.



(** [fixMetadata] normalises the destination: afterwards the host is not
    an address in disguise and the address is not an IPv4 address mapped into
    IPv6; doing it again changes nothing. *)
Theorem fixMetadata_normalises (m : Metadata) :
  let m' := fixMetadata m in
  ParseAddr (Host m') = None ∧ Is4In6 (DstIP m') = false ∧ fixMetadata m' = m'.
Proof.
  assert (∀ a, Is4In6 (Unmap a) = false) as Hun.
  { intros [|v|v z]; [done|done|]. unfold Unmap. by destruct (Is4In6 (V6 v z)) eqn:E. }
  assert (∀ a, Unmap (Unmap a) = Unmap a) as Hid.
  { intros a. pose proof (Hun a) as Ha. destruct (Unmap a) as [|v|v z]; [done|done|]. unfold Unmap. by rewrite Ha. }
  unfold fixMetadata. cbn [Host set_DstIP]. destruct (ParseAddr (Host m)) as [ip|] eqn:E; simpl.
  - split_and!; [done|apply Hun|]. unfold set_DstIP, set_Host; simpl. by rewrite Hid.
  - split_and!; [done|apply Hun|]. rewrite E. unfold set_DstIP; simpl. by rewrite Hid.
Qed.

End properties.

(** A dial is tried at most ten times; the outcome is that of the last
    try, every earlier one failed with an error that allows another try, and
    the tries end early only on success, on a final error or when the context
    ends. *)
Theorem retry_at_most_ten {T} (ft : nat → result dial_error T) (wait : nat → bool) :
  let '(r, n) := retry ft wait in
  (1 ≤ n ≤ 10)%nat ∧ r = Some (ft (n - 1)%nat) ∧
  (∀ i, (i < n - 1)%nat → ft i = Err ErrOther ∧ wait i = true) ∧
  ((n < 10)%nat → ft (n - 1)%nat ≠ Err ErrOther ∨ wait (n - 1)%nat = false).
Proof.
  unfold retry.
  assert (∀ left i last, (0 < left)%nat →
    let '(r, n) := retry_loop ft wait i left last in
    (i < n ≤ i + left)%nat ∧ r = Some (ft (n - 1)%nat) ∧
    (∀ j, (i ≤ j < n - 1)%nat → ft j = Err ErrOther ∧ wait j = true) ∧
    ((n < i + left)%nat → ft (n - 1)%nat ≠ Err ErrOther ∨ wait (n - 1)%nat = false)) as Hl.
  { intros left. induction left as [|left IH]; intros i last Hpos; [lia|]. simpl.
    destruct (ft i) as [x|e] eqn:Ef.
    { simpl. rewrite Nat.sub_0_r, Ef. split_and!; [lia|lia|done|intros; lia|by left]. }
    destruct (shouldStopRetry e) eqn:Es.
    { simpl. rewrite Nat.sub_0_r, Ef. split_and!; [lia|lia|done|intros; lia|left; by intros [= ->]]. }
    destruct (wait i) eqn:Ew; [|simpl; rewrite Nat.sub_0_r, Ef; split_and!; [lia|lia|done|intros; lia|by right]].
    assert (e = ErrOther) as -> by (by destruct e). destruct left as [|left].
    { simpl. rewrite Nat.sub_0_r, Ef. split_and!; [lia|lia|done|intros; lia|intros; lia]. }
    specialize (IH (S i) (Some (Err ErrOther)) ltac:(lia)). destruct (retry_loop ft wait (S i) (S left) _) as [r n].
    destruct IH as (Hb & Hr & Hall & Hstop). split_and!; [lia|lia|done| |intros; apply Hstop; lia].
    intros j Hj. destruct (decide (j = i)) as [->|]; [done|]. apply Hall. lia. }
  specialize (Hl 10%nat 0%nat None ltac:(lia)). destruct (retry_loop ft wait 0 10 None) as [r n].
  destruct Hl as (Hb & Hr & Hall & Hstop). split_and!; [lia|lia|done| |intros; apply Hstop; lia].
  intros i Hi. apply Hall. lia.
Qed.

(** ** Witnesses *)

Section witnesses.
#[local] Existing Instance ascii_case.
#[local] Existing Instance demo_externals.

(** A resolver that knows nothing. *)
#[local] Instance demo_resolver : Resolver := {|
  MappingEnabled := true;
  FindHostByIP _ := None;
  IsFakeIP _ := false;
  HostsSearch _ _ := (None, false);
  ResolveHost _ := None;
|}.

Definition leaf (name : string) (ty : AdapterType_t) : Proxy := mkProxy name ty true None None (λ _, None).
Definition again : Proxy := mkProxy "again" Rematch true None (Some "sub") (λ _, None).

(** The rule of the tunnel matches again with the sub-rules "sub", which send
    everything to the group "group" of one proxy. *)
Definition demo_proxy : Proxy := mkProxy "group" Selector true None None (λ _, Some (leaf "proxy" Socks5)).
Definition demo_tunnel : Tunnel :=
  mkTunnel [NewRuleWrapper (RDomain (Domain.mk "a.org" "again"))]
    (mkEnv {[ "sub" := [RMatch (Match_.mk "group")] ]} ∅)
    (<["again" := again]> (<["group" := demo_proxy]> {[ "DIRECT" := leaf "DIRECT" Direct ]})).

Definition demo_conn : Metadata := set_DNSMode (set_Host empty_metadata "a.org") DNSFakeIP.
Definition plain_helper : RuleMatchHelper closures := connection_helper demo_tunnel FindProcessOff (λ _, None) demo_conn.

Lemma demo_rules_answer r (s : Metadata * closures) :
  rule_of demo_tunnel r → is_Some (Match (t_env demo_tunnel) 1 plain_helper r s).
Proof.
  intros [Hr|[k Hr]].
  - apply list_elem_of_singleton in Hr as ->. by eexists.
  - destruct (subRules (t_env demo_tunnel) !! k) as [l|] eqn:E; [|by apply elem_of_nil in Hr].
    cbn [subRules t_env demo_tunnel] in E. apply lookup_singleton_Some in E as [_ <-]. apply list_elem_of_singleton in Hr as ->. by eexists.
Qed.

Lemma demo_names : rematch_names demo_tunnel ["again"].
Proof.
  intros a adapter m p Ha Hp Ht. cbn [t_proxies demo_tunnel] in Ha.
  apply lookup_insert_Some in Ha as [[_ <-]|[_ Ha]].
  { apply list_elem_of_singleton in Hp as ->. left. }
  apply lookup_insert_Some in Ha as [[_ <-]|[_ Ha]].
  - apply list_elem_of_In in Hp as [<-|[<-|[]]]; done.
  - apply lookup_singleton_Some in Ha as [_ <-]. by apply list_elem_of_singleton in Hp as ->.
Qed.

Lemma matchLocked_terminates_witness :
  is_Some (matchLocked 2 demo_tunnel 0 1 plain_helper [] (demo_conn, mkClosures false true)).
Proof. exact (matchLocked_terminates demo_tunnel 0 1 plain_helper ["again"] _ demo_rules_answer demo_names). Defined.



End witnesses.
