(* ===== verification/RejectBan.v ===== *)
(** * [tunnel/reject_ban.go]: banning sources that keep hitting REJECT rules.

    The cache maps a key to a pointer to an entry; entries are changed in place,
    so they live in a store of their own.  Times are nanoseconds, the zero time
    is [None].  Each operation runs under the mutex of the cache. *)

From Stdlib Require Import ZArith Lia ZifyNat Ascii.
From stdpp Require Import base list strings numbers gmap sorting.
From S2P Require Import Prelude GoStrings GoNet Metadata Lru Tunnel.
#[local] Open Scope string_scope.
#[local] Open Scope list_scope.
#[local] Open Scope Z_scope.

Definition second : Z := 1000000000.
Definition rejectBanThreshold : nat := 10.
Definition rejectBanWindow : Z := 10 * second.
Definition rejectBanDuration : Z := 60 * second.
Definition maxRejectBanKeys : Z := 4096.

Record rejectBanKey := mkKey {
  source : Addr; destination : Addr; host : string; port : Z; inboundType : Type_t; inboundIP : Addr;
  inboundPort : Z; inboundName : string; inboundUser : string; specialProxy : string; specialRules : string; dscp : Z;
}.

#[export] Instance rejectBanKey_eq_dec : EqDecision rejectBanKey.
Proof. solve_decision. Defined.

Definition all_types : list Type_t :=
  [HTTP; HTTPS; SOCKS4; SOCKS5; SHADOWSOCKS; SNELL; VMESS; VLESS; REDIR; TPROXY; TROJAN; TUNNEL; TUN; TUIC;
   HYSTERIA2; ANYTLS; MIERU; SUDOKU; TRUSTTUNNEL; SHADOWQUIC; INNER].
#[export] Instance Type_countable : Countable Type_t.
Proof.
  refine (inj_countable Type_String (λ s, head (filter (λ t, Type_String t = s) all_types)) _).
  by intros [].
Defined.

#[export] Instance rejectBanKey_countable : Countable rejectBanKey.
Proof.
  refine (inj_countable'
    (λ k, (source k, destination k, host k, port k, inboundType k, inboundIP k,
           (inboundPort k, inboundName k, inboundUser k, specialProxy k, specialRules k, dscp k)))
    (λ '(a, b, c, d, e, f, (g, h, i, j, l, m)), mkKey a b c d e f g h i j l m) _).
  by intros [].
Defined.

Definition tcpRejectBanKey `{UnicodeCase} (m : Metadata) : option rejectBanKey :=
  if negb (bool_decide (NetWork m = TCP)) || negb (IsValid (SrcIP m)) || IsUnspecified (SrcIP m) || (DstPort m =? 0)
  then None
  else
    let h := ToLower (TrimSuffix (RuleHost m) ".") in
    let dst := if decide (h = "") then Unmap (DstIP m) else NoAddr in
    if bool_decide (h ≠ "") || IsValid dst
    then Some (mkKey (Unmap (SrcIP m)) dst h (DstPort m) (Type_ m) (Unmap (InIP m)) (InPort m) (InName m) (InUser m)
                 (SpecialProxy m) (SpecialRules m) (DSCP m))
    else None.

(** [rejectedAt] always has [rejectBanThreshold] elements. *)
Record rejectBanEntry := mkEntry {
  rejectedAt : list (option Z);
  next : nat;
  count : nat;
  lastReject : option Z;
  banUntil : option Z;
  banProxy : option Proxy;
}.

Definition empty_entry : rejectBanEntry := mkEntry (replicate rejectBanThreshold None) 0 0 None None None.

Record rejectBanCache := mkBans {
  entries : LruCache rejectBanKey;
  cells : world rejectBanKey positive;
  objects : gmap positive rejectBanEntry;
  fresh_ptr : positive;
  generation : Z;
}.

Definition newRejectBanCache : rejectBanCache :=
  mkBans (New [WithSize maxRejectBanKeys]) (World ∅ []) ∅ 1 0.

Fixpoint proxy_active (chain : list Proxy) : bool :=
  match chain with
  | [] => false
  | p :: chain => match Type_of p with Reject => true | RejectDrop => false | _ => proxy_active chain end
  end.
Definition rejectBanProxyActive (p : Proxy) (m : Metadata) : bool := proxy_active (unwrap_chain p m).

(** [rejectAdapter]: the first reject adapter of the chain, and the names up to
    it, innermost first. *)
Fixpoint reject_in (chain : list Proxy) (names : list string) : option (Proxy * list string) :=
  match chain with
  | [] => None
  | p :: chain => let names := Name p :: names in
                  match Type_of p with Reject | RejectDrop => Some (p, names) | _ => reject_in chain names end
  end.
Definition rejectAdapter (p : option Proxy) (m : Metadata) : option (Proxy * list string) :=
  match p with Some p => reject_in (unwrap_chain p m) [] | None => None end.

(** ** Operations *)

Definition with_lru (b : rejectBanCache) (w : world rejectBanKey positive) (c : LruCache rejectBanKey) : rejectBanCache :=
  mkBans c w (objects b) (fresh_ptr b) (generation b).

(** [c.entries.Get(key)] and the entry behind the pointer. *)
Definition get_entry (b : rejectBanCache) (key : rejectBanKey) : rejectBanCache * option (positive * rejectBanEntry) :=
  let '(w, c, r) := Get 0 (cells b) (entries b) key in
  (with_lru b w c, match r with
                   | Some ptr => match objects b !! ptr with Some e => Some (ptr, e) | None => None end
                   | None => None
                   end).

Definition delete_key (b : rejectBanCache) (key : rejectBanKey) : rejectBanCache :=
  let '(w, c) := Delete (cells b) (entries b) key in with_lru b w c.

(** [now.Sub(t) > rejectBanWindow]; the zero time is further away than any duration. *)
Definition outside (now : Z) (t : option Z) : bool :=
  match t with Some t => rejectBanWindow <? now - t | None => true end.

Definition Lookup (b : rejectBanCache) (key : rejectBanKey) (now : Z) : rejectBanCache * (option Proxy * Z) :=
  let '(b, r) := get_entry b key in
  match r with
  | None => (b, (None, generation b))
  | Some (_, e) =>
      match banUntil e with
      | Some until => if now <? until then (b, (banProxy e, generation b))
                      else (delete_key b key, (None, generation b))
      | None => if outside now (lastReject e) then (delete_key b key, (None, generation b))
                else (b, (None, generation b))
      end
  end.

Definition Current (b : rejectBanCache) (gen : Z) : bool := gen =? generation b.

(** Counting one rejection in an entry, and the ban it may start. *)
Definition count_reject (e : rejectBanEntry) (proxy : Proxy) (now : Z) : rejectBanEntry * option Z :=
  let now := match lastReject e with Some l => if now <? l then l else now | None => now end in
  let ring := <[next e := Some now]> (rejectedAt e) in
  let nxt := ((next e + 1) mod rejectBanThreshold)%nat in
  let cnt := if (count e <? rejectBanThreshold)%nat then S (count e) else count e in
  if (cnt <? rejectBanThreshold)%nat || outside now (default None (ring !! nxt))
  then (mkEntry ring nxt cnt (Some now) (banUntil e) (banProxy e), None)
  else (mkEntry ring nxt cnt (Some now) (Some (now + rejectBanDuration)) (Some proxy), Some (now + rejectBanDuration)).

Definition Reject_ (b : rejectBanCache) (key : rejectBanKey) (gen : Z) (proxy : Proxy) (now : Z)
    : rejectBanCache * option Z :=
  if negb (Current b gen) then (b, None)
  else
    let '(b, r) := get_entry b key in
    let banned := match r with
                  | Some (_, e) => match banUntil e with Some until => now <? until | None => false end
                  | None => false
                  end in
    if banned then (b, None)
    else
      let keep := match r with
                  | Some (ptr, e) => match banUntil e with
                                     | None => if outside now (lastReject e) then None else Some (ptr, e)
                                     | Some _ => None
                                     end
                  | None => None
                  end in
      let '(b, ptr, e) :=
        match keep with
        | Some (ptr, e) => (b, ptr, e)
        | None =>
            let ptr := fresh_ptr b in
            let '(w, c) := Set_ 0 (cells b) (entries b) key ptr in
            (mkBans c w (<[ptr := empty_entry]> (objects b)) (Pos.succ ptr) (generation b), ptr, empty_entry)
        end in
      let '(e, ban) := count_reject e proxy now in
      (mkBans (entries b) (cells b) (<[ptr := e]> (objects b)) (fresh_ptr b) (generation b), ban).

Definition Forget (b : rejectBanCache) (key : rejectBanKey) (gen : Z) : rejectBanCache :=
  if Current b gen then delete_key b key else b.

Definition Reset_ (b : rejectBanCache) : rejectBanCache :=
  mkBans (Clear (entries b)) (cells b) (objects b) (fresh_ptr b) (wrap 64 (generation b + 1)).

(** ** What the cache promises

    For one key: nothing is known, rejections at the listed times are being
    counted (oldest first), or it is banned until a time, with the proxy that
    rejected it. *)

Inductive ban_state :=
| Unknown
| Counting (times : list Z)
| Banned (until : Z) (proxy : Proxy).

Definition latest (times : list Z) (now : Z) : Z :=
  match last times with Some l => Z.max l now | None => now end.

Definition recent (now t : Z) : Prop := now - t ≤ rejectBanWindow.
#[export] Instance recent_dec now t : Decision (recent now t).
Proof. unfold recent. apply _. Defined.

(** The tenth rejection within the window starts the ban. *)
Definition spec_count (times : list Z) (proxy : Proxy) (now : Z) : ban_state * option Z :=
  let now := latest times now in
  let times := times ++ [now] in
  if decide (rejectBanThreshold ≤ length (filter (recent now) times))%nat
  then (Banned (now + rejectBanDuration) proxy, Some (now + rejectBanDuration))
  else (Counting times, None).

(** What is still remembered when an operation starts at time [now]. *)
Definition spec_live (s : ban_state) (now : Z) : ban_state :=
  match s with
  | Unknown => Unknown
  | Counting times => match last times with
                      | Some l => if rejectBanWindow <? now - l then Unknown else s
                      | None => Unknown
                      end
  | Banned until _ => if now <? until then s else Unknown
  end.

Definition spec_Lookup (s : ban_state) (now : Z) : ban_state * option Proxy :=
  let s := spec_live s now in (s, match s with Banned _ p => Some p | _ => None end).

Definition spec_Reject (s : ban_state) (proxy : Proxy) (now : Z) : ban_state * option Z :=
  match spec_live s now with
  | Unknown => spec_count [] proxy now
  | Counting times => spec_count times proxy now
  | Banned until p => (Banned until p, None)
  end.

(** *** The ring of an entry holds the last ten rejections *)

Record ring (e : rejectBanEntry) (times : list Z) : Prop := {
  ring_length : length (rejectedAt e) = rejectBanThreshold;
  ring_next : next e = (length times mod rejectBanThreshold)%nat;
  ring_count : count e = Nat.min (length times) rejectBanThreshold;
  ring_last : lastReject e = last times;
  ring_slot j t : times !! j = Some t → (length times ≤ j + rejectBanThreshold)%nat →
                  rejectedAt e !! (j mod rejectBanThreshold)%nat = Some (Some t);
}.

(** Rejections never go back in time. *)
Definition ordered (times : list Z) : Prop := ∀ i j x y, times !! i = Some x → times !! j = Some y → (i ≤ j)%nat → x ≤ y.

Lemma ordered_latest times now : ordered times → ordered (times ++ [latest times now]).
Proof.
  intros Ho i j x y Hi Hj Hij.
  assert (∀ i x, times !! i = Some x → x ≤ latest times now) as Hle.
  { intros k z Hk. unfold latest. rewrite last_lookup. pose proof (lookup_lt_Some _ _ _ Hk).
    destruct (lookup_lt_is_Some_2 times (pred (length times))) as [l Hl]; [lia|]. rewrite Hl.
    pose proof (Ho k _ z l Hk Hl). lia. }
  apply lookup_app_Some in Hi as [Hi|[Hi1 Hi]], Hj as [Hj|[Hj1 Hj]].
  - eauto.
  - apply list_lookup_singleton_Some in Hj as [_ <-]. eauto.
  - apply lookup_lt_Some in Hj. lia.
  - apply list_lookup_singleton_Some in Hj as [_ <-], Hi as [_ <-]. lia.
Qed.

(** In an ordered history, ten rejections lie in the window exactly when the tenth last does. *)
Lemma window_tenth times now :
  ordered times →
  (rejectBanThreshold ≤ length (filter (recent now) times))%nat ↔
  ∃ t, (rejectBanThreshold ≤ length times)%nat ∧ times !! (length times - rejectBanThreshold)%nat = Some t ∧
       recent now t.
Proof.
  intros Ho. set (P := recent now). set (n := (length times - rejectBanThreshold)%nat). split.
  - intros Hf. pose proof (length_filter P times) as Hle. fold P in Hf.
    destruct (lookup_lt_is_Some_2 times n) as [t Ht]; [unfold n, rejectBanThreshold in *; lia|].
    exists t. split_and!; [lia|done|]. destruct (decide (P t)) as [|Hn]; [done|]. exfalso.
    rewrite <- (take_drop (S n) times), filter_app, length_app in Hf.
    assert (filter P (take (S n) times) = []) as Hnil.
    { apply filter_none. intros x Hx HP. apply Hn. unfold P, recent in *.
      apply list_elem_of_lookup in Hx as [i Hi]. apply lookup_take_Some in Hi as [Hi Hlt].
      pose proof (Ho i n x t Hi Ht). lia. }
    rewrite Hnil in Hf. simpl in Hf. pose proof (length_filter P (drop (S n) times)) as Hd.
    rewrite length_drop in Hd. unfold n, rejectBanThreshold in *. lia.
  - intros (t & Hlen & Ht & HP). rewrite <- (take_drop n times), filter_app, length_app.
    rewrite (list_filter_all _ (drop n times)); [rewrite length_drop; unfold n; lia|].
    intros x Hx. apply list_elem_of_lookup in Hx as [i Hi]. rewrite lookup_drop in Hi.
    pose proof (Ho n (n + i)%nat t x Ht Hi). unfold P, recent in *. lia.
Qed.

Definition represents (e : rejectBanEntry) (s : ban_state) : Prop :=
  match s with
  | Unknown => False
  | Counting times => times ≠ [] ∧ ordered times ∧ ring e times ∧ banUntil e = None
  | Banned until p => banUntil e = Some until ∧ banProxy e = Some p
  end.

#[local] Ltac Zify.zify_post_hook ::= Z.to_euclidean_division_equations.

Lemma ring_empty : ring empty_entry [].
Proof. split; done. Qed.

(** Writing the next slot of the ring. *)
Lemma ring_push e times t until p cnt :
  ring e times → cnt = Nat.min (S (length times)) rejectBanThreshold →
  ring (mkEntry (<[next e := Some t]> (rejectedAt e)) ((next e + 1) mod rejectBanThreshold) cnt (Some t) until p)
       (times ++ [t]).
Proof.
  intros [Hl Hn Hc Hlast Hs] Hcnt. split; cbn [rejectedAt next count lastReject].
  - by rewrite length_insert.
  - rewrite length_app, Hn. simpl length. unfold rejectBanThreshold. lia.
  - rewrite length_app. simpl length. unfold rejectBanThreshold in *. lia.
  - by rewrite last_snoc.
  - intros j x Hj Hlen. rewrite length_app in Hlen. simpl length in Hlen.
    apply lookup_app_Some in Hj as [Hj|[Hge Hj]].
    + pose proof (lookup_lt_Some _ _ _ Hj). rewrite list_lookup_insert_ne; [|rewrite Hn; unfold rejectBanThreshold in *; lia].
      apply Hs; [done|lia].
    + apply list_lookup_singleton_Some in Hj as [Hj <-]. replace j with (length times) by lia.
      rewrite Hn. apply list_lookup_insert_eq. rewrite Hl. unfold rejectBanThreshold. lia.
Qed.

(** The slot after the one written holds the tenth last rejection. *)
Lemma ring_oldest e times :
  ring e times → (rejectBanThreshold ≤ length times)%nat →
  ∃ t, times !! (length times - rejectBanThreshold)%nat = Some t ∧ rejectedAt e !! next e = Some (Some t).
Proof.
  intros [Hl Hn _ _ Hs] Hlen.
  destruct (lookup_lt_is_Some_2 times (length times - rejectBanThreshold)) as [t Ht]; [unfold rejectBanThreshold in *; lia|].
  exists t. split; [done|]. rewrite Hn, <- (Hs _ _ Ht); [f_equal; unfold rejectBanThreshold in *; lia|lia].
Qed.

Lemma count_reject_spec e times p now :
  ring e times → ordered times → banUntil e = None →
  (count_reject e p now).2 = (spec_count times p now).2 ∧
  represents (count_reject e p now).1 (spec_count times p now).1.
Proof.
  intros Hr Ho Hb. unfold count_reject, spec_count.
  assert (match lastReject e with Some l => if now <? l then l else now | None => now end = latest times now) as ->.
  { rewrite (ring_last _ _ Hr). unfold latest. destruct (last times) as [l|]; [|done].
    destruct (Z.ltb_spec now l); lia. }
  pose proof (ordered_latest times now Ho) as Ho'. set (t := latest times now) in *.
  set (cnt := if (count e <? rejectBanThreshold)%nat then S (count e) else count e).
  assert (cnt = Nat.min (S (length times)) rejectBanThreshold) as Hcnt.
  { unfold cnt. rewrite (ring_count _ _ Hr). unfold rejectBanThreshold. destruct (Nat.ltb_spec (Nat.min (length times) 10) 10); lia. }
  pose proof (window_tenth (times ++ [t]) t Ho') as Hw.
  assert ((cnt <? rejectBanThreshold)%nat || outside t (default None (<[next e:=Some t]> (rejectedAt e) !!
    ((next e + 1) mod rejectBanThreshold)%nat)) = false ↔
    (rejectBanThreshold ≤ length (filter (recent t) (times ++ [t])))%nat) as Hiff.
  { rewrite Hw, orb_false_iff, Nat.ltb_ge, Hcnt.
    pose proof (ring_push e times t None None cnt Hr Hcnt) as Hr'. split.
    - intros [Hge Hout]. destruct (ring_oldest _ _ Hr') as (x & Hx & Hslot);
        [rewrite length_app; simpl length; unfold rejectBanThreshold in *; lia|]. cbn [rejectedAt next] in Hslot.
      rewrite Hslot in Hout. simpl in Hout. breflect. exists x. split_and!; [|done|done].
      rewrite length_app. simpl length. unfold rejectBanThreshold in *. lia.
    - intros (x & Hge & Hx & Hrec). split; [rewrite length_app in Hge; simpl length in Hge; unfold rejectBanThreshold in *; lia|].
      destruct (ring_oldest _ _ Hr') as (x' & Hx' & Hslot); [done|]. cbn [rejectedAt next] in Hslot. rewrite Hslot.
      simpl. apply Z.ltb_ge. assert (x' = x) as -> by congruence. done. }
  destruct (_ || _) eqn:Eb.
  - rewrite decide_False by (intros Hd; by apply Hiff in Hd). split; [done|]. simpl. split_and!; [|done| |done].
    + by destruct times.
    + by apply ring_push.
  - rewrite decide_True by (by apply Hiff). done.
Qed.

(** *** The cache: pointers, entries and keys *)

Definition found (b : rejectBanCache) (k : rejectBanKey) : option positive :=
  value <$> a_find k (Snapshot (cells b) (entries b)).

Definition view (b : rejectBanCache) (k : rejectBanKey) : option rejectBanEntry :=
  match found b k with Some ptr => objects b !! ptr | None => None end.

(** No two keys share an entry and no key holds a pointer not yet allocated. *)
Record consistent (b : rejectBanCache) : Prop := {
  cons_wf : wf (cells b) (entries b);
  cons_plain : plain maxRejectBanKeys (entries b);
  cons_live k ptr : found b k = Some ptr → (ptr < fresh_ptr b)%positive ∧ is_Some (objects b !! ptr);
  cons_inj k1 k2 ptr : found b k1 = Some ptr → found b k2 = Some ptr → k1 = k2;
}.

(** What the cache knows of a key. *)
Definition known (b : rejectBanCache) (k : rejectBanKey) (s : ban_state) : Prop :=
  match view b k with Some e => represents e s | None => s = Unknown end.

Lemma consistent_sub b b' :
  consistent b → wf (cells b') (entries b') → plain maxRejectBanKeys (entries b') →
  objects b' = objects b → fresh_ptr b' = fresh_ptr b →
  (∀ k ptr, found b' k = Some ptr → found b k = Some ptr) → consistent b'.
Proof.
  intros [_ _ Hl Hi] Hwf Hp Ho Hf Hsub. split; [done|done| |].
  - intros k ptr Hk. rewrite Ho, Hf. eauto.
  - eauto.
Qed.

Lemma get_entry_spec b k :
  consistent b →
  let '(b', r) := get_entry b k in
  consistent b' ∧ (∀ k', found b' k' = found b k') ∧ objects b' = objects b ∧ fresh_ptr b' = fresh_ptr b ∧
  generation b' = generation b ∧
  match r with Some (ptr, e) => found b k = Some ptr ∧ view b k = Some e | None => found b k = None end.
Proof.
  intros Hb. unfold get_entry.
  pose proof (plain_get_find maxRejectBanKeys (cells b) (entries b) k (cons_wf _ Hb) (cons_plain _ Hb)) as Hg.
  pose proof (λ k', plain_get_other maxRejectBanKeys (cells b) (entries b) k k' (cons_wf _ Hb) (cons_plain _ Hb)) as Ho.
  destruct (Get 0 (cells b) (entries b) k) as [[w c] r]. destruct Hg as (Hwf & Hp & Hr & _).
  assert (∀ k', found (with_lru b w c) k' = found b k') as Hf.
  { intros k'. unfold found. simpl. by rewrite (Ho k'). }
  split_and!; [|done|done..|].
  - eapply consistent_sub; [exact Hb|done|done|done|done|]. intros k' ptr. by rewrite Hf.
  - change (value <$> a_find k (Snapshot (cells b) (entries b))) with (found b k) in Hr. rewrite Hr.
    destruct (found b k) as [ptr|] eqn:E; [|done].
    destruct (cons_live _ Hb _ _ E) as [_ [e He]]. rewrite He. split; [done|]. unfold view. by rewrite E.
Qed.

Lemma delete_key_spec b k :
  consistent b →
  consistent (delete_key b k) ∧ found (delete_key b k) k = None ∧
  (∀ k', k ≠ k' → found (delete_key b k) k' = found b k') ∧ objects (delete_key b k) = objects b ∧
  generation (delete_key b k) = generation b.
Proof.
  intros Hb. unfold delete_key.
  pose proof (plain_delete_find maxRejectBanKeys (cells b) (entries b) k (cons_wf _ Hb) (cons_plain _ Hb)) as Hd.
  pose proof (λ k', plain_delete_other maxRejectBanKeys (cells b) (entries b) k k' (cons_wf _ Hb) (cons_plain _ Hb)) as Ho.
  destruct (Delete (cells b) (entries b) k) as [w c]. destruct Hd as (Hwf & Hp & Hn).
  assert (found (with_lru b w c) k = None) as Hfn by (unfold found; simpl; by rewrite Hn).
  assert (∀ k', k ≠ k' → found (with_lru b w c) k' = found b k') as Hf.
  { intros k' Hne. unfold found. simpl. by rewrite (Ho k' Hne). }
  split_and!; [|done|done|done|done]. eapply consistent_sub; [exact Hb|done|done|done|done|].
  intros k' ptr Hk. destruct (decide (k = k')) as [<-|Hne]; [congruence|]. by rewrite <- Hf.
Qed.

(** The state of another key survives, unless a full cache evicts it. *)
Definition kept_or_evicted (b b' : rejectBanCache) (k : rejectBanKey) : Prop :=
  ∀ k', k ≠ k' →
    view b' k' = view b k' ∨
    (view b' k' = None ∧ view b k = None ∧ maxRejectBanKeys ≤ Z.of_nat (length (Snapshot (cells b) (entries b)))).

Definition alloc (b : rejectBanCache) (k : rejectBanKey) (e : rejectBanEntry) : rejectBanCache :=
  let '(w, c) := Set_ 0 (cells b) (entries b) k (fresh_ptr b) in
  mkBans c w (<[fresh_ptr b := e]> (objects b)) (Pos.succ (fresh_ptr b)) (generation b).

Lemma alloc_spec b k e :
  consistent b →
  consistent (alloc b k e) ∧ found (alloc b k e) k = Some (fresh_ptr b) ∧ kept_or_evicted b (alloc b k e) k.
Proof.
  intros Hb. unfold alloc.
  pose proof (plain_set_find maxRejectBanKeys (cells b) (entries b) k (fresh_ptr b) (cons_wf _ Hb) (cons_plain _ Hb)) as Hs.
  pose proof (λ k', plain_set_other maxRejectBanKeys (cells b) (entries b) k k' (fresh_ptr b)
                      (cons_wf _ Hb) (cons_plain _ Hb)) as Ho.
  destruct (Set_ 0 (cells b) (entries b) k (fresh_ptr b)) as [w c]. destruct Hs as (Hwf & Hp & Hf).
  set (b' := mkBans _ _ _ _ _).
  assert (found b' k = Some (fresh_ptr b)) as Hk by (unfold found; simpl; by rewrite Hf).
  assert (∀ k' ptr, k ≠ k' → found b' k' = Some ptr → found b k' = Some ptr) as Hsub.
  { intros k' ptr Hne. unfold found. simpl. destruct (Ho k' Hne) as [->|[-> _]]; done. }
  split_and!; [split; [done|done| |]|done|].
  - intros k' ptr Hk'. destruct (decide (k = k')) as [<-|Hne].
    + assert (ptr = fresh_ptr b) as -> by congruence. simpl. rewrite lookup_insert_eq. split; [lia|done].
    + destruct (cons_live _ Hb k' ptr) as [Hlt Hobj]; [by apply Hsub|]. simpl. split; [lia|].
      rewrite lookup_insert_ne by lia. done.
  - intros k1 k2 ptr H1 H2. destruct (decide (k = k1)) as [<-|Hn1], (decide (k = k2)) as [<-|Hn2]; [done| | |].
    + destruct (cons_live _ Hb k2 ptr) as [Hlt _]; [by apply Hsub|]. assert (ptr = fresh_ptr b) as -> by congruence. lia.
    + destruct (cons_live _ Hb k1 ptr) as [Hlt _]; [by apply Hsub|]. assert (ptr = fresh_ptr b) as -> by congruence. lia.
    + apply (cons_inj _ Hb k1 k2 ptr); by apply Hsub.
  - intros k' Hne. destruct (Ho k' Hne) as [Heq|(Hn & Hnk & Hfull)]; [left|right].
    + unfold view. assert (found b' k' = found b k') as -> by (unfold found; simpl; by rewrite Heq).
      destruct (found b k') as [ptr|] eqn:E; [|done]. destruct (cons_live _ Hb _ _ E) as [Hlt _]. simpl.
      by rewrite lookup_insert_ne by lia.
    + unfold view, found. simpl. by rewrite Hn, Hnk.
Qed.

Definition write (b : rejectBanCache) (ptr : positive) (e : rejectBanEntry) : rejectBanCache :=
  mkBans (entries b) (cells b) (<[ptr := e]> (objects b)) (fresh_ptr b) (generation b).

Lemma write_spec b k ptr e :
  consistent b → found b k = Some ptr →
  consistent (write b ptr e) ∧ view (write b ptr e) k = Some e ∧ ∀ k', k ≠ k' → view (write b ptr e) k' = view b k'.
Proof.
  intros Hb Hk. split_and!.
  - destruct Hb as [Hwf Hp Hl Hi]. split; [done|done| |done]. intros k' p' Hk'. destruct (Hl k' p' Hk') as [? ?].
    split; [done|]. simpl. destruct (decide (ptr = p')) as [->|]; [by rewrite lookup_insert_eq|by rewrite lookup_insert_ne].
  - unfold view. change (found (write b ptr e) k) with (found b k). rewrite Hk. simpl. by rewrite lookup_insert_eq.
  - intros k' Hne. unfold view. change (found (write b ptr e) k') with (found b k').
    destruct (found b k') as [p'|] eqn:E; [|done]. simpl. rewrite lookup_insert_ne; [done|]. intros ->.
    apply Hne. exact (cons_inj _ Hb _ _ _ Hk E).
Qed.

Lemma known_view b b' k s : view b' k = view b k → known b k s → known b' k s.
Proof. unfold known. by intros ->. Qed.

Lemma known_none b k : view b k = None → known b k Unknown.
Proof. unfold known. by intros ->. Qed.

(** The lazy expiry of an entry is that of the specification. *)
Lemma live_spec e s now :
  represents e s →
  match banUntil e with
  | Some until => ∃ p, s = Banned until p ∧ banProxy e = Some p ∧ spec_live s now = if now <? until then s else Unknown
  | None => ∃ times, s = Counting times ∧ times ≠ [] ∧ ordered times ∧ ring e times ∧
                     spec_live s now = if outside now (lastReject e) then Unknown else s
  end.
Proof.
  destruct s as [|times|until p]; simpl; [done| |].
  - intros (Hne & Ho & Hr & ->). exists times. split_and!; [done..|]. rewrite (ring_last _ _ Hr).
    destruct (last times) as [l|] eqn:E; [done|]. by apply last_None in E.
  - intros [-> Hp]. by exists p.
Qed.

Lemma found_same_view b b' k : found b' k = found b k → objects b' = objects b → view b' k = view b k.
Proof. unfold view. by intros -> ->. Qed.

Lemma Lookup_spec b k s now :
  consistent b → known b k s →
  let '(b', (r, g)) := Lookup b k now in
  consistent b' ∧ generation b' = generation b ∧ (∀ k', k ≠ k' → view b' k' = view b k') ∧
  g = generation b ∧ r = (spec_Lookup s now).2 ∧ known b' k (spec_Lookup s now).1.
Proof.
  intros Hb Hk. unfold Lookup. pose proof (get_entry_spec b k Hb) as Hg. destruct (get_entry b k) as [b1 r].
  destruct Hg as (Hb1 & Hf & Ho & _ & Hgen & Hr).
  assert (∀ k', view b1 k' = view b k') as Hv by (intros k'; by apply found_same_view).
  destruct (delete_key_spec b1 k Hb1) as (Hbd & Hn & Hfd & Hod & Hgd).
  assert (∀ k', k ≠ k' → view (delete_key b1 k) k' = view b k') as Hvd.
  { intros k' Hne. rewrite <- Hv. apply found_same_view; [by apply Hfd|done]. }
  assert (known (delete_key b1 k) k Unknown) as Hkd by (apply known_none; unfold view; by rewrite Hn).
  destruct r as [[ptr e]|].
  - destruct Hr as [_ He]. pose proof Hk as Hrep. unfold known in Hrep. rewrite He in Hrep.
    pose proof (live_spec e s now Hrep) as Hl. unfold spec_Lookup. destruct (banUntil e) as [until|].
    + destruct Hl as (p & -> & Hp & ->). destruct (now <? until); simpl.
      * split_and!; [done|done|intros; by apply Hv|done|done|]. eapply known_view; [apply Hv|done].
      * split_and!; [done|congruence|done|done|done|done].
    + destruct Hl as (times & -> & _ & _ & _ & ->). destruct (outside now (lastReject e)); simpl.
      * split_and!; [done|congruence|done|done|done|done].
      * split_and!; [done|done|intros; by apply Hv|done|done|]. eapply known_view; [apply Hv|done].
  - assert (view b k = None) as Hnone by (unfold view; by rewrite Hr). unfold known in Hk. rewrite Hnone in Hk.
    subst s. simpl. split_and!; [done|done|intros; by apply Hv|done|done|]. apply known_none. by rewrite Hv.
Qed.

(** An entry is created, or the one found is counted further. *)
Lemma Reject_cases b k p now :
  consistent b →
  let '(b1, r) := get_entry b k in
  Reject_ b k (generation b) p now =
    match r with
    | Some (ptr, e) =>
        match banUntil e with
        | Some until => if now <? until then (b1, None)
                        else (alloc b1 k (count_reject empty_entry p now).1, (count_reject empty_entry p now).2)
        | None => if outside now (lastReject e)
                  then (alloc b1 k (count_reject empty_entry p now).1, (count_reject empty_entry p now).2)
                  else (write b1 ptr (count_reject e p now).1, (count_reject e p now).2)
        end
    | None => (alloc b1 k (count_reject empty_entry p now).1, (count_reject empty_entry p now).2)
    end.
Proof.
  intros Hb. unfold Reject_, Current. rewrite Z.eqb_refl. simpl negb. cbv iota.
  destruct (get_entry b k) as [b1 r]. unfold alloc, write.
  destruct r as [[ptr e]|]; [destruct (banUntil e) as [until|]; [destruct (now <? until); [done|]|
    cbv iota; destruct (outside now (lastReject e))]|]; cbv beta iota zeta.
  all: destruct (Set_ 0 (cells b1) (entries b1) k (fresh_ptr b1)) as [w c];
    destruct (count_reject _ p now) as [e' ban]; simpl; try rewrite insert_insert_eq; done.
Qed.

Lemma alloc_view b k e : consistent b → view (alloc b k e) k = Some e.
Proof.
  intros Hb. unfold view. destruct (alloc_spec b k e Hb) as (_ & -> & _). unfold alloc.
  destruct (Set_ _ _ _ _ _). simpl. by rewrite lookup_insert_eq.
Qed.

Lemma alloc_generation b k e : generation (alloc b k e) = generation b.
Proof. unfold alloc. by destruct (Set_ _ _ _ _ _). Qed.

Lemma get_entry_length b k :
  consistent b →
  (length (Snapshot (cells (get_entry b k).1) (entries (get_entry b k).1)) ≤ length (Snapshot (cells b) (entries b)))%nat.
Proof.
  intros Hb. unfold get_entry.
  pose proof (plain_get maxRejectBanKeys (cells b) (entries b) k (cons_wf _ Hb) (cons_plain _ Hb)) as Hg.
  destruct (Get 0 (cells b) (entries b) k) as [[w c] r]. destruct Hg as (_ & _ & Hg). simpl.
  destruct (a_find k (Snapshot (cells b) (entries b))) as [e|] eqn:E; destruct Hg as [_ ->]; [|done].
  pose proof (a_remove_length_lt k _ e E) as Hlt. rewrite length_app. simpl. lia.
Qed.

Lemma Reject_spec b k s p now :
  consistent b → known b k s →
  let '(b', r) := Reject_ b k (generation b) p now in
  consistent b' ∧ generation b' = generation b ∧
  r = (spec_Reject s p now).2 ∧ known b' k (spec_Reject s p now).1.
Proof.
  intros Hb Hk. pose proof (Reject_cases b k p now Hb) as Hc. pose proof (get_entry_spec b k Hb) as Hg.
  destruct (get_entry b k) as [b1 r]. destruct Hg as (Hb1 & Hf & Ho & _ & Hgen & Hr). rewrite Hc. clear Hc.
  assert (view b1 k = view b k) as Hv by (by apply found_same_view).
  assert (∀ s0, s0 = Unknown → let '(b', r) := (alloc b1 k (count_reject empty_entry p now).1, (count_reject empty_entry p now).2) in
    consistent b' ∧ generation b' = generation b ∧ r = (spec_count [] p now).2 ∧ known b' k (spec_count [] p now).1) as Hnew.
  { intros _ _. destruct (alloc_spec b1 k (count_reject empty_entry p now).1 Hb1) as (? & _ & _).
    destruct (count_reject_spec empty_entry [] p now) as [Hr1 Hr2]; [apply ring_empty|by intros ? ?|done|].
    split_and!; [done|by rewrite alloc_generation|done|]. unfold known. by rewrite alloc_view. }
  unfold spec_Reject. destruct r as [[ptr e]|].
  - destruct Hr as [Hptr He]. pose proof Hk as Hrep. unfold known in Hrep. rewrite He in Hrep.
    pose proof (live_spec e s now Hrep) as Hl. destruct (banUntil e) as [until|] eqn:Eb.
    + destruct Hl as (q & -> & _ & ->). destruct (now <? until); [|by apply (Hnew Unknown)].
      split_and!; [done|done|done|]. by eapply known_view.
    + destruct Hl as (times & -> & _ & Hord & Hring & ->). destruct (outside now (lastReject e)); [by apply (Hnew Unknown)|].
      rewrite <- Hf in Hptr. destruct (write_spec b1 k ptr (count_reject e p now).1 Hb1 Hptr) as (? & Hw & _).
      destruct (count_reject_spec e times p now) as [Hr1 Hr2]; [done..|].
      split_and!; [done|done|done|]. unfold known. by rewrite Hw.
  - assert (view b k = None) as Hnone by (unfold view; by rewrite Hr). unfold known in Hk. rewrite Hnone in Hk.
    subst s. by apply (Hnew Unknown).
Qed.

Lemma Reject_others b k p now : consistent b → kept_or_evicted b (Reject_ b k (generation b) p now).1 k.
Proof.
  intros Hb. pose proof (Reject_cases b k p now Hb) as Hc. pose proof (get_entry_spec b k Hb) as Hg.
  pose proof (get_entry_length b k Hb) as Hlen.
  destruct (get_entry b k) as [b1 r]. destruct Hg as (Hb1 & Hf & Ho & _ & _ & Hr). rewrite Hc. clear Hc. simpl in Hlen.
  assert (∀ k', view b1 k' = view b k') as Hv by (intros; by apply found_same_view).
  assert (∀ e, kept_or_evicted b (alloc b1 k e) k) as Hnew.
  { intros e k' Hne. destruct (alloc_spec b1 k e Hb1) as (_ & _ & Hke). rewrite <- !Hv.
    destruct (Hke k' Hne) as [?|(? & ? & ?)]; [by left|right]. split_and!; [done|done|lia]. }
  destruct r as [[ptr e]|]; [|by apply Hnew]. destruct Hr as [Hptr He]. rewrite <- Hf in Hptr.
  destruct (banUntil e); [destruct (_ <? _); [|by apply Hnew]|destruct (outside _ _); [by apply Hnew|]].
  - intros k' _. left. apply Hv.
  - intros k' Hne. left. destruct (write_spec b1 k ptr (count_reject e p now).1 Hb1 Hptr) as (_ & _ & Hw). simpl.
    by rewrite Hw.
Qed.

(** ** Sequences of operations *)

Inductive ban_op :=
| BLookup (k : rejectBanKey) (now : Z)
| BReject (k : rejectBanKey) (gen : Z) (p : Proxy) (now : Z)
| BForget (k : rejectBanKey) (gen : Z)
| BReset.

Definition ban_step (b : rejectBanCache) (o : ban_op) : rejectBanCache :=
  match o with
  | BLookup k now => (Lookup b k now).1
  | BReject k gen p now => (Reject_ b k gen p now).1
  | BForget k gen => Forget b k gen
  | BReset => Reset_ b
  end.

Definition ban_run (ops : list ban_op) : rejectBanCache := fold_left ban_step ops newRejectBanCache.

(** Every entry of the cache is one the specification can describe. *)
Definition describable (b : rejectBanCache) : Prop := consistent b ∧ ∀ k, ∃ s, known b k s.

Lemma known_others b b' k :
  (∀ k', ∃ s, known b k' s) → kept_or_evicted b b' k → ∀ k', k ≠ k' → ∃ s, known b' k' s.
Proof.
  intros Hs Hke k' Hne. destruct (Hke k' Hne) as [Hv|[Hn _]].
  - destruct (Hs k') as [s ?]. exists s. by eapply known_view.
  - exists Unknown. by apply known_none.
Qed.

Lemma same_kept b b' k : (∀ k', k ≠ k' → view b' k' = view b k') → kept_or_evicted b b' k.
Proof. intros Hv k' Hne. left. by apply Hv. Qed.

Lemma Forget_spec b k :
  consistent b → let b' := Forget b k (generation b) in
  consistent b' ∧ generation b' = generation b ∧ known b' k Unknown ∧ ∀ k', k ≠ k' → view b' k' = view b k'.
Proof.
  intros Hb. unfold Forget, Current. rewrite Z.eqb_refl. simpl.
  destruct (delete_key_spec b k Hb) as (? & Hn & Hfd & Hod & ?). split_and!; [done|done| |].
  - apply known_none. unfold view. by rewrite Hn.
  - intros k' Hne. apply found_same_view; [by apply Hfd|done].
Qed.

Lemma Reset_spec b : consistent b → consistent (Reset_ b) ∧ ∀ k, found (Reset_ b) k = None.
Proof.
  intros Hb. assert (∀ k, found (Reset_ b) k = None) as Hf by done. split; [|done].
  split; [apply Clear_wf| | |]; [|intros k ptr; by rewrite Hf..].
  pose proof (cons_plain _ Hb) as Hp. unfold plain, same_config in *. simpl. by rewrite Hp.
Qed.

Lemma ban_step_describable b o : describable b → describable (ban_step b o).
Proof.
  intros [Hb Hs]. destruct o as [k now|k gen p now|k gen|]; simpl.
  - destruct (Hs k) as [s Hk]. pose proof (Lookup_spec b k s now Hb Hk) as Hl. destruct (Lookup b k now) as [b' [r g]].
    destruct Hl as (? & _ & Hv & _ & _ & Hk'). split; [done|]. intros k'. destruct (decide (k = k')) as [<-|Hne]; [eauto|].
    by eapply known_others; [exact Hs|apply same_kept|].
  - destruct (decide (gen = generation b)) as [->|Hgen].
    + destruct (Hs k) as [s Hk]. pose proof (Reject_spec b k s p now Hb Hk) as Hl.
      pose proof (Reject_others b k p now Hb) as Hke. destruct (Reject_ b k (generation b) p now) as [b' r].
      destruct Hl as (? & _ & _ & Hk'). split; [done|]. intros k'. destruct (decide (k = k')) as [<-|Hne]; [eauto|].
      by eapply known_others.
    + unfold Reject_, Current. rewrite (proj2 (Z.eqb_neq gen (generation b))) by done. done.
  - destruct (decide (gen = generation b)) as [->|Hgen].
    + destruct (Forget_spec b k Hb) as (? & _ & ? & Hv). split; [done|]. intros k'.
      destruct (decide (k = k')) as [<-|Hne]; [eauto|]. by eapply known_others; [exact Hs|apply same_kept|].
    + unfold Forget, Current. by rewrite (proj2 (Z.eqb_neq gen (generation b))) by done.
  - destruct (Reset_spec b Hb) as [? Hf]. split; [done|]. intros k. exists Unknown. apply known_none. unfold view. by rewrite Hf.
Qed.

Lemma new_describable : describable newRejectBanCache.
Proof.
  split.
  - split; [apply New_wf|done|done|done].
  - intros k. exists Unknown. by apply known_none.
Qed.

Lemma ban_run_describable ops : describable (ban_run ops).
Proof.
  unfold ban_run. generalize new_describable. generalize newRejectBanCache as b.
  induction ops as [|o ops IH]; intros b Hb; simpl; [done|]. by apply IH, ban_step_describable.
Qed.

(** ** The sliding window *)

(** Rejections of one key at the given times. *)
Fixpoint rejects (b : rejectBanCache) (k : rejectBanKey) (p : Proxy) (ts : list Z) : rejectBanCache * list (option Z) :=
  match ts with
  | [] => (b, [])
  | t :: ts => let '(b, r) := Reject_ b k (generation b) p t in
               let '(b, rs) := rejects b k p ts in (b, r :: rs)
  end.

(** The times still counted are the ones since the last gap; the others left the window. *)
Definition tracks (s : ban_state) (ts : list Z) : Prop :=
  match s with
  | Unknown => ts = []
  | Counting times => ∃ old l, ts = old ++ times ∧ last times = Some l ∧ ∀ d, d ∈ old → ¬ recent l d
  | Banned _ _ => False
  end.

Lemma rejects_app b k p ts1 ts2 :
  rejects b k p (ts1 ++ ts2) =
  ((rejects (rejects b k p ts1).1 k p ts2).1, (rejects b k p ts1).2 ++ (rejects (rejects b k p ts1).1 k p ts2).2).
Proof.
  revert b. induction ts1 as [|t ts1 IH]; intros b; simpl; [by destruct (rejects b k p ts2)|].
  destruct (Reject_ b k (generation b) p t) as [b1 r]. rewrite IH. by destruct (rejects b1 k p ts1).
Qed.

Lemma filter_old t l old times :
  l ≤ t → (∀ d, d ∈ old → ¬ recent l d) → filter (recent t) (old ++ times) = filter (recent t) times.
Proof.
  intros Hlt Hold. rewrite filter_app, filter_none; [done|]. intros d Hd Hr. apply (Hold d Hd).
  unfold recent in *. lia.
Qed.

(** Forgetting what left the window does not change the count. *)
Lemma tracks_step s ts p t :
  tracks s ts → (∀ x, x ∈ ts → x ≤ t) → (∀ l, last ts = Some l → ∀ x, x ∈ ts → x ≤ l) →
  if decide (rejectBanThreshold ≤ length (filter (recent t) (ts ++ [t])))%nat
  then spec_Reject s p t = (Banned (t + rejectBanDuration) p, Some (t + rejectBanDuration))
  else (spec_Reject s p t).2 = None ∧ tracks (spec_Reject s p t).1 (ts ++ [t]).
Proof.
  intros Ht Hle Hlast. unfold spec_Reject.
  destruct s as [|times|]; simpl in Ht; [subst ts|destruct Ht as (old & l & Hts & Hl & Hold)|done].
  { simpl. unfold spec_count, latest. simpl. destruct (decide _); [done|]. split; [done|]. exists [], t. split_and!; [done|done|]. by intros d []%not_elem_of_nil. }
  assert (last ts = Some l) as Hll by (rewrite Hts, last_app, Hl; done).
  assert (l ≤ t) as Hlt by (apply Hle; by apply last_Some_elem_of).
  simpl. rewrite Hl. destruct (Z.ltb_spec rejectBanWindow (t - l)) as [Hgap|Hgap].
  - assert (∀ d, d ∈ ts → ¬ recent t d) as Hts'.
    { intros d Hd Hr. specialize (Hlast l Hll d Hd). unfold recent in Hr. lia. }
    rewrite (filter_old t t ts [t] (Z.le_refl t) Hts'). unfold spec_count, latest. simpl app.
    change (last (@nil Z)) with (@None Z). cbv iota. destruct (decide _); [done|]. split; [done|].
    exists ts, t. split_and!; done.
  - assert (filter (recent t) (ts ++ [t]) = filter (recent t) (times ++ [t])) as ->
      by (rewrite Hts, <- (assoc_L (++)); by eapply filter_old).
    unfold spec_count, latest. rewrite Hl. replace (Z.max l t) with t by lia. destruct (decide _); [done|].
    split; [done|]. exists old, t. split_and!; [by rewrite Hts, (assoc_L (++))|by rewrite last_snoc|].
    intros d Hd Hr. apply (Hold d Hd). unfold recent in *. lia.
Qed.

Definition sorted (ts : list Z) : Prop := StronglySorted Z.le ts.

Lemma sorted_snoc ts t : sorted (ts ++ [t]) → sorted ts ∧ ∀ x, x ∈ ts → x ≤ t.
Proof.
  intros Hs. apply StronglySorted_app in Hs as (Hc & Hs & _). split; [done|].
  intros x Hx. apply Hc; [done|]. left.
Qed.

Lemma sorted_last ts l : sorted ts → last ts = Some l → ∀ x, x ∈ ts → x ≤ l.
Proof.
  intros Hs Hl x Hx. apply last_Some in Hl as [ts' ->]. apply sorted_snoc in Hs as [_ Hle].
  apply elem_of_app in Hx as [Hx|Hx%list_elem_of_singleton]; [auto|lia].
Qed.

(** As long as no ban starts, the state tracks the whole history. *)
Lemma rejects_track b k p ts :
  consistent b → known b k Unknown → sorted ts → Forall (eq None) (rejects b k p ts).2 →
  consistent (rejects b k p ts).1 ∧ ∃ s, known (rejects b k p ts).1 k s ∧ tracks s ts.
Proof.
  intros Hb Hk. induction ts as [|t ts IH] using rev_ind; intros Hs Hnone; [simpl; split; [done|by exists Unknown]|].
  rewrite rejects_app in *. simpl in Hnone |- *. apply Forall_app in Hnone as [Hn1 Hn2].
  pose proof (sorted_snoc _ _ Hs) as [Hs1 Hle]. destruct IH as (Hb1 & s & Hk1 & Ht); [done..|].
  set (b1 := (rejects b k p ts).1) in *. pose proof (Reject_spec b1 k s p t Hb1 Hk1) as Hr.
  destruct (Reject_ b1 k (generation b1) p t) as [b2 r]. destruct Hr as (Hb2 & _ & Hr & Hk2). simpl in *.
  apply Forall_cons in Hn2 as [Hr0 _]. split; [done|]. exists (spec_Reject s p t).1. split; [done|].
  pose proof (tracks_step s ts p t Ht Hle (λ l Hl, sorted_last ts l Hs1 Hl)) as Hstep.
  destruct (decide _); [rewrite Hstep in Hr; simpl in Hr; congruence|]. apply Hstep.
Qed.

(** ** Properties *)

(** C34. After any sequence of operations the state of a key is one the
    specification describes, and the key behaves as the specification says: a lookup answers the proxy only while the ban lasts, a rejection is
    counted or starts a ban exactly when the sliding window says so, a running
    ban is neither extended nor shortened, and forgetting or a reset drops the
    key.  An operation carrying an old generation changes nothing, and a reset
    makes every earlier generation old. *)
Theorem reject_ban_refines (ops : list ban_op) (k : rejectBanKey) :
  let b := ban_run ops in
  (∃ s, known b k s) ∧ ∀ s, known b k s →
  (∀ now, let '(b', (r, g)) := Lookup b k now in
          r = (spec_Lookup s now).2 ∧ g = generation b ∧ known b' k (spec_Lookup s now).1) ∧
  (∀ p now, let '(b', r) := Reject_ b k (generation b) p now in
            r = (spec_Reject s p now).2 ∧ known b' k (spec_Reject s p now).1) ∧
  (known (Forget b k (generation b)) k Unknown ∧ known (Reset_ b) k Unknown ∧ Current (Reset_ b) (generation b) = false) ∧
  (∀ gen p now, gen ≠ generation b → Reject_ b k gen p now = (b, None) ∧ Forget b k gen = b).
Proof.
  intros b. destruct (ban_run_describable ops) as [Hb Hs]. fold b in Hb, Hs. split; [apply Hs|]. intros s Hk. split_and!.
  - intros now. pose proof (Lookup_spec b k s now Hb Hk) as Hl. destruct (Lookup b k now) as [b' [r g]].
    split_and!; apply Hl.
  - intros p now. pose proof (Reject_spec b k s p now Hb Hk) as Hl. destruct (Reject_ _ _ _ _ _) as [b' r].
    split; apply Hl.
  - apply (Forget_spec b k Hb).
  - apply known_none. unfold view. by rewrite (proj2 (Reset_spec b Hb)).
  - apply Z.eqb_neq. simpl. unfold wrap. intros Heq.
    pose proof (Z.mod_pos_bound (generation b + 1) (2 ^ 64)). pose proof (Z.div_mod (generation b + 1) (2 ^ 64)). lia.
  - intros gen p now Hgen. apply Z.eqb_neq in Hgen. unfold Reject_, Forget, Current. by rewrite Hgen.
Qed.

(** An operation on one key leaves what is known of every other key
    unchanged, except that recording a new key in a full cache may drop one. *)
Theorem reject_ban_other_keys (ops : list ban_op) (k : rejectBanKey) (now : Z) (p : Proxy) (gen : Z) :
  let b := ban_run ops in
  (∀ k', k ≠ k' → view (Lookup b k now).1 k' = view b k' ∧ view (Forget b k gen) k' = view b k') ∧
  kept_or_evicted b (Reject_ b k gen p now).1 k.
Proof.
  intros b. destruct (ban_run_describable ops) as [Hb Hs]. fold b in Hb, Hs. destruct (Hs k) as [s Hk]. split.
  - intros k' Hne. split.
    + pose proof (Lookup_spec b k s now Hb Hk) as Hl. destruct (Lookup b k now) as [b' [r g]]. by apply Hl.
    + destruct (decide (gen = generation b)) as [->|Hgen]; [by apply (Forget_spec b k Hb)|].
      unfold Forget, Current. by rewrite (proj2 (Z.eqb_neq gen (generation b))).
  - destruct (decide (gen = generation b)) as [->|Hgen]; [by apply Reject_others|].
    unfold Reject_, Current. rewrite (proj2 (Z.eqb_neq gen (generation b))) by done. intros k' _. by left.
Qed.

(** For a key not yet known and rejections at times that do not decrease,
    none of which started a ban so far, the next one starts a ban exactly when
    at least ten of all of them, itself included, lie in the last ten seconds;
    the ban then answers every lookup during the following minute and none
    after it. *)
Theorem ban_starts_at_tenth (ops : list ban_op) (k : rejectBanKey) (p : Proxy) (ts : list Z) (t : Z) :
  known (ban_run ops) k Unknown → sorted (ts ++ [t]) → Forall (eq None) (rejects (ban_run ops) k p ts).2 →
  let b := (rejects (ban_run ops) k p ts).1 in
  let '(b', r) := Reject_ b k (generation b) p t in
  let until := t + rejectBanDuration in
  if decide (rejectBanThreshold ≤ length (filter (recent t) (ts ++ [t])))%nat
  then r = Some until ∧ ∀ now, (Lookup b' k now).2.1 = if now <? until then Some p else None
  else r = None ∧ ∀ now, (Lookup b' k now).2.1 = None.
Proof.
  intros Hk Hs Hnone b. pose proof (sorted_snoc _ _ Hs) as [Hs1 Hle]. destruct (ban_run_describable ops) as [Hb0 _].
  destruct (rejects_track (ban_run ops) k p ts Hb0 Hk Hs1 Hnone) as (Hb & s & Hk1 & Ht). fold b in Hb, Hk1.
  pose proof (Reject_spec b k s p t Hb Hk1) as Hr. destruct (Reject_ b k (generation b) p t) as [b' r].
  destruct Hr as (Hb' & _ & -> & Hk2).
  pose proof (tracks_step s ts p t Ht Hle (λ l Hl, sorted_last ts l Hs1 Hl)) as Hstep. cbv zeta.
  assert (∀ now, (Lookup b' k now).2.1 = (spec_Lookup (spec_Reject s p t).1 now).2) as Hlook.
  { intros now. pose proof (Lookup_spec b' k _ now Hb' Hk2) as Hl. destruct (Lookup b' k now) as [b2 [r2 g2]]. apply Hl. }
  destruct (decide _).
  - rewrite Hstep in *. split; [done|]. intros now. rewrite Hlook. simpl. by destruct (_ <? _).
  - destruct Hstep as [-> Htr]. split; [done|]. intros now. rewrite Hlook. unfold spec_Lookup.
    destruct (spec_Reject s p t).1 as [|times|]; simpl in *; [done| |done]. destruct (last times); [|done]. by destruct (_ <? _).
Qed.

(** A REJECT leaf and a client that retries once a second. *)
Definition demo_reject : Proxy := mkProxy "REJECT" Reject true None None (λ _, None).
Definition demo_key : rejectBanKey :=
  mkKey (V4 167772161) NoAddr "ads.example" 443 HTTP NoAddr 7890 "DEFAULT-MIXED" "" "" "" 0.
Definition demo_times : list Z := (λ i, Z.of_nat i * second) <$> seq 0 9.

Lemma ban_starts_at_tenth_witness :
  let b := (rejects (ban_run []) demo_key demo_reject demo_times).1 in
  (Reject_ b demo_key (generation b) demo_reject (9 * second)).2 = Some (69 * second).
Proof.
  pose proof (ban_starts_at_tenth [] demo_key demo_reject demo_times (9 * second)) as H. cbv zeta in *.
  destruct (Reject_ _ _ _ _ _) as [b' r]. rewrite decide_True in H by (apply Nat.leb_le; vm_compute; reflexivity).
  apply H.
  - apply known_none. reflexivity.
  - apply Sorted_StronglySorted; [intros ???; lia|]. unfold demo_times, second. simpl. repeat constructor; lia.
  - vm_compute. repeat constructor.
Defined.
