(* ===== verification/DropParker.v ===== *)
(** * [tunnel/reject.go]: connections parked after a REJECT-DROP

    Connections wait in a queue; one goroutine releases them when their time is
    up, and [Park] releases the oldest ones when too many wait.  The goroutine
    and the callers of [Park] interleave; what each does while it holds the mutex
    is one step.  Releases happen outside the mutex, so what was taken from the
    queue and is not yet released is part of the state.  A [release] function is
    named by a number. *)

From Stdlib Require Import ZArith Lia Permutation.
From stdpp Require Import base list numbers sorting relations.
From S2P Require Import Prelude.
#[local] Open Scope list_scope.
#[local] Open Scope Z_scope.

Definition maxParkedDrops : nat := 4096.

Record parkedDrop := mkDrop { seq : Z; deadline : Z; release : nat }.

Record dropParker := mkParker { queue : list parkedDrop; nextSeq : Z; running : bool }.

(** The loop of [Park] that makes room. *)
Fixpoint evict (q : list parkedDrop) : list nat * list parkedDrop :=
  match q with
  | d :: q' => if (maxParkedDrops <=? length q)%nat then let '(ev, q') := evict q' in (release d :: ev, q') else ([], q)
  | [] => ([], [])
  end.

(** [Park] under its mutex: the new state, what the caller releases after
    unlocking, and whether it started the goroutine. *)
Definition Park (p : dropParker) (now ttl : Z) (r : nat) : dropParker * list nat * bool :=
  let '(evicted, q) := evict (queue p) in
  let sq := wrap 64 (nextSeq p + 1) in
  (mkParker (q ++ [mkDrop sq (now + ttl) r]) sq true, evicted, negb (running p)).

(** [run]: the two critical sections of the loop body. *)
Definition run_begin (p : dropParker) : dropParker * option parkedDrop :=
  match queue p with
  | [] => (mkParker [] (nextSeq p) false, None)
  | drop :: _ => (p, Some drop)
  end.

Definition run_wake (p : dropParker) (drop : parkedDrop) : dropParker * bool :=
  match queue p with
  | d :: q => if seq d =? seq drop then (mkParker q (nextSeq p) (running p), true) else (p, false)
  | [] => (p, false)
  end.

(** ** The system *)

(** Where the goroutine is. *)
Inductive runner := Stopped | Top | Sleeping (drop : parkedDrop) | Releasing (drop : parkedDrop).

Record system := Sys {
  parker : dropParker;
  now : Z;
  at_ : runner;
  owed : list (list nat);
  released : list nat;
  parked : list nat;
}.

Definition initial : system := Sys (mkParker [] 0 false) 0 Stopped [] [] [].

Section parker.
Variable ttl : Z.

(** A call of [Park]; time passing. *)
Inductive external : system → system → Prop :=
| do_park p t at0 o rel pk r :
    external (Sys p t at0 o rel pk)
             (let '(p', evicted, started) := Park p t ttl r in
              Sys p' t (if started then Top else at0) (o ++ [evicted]) rel (pk ++ [r]))
| do_tick p t t' at0 o rel pk : t ≤ t' → external (Sys p t at0 o rel pk) (Sys p t' at0 o rel pk).

(** A caller of [Park] releasing what it evicted; the goroutine. *)
Inductive internal : system → system → Prop :=
| do_owed p t at0 o1 r rs o2 rel pk :
    internal (Sys p t at0 (o1 ++ (r :: rs) :: o2) rel pk) (Sys p t at0 (o1 ++ rs :: o2) (rel ++ [r]) pk)
| do_begin p t o rel pk :
    internal (Sys p t Top o rel pk)
             (let '(p', d) := run_begin p in Sys p' t (match d with Some d => Sleeping d | None => Stopped end) o rel pk)
| do_wake p t d o rel pk :
    deadline d ≤ t →
    internal (Sys p t (Sleeping d) o rel pk)
             (let '(p', ok) := run_wake p d in Sys p' t (if ok then Releasing d else Top) o rel pk)
| do_release p t d o rel pk :
    internal (Sys p t (Releasing d) o rel pk) (Sys p t Top o (rel ++ [release d]) pk).

Definition step (s s' : system) : Prop := external s s' ∨ internal s s'.
Definition reachable (s : system) : Prop := rtc step initial s.

(** ** The invariant *)

Definition held (a : runner) : list nat := match a with Releasing d => [release d] | _ => [] end.

Record Inv (s : system) : Prop := {
  inv_once : parked s ≡ₚ released s ++ concat (owed s) ++ held (at_ s) ++ (release <$> queue (parker s));
  inv_bound : (length (queue (parker s)) ≤ maxParkedDrops)%nat;
  inv_next : nextSeq (parker s) = Z.of_nat (length (parked s));
  inv_seq i d : queue (parker s) !! i = Some d →
                seq d = nextSeq (parker s) - Z.of_nat (length (queue (parker s))) + 1 + Z.of_nat i;
  inv_running : running (parker s) = negb (match at_ s with Stopped => true | _ => false end);
  inv_awake : at_ s = Stopped → queue (parker s) = [];
  inv_sleep d : at_ s = Sleeping d → head (queue (parker s)) = Some d ∨
                seq d ≤ nextSeq (parker s) - Z.of_nat (length (queue (parker s)));
  inv_sorted : StronglySorted Z.le (deadline <$> queue (parker s));
  inv_future d : d ∈ queue (parker s) → deadline d ≤ now s + ttl;
  inv_dream d : at_ s = Sleeping d → deadline d ≤ now s + ttl;
}.
End parker.

(** Room is made by dropping the oldest entries. *)
Lemma evict_spec q :
  (length q ≤ maxParkedDrops)%nat →
  evict q = if (maxParkedDrops <=? length q)%nat then (match q with d :: _ => [release d] | [] => [] end, tail q) else ([], q).
Proof.
  destruct q as [|d q]; intros Hl; [done|]. cbn [evict]. destruct (Nat.leb_spec maxParkedDrops (length (d :: q))) as [H|H]; [|done].
  destruct q as [|d' q]; [done|]. cbn [evict].
  destruct (Nat.leb_spec maxParkedDrops (length (d' :: q))) as [H'|H']; [simpl in *; lia|done].
Qed.

Lemma evict_split q :
  (length q ≤ maxParkedDrops)%nat →
  ∃ old q', q = old ++ q' ∧ evict q = (release <$> old, q') ∧ (length q' < maxParkedDrops)%nat ∧
            length old = (if (maxParkedDrops <=? length q)%nat then 1 else 0)%nat.
Proof.
  intros Hl. rewrite evict_spec by done. destruct (Nat.leb_spec maxParkedDrops (length q)) as [H|H].
  - destruct q as [|d q]; [unfold maxParkedDrops in H; simpl in H; lia|]. exists [d], q. split_and!; [done|done|simpl in Hl; lia|done].
  - exists [], q. done.
Qed.

Section invariant.
Variable ttl : Z.
#[local] Abbreviation Inv := (Inv ttl).

Lemma initial_Inv : Inv initial.
Proof. split; simpl; try done; [unfold maxParkedDrops; lia|constructor|by intros d ?%not_elem_of_nil]. Qed.

Lemma concat_snoc {A} (l : list (list A)) x : concat (l ++ [x]) = concat l ++ x.
Proof. by rewrite concat_app, concat_cons, concat_nil, app_nil_r. Qed.

Lemma park_Inv p t at0 o rel pk r :
  Inv (Sys p t at0 o rel pk) → Z.of_nat (length (pk ++ [r])) < 2 ^ 64 →
  Inv (let '(p', evicted, started) := Park p t ttl r in
       Sys p' t (if started then Top else at0) (o ++ [evicted]) rel (pk ++ [r])).
Proof.
  intros [Ho Hb Hn Hs Hr Ha Hsl Hso Hf Hdr] Hlen. simpl in *. unfold Park.
  destruct (evict_split _ Hb) as (old & q & Hq & -> & Hlq & _). rewrite length_app in Hlen. simpl in Hlen.
  rewrite Hq in Ho, Hs, Hsl, Hso, Hf, Ha. rewrite length_app in Hs, Hsl.
  assert (wrap 64 (nextSeq p + 1) = nextSeq p + 1) as -> by (apply wrap_small; unfold unsigned_ok; lia).
  split; cbn [parker now at_ owed released parked queue nextSeq running].
  - rewrite Ho, concat_snoc, fmap_app. simpl. rewrite !fmap_app. simpl.
    assert (held (if negb (running p) then Top else at0) = held at0) as ->.
    { destruct (running p) eqn:E; [done|]. destruct at0; done. }
    rewrite <- !app_assoc. do 2 f_equiv. rewrite !app_assoc. do 2 f_equiv. apply Permutation_app_comm.
  - rewrite length_app. simpl. lia.
  - rewrite length_app. simpl. lia.
  - intros i d Hi. rewrite length_app. simpl. apply lookup_app_Some in Hi as [Hi|[Hge Hi]].
    + rewrite (Hs (length old + i)%nat d); [lia|]. rewrite lookup_app_r by lia. rewrite <- Hi. f_equal. lia.
    + apply list_lookup_singleton_Some in Hi as [Hi <-]. simpl. lia.
  - destruct (running p) eqn:E; simpl; [|done]. congruence.
  - destruct (running p) eqn:E; simpl; [|done]. intros ->. done.
  - intros d Hd. rewrite length_app. simpl. destruct (running p) eqn:E; simpl in Hd; [|done].
    destruct (Hsl d Hd) as [Hh|Hle]; [|right; lia]. destruct old as [|x old]; simpl in Hh.
    + left. by destruct q.
    + right. injection Hh as ->. pose proof (Hs 0%nat d eq_refl) as H0. simpl in H0. lia.
  - rewrite fmap_app in *. apply StronglySorted_app in Hso as (_ & _ & Hso). apply StronglySorted_app_2; [|done|repeat constructor].
    intros x1 x2 (d & -> & Hd)%list_elem_of_fmap Hx. apply list_elem_of_singleton in Hx. subst x2. simpl. apply Hf. apply elem_of_app. by right.
  - intros d Hd. apply elem_of_app in Hd as [Hd|Hd]; [|apply list_elem_of_singleton in Hd; subst d; simpl; lia].
    apply Hf. apply elem_of_app. by right.
  - intros d Hd. destruct (running p); [by apply Hdr|done].
Qed.

Lemma concat_middle {A} (l1 l2 : list (list A)) x xs : concat (l1 ++ (x :: xs) :: l2) ≡ₚ [x] ++ concat (l1 ++ xs :: l2).
Proof. rewrite !concat_app, !concat_cons. simpl. by rewrite <- Permutation_middle. Qed.

Lemma internal_Inv s s' : Inv s → internal s s' → Inv s'.
Proof.
  intros [Ho Hb Hn Hs Hr Ha Hsl Hso Hf Hdr] Hst. destruct Hst as [p t at0 o1 r rs o2 rel pk|p t o rel pk|p t d o rel pk Hd|p t d o rel pk];
    simpl in *.
  - split; simpl; try done. rewrite Ho, concat_middle, <- !app_assoc. done.
  - unfold run_begin. destruct (queue p) as [|d q] eqn:Eq; split; simpl; try rewrite Eq; try done.
    + intros d' [= ->]. by left.
    + intros d' [= ->]. apply Hf. left.
  - unfold run_wake. destruct (queue p) as [|x q] eqn:Eq; [|destruct (Z.eqb_spec (seq x) (seq d)) as [He|He]].
    + split; simpl; try rewrite Eq; done.
    + assert (x = d) as ->.
      { destruct (Hsl d eq_refl) as [[= ->]|Hle]; [done|]. specialize (Hs 0%nat x eq_refl). simpl in *. lia. }
      apply StronglySorted_inv in Hso as [Hso _].
      split; simpl; try done; try lia.
      * simpl in Hb. lia.
      * intros i x Hi. rewrite (Hs (S i) x Hi). simpl length. lia.
      * intros y Hy. apply Hf. by right.
    + split; simpl; try rewrite Eq; done.
  - split; simpl; try done. rewrite Ho. rewrite <- !app_assoc. simpl. f_equiv.
    by rewrite !Permutation_middle.
Qed.

Lemma step_parked s s' : step ttl s s' → (length (parked s) ≤ length (parked s'))%nat.
Proof.
  intros [[]|[]]; simpl; try lia.
  - unfold Park. destruct (evict _). simpl. rewrite length_app. simpl. lia.
  - by destruct (run_begin p).
  - by destruct (run_wake p d).
Qed.

Lemma reachable_Inv s : reachable ttl s → Z.of_nat (length (parked s)) < 2 ^ 64 → Inv s.
Proof.
  unfold reachable. revert s. apply (rtc_ind_r (λ s, Z.of_nat (length (parked s)) < 2 ^ 64 → Inv s)).
  - intros _. apply initial_Inv.
  - intros s s' _ Hst IH Hlen. pose proof (step_parked s s' Hst) as Hle.
    assert (Inv s) as Hs by (apply IH; lia). clear IH. destruct Hst as [Hst|Hst]; [|by eapply internal_Inv].
    destruct Hst as [p t at0 o rel pk r|p t t' at0 o rel pk Ht].
    + apply park_Inv; [done|]. unfold Park in Hlen. destruct (evict (queue p)). done.
    + destruct Hs as [Ho Hb Hn Hs Hr Ha Hsl Hso Hf Hdr]. split; simpl in *; try done.
      * intros d Hd. specialize (Hf d Hd). lia.
      * intros d Hd. specialize (Hdr d Hd). lia.
Qed.
End invariant.

(** ** Progress *)

Definition stale (q : list parkedDrop) (d : parkedDrop) : bool :=
  match q with x :: _ => negb (seq x =? seq d) | [] => true end.

Definition phase (s : system) : nat :=
  match at_ s with
  | Stopped => 0
  | Top => 1
  | Sleeping d => if stale (queue (parker s)) d then 2 else 0
  | Releasing _ => 2
  end.

(** What is left to do when nothing new is parked. *)
Definition work (s : system) : nat := 3 * length (queue (parker s)) + phase s + length (concat (owed s)).

Definition drained (s : system) : Prop := queue (parker s) = [] ∧ at_ s = Stopped ∧ released s ≡ₚ parked s.

Lemma internal_work s s' : internal s s' → (work s' < work s)%nat ∧ parked s' = parked s.
Proof.
  intros Hst. destruct Hst as [p t at0 o1 r rs o2 rel pk|p t o rel pk|p t d o rel pk _|p t d o rel pk]; unfold work, phase; cbn [at_ queue parker owed parked].
  - split; [|done]. rewrite !concat_app, !concat_cons, !length_app. simpl. rewrite ?length_app. lia.
  - unfold run_begin. destruct (queue p) as [|d q] eqn:Eq; simpl; rewrite ?Eq; simpl; [split; [lia|done]|].
    rewrite Z.eqb_refl. simpl. split; [lia|done].
  - unfold run_wake, stale. destruct (queue p) as [|x q] eqn:Eq; simpl; rewrite ?Eq; simpl; [split; [lia|done]|].
    destruct (seq x =? seq d); simpl; rewrite ?Eq; simpl; split; try done; lia.
  - split; [lia|done].
Qed.

Lemma owed_release p t at0 o rel pk :
  concat o ≠ [] → ∃ s', internal (Sys p t at0 o rel pk) s'.
Proof.
  intros Hne. assert (∃ o1 r rs o2, o = o1 ++ (r :: rs) :: o2) as (o1 & r & rs & o2 & ->).
  { induction o as [|[|r rs] o IH]; [done| |by exists [], r, rs, o].
    destruct IH as (o1 & r & rs & o2 & ->); [done|]. by exists ([] :: o1), r, rs, o2. }
  eexists. apply do_owed.
Qed.

(** ** Properties *)

(** C35. In every interleaving of callers, the goroutine and the clock, what was
    parked is, as a multiset, what was released, what is about to be released
    and what waits in the queue: nothing is lost and nothing is released twice.
    At most 4096 connections wait, ordered by deadline, and only while the
    goroutine runs; parking one more releases the oldest exactly when the queue
    is full.  (Fewer than 2^64 connections are parked in all, so sequence numbers
    do not repeat.) *)
Theorem parker_releases_once (ttl : Z) (s : system) :
  reachable ttl s → Z.of_nat (length (parked s)) < 2 ^ 64 →
  let q := queue (parker s) in
  parked s ≡ₚ released s ++ concat (owed s) ++ held (at_ s) ++ (release <$> q) ∧
  (length q ≤ maxParkedDrops)%nat ∧ StronglySorted Z.le (deadline <$> q) ∧
  (q ≠ [] → running (parker s) = true ∧ at_ s ≠ Stopped) ∧
  ∀ r, (Park (parker s) (now s) ttl r).1.2 =
       if (maxParkedDrops <=? length q)%nat then take 1 (release <$> q) else [].
Proof.
  intros Hr Hlen. destruct (reachable_Inv ttl s Hr Hlen) as [Ho Hb Hn Hs Hrun Ha Hsl Hso Hf Hdr]. split_and!; [done..| |].
  - intros Hne. rewrite Hrun. destruct (at_ s); try done. by rewrite (Ha eq_refl) in Hne.
  - intros r. unfold Park. rewrite evict_spec by done.
    destruct (maxParkedDrops <=? length (queue (parker s)))%nat; [|done]. by destruct (queue (parker s)).
Qed.

(** When nothing new is parked, every step of the goroutine or of a caller
    still releasing lowers the remaining work, and in every reachable state
    such a step is possible, unless the goroutine sleeps until a deadline or
    everything ever parked has been released and the goroutine has ended. *)
Theorem parker_drains (ttl : Z) (s : system) :
  reachable ttl s → Z.of_nat (length (parked s)) < 2 ^ 64 →
  (∀ s', internal s s' → (work s' < work s)%nat ∧ parked s' = parked s) ∧
  ((∃ s', internal s s') ∨ (∃ d, at_ s = Sleeping d ∧ now s < deadline d ≤ now s + ttl) ∨ drained s).
Proof.
  intros Hr Hlen. destruct (reachable_Inv ttl s Hr Hlen) as [Ho Hb Hn Hs Hrun Ha Hsl Hso Hf Hdr]. split; [apply internal_work|].
  destruct s as [p t a o rel pk]. simpl in *.
  destruct (decide (concat o = [])) as [Hc|Hc]; [|left; by apply owed_release].
  destruct a as [| |d|d]; simpl in *.
  - right. right. split_and!; [by apply Ha|done|]. simpl. rewrite Ho, Hc, (Ha eq_refl). simpl. by rewrite app_nil_r.
  - left. eexists. apply do_begin.
  - destruct (Z.le_gt_cases (deadline d) t) as [Hd|Hd]; [left; eexists; by apply do_wake|].
    right. left. exists d. split; [done|]. specialize (Hdr d eq_refl). lia.
  - left. eexists. apply do_release.
Qed.

(** A connection parked at time 0, the goroutine asleep on it, a minute later. *)
Definition demo_parked : system := Sys (mkParker [mkDrop 1 60 7] 1 true) 60 (Sleeping (mkDrop 1 60 7)) [[]] [] [7%nat].

Lemma demo_reachable : reachable 60 demo_parked.
Proof.
  unfold reachable. eapply rtc_l; [left; apply (do_park 60 (mkParker [] 0 false) 0 Stopped [] [] [] 7)|].
  eapply rtc_l; [right; apply do_begin|]. eapply rtc_l; [left; apply (do_tick 60 _ 0 60); lia|]. apply rtc_refl.
Qed.

Lemma parker_releases_once_witness :
  parked demo_parked ≡ₚ released demo_parked ++ concat (owed demo_parked) ++ held (at_ demo_parked) ++
                        (release <$> queue (parker demo_parked)).
Proof. apply (parker_releases_once 60 demo_parked); [apply demo_reachable|vm_compute; reflexivity]. Defined.

Lemma parker_drains_witness : ∃ s', internal demo_parked s'.
Proof.
  destruct (parker_drains 60 demo_parked) as [_ [H|[(d & Hd & Hlt & _)|(H & _)]]];
    [apply demo_reachable|vm_compute; reflexivity|exact H| |discriminate H].
  injection Hd as <-. vm_compute in Hlt. discriminate Hlt.
Defined.
