(* ===== verification/GoIO.v ===== *)
(** * Byte streams: programs that read from and write to a connection

    A protocol routine is a tree of its reads and writes.  A read asks for an
    exact number of bytes ([io.ReadFull]) and may fail; a write may fail.  Bytes
    are integers in [[0, 256)]. *)

From Stdlib Require Import ZArith Lia Ascii.
From stdpp Require Import base list strings numbers relations.
From S2P Require Import Prelude GoStrings.
#[local] Open Scope list_scope.
#[local] Open Scope Z_scope.

Inductive prog (A : Type) : Type :=
| Ret (a : A)
| Read (n : nat) (k : option (list Z) → prog A)
| Write (b : list Z) (k : bool → prog A).
Arguments Ret {A} _.
Arguments Read {A} _ _.
Arguments Write {A} _ _.

Fixpoint bind {A B} (p : prog A) (f : A → prog B) : prog B :=
  match p with
  | Ret a => f a
  | Read n k => Read n (λ r, bind (k r) f)
  | Write b k => Write b (λ ok, bind (k ok) f)
  end.

Inductive io_error := EOF | ErrWrite | ErrMsg (text : string).

(** [if _, err := io.ReadFull(r, b); err != nil { return err }] and the same for a write. *)
Definition read {A} (n : nat) (k : list Z → prog (result io_error A)) : prog (result io_error A) :=
  Read n (λ r, match r with Some b => k b | None => Ret (Err EOF) end).
Definition write {A} (b : list Z) (k : prog (result io_error A)) : prog (result io_error A) :=
  Write b (λ ok, if ok then k else Ret (Err ErrWrite)).
Definition fail {A} (text : string) : prog (result io_error A) := Ret (Err (ErrMsg text)).

Notation "'read!' x <- n ';' k" := (read n (λ x, k)) (at level 10, x name, n at level 100, k at level 200) : go_scope.
Notation "'do!' x <- p ';' k" :=
  (bind p (λ r, match r with Ok x => k | Err e => Ret (Err e) end)) (at level 10, x name, p at level 100, k at level 200) : go_scope.

Definition of_string (s : string) : list Z := byte_val <$> bytes s.
Definition to_string (b : list Z) : string := of_bytes (byte_of <$> b).

(** ** One side alone: the input up to its end, and how many writes the connection lets through *)

Record outcome (A : Type) := Outcome { value_of : A; unread : list Z; written : list Z; writes_left : nat }.
Arguments Outcome {A} _ _ _ _.
Arguments value_of {A} _.
Arguments unread {A} _.
Arguments written {A} _.
Arguments writes_left {A} _.

Fixpoint exec {A} (p : prog A) (input : list Z) (writes : nat) : outcome A :=
  match p with
  | Ret a => Outcome a input [] writes
  | Read n k => if (n <=? length input)%nat then exec (k (Some (take n input))) (drop n input) writes
                else exec (k None) [] writes
  | Write b k => match writes with
                 | S w => let o := exec (k true) input w in Outcome (value_of o) (unread o) (b ++ written o) (writes_left o)
                 | O => exec (k false) input O
                 end
  end.

(** ** Two sides talking over a connection *)

Record talk (A B : Type) := Talk { client : prog A; server : prog B; to_server : list Z; to_client : list Z }.
Arguments Talk {A B} _ _ _ _.

Inductive talk_step {A B} : talk A B → talk A B → Prop :=
| client_write b k q s r : talk_step (Talk (Write b k) q s r) (Talk (k true) q (s ++ b) r)
| client_read n k q s b r : length b = n → talk_step (Talk (Read n k) q s (b ++ r)) (Talk (k (Some b)) q s r)
| server_write p b k s r : talk_step (Talk p (Write b k) s r) (Talk p (k true) s (r ++ b))
| server_read p n k b s r : length b = n → talk_step (Talk p (Read n k) (b ++ s) r) (Talk p (k (Some b)) s r).

(** ** Laws *)

Lemma exec_bind {A B} (p : prog A) (f : A → prog B) input w :
  exec (bind p f) input w =
  let o := exec p input w in
  let o' := exec (f (value_of o)) (unread o) (writes_left o) in
  Outcome (value_of o') (unread o') (written o ++ written o') (writes_left o').
Proof.
  revert input w. induction p as [a|n k IH|b k IH]; intros input w; simpl.
  - by destruct (exec (f a) input w).
  - destruct (_ <=? _)%nat; apply IH.
  - destruct w as [|w]; [apply IH|]. rewrite IH. simpl. by rewrite (assoc_L (++)).
Qed.

Lemma exec_read {A} n (k : option (list Z) → prog A) b rest w :
  length b = n → exec (Read n k) (b ++ rest) w = exec (k (Some b)) rest w.
Proof.
  intros Hn. cbn [exec]. rewrite length_app. destruct (Nat.leb_spec n (length b + length rest)); [|lia].
  rewrite take_app_length', drop_app_length' by done. done.
Qed.

(** A read either gets its bytes from the front of the input or fails at its end. *)
Lemma exec_read_cases {A} n (k : option (list Z) → prog A) input w :
  (∃ b rest, input = b ++ rest ∧ length b = n ∧ exec (Read n k) input w = exec (k (Some b)) rest w) ∨
  ((length input < n)%nat ∧ exec (Read n k) input w = exec (k None) [] w).
Proof.
  cbn [exec]. destruct (Nat.leb_spec n (length input)) as [H|H]; [left|by right].
  exists (take n input), (drop n input). split_and!; [by rewrite take_drop|rewrite length_take; lia|done].
Qed.

Lemma app_inj_length {A} (b b' r r' : list A) : length b = length b' → b ++ r = b' ++ r' → b = b' ∧ r = r'.
Proof. intros Hl He. by apply app_inj_1 in He. Qed.

(** The two sides do not interfere: different steps commute. *)
Lemma talk_diamond {A B} (s a b : talk A B) :
  talk_step s a → talk_step s b → a = b ∨ ∃ c, talk_step a c ∧ talk_step b c.
Proof.
  intros Ha Hb. destruct Ha as [wb k q s r|n k q s rb r Hl|p wb k s r|p n k rb s r Hl]; inversion Hb; subst; simplify_eq.
  all: try by left.
  all: try (match goal with H : _ ++ _ = _ ++ _ |- _ => apply app_inj_length in H as [-> ->]; [|congruence] end; by left).
  all: right; rewrite <- ?(assoc_L (++)); eexists; split; rewrite <- ?(assoc_L (++)); by constructor.
Qed.

Definition quiet {A B} (s : talk A B) : Prop := ∀ s', ¬ talk_step s s'.

Lemma talk_done {A B} (a : A) (b : B) s r : quiet (Talk (Ret a) (Ret b) s r).
Proof. intros s' H. inversion H. Qed.

(** If one order of the steps ends in a quiet state, every order does, in the same one. *)
Lemma talk_confluent {A B} (s f : talk A B) :
  rtc talk_step s f → quiet f → ∀ s', rtc talk_step s s' → rtc talk_step s' f.
Proof.
  intros Hf Hq. assert (∀ s, rtc talk_step s f → ∀ b, talk_step s b → rtc talk_step b f) as Hone.
  { clear s Hf. intros s Hs. induction Hs as [f|s a f Hsa Haf IH]; intros b Hsb; [by apply Hq in Hsb|].
    destruct (talk_diamond s a b Hsa Hsb) as [->|(c & Hac & Hbc)]; [done|]. eapply rtc_l; [done|]. by apply IH. }
  intros s' Hs'. revert Hf. induction Hs' as [|s b s' Hsb _ IH]; intros Hf; [done|]. apply IH. by eapply Hone.
Qed.

(** Steps that follow from the form of the state. *)
Lemma talk_client_write {A B} b k (q : prog B) s r (f : talk A B) :
  rtc talk_step (Talk (k true) q (s ++ b) r) f → rtc talk_step (Talk (Write b k) q s r) f.
Proof. intros H. eapply rtc_l; [constructor|done]. Qed.

Lemma talk_server_write {A B} b k (p : prog A) s r (f : talk A B) :
  rtc talk_step (Talk p (k true) s (r ++ b)) f → rtc talk_step (Talk p (Write b k) s r) f.
Proof. intros H. eapply rtc_l; [constructor|done]. Qed.

Lemma talk_client_read {A B} n k (q : prog B) s b r (f : talk A B) :
  length b = n → rtc talk_step (Talk (k (Some b)) q s r) f → rtc talk_step (Talk (Read n k) q s (b ++ r)) f.
Proof. intros Hl H. eapply rtc_l; [by constructor|done]. Qed.

Lemma talk_server_read {A B} n k (p : prog A) b s r (f : talk A B) :
  length b = n → rtc talk_step (Talk p (k (Some b)) s r) f → rtc talk_step (Talk p (Read n k) (b ++ s) r) f.
Proof. intros Hl H. eapply rtc_l; [by constructor|done]. Qed.

(** A part of a program that only reads, and exactly these bytes. *)
Inductive consumes {A} : prog A → list Z → A → Prop :=
| consumes_ret a : consumes (Ret a) [] a
| consumes_read n k b b' a : length b = n → consumes (k (Some b)) b' a → consumes (Read n k) (b ++ b') a.

Lemma talk_server_consumes {A B C} (p : prog C) (f : C → prog B) (q : prog A) b v s r (g : talk A B) :
  consumes p b v → rtc talk_step (Talk q (f v) s r) g → rtc talk_step (Talk q (bind p f) (b ++ s) r) g.
Proof.
  intros Hc. induction Hc as [a|n k b b' a Hl _ IH]; intros Hg; simpl; [done|].
  rewrite <- (assoc_L (++)). apply talk_server_read; [done|]. by apply IH.
Qed.

Lemma talk_client_consumes {A B C} (p : prog C) (f : C → prog A) (q : prog B) b v s r (g : talk A B) :
  consumes p b v → rtc talk_step (Talk (f v) q s r) g → rtc talk_step (Talk (bind p f) q s (b ++ r)) g.
Proof.
  intros Hc. induction Hc as [a|n k b b' a Hl _ IH]; intros Hg; simpl; [done|].
  rewrite <- (assoc_L (++)). apply talk_client_read; [done|]. by apply IH.
Qed.

Lemma talk_client_last {A B} (p : prog A) (q : prog B) b v s (g : talk A B) :
  consumes p b v → rtc talk_step (Talk (Ret v) q s []) g → rtc talk_step (Talk p q s b) g.
Proof.
  intros Hc. induction Hc as [a|n k b b' a Hl _ IH]; intros Hg; [done|].
  apply talk_client_read; [done|]. by apply IH.
Qed.

Lemma length_of_string s : length (of_string s) = String.length s.
Proof. unfold of_string. rewrite length_fmap. apply length_bytes. Qed.

Lemma to_of_string s : to_string (of_string s) = s.
Proof.
  unfold to_string, of_string. rewrite <- list_fmap_compose. rewrite <- (of_bytes_bytes s) at 2. f_equal.
  rewrite <- (list_fmap_id (bytes s)) at 2. apply list_fmap_ext. intros i c _. apply byte_of_val.
Qed.

Lemma of_string_range s : Forall (λ b, 0 ≤ b < 256) (of_string s).
Proof. unfold of_string. apply Forall_fmap, Forall_true. intros c. apply byte_val_range. Qed.

(** *** What a successful run tells about the input *)

Lemma exec_read_ok {A} n (k : list Z → prog (result io_error A)) input w v :
  value_of (exec (read n k) input w) = Ok v →
  ∃ b rest, input = b ++ rest ∧ length b = n ∧ value_of (exec (k b) rest w) = Ok v.
Proof.
  unfold read. intros H. destruct (exec_read_cases n (λ r, match r with Some b => k b | None => Ret (Err EOF) end) input w)
    as [(b & rest & Hi & Hl & He)|[_ He]]; rewrite He in H; [eauto|done].
Qed.

Lemma exec_write_ok {A} b (k : prog (result io_error A)) input w v :
  value_of (exec (write b k) input w) = Ok v → ∃ w', value_of (exec k input w') = Ok v.
Proof. unfold write. destruct w as [|w]; simpl; [done|]. by exists w. Qed.

Lemma exec_do_ok {A B} (p : prog (result io_error A)) (k : A → prog (result io_error B)) input w v :
  value_of (exec (bind p (λ r, match r with Ok x => k x | Err e => Ret (Err e) end)) input w) = Ok v →
  ∃ x, value_of (exec p input w) = Ok x ∧
       value_of (exec (k x) (unread (exec p input w)) (writes_left (exec p input w))) = Ok v.
Proof.
  rewrite exec_bind. cbn [value_of]. destruct (value_of (exec p input w)) as [x|e]; [|done]. by exists x.
Qed.
