(* ===== verification/Socks5.v ===== *)
(** * [transport/socks5/socks5.go]: SOCKS5 addresses, packets and handshakes

    [Addr] (a byte slice) is [option (list Z)], with [None] for [nil] where the
    code distinguishes it.  A routine that returns a slice beside an error is
    modelled by the error alone.  Indexing out of range is a panic: [None] of
    the [option] result of [AddrText]. *)

From Stdlib Require Import ZArith Lia Ascii.
From stdpp Require Import base list strings numbers relations.
From S2P Require Import Prelude GoStrings GoNet GoNetText GoIO.
#[local] Open Scope string_scope.
#[local] Open Scope list_scope.
#[local] Open Scope Z_scope.

Definition CmdConnect : Z := 1.
Definition CmdBind : Z := 2.
Definition CmdUDPAssociate : Z := 3.

Definition AtypIPv4 : Z := 1.
Definition AtypDomainName : Z := 3.
Definition AtypIPv6 : Z := 4.

Definition MaxAddrLen : nat := 1 + 1 + 255 + 2.
Definition IPv4len : nat := 4.
Definition IPv6len : nat := 16.

Definition ErrAddressNotSupported : string := "SOCKS error: 8".
Definition ErrCommandNotSupported : string := "SOCKS error: 7".
Definition ErrAuth : string := "auth failed".

Definition u16_bytes (v : Z) : list Z := [Z.land (Z.shiftr v 8) 255; Z.land v 255].
Definition u16_value (b : list Z) : Z := match b with [x; y] => Z.lor (Z.shiftl x 8) y | _ => 0 end.

(** ** [net.IP] *)

Definition v4_in_v6_prefix : list Z := [0; 0; 0; 0; 0; 0; 0; 0; 0; 0; 255; 255].

Definition To4 (ip : list Z) : option (list Z) :=
  if (length ip =? IPv4len)%nat then Some ip
  else if (length ip =? IPv6len)%nat && bool_decide (take 12 ip = v4_in_v6_prefix) then Some (drop 12 ip)
  else None.

(** [net.ParseIP]: sixteen bytes, without zones. *)
Definition ParseIP (s : string) : option (list Z) :=
  match ParseAddr s with
  | Some (V4 v) => Some (v4_in_v6_prefix ++ be_bytes 4 v)
  | Some (V6 v "") => Some (be_bytes 16 v)
  | _ => None
  end.

Definition IPString (ip : list Z) : string :=
  match To4 ip with
  | Some p4 => AddrString (V4 (be_value p4))
  | None => AddrString (V6 (be_value ip) "")
  end.

(** ** Addresses *)

(** [b[i:j]]; slices are taken to have no capacity beyond their length. *)
Definition slice (b : list Z) (i j : nat) : option (list Z) :=
  if (i <=? j)%nat && (j <=? length b)%nat then Some (take (j - i) (drop i b)) else None.

Definition AddrText (a : list Z) : option string :=
  match a with
  | [] => None
  | t :: _ =>
      if t =? AtypDomainName then
        match a !! 1%nat with
        | None => None
        | Some n => let hostLen := Z.to_nat n in
            match slice a 2 (2 + hostLen), slice a (2 + hostLen) (2 + hostLen + 2) with
            | Some host, Some port => Some (JoinHostPort (to_string host) (Itoa (u16_value port)))
            | _, _ => None
            end
        end
      else if t =? AtypIPv4 then
        match slice a 1 5, slice a 5 7 with
        | Some ip, Some port => Some (JoinHostPort (IPString ip) (Itoa (u16_value port)))
        | _, _ => None
        end
      else if t =? AtypIPv6 then
        match slice a 1 17, slice a 17 19 with
        | Some ip, Some port => Some (JoinHostPort (IPString ip) (Itoa (u16_value port)))
        | _, _ => None
        end
      else Some (JoinHostPort "" "")
  end.

(** [UDPAddr]: [None] for [nil], [Some None] for a panic. *)
Definition UDPAddr (a : list Z) : option (option (list Z * Z)) :=
  let from n := Some (match slice a 1 (1 + n), slice a (1 + n) (1 + n + 2) with
                      | Some ip, Some port => Some (ip, u16_value port)
                      | _, _ => None
                      end) in
  match a with
  | [] => None
  | t :: _ => if t =? AtypIPv4 then from IPv4len else if t =? AtypIPv6 then from IPv6len else None
  end.

Definition SplitAddr (b : list Z) : option (list Z) :=
  let cut addrLen := if (length b <? addrLen)%nat then None else Some (take addrLen b) in
  match b with
  | [] => None
  | t :: _ =>
      if t =? AtypDomainName then
        match b with
        | _ :: n :: _ => cut (1 + 1 + Z.to_nat n + 2)%nat
        | _ => None
        end
      else if t =? AtypIPv4 then cut (1 + IPv4len + 2)%nat
      else if t =? AtypIPv6 then cut (1 + IPv6len + 2)%nat
      else None
  end.

Definition ParseAddr_ (s : string) : option (list Z) :=
  match SplitHostPort s with
  | None => None
  | Some (host, port) =>
      let head :=
        match ParseIP host with
        | Some ip => match To4 ip with
                     | Some ip4 => Some (AtypIPv4 :: ip4)
                     | None => Some (AtypIPv6 :: ip)
                     end
        | None => if (255 <? String.length host)%nat then None
                  else Some (AtypDomainName :: Z.of_nat (String.length host) :: of_string host)
        end in
      match head with
      | None => None
      | Some head => match ParseUint port 16 with
                     | Some portnum => Some (head ++ u16_bytes portnum)
                     | None => None
                     end
      end
  end.

(** [net.Addr]: the two types the code knows, any other by its text, and [nil]. *)
Inductive NetAddr :=
| NetUDPAddr (ip : option (list Z)) (port : Z) (zone : string)
| NetTCPAddr (ip : option (list Z)) (port : Z) (zone : string)
| NetOther (text : string)
| NetNil.

(** [addr.String()] when there is no IP. *)
Definition no_ip_text (port : Z) (zone : string) : string :=
  if decide (zone = "") then JoinHostPort "" (Itoa port) else JoinHostPort ("%" +:+ zone) (Itoa port).

(** [copy(parsed[1:], ip)] into a zeroed buffer of [n] bytes. *)
Definition copy_zeroed (n : nat) (ip : list Z) : list Z := take n ip ++ replicate (n - length ip) 0.

Definition ParseAddrToSocksAddr (addr : NetAddr) : option (list Z) :=
  let fast ip port :=
    match To4 ip with
    | Some ip4 => Some (AtypIPv4 :: ip4 ++ u16_bytes port)
    | None => Some (AtypIPv6 :: copy_zeroed IPv6len ip ++ u16_bytes port)
    end in
  match addr with
  | NetUDPAddr (Some ip) port _ | NetTCPAddr (Some ip) port _ => fast ip port
  | NetUDPAddr None port zone | NetTCPAddr None port zone => ParseAddr_ (no_ip_text port zone)
  | NetOther text => ParseAddr_ text
  | NetNil => None
  end.

Definition AddrFromStdAddrPort (addr : Addr) (port : Z) : list Z :=
  match addr with
  | V4 v => AtypIPv4 :: be_bytes 4 v ++ u16_bytes port
  | _ => AtypIPv6 :: copy_zeroed IPv6len (AsSlice addr) ++ u16_bytes port
  end.

(** ** UDP packets *)

Definition DecodeUDPPacket (packet : list Z) : result string (list Z * list Z) :=
  match packet with
  | r0 :: r1 :: frag :: rest =>
      if (length packet <? 5)%nat then Err "insufficient length of packet"
      else if negb ((r0 =? 0) && (r1 =? 0)) then Err "reserved fields should be zero"
      else if negb (frag =? 0) then Err "discarding fragmented payload"
      else match SplitAddr rest with
           | Some addr => Ok (addr, drop (length addr) rest)
           | None => Err "failed to read UDP header"
           end
  | _ => Err "insufficient length of packet"
  end.

Definition EncodeUDPPacket (addr : option (list Z)) (payload : list Z) : result string (list Z) :=
  match addr with
  | None => Err "address is invalid"
  | Some addr => Ok ([0; 0; 0] ++ addr ++ payload)
  end.

(** ** Reading an address from a stream *)

Definition ReadAddr (buffer : nat) : prog (result io_error (list Z)) :=
  if (buffer <? MaxAddrLen)%nat then fail "short buffer"
  else
    read! b0 <- 1;
    match b0 with
    | [t] =>
        if t =? AtypDomainName then
          read! b1 <- 1;
          match b1 with
          | [n] => read! b <- (Z.to_nat n + 2)%nat; Ret (Ok (t :: n :: b))
          | _ => fail ""
          end
        else if t =? AtypIPv4 then read! b <- (IPv4len + 2)%nat; Ret (Ok (t :: b))
        else if t =? AtypIPv6 then read! b <- (IPv6len + 2)%nat; Ret (Ok (t :: b))
        else fail ErrAddressNotSupported
    | _ => fail ""
    end.

Definition ReadByte : prog (result io_error Z) :=
  read! b <- 1; match b with [x] => Ret (Ok x) | _ => fail "" end.

Definition ReadAddr0 : prog (result io_error (list Z)) :=
  do! aType <- ReadByte;
  if aType =? AtypDomainName then
    do! domainLength <- ReadByte;
    read! b <- (Z.to_nat domainLength + 2)%nat;
    Ret (Ok (aType :: domainLength :: b))
  else if aType =? AtypIPv4 then read! b <- (IPv4len + 2)%nat; Ret (Ok (aType :: b))
  else if aType =? AtypIPv6 then read! b <- (IPv6len + 2)%nat; Ret (Ok (aType :: b))
  else fail ErrAddressNotSupported.

(** ** Handshakes *)

Definition Authenticator := string → string → bool.
Definition AlwaysValid : Authenticator := λ _ _, true.

(** The username/password exchange of [ServerHandshake]; [write_] ignores the error of a write. *)
Definition write_ {A} (b : list Z) (k : prog A) : prog A := Write b (λ _, k).

Definition server_auth (verify : Authenticator) : prog (result io_error string) :=
  write [5; 2]
   (read! header <- 2;
    match header with
    | [_; userLen] =>
        if userLen <=? 0 then write_ [1; 1] (fail ErrAuth)
        else
          read! user <- (Z.to_nat userLen);
          read! header <- 1;
          match header with
          | [passLen] =>
              if passLen <=? 0 then write_ [1; 1] (fail ErrAuth)
              else
                read! pass <- (Z.to_nat passLen);
                if verify (to_string user) (to_string pass) then write [1; 0] (Ret (Ok (to_string user)))
                else write_ [1; 1] (fail ErrAuth)
          | _ => fail ""
          end
    | _ => fail ""
    end).

(** [local] is the address the server listens on. *)
Definition ServerHandshake (authenticator : option Authenticator) (local : NetAddr)
    : prog (result io_error (list Z * Z * string)) :=
  read! hello <- 2;
  match hello with
  | [_; nmethods] =>
      read! methods <- (Z.to_nat nmethods);
      let authenticator :=
        match authenticator with
        | None => if (nmethods =? 1) && bool_decide (methods = [2]) then Some AlwaysValid else None
        | _ => authenticator
        end in
      do! user <- match authenticator with
                  | Some verify => server_auth verify
                  | None => write [5; 0] (Ret (Ok ""))
                  end;
      read! request <- 3;
      match request with
      | [_; command; _] =>
          do! addr <- ReadAddr MaxAddrLen;
          if (command =? CmdConnect) || (command =? CmdUDPAssociate) then
            match ParseAddrToSocksAddr local with
            | None => fail ErrAddressNotSupported
            | Some localAddr => write ([5; 0; 0] ++ localAddr) (Ret (Ok (addr, command, user)))
            end
          else fail ErrCommandNotSupported
      | _ => fail ""
      end
  | _ => fail ""
  end.

Record User := mkUser { Username : string; Password : string }.

Definition auth_message (u : User) : list Z :=
  [1] ++ [wrap 8 (Z.of_nat (String.length (Username u)))] ++ of_string (Username u) ++
  [wrap 8 (Z.of_nat (String.length (Password u)))] ++ of_string (Password u).

Definition ClientHandshake (addr : list Z) (command : Z) (user : option User) : prog (result io_error (list Z)) :=
  write (match user with Some _ => [5; 1; 2] | None => [5; 1; 0] end)
   (read! reply <- 2;
    match reply with
    | [version; method] =>
        if negb (version =? 5) then fail "SOCKS version error"
        else
          do! _ok <-
            (if method =? 2 then
               match user with
               | None => fail ErrAuth
               | Some u =>
                   write (auth_message u)
                    (read! status <- 2;
                     match status with
                     | [_; code] => if negb (code =? 0) then fail "rejected username/password" else Ret (Ok tt)
                     | _ => fail ""
                     end)
               end
             else if negb (method =? 0) then fail "SOCKS need auth"
             else Ret (Ok tt));
          write ([5; command; 0] ++ addr)
           (read! head <- 3; ReadAddr MaxAddrLen)
    | _ => fail ""
    end).

(** ** Addresses on the wire *)

Lemma exec_read_some {A} n (k : list Z → prog (result io_error A)) b rest w :
  length b = n → exec (read n k) (b ++ rest) w = exec (k b) rest w.
Proof. intros Hn. unfold read. by rewrite exec_read. Qed.

Lemma exec_read_short {A} n (k : list Z → prog (result io_error A)) input w :
  (length input < n)%nat → exec (read n k) input w = Outcome (Err EOF) [] [] w.
Proof. intros Hn. unfold read. cbn [exec]. destruct (Nat.leb_spec n (length input)); [lia|done]. Qed.

(** Reading [n] further bytes after what is already known of the address. *)
Lemma exec_rest pre input n w :
  exec (read n (λ b, Ret (Ok (pre ++ b)))) input w =
  match (if (length (pre ++ input) <? length pre + n)%nat then None else Some (take (length pre + n) (pre ++ input))) with
  | Some a => Outcome (Ok a) (drop (length a) (pre ++ input)) [] w
  | None => Outcome (Err EOF) [] [] w
  end.
Proof.
  rewrite length_app. destruct (Nat.ltb_spec (length pre + length input) (length pre + n)) as [H|H].
  - apply exec_read_short. lia.
  - rewrite <- (take_drop n input) at 1. rewrite exec_read_some by (rewrite length_take; lia). simpl.
    rewrite take_app_add by done. rewrite length_app, drop_app_add by done. rewrite length_take.
    by replace (Nat.min n (length input)) with n by lia.
Qed.

Definition read_outcome (input : list Z) (w : nat) (o : outcome (result io_error (list Z))) : Prop :=
  match SplitAddr input with
  | Some a => o = Outcome (Ok a) (drop (length a) input) [] w
  | None => ∃ e, o = Outcome (Err e) (unread o) [] w
  end.

Lemma rest_outcome pre input n w :
  SplitAddr (pre ++ input) =
    (if (length (pre ++ input) <? length pre + n)%nat then None else Some (take (length pre + n) (pre ++ input))) →
  read_outcome (pre ++ input) w (exec (read n (λ b, Ret (Ok (pre ++ b)))) input w).
Proof.
  intros Hs. unfold read_outcome. rewrite Hs, exec_rest. destruct (_ <? _)%nat; [by exists EOF|done].
Qed.

Lemma ReadAddr_Split input w : read_outcome input w (exec (ReadAddr MaxAddrLen) input w).
Proof.
  unfold ReadAddr. change (MaxAddrLen <? MaxAddrLen)%nat with false. cbv iota.
  destruct input as [|t input]; [by exists EOF|]. change (t :: input) with ([t] ++ input) at 2.
  rewrite exec_read_some by done.
  destruct (Z.eqb_spec t AtypDomainName) as [->|H3]; [|destruct (Z.eqb_spec t AtypIPv4) as [->|H1];
    [|destruct (Z.eqb_spec t AtypIPv6) as [->|H4]]].
  - destruct input as [|n input]; [by exists EOF|]. change (n :: input) with ([n] ++ input) at 2.
    rewrite exec_read_some by done. apply (rest_outcome [AtypDomainName; n] input). cbn [SplitAddr app]. simpl Z.eqb. cbv iota.
    by rewrite <- Nat.add_assoc.
  - apply (rest_outcome [AtypIPv4] input). done.
  - apply (rest_outcome [AtypIPv6] input). done.
  - unfold read_outcome. cbn [SplitAddr]. rewrite (proj2 (Z.eqb_neq t _) H3), (proj2 (Z.eqb_neq t _) H1), (proj2 (Z.eqb_neq t _) H4).
    by eexists.
Qed.

Lemma ReadAddr0_eq input w : exec ReadAddr0 input w = exec (ReadAddr MaxAddrLen) input w.
Proof.
  unfold ReadAddr0, ReadAddr, ReadByte. change (MaxAddrLen <? MaxAddrLen)%nat with false. cbv iota.
  destruct input as [|t input]; [done|]. cbn -[Z.eqb]. rewrite take_0, drop_0. cbn -[Z.eqb].
  destruct (t =? AtypDomainName); [|by destruct (t =? AtypIPv4); [|destruct (t =? AtypIPv6)]].
  destruct input as [|n input]; [done|]. cbn -[Z.eqb]. by rewrite take_0, drop_0.
Qed.

(** The length an address announces. *)
Definition announced (b : list Z) : option nat :=
  match b with
  | [] => None
  | t :: _ =>
      if t =? AtypDomainName then match b with _ :: n :: _ => Some (1 + 1 + Z.to_nat n + 2)%nat | _ => None end
      else if t =? AtypIPv4 then Some (1 + IPv4len + 2)%nat
      else if t =? AtypIPv6 then Some (1 + IPv6len + 2)%nat else None
  end.

Lemma SplitAddr_announced b :
  SplitAddr b = match announced b with Some n => if (length b <? n)%nat then None else Some (take n b) | None => None end.
Proof.
  destruct b as [|t b]; [done|]. cbn [SplitAddr announced]. destruct (t =? AtypDomainName); [by destruct b|].
  destruct (t =? AtypIPv4); [done|]. by destruct (t =? AtypIPv6).
Qed.

Lemma announced_app b n rest : announced b = Some n → announced (b ++ rest) = Some n.
Proof.
  destruct b as [|t b]; [done|]. cbn [announced app]. destruct (t =? AtypDomainName); [by destruct b|done].
Qed.

Lemma announced_take b n : announced b = Some n → announced (take n b) = Some n.
Proof.
  destruct b as [|t b]; [done|]. cbn [announced]. destruct (t =? AtypDomainName) eqn:E3.
  - destruct b as [|m b]; [done|]. intros [= <-]. cbn [take announced Nat.add]. by rewrite E3.
  - destruct (t =? AtypIPv4) eqn:E1; [|destruct (t =? AtypIPv6) eqn:E4; [|done]]; intros [= <-];
      cbn [take announced Nat.add IPv4len IPv6len]; by rewrite E3, E1, ?E4.
Qed.

Lemma SplitAddr_prefix b a : SplitAddr b = Some a → b = a ++ drop (length a) b.
Proof.
  rewrite SplitAddr_announced. destruct (announced b) as [n|]; [|done].
  destruct (Nat.ltb_spec (length b) n) as [|Hn]; [done|]. intros [= <-]. rewrite length_take.
  replace (Nat.min n (length b)) with n by lia. by rewrite take_drop.
Qed.

(** A complete address: the bytes of one address and no more. *)
Definition complete (a : list Z) : Prop := SplitAddr a = Some a.

Lemma complete_announced a : complete a ↔ announced a = Some (length a).
Proof.
  unfold complete. rewrite SplitAddr_announced. destruct (announced a) as [n|]; [|done].
  destruct (Nat.ltb_spec (length a) n) as [Hn|Hn]; split.
  - done.
  - intros [= ->]. lia.
  - intros [= Hq]. f_equal. apply (f_equal length) in Hq. rewrite length_take in Hq. lia.
  - intros [= ->]. by rewrite firstn_all.
Qed.

(** An address followed by anything is split off again. *)
Lemma SplitAddr_app a rest : complete a → SplitAddr (a ++ rest) = Some a.
Proof.
  rewrite complete_announced, SplitAddr_announced. intros Ha. rewrite (announced_app _ _ _ Ha), length_app.
  destruct (Nat.ltb_spec (length a + length rest) (length a)); [lia|]. by rewrite take_app_length.
Qed.

Lemma SplitAddr_complete b a : SplitAddr b = Some a → complete a.
Proof.
  rewrite SplitAddr_announced, complete_announced. destruct (announced b) as [n|] eqn:E; [|done].
  destruct (Nat.ltb_spec (length b) n) as [|Hn]; [done|]. intros [= <-].
  rewrite (announced_take _ _ E), length_take. f_equal. lia.
Qed.

Lemma consumes_more {A} n (k : list Z → prog (result io_error A)) b b' v :
  length b = n → consumes (k b) b' v → consumes (read n k) (b ++ b') v.
Proof. intros Hl Hk. unfold read. by constructor. Qed.

Lemma ReadAddr_consumes a : complete a → consumes (ReadAddr MaxAddrLen) a (Ok a).
Proof.
  rewrite complete_announced. unfold ReadAddr. change (MaxAddrLen <? MaxAddrLen)%nat with false. cbv iota.
  assert (∀ pre b n, length b = n → consumes (read n (λ b, Ret (Ok (pre ++ b)))) b (Ok (pre ++ b) : result io_error _)) as Hlast.
  { intros pre b n Hl. rewrite <- (app_nil_r b) at 1. apply consumes_more; [done|constructor]. }
  destruct a as [|t a]; [done|]. cbn [announced]. intros Hlen. apply (consumes_more 1 _ [t]); [done|].
  destruct (t =? AtypDomainName); [|destruct (t =? AtypIPv4); [|destruct (t =? AtypIPv6); [|done]]].
  - destruct a as [|n a]; [done|]. injection Hlen as Hlen. simpl in Hlen. apply (consumes_more 1 _ [n]); [done|].
    apply (Hlast [t; n]). lia.
  - injection Hlen as Hlen. apply (Hlast [t]). unfold IPv4len in *. lia.
  - injection Hlen as Hlen. apply (Hlast [t]). unfold IPv6len in *. lia.
Qed.

(** ** Every address the code builds is complete *)

Lemma length_u16_bytes v : length (u16_bytes v) = 2%nat.
Proof. done. Qed.

Lemma To4_length ip ip4 : To4 ip = Some ip4 → length ip4 = 4%nat.
Proof.
  unfold To4. destruct (Nat.eqb_spec (length ip) IPv4len); [by intros [= <-]|].
  destruct (Nat.eqb_spec (length ip) IPv6len); [|done]. simpl. destruct (bool_decide _); [|done]. intros [= <-].
  rewrite length_drop. unfold IPv6len in *. lia.
Qed.

Lemma v4_complete ip4 port : length ip4 = 4%nat → complete (AtypIPv4 :: ip4 ++ u16_bytes port).
Proof. intros Hl. apply complete_announced. cbn [announced]. simpl. rewrite length_app, Hl. done. Qed.

Lemma v6_complete ip port : length ip = 16%nat → complete (AtypIPv6 :: ip ++ u16_bytes port).
Proof. intros Hl. apply complete_announced. cbn [announced]. simpl. rewrite length_app, Hl. done. Qed.

Lemma ParseIP_length s ip : ParseIP s = Some ip → length ip = 16%nat.
Proof.
  unfold ParseIP. destruct (ParseAddr s) as [[|v|v [|]]|]; try done; intros Hq; apply Some_inj in Hq as <-;
    rewrite ?length_app, length_be_bytes; done.
Qed.

Lemma ParseAddr_complete s a : ParseAddr_ s = Some a → complete a.
Proof.
  unfold ParseAddr_. destruct (SplitHostPort s) as [[host port]|]; [|done].
  destruct (ParseIP host) as [ip|] eqn:Eip; [destruct (To4 ip) as [ip4|] eqn:E4|destruct (Nat.ltb_spec 255 (String.length host)); [done|]];
    (destruct (ParseUint port 16) as [pn|]; [|done]); intros [= <-].
  - apply v4_complete. by eapply To4_length.
  - apply v6_complete. by eapply ParseIP_length.
  - apply complete_announced. cbn [announced app]. simpl Z.eqb. cbv iota. f_equal.
    cbn [length]. rewrite length_app, length_of_string, length_u16_bytes. lia.
Qed.

Lemma length_copy_zeroed n ip : length (copy_zeroed n ip) = n.
Proof. unfold copy_zeroed. rewrite length_app, length_take, length_replicate. lia. Qed.

Lemma ParseAddrToSocksAddr_complete addr a : ParseAddrToSocksAddr addr = Some a → complete a.
Proof.
  assert (∀ ip port, match To4 ip with
                     | Some ip4 => Some (AtypIPv4 :: ip4 ++ u16_bytes port)
                     | None => Some (AtypIPv6 :: copy_zeroed IPv6len ip ++ u16_bytes port)
                     end = Some a → complete a) as Hfast.
  { intros ip port. destruct (To4 ip) eqn:E; intros [= <-]; [apply v4_complete; by eapply To4_length|].
    apply v6_complete, length_copy_zeroed. }
  unfold ParseAddrToSocksAddr. destruct addr as [[ip|] port zone|[ip|] port zone|text|]; eauto using ParseAddr_complete; done.
Qed.

Lemma AddrFromStdAddrPort_complete addr port : complete (AddrFromStdAddrPort addr port).
Proof.
  unfold AddrFromStdAddrPort. destruct addr; [apply v6_complete, length_copy_zeroed|apply v4_complete, length_be_bytes|apply v6_complete, length_copy_zeroed].
Qed.

(** ** The two handshakes against each other *)

Definition field_ok (s : string) : Prop := (1 ≤ String.length s ≤ 255)%nat.

Lemma field_length s : field_ok s → Z.to_nat (wrap 8 (Z.of_nat (String.length s))) = length (of_string s).
Proof.
  unfold field_ok. intros Hs. rewrite length_of_string, wrap_small; [lia|]. unfold unsigned_ok. lia.
Qed.

Lemma field_positive s : field_ok s → (wrap 8 (Z.of_nat (String.length s)) <=? 0) = false.
Proof. unfold field_ok. intros Hs. rewrite wrap_small; [|unfold unsigned_ok; lia]. apply Z.leb_gt. lia. Qed.

(** What both sides should end with. *)
Definition agreed (auth : option Authenticator) (user : option User) (addr : list Z) (command : Z) (bound : list Z)
    : result io_error (list Z) * result io_error (list Z * Z * string) :=
  match user with
  | None => (Ok bound, Ok (addr, command, ""))
  | Some u => if default AlwaysValid auth (Username u) (Password u)
              then (Ok bound, Ok (addr, command, Username u))
              else (Err (ErrMsg "rejected username/password"), Err (ErrMsg ErrAuth))
  end.

Section handshake.
Context (addr bound : list Z) (command : Z) (local : NetAddr).
Hypothesis Haddr : complete addr.
Hypothesis Hcommand : command = CmdConnect ∨ command = CmdUDPAssociate.
Hypothesis Hbound : ParseAddrToSocksAddr local = Some bound.

(** The request and its answer, once the server knows the user. *)
Lemma talk_request (user : string) :
  rtc talk_step
    (Talk (write ([5; command; 0] ++ addr) (read! head <- 3; ReadAddr MaxAddrLen))
          (read! request <- 3;
           match request with
           | [_; command; _] =>
               do! addr <- ReadAddr MaxAddrLen;
               if (command =? CmdConnect) || (command =? CmdUDPAssociate) then
                 match ParseAddrToSocksAddr local with
                 | None => fail ErrAddressNotSupported
                 | Some localAddr => write ([5; 0; 0] ++ localAddr) (Ret (Ok (addr, command, user)))
                 end
               else fail ErrCommandNotSupported
           | _ => fail ""
           end) [] [])
    (Talk (Ret (Ok bound)) (Ret (Ok (addr, command, user))) [] []).
Proof.
  apply talk_client_write. cbn [app]. apply (talk_server_read 3 _ _ [5; command; 0] addr); [done|]. cbv iota beta.
  rewrite <- (app_nil_r addr) at 1. eapply talk_server_consumes; [by apply ReadAddr_consumes|].
  assert ((command =? CmdConnect) || (command =? CmdUDPAssociate) = true) as -> by (by destruct Hcommand as [->| ->]).
  rewrite Hbound. apply talk_server_write. cbn [app]. apply (talk_client_read 3 _ _ _ [5; 0; 0] bound); [done|].
  eapply talk_client_last; [|apply rtc_refl]. apply ReadAddr_consumes. by eapply ParseAddrToSocksAddr_complete.
Qed.

(** The username/password exchange, whatever follows it on either side. *)
Lemma talk_auth {A B} (verify : Authenticator) (u : User) (f : result io_error unit → prog A)
    (g : result io_error string → prog B) (t : talk A B) :
  field_ok (Username u) → field_ok (Password u) →
  rtc talk_step
    (if verify (Username u) (Password u) then Talk (f (Ok tt)) (g (Ok (Username u))) [] []
     else Talk (f (Err (ErrMsg "rejected username/password"))) (g (Err (ErrMsg ErrAuth))) [] []) t →
  rtc talk_step
    (Talk (bind (write (auth_message u)
                  (read! status <- 2;
                   match status with
                   | [_; code] => if negb (code =? 0) then fail "rejected username/password" else Ret (Ok tt)
                   | _ => fail ""
                   end)) f)
          (bind (read! header <- 2;
                 match header with
                 | [_; userLen] =>
                     if userLen <=? 0 then write_ [1; 1] (fail ErrAuth)
                     else
                       read! user <- (Z.to_nat userLen);
                       read! header <- 1;
                       match header with
                       | [passLen] =>
                           if passLen <=? 0 then write_ [1; 1] (fail ErrAuth)
                           else
                             read! pass <- (Z.to_nat passLen);
                             if verify (to_string user) (to_string pass)
                             then write [1; 0] (Ret (Ok (to_string user)))
                             else write_ [1; 1] (fail ErrAuth)
                       | _ => fail ""
                       end
                 | _ => fail ""
                 end) g) [] []) t.
Proof.
  intros Hu Hp Ht. apply talk_client_write. cbn [app]. unfold auth_message. cbn [app].
  apply (talk_server_read 2 _ _ [1; wrap 8 (Z.of_nat (String.length (Username u)))]); [done|]. cbv beta iota.
  rewrite (field_positive _ Hu).
  apply (talk_server_read _ _ _ (of_string (Username u))); [by rewrite field_length|]. cbv beta iota.
  apply (talk_server_read 1 _ _ [wrap 8 (Z.of_nat (String.length (Password u)))]); [done|]. cbv beta iota.
  rewrite (field_positive _ Hp). rewrite <- (app_nil_r (of_string (Password u))) at 1.
  apply (talk_server_read _ _ _ (of_string (Password u))); [by rewrite field_length|]. cbv beta iota.
  rewrite !to_of_string. destruct (verify (Username u) (Password u)).
  - apply talk_server_write. apply (talk_client_read 2 _ _ _ [1; 0] []); [done|]. exact Ht.
  - apply talk_server_write. apply (talk_client_read 2 _ _ _ [1; 1] []); [done|]. exact Ht.
Qed.

Lemma handshake_runs (auth : option Authenticator) (user : option User) :
  match user with Some u => field_ok (Username u) ∧ field_ok (Password u) | None => auth = None end →
  rtc talk_step (Talk (ClientHandshake addr command user) (ServerHandshake auth local) [] [])
    (Talk (Ret (agreed auth user addr command bound).1) (Ret (agreed auth user addr command bound).2) [] []).
Proof.
  unfold ClientHandshake, ServerHandshake, agreed. destruct user as [u|].
  - intros [Hu Hp]. apply talk_client_write. cbn [app].
    apply (talk_server_read 2 _ _ [5; 1] [2]); [done|]. cbv beta iota. apply (talk_server_read 1 _ _ [2] []); [done|]. cbv beta iota.
    set (verify := default AlwaysValid auth).
    assert (match auth with
            | Some _ => auth
            | None => if (1 =? 1) && bool_decide ([2] = [2]) then Some AlwaysValid else None
            end = Some verify) as -> by (by destruct auth).
    unfold server_auth at 1. apply talk_server_write. cbn [app]. apply (talk_client_read 2 _ _ _ [5; 2] []); [done|].
    cbv beta iota. cbn [Z.eqb Pos.eqb negb]. apply talk_auth; [done|done|].
    destruct (verify (Username u) (Password u)); [apply talk_request|apply rtc_refl].
  - intros ->. apply talk_client_write. cbn [app].
    apply (talk_server_read 2 _ _ [5; 1] [0]); [done|]. cbv beta iota. apply (talk_server_read 1 _ _ [0] []); [done|]. cbv beta iota.
    apply talk_server_write. cbn [app]. apply (talk_client_read 2 _ _ _ [5; 0] []); [done|]. apply talk_request.
Qed.
End handshake.

(** ** A server that asks for credentials *)

(** The bytes of the username/password exchange. *)
Definition credentials (input : list Z) (user pass : list Z) : Prop :=
  ∃ version userLen passLen rest,
    input = [version; userLen] ++ user ++ [passLen] ++ pass ++ rest ∧
    length user = Z.to_nat userLen ∧ length pass = Z.to_nat passLen ∧ 0 < userLen ∧ 0 < passLen.

Lemma list_two {A} (l : list A) : length l = 2%nat → ∃ x y, l = [x; y].
Proof. destruct l as [|x [|y [|]]]; try done. by exists x, y. Qed.

Lemma list_one {A} (l : list A) : length l = 1%nat → ∃ x, l = [x].
Proof. destruct l as [|x [|]]; try done. by exists x. Qed.

Lemma server_auth_ok verify input w user :
  value_of (exec (server_auth verify) input w) = Ok user →
  ∃ ub pb, credentials input ub pb ∧ user = to_string ub ∧ verify user (to_string pb) = true.
Proof.
  unfold server_auth. intros H. apply exec_write_ok in H as [w1 H].
  apply exec_read_ok in H as (b & rest & -> & Hb & H). destruct (list_two b Hb) as (version & userLen & ->).
  destruct (Z.leb_spec userLen 0); [by destruct w1|].
  apply exec_read_ok in H as (ub & rest1 & -> & Hub & H). apply exec_read_ok in H as (b1 & rest2 & -> & Hb1 & H).
  destruct (list_one b1 Hb1) as (passLen & ->). destruct (Z.leb_spec passLen 0); [by destruct w1|].
  apply exec_read_ok in H as (pb & rest3 & -> & Hpb & H).
  destruct (verify (to_string ub) (to_string pb)) eqn:E; [|by destruct w1].
  apply exec_write_ok in H as [w2 H]. injection H as <-. exists ub, pb. split_and!; [|done|done].
  by exists version, userLen, passLen, rest3.
Qed.

Lemma ServerHandshake_ok verify local input w addr command user :
  value_of (exec (ServerHandshake (Some verify) local) input w) = Ok (addr, command, user) →
  (∃ hello methods rest ub pb, input = hello ++ methods ++ rest ∧ credentials rest ub pb ∧
     user = to_string ub ∧ verify user (to_string pb) = true) ∧
  (command = CmdConnect ∨ command = CmdUDPAssociate) ∧ complete addr.
Proof.
  unfold ServerHandshake. intros H. apply exec_read_ok in H as (hello & rest & -> & Hh & H).
  destruct (list_two hello Hh) as (version & nmethods & ->). apply exec_read_ok in H as (methods & rest1 & -> & _ & H).
  apply exec_do_ok in H as (user' & Hu & H). apply server_auth_ok in Hu as (ub & pb & Hc & -> & Hv).
  apply exec_read_ok in H as (request & rest2 & _ & Hr & H).
  assert (∃ x c y, request = [x; c; y]) as (x & c & y & ->) by (destruct request as [|x [|c [|y [|]]]]; try done; by exists x, c, y).
  apply exec_do_ok in H as (a & Ha & H).
  assert (complete a) as Hca.
  { match type of Ha with value_of (exec _ ?i ?n) = _ => pose proof (ReadAddr_Split i n) as Hs end.
    unfold read_outcome in Hs. destruct (SplitAddr rest2) as [a'|] eqn:E.
    - rewrite Hs in Ha. injection Ha as <-. by eapply SplitAddr_complete.
    - destruct Hs as [e Hs]. rewrite Hs in Ha. done. }
  destruct ((c =? CmdConnect) || (c =? CmdUDPAssociate)) eqn:Ec; [|done].
  destruct (ParseAddrToSocksAddr local); [|done]. apply exec_write_ok in H as [w' H]. injection H as <- <- <-.
  split_and!; [|apply orb_true_iff in Ec as [Ec|Ec]; apply Z.eqb_eq in Ec; auto|done].
  exists [version; nmethods], methods, rest1, ub, pb. done.
Qed.

(** ** Addresses of the standard library *)

Lemma u16_roundtrip port : unsigned_ok 16 port → u16_value (u16_bytes port) = port.
Proof.
  intros Hp. unfold unsigned_ok in Hp. unfold u16_value, u16_bytes.
  change 255 with (Z.ones 8). rewrite !Z.land_ones, Z.shiftr_div_pow2, Z.shiftl_mul_pow2 by lia.
  rewrite (Z.mod_small (port / 2 ^ 8)) by (split; [apply Z.div_pos; lia|apply Z.div_lt_upper_bound; lia]).
  pose proof (Z.mod_pos_bound port (2 ^ 8)) as Hm. pose proof (Z.div_mod port (2 ^ 8)) as Hd.
  pose proof (Z.add_lor_land (port / 2 ^ 8 * 2 ^ 8) (port mod 2 ^ 8)) as Ha.
  assert (Z.land (port / 2 ^ 8 * 2 ^ 8) (port mod 2 ^ 8) = 0) as H0; [|lia].
  apply Z.bits_inj'. intros i Hi. rewrite Z.land_spec, Z.bits_0. destruct (Z.ltb_spec i 8).
  - rewrite Z.mul_pow2_bits_low by lia. done.
  - rewrite (Z.mod_pow2_bits_high port 8 i) by lia. apply andb_false_r.
Qed.

Lemma UDPAddr_std addr port :
  IsValid addr = true → unsigned_ok 16 port →
  UDPAddr (AddrFromStdAddrPort addr port) = Some (Some (AsSlice addr, port)).
Proof.
  intros Hv Hp. assert (∀ ip n, length ip = n → (take n (ip ++ u16_bytes port) = ip ∧ drop n (ip ++ u16_bytes port) = u16_bytes port)) as Hcut.
  { intros ip n <-. by rewrite take_app_length, drop_app_length. }
  assert (∀ t ip, slice (t :: ip ++ u16_bytes port) 1 (1 + length ip) = Some ip ∧
                  slice (t :: ip ++ u16_bytes port) (1 + length ip) (1 + length ip + 2) = Some (u16_bytes port)) as Hsl.
  { intros t ip. destruct (Hcut ip (length ip) eq_refl) as [Ht Hd]. unfold slice. cbn [length Nat.add].
    rewrite length_app, length_u16_bytes. rewrite !(proj2 (Nat.leb_le _ _)) by lia. cbn [andb drop].
    replace (S (length ip) - 1)%nat with (length ip) by lia. rewrite drop_0, Ht, Hd.
    replace (S (length ip + 2) - S (length ip))%nat with 2%nat by lia. done. }
  unfold AddrFromStdAddrPort, UDPAddr. destruct addr as [|v|v z]; [done| |].
  - destruct (Hsl AtypIPv4 (be_bytes 4 v)) as [H1 H2]. rewrite length_be_bytes in H1, H2. simpl Z.eqb. cbv iota.
    unfold IPv4len. cbn [Nat.add] in *. by rewrite H1, H2, u16_roundtrip.
  - assert (copy_zeroed IPv6len (be_bytes 16 v) = be_bytes 16 v) as Hcp.
    { unfold copy_zeroed. rewrite length_be_bytes. unfold IPv6len. rewrite Nat.sub_diag. cbn [replicate].
      rewrite app_nil_r. apply take_ge. by rewrite length_be_bytes. }
    cbn [AsSlice]. rewrite Hcp. destruct (Hsl AtypIPv6 (be_bytes 16 v)) as [H1 H2]. rewrite length_be_bytes in H1, H2.
    simpl Z.eqb. cbv iota. unfold IPv6len. cbn [Nat.add] in *. by rewrite H1, H2, u16_roundtrip.
Qed.

(** ** Properties *)

(** C36. A client and a server handshake over one connection, with user name and
    password of 1 to 255 bytes when the server asks for them: in whatever order
    the two sides run, both finish; with the right credentials the server gets
    the client's address, command and user name and the client the address the
    server is bound to, and with wrong ones both report the failure.  No byte is
    left over in either direction. *)
Theorem socks5_handshake_agrees (auth : option Authenticator) (user : option User) (addr bound : list Z) (command : Z)
    (local : NetAddr) (t : talk (result io_error (list Z)) (result io_error (list Z * Z * string))) :
  complete addr → command = CmdConnect ∨ command = CmdUDPAssociate → ParseAddrToSocksAddr local = Some bound →
  match user with Some u => field_ok (Username u) ∧ field_ok (Password u) | None => auth = None end →
  rtc talk_step (Talk (ClientHandshake addr command user) (ServerHandshake auth local) [] []) t →
  let '(c, s) := agreed auth user addr command bound in rtc talk_step t (Talk (Ret c) (Ret s) [] []).
Proof.
  intros Ha Hc Hb Hu Ht. pose proof (handshake_runs addr bound command local Ha Hc Hb auth user Hu) as Hr.
  destruct (agreed auth user addr command bound) as [c s]. eapply talk_confluent; [exact Hr|apply talk_done|exact Ht].
Qed.

(** A server with an authenticator hands out a request only after reading a
    user name and password from the client that the authenticator accepts, and
    then only a connect or UDP request with a complete address; this holds for
    every input and wherever the connection breaks. *)
Theorem socks5_server_authenticates (verify : Authenticator) (local : NetAddr) (input : list Z) (writes : nat)
    (addr : list Z) (command : Z) (user : string) :
  value_of (exec (ServerHandshake (Some verify) local) input writes) = Ok (addr, command, user) →
  (∃ hello methods rest ub pb, input = hello ++ methods ++ rest ∧ credentials rest ub pb ∧
     user = to_string ub ∧ verify user (to_string pb) = true) ∧
  (command = CmdConnect ∨ command = CmdUDPAssociate) ∧ complete addr.
Proof. apply ServerHandshake_ok. Qed.

(** The three readers of an address agree: reading from a stream with or
    without a buffer gives exactly the address [SplitAddr] cuts from the front of
    the bytes and leaves what follows it, and fails exactly when there is none. *)
Theorem socks5_readers_agree (input : list Z) (writes : nat) :
  read_outcome input writes (exec (ReadAddr MaxAddrLen) input writes) ∧
  exec ReadAddr0 input writes = exec (ReadAddr MaxAddrLen) input writes.
Proof. split; [apply ReadAddr_Split|apply ReadAddr0_eq]. Qed.

(** Decoding an encoded UDP packet gives back its address and payload, and
    encoding a decoded packet gives back its bytes. *)
Theorem socks5_udp_roundtrip (addr payload packet : list Z) :
  (complete addr → EncodeUDPPacket (Some addr) payload = Ok packet → DecodeUDPPacket packet = Ok (addr, payload)) ∧
  (DecodeUDPPacket packet = Ok (addr, payload) → complete addr ∧ EncodeUDPPacket (Some addr) payload = Ok packet).
Proof.
  split.
  - intros Ha [= <-]. unfold DecodeUDPPacket. cbn [app]. rewrite (SplitAddr_app _ _ Ha), drop_app_length.
    destruct (Nat.ltb_spec (length (0 :: 0 :: 0 :: addr ++ payload)) 5) as [Hl|]; [|done].
    apply complete_announced in Ha. cbn [length] in Hl. rewrite length_app in Hl.
    destruct addr as [|x [|y addr]]; [done| |simpl in Hl; lia]. exfalso. cbn [announced] in Ha.
    destruct (x =? AtypDomainName); [done|]. destruct (x =? AtypIPv4); [done|]. by destruct (x =? AtypIPv6).
  - destruct packet as [|r0 [|r1 [|frag rest]]]; try done. unfold DecodeUDPPacket.
    destruct (_ <? _)%nat; [done|]. destruct (Z.eqb_spec r0 0) as [->|]; [|done]. destruct (Z.eqb_spec r1 0) as [->|]; [|done].
    destruct (Z.eqb_spec frag 0) as [->|]; [|done]. cbn [negb andb].
    destruct (SplitAddr rest) as [a|] eqn:E; [|done]. intros [= <- <-]. split; [by eapply SplitAddr_complete|].
    unfold EncodeUDPPacket. cbn [app]. by rewrite <- (SplitAddr_prefix _ _ E).
Qed.

(** Every address the code builds, from text, from a network address or
    from an address and port, is complete; and an address and port survive the
    way into a SOCKS address and back. *)
Theorem socks5_built_addresses (s : string) (a : list Z) (net : NetAddr) (addr : Addr) (port : Z) :
  (ParseAddr_ s = Some a → complete a) ∧ (ParseAddrToSocksAddr net = Some a → complete a) ∧
  complete (AddrFromStdAddrPort addr port) ∧
  (IsValid addr = true → unsigned_ok 16 port → UDPAddr (AddrFromStdAddrPort addr port) = Some (Some (AsSlice addr, port))).
Proof.
  split_and!; [apply ParseAddr_complete|apply ParseAddrToSocksAddr_complete|apply AddrFromStdAddrPort_complete|apply UDPAddr_std].
Qed.

(** The client does not look at the reply code: an answer that reports a
    failure is taken for success whenever an address follows it. *)
Theorem client_ignores_reply_code (addr bound : list Z) (command rep : Z) :
  complete bound →
  value_of (exec (ClientHandshake addr command None) ([5; 0] ++ [5; rep; 0] ++ bound) 2) = Ok bound.
Proof.
  intros Hb. unfold ClientHandshake. unfold write at 1. cbn [exec value_of]. rewrite exec_read_some by done.
  cbn [Z.eqb Pos.eqb negb bind]. unfold write. cbn [exec value_of]. rewrite exec_read_some by done.
  pose proof (ReadAddr_Split bound 0) as Hs. unfold read_outcome in Hs. rewrite Hb in Hs. by rewrite Hs.
Qed.

(** A client asking for [example.com:443] at a server on 127.0.0.1. *)
Definition demo_addr : list Z := AtypDomainName :: 11 :: of_string "example.com" ++ [1; 187].
Definition demo_local : NetAddr := NetTCPAddr (Some [127; 0; 0; 1]) 7891 "".
Definition demo_bound : list Z := [1; 127; 0; 0; 1; 30; 211].
Definition demo_user : User := mkUser "alice" "secret".
Definition demo_verify : Authenticator := λ u p, bool_decide (u = "alice") && bool_decide (p = "secret").

Lemma socks5_handshake_agrees_witness :
  rtc talk_step (Talk (ClientHandshake demo_addr CmdConnect (Some demo_user)) (ServerHandshake (Some demo_verify) demo_local) [] [])
    (Talk (Ret (Ok demo_bound)) (Ret (Ok (demo_addr, CmdConnect, "alice"))) [] []).
Proof.
  apply (socks5_handshake_agrees (Some demo_verify) (Some demo_user) demo_addr demo_bound CmdConnect demo_local);
    [reflexivity|left; reflexivity|reflexivity|split; unfold field_ok; simpl; lia|apply rtc_refl].
Defined.

Definition demo_input : list Z :=
  [5; 1; 2] ++ [1; 5] ++ of_string "alice" ++ [6] ++ of_string "secret" ++ [5; 1; 0] ++ demo_addr.

Lemma socks5_server_authenticates_witness : complete demo_addr.
Proof.
  apply (socks5_server_authenticates demo_verify demo_local demo_input 3 demo_addr CmdConnect "alice"). vm_compute. reflexivity.
Defined.

Lemma socks5_udp_roundtrip_witness : DecodeUDPPacket ([0; 0; 0] ++ demo_addr ++ [9; 9]) = Ok (demo_addr, [9; 9]).
Proof. apply (socks5_udp_roundtrip demo_addr [9; 9] ([0; 0; 0] ++ demo_addr ++ [9; 9])); reflexivity. Defined.

Lemma socks5_built_addresses_witness : complete [3; 1; 97; 0; 80].
Proof. apply (proj1 (socks5_built_addresses "a:80" [3; 1; 97; 0; 80] NetNil NoAddr 0)). vm_compute. reflexivity. Defined.

Lemma client_ignores_reply_code_witness :
  value_of (exec (ClientHandshake demo_addr CmdConnect None) [5; 0; 5; 5; 0; 1; 127; 0; 0; 1; 30; 211] 2) = Ok demo_bound.
Proof. apply (client_ignores_reply_code demo_addr demo_bound CmdConnect 5). reflexivity. Defined.
