(* ===== verification/DomainTrie.v ===== *)
(** * [component/trie/node.go], [component/trie/domain.go]: the domain trie

    A Go map is an association list without duplicate keys; its order stands for
    the unspecified iteration order.  Nodes are owned by one parent each, so
    changing a node in place is rebuilding the path to it.  [data] is [None]
    until the node is initialised.  The labels of a domain are stored from the
    last to the first: paths below are reversed label lists. *)

From Stdlib Require Import ZArith Lia Ascii.
From stdpp Require Import base list strings numbers sorting.
From S2P Require Import Prelude GoStrings.
#[local] Open Scope string_scope.
#[local] Open Scope list_scope.

(** ** Splitting a domain *)

Definition wildcard : string := "*".
Definition dotWildcard : string := "".
Definition complexWildcard : string := "+".
Definition domainStep : ascii := "."%char.

Inductive domain_error :=
| EmptyDomain | TrailingDot | LeadingWhitespace | TrailingWhitespace | EmptyLabel (label : nat)
| PlusInLabel (label : nat) | PlusNotFirst | PlusAlone | StarInLabel (label : nat).
#[export] Instance domain_error_eq_dec : EqDecision domain_error.
Proof. solve_decision. Defined.

Definition last_byte_is (c : ascii) (s : string) : bool :=
  match string_rev s with String d _ => bool_decide (c = d) | EmptyString => false end.

(** The label numbers count from 1; [parts[1:]] starts with label 2. *)
Fixpoint empty_label (label : nat) (parts : list string) : option nat :=
  match parts with
  | [] => None
  | part :: parts => if decide (part = "") then Some label else empty_label (S label) parts
  end.

Fixpoint wildcard_error (n i : nat) (parts : list string) : option domain_error :=
  match parts with
  | [] => None
  | part :: parts =>
      if Contains part complexWildcard && bool_decide (part ≠ complexWildcard) then Some (PlusInLabel (i + 1))
      else if Contains part complexWildcard && negb (i =? 0)%nat then Some PlusNotFirst
      else if Contains part complexWildcard && (n =? 1)%nat then Some PlusAlone
      else if Contains part wildcard && bool_decide (part ≠ wildcard) then Some (StarInLabel (i + 1))
      else wildcard_error n (S i) parts
  end.

Definition ValidAndSplitDomain `{UnicodeCase} (domain : string) : result domain_error (list string) :=
  if decide (domain = "") then Err EmptyDomain
  else if last_byte_is domainStep domain then Err TrailingDot
  else if negb (leading_space domain =? 0)%nat then Err LeadingWhitespace
  else if negb (trailing_space (string_rev domain) =? 0)%nat then Err TrailingWhitespace
  else
    let parts := Split (ToLower domain) domainStep in
    let empty := match parts with
                 | [part] => if decide (part = "") then Some EmptyDomain else None
                 | _ => EmptyLabel <$> empty_label 2 (tail parts)
                 end in
    match empty with
    | Some e => Err e
    | None => match wildcard_error (length parts) 0 parts with Some e => Err e | None => Ok parts end
    end.

(** ** Nodes *)

Section trie.
Context {T : Type}.

Inductive Node :=
| mkNode (childMap : option (list (string * Node))) (childNode : option Node) (childStr : string) (data : option T).

Definition childMap (n : Node) := let '(mkNode m _ _ _) := n in m.
Definition childNode (n : Node) := let '(mkNode _ c _ _) := n in c.
Definition childStr (n : Node) := let '(mkNode _ _ s _) := n in s.
Definition data (n : Node) := let '(mkNode _ _ _ d) := n in d.

Definition newNode : Node := mkNode None None "" None.

Fixpoint map_get (m : list (string * Node)) (s : string) : option Node :=
  match m with
  | [] => None
  | (k, c) :: m => if decide (k = s) then Some c else map_get m s
  end.

Fixpoint map_set (m : list (string * Node)) (s : string) (c : Node) : list (string * Node) :=
  match m with
  | [] => [(s, c)]
  | (k, c') :: m => if decide (k = s) then (k, c) :: m else (k, c') :: map_set m s c
  end.

Definition getChild (n : Node) (s : string) : option Node :=
  match childMap n with
  | None => match childNode n with
            | Some c => if decide (childStr n = s) then Some c else None
            | None => None
            end
  | Some m => map_get m s
  end.

Definition hasNoChild (n : Node) : bool :=
  match childMap n, childNode n with None, None => true | _, _ => false end.

Definition hasChild (n : Node) (s : string) : bool := bool_decide (is_Some (getChild n s)).

Definition addChild (n : Node) (s : string) (child : Node) : Node :=
  match n with
  | mkNode None None _ d => mkNode None (Some child) s d
  | mkNode None (Some c) str d => mkNode (Some (map_set [(str, c)] s child)) None "" d
  | mkNode (Some m) c str d => mkNode (Some (map_set m s child)) c str d
  end.

(** Changing an existing child in place. *)
Definition putChild (n : Node) (s : string) (child : Node) : Node :=
  match n with
  | mkNode None _ str d => mkNode None (Some child) str d
  | mkNode (Some m) c str d => mkNode (Some (map_set m s child)) c str d
  end.

(** The child [getOrNewChild] gives, after [f] has changed it, back in its parent. *)
Definition with_child (n : Node) (s : string) (f : Node → Node) : Node :=
  match getChild n s with
  | Some c => putChild n s (f c)
  | None => addChild n s (f newNode)
  end.

Definition isEmpty (n : option Node) : bool :=
  match n with Some n => negb (bool_decide (is_Some (data n))) | None => true end.

Definition setData (n : Node) (d : T) : Node := let '(mkNode m c s _) := n in mkNode m c s (Some d).

Definition getChildren (n : Node) : list (string * Node) :=
  match childMap n with
  | None => match childNode n with Some c => [(childStr n, c)] | None => [] end
  | Some m => m
  end.

(** [optimize]: a map of one child becomes the single child.  In that case the
    code calls itself on the changed node, which optimises the child. *)
Fixpoint optimize (n : Node) : Node :=
  match n with
  | mkNode m c s d =>
      let c' := match c with Some c => Some (optimize c) | None => None end in
      match m with
      | None => mkNode None c' s d
      | Some [] => mkNode None c' s d
      | Some [(key, child)] => mkNode None (Some (optimize child)) key d
      | Some children =>
          mkNode (Some ((fix go l := match l with [] => [] | (k, x) :: l => (k, optimize x) :: go l end) children)) c' s d
      end
  end.

(** ** The trie *)

(** Along a reversed list of labels. *)
Fixpoint insert_path (path : list string) (d : T) (n : Node) : Node :=
  match path with
  | [] => setData n d
  | part :: path => with_child n part (insert_path path d)
  end.

Definition insert (root : Node) (parts : list string) (d : T) : Node := insert_path (rev parts) d root.

Definition Insert `{UnicodeCase} (root : Node) (domain : string) (d : T) : result domain_error Node :=
  let! parts := ValidAndSplitDomain domain in
  match parts with
  | first :: rest =>
      if decide (first = complexWildcard) then Ok (insert (insert root rest d) (dotWildcard :: rest) d)
      else Ok (insert root parts d)
  | [] => Ok root
  end.

Fixpoint search (n : Node) (path : list string) : option Node :=
  match path with
  | [] => Some n
  | part :: path =>
      let below s := match getChild n s with
                     | Some c => let r := search c path in if isEmpty r then None else r
                     | None => None
                     end in
      match below part with
      | Some r => Some r
      | None => match below wildcard with
                | Some r => Some r
                | None => getChild n dotWildcard
                end
      end
  end.

Definition Search `{UnicodeCase} (root : Node) (domain : string) : option Node :=
  if hasNoChild root then None
  else match ValidAndSplitDomain domain with
       | Ok (first :: rest) =>
           if decide (first = "") then None
           else let n := search root (rev (first :: rest)) in if isEmpty n then None else n
       | _ => None
       end.

(** [fn] of [Foreach] sees a domain and its value and says whether to go on; it
    may depend on the calls made so far.  The state of the iteration is the list
    of the calls, the last one last. *)
Definition call_log : Type := list (string * T).

Definition joinDomain (items : list string) : string := Join items (String domainStep EmptyString).

Definition visit (fn : call_log → bool) (items : list string) (n : Node) (log : call_log) : call_log * bool :=
  match data n with
  | Some d => let log := log ++ [(joinDomain items, d)] in (log, fn log)
  | None => (log, true)
  end.

Fixpoint recursion (fn : call_log → bool) (items : list string) (n : Node) (log : call_log) : call_log * bool :=
  match n with
  | mkNode m c s _ =>
      let fix go l log :=
        match l with
        | [] => (log, true)
        | (key, x) :: l =>
            let '(log, ok) := visit fn (key :: items) x log in
            if ok then let '(log, ok) := recursion fn (key :: items) x log in if ok then go l log else (log, false)
            else (log, false)
        end in
      match m, c with
      | Some l, _ => go l log
      | None, Some x =>
          let '(log, ok) := visit fn (s :: items) x log in
          if ok then recursion fn (s :: items) x log else (log, false)
      | None, None => (log, true)
      end
  end.

(** The answer of [recursion] is not used. *)
Fixpoint foreach_loop (fn : call_log → bool) (l : list (string * Node)) (log : call_log) : call_log :=
  match l with
  | [] => log
  | (key, x) :: l =>
      let log := (recursion fn [key] x log).1 in
      let '(log, ok) := visit fn [key] x log in
      if ok then foreach_loop fn l log else log
  end.

Definition Foreach (root : Node) (fn : call_log → bool) : call_log := foreach_loop fn (getChildren root) [].

Definition IsEmpty (root : Node) : bool := (length (getChildren root) =? 0)%nat.

Definition New : Node := newNode.
End trie.
Arguments Node : clear implicits.

(** ** What a trie stores *)

Section theory.
Context {T : Type}.
Implicit Types (n c : Node T) (path : list string).

Fixpoint node_at n path : option (Node T) :=
  match path with
  | [] => Some n
  | s :: path => match getChild n s with Some c => node_at c path | None => None end
  end.

Definition lookup n path : option T := match node_at n path with Some c => data c | None => None end.

(** A node never uses both representations of its children, and a map has each key once. *)
Definition shape n : Prop :=
  match childMap n with
  | Some m => childNode n = None ∧ NoDup (fst <$> m) ∧ m ≠ []
  | None => True
  end.
Definition well n : Prop := ∀ path c, node_at n path = Some c → shape c.

Lemma well_unfold n : well n ↔ shape n ∧ ∀ s c, getChild n s = Some c → well c.
Proof.
  split.
  - intros Hw. split; [by apply (Hw [])|]. intros s c Hc path c' Hp. apply (Hw (s :: path)). simpl. by rewrite Hc.
  - intros [Hs Hc] [|s path] c Hp; simpl in Hp; [by injection Hp as <-|].
    destruct (getChild n s) as [c'|] eqn:E; [|done]. by eapply Hc.
Qed.

Lemma map_get_set (m : list (string * Node T)) s c s' :
  map_get (map_set m s c) s' = if decide (s = s') then Some c else map_get m s'.
Proof.
  induction m as [|[k x] m IH]; simpl; [done|].
  destruct (decide (k = s)) as [->|Hk]; simpl.
  - by destruct (decide (s = s')).
  - rewrite IH. destruct (decide (k = s')) as [->|Hk']; [|done]. by rewrite decide_False by congruence.
Qed.

Lemma map_set_keys (m : list (string * Node T)) s c :
  NoDup (fst <$> m) → NoDup (fst <$> map_set m s c) ∧ ∀ k, k ∈ (map_set m s c).*1 → k = s ∨ k ∈ m.*1.
Proof.
  induction m as [|[k x] m IH]; intros Hnd; simpl.
  - split; [apply NoDup_singleton|]. intros k Hk. apply list_elem_of_singleton in Hk. auto.
  - apply list.NoDup_cons in Hnd as [Hn Hnd]. destruct (decide (k = s)) as [->|Hk]; simpl.
    + split; [by constructor|]. auto.
    + destruct (IH Hnd) as [Hnd' Hin]. split.
      * constructor; [|done]. intros Hk'. destruct (Hin k Hk') as [->|?]; done.
      * intros k' [->|Hk']%list.elem_of_cons; [right; left|]. destruct (Hin k' Hk') as [->|?]; [by left|right; by right].
Qed.

Lemma map_set_nonempty (m : list (string * Node T)) s c : map_set m s c ≠ [].
Proof. destruct m as [|[k x] m]; simpl; [done|]. by destruct (decide (k = s)). Qed.

Lemma data_with_child n s f : data (with_child n s f) = data n.
Proof.
  unfold with_child. destruct (getChild n s); destruct n as [[m|] [c|] str d]; done.
Qed.

Lemma getChild_with_child n s f s' :
  getChild (with_child n s f) s' =
  if decide (s = s') then Some (f (default newNode (getChild n s))) else getChild n s'.
Proof.
  unfold with_child, getChild. destruct n as [[m|] [c|] str d]; cbn [childMap childNode childStr].
  - destruct (map_get m s); simpl; rewrite map_get_set; by destruct (decide (s = s')).
  - destruct (map_get m s); simpl; rewrite map_get_set; by destruct (decide (s = s')).
  - destruct (decide (str = s)) as [->|Hs]; simpl.
    + by destruct (decide (s = s')).
    + rewrite decide_False by done. simpl. destruct (decide (str = s')) as [->|]; [|by destruct (decide (s = s'))].
      by rewrite decide_False by done.
  - simpl. by destruct (decide (s = s')).
Qed.

Lemma shape_with_child n s f : shape n → shape (with_child n s f).
Proof.
  unfold shape, with_child. destruct n as [[m|] [c|] str d]; cbn [getChild childMap childNode childStr].
  - by intros (? & _).
  - intros (_ & Hnd & _). unfold getChild. simpl.
    destruct (map_get m s); simpl; (split_and!; [done|by apply map_set_keys|apply map_set_nonempty]).
  - intros _. unfold getChild. simpl. destruct (decide (str = s)) as [->|Hs]; simpl; [done|].
    split_and!; [done| |done]. simpl. apply NoDup_cons_2; [|apply NoDup_singleton].
    intros Hin%list_elem_of_singleton. done.
  - done.
Qed.

Lemma well_newNode : well newNode.
Proof. intros [|s path] c; simpl; [intros [= <-]; done|done]. Qed.

Lemma lookup_newNode path : lookup newNode path = None.
Proof. by destruct path. Qed.

Lemma insert_path_well path d n : well n → well (insert_path path d n).
Proof.
  revert n. induction path as [|s path IH]; intros n Hw; simpl.
  - apply well_unfold in Hw as [Hs Hc]. apply well_unfold. destruct n as [m c str d']. split; [exact Hs|exact Hc].
  - apply well_unfold in Hw as [Hs Hc]. apply well_unfold. split; [by apply shape_with_child|].
    intros s' c'. rewrite getChild_with_child. destruct (decide (s = s')) as [->|]; [|apply Hc].
    intros [= <-]. apply IH. destruct (getChild n s') as [c|] eqn:E; simpl; [by eapply Hc|apply well_newNode].
Qed.

(** Storing a path changes that path only. *)
Lemma lookup_insert_path path d n q :
  lookup (insert_path path d n) q = if decide (path = q) then Some d else lookup n q.
Proof.
  revert n q. induction path as [|s path IH]; intros n q; simpl.
  - destruct n as [m c str d']. destruct q as [|s q]; [done|]. rewrite decide_False by done. done.
  - unfold lookup. destruct q as [|s' q]; cbn [node_at].
    + by rewrite data_with_child.
    + rewrite getChild_with_child. destruct (decide (s = s')) as [->|Hs]; [|by rewrite decide_False by congruence].
      pose proof (IH (default newNode (getChild n s')) q) as Hq. unfold lookup in Hq at 1.
      destruct (getChild n s') as [c|]; simpl in Hq |- *; rewrite Hq.
      * destruct (decide (path = q)) as [->|]; [by rewrite decide_True|by rewrite decide_False by congruence].
      * destruct (decide (path = q)) as [->|]; [by rewrite decide_True|rewrite decide_False by congruence].
        apply lookup_newNode.
Qed.

(** ** Searching *)

(** The patterns that match a domain, best first: at each label the literal
    before the wildcard, and the suffix pattern last. *)
Fixpoint candidates path : list (list string) :=
  match path with
  | [] => [[]]
  | s :: path => (cons s <$> candidates path) ++ (cons wildcard <$> candidates path) ++ [[dotWildcard]]
  end.

(** A pattern matches a domain: labels are equal or a wildcard, and an empty
    first label stands for one or more labels. *)
Fixpoint matches (pattern path : list string) : Prop :=
  match pattern, path with
  | [], [] => True
  | p :: pattern, s :: path => ((p = s ∨ p = wildcard) ∧ matches pattern path) ∨ (p = dotWildcard ∧ pattern = [])
  | _, _ => False
  end.

Lemma candidates_match pattern path : pattern ∈ candidates path ↔ matches pattern path.
Proof.
  revert pattern. induction path as [|s path IH]; intros pattern; simpl.
  - rewrite list_elem_of_singleton. by destruct pattern.
  - rewrite !elem_of_app, !list_elem_of_fmap, list_elem_of_singleton. destruct pattern as [|p pattern]; simpl.
    + split; [|done]. intros [(y & Hy & _)|[(y & Hy & _)|Hy]]; done.
    + split.
      * intros [(y & [= -> ->] & Hy)|[(y & [= -> ->] & Hy)|[= -> ->]]]; [left|left|by right]; (split; [auto|by apply IH]).
      * intros [[[->| ->] Hm]|[-> ->]]; [left|right; left|by right; right]; exists pattern; (split; [done|by apply IH]).
Qed.

Definition first {A} (l : list (option A)) : option A := head (omap id l).

Lemma first_app {A} (l k : list (option A)) : first (l ++ k) = match first l with Some x => Some x | None => first k end.
Proof. unfold first. rewrite omap_app. by destruct (omap id l). Qed.

Definition data_of (r : option (Node T)) : option T := match r with Some n => data n | None => None end.

Lemma lookup_cons n s path :
  lookup n (s :: path) = match getChild n s with Some c => lookup c path | None => None end.
Proof. unfold lookup. simpl. by destruct (getChild n s). Qed.

Lemma isEmpty_data (r : option (Node T)) : isEmpty r = negb (bool_decide (is_Some (data_of r))).
Proof. by destruct r as [n|]. Qed.

Lemma data_of_nonempty (r : option (Node T)) : data_of (if isEmpty r then None else r) = data_of r.
Proof. rewrite isEmpty_data. destruct (data_of r) eqn:E; simpl; [done|]. done. Qed.

(** Below one child the candidates are those of the rest of the domain. *)
Lemma first_below n s path :
  first (lookup n <$> (cons s <$> candidates path)) =
  match getChild n s with Some c => first (lookup c <$> candidates path) | None => None end.
Proof.
  rewrite <- list_fmap_compose. destruct (getChild n s) as [c|] eqn:E.
  - f_equal. apply list_fmap_ext. intros i q _. simpl. by rewrite lookup_cons, E.
  - induction (candidates path) as [|q l IH]; [done|]. rewrite fmap_cons. unfold first in *. simpl.
    by rewrite lookup_cons, E.
Qed.

Lemma search_candidates n path : data_of (search n path) = first (lookup n <$> candidates path).
Proof.
  revert n. induction path as [|s path IH]; intros n; [unfold first, lookup; simpl; by destruct (data n)|].
  cbn [candidates]. rewrite !fmap_app, !first_app, !first_below.
  set (below k := match getChild n k with Some c => let r := search c path in if isEmpty r then None else r | None => None end).
  change (search n (s :: path)) with
    (match below s with
     | Some r => Some r
     | None => match below wildcard with Some r => Some r | None => getChild n dotWildcard end
     end).
  assert (∀ k, data_of (below k) = match getChild n k with Some c => first (lookup c <$> candidates path) | None => None end) as Hb.
  { intros k. unfold below. destruct (getChild n k) as [c|]; [|done]. cbv zeta. rewrite data_of_nonempty. apply IH. }
  assert (∀ k r, below k = Some r → is_Some (data r)) as Hne.
  { intros k r. unfold below. destruct (getChild n k) as [c|]; [|done]. cbv zeta. rewrite isEmpty_data.
    destruct (search c path) as [x|]; simpl; [|done].
    case_bool_decide; simpl; [by intros [= <-]|done]. }
  rewrite <- !Hb. destruct (below s) as [r|] eqn:E1.
  { simpl. destruct (Hne _ _ E1) as [x ->]. done. }
  destruct (below wildcard) as [r|] eqn:E2.
  { simpl. destruct (Hne _ _ E2) as [x ->]. done. }
  simpl. unfold first. simpl. unfold id. rewrite lookup_cons. unfold lookup. simpl.
  destruct (getChild n dotWildcard) as [c|]; simpl; [|done]. by destruct (data c).
Qed.

(** ** Optimising keeps the contents *)

Lemma getChild_optimize n s : shape n → getChild (optimize n) s = optimize <$> getChild n s.
Proof.
  destruct n as [[m|] c str d]; unfold shape, getChild; cbn [childMap childNode childStr].
  - intros (-> & _ & Hne). destruct m as [|[k x] [|[k' x'] m]]; [done| |].
    + simpl. by destruct (decide (k = s)).
    + simpl. destruct (decide (k = s)); [done|]. destruct (decide (k' = s)); [done|].
      clear Hne. induction m as [|[k2 x2] m IH]; [done|]. simpl. by destruct (decide (k2 = s)).
  - intros _. simpl. destruct c as [c|]; simpl; [|done]. by destruct (decide (str = s)).
Qed.

Lemma data_optimize n : data (optimize n) = data n.
Proof. destruct n as [[[|[k x] [|[k' x'] m]]|] c str d]; done. Qed.

Lemma lookup_optimize n path : well n → lookup (optimize n) path = lookup n path.
Proof.
  revert n. induction path as [|s path IH]; intros n Hw; [apply data_optimize|].
  apply well_unfold in Hw as [Hs Hc]. rewrite !lookup_cons, getChild_optimize by done.
  destruct (getChild n s) as [c|] eqn:E; simpl; [|done]. apply IH. by eapply Hc.
Qed.

Lemma hasNoChild_lookup n s path : hasNoChild n = true → lookup n (s :: path) = None.
Proof.
  rewrite lookup_cons. unfold hasNoChild, getChild. destruct (childMap n); [done|]. by destruct (childNode n).
Qed.

(** ** Visiting *)

(** Induction over a node and its children, in either representation. *)
Lemma Node_children_ind (P : Node T → Prop) :
  (∀ n, Forall (λ kx, P kx.2) (getChildren n) → P n) → ∀ n, P n.
Proof.
  intros HP. fix IH 1. intros [m c s d]. apply HP. destruct m as [l|]; cbn [getChildren childMap childNode].
  - induction l as [|[k x] l IHl]; constructor; [apply IH|exact IHl].
  - destruct c as [c|]; constructor; [apply IH|constructor].
Qed.

(** The loop of [recursion], whatever the representation of the children. *)
Fixpoint children_loop (fn : call_log (T:=T) → bool) items (l : list (string * Node T)) log :=
  match l with
  | [] => (log, true)
  | (key, x) :: l =>
      let '(log, ok) := visit fn (key :: items) x log in
      if ok then let '(log, ok) := recursion fn (key :: items) x log in
                 if ok then children_loop fn items l log else (log, false)
      else (log, false)
  end.

Lemma recursion_unfold fn items n log : recursion fn items n log = children_loop fn items (getChildren n) log.
Proof.
  destruct n as [[m|] [x|] s d]; cbn [getChildren childMap childNode childStr]; try done.
  - revert log. induction m as [|[k y] m IH]; intros log; [done|]. simpl.
    destruct (visit fn (k :: items) y log) as [log1 []]; [|done].
    destruct (recursion fn (k :: items) y log1) as [log2 []]; [|done]. apply IH.
  - revert log. induction m as [|[k y] m IH]; intros log; [done|]. simpl.
    destruct (visit fn (k :: items) y log) as [log1 []]; [|done].
    destruct (recursion fn (k :: items) y log1) as [log2 []]; [|done]. apply IH.
  - simpl. destruct (visit fn (s :: items) x log) as [log1 []]; [|done].
    by destruct (recursion fn (s :: items) x log1) as [log2 []].
Qed.

Definition always : call_log (T:=T) → bool := λ _, true.

(** What a node itself adds to the log. *)
Definition emitted items n : call_log := match data n with Some d => [(joinDomain items, d)] | None => [] end.

Lemma visit_always items n log : visit always items n log = (log ++ emitted items n, true).
Proof. unfold visit, always, emitted. destruct (data n); [done|]. by rewrite app_nil_r. Qed.

(** Everything below a node, when nothing stops the iteration. *)
Definition below items n : call_log := (recursion always items n []).1.

Lemma children_loop_always items l :
  Forall (λ kx, ∀ items log, recursion always items kx.2 log = (log ++ below items kx.2, true)) l →
  ∀ log, children_loop always items l log =
         (log ++ mjoin ((λ kx, emitted (kx.1 :: items) kx.2 ++ below (kx.1 :: items) kx.2) <$> l), true).
Proof.
  induction l as [|[k x] l IH]; intros Hl log; [simpl; by rewrite app_nil_r|].
  apply list.Forall_cons in Hl as [Hx Hl]. simpl in Hx |- *. rewrite visit_always, Hx, IH by done.
  by rewrite <- !(assoc_L (++)).
Qed.

Lemma recursion_always items n log : recursion always items n log = (log ++ below items n, true).
Proof.
  revert items log. induction n as [n IH] using Node_children_ind. intros items log.
  unfold below. rewrite !recursion_unfold, !(children_loop_always items _ IH). done.
Qed.

Lemma elem_of_below items n dom v :
  (dom, v) ∈ below items n ↔
  ∃ k x, (k, x) ∈ getChildren n ∧ ((dom, v) ∈ emitted (k :: items) x ∨ (dom, v) ∈ below (k :: items) x).
Proof.
  unfold below at 1. rewrite recursion_unfold, children_loop_always
    by (apply list.Forall_forall; intros; apply recursion_always).
  simpl. rewrite list_elem_of_join. split.
  - intros (l & Hin & ([k x] & -> & Hk)%list_elem_of_fmap). exists k, x. simpl in Hin. by apply elem_of_app in Hin.
  - intros (k & x & Hk & Hin). exists (emitted (k :: items) x ++ below (k :: items) x). split; [by apply elem_of_app|].
    apply list_elem_of_fmap. by exists (k, x).
Qed.

Lemma getChildren_getChild n k x : shape n → (k, x) ∈ getChildren n ↔ getChild n k = Some x.
Proof.
  unfold shape, getChildren, getChild. destruct (childMap n) as [m|].
  - intros (_ & Hnd & _). induction m as [|[k' y] m IH]; [split; [by intros ?%not_elem_of_nil|done]|].
    rewrite fmap_cons in Hnd. apply list.NoDup_cons in Hnd as [Hn Hnd]. rewrite list.elem_of_cons, IH by done. simpl.
    destruct (decide (k' = k)) as [->|Hk].
    + split; [|by intros [= ->]; left]. intros [[= ->]|Hx]; [done|]. exfalso. apply Hn.
      apply IH in Hx; [|done]. apply list_elem_of_fmap. by exists (k, x).
    + split; [intros [[= -> ->]|?]; done|by right].
  - intros _. destruct (childNode n) as [c|]; [|split; [by intros ?%not_elem_of_nil|done]].
    rewrite list_elem_of_singleton. destruct (decide (childStr n = k)) as [<-|Hk].
    + split; [by intros [= ->]|by intros [= ->]].
    + split; [intros [= -> ->]; done|done].
Qed.

(** Below a node lie exactly the patterns stored there. *)
Lemma below_lookup items n dom v :
  well n → (dom, v) ∈ below items n ↔
  ∃ s path, lookup n (s :: path) = Some v ∧ dom = joinDomain (rev (s :: path) ++ items).
Proof.
  revert items. induction n as [n IH] using Node_children_ind. intros items [Hs Hc]%well_unfold.
  rewrite list.Forall_forall in IH. rewrite elem_of_below. split.
  - intros (k & x & Hin & H). pose proof Hin as Hk. apply getChildren_getChild in Hk; [|done].
    destruct H as [H|H].
    + exists k, []. unfold emitted in H. rewrite lookup_cons, Hk. unfold lookup. simpl.
      destruct (data x) as [d|]; [|by apply not_elem_of_nil in H]. apply list_elem_of_singleton in H. by injection H as -> ->.
    + apply (IH (k, x) Hin) in H as (s & path & Hl & ->); [|by eapply Hc]. exists k, (s :: path).
      rewrite lookup_cons, Hk. split; [done|]. f_equal. simpl. by rewrite <- !app_assoc.
  - intros (s & path & Hl & ->). rewrite lookup_cons in Hl. destruct (getChild n s) as [x|] eqn:Hk; [|done].
    pose proof Hk as Hin. apply getChildren_getChild in Hin; [|done]. exists s, x. split; [done|].
    destruct path as [|s' path]; [left|right].
    + unfold lookup in Hl. simpl in Hl. unfold emitted. rewrite Hl. by apply list_elem_of_singleton.
    + apply (IH (s, x) Hin); [by eapply Hc|]. exists s', path. split; [done|]. f_equal. simpl. by rewrite <- !app_assoc.
Qed.

Lemma foreach_always l log :
  foreach_loop always l log = log ++ mjoin ((λ kx, below [kx.1] kx.2 ++ emitted [kx.1] kx.2) <$> l).
Proof.
  revert log. induction l as [|[k x] l IH]; intros log; [simpl; by rewrite app_nil_r|].
  simpl. rewrite recursion_always. simpl. rewrite visit_always, IH. by rewrite <- !(assoc_L (++)).
Qed.

Lemma Foreach_lookup n dom v :
  well n → (dom, v) ∈ Foreach n always ↔ ∃ s path, lookup n (s :: path) = Some v ∧ dom = joinDomain (rev (s :: path)).
Proof.
  intros Hw. unfold Foreach. rewrite foreach_always. cbn [app].
  assert ((dom, v) ∈ mjoin ((λ kx : string * Node T, below [kx.1] kx.2 ++ emitted [kx.1] kx.2) <$> getChildren n) ↔
          (dom, v) ∈ below [] n) as ->; [|rewrite below_lookup by done; by setoid_rewrite app_nil_r].
  rewrite elem_of_below, list_elem_of_join. split.
  - intros (l & Hin & ([k x] & -> & Hk)%list_elem_of_fmap). exists k, x. simpl in Hin. apply elem_of_app in Hin. tauto.
  - intros (k & x & Hk & Hin). exists (below [k] x ++ emitted [k] x). split; [apply elem_of_app; tauto|].
    apply list_elem_of_fmap. by exists (k, x).
Qed.
End theory.

(** ** Sequences of insertions *)

Section inserts.
Context `{UC : UnicodeCase} {T : Type}.
Implicit Types (root : Node T) (ops : list (string * T)).

(** Domains that are not valid are skipped. *)
Definition build ops : Node T :=
  fold_left (λ root '(dom, d), match Insert root dom d with Ok r => r | Err _ => root end) ops New.

(** The paths a domain is stored under. *)
Definition patterns (dom : string) : list (list string) :=
  match ValidAndSplitDomain dom with
  | Ok (first :: rest) => if decide (first = complexWildcard) then [rev rest; rev (dotWildcard :: rest)]
                          else [rev (first :: rest)]
  | _ => []
  end.

(** The value last inserted for a path. *)
Definition stored ops (path : list string) : option T :=
  last (omap (λ '(dom, d), if decide (path ∈ patterns dom) then Some d else None) ops).

Lemma Insert_spec root dom d :
  well root →
  let root' := match Insert root dom d with Ok r => r | Err _ => root end in
  well root' ∧ ∀ q, lookup root' q = if decide (q ∈ patterns dom) then Some d else lookup root q.
Proof.
  intros Hw. unfold Insert, patterns. destruct (ValidAndSplitDomain dom) as [[|f rest]|e].
  - split; [done|]. intros q. by rewrite decide_False by apply not_elem_of_nil.
  - destruct (decide (f = complexWildcard)); unfold insert.
    + split; [by do 2 apply insert_path_well|]. intros q. rewrite !lookup_insert_path.
      destruct (decide (rev (dotWildcard :: rest) = q)) as [<-|H1]; [by rewrite decide_True by (right; left)|].
      destruct (decide (rev rest = q)) as [<-|H2]; [by rewrite decide_True by left|].
      rewrite decide_False; [done|]. intros [?|[?|?%not_elem_of_nil]%list.elem_of_cons]%list.elem_of_cons; congruence.
    + split; [by apply insert_path_well|]. intros q. rewrite lookup_insert_path.
      destruct (decide (rev (f :: rest) = q)) as [<-|H1]; [by rewrite decide_True by left|].
      rewrite decide_False; [done|]. intros Hq%list_elem_of_singleton. congruence.
  - split; [done|]. intros q. by rewrite decide_False by apply not_elem_of_nil.
Qed.

Lemma build_spec ops : well (build ops) ∧ ∀ q, lookup (build ops) q = stored ops q.
Proof.
  unfold build. induction ops as [|[dom d] ops [IHw IH]] using rev_ind.
  - split; [apply well_newNode|]. intros q. apply lookup_newNode.
  - rewrite fold_left_app. simpl. destruct (Insert_spec (build ops) dom d IHw) as [Hw Hl]. split; [exact Hw|].
    intros q. etrans; [exact (Hl q)|]. unfold stored. rewrite omap_app. simpl.
    destruct (decide (q ∈ patterns dom)); [by rewrite last_snoc|]. rewrite app_nil_r. apply IH.
Qed.

Lemma Search_lookup root dom :
  data_of (Search root dom) =
  match ValidAndSplitDomain dom with
  | Ok (f :: rest) => if decide (f = "") then None else first (lookup root <$> candidates (rev (f :: rest)))
  | _ => None
  end.
Proof.
  unfold Search. destruct (hasNoChild root) eqn:En.
  - destruct (ValidAndSplitDomain dom) as [[|f rest]|]; [done| |done]. destruct (decide (f = "")); [done|].
    assert (∀ path, path ≠ [] → first (lookup root <$> candidates path) = None) as Hnone.
    { intros path Hp. rewrite <- search_candidates. destruct path as [|s path]; [done|]. simpl.
      assert (∀ k, getChild root k = None) as Hg.
      { intros k. unfold hasNoChild in En. unfold getChild. destruct (childMap root); [done|]. by destruct (childNode root). }
      by rewrite !Hg. }
    symmetry. apply Hnone. simpl. by destruct (rev rest).
  - destruct (ValidAndSplitDomain dom) as [[|f rest]|]; [done| |done]. destruct (decide (f = "")); [done|].
    rewrite data_of_nonempty. apply search_candidates.
Qed.

Lemma first_some {A} (l : list (option A)) : is_Some (first l) ↔ ∃ x, Some x ∈ l.
Proof.
  unfold first. split.
  - intros [x Hx]. exists x. apply head_Some_elem_of in Hx. apply list_elem_of_omap in Hx as (o & Ho & Hid).
    unfold id in Hid. by rewrite <- Hid.
  - intros [x Hx]. destruct (omap id l) as [|y k] eqn:E; [|by exists y].
    assert (x ∈ omap id l) as Hin by (apply list_elem_of_omap; by exists (Some x)). rewrite E in Hin. by apply not_elem_of_nil in Hin.
Qed.

Lemma Search_is_Some root dom : is_Some (Search root dom) ↔ is_Some (data_of (Search root dom)).
Proof.
  assert (is_Some (@None (Node T)) ↔ is_Some (data_of (@None (Node T)))) as Hn by (split; by intros [? ?]).
  unfold Search. destruct (hasNoChild root); [done|]. destruct (ValidAndSplitDomain dom) as [[|f rest]|]; try done.
  destruct (decide (f = "")); [done|]. cbv zeta. rewrite isEmpty_data.
  case_bool_decide as Hb; cbn [negb]; [|done]. split; [done|]. destruct (search _ _); [by eexists|by intros [? ?]].
Qed.

(** Something is found exactly when a stored pattern matches. *)
Lemma Search_found ops dom f rest :
  ValidAndSplitDomain dom = Ok (f :: rest) → f ≠ "" →
  is_Some (Search (build ops) dom) ↔ ∃ p, is_Some (stored ops p) ∧ matches p (rev (f :: rest)).
Proof.
  intros Ev Hf. destruct (build_spec ops) as [_ Hl]. rewrite Search_is_Some, Search_lookup, Ev, decide_False by done. rewrite first_some.
  setoid_rewrite list_elem_of_fmap. setoid_rewrite candidates_match. split.
  - intros (x & p & Hp & Hm). exists p. rewrite <- Hl, <- Hp. by split.
  - intros (p & [x Hx] & Hm). exists x, p. by rewrite Hl.
Qed.

Lemma stored_is_Some ops p : is_Some (stored ops p) ↔ ∃ dom d, (dom, d) ∈ ops ∧ p ∈ patterns dom.
Proof.
  unfold stored. rewrite last_is_Some. split.
  - intros Hne. destruct (omap _ ops) as [|x l] eqn:Eo; [done|]. assert (x ∈ x :: l) as Hx by (by left). rewrite <- Eo in Hx.
    apply list_elem_of_omap in Hx as ([dom d] & Hin & Hd). case_decide; [|done]. by exists dom, d.
  - intros (dom & d & Hin & Hp) Hn. apply (not_elem_of_nil d). rewrite <- Hn. apply list_elem_of_omap. exists (dom, d). split; [done|]. by rewrite decide_True.
Qed.
End inserts.

(** ** Properties *)

Section properties.
Context `{UC : UnicodeCase} {T : Type}.

(** C7. Whatever was inserted, in whatever order, and whether or not the trie
    was optimised, searching a valid domain gives the value last inserted for
    the best pattern stored that matches it, where at each label from the right
    the label itself is better than [*] and [*] better than a suffix pattern;
    something is found exactly when a stored pattern matches.  Invalid domains
    and domains with an empty first label find nothing. *)
Theorem trie_search_best (ops : list (string * T)) (optimized : bool) (dom : string) :
  let root := if optimized then optimize (build ops) else build ops in
  match ValidAndSplitDomain dom with
  | Ok (f :: rest) =>
      if decide (f = "") then Search root dom = None
      else data_of (Search root dom) = first (stored ops <$> candidates (rev (f :: rest))) ∧
           (is_Some (Search root dom) ↔ ∃ p, is_Some (stored ops p) ∧ matches p (rev (f :: rest)))
  | _ => Search root dom = None
  end.
Proof.
  intros root. destruct (build_spec ops) as [Hw Hst].
  assert (∀ q, lookup root q = stored ops q) as Hl.
  { intros q. unfold root. destruct optimized; [rewrite lookup_optimize by done|]; apply Hst. }
  pose proof (Search_lookup root dom) as Hs. pose proof (Search_is_Some root dom) as Hd.
  destruct (ValidAndSplitDomain dom) as [[|f rest]|] eqn:Ev.
  - unfold Search. rewrite Ev. by destruct (hasNoChild root).
  - destruct (decide (f = "")) as [->|Hf].
    + unfold Search. rewrite Ev. by destruct (hasNoChild root).
    + rewrite (list_fmap_ext (stored ops) (lookup root)) by (intros; symmetry; apply Hl). split; [done|].
      rewrite Hd, Hs, first_some. setoid_rewrite list_elem_of_fmap. setoid_rewrite candidates_match. split.
      * intros (x & p & Hp & Hm). exists p. rewrite <- Hl, <- Hp. by split.
      * intros (p & [x Hx] & Hm). exists x, p. by rewrite Hl.
  - unfold Search. rewrite Ev. by destruct (hasNoChild root).
Qed.

(** Visiting all entries calls the function with exactly the stored
    patterns and their values. *)
Theorem trie_foreach_complete (ops : list (string * T)) (dom : string) (v : T) :
  (dom, v) ∈ Foreach (build ops) always ↔
  ∃ s path, stored ops (s :: path) = Some v ∧ dom = joinDomain (rev (s :: path)).
Proof.
  destruct (build_spec ops) as [Hw Hst]. rewrite Foreach_lookup by done. by setoid_rewrite Hst.
Qed.
End properties.

(** A function that asks to stop at the first call is called again. *)
Theorem foreach_ignores_stop :
  Foreach (build (UC:=ascii_case) [("a.com", 1%nat); ("b.org", 2%nat)]) (λ _, false) = [("a.com", 1%nat); ("b.org", 2%nat)].
Proof. vm_compute. reflexivity. Qed.
