(* ===== verification/Hosts.v ===== *)
(** * [component/resolver/host.go] and [parseHosts] of [config/config.go]: the hosts table

    The table is a domain trie of addresses and of further names.  Both loops
    follow names through the trie without a bound, so they take fuel and answer
    [None] when it runs out.  The system's hosts file, the interface addresses
    and the random choice of an address are parameters. *)

From Stdlib Require Import ZArith Lia Ascii.
From stdpp Require Import base list strings numbers sorting.
From S2P Require Import Prelude GoStrings GoNet GoNetText DomainTrie.
#[local] Open Scope string_scope.
#[local] Open Scope list_scope.

Record HostValue := mkHost { IsDomain : bool; IPs : list Addr; Domain : string }.

#[export] Instance HostValue_eq_dec : EqDecision HostValue.
Proof. solve_decision. Defined.

Definition NewHostValueByIPs (ips : list Addr) : result string HostValue :=
  match ips with [] => Err "ip list is empty" | _ => Ok (mkHost false ips "") end.

Definition NewHostValueByDomain (domain : string) : result string HostValue :=
  let domain := Trim domain (λ c, bool_decide (c = "."%char)) in
  if (length (Split domain "."%char) <? 2)%nat then Err "invalid domain" else Ok (mkHost true [] domain).

Fixpoint parse_ips (value : list string) : option (list Addr) :=
  match value with
  | [] => Some []
  | str :: value => match ParseAddr str, parse_ips value with
                    | Some ip, Some ips => Some (Unmap ip :: ips)
                    | _, _ => None
                    end
  end.

Definition NewHostValue (value : list string) : result string HostValue :=
  match value with
  | [] => Err "value is empty"
  | [host] => match ParseAddr host with
              | Some ip => NewHostValueByIPs [Unmap ip]
              | None => NewHostValueByDomain host
              end
  | _ => match parse_ips value with Some ips => NewHostValueByIPs ips | None => Err "unable to parse IP" end
  end.

(** [IntN] gives an index below its argument. *)
Definition RandIP (IntN : nat → nat) (hv : HostValue) : option Addr :=
  if IsDomain hv then None else IPs hv !! IntN (length (IPs hv)).

Section hosts.
Context `{UC : UnicodeCase}.

(** The system's table: used unless disabled, for addresses only. *)
Record system_hosts := mkSystem {
  DisableSystemHosts : bool;
  UseSystemHosts : bool;
  LookupStaticHost : string → list string;
}.

Abbreviation tree := (Node HostValue).

Definition find (t : tree) (domain : string) : option HostValue := data_of (DomainTrie.Search t domain).

Fixpoint follow (fuel : nat) (t : tree) (isDomain : bool) (hostValue : HostValue) : option (HostValue * bool) :=
  match fuel with
  | O => None
  | S fuel =>
      if isDomain && IsDomain hostValue then Some (hostValue, true)
      else match find t (Domain hostValue) with
           | Some hostValue => follow fuel t isDomain hostValue
           | None => Some (hostValue, eqb isDomain (IsDomain hostValue))
           end
  end.

Definition Search (fuel : nat) (sys : system_hosts) (t : tree) (domain : string) (isDomain : bool)
    : option (option HostValue * bool) :=
  match find t domain with
  | Some hostValue => match follow fuel t isDomain hostValue with
                      | Some (hv, ok) => Some (Some hv, ok)
                      | None => None
                      end
  | None =>
      if negb isDomain && negb (DisableSystemHosts sys) && UseSystemHosts sys
      then match NewHostValue (LookupStaticHost sys domain) with
           | Ok hv => Some (Some hv, true)
           | Err _ => Some (None, false)
           end
      else Some (None, false)
  end.

(** ** [parseHosts] *)

(** The loop that looks for a cycle: [Some true] if it finds one. *)
Fixpoint cycle_check (fuel : nat) (t : tree) (node : option HostValue) (domain : string) : option bool :=
  match fuel with
  | O => None
  | S fuel =>
      match node with
      | Some hv => if IsDomain hv then
                     if decide (Domain hv = domain) then Some true else cycle_check fuel t (find t (Domain hv)) domain
                   else Some false
      | None => Some false
      end
  end.

(** [lan] is the list of the addresses of the interfaces, [None] if they cannot be read. *)
Definition add_host (fuel : nat) (lan : option (list string)) (t : tree) (domain : string) (hosts : list string)
    : option (result string tree) :=
  let hosts := if decide (hosts = ["lan"]) then default hosts lan else hosts in
  match NewHostValue hosts with
  | Err _ => Some (Err "is not a valid value")
  | Ok value =>
      match (if IsDomain value then cycle_check fuel t (find t (Domain value)) domain else Some false) with
      | None => None
      | Some true => Some (Err "there is a cycle in domain name mapping")
      | Some false => Some (Ok (match Insert t domain value with Ok t => t | Err _ => t end))
      end
  end.

Fixpoint add_hosts (fuel : nat) (lan : option (list string)) (t : tree) (hosts : list (string * list string))
    : option (result string tree) :=
  match hosts with
  | [] => Some (Ok t)
  | (domain, value) :: hosts =>
      match add_host fuel lan t domain value with
      | Some (Ok t) => add_hosts fuel lan t hosts
      | r => r
      end
  end.

Definition default_hosts : tree :=
  match Insert New "localhost" (mkHost false [V4 0x7F000001] "") with Ok t => t | Err _ => New end.

(** [hosts] in the order the map is iterated. *)
Definition parseHosts (fuel : nat) (lan : option (list string)) (hosts : list (string * list string))
    : option (result string tree) :=
  match add_hosts fuel lan default_hosts hosts with
  | Some (Ok t) => Some (Ok (optimize t))
  | r => r
  end.
End hosts.

(** ** Following names *)

Section theory.
Context `{UC : UnicodeCase}.
Abbreviation tree := (Node HostValue).
Implicit Types (t : tree) (v hv : HostValue) (d dom : string).

(** The names reachable from a name come to an end. *)
Inductive ends t : string → Prop :=
| ends_none d : find t d = None → ends t d
| ends_step d hv : find t d = Some hv → ends t (Domain hv) → ends t d.

Lemma follow_ends t isDomain hv : ends t (Domain hv) → ∃ fuel, is_Some (follow fuel t isDomain hv).
Proof.
  intros He. remember (Domain hv) as d eqn:Ed. revert hv Ed.
  induction He as [d Hn|d hv' Hs _ IH]; intros hv ->.
  - exists 1%nat. simpl. destruct (isDomain && IsDomain hv); [done|]. by rewrite Hn.
  - destruct (IH hv' eq_refl) as [fuel Hf]. exists (S fuel). simpl.
    destruct (isDomain && IsDomain hv); [done|]. by rewrite Hs.
Qed.

Lemma Search_ends sys t d isDomain : ends t d → ∃ fuel, is_Some (Search fuel sys t d isDomain).
Proof.
  intros He. unfold Search. destruct (find t d) as [hv|] eqn:Ef.
  - inversion He as [? Hn|? hv' Hs He']; subst; [congruence|]. assert (hv' = hv) as -> by congruence.
    destruct (follow_ends t isDomain hv He') as [fuel [[r ok] Hr]]. exists fuel. by rewrite Hr.
  - exists O. destruct (_ && _); [|done]. by destruct (NewHostValue _).
Qed.

Lemma cycle_check_mono fuel fuel' t node dom b :
  (fuel ≤ fuel')%nat → cycle_check fuel t node dom = Some b → cycle_check fuel' t node dom = Some b.
Proof.
  revert fuel' node. induction fuel as [|fuel IH]; intros fuel' node Hle H; [done|].
  destruct fuel' as [|fuel']; [lia|]. simpl in *. destruct node as [hv|]; [|done].
  destruct (IsDomain hv); [|done]. destruct (decide (Domain hv = dom)); [done|]. apply IH; [lia|done].
Qed.

Lemma cycle_check_ends t d dom : ends t d → ∃ fuel, is_Some (cycle_check fuel t (find t d) dom).
Proof.
  intros He. induction He as [d Hn|d hv Hs _ [fuel IH]].
  - exists 1%nat. simpl. by rewrite Hn.
  - exists (S fuel). rewrite Hs. simpl. destruct (IsDomain hv); [|done]. by destruct (decide (Domain hv = dom)).
Qed.

(** ** Plain names *)

(** A name without wildcards, in lower case. *)
Definition canonical d : Prop := ToLower d = d.
Definition plain dom : Prop :=
  canonical dom ∧ ∃ parts, ValidAndSplitDomain dom = Ok parts ∧ parts ≠ [] ∧
    Forall (λ l, l ≠ wildcard ∧ l ≠ complexWildcard ∧ l ≠ "") parts.

Lemma Valid_parts d parts : ValidAndSplitDomain d = Ok parts → parts = Split (ToLower d) domainStep.
Proof.
  unfold ValidAndSplitDomain. destruct (decide (d = "")); [done|]. destruct (last_byte_is _ _); [done|].
  destruct (negb _); [done|]. destruct (negb _); [done|]. cbv zeta.
  destruct (match Split (ToLower d) domainStep with [] => _ | _ => _ end); [done|].
  destruct (wildcard_error _ _ _); [done|]. by intros [= <-].
Qed.

Lemma same_parts d dom parts :
  canonical d → canonical dom → ValidAndSplitDomain d = Ok parts → ValidAndSplitDomain dom = Ok parts → d = dom.
Proof.
  intros Hd Hdom H1%Valid_parts H2%Valid_parts. rewrite Hd in H1. rewrite Hdom in H2.
  rewrite <- (Join_Split d domainStep), <- (Join_Split dom domainStep). congruence.
Qed.

(** The domain itself is its best pattern. *)
Lemma candidates_self path : ∃ l, candidates path = path :: l.
Proof. induction path as [|s path [l IH]]; simpl; [by exists []|]. rewrite IH. by eexists. Qed.

Lemma matches_plain p path : Forall (λ l, l ≠ wildcard ∧ l ≠ complexWildcard ∧ l ≠ "") p → matches p path → p = path.
Proof.
  revert path. induction p as [|s p IH]; intros [|x path] Hp Hm; try done. apply list.Forall_cons in Hp as [(Hw & _ & He) Hp].
  destruct Hm as [[[->|?] Hm]|[? _]]; [|done..]. f_equal. by apply IH.
Qed.

(** Inserting a plain name changes what is found for that name only. *)
Lemma find_insert t dom v parts d :
  well t → ValidAndSplitDomain dom = Ok parts → parts ≠ [] →
  Forall (λ l, l ≠ wildcard ∧ l ≠ complexWildcard ∧ l ≠ "") parts →
  let t' := match Insert t dom v with Ok t => t | Err _ => t end in
  well t' ∧ find t' d = if decide (ValidAndSplitDomain d = Ok parts) then Some v else find t d.
Proof.
  intros Hw Hv Hne Hp t'. destruct (Insert_spec t dom v Hw) as [Hw' Hl]. fold t' in Hw', Hl. split; [done|].
  assert (patterns dom = [rev parts]) as Hpat.
  { unfold patterns. rewrite Hv. destruct parts as [|f rest]; [done|]. apply list.Forall_cons in Hp as [(_ & Hf & _) _].
    by rewrite decide_False. }
  assert (Forall (λ l, l ≠ wildcard ∧ l ≠ complexWildcard ∧ l ≠ "") (rev parts)) as Hp' by (by apply List.Forall_rev).
  unfold find. rewrite !Search_lookup.
  destruct (ValidAndSplitDomain d) as [[|f rest]|e] eqn:Ed.
  - by rewrite decide_False by congruence.
  - destruct (decide (f = "")) as [->|Hf].
    { rewrite decide_False; [done|]. intros [= <-]. apply list.Forall_cons in Hp as [(_ & _ & ?) _]. done. }
    destruct (decide (Ok (f :: rest) = Ok parts)) as [[= <-]|Hd].
    + destruct (candidates_self (rev (f :: rest))) as [l ->]. rewrite fmap_cons, Hl, Hpat, decide_True by left. done.
    + f_equal. apply list_fmap_ext. intros i q Hq. rewrite Hl, Hpat. rewrite decide_False; [done|].
      intros ->%list_elem_of_singleton. apply list_elem_of_lookup_2 in Hq. apply candidates_match in Hq.
      apply matches_plain in Hq; [|done]. apply (f_equal (@rev string)) in Hq. rewrite !rev_involutive in Hq. congruence.
  - by rewrite decide_False by congruence.
Qed.

(** ** A table of plain names *)

Definition ok_value v : Prop := canonical (Domain v) ∧ (IsDomain v = false → Domain v = "").

Record table_ok t : Prop := {
  table_well : well t;
  table_ends d : ends t d;
  table_values d hv : find t d = Some hv → ok_value hv;
}.

Lemma find_empty t : find t "" = None.
Proof. unfold find. by rewrite Search_lookup. Qed.

(** No name leads back to the new one. *)
Lemma chain_ends t t' dom parts v fuel d :
  ValidAndSplitDomain dom = Ok parts → canonical dom →
  (∀ d, find t' d = if decide (ValidAndSplitDomain d = Ok parts) then Some v else find t d) →
  (∀ d hv, find t d = Some hv → ok_value hv) →
  canonical d → d ≠ dom → cycle_check fuel t (find t d) dom = Some false → ends t' d.
Proof.
  intros Hv Hc Hf Hok. revert d. induction fuel as [|fuel IH]; intros d Hd Hne Hcc; [done|]. simpl in Hcc.
  assert (find t' d = find t d) as Hsame.
  { rewrite Hf, decide_False; [done|]. intros Hdp. apply Hne. by eapply same_parts. }
  destruct (find t d) as [hv|] eqn:Ed; [|by apply ends_none].
  apply (ends_step _ _ hv); [done|]. destruct (Hok _ _ Ed) as [Hcan Hnd]. destruct (IsDomain hv).
  - destruct (decide (Domain hv = dom)); [done|]. by apply IH.
  - rewrite Hnd by done. apply ends_none. apply find_empty.
Qed.

Definition plain_entry (e : string * HostValue) : Prop := plain e.1 ∧ ok_value e.2 ∧ (IsDomain e.2 = true → Domain e.2 ≠ e.1).

Lemma insert_table_ok t dom v fuel :
  table_ok t → plain_entry (dom, v) →
  (if IsDomain v then cycle_check fuel t (find t (Domain v)) dom else Some false) = Some false →
  table_ok (match Insert t dom v with Ok t => t | Err _ => t end).
Proof.
  intros [Hw He Hok] ((Hcan & parts & Hv & Hne & Hp) & Hval & Hself) Hcc. simpl in *.
  set (t' := match Insert t dom v with Ok t => t | Err _ => t end).
  assert (∀ d, find t' d = if decide (ValidAndSplitDomain d = Ok parts) then Some v else find t d) as Hf.
  { intros d. apply (find_insert t dom v parts d Hw Hv Hne Hp). }
  assert (ends t' (Domain v)) as Hend.
  { destruct Hval as [Hcv Hnd]. destruct (IsDomain v) eqn:Ev.
    - eapply chain_ends; [exact Hv|exact Hcan|exact Hf|exact Hok|exact Hcv|by apply Hself|exact Hcc].
    - rewrite Hnd by done. apply ends_none, find_empty. }
  split.
  - apply (find_insert t dom v parts "" Hw Hv Hne Hp).
  - intros d. induction (He d) as [d Hn|d hv Hs _ IH]; destruct (decide (ValidAndSplitDomain d = Ok parts)) as [Hd|Hd].
    + eapply ends_step; [|exact Hend]. by rewrite Hf, decide_True.
    + apply ends_none. by rewrite Hf, decide_False.
    + eapply ends_step; [|exact Hend]. by rewrite Hf, decide_True.
    + eapply ends_step; [|exact IH]. by rewrite Hf, decide_False.
  - intros d hv. rewrite Hf. destruct (decide _); [by intros [= <-]|apply Hok].
Qed.

Lemma find_optimize t d : well t → find (optimize t) d = find t d.
Proof.
  intros Hw. unfold find. rewrite !Search_lookup. destruct (ValidAndSplitDomain d) as [[|f rest]|]; [done| |done].
  destruct (decide (f = "")); [done|]. f_equal. apply list_fmap_ext. intros i q _. by apply lookup_optimize.
Qed.

Lemma ends_optimize t d : well t → ends t d → ends (optimize t) d.
Proof.
  intros Hw He. induction He as [d Hn|d hv Hs _ IH].
  - apply ends_none. by rewrite find_optimize.
  - eapply ends_step; [|exact IH]. by rewrite find_optimize.
Qed.

Lemma default_table_ok : table_ok default_hosts.
Proof.
  assert (table_ok New) as Hnew.
  { assert (∀ d, find (New : tree) d = None) as Hn.
    { intros d. unfold find, DomainTrie.Search. done. }
    split; [apply well_newNode|intros d; by apply ends_none|]. intros d hv. by rewrite Hn. }
  unfold default_hosts. apply (insert_table_ok New "localhost" (mkHost false [V4 0x7F000001] "") 0 Hnew); [|done].
  split_and!; [|done|done]. split; [done|]. exists ["localhost"]. split_and!; [done|done|]. by repeat constructor.
Qed.

(** The values of an entry, with [lan] replaced. *)
Definition entry_values (lan : option (list string)) (hosts : list string) : list string :=
  if decide (hosts = ["lan"]) then default hosts lan else hosts.

Definition plain_hosts (lan : option (list string)) (e : string * list string) : Prop :=
  ∀ v, NewHostValue (entry_values lan e.2) = Ok v → plain_entry (e.1, v).

Lemma add_host_mono fuel fuel' lan t dom hosts r :
  (fuel ≤ fuel')%nat → add_host fuel lan t dom hosts = Some r → add_host fuel' lan t dom hosts = Some r.
Proof.
  intros Hle. unfold add_host. destruct (NewHostValue _) as [v|]; [|done]. destruct (IsDomain v); [|done].
  destruct (cycle_check fuel t (find t (Domain v)) dom) as [b|] eqn:E; [|done].
  by rewrite (cycle_check_mono _ _ _ _ _ _ Hle E).
Qed.

Lemma add_hosts_mono fuel fuel' lan t hosts r :
  (fuel ≤ fuel')%nat → add_hosts fuel lan t hosts = Some r → add_hosts fuel' lan t hosts = Some r.
Proof.
  intros Hle. revert t. induction hosts as [|[dom value] hosts IH]; intros t; simpl; [done|].
  destruct (add_host fuel lan t dom value) as [r'|] eqn:E; [|done]. rewrite (add_host_mono _ _ _ _ _ _ _ Hle E).
  destruct r' as [t'|]; [apply IH|done].
Qed.

Lemma add_host_ok lan t dom hosts :
  table_ok t → plain_hosts lan (dom, hosts) →
  ∃ fuel r, add_host fuel lan t dom hosts = Some r ∧ ∀ t', r = Ok t' → table_ok t'.
Proof.
  intros Ht Hp. specialize (Hp). unfold plain_hosts in Hp. simpl in Hp. unfold add_host. fold (entry_values lan hosts).
  destruct (NewHostValue (entry_values lan hosts)) as [v|e]; [|by exists 0%nat; eexists].
  specialize (Hp v eq_refl). destruct (cycle_check_ends t (Domain v) dom (table_ends _ Ht _)) as [fuel [b Hb]]. exists fuel.
  destruct (if IsDomain v then cycle_check fuel t (find t (Domain v)) dom else Some false) as [[]|] eqn:E.
  - by eexists.
  - eexists. split; [done|]. intros t' [= <-]. by eapply insert_table_ok.
  - destruct (IsDomain v); congruence.
Qed.

Lemma add_hosts_ok lan hosts t :
  table_ok t → Forall (plain_hosts lan) hosts →
  ∃ fuel r, add_hosts fuel lan t hosts = Some r ∧ ∀ t', r = Ok t' → table_ok t'.
Proof.
  revert t. induction hosts as [|[dom value] hosts IH]; intros t Ht Hp.
  - exists 0%nat, (Ok t). split; [done|]. by intros t' [= <-].
  - apply list.Forall_cons in Hp as [Hp Hps]. destruct (add_host_ok lan t dom value Ht Hp) as (f1 & r1 & H1 & Hr1).
    destruct r1 as [t1|e]; [|exists f1, (Err e); simpl; by rewrite H1].
    destruct (IH t1 (Hr1 t1 eq_refl) Hps) as (f2 & r2 & H2 & Hr2). exists (f1 `max` f2)%nat, r2. split; [|done]. simpl.
    rewrite (add_host_mono f1 (f1 `max` f2)%nat _ _ _ _ _ ltac:(lia) H1).
    apply (add_hosts_mono f2 (f1 `max` f2)%nat); [lia|done].
Qed.
End theory.

(** ** Properties *)

Section properties.
Context `{UC : UnicodeCase}.

(** When the names of the table are written in lower case without
    wildcards and no name is mapped to itself, reading the table ends, with an
    error or a table, and every search in that table ends, whatever it asks for. *)
Theorem hosts_plain_terminates (lan : option (list string)) (hosts : list (string * list string)) :
  Forall (plain_hosts lan) hosts →
  ∃ fuel r, parseHosts fuel lan hosts = Some r ∧
    ∀ t, r = Ok t → ∀ sys domain isDomain, ∃ fuel', is_Some (Search fuel' sys t domain isDomain).
Proof.
  intros Hp. destruct (add_hosts_ok lan hosts default_hosts default_table_ok Hp) as (fuel & r & Hr & Hok).
  exists fuel. unfold parseHosts. rewrite Hr. destruct r as [t|e]; [|by eexists]. eexists. split; [done|].
  intros t' [= <-] sys domain isDomain. destruct (Hok t eq_refl) as [Hw He _]. by apply Search_ends, ends_optimize.
Qed.
End properties.

Section ascii_names.
#[local] Existing Instance ascii_case.

(** A name mapped to itself is accepted, and searching an address for it
    never ends; a second name mapped to the first makes reading the table itself
    never end. *)
Theorem hosts_self_mapping_diverges (sys : system_hosts) :
  ∃ t, parseHosts 10 None [("a.com", ["a.com"])] = Some (Ok t) ∧
       (∀ fuel, Search fuel sys t "a.com" false = None) ∧
       ∀ fuel, parseHosts fuel None [("a.com", ["a.com"]); ("b.com", ["a.com"])] = None.
Proof.
  pose (v := mkHost true [] "a.com").
  eexists. split; [vm_compute; reflexivity|]. split.
  - intros fuel. unfold Search. match goal with |- context [find ?t "a.com"] => set (T := t) end.
    assert (find T "a.com" = Some v) as Hf by (vm_compute; reflexivity). rewrite Hf.
    assert (follow fuel T false v = None) as ->; [|done].
    induction fuel as [|fuel IH]; [done|]. cbn [follow andb]. change (Domain v) with "a.com". by rewrite Hf.
  - intros fuel. unfold parseHosts. cbn [add_hosts]. set (T := default_hosts).
    destruct fuel as [|fuel]; [done|].
    assert (add_host (S fuel) None T "a.com" ["a.com"] =
            Some (Ok (match Insert T "a.com" v with Ok t => t | Err _ => T end))) as ->.
    { unfold add_host. change (NewHostValue _) with (Ok v : result string HostValue). cbn [IsDomain v Domain].
      assert (find T "a.com" = None) as -> by (vm_compute; reflexivity). done. }
    set (T' := match Insert T "a.com" v with Ok t => t | Err _ => T end).
    assert (find T' "a.com" = Some v) as Hf by (vm_compute; reflexivity).
    unfold add_host. change (NewHostValue _) with (Ok v : result string HostValue). cbn [IsDomain v Domain]. rewrite Hf.
    assert (∀ fuel, cycle_check fuel T' (Some v) "b.com" = None) as ->; [|done].
    clear fuel. intros fuel. induction fuel as [|fuel IH]; [done|]. cbn [cycle_check].
    change (IsDomain v) with true. change (Domain v) with "a.com". cbv iota.
    rewrite decide_False by done. by rewrite Hf.
Qed.

Lemma hosts_plain_terminates_witness :
  ∃ fuel r, parseHosts fuel None [("a.com", ["b.com"]); ("b.com", ["1.2.3.4"])] = Some r ∧
    ∀ t, r = Ok t → ∀ sys domain isDomain, ∃ fuel', is_Some (Search fuel' sys t domain isDomain).
Proof.
  apply hosts_plain_terminates.
  apply list.Forall_cons; split; [|apply list.Forall_cons; split; [|constructor]]; intros v Hv; vm_compute in Hv;
    injection Hv as <-; (split; [split; [reflexivity|]|split; [split; done|done]]).
  - exists ["a"; "com"]. split; [reflexivity|]. split; [done|]. by repeat constructor.
  - exists ["b"; "com"]. split; [reflexivity|]. split; [done|]. by repeat constructor.
Defined.
End ascii_names.
