(* ===== verification/TlsSniffer.v ===== *)
(** * [component/sniffer/tls_sniffer.go]: the server name of a TLS ClientHello

    The sniffer looks at the bytes received so far and answers with the name,
    rejects, or asks for more bytes.  [ReadClientHello] is written as a tree of
    what it does with its input: [Need n] is the closure [need(n)] followed by an
    early return, [Byte] and [Bytes] index and slice the data, which panics out of
    range.  [run] interprets the tree on data; [None] is a panic, or a loop that
    does not end within its fuel.  Lengths are
    [int]s far from overflow (at most 2^24 + 2^16), kept as [Z]. *)

From Stdlib Require Import ZArith Lia Ascii.
From stdpp Require Import base list strings numbers.
From S2P Require Import Prelude GoStrings GoIO.
#[local] Open Scope string_scope.
#[local] Open Scope list_scope.
#[local] Open Scope Z_scope.

Definition tlsRecordHeaderLen : Z := 5.
Definition tlsHandshakeHeaderLen : Z := 4.
Definition tlsRecordTypeHandshake : Z := 0x16.
Definition tlsHandshakeTypeClientHello : Z := 0x01.
Definition tlsMaxPlaintext : Z := 2 ^ 14.

Inductive answer := ServerName (name : string) | NotTLS | NotClientHello | NoClue.
Inductive verdict := Final (a : answer) | NeedAtLeast (length : Z).

Definition len {A} (l : list A) : Z := Z.of_nat (length l).
Definition at_ (data : list Z) (i : Z) : option Z := if 0 <=? i then data !! Z.to_nat i else None.
Definition bytes_at (data : list Z) (i j : Z) : option (list Z) :=
  if (0 <=? i) && (i <=? j) && (j <=? len data) then Some (take (Z.to_nat (j - i)) (drop (Z.to_nat i) data)) else None.
Definition u16 (a b : Z) : Z := Z.lor (Z.shiftl a 8) b.

(** ** [ReadClientHello] *)

Inductive reader :=
| Answer (a : answer)
| OutOfFuel
| Need (n : Z) (k : reader)
| Byte (i : Z) (k : Z → reader)
| Bytes (i j : Z) (k : list Z → reader).

Fixpoint run (p : reader) (helloSize : Z) (data : list Z) : option verdict :=
  match p with
  | Answer a => Some (Final a)
  | OutOfFuel => None
  | Need n k => if helloSize <? n then Some (Final NotClientHello)
                else if len data <? n then Some (NeedAtLeast n)
                else run k helloSize data
  | Byte i k => match at_ data i with Some b => run (k b) helloSize data | None => None end
  | Bytes i j k => match bytes_at data i j with Some b => run (k b) helloSize data | None => None end
  end.

(** Two bytes at an offset as a length. *)
Definition Length16 (i : Z) (k : Z → reader) : reader := Byte i (λ a, Byte (i + 1) (λ b, k (u16 a b))).

(** The loop over the names of the extension. *)
Fixpoint names_loop (fuel : nat) (offset namesEnd : Z) (k : Z → reader) : reader :=
  match fuel with
  | O => OutOfFuel
  | S fuel =>
      if offset <? namesEnd then
        Need (offset + 3)
         (Byte offset (λ nameType,
          Length16 (offset + 1) (λ nameLen,
          let offset := offset + 3 in
          let nameEnd := offset + nameLen in
          if namesEnd <? nameEnd then Answer NotClientHello
          else
            Need nameEnd
             (if nameType =? 0 then
                Bytes offset nameEnd (λ b,
                  let serverName := to_string b in
                  Answer (if HasSuffix serverName "." then NotClientHello else ServerName serverName))
              else names_loop fuel nameEnd namesEnd k))))
      else k offset
  end.

Fixpoint extensions_loop (fuel : nat) (offset extensionsEnd : Z) : reader :=
  match fuel with
  | O => OutOfFuel
  | S fuel =>
      if offset <? extensionsEnd then
        Need (offset + 4)
         (Length16 offset (λ extension,
          Length16 (offset + 2) (λ length,
          let offset := offset + 4 in
          let extensionEnd := offset + length in
          if extensionsEnd <? extensionEnd then Answer NotClientHello
          else if extension =? 0 then
            if length <? 2 then Answer NotClientHello
            else
              Need (offset + 2)
               (Length16 offset (λ namesLen,
                let offset := offset + 2 in
                let namesEnd := offset + namesLen in
                if negb (namesEnd =? extensionEnd) then Answer NotClientHello
                else names_loop (S (Z.to_nat namesLen)) offset namesEnd (λ offset, extensions_loop fuel offset extensionsEnd)))
          else if extensionEnd =? extensionsEnd then Answer NotTLS
          else Need extensionEnd (extensions_loop fuel extensionEnd extensionsEnd))))
      else Answer NotTLS
  end.

(** The body, given the size of the whole message. *)
Definition hello_body (helloSize : Z) : reader :=
  let offset := tlsHandshakeHeaderLen + 2 + 32 in
  Need (offset + 1) (Byte offset (λ sessionIDLen,
    if 32 <? sessionIDLen then Answer NotClientHello
    else
      let offset := offset + 1 in
      Need (offset + sessionIDLen)
       (let offset := offset + sessionIDLen in
        Need (offset + 2) (Length16 offset (λ cipherSuiteLen,
          if cipherSuiteLen `mod` 2 =? 1 then Answer NotClientHello
          else
            let offset := offset + 2 in
            Need (offset + cipherSuiteLen)
             (let offset := offset + cipherSuiteLen in
              Need (offset + 1) (Byte offset (λ compressionMethodsLen,
                let offset := offset + 1 in
                Need (offset + compressionMethodsLen)
                 (let offset := offset + compressionMethodsLen in
                  if offset =? helloSize then Answer NotClientHello
                  else
                    Need (offset + 2) (Length16 offset (λ extensionsLength,
                      let offset := offset + 2 in
                      let extensionsEnd := offset + extensionsLength in
                      if negb (extensionsEnd =? helloSize) then Answer NotClientHello
                      else extensions_loop (S (Z.to_nat extensionsLength)) offset extensionsEnd))))))))))).

(** The size that the four-byte header announces; [None] is a panic. *)
Definition announcedSize (data : list Z) : option Z :=
  match at_ data 1, at_ data 2, at_ data 3 with
  | Some a, Some b, Some c => Some (tlsHandshakeHeaderLen + Z.lor (Z.lor (Z.shiftl a 16) (Z.shiftl b 8)) c)
  | _, _, _ => None
  end.

Definition clientHelloSize (data : list Z) : option (Z + answer) :=
  if len data <? tlsHandshakeHeaderLen then Some (inr NoClue)
  else match at_ data 0 with
       | None => None
       | Some t => if negb (t =? tlsHandshakeTypeClientHello) then Some (inr NotClientHello) else inl <$> announcedSize data
       end.

Definition ReadClientHello (data : list Z) : option verdict :=
  match data with
  | [] => Some (NeedAtLeast 1)
  | t :: _ =>
      if negb (t =? tlsHandshakeTypeClientHello) then Some (Final NotClientHello)
      else if len data <? tlsHandshakeHeaderLen then Some (NeedAtLeast tlsHandshakeHeaderLen)
      else match clientHelloSize data with
           | None => None
           | Some (inr err) => Some (Final err)
           | Some (inl helloSize) =>
               let data := if helloSize <? len data then take (Z.to_nat helloSize) data else data in
               run (hello_body helloSize) helloSize data
           end
  end.

(** ** [SniffTLS]: the handshake messages of consecutive records *)

Definition IsValidTLSVersion (major minor : Z) : bool := major =? 3.

(** One round of the loop: a verdict, or the hello so far and the next offset. *)
Inductive round := Stop (v : option verdict) | Next (clientHello : list Z) (wireOffset : Z).

Definition sniff_round (b : list Z) (clientHello : list Z) (wireOffset : Z) : round :=
  if len b - wireOffset <? tlsRecordHeaderLen then Stop (Some (NeedAtLeast (wireOffset + tlsRecordHeaderLen)))
  else
    match bytes_at b wireOffset (wireOffset + tlsRecordHeaderLen) with
    | Some [t; major; minor; l1; l2] =>
        if negb (t =? tlsRecordTypeHandshake) || negb (IsValidTLSVersion major minor) then Stop (Some (Final NotTLS))
        else
          let recordLen := u16 l1 l2 in
          if tlsMaxPlaintext <? recordLen then Stop (Some (Final NotTLS))
          else if recordLen =? 0 then Stop (Some (Final NotClientHello))
          else
            let payloadOffset := wireOffset + tlsRecordHeaderLen in
            let recordEnd := payloadOffset + recordLen in
            let payloadEnd := Z.max (Z.min (len b) recordEnd) payloadOffset in
            match bytes_at b payloadOffset payloadEnd with
            | None => Stop None
            | Some payload =>
                let clientHello := if wireOffset =? 0 then payload else clientHello ++ payload in
                match ReadClientHello clientHello with
                | Some (NeedAtLeast n) =>
                    if payloadEnd <? recordEnd
                    then Stop (Some (NeedAtLeast (payloadEnd + Z.min (n - len clientHello) (recordEnd - payloadEnd))))
                    else Next clientHello recordEnd
                | v => Stop v
                end
            end
    | _ => Stop None
    end.

Fixpoint sniff_loop (fuel : nat) (b : list Z) (clientHello : list Z) (wireOffset : Z) : option verdict :=
  match fuel with
  | O => None
  | S fuel => match sniff_round b clientHello wireOffset with
              | Stop v => v
              | Next clientHello wireOffset => sniff_loop fuel b clientHello wireOffset
              end
  end.

(** Every round but the last uses up a record of at least six bytes. *)
Definition SniffTLS (b : list Z) : option verdict := sniff_loop (S (length b)) b [] 0.

(** ** More data does not change an answer *)

Definition byte_list (l : list Z) : Prop := Forall (λ b, 0 ≤ b < 256) l.

Lemma len_app {A} (l k : list A) : len (l ++ k) = len l + len k.
Proof. unfold len. rewrite length_app. lia. Qed.

Lemma len_nonneg {A} (l : list A) : 0 ≤ len l.
Proof. unfold len. lia. Qed.

Lemma at_app data x i b : at_ data i = Some b → at_ (data ++ x) i = Some b.
Proof. unfold at_. destruct (0 <=? i); [|done]. apply lookup_app_l_Some. Qed.

Lemma bytes_at_app data x i j b : bytes_at data i j = Some b → bytes_at (data ++ x) i j = Some b.
Proof.
  unfold bytes_at. destruct ((0 <=? i) && (i <=? j) && (j <=? len data)) eqn:E; [|done]. breflect.
  intros [= <-]. rewrite len_app. pose proof (len_nonneg x). unfold len in *.
  replace ((0 <=? i) && (i <=? j) && (j <=? Z.of_nat (length data) + Z.of_nat (length x))) with true
    by (symmetry; rewrite !andb_true_iff, !Z.leb_le; lia).
  f_equal. rewrite drop_app_le by lia. rewrite take_app_le; [done|]. rewrite length_drop. lia.
Qed.

Lemma run_stable p size data x a : run p size data = Some (Final a) → run p size (data ++ x) = Some (Final a).
Proof.
  revert a. induction p as [a'| |n k IH|i k IH|i j k IH]; intros a; simpl; try done.
  - rewrite len_app. pose proof (len_nonneg x). destruct (size <? n); [done|].
    destruct (Z.ltb_spec (len data) n); [done|]. destruct (Z.ltb_spec (len data + len x) n); [lia|]. apply IH.
  - destruct (at_ data i) as [b|] eqn:E; [|done]. rewrite (at_app _ _ _ _ E). apply IH.
  - destruct (bytes_at data i j) as [b|] eqn:E; [|done]. rewrite (bytes_at_app _ _ _ _ _ E). apply IH.
Qed.

Lemma run_need p size data n : run p size data = Some (NeedAtLeast n) → len data < n ≤ size.
Proof.
  induction p as [a'| |m k IH|i k IH|i j k IH]; simpl; try done.
  - destruct (Z.ltb_spec size m); [done|]. destruct (Z.ltb_spec (len data) m); [|apply IH]. intros [= <-]. lia.
  - destruct (at_ data i); [apply IH|done].
  - destruct (bytes_at data i j); [apply IH|done].
Qed.

Lemma announcedSize_app data x size : announcedSize data = Some size → announcedSize (data ++ x) = Some size.
Proof.
  unfold announcedSize. destruct (at_ data 1) eqn:E1; [|done]. destruct (at_ data 2) eqn:E2; [|done].
  destruct (at_ data 3) eqn:E3; [|done]. by rewrite (at_app _ _ _ _ E1), (at_app _ _ _ _ E2), (at_app _ _ _ _ E3).
Qed.

Lemma truncate_take (size : Z) (data : list Z) :
  0 ≤ size → (if size <? len data then take (Z.to_nat size) data else data) = take (Z.to_nat size) data.
Proof.
  intros Hs. destruct (Z.ltb_spec size (len data)); [done|]. rewrite take_ge; [done|]. unfold len in *. lia.
Qed.

(** The announced size of a list of bytes. *)
Lemma announcedSize_nonneg data size : byte_list data → announcedSize data = Some size → 4 ≤ size.
Proof.
  intros Hb. unfold announcedSize. destruct (at_ data 1) as [a|] eqn:E1; [|done].
  destruct (at_ data 2) as [b|] eqn:E2; [|done]. destruct (at_ data 3) as [c|] eqn:E3; [|done]. intros [= <-].
  assert (∀ i v, at_ data i = Some v → 0 ≤ v) as Hv.
  { intros i v. unfold at_. destruct (0 <=? i); [|done]. intros Hi. apply (list.Forall_lookup_1 _ _ _ _ Hb) in Hi. lia. }
  apply Hv in E1, E2, E3. unfold tlsHandshakeHeaderLen.
  assert (0 ≤ Z.lor (Z.lor (Z.shiftl a 16) (Z.shiftl b 8)) c); [|lia].
  rewrite !Z.lor_nonneg, !Z.shiftl_nonneg. done.
Qed.

(** The guards of [clientHelloSize] never fail after those of [ReadClientHello]. *)
Lemma ReadClientHello_cons t data :
  ReadClientHello (t :: data) =
  (if negb (t =? tlsHandshakeTypeClientHello) then Some (Final NotClientHello)
   else if len (t :: data) <? tlsHandshakeHeaderLen then Some (NeedAtLeast tlsHandshakeHeaderLen)
   else match announcedSize (t :: data) with
        | None => None
        | Some helloSize =>
            run (hello_body helloSize) helloSize
              (if helloSize <? len (t :: data) then take (Z.to_nat helloSize) (t :: data) else t :: data)
        end).
Proof.
  unfold ReadClientHello, clientHelloSize. destruct (negb (t =? _)) eqn:Et; [done|]. destruct (len _ <? _); [done|].
  change (at_ (t :: data) 0) with (Some t). cbv iota. rewrite Et. by destruct (announcedSize (t :: data)).
Qed.

Lemma ReadClientHello_stable data x a :
  byte_list data → ReadClientHello data = Some (Final a) → ReadClientHello (data ++ x) = Some (Final a).
Proof.
  intros Hb. destruct data as [|t data]; [done|]. cbn [app]. rewrite !ReadClientHello_cons.
  destruct (negb (t =? tlsHandshakeTypeClientHello)); [done|].
  change (t :: data ++ x) with ((t :: data) ++ x). rewrite len_app. pose proof (len_nonneg x).
  destruct (Z.ltb_spec (len (t :: data)) tlsHandshakeHeaderLen); [done|].
  destruct (Z.ltb_spec (len (t :: data) + len x) tlsHandshakeHeaderLen); [lia|].
  destruct (announcedSize (t :: data)) as [size|] eqn:E; [|done]. rewrite (announcedSize_app _ _ _ E).
  pose proof (announcedSize_nonneg _ _ Hb E). rewrite <- len_app. cbv zeta. rewrite !truncate_take by lia.
  rewrite take_app. apply run_stable.
Qed.

Lemma ReadClientHello_need data n : byte_list data → ReadClientHello data = Some (NeedAtLeast n) → len data < n.
Proof.
  intros Hb. destruct data as [|t data]; [intros [= <-]; done|]. rewrite ReadClientHello_cons.
  destruct (negb (t =? tlsHandshakeTypeClientHello)); [done|].
  destruct (Z.ltb_spec (len (t :: data)) tlsHandshakeHeaderLen) as [Hl|]; [by intros [= <-]|].
  destruct (announcedSize (t :: data)) as [size|] eqn:E; [|done].
  pose proof (announcedSize_nonneg _ _ Hb E). rewrite truncate_take by lia. intros Hr%run_need.
  unfold len in *. rewrite length_take in Hr. lia.
Qed.

(** ** No panic, and enough fuel *)

(** Every access lies below a length asked for before it. *)
Fixpoint guarded (m : Z) (p : reader) : Prop :=
  match p with
  | Answer _ => True
  | OutOfFuel => False
  | Need n k => guarded (Z.max m n) k
  | Byte i k => 0 ≤ i < m ∧ ∀ b, 0 ≤ b < 256 → guarded m (k b)
  | Bytes i j k => 0 ≤ i ≤ j ∧ j ≤ m ∧ ∀ b, guarded m (k b)
  end.

Lemma guarded_mono m m' p : m ≤ m' → guarded m p → guarded m' p.
Proof.
  revert m m'. induction p as [a| |n k IH|i k IH|i j k IH]; intros m m' Hm; simpl; try done.
  - apply IH. lia.
  - intros [Hi Hk]. split; [lia|]. intros b Hb. apply (IH b m m'); auto.
  - intros (Hi & Hj & Hk). split_and!; [lia|lia|lia|]. intros b. apply (IH b m m'); auto.
Qed.

Lemma at_lookup data i : 0 ≤ i < len data → ∃ b, at_ data i = Some b ∧ data !! Z.to_nat i = Some b.
Proof.
  intros Hi. unfold at_. destruct (Z.leb_spec 0 i); [|lia]. unfold len in Hi.
  destruct (lookup_lt_is_Some_2 data (Z.to_nat i)) as [b Hb]; [lia|]. eauto.
Qed.

Lemma run_guarded p m size data :
  byte_list data → guarded m p → m ≤ len data → is_Some (run p size data).
Proof.
  intros Hb. revert m. induction p as [a| |n k IH|i k IH|i j k IH]; intros m Hg Hm; simpl in *; try done.
  - destruct (size <? n); [done|]. destruct (Z.ltb_spec (len data) n); [done|]. apply (IH (Z.max m n)); [done|lia].
  - destruct Hg as [Hi Hk]. destruct (at_lookup data i) as (b & -> & Hl); [lia|]. apply (IH b m); [|done].
    apply Hk. exact (list.Forall_lookup_1 _ _ _ _ Hb Hl).
  - destruct Hg as (Hi & Hj & Hk). unfold bytes_at.
    replace ((0 <=? i) && (i <=? j) && (j <=? len data)) with true by (symmetry; rewrite !andb_true_iff, !Z.leb_le; lia).
    apply (IH _ m); [apply Hk|done].
Qed.

Lemma u16_nonneg a b : 0 ≤ a < 256 → 0 ≤ b < 256 → 0 ≤ u16 a b.
Proof. intros Ha Hb. unfold u16. rewrite Z.lor_nonneg, Z.shiftl_nonneg. lia. Qed.

Lemma guarded_length16 m i k : 0 ≤ i → i + 1 < m → (∀ n, 0 ≤ n → guarded m (k n)) → guarded m (Length16 i k).
Proof.
  intros Hi Hm Hk. simpl. split; [lia|]. intros a Ha. split; [lia|]. intros b Hb. apply Hk. by apply u16_nonneg.
Qed.

Lemma guarded_names fuel m offset namesEnd k :
  0 ≤ offset → Z.max 0 (namesEnd - offset) < Z.of_nat fuel → (∀ o m', offset ≤ o → m ≤ m' → o ≤ Z.max offset namesEnd → guarded m' (k o)) →
  guarded m (names_loop fuel offset namesEnd k).
Proof.
  revert m offset. induction fuel as [|fuel IH]; intros m offset Ho Hf Hk; [lia|].
  cbn [names_loop]. destruct (Z.ltb_spec offset namesEnd); [|apply Hk; lia]. cbn [guarded]. split; [lia|]. intros nt Hnt.
  apply guarded_length16; [lia|lia|]. intros n Hn. destruct (Z.ltb_spec namesEnd (offset + 3 + n)); [done|]. cbn [guarded].
  destruct (nt =? 0); cbn [guarded]; [split_and!; [lia|lia|lia|done]|]. apply IH; [lia|lia|]. intros o m' Ho' Hm' Hoe. apply Hk; lia.
Qed.

Lemma guarded_extensions fuel m offset extensionsEnd :
  0 ≤ offset → Z.max 0 (extensionsEnd - offset) < Z.of_nat fuel → guarded m (extensions_loop fuel offset extensionsEnd).
Proof.
  revert m offset. induction fuel as [|fuel IH]; intros m offset Ho Hf; [lia|].
  cbn [extensions_loop]. destruct (Z.ltb_spec offset extensionsEnd); [|done]. cbn [guarded].
  apply guarded_length16; [lia|lia|]. intros ext Hext. apply guarded_length16; [lia|lia|]. intros l Hl.
  destruct (Z.ltb_spec extensionsEnd (offset + 4 + l)); [done|]. destruct (ext =? 0).
  - destruct (Z.ltb_spec l 2); [done|]. cbn [guarded]. apply guarded_length16; [lia|lia|]. intros n Hn.
    destruct (Z.eqb_spec (offset + 4 + 2 + n) (offset + 4 + l)); [|done]. cbn [negb].
    apply guarded_names; [lia|lia|]. intros o m' Ho' Hm' Hoe. apply IH; lia.
  - destruct (offset + 4 + l =? extensionsEnd); [done|]. cbn [guarded]. apply IH; lia.
Qed.

Lemma guarded_hello size : guarded 0 (hello_body size).
Proof.
  unfold hello_body, tlsHandshakeHeaderLen. cbn [guarded]. split; [lia|]. intros sid Hsid.
  destruct (32 <? sid); [done|]. cbn [guarded]. apply guarded_length16; [lia|lia|]. intros cs Hcs.
  destruct (cs `mod` 2 =? 1); [done|]. cbn [guarded]. split; [lia|]. intros cm Hcm. destruct (_ =? size); [done|]. cbn [guarded].
  apply guarded_length16; [lia|lia|]. intros el Hel. destruct (negb _); [done|]. apply guarded_extensions; lia.
Qed.

Lemma ReadClientHello_total data : byte_list data → is_Some (ReadClientHello data).
Proof.
  intros Hb. destruct data as [|t data]; [done|]. rewrite ReadClientHello_cons.
  destruct (negb (t =? tlsHandshakeTypeClientHello)); [done|].
  destruct (Z.ltb_spec (len (t :: data)) tlsHandshakeHeaderLen) as [|Hl]; [done|].
  destruct (announcedSize (t :: data)) as [size|] eqn:E.
  - pose proof (announcedSize_nonneg _ _ Hb E). cbv zeta. rewrite truncate_take by lia.
    eapply run_guarded; [by apply Forall_take|apply guarded_hello|apply len_nonneg].
  - exfalso. unfold announcedSize in E. unfold tlsHandshakeHeaderLen in Hl.
    destruct (at_lookup (t :: data) 1) as (a & H1 & _); [lia|]. destruct (at_lookup (t :: data) 2) as (b & H2 & _); [lia|].
    destruct (at_lookup (t :: data) 3) as (c & H3 & _); [lia|]. by rewrite H1, H2, H3 in E.
Qed.

(** ** Records *)

Lemma bytes_at_some data i j : 0 ≤ i ≤ j → j ≤ len data →
  bytes_at data i j = Some (take (Z.to_nat (j - i)) (drop (Z.to_nat i) data)).
Proof.
  intros Hi Hj. unfold bytes_at.
  by replace ((0 <=? i) && (i <=? j) && (j <=? len data)) with true by (symmetry; rewrite !andb_true_iff, !Z.leb_le; lia).
Qed.

Lemma bytes_at_header b w :
  0 ≤ w → tlsRecordHeaderLen ≤ len b - w → byte_list b →
  ∃ t major minor l1 l2, bytes_at b w (w + tlsRecordHeaderLen) = Some [t; major; minor; l1; l2] ∧ 0 ≤ u16 l1 l2.
Proof.
  unfold tlsRecordHeaderLen. intros Hw Hl Hb. rewrite bytes_at_some by lia. replace (w + 5 - w) with 5 by lia.
  assert (length (take (Z.to_nat 5) (drop (Z.to_nat w) b)) = 5%nat) as Hlen
    by (rewrite length_take, length_drop; unfold len in Hl; lia).
  assert (byte_list (take (Z.to_nat 5) (drop (Z.to_nat w) b))) as Hh by (by apply Forall_take, Forall_drop).
  destruct (take (Z.to_nat 5) (drop (Z.to_nat w) b)) as [|t [|a [|c [|l1 [|l2 [|]]]]]]; try done.
  exists t, a, c, l1, l2. split; [done|]. unfold byte_list in Hh.
  apply list.Forall_cons in Hh as [_ Hh]. apply list.Forall_cons in Hh as [_ Hh]. apply list.Forall_cons in Hh as [_ Hh].
  apply list.Forall_cons in Hh as [H1 Hh]. apply list.Forall_cons in Hh as [H2 _]. by apply u16_nonneg.
Qed.

(** What a round does on lists of bytes. *)
Lemma sniff_round_spec b ch w :
  byte_list b → byte_list ch → 0 ≤ w →
  match sniff_round b ch w with
  | Stop None => False
  | Stop (Some (NeedAtLeast n)) => len b < n
  | Stop (Some (Final _)) => True
  | Next ch' w' => byte_list ch' ∧ w + 5 < w' ≤ len b
  end.
Proof.
  intros Hb Hc Hw. unfold sniff_round. destruct (Z.ltb_spec (len b - w) tlsRecordHeaderLen) as [|Hlen];
    [unfold tlsRecordHeaderLen in *; lia|].
  destruct (bytes_at_header b w Hw Hlen Hb) as (t & ma & mi & l1 & l2 & -> & Hu).
  destruct (negb _ || negb _); [done|]. destruct (tlsMaxPlaintext <? u16 l1 l2); [done|].
  destruct (Z.eqb_spec (u16 l1 l2) 0); [done|]. cbv zeta. unfold tlsRecordHeaderLen in *.
  set (recordEnd := w + 5 + u16 l1 l2). set (payloadEnd := Z.max (Z.min (len b) recordEnd) (w + 5)).
  rewrite bytes_at_some by lia. set (payload := take _ _).
  assert (byte_list payload) as Hp by (by apply Forall_take, Forall_drop).
  assert (byte_list (if w =? 0 then payload else ch ++ payload)) as Hch by (destruct (w =? 0); [done|by apply Forall_app]).
  set (ch' := if w =? 0 then payload else ch ++ payload) in *.
  destruct (ReadClientHello ch') as [[a|n']|] eqn:E; [done| |].
  - apply ReadClientHello_need in E; [|done]. destruct (Z.ltb_spec payloadEnd recordEnd); [lia|]. split; [done|lia].
  - destruct (ReadClientHello_total ch' Hch) as [v Hv]. congruence.
Qed.

Lemma sniff_loop_spec fuel b ch w :
  byte_list b → byte_list ch → 0 ≤ w ≤ len b → len b - w < Z.of_nat fuel →
  match sniff_loop fuel b ch w with Some (NeedAtLeast n) => len b < n | Some (Final _) => True | None => False end.
Proof.
  revert ch w. induction fuel as [|fuel IH]; intros ch w Hb Hc Hw Hf; [lia|]. simpl.
  pose proof (sniff_round_spec b ch w Hb Hc) as Hr. destruct (sniff_round b ch w) as [[[]|]|ch' w']; [done| | |].
  - apply Hr. lia.
  - apply Hr. lia.
  - destruct Hr as [Hc' Hw']; [lia|]. apply IH; [done|done|lia|lia].
Qed.

(** A round on more data: an answer stays, and so does a step to the next record. *)
Lemma sniff_round_stable b x ch w :
  byte_list b → byte_list ch → 0 ≤ w →
  match sniff_round b ch w with
  | Stop (Some (Final a)) => sniff_round (b ++ x) ch w = Stop (Some (Final a))
  | Next ch' w' => sniff_round (b ++ x) ch w = Next ch' w'
  | _ => True
  end.
Proof.
  intros Hb Hc Hw. unfold sniff_round. destruct (Z.ltb_spec (len b - w) tlsRecordHeaderLen) as [|Hlen]; [done|].
  rewrite len_app. pose proof (len_nonneg x). destruct (Z.ltb_spec (len b + len x - w) tlsRecordHeaderLen) as [|_]; [lia|].
  destruct (bytes_at_header b w Hw Hlen Hb) as (t & ma & mi & l1 & l2 & Eh & Hu). rewrite Eh, (bytes_at_app _ _ _ _ _ Eh).
  destruct (negb _ || negb _); [done|]. destruct (tlsMaxPlaintext <? u16 l1 l2); [done|].
  destruct (Z.eqb_spec (u16 l1 l2) 0); [done|]. cbv zeta. unfold tlsRecordHeaderLen in *.
  set (recordEnd := w + 5 + u16 l1 l2). rewrite !(bytes_at_some _ (w + 5)) by (rewrite ?len_app; lia).
  set (e1 := Z.max (Z.min (len b) recordEnd) (w + 5)). set (e2 := Z.max (Z.min (len b + len x) recordEnd) (w + 5)).
  set (p1 := take (Z.to_nat (e1 - (w + 5))) (drop (Z.to_nat (w + 5)) b)).
  assert (∃ y, take (Z.to_nat (e2 - (w + 5))) (drop (Z.to_nat (w + 5)) (b ++ x)) = p1 ++ y ∧
               (¬ e1 < recordEnd → y = [])) as (y & -> & Hy).
  { exists (take (Z.to_nat (e2 - e1)) (drop (Z.to_nat e1) (b ++ x))). split.
    - replace (Z.to_nat (e2 - (w + 5))) with (Z.to_nat (e1 - (w + 5)) + Z.to_nat (e2 - e1))%nat by lia.
      rewrite <- take_take_drop. f_equal.
      + unfold p1. rewrite drop_app_le by (unfold len in *; lia). rewrite take_app_le; [done|].
        rewrite length_drop. unfold len in *. lia.
      + rewrite drop_drop. do 2 f_equal. lia.
    - intros Hn. by replace (e2 - e1) with 0 by lia. }
  assert (byte_list p1) as Hp by (by apply Forall_take, Forall_drop).
  set (c1 := if w =? 0 then p1 else ch ++ p1). assert (byte_list c1) as Hc1 by (unfold c1; destruct (w =? 0); [done|by apply Forall_app]).
  assert ((if w =? 0 then p1 ++ y else ch ++ p1 ++ y) = c1 ++ y) as -> by (unfold c1; destruct (w =? 0); [done|by rewrite (assoc_L (++))]).
  destruct (ReadClientHello c1) as [[a|n']|] eqn:E; [|destruct (Z.ltb_spec e1 recordEnd) as [|Hn]; [done|]|done].
  - by rewrite (ReadClientHello_stable c1 y a Hc1 E).
  - rewrite Hy, app_nil_r, E by lia. destruct (Z.ltb_spec e2 recordEnd); [lia|done].
Qed.

Lemma sniff_loop_stable fuel fuel' b x ch w a :
  byte_list b → byte_list ch → 0 ≤ w → (fuel ≤ fuel')%nat →
  sniff_loop fuel b ch w = Some (Final a) → sniff_loop fuel' (b ++ x) ch w = Some (Final a).
Proof.
  revert fuel' ch w. induction fuel as [|fuel IH]; intros fuel' ch w Hb Hc Hw Hf; [done|].
  destruct fuel' as [|fuel']; [lia|]. simpl.
  pose proof (sniff_round_stable b x ch w Hb Hc Hw) as Hs. pose proof (sniff_round_spec b ch w Hb Hc Hw) as Hr.
  destruct (sniff_round b ch w) as [[[a'|]|]|ch' w']; [|done|done|].
  - intros [= ->]. by rewrite Hs.
  - intros Hl. rewrite Hs. apply IH; [done|apply Hr|lia|lia|done].
Qed.

(** Less data than asked for gives the same request again. *)
Lemma run_wait p size data x n :
  run p size data = Some (NeedAtLeast n) → len (data ++ x) < n → run p size (data ++ x) = Some (NeedAtLeast n).
Proof.
  intros Hr Hx. revert Hr. induction p as [a'| |m k IH|i k IH|i j k IH]; simpl; try done.
  - destruct (Z.ltb_spec size m); [done|]. destruct (Z.ltb_spec (len data) m).
    + intros [= <-]. destruct (Z.ltb_spec (len (data ++ x)) m); [done|lia].
    + rewrite len_app in *. pose proof (len_nonneg x). destruct (Z.ltb_spec (len data + len x) m); [lia|]. apply IH.
  - destruct (at_ data i) as [b|] eqn:E; [|done]. rewrite (at_app _ _ _ _ E). apply IH.
  - destruct (bytes_at data i j) as [b|] eqn:E; [|done]. rewrite (bytes_at_app _ _ _ _ _ E). apply IH.
Qed.

Lemma ReadClientHello_wait data x n :
  byte_list data → ReadClientHello data = Some (NeedAtLeast n) → len (data ++ x) < n →
  ReadClientHello (data ++ x) = Some (NeedAtLeast n).
Proof.
  intros Hb. destruct data as [|t data].
  { intros [= <-] Hx. destruct x as [|y x]; [done|]. unfold len in Hx. simpl in Hx. lia. }
  cbn [app]. rewrite !ReadClientHello_cons. destruct (negb (t =? tlsHandshakeTypeClientHello)); [done|].
  change (t :: data ++ x) with ((t :: data) ++ x). destruct (Z.ltb_spec (len (t :: data)) tlsHandshakeHeaderLen).
  { intros [= <-] Hx. by destruct (Z.ltb_spec (len ((t :: data) ++ x)) tlsHandshakeHeaderLen); [|lia]. }
  rewrite len_app. pose proof (len_nonneg x). destruct (Z.ltb_spec (len (t :: data) + len x) tlsHandshakeHeaderLen); [lia|].
  destruct (announcedSize (t :: data)) as [size|] eqn:E; [|done]. rewrite (announcedSize_app _ _ _ E).
  pose proof (announcedSize_nonneg _ _ Hb E). rewrite <- len_app, !truncate_take by lia. rewrite take_app.
  intros Hr Hx. apply run_wait; [done|]. rewrite !len_app in *. unfold len in *. rewrite !length_take. lia.
Qed.

Lemma sniff_round_wait b x ch w n :
  byte_list b → byte_list ch → 0 ≤ w → sniff_round b ch w = Stop (Some (NeedAtLeast n)) → len (b ++ x) < n →
  sniff_round (b ++ x) ch w = Stop (Some (NeedAtLeast n)).
Proof.
  intros Hb Hc Hw. unfold sniff_round. destruct (Z.ltb_spec (len b - w) tlsRecordHeaderLen) as [|Hlen].
  { intros [= <-] Hx. by destruct (Z.ltb_spec (len (b ++ x) - w) tlsRecordHeaderLen); [|lia]. }
  rewrite len_app. pose proof (len_nonneg x). destruct (Z.ltb_spec (len b + len x - w) tlsRecordHeaderLen) as [|_]; [lia|].
  destruct (bytes_at_header b w Hw Hlen Hb) as (t & ma & mi & l1 & l2 & Eh & Hu). rewrite Eh, (bytes_at_app _ _ _ _ _ Eh).
  destruct (negb _ || negb _); [done|]. destruct (tlsMaxPlaintext <? u16 l1 l2); [done|].
  destruct (Z.eqb_spec (u16 l1 l2) 0); [done|]. cbv zeta. unfold tlsRecordHeaderLen in *.
  set (recordEnd := w + 5 + u16 l1 l2). rewrite !(bytes_at_some _ (w + 5)) by (rewrite ?len_app; lia).
  set (e1 := Z.max (Z.min (len b) recordEnd) (w + 5)). set (p1 := take (Z.to_nat (e1 - (w + 5))) (drop (Z.to_nat (w + 5)) b)).
  assert (byte_list p1) as Hp by (by apply Forall_take, Forall_drop).
  set (c1 := if w =? 0 then p1 else ch ++ p1). assert (byte_list c1) as Hc1 by (unfold c1; destruct (w =? 0); [done|by apply Forall_app]).
  destruct (ReadClientHello c1) as [[a|n']|] eqn:E; [done| |done]. destruct (Z.ltb_spec e1 recordEnd) as [He|]; [|done].
  intros [= <-] Hx. assert (e1 = len b) as He1 by lia.
  replace (Z.max (Z.min (len b + len x) recordEnd) (w + 5)) with (len b + len x) by lia.
  assert (take (Z.to_nat (len b + len x - (w + 5))) (drop (Z.to_nat (w + 5)) (b ++ x)) = p1 ++ x) as ->.
  { unfold p1. rewrite He1, drop_app_le by (unfold len in *; lia). rewrite !take_ge; [done|..]; rewrite ?length_app, length_drop; unfold len in *; lia. }
  assert ((if w =? 0 then p1 ++ x else ch ++ p1 ++ x) = c1 ++ x) as -> by (unfold c1; destruct (w =? 0); [done|by rewrite (assoc_L (++))]).
  rewrite (ReadClientHello_wait c1 x n' Hc1 E) by (rewrite len_app; lia). destruct (Z.ltb_spec (len b + len x) recordEnd); [|lia].
  do 3 f_equal. rewrite len_app. lia.
Qed.

Lemma sniff_loop_wait fuel fuel' b x ch w n :
  byte_list b → byte_list ch → 0 ≤ w → (fuel ≤ fuel')%nat →
  sniff_loop fuel b ch w = Some (NeedAtLeast n) → len (b ++ x) < n → sniff_loop fuel' (b ++ x) ch w = Some (NeedAtLeast n).
Proof.
  revert fuel' ch w. induction fuel as [|fuel IH]; intros fuel' ch w Hb Hc Hw Hf; [done|].
  destruct fuel' as [|fuel']; [lia|]. simpl.
  pose proof (sniff_round_stable b x ch w Hb Hc Hw) as Hs. pose proof (sniff_round_spec b ch w Hb Hc Hw) as Hr.
  destruct (sniff_round b ch w) as [[[a'|]|]|ch' w'] eqn:E; [done| |done|].
  - intros [= ->] Hx. by rewrite (sniff_round_wait b x ch w n).
  - intros Hl Hx. rewrite Hs. apply IH; [done|apply Hr|lia|lia|done|done].
Qed.

(** ** A message cut into records *)

Definition u16_list (n : Z) : list Z := [n / 256; n `mod` 256].

(** A handshake record; the minor version is not looked at. *)
Definition record (c : list Z) : list Z := [tlsRecordTypeHandshake; 3; 1] ++ u16_list (len c) ++ c.

Lemma u16_roundtrip_list n : 0 ≤ n < 65536 → u16 (n / 256) (n `mod` 256) = n.
Proof.
  intros Hn. unfold u16. rewrite Z.shiftl_mul_pow2 by lia. change (2 ^ 8) with 256.
  pose proof (Z.add_lor_land (n / 256 * 256) (n `mod` 256)) as Ha. pose proof (Z.div_mod n 256).
  assert (Z.land (n / 256 * 256) (n `mod` 256) = 0) as H0; [|lia].
  apply Z.bits_inj'. intros i Hi. rewrite Z.land_spec, Z.bits_0. change 256 with (2 ^ 8). destruct (Z.ltb_spec i 8).
  - rewrite Z.mul_pow2_bits_low by lia. done.
  - rewrite (Z.mod_pow2_bits_high n 8 i) by lia. apply andb_false_r.
Qed.

Definition chunk_ok (c : list Z) : Prop := c ≠ [] ∧ len c ≤ tlsMaxPlaintext ∧ byte_list c.

Lemma record_bytes c : chunk_ok c → byte_list (record c).
Proof.
  intros (_ & Hl & Hb). unfold record, u16_list, tlsMaxPlaintext in *. pose proof (len_nonneg c).
  apply Forall_app. split; [repeat constructor; unfold tlsRecordTypeHandshake; lia|]. apply Forall_app. split; [|done].
  constructor; [|constructor; [|constructor]].
  - split; [apply Z.div_pos; lia|apply Z.div_lt_upper_bound; lia].
  - apply Z.mod_pos_bound. lia.
Qed.

Lemma records_bytes chunks : Forall chunk_ok chunks → byte_list (mjoin (record <$> chunks)).
Proof.
  induction 1 as [|c chunks Hc _ IH]; [constructor|].
  change (byte_list (record c ++ mjoin (record <$> chunks))). apply Forall_app. split; [by apply record_bytes|done].
Qed.

(** The round that reads one complete record after complete ones. *)
Lemma sniff_round_record before c after ch :
  chunk_ok c → (before = [] → ch = []) →
  sniff_round (before ++ record c ++ after) ch (len before) =
  match ReadClientHello (ch ++ c) with
  | Some (NeedAtLeast _) => Next (ch ++ c) (len (before ++ record c))
  | v => Stop v
  end.
Proof.
  intros (Hne & Hl & Hb) Hch. unfold sniff_round. set (b := before ++ record c ++ after).
  assert (len b = len before + 5 + len c + len after) as Hlb.
  { unfold b, record. rewrite !len_app. unfold len, u16_list. simpl. lia. }
  pose proof (len_nonneg before). pose proof (len_nonneg after). pose proof (len_nonneg c). unfold tlsRecordHeaderLen.
  destruct (Z.ltb_spec (len b - len before) 5); [lia|].
  assert (drop (Z.to_nat (len before)) b = record c ++ after) as Hdrop.
  { unfold b. replace (Z.to_nat (len before)) with (length before) by (unfold len; lia). apply drop_app_length. }
  rewrite bytes_at_some by lia. rewrite Hdrop. replace (len before + 5 - len before) with 5 by lia.
  change (take (Z.to_nat 5) (record c ++ after)) with [tlsRecordTypeHandshake; 3; 1; len c / 256; len c `mod` 256]. cbv iota.
  unfold IsValidTLSVersion. change (3 =? 3) with true. rewrite Z.eqb_refl. cbn [negb orb].
  unfold tlsMaxPlaintext in *. rewrite u16_roundtrip_list by lia.
  destruct (Z.ltb_spec (2 ^ 14) (len c)); [lia|].
  destruct (Z.eqb_spec (len c) 0) as [Hz|_]; [destruct c; [done|unfold len in Hz; simpl in Hz; lia]|]. cbv zeta.
  replace (Z.max (Z.min (len b) (len before + 5 + len c)) (len before + 5)) with (len before + 5 + len c) by lia.
  rewrite bytes_at_some by lia. replace (len before + 5 + len c - (len before + 5)) with (len c) by lia.
  assert (take (Z.to_nat (len c)) (drop (Z.to_nat (len before + 5)) b) = c) as ->.
  { replace (Z.to_nat (len before + 5)) with (Z.to_nat (len before) + 5)%nat by lia. rewrite <- drop_drop, Hdrop.
    change (drop 5 (record c ++ after)) with (c ++ after). replace (Z.to_nat (len c)) with (length c) by (unfold len; lia).
    apply take_app_length. }
  rewrite Z.ltb_irrefl.
  assert ((if len before =? 0 then c else ch ++ c) = ch ++ c) as ->.
  { destruct (Z.eqb_spec (len before) 0) as [Hz|]; [|done]. destruct before; [|unfold len in Hz; simpl in Hz; lia].
    by rewrite (Hch eq_refl). }
  replace (len (before ++ record c)) with (len before + 5 + len c); [by destruct (ReadClientHello (ch ++ c)) as [[]|]|].
  unfold record. rewrite !len_app. unfold len, u16_list. simpl. lia.
Qed.

Lemma sniff_loop_records fuel before ch chunks a :
  Forall chunk_ok chunks → byte_list ch → (before = [] → ch = []) → (length chunks < fuel)%nat → chunks ≠ [] →
  ReadClientHello (ch ++ mjoin chunks) = Some (Final a) →
  sniff_loop fuel (before ++ mjoin (record <$> chunks)) ch (len before) = Some (Final a).
Proof.
  revert fuel before ch. induction chunks as [|c chunks IH]; intros fuel before ch Hcs Hch Hbe Hf Hne Hread; [done|].
  apply list.Forall_cons in Hcs as [Hc Hcs]. destruct fuel as [|fuel]; [simpl in Hf; lia|].
  change (mjoin (record <$> c :: chunks)) with (record c ++ mjoin (record <$> chunks)).
  change (mjoin (c :: chunks)) with (c ++ mjoin chunks) in Hread. cbn [sniff_loop]. rewrite sniff_round_record by done.
  assert (byte_list (ch ++ c)) as Hbc by (apply Forall_app; split; [done|apply Hc]).
  rewrite (assoc_L (++)) in Hread. destruct (ReadClientHello_total _ Hbc) as [[a'|n] E]; rewrite E.
  - by rewrite (ReadClientHello_stable _ (mjoin chunks) _ Hbc E) in Hread.
  - rewrite (assoc_L (++)). apply IH; [done|done| |simpl in Hf; lia| |done].
    + intros Hnil. by destruct before.
    + intros ->. change (mjoin []) with (@nil Z) in Hread. rewrite app_nil_r, E in Hread. done.
Qed.

(** ** Well-formed messages *)

Definition extension : Type := Z * list Z.
Definition ext_bytes (e : extension) : list Z := u16_list e.1 ++ u16_list (len e.2) ++ e.2.

(** The extension of a server name, which may be followed by further names. *)
Definition name_entries (name more : list Z) : list Z := [0] ++ u16_list (len name) ++ name ++ more.
Definition sni_ext (name more : list Z) : extension :=
  (0, u16_list (len (name_entries name more)) ++ name_entries name more).

Record hello := mkHello {
  version_random : list Z;
  session_id : list Z;
  cipher_suites : list Z;
  compression : list Z;
  exts_before : list extension;
  host_name : list Z;
  more_names : list Z;
  exts_after : list Z;
}.

Definition hello_exts (h : hello) : list Z :=
  mjoin (ext_bytes <$> exts_before h) ++ ext_bytes (sni_ext (host_name h) (more_names h)) ++ exts_after h.
Definition hello_rest (h : hello) : list Z :=
  version_random h ++ [len (session_id h)] ++ session_id h ++ u16_list (len (cipher_suites h)) ++ cipher_suites h ++
  [len (compression h)] ++ compression h ++ u16_list (len (hello_exts h)) ++ hello_exts h.
Definition u24_list (n : Z) : list Z := [n / 65536; (n / 256) `mod` 256; n `mod` 256].
Definition hello_bytes (h : hello) : list Z := [tlsHandshakeTypeClientHello] ++ u24_list (len (hello_rest h)) ++ hello_rest h.

Record hello_ok (h : hello) : Prop := {
  ok_version : len (version_random h) = 34;
  ok_session : len (session_id h) ≤ 32;
  ok_ciphers : len (cipher_suites h) < 65536 ∧ len (cipher_suites h) `mod` 2 = 0;
  ok_compression : len (compression h) < 256;
  ok_exts : Forall (λ e : extension, 0 < e.1 < 65536) (exts_before h);
  ok_total : len (hello_exts h) < 65536;
  ok_name : HasSuffix (to_string (host_name h)) "." = false;
}.

Lemma u16_value a b : 0 ≤ a → 0 ≤ b < 256 → u16 a b = a * 256 + b.
Proof.
  intros Ha Hb. unfold u16. rewrite Z.shiftl_mul_pow2 by lia. change (2 ^ 8) with 256.
  pose proof (Z.add_lor_land (a * 256) b) as Hl. assert (Z.land (a * 256) b = 0) as H0; [|lia].
  apply Z.bits_inj'. intros i Hi. rewrite Z.land_spec, Z.bits_0. change 256 with (2 ^ 8). destruct (Z.ltb_spec i 8).
  - rewrite Z.mul_pow2_bits_low by lia. done.
  - rewrite <- (Z.mod_small b (2 ^ 8)) by lia. rewrite (Z.mod_pow2_bits_high b 8 i) by lia. apply andb_false_r.
Qed.

Lemma at_middle (pre post : list Z) b : at_ (pre ++ b :: post) (len pre) = Some b.
Proof.
  unfold at_. pose proof (len_nonneg pre). destruct (Z.leb_spec 0 (len pre)); [|lia].
  replace (Z.to_nat (len pre)) with (length pre) by (unfold len; lia). by rewrite list_lookup_middle.
Qed.

Section parsing.
Context (D : list Z) (size : Z).

Lemma run_need_ok n k : n ≤ size → n ≤ len D → run (Need n k) size D = run k size D.
Proof.
  intros Hs Hd. simpl. destruct (Z.ltb_spec size n); [lia|]. destruct (Z.ltb_spec (len D) n); [lia|done].
Qed.

Lemma run_byte pre b post i k : D = pre ++ b :: post → i = len pre → run (Byte i k) size D = run (k b) size D.
Proof. intros HD ->. simpl. by rewrite HD, at_middle at 1. Qed.

Lemma run_length16 pre n post i k :
  D = pre ++ u16_list n ++ post → i = len pre → 0 ≤ n < 65536 → run (Length16 i k) size D = run (k n) size D.
Proof.
  intros HD -> Hn. unfold Length16. rewrite (run_byte pre (n / 256) (n `mod` 256 :: post)) by done.
  rewrite (run_byte (pre ++ [n / 256]) (n `mod` 256) post).
  - by rewrite u16_roundtrip_list.
  - by rewrite HD, <- app_assoc.
  - rewrite len_app. done.
Qed.

Lemma run_bytes pre b post i j k :
  D = pre ++ b ++ post → i = len pre → j = len pre + len b → run (Bytes i j k) size D = run (k b) size D.
Proof.
  intros HD -> ->. cbn [run]. pose proof (len_nonneg pre). pose proof (len_nonneg b). pose proof (len_nonneg post).
  rewrite bytes_at_some by (rewrite ?HD, ?len_app; lia).
  assert (take (Z.to_nat (len pre + len b - len pre)) (drop (Z.to_nat (len pre)) D) = b) as ->; [|done].
  rewrite HD. replace (Z.to_nat (len pre)) with (length pre) by (unfold len; lia). rewrite drop_app_length.
  replace (Z.to_nat (len pre + len b - len pre)) with (length b) by (unfold len; lia). apply take_app_length.
Qed.
End parsing.

Ltac lens := repeat first [rewrite len_app | progress (unfold u16_list, u24_list) | progress (cbn [fst snd])];
             repeat match goal with |- context [len (?x :: ?l)] => replace (len (x :: l)) with (1 + len l) by (unfold len; simpl; lia) end;
             change (@len Z []) with 0.

Section finding.
Context (D : list Z) (size : Z) (Hsize : size = len D).

Lemma run_sni fuel pre name more post extensionsEnd :
  D = pre ++ ext_bytes (sni_ext name more) ++ post → len pre + len (ext_bytes (sni_ext name more)) ≤ extensionsEnd ≤ size →
  len (sni_ext name more).2 < 65536 → HasSuffix (to_string name) "." = false →
  run (extensions_loop (S fuel) (len pre) extensionsEnd) size D = Some (Final (ServerName (to_string name))).
Proof using Hsize.
  intros HD He Hl Hdot. set (entries := name_entries name more) in *.
  pose proof (len_nonneg pre). pose proof (len_nonneg name). pose proof (len_nonneg more). pose proof (len_nonneg post).
  assert (len entries = 3 + len name + len more) as Hn by (unfold entries, name_entries; lens; lia).
  assert (len (sni_ext name more).2 = 2 + len entries) as Hs by (unfold sni_ext; cbn [snd]; lens; fold entries; lia).
  assert (len (ext_bytes (sni_ext name more)) = 6 + len entries) as Hx by (unfold ext_bytes; lens; lia).
  assert (D = pre ++ u16_list 0 ++ u16_list (2 + len entries) ++ u16_list (len entries) ++
              [0] ++ u16_list (len name) ++ name ++ more ++ post) as HD'.
  { rewrite HD. unfold ext_bytes. rewrite Hs.
    change (sni_ext name more) with (0, u16_list (len entries) ++ [0] ++ u16_list (len name) ++ name ++ more).
    cbn [fst snd]. by rewrite <- !app_assoc. }
  clearbody entries. clear HD.
  assert (size = len pre + 6 + (3 + len name + len more) + len post) as Hsz by (rewrite Hsize, HD'; lens; lia).
  cbn [extensions_loop]. destruct (Z.ltb_spec (len pre) extensionsEnd); [|lia].
  rewrite run_need_ok by lia. erewrite (run_length16 _ _ pre 0) by (first [exact HD'|lia]).
  erewrite (run_length16 _ _ (pre ++ u16_list 0) (2 + len entries)); [|rewrite <- app_assoc; exact HD'|lens; lia|lia].
  destruct (Z.ltb_spec extensionsEnd (len pre + 4 + (2 + len entries))); [lia|]. change (0 =? 0) with true. cbv iota.
  destruct (Z.ltb_spec (2 + len entries) 2); [lia|]. rewrite run_need_ok by lia.
  erewrite (run_length16 _ _ (pre ++ u16_list 0 ++ u16_list (2 + len entries)) (len entries))
    by (first [rewrite <- !app_assoc; exact HD'|lens; lia]).
  destruct (Z.eqb_spec (len pre + 4 + 2 + len entries) (len pre + 4 + (2 + len entries))); [|lia]. cbn [negb names_loop].
  destruct (Z.ltb_spec (len pre + 4 + 2) (len pre + 4 + 2 + len entries)); [|lia]. rewrite run_need_ok by lia.
  erewrite (run_byte _ _ (pre ++ u16_list 0 ++ u16_list (2 + len entries) ++ u16_list (len entries)) 0)
    by (first [rewrite <- !app_assoc; exact HD'|lens; lia]).
  erewrite (run_length16 _ _ (pre ++ u16_list 0 ++ u16_list (2 + len entries) ++ u16_list (len entries) ++ [0]) (len name))
    by (first [rewrite <- !app_assoc; exact HD'|lens; lia]).
  destruct (Z.ltb_spec (len pre + 4 + 2 + len entries) (len pre + 4 + 2 + 3 + len name)); [lia|]. rewrite run_need_ok by lia.
  change (0 =? 0) with true. cbv iota.
  erewrite (run_bytes _ _ (pre ++ u16_list 0 ++ u16_list (2 + len entries) ++ u16_list (len entries) ++ [0] ++ u16_list (len name)) name)
    by (first [rewrite <- !app_assoc; exact HD'|lens; lia]).
  cbn [run]. by rewrite Hdot.
Qed.

Lemma run_extensions fuel exts pre name more post extensionsEnd :
  D = pre ++ mjoin (ext_bytes <$> exts) ++ ext_bytes (sni_ext name more) ++ post →
  extensionsEnd = size → extensionsEnd - len pre < 65536 → extensionsEnd - len pre < Z.of_nat fuel →
  Forall (λ e : extension, 0 < e.1 < 65536) exts → HasSuffix (to_string name) "." = false →
  run (extensions_loop fuel (len pre) extensionsEnd) size D = Some (Final (ServerName (to_string name))).
Proof using Hsize.
  intros HD -> Hl Hf Hexts Hdot. revert fuel pre HD Hl Hf. induction Hexts as [|e exts He Hexts IH]; intros fuel pre HD Hl Hf.
  - assert (size = len pre + len (ext_bytes (sni_ext name more)) + len post) as Hsz by (rewrite Hsize, HD at 1; lens; change (mjoin (ext_bytes <$> [])) with (@nil Z); lens; lia).
    pose proof (len_nonneg post). assert (len (ext_bytes (sni_ext name more)) = 4 + len (sni_ext name more).2) as Hx
      by (unfold ext_bytes; lens; lia). pose proof (len_nonneg (sni_ext name more).2).
    destruct fuel as [|fuel]; [lia|]. eapply run_sni; [exact HD|lia|lia|done].
  - change (mjoin (ext_bytes <$> e :: exts)) with (ext_bytes e ++ mjoin (ext_bytes <$> exts)) in HD.
    set (rest := mjoin (ext_bytes <$> exts) ++ ext_bytes (sni_ext name more) ++ post) in *. rewrite <- app_assoc in HD. fold rest in HD.
    assert (0 < len rest) as Hrest.
    { unfold rest. rewrite !len_app. unfold ext_bytes at 2. rewrite !len_app. pose proof (len_nonneg (mjoin (ext_bytes <$> exts))).
      pose proof (len_nonneg (sni_ext name more).2). pose proof (len_nonneg post). unfold u16_list, len in *. simpl in *. lia. }
    assert (len (ext_bytes e) = 4 + len e.2) as Hx by (unfold ext_bytes; lens; lia). pose proof (len_nonneg e.2). pose proof (len_nonneg pre).
    assert (size = len pre + (4 + len e.2) + len rest) as Hsz by (rewrite Hsize, HD, !len_app; lia).
    destruct fuel as [|fuel]; [lia|]. cbn [extensions_loop]. destruct (Z.ltb_spec (len pre) size); [|lia]. rewrite run_need_ok by lia.
    assert (D = pre ++ u16_list e.1 ++ u16_list (len e.2) ++ e.2 ++ rest) as HD' by (rewrite HD; unfold ext_bytes; by rewrite <- !app_assoc).
    erewrite (run_length16 _ _ pre e.1); [|exact HD'|done|lia].
    erewrite (run_length16 _ _ (pre ++ u16_list e.1) (len e.2)); [|rewrite <- !app_assoc; exact HD'|lens; lia|lia].
    destruct (Z.ltb_spec size (len pre + 4 + len e.2)); [lia|]. destruct (Z.eqb_spec e.1 0); [lia|].
    destruct (Z.eqb_spec (len pre + 4 + len e.2) size); [lia|]. rewrite run_need_ok by lia.
    replace (len pre + 4 + len e.2) with (len (pre ++ ext_bytes e)) by (rewrite len_app; lia).
    apply IH; rewrite ?len_app; [by rewrite <- app_assoc|lia|lia].
Qed.
End finding.

Lemma u24_value n : 0 ≤ n < 2 ^ 24 →
  Z.lor (Z.lor (Z.shiftl (n / 65536) 16) (Z.shiftl ((n / 256) `mod` 256) 8)) (n `mod` 256) = n.
Proof.
  intros Hn. change (2 ^ 24) with 16777216 in Hn.
  assert (Z.lor (Z.shiftl (n / 65536) 16) (Z.shiftl ((n / 256) `mod` 256) 8) = Z.shiftl (n / 256) 8) as ->.
  { replace 16 with (8 + 8) by done. rewrite <- Z.shiftl_shiftl, <- Z.shiftl_lor by lia. f_equal.
    replace (n / 65536) with (n / 256 / 256) by (rewrite Z.div_div by lia; done).
    apply u16_roundtrip_list. split; [apply Z.div_pos; lia|apply Z.div_lt_upper_bound; lia]. }
  change (u16 (n / 256) (n `mod` 256) = n). rewrite u16_value; [|apply Z.div_pos; lia|apply Z.mod_pos_bound; lia].
  pose proof (Z.div_mod n 256). lia.
Qed.

Lemma hello_exts_nonempty h : 0 < len (hello_exts h).
Proof.
  unfold hello_exts. rewrite !len_app. pose proof (len_nonneg (mjoin (ext_bytes <$> exts_before h))).
  pose proof (len_nonneg (exts_after h)). unfold ext_bytes at 2. rewrite !len_app.
  pose proof (len_nonneg (sni_ext (host_name h) (more_names h)).2). unfold u16_list, len in *. simpl in *. lia.
Qed.

Lemma hello_rest_len h :
  hello_ok h → len (hello_rest h) = 40 + len (session_id h) + len (cipher_suites h) + len (compression h) + len (hello_exts h).
Proof. intros [Hv _ _ _ _ _ _]. unfold hello_rest. lens. lia. Qed.

(** The body of a complete message. *)
Lemma run_hello_body h pre :
  let D := pre ++ [len (session_id h)] ++ session_id h ++ u16_list (len (cipher_suites h)) ++ cipher_suites h ++
           [len (compression h)] ++ compression h ++ u16_list (len (hello_exts h)) ++ hello_exts h in
  hello_ok h → len pre = 38 →
  run (hello_body (len D)) (len D) D = Some (Final (ServerName (to_string (host_name h)))).
Proof.
  intros D [Hv Hs [Hc Hc2] Hm He Ht Hn] Hpre. pose proof (hello_exts_nonempty h) as Hpos. remember (len D) as size eqn:Esz.
  pose proof (len_nonneg (session_id h)). pose proof (len_nonneg (cipher_suites h)). pose proof (len_nonneg (compression h)).
  assert (size = 44 + len (session_id h) + len (cipher_suites h) + len (compression h) + len (hello_exts h)) as En
    by (rewrite Esz; unfold D; lens; lia).
  assert (D = (pre ++ [len (session_id h)] ++ session_id h ++ u16_list (len (cipher_suites h)) ++ cipher_suites h ++
           [len (compression h)] ++ compression h ++ u16_list (len (hello_exts h))) ++ hello_exts h) as HD2
    by (unfold D; by rewrite <- !app_assoc).
  assert (D = D) as HD by done. unfold D at 2 in HD. clearbody D. unfold hello_body, tlsHandshakeHeaderLen. cbv zeta. rewrite run_need_ok by lia.
  erewrite (run_byte _ _ pre (len (session_id h))); [|exact HD|lia]. destruct (Z.ltb_spec 32 (len (session_id h))); [lia|].
  rewrite !run_need_ok by lia.
  erewrite (run_length16 _ _ (pre ++ [len (session_id h)] ++ session_id h) (len (cipher_suites h)));
    [|rewrite <- !app_assoc; exact HD|lens; lia|lia].
  rewrite Hc2. change (0 =? 1) with false. cbv iota. rewrite !run_need_ok by lia.
  erewrite (run_byte _ _ (pre ++ [len (session_id h)] ++ session_id h ++ u16_list (len (cipher_suites h)) ++ cipher_suites h) (len (compression h)));
    [|rewrite <- !app_assoc; exact HD|lens; lia].
  rewrite run_need_ok by lia.
  destruct (Z.eqb_spec (4 + 2 + 32 + 1 + len (session_id h) + 2 + len (cipher_suites h) + 1 + len (compression h)) size); [lia|].
  rewrite run_need_ok by lia.
  erewrite (run_length16 _ _ (pre ++ [len (session_id h)] ++ session_id h ++ u16_list (len (cipher_suites h)) ++ cipher_suites h ++
              [len (compression h)] ++ compression h) (len (hello_exts h)));
    [|rewrite <- !app_assoc; exact HD|lens; lia|lia].
  match goal with |- context [negb ?b] => replace (negb b) with false by (symmetry; apply negb_false_iff, Z.eqb_eq; lia) end.
  set (pre2 := pre ++ _) in HD2.
  match goal with |- run (extensions_loop _ ?o _) _ _ = _ => replace o with (len pre2) by (unfold pre2; lens; lia) end.
  apply (run_extensions D size Esz _ (exts_before h) pre2 _ (more_names h) (exts_after h)); [exact HD2| | | |done|done];
    unfold pre2; lens; lia.
Qed.

(** The name of a complete message. *)
Lemma ReadClientHello_finds h :
  hello_ok h → ReadClientHello (hello_bytes h) = Some (Final (ServerName (to_string (host_name h)))).
Proof.
  intros Hok. pose proof (hello_rest_len h Hok) as En. pose proof Hok as [Hv Hs [Hc _] Hm _ Ht _].
  pose proof (len_nonneg (session_id h)). pose proof (len_nonneg (cipher_suites h)). pose proof (len_nonneg (compression h)).
  pose proof (hello_exts_nonempty h). set (n := len (hello_rest h)) in *.
  pose proof (ReadClientHello_cons tlsHandshakeTypeClientHello (u24_list n ++ hello_rest h)) as E.
  change (tlsHandshakeTypeClientHello :: u24_list n ++ hello_rest h) with (hello_bytes h) in E. rewrite E.
  assert (len (hello_bytes h) = 4 + n) as HlD by (unfold hello_bytes; lens; fold n; lia).
  rewrite HlD. unfold tlsHandshakeHeaderLen. destruct (Z.ltb_spec (4 + n) 4); [lia|].
  change (negb _) with false. cbv iota. change (announcedSize (hello_bytes h)) with
    (Some (4 + Z.lor (Z.lor (Z.shiftl (n / 65536) 16) (Z.shiftl ((n / 256) `mod` 256) 8)) (n `mod` 256))).
  rewrite u24_value by (change (2 ^ 24) with 16777216; lia). rewrite Z.ltb_irrefl, <- HlD.
  assert (hello_bytes h = ([tlsHandshakeTypeClientHello] ++ u24_list n ++ version_random h) ++
    [len (session_id h)] ++ session_id h ++ u16_list (len (cipher_suites h)) ++ cipher_suites h ++
    [len (compression h)] ++ compression h ++ u16_list (len (hello_exts h)) ++ hello_exts h) as ->
    by (unfold hello_bytes; fold n; unfold hello_rest; by rewrite <- !app_assoc).
  apply run_hello_body; [done|]. lens. lia.
Qed.

(** ** What the dispatcher relies on *)

Lemma SniffTLS_answers b :
  byte_list b →
  match SniffTLS b with Some (NeedAtLeast n) => len b < n | Some (Final _) => True | None => False end.
Proof. intros Hb. apply sniff_loop_spec; [done|constructor|pose proof (len_nonneg b); lia|unfold len; lia]. Qed.

Lemma SniffTLS_final b x a : byte_list b → SniffTLS b = Some (Final a) → SniffTLS (b ++ x) = Some (Final a).
Proof. intros Hb. apply sniff_loop_stable; [done|constructor|done|rewrite length_app; lia]. Qed.

Lemma SniffTLS_wait b x n :
  byte_list b → SniffTLS b = Some (NeedAtLeast n) → len (b ++ x) < n → SniffTLS (b ++ x) = Some (NeedAtLeast n).
Proof. intros Hb. apply sniff_loop_wait; [done|constructor|done|rewrite length_app; lia]. Qed.

Lemma SniffTLS_finds h chunks :
  hello_ok h → mjoin chunks = hello_bytes h → Forall chunk_ok chunks →
  SniffTLS (mjoin (record <$> chunks)) = Some (Final (ServerName (to_string (host_name h)))).
Proof.
  intros Hok Hj Hc. assert (length chunks ≤ length (mjoin (record <$> chunks)))%nat as Hlen.
  { clear. induction chunks as [|c chunks IH]; [done|].
    change (mjoin (record <$> c :: chunks)) with (record c ++ mjoin (record <$> chunks)). rewrite length_app. simpl. lia. }
  apply (sniff_loop_records _ [] [] chunks); [done|constructor|done|lia|by intros ->|].
  cbn [app]. rewrite Hj. by apply ReadClientHello_finds.
Qed.

(** ** Properties *)

(** On every list of bytes the sniffer returns without a panic, and when it asks for more it asks for more bytes than
    there are.  Its answer does not depend on when it looks at the stream: once it has answered, with a name or an
    error, more data does not change the answer, and until the bytes it asked for are there it repeats its request. *)
Theorem sniff_tls_stable b x :
  byte_list b →
  match SniffTLS b with
  | None => False
  | Some (Final a) => SniffTLS (b ++ x) = Some (Final a)
  | Some (NeedAtLeast n) => len b < n ∧ (len (b ++ x) < n → SniffTLS (b ++ x) = Some (NeedAtLeast n))
  end.
Proof.
  intros Hb. pose proof (SniffTLS_answers b Hb) as Ha. destruct (SniffTLS b) as [[a|n]|] eqn:E; [by apply SniffTLS_final| |done].
  split; [done|]. by apply SniffTLS_wait.
Qed.

(** A client hello that carries a server name, cut into handshake records in any way, is answered with that name,
    whatever follows it. *)
Theorem sniff_tls_finds_name h chunks x :
  hello_ok h → mjoin chunks = hello_bytes h → Forall chunk_ok chunks →
  SniffTLS (mjoin (record <$> chunks) ++ x) = Some (Final (ServerName (to_string (host_name h)))).
Proof. intros Hok Hj Hc. apply SniffTLS_final; [by apply records_bytes|by apply SniffTLS_finds]. Qed.

(** A small message for the witnesses: an unrelated extension, then the name "a.b". *)
Definition small_hello : hello :=
  mkHello (repeat 7 34) [] [0x13; 1] [0] [(43, [2; 3; 4])] [97; 46; 98] [] [].

Lemma small_hello_ok : hello_ok small_hello.
Proof. constructor; first [done | by apply (bool_decide_unpack _) | repeat constructor]. Qed.

Lemma sniff_tls_stable_witness : SniffTLS ([0x17; 3; 1; 0; 80] ++ [1; 2]) = Some (Final NotTLS).
Proof. apply (sniff_tls_stable [0x17; 3; 1; 0; 80] [1; 2]). by apply (bool_decide_unpack _). Defined.

Example sniff_tls_asks : SniffTLS [0x16; 3; 1; 0; 80; 1] = Some (NeedAtLeast 9).
Proof. vm_compute. reflexivity. Qed.

Lemma sniff_tls_finds_name_witness :
  SniffTLS (mjoin (record <$> [take 3 (hello_bytes small_hello); drop 3 (hello_bytes small_hello)]) ++ [1]) =
  Some (Final (ServerName "a.b")).
Proof.
  apply (sniff_tls_finds_name small_hello); [exact small_hello_ok|vm_compute; reflexivity|].
  repeat constructor; try done; by apply (bool_decide_unpack _).
Defined.
