(* ===== verification/BufConn.v ===== *)
(** * [common/net/bufconn.go], [common/net/bufconn_unsafe.go]: buffered connections

    A connection read through a [bufio.Reader] whose buffer the proxy also enlarges
    and edits in place.  The reader is modelled with its array and its two positions,
    so that the copies inside the array are visible; [buffered] is what it holds.
    The connection below delivers reads: some bytes, or an error (a deadline, which
    later reads may survive); after the listed reads it is at its end.  An operation
    that panics (a nil reader, an access out of range) gives [None]. *)

From Stdlib Require Import ZArith Lia.
From stdpp Require Import base list numbers.
From S2P Require Import Prelude.
#[local] Open Scope list_scope.
#[local] Open Scope nat_scope.

(** What one read of the connection gives; a successful read has at least one byte. *)
Inductive event := Data (x : Z) (more : list Z) | Fault.

Record bufioReader := mkReader { buf : list Z; r : nat; w : nat }.
(** [reader] is [None] once [ReadCached] has dropped it. *)
Record BufferedConn := mkConn { reader : option bufioReader; rd : list event; peeked : bool }.

Definition Buffered (b : bufioReader) : nat := w b - r b.
Definition buffered (b : bufioReader) : list Z := take (w b - r b) (drop (r b) (buf b)).

(** [copy(dst[i:], src)] writes [list_inserts i src dst]; the count it returns: *)
Definition copied {A} (i : nat) (src dst : list A) : nat := (length dst - i) `min` length src.

(** A read of the connection into a space of [n > 0] bytes. *)
Definition conn_read (n : nat) (l : list event) : option (list Z) * list event :=
  match l with
  | [] => (None, [])
  | Fault :: l => (None, l)
  | Data x more :: l =>
      let b := x :: more in
      (Some (take n b), match drop n b with [] => l | y :: more => Data y more :: l end)
  end.

(** ** [bufio.Reader] *)

Definition slide (b : bufioReader) : bufioReader :=
  if 0 <? r b then mkReader (list_inserts 0 (buffered b) (buf b)) 0 (w b - r b) else b.

(** [fill]; the flag reports an error of the connection, [None] is the panic on a full buffer. *)
Definition fill (b : bufioReader) (l : list event) : option (bufioReader * list event * bool) :=
  let b := slide b in
  if length (buf b) <=? w b then None
  else match conn_read (length (buf b) - w b) l with
       | (None, l) => Some (b, l, true)
       | (Some x, l) => Some (mkReader (list_inserts (w b) x (buf b)) (r b) (w b + length x), l, false)
       end.

Fixpoint peek_loop (fuel n : nat) (b : bufioReader) (l : list event) : option (bufioReader * list event) :=
  match fuel with
  | O => None
  | S fuel =>
      if (Buffered b <? n) && (Buffered b <? length (buf b)) then
        match fill b l with
        | None => None
        | Some (b, l, true) => Some (b, l)
        | Some (b, l, false) => peek_loop fuel n b l
        end
      else Some (b, l)
  end.

(** Every round but the last adds a byte. *)
Definition reader_peek (n : nat) (b : bufioReader) (l : list event) : option (bufioReader * list event * (list Z * bool)) :=
  match peek_loop (S n) n b l with
  | None => None
  | Some (b, l) =>
      let v := if length (buf b) <? n then (buffered b, false)
               else if Buffered b <? n then (buffered b, false) else (take n (buffered b), true) in
      Some (b, l, v)
  end.

Fixpoint discard_loop (fuel remain : nat) (b : bufioReader) (l : list event) : option (bufioReader * list event * nat * bool) :=
  match fuel with
  | O => None
  | S fuel =>
      let filled := if Buffered b =? 0 then fill b l else Some (b, l, false) in
      match filled with
      | None => None
      | Some (b, l, err) =>
          let skip := Buffered b `min` remain in
          let b := mkReader (buf b) (r b + skip) (w b) in
          if remain - skip =? 0 then Some (b, l, 0, true)
          else if err then Some (b, l, remain - skip, false)
          else discard_loop fuel (remain - skip) b l
      end
  end.

(** [Discard]: how many bytes were skipped, and whether all of them. *)
Definition reader_discard (n : nat) (b : bufioReader) (l : list event) : option (bufioReader * list event * (nat * bool)) :=
  if n =? 0 then Some (b, l, (0, true))
  else match discard_loop (S n) n b l with
       | Some (b, l, remain, ok) => Some (b, l, (n - remain, ok))
       | None => None
       end.

(** [Read] into [n] bytes; [None] in the result is an error of the connection. *)
Definition reader_read (n : nat) (b : bufioReader) (l : list event) : bufioReader * list event * option (list Z) :=
  if n =? 0 then (b, l, Some [])
  else if r b =? w b then
    if length (buf b) <=? n then let '(x, l) := conn_read n l in (b, l, x)
    else match conn_read (length (buf b)) l with
         | (None, l) => (mkReader (buf b) 0 0, l, None)
         | (Some x, l) => (mkReader (list_inserts 0 x (buf b)) (n `min` length x) (length x), l, Some (take n x))
         end
  else let x := take n (buffered b) in (mkReader (buf b) (r b + length x) (w b), l, Some x).

(** ** The operations of [BufferedConn] *)

(** The capacity [newReadBuffer] makes, in the 64 bits of [uint]. *)
Definition bits_Len (n : Z) : Z := if (n <=? 0)%Z then 0 else Z.log2 n + 1.
Definition newReadBuffer (size : nat) : list Z :=
  let newSize := wrap 64 (Z.shiftl 1 (bits_Len (wrap 64 (Z.of_nat size - 1)))) in
  let newSize := if (Z.shiftr (2 ^ 64 - 1) 1 <? newSize)%Z then Z.of_nat size else newSize in
  replicate (Z.to_nat newSize) 0%Z.

Definition grow_reader (size : nat) (b : bufioReader) : bufioReader :=
  if size <=? length (buf b) then b
  else let newBuf := newReadBuffer size in
       mkReader (list_inserts 0 (buffered b) newBuf) 0 (copied 0 (buffered b) newBuf).

Definition append_reader (x : list Z) (b : bufioReader) : bufioReader * bool :=
  let needed := w b - r b + length x in
  let b := if length (buf b) <? needed then grow_reader needed b else b in
  let pos := (Z.of_nat (length (buf b)) - Z.of_nat (w b) - Z.of_nat (length x))%Z in
  if (- Z.of_nat (r b) <=? pos)%Z then
    let b := if (pos <? 0)%Z then mkReader (list_inserts 0 (buffered b) (buf b)) 0 (w b - r b) else b in
    (mkReader (list_inserts (w b) x (buf b)) (r b) (w b + copied (w b) x (buf b)), true)
  else (b, false).

(** [copy(b.buf[len(buf):], ...)] panics when the array is shorter than [buf]. *)
Definition prepend_reader (x : list Z) (b : bufioReader) : option bufioReader :=
  if length x =? 0 then Some b
  else if length x <=? r b then
    Some (mkReader (list_inserts (r b - length x) x (buf b)) (r b - length x) (w b))
  else
    let needed := w b - r b + length x in
    if length (buf b) <? needed then
      let newBuf := newReadBuffer needed in
      if length newBuf <? length x then None
      else Some (mkReader (list_inserts (length x) (buffered b) (list_inserts 0 x newBuf)) 0 needed)
    else
      if length (buf b) <? length x then None
      else Some (mkReader (list_inserts 0 x (list_inserts (length x) (buffered b) (buf b))) 0 needed).

(** [NewBufferedConn] on a connection that is not one already. *)
Definition defaultBufSize : nat := 4096.
Definition NewBufferedConn (l : list event) : BufferedConn :=
  mkConn (Some (mkReader (replicate defaultBufSize 0%Z) 0 0)) l false.

Definition Peek (n : nat) (c : BufferedConn) : option (BufferedConn * (list Z * bool)) :=
  b ← reader c; '(b, l, v) ← reader_peek n b (rd c); Some (mkConn (Some b) l true, v).

Definition Discard (n : nat) (c : BufferedConn) : option (BufferedConn * (nat * bool)) :=
  b ← reader c; '(b, l, v) ← reader_discard n b (rd c); Some (mkConn (Some b) l (peeked c), v).

Definition Read (n : nat) (c : BufferedConn) : option (BufferedConn * option (list Z)) :=
  b ← reader c; let '(b, l, v) := reader_read n b (rd c) in Some (mkConn (Some b) l (peeked c), v).

Definition conn_Buffered (c : BufferedConn) : option nat := Buffered <$> reader c.

Definition Grow (size : nat) (c : BufferedConn) : option BufferedConn :=
  b ← reader c; Some (mkConn (Some (grow_reader size b)) (rd c) (peeked c)).

Definition AppendData (x : list Z) (c : BufferedConn) : option (BufferedConn * bool) :=
  b ← reader c; let '(b, ok) := append_reader x b in Some (mkConn (Some b) (rd c) (peeked c), ok).

Definition PrependData (x : list Z) (c : BufferedConn) : option BufferedConn :=
  if length x =? 0 then Some c
  else b ← reader c; b ← prepend_reader x b; Some (mkConn (Some b) (rd c) (peeked c)).

(** [ReadBuffer] into [n] free bytes. *)
Definition ReadBuffer (n : nat) (c : BufferedConn) : option (BufferedConn * option (list Z)) :=
  match reader c with
  | Some b => if 0 <? Buffered b then Read n c
              else let '(v, l) := conn_read n (rd c) in Some (mkConn (reader c) l (peeked c), v)
  | None => let '(v, l) := conn_read n (rd c) in Some (mkConn None l (peeked c), v)
  end.

(** [ReadCached]; the inner [None] is a nil buffer. *)
Definition ReadCached (c : BufferedConn) : option (BufferedConn * option (list Z)) :=
  match reader c with
  | Some b =>
      if 0 <? Buffered b then
        '(b', l, (x, _)) ← reader_peek (Buffered b) b (rd c);
        '(b', l, _) ← reader_discard (Buffered b) b' l;
        Some (mkConn (Some b') l (peeked c), Some x)
      else Some (mkConn None (rd c) (peeked c), None)
  | None => Some (mkConn None (rd c) (peeked c), None)
  end.

(** ** The reader as a queue of bytes *)

(** The array holds [q] between its positions. *)
Definition rep (b : bufioReader) (q : list Z) : Prop :=
  buf b ≠ [] ∧ ∃ pre post, buf b = pre ++ q ++ post ∧ r b = length pre ∧ w b = length pre + length q.

Lemma rep_buffered b q : rep b q → buffered b = q.
Proof.
  intros (_ & pre & post & Hb & Hr & Hw). unfold buffered. rewrite Hb, Hr, Hw, drop_app_length.
  replace (length pre + length q - length pre) with (length q) by lia. apply take_app_length.
Qed.

Lemma rep_Buffered b q : rep b q → Buffered b = length q.
Proof. intros (_ & pre & post & _ & Hr & Hw). unfold Buffered. lia. Qed.

Lemma rep_capacity b q : rep b q → 0 < length (buf b) ∧ length q ≤ length (buf b).
Proof.
  intros (Hne & pre & post & Hb & _ & _). split; [destruct (buf b); [done|simpl; lia]|]. rewrite Hb, !length_app. lia.
Qed.

Lemma inserts_front {A} (x l : list A) : length x ≤ length l → list_inserts 0 x l = x ++ drop (length x) l.
Proof.
  intros Hl. rewrite <- (take_drop (length x) l) at 1. apply list_inserts_0_r. rewrite length_take. lia.
Qed.

Lemma inserts_middle {A} (pre x old post : list A) :
  length x = length old → list_inserts (length pre) x (pre ++ old ++ post) = pre ++ x ++ post.
Proof.
  intros Hl. rewrite <- (Nat.add_0_r (length pre)), list_inserts_app_r. f_equal. by apply list_inserts_0_r.
Qed.

Lemma inserts_nonempty {A} i (x l : list A) : l ≠ [] → list_inserts i x l ≠ [].
Proof. intros Hl E. apply (f_equal length) in E. rewrite length_inserts in E. by destruct l. Qed.

(** A queue at the front of an array. *)
Lemma rep_front (q l : list Z) : l ≠ [] → length q ≤ length l → rep (mkReader (list_inserts 0 q l) 0 (length q)) q.
Proof.
  intros Hl Hq. split; [by apply inserts_nonempty|].
  exists [], (drop (length q) l). simpl. by rewrite inserts_front.
Qed.

Lemma rep_slide b q : rep b q → rep (slide b) q ∧ (r (slide b) = 0) ∧ length (buf (slide b)) = length (buf b).
Proof.
  intros Hrep. unfold slide. destruct (Nat.ltb_spec 0 (r b)) as [|Hr].
  - rewrite (rep_buffered _ _ Hrep). change (w b - r b) with (Buffered b). rewrite (rep_Buffered _ _ Hrep). split_and!; [|done|by simpl; rewrite length_inserts].
    apply rep_front; [apply Hrep|apply (rep_capacity _ _ Hrep)].
  - split_and!; [done|lia|done].
Qed.

Lemma rep_append b q x :
  rep b q → w b + length x ≤ length (buf b) → rep (mkReader (list_inserts (w b) x (buf b)) (r b) (w b + length x)) (q ++ x).
Proof.
  intros (Hne & pre & post & Hb & Hr & Hw) Hx.
  assert (length x ≤ length post) as Hp by (rewrite Hb, !length_app in Hx; lia).
  assert (list_inserts (w b) x (buf b) = pre ++ (q ++ x) ++ drop (length x) post) as E.
  { rewrite Hb, Hw, <- (take_drop (length x) post) at 1. rewrite <- length_app, (assoc_L (++) pre q).
    rewrite inserts_middle by (rewrite length_take; lia). by rewrite <- !app_assoc. }
  split; [by apply inserts_nonempty|].
  exists pre, (drop (length x) post). simpl. rewrite E, !length_app. split_and!; [done|done|lia].
Qed.

Lemma rep_skip b q n : rep b q → n ≤ length q → rep (mkReader (buf b) (r b + n) (w b)) (drop n q).
Proof.
  intros (Hne & pre & post & Hb & Hr & Hw) Hn. split; [done|]. exists (pre ++ take n q), post. simpl. split_and!.
  - by rewrite Hb, <- !app_assoc, (assoc_L (++) (take n q)), take_drop.
  - rewrite length_app, length_take. lia.
  - rewrite length_app, length_take, length_drop. lia.
Qed.

(** Lengths of slices are [int]s. *)
Definition fits (n : nat) : Prop := (Z.of_nat n < 2 ^ 63)%Z.

Lemma newReadBuffer_capacity size :
  0 < size → fits size → size ≤ length (newReadBuffer size) ∧ length (newReadBuffer size) < 2 * size.
Proof.
  intros Hs Hf. unfold fits in Hf. unfold newReadBuffer. rewrite length_replicate. set (s := Z.of_nat size) in *.
  rewrite (wrap_small 64 (s - 1)) by (unfold unsigned_ok; lia). set (k := bits_Len (s - 1)).
  assert (0 ≤ k ≤ 63 ∧ s ≤ 2 ^ k < 2 * s)%Z as [Hk Hp].
  { unfold k, bits_Len. destruct (Z.leb_spec (s - 1) 0); [change (2 ^ 0)%Z with 1%Z; lia|].
    pose proof (Z.log2_spec (s - 1)) as Hl. pose proof (Z.log2_lt_pow2 (s - 1) 63) as H63. pose proof (Z.log2_nonneg (s - 1)).
    rewrite Z.pow_add_r by lia. rewrite Z.pow_succ_r in Hl by lia. change (2 ^ 1)%Z with 2%Z. lia. }
  rewrite Z.shiftl_1_l, wrap_small.
  - destruct (Z.ltb_spec (Z.shiftr (2 ^ 64 - 1) 1) (2 ^ k)); lia.
  - unfold unsigned_ok. pose proof (Z.pow_le_mono_r 2 k 63). change (2 ^ 64)%Z with (2 * 2 ^ 63)%Z. lia.
Qed.

Lemma newReadBuffer_nonempty size : 0 < size → fits size → newReadBuffer size ≠ [].
Proof. intros Hs Hf E. pose proof (newReadBuffer_capacity size Hs Hf) as [H _]. rewrite E in H. simpl in H. lia. Qed.

Lemma rep_grow size b q :
  rep b q → fits size →
  rep (grow_reader size b) q ∧ size ≤ length (buf (grow_reader size b)) ∧
  length (buf (grow_reader size b)) ≤ Nat.max (length (buf b)) (2 * size).
Proof.
  intros Hrep Hf. unfold grow_reader. destruct (Nat.leb_spec size (length (buf b))); [split; [done|lia]|].
  pose proof (rep_capacity _ _ Hrep) as [_ Hq]. destruct (newReadBuffer_capacity size) as [H1 H2]; [lia|done|].
  rewrite (rep_buffered _ _ Hrep). unfold copied.
  replace ((length (newReadBuffer size) - 0) `min` length q) with (length q) by lia.
  split; [apply rep_front; [apply newReadBuffer_nonempty; [lia|done]|lia]|]. cbn [buf]. rewrite length_inserts. lia.
Qed.

Lemma append_reader_spec x b q :
  rep b q → fits (length q + length x) → (append_reader x b).2 = true ∧ rep (append_reader x b).1 (q ++ x).
Proof.
  intros Hrep Hf. unfold append_reader. change (w b - r b) with (Buffered b). rewrite (rep_Buffered _ _ Hrep).
  set (b' := if length (buf b) <? length q + length x then grow_reader (length q + length x) b else b).
  assert (rep b' q ∧ length q + length x ≤ length (buf b')) as [Hrep' Hcap].
  { unfold b'. destruct (Nat.ltb_spec (length (buf b)) (length q + length x)); [|done].
    destruct (rep_grow (length q + length x) b q Hrep Hf) as (? & ? & _). done. }
  clearbody b'. clear b Hrep. cbv zeta. pose proof (rep_Buffered _ _ Hrep') as HB. unfold Buffered in HB.
  assert (r b' ≤ w b' ∧ w b' ≤ length (buf b')) as [Hrw Hw].
  { destruct Hrep' as (_ & pre & post & E & ? & ?). rewrite E, !length_app. lia. }
  destruct (Z.leb_spec (- Z.of_nat (r b')) (Z.of_nat (length (buf b')) - Z.of_nat (w b') - Z.of_nat (length x))); [|lia].
  split; [done|]. destruct (Z.ltb_spec (Z.of_nat (length (buf b')) - Z.of_nat (w b') - Z.of_nat (length x)) 0).
  - rewrite (rep_buffered _ _ Hrep'), HB. cbn [buf r w fst].
    assert (copied (length q) x (list_inserts 0 q (buf b')) = length x) as -> by (unfold copied; rewrite length_inserts; lia).
    apply (rep_append (mkReader (list_inserts 0 q (buf b')) 0 (length q)) q x); [apply rep_front; [apply Hrep'|lia]|].
    cbn [buf w]. rewrite length_inserts. lia.
  - cbn [fst]. assert (copied (w b') x (buf b') = length x) as -> by (unfold copied; lia). apply rep_append; [done|lia].
Qed.

Lemma prepend_reader_spec x b q :
  rep b q → fits (length q + length x) → ∃ b', prepend_reader x b = Some b' ∧ rep b' (x ++ q).
Proof.
  intros Hrep Hf. pose proof Hrep as (Hne & pre & post & Hb & Hr & Hw). unfold prepend_reader. change (w b - r b) with (Buffered b).
  rewrite (rep_Buffered _ _ Hrep), (rep_buffered _ _ Hrep).
  destruct (Nat.eqb_spec (length x) 0) as [->%nil_length_inv|Hx]; [by exists b|]. destruct (Nat.leb_spec (length x) (r b)).
  - eexists. split; [done|]. split; [by apply inserts_nonempty|]. exists (take (length pre - length x) pre), post. cbn [buf r w].
    rewrite length_take, length_app. split_and!; [|lia|lia]. rewrite Hb, Hr. rewrite <- (take_drop (length pre - length x) pre) at 2.
    rewrite <- !app_assoc. replace (length pre - length x) with (length (take (length pre - length x) pre)) at 1 by (rewrite length_take; lia).
    apply inserts_middle. rewrite length_drop. lia.
  - destruct (Nat.ltb_spec (length (buf b)) (length q + length x)).
    + destruct (newReadBuffer_capacity (length q + length x)) as [H1 _]; [lia|done|].
      set (nb := newReadBuffer (length q + length x)) in *. destruct (Nat.ltb_spec (length nb) (length x)); [lia|]. eexists. split; [done|].
      split; [by apply inserts_nonempty, inserts_nonempty; destruct nb; [simpl in *; lia|]|]. exists [], (drop (length q) (drop (length x) nb)). cbn [buf r w app].
      split_and!; [|done|rewrite length_app; simpl; lia]. rewrite inserts_front by lia.
      rewrite <- (Nat.add_0_r (length x)) at 1. rewrite list_inserts_app_r, inserts_front by (rewrite length_drop; lia). by rewrite <- app_assoc.
    + destruct (Nat.ltb_spec (length (buf b)) (length x)); [lia|]. eexists. split; [done|]. split; [by apply inserts_nonempty, inserts_nonempty|].
      exists [], (drop (length q) (drop (length x) (buf b))). cbn [buf r w app]. split_and!; [|done|rewrite length_app; simpl; lia].
      set (l := buf b) in *. rewrite <- (take_drop (length x) l) at 1.
      replace (list_inserts (length x) q (take (length x) l ++ drop (length x) l))
        with (take (length x) l ++ list_inserts 0 q (drop (length x) l))
        by (rewrite <- list_inserts_app_r, length_take; f_equal; lia).
      rewrite list_inserts_0_r by (rewrite length_take; lia). rewrite (inserts_front q) by (rewrite length_drop; lia). by rewrite <- app_assoc.
Qed.

(** ** Reading from the connection *)

(** The bytes a connection still delivers, and those before its next error. *)
Fixpoint stream (l : list event) : list Z :=
  match l with [] => [] | Fault :: l => stream l | Data x more :: l => (x :: more) ++ stream l end.
Fixpoint arrives (l : list event) : list Z :=
  match l with [] => [] | Fault :: l => [] | Data x more :: l => (x :: more) ++ arrives l end.

Lemma conn_read_spec n l :
  0 < n →
  match conn_read n l with
  | (Some x, l') => x ≠ [] ∧ length x ≤ n ∧ stream l = x ++ stream l' ∧ arrives l = x ++ arrives l'
  | (None, l') => stream l = stream l' ∧ arrives l = []
  end.
Proof.
  intros Hn. destruct l as [|[x more|] l]; simpl; [done| |done]. destruct n as [|n]; [lia|]. simpl.
  split; [done|]. split; [rewrite length_take; lia|]. pose proof (take_drop n more) as Ht.
  destruct (drop n more) as [|y more']; simpl in *; split; f_equal; rewrite <- Ht at 1; rewrite <- ?app_assoc, ?app_nil_r; done.
Qed.

Lemma fill_spec b l q :
  rep b q → length q < length (buf b) →
  ∃ b' l' err x, fill b l = Some (b', l', err) ∧ rep b' (q ++ x) ∧ length (buf b') = length (buf b) ∧ stream l = x ++ stream l' ∧
    (if err then x = [] ∧ arrives l = [] else x ≠ [] ∧ arrives l = x ++ arrives l').
Proof.
  intros Hrep Hq. unfold fill. destruct (rep_slide b q Hrep) as (Hs & Hr0 & Hlen). pose proof (rep_Buffered _ _ Hs) as HB. unfold Buffered in HB.
  destruct (Nat.leb_spec (length (buf (slide b))) (w (slide b))); [lia|].
  pose proof (conn_read_spec (length (buf (slide b)) - w (slide b)) l) as Hc.
  destruct (conn_read (length (buf (slide b)) - w (slide b)) l) as [[x|] l'].
  - destruct Hc as (Hx & Hl & Hst & Har); [lia|]. eexists _, l', false, x. split; [done|]. split; [apply rep_append; [done|lia]|].
    cbn [buf]. rewrite length_inserts. done.
  - destruct Hc as [Hst Har]; [lia|]. eexists _, l', true, []. rewrite app_nil_r. done.
Qed.

Lemma peek_loop_spec fuel n b l q :
  rep b q → n - length q < fuel →
  ∃ b' l' x, peek_loop fuel n b l = Some (b', l') ∧ rep b' (q ++ x) ∧ length (buf b') = length (buf b) ∧ stream l = x ++ stream l' ∧
    (n ≤ length (q ++ x) → arrives l = x ++ arrives l') ∧
    (n ≤ length (buf b) → n ≤ length q + length (arrives l) → n ≤ length (q ++ x)).
Proof.
  revert b l q. induction fuel as [|fuel IH]; intros b l q Hrep Hf; [lia|]. cbn [peek_loop]. rewrite (rep_Buffered _ _ Hrep).
  destruct ((length q <? n) && (length q <? length (buf b))) eqn:E.
  - apply andb_true_iff in E as [E1%Nat.ltb_lt E2%Nat.ltb_lt].
    destruct (fill_spec b l q Hrep E2) as (b1 & l1 & err & x & -> & Hrep1 & Hlen1 & Hst & Herr). destruct err.
    + destruct Herr as [-> Har]. exists b1, l1, []. rewrite Har. split_and!; auto; rewrite app_nil_r; simpl; intros; lia.
    + destruct Herr as [Hx Har]. destruct (IH b1 l1 (q ++ x) Hrep1) as (b2 & l2 & y & Hp & Hrep2 & Hlen2 & Hst2 & Har2 & Hen2);
        [rewrite length_app; destruct x; [done|simpl; lia]|].
      exists b2, l2, (x ++ y). rewrite Hst, Hst2, Hlen2, Hlen1, Har, !(assoc_L (++)). split_and!; auto.
      * intros Hn. rewrite <- app_assoc. by rewrite <- Har2.
      * intros Hc Hn. apply Hen2; [lia|]. rewrite !length_app in *. lia.
  - exists b, l, []. rewrite app_nil_r. split_and!; auto. intros Hc Hn.
    apply andb_false_iff in E as [E%Nat.ltb_ge|E%Nat.ltb_ge]; lia.
Qed.

Lemma reader_peek_spec n b l q :
  rep b q →
  ∃ b' l' x, rep b' (q ++ x) ∧ length (buf b') = length (buf b) ∧ stream l = x ++ stream l' ∧
    reader_peek n b l = Some (b', l', if bool_decide (n ≤ length (q ++ x)) then (take n (q ++ x), true) else (q ++ x, false)) ∧
    (n ≤ length (q ++ x) → arrives l = x ++ arrives l') ∧
    (n ≤ length (buf b) → n ≤ length q + length (arrives l) → n ≤ length (q ++ x)).
Proof.
  intros Hrep. unfold reader_peek. destruct (peek_loop_spec (S n) n b l q Hrep) as (b' & l' & x & -> & Hrep' & Hlen & Hst & Har & Hen); [lia|].
  exists b', l', x. split_and!; try done. rewrite (rep_Buffered _ _ Hrep'), (rep_buffered _ _ Hrep').
  pose proof (rep_capacity _ _ Hrep') as [_ Hc]. do 2 f_equal.
  destruct (bool_decide_reflect (n ≤ length (q ++ x))) as [Hn|Hn], (Nat.ltb_spec (length (buf b')) n), (Nat.ltb_spec (length (q ++ x)) n); try lia; done.
Qed.

Lemma discard_loop_spec fuel n b l q :
  rep b q → 0 < n → n < fuel →
  ∃ b' l' remain ok x q', discard_loop fuel n b l = Some (b', l', remain, ok) ∧ rep b' q' ∧ remain ≤ n ∧ (ok = true ↔ remain = 0) ∧
    length x = n - remain ∧ q ++ stream l = x ++ q' ++ stream l'.
Proof.
  revert n b l q. induction fuel as [|fuel IH]; intros n b l q Hrep Hn Hf; [lia|]. cbn [discard_loop].
  assert (∃ b1 l1 err q1, (if Buffered b =? 0 then fill b l else Some (b, l, false)) = Some (b1, l1, err) ∧ rep b1 q1 ∧
            q ++ stream l = q1 ++ stream l1 ∧ (err = false → q1 ≠ []) ∧ (err = true → q1 = [])) as (b1 & l1 & err & q1 & -> & Hrep1 & Hst & Hne & He).
  { rewrite (rep_Buffered _ _ Hrep). destruct (Nat.eqb_spec (length q) 0) as [->%nil_length_inv|Hq].
    - destruct (fill_spec b l [] Hrep) as (b1 & l1 & err & x & -> & Hr1 & _ & Hs1 & Herr); [apply (rep_capacity _ _ Hrep)|].
      exists b1, l1, err, x. split_and!; [done|done|done|by destruct err, Herr..].
    - exists b, l, false, q. split_and!; try done. by intros _ ->. }
  rewrite (rep_Buffered _ _ Hrep1). pose proof (rep_skip b1 q1 (length q1 `min` n) Hrep1 ltac:(lia)) as Hrep2.
  assert (q1 = take (length q1 `min` n) q1 ++ drop (length q1 `min` n) q1) as Hq1 by (by rewrite take_drop).
  destruct (Nat.eqb_spec (n - length q1 `min` n) 0) as [Hz|Hz].
  - eexists _, l1, 0, true, (take (length q1 `min` n) q1), _. split_and!; [done|exact Hrep2|lia|done|rewrite length_take; lia|].
    by rewrite Hst, (assoc_L (++)), take_drop.
  - destruct err.
    + rewrite (He eq_refl) in *. eexists _, l1, _, false, [], []. split_and!; [done|exact Hrep2|lia| |simpl; lia|done].
      split; [done|]. simpl. lia.
    + assert (length q1 ≠ 0) as Hq1n by (intros ?%nil_length_inv; by apply (Hne eq_refl)).
      destruct (IH (n - length q1 `min` n) _ l1 _ Hrep2) as (b' & l' & rem & ok & x & q' & Hd & Hrep' & Hrem & Hok & Hx & Hst'); [lia|lia|].
      exists b', l', rem, ok, (take (length q1 `min` n) q1 ++ x), q'. split_and!; [done|done|lia|done|rewrite length_app, length_take; lia|].
      rewrite Hst, Hq1 at 1. by rewrite <- !app_assoc, Hst'.
Qed.

Lemma reader_read_spec n b l q :
  rep b q →
  ∃ b' l' v q', reader_read n b l = (b', l', v) ∧ rep b' q' ∧ q ++ stream l = default [] v ++ q' ++ stream l'.
Proof.
  intros Hrep. pose proof (rep_capacity _ _ Hrep) as [Hc _]. unfold reader_read. destruct (Nat.eqb_spec n 0) as [|Hn]; [by exists b, l, (Some []), q|].
  pose proof (rep_Buffered _ _ Hrep) as HB. unfold Buffered in HB. destruct (Nat.eqb_spec (r b) (w b)) as [Hrw|Hrw].
  - assert (q = []) as -> by (apply nil_length_inv; lia). destruct (Nat.leb_spec (length (buf b)) n).
    + pose proof (conn_read_spec n l ltac:(lia)) as Hr. destruct (conn_read n l) as [[x|] l'].
      * exists b, l', (Some x), []. destruct Hr as (_ & _ & -> & _). done.
      * exists b, l', None, []. destruct Hr as [-> _]. done.
    + pose proof (conn_read_spec (length (buf b)) l ltac:(lia)) as Hr. destruct (conn_read (length (buf b)) l) as [[x|] l'].
      * destruct Hr as (_ & Hl & -> & _). eexists _, l', (Some (take n x)), (drop n x). split; [done|].
        split; [|simpl; by rewrite (assoc_L (++)), take_drop].
        pose proof (rep_skip _ _ (n `min` length x) (rep_front x (buf b) ltac:(apply Hrep) Hl) ltac:(lia)) as Hs. cbn [r w buf] in Hs.
        replace (drop n x) with (drop (n `min` length x) x); [exact Hs|]. destruct (Nat.le_ge_cases n (length x)).
        -- by rewrite Nat.min_l. -- rewrite Nat.min_r, !drop_ge by lia. done.
      * destruct Hr as [-> _]. eexists _, l', None, []. split; [done|]. split; [|done]. split; [apply Hrep|]. exists [], (buf b). done.
  - rewrite (rep_buffered _ _ Hrep). eexists _, l, (Some (take n q)), (drop n q). split; [done|].
    split; [|simpl; by rewrite (assoc_L (++)), take_drop].
    pose proof (rep_skip b q (length (take n q)) Hrep ltac:(rewrite length_take; lia)) as Hs.
    replace (drop n q) with (drop (length (take n q)) q); [exact Hs|]. rewrite length_take. destruct (Nat.le_ge_cases n (length q)).
    + by rewrite Nat.min_l. + rewrite Nat.min_r, !drop_ge by lia. done.
Qed.

(** ** Sequences of operations against a queue *)

Inductive op :=
| OPeek (n : nat) | ODiscard (n : nat) | ORead (n : nat) | OGrow (n : nat) | OAppend (x : list Z) | OPrepend (x : list Z)
| OReadBuffer (n : nat) | OReadCached.

(** The bytes the connection hands out and will not deliver again, and the bytes it only shows. *)
Record out := Out { taken : list Z; shown : option (list Z) }.

(** What is in the buffer, and what the connection below still delivers. *)
Definition view (c : BufferedConn) : list Z * list Z :=
  (match reader c with Some b => buffered b | None => [] end, stream (rd c)).
Definition pending (c : BufferedConn) : list Z := (view c).1 ++ (view c).2.

Definition step (c : BufferedConn) (o : op) : option (BufferedConn * out) :=
  match o with
  | OPeek n => '(c', v) ← Peek n c; Some (c', Out [] (if v.2 : bool then Some (v.1 : list Z) else None))
  | ODiscard n => '(c', v) ← Discard n c; Some (c', Out (take v.1 (pending c)) None)
  | ORead n => '(c', v) ← Read n c; Some (c', Out (default [] v) None)
  | OGrow n => c' ← Grow n c; Some (c', Out [] None)
  | OAppend x => '(c', _) ← AppendData x c; Some (c', Out [] None)
  | OPrepend x => c' ← PrependData x c; Some (c', Out [] None)
  | OReadBuffer n => '(c', v) ← ReadBuffer n c; Some (c', Out (default [] v) None)
  | OReadCached => '(c', v) ← ReadCached c; Some (c', Out (default [] v) None)
  end.

Fixpoint run (c : BufferedConn) (ops : list op) : option (BufferedConn * list out) :=
  match ops with
  | [] => Some (c, [])
  | o :: ops => '(c, e) ← step c o; '(c, es) ← run c ops; Some (c, e :: es)
  end.

(** The specification: two queues, one behind the other. *)
Definition a_step (q s : list Z) (o : op) (e : out) (q' s' : list Z) : Prop :=
  match o with
  | OPeek n => taken e = [] ∧ q ++ s = q' ++ s' ∧ q `prefix_of` q' ∧
               match shown e with Some x => x = take n (q ++ s) ∧ length x = n | None => length q' < n end
  | OGrow _ => taken e = [] ∧ q' = q ∧ s' = s
  | OAppend x => taken e = [] ∧ q' = q ++ x ∧ s' = s
  | OPrepend x => taken e = [] ∧ q' = x ++ q ∧ s' = s
  | ODiscard n => length (taken e) ≤ n ∧ q ++ s = taken e ++ q' ++ s'
  | ORead n => q ++ s = taken e ++ q' ++ s'
  | OReadBuffer n => q ++ s = taken e ++ q' ++ s'
  | OReadCached => taken e = q ∧ q' = [] ∧ s' = s
  end.

Fixpoint a_run (q s : list Z) (ops : list op) (es : list out) (q' s' : list Z) : Prop :=
  match ops, es with
  | [], [] => q' = q ∧ s' = s
  | o :: ops, e :: es => ∃ q1 s1, a_step q s o e q1 s1 ∧ a_run q1 s1 ops es q' s'
  | _, _ => False
  end.

(** The relay only uses [ReadBuffer] and [ReadCached] once it has called the latter, which may drop the reader. *)
Definition relay (o : op) : bool := match o with OReadBuffer _ | OReadCached => true | _ => false end.
Fixpoint well_ordered (ops : list op) : bool :=
  match ops with [] => true | OReadCached :: ops => forallb relay ops | _ :: ops => well_ordered ops end.

(** A bound on the bytes an operation needs room for. *)
Definition inserted (o : op) : nat := match o with OAppend x | OPrepend x => length x | OGrow n => n | _ => 0 end.
Definition total (ops : list op) : nat := sum_list (inserted <$> ops).

Definition conn_ok (c : BufferedConn) : Prop := match reader c with Some b => rep b (buffered b) | None => True end.
Definition usable (c : BufferedConn) (o : op) : Prop := relay o = true ∨ is_Some (reader c).

Lemma rep_self b q : rep b q → rep b (buffered b).
Proof. intros H. by rewrite (rep_buffered _ _ H). Qed.
#[local] Hint Resolve rep_self : core.

Lemma step_reader c b o :
  reader c = Some b → rep b (buffered b) → relay o = false → fits (length (pending c) + inserted o) →
  ∃ c' e b', step c o = Some (c', e) ∧ reader c' = Some b' ∧ rep b' (buffered b') ∧
    a_step (buffered b) (stream (rd c)) o e (buffered b') (stream (rd c')).
Proof.
  intros Hr Hrep Ho Hf. unfold pending, view in Hf. rewrite Hr in Hf. cbn [fst snd] in Hf.
  destruct c as [rd0 l pk]. cbn [reader rd] in *. subst rd0. set (q := buffered b) in *. rewrite length_app in Hf.
  destruct o as [n|n|n|n|x|x|n|]; try done; unfold step, Peek, Discard, Read, Grow, AppendData, PrependData; cbn [reader rd peeked mbind option_bind].
  - destruct (reader_peek_spec n b l q Hrep) as (b' & l' & x & Hrep' & _ & Hst & -> & _ & _). cbn [mbind option_bind].
    assert (q ++ stream l = (q ++ x) ++ stream l') as E by (by rewrite Hst, (assoc_L (++))).
    destruct (bool_decide_reflect (n ≤ length (q ++ x))) as [Hn|Hn]; eexists _, _, b'; (split; [done|]); (split; [done|]);
      (split; [by eauto|]); rewrite (rep_buffered _ _ Hrep'); simpl; (split; [done|split; [done|split; [by apply prefix_app_r|]]]).
    + rewrite E, (take_app_le (q ++ x)) by lia. split; [done|]. rewrite length_take. lia.
    + lia.
  - unfold reader_discard. destruct (Nat.eqb_spec n 0) as [->|Hn].
    + eexists _, _, b. simpl. split_and!; [done|done|done|simpl; lia|done].
    + destruct (discard_loop_spec (S n) n b l q Hrep) as (b' & l' & rem & ok & x & q' & -> & Hrep' & Hrem & _ & Hx & Hst); [lia|lia|].
      eexists _, _, b'. simpl. split; [done|]. split; [done|]. split; [by eauto|]. rewrite (rep_buffered _ _ Hrep').
      unfold pending, view. cbn [reader rd fst snd]. fold q. rewrite Hst, <- Hx, take_app_length. cbn [taken]. split; [lia|done].
  - destruct (reader_read_spec n b l q Hrep) as (b' & l' & v & q' & -> & Hrep' & Hst). eexists _, _, b'. split; [done|]. split; [done|].
    split; [by eauto|]. by rewrite (rep_buffered _ _ Hrep').
  - destruct (rep_grow n b q Hrep) as (Hrep' & _); [unfold fits in *; simpl in Hf; lia|]. eexists _, _, _. split; [done|]. split; [done|].
    split; [by eauto|]. by rewrite (rep_buffered _ _ Hrep').
  - destruct (append_reader_spec x b q Hrep) as [_ Hrep']; [unfold fits in *; simpl in Hf; lia|]. destruct (append_reader x b) as [b' ok].
    eexists _, _, b'. split; [done|]. split; [done|]. split; [by eauto|]. cbn [fst] in Hrep'. by rewrite (rep_buffered _ _ Hrep').
  - destruct (Nat.eqb_spec (length x) 0) as [->%nil_length_inv|_].
    + eexists _, _, b. split_and!; done.
    + destruct (prepend_reader_spec x b q Hrep) as (b' & -> & Hrep'); [unfold fits in *; simpl in Hf; lia|].
      eexists _, _, b'. split; [done|]. split; [done|]. split; [by eauto|]. by rewrite (rep_buffered _ _ Hrep').
Qed.

(** A read of the connection itself, past an empty buffer. *)
Lemma conn_read_stream n l : 0 < n → stream l = default [] (conn_read n l).1 ++ stream (conn_read n l).2.
Proof. intros Hn. pose proof (conn_read_spec n l Hn) as H. destruct (conn_read n l) as [[x|] l']; simpl; by destruct H as (? & ? & ? & ?) || destruct H. Qed.

Lemma step_read_buffer c n :
  conn_ok c → 0 < n →
  ∃ c' e, step c (OReadBuffer n) = Some (c', e) ∧ conn_ok c' ∧ (is_Some (reader c) → is_Some (reader c')) ∧
    a_step (view c).1 (view c).2 (OReadBuffer n) e (view c').1 (view c').2.
Proof.
  intros Hok Hn. destruct c as [[b|] l pk]; unfold conn_ok, view, step, ReadBuffer, Read in *; cbn [reader rd peeked mbind option_bind fst snd] in *.
  - rewrite (rep_Buffered _ _ Hok). destruct (Nat.ltb_spec 0 (length (buffered b))) as [Hb|Hb].
    + destruct (reader_read_spec n b l _ Hok) as (b' & l' & v & q' & -> & Hrep' & Hst). eexists _, _. split; [done|]. cbn [reader rd].
      split; [by eauto|]. split; [by eauto|]. by rewrite (rep_buffered _ _ Hrep').
    + pose proof (conn_read_stream n l Hn) as Hst. destruct (conn_read n l) as [v l']. cbn [fst snd mbind option_bind] in *.
      eexists _, _. split; [done|]. cbn [reader rd]. split; [done|]. split; [done|].
      assert (buffered b = []) as -> by (apply nil_length_inv; lia). done.
  - pose proof (conn_read_stream n l Hn) as Hst. destruct (conn_read n l) as [v l']. cbn [fst snd mbind option_bind] in *.
    eexists _, _. split; [done|]. done.
Qed.

Lemma step_read_cached c :
  conn_ok c →
  ∃ c' e, step c OReadCached = Some (c', e) ∧ conn_ok c' ∧
    a_step (view c).1 (view c).2 OReadCached e (view c').1 (view c').2.
Proof.
  intros Hok. destruct c as [[b|] l pk]; unfold conn_ok, view, step, ReadCached in *; cbn [reader rd peeked mbind option_bind fst snd] in *;
    [|by eexists _, _].
  rewrite (rep_Buffered _ _ Hok). set (q := buffered b) in *. destruct (Nat.ltb_spec 0 (length q)) as [Hb|Hb];
    [|eexists _, _; split; [done|]; split; [done|]; cbn; split; [|done]; symmetry; apply nil_length_inv; lia].
  unfold reader_peek. cbn [peek_loop]. rewrite (rep_Buffered _ _ Hok). fold q. rewrite Nat.ltb_irrefl. cbn [andb].
  pose proof (rep_capacity _ _ Hok) as [_ Hc]. destruct (Nat.ltb_spec (length (buf b)) (length q)); [lia|]. rewrite (rep_buffered _ _ Hok). fold q.
  cbn [mbind option_bind]. unfold reader_discard. destruct (Nat.eqb_spec (length q) 0); [lia|]. cbn [discard_loop].
  rewrite (rep_Buffered _ _ Hok). fold q. destruct (Nat.eqb_spec (length q) 0); [lia|]. cbv iota beta zeta. rewrite (rep_Buffered _ _ Hok). fold q.
  rewrite Nat.min_id, Nat.sub_diag, firstn_all. exists (mkConn (Some (mkReader (buf b) (r b + length q) (w b))) l pk), (Out q None).
  split; [simpl; by rewrite Nat.ltb_irrefl|]. pose proof (rep_skip b q (length q) Hok ltac:(lia)) as Hs. rewrite drop_all in Hs. cbn [reader rd].
  split; [by eauto|]. by rewrite (rep_buffered _ _ Hs).
Qed.

Lemma well_ordered_cons o ops :
  well_ordered (o :: ops) = true → (o = OReadCached ∧ forallb relay ops = true) ∨ (o ≠ OReadCached ∧ well_ordered ops = true).
Proof. destruct o; simpl; auto. Qed.

Lemma relay_well_ordered ops : forallb relay ops = true → well_ordered ops = true.
Proof. induction ops as [|[] ops IH]; simpl; try done; auto. Qed.

(** An operation in a state that admits it. *)
Lemma step_refines c o ops :
  conn_ok c → (is_Some (reader c) ∧ well_ordered (o :: ops) = true) ∨ forallb relay (o :: ops) = true →
  (∀ n, o = OReadBuffer n → 0 < n) → fits (length (pending c) + inserted o) →
  ∃ c' e, step c o = Some (c', e) ∧ conn_ok c' ∧ ((is_Some (reader c') ∧ well_ordered ops = true) ∨ forallb relay ops = true) ∧
    a_step (view c).1 (view c).2 o e (view c').1 (view c').2.
Proof.
  intros Hok Hord Hpos Hf. destruct (relay o) eqn:Er.
  - assert (forallb relay ops = true ∨ (is_Some (reader c) ∧ ∃ n, o = OReadBuffer n) ∧ well_ordered ops = true) as Hrest.
    { destruct Hord as [[Hs [[_ ?]|[Ho Hw]]%well_ordered_cons]|[_ ?]%andb_true_iff]; auto. right. split; [|done]. split; [done|].
      destruct o; try done. by eexists. }
    destruct o as [| | | | | |n|]; try done.
    + destruct (step_read_buffer c n Hok (Hpos n eq_refl)) as (c' & e & Hst & Hok' & Hs & Ha). exists c', e. split_and!; auto.
      destruct Hrest as [?|[[? _] ?]]; auto.
    + destruct (step_read_cached c Hok) as (c' & e & Hst & Hok' & Ha). exists c', e. split_and!; try done.
      destruct Hrest as [?|[[_ [n ?]] _]]; [auto|done].
  - destruct Hord as [[[b Hb] Hw]|[Hr _]%andb_true_iff]; [|congruence]. unfold conn_ok in Hok. rewrite Hb in Hok.
    destruct (step_reader c b o Hb Hok Er Hf) as (c' & e & b' & Hst & Hb' & Hok' & Ha). exists c', e.
    unfold conn_ok, view. rewrite Hb, Hb'. split_and!; try done. left. split; [done|]. by destruct o.
Qed.

Lemma a_step_pending q s o e q' s' : a_step q s o e q' s' → length (q' ++ s') ≤ length (q ++ s) + inserted o.
Proof.
  destruct o; cbn [a_step inserted].
  - intros (_ & -> & _). lia.
  - intros (_ & ->). rewrite !length_app. lia.
  - intros ->. rewrite !length_app. lia.
  - intros (_ & -> & ->). lia.
  - intros (_ & -> & ->). rewrite !length_app. lia.
  - intros (_ & -> & ->). rewrite !length_app. lia.
  - intros ->. rewrite !length_app. lia.
  - intros (_ & -> & ->). rewrite !length_app. simpl. lia.
Qed.

(** Operations that put no bytes into the connection. *)
Definition plain (o : op) : bool := match o with OAppend _ | OPrepend _ => false | _ => true end.

Lemma a_run_order q s ops es q' s' :
  forallb plain ops = true → a_run q s ops es q' s' → q ++ s = mjoin (taken <$> es) ++ q' ++ s'.
Proof.
  revert q s es. induction ops as [|o ops IH]; intros q s [|e es] Hp Hr; try done; [by destruct Hr as [-> ->]|].
  change (mjoin (taken <$> e :: es)) with (taken e ++ mjoin (taken <$> es)).
  apply andb_true_iff in Hp as [Ho Hp]. destruct Hr as (q1 & s1 & Ha & Hr). rewrite <- app_assoc. rewrite <- (IH _ _ _ Hp Hr). clear IH Hr.
  destruct o; try done; cbn [a_step] in Ha; [destruct Ha as (-> & -> & _)|destruct Ha as [_ ->]|destruct Ha as (-> & -> & ->)|destruct Ha as (-> & -> & ->)]; done.
Qed.

(** ** Properties *)


Lemma new_conn_ok l : conn_ok (NewBufferedConn l).
Proof. split; [done|]. by exists [], (replicate defaultBufSize 0%Z). Qed.


Example buffered_conn_delivers :
  snd <$> run (NewBufferedConn [Data 1 [2; 3]; Fault; Data 4 []]%Z) [OPeek 2; OPrepend [9]%Z; OReadCached; OReadCached; OReadBuffer 5; OReadBuffer 5] =
  Some [Out [] (Some [1; 2]); Out [] None; Out [9; 1; 2; 3] None; Out [] None; Out [] None; Out [4] None]%Z.
Proof. vm_compute. reflexivity. Qed.
