(* ===== verification/Sniffer.v ===== *)
(** * [component/sniffer/dispatcher.go], [component/sniffer/base_sniffer.go]

    The dispatcher looks at the first bytes of a connection and asks the configured
    sniffers for the domain they are meant for.  [Sniffer] is the interface of a
    sniffer, [SnifferLaws] what the dispatcher's client may expect of it, and the
    TLS sniffer an instance.  The connection is a [BufferedConn]; its reads
    ([BufConn.event]) are what the peer sends before the deadlines, in whatever
    pieces.  The validity test of domain names is a library function and a
    parameter.  [None] is a panic, or a loop that does not end within its fuel. *)

From Stdlib Require Import ZArith Lia.
From stdpp Require Import base list strings numbers gmap.
From S2P Require Import Prelude GoStrings GoNet Metadata Lru Ranges GoIO TlsSniffer BufConn.
#[local] Open Scope string_scope.
#[local] Open Scope list_scope.
#[local] Open Scope Z_scope.

(** ** Sniffers *)

(** The result of [SniffData]: a host, an [errNeedAtLeastData], or another error. *)
Inductive sniffed := Found (host : string) | NeedMore (length : Z) | Rejected.

Record Sniffer := mkSniffer {
  SupportNetwork : NetWork_t;
  SupportPort : Z → bool;
  SniffData : list Z → option sniffed;
  MultiPacket : bool;
}.

Record SnifferConfig := mkConfig { OverrideDest : bool; Ports : IntRanges }.

(** [NewBaseSniffer] with the methods of the embedding sniffer. *)
Definition NewBaseSniffer (ports : IntRanges) (networkType : NetWork_t) (sniff : list Z → option sniffed) (multi : bool) : Sniffer :=
  mkSniffer networkType (Check_ ports) sniff multi.

Definition TLSSniffer_SniffData (b : list Z) : option sniffed :=
  match SniffTLS b with
  | None => None
  | Some (Final (ServerName domain)) => Some (Found domain)
  | Some (Final _) => Some Rejected
  | Some (NeedAtLeast n) => Some (NeedMore n)
  end.

Definition NewTLSSniffer (snifferConfig : SnifferConfig) : Sniffer :=
  let ports := match Ports snifferConfig with [] => [NewRange 443 443] | ports => ports end in
  NewBaseSniffer ports TCP TLSSniffer_SniffData false.

(** What a sniffer promises about the streams it is meant for: it answers on every prefix, asks for more than it was
    given, repeats its request until it is met, and does not change its mind. *)
Class SnifferLaws (f : list Z → option sniffed) (stream_ok : list Z → Prop) : Prop := {
  law_prefix b x : stream_ok (b ++ x) → stream_ok b;
  law_answers b : stream_ok b → is_Some (f b);
  law_request b n : stream_ok b → f b = Some (NeedMore n) → len b < n;
  law_wait b x n : stream_ok (b ++ x) → f b = Some (NeedMore n) → len (b ++ x) < n → f (b ++ x) = Some (NeedMore n);
  law_found b x h : stream_ok (b ++ x) → f b = Some (Found h) → f (b ++ x) = Some (Found h);
  law_rejected b x : stream_ok (b ++ x) → f b = Some Rejected → f (b ++ x) = Some Rejected;
}.

#[export] Instance tls_laws : SnifferLaws TLSSniffer_SniffData byte_list.
Proof.
  assert (∀ b x, byte_list (b ++ x) → byte_list b) as Hp by (by intros b x [? _]%Forall_app). constructor; unfold TLSSniffer_SniffData.
  - exact Hp.
  - intros b Hb. pose proof (SniffTLS_answers b Hb) as Ha. destruct (SniffTLS b) as [[[]|]|]; eauto. done.
  - intros b n Hb. pose proof (SniffTLS_answers b Hb) as Ha. destruct (SniffTLS b) as [[[]|m]|]; try done. by intros [= <-].
  - intros b x n Hb%Hp. destruct (SniffTLS b) as [[[]|m]|] eqn:E; try done. intros [= <-] Hx. by rewrite (SniffTLS_wait b x m).
  - intros b x h Hb%Hp. destruct (SniffTLS b) as [[[]|m]|] eqn:E; try done. intros [= <-]. by rewrite (SniffTLS_final b x _ Hb E).
  - intros b x Hb%Hp. destruct (SniffTLS b) as [[[]|m]|] eqn:E; try done; intros _; by rewrite (SniffTLS_final b x _ Hb E).
Qed.

(** ** The dispatcher *)

Record configuredSniffer := mkConfigured { sniffer : Sniffer; config : SnifferConfig }.

Definition supportsNetwork (s : configuredSniffer) (network : NetWork_t) : bool :=
  bool_decide (SupportNetwork (sniffer s) = network) || bool_decide (SupportNetwork (sniffer s) = ALLNet).

(** Failures per destination; the counters are [uint8]s. *)
Definition skip_key : Type := Addr * Z.

Record Dispatcher := mkDispatcher {
  enable : bool;
  sniffers : list configuredSniffer;
  forceDomain : list (string → bool);
  skipSrcAddress : list (Addr → bool);
  skipDstAddress : list (Addr → bool);
  skipDomain : list (string → bool);
  forceDnsMapping : bool;
  parsePureIp : bool;
}.

(** The state that connections share: the cache of failures and its cells. *)
Record skips := mkSkips { cells : world skip_key Z; skipList : LruCache skip_key }.

Definition maxSniffBufferSize : Z := 64 * 1024.

Inductive sniff_error := ErrorSniffFailed | ErrBufferFull | ReadFailed.

Section dispatcher.
Context (IsDomainName : string → bool) (sd : Dispatcher).

Definition forceSniff (m : Metadata) : bool := existsb (λ matcher, matcher (Host m)) (forceDomain sd).

Definition shouldOverride (m : Metadata) : bool :=
  if existsb (λ matcher, matcher (DstIP m)) (skipDstAddress sd) then false
  else if existsb (λ matcher, matcher (SrcIP m)) (skipSrcAddress sd) then false
  else if bool_decide (Host m = "") && parsePureIp sd then true
  else if bool_decide (DNSMode m = DNSMapping) && forceDnsMapping sd then true
  else forceSniff m.

Definition isValidSniffHost (host : string) : bool := negb (bool_decide (host = ".")) && IsDomainName host.

Definition domainCanReplace (host : string) : bool :=
  isValidSniffHost host && negb (existsb (λ matcher, matcher host) (skipDomain sd)).

Definition set_SniffHost (m : Metadata) (host : string) : Metadata :=
  mkMetadata
    (NetWork m) (Type_ m) (SrcIP m) (DstIP m) (SrcGeoIP m) (DstGeoIP m) (SrcIPASN m) (DstIPASN m)
    (SrcPort m) (DstPort m) (InIP m) (InPort m) (InName m) (InUser m) (RematchName m) (Host m) (DNSMode m)
    (Uid m) (Process m) (ProcessPath m) (SpecialProxy m) (SpecialRules m) (RemoteDst m) (DSCP m)
    (RawSrcAddr m) (RawDstAddr m) (DontFragment m) host.

Definition replaceDomain (m : Metadata) (host : string) (overrideDest : bool) : Metadata :=
  let m := set_SniffHost m host in
  let m := if overrideDest then set_DstIP (set_Host m host) NoAddr else m in
  set_DNSMode m DNSNormal.

(** ** [sniffDomain] *)

Record candidate := mkCandidate { csniffer : configuredSniffer; want : Z }.

(** The sniffers that apply to the connection, in the configured order. *)
Definition applicable (s : configuredSniffer) (m : Metadata) : bool :=
  supportsNetwork s TCP && SupportPort (sniffer s) (DstPort m).
Definition candidates (m : Metadata) : list candidate :=
  (λ s, mkCandidate s 1) <$> filter (λ s, applicable s m = true) (sniffers sd).

Inductive scanned := Hit (host : string) (c : SnifferConfig) | Remaining (l : list candidate) (nextWant : Z).

Definition keep (c : candidate) (nextWant : Z) : Z :=
  if (nextWant =? 0) || (want c <? nextWant) then want c else nextWant.

(** The loop over the candidates.  The code compacts the slice in place; the element of round [i] is read before the
    write of that round, which goes to an index of at most [i]. *)
Fixpoint scan (data : list Z) (l : list candidate) (remaining : list candidate) (nextWant : Z) : option scanned :=
  match l with
  | [] => Some (Remaining remaining nextWant)
  | c :: l =>
      if want c <=? len data then
        match SniffData (sniffer (csniffer c)) data with
        | None => None
        | Some (Found host) =>
            if isValidSniffHost host then Some (Hit host (config (csniffer c))) else scan data l remaining nextWant
        | Some (NeedMore n) =>
            if n <=? len data then scan data l remaining nextWant
            else let c := mkCandidate (csniffer c) n in scan data l (remaining ++ [c]) (keep c nextWant)
        | Some Rejected => scan data l remaining nextWant
        end
      else scan data l (remaining ++ [c]) (keep c nextWant)
  end.

(** The rounds; an error of a read leaves the connection open. *)
Fixpoint sniff_rounds (fuel : nat) (conn : BufferedConn) (l : list candidate) (want : Z)
    : option (BufferedConn * result sniff_error (string * SnifferConfig)) :=
  match fuel with
  | O => None
  | S fuel =>
      match l with
      | [] => Some (conn, Err ErrorSniffFailed)
      | _ =>
          n ← conn_Buffered conn;
          if (maxSniffBufferSize <? want) && (Z.of_nat n <? want) then Some (conn, Err ErrBufferFull)
          else
            conn ← Grow (Z.to_nat want) conn;
            '(conn, v) ← Peek (Z.to_nat want) conn;
            if negb (v.2 : bool) then Some (conn, Err ReadFailed)
            else
              n ← conn_Buffered conn;
              '(conn, v) ← Peek n conn;
              r ← scan v.1 l [] 0;
              match r with
              | Hit host c => Some (conn, Ok (host, c))
              | Remaining l nextWant => sniff_rounds fuel conn l nextWant
              end
      end
  end.

(** A round that is not the last asks for more bytes than were there, up to the bound. *)
Definition sniff_fuel : nat := S (S (Z.to_nat maxSniffBufferSize)).

Definition sniffDomain (conn : BufferedConn) (m : Metadata) : option (BufferedConn * result sniff_error (string * SnifferConfig)) :=
  match candidates m with
  | [] => Some (conn, Err ErrorSniffFailed)
  | l =>
      '(conn, v) ← Peek 1 conn;
      if negb (v.2 : bool) then Some (conn, Err ReadFailed)
      else n ← conn_Buffered conn; sniff_rounds sniff_fuel conn l (Z.of_nat n)
  end.

(** ** [TCPSniff] *)

Definition bump (old : option Z) : Z * bool := let old := default 0 old in (if old <=? 5 then wrap 8 (old + 1) else old, false).

Definition cacheSniffFailed (now : Z) (s : skips) (m : Metadata) : skips :=
  let '(w, c, _) := Compute_ now (cells s) (skipList s) (AddrPort m) bump in mkSkips w c.

Definition TCPSniff (now now' : Z) (s : skips) (conn : BufferedConn) (m : Metadata)
    : option (skips * BufferedConn * Metadata * bool) :=
  if negb (shouldOverride m) then Some (s, conn, m, false)
  else if negb (existsb (λ c, applicable c m) (sniffers sd)) then Some (s, conn, m, false)
  else
    let forceSniffer := forceSniff m in
    let dst := AddrPort m in
    let '(s, skip) :=
      if forceSniffer then (s, false)
      else let '(w, c, v) := Get now (cells s) (skipList s) dst in
           (mkSkips w c, match v with Some count => 5 <? count | None => false end) in
    if skip : bool then Some (s, conn, m, false)
    else
      '(conn, r) ← sniffDomain conn m;
      match r with
      | Err _ => Some (if forceSniffer then s else cacheSniffFailed now' s m, conn, m, false)
      | Ok (host, c) =>
          if negb (domainCanReplace host) then Some (s, conn, m, false)
          else let '(w, l) := Delete (cells s) (skipList s) dst in
               Some (mkSkips w l, conn, replaceDomain m host (OverrideDest c), true)
      end.

(** [UDPSniff]: the metadata, and the function a multi-packet sniffer will apply later. *)
Fixpoint udp_sniff (l : list configuredSniffer) (data : list Z) (m : Metadata)
    : option (Metadata * option (Metadata → string → Metadata)) :=
  match l with
  | [] => Some (m, None)
  | c :: l =>
      let replace m host := if domainCanReplace host then replaceDomain m host (OverrideDest (config c)) else m in
      if supportsNetwork c UDP && SupportPort (sniffer c) (DstPort m) then
        if MultiPacket (sniffer c) then Some (m, Some replace)
        else r ← SniffData (sniffer c) data;
             match r with Found host => Some (replace m host, None) | _ => udp_sniff l data m end
      else udp_sniff l data m
  end.

Definition UDPSniff (data : list Z) (m : Metadata) : option (Metadata * option (Metadata → string → Metadata)) :=
  if shouldOverride m then udp_sniff (sniffers sd) data m else Some (m, None).
End dispatcher.

(** ** Connections as the dispatcher uses them *)

(** The connection holds [q] in a buffer of size [cap], with the reads [l] to come. *)
Definition holds (c : BufferedConn) (q : list Z) (l : list event) (cap : nat) : Prop :=
  ∃ b, reader c = Some b ∧ rep b q ∧ rd c = l ∧ length (buf b) = cap.

Lemma holds_capacity c q l cap : holds c q l cap → (length q ≤ cap)%nat.
Proof. intros (b & _ & Hrep & _ & <-). apply (rep_capacity _ _ Hrep). Qed.

Lemma holds_Buffered c q l cap : holds c q l cap → conn_Buffered c = Some (length q).
Proof. intros (b & Hb & Hrep & _). unfold conn_Buffered. rewrite Hb. simpl. by rewrite (rep_Buffered _ _ Hrep). Qed.

Lemma holds_Peek n c q l cap :
  holds c q l cap →
  ∃ c' x l', holds c' (q ++ x) l' cap ∧ stream l = x ++ stream l' ∧
    Peek n c = Some (c', if bool_decide (n ≤ length (q ++ x))%nat then (take n (q ++ x), true) else (q ++ x, false)) ∧
    ((n ≤ length (q ++ x))%nat → arrives l = x ++ arrives l') ∧
    ((n ≤ cap)%nat → (n ≤ length q + length (arrives l))%nat → (n ≤ length (q ++ x))%nat).
Proof.
  intros (b & Hb & Hrep & <- & Hcap). unfold Peek. rewrite Hb. cbn [mbind option_bind].
  destruct (reader_peek_spec n b (rd c) q Hrep) as (b' & l' & x & Hrep' & Hlen & Hst & -> & Har & Hen). cbn [mbind option_bind].
  exists (mkConn (Some b') l' true), x, l'. split; [by exists b'; split; [done|split; [done|split; [done|lia]]]|]. split_and!; try done. by rewrite <- Hcap.
Qed.

Lemma holds_Peek_all c q l cap : holds c q l cap → ∃ c', holds c' q l cap ∧ Peek (length q) c = Some (c', (q, true)).
Proof.
  intros (b & Hb & Hrep & <- & Hcap). unfold Peek, reader_peek. rewrite Hb. cbn [mbind option_bind peek_loop].
  rewrite (rep_Buffered _ _ Hrep), Nat.ltb_irrefl. cbn [andb mbind option_bind]. rewrite (rep_buffered _ _ Hrep), (rep_Buffered _ _ Hrep).
  pose proof (rep_capacity _ _ Hrep). destruct (Nat.ltb_spec (length (buf b)) (length q)); [lia|]. rewrite Nat.ltb_irrefl, firstn_all.
  eexists. split; [|done]. by exists b.
Qed.

Lemma newReadBuffer_le size k :
  (0 < size)%nat → 0 ≤ k < 63 → Z.of_nat size ≤ 2 ^ k → Z.of_nat (length (newReadBuffer size)) ≤ 2 ^ k.
Proof.
  intros Hs Hk Hle. unfold newReadBuffer. rewrite length_replicate. pose proof (Z.pow_le_mono_r 2 k 63).
  rewrite (wrap_small 64 (Z.of_nat size - 1)) by (unfold unsigned_ok; change (2 ^ 64) with (2 * 2 ^ 63); lia).
  set (j := bits_Len (Z.of_nat size - 1)). assert (0 ≤ j ≤ k) as Hj.
  { unfold j, bits_Len. destruct (Z.leb_spec (Z.of_nat size - 1) 0); [lia|]. pose proof (Z.log2_nonneg (Z.of_nat size - 1)).
    pose proof (Z.log2_lt_pow2 (Z.of_nat size - 1) k). lia. }
  pose proof (Z.pow_le_mono_r 2 j k). pose proof (Z.pow_pos_nonneg 2 j). rewrite Z.shiftl_1_l, wrap_small by (unfold unsigned_ok; change (2 ^ 64) with (2 * 2 ^ 63); lia).
  change (Z.shiftr (2 ^ 64 - 1) 1) with (2 ^ 63 - 1). pose proof (Z.pow_lt_mono_r 2 k 63).
  destruct (Z.ltb_spec (2 ^ 63 - 1) (2 ^ j)); lia.
Qed.

Lemma holds_Grow n c q l cap :
  holds c q l cap → ((n ≤ cap)%nat ∨ Z.of_nat n ≤ maxSniffBufferSize) →
  ∃ c' cap', Grow n c = Some c' ∧ holds c' q l cap' ∧ (n ≤ cap')%nat ∧ Z.of_nat cap' ≤ Z.max (Z.of_nat cap) maxSniffBufferSize.
Proof.
  intros (b & Hb & Hrep & <- & <-) Hn. unfold Grow. rewrite Hb. cbn [mbind option_bind].
  destruct (decide (n ≤ length (buf b))%nat) as [Hle|Hgt].
  - unfold grow_reader. destruct (Nat.leb_spec n (length (buf b))); [|lia]. eexists _, _. split; [done|]. split; [by exists b|]. lia.
  - destruct (rep_grow n b q Hrep) as (Hrep' & Hc & _); [unfold fits, maxSniffBufferSize in *; lia|].
    eexists _, _. split; [done|]. split; [by exists (grow_reader n b)|]. split; [done|]. unfold grow_reader.
    destruct (Nat.leb_spec n (length (buf b))); [lia|]. cbn [buf]. rewrite length_inserts.
    pose proof (newReadBuffer_le n 16). unfold maxSniffBufferSize in *. change (2 ^ 16) with 65536 in *. lia.
Qed.

(** ** One pass over the candidates *)

Section sniffing.
Context (IsDomainName : string → bool).
Abbreviation valid := (isValidSniffHost IsDomainName).

Definition ask (c : candidate) (data : list Z) : option sniffed := SniffData (sniffer (csniffer c)) data.

(** What becomes of a candidate that stays. *)
Definition kept (data : list Z) (c c' : candidate) : Prop :=
  (len data < want c ∧ c' = c) ∨
  (want c ≤ len data ∧ ∃ n, ask c data = Some (NeedMore n) ∧ len data < n ∧ c' = mkCandidate (csniffer c) n).

(** [nextWant] is the least request, each of them beyond the data. *)
Definition least (data : list Z) (l : list candidate) (nextWant : Z) : Prop :=
  (∀ c, c ∈ l → len data < want c ∧ nextWant ≤ want c) ∧
  if l is [] then nextWant = 0 else ∃ c, c ∈ l ∧ want c = nextWant.

Lemma least_keep data l nextWant c :
  least data l nextWant → len data < want c → least data (l ++ [c]) (keep c nextWant).
Proof.
  intros [Hall Hl] Hc. pose proof (len_nonneg data). unfold keep. split.
  - intros c' [Hc'| ->%list_elem_of_singleton]%elem_of_app; [destruct (Hall c' Hc')|]; split; try done.
    + destruct ((nextWant =? 0) || (want c <? nextWant)) eqn:E; [|done]. apply orb_true_iff in E as [E%Z.eqb_eq|E%Z.ltb_lt]; [|lia].
      destruct l as [|c0 l]; [by apply not_elem_of_nil in Hc'|]. destruct Hl as (c1 & Hc1%Hall & ?). lia.
    + destruct ((nextWant =? 0) || (want c <? nextWant)) eqn:E; [lia|]. apply orb_false_iff in E as [E E'%Z.ltb_ge]. lia.
  - assert (∃ c', c' ∈ l ++ [c] ∧ want c' = if (nextWant =? 0) || (want c <? nextWant) then want c else nextWant) as Hex.
    { destruct ((nextWant =? 0) || (want c <? nextWant)) eqn:E; [exists c; split; [set_solver|done]|].
      apply orb_false_iff in E as [E%Z.eqb_neq _]. destruct l as [|c0 l]; [lia|]. destruct Hl as (c1 & Hc1 & Hw).
      exists c1. split; [set_solver|done]. }
    by destruct l.
Qed.

(** The result of a pass over [l] that started with [rem]. *)
Definition pass (data : list Z) (l rem : list candidate) (r : option scanned) : Prop :=
  match r with
  | None => False
  | Some (Hit h cfg) => ∃ c, c ∈ l ∧ ask c data = Some (Found h) ∧ valid h = true ∧ cfg = config (csniffer c)
  | Some (Remaining rem' nextWant) =>
      least data rem' nextWant ∧ (∀ c', c' ∈ rem' ↔ c' ∈ rem ∨ ∃ c, c ∈ l ∧ kept data c c') ∧
      (∀ c h, c ∈ l → want c ≤ len data → ask c data = Some (Found h) → valid h = false)
  end.

(** A candidate that stays, as [k], or goes. *)
Lemma pass_cons data c l rem k r :
  (∀ c', kept data c c' ↔ c' ∈ k) → (∀ h, want c ≤ len data → ask c data = Some (Found h) → valid h = false) →
  pass data l (rem ++ k) r → pass data (c :: l) rem r.
Proof.
  intros Hk Hf. destruct r as [[h cfg|rem' nextWant]|]; [|intros (H1 & H2 & H3)|done].
  - intros (c0 & Hc0 & ?). exists c0. split; [by right|done].
  - split; [done|]. split.
    + intros c'. rewrite H2, elem_of_app, <- Hk. split.
      * intros [[?|?]|(c0 & ? & ?)]; [by left|right; exists c; split; [left|done]|right; exists c0; split; [by right|done]].
      * intros [?|(c0 & [->|?]%elem_of_cons & ?)]; [by left; left|by left; right|right; by exists c0].
    + intros c0 h [->|?]%elem_of_cons; [apply Hf|by apply H3].
Qed.

Lemma scan_spec data l rem nextWant :
  (∀ c, c ∈ l → is_Some (ask c data)) → least data rem nextWant →
  pass data l rem (scan IsDomainName data l rem nextWant).
Proof.
  revert rem nextWant. induction l as [|c l IH]; intros rem nextWant Ht Hl; cbn [scan].
  { split; [done|]. split; [|by intros ?? ?%not_elem_of_nil]. intros c'. split; [auto|]. intros [?|(? & ?%not_elem_of_nil & _)]; done. }
  pose proof (Ht c ltac:(left)) as [v Hv].
  assert (∀ c', c' ∈ l → is_Some (ask c' data)) as Ht' by (intros c' Hc'; apply Ht; by right).
  destruct (Z.leb_spec (want c) (len data)) as [Hw|Hw].
  - change (SniffData _ data) with (ask c data). rewrite Hv. destruct v as [h|n|].
    + destruct (valid h) eqn:Eh; [exists c; split; [left|done]|].
      apply (pass_cons _ _ _ _ []); [|intros h' _; congruence|rewrite app_nil_r; by apply IH].
      intros c'. split; [|by intros ?%not_elem_of_nil]. intros [[? _]|(_ & n & ? & _)]; [lia|congruence].
    + destruct (Z.leb_spec n (len data)).
      * apply (pass_cons _ _ _ _ []); [|intros h' _; congruence|rewrite app_nil_r; by apply IH].
        intros c'. split; [|by intros ?%not_elem_of_nil]. intros [[? _]|(_ & n' & ? & ? & _)]; [lia|simplify_eq; lia].
      * apply (pass_cons _ _ _ _ [mkCandidate (csniffer c) n]); [|intros h' _; congruence|apply IH; [done|by apply least_keep]].
        intros c'. rewrite list_elem_of_singleton. split.
        -- intros [[? _]|(_ & n' & ? & _ & ->)]; [lia|congruence].
        -- intros ->. right. eauto.
    + apply (pass_cons _ _ _ _ []); [|intros h' _; congruence|rewrite app_nil_r; by apply IH].
      intros c'. split; [|by intros ?%not_elem_of_nil]. intros [[? _]|(_ & n & ? & _)]; [lia|congruence].
  - apply (pass_cons _ _ _ _ [c]); [|lia|apply IH; [done|by apply least_keep]].
    intros c'. rewrite list_elem_of_singleton. split; [intros [[_ ?]|[? _]]; [done|lia]|intros ->; by left].
Qed.

(** ** The rounds *)

(** A round is refused, fails to read, or hands data to a pass. *)
Lemma round_cases fuel c q l cap cands want :
  holds c q l cap → cands ≠ [] → 0 < want →
  (sniff_rounds IsDomainName (S fuel) c cands want = Some (c, Err ErrBufferFull) ∧ maxSniffBufferSize < want ∧ len q < want) ∨
  ((want ≤ maxSniffBufferSize ∨ want ≤ len q) ∧ ∃ c' x l' cap',
    holds c' (q ++ x) l' cap' ∧ stream l = x ++ stream l' ∧ Z.of_nat cap' ≤ Z.max (Z.of_nat cap) maxSniffBufferSize ∧
    ((sniff_rounds IsDomainName (S fuel) c cands want = Some (c', Err ReadFailed) ∧ len (q ++ arrives l) < want) ∨
     (want ≤ len (q ++ x) ∧ arrives l = x ++ arrives l' ∧
      sniff_rounds IsDomainName (S fuel) c cands want =
      (r ← scan IsDomainName (q ++ x) cands [] 0;
       match r with Hit host cfg => Some (c', Ok (host, cfg)) | Remaining rem nw => sniff_rounds IsDomainName fuel c' rem nw end)))).
Proof.
  intros Hc Hne Hw. destruct cands as [|cand cands]; [done|]. cbn [sniff_rounds]. rewrite (holds_Buffered _ _ _ _ Hc). cbn [mbind option_bind].
  change (Z.of_nat (length q)) with (len q). destruct ((maxSniffBufferSize <? want) && (len q <? want)) eqn:E.
  { apply andb_true_iff in E as [?%Z.ltb_lt ?%Z.ltb_lt]. by left. }
  right. assert (want ≤ maxSniffBufferSize ∨ want ≤ len q) as Hb by (apply andb_false_iff in E as [?%Z.ltb_ge|?%Z.ltb_ge]; auto).
  split; [done|]. pose proof (holds_capacity _ _ _ _ Hc) as Hcap.
  destruct (holds_Grow (Z.to_nat want) c q l cap Hc) as (c1 & cap1 & -> & Hc1 & Hcap1 & Hmax); [unfold len in *; lia|]. cbn [mbind option_bind].
  destruct (holds_Peek (Z.to_nat want) c1 q l cap1 Hc1) as (c2 & x & l' & Hc2 & Hst & -> & Har & Hen). cbn [mbind option_bind].
  destruct (bool_decide_reflect (Z.to_nat want ≤ length (q ++ x))%nat) as [Hn|Hn]; cbn [fst snd negb].
  - rewrite (holds_Buffered _ _ _ _ Hc2). cbn [mbind option_bind]. destruct (holds_Peek_all _ _ _ _ Hc2) as (c3 & Hc3 & ->). cbn [mbind option_bind fst].
    exists c3, x, l', cap1. split_and!; try done. right. split_and!; [unfold len; lia|auto|done].
  - exists c2, x, l', cap1. split_and!; try done. left. split; [done|]. rewrite len_app. unfold len.
    destruct (decide (Z.to_nat want ≤ length q + length (arrives l))%nat); [|lia]. exfalso. auto.
Qed.

(** The fuel of a round whose request is unmet, or met at once. *)
Definition enough (fuel : nat) (q : list Z) (want : Z) : Prop :=
  (if want <=? len q then 1 else 0) + Z.max 0 (maxSniffBufferSize - len q) + 1 ≤ Z.of_nat fuel.

Lemma enough_next fuel q x want nextWant :
  enough (S fuel) q want → want ≤ len (q ++ x) → (want ≤ maxSniffBufferSize ∨ want ≤ len q) → len (q ++ x) < nextWant →
  enough fuel (q ++ x) nextWant.
Proof.
  unfold enough. rewrite len_app. pose proof (len_nonneg x). intros He Hw Hb Hn.
  destruct (Z.leb_spec nextWant (len q + len x)); [lia|]. destruct (Z.leb_spec want (len q)); lia.
Qed.

Lemma least_positive data l nextWant : least data l nextWant → l ≠ [] → len data < nextWant.
Proof. intros [Hall Hl] Hne. destruct l as [|c0 l]; [done|]. destruct Hl as (c & Hc & <-). by apply Hall. Qed.

Lemma least_nil data : least data [] 0.
Proof. split; [by intros c ?%not_elem_of_nil|done]. Qed.

(** The sniffers of the candidates after a pass are among those before it. *)
Lemma kept_sniffer data c c' : kept data c c' → csniffer c' = csniffer c.
Proof. by intros [[_ ->]|(_ & n & _ & _ & ->)]. Qed.

Definition among (ss : list configuredSniffer) (cands : list candidate) : Prop := ∀ c, c ∈ cands → csniffer c ∈ ss.

Lemma sniff_rounds_spec fuel c q l cap cands want ss :
  holds c q l cap → among ss cands → 0 < want → enough fuel q want →
  (∀ s b, s ∈ ss → b `prefix_of` q ++ stream l → is_Some (SniffData (sniffer s) b)) →
  ∃ c' r q' l' cap', sniff_rounds IsDomainName fuel c cands want = Some (c', r) ∧ holds c' q' l' cap' ∧
    q ++ stream l = q' ++ stream l' ∧ Z.of_nat cap' ≤ Z.max (Z.of_nat cap) maxSniffBufferSize ∧
    (∀ h cfg, r = Ok (h, cfg) → ∃ s, s ∈ ss ∧ SniffData (sniffer s) q' = Some (Found h) ∧ valid h = true ∧ cfg = config s).
Proof.
  revert c q l cap cands want. induction fuel as [|fuel IH]; intros c q l cap cands want Hc Hin Hw Hf Hans.
  { unfold enough in Hf. destruct (want <=? len q); lia. }
  destruct (decide (cands = [])) as [->|Hne].
  { exists c, (Err ErrorSniffFailed), q, l, cap. split_and!; try done. lia. }
  destruct (round_cases fuel c q l cap cands want Hc Hne Hw) as [(-> & _)|(Hb & c' & x & l' & cap' & Hc' & Hst & Hcap & [(-> & _)|(Hm & _ & ->)])].
  - exists c, (Err ErrBufferFull), q, l, cap. split_and!; try done. lia.
  - exists c', (Err ReadFailed), (q ++ x), l', cap'. rewrite Hst, (assoc_L (++)). done.
  - assert (q ++ stream l = (q ++ x) ++ stream l') as E by (by rewrite Hst, (assoc_L (++))).
    pose proof (scan_spec (q ++ x) cands [] 0) as Hp.
    assert (∀ c0, c0 ∈ cands → is_Some (ask c0 (q ++ x))) as Hans' by (intros c0 ?%Hin; apply Hans; [done|rewrite E; by apply prefix_app_r]).
    specialize (Hp Hans' (least_nil _)). destruct (scan _ _ _ _ _) as [[h cfg|rem nw]|]; [| |done]; cbn [mbind option_bind].
    + destruct Hp as (c0 & Hc0%Hin & Ha & Hv & ->). exists c', (Ok (h, config (csniffer c0))), (q ++ x), l', cap'. split_and!; try done.
      intros h' cfg [= <- <-]. by exists (csniffer c0).
    + destruct Hp as (Hl & Hrem & _). destruct (decide (rem = [])) as [->|Hrne].
      { destruct fuel as [|fuel]; [unfold enough in Hf; destruct (Z.leb_spec want (len q)); [lia|]; rewrite len_app in *; lia|].
        exists c', (Err ErrorSniffFailed), (q ++ x), l', cap'. done. }
      pose proof (least_positive _ _ _ Hl Hrne) as Hnw.
      destruct (IH c' (q ++ x) l' cap' rem nw Hc') as (c2 & r & q2 & l2 & cap2 & Hr & Hc2 & E2 & Hcap2 & Hs2).
      * intros c0 [?%not_elem_of_nil|(c1 & ?%Hin & Hk)]%Hrem; [done|]. by rewrite (kept_sniffer _ _ _ Hk).
      * pose proof (len_nonneg (q ++ x)). lia.
      * by eapply enough_next.
      * intros s b Hs Hpre. apply Hans; [done|by rewrite E].
      * exists c2, r, q2, l2, cap2. split_and!; try done; [by rewrite E|lia].
Qed.

(** ** Sniffers that keep their promises find what is there *)

(** [S] is the stream up to the first error of a read. *)
Definition lawful (S : list Z) (s : configuredSniffer) : Prop :=
  ∃ stream_ok, SnifferLaws (SniffData (sniffer s)) stream_ok ∧ stream_ok S.

Definition finds (S : list Z) (s : configuredSniffer) (h : string) : Prop := SniffData (sniffer s) S = Some (Found h).

(** A paused candidate waits for its own request. *)
Definition waiting (q : list Z) (cands : list candidate) : Prop :=
  ∀ c, c ∈ cands → len q < want c → ask c q = Some (NeedMore (want c)).

Lemma lawful_answers b x s : lawful (b ++ x) s → is_Some (SniffData (sniffer s) b).
Proof. intros (ok & Hl & Hok). apply (law_answers b), (law_prefix b x), Hok. Qed.

(** A sniffer that finds a host in the end has found it, or asks for bytes that will come. *)
Lemma lawful_progress b x s h :
  lawful (b ++ x) s → finds (b ++ x) s h →
  finds b s h ∨ ∃ n, SniffData (sniffer s) b = Some (NeedMore n) ∧ len b < n ≤ len (b ++ x).
Proof.
  intros Hlaw Hf. destruct (lawful_answers b x s Hlaw) as [v Hv]. destruct Hlaw as (ok & Hl & Hok). unfold finds in *. destruct v as [h'|n|].
  - left. rewrite (law_found b x h' Hok Hv) in Hf. by simplify_eq.
  - right. exists n. split; [done|]. split; [by eapply law_request, Hv; eapply law_prefix|].
    destruct (Z.le_gt_cases n (len (b ++ x))); [done|]. rewrite (law_wait b x n Hok Hv) in Hf by lia. done.
  - by rewrite (law_rejected b x Hok Hv) in Hf.
Qed.

Lemma waiting_after q x y cands rem :
  waiting q cands → (∀ c, c ∈ cands → lawful ((q ++ x) ++ y) (csniffer c)) →
  (∀ c', c' ∈ rem → ∃ c, c ∈ cands ∧ kept (q ++ x) c c') → waiting (q ++ x) rem.
Proof.
  intros Hw Hlaw Hrem c' Hc' Hlen. destruct (Hrem c' Hc') as (c & Hc & [[Hlt ->]|(_ & n & Ha & Hn & ->)]); [|done].
  destruct (Hlaw c Hc) as (ok & Hl & Hok). apply (law_wait q x); [by eapply law_prefix|apply Hw; [done|]|done].
  rewrite len_app in Hlt. pose proof (len_nonneg x). lia.
Qed.

(** The conditions under which a round is entered: the first one, or one after a pass. *)
Definition entered (q : list Z) (cands : list candidate) (want : Z) : Prop := want ≤ len q ∨ least q cands want.

Lemma sniff_rounds_complete fuel c q l cap cands want h0 :
  holds c q l cap → 0 < want → enough fuel q want → entered q cands want → waiting q cands →
  len (q ++ arrives l) ≤ maxSniffBufferSize → (∀ cand, cand ∈ cands → lawful (q ++ arrives l) (csniffer cand)) →
  (∃ cand, cand ∈ cands ∧ finds (q ++ arrives l) (csniffer cand) h0) → valid h0 = true →
  ∃ c' h cand, sniff_rounds IsDomainName fuel c cands want = Some (c', Ok (h, config (csniffer cand))) ∧ cand ∈ cands ∧
    finds (q ++ arrives l) (csniffer cand) h ∧ valid h = true.
Proof.
  revert c q l cap cands want. induction fuel as [|fuel IH]; intros c q l cap cands want Hc Hw Hf Hent Hwait Hmax Hlaw (target & Ht & Hfind) Hv.
  { unfold enough in Hf. destruct (want <=? len q); lia. }
  assert (want ≤ len (q ++ arrives l)) as Hreach.
  { destruct Hent as [?|[Hall _]]; [rewrite len_app; pose proof (len_nonneg (arrives l)); lia|]. destruct (Hall target Ht) as [Hlt Hle].
    destruct (lawful_progress q (arrives l) _ _ (Hlaw _ Ht) Hfind) as [Hq|(n & Hn & Hb)];
      pose proof (Hwait target Ht Hlt) as Ha; unfold ask, finds in *; [congruence|]. rewrite Ha in Hn. simplify_eq. lia. }
  destruct (round_cases fuel c q l cap cands want Hc) as [(_ & ? & ?)|(Hb & c' & x & l' & cap' & Hc' & Hst & Hcap & [(_ & ?)|(Hm & Har & ->)])];
    [by intros ->; apply not_elem_of_nil in Ht|done|lia|lia|].
  rewrite Har, (assoc_L (++)) in *. pose proof (scan_spec (q ++ x) cands [] 0) as Hp.
  specialize (Hp ltac:(intros c0 Hc0; eapply lawful_answers, Hlaw, Hc0) (least_nil _)).
  destruct (scan _ _ _ _ _) as [[h cfg|rem nw]|]; [| |done]; cbn [mbind option_bind].
  - destruct Hp as (c0 & Hc0 & Ha & Hvh & ->). exists c', h, c0. split; [done|]. split; [done|]. split; [|done].
    destruct (Hlaw c0 Hc0) as (ok & Hl & Hok). by apply law_found.
  - destruct Hp as (Hl & Hrem & Hno).
    assert (∃ t, t ∈ rem ∧ csniffer t = csniffer target) as (t & Htr & Ets).
    { destruct (Z.le_gt_cases (TlsSniffer.len (q ++ x) + 1) (Sniffer.want target)) as [Hlt|Hge].
      { exists target. split; [|done]. apply Hrem. right. exists target. split; [done|]. left. split; [lia|done]. }
      destruct (lawful_progress (q ++ x) (arrives l') _ _ (Hlaw _ Ht) Hfind) as [Hq|(n & Hn & Hb')].
      - rewrite (Hno target h0 Ht) in Hv; [done|lia|done].
      - exists (mkCandidate (csniffer target) n). split; [|done]. apply Hrem. right. exists target. split; [done|]. right. split; [lia|].
        exists n. split_and!; [done|lia|done]. }
    assert (∀ c0, c0 ∈ rem → ∃ c1, c1 ∈ cands ∧ kept (q ++ x) c1 c0) as Hkept
      by (intros c0 [?%not_elem_of_nil|?]%Hrem; done).
    pose proof (least_positive _ _ _ Hl ltac:(by intros ->; apply not_elem_of_nil in Htr)) as Hnw. pose proof (len_nonneg (q ++ x)).
    destruct (IH c' (q ++ x) l' cap' rem nw Hc') as (c2 & h & cand & Hr & Hcand & Hfc & Hvh);
      [lia|by eapply enough_next|by right|by eapply waiting_after|done| |exists t; by rewrite Ets|done|].
    + intros c0 (c1 & Hc1 & Hk)%Hkept. rewrite (kept_sniffer _ _ _ Hk). by apply Hlaw.
    + destruct (Hkept cand Hcand) as (c1 & Hc1 & Hk). exists c2, h, c1. rewrite <- (kept_sniffer _ _ _ Hk). done.
Qed.
End sniffing.

(** ** [sniffDomain] *)

Definition capacity (c : BufferedConn) : Z := match reader c with Some b => len (buf b) | None => 0 end.

Lemma holds_conn c b : reader c = Some b → conn_ok c → holds c (view c).1 (rd c) (length (buf b)).
Proof. intros Hb Hok. exists b. unfold conn_ok, view in *. by rewrite Hb in *. Qed.

Lemma holds_pending c q l cap : holds c q l cap → pending c = q ++ stream l ∧ capacity c = Z.of_nat cap ∧ conn_ok c.
Proof.
  intros (b & Hb & Hrep & <- & <-). unfold pending, view, capacity, conn_ok. rewrite Hb. cbn [fst snd]. rewrite (rep_buffered _ _ Hrep). done.
Qed.

Lemma candidates_spec sd m c : c ∈ candidates sd m ↔ want c = 1 ∧ csniffer c ∈ sniffers sd ∧ applicable (csniffer c) m = true.
Proof.
  unfold candidates. rewrite list_elem_of_fmap. setoid_rewrite list_elem_of_filter. split.
  - intros (s & -> & ? & ?). done.
  - intros (Hw & ? & ?). exists (csniffer c). destruct c. simpl in *. by subst.
Qed.

(** The first byte, then the rounds. *)
Lemma sniffDomain_start IsDomainName sd c q l cap m :
  holds c q l cap → candidates sd m ≠ [] →
  ∃ c' x l', holds c' (q ++ x) l' cap ∧ stream l = x ++ stream l' ∧
   ((sniffDomain IsDomainName sd c m = Some (c', Err ReadFailed) ∧ q ++ arrives l = []) ∨
    (0 < len (q ++ x) ∧ arrives l = x ++ arrives l' ∧
     sniffDomain IsDomainName sd c m = sniff_rounds IsDomainName sniff_fuel c' (candidates sd m) (len (q ++ x)))).
Proof.
  intros Hc Hne. unfold sniffDomain. destruct (candidates sd m) as [|cand cands] eqn:E; [done|].
  destruct (holds_Peek 1 c q l cap Hc) as (c' & x & l' & Hc' & Hst & -> & Har & Hen). cbn [mbind option_bind]. exists c', x, l'.
  split; [done|]. split; [done|]. destruct (bool_decide_reflect (1 ≤ length (q ++ x))%nat) as [Hn|Hn]; cbn [snd negb].
  - right. split; [unfold len; lia|]. split; [auto|]. rewrite (holds_Buffered _ _ _ _ Hc'). done.
  - left. split; [done|]. apply nil_length_inv. rewrite length_app. pose proof (holds_capacity _ _ _ _ Hc').
    destruct Hc as (b & _ & Hrep & _ & <-). pose proof (rep_capacity _ _ Hrep).
    destruct (decide (1 ≤ length q + length (arrives l))%nat) as [H1|]; [|lia]. exfalso. apply Hn, Hen; lia.
Qed.

Lemma enough_start q : 0 < len q → enough sniff_fuel q (len q).
Proof. intros Hq. unfold enough, sniff_fuel, maxSniffBufferSize. rewrite Z.leb_refl. lia. Qed.

Lemma sniffDomain_spec IsDomainName sd c q l cap m :
  holds c q l cap →
  (∀ s b, s ∈ sniffers sd → applicable s m = true → b `prefix_of` q ++ stream l → is_Some (SniffData (sniffer s) b)) →
  ∃ c' r q' l' cap', sniffDomain IsDomainName sd c m = Some (c', r) ∧ holds c' q' l' cap' ∧ q ++ stream l = q' ++ stream l' ∧
    Z.of_nat cap' ≤ Z.max (Z.of_nat cap) maxSniffBufferSize ∧
    (∀ h cfg, r = Ok (h, cfg) → ∃ s, s ∈ sniffers sd ∧ applicable s m = true ∧ SniffData (sniffer s) q' = Some (Found h) ∧
       isValidSniffHost IsDomainName h = true ∧ cfg = config s).
Proof.
  intros Hc Hans. destruct (decide (candidates sd m = [])) as [E|Hne].
  { unfold sniffDomain. rewrite E. exists c, (Err ErrorSniffFailed), q, l, cap. split_and!; try done. lia. }
  destruct (sniffDomain_start IsDomainName sd c q l cap m Hc Hne) as (c' & x & l' & Hc' & Hst & [(-> & _)|(Hpos & _ & ->)]).
  { exists c', (Err ReadFailed), (q ++ x), l', cap. rewrite Hst, (assoc_L (++)). split_and!; try done. lia. }
  assert (q ++ stream l = (q ++ x) ++ stream l') as E by (by rewrite Hst, (assoc_L (++))). rewrite E.
  pose proof (enough_start (q ++ x) Hpos) as Hen. revert Hen. generalize sniff_fuel. intros fuel Hen.
  destruct (sniff_rounds_spec IsDomainName fuel c' (q ++ x) l' cap (candidates sd m) (len (q ++ x)) (csniffer <$> candidates sd m) Hc')
    as (c2 & r & q2 & l2 & cap2 & Hr & Hc2 & E2 & Hcap2 & Hs2).
  - intros cand Hcand. apply list_elem_of_fmap. by exists cand.
  - done.
  - done.
  - intros s b (cand & -> & (_ & Hin & Happ)%candidates_spec)%list_elem_of_fmap Hb. apply Hans; [done|done|by rewrite E].
  - exists c2, r, q2, l2, cap2. split_and!; try done. intros h cfg ->.
    destruct (Hs2 h cfg eq_refl) as (s & (cand & -> & (_ & Hin & Happ)%candidates_spec)%list_elem_of_fmap & ?). by exists (csniffer cand).
Qed.

Lemma sniffDomain_complete IsDomainName sd c q l cap m s0 h0 :
  holds c q l cap → len (q ++ arrives l) ≤ maxSniffBufferSize → q ++ arrives l ≠ [] →
  (∀ s, s ∈ sniffers sd → applicable s m = true → lawful (q ++ arrives l) s) →
  s0 ∈ sniffers sd → applicable s0 m = true → finds (q ++ arrives l) s0 h0 → isValidSniffHost IsDomainName h0 = true →
  ∃ c' h s, sniffDomain IsDomainName sd c m = Some (c', Ok (h, config s)) ∧ s ∈ sniffers sd ∧ applicable s m = true ∧
    finds (q ++ arrives l) s h ∧ isValidSniffHost IsDomainName h = true.
Proof.
  intros Hc Hmax Hne Hlaw Hs0 Happ Hf Hv. assert (mkCandidate s0 1 ∈ candidates sd m) as Hcand by (by apply candidates_spec).
  destruct (sniffDomain_start IsDomainName sd c q l cap m Hc) as (c' & x & l' & Hc' & Hst & [(_ & ?)|(Hpos & Har & ->)]);
    [by intros E; rewrite E in Hcand; apply not_elem_of_nil in Hcand|done|].
  rewrite Har, (assoc_L (++)) in *.
  pose proof (enough_start (q ++ x) Hpos) as Hen. revert Hen. generalize sniff_fuel. intros fuel Hen.
  destruct (sniff_rounds_complete IsDomainName fuel c' (q ++ x) l' cap (candidates sd m) (len (q ++ x)) h0 Hc')
    as (c2 & h & cand & Hr & (_ & Hin & Ha)%candidates_spec & ? & ?); try done.
  - left. lia.
  - intros c0 (-> & _)%candidates_spec Hlt. lia.
  - intros cand (_ & ? & ?)%candidates_spec. by apply Hlaw.
  - by exists (mkCandidate s0 1).
  - by exists c2, h, (csniffer cand).
Qed.

Lemma arrives_prefix l : arrives l `prefix_of` stream l.
Proof.
  induction l as [|[a more|] l [y Hy]]; simpl; [done| |apply prefix_nil]. exists y. rewrite Hy. simpl. by rewrite (assoc_L (++)).
Qed.

(** A connection that is sniffed successfully. *)
Lemma TCPSniff_success IsDomainName sd now now' s c m c' h cfg :
  shouldOverride sd m = true → existsb (λ s, applicable s m) (sniffers sd) = true →
  (forceSniff sd m = true ∨ ∀ count, (Get now (cells s) (skipList s) (AddrPort m)).2 = Some count → count ≤ 5) →
  sniffDomain IsDomainName sd c m = Some (c', Ok (h, cfg)) → domainCanReplace IsDomainName sd h = true →
  ∃ s', TCPSniff IsDomainName sd now now' s c m = Some (s', c', replaceDomain m h (OverrideDest cfg), true).
Proof.
  intros Hov Happ Hskip Hsd Hrep. unfold TCPSniff. rewrite Hov, Happ. cbn [negb].
  assert (∀ s0, ∃ s', (let '(w, l) := Delete (cells s0) (skipList s0) (AddrPort m) in
    Some (mkSkips w l, c', replaceDomain m h (OverrideDest cfg), true)) = Some (s', c', replaceDomain m h (OverrideDest cfg), true)) as Hend
    by (intros s0; destruct (Delete (cells s0) (skipList s0) (AddrPort m)) as [w l]; eauto).
  destruct (forceSniff sd m) eqn:Ef.
  - rewrite Hsd. cbn [mbind option_bind]. rewrite Hrep. cbn [negb]. apply Hend.
  - destruct Hskip as [?|Hskip]; [done|]. destruct (Get now (cells s) (skipList s) (AddrPort m)) as [[w l] v]. cbn [snd] in Hskip.
    assert (match v with Some count => 5 <? count | None => false end = false) as ->
      by (destruct v as [count|]; [|done]; apply Z.ltb_ge; by apply Hskip).
    rewrite Hsd. cbn [mbind option_bind]. rewrite Hrep. cbn [negb]. apply (Hend (mkSkips w l)).
Qed.

(** ** Properties *)

(** C13. Sniffing a connection ends whatever the peer sends and however it sends it, without a panic; it consumes nothing of
    what the client sent, its buffer stays within 64 KiB or its former size, and a domain it returns is valid and is the
    answer of a configured sniffer for the port to a part of the stream, together with that sniffer's configuration. *)
Theorem sniff_domain_safe IsDomainName sd c m :
  conn_ok c → is_Some (reader c) →
  (∀ s b, s ∈ sniffers sd → applicable s m = true → b `prefix_of` pending c → is_Some (SniffData (sniffer s) b)) →
  ∃ c' r, sniffDomain IsDomainName sd c m = Some (c', r) ∧ conn_ok c' ∧ pending c' = pending c ∧
    capacity c' ≤ Z.max (capacity c) (64 * 1024) ∧
    (∀ h cfg, r = Ok (h, cfg) → ∃ s, s ∈ sniffers sd ∧ applicable s m = true ∧ cfg = config s ∧
       isValidSniffHost IsDomainName h = true ∧ ∃ b, b `prefix_of` pending c ∧ SniffData (sniffer s) b = Some (Found h)).
Proof.
  intros Hok [b Hb] Hans. pose proof (holds_conn c b Hb Hok) as Hc. destruct (holds_pending _ _ _ _ Hc) as (Hp & Hcap & _). rewrite Hp in *.
  destruct (sniffDomain_spec IsDomainName sd c _ _ _ m Hc Hans) as (c' & r & q' & l' & cap' & -> & Hc' & E & Hcap' & Hs).
  destruct (holds_pending _ _ _ _ Hc') as (Hp' & Hcap2 & Hok'). exists c', r. split_and!; try done; [by rewrite Hp'|rewrite Hcap, Hcap2; exact Hcap'|].
  intros h cfg Er. destruct (Hs h cfg Er) as (s & ? & ? & ? & ? & ?). exists s. split_and!; try done. exists q'. split; [|done].
  rewrite E. by apply prefix_app_r.
Qed.

(** If the applicable sniffers keep their promises and one of them finds a valid domain in the stream (of at most
    64 KiB), then sniffing returns a domain that an applicable sniffer finds in the whole stream, in whatever pieces the
    stream arrives. *)
Theorem sniff_domain_any_arrival IsDomainName sd c m s0 h0 :
  conn_ok c → is_Some (reader c) → let S := (view c).1 ++ arrives (rd c) in len S ≤ 64 * 1024 → S ≠ [] →
  (∀ s, s ∈ sniffers sd → applicable s m = true → lawful S s) →
  s0 ∈ sniffers sd → applicable s0 m = true → finds S s0 h0 → isValidSniffHost IsDomainName h0 = true →
  ∃ c' h s, sniffDomain IsDomainName sd c m = Some (c', Ok (h, config s)) ∧ s ∈ sniffers sd ∧ applicable s m = true ∧
    finds S s h ∧ isValidSniffHost IsDomainName h = true.
Proof. intros Hok [b Hb] S. apply (sniffDomain_complete IsDomainName sd c _ _ _ m s0 h0 (holds_conn c b Hb Hok)). Qed.

(** C9. From the wire to the metadata: when the TLS sniffer covers the port and the destination is not skipped, a client
    hello with a server name gives the connection that name, in whatever TLS records and network segments the hello
    arrives, and leaves every byte of it to be relayed. *)
Theorem tcp_sniff_finds_tls_name IsDomainName sd now now' s c m h chunks x cfg :
  conn_ok c → is_Some (reader c) →
  (view c).1 ++ arrives (rd c) = mjoin (record <$> chunks) ++ x → len ((view c).1 ++ arrives (rd c)) ≤ 64 * 1024 →
  byte_list (pending c) → hello_ok h → mjoin chunks = hello_bytes h → Forall chunk_ok chunks →
  sniffers sd = [mkConfigured (NewTLSSniffer cfg) cfg] → SupportPort (NewTLSSniffer cfg) (DstPort m) = true →
  shouldOverride sd m = true →
  (forceSniff sd m = true ∨ ∀ count, (Get now (cells s) (skipList s) (AddrPort m)).2 = Some count → count ≤ 5) →
  domainCanReplace IsDomainName sd (to_string (host_name h)) = true →
  ∃ s' c', TCPSniff IsDomainName sd now now' s c m =
             Some (s', c', replaceDomain m (to_string (host_name h)) (OverrideDest cfg), true) ∧
    pending c' = pending c.
Proof.
  intros Hok [b Hb] HS Hmax Hbytes Hh Hj Hch Hsn Hport Hov Hskip Hrep. pose proof (holds_conn c b Hb Hok) as Hc.
  set (tls := mkConfigured (NewTLSSniffer cfg) cfg) in *. set (S := (view c).1 ++ arrives (rd c)) in *.
  assert (applicable tls m = true) as Happ by done.
  destruct (holds_pending _ _ _ _ Hc) as (Hp & _ & _).
  assert (byte_list S) as HbS.
  { destruct (arrives_prefix (rd c)) as [y Hy]. rewrite Hp, Hy, (assoc_L (++)) in Hbytes. by apply Forall_app in Hbytes as [? _]. }
  assert (finds S tls (to_string (host_name h))) as Hfind.
  { unfold finds. rewrite HS. cbn. unfold TLSSniffer_SniffData.
    by rewrite (SniffTLS_final _ x _ (records_bytes _ Hch) (SniffTLS_finds h chunks Hh Hj Hch)). }
  assert (isValidSniffHost IsDomainName (to_string (host_name h)) = true) as Hval by (by apply andb_true_iff in Hrep as [? _]).
  destruct (sniffDomain_complete IsDomainName sd c _ _ _ m tls (to_string (host_name h)) Hc Hmax) as (c' & h' & s1 & Hsd & Hin & _ & Hf' & _); try done.
  { fold S. intros E. unfold finds in Hfind. rewrite E in Hfind. done. }
  { intros s1. rewrite Hsn, list_elem_of_singleton. intros -> _. exists byte_list. split; [apply _|done]. }
  { rewrite Hsn. left. }
  rewrite Hsn, list_elem_of_singleton in Hin. subst s1. fold S in Hf'. assert (h' = to_string (host_name h)) as -> by (unfold finds in *; congruence).
  destruct (sniffDomain_spec IsDomainName sd c _ _ _ m Hc) as (c2 & r & q' & l' & cap' & Hsd2 & Hc' & E & _).
  { intros s1 b1. rewrite Hsn, list_elem_of_singleton. intros -> _ [y Hy]. rewrite <- Hp, Hy in *.
    apply (law_answers (SnifferLaws := tls_laws)). by apply Forall_app in Hbytes as [? _]. }
  rewrite Hsd in Hsd2. simplify_eq. destruct (holds_pending _ _ _ _ Hc') as (Hp' & _ & _).
  assert (pending c2 = pending c) as Hpend by (by rewrite Hp, Hp').
  destruct (TCPSniff_success IsDomainName sd now now' s c m c2 (to_string (host_name h)) cfg Hov) as [s' Hs']; [|done|exact Hsd|done|by exists s', c2].
  rewrite Hsn. cbn [existsb]. fold tls. by rewrite Happ.
Qed.

(** ** A concrete dispatcher *)

Definition some_config : SnifferConfig := mkConfig true [].
Definition some_dispatcher : Dispatcher :=
  mkDispatcher true [mkConfigured (NewTLSSniffer some_config) some_config] [] [] [] [] false true.
Definition no_skips : skips := mkSkips (World ∅ []) (Lru.New [WithSize 128; WithAge 600]).
Definition to_443 : Metadata := set_DstPort empty_metadata 443.

(** The hello in two records, which arrive in three segments. *)
Definition some_chunks : list (list Z) := [take 3 (hello_bytes small_hello); drop 3 (hello_bytes small_hello)].
Definition some_wire : list Z := mjoin (record <$> some_chunks) ++ [1].
Definition cut_wire (i j : nat) : list event :=
  match take i some_wire, take j (drop i some_wire), drop j (drop i some_wire) with
  | a :: x, b :: y, c :: z => [Data a x; Data b y; Data c z]
  | _, _, _ => []
  end.
Definition some_conn : BufferedConn := NewBufferedConn (cut_wire 2 6).
Definition any_name (host : string) : bool := true.

Lemma sniff_domain_safe_witness :
  ∃ c' r, sniffDomain any_name some_dispatcher some_conn to_443 = Some (c', r) ∧ pending c' = pending some_conn.
Proof.
  destruct (sniff_domain_safe any_name some_dispatcher some_conn to_443) as (c' & r & ? & _ & ? & _); [apply new_conn_ok|by eexists| |eauto].
  intros s b ->%list_elem_of_singleton _ [y Hy]. apply (law_answers (SnifferLaws := tls_laws)).
  assert (byte_list (pending some_conn)) as Hb by (by apply (bool_decide_unpack _)). rewrite Hy in Hb. by apply Forall_app in Hb as [? _].
Defined.

Lemma sniff_domain_any_arrival_witness :
  ∃ c' h s, sniffDomain any_name some_dispatcher some_conn to_443 = Some (c', Ok (h, config s)).
Proof.
  destruct (sniff_domain_any_arrival any_name some_dispatcher some_conn to_443 (mkConfigured (NewTLSSniffer some_config) some_config) "a.b")
    as (c' & h & s & ? & _); [apply new_conn_ok|by eexists|vm_compute; congruence|done| |left|done|vm_compute; reflexivity|done|eauto].
  intros s ->%list_elem_of_singleton _. exists byte_list. split; [apply _|]. by apply (bool_decide_unpack _).
Defined.

Lemma tcp_sniff_finds_tls_name_witness :
  ∃ s' c', TCPSniff any_name some_dispatcher 0 0 no_skips some_conn to_443 = Some (s', c', replaceDomain to_443 "a.b" true, true).
Proof.
  destruct (tcp_sniff_finds_tls_name any_name some_dispatcher 0 0 no_skips some_conn to_443 small_hello some_chunks [1] some_config)
    as (s' & c' & H & _); [apply new_conn_ok|by eexists|reflexivity|vm_compute; congruence|by apply (bool_decide_unpack _)|exact small_hello_ok|reflexivity| |
      reflexivity|reflexivity|reflexivity|right; by intros count [=]|reflexivity|by exists s', c'].
  repeat constructor; try done; by apply (bool_decide_unpack _).
Defined.
