(* ===== verification/HttpSniffer.v ===== *)
(** * [component/sniffer/http_sniffer.go]: the host of an HTTP request

    HTTP/1 requests are cut up as byte lists, HTTP/2 connections frame by frame.  The
    HPACK decoder is a library and a parameter (class [Hpack]); so are the case tables
    outside ASCII.  An error is a value of [http_error]; [None] is a panic, or a loop
    that does not end within its fuel. *)

From Stdlib Require Import ZArith Lia Ascii.
From stdpp Require Import base list strings numbers.
From S2P Require Import Prelude GoStrings GoNet GoNetText Metadata Ranges GoIO TlsSniffer BufConn Sniffer.
#[local] Open Scope string_scope.
#[local] Open Scope list_scope.
#[local] Open Scope Z_scope.

(** [ErrNeed] is an [errNeedAtLeastData]. *)
Inductive http_error := ErrNotHTTP | ErrNoClue | ErrHostIsIP | ErrNeed (length : Z).

(** ** Byte slices *)

(** [bytes.HasPrefix]. *)
Fixpoint HasPrefixB (s p : list Z) {struct p} : bool :=
  match p, s with
  | [], _ => true
  | y :: p, x :: s => (x =? y) && HasPrefixB s p
  | _ :: _, [] => false
  end.

(** [bytes.Cut] around a separator that is not empty. *)
Fixpoint Cut (s sep : list Z) : option (list Z * list Z) :=
  if HasPrefixB s sep then Some ([], drop (length sep) s)
  else match s with
       | [] => None
       | x :: s => match Cut s sep with Some (before, after) => Some (x :: before, after) | None => None end
       end.

(** [uri[:i]] for [i = bytes.IndexAny(uri, chars)], [uri] itself if there is none. *)
Fixpoint upto_any (s chars : list Z) : list Z :=
  match s with
  | [] => []
  | x :: s => if bool_decide (x ∈ chars) then [] else x :: upto_any s chars
  end.

Definition crlf : list Z := [13; 10].
Definition httpMethods : list string :=
  ["GET"; "POST"; "HEAD"; "PUT"; "DELETE"; "OPTIONS"; "CONNECT"; "PATCH"; "TRACE"].
Definition h2ClientPreface : list Z := of_string "PRI * HTTP/2.0" ++ crlf ++ crlf ++ of_string "SM" ++ crlf ++ crlf.

(** ** HTTP/1 *)

Section http.
Context `{UnicodeCase}.

Definition isHTTPMethod (method : list Z) : bool := existsb (λ m, EqualFold (to_string method) m) httpMethods.

Definition isHTTPMethodPrefix (prefix : list Z) : bool :=
  existsb (λ m, (len prefix <=? Z.of_nat (String.length m)) && EqualFold (to_string prefix) (String.substring 0 (length prefix) m))
    httpMethods.

Definition is_dot (c : ascii) : bool := Ascii.eqb c ".".

Definition parseHost (h : list Z) : result http_error string :=
  match h with
  | [] => Err ErrNoClue
  | _ =>
      let hs := to_string h in
      let hs := match SplitHostPort hs with Some (host, _) => host | None => hs end in
      let hs := if HasPrefix hs "[" && HasSuffix hs "]" then String.substring 1 (String.length hs - 2) hs else hs in
      let hs := ToLower (trim_right is_dot hs) in
      if bool_decide (hs = "") then Err ErrNoClue
      else match ParseAddr hs with Some _ => Err ErrHostIsIP | None => Ok hs end
  end.

(** The loop over the header lines; [b] is the whole data. *)
Fixpoint header_loop (fuel : nat) (b rest : list Z) : option (result http_error string) :=
  match fuel with
  | O => None
  | S fuel =>
      match Cut rest crlf with
      | None => Some (Err (ErrNeed (len b + 1)))
      | Some ([], _) => Some (Err ErrNoClue)
      | Some (line, tail) =>
          match Cut line (of_string ":") with
          | Some (key, val) =>
              if EqualFold (to_string key) "host" then Some (parseHost (of_string (TrimSpace (to_string val))))
              else header_loop fuel b tail
          | None => header_loop fuel b tail
          end
      end
  end.

(** Every line takes at least its line break. *)
Definition parseHeaderHostH1 (b : list Z) : option (result http_error string) := header_loop (S (length b)) b b.

(** The host in a target that is not a path: after the scheme, before the path, after the user. *)
Definition authority_of (uri : list Z) : list Z :=
  let uri := match Cut uri (of_string "://") with Some (_, afterScheme) => afterScheme | None => uri end in
  let uri := upto_any uri (of_string "/?#") in
  match Cut uri (of_string "@") with Some (_, afterAt) => afterAt | None => uri end.

Definition sniffHTTP1 (b : list Z) : option (result http_error string) :=
  match Cut b (of_string " ") with
  | None => Some (Err (if isHTTPMethodPrefix b then ErrNeed (len b + 1) else ErrNotHTTP))
  | Some (method, _) =>
      if negb (isHTTPMethod method) then Some (Err ErrNotHTTP)
      else
        match Cut b crlf with
        | None => Some (Err (ErrNeed (len b + 1)))
        | Some (req, _) =>
            if len req <? 14 then Some (Err ErrNoClue)
            else
              match Cut req (of_string " ") with
              | None => Some (Err ErrNoClue)
              | Some (_, rest) =>
                  match Cut rest (of_string " ") with
                  | None => Some (Err ErrNoClue)
                  | Some ([], _) => Some (Err ErrNoClue)
                  | Some (c :: uri, _) =>
                      if (c =? 47) || (c =? 42) then parseHeaderHostH1 b
                      else match parseHost (authority_of (c :: uri)) with
                           | Err _ => parseHeaderHostH1 b
                           | Ok h => Some (Ok h)
                           end
                  end
              end
        end
  end.

(** ** HTTP/2 *)

(** An HPACK decoder: [Write] gives the header fields it completes, and whether the input is valid so far. *)
Class Hpack := {
  decoder : Type;
  newDecoder : Z → decoder;
  decoder_Write : decoder → list Z → decoder * list (string * string) * bool;
}.
Context `{Hpack}.

Definition h2FrameHeaderLen : Z := 9.
Definition h2FrameHeaders : Z := 0x1.
Definition h2FrameSettings : Z := 0x4.
Definition h2FrameContinuation : Z := 0x9.
Definition h2FlagAck : Z := 0x1.
Definition h2FlagEndHeaders : Z := 0x4.
Definition h2FlagPadded : Z := 0x8.
Definition h2FlagPriority : Z := 0x20.
Definition headerTableSize : Z := 4096.
Definition h2DefaultMaxFrameSize : Z := 2 ^ 14.

Record h2_state := mkH2 { authority : string; host_ : string; headerStreamID : Z; dec : decoder }.

(** The callback of the decoder, for one field. *)
Definition on_field (s : string * string) (f : string * string) : string * string :=
  if bool_decide (f.1 = ":authority") then (f.2, s.2)
  else if bool_decide (f.1 = "host") then (s.1, f.2) else s.

Inductive h2_round := HStop (r : result http_error string) | HNext (st : h2_state) (b : list Z).

Definition flag (flags f : Z) : bool := negb (Z.land flags f =? 0).

(** [b[i:j]], which panics out of range. *)
Definition slice (b : list Z) (i j : Z) : option (list Z) := bytes_at b i j.

(** The part of a HEADERS frame that holds the fragment; the inner [inr] is an early return, [None] a panic. *)
Definition fragment (b : list Z) (payloadOffset length frameType flags : Z) : option (Z * Z + http_error) :=
  let priority (s e : Z) : option (Z * Z + http_error) :=
    if flag flags h2FlagPriority then (if e - s <? 5 then Some (inr ErrNoClue) else Some (inl (s + 5, e))) else Some (inl (s, e)) in
  if frameType =? h2FrameHeaders then
    if flag flags h2FlagPadded then
      if length =? 0 then Some (inr ErrNoClue)
      else if len b =? 0 then Some (inr (ErrNeed (payloadOffset + 1)))
      else match at_ b 0 with
           | None => None
           | Some padLen => if length <=? padLen then Some (inr ErrNoClue) else priority 1 (length - padLen)
           end
    else priority 0 length
  else Some (inl (0, length)).

(** After the checks of the frame header: the fragment goes to the decoder. *)
Definition h2_block (total : Z) (st : h2_state) (b : list Z) (payloadOffset length frameType flags : Z) : option h2_round :=
  match fragment b payloadOffset length frameType flags with
  | None => None
  | Some (inr err) => Some (HStop (Err err))
  | Some (inl (fragmentStart, fragmentEnd)) =>
      let availableEnd := Z.min (len b) fragmentEnd in
      let rest (st : h2_state) : option h2_round :=
        if flag flags h2FlagEndHeaders && ((fragmentStart =? fragmentEnd) || (availableEnd =? fragmentEnd)) then
          Some (HStop (Err ErrNoClue))
        else if len b <? length then
          let want :=
            if availableEnd <? fragmentEnd then
              if len b <? fragmentStart then payloadOffset + fragmentStart + 1 else total + 1
            else payloadOffset + length in
          Some (HStop (Err (ErrNeed want)))
        else match slice b length (len b) with Some b => Some (HNext st b) | None => None end in
      if fragmentStart <? availableEnd then
        match slice b fragmentStart availableEnd with
        | None => None
        | Some x =>
            let '(d, fields, ok) := decoder_Write (dec st) x in
            let '(a, h) := fold_left on_field fields (authority st, host_ st) in
            let st := mkH2 a h (headerStreamID st) d in
            if negb (bool_decide (a = "")) then Some (HStop (parseHost (of_string a)))
            else if negb (bool_decide (h = "")) then Some (HStop (parseHost (of_string h)))
            else if negb ok then Some (HStop (Err ErrNoClue))
            else rest st
        end
      else rest st
  end.

(** One frame. *)
Definition h2_frame (total : Z) (st : h2_state) (b : list Z) : option h2_round :=
  match b with
  | b0 :: b1 :: b2 :: frameType :: flags :: s0 :: s1 :: s2 :: s3 :: b =>
      let length := Z.lor (Z.lor (Z.shiftl b0 16) (Z.shiftl b1 8)) b2 in
      let streamID := Z.land (Z.lor (Z.lor (Z.lor (Z.shiftl s0 24) (Z.shiftl s1 16)) (Z.shiftl s2 8)) s3) 0x7fffffff in
      let payloadOffset := total - len b in
      if (payloadOffset =? len h2ClientPreface + h2FrameHeaderLen) &&
         (negb (frameType =? h2FrameSettings) || flag flags h2FlagAck) then Some (HStop (Err ErrNoClue))
      else if h2DefaultMaxFrameSize <? length then Some (HStop (Err ErrNoClue))
      else if (frameType =? h2FrameSettings) &&
              (negb (streamID =? 0) || (flag flags h2FlagAck && negb (length =? 0)) ||
               (negb (flag flags h2FlagAck) && negb (length `mod` 6 =? 0))) then Some (HStop (Err ErrNoClue))
      else if (if headerStreamID st =? 0
               then (frameType =? h2FrameContinuation) || ((frameType =? h2FrameHeaders) && (streamID =? 0))
               else negb (frameType =? h2FrameContinuation) || negb (streamID =? headerStreamID st)) then Some (HStop (Err ErrNoClue))
      else if headerStreamID st =? 0 then
        if negb (frameType =? h2FrameHeaders) then
          if len b <? length then Some (HStop (Err (ErrNeed (payloadOffset + length))))
          else match slice b length (len b) with Some b => Some (HNext st b) | None => None end
        else h2_block total (mkH2 (authority st) (host_ st) streamID (dec st)) b payloadOffset length frameType flags
      else h2_block total st b payloadOffset length frameType flags
  | _ => Some (HStop (Err (ErrNeed (total - len b + h2FrameHeaderLen))))
  end.

Fixpoint h2_loop (fuel : nat) (total : Z) (st : h2_state) (b : list Z) : option (result http_error string) :=
  match fuel with
  | O => None
  | S fuel => match h2_frame total st b with
              | None => None
              | Some (HStop r) => Some r
              | Some (HNext st b) => h2_loop fuel total st b
              end
  end.

(** Every round takes a frame header. *)
Definition sniffHTTP2 (b : list Z) : option (result http_error string) :=
  match slice b (len h2ClientPreface) (len b) with
  | None => None
  | Some rest => h2_loop (S (length rest)) (len b) (mkH2 "" "" 0 (newDecoder headerTableSize)) rest
  end.

(** ** [SniffData] *)

Definition http_sniff (b : list Z) : option (result http_error string) :=
  if len b <? len h2ClientPreface then
    if HasPrefixB h2ClientPreface b then Some (Err (ErrNeed (len b + 1))) else sniffHTTP1 b
  else if HasPrefixB b h2ClientPreface then sniffHTTP2 b
  else sniffHTTP1 b.

Definition HTTPSniffer_SniffData (b : list Z) : option sniffed :=
  match http_sniff b with
  | None => None
  | Some (Ok host) => Some (Found host)
  | Some (Err (ErrNeed n)) => Some (NeedMore n)
  | Some (Err _) => Some Rejected
  end.

Definition NewHTTPSniffer (snifferConfig : SnifferConfig) : Sniffer :=
  let ports := match Ports snifferConfig with [] => [NewRange 80 80] | ports => ports end in
  NewBaseSniffer ports TCP HTTPSniffer_SniffData false.
End http.

(** ** Cutting *)

Lemma HasPrefixB_app s x p : HasPrefixB s p = true → HasPrefixB (s ++ x) p = true.
Proof.
  revert s. induction p as [|y p IH]; intros [|a s]; cbn [HasPrefixB app]; try done.
  intros [? ?]%andb_true_iff. apply andb_true_iff. auto.
Qed.

Lemma HasPrefixB_long s x p : (length p ≤ length s)%nat → HasPrefixB (s ++ x) p = HasPrefixB s p.
Proof.
  revert s. induction p as [|y p IH]; intros [|a s]; cbn [HasPrefixB app length]; try done; [lia|]. intros Hl. by rewrite IH by lia.
Qed.

Lemma HasPrefixB_iff s p : HasPrefixB s p = true ↔ p `prefix_of` s.
Proof.
  revert s. induction p as [|y p IH]; intros [|a s]; cbn [HasPrefixB].
  - split; [intros _; apply prefix_nil|done].
  - split; [intros _; apply prefix_nil|done].
  - split; [done|]. by intros [z ?].
  - rewrite andb_true_iff, Z.eqb_eq, IH. split; [by intros [-> ?%(prefix_cons y)]|].
    intros [z [= -> ->]]. split; [done|]. by exists z.
Qed.

Lemma Cut_spec s sep a r : Cut s sep = Some (a, r) → s = a ++ sep ++ r.
Proof.
  revert a r. induction s as [|x s IH]; intros a r; cbn [Cut].
  - destruct (HasPrefixB [] sep) eqn:E; [|done]. apply HasPrefixB_iff in E as [z Hz]. intros [= <- <-]. by destruct sep.
  - destruct (HasPrefixB (x :: s) sep) eqn:E.
    + apply HasPrefixB_iff in E as [z ->]. intros [= <- <-]. by rewrite drop_app_length.
    + destruct (Cut s sep) as [[a' r']|] eqn:Ec; [|done]. intros [= <- <-]. cbn [app]. by rewrite <- (IH a' r').
Qed.

Lemma Cut_app s x sep a r : Cut s sep = Some (a, r) → Cut (s ++ x) sep = Some (a, r ++ x).
Proof.
  revert a r. induction s as [|y s IH]; intros a r Hc.
  - pose proof (Cut_spec _ _ _ _ Hc) as E. destruct a, sep; try done. cbn in Hc. simplify_eq. simpl. by destruct x.
  - pose proof (Cut_spec _ _ _ _ Hc) as E. cbn [Cut app] in *. destruct (HasPrefixB (y :: s) sep) eqn:Ep.
    + change (y :: s ++ x) with ((y :: s) ++ x). rewrite (HasPrefixB_app _ _ _ Ep). intros. simplify_eq.
      rewrite drop_app_le; [done|]. rewrite E. rewrite !length_app. lia.
    + destruct (Cut s sep) as [[a' r']|] eqn:Ec; [|done]. simplify_eq. change (y :: s ++ x) with ((y :: s) ++ x).
      rewrite HasPrefixB_long, Ep, (IH _ _ eq_refl) by (done || (rewrite E, !length_app; lia)). done.
Qed.

(** A single separator byte that does not occur in the first part. *)
Lemma Cut_byte_None s c : Cut s [c] = None ↔ c ∉ s.
Proof.
  induction s as [|y s IH]; cbn [Cut HasPrefixB].
  - split; [intros _; apply not_elem_of_nil|done].
  - rewrite andb_true_r, not_elem_of_cons. destruct (Z.eqb_spec y c) as [->|Hy]; [split; [done|by intros [? _]]|].
    destruct (Cut s [c]) as [[a r]|] eqn:E; [|split; [intros _; split; [done|by apply IH]|done]].
    split; [done|]. intros [_ Hs]. by apply IH in Hs.
Qed.

Lemma Cut_byte s c r : c ∉ s → Cut (s ++ c :: r) [c] = Some (s, r).
Proof.
  induction s as [|y s IH]; intros Hs; cbn [Cut HasPrefixB app].
  - by rewrite Z.eqb_refl.
  - apply not_elem_of_cons in Hs as [Hy Hs]. rewrite andb_true_r. destruct (Z.eqb_spec y c) as [->|_]; [done|]. by rewrite IH.
Qed.

Lemma Cut_crlf s r : 13 ∉ s → Cut (s ++ crlf ++ r) crlf = Some (s, r).
Proof.
  induction s as [|y s IH]; intros Hs; [done|]. apply not_elem_of_cons in Hs as [Hy Hs]. specialize (IH Hs).
  cbn [app Cut]. rewrite IH. cbn [HasPrefixB crlf]. destruct (Z.eqb_spec y 13) as [->|_]; [done|done].
Qed.

(** ** Answers on every input *)

Section theory.
Context `{UnicodeCase} `{Hpack}.

Definition request_of (r : result http_error string) : option Z := match r with Err (ErrNeed n) => Some n | _ => None end.

Lemma parseHost_final h : request_of (parseHost h) = None.
Proof.
  unfold parseHost. destruct h; [done|]. cbv zeta. destruct (bool_decide _); [done|]. by destruct (ParseAddr _).
Qed.

Lemma header_loop_total fuel b rest :
  (length rest < fuel)%nat → ∃ r, header_loop fuel b rest = Some r ∧ ∀ n, request_of r = Some n → n = len b + 1.
Proof.
  revert rest. induction fuel as [|fuel IH]; intros rest Hf; [lia|]. cbn [header_loop].
  destruct (Cut rest crlf) as [[line tail]|] eqn:E; [|eexists; split; [done|]; by intros n [= <-]].
  apply Cut_spec in E. assert (length tail < fuel)%nat as Ht by (rewrite E, !length_app in Hf; simpl in Hf; lia).
  destruct line as [|c line]; [by eexists|]. destruct (Cut (c :: line) _) as [[key val]|]; [|by apply IH].
  destruct (EqualFold _ _); [|by apply IH]. eexists. split; [done|]. intros n. by rewrite parseHost_final.
Qed.

Lemma parseHeaderHostH1_total b : ∃ r, parseHeaderHostH1 b = Some r ∧ ∀ n, request_of r = Some n → n = len b + 1.
Proof. apply header_loop_total. lia. Qed.

Lemma sniffHTTP1_total b : ∃ r, sniffHTTP1 b = Some r ∧ ∀ n, request_of r = Some n → n = len b + 1.
Proof.
  unfold sniffHTTP1. destruct (Cut b (of_string " ")) as [[method r0]|].
  2:{ eexists. split; [done|]. destruct (isHTTPMethodPrefix b); [|done]. by intros n [= <-]. }
  destruct (negb (isHTTPMethod method)); [by eexists|].
  destruct (Cut b crlf) as [[req r1]|]; [|eexists; split; [done|]; by intros n [= <-]].
  destruct (len req <? 14); [by eexists|]. destruct (Cut req (of_string " ")) as [[? rest]|]; [|by eexists].
  destruct (Cut rest (of_string " ")) as [[[|c uri] ?]|]; [by eexists| |by eexists].
  destruct ((c =? 47) || (c =? 42)); [apply parseHeaderHostH1_total|].
  destruct (parseHost (authority_of (c :: uri))) as [h|e]; [by eexists|apply parseHeaderHostH1_total].
Qed.

(** A frame ends the sniffing, asking for more than there is if it asks, or takes its header and payload off the data. *)
Definition frame_ok (total : Z) (b : list Z) (r : option h2_round) : Prop :=
  match r with
  | None => False
  | Some (HStop r) => ∀ n, request_of r = Some n → total < n
  | Some (HNext _ b') => byte_list b' ∧ (length b' < length b)%nat
  end.

Lemma frame_ok_weaken total b b0 r : (length b ≤ length b0)%nat → frame_ok total b r → frame_ok total b0 r.
Proof. intros Hl. destruct r as [[r|st b']|]; [done| |done]. intros [? ?]. split; [done|lia]. Qed.

Lemma slice_tail b length : byte_list b → 0 ≤ length ≤ len b → slice b length (len b) = Some (drop (Z.to_nat length) b) ∧ byte_list (drop (Z.to_nat length) b).
Proof.
  intros Hb Hl. unfold slice. rewrite bytes_at_some by lia. split; [|by apply Forall_drop]. f_equal. apply take_ge. rewrite length_drop. unfold len in *. lia.
Qed.

Lemma fragment_spec b payloadOffset length frameType flags :
  byte_list b → 0 ≤ length →
  match fragment b payloadOffset length frameType flags with
  | None => False
  | Some (inr e) => ∀ n, e = ErrNeed n → n = payloadOffset + 1 ∧ len b = 0
  | Some (inl (fs, fe)) => 0 ≤ fs ∧ fe ≤ length
  end.
Proof.
  intros Hb Hl. unfold fragment. destruct (frameType =? h2FrameHeaders); [|lia]. destruct (flag flags h2FlagPadded).
  - destruct (length =? 0); [done|]. destruct (Z.eqb_spec (len b) 0) as [E|Hne]; [intros n [= <-]; done|].
    destruct b as [|p b]; [done|]. change (at_ (p :: b) 0) with (Some p). cbv iota. apply list.Forall_cons in Hb as [Hp _].
    destruct (length <=? p); [done|]. destruct (flag flags h2FlagPriority); [|lia]. destruct (_ <? 5); [done|lia].
  - destruct (flag flags h2FlagPriority); [|lia]. destruct (_ <? 5); [done|lia].
Qed.

Lemma h2_block_ok total st b payloadOffset length frameType flags :
  byte_list b → 0 ≤ length → payloadOffset = total - len b →
  match h2_block total st b payloadOffset length frameType flags with
  | None => False
  | Some (HStop r) => ∀ n, request_of r = Some n → total < n
  | Some (HNext _ b') => byte_list b' ∧ (List.length b' ≤ List.length b)%nat
  end.
Proof.
  intros Hb Hl Ho. unfold h2_block. pose proof (fragment_spec b payloadOffset length frameType flags Hb Hl) as Hf.
  destruct (fragment _ _ _ _ _) as [[[fs fe]|e]|]; [| |done].
  2:{ intros n. simpl. destruct e; try done. intros [= <-]. destruct (Hf length0 eq_refl). lia. }
  destruct Hf as [Hs He]. cbv zeta.
  assert (∀ st0 : h2_state, match
    (if flag flags h2FlagEndHeaders && ((fs =? fe) || (Z.min (len b) fe =? fe)) then Some (HStop (Err ErrNoClue))
     else if len b <? length then
       Some (HStop (Err (ErrNeed (if Z.min (len b) fe <? fe then if len b <? fs then payloadOffset + fs + 1 else total + 1
                                  else payloadOffset + length))))
     else match slice b length (len b) with Some b => Some (HNext st0 b) | None => None end) with
    | None => False
    | Some (HStop r) => ∀ n, request_of r = Some n → total < n
    | Some (HNext _ b') => byte_list b' ∧ (List.length b' ≤ List.length b)%nat
    end) as Hrest.
  { intros st0. destruct (_ && _); [done|]. destruct (Z.ltb_spec (len b) length).
    - intros n [= <-]. destruct (Z.ltb_spec (Z.min (len b) fe) fe); [|lia]. destruct (Z.ltb_spec (len b) fs); lia.
    - destruct (slice_tail b length Hb) as [-> Hd]; [lia|]. split; [done|]. rewrite length_drop. lia. }
  destruct (Z.ltb_spec fs (Z.min (len b) fe)); [|apply Hrest]. unfold slice at 1. rewrite bytes_at_some by lia.
  destruct (decoder_Write _ _) as [[d fields] ok]. destruct (fold_left _ _ _) as [a h]. cbn [headerStreamID].
  destruct (negb (bool_decide (a = ""))); [intros n; by rewrite parseHost_final|].
  destruct (negb (bool_decide (h = ""))); [intros n; by rewrite parseHost_final|]. destruct (negb ok); [done|]. apply Hrest.
Qed.

Lemma h2_frame_ok total st b : byte_list b → len b ≤ total → frame_ok total b (h2_frame total st b).
Proof.
  intros Hb Ht. assert (len b < 9 → ∀ n, request_of (Err (ErrNeed (total - len b + h2FrameHeaderLen)) : result http_error string) = Some n → total < n) as Hshort
    by (intros ? n [= <-]; unfold h2FrameHeaderLen; lia).
  destruct b as [|b0 [|b1 [|b2 [|ft [|fl [|s0 [|s1 [|s2 [|s3 b]]]]]]]]]; try (cbn [h2_frame]; unfold frame_ok; apply Hshort; unfold len; simpl; lia). clear Hshort.
  repeat (apply list.Forall_cons in Hb as [? Hb]). cbn [h2_frame]. unfold frame_ok.
  set (length := Z.lor _ b2). assert (0 ≤ length) as Hl by (unfold length; rewrite !Z.lor_nonneg, !Z.shiftl_nonneg; lia). clearbody length.
  set (sid := Z.land _ _). clearbody sid. cbn [List.length].
  destruct (_ && _); [done|]. destruct (_ <? length); [done|]. destruct (_ && _); [done|]. destruct (if headerStreamID st =? 0 then _ else _); [done|].
  assert (∀ st0, frame_ok total (b0 :: b1 :: b2 :: ft :: fl :: s0 :: s1 :: s2 :: s3 :: b) (h2_block total st0 b (total - len b) length ft fl)) as Hblock.
  { intros st0. pose proof (h2_block_ok total st0 b (total - len b) length ft fl Hb Hl eq_refl) as Hk.
    destruct (h2_block _ _ _ _ _ _ _) as [[r|st1 b']|]; [done| |done]. destruct Hk. split; [done|]. simpl. lia. }
  destruct (headerStreamID st =? 0); [|apply Hblock]. destruct (negb _); [|apply Hblock].
  destruct (Z.ltb_spec (len b) length); [intros n [= <-]; lia|].
  destruct (slice_tail b length Hb) as [-> Hd]; [lia|]. split; [done|]. rewrite length_drop. lia.
Qed.

Lemma h2_loop_ok fuel total st b :
  byte_list b → len b ≤ total → (length b < fuel)%nat → ∃ r, h2_loop fuel total st b = Some r ∧ ∀ n, request_of r = Some n → total < n.
Proof.
  revert st b. induction fuel as [|fuel IH]; intros st b Hb Ht Hf; [lia|]. cbn [h2_loop].
  pose proof (h2_frame_ok total st b Hb Ht) as Hk. destruct (h2_frame total st b) as [[r|st' b']|]; [by eexists| |done].
  destruct Hk as [Hb' Hlt]. apply IH; [done| |lia]. unfold len in *. lia.
Qed.

Lemma http_sniff_total b : byte_list b → ∃ r, http_sniff b = Some r ∧ ∀ n, request_of r = Some n → len b < n.
Proof.
  intros Hb. assert (∃ r, sniffHTTP1 b = Some r ∧ ∀ n, request_of r = Some n → len b < n) as H1.
  { destruct (sniffHTTP1_total b) as (r & Hr & Hn). exists r. split; [done|]. intros n ->%Hn. lia. }
  unfold http_sniff. destruct (Z.ltb_spec (len b) (len h2ClientPreface)).
  - destruct (HasPrefixB h2ClientPreface b); [|done]. eexists. split; [done|]. intros n [= <-]. lia.
  - destruct (HasPrefixB b h2ClientPreface); [|done]. unfold sniffHTTP2.
    destruct (slice_tail b (len h2ClientPreface) Hb) as [-> Hd]; [pose proof (len_nonneg h2ClientPreface); lia|].
    apply h2_loop_ok; [done| |lia]. unfold len. rewrite length_drop. lia.
Qed.

(** ** Plain streams: ASCII, and not the preface of HTTP/2 *)

Definition ascii_bytes (b : list Z) : Prop := Forall (λ x, 0 ≤ x < 128) b.
Definition plain_stream (b : list Z) : Prop := ascii_bytes b ∧ HasPrefixB b h2ClientPreface = false.

Lemma to_string_app a b : to_string (a ++ b) = to_string a +:+ to_string b.
Proof. induction a as [|x a IH]; [done|]. change (to_string ((x :: a) ++ b)) with (String (byte_of x) (to_string (a ++ b))). by rewrite IH. Qed.

Lemma length_to_string b : String.length (to_string b) = length b.
Proof. induction b as [|x b IH]; [done|]. change (S (String.length (to_string b)) = S (length b)). by rewrite IH. Qed.

Lemma ascii_to_string b : ascii_bytes b → all_ascii (to_string b) = true.
Proof.
  induction 1 as [|x b Hx _ IH]; [done|]. change (all_ascii (String (byte_of x) (to_string b)) = true). cbn [all_ascii]. rewrite IH, andb_true_r.
  unfold is_ascii, byte_val, byte_of. rewrite N_ascii_embedding; rewrite Z.mod_small by lia; [|lia]. apply Z.ltb_lt. lia.
Qed.

(** The first bytes of a string. *)
Definition pre (n : nat) (s : string) : string := String.substring 0 n s.

Lemma all_ascii_pre n s : all_ascii s = true → all_ascii (pre n s) = true.
Proof.
  revert n. induction s as [|c s IH]; intros [|n]; try done. unfold pre in *. cbn [String.substring all_ascii].
  rewrite !andb_true_iff. intros [? ?]. auto.
Qed.

Lemma pre_pre n k s : (n ≤ k)%nat → pre n (pre k s) = pre n s.
Proof. revert n k. induction s as [|c s IH]; intros [|n] [|k] Hn; try done; [lia|]. unfold pre in *. cbn. f_equal. apply IH. lia. Qed.

Lemma map_bytes_pre f s1 s2 m :
  map_bytes f (s1 +:+ s2) = map_bytes f m →
  (String.length s1 ≤ String.length m)%nat ∧ map_bytes f s1 = map_bytes f (pre (String.length s1) m).
Proof.
  revert m. induction s1 as [|c s1 IH]; intros m Hm; [split; [simpl; lia|by destruct m]|]. destruct m as [|d m]; [done|].
  change (map_bytes f (String c s1 +:+ s2)) with (String (f c) (map_bytes f (s1 +:+ s2))) in Hm. cbn [map_bytes] in Hm.
  injection Hm as Hc Hm. destruct (IH m Hm) as [Hl He]. unfold pre in *. cbn [String.length String.substring map_bytes].
  split; [lia|]. by rewrite Hc, He.
Qed.

Lemma EqualFold_ascii s t : all_ascii s = true → all_ascii t = true → EqualFold s t = bool_decide (map_bytes lower_byte s = map_bytes lower_byte t).
Proof. intros Hs Ht. unfold EqualFold. by rewrite Hs, Ht. Qed.

Lemma methods_ascii m : m ∈ httpMethods → all_ascii m = true.
Proof. intros Hm. assert (Forall (λ m, all_ascii m = true) httpMethods) as Ha by (by apply (bool_decide_unpack _)). by apply (proj1 (list.Forall_forall _ _) Ha). Qed.

(** What starts with bytes that start no method is no method. *)
Lemma fold_prefix b x m :
  ascii_bytes (b ++ x) → all_ascii m = true → EqualFold (to_string (b ++ x)) m = true →
  (length b ≤ String.length m)%nat ∧ EqualFold (to_string b) (pre (length b) m) = true.
Proof.
  intros Ha Hm. pose proof Ha as [Hb _]%Forall_app. rewrite !EqualFold_ascii by auto using ascii_to_string, all_ascii_pre.
  rewrite bool_decide_eq_true, to_string_app. intros Hf%map_bytes_pre. rewrite length_to_string in Hf.
  split; [lia|]. apply bool_decide_eq_true. apply Hf.
Qed.

Lemma method_prefix b x : ascii_bytes (b ++ x) → isHTTPMethod (b ++ x) = true → isHTTPMethodPrefix b = true.
Proof.
  intros Ha. unfold isHTTPMethod, isHTTPMethodPrefix. rewrite !existsb_exists. intros (m & Hm & Hf). exists m. split; [done|].
  destruct (fold_prefix b x m Ha) as [Hl Hp]; [by apply methods_ascii, list_elem_of_In|done|]. unfold pre in Hp. rewrite Hp, andb_true_r.
  apply Z.leb_le. unfold len. lia.
Qed.

Lemma prefix_prefix b x : ascii_bytes (b ++ x) → isHTTPMethodPrefix (b ++ x) = true → isHTTPMethodPrefix b = true.
Proof.
  intros Ha. unfold isHTTPMethodPrefix. rewrite !existsb_exists. intros (m & Hm & [Hl%Z.leb_le Hf]%andb_true_iff). exists m. split; [done|].
  assert (all_ascii m = true) as Hma by (by apply methods_ascii, list_elem_of_In).
  destruct (fold_prefix b x (pre (length (b ++ x)) m) Ha) as [_ Hp]; [by apply all_ascii_pre|done|].
  rewrite pre_pre in Hp by (rewrite length_app; lia). unfold pre in Hp. rewrite Hp, andb_true_r. apply Z.leb_le.
  rewrite len_app in Hl. pose proof (len_nonneg x). lia.
Qed.

(** ** Answers stay *)

Lemma header_loop_stable fuel fuel' b x rest r :
  (fuel ≤ fuel')%nat → header_loop fuel b rest = Some r → request_of r = None → header_loop fuel' (b ++ x) (rest ++ x) = Some r.
Proof.
  revert fuel' rest. induction fuel as [|fuel IH]; intros fuel' rest Hf Hr Hn; [done|]. destruct fuel' as [|fuel']; [lia|].
  cbn [header_loop] in *. destruct (Cut rest crlf) as [[line tail]|] eqn:E; [|simplify_eq; done]. rewrite (Cut_app _ _ _ _ _ E).
  destruct line as [|c line]; [done|]. destruct (Cut (c :: line) _) as [[key val]|]; [|by apply IH; [lia|..]].
  destruct (EqualFold _ _); [done|]. by apply IH; [lia|..].
Qed.

Lemma parseHeaderHostH1_stable b x r :
  parseHeaderHostH1 b = Some r → request_of r = None → parseHeaderHostH1 (b ++ x) = Some r.
Proof. apply header_loop_stable. rewrite length_app. lia. Qed.

Lemma sniffHTTP1_stable b x r :
  ascii_bytes (b ++ x) → sniffHTTP1 b = Some r → request_of r = None → sniffHTTP1 (b ++ x) = Some r.
Proof.
  intros Ha. unfold sniffHTTP1. destruct (Cut b (of_string " ")) as [[method r0]|] eqn:E.
  - rewrite (Cut_app _ _ _ _ _ E). destruct (negb (isHTTPMethod method)); [done|].
    destruct (Cut b crlf) as [[req r1]|] eqn:E1; [rewrite (Cut_app _ _ _ _ _ E1)|by intros [= <-]].
    destruct (len req <? 14); [done|]. destruct (Cut req (of_string " ")) as [[? rest]|]; [|done].
    destruct (Cut rest (of_string " ")) as [[[|c uri] ?]|]; [done| |done].
    destruct ((c =? 47) || (c =? 42)); [apply parseHeaderHostH1_stable|].
    destruct (parseHost (authority_of (c :: uri))) as [h|e]; [done|apply parseHeaderHostH1_stable].
  - intros [= <-]. destruct (isHTTPMethodPrefix b) eqn:Ep; [done|]. intros _. change (of_string " ") with [32] in *.
    apply Cut_byte_None in E. destruct (Cut (b ++ x) [32]) as [[method r0]|] eqn:E'.
    + assert (isHTTPMethod method = false) as ->; [|done]. apply not_true_is_false. intros Hm. apply Cut_spec in E'.
      assert (∃ y, method = b ++ y ∧ ascii_bytes (b ++ y)) as (y & -> & Hay).
      { apply app_eq_inv in E' as [(k & -> & Hk)|(k & -> & Hk)].
        - destruct k as [|c k]; [exists []; rewrite !app_nil_r in *; split; [done|by apply Forall_app in Ha as [? _]]|].
          simpl in Hk. simplify_eq. exfalso. apply E. apply elem_of_app. right. left.
        - exists k. split; [done|]. rewrite Hk, (assoc_L (++)) in Ha. by apply Forall_app in Ha as [? _]. }
      by rewrite (method_prefix b y) in Ep.
    + assert (isHTTPMethodPrefix (b ++ x) = false) as ->; [|done]. apply not_true_is_false. intros Hm. by rewrite (prefix_prefix b x) in Ep.
Qed.

Lemma plain_stream_prefix b x : plain_stream (b ++ x) → plain_stream b.
Proof.
  intros [Ha Hp]. split; [by apply Forall_app in Ha as [? _]|]. apply not_true_is_false. intros Ht. by rewrite (HasPrefixB_app _ x _ Ht) in Hp.
Qed.

(** On plain streams HTTP/2 only shows while the data may become its preface. *)
Lemma http_sniff_plain b :
  plain_stream b → http_sniff b = if HasPrefixB h2ClientPreface b then Some (Err (ErrNeed (len b + 1))) else sniffHTTP1 b.
Proof.
  intros [_ Hp]. unfold http_sniff. destruct (Z.ltb_spec (len b) (len h2ClientPreface)) as [|Hl]; [done|]. rewrite Hp.
  destruct (HasPrefixB h2ClientPreface b) eqn:E; [|done]. exfalso. apply HasPrefixB_iff in E as [y Hy].
  assert (y = []) as -> by (apply nil_length_inv; rewrite Hy, len_app in Hl; unfold len in Hl; lia).
  rewrite app_nil_r in Hy. rewrite <- Hy in Hp. done.
Qed.

Lemma http_sniff_stable b x r :
  plain_stream (b ++ x) → http_sniff b = Some r → request_of r = None → http_sniff (b ++ x) = Some r.
Proof.
  intros Hp. rewrite (http_sniff_plain b (plain_stream_prefix _ _ Hp)), (http_sniff_plain _ Hp).
  destruct (HasPrefixB h2ClientPreface b) eqn:E; [by intros [= <-]|].
  destruct (HasPrefixB h2ClientPreface (b ++ x)) eqn:E'.
  - apply HasPrefixB_iff in E' as [y Hy]. rewrite Hy, <- app_assoc in E. exfalso.
    assert (HasPrefixB (b ++ x ++ y) b = true) as Ht by (apply HasPrefixB_iff; by apply prefix_app_r). congruence.
  - apply sniffHTTP1_stable, Hp.
Qed.

#[export] Instance http_laws : SnifferLaws HTTPSniffer_SniffData plain_stream.
Proof.
  assert (∀ b, plain_stream b → byte_list b) as Hbytes by (intros b [Ha _]; eapply list.Forall_impl; [exact Ha|]; simpl; lia).
  assert (∀ b n, plain_stream b → HTTPSniffer_SniffData b = Some (NeedMore n) → n = len b + 1) as Hreq.
  { intros b n Hp. unfold HTTPSniffer_SniffData. rewrite (http_sniff_plain b Hp).
    destruct (HasPrefixB h2ClientPreface b); [by intros [= <-]|]. destruct (sniffHTTP1_total b) as (r & -> & Hr).
    destruct r as [h|[| | |k]]; try done. intros [= <-]. by apply Hr. }
  constructor.
  - exact plain_stream_prefix.
  - intros b Hp. unfold HTTPSniffer_SniffData. destruct (http_sniff_total b (Hbytes b Hp)) as (r & -> & _). destruct r as [h|[| | |k]]; eauto.
  - intros b n Hp ->%Hreq; [lia|done].
  - intros b x n Hp Hs Hl. rewrite (Hreq b n (plain_stream_prefix _ _ Hp) Hs) in Hl. rewrite len_app in Hl. unfold len in Hl.
    assert (x = []) as -> by (apply nil_length_inv; lia). by rewrite app_nil_r.
  - intros b x h Hp. unfold HTTPSniffer_SniffData. destruct (http_sniff b) as [r|] eqn:E; [|done].
    destruct r as [h'|[| | |k]]; try done. intros [= ->]. by rewrite (http_sniff_stable b x (Ok h)).
  - intros b x Hp. unfold HTTPSniffer_SniffData. destruct (http_sniff b) as [r|] eqn:E; [|done].
    destruct r as [h'|[| | |k]]; try done; intros _; by rewrite (http_sniff_stable b x _ Hp E).
Qed.

(** ** Requests *)

(** A line that is not a Host field. *)
Definition not_host (line : list Z) : Prop :=
  line ≠ [] ∧ (13 ∉ line) ∧ match Cut line (of_string ":") with Some (key, _) => EqualFold (to_string key) "host" = false | None => True end.

Record request := mkRequest {
  method : list Z; target : list Z; version : list Z; fields : list (list Z); host_key : list Z; host_value : list Z; after : list Z;
}.

Definition request_line (r : request) : list Z := method r ++ 32 :: target r ++ 32 :: version r.
Definition request_bytes (r : request) : list Z :=
  mjoin ((λ l, l ++ crlf) <$> (request_line r :: fields r)) ++ host_key r ++ [58] ++ host_value r ++ crlf ++ after r.

(** A request for a path whose first Host field names [h]. *)
Record request_ok (r : request) (h : string) : Prop := {
  ok_method : isHTTPMethod (method r) = true ∧ 32 ∉ method r;
  ok_target : head (target r) = Some 47 ∧ 32 ∉ target r;
  ok_line : not_host (request_line r) ∧ 14 ≤ len (request_line r);
  ok_fields : Forall not_host (fields r);
  ok_key : EqualFold (to_string (host_key r)) "host" = true ∧ (13 ∉ host_key r) ∧ (58 ∉ host_key r);
  ok_value : (13 ∉ host_value r) ∧ parseHost (of_string (TrimSpace (to_string (host_value r)))) = Ok h;
}.

Lemma header_loop_finds fuel b lines key val rest h :
  Forall not_host lines → EqualFold (to_string key) "host" = true → 13 ∉ key → 58 ∉ key → 13 ∉ val →
  parseHost (of_string (TrimSpace (to_string val))) = Ok h → (length lines < fuel)%nat →
  header_loop fuel b (mjoin ((λ l, l ++ crlf) <$> lines) ++ key ++ [58] ++ val ++ crlf ++ rest) = Some (Ok h).
Proof.
  intros Hlines Hk Hk1 Hk2 Hv Hh. revert fuel. induction Hlines as [|line lines (Hne & Hcr & Hnot) _ IH]; intros fuel Hf;
    (destruct fuel as [|fuel]; [simpl in Hf; lia|]); cbn [header_loop].
  - change (mjoin ((λ l, l ++ crlf) <$> [])) with (@nil Z). cbn [app].
    assert (key ++ 58 :: val ++ crlf ++ rest = (key ++ 58 :: val) ++ crlf ++ rest) as -> by (by rewrite <- app_assoc).
    rewrite Cut_crlf by (rewrite elem_of_app, elem_of_cons; intros [?|[?|?]]; done).
    destruct (key ++ 58 :: val) as [|c l] eqn:E; [by destruct key|]. rewrite <- E. change (of_string ":") with [58].
    by rewrite (Cut_byte key 58 val Hk2), Hk, Hh.
  - change (mjoin ((λ l, l ++ crlf) <$> (line :: lines))) with ((line ++ crlf) ++ mjoin ((λ l, l ++ crlf) <$> lines)).
    rewrite <- !app_assoc, Cut_crlf by done. destruct line as [|c line]; [done|].
    destruct (Cut (c :: line) (of_string ":")) as [[k v]|]; [rewrite Hnot|]; apply IH; simpl in Hf; lia.
Qed.

Lemma sniffHTTP1_finds r h : request_ok r h → sniffHTTP1 (request_bytes r) = Some (Ok h) ∧ HasPrefixB h2ClientPreface (request_bytes r) = false ∧ HasPrefixB (request_bytes r) h2ClientPreface = false.
Proof.
  intros [[Hm Hm32] [Ht Ht32] [(Hne & Hcr & Hn) Hlen] Hf (Hk & Hk1 & Hk2) [Hv Hh]].
  set (rest := mjoin ((λ l, l ++ crlf) <$> fields r) ++ host_key r ++ [58] ++ host_value r ++ crlf ++ after r).
  assert (request_bytes r = request_line r ++ crlf ++ rest) as Eb.
  { unfold request_bytes, rest. change (mjoin ((λ l, l ++ crlf) <$> (request_line r :: fields r)))
      with ((request_line r ++ crlf) ++ mjoin ((λ l, l ++ crlf) <$> fields r)). by rewrite <- !app_assoc. }
  assert (Cut (request_bytes r) [32] = Some (method r, (target r ++ 32 :: version r) ++ crlf ++ rest)) as Ec.
  { rewrite Eb. unfold request_line. rewrite <- app_assoc. apply (Cut_byte (method r) 32). done. }
  assert (isHTTPMethod (of_string "PRI") = false) as HPRI by (vm_compute; reflexivity).
  split; [|split].
  - unfold sniffHTTP1. change (of_string " ") with [32]. rewrite Ec, Hm. cbn [negb]. rewrite Eb, Cut_crlf by done.
    destruct (Z.ltb_spec (len (request_line r)) 14); [lia|]. unfold request_line at 1. rewrite (Cut_byte (method r) 32 _ Hm32).
    rewrite (Cut_byte (target r) 32 _ Ht32).
    destruct (target r) as [|c uri]; [done|]. cbn in Ht. simplify_eq. change ((47 =? 47) || (47 =? 42)) with true. cbv iota.
    rewrite <- Eb. unfold parseHeaderHostH1. apply header_loop_finds; [by constructor|done..|].
    unfold request_bytes. rewrite length_app. cbn [length]. apply Nat.lt_succ_r, Nat.le_trans with (2 * S (length (fields r)))%nat; [lia|].
    assert (∀ ls : list (list Z), 2 * length ls ≤ length (mjoin ((λ l, l ++ crlf) <$> ls)))%nat as Hll.
    { clear. induction ls as [|l ls IH]; [done|]. change (mjoin ((λ l, l ++ crlf) <$> (l :: ls))) with ((l ++ crlf) ++ mjoin ((λ l, l ++ crlf) <$> ls)).
      rewrite !length_app. simpl. lia. }
    specialize (Hll (request_line r :: fields r)). cbn [length] in Hll. lia.
  - apply not_true_is_false. intros [y Hy]%HasPrefixB_iff. pose proof (Cut_app _ y _ _ _ Ec) as Hc. rewrite <- Hy in Hc.
    change (Cut h2ClientPreface [32]) with (Some (of_string "PRI", drop 4 h2ClientPreface)) in Hc. simplify_eq. congruence.
  - apply not_true_is_false. intros [y Hy]%HasPrefixB_iff. rewrite Hy in Ec.
    rewrite (Cut_app h2ClientPreface y [32] (of_string "PRI") (drop 4 h2ClientPreface) eq_refl) in Ec. simplify_eq. congruence.
Qed.

(** Text is not a TLS record. *)
Lemma SniffTLS_text c x : c ≠ 22 → SniffTLS (c :: x) = Some (Final NotTLS) ∨ ∃ n, SniffTLS (c :: x) = Some (NeedAtLeast n).
Proof.
  intros Hc. unfold SniffTLS. cbn [sniff_loop]. unfold sniff_round. destruct (Z.ltb_spec (len (c :: x) - 0) tlsRecordHeaderLen) as [|Hl]; [right; by eexists|left].
  unfold tlsRecordHeaderLen in *. rewrite bytes_at_some by lia. destruct x as [|a [|d [|e [|f x]]]]; try (unfold len in Hl; simpl in Hl; lia).
  change (take (Z.to_nat (0 + 5 - 0)) (drop (Z.to_nat 0) (c :: a :: d :: e :: f :: x))) with [c; a; d; e; f]. cbv iota.
  unfold tlsRecordTypeHandshake. destruct (Z.eqb_spec c 0x16); [done|]. done.
Qed.

(** The first byte of a method is a letter. *)
Lemma method_first m : ascii_bytes m → isHTTPMethod m = true → ∃ c x, m = c :: x ∧ c ≠ 22.
Proof.
  intros Ha (s & Hs & Hf)%existsb_exists. assert (s ∈ httpMethods) as Hs' by (by apply list_elem_of_In).
  rewrite EqualFold_ascii in Hf by auto using ascii_to_string, methods_ascii. apply bool_decide_eq_true in Hf.
  destruct m as [|c x]; [exfalso|exists c, x; split; [done|intros ->]];
    change (to_string []) with "" in *; repeat (apply elem_of_cons in Hs' as [->|Hs']; [by vm_compute in Hf|]); by apply not_elem_of_nil in Hs'.
Qed.

(** ** Properties *)

(** On every list of bytes, HTTP/1 or HTTP/2, and for every behaviour of the HPACK decoder, the sniffer returns without a
    panic and after finitely many lines or frames; when it asks for more it asks for more bytes than there are. *)
Theorem http_sniff_safe b :
  byte_list b →
  match HTTPSniffer_SniffData b with None => False | Some (NeedMore n) => len b < n | Some _ => True end.
Proof.
  intros Hb. destruct (http_sniff_total b Hb) as (r & Hr & Hn). unfold HTTPSniffer_SniffData. rewrite Hr. destruct r as [h|[| | |n]]; [done..|by apply Hn].
Qed.

(** C15. With TLS and HTTP sniffers on the same port, a plain HTTP request for a path gives the host of its Host field, in
    whatever pieces the request arrives. *)
Theorem sniff_finds_http_host IsDomainName sd c m r h tcfg hcfg :
  conn_ok c → is_Some (reader c) → let S := (view c).1 ++ arrives (rd c) in
  S = request_bytes r → request_ok r h → ascii_bytes S → len S ≤ 64 * 1024 → isValidSniffHost IsDomainName h = true →
  sniffers sd = [mkConfigured (NewTLSSniffer tcfg) tcfg; mkConfigured (NewHTTPSniffer hcfg) hcfg] →
  SupportPort (NewHTTPSniffer hcfg) (DstPort m) = true →
  ∃ c', sniffDomain IsDomainName sd c m = Some (c', Ok (h, hcfg)).
Proof.
  intros Hok [b Hb] S HS Hr Ha Hmax Hval Hsn Hport. destruct (sniffHTTP1_finds r h Hr) as (H1 & HP1 & HP2).
  set (tls := mkConfigured (NewTLSSniffer tcfg) tcfg) in *. set (http := mkConfigured (NewHTTPSniffer hcfg) hcfg) in *.
  assert (plain_stream S) as Hplain by (split; [done|by rewrite HS]).
  assert (finds S http h) as Hfind.
  { change (HTTPSniffer_SniffData S = Some (Found h)). unfold HTTPSniffer_SniffData. rewrite http_sniff_plain by done. by rewrite HS, HP1, H1. }
  assert (∀ h', ¬ finds S tls h') as Hno.
  { intros h'. change (TLSSniffer_SniffData S ≠ Some (Found h')). unfold TLSSniffer_SniffData. destruct Hr as [[Hm Hm32] _ [_ Hlen] _ _ _].
    assert (∃ x, S = request_line r ++ x) as [x HSx].
    { exists (drop (length (request_line r)) S). rewrite HS. unfold request_bytes.
      change (mjoin ((λ l, l ++ crlf) <$> (request_line r :: fields r))) with ((request_line r ++ crlf) ++ mjoin ((λ l, l ++ crlf) <$> fields r)).
      rewrite <- !app_assoc. by rewrite drop_app_length. }
    assert (ascii_bytes (method r)) as Hma by (rewrite HSx in Ha; unfold request_line in Ha; apply Forall_app in Ha as [[? _]%Forall_app _]; done).
    destruct (method_first _ Hma Hm) as (a & y & Em & Hne). rewrite HSx. unfold request_line. rewrite Em. cbn [app].
    by destruct (SniffTLS_text a ((y ++ 32 :: target r ++ 32 :: version r) ++ x) Hne) as [->|[n ->]]. }
  destruct (sniffDomain_complete IsDomainName sd c _ _ _ m http h (holds_conn c b Hb Hok)) as (c' & h' & s & Hsd & Hin & _ & Hf & _); try done.
  - fold S. intros E. rewrite E in HS. destruct Hr as [_ _ [_ Hl] _ _ _]. unfold request_bytes in HS.
    destruct (request_line r); [unfold len in Hl; simpl in Hl; lia|done].
  - intros s. rewrite Hsn. intros [->| ->%list_elem_of_singleton]%elem_of_cons _; [exists byte_list|exists plain_stream]; (split; [apply _|]); [|done].
    eapply list.Forall_impl; [exact Ha|]. simpl. lia.
  - rewrite Hsn. by right; left.
  - rewrite Hsn in Hin. fold S in Hf. apply elem_of_cons in Hin as [->|Hin%list_elem_of_singleton]; [by apply Hno in Hf|]. subst s.
    unfold finds in *. exists c'. rewrite Hsd. assert (h' = h) as -> by congruence. done.
Qed.
End theory.

(** ** A concrete request *)

#[local] Existing Instance ascii_case.

(** A decoder that knows no fields. *)
Definition no_hpack : Hpack := {| decoder := unit; newDecoder _ := tt; decoder_Write d _ := (d, [], true) |}.
#[local] Existing Instance no_hpack.

Definition some_request : request :=
  mkRequest (of_string "GET") (of_string "/x") (of_string "HTTP/1.1") [of_string "Accept: *"] (of_string "Host")
    (of_string " www.Example.org:80") crlf.
Definition both_sniffers : Dispatcher :=
  mkDispatcher true
    [mkConfigured (NewTLSSniffer (mkConfig true [NewRange 80 443])) (mkConfig true [NewRange 80 443]);
     mkConfigured (NewHTTPSniffer (mkConfig false [])) (mkConfig false [])] [] [] [] [] false true.
Definition request_conn : BufferedConn :=
  NewBufferedConn
    match take 4 (request_bytes some_request), drop 4 (request_bytes some_request) with
    | a :: x, b :: y => [Data a x; Data b y]
    | _, _ => []
    end.

Lemma http_sniff_safe_witness :
  let b := of_string "POS" in
  HTTPSniffer_SniffData b = Some (NeedMore 4) ∧
  match HTTPSniffer_SniffData b with None => False | Some (NeedMore n) => len b < n | Some _ => True end.
Proof. split; [vm_compute; reflexivity|]. apply (http_sniff_safe (of_string "POS")). by apply (bool_decide_unpack _). Defined.

Lemma some_request_ok : request_ok some_request "www.example.org".
Proof.
  constructor; repeat split; try (vm_compute; reflexivity); try (vm_compute; congruence); try (by apply (bool_decide_unpack _)).
  constructor; [|constructor]. repeat split; try (vm_compute; reflexivity); try done; by apply (bool_decide_unpack _).
Qed.

Lemma sniff_finds_http_host_witness :
  ∃ c', sniffDomain any_name both_sniffers request_conn (set_DstPort empty_metadata 80) = Some (c', Ok ("www.example.org", mkConfig false [])).
Proof.
  apply (sniff_finds_http_host any_name both_sniffers request_conn (set_DstPort empty_metadata 80) some_request "www.example.org"
           (mkConfig true [NewRange 80 443]) (mkConfig false []));
    [apply new_conn_ok|by eexists|vm_compute; reflexivity|exact some_request_ok|by apply (bool_decide_unpack _)|vm_compute; congruence|done|reflexivity|reflexivity].
Defined.
