(* ===== verification/Enhancer.v ===== *)
(** * [dns/enhancer.go], [component/fakeip/skipper.go]: names and addresses between DNS and tunnel

    The enhancer owns the two fake-IP pools and the cache of resolved addresses.  The
    DNS handler fills them and the tunnel reads them; the tunnel's view is the
    instance [enhancer_resolver] of the class [Tunnel.Resolver].  Pools are those of
    [FakeIP], over any store; the cache is an LRU cache of [Lru]. *)

From Stdlib Require Import ZArith Lia.
From stdpp Require Import base list strings numbers gmap.
From S2P Require Import Prelude GoStrings GoNet GoNetText Lru FakeIP Metadata Rules Tunnel.
#[local] Open Scope string_scope.
#[local] Open Scope list_scope.
#[local] Open Scope Z_scope.

(** ** [Skipper] *)

Definition UseFakeIP : string := "fake-ip".
Definition UseRealIP : string := "real-ip".

Record Skipper := mkSkipper { Rules_ : list Rule; SkipHost : list (string → bool); Mode : FilterMode_t }.

Definition shouldSkipped (p : Skipper) (domain : string) : bool := existsb (λ matcher, matcher domain) (SkipHost p).

Section skipper.
Context `{UC : UnicodeCase} `{EX : Externals} (env : RuleEnv) (fuel : nat).

Definition empty_helper : RuleMatchHelper unit := mkHelper false None None None.

(** The loop over the rules; [None]: matching does not end within the fuel. *)
Fixpoint skip_rules (l : list Rule) (s : Metadata * unit) : option bool :=
  match l with
  | [] => Some false
  | r :: l => match Match env fuel empty_helper r s with
              | None => None
              | Some (s, (matched, action)) => if matched then Some (bool_decide (action = UseRealIP)) else skip_rules l s
              end
  end.

Definition ShouldSkipped (p : Skipper) (domain : string) : option bool :=
  match Rules_ p with
  | [] => let should := shouldSkipped p domain in
          Some (match Mode p with FilterWhiteList => negb should | _ => should end)
  | l => skip_rules l (set_Host empty_metadata domain, tt)
  end.
End skipper.

(** ** [ResolverEnhancer] *)

Section enhancer.
Context {St : Type} `{Store St} `{UnicodeCase}.

Record ResolverEnhancer := mkEnhancer {
  ipv6 : bool;
  mode : DNSMode_t;
  fakeIPPool : option (Pool St);
  fakeIPPool6 : option (Pool St);
  fakeIPSkipper : option Skipper;
  fakeIPTTL : Z;
  mapping : option (LruCache Addr);
  mappingCells : world Addr string;
  useHosts : bool;
}.

Definition with_pools (h : ResolverEnhancer) (p4 p6 : option (Pool St)) : ResolverEnhancer :=
  mkEnhancer (ipv6 h) (mode h) p4 p6 (fakeIPSkipper h) (fakeIPTTL h) (mapping h) (mappingCells h) (useHosts h).
Definition with_mapping (h : ResolverEnhancer) (w : world Addr string) (c : LruCache Addr) : ResolverEnhancer :=
  mkEnhancer (ipv6 h) (mode h) (fakeIPPool h) (fakeIPPool6 h) (fakeIPSkipper h) (fakeIPTTL h) (Some c) w (useHosts h).

Definition FakeIPEnabled (h : ResolverEnhancer) : bool := bool_decide (mode h = DNSFakeIP).
Definition MappingEnabled_ (h : ResolverEnhancer) : bool := bool_decide (mode h = DNSFakeIP) || bool_decide (mode h = DNSMapping).

(** A test on the pools that are there. *)
Definition on_pool (f : Pool St → bool) (p : option (Pool St)) : bool := match p with Some p => f p | None => false end.

Definition IsExistFakeIP (h : ResolverEnhancer) (ip : Addr) : bool :=
  if negb (FakeIPEnabled h) then false
  else on_pool (λ p, FakeIP.Exist p ip) (fakeIPPool h) || on_pool (λ p, FakeIP.Exist p ip) (fakeIPPool6 h).

Definition in_pool (ip : Addr) (p : Pool St) : bool :=
  prefix_contains (IPNet p) ip && negb (bool_decide (ip = Gateway p)) && negb (bool_decide (ip = Broadcast p)).

Definition IsFakeIP_ (h : ResolverEnhancer) (ip : Addr) : bool :=
  if negb (FakeIPEnabled h) then false else on_pool (in_pool ip) (fakeIPPool h) || on_pool (in_pool ip) (fakeIPPool6 h).

Definition IsFakeBroadcastIP (h : ResolverEnhancer) (ip : Addr) : bool :=
  if negb (FakeIPEnabled h) then false
  else on_pool (λ p, bool_decide (Broadcast p = ip)) (fakeIPPool h) || on_pool (λ p, bool_decide (Broadcast p = ip)) (fakeIPPool6 h).

(** [pool.LookBack], if the pool is there. *)
Definition look_back (p : option (Pool St)) (ip : Addr) : option (Pool St) * option string :=
  match p with Some p => let '(p, r) := LookBack p ip in (Some p, r) | None => (None, None) end.

Definition FindHostByIP_ (now : Z) (h : ResolverEnhancer) (ip : Addr) : ResolverEnhancer * option string :=
  let '(p4, r4) := look_back (fakeIPPool h) ip in
  let h := with_pools h p4 (fakeIPPool6 h) in
  match r4 with
  | Some host => (h, Some host)
  | None =>
      let '(p6, r6) := look_back (fakeIPPool6 h) ip in
      let h := with_pools h (fakeIPPool h) p6 in
      match r6 with
      | Some host => (h, Some host)
      | None =>
          match mapping h with
          | Some c => let '(w, c, r) := Get now (mappingCells h) c ip in (with_mapping h w c, r)
          | None => (h, None)
          end
      end
  end.

Definition InsertHostByIP (now : Z) (h : ResolverEnhancer) (ip : Addr) (host : string) : ResolverEnhancer :=
  match mapping h with
  | Some c => let '(w, c) := Set_ now (mappingCells h) c ip host in with_mapping h w c
  | None => h
  end.

(** [FlushFakeIP]: the errors of the pools. *)
Definition FlushFakeIP_ (h : ResolverEnhancer) : ResolverEnhancer * list string :=
  let flush p := match p with
                 | Some p => let '(p, e) := FlushFakeIP p in (Some p, match e with Some e => [e] | None => [] end)
                 | None => (None, [])
                 end in
  let '(p4, e4) := flush (fakeIPPool h) in
  let '(p6, e6) := flush (fakeIPPool6 h) in
  (with_pools h p4 p6, e4 ++ e6).

Definition StoreFakePoolState (h : ResolverEnhancer) : ResolverEnhancer :=
  with_pools h (StoreState <$> fakeIPPool h) (StoreState <$> fakeIPPool6 h).

Record EnhancerConfig := mkEnhancerConfig {
  IPv6 : bool; EnhancedMode : DNSMode_t; FakeIPPool : option (Pool St); FakeIPPool6 : option (Pool St);
  FakeIPSkipper : option Skipper; FakeIPTTL : Z; UseHosts : bool;
}.

Definition NewEnhancer (cfg : EnhancerConfig) : ResolverEnhancer :=
  let e := mkEnhancer (IPv6 cfg) (EnhancedMode cfg) None None None 0 None (World ∅ []) (UseHosts cfg) in
  if negb (bool_decide (EnhancedMode cfg = DNSNormal)) then
    mkEnhancer (ipv6 e) (mode e) (FakeIPPool cfg) (if IPv6 cfg then FakeIPPool6 cfg else None) (FakeIPSkipper cfg)
      (Z.max (FakeIPTTL cfg) 1) (Some (Lru.New [WithSize 4096])) (World ∅ []) (useHosts e)
  else e.

(** The enhancer as the tunnel sees it at one moment. *)
Definition enhancer_resolver (now : Z) (h : ResolverEnhancer)
    (hosts : string → bool → option HostNode * bool) (resolve : string → option Addr) : Resolver := {|
  MappingEnabled := MappingEnabled_ h;
  FindHostByIP ip := (FindHostByIP_ now h ip).2;
  IsFakeIP := IsFakeIP_ h;
  HostsSearch := hosts;
  ResolveHost := resolve;
|}.
End enhancer.
Arguments ResolverEnhancer : clear implicits.
Arguments EnhancerConfig : clear implicits.
