(* ===== verification/DnsHandler.v ===== *)
(** * [dns/middleware.go], [dns/fakeip_svcb.go], [dns/fakeip_hostname.go]: the handlers of the DNS server

    A query goes through a chain of middlewares to the resolver.  A handler is a
    state transformer on the enhancer and the type noted in the context; it gives a
    message and an error, either of which may be nil.  The DNS library is a parameter
    (class [DnsLib]) as far as it computes; exchanges with name servers and the
    search of the hosts table are functions.  [None] is a panic, or a rule of the
    skipper that does not answer within the fuel. *)

From Stdlib Require Import ZArith Lia Ascii.
From stdpp Require Import base list strings numbers gmap.
From S2P Require Import Prelude GoStrings GoNet GoNetText Lru FakeIP Metadata Rules RulesTheory Tunnel Hosts Enhancer.
#[local] Open Scope string_scope.
#[local] Open Scope list_scope.
#[local] Open Scope Z_scope.

(** ** Messages *)

Definition TypeA : Z := 1.
Definition TypeCNAME : Z := 5.
Definition TypeAAAA : Z := 28.
Definition TypeOPT : Z := 41.
Definition TypeSVCB : Z := 64.
Definition TypeHTTPS : Z := 65.
Definition ClassINET : Z := 1.
Definition RcodeSuccess : Z := 0.
Definition RcodeNameError : Z := 3.

Definition SVCB_MANDATORY : Z := 0.
Definition SVCB_IPV4HINT : Z := 4.
Definition SVCB_IPV6HINT : Z := 6.

(** The parameters of a service binding; an address is the slice behind [net.IP].  [OtherValue] stands for every other
    implementation of the interface, whatever its key. *)
Inductive SVCBKeyValue :=
| SVCBIPv4Hint (hint : list (list Z))
| SVCBIPv6Hint (hint : list (list Z))
| SVCBMandatory (code : list Z)
| OtherValue (key : Z) (data : string).

Definition Key (v : SVCBKeyValue) : Z :=
  match v with
  | SVCBIPv4Hint _ => SVCB_IPV4HINT
  | SVCBIPv6Hint _ => SVCB_IPV6HINT
  | SVCBMandatory _ => SVCB_MANDATORY
  | OtherValue k _ => k
  end.

(** Options of an OPT record: a client subnet, or another one. *)
Inductive EDNS0 :=
| EDNS0_SUBNET (code family sourceNetmask sourceScope : Z) (address : list Z)
| OtherOption (code : Z).

Inductive rdata :=
| DA (ip : list Z)
| DAAAA (ip : list Z)
| DCNAME (target : string)
| DService (https : bool) (priority : Z) (target : string) (value : list SVCBKeyValue)
| DRRSIG (typeCovered : Z)
| DSOA (minttl : Z)
| DOPT (option_ : list EDNS0)
| DOther.

Record RR := mkRR { rr_name : string; rr_type : Z; rr_class : Z; rr_ttl : Z; rr_data : rdata }.
Record Question := mkQuestion { q_name : string; q_type : Z; q_class : Z }.

Record Msg := mkMsg {
  Id : Z; Rcode : Z; Authoritative : bool; RecursionAvailable : bool; AuthenticatedData : bool;
  Questions : list Question; Answer : list RR; Ns : list RR; Extra : list RR; Response : bool; Truncated : bool;
}.

Definition set_flags (m : Msg) (aa ra : bool) : Msg :=
  mkMsg (Id m) (Rcode m) aa ra (AuthenticatedData m) (Questions m) (Answer m) (Ns m) (Extra m) (Response m) (Truncated m).
Definition set_sections (m : Msg) (a n e : list RR) : Msg :=
  mkMsg (Id m) (Rcode m) (Authoritative m) (RecursionAvailable m) (AuthenticatedData m) (Questions m) a n e (Response m) (Truncated m).
Definition set_question (m : Msg) (id : Z) (q : list Question) : Msg :=
  mkMsg id (Rcode m) (Authoritative m) (RecursionAvailable m) (AuthenticatedData m) q (Answer m) (Ns m) (Extra m) (Response m) (Truncated m).
Definition set_ad (m : Msg) (ad : bool) : Msg :=
  mkMsg (Id m) (Rcode m) (Authoritative m) (RecursionAvailable m) ad (Questions m) (Answer m) (Ns m) (Extra m) (Response m) (Truncated m).
Definition empty_msg : Msg := mkMsg 0 0 false false false [] [] [] [] false false.
Definition set_ttl (r : RR) (ttl : Z) : RR := mkRR (rr_name r) (rr_type r) (rr_class r) ttl (rr_data r).

(** What the handlers call of the DNS library: [SetRcode] makes a message the reply to a request, [Fqdn] ends a name with
    a dot. *)
Class DnsLib := {
  SetRcode : Msg → Msg → Z → Msg;
  Fqdn : string → string;
  SetRcode_sections m r c : Answer (SetRcode m r c) = Answer m ∧ Ns (SetRcode m r c) = Ns m ∧ Extra (SetRcode m r c) = Extra m;
  SetRcode_reply m r c : Id (SetRcode m r c) = Id r ∧ Rcode (SetRcode m r c) = c;
}.

(** [net.IP.Equal]: an IPv4 address equals its form mapped into IPv6. *)
Definition v4InV6Prefix : list Z := repeat 0 10 ++ [255; 255].
Definition IP_Equal (a b : list Z) : bool :=
  if (length a =? length b)%nat then bool_decide (a = b)
  else if (length a =? 4)%nat && (length b =? 16)%nat then bool_decide (take 12 b = v4InV6Prefix ∧ drop 12 b = a)
  else if (length a =? 16)%nat && (length b =? 4)%nat then bool_decide (take 12 a = v4InV6Prefix ∧ drop 12 a = b)
  else false.

(** ** Host names *)

Definition maxHostNameLength : Z := 253.

Definition host_char (c : ascii) : bool :=
  let v := byte_val c in
  ((97 <=? v) && (v <=? 122)) || ((65 <=? v) && (v <=? 90)) || ((48 <=? v) && (v <=? 57)) || (v =? 45) || (v =? 95).

Definition isFakeIPHostName (name : string) : bool :=
  if bool_decide (name = "") || (maxHostNameLength <? Z.of_nat (String.length name)) then false
  else forallb (λ label, negb (bool_decide (label = "")) && (Z.of_nat (String.length label) <=? 63) && str_all host_char label)
         (Split name ".").

Definition is_dot (c : ascii) : bool := Ascii.eqb c ".".
Definition host_of (q : Question) : string := trim_right is_dot (q_name q).

Section handlers.
Context {St : Type} `{ST : Store St} `{UC : UnicodeCase} `{LIB : DnsLib}.

Definition handleMsgWithNameError (r : Msg) : Msg := set_flags (SetRcode empty_msg r RcodeNameError) true true.
Definition handleMsgWithEmptyAnswer (r : Msg) : Msg := set_flags (SetRcode empty_msg r RcodeSuccess) true true.

Definition setMsgTTL (m : Msg) (ttl : Z) : Msg :=
  set_sections m ((λ r, set_ttl r ttl) <$> Answer m) ((λ r, set_ttl r ttl) <$> Ns m)
    ((λ r, if rr_type r =? TypeOPT then r else set_ttl r ttl) <$> Extra m).

Definition isIPRequest (q : Question) : bool :=
  (q_class q =? ClassINET) && ((q_type q =? TypeA) || (q_type q =? TypeAAAA) || (q_type q =? TypeCNAME)).

(** ** Service bindings *)

(** The map [removedKeys]: true for a hint that has to go. *)
Record removed := mkRemoved { rm4 : bool; rm6 : bool }.
Definition removedKey (rm : removed) (k : Z) : bool :=
  if k =? SVCB_IPV4HINT then rm4 rm else if k =? SVCB_IPV6HINT then rm6 rm else false.

(** Hints with an unexpected representation. *)
Definition unexpected (rm : removed) (v : SVCBKeyValue) : removed :=
  if Key v =? SVCB_IPV4HINT then match v with SVCBIPv4Hint _ => rm | _ => mkRemoved true (rm6 rm) end
  else if Key v =? SVCB_IPV6HINT then match v with SVCBIPv6Hint _ => rm | _ => mkRemoved (rm4 rm) true end
  else rm.

(** The allocation of the fake addresses: pools, removed keys, and the two addresses ([None] is a nil slice). *)
Record alloc := mkAlloc { al4 : option (Pool St); al6 : option (Pool St); al_rm : removed; fakeIPv4 : option (list Z); fakeIPv6 : option (list Z) }.

(** [net.IP(ip.AsSlice())], nil for an invalid address. *)
Definition ip_slice (ip : Addr) : option (list Z) := if IsValid ip then Some (AsSlice ip) else None.

(** [None] is the lookup in a pool that is not there. *)
Definition allocate (effectiveTarget : string) (a : alloc) (v : SVCBKeyValue) : option alloc :=
  if Key v =? SVCB_IPV4HINT then
    match rm4 (al_rm a), fakeIPv4 a with
    | false, None =>
        match al4 a with
        | None => None
        | Some p => let '(p, ip) := Lookup_ p effectiveTarget in
                    Some (mkAlloc (Some p) (al6 a) (mkRemoved (negb (IsValid ip)) (rm6 (al_rm a))) (ip_slice ip) (fakeIPv6 a))
        end
    | _, _ => Some a
    end
  else if Key v =? SVCB_IPV6HINT then
    match rm6 (al_rm a), fakeIPv6 a with
    | false, None =>
        match al6 a with
        | None => None
        | Some p => let '(p, ip) := Lookup_ p effectiveTarget in
                    Some (mkAlloc (al4 a) (Some p) (mkRemoved (rm4 (al_rm a)) (negb (IsValid ip))) (fakeIPv4 a) (ip_slice ip))
        end
    | _, _ => Some a
    end
  else Some a.

Fixpoint allocate_all (effectiveTarget : string) (a : alloc) (l : list SVCBKeyValue) : option alloc :=
  match l with
  | [] => Some a
  | v :: l => match allocate effectiveTarget a v with Some a => allocate_all effectiveTarget a l | None => None end
  end.

(** One value: what is kept of it, and whether that is a change.  [None] is a failing type assertion. *)
Definition rewrite_value (a : alloc) (v : SVCBKeyValue) : option (list SVCBKeyValue * bool) :=
  if Key v =? SVCB_IPV4HINT then
    if rm4 (al_rm a) then Some ([], true)
    else match v with
         | SVCBIPv4Hint hint =>
             let fake := default [] (fakeIPv4 a) in
             match hint with
             | [ip] => if IP_Equal ip fake then Some ([v], false) else Some ([SVCBIPv4Hint [fake]], true)
             | _ => Some ([SVCBIPv4Hint [fake]], true)
             end
         | _ => None
         end
  else if Key v =? SVCB_IPV6HINT then
    if rm6 (al_rm a) then Some ([], true)
    else match v with
         | SVCBIPv6Hint hint =>
             let fake := default [] (fakeIPv6 a) in
             match hint with
             | [ip] => if IP_Equal ip fake then Some ([v], false) else Some ([SVCBIPv6Hint [fake]], true)
             | _ => Some ([SVCBIPv6Hint [fake]], true)
             end
         | _ => None
         end
  else if Key v =? SVCB_MANDATORY then
    match v with
    | SVCBMandatory code =>
        let codes := filter (λ k, removedKey (al_rm a) k = false) code in
        let dropped := negb (length codes =? length code)%nat in
        if (length codes =? 0)%nat then Some ([], true)
        else if (length codes =? length code)%nat then Some ([v], dropped)
        else Some ([SVCBMandatory codes], dropped)
    | _ => Some ([], true)
    end
  else Some ([v], false).

Fixpoint rewrite_values (a : alloc) (l : list SVCBKeyValue) : option (list SVCBKeyValue * bool) :=
  match l with
  | [] => Some ([], false)
  | v :: l => '(vs, c) ← rewrite_value a v; '(rest, c') ← rewrite_values a l; Some (vs ++ rest, c || c')
  end.

Definition rewriteFakeIPSVCBValues (effectiveTarget : string) (values : list SVCBKeyValue) (p4 p6 : option (Pool St))
    : option (option (Pool St) * option (Pool St) * (list SVCBKeyValue * bool)) :=
  let allow (family : Addr → bool) (p : option (Pool St)) : bool :=
    negb (bool_decide (effectiveTarget = "")) && match p with Some p => family (paddr (IPNet p)) | None => false end in
  let rm := fold_left unexpected values (mkRemoved (negb (allow Is4 p4)) (negb (allow Is6 p6))) in
  a ← allocate_all effectiveTarget (mkAlloc p4 p6 rm None None) values;
  r ← rewrite_values a values;
  Some (al4 a, al6 a, r).

Definition newServiceRRSet (name : string) (rrType : Z) : string * Z := (ToLower (Fqdn name), rrType).

(** One section of the message, with the sets of records changed so far. *)
Fixpoint rewriteSection (ttl : Z) (l : list RR) (p4 p6 : option (Pool St)) (modified : list (string * Z))
    : option (option (Pool St) * option (Pool St) * list (string * Z) * list RR) :=
  match l with
  | [] => Some (p4, p6, modified, [])
  | record :: l =>
      let keep p4 p6 modified record := '(p4, p6, modified, l) ← rewriteSection ttl l p4 p6 modified; Some (p4, p6, modified, record :: l) in
      match rr_data record with
      | DService https priority target values =>
          if priority =? 0 then keep p4 p6 modified record
          else
            let owner := rr_name record in
            let rrType := if https then TypeHTTPS else TypeSVCB in
            let effectiveTarget := if bool_decide (target = ".") then TrimSuffix owner "." else TrimSuffix target "." in
            '(p4, p6, r) ← rewriteFakeIPSVCBValues effectiveTarget values p4 p6;
            if negb (r.2 : bool) then keep p4 p6 modified record
            else keep p4 p6 (newServiceRRSet owner rrType :: modified)
                   (mkRR (rr_name record) (rr_type record) (rr_class record) (wrap 32 (Z.max ttl 1)) (DService https priority target r.1))
      | _ => keep p4 p6 modified record
      end
  end.

Definition removeServiceRRSIG (l : list RR) (modified : list (string * Z)) : list RR :=
  filter (λ record, match rr_data record with
                    | DRRSIG covered => bool_decide (newServiceRRSet (rr_name record) covered ∉ modified)
                    | _ => true
                    end = true) l.

Definition rewriteFakeIPServiceBindings (m : Msg) (p4 p6 : option (Pool St)) (fakeIPTTL : Z)
    : option (option (Pool St) * option (Pool St) * Msg * bool) :=
  '(p4, p6, modified, a) ← rewriteSection fakeIPTTL (Answer m) p4 p6 [];
  '(p4, p6, modified, n) ← rewriteSection fakeIPTTL (Ns m) p4 p6 modified;
  '(p4, p6, modified, e) ← rewriteSection fakeIPTTL (Extra m) p4 p6 modified;
  match modified with
  | [] => Some (p4, p6, set_sections m a n e, false)
  | _ => Some (p4, p6, set_ad (set_sections m (removeServiceRRSIG a modified) (removeServiceRRSIG n modified) (removeServiceRRSIG e modified)) false, true)
  end.

(** ** Handlers *)

(** The enhancer, and the type of the response noted in the context. *)
Record hstate := mkState { enh : ResolverEnhancer St; tp : string }.
Definition response : Type := option Msg * option string.
Definition handler : Type := hstate → Msg → option (hstate * response).
Definition middleware : Type := handler → handler.

Definition DNSTypeHost : string := "host".
Definition DNSTypeFakeIP : string := "fakeip".
Definition DNSTypeRaw : string := "raw".
Definition SetType (s : hstate) (t : string) : hstate := mkState (enh s) t.
Definition set_pools (s : hstate) (p4 p6 : option (Pool St)) : hstate := mkState (with_pools (enh s) p4 p6) (tp s).

(** [r.Question[0]]. *)
Definition question (r : Msg) : option Question := head (Questions r).

Definition dnsDefaultTTL : Z := 600.

(** An entry of the mapping; [None]: there is no cache, a nil pointer. *)
Definition map_host (now : Z) (e : ResolverEnhancer St) (ip : Addr) (host : string) (exp : Z) : option (ResolverEnhancer St) :=
  match mapping e with
  | None => None
  | Some c => let '(w, c) := SetWithExpire now (mappingCells e) c ip host exp in Some (with_mapping e w c)
  end.

(** *** [withHosts] *)

Definition cname (q : Question) (domain : string) : RR := mkRR (q_name q) TypeCNAME ClassINET 10 (DCNAME (domain +:+ ".")).
Definition handleCName (q : Question) (resp : Msg) (domain : string) : Msg :=
  set_sections resp (cname q domain :: Answer resp) (Ns resp) (Extra resp).

Fixpoint handleIPs (now : Z) (q : Question) (host : string) (ips : list Addr) (e : ResolverEnhancer St) : ResolverEnhancer St * list RR :=
  match ips with
  | [] => (e, [])
  | ip :: ips =>
      let add rr := let e := default e (map_host now e ip host (now + 10)) in
                    let '(e, l) := handleIPs now q host ips e in (e, rr :: l) in
      if Is4 ip && (q_type q =? TypeA) then add (mkRR (q_name q) TypeA ClassINET 10 (DA (AsSlice ip)))
      else if Is6 ip && (q_type q =? TypeAAAA) then add (mkRR (q_name q) TypeAAAA ClassINET 10 (DAAAA (AsSlice ip)))
      else handleIPs now q host ips e
  end.

Definition withHosts (now : Z) (search : string → bool → option (option HostValue * bool)) : middleware := λ next s r,
  q ← question r;
  if negb (isIPRequest q) then next s r
  else
    let host := host_of q in
    '(record, ok) ← search host (negb (q_type q =? TypeA) && negb (q_type q =? TypeAAAA));
    if negb (ok : bool) then
      match record with
      | Some hv =>
          if IsDomain hv then
            let newR := set_question r (Id r) (mkQuestion (Hosts.Domain hv +:+ ".") (q_type q) (q_class q) :: tail (Questions r)) in
            '(s, (resp, err)) ← next s newR;
            match err, resp with
            | Some _, _ => Some (s, (resp, err))
            | None, None => None
            | None, Some resp => Some (s, (Some (handleCName q (set_question resp (Id r) (Questions r)) (Hosts.Domain hv)), None))
            end
          else next s r
      | None => next s r
      end
    else
      match record with
      | None => None
      | Some hv =>
          let finish s msg := Some (SetType s DNSTypeHost, (Some (set_flags (SetRcode msg r RcodeSuccess) true true), None)) in
          if (q_type q =? TypeA) || (q_type q =? TypeAAAA) then
            let '(e, l) := handleIPs now q host (IPs hv) (enh s) in
            finish (mkState e (tp s)) (set_sections r (Answer r ++ l) (Ns r) (Extra r))
          else if q_type q =? TypeCNAME then finish s (handleCName q r (Hosts.Domain hv))
          else next s r
      end.

(** *** [withMapping] *)

Definition IsGlobalUnicast (ip : Addr) : bool :=
  match ip with
  | NoAddr => false
  | _ => negb (bool_decide (ip = V4 0)) && negb (bool_decide (ip = V4 0xffffffff)) && negb (bool_decide (ip = V6 0 "")) &&
         negb (IsLoopback ip) && negb (IsMulticast ip) && negb (IsLinkLocalUnicast ip)
  end.

(** The address of an answer that is entered into the mapping. *)
Definition mapped_ip (ans : RR) : option Addr :=
  match rr_data ans with
  | DA b | DAAAA b =>
      match AddrFromSlice b with
      | Some ip => if IsGlobalUnicast ip then Some (Unmap ip) else None
      | None => None
      end
  | _ => None
  end.

Fixpoint map_answers (now : Z) (host : string) (l : list RR) (e : ResolverEnhancer St) : option (ResolverEnhancer St) :=
  match l with
  | [] => Some e
  | ans :: l =>
      match mapped_ip ans with
      | None => map_answers now host l e
      | Some ip => e ← map_host now e ip host (now + Z.max (rr_ttl ans) 1); map_answers now host l e
      end
  end.

Definition withMapping (now : Z) : middleware := λ next s r,
  q ← question r;
  if negb (isIPRequest q) then next s r
  else
    '(s, (msg, err)) ← next s r;
    match err, msg with
    | Some _, _ => Some (s, (None, err))
    | None, None => None
    | None, Some m => e ← map_answers now (host_of q) (Answer m) (enh s); Some (mkState e (tp s), (Some m, None))
    end.

(** *** [withFakeIP] *)

(** The resolver for service bindings: none, the built-in one with its client for domains, or another. *)
Inductive service :=
| NoService
| BuiltIn (exchangeRouted : Msg → bool → option Msg * bool * option string) (exchange : Msg → response)
| External (exchange : Msg → response).

Definition min_ttl (ttl : Z) (l : list RR) : Z :=
  fold_left (λ t r, if rr_type r =? TypeOPT then t else Z.min t (rr_ttl r)) l ttl.

(** The TTL after warming the bundle of the domain; [None]: an answer that is nil without an error. *)
Definition bundle_ttl (sv : service) (fakeIPTTL : Z) (r : Msg) : option Z :=
  match sv with
  | BuiltIn _ exchange =>
      match exchange r with
      | (_, Some _) => Some (wrap 32 fakeIPTTL)
      | (None, None) => None
      | (Some a, None) => Some (min_ttl (min_ttl (wrap 32 fakeIPTTL) (Answer a)) (Extra a))
      end
  | _ => Some (wrap 32 fakeIPTTL)
  end.

Definition fake_answer (s : hstate) (r : Msg) (rr : RR) (ttl : Z) : option (hstate * response) :=
  let msg := set_sections r [rr] (Ns r) (Extra r) in
  Some (SetType s DNSTypeFakeIP, (Some (set_flags (SetRcode (setMsgTTL msg ttl) r RcodeSuccess) true true), None)).

(** A query for an address. *)
Definition fake_address (sv : service) (fakeIPTTL : Z) (s : hstate) (r : Msg) (q : Question) : option (hstate * response) :=
  let host := host_of q in
  let four := q_type q =? TypeA in
  match (if four then fakeIPPool (enh s) else fakeIPPool6 (enh s)) with
  | None => Some (s, (Some (handleMsgWithEmptyAnswer r), None))
  | Some p =>
      ttl ← bundle_ttl sv fakeIPTTL r;
      let '(p, res) := LookupWithError p host in
      let s := if four then set_pools s (Some p) (fakeIPPool6 (enh s)) else set_pools s (fakeIPPool (enh s)) (Some p) in
      match res with
      | Err e => Some (s, (None, Some e))
      | Ok ip =>
          let rr := if four then mkRR (q_name q) TypeA ClassINET dnsDefaultTTL (DA (AsSlice ip))
                    else mkRR (q_name q) TypeAAAA ClassINET dnsDefaultTTL (DAAAA (AsSlice ip)) in
          fake_answer s r rr ttl
      end
  end.

Definition is_builtin (sv : service) : bool := match sv with BuiltIn _ _ => true | _ => false end.

(** The answer of the service resolver, or the ordinary path when it failed. *)
Definition fall_back (next : handler) (r : Msg) (s : hstate) (x : response) : option (hstate * response) :=
  match x.2 with Some _ => next s r | None => Some (s, x) end.

(** A query for service bindings, once the built-in resolver has been asked ([answer]). *)
Definition fake_service (sv : service) (answer : response) (fakeIPTTL : Z) (next : handler) (s : hstate) (r : Msg)
    : option (hstate * response) :=
  '(s, (msg, err)) ← match sv with
                     | NoService => next s r
                     | BuiltIn _ _ => fall_back next r (SetType s DNSTypeRaw) answer
                     | External exchange => fall_back next r (SetType s DNSTypeRaw) (exchange r)
                     end;
  match err, msg with
  | Some _, _ => Some (s, (msg, err))
  | None, None => None
  | None, Some m =>
      let m := SetRcode m r (Rcode m) in
      let serviceTTL := if is_builtin sv then fold_left (λ t rr, Z.min t (rr_ttl rr)) (Answer m) fakeIPTTL else fakeIPTTL in
      '(p4, p6, m, changed) ← rewriteFakeIPServiceBindings m (fakeIPPool (enh s)) (fakeIPPool6 (enh s)) serviceTTL;
      let s := set_pools s p4 p6 in
      let s := if changed : bool then SetType s DNSTypeFakeIP else s in
      let m := if is_builtin sv
               then set_sections m ((λ rr, set_ttl rr (Z.min (rr_ttl rr) (wrap 32 (Z.max serviceTTL 0)))) <$> Answer m) (Ns m) (Extra m)
               else m in
      Some (s, (Some m, None))
  end.

Definition withFakeIP (skip : string → option bool) (fakeIPTTL : Z) (sv : service) : middleware := λ next s r,
  q ← question r;
  let host := host_of q in
  skipped ← skip host;
  let address := (q_type q =? TypeA) || (q_type q =? TypeAAAA) in
  let serviceRecord := (q_type q =? TypeHTTPS) || (q_type q =? TypeSVCB) in
  let '(s, answer, early) :=
    match sv with
    | BuiltIn exchangeRouted _ =>
        if negb address then
          let '(a, direct, err) := exchangeRouted r (skipped || negb serviceRecord) in
          if direct : bool
          then (SetType s DNSTypeRaw, (a, err), bool_decide (is_Some err) || skipped || negb serviceRecord)
          else (s, (a, err), false)
        else (s, (None, None), false)
    | _ => (s, (None, None), false)
    end in
  if early : bool then Some (s, answer)
  else if skipped : bool then next s r
  else if address && negb (isFakeIPHostName host) then Some (s, (Some (handleMsgWithNameError r), None))
  else if address then fake_address sv fakeIPTTL s r q
  else if serviceRecord then fake_service sv answer fakeIPTTL next s r
  else next s r.

(** *** The chain *)

Definition withResolver (exchange : Msg → response) (ipv6 : bool) : handler := λ s r,
  let s := SetType s DNSTypeRaw in
  q ← question r;
  if negb ipv6 && (q_type q =? TypeAAAA) then Some (s, (Some (handleMsgWithEmptyAnswer r), None))
  else
    match exchange r with
    | (msg, Some e) => Some (s, (msg, Some e))
    | (None, None) => None
    | (Some m, None) => let m := SetRcode m r (Rcode m) in Some (s, (Some (set_flags m true (RecursionAvailable m)), None))
    end.

Definition compose (middlewares : list middleware) (endpoint : handler) : handler :=
  fold_right (λ (m : middleware) h, m h) endpoint middlewares.

(** [skipper.ShouldSkipped], which panics on a nil skipper. *)
Definition skipped_by `{EX : Externals} (env : RuleEnv) (fuel : nat) (p : option Skipper) (host : string) : option bool :=
  match p with Some p => ShouldSkipped env fuel p host | None => None end.

Definition newHandler `{EX : Externals} (env : RuleEnv) (fuel : nat) (now : Z)
    (search : string → bool → option (option HostValue * bool)) (exchange : Msg → response) (sv : service)
    (mapper : ResolverEnhancer St) : handler :=
  let middlewares :=
    (if useHosts mapper then [withHosts now search] else []) ++
    (if bool_decide (mode mapper = DNSFakeIP) then [withFakeIP (skipped_by env fuel (fakeIPSkipper mapper)) (fakeIPTTL mapper) sv] else []) ++
    (if negb (bool_decide (mode mapper = DNSNormal)) then [withMapping now] else []) in
  compose middlewares (withResolver exchange (ipv6 mapper)).
End handlers.
Arguments alloc : clear implicits.
Arguments hstate : clear implicits.
Arguments handler : clear implicits.

(** ** Pools that serve *)

Section theory.
Context {St : Type} `{SL : StoreLaws St} `{UC : UnicodeCase} `{LIB : DnsLib}.

(** A pool of one family, if there is one, in a state its theory covers. *)
Definition good (six : bool) (p : option (Pool St)) : Prop := ∀ q, p = Some q → ∃ f l o, pool_ok q six f l o.
Definition net (p : option (Pool St)) : option Prefix := ipnet <$> p.

Lemma LookupWithError_good six (p : Pool St) host :
  good six (Some p) → let '(p', r) := LookupWithError p host in
  good six (Some p') ∧ ipnet p' = ipnet p ∧
  ∀ ip, r = Ok ip → ∃ v, ip = FakeIP.at_ six v ∧ in_pool ip p' = true ∧ (LookBack p' ip).2 = Some (ToLower host).
Proof.
  intros Hg. destruct (Hg p eq_refl) as (f & l & o & Hok). pose proof (LookupWithError_spec p six f l o host Hok) as Hs.
  pose proof (LookupWithError_ipnet p host) as Hn. destruct (LookupWithError p host) as [p' [a|e]]; cbn [fst] in Hn.
  - destruct Hs as [Hf Hs]. assert (∃ o', pool_ok p' six f l o') as [o' Hok'].
    { destruct (fwd (store p) !! ToLower host); destruct Hs as (_ & ? & _); eauto. }
    split; [intros q [= <-]; eauto|]. split; [done|]. intros ip [= <-]. destruct (ok_range _ _ _ _ _ Hok' _ _ Hf) as (v & -> & Hv).
    exists v. split; [done|]. split; [|by apply (LookBack_spec _ six f l o')]. pose proof (ok_geometry _ _ _ _ _ Hok') as G.
    unfold in_pool, IPNet, Gateway, Broadcast. rewrite (geo_prefix _ _ _ _ _ G) by lia. rewrite (geo_gateway _ _ _ _ _ G), (geo_last _ _ _ _ _ G).
    rewrite !bool_decide_eq_false_2; [done|..]; intros Heq%at_inj; lia.
  - destruct Hs as (Hok' & _ & _). split; [intros q [= <-]; eauto|]. by split.
Qed.

Lemma Lookup_good six (p : Pool St) host :
  good six (Some p) → let '(p', ip) := Lookup_ p host in
  good six (Some p') ∧ ipnet p' = ipnet p ∧ (IsValid ip = true → prefix_contains (ipnet p) ip = true).
Proof.
  intros Hg. pose proof (LookupWithError_good six p host Hg) as Hl. unfold Lookup_. destruct (LookupWithError p host) as [p' [a|e]].
  - destruct Hl as (? & Hn & Ha). split; [done|]. split; [done|]. intros _. destruct (Ha a eq_refl) as (v & _ & Hin & _).
    unfold in_pool in Hin. rewrite <- Hn. by apply andb_true_iff in Hin as [[? _]%andb_true_iff _].
  - destruct Hl as (? & ? & _). split; [done|]. by split.
Qed.

(** ** Service bindings *)

(** The bytes of an address of the pool. *)
Definition fake_bytes (n : option Prefix) (b : list Z) : Prop :=
  ∃ pre ip, n = Some pre ∧ prefix_contains pre ip = true ∧ b = AsSlice ip.

(** A value that shows no address but fake ones. *)
Definition hides (n4 n6 : option Prefix) (v : SVCBKeyValue) : Prop :=
  (Key v = SVCB_IPV4HINT → ∃ b fake, v = SVCBIPv4Hint [b] ∧ fake_bytes n4 fake ∧ IP_Equal b fake = true) ∧
  (Key v = SVCB_IPV6HINT → ∃ b fake, v = SVCBIPv6Hint [b] ∧ fake_bytes n6 fake ∧ IP_Equal b fake = true).

Lemma IP_Equal_refl b : IP_Equal b b = true.
Proof. unfold IP_Equal. rewrite Nat.eqb_refl. by apply bool_decide_eq_true. Qed.

(** What holds while the addresses are allocated: a hint that stays has a pool, and its address is a fake one. *)
Record alloc_ok (n4 n6 : option Prefix) (a : alloc St) : Prop := {
  ao_good4 : good false (al4 a); ao_good6 : good true (al6 a);
  ao_net4 : net (al4 a) = n4; ao_net6 : net (al6 a) = n6;
  ao_pool4 : rm4 (al_rm a) = false → is_Some (al4 a); ao_pool6 : rm6 (al_rm a) = false → is_Some (al6 a);
  ao_fake4 b : fakeIPv4 a = Some b → fake_bytes n4 b; ao_fake6 b : fakeIPv6 a = Some b → fake_bytes n6 b;
}.

(** A value whose address has been allocated or whose key is removed. *)
Definition settled (a : alloc St) (v : SVCBKeyValue) : Prop :=
  (Key v = SVCB_IPV4HINT → rm4 (al_rm a) = false → is_Some (fakeIPv4 a)) ∧
  (Key v = SVCB_IPV6HINT → rm6 (al_rm a) = false → is_Some (fakeIPv6 a)).

Definition grows (a a' : alloc St) : Prop :=
  (rm4 (al_rm a) = true → rm4 (al_rm a') = true) ∧ (rm6 (al_rm a) = true → rm6 (al_rm a') = true) ∧
  (∀ v, settled a v → settled a' v).

Lemma allocate_ok target n4 n6 a v :
  alloc_ok n4 n6 a → ∃ a', allocate target a v = Some a' ∧ alloc_ok n4 n6 a' ∧ grows a a' ∧ settled a' v.
Proof.
  intros Hok. assert (grows a a) as Hrefl by (split; [done|split; done]). unfold allocate.
  destruct (Z.eqb_spec (Key v) SVCB_IPV4HINT) as [E4|N4].
  - destruct (rm4 (al_rm a)) eqn:R4; [|destruct (fakeIPv4 a) as [b|] eqn:F4].
    + exists a. split; [done|]. split; [done|]. split; [done|]. split; [congruence|]. rewrite E4. done.
    + exists a. split; [done|]. split; [done|]. split; [done|]. split; [by rewrite F4|]. rewrite E4. done.
    + destruct (ao_pool4 _ _ _ Hok R4) as [p Hp]. rewrite Hp. pose proof (Lookup_good false p target) as Hl. rewrite <- Hp in Hl.
      specialize (Hl (ao_good4 _ _ _ Hok)). destruct (Lookup_ p target) as [p' ip]. destruct Hl as (Hg & Hn & Hpre).
      pose proof (ao_net4 _ _ _ Hok) as Hn4. rewrite Hp in Hn4. eexists. split; [done|]. split; [|split].
      * destruct Hok. constructor; simpl; try done; [by rewrite <- Hn4; simpl; rewrite Hn|].
        intros b. unfold ip_slice. destruct (IsValid ip) eqn:V; [|done]. intros [= <-]. exists (ipnet p), ip. by rewrite <- Hn4, Hpre.
      * split; [congruence|]. split; [done|]. intros w [_ H6]. split; [|done]. simpl. unfold ip_slice. destruct (IsValid ip); [by eexists|done].
      * split; [|by rewrite E4]. simpl. unfold ip_slice. destruct (IsValid ip); [by eexists|done].
  - destruct (Z.eqb_spec (Key v) SVCB_IPV6HINT) as [E6|N6]; [|exists a; split; [done|]; split; [done|]; split; [done|]; by split].
    destruct (rm6 (al_rm a)) eqn:R6; [|destruct (fakeIPv6 a) as [b|] eqn:F6].
    + exists a. split; [done|]. split; [done|]. split; [done|]. split; [done|]. congruence.
    + exists a. split; [done|]. split; [done|]. split; [done|]. split; [done|]. by rewrite F6.
    + destruct (ao_pool6 _ _ _ Hok R6) as [p Hp]. rewrite Hp. pose proof (Lookup_good true p target) as Hl. rewrite <- Hp in Hl.
      specialize (Hl (ao_good6 _ _ _ Hok)). destruct (Lookup_ p target) as [p' ip]. destruct Hl as (Hg & Hn & Hpre).
      pose proof (ao_net6 _ _ _ Hok) as Hn6. rewrite Hp in Hn6. eexists. split; [done|]. split; [|split].
      * destruct Hok. constructor; simpl; try done; [by rewrite <- Hn6; simpl; rewrite Hn|].
        intros b. unfold ip_slice. destruct (IsValid ip) eqn:V; [|done]. intros [= <-]. exists (ipnet p), ip. by rewrite <- Hn6, Hpre.
      * split; [done|]. split; [congruence|]. intros w [H4 _]. split; [done|]. simpl. unfold ip_slice. destruct (IsValid ip); [by eexists|done].
      * split; [done|]. simpl. unfold ip_slice. destruct (IsValid ip); [by eexists|done].
Qed.

Lemma allocate_all_ok target n4 n6 a l :
  alloc_ok n4 n6 a → ∃ a', allocate_all target a l = Some a' ∧ alloc_ok n4 n6 a' ∧ grows a a' ∧ Forall (settled a') l.
Proof.
  revert a. induction l as [|v l IH]; intros a Hok; cbn [allocate_all].
  - exists a. split; [done|]. split; [done|]. split; [split; [done|split; done]|constructor].
  - destruct (allocate_ok target n4 n6 a v Hok) as (a1 & -> & Hok1 & (G1 & G2 & G3) & Hs). destruct (IH a1 Hok1) as (a2 & Ha2 & Hok2 & (K1 & K2 & K3) & Hl).
    exists a2. split; [done|]. split; [done|]. split; [split; [auto|split; auto]|]. constructor; auto.
Qed.

Definition expected (rm : removed) (v : SVCBKeyValue) : Prop :=
  (Key v = SVCB_IPV4HINT → rm4 rm = false → ∃ h, v = SVCBIPv4Hint h) ∧ (Key v = SVCB_IPV6HINT → rm6 rm = false → ∃ h, v = SVCBIPv6Hint h).

Lemma unexpected_step rm v :
  (rm4 rm = true → rm4 (unexpected rm v) = true) ∧ (rm6 rm = true → rm6 (unexpected rm v) = true) ∧ expected (unexpected rm v) v.
Proof.
  unfold unexpected, expected. destruct (Z.eqb_spec (Key v) SVCB_IPV4HINT) as [E4|N4].
  - rewrite E4. destruct v; simpl; split_and!; try done; eauto.
  - destruct (Z.eqb_spec (Key v) SVCB_IPV6HINT) as [E6|N6]; [|done]. rewrite E6. destruct v; simpl; split_and!; try done; eauto.
Qed.

Lemma fold_unexpected l rm :
  let rm' := fold_left unexpected l rm in
  (rm4 rm = true → rm4 rm' = true) ∧ (rm6 rm = true → rm6 rm' = true) ∧ Forall (expected rm') l.
Proof.
  revert rm. induction l as [|v l IH]; intros rm; simpl; [done|]. destruct (unexpected_step rm v) as (H4 & H6 & [E4 E6]).
  destruct (IH (unexpected rm v)) as (I4 & I6 & Il). split; [auto|]. split; [auto|]. constructor; [|done]. split.
  - intros Hk Hr. apply E4; [done|]. apply not_true_is_false. intros Ht. by rewrite (I4 Ht) in Hr.
  - intros Hk Hr. apply E6; [done|]. apply not_true_is_false. intros Ht. by rewrite (I6 Ht) in Hr.
Qed.

Lemma rewrite_value_ok n4 n6 a v :
  alloc_ok n4 n6 a → settled a v → expected (al_rm a) v →
  ∃ vs c, rewrite_value a v = Some (vs, c) ∧ Forall (hides n4 n6) vs ∧ (c = false → vs = [v]).
Proof.
  intros Hok [S4 S6] [X4 X6]. unfold rewrite_value. destruct (Z.eqb_spec (Key v) SVCB_IPV4HINT) as [E4|N4].
  { destruct (rm4 (al_rm a)) eqn:R4; [by exists [], true|]. destruct (X4 E4 eq_refl) as [h ->]. destruct (S4 eq_refl eq_refl) as [fake Hf]. rewrite Hf. simpl.
    pose proof (ao_fake4 _ _ _ Hok fake Hf) as Hb.
    assert (∀ b, IP_Equal b fake = true → Forall (hides n4 n6) [SVCBIPv4Hint [b]]) as Hh.
    { intros b Hb'. constructor; [|constructor]. split; [intros _; by exists b, fake|done]. }
    destruct h as [|b [|]]; [exists [SVCBIPv4Hint [fake]], true|destruct (IP_Equal b fake) eqn:Eb; [exists [SVCBIPv4Hint [b]], false|exists [SVCBIPv4Hint [fake]], true]|exists [SVCBIPv4Hint [fake]], true];
      (split; [done|]); (split; [apply Hh; auto using IP_Equal_refl|done]). }
  destruct (Z.eqb_spec (Key v) SVCB_IPV6HINT) as [E6|N6].
  { destruct (rm6 (al_rm a)) eqn:R6; [by exists [], true|]. destruct (X6 E6 eq_refl) as [h ->]. destruct (S6 eq_refl eq_refl) as [fake Hf]. rewrite Hf. simpl.
    pose proof (ao_fake6 _ _ _ Hok fake Hf) as Hb.
    assert (∀ b, IP_Equal b fake = true → Forall (hides n4 n6) [SVCBIPv6Hint [b]]) as Hh.
    { intros b Hb'. constructor; [|constructor]. split; [done|intros _; by exists b, fake]. }
    destruct h as [|b [|]]; [exists [SVCBIPv6Hint [fake]], true|destruct (IP_Equal b fake) eqn:Eb; [exists [SVCBIPv6Hint [b]], false|exists [SVCBIPv6Hint [fake]], true]|exists [SVCBIPv6Hint [fake]], true];
      (split; [done|]); (split; [apply Hh; auto using IP_Equal_refl|done]). }
  assert (Forall (hides n4 n6) [v]) as Hv by (constructor; [by split|constructor]).
  destruct (Z.eqb_spec (Key v) SVCB_MANDATORY) as [Em|Nm]; [|by exists [v], false].
  destruct v as [h|h|code|k d]; try (by exists [], true). set (codes := filter _ code).
  destruct (Nat.eqb_spec (length codes) 0); [by exists [], true|]. destruct (Nat.eqb_spec (length codes) (length code)); [by exists [SVCBMandatory code], false|].
  exists [SVCBMandatory codes], true. split; [done|]. split; [|done]. constructor; [by split|constructor].
Qed.

Lemma rewrite_values_ok n4 n6 a l :
  alloc_ok n4 n6 a → Forall (settled a) l → Forall (expected (al_rm a)) l →
  ∃ vs c, rewrite_values a l = Some (vs, c) ∧ Forall (hides n4 n6) vs ∧ (c = false → vs = l).
Proof.
  intros Hok. induction l as [|v l IH]; intros Hs Hx; cbn [rewrite_values]; [by exists [], false|].
  apply list.Forall_cons in Hs as [Hs1 Hs], Hx as [Hx1 Hx]. destruct (rewrite_value_ok n4 n6 a v Hok Hs1 Hx1) as (vs & c & -> & Hh & Hc).
  destruct (IH Hs Hx) as (rest & c' & -> & Hh' & Hc'). cbn [mbind option_bind]. exists (vs ++ rest), (c || c'). split; [done|].
  split; [by apply Forall_app|]. intros [Hf Hf']%orb_false_iff. by rewrite Hc, Hc'.
Qed.

Lemma rewriteFakeIPSVCBValues_ok target values p4 p6 :
  good false p4 → good true p6 →
  ∃ p4' p6' vs c, rewriteFakeIPSVCBValues target values p4 p6 = Some (p4', p6', (vs, c)) ∧
    good false p4' ∧ good true p6' ∧ net p4' = net p4 ∧ net p6' = net p6 ∧ Forall (hides (net p4) (net p6)) vs ∧ (c = false → vs = values).
Proof.
  intros H4 H6. unfold rewriteFakeIPSVCBValues. set (rm0 := mkRemoved _ _).
  destruct (fold_unexpected values rm0) as (F4 & F6 & Hx). set (rm := fold_left unexpected values rm0) in *.
  assert (alloc_ok (net p4) (net p6) (mkAlloc p4 p6 rm None None)) as Hok.
  { constructor; try done; simpl; intros Hr.
    - destruct p4; [by eexists|]. exfalso. rewrite F4 in Hr; [done|]. simpl. by rewrite andb_false_r.
    - destruct p6; [by eexists|]. exfalso. rewrite F6 in Hr; [done|]. simpl. by rewrite andb_false_r. }
  destruct (allocate_all_ok target _ _ _ values Hok) as (a & -> & Ha & (G4 & G6 & _) & Hs). cbn [mbind option_bind al_rm] in *.
  destruct (rewrite_values_ok (net p4) (net p6) a values Ha Hs) as (vs & c & -> & Hh & Hc).
  - eapply list.Forall_impl; [exact Hx|]. intros v [X4 X6]. split; intros Hk Hr; [apply X4|apply X6]; try done; apply not_true_is_false; intros Ht.
    + by rewrite (G4 Ht) in Hr. + by rewrite (G6 Ht) in Hr.
  - cbn [mbind option_bind]. exists (al4 a), (al6 a), vs, c. destruct Ha. done.
Qed.

(** A record in service mode shows no address but fake ones. *)
Definition record_hides (n4 n6 : option Prefix) (record : RR) : Prop :=
  match rr_data record with DService _ priority _ values => priority ≠ 0 → Forall (hides n4 n6) values | _ => True end.

Lemma rewriteSection_ok ttl l p4 p6 modified :
  good false p4 → good true p6 →
  ∃ p4' p6' modified' l', rewriteSection ttl l p4 p6 modified = Some (p4', p6', modified', l') ∧
    good false p4' ∧ good true p6' ∧ net p4' = net p4 ∧ net p6' = net p6 ∧ Forall (record_hides (net p4) (net p6)) l'.
Proof.
  revert p4 p6 modified. induction l as [|record l IH]; intros p4 p6 modified H4 H6; cbn [rewriteSection].
  { exists p4, p6, modified, []. by repeat split. }
  assert (∀ p4' p6' modified' record', good false p4' → good true p6' → net p4' = net p4 → net p6' = net p6 →
    record_hides (net p4) (net p6) record' →
    ∃ p4'' p6'' m'' l'', ('(p4, p6, modified, l) ← rewriteSection ttl l p4' p6' modified'; Some (p4, p6, modified, record' :: l)) = Some (p4'', p6'', m'', l'') ∧
    good false p4'' ∧ good true p6'' ∧ net p4'' = net p4 ∧ net p6'' = net p6 ∧ Forall (record_hides (net p4) (net p6)) l'') as Hkeep.
  { intros p4' p6' m' rec' G4 G6 N4 N6 Hrec. destruct (IH p4' p6' m' G4 G6) as (a & b & c & d & -> & ? & ? & Na & Nb & Hl). cbn [mbind option_bind].
    exists a, b, c, (rec' :: d). rewrite <- N4, <- N6 in *. repeat split; try done. by constructor. }
  destruct (rr_data record) as [ip|ip|t|https prio target values|t|t|o|] eqn:Ed; try (apply Hkeep; try done; unfold record_hides; by rewrite Ed).
  destruct (Z.eqb_spec prio 0) as [->|Hp]; [apply Hkeep; try done; unfold record_hides; by rewrite Ed|].
  destruct (rewriteFakeIPSVCBValues_ok (if bool_decide (target = ".") then TrimSuffix (rr_name record) "." else TrimSuffix target ".") values p4 p6 H4 H6)
    as (p4' & p6' & vs & c & -> & ? & ? & ? & ? & Hh & Hc). cbn [mbind option_bind snd fst].
  destruct c; cbn [negb]; apply Hkeep; try done; unfold record_hides; cbn [rr_data]; [done|]. rewrite Ed. intros _. by rewrite <- Hc.
Qed.

Lemma rewriteFakeIPServiceBindings_ok m p4 p6 ttl :
  good false p4 → good true p6 →
  ∃ p4' p6' m' c, rewriteFakeIPServiceBindings m p4 p6 ttl = Some (p4', p6', m', c) ∧
    good false p4' ∧ good true p6' ∧ net p4' = net p4 ∧ net p6' = net p6 ∧
    Forall (record_hides (net p4) (net p6)) (Answer m' ++ Ns m' ++ Extra m').
Proof.
  intros H4 H6. unfold rewriteFakeIPServiceBindings.
  destruct (rewriteSection_ok ttl (Answer m) p4 p6 [] H4 H6) as (a4 & a6 & ma & la & -> & Ga4 & Ga6 & Na4 & Na6 & Ha). cbn [mbind option_bind].
  destruct (rewriteSection_ok ttl (Ns m) a4 a6 ma Ga4 Ga6) as (b4 & b6 & mb & lb & -> & Gb4 & Gb6 & Nb4 & Nb6 & Hb). cbn [mbind option_bind].
  destruct (rewriteSection_ok ttl (Extra m) b4 b6 mb Gb4 Gb6) as (c4 & c6 & mc & lc & -> & Gc4 & Gc6 & Nc4 & Nc6 & Hc). cbn [mbind option_bind].
  rewrite Nb4, Nb6, Na4, Na6 in Hc. rewrite Na4, Na6 in Hb.
  assert (net c4 = net p4 ∧ net c6 = net p6) as [N4 N6] by (split; congruence).
  assert (∀ l, Forall (record_hides (net p4) (net p6)) l → Forall (record_hides (net p4) (net p6)) (removeServiceRRSIG l mc)) as Hfilter.
  { intros l Hl. unfold removeServiceRRSIG. apply list.Forall_forall. intros x [_ Hx]%list_elem_of_filter. by apply (proj1 (list.Forall_forall _ _) Hl). }
  destruct mc as [|x mc]; eexists _, _, _, _; (split; [done|]); repeat (split; [done|]); cbn [Answer Ns Extra set_sections set_ad];
    rewrite !Forall_app; auto.
Qed.

(** ** Handlers keep the pools, and answer *)

Definition ready (e : ResolverEnhancer St) : Prop := good false (fakeIPPool e) ∧ good true (fakeIPPool6 e) ∧ is_Some (mapping e).

(** What every handler leaves alone. *)
Definition keeps (e e' : ResolverEnhancer St) : Prop :=
  ready e' ∧ net (fakeIPPool e') = net (fakeIPPool e) ∧ net (fakeIPPool6 e') = net (fakeIPPool6 e) ∧ mode e' = mode e.

Definition answered (x : response) : Prop := x.2 = None → is_Some x.1.

Definition handles (h : handler St) : Prop :=
  ∀ s r, ready (enh s) → Questions r ≠ [] → ∃ s' x, h s r = Some (s', x) ∧ keeps (enh s) (enh s') ∧ answered x.

Lemma keeps_refl e : ready e → keeps e e.
Proof. done. Qed.

Lemma keeps_trans e1 e2 e3 : keeps e1 e2 → keeps e2 e3 → keeps e1 e3.
Proof. intros (_ & A & B & C) (R & D & E & F). split; [done|]. split; [congruence|]. split; congruence. Qed.

Lemma map_host_keeps now e ip host exp : ready e → ∃ e', map_host now e ip host exp = Some e' ∧ keeps e e'.
Proof.
  intros (H4 & H6 & [c Hc]). unfold map_host. rewrite Hc. destruct (SetWithExpire _ _ _ _ _ _) as [w c'].
  eexists. split; [done|]. split; [|done]. split; [done|]. split; [done|by eexists].
Qed.

Lemma map_answers_keeps now host l e : ready e → ∃ e', map_answers now host l e = Some e' ∧ keeps e e'.
Proof.
  revert e. induction l as [|ans l IH]; intros e Hr; cbn [map_answers]; [by exists e|]. destruct (mapped_ip ans) as [ip|]; [|by apply IH].
  destruct (map_host_keeps now e ip host (now + Z.max (rr_ttl ans) 1) Hr) as (e1 & -> & K1). cbn [mbind option_bind].
  destruct (IH e1 (proj1 K1)) as (e2 & -> & K2). exists e2. split; [done|]. by eapply keeps_trans.
Qed.

Lemma handleIPs_keeps now q host ips e : ready e → keeps e (handleIPs now q host ips e).1.
Proof.
  revert e. induction ips as [|ip ips IH]; intros e Hr; cbn [handleIPs]; [done|].
  assert (∀ rr, keeps e (let e := default e (map_host now e ip host (now + 10)) in
                         let '(e, l) := handleIPs now q host ips e in (e, rr :: l)).1) as Hadd.
  { intros rr. destruct (map_host_keeps now e ip host (now + 10) Hr) as (e1 & -> & K1). cbn [from_option id].
    pose proof (IH e1 (proj1 K1)) as K2. destruct (handleIPs now q host ips e1) as [e2 l]. exact (keeps_trans _ _ _ K1 K2). }
  destruct (Is4 ip && _); [apply Hadd|]. destruct (Is6 ip && _); [apply Hadd|]. by apply IH.
Qed.

(** A handler that has computed its response. *)
Ltac answer := eexists _, _; split; [reflexivity|]; split; [try done|let H := fresh in intros H; try done; simpl; eauto].

Lemma withResolver_handles exchange six : (∀ r, answered (exchange r)) → handles (withResolver exchange six).
Proof.
  intros Hex s r Hr Hq. unfold withResolver, question. destruct (Questions r) as [|q qs]; [done|]. cbn [head mbind option_bind].
  destruct (negb six && _); [by answer|]. specialize (Hex r). destruct (exchange r) as [[m|] [e|]]; try (by answer).
  destruct (Hex eq_refl) as [? [=]].
Qed.

Lemma withMapping_handles now next : handles next → handles (withMapping now next).
Proof.
  intros Hn s r Hr Hq. unfold withMapping. destruct (Questions r) as [|q qs] eqn:Eq; [done|]. unfold question. rewrite Eq. cbn [head mbind option_bind].
  destruct (Hn s r Hr) as (s1 & [m err] & E & K & A); [by rewrite Eq|]. destruct (negb (isIPRequest q)); [by exists s1, (m, err)|]. rewrite E. cbn [mbind option_bind].
  destruct err as [e|]; [by answer|]. destruct (A eq_refl) as [m' Hm]. cbn in Hm. subst m.
  destruct (map_answers_keeps now (host_of q) (Answer m') (enh s1) (proj1 K)) as (e & -> & K2). cbn [mbind option_bind].
  answer. by eapply keeps_trans.
Qed.

Lemma withHosts_handles now search next :
  (∀ h b, ∃ rec ok, search h b = Some (rec, ok) ∧ (ok = true → is_Some rec)) → handles next → handles (withHosts now search next).
Proof.
  intros Hs Hn s r Hr Hq. unfold withHosts. destruct (Questions r) as [|q qs] eqn:Eq; [done|]. unfold question. rewrite Eq. cbn [head mbind option_bind].
  assert (∃ s' x, next s r = Some (s', x) ∧ keeps (enh s) (enh s') ∧ answered x) as Hnext by (apply Hn; [done|by rewrite Eq]).
  destruct (negb (isIPRequest q)); [done|].
  destruct (Hs (host_of q) (negb (q_type q =? TypeA) && negb (q_type q =? TypeAAAA))) as (rec & ok & -> & Hrec). cbn [mbind option_bind].
  destruct ok; cbn [negb].
  - destruct (Hrec eq_refl) as [hv ->]. destruct (_ || _).
    + pose proof (handleIPs_keeps now q (host_of q) (IPs hv) (enh s) Hr) as K. destruct (handleIPs _ _ _ _ _) as [e l]. by answer.
    + destruct (_ =? TypeCNAME); [|done]. by answer.
  - destruct rec as [hv|]; [|done]. destruct (IsDomain hv); [|done].
    match goal with |- context [next s ?r'] => destruct (Hn s r' Hr) as (s1 & [m err] & -> & K & A); [done|] end. cbn [mbind option_bind].
    destruct err as [e|]; [by answer|]. destruct (A eq_refl) as [m' Hm]. cbn in Hm. subst m. by answer.
Qed.

(** The contract of the exchanges: a message or an error; the routed one may give neither when asked for DIRECT only. *)
Definition service_ok (sv : service) : Prop :=
  match sv with
  | NoService => True
  | BuiltIn f g => (∀ r, answered (g r)) ∧ ∀ r d, (f r d).1.2 = true ∨ d = false → answered ((f r d).1.1, (f r d).2)
  | External g => ∀ r, answered (g r)
  end.

Lemma fake_address_handles sv ttl s r q :
  service_ok sv → ready (enh s) → ∃ s' x, fake_address sv ttl s r q = Some (s', x) ∧ keeps (enh s) (enh s') ∧ answered x.
Proof.
  intros Hsv Hr. pose proof Hr as (H4 & H6 & Hm). unfold fake_address.
  assert (∃ t, bundle_ttl sv ttl r = Some t) as [t Ht].
  { unfold bundle_ttl. destruct sv as [|f g|g]; [by eexists| |by eexists]. destruct Hsv as [Hg _]. specialize (Hg r).
    destruct (g r) as [[m|] [e|]]; try (by eexists). destruct (Hg eq_refl) as [? [=]]. }
  destruct (q_type q =? TypeA).
  - destruct (fakeIPPool (enh s)) as [p|] eqn:E4; [|by answer].
    rewrite Ht. cbn [mbind option_bind]. pose proof (LookupWithError_good false p (host_of q) H4) as Hl.
    destruct (LookupWithError p (host_of q)) as [p' [ip|e]]; destruct Hl as (G & N & _); answer;
      (split; [done|split; [simpl; by rewrite E4; simpl; rewrite N|done]]).
  - destruct (fakeIPPool6 (enh s)) as [p|] eqn:E6; [|by answer].
    rewrite Ht. cbn [mbind option_bind]. pose proof (LookupWithError_good true p (host_of q) H6) as Hl.
    destruct (LookupWithError p (host_of q)) as [p' [ip|e]]; destruct Hl as (G & N & _); answer;
      (split; [done|split; [done|split; [simpl; by rewrite E6; simpl; rewrite N|done]]]).
Qed.

Lemma fake_service_handles sv ans ttl next s r :
  service_ok sv → (is_builtin sv = true → answered ans) → handles next → ready (enh s) → Questions r ≠ [] →
  ∃ s' x, fake_service sv ans ttl next s r = Some (s', x) ∧ keeps (enh s) (enh s') ∧ answered x.
Proof.
  intros Hsv Hans Hn Hr Hq. unfold fake_service.
  assert (∀ t x, answered x → ∃ s' y, fall_back next r (SetType s t) x = Some (s', y) ∧
            keeps (enh s) (enh s') ∧ answered y) as Hfall.
  { intros t [m [e|]] Hx; [by apply (Hn (SetType s t) r)|]. by exists (SetType s t), (m, None). }
  match goal with |- context [?first ≫= _] =>
    assert (∃ s1 x, first = Some (s1, x) ∧ keeps (enh s) (enh s1) ∧ answered x) as (s1 & [m err] & -> & K & A) end.
  { destruct sv as [|f g|g]; [by apply Hn|by apply Hfall, Hans|apply Hfall, Hsv]. }
  cbn [mbind option_bind]. destruct err as [e|]; [by answer|]. destruct (A eq_refl) as [m' Hm]. cbn in Hm. subst m.
  destruct K as ((G4 & G6 & Hmap) & N4 & N6 & M).
  match goal with |- context [rewriteFakeIPServiceBindings ?m0 _ _ ?t] =>
    destruct (rewriteFakeIPServiceBindings_ok m0 _ _ t G4 G6) as (p4 & p6 & m2 & c & -> & P4 & P6 & Q4 & Q6 & _) end.
  cbn [mbind option_bind]. answer. destruct c; (split; [done|]); simpl; (split; [congruence|]); (split; [congruence|done]).
Qed.

Lemma withFakeIP_handles skip ttl sv next :
  (∀ h, is_Some (skip h)) → service_ok sv → handles next → handles (withFakeIP skip ttl sv next).
Proof.
  intros Hskip Hsv Hn s r Hr Hq. unfold withFakeIP. destruct (Questions r) as [|q qs] eqn:Eq; [done|]. unfold question. rewrite Eq.
  cbn [head mbind option_bind]. destruct (Hskip (host_of q)) as [skipped ->]. cbn [mbind option_bind].
  set (address := (q_type q =? TypeA) || (q_type q =? TypeAAAA)). set (srv := (q_type q =? TypeHTTPS) || (q_type q =? TypeSVCB)).
  set (routed := match sv with BuiltIn _ _ => _ | _ => _ end).
  assert (enh routed.1.1 = enh s ∧ (routed.2 = true → answered routed.1.2) ∧
          (is_builtin sv = true → address = false → skipped = false → srv = true → answered routed.1.2)) as (Hs & He & Ha).
  { unfold routed. destruct sv as [|f g|g]; [done| |done]. destruct address; [done|]. cbn [negb]. destruct Hsv as [_ Hf].
    specialize (Hf r (skipped || negb srv)). destruct (f r (skipped || negb srv)) as [[a direct] err]. cbn [fst snd] in Hf.
    destruct direct; cbn [fst snd]; (split; [done|]); (split; [try done; intros _; apply Hf; auto|]).
    - intros _ _ _ _. apply Hf. auto.
    - intros _ _ -> ->. apply Hf. auto. }
  clearbody routed. destruct routed as [[s1 ans] early]. cbn [fst snd] in *. rewrite <- Hs in *.
  assert (Questions r ≠ []) as Hq' by (by rewrite Eq).
  destruct early; [by exists s1, ans; split; [done|]; split; [done|]; apply He|]. destruct skipped; [by apply Hn|].
  destruct (address && negb _); [by answer|]. destruct address eqn:Ead; [by apply fake_address_handles|].
  destruct srv eqn:Esrv; [|by apply Hn]. apply fake_service_handles; try done. intros Hb. by apply Ha.
Qed.

Lemma newHandler_handles `{EX : Externals} env fuel now search exchange sv mapper :
  (useHosts mapper = true → ∀ h b, ∃ rec ok, search h b = Some (rec, ok) ∧ (ok = true → is_Some rec)) →
  (mode mapper = DNSFakeIP → ∀ h, is_Some (skipped_by env fuel (fakeIPSkipper mapper) h)) →
  (∀ r, answered (exchange r)) → service_ok sv →
  handles (newHandler env fuel now search exchange sv mapper).
Proof.
  intros Hsearch Hskip Hex Hsv. unfold newHandler, compose. rewrite !fold_right_app.
  set (h0 := withResolver exchange (ipv6 mapper)). assert (handles h0) as H0 by (by apply withResolver_handles).
  match goal with |- context [fold_right _ h0 ?l] => set (h1 := fold_right _ h0 l) end.
  assert (handles h1) as H1 by (unfold h1; destruct (negb _); [by apply withMapping_handles|done]).
  match goal with |- context [fold_right _ h1 ?l] => set (h2 := fold_right _ h1 l) end.
  assert (handles h2) as H2 by (unfold h2; case_bool_decide; [apply withFakeIP_handles; auto|done]).
  destruct (useHosts mapper); [apply withHosts_handles; auto|done].
Qed.

(** Queries one after another. *)
Fixpoint serve_queries (h : handler St) (s : hstate St) (rs : list Msg) : option (hstate St * list response) :=
  match rs with
  | [] => Some (s, [])
  | r :: rs => '(s, x) ← h s r; '(s, xs) ← serve_queries h s rs; Some (s, x :: xs)
  end.

Lemma serve_queries_handles h s rs :
  handles h → ready (enh s) → Forall (λ r, Questions r ≠ []) rs →
  ∃ s' xs, serve_queries h s rs = Some (s', xs) ∧ keeps (enh s) (enh s') ∧ length xs = length rs ∧ Forall answered xs.
Proof.
  intros Hh. revert s. induction rs as [|r rs IH]; intros s Hr Hq; cbn [serve_queries]; [by exists s, []|].
  apply list.Forall_cons in Hq as [Hq1 Hq]. destruct (Hh s r Hr Hq1) as (s1 & x & -> & K1 & A1). cbn [mbind option_bind].
  destruct (IH s1 (proj1 K1) Hq) as (s2 & xs & -> & K2 & L & A2). cbn [mbind option_bind]. exists s2, (x :: xs).
  split; [done|]. split; [by eapply keeps_trans|]. split; [simpl; lia|by constructor].
Qed.

(** ** From the answer to the tunnel *)

Lemma prefix_family (pre : Prefix) six v w : prefix_contains pre (FakeIP.at_ six v) = true → prefix_contains pre (FakeIP.at_ (negb six) w) = false.
Proof.
  unfold prefix_contains. destruct (paddr pre) as [|a|a z], six; cbn; rewrite ?andb_false_r; try done.
Qed.

Lemma enhancer_finds now e (six : bool) (p : Pool St) v host :
  good false (fakeIPPool e) → mode e = DNSFakeIP → (if six then fakeIPPool6 e else fakeIPPool e) = Some p →
  in_pool (FakeIP.at_ six v) p = true → (LookBack p (FakeIP.at_ six v)).2 = Some host →
  (FindHostByIP_ now e (FakeIP.at_ six v)).2 = Some host ∧ IsFakeIP_ e (FakeIP.at_ six v) = true ∧ MappingEnabled_ e = true.
Proof.
  intros H4 Hm Hp Hin Hl. unfold FindHostByIP_, IsFakeIP_, MappingEnabled_, FakeIPEnabled. rewrite Hm, bool_decide_eq_true_2 by done. cbn [negb].
  split; [|split; [|done]].
  - destruct six.
    + assert (look_back (fakeIPPool e) (FakeIP.at_ true v) = (fakeIPPool e, None)) as ->.
      { destruct (fakeIPPool e) as [p4|] eqn:E4; [|done]. destruct (H4 p4 eq_refl) as (f & l & o & Hok). unfold look_back, LookBack.
        pose proof (geo_prefix _ _ _ _ _ (ok_geometry _ _ _ _ _ Hok) f) as Hf.
        rewrite (prefix_family _ false f v); [done|]. apply Hf. pose proof (geo_order _ _ _ _ _ (ok_geometry _ _ _ _ _ Hok)). lia. }
      cbn [fakeIPPool6 with_pools]. rewrite Hp. unfold look_back. destruct (LookBack p (FakeIP.at_ true v)) as [p' r]. cbn in *. by subst.
    + rewrite Hp. unfold look_back. destruct (LookBack p (FakeIP.at_ false v)) as [p' r]. cbn in *. by subst.
  - destruct six; rewrite Hp; cbn [on_pool]; rewrite Hin; [by rewrite orb_true_r|done].
Qed.

(** The query reaches the fake-IP handler: fake-IP mode, no entry in the hosts table, not skipped, a host name. *)
Record fake_query `{EX : Externals} (env : RuleEnv) (fuel : nat) (search : string → bool → option (option HostValue * bool)) (mapper : ResolverEnhancer St) (r : Msg) (q : Question) : Prop := {
  fq_mode : mode mapper = DNSFakeIP;
  fq_question : head (Questions r) = Some q;
  fq_hosts : useHosts mapper = true → ∀ b, search (host_of q) b = Some (None, false);
  fq_skip : skipped_by env fuel (fakeIPSkipper mapper) (host_of q) = Some false;
}.

Lemma newHandler_fake `{EX : Externals} env fuel now search exchange sv mapper s r q :
  fake_query env fuel search mapper r q →
  newHandler env fuel now search exchange sv mapper s r =
  withFakeIP (skipped_by env fuel (fakeIPSkipper mapper)) (fakeIPTTL mapper) sv
    (withMapping now (withResolver exchange (ipv6 mapper))) s r.
Proof.
  intros [Hm Hq Hh _]. unfold newHandler, compose. rewrite Hm. rewrite (bool_decide_eq_true_2 (DNSFakeIP = DNSFakeIP)) by done.
  rewrite (bool_decide_eq_false_2 (DNSFakeIP = DNSNormal)) by done. cbn [negb]. destruct (useHosts mapper); [|done]. cbn [app fold_right].
  unfold withHosts at 1, question. rewrite Hq. cbn [mbind option_bind]. destruct (negb (isIPRequest q)); [done|].
  by rewrite Hh.
Qed.

Lemma fake_answer_data (s : hstate St) r rr ttl s' m :
  fake_answer (St := St) s r rr ttl = Some (s', (Some m, None)) → enh s' = enh s ∧ ∃ rr', Answer m = [rr'] ∧ rr_data rr' = rr_data rr.
Proof.
  unfold fake_answer. intros [= <- <-]. split; [done|]. cbn [Answer set_flags]. rewrite (proj1 (SetRcode_sections _ _ _)). by eexists.
Qed.

(** ** Properties *)

(** C14. The DNS server answers every query that has a question, with a message or an error and without a panic, and after any
    sequence of queries both fake-IP pools are still consistent and of the same networks. *)
Theorem dns_handler_serves `{EX : Externals} env fuel now search exchange sv mapper t rs :
  ready mapper → Forall (λ r, Questions r ≠ []) rs →
  (useHosts mapper = true → ∀ h b, ∃ rec ok, search h b = Some (rec, ok) ∧ (ok = true → is_Some rec)) →
  (mode mapper = DNSFakeIP → ∀ h, is_Some (skipped_by env fuel (fakeIPSkipper mapper) h)) →
  (∀ r, answered (exchange r)) → service_ok sv →
  ∃ s' xs, serve_queries (newHandler env fuel now search exchange sv mapper) (mkState mapper t) rs = Some (s', xs) ∧
    keeps mapper (enh s') ∧ length xs = length rs ∧ Forall answered xs.
Proof. intros Hr Hq Hs Hk He Hv. apply serve_queries_handles; [by apply newHandler_handles|done|done]. Qed.

(** C3. From DNS to the tunnel: when the server answers an address query for a host name in fake-IP mode, the answer is one
    address, and a connection to that address is given the host name, in lower case, and the mode of fake-IP
    connections, without an address. *)
Theorem fake_ip_end_to_end `{EX : Externals} env fuel now search exchange sv mapper t r q s' m :
  ready mapper → fake_query env fuel search mapper r q → isFakeIPHostName (host_of q) = true →
  q_type q = TypeA ∨ q_type q = TypeAAAA → is_Some (if q_type q =? TypeA then fakeIPPool mapper else fakeIPPool6 mapper) →
  newHandler env fuel now search exchange sv mapper (mkState mapper t) r = Some (s', (Some m, None)) →
  ∃ ip rr, Answer m = [rr] ∧ rr_data rr = (if q_type q =? TypeA then DA (AsSlice ip) else DAAAA (AsSlice ip)) ∧
    ∀ now' hosts resolve md, Host md = "" → DstIP md = ip →
    let '(md', ok) := preHandleMetadata (H := enhancer_resolver now' (enh s') hosts resolve) md in
    ok = true ∧ Host md' = ToLower (host_of q) ∧ DNSMode md' = DNSFakeIP ∧ DstIP md' = NoAddr.
Proof.
  intros Hr Hfq Hname Hty [p Hp]. rewrite (newHandler_fake env fuel now search exchange sv mapper _ r q Hfq). destruct Hfq as [Hm Hq _ Hsk].
  unfold withFakeIP, question. rewrite Hq. cbn [mbind option_bind]. rewrite Hsk. cbn [mbind option_bind].
  assert ((q_type q =? TypeA) || (q_type q =? TypeAAAA) = true) as -> by (destruct Hty as [->| ->]; done). cbn [negb andb]. rewrite Hname. cbn [negb].
  set (routed := match sv with BuiltIn _ _ => _ | _ => _ end).
  assert (routed = (mkState mapper t, (None, None), false)) as -> by (unfold routed; by destruct sv). 
  unfold fake_address. cbn [enh]. rewrite Hp. destruct (bundle_ttl sv (fakeIPTTL mapper) r) as [ttl|]; [|done]. cbn [mbind option_bind].
  destruct Hr as (H4 & H6 & _). set (six := negb (q_type q =? TypeA)).
  assert (good six (Some p)) as Hg by (unfold six; destruct (q_type q =? TypeA); cbn [negb]; by rewrite <- Hp).
  pose proof (LookupWithError_good six p (host_of q) Hg) as Hl. destruct (LookupWithError p (host_of q)) as [p' [ip|err]]; [|done].
  destruct Hl as (Hg' & _ & Hip). destruct (Hip ip eq_refl) as (v & -> & Hin & Hlb). intros [He (rr & Ha & Hd)]%fake_answer_data.
  exists (FakeIP.at_ six v), rr. split; [done|]. split; [unfold six in *; by destruct (q_type q =? TypeA)|].
  intros now' hosts resolve md Hh Hdst.
  destruct (enhancer_finds now' (enh s') six p' v (ToLower (host_of q))) as (F & I & M); [| | |done|done|].
  - rewrite He. destruct (q_type q =? TypeA); [exact Hg'|done].
  - rewrite He. by destruct (q_type q =? TypeA).
  - rewrite He. unfold six. by destruct (q_type q =? TypeA).
  - unfold preHandleMetadata, needLookupIP. cbn [MappingEnabled enhancer_resolver FindHostByIP IsFakeIP].
    rewrite M, Hh, bool_decide_eq_true_2, Hdst by done. assert (IsValid (FakeIP.at_ six v) = true) as -> by (by destruct six). cbn [andb].
    rewrite F. cbn [DstIP set_DNSMode set_Host]. rewrite Hdst, I. done.
Qed.

(** C4. No address of a real server reaches a client through service bindings: in the answer to an HTTPS or SVCB query for a
    host that is not skipped, every address hint of a record in service mode is an address of the fake-IP networks,
    whatever the upstream servers say; hints of an unexpected form are gone. *)
Theorem service_bindings_hide_servers skip ttl sv next s r q s' m :
  ready (enh s) → handles next → service_ok sv → head (Questions r) = Some q → skip (host_of q) = Some false →
  q_type q = TypeHTTPS ∨ q_type q = TypeSVCB →
  withFakeIP skip ttl sv next s r = Some (s', (Some m, None)) →
  Forall (record_hides (net (fakeIPPool (enh s))) (net (fakeIPPool6 (enh s)))) (Answer m ++ Ns m ++ Extra m).
Proof.
  intros Hr Hn Hsv Hq Hsk Hty. unfold withFakeIP, question. rewrite Hq. cbn [mbind option_bind]. rewrite Hsk. cbn [mbind option_bind].
  assert ((q_type q =? TypeA) || (q_type q =? TypeAAAA) = false) as -> by (destruct Hty as [->| ->]; done).
  assert ((q_type q =? TypeHTTPS) || (q_type q =? TypeSVCB) = true) as -> by (destruct Hty as [->| ->]; done). cbn [negb andb orb].
  set (routed := match sv with BuiltIn _ _ => _ | _ => _ end).
  assert (enh routed.1.1 = enh s ∧ (routed.2 = true → routed.1.2.2 ≠ None) ∧ (is_builtin sv = true → answered routed.1.2)) as (Hs & He & Ha).
  { unfold routed. destruct sv as [|f g|g]; [done| |done]. destruct Hsv as [_ Hf]. specialize (Hf r false (or_intror eq_refl)).
    destruct (f r false) as [[a direct] err]. cbn [fst snd] in Hf. destruct direct; cbn [fst snd]; (split; [done|]); (split; [|by intros _]); [|done].
    rewrite !orb_false_r. destruct err; [done|]. by rewrite bool_decide_eq_false_2 by (by intros [? [=]]). }
  clearbody routed. destruct routed as [[s1 ans] early]. cbn [fst snd] in *. rewrite <- Hs in *.
  destruct early; [intros [= -> ->]; by destruct (He eq_refl)|]. unfold fake_service.
  assert (Questions r ≠ []) as Hqs by (intros E; by rewrite E in Hq).
  assert (∀ t x, answered x → ∃ s' y, fall_back next r (SetType s1 t) x = Some (s', y) ∧ keeps (enh s1) (enh s') ∧ answered y) as Hfall.
  { intros t [m0 [e|]] Hx; [by apply (Hn (SetType s1 t) r)|]. by exists (SetType s1 t), (m0, None). }
  match goal with |- context [?first ≫= _] =>
    assert (∃ s2 x, first = Some (s2, x) ∧ keeps (enh s1) (enh s2) ∧ answered x) as (s2 & [m0 err] & -> & K & A) end.
  { destruct sv as [|f g|g]; [by apply Hn|by apply Hfall, Ha|apply Hfall, Hsv]. }
  cbn [mbind option_bind]. destruct err as [e|]; [done|]. destruct (A eq_refl) as [m' Hm']. cbn in Hm'. subst m0.
  destruct K as ((G4 & G6 & _) & N4 & N6 & _).
  match goal with |- context [rewriteFakeIPServiceBindings ?mm _ _ ?t] =>
    destruct (rewriteFakeIPServiceBindings_ok mm _ _ t G4 G6) as (p4 & p6 & m2 & c & -> & _ & _ & _ & _ & Hh) end.
  cbn [mbind option_bind]. rewrite N4, N6 in Hh. intros [= _ <-]. destruct (is_builtin sv); [|done]. cbn [Answer Ns Extra set_sections].
  apply Forall_app in Hh as [Hha Hhr]. apply Forall_app. split; [|done]. apply Forall_fmap. eapply list.Forall_impl; [exact Hha|]. by intros [].
Qed.
End theory.

(** ** Witnesses *)

Section witnesses.
#[local] Existing Instances ascii_case demo_externals.

(** A library that copies the identifier and the questions of the request into the reply. *)
#[local] Instance demo_lib : DnsLib := {|
  SetRcode m r c := mkMsg (Id r) c (Authoritative m) (RecursionAvailable m) (AuthenticatedData m) (Questions r) (Answer m) (Ns m) (Extra m) true (Truncated m);
  Fqdn s := if HasSuffix s "." then s else s +:+ ".";
  SetRcode_sections _ _ _ := conj eq_refl (conj eq_refl eq_refl);
  SetRcode_reply _ _ _ := conj eq_refl eq_refl;
|}.

(** Fake IP over one IPv4 pool, an empty hosts table and nothing to skip. *)
Definition demo_mapper : ResolverEnhancer memoryStore.state :=
  NewEnhancer (mkEnhancerConfig true DNSFakeIP (Some demo_pool) None (Some (mkSkipper [] [] FilterBlackList)) 1 true).
Definition no_hosts (host : string) (isDomain : bool) : option (option HostValue * bool) := Some (None, false).

(** An upstream that knows a service binding with the server's address in it. *)
Definition real_server : RR := mkRR "A.org." TypeHTTPS ClassINET 300 (DService true 1 "." [OtherValue 1 "h2"; SVCBIPv4Hint [[192; 0; 2; 1]]]).
Definition demo_exchange (r : Msg) : response := (Some (set_sections r [real_server] [] []), None).
Definition demo_query (type : Z) : Msg := set_question empty_msg 7 [mkQuestion "A.org." type ClassINET].

Lemma demo_ready : ready demo_mapper.
Proof.
  split; [|by split; [intros q [=]|eexists]]. intros p [= <-].
  destruct (New_ok last_addr demo_net (memoryStore.fresh_state 2) demo_pool last_addr_documented memory_not_cachefile (fresh_wf 2) eq_refl
    ltac:(simpl; lia) demo_new) as (six & f & l & Hp & _).
  destruct six; [|by eauto]. pose proof (geo_first _ _ _ _ _ (ok_geometry _ _ _ _ _ Hp)) as [=].
Qed.

Lemma demo_skips h : is_Some (skipped_by demo_env 1 (fakeIPSkipper demo_mapper) h).
Proof. by eexists. Qed.
Lemma demo_service : service_ok (External demo_exchange).
Proof. intros r _. by eexists. Qed.

Lemma dns_handler_serves_witness :
  ∃ s' xs, serve_queries (newHandler demo_env 1 0 no_hosts demo_exchange (External demo_exchange) demo_mapper) (mkState demo_mapper "")
             [demo_query TypeA; demo_query TypeHTTPS; demo_query TypeAAAA; demo_query 16] = Some (s', xs) ∧ length xs = 4%nat ∧ Forall answered xs.
Proof.
  destruct (dns_handler_serves demo_env 1 0 no_hosts demo_exchange (External demo_exchange) demo_mapper ""
    [demo_query TypeA; demo_query TypeHTTPS; demo_query TypeAAAA; demo_query 16]) as (s' & xs & H & _ & L & A).
  - exact demo_ready.
  - by repeat constructor.
  - intros _ h b. by exists None, false.
  - intros _. exact demo_skips.
  - exact demo_service.
  - exact demo_service.
  - eauto.
Defined.

Lemma fake_ip_end_to_end_witness :
  ∃ s' m, newHandler demo_env 1 0 no_hosts demo_exchange NoService demo_mapper (mkState demo_mapper "") (demo_query TypeA) = Some (s', (Some m, None)) ∧
  ∃ ip rr, Answer m = [rr] ∧ rr_data rr = DA (AsSlice ip) ∧
    Host (preHandleMetadata (H := enhancer_resolver 5 (enh s') (λ _ _, (None, false)) (λ _, None)) (set_DstIP empty_metadata ip)).1 = "a.org".
Proof.
  destruct (newHandler demo_env 1 0 no_hosts demo_exchange NoService demo_mapper (mkState demo_mapper "") (demo_query TypeA))
    as [[s' [[m|] [e|]]]|] eqn:E; try (vm_compute in E; discriminate).
  exists s', m. split; [reflexivity|].
  destruct (fake_ip_end_to_end demo_env 1 0 no_hosts demo_exchange NoService demo_mapper "" (demo_query TypeA)
    (mkQuestion "A.org." TypeA ClassINET) s' m) as (ip & rr & Ha & Hd & H).
  - exact demo_ready.
  - by constructor.
  - vm_compute. reflexivity.
  - by left.
  - by eexists.
  - exact E.
  - exists ip, rr. split; [exact Ha|]. split; [exact Hd|].
    specialize (H 5 (λ _ _, (None, false)) (λ _, None) (set_DstIP empty_metadata ip) eq_refl eq_refl).
    destruct (preHandleMetadata _) as [md' ok]. exact (proj1 (proj2 H)).
Defined.

Lemma service_bindings_hide_servers_witness :
  ∃ s' m, withFakeIP (λ _, Some false) 1 (External demo_exchange) (withResolver demo_exchange true) (mkState demo_mapper "") (demo_query TypeHTTPS) =
            Some (s', (Some m, None)) ∧
    length (Answer m) = 1%nat ∧ Forall (record_hides (Some demo_net) None) (Answer m ++ Ns m ++ Extra m).
Proof.
  destruct (withFakeIP (λ _, Some false) 1 (External demo_exchange) (withResolver demo_exchange true) (mkState demo_mapper "") (demo_query TypeHTTPS))
    as [[s' [[m|] [e|]]]|] eqn:E; try (vm_compute in E; discriminate).
  exists s', m. split; [reflexivity|]. split; [by vm_compute in E; injection E as _ <-|].
  exact (service_bindings_hide_servers (λ _, Some false) 1 (External demo_exchange) (withResolver demo_exchange true) (mkState demo_mapper "")
    (demo_query TypeHTTPS) (mkQuestion "A.org." TypeHTTPS ClassINET) s' m demo_ready (withResolver_handles demo_exchange true demo_service) demo_service
    eq_refl eq_refl (or_introl eq_refl) E).
Defined.
End witnesses.
