(* ===== verification/JumpHash.v ===== *)
(** * [jumpHash] of [adapter/outboundgroup/loadbalance.go]: a consistent hash

    The hash multiplies and divides [float64] numbers, so the results depend on
    their rounding.  The numbers here are positive and of moderate size; such a
    [float64] is a fraction, and an operation is the exact result rounded to 53
    significant bits, to the nearest and on a tie to the even one. *)

From Stdlib Require Import ZArith Lia.
From stdpp Require Import base numbers.
From S2P Require Import Prelude.
#[local] Open Scope Z_scope.

(** ** Positive [float64] *)

Record float64 := mkFloat { num : Z; den : Z }.

(** The integer nearest to [n / d]. *)
Definition nearest (n d : Z) : Z :=
  let q := n / d in
  let r := n mod d in
  if 2 * r <? d then q else if d <? 2 * r then q + 1 else if Z.even q then q else q + 1.

(** [n / d] scaled down by [2 ^ e]. *)
Definition scale (e n d : Z) : Z * Z := if 0 <=? e then (n, d * 2 ^ e) else (n * 2 ^ (- e), d).

(** The exponent that leaves an integral part of 53 bits. *)
Definition exponent (n d : Z) : Z :=
  let e := Z.log2 n - Z.log2 d - 53 in
  let '(n', d') := scale e n d in
  if n' / d' <? 2 ^ 53 then e else e + 1.

Definition round (n d : Z) : float64 :=
  let e := exponent n d in
  let '(n', d') := scale e n d in
  let m := nearest n' d' in
  if 0 <=? e then mkFloat (m * 2 ^ e) 1 else mkFloat m (2 ^ (- e)).

Definition of_int (z : Z) : float64 := round z 1.
Definition fmul (x y : float64) : float64 := round (num x * num y) (den x * den y).
Definition fdiv (x y : float64) : float64 := round (num x * den y) (den x * num y).
Definition to_int (x : float64) : Z := num x / den x.

(** ** [jumpHash] *)

Definition next_key (key : Z) : Z := wrap 64 (key * 2862933555777941757 + 1).
Definition next_jump (key b : Z) : Z :=
  i64 (to_int (fmul (of_int (b + 1)) (fdiv (of_int (Z.shiftl 1 31)) (of_int (Z.shiftr key 33 + 1))))).

Fixpoint jump_loop (fuel : nat) (buckets key b j : Z) : option Z :=
  match fuel with
  | O => None
  | S fuel =>
      if j <? buckets then
        let b := j in
        let key := next_key key in
        jump_loop fuel buckets key b (next_jump key b)
      else Some b
  end.

(** [j] grows in every round. *)
Definition jumpHash (key buckets : Z) : option Z := jump_loop (S (Z.to_nat buckets)) buckets key 0 0.

(** The values the authors of the hash publish. *)
Example jumpHash_values :
  jumpHash 1 1 = Some 0 ∧ jumpHash 42 57 = Some 43 ∧ jumpHash 0xDEAD10CC 666 = Some 361 ∧ jumpHash 256 1024 = Some 520.
Proof. vm_compute. done. Qed.

(** ** Rounding *)

Lemma nearest_bounds n d : 0 < d → n / d ≤ nearest n d ≤ n / d + 1.
Proof. intros ?. unfold nearest. repeat case_match; lia. Qed.

Lemma nearest_1 n : nearest n 1 = n.
Proof. unfold nearest. rewrite Z.mod_1_r, Z.div_1_r. done. Qed.

Lemma scale_pos e n d : 0 < n → 0 < d → 0 < (scale e n d).1 ∧ 0 < (scale e n d).2.
Proof.
  intros ??. unfold scale. destruct (Z.leb_spec 0 e); cbn [fst snd]; split; try done;
    (apply Z.mul_pos_pos; [done|apply Z.pow_pos_nonneg; lia]).
Qed.

(** The scaled fraction is [n / (d * 2 ^ e)], with both exponents made non-negative. *)
Lemma scale_value e n d s : 0 ≤ s → 0 ≤ e + s → (scale e n d).1 * (d * 2 ^ (e + s)) = n * ((scale e n d).2 * 2 ^ s).
Proof.
  intros ??. unfold scale. destruct (Z.leb_spec 0 e); cbn [fst snd].
  - rewrite Z.pow_add_r by lia. ring.
  - assert (2 ^ s = 2 ^ (- e) * 2 ^ (e + s)) as -> by (rewrite <- Z.pow_add_r by lia; f_equal; lia). ring.
Qed.

Lemma exponent_ok n d : 0 < n → 0 < d → 2 ^ 52 * (scale (exponent n d) n d).2 ≤ (scale (exponent n d) n d).1.
Proof.
  intros Hn Hd. pose proof (Z.log2_spec n Hn) as [Hn1 _]. pose proof (Z.log2_spec d Hd) as [_ Hd2].
  pose proof (Z.log2_nonneg n). pose proof (Z.log2_nonneg d). unfold exponent.
  remember (Z.log2 n - Z.log2 d - 53) as e eqn:Ee. remember (53 + Z.log2 d) as s eqn:Es.
  pose proof (scale_value e n d s ltac:(lia) ltac:(lia)) as HV. pose proof (scale_pos e n d Hn Hd) as [P1 P2].
  replace (e + s) with (Z.log2 n) in HV by lia.
  destruct (scale e n d) as [n0 d0]. cbn [fst snd] in *.
  assert (2 ^ s = 2 ^ 52 * 2 ^ Z.succ (Z.log2 d)) as Hs by (subst s; rewrite <- Z.pow_add_r by lia; f_equal; lia).
  assert (0 < 2 ^ Z.log2 n) by (apply Z.pow_pos_nonneg; lia).
  destruct (Z.ltb_spec (n0 / d0) (2 ^ 53)).
  - pose proof (scale_value e n d s ltac:(lia) ltac:(lia)) as HU. pose proof (scale_pos e n d Hn Hd) as [Q1 Q2].
    replace (e + s) with (Z.log2 n) in HU by lia. destruct (scale e n d) as [n1 d1]. cbn [fst snd] in *.
    rewrite Hs in HU. destruct (Z.le_gt_cases (2 ^ 52 * d1) n1) as [|Hc]; [done|exfalso].
    assert (n1 * (d * 2 ^ Z.log2 n) < 2 ^ 52 * d1 * (2 ^ Z.succ (Z.log2 d) * n)); [|lia].
    apply Z.mul_lt_mono_nonneg; [lia|done|apply Z.mul_nonneg_nonneg; lia|].
    apply Z.lt_le_trans with (2 ^ Z.succ (Z.log2 d) * 2 ^ Z.log2 n); [by apply Z.mul_lt_mono_pos_r|apply Z.mul_le_mono_nonneg_l; lia].
  - assert (2 ^ 53 * d0 ≤ n0) as Hq.
    { pose proof (Z.mul_div_le n0 d0 P2). assert (2 ^ 53 * d0 ≤ n0 / d0 * d0) by (apply Z.mul_le_mono_nonneg_r; lia). lia. }
    pose proof (scale_value (e + 1) n d s ltac:(lia) ltac:(lia)) as HW. pose proof (scale_pos (e + 1) n d Hn Hd) as [Q1 Q2].
    replace (e + 1 + s) with (Z.succ (Z.log2 n)) in HW by lia. destruct (scale (e + 1) n d) as [n1 d1]. cbn [fst snd] in *.
    rewrite Z.pow_succ_r in HW by lia.
    assert (2 * n1 * d0 = n0 * d1) as He.
    { apply (Z.mul_reg_r _ _ (d * 2 ^ Z.log2 n)); [apply Z.neq_mul_0; lia|].
      transitivity (n1 * (d * (2 * 2 ^ Z.log2 n)) * d0); [ring|]. rewrite HW. transitivity (n0 * (d * 2 ^ Z.log2 n) * d1); [|ring]. rewrite HV. ring. }
    apply (Z.mul_le_mono_pos_r _ _ (2 * d0)); [lia|].
    transitivity (2 ^ 53 * d0 * d1); [change (2 ^ 53) with (2 ^ 52 * 2); lia|].
    transitivity (n0 * d1); [apply Z.mul_le_mono_nonneg_r; lia|lia].
Qed.

(** The rounded integer, of 53 bits, and the exponent. *)
Record rounding (n d e m : Z) : Prop := {
  rd_value : round n d = if 0 <=? e then mkFloat (m * 2 ^ e) 1 else mkFloat m (2 ^ (- e));
  rd_big : 2 ^ 52 ≤ m;
  rd_low : (scale e n d).1 / (scale e n d).2 ≤ m;
  rd_high : m * 2 ^ 52 * (scale e n d).2 ≤ (scale e n d).1 * (2 ^ 52 + 1);
}.

Lemma round_spec n d : 0 < n → 0 < d → ∃ e m, rounding n d e m.
Proof.
  intros Hn Hd. pose proof (exponent_ok n d Hn Hd) as Hb. pose proof (scale_pos (exponent n d) n d Hn Hd) as [P1 P2].
  exists (exponent n d), (nearest (scale (exponent n d) n d).1 (scale (exponent n d) n d).2).
  pose proof (nearest_bounds (scale (exponent n d) n d).1 _ P2) as Hm.
  split; [unfold round; by destruct (scale _ _ _)| | |]; destruct (scale (exponent n d) n d) as [n' d']; cbn [fst snd] in *.
  - apply (Z.div_le_lower_bound n' d' (2 ^ 52)) in P2 as Hq; lia.
  - lia.
  - pose proof (Z.mul_div_le n' d' P2) as Hq. apply (Z.div_le_lower_bound n' d' (2 ^ 52)) in P2 as Hq2; [|lia].
    apply Z.le_trans with ((n' / d') * (2 ^ 52 + 1) * d'); [apply Z.mul_le_mono_nonneg_r; lia|].
    replace (n' / d' * (2 ^ 52 + 1) * d') with (d' * (n' / d') * (2 ^ 52 + 1)) by ring. apply Z.mul_le_mono_nonneg_r; lia.
Qed.

Lemma pow2_pos e : 0 ≤ e → 0 < 2 ^ e.
Proof. intros. apply Z.pow_pos_nonneg; lia. Qed.

Lemma round_pos n d : 0 < n → 0 < d → 0 < num (round n d) ∧ 0 < den (round n d).
Proof.
  intros Hn Hd. destruct (round_spec n d Hn Hd) as (e & m & [-> Hb _ _]).
  destruct (Z.leb_spec 0 e); cbn [num den]; split; try lia; try (apply Z.mul_pos_pos; [lia|]); apply pow2_pos; lia.
Qed.

(** Rounding does not pass an integer of 53 bits. *)
Lemma round_ge k n d : 0 < n → 0 < d → k < 2 ^ 53 → k * d ≤ n → k * den (round n d) ≤ num (round n d).
Proof.
  intros Hn Hd Hk Hle. destruct (round_spec n d Hn Hd) as (e & m & [-> Hb Hlow _]). unfold scale in Hlow.
  destruct (Z.leb_spec 0 e) as [He|He]; cbn [num den fst snd] in *.
  - destruct (Z.eq_dec e 0) as [->|]; [|pose proof (Z.pow_le_mono_r 2 1 e); nia].
    rewrite Z.pow_0_r, !Z.mul_1_r in *. apply (Z.div_le_lower_bound n d k) in Hd; lia.
  - etransitivity; [|exact Hlow]. apply Z.div_le_lower_bound; [done|].
    rewrite (Z.mul_comm d), <- Z.mul_assoc, (Z.mul_comm _ d), Z.mul_assoc. apply Z.mul_le_mono_nonneg_r; [|done]. apply Z.lt_le_incl, pow2_pos; lia.
Qed.

(** The relative error is at most one unit of the last of 53 bits. *)
Lemma round_le n d : 0 < n → 0 < d → num (round n d) * d * 2 ^ 52 ≤ n * den (round n d) * (2 ^ 52 + 1).
Proof.
  intros Hn Hd. destruct (round_spec n d Hn Hd) as (e & m & [-> _ _ Hh]). unfold scale in Hh.
  destruct (Z.leb_spec 0 e); cbn [num den fst snd] in *; lia.
Qed.

Lemma of_int_exact z : 0 < z < 2 ^ 53 → num (of_int z) = z * den (of_int z) ∧ 0 < den (of_int z).
Proof.
  intros [Hz Hz']. split; [|by apply round_pos]. apply Z.log2_lt_pow2 in Hz' as Hl; [|done]. pose proof (Z.log2_nonneg z).
  assert (exponent z 1 ≤ 0) as He by (unfold exponent; rewrite Z.log2_1; destruct (scale _ _ _); case_match; lia).
  unfold of_int, round, scale. destruct (Z.leb_spec 0 (exponent z 1)); cbn [num den].
  - replace (exponent z 1) with 0 by lia. rewrite Z.pow_0_r, !Z.mul_1_r. apply nearest_1.
  - apply nearest_1.
Qed.

(** ** The jumps *)

Lemma shift_range key : 0 ≤ key < 2 ^ 64 → 1 ≤ Z.shiftr key 33 + 1 ≤ 2 ^ 31.
Proof. intros H. rewrite Z.shiftr_div_pow2 by lia. pose proof (Z.div_pos key (2 ^ 33)). pose proof (Z.div_lt_upper_bound key (2 ^ 33) (2 ^ 31)). lia. Qed.

(** The quotient is at least one and not much more than [2 ^ 31]. *)
Lemma quotient_bounds x : 1 ≤ x ≤ 2 ^ 31 →
  let q := fdiv (of_int (Z.shiftl 1 31)) (of_int x) in
  0 < den q ∧ den q ≤ num q ∧ num q * 2 ^ 52 ≤ 2 ^ 31 * den q * (2 ^ 52 + 1).
Proof.
  intros Hx. change (Z.shiftl 1 31) with (2 ^ 31). destruct (of_int_exact (2 ^ 31)) as [E1 P1]; [lia|]. destruct (of_int_exact x) as [E2 P2]; [lia|].
  unfold fdiv. rewrite E1, E2. set (u := den (of_int (2 ^ 31))) in *. set (v := den (of_int x)) in *.
  assert (0 < u * v) as Puv by (apply Z.mul_pos_pos; lia). assert (0 < 2 ^ 31 * u * v) as HN by lia. assert (0 < u * (x * v)) as HD by nia.
  assert (u * v ≤ u * (x * v)) as Hxv by nia. assert (u * (x * v) ≤ 2 ^ 31 * u * v) as Hxv2 by nia.
  pose proof (round_pos _ _ HN HD) as [Pn Pd]. pose proof (round_ge 1 _ _ HN HD ltac:(lia) ltac:(lia)) as Hge.
  pose proof (round_le _ _ HN HD) as Hle. set (q := round _ _) in *. split; [done|]. split; [lia|].
  apply (Z.mul_le_mono_pos_r _ _ (u * v)); [done|].
  transitivity (num q * (u * (x * v)) * 2 ^ 52); [nia|]. etransitivity; [exact Hle|]. apply Z.eq_le_incl. ring.
Qed.

Lemma next_jump_bounds key b : 0 ≤ key < 2 ^ 64 → 0 ≤ b < 2 ^ 31 → b + 1 ≤ next_jump key b < 2 ^ 63.
Proof.
  intros Hk Hb. unfold next_jump. pose proof (quotient_bounds _ (shift_range key Hk)) as Hq. set (q := fdiv _ _) in *. cbn zeta in Hq.
  destruct Hq as (Pq & Hq1 & Hq2). destruct (of_int_exact (b + 1)) as [E1 P1]; [lia|]. unfold fmul. rewrite E1. set (u := den (of_int (b + 1))) in *.
  assert (0 < (b + 1) * u * num q) as HN by (apply Z.mul_pos_pos; lia). assert (0 < u * den q) as HD by (apply Z.mul_pos_pos; lia).
  pose proof (round_pos _ _ HN HD) as [Pn Pd]. pose proof (round_ge (b + 1) _ _ HN HD ltac:(lia) ltac:(nia)) as Hge.
  pose proof (round_le _ _ HN HD) as Hle. set (p := round _ _) in *.
  assert (num p < 2 ^ 63 * den p) as Hlt.
  { apply (Z.mul_lt_mono_pos_r (u * den q * 2 ^ 104)); [lia|].
    apply Z.le_lt_trans with (den p * u * (b + 1) * (num q * 2 ^ 52) * (2 ^ 52 + 1)); [nia|].
    apply Z.le_lt_trans with (den p * u * (b + 1) * (2 ^ 31 * den q * (2 ^ 52 + 1)) * (2 ^ 52 + 1)).
    - apply Z.mul_le_mono_nonneg_r; [lia|]. apply Z.mul_le_mono_nonneg_l; [|done]. repeat (apply Z.mul_nonneg_nonneg; [|lia]). lia.
    - assert (0 < den p * u * den q) as Pa by (apply Z.mul_pos_pos; [apply Z.mul_pos_pos|]; lia). nia. }
  unfold to_int. apply (Z.div_le_lower_bound (num p) (den p) (b + 1)) in Pd as Hlow; [|lia].
  apply (Z.div_lt_upper_bound (num p) (den p) (2 ^ 63)) in Pd as Hup; [|lia].
  unfold i64. rewrite Z.mod_small by lia. lia.
Qed.

Lemma next_key_range key : 0 ≤ next_key key < 2 ^ 64.
Proof. unfold next_key. pose proof (wrap_range 64 (key * 2862933555777941757 + 1)) as H. apply H. lia. Qed.

Lemma jump_loop_ends fuel n key b j :
  0 ≤ b → 0 ≤ j → n < 2 ^ 31 → Z.max 0 (n - j) < Z.of_nat fuel → b < n ∨ j < n →
  ∃ r, jump_loop fuel n key b j = Some r ∧ 0 ≤ r < n.
Proof.
  revert key b j. induction fuel as [|fuel IH]; intros key b j Hb Hj Hn Hf Hor; cbn [jump_loop]; destruct (Z.ltb_spec j n) as [Hjn|Hjn].
  - lia.
  - lia.
  - pose proof (next_jump_bounds (next_key key) j (next_key_range key) ltac:(lia)). apply IH; lia.
  - exists b. split; [done|lia].
Qed.

(** More fuel does not change the result. *)
Lemma jump_loop_more fuel fuel' n key b j r : (fuel ≤ fuel')%nat → jump_loop fuel n key b j = Some r → jump_loop fuel' n key b j = Some r.
Proof.
  revert fuel' key b j. induction fuel as [|fuel IH]; intros [|fuel'] key b j Hle; try done; [lia|].
  cbn [jump_loop]. case_match; [|done]. apply IH. lia.
Qed.

Lemma jump_loop_S fuel n key b j :
  jump_loop (S fuel) n key b j = if j <? n then jump_loop fuel n (next_key key) j (next_jump (next_key key) j) else Some b.
Proof. reflexivity. Qed.

Lemma jump_loop_grow fuel n key b j r r' :
  0 ≤ j → 0 ≤ n → n + 1 < 2 ^ 31 → jump_loop fuel n key b j = Some r → jump_loop fuel (n + 1) key b j = Some r' → r' = r ∨ r' = n.
Proof.
  revert key b j. induction fuel as [|fuel IH]; intros key b j Hj Hn Hmax; [done|]. rewrite !jump_loop_S.
  destruct (Z.ltb_spec j n) as [H1|H1], (Z.ltb_spec j (n + 1)) as [H2|H2]; try lia.
  - apply IH; [|done|done]. pose proof (next_jump_bounds (next_key key) j (next_key_range key) ltac:(lia)). lia.
  - intros _ Hr. right. replace j with n in * by lia. destruct fuel as [|fuel]; [done|]. rewrite jump_loop_S in Hr.
    pose proof (next_jump_bounds (next_key key) n (next_key_range key) ltac:(lia)) as Hb.
    destruct (Z.ltb_spec (next_jump (next_key key) n) (n + 1)); [lia|by injection Hr as <-].
  - intros [= ->] [= ->]. by left.
Qed.

Lemma jumpHash_in_range key n : 0 < n < 2 ^ 31 → ∃ r, jumpHash key n = Some r ∧ 0 ≤ r < n.
Proof. intros Hn. apply jump_loop_ends; lia. Qed.

(** ** Properties *)

(** The hash of a key, computed with [float64] arithmetic, ends and is an index below the number of buckets; and it is
    consistent: when a bucket is added, a key keeps its bucket or moves to the new one. *)
Theorem jump_hash_consistent key n :
  0 < n → n + 1 < 2 ^ 31 →
  ∃ r r', jumpHash key n = Some r ∧ jumpHash key (n + 1) = Some r' ∧ 0 ≤ r < n ∧ (r' = r ∨ r' = n).
Proof.
  intros Hn Hmax. destruct (jumpHash_in_range key n) as (r & Hr & Hb); [lia|]. destruct (jumpHash_in_range key (n + 1)) as (r' & Hr' & _); [lia|].
  exists r, r'. split; [done|]. split; [done|]. split; [done|].
  apply (jump_loop_grow (S (Z.to_nat (n + 1))) n key 0 0); [lia|lia|done| |done]. eapply jump_loop_more; [|exact Hr]. lia.
Qed.

Lemma jump_hash_consistent_witness :
  ∃ r r', jumpHash 42 56 = Some r ∧ jumpHash 42 57 = Some r' ∧ 0 ≤ r < 56 ∧ (r' = r ∨ r' = 56).
Proof. apply (jump_hash_consistent 42 56); lia. Defined.
