(* ===== verification/SingleDo.v ===== *)
(** * [common/singledo/singledo.go]: one computation shared by its callers

    [Do] runs its function at most once at a time, lets callers that come meanwhile
    wait for that run, and keeps the result for a while; [Reset] makes the next
    caller start afresh.  What a caller does while it holds the mutex is one step; a
    run of the function lies between two of them, so that resets and other callers
    interleave with it.  A [*call] is an index into the list of all calls. *)

From Stdlib Require Import ZArith Lia.
From stdpp Require Import base list numbers relations.
From S2P Require Import Prelude.
#[local] Open Scope list_scope.
#[local] Open Scope Z_scope.

Section single.
Context {T : Type}.

Record Result := mkResult { Val : T; Time : Z }.
Record Single := mkSingle { wait : Z; call : option nat; result : option Result }.

Definition NewSingle (wait : Z) : Single := mkSingle wait None None.
Definition Reset (s : Single) : Single := mkSingle (wait s) None None.

(** What the first critical section of [Do] finds. *)
Inductive entry := Hit (v : T) | Join (c : nat) | Lead (c : nat).

(** [new] is the call this caller makes when it is the one to run the function. *)
Definition do_enter (now : Z) (s : Single) (new : nat) : Single * entry :=
  let expired := mkSingle (wait s) (call s) None in
  let go := match call s with
            | Some c => (expired, Join c)
            | None => (mkSingle (wait s) (Some new) None, Lead new)
            end in
  match result s with
  | Some r => if now - Time r <? wait s then (s, Hit (Val r)) else go
  | None => go
  end.

(** The second critical section; the call may have been reset while the function ran. *)
Definition do_leave (now : Z) (s : Single) (c : nat) (v : T) : Single :=
  if bool_decide (call s = Some c) then mkSingle (wait s) None (Some (mkResult v now)) else s.

(** [Do] for a caller nobody interferes with, which leaves at [now']; the function acts on a state. *)
Definition Do {St} (now now' : Z) (s : Single) (fn : St → option (St * T)) (st : St) : option (Single * St * T * bool) :=
  match do_enter now s 0 with
  | (s, Hit v) => Some (s, st, v, true)
  | (s, Join _) => None
  | (s, Lead c) => '(st, v) ← fn st; Some (do_leave now' s c v, st, v, false)
  end.

(** ** Callers that interleave *)

(** A call, with the number of resets before it and the value once the function has returned. *)
Record call_ := mkCall { born : nat; val : option T }.

(** A caller, with the number of resets before it came. *)
Inductive caller :=
| Waiting (came : nat) (c : nat)
| Running (came : nat) (c : nat)
| Leaving (came : nat) (c : nat) (v : T)
| Returned (came : nat) (v : T) (shared : bool).

Record system := Sys { clock : Z; single : Single; calls : list call_; resets : nat; callers : list caller }.

Definition init (wait now : Z) : system := Sys now (NewSingle wait) [] 0 [].

Inductive step : system → system → Prop :=
| step_tick n s cs r l n' : n ≤ n' → step (Sys n s cs r l) (Sys n' s cs r l)
| step_reset n s cs r l : step (Sys n s cs r l) (Sys n (Reset s) cs (S r) l)
| step_hit n s cs r l s' v : do_enter n s (length cs) = (s', Hit v) →
    step (Sys n s cs r l) (Sys n s' cs r (l ++ [Returned r v true]))
| step_join n s cs r l s' c : do_enter n s (length cs) = (s', Join c) →
    step (Sys n s cs r l) (Sys n s' cs r (l ++ [Waiting r c]))
| step_lead n s cs r l s' c : do_enter n s (length cs) = (s', Lead c) →
    step (Sys n s cs r l) (Sys n s' (cs ++ [mkCall r None]) r (l ++ [Running r c]))
| step_run n s cs r l i e c v k : l !! i = Some (Running e c) → cs !! c = Some k →
    step (Sys n s cs r l) (Sys n s (<[c := mkCall (born k) (Some v)]> cs) r (<[i := Leaving e c v]> l))
| step_leave n s cs r l i e c v : l !! i = Some (Leaving e c v) →
    step (Sys n s cs r l) (Sys n (do_leave n s c v) cs r (<[i := Returned e v false]> l))
| step_wake n s cs r l i e c k v : l !! i = Some (Waiting e c) → cs !! c = Some k → val k = Some v →
    step (Sys n s cs r l) (Sys n s cs r (<[i := Returned e v true]> l)).

Definition reachable (w now : Z) (x : system) : Prop := rtc step (init w now) x.

(** ** Invariant *)

(** A call of the caller's time that has this value, if it is known. *)
Definition has (cs : list call_) (e c : nat) (v : option T) : Prop := ∃ k, cs !! c = Some k ∧ born k = e ∧ (v = None ∨ val k = v).

Definition caller_ok (cs : list call_) (x : caller) : Prop :=
  match x with
  | Waiting e c => has cs e c None
  | Running e c => cs !! c = Some (mkCall e None)
  | Leaving e c v => cs !! c = Some (mkCall e (Some v))
  | Returned e v _ => ∃ c, cs !! c = Some (mkCall e (Some v))
  end.

(** The call a caller runs the function for. *)
Definition runs (x : caller) : option nat := match x with Running _ c | Leaving _ c _ => Some c | _ => None end.

(** Caller number [i] runs the function for a call made after [e] resets. *)
Definition runs_at (l : list caller) (cs : list call_) (i c e : nat) : Prop :=
  ∃ x k, l !! i = Some x ∧ runs x = Some c ∧ cs !! c = Some k ∧ born k = e.

Record inv (x : system) : Prop := {
  inv_callers : Forall (caller_ok (calls x)) (callers x);
  inv_born : Forall (λ k, (born k ≤ resets x)%nat) (calls x);
  inv_call : ∀ c, call (single x) = Some c → ∃ k, calls x !! c = Some k ∧ born k = resets x;
  inv_result : ∀ r, result (single x) = Some r → Time r ≤ clock x ∧ ∃ c, calls x !! c = Some (mkCall (resets x) (Some (Val r)));
  (** A caller that runs the function now is the one the others wait for. *)
  inv_owner : ∀ i c, runs_at (callers x) (calls x) i c (resets x) → call (single x) = Some c;
  inv_single : ∀ i j c c' e, runs_at (callers x) (calls x) i c e → runs_at (callers x) (calls x) j c' e → i = j;
}.

Lemma init_inv w now : inv (init w now).
Proof. split; simpl; try done; [intros i c (x & k & ? & _)|intros i j c c' e (x & k & ? & _)]; done. Qed.

(** The calls as they were, before an addition or before the value of [c] was known. *)
Definition grown (c : nat) (cs cs' : list call_) : Prop :=
  ∀ c' k, cs !! c' = Some k → (c' ≠ c ∨ val k ≠ None → cs' !! c' = Some k) ∧ ∃ k', cs' !! c' = Some k' ∧ born k' = born k.

Lemma caller_ok_grown c cs cs' x : grown c cs cs' → (∀ e, x ≠ Running e c) → caller_ok cs x → caller_ok cs' x.
Proof.
  intros Hg Hx. destruct x as [e c'|e c'|e c' v|e v b]; simpl.
  - intros (k & Hk & <- & _). destruct (Hg _ _ Hk) as [_ (k' & ? & ?)]. exists k'. auto.
  - intros Hk. apply (Hg _ _ Hk). left. intros ->. by apply (Hx e).
  - intros Hk. apply (Hg _ _ Hk). by right.
  - intros (c' & Hk). exists c'. apply (Hg _ _ Hk). by right.
Qed.

Lemma grown_app cs k : grown (length cs) cs (cs ++ [k]).
Proof. intros c' k' Hk. apply lookup_lt_Some in Hk as Hlt. rewrite lookup_app_l by done. split; [done|]. by exists k'. Qed.

Lemma grown_set cs c e v : cs !! c = Some (mkCall e None) → grown c cs (<[c := mkCall e (Some v)]> cs).
Proof.
  intros Hc c' k Hk. destruct (decide (c' = c)) as [->|].
  - rewrite Hc in Hk. injection Hk as <-. split; [by intros [|]|]. exists (mkCall e (Some v)). split; [|done].
    rewrite list_lookup_insert_eq; [done|by eapply lookup_lt_Some].
  - rewrite list_lookup_insert_ne by done. split; [done|]. by exists k.
Qed.

(** A caller that comes, or that changes without starting to run, adds no run. *)
Lemma runs_at_app l cs y i c e : runs_at (l ++ [y]) cs i c e → runs_at l cs i c e ∨ (i = length l ∧ runs y = Some c ∧ ∃ k, cs !! c = Some k ∧ born k = e).
Proof.
  intros (x & k & Hx & Hr & Hk & He). apply lookup_app_Some in Hx as [Hx|[Hle Hx]].
  - left. by exists x, k.
  - apply list_lookup_singleton_Some in Hx as [Hi <-]. right. split; [lia|]. eauto.
Qed.

Lemma runs_at_insert l cs j y y' i c e : l !! j = Some y' → runs y = runs y' ∨ runs y = None → runs_at (<[j := y]> l) cs i c e → runs_at l cs i c e.
Proof.
  intros Hj Hr (x & k & Hx & Hc & Hk & He). destruct (decide (j = i)) as [->|].
  - rewrite list_lookup_insert_eq in Hx by (by eapply lookup_lt_Some). injection Hx as <-. exists y', k.
    destruct Hr as [<-|Hr]; [done|]. by rewrite Hr in Hc.
  - rewrite list_lookup_insert_ne in Hx by done. by exists x, k.
Qed.

Lemma runs_at_calls l c0 cs cs' i c e : grown c0 cs cs' → (∀ i c, l !! i ≫= runs = Some c → is_Some (cs !! c)) → runs_at l cs' i c e → runs_at l cs i c e.
Proof.
  intros Hg Hin (x & k & Hx & Hr & Hk & He). destruct (Hin i c) as [k0 Hk0]; [by rewrite Hx|]. destruct (Hg _ _ Hk0) as [_ (k' & Hk' & Hb)].
  rewrite Hk in Hk'. injection Hk' as <-. exists x, k0. by rewrite <- Hb.
Qed.

Lemma callers_known l cs : Forall (caller_ok cs) l → ∀ i c, l !! i ≫= runs = Some c → is_Some (cs !! c).
Proof.
  intros Hl i c. destruct (l !! i) as [x|] eqn:Hx; [|done]. cbn [mbind option_bind]. pose proof (Forall_lookup_1 _ _ _ _ Hl Hx) as Ho.
  destruct x; simpl in *; intros [= <-]; by eexists.
Qed.

Lemma do_enter_cases now s new :
  match do_enter now s new with
  | (s', Hit v) => s' = s ∧ ∃ r, result s = Some r ∧ Val r = v ∧ now - Time r < wait s
  | (s', Join c) => call s = Some c ∧ s' = mkSingle (wait s) (Some c) None
  | (s', Lead c) => c = new ∧ call s = None ∧ s' = mkSingle (wait s) (Some new) None
  end.
Proof.
  unfold do_enter. destruct (result s) as [r|]; [destruct (Z.ltb_spec (now - Time r) (wait s))|]; [by eauto| |]; by destruct (call s).
Qed.

(** A caller came that does not run the function. *)
Lemma inv_come n s s' cs r l y :
  inv (Sys n s cs r l) → caller_ok cs y → runs y = None → call s' = call s → (result s' = result s ∨ result s' = None) →
  inv (Sys n s' cs r (l ++ [y])).
Proof.
  intros [Hc Hb Hcall Hres Ho Hs] Hy Hr Ec Er. split; cbn [calls callers single resets clock] in *.
  - apply Forall_app. by split; [|constructor].
  - done.
  - by rewrite Ec.
  - destruct Er as [->| ->]; [done|by intros ? [=]].
  - intros i c [H|(_ & H & _)]%runs_at_app; [|by rewrite Hr in H]. rewrite Ec. by eapply Ho.
  - intros i j c c' e [H|(_ & H & _)]%runs_at_app [H'|(_ & H' & _)]%runs_at_app; try (by rewrite Hr in *). by eapply Hs.
Qed.

Lemma inv_lead n s s' cs r l :
  inv (Sys n s cs r l) → call s = None → s' = mkSingle (wait s) (Some (length cs)) None →
  inv (Sys n s' (cs ++ [mkCall r None]) r (l ++ [Running r (length cs)])).
Proof.
  intros [Hc Hb Hcall Hres Ho Hs] En ->. pose proof (grown_app cs (mkCall r None)) as Hg. cbn [calls callers single resets clock] in *.
  assert (∀ i c e, runs_at l (cs ++ [mkCall r None]) i c e → runs_at l cs i c e) as Hback by (intros; eapply runs_at_calls; eauto using callers_known).
  assert (∀ i c, ¬ runs_at l cs i c r) as Hnone by (intros i c H; rewrite (Ho _ _ H) in En; done).
  assert ((cs ++ [mkCall r None]) !! length cs = Some (mkCall r None)) as Hnew by (by apply list_lookup_middle).
  split; cbn [calls callers single resets clock call result].
  - apply Forall_app. split; [|constructor; [exact Hnew|done]].
    rewrite Forall_forall in *. intros x Hx. apply (caller_ok_grown (length cs) cs); [done| |by apply Hc].
    intros e ->. specialize (Hc _ Hx). simpl in Hc. apply lookup_lt_Some in Hc. lia.
  - apply Forall_app. split; [done|by constructor].
  - intros c [= <-]. eexists. split; [exact Hnew|done].
  - done.
  - intros i c [H%Hback|(_ & [= <-] & _)]%runs_at_app; [by destruct (Hnone _ _ H)|done].
  - intros i j c c' e [H%Hback|(-> & [= <-] & k & Hk & He)]%runs_at_app [H'%Hback|(-> & [= <-] & k' & Hk' & He')]%runs_at_app; [by eapply Hs| | |done].
    + rewrite Hnew in Hk'. injection Hk' as <-. simpl in He'. subst e. by destruct (Hnone _ _ H).
    + rewrite Hnew in Hk. injection Hk as <-. simpl in He. subst e. by destruct (Hnone _ _ H').
Qed.

Lemma inv_run n s cs r l i e c v k :
  inv (Sys n s cs r l) → l !! i = Some (Running e c) → cs !! c = Some k →
  inv (Sys n s (<[c := mkCall (born k) (Some v)]> cs) r (<[i := Leaving e c v]> l)).
Proof.
  intros [Hc Hb Hcall Hres Ho Hs] Hi Hk. cbn [calls callers single resets clock] in *.
  pose proof (Forall_lookup_1 _ _ _ _ Hc Hi) as Hrun. simpl in Hrun. rewrite Hk in Hrun. injection Hrun as ->. cbn [born].
  pose proof (grown_set cs c e v Hk) as Hg. set (cs' := <[c := _]> cs) in *.
  assert (∀ j c' e', runs_at (<[i := Leaving e c v]> l) cs' j c' e' → runs_at l cs j c' e') as Hback.
  { intros j c' e' H. apply (runs_at_calls l c cs cs'); [done|by apply callers_known|]. by apply (runs_at_insert l cs' i (Leaving e c v) (Running e c)); [|left|]. }
  assert (cs' !! c = Some (mkCall e (Some v))) as Hnew by (apply list_lookup_insert_eq; by eapply lookup_lt_Some).
  split; cbn [calls callers single resets clock].
  - apply Forall_lookup. intros j x Hj. destruct (decide (i = j)) as [->|Hij].
    + rewrite list_lookup_insert_eq in Hj by (by eapply lookup_lt_Some). injection Hj as <-. exact Hnew.
    + rewrite list_lookup_insert_ne in Hj by done. apply (caller_ok_grown c cs); [done| |by eapply Forall_lookup_1].
      intros e' ->. apply Hij. eapply (Hs i j c c e); eexists _, _; (split; [done|]); (split; [done|]); (split; [done|done]).
  - apply Forall_insert; [done|]. exact (Forall_lookup_1 _ _ _ _ Hb Hk).
  - intros c' Hc'. destruct (Hcall c' Hc') as (k & Hk' & <-). destruct (Hg _ _ Hk') as [_ (k' & ? & ?)]. eauto.
  - intros x Hx. destruct (Hres x Hx) as (Ht & c' & Hc'). split; [done|]. exists c'. apply (Hg _ _ Hc'). by right.
  - intros j c' H%Hback. by eapply Ho.
  - intros j j' c1 c2 e' H1%Hback H2%Hback. by eapply Hs.
Qed.

(** A caller returned. *)
Lemma inv_return n s s' cs r l i y v b :
  inv (Sys n s cs r l) → l !! i = Some y → caller_ok cs (Returned b v true) →
  (∀ c, call s' = Some c → call s = Some c) →
  (∀ x, result s' = Some x → Time x ≤ n ∧ ∃ c, cs !! c = Some (mkCall r (Some (Val x)))) →
  (∀ j c, j ≠ i → runs_at l cs j c r → call s' = Some c) →
  ∀ sh, inv (Sys n s' cs r (<[i := Returned b v sh]> l)).
Proof.
  intros [Hc Hb Hcall Hres Ho Hs] Hi Hy Hcs Hrs Hown sh. cbn [calls callers single resets clock] in *.
  assert (∀ j c e, runs_at (<[i := Returned b v sh]> l) cs j c e → runs_at l cs j c e) as Hback by (intros j c e; eapply runs_at_insert; [exact Hi|by right]).
  split; cbn [calls callers single resets clock]; [by apply Forall_insert|done|auto|done| |].
  - intros j c H. apply (Hown j); [|by apply Hback]. intros ->. destruct H as (x & k & Hx & Hr & _).
    rewrite list_lookup_insert_eq in Hx by (by eapply lookup_lt_Some). by injection Hx as <-.
  - intros j j' c1 c2 e H1%Hback H2%Hback. by eapply Hs.
Qed.

Lemma step_inv x y : step x y → inv x → inv y.
Proof.
  intros Hst Hinv. destruct Hst as [n s cs r l n' Hle|n s cs r l|n s cs r l s' v He|n s cs r l s' c He|n s cs r l s' c He|n s cs r l i e c v k Hi Hk|n s cs r l i e c v Hi|n s cs r l i e c k v Hi Hk Hv].
  - destruct Hinv as [? ? ? Hres ? ?]. split; try done. cbn in *. intros x Hx. destruct (Hres x Hx) as [? ?]. split; [lia|done].
  - destruct Hinv as [? Hb ? ? ? Hs]. split; cbn [calls callers single resets clock Reset call result] in *; try done.
    + eapply list.Forall_impl; [exact Hb|]. simpl. lia.
    + intros i c (x & k & _ & _ & Hk & He). pose proof (Forall_lookup_1 _ _ _ _ Hb Hk). simpl in *. lia.
  - pose proof (do_enter_cases n s (length cs)) as Hcase. rewrite He in Hcase. destruct Hcase as [-> (x & Hx & <- & _)].
    apply (inv_come n s); auto. destruct (inv_result _ Hinv x Hx) as [_ H]. exact H.
  - pose proof (do_enter_cases n s (length cs)) as Hcase. rewrite He in Hcase. destruct Hcase as [Hc ->].
    apply (inv_come n s); auto. destruct (inv_call _ Hinv c Hc) as (k & ? & ?). exists k. auto.
  - pose proof (do_enter_cases n s (length cs)) as Hcase. rewrite He in Hcase. destruct Hcase as (-> & Hn & Hs'). by apply (inv_lead n s).
  - by apply inv_run.
  - pose proof (Forall_lookup_1 _ _ _ _ (inv_callers _ Hinv) Hi) as Hl. simpl in Hl. unfold do_leave.
    case_bool_decide as Hc; cbn [call result] in *.
    + destruct (inv_call _ Hinv c Hc) as (k & Hk & Hbk). cbn in Hk, Hbk. rewrite Hl in Hk. injection Hk as <-. cbn in Hbk. subst e.
      apply (inv_return n s _ cs r l i (Leaving r c v)); [done|done|by exists c|by intros ? [=]| |].
      * intros x [= <-]. split; [simpl; lia|by exists c].
      * intros j c' Hji H. exfalso. apply Hji. apply (inv_single _ Hinv j i c' c r H). exists (Leaving r c v), (mkCall r (Some v)). done.
    + apply (inv_return n s _ cs r l i (Leaving e c v)); [done|done|by exists c|done|apply (inv_result _ Hinv)|].
      intros j c' _. apply (inv_owner _ Hinv).
  - pose proof (Forall_lookup_1 _ _ _ _ (inv_callers _ Hinv) Hi) as (k' & Hk' & <- & _). cbn [calls] in Hk'. rewrite Hk in Hk'. injection Hk' as <-.
    apply (inv_return n s _ cs r l i (Waiting (born k) c)); [done|done| |done|apply (inv_result _ Hinv)|intros j c' _; apply (inv_owner _ Hinv)].
    exists c. destruct k as [b w]. cbn in *. by subst.
Qed.

Lemma reachable_inv w now x : reachable w now x → inv x.
Proof. unfold reachable. revert x. apply rtc_ind_r; [apply init_inv|]. intros y z _ Hst. by apply step_inv. Qed.

(** ** Properties *)

(** C21. Under every interleaving of callers and resets: whatever value a caller gets was computed by a run of the function that
    began after the last reset before the caller came, and of all runs in progress no two began between the same
    resets. *)
Theorem single_flight w now x :
  reachable w now x →
  (∀ i e v b, callers x !! i = Some (Returned e v b) → ∃ c, calls x !! c = Some (mkCall e (Some v))) ∧
  (∀ i j c c' e, runs_at (callers x) (calls x) i c e → runs_at (callers x) (calls x) j c' e → i = j).
Proof.
  intros Hr. pose proof (reachable_inv w now x Hr) as Hinv. split; [|apply (inv_single _ Hinv)].
  intros i e v b Hi. exact (Forall_lookup_1 _ _ _ _ (inv_callers _ Hinv) Hi).
Qed.

End single.
Arguments Single : clear implicits.
Arguments system : clear implicits.

(** ** Witness *)

(** The function is reset while it runs: its value reaches its own caller only, and the next ones wait for a new run. *)
Definition reset_run : system Z :=
  Sys 0 (mkSingle 10 (Some 1%nat) None) [mkCall 0 (Some 7); mkCall 1 None] 1 [Returned 0 7 false; Running 1 1; Waiting 1 1].

Lemma reset_run_reachable : reachable 10 0 reset_run.
Proof.
  eapply rtc_l; [eapply step_lead; reflexivity|]. eapply rtc_l; [apply step_reset|]. eapply rtc_l; [eapply step_lead; reflexivity|].
  eapply rtc_l; [eapply (step_run _ _ _ _ _ 0 0 0 7); reflexivity|]. eapply rtc_l; [eapply (step_leave _ _ _ _ _ 0); reflexivity|].
  eapply rtc_l; [eapply step_join; reflexivity|]. apply rtc_refl.
Qed.

Lemma single_flight_witness : ∃ c, calls reset_run !! c = Some (mkCall 0 (Some 7)).
Proof. exact (proj1 (single_flight 10 0 reset_run reset_run_reachable) 0%nat 0%nat 7 false eq_refl). Defined.
