(* ===== verification/Health.v ===== *)
(** * [adapter/adapter.go], [common/queue/queue.go]: what tests say about a proxy

    A proxy remembers, for every test URL and for all of them together, whether the
    last test succeeded and the delays of the last ten.  A test is an exchange with a
    server through the proxy; what it may observe is a value of [probe], and
    [URLTest] is what the code makes of it. *)

From Stdlib Require Import ZArith Lia.
From stdpp Require Import base list strings numbers gmap.
From S2P Require Import Prelude Ranges.
#[local] Open Scope list_scope.
#[local] Open Scope Z_scope.

(** ** [Queue] *)

Module Queue.
Section queue.
Context {T : Type} (zero : T).

Definition New : list T := [].
Definition Put (q items : list T) : list T := match items with [] => q | _ => q ++ items end.
Definition Pop (q : list T) : list T * T := match q with [] => ([], zero) | head :: q => (q, head) end.
Definition Last (q : list T) : T := default zero (last q).
Definition Copy (q : list T) : list T := q.
Definition Len (q : list T) : Z := Z.of_nat (length q).
End queue.
End Queue.

(** ** State of a proxy *)

Definition defaultHistoriesNum : Z := 10.

Record DelayHistory := mkDelay { Time : Z; Delay : Z }.
Definition zero_delay : DelayHistory := mkDelay 0 0.

Record internalProxyState := mkProxyState { alive : bool; history : list DelayHistory }.

(** The part of a [Proxy] beside its adapter. *)
Record ProxyHealth := mkHealth { p_alive : bool; p_history : list DelayHistory; extra : gmap string internalProxyState }.

Definition NewProxy : ProxyHealth := mkHealth true Queue.New ∅.

Definition AliveForTestUrl (p : ProxyHealth) (url : string) : bool :=
  match extra p !! url with Some state => alive state | None => p_alive p end.

Definition DelayHistory_ (p : ProxyHealth) : list DelayHistory := Queue.Copy (p_history p).
Definition DelayHistoryForTestUrl (p : ProxyHealth) (url : string) : list DelayHistory :=
  match extra p !! url with Some state => Queue.Copy (history state) | None => [] end.
Definition ExtraDelayHistories (p : ProxyHealth) : gmap string (bool * list DelayHistory) :=
  (λ state, (alive state, Queue.Copy (history state))) <$> extra p.

Definition maxDelay : Z := 0xffff.

Definition LastDelayForTestUrl (p : ProxyHealth) (url : string) : Z :=
  let '(alive, history) := match extra p !! url with
                           | Some state => (alive state, Queue.Last zero_delay (history state))
                           | None => (false, zero_delay)
                           end in
  if negb alive || (Delay history =? 0) then maxDelay else Delay history.

(** ** [URLTest] *)

(** What a test meets: it is cancelled in the queue; it fails; or there is a response to the first request, and to the
    second if that is answered too.  Durations, in nanoseconds, are those when the test ends. *)
Inductive probe :=
| NotStarted (err : string)
| Failed (err : string)
| Answered (statusCode : Z) (second : option Z) (sinceStart sinceSecond : Z).

(** The status and the delay that count. *)
Definition observed (unifiedDelay : bool) (statusCode : Z) (second : option Z) (sinceStart sinceSecond : Z) : Z * Z :=
  match (if unifiedDelay then second else None) with
  | Some code => (code, sinceSecond)
  | None => (statusCode, sinceStart)
  end.

(** An entry, and the oldest one dropped when there are too many. *)
Definition remember (q : list DelayHistory) (record : DelayHistory) : list DelayHistory :=
  let q := Queue.Put q [record] in
  if defaultHistoriesNum <? Queue.Len q then (Queue.Pop zero_delay q).1 else q.

(** The deferred function: [t] and [err] are the results of the test. *)
Definition record_test (now : Z) (url : string) (t : Z) (err : option string) (satisfied : bool) (p : ProxyHealth) : ProxyHealth :=
  let ok := bool_decide (err = None) in
  let record := mkDelay now (if ok then t else 0) in
  let state := default (mkProxyState true Queue.New) (extra p !! url) in
  let record' := if satisfied then record else mkDelay now 0 in
  let state := mkProxyState (if satisfied then ok else false) (remember (history state) record') in
  mkHealth ok (remember (p_history p) record) (<[url := state]> (extra p)).

Definition URLTest (unifiedDelay : bool) (now : Z) (url : string) (expectedStatus : IntRanges) (x : probe) (p : ProxyHealth)
    : ProxyHealth * (Z * option string) :=
  match x with
  | NotStarted e => (p, (0, Some e))
  | Failed e => (record_test now url 0 (Some e) false p, (0, Some e))
  | Answered code second d1 d2 =>
      let '(code, d) := observed unifiedDelay code second d1 d2 in
      let satisfied := Check_ expectedStatus (wrap 16 code) in
      let t := wrap 16 (d / 1000000) in
      (record_test now url t None satisfied p, (t, None))
  end.

(** ** What a sequence of tests leaves *)

Record test := mkTest { t_unified : bool; t_now : Z; t_url : string; t_expected : IntRanges; t_probe : probe }.

Definition run_test (p : ProxyHealth) (t : test) : ProxyHealth :=
  (URLTest (t_unified t) (t_now t) (t_url t) (t_expected t) (t_probe t) p).1.
Definition run_tests (ts : list test) : ProxyHealth := fold_left run_test ts NewProxy.

(** A finished test: whether there was a response, whether its status was expected, and the delay. *)
Record outcome := mkOutcome { o_url : string; o_now : Z; o_ok : bool; o_good : bool; o_delay : Z }.

Definition outcome_of (t : test) : option outcome :=
  match t_probe t with
  | NotStarted _ => None
  | Failed _ => Some (mkOutcome (t_url t) (t_now t) false false 0)
  | Answered code second d1 d2 =>
      let '(code, d) := observed (t_unified t) code second d1 d2 in
      Some (mkOutcome (t_url t) (t_now t) true (Check_ (t_expected t) (wrap 16 code)) (wrap 16 (d / 1000000)))
  end.

Definition outcomes (ts : list test) : list outcome := omap outcome_of ts.
Definition outcomes_for (url : string) (ts : list test) : list outcome := filter (λ o, o_url o = url) (outcomes ts).
Definition entry_for (o : outcome) : DelayHistory := mkDelay (o_now o) (if o_good o then o_delay o else 0).
Definition last_ten {A} (l : list A) : list A := drop (length l - 10) l.

Lemma remember_last_ten l x : remember (last_ten l) x = last_ten (l ++ [x]).
Proof.
  unfold remember, last_ten, defaultHistoriesNum, Queue.Len. cbn [Queue.Put]. rewrite !length_app, length_drop. cbn [length].
  destruct (Z.ltb_spec 10 (Z.of_nat (length l - (length l - 10) + 1))) as [H|H].
  - assert (10 ≤ length l)%nat by lia. rewrite drop_app_le by lia.
    assert (length (drop (length l - 10) l) = 10%nat) as Hlen by (rewrite length_drop; lia).
    destruct (drop (length l - 10) l) as [|y q] eqn:E; [done|]. cbn [app Queue.Pop fst].
    replace (length l + 1 - 10)%nat with (S (length l - 10)) by lia. f_equal.
    by rewrite <- (drop_drop l (length l - 10) 1), Nat.add_comm, E || rewrite <- Nat.add_1_r, <- drop_drop, E.
  - replace (length l - 10)%nat with 0%nat by lia. by replace (length l + 1 - 10)%nat with 0%nat by lia.
Qed.

Lemma last_last_ten {A} (l : list A) : last (last_ten l) = last l.
Proof.
  unfold last_ten. destruct l as [|x l] using rev_ind; [done|]. rewrite length_app. cbn [length]. rewrite drop_app_le by lia. by rewrite !last_snoc.
Qed.

(** The state of one URL. *)
Definition state_for (os : list outcome) : option internalProxyState :=
  match last os with None => None | Some o => Some (mkProxyState (o_good o) (last_ten (entry_for <$> os))) end.

Lemma state_for_history os : history (default (mkProxyState true []) (state_for os)) = last_ten (entry_for <$> os).
Proof. unfold state_for. destruct os as [|o os] using rev_ind; [done|]. by rewrite last_snoc. Qed.

Lemma run_tests_state ts :
  (∀ url, extra (run_tests ts) !! url = state_for (outcomes_for url ts)) ∧
  p_alive (run_tests ts) = from_option o_ok true (last (outcomes ts)).
Proof.
  induction ts as [|t ts [IHe IHa]] using rev_ind; [done|].
  unfold run_tests in *. rewrite fold_left_app. cbn [fold_left]. set (p := fold_left run_test ts NewProxy) in *.
  unfold outcomes_for, outcomes. rewrite omap_app. cbn [omap list_omap].
  assert (match outcome_of t with
          | None => run_test p t = p
          | Some o => (∀ url, extra (run_test p t) !! url = if decide (o_url o = url) then Some (mkProxyState (o_good o) (remember (history (default (mkProxyState true []) (extra p !! url))) (entry_for o))) else extra p !! url)
                      ∧ p_alive (run_test p t) = o_ok o
          end) as Ht.
  { unfold run_test, URLTest, outcome_of. destruct (t_probe t) as [e|e|code second d1 d2]; [done| |destruct (observed _ _ _ _ _) as [c d]]; (split; [|done]);
      intros url; cbn [fst record_test extra o_url o_good]; unfold entry_for; cbn [o_good o_now o_delay];
      (destruct (decide (t_url t = url)) as [<-|]; [rewrite lookup_insert_eq; by destruct (Check_ _ _) || done|by rewrite lookup_insert_ne]). }
  destruct (outcome_of t) as [o|]; [|rewrite Ht, !app_nil_r; split; [exact IHe|exact IHa]].
  destruct Ht as [He Ha]. split; [|by rewrite Ha, last_snoc].
  intros url. rewrite He, filter_app. cbn [filter list_filter]. destruct (decide (o_url o = url)) as [E|E].
  - rewrite IHe. unfold state_for at 2. rewrite last_snoc, state_for_history, fmap_app. f_equal. f_equal. apply remember_last_ten.
  - by rewrite app_nil_r.
Qed.

(** After any sequence of tests, a proxy is alive for a URL when the last finished test of that URL had an expected response
    (without one, when the last test of all had a response, or there was none); its delay is that of this test, or the
    largest number; and the history of the URL holds the last ten tests of it.  A test that was cancelled before it
    began counts for nothing. *)
Theorem health_reflects_tests ts url :
  AliveForTestUrl (run_tests ts) url =
    match last (outcomes_for url ts) with
    | Some o => o_good o
    | None => from_option o_ok true (last (outcomes ts))
    end ∧
  LastDelayForTestUrl (run_tests ts) url =
    match last (outcomes_for url ts) with
    | Some o => if o_good o && negb (o_delay o =? 0) then o_delay o else 0xffff
    | None => 0xffff
    end ∧
  DelayHistoryForTestUrl (run_tests ts) url = last_ten (entry_for <$> outcomes_for url ts).
Proof.
  destruct (run_tests_state ts) as [He Ha]. unfold AliveForTestUrl, LastDelayForTestUrl, DelayHistoryForTestUrl. rewrite He, Ha.
  unfold state_for. destruct (outcomes_for url ts) as [|o os] using rev_ind; [done|]. rewrite last_snoc. split; [done|]. split; [|done].
  cbn [alive history]. unfold Queue.Last. rewrite last_last_ten, fmap_app. change (entry_for <$> [o]) with [entry_for o]. rewrite last_snoc. unfold entry_for. cbn -[Z.eqb].
  destruct (o_good o); [|done]. cbn -[Z.eqb]. by destruct (o_delay o =? 0).
Qed.
