(* ===== verification/Groups.v ===== *)
(** * [adapter/outboundgroup]: groups of proxies

    A group takes its members from providers, filters them, and hands a connection to
    one of them: the selected one, the first that is alive, the fastest, or one chosen
    by turns or by a hash.  A proxy is a pointer with its adapter; what tests say about
    the proxies ([Health]) and the state of the providers change outside the group, so
    operations take both as they are at that moment.  [None] is a panic. *)

From Stdlib Require Import ZArith Lia Ascii.
From stdpp Require Import base list strings numbers gmap.
From S2P Require Import Prelude GoStrings GoNet GoNetText Lru Metadata Rules Tunnel Socks5 JumpHash SingleDo Health.
#[local] Open Scope string_scope.
#[local] Open Scope list_scope.
#[local] Open Scope Z_scope.

(** ** Proxies and providers *)

Record proxy := mkP { ptr : nat; adapter : Tunnel.Proxy }.
Definition name (p : proxy) : string := Tunnel.Name (adapter p).
Definition type (p : proxy) : AdapterType_t := Tunnel.Type_of (adapter p).

(** The state of all proxies. *)
Definition healths : Type := nat → ProxyHealth.
Definition AliveFor (h : healths) (url : string) (p : proxy) : bool := AliveForTestUrl (h (ptr p)) url.
Definition DelayFor (h : healths) (url : string) (p : proxy) : Z := LastDelayForTestUrl (h (ptr p)) url.

Definition TypeString (t : AdapterType_t) : string :=
  match t with
  | Direct => "Direct" | Reject => "Reject" | RejectDrop => "RejectDrop" | Compatible => "Compatible" | Pass => "Pass"
  | PassRule => "PassRule" | Rematch => "Rematch" | Dns => "Dns" | Shadowsocks => "Shadowsocks" | ShadowsocksR => "ShadowsocksR"
  | Snell => "Snell" | Tunnel.Socks5 => "Socks5" | Http => "Http" | Vmess => "Vmess" | Vless => "Vless" | Trojan => "Trojan"
  | Hysteria => "Hysteria" | Hysteria2 => "Hysteria2" | WireGuard => "WireGuard" | Tuic => "Tuic" | Ssh => "Ssh" | Mieru => "Mieru"
  | AnyTLS => "AnyTLS" | Sudoku => "Sudoku" | Masque => "Masque" | TrustTunnel => "TrustTunnel" | ShadowQuic => "ShadowQuic"
  | OpenVPN => "OpenVPN" | Tailscale => "Tailscale" | ZeroTier => "ZeroTier" | EasyTier => "EasyTier" | GostRelay => "GostRelay"
  | Relay => "Relay" | Selector => "Selector" | Fallback => "Fallback" | Tunnel.URLTest => "URLTest" | LoadBalance => "LoadBalance"
  end.

(** A provider: whether it is the one made of the group's own list, its version, its proxies and when it was touched. *)
Record provider := mkProvider { compatible : bool; version : Z; proxies_of : list proxy; lastTouch : Z }.
Definition Touch (now : Z) (pd : provider) : provider := mkProvider (compatible pd) (version pd) (proxies_of pd) now.

(** The part of a provider that its version identifies. *)
Definition contents (pd : provider) : bool * list proxy := (compatible pd, proxies_of pd).

(** ** [GroupBase] *)

Record GroupBase := mkBase {
  gname : string;
  gtype : AdapterType_t;
  filterRegs : list string;
  excludeFilterRegs : list string;
  excludeTypeArray : option (list string);
  failedTimes : Z;
  failedTime : option Z;
  failedTesting : bool;
  testTimeout : Z;
  maxFailedTimes : Z;
  emptyFallback : proxy;
  providerVersions : list Z;
  providerProxies : list proxy;
}.

Record GroupBaseOption := mkBaseOption {
  oName : string; oType : AdapterType_t; oFilter : string; oExcludeFilter : string; oExcludeType : string;
  oTestTimeout : Z; oMaxFailedTimes : Z; oEmptyFallback : proxy;
}.

Definition set_cache (gb : GroupBase) (versions : list Z) (l : list proxy) : GroupBase :=
  mkBase (gname gb) (gtype gb) (filterRegs gb) (excludeFilterRegs gb) (excludeTypeArray gb) (failedTimes gb) (failedTime gb)
    (failedTesting gb) (testTimeout gb) (maxFailedTimes gb) (emptyFallback gb) versions l.
Definition set_failed (gb : GroupBase) (times : Z) (time : option Z) (testing : bool) : GroupBase :=
  mkBase (gname gb) (gtype gb) (filterRegs gb) (excludeFilterRegs gb) (excludeTypeArray gb) times time testing
    (testTimeout gb) (maxFailedTimes gb) (emptyFallback gb) (providerVersions gb) (providerProxies gb).

Section groups.
Context `{UC : UnicodeCase} `{EX : Externals}.

(** The patterns of a list in back quotes; [None]: one of them does not compile, and [MustCompile] panics. *)
Definition must_compile (s : string) : option (list string) :=
  if bool_decide (s = "") then Some []
  else let l := Split s "`"%char in if forallb RegexCompile l then Some l else None.

Definition NewGroupBase (opt : GroupBaseOption) : option GroupBase :=
  let excludeTypeArray := if bool_decide (oExcludeType opt = "") then None else Some (Split (oExcludeType opt) "|"%char) in
  excludeFilterRegs ← must_compile (oExcludeFilter opt);
  filterRegs ← must_compile (oFilter opt);
  Some (mkBase (oName opt) (oType opt) filterRegs excludeFilterRegs excludeTypeArray 0 None false
          (if oTestTimeout opt =? 0 then 5000 else oTestTimeout opt)
          (if oMaxFailedTimes opt =? 0 then 5 else oMaxFailedTimes opt) (oEmptyFallback opt) [] []).

(** *** [GetProxies] *)

(** The proxies whose name matches and has not been seen. *)
Fixpoint pick (matches : string → bool) (l : list proxy) (seen : gset string) : list proxy * gset string :=
  match l with
  | [] => ([], seen)
  | p :: l =>
      if matches (name p) && negb (bool_decide (name p ∈ seen))
      then let '(l, seen) := pick matches l ({[ name p ]} ∪ seen) in (p :: l, seen)
      else pick matches l seen
  end.

Fixpoint pick_all (regs : list string) (l : list proxy) (seen : gset string) : list proxy * gset string :=
  match regs with
  | [] => ([], seen)
  | reg :: regs =>
      let '(a, seen) := pick (RegexMatch reg) l seen in
      let '(b, seen) := pick_all regs l seen in
      (a ++ b, seen)
  end.

Definition gather (regs : list string) (pds : list (bool * list proxy)) : list proxy :=
  match regs with
  | [] => concat (snd <$> pds)
  | _ => concat ((λ '(compatible, l), if compatible : bool then l else (pick_all regs l ∅).1) <$> pds)
  end.

(** The order of the filters, over several providers. *)
Definition reorder (regs : list string) (pds : nat) (l : list proxy) : list proxy :=
  if (1 <? pds)%nat && (1 <? length regs)%nat then
    let '(a, seen) := pick_all regs l ∅ in a ++ (pick (λ _, true) l seen).1
  else l.

Definition excluded_name (regs : list string) (p : proxy) : bool := existsb (λ reg, RegexMatch reg (name p)) regs.
Definition excluded_type (types : option (list string)) (p : proxy) : bool :=
  match types with None => false | Some types => existsb (λ t, EqualFold (TypeString (type p)) t) types end.

Definition members (gb : GroupBase) (pds : list (bool * list proxy)) : list proxy :=
  let l := reorder (filterRegs gb) (length pds) (gather (filterRegs gb) pds) in
  let l := filter (λ p, excluded_name (excludeFilterRegs gb) p = false) l in
  filter (λ p, excluded_type (excludeTypeArray gb) p = false) l.

Definition GetProxies (now : Z) (touch : bool) (pds : list provider) (gb : GroupBase) : list provider * GroupBase * list proxy :=
  let pds := if touch then Touch now <$> pds else pds in
  let versions := version <$> pds in
  if bool_decide (versions = providerVersions gb) then (pds, gb, providerProxies gb)
  else match members gb (contents <$> pds) with
       | [] => (pds, gb, [emptyFallback gb])
       | l => (pds, set_cache gb versions l, l)
       end.

(** *** Failed dials *)

Definition recordDialFailure (now : Z) (gb : GroupBase) : GroupBase * bool :=
  if failedTesting gb then (gb, false)
  else
    let restart := (failedTimes gb =? 0) || match failedTime gb with Some t => testTimeout gb * 1000000 <? now - t | None => true end in
    let times := (if restart then 0 else failedTimes gb) + 1 in
    (set_failed gb times (if restart then Some now else failedTime gb) false, maxFailedTimes gb <=? times).

(** What [onDialFailed] does in its goroutine: nothing, call the health check, or count. *)
Inductive failure := Ignored | Refused | Counted.
Definition onDialFailed (t : AdapterType_t) (notSupported : bool) (err : string) : failure :=
  if bool_decide (t ∈ [Direct; Compatible; Reject; Pass; RejectDrop]) then Ignored
  else if notSupported then Ignored
  else if Contains err "connection refused" then Refused
  else Counted.

(** The two critical sections of [healthCheck], around the checks of the providers; [None]: one is in progress. *)
Definition healthCheck_begin (gb : GroupBase) : option GroupBase :=
  if failedTesting gb then None else Some (set_failed gb (failedTimes gb) (failedTime gb) true).
Definition healthCheck_end (gb : GroupBase) : GroupBase := set_failed gb 0 None false.

Definition onDialSuccess (gb : GroupBase) : GroupBase :=
  if failedTesting gb then gb else set_failed gb 0 None (failedTesting gb).

(** After a dial through a member: [None] is success.  Whether the health check is to run. *)
Definition after_dial (now : Z) (p : proxy) (err : option (bool * string)) (gb : GroupBase) : GroupBase * bool :=
  match err with
  | None => (gb, false)
  | Some (notSupported, e) =>
      match onDialFailed (type p) notSupported e with
      | Ignored => (gb, false)
      | Refused => (gb, true)
      | Counted => recordDialFailure now gb
      end
  end.

(** The callback of a connection that completes its handshake with its first write. *)
Definition first_write (now : Z) (p : proxy) (err : option (bool * string)) (gb : GroupBase) : GroupBase * bool :=
  match err with None => (onDialSuccess gb, false) | Some _ => after_dial now p err gb end.

(** ** [Selector] *)

Record selector := mkSelector { s_base : GroupBase; s_disableUDP : bool; s_selected : string }.

Definition named (n : string) (l : list proxy) : option proxy := snd <$> list_find (λ p, name p = n) l.

Definition selectedProxy (now : Z) (touch : bool) (pds : list provider) (s : selector) : list provider * selector * option proxy :=
  let '(pds, gb, l) := GetProxies now touch pds (s_base s) in
  (pds, mkSelector gb (s_disableUDP s) (s_selected s), match named (s_selected s) l with Some p => Some p | None => head l end).

(** The error is "proxy not exist". *)
Definition Selector_Set (now : Z) (pds : list provider) (s : selector) (n : string) : list provider * selector * bool :=
  let '(pds, gb, l) := GetProxies now false pds (s_base s) in
  match named n l with
  | Some _ => (pds, mkSelector gb (s_disableUDP s) n, true)
  | None => (pds, mkSelector gb (s_disableUDP s) (s_selected s), false)
  end.
Definition Selector_SupportUDP (now : Z) (pds : list provider) (s : selector) : option bool :=
  if s_disableUDP s then Some false else (λ p, SupportUDP (adapter p)) <$> (selectedProxy now false pds s).2.
Definition Selector_ForceSet (s : selector) (n : string) : selector := mkSelector (s_base s) (s_disableUDP s) n.

(** ** [Fallback] *)

Record fallback := mkFallback { f_base : GroupBase; f_disableUDP : bool; f_testUrl : string; f_selected : string }.

(** The loop of [findAliveProxy]: the selection is dropped when the selected proxy is dead. *)
Fixpoint find_alive (alive : proxy → bool) (selected : string) (l : list proxy) : string * option proxy :=
  match l with
  | [] => (selected, None)
  | p :: l =>
      if bool_decide (selected = "") then if alive p then (selected, Some p) else find_alive alive selected l
      else if bool_decide (name p = selected) then if alive p then (selected, Some p) else find_alive alive "" l
      else find_alive alive selected l
  end.

Definition findAliveProxy (now : Z) (h : healths) (touch : bool) (pds : list provider) (f : fallback) : list provider * fallback * option proxy :=
  let '(pds, gb, l) := GetProxies now touch pds (f_base f) in
  let '(selected, r) := find_alive (AliveFor h (f_testUrl f)) (f_selected f) l in
  (pds, mkFallback gb (f_disableUDP f) (f_testUrl f) selected, match r with Some p => Some p | None => head l end).

(** [Set]: the proxy to test at once, if it is dead; the test itself is [Health.URLTest]. *)
Definition Fallback_Set (now : Z) (h : healths) (pds : list provider) (f : fallback) (n : string) : list provider * fallback * option (option proxy) :=
  let '(pds, gb, l) := GetProxies now false pds (f_base f) in
  match named n l with
  | None => (pds, mkFallback gb (f_disableUDP f) (f_testUrl f) (f_selected f), None)
  | Some p => (pds, mkFallback gb (f_disableUDP f) (f_testUrl f) n, Some (if AliveFor h (f_testUrl f) p then None else Some p))
  end.
Definition Fallback_SupportUDP (now : Z) (h : healths) (pds : list provider) (f : fallback) : option bool :=
  if f_disableUDP f then Some false else (λ p, SupportUDP (adapter p)) <$> (findAliveProxy now h false pds f).2.
Definition Fallback_ForceSet (f : fallback) (n : string) : fallback := mkFallback (f_base f) (f_disableUDP f) (f_testUrl f) n.

(** ** [URLTest] *)

Record urltest := mkURLTest {
  u_base : GroupBase;
  u_selected : string;
  u_testUrl : string;
  u_tolerance : Z;
  u_disableUDP : bool;
  u_fastNode : option proxy;
  u_fastSingle : Single proxy;
}.

Definition set_u_base (u : urltest) (gb : GroupBase) : urltest :=
  mkURLTest gb (u_selected u) (u_testUrl u) (u_tolerance u) (u_disableUDP u) (u_fastNode u) (u_fastSingle u).
Definition set_fastNode (u : urltest) (p : proxy) : urltest :=
  mkURLTest (u_base u) (u_selected u) (u_testUrl u) (u_tolerance u) (u_disableUDP u) (Some p) (u_fastSingle u).
Definition set_fastSingle (u : urltest) (s : Single proxy) : urltest :=
  mkURLTest (u_base u) (u_selected u) (u_testUrl u) (u_tolerance u) (u_disableUDP u) (u_fastNode u) s.

(** The loop over the proxies after the first: the fastest one, its delay, and whether the current one was not met. *)
Definition fastest_step (h : healths) (url : string) (current : option proxy) : proxy * Z * bool → proxy → proxy * Z * bool :=
  λ '(fast, minDelay, fastNotExist) p,
    let fastNotExist := match current with
                        | Some c => if bool_decide (name p = name c) then false else fastNotExist
                        | None => fastNotExist
                        end in
    if negb (AliveFor h url p) then (fast, minDelay, fastNotExist)
    else let delay := DelayFor h url p in
         if delay <? minDelay then (p, delay, fastNotExist) else (fast, minDelay, fastNotExist).
Definition fastest (h : healths) (url : string) (current : option proxy) (first : proxy) (l : list proxy) : proxy * Z * bool :=
  fold_left (fastest_step h url current) l (first, DelayFor h url first, true).

(** Whether the fastest proxy takes the place of the current one; the sum is a 16-bit one. *)
Definition replaces (h : healths) (url : string) (tolerance : Z) (current : option proxy) (fast : proxy) (fastNotExist : bool) : bool :=
  match current with
  | None => true
  | Some c => fastNotExist || negb (AliveFor h url c) || (wrap 16 (DelayFor h url fast + tolerance) <? DelayFor h url c)
  end.

(** The selected proxy, if it is alive. *)
Definition selected_alive (h : healths) (u : urltest) (l : list proxy) : option proxy :=
  if bool_decide (u_selected u = "") then None
  else snd <$> list_find (λ p, AliveFor h (u_testUrl u) p = true ∧ name p = u_selected u) l.

(** The function [fast] hands to its [singledo]. *)
Definition fast_body (now : Z) (h : healths) (touch : bool) (st : list provider * urltest) : option (list provider * urltest * proxy) :=
  let '(pds, u) := st in
  let '(pds, gb, l) := GetProxies now touch pds (u_base u) in
  let u := set_u_base u gb in
  match selected_alive h u l with
  | Some p => Some (pds, set_fastNode u p, p)
  | None =>
      match l with
      | [] => None
      | first :: l =>
          let '(fast, _, fastNotExist) := fastest h (u_testUrl u) (u_fastNode u) first l in
          let u := if replaces h (u_testUrl u) (u_tolerance u) (u_fastNode u) fast fastNotExist then set_fastNode u fast else u in
          p ← u_fastNode u; Some (pds, u, p)
      end
  end.

Definition fast (now now' : Z) (h : healths) (touch : bool) (pds : list provider) (u : urltest) : option (list provider * urltest * proxy) :=
  match Do now now' (u_fastSingle u) (fast_body now h touch) (pds, u) with
  | Some (s, (pds, u), p, shared) => Some (if shared && touch then Touch now <$> pds else pds, set_fastSingle u s, p)
  | None => None
  end.

Definition URLTest_ForceSet (u : urltest) (n : string) : urltest :=
  mkURLTest (u_base u) n (u_testUrl u) (u_tolerance u) (u_disableUDP u) (u_fastNode u) (Reset (u_fastSingle u)).
Definition URLTest_Set (now : Z) (pds : list provider) (u : urltest) (n : string) : list provider * urltest * bool :=
  let '(pds, gb, l) := GetProxies now false pds (u_base u) in
  match named n l with
  | Some _ => (pds, URLTest_ForceSet (set_u_base u gb) n, true)
  | None => (pds, set_u_base u gb, false)
  end.

Definition URLTest_SupportUDP (now now' : Z) (h : healths) (pds : list provider) (u : urltest) : option bool :=
  if u_disableUDP u then Some false else (λ x, SupportUDP (adapter x.2)) <$> fast now now' h false pds u.

(** [healthCheck] resets the shared choice before and after the one of the group. *)
Definition URLTest_healthCheck_begin (u : urltest) : urltest * bool :=
  let u := set_fastSingle u (Reset (u_fastSingle u)) in
  match healthCheck_begin (u_base u) with Some gb => (set_u_base u gb, true) | None => (u, false) end.
Definition URLTest_healthCheck_end (u : urltest) : urltest :=
  set_fastSingle (set_u_base u (healthCheck_end (u_base u))) (Reset (u_fastSingle u)).

(** ** [LoadBalance] *)

(** The hash of strings and the list of public suffixes. *)
Class Balance := { MapHash : string → Z; EffectiveTLDPlusOne : string → option string }.
Context `{BA : Balance}.

Definition getKey (metadata : option Metadata) : string :=
  match metadata with
  | None => ""
  | Some m =>
      let dst := if IsValid (DstIP m) then AddrString (DstIP m) else "" in
      if bool_decide (Host m = "") then dst
      else match ParseIP (Host m) with
           | Some _ => Host m
           | None => match EffectiveTLDPlusOne (Host m) with Some etld => etld | None => dst end
           end
  end.

Definition getKeyWithSrcAndDst (metadata : option Metadata) : string :=
  match metadata with Some m => AddrString (SrcIP m) | None => "" end +:+ getKey metadata.

Definition keyFn : Type := option Metadata → string.
Definition getKeyWithInUser (fallback : keyFn) : keyFn := λ metadata,
  match metadata with
  | Some m => if bool_decide (Metadata.InUser m = "") then fallback metadata else Metadata.InUser m
  | None => fallback metadata
  end.

Definition hashKey (n : string) : option (keyFn → keyFn) :=
  if bool_decide (n = "") then Some (λ fn, fn) else if bool_decide (n = "in-user") then Some getKeyWithInUser else None.

(** *** Turns *)

(** The first proxy alive from position [idx] on, and how many were looked at. *)
Fixpoint turn (fuel : nat) (alive : proxy → bool) (l : list proxy) (idx i : nat) : option (proxy * nat) :=
  match fuel with
  | O => None
  | S fuel => match l !! ((idx + i) mod length l)%nat with
              | Some p => if alive p then Some (p, S i) else turn fuel alive l idx (S i)
              | None => None
              end
  end.

Definition strategyRoundRobin (alive : proxy → bool) (touch : bool) (idx : nat) (l : list proxy) : nat * option proxy :=
  let next i := if touch then ((idx + i) mod length l)%nat else idx in
  match turn (length l) alive l idx 0 with
  | Some (p, i) => (next i, Some p)
  | None => (next (length l), head l)
  end.

(** *** Hashing *)

Definition maxRetry : nat := 5.

(** The bucket of a key; [None]: there is none. *)
Definition bucket (key : Z) (l : list proxy) : option proxy :=
  idx ← jumpHash key (Z.of_nat (length l)); l !! Z.to_nat idx.

(** A proxy alive among the first buckets; the outer [None] is a panic. *)
Fixpoint retry (n : nat) (alive : proxy → bool) (key : Z) (l : list proxy) : option (option proxy) :=
  match n with
  | O => Some None
  | S n => p ← bucket key l; if alive p then Some (Some p) else retry n alive (wrap 64 (key + 1)) l
  end.

Definition strategyConsistentHashing (alive : proxy → bool) (keyOf : keyFn) (l : list proxy) (metadata : option Metadata) : option proxy :=
  r ← retry maxRetry alive (MapHash (keyOf metadata)) l;
  match r with
  | Some p => Some p
  | None => match snd <$> list_find (λ p, alive p = true) l with Some p => Some p | None => head l end
  end.

(** *** Sticky sessions *)

Record sticky := mkSticky { lruCells : world Z Z; lruCache : LruCache Z }.
Definition new_sticky : sticky := mkSticky (World ∅ []) (Lru.New [WithAge 600; WithSize 1000]).

(** The tries, with the clock in nanoseconds at each; [idx] is where they started. *)
Fixpoint sticky_tries (n : nat) (alive : proxy → bool) (now : Z) (nanos : nat → Z) (key : Z) (has : bool) (idx nowIdx : Z)
    (l : list proxy) (s : sticky) : option (sticky * option proxy) :=
  match n with
  | O => let '(w, c) := Set_ now (lruCells s) (lruCache s) key 0 in Some (mkSticky w c, head l)
  | S n =>
      p ← l !! Z.to_nat nowIdx;
      if alive p then
        if negb has || negb (nowIdx =? idx)
        then let '(w, c) := Set_ now (lruCells s) (lruCache s) key nowIdx in Some (mkSticky w c, Some p)
        else Some (s, Some p)
      else
        nowIdx ← jumpHash (wrap 64 (key + nanos n)) (Z.of_nat (length l));
        sticky_tries n alive now nanos key has idx nowIdx l s
  end.

Definition strategyStickySessions (alive : proxy → bool) (now : Z) (nanos : nat → Z) (keyOf : keyFn) (s : sticky) (l : list proxy)
    (metadata : option Metadata) : option (sticky * option proxy) :=
  let key := MapHash (keyOf metadata) in
  let '(w, c, r) := Get now (lruCells s) (lruCache s) key in
  let s := mkSticky w c in
  let has := bool_decide (is_Some r) in
  idx ← match r with
        | Some idx => if idx <? Z.of_nat (length l) then Some idx else jumpHash (wrap 64 (key + nanos maxRetry)) (Z.of_nat (length l))
        | None => jumpHash (wrap 64 (key + nanos maxRetry)) (Z.of_nat (length l))
        end;
  sticky_tries (pred maxRetry) alive now nanos key has idx idx l s.

(** *** The group *)

Inductive strategy := RoundRobin (idx : nat) | ConsistentHashing (keyOf : keyFn) | StickySessions (keyOf : keyFn) (s : sticky).

Record loadbalance := mkLoadBalance { l_base : GroupBase; l_disableUDP : bool; l_strategy : strategy; l_testUrl : string }.

Definition LoadBalance_SupportUDP (lb : loadbalance) : bool := negb (l_disableUDP lb).

Definition LoadBalance_Unwrap (now : Z) (nanos : nat → Z) (h : healths) (touch : bool) (pds : list provider) (lb : loadbalance)
    (metadata : option Metadata) : option (list provider * loadbalance * proxy) :=
  let '(pds, gb, l) := GetProxies now touch pds (l_base lb) in
  let alive := AliveFor h (l_testUrl lb) in
  '(st, r) ← match l_strategy lb with
             | RoundRobin idx => let '(idx, r) := strategyRoundRobin alive touch idx l in Some (RoundRobin idx, r)
             | ConsistentHashing keyOf => Some (ConsistentHashing keyOf, strategyConsistentHashing alive keyOf l metadata)
             | StickySessions keyOf s => '(s, r) ← strategyStickySessions alive now nanos keyOf s l metadata; Some (StickySessions keyOf s, r)
             end;
  p ← r; Some (pds, mkLoadBalance gb (l_disableUDP lb) st (l_testUrl lb), p).

End groups.
