(* ===== verification/GroupsTheory.v ===== *)
(** * Groups of proxies: members, choices and fairness

    The members of a group against the options of its configuration, the cache of
    [GetProxies] against computing them anew, and the choice each kind of group
    makes. *)

From Stdlib Require Import ZArith Lia Sorted.
From stdpp Require Import base list strings numbers gmap sorting.
From S2P Require Import Prelude GoStrings GoNet Lru Metadata Rules Tunnel JumpHash SingleDo Health Groups.
#[local] Open Scope string_scope.
#[local] Open Scope list_scope.
#[local] Open Scope nat_scope.

Section groups.
Context `{UC : UnicodeCase} `{EX : Externals}.

(** ** Members *)

(** The first filter that matches a name; their number if none does. *)
Fixpoint rank (regs : list string) (n : string) : nat :=
  match regs with [] => 0 | reg :: regs => if RegexMatch reg n then 0 else S (rank regs n) end.

Lemma rank_match regs n : rank regs n < length regs ↔ ∃ reg, reg ∈ regs ∧ RegexMatch reg n = true.
Proof.
  induction regs as [|reg regs IH]; cbn [rank length].
  - split; [lia|]. by intros (? & []%elem_of_nil & _).
  - destruct (RegexMatch reg n) eqn:E.
    + split; [|lia]. intros _. exists reg. split; [left|done].
    + rewrite <- Nat.succ_lt_mono, IH. split; intros (r & Hr & Hm).
      * exists r. split; [by right|done].
      * apply elem_of_cons in Hr as [->|Hr]; [congruence|]. by exists r.
Qed.

Lemma rank_le regs n : rank regs n ≤ length regs.
Proof. induction regs; cbn [rank length]; [lia|]. case_match; lia. Qed.

Record picked (matches : string → bool) (l : list proxy) (seen : gset string) (a : list proxy) (seen' : gset string) : Prop := {
  pk_sound : ∀ p, p ∈ a → p ∈ l ∧ matches (name p) = true ∧ name p ∉ seen;
  pk_seen : ∀ n, n ∈ seen' ↔ n ∈ seen ∨ n ∈ name <$> a;
  pk_complete : ∀ p, p ∈ l → matches (name p) = true → name p ∈ seen';
  pk_names : NoDup (name <$> a);
}.

Lemma pick_spec matches l seen : picked matches l seen (pick matches l seen).1 (pick matches l seen).2.
Proof.
  revert seen. induction l as [|p l IH]; intros seen; cbn [pick].
  - split; cbn [fst snd]; [by intros ? ?%elem_of_nil|set_solver|by intros ? ?%elem_of_nil|constructor].
  - destruct (matches (name p)) eqn:Em; cbn [andb].
    + case_bool_decide as Hs; cbn [negb].
      * destruct (IH seen) as [H1 H2 H3 H4]. split; [|done| |done].
        -- intros q Hq. destruct (H1 q Hq) as (? & ? & ?). split; [by right|done].
        -- intros q [->|Hq]%elem_of_cons Hm; [apply H2; by left|auto].
      * specialize (IH ({[name p]} ∪ seen)). destruct (pick matches l _) as [a seen']. cbn [fst snd] in *. destruct IH as [H1 H2 H3 H4]. split.
        -- intros q [->|Hq]%elem_of_cons; [by split; [left|]|]. destruct (H1 q Hq) as (? & ? & ?). split; [by right|]. split; [done|set_solver].
        -- intros n. rewrite H2, fmap_cons, elem_of_cons. set_solver.
        -- intros q [->|Hq]%elem_of_cons Hm; [apply H2; set_solver|auto].
        -- rewrite fmap_cons. constructor; [|done]. intros (q & Hq & Hin)%list_elem_of_fmap. destruct (H1 q Hin) as (_ & _ & Hn). rewrite <- Hq in Hn. set_solver.
    + destruct (IH seen) as [H1 H2 H3 H4]. split; [|done| |done].
      * intros q Hq. destruct (H1 q Hq) as (? & ? & ?). split; [by right|done].
      * intros q [->|Hq]%elem_of_cons Hm; [congruence|auto].
Qed.

Definition by_rank (regs : list string) (p q : proxy) : Prop := rank regs (name p) ≤ rank regs (name q).

Definition any_match (regs : list string) (n : string) : bool := existsb (λ reg, RegexMatch reg n) regs.

Lemma rank_any regs n : any_match regs n = true ↔ rank regs n < length regs.
Proof.
  unfold any_match. rewrite rank_match, existsb_exists. split; intros (r & Hr & Hm); exists r; (split; [by apply list_elem_of_In|done]).
Qed.

Lemma pick_all_spec regs l seen : picked (any_match regs) l seen (pick_all regs l seen).1 (pick_all regs l seen).2.
Proof.
  revert seen. induction regs as [|reg regs IH]; intros seen; cbn [pick_all].
  - split; cbn [fst snd]; [by intros ? ?%elem_of_nil|set_solver|done|constructor].
  - pose proof (pick_spec (RegexMatch reg) l seen) as [A1 A2 A3 A4]. destruct (pick (RegexMatch reg) l seen) as [a seen1]. cbn [fst snd] in *.
    pose proof (IH seen1) as [B1 B2 B3 B4]. destruct (pick_all regs l seen1) as [b seen2]. cbn [fst snd] in *.
    unfold any_match in *. cbn [existsb]. split.
    + intros p [Hp|Hp]%elem_of_app.
      * destruct (A1 p Hp) as (? & -> & ?). done.
      * destruct (B1 p Hp) as (? & -> & Hn). split; [done|]. split; [by rewrite orb_true_r|]. rewrite A2 in Hn. tauto.
    + intros n. rewrite B2, A2, fmap_app, elem_of_app. tauto.
    + intros p Hp [Hm|Hm]%orb_prop; [apply B2; left; by apply A3|by apply B3].
    + rewrite fmap_app. apply NoDup_app. split; [done|]. split; [|done].
      intros n Hn (q & -> & Hq)%list_elem_of_fmap. destruct (B1 q Hq) as (_ & _ & Hs). apply Hs, A2. by right.
Qed.

Lemma pick_all_sorted regs l seen : StronglySorted (by_rank regs) (pick_all regs l seen).1.
Proof.
  revert seen. induction regs as [|reg regs IH]; intros seen; cbn [pick_all]; [constructor|].
  pose proof (pick_spec (RegexMatch reg) l seen) as [A1 A2 A3 _]. destruct (pick (RegexMatch reg) l seen) as [a seen1]. cbn [fst snd] in *.
  pose proof (pick_all_spec regs l seen1) as [B1 _ _ _]. specialize (IH seen1). destruct (pick_all regs l seen1) as [b seen2]. cbn [fst snd] in *.
  assert (∀ p, p ∈ a → rank (reg :: regs) (name p) = 0) as Ha by (intros p Hp; cbn [rank]; by destruct (A1 p Hp) as (_ & -> & _)).
  assert (∀ p, p ∈ b → rank (reg :: regs) (name p) = S (rank regs (name p))) as Hb.
  { intros p Hp. cbn [rank]. destruct (B1 p Hp) as (Hl & _ & Hn). destruct (RegexMatch reg (name p)) eqn:E; [|done]. by destruct Hn; apply A3. }
  clear A1 A2 A3 B1. induction a as [|p a IHa]; cbn [app].
  - induction b as [|q b IHb]; [constructor|]. apply StronglySorted_inv in IH as [IH1 IH2]. constructor.
    + apply IHb; [done|]. intros x Hx. apply Hb. by right.
    + rewrite list.Forall_forall in *. intros x Hx. unfold by_rank in *. rewrite (Hb q), (Hb x) by (by constructor). apply le_n_S. by apply IH2.
  - constructor; [apply IHa; intros x Hx; apply Ha; by right|].
    apply list.Forall_forall. intros x _. unfold by_rank. rewrite (Ha p) by left. lia.
Qed.

Lemma sorted_app_last {A} (R : A → A → Prop) (l k : list A) :
  StronglySorted R l → StronglySorted R k → (∀ x y, x ∈ l → y ∈ k → R x y) → StronglySorted R (l ++ k).
Proof.
  intros Hl Hk H. induction Hl as [|x l Hl IH Hx]; [done|]. cbn [app]. constructor.
  - apply IH. intros y z Hy. apply H. by right.
  - apply Forall_app. split; [done|]. apply list.Forall_forall. intros y Hy. apply H; [left|done].
Qed.

Lemma sorted_filter {A} (R : A → A → Prop) (P : A → Prop) `{∀ x, Decision (P x)} (l : list A) : StronglySorted R l → StronglySorted R (filter P l).
Proof.
  induction 1 as [|x l Hl IH Hx]; [constructor|]. rewrite filter_cons. destruct (decide (P x)); [|done]. constructor; [done|].
  rewrite list.Forall_forall in *. intros y [_ Hy]%list_elem_of_filter. by apply Hx.
Qed.

Lemma sorted_all {A} (R : A → A → Prop) (l : list A) : (∀ x y, x ∈ l → y ∈ l → R x y) → StronglySorted R l.
Proof.
  induction l as [|x l IH]; intros H; [constructor|]. constructor; [apply IH; intros; apply H; by right|].
  apply list.Forall_forall. intros y Hy. apply H; [left|by right].
Qed.

(** What the options of a group ask of a member: it comes from a provider, matches a filter unless the provider is the
    group's own list, and neither its name nor its type is excluded. *)
Definition eligible (gb : GroupBase) (pds : list (bool * list proxy)) (p : proxy) : Prop :=
  (∃ c l, (c, l) ∈ pds ∧ p ∈ l ∧ (filterRegs gb = [] ∨ c = true ∨ any_match (filterRegs gb) (name p) = true)) ∧
  excluded_name (excludeFilterRegs gb) p = false ∧ excluded_type (excludeTypeArray gb) p = false.

Definition named_once (pds : list (bool * list proxy)) : Prop :=
  ∀ c c' l l' p q, (c, l) ∈ pds → (c', l') ∈ pds → p ∈ l → q ∈ l' → name p = name q → p = q.

Lemma gather_spec regs pds p :
  (p ∈ gather regs pds → ∃ c l, (c, l) ∈ pds ∧ p ∈ l ∧ (regs = [] ∨ c = true ∨ any_match regs (name p) = true)) ∧
  (named_once pds → (∃ c l, (c, l) ∈ pds ∧ p ∈ l ∧ (regs = [] ∨ c = true ∨ any_match regs (name p) = true)) → p ∈ gather regs pds).
Proof.
  unfold gather. destruct regs as [|reg regs].
  - rewrite list_elem_of_In, in_concat. split.
    + intros (x & Hx & Hp). apply list_elem_of_In, list_elem_of_fmap in Hx as ([c l] & -> & Hl). apply list_elem_of_In in Hp. exists c, l. auto.
    + intros _ (c & l & Hl & Hp & _). exists l. rewrite <- !list_elem_of_In. split; [|done]. apply list_elem_of_fmap. by exists (c, l).
  - set (rs := reg :: regs). rewrite list_elem_of_In, in_concat. split.
    + intros (x & Hx & Hp). apply list_elem_of_In, list_elem_of_fmap in Hx as ([c l] & -> & Hl). apply list_elem_of_In in Hp.
      destruct c; [exists true, l; auto|]. apply (pk_sound _ _ _ _ _ (pick_all_spec rs l ∅)) in Hp as (? & ? & _). exists false, l. auto.
    + intros Huniq (c & l & Hl & Hp & Hor). exists (if c then l else (pick_all rs l ∅).1). rewrite <- !list_elem_of_In. split.
      * apply list_elem_of_fmap. by exists (c, l).
      * destruct c; [done|]. destruct Hor as [|[|Hm]]; [done..|]. destruct (pick_all_spec rs l ∅) as [H1 H2 H3 _].
        apply (H3 p Hp), H2 in Hm as [?%elem_of_empty|(q & Hn & Hq)%list_elem_of_fmap]; [done|].
        destruct (H1 q Hq) as (Hql & _). by rewrite (Huniq false false l l p q Hl Hl Hp Hql Hn).
Qed.

Lemma reorder_spec regs n l p :
  (p ∈ reorder regs n l → p ∈ l) ∧ ((∀ x y, x ∈ l → y ∈ l → name x = name y → x = y) → p ∈ l → p ∈ reorder regs n l) ∧
  (1 < n → 1 < length regs → StronglySorted (by_rank regs) (reorder regs n l) ∧ NoDup (name <$> reorder regs n l)).
Proof.
  unfold reorder. destruct ((1 <? n)%nat && (1 <? length regs)%nat) eqn:E.
  2: { split; [done|]. split; [done|]. intros ??. apply andb_false_iff in E as [?%Nat.ltb_ge|?%Nat.ltb_ge]; lia. }
  clear E. pose proof (pick_all_spec regs l ∅) as [A1 A2 A3 A4]. pose proof (pick_all_sorted regs l ∅) as As.
  destruct (pick_all regs l ∅) as [a seen]. cbn [fst snd] in *. pose proof (pick_spec (λ _, true) l seen) as [B1 B2 B3 B4].
  destruct (pick (λ _, true) l seen) as [b seen']. cbn [fst snd] in *.
  assert (∀ q, q ∈ b → rank regs (name q) = length regs) as Hb.
  { intros q Hq. destruct (B1 q Hq) as (Hl & _ & Hn). pose proof (rank_le regs (name q)).
    destruct (Nat.lt_ge_cases (rank regs (name q)) (length regs)) as [Hlt|]; [|lia]. by destruct Hn; apply A3, rank_any. }
  split; [intros [Hp|Hp]%elem_of_app; [by apply A1|by apply B1]|]. split.
  - intros Huniq Hp. pose proof (B3 p Hp eq_refl) as Hin. apply B2 in Hin as [Hin|(q & Hn & Hq)%list_elem_of_fmap].
    + apply A2 in Hin as [?%elem_of_empty|(q & Hn & Hq)%list_elem_of_fmap]; [done|]. apply elem_of_app. left.
      by rewrite (Huniq p q Hp (proj1 (A1 q Hq)) Hn).
    + apply elem_of_app. right. by rewrite (Huniq p q Hp (proj1 (B1 q Hq)) Hn).
  - intros _ _. split.
    + apply sorted_app_last; [done| |].
      * apply sorted_all. intros x y Hx Hy. unfold by_rank. by rewrite (Hb x), (Hb y).
      * intros x y _ Hy. unfold by_rank. rewrite (Hb y) by done. apply rank_le.
    + rewrite fmap_app. apply NoDup_app. split; [done|]. split; [|done]. intros m Hm (q & -> & Hq)%list_elem_of_fmap.
      destruct (B1 q Hq) as (_ & _ & Hn). apply Hn, A2. by right.
Qed.

Lemma nodup_filter {A B} (f : A → B) (P : A → Prop) `{∀ x, Decision (P x)} (l : list A) : NoDup (f <$> l) → NoDup (f <$> filter P l).
Proof.
  induction l as [|x l IH]; [done|]. rewrite fmap_cons, filter_cons. intros [Hx Hl]%NoDup_cons. case_decide; [|auto]. rewrite fmap_cons. constructor; [|auto].
  intros (y & Hy & [_ Hin]%list_elem_of_filter)%list_elem_of_fmap. apply Hx. apply list_elem_of_fmap. eauto.
Qed.

Lemma members_spec gb pds p :
  (p ∈ members gb pds → eligible gb pds p) ∧ (named_once pds → eligible gb pds p → p ∈ members gb pds) ∧
  (1 < length pds → 1 < length (filterRegs gb) →
     StronglySorted (by_rank (filterRegs gb)) (members gb pds) ∧ NoDup (name <$> members gb pds)).
Proof.
  unfold members, eligible. rewrite !list_elem_of_filter. destruct (gather_spec (filterRegs gb) pds p) as [G1 G2].
  destruct (reorder_spec (filterRegs gb) (length pds) (gather (filterRegs gb) pds) p) as (R1 & R2 & R3).
  split; [|split].
  - intros (Ht & Hn & Hp). auto.
  - intros Huniq (Hp & Hn & Ht). split; [done|]. split; [done|]. apply R2; [|by apply G2].
    intros x y Hx Hy Hxy. destruct (gather_spec (filterRegs gb) pds x) as [Gx _]. destruct (gather_spec (filterRegs gb) pds y) as [Gy _].
    destruct (Gx Hx) as (c & l & ? & ? & _), (Gy Hy) as (c' & l' & ? & ? & _). by apply (Huniq c c' l l').
  - intros H1 H2. destruct (R3 H1 H2) as [Hs Hd]. split; [by do 2 apply sorted_filter|by do 2 apply nodup_filter].
Qed.

(** ** The cache of [GetProxies] *)

(** What the group computes from the contents of its providers. *)
Definition current (gb : GroupBase) (pds : list (bool * list proxy)) : list proxy :=
  match members gb pds with [] => [emptyFallback gb] | l => l end.

(** A version identifies the contents of a provider, [content] for provider number [i]. *)
Definition versioned (content : nat → Z → bool * list proxy) (n : nat) (pds : list provider) : Prop :=
  length pds = n ∧ ∀ i pd, pds !! i = Some pd → contents pd = content i (version pd).

Definition at_versions (content : nat → Z → bool * list proxy) (vs : list Z) : list (bool * list proxy) := imap content vs.

(** The options, which never change. *)
Definition same_options (gb gb' : GroupBase) : Prop :=
  filterRegs gb' = filterRegs gb ∧ excludeFilterRegs gb' = excludeFilterRegs gb ∧ excludeTypeArray gb' = excludeTypeArray gb ∧
  emptyFallback gb' = emptyFallback gb.

Lemma members_options gb gb' pds : same_options gb gb' → members gb' pds = members gb pds.
Proof. intros (H1 & H2 & H3 & _). unfold members. by rewrite H1, H2, H3. Qed.

Lemma current_options gb gb' pds : same_options gb gb' → current gb' pds = current gb pds.
Proof. intros H. unfold current. rewrite (members_options gb gb') by done. by destruct H as (_ & _ & _ & ->). Qed.

Definition cache_ok (content : nat → Z → bool * list proxy) (n : nat) (gb : GroupBase) : Prop :=
  providerVersions gb = [] ∨
  (length (providerVersions gb) = n ∧ providerProxies gb = members gb (at_versions content (providerVersions gb)) ∧ providerProxies gb ≠ []).

Lemma versioned_contents content n pds : versioned content n pds → contents <$> pds = at_versions content (version <$> pds).
Proof.
  intros [_ H]. apply list_eq. intros i. unfold at_versions. rewrite list_lookup_imap, !list_lookup_fmap.
  destruct (pds !! i) as [pd|] eqn:E; [|done]. cbn. by rewrite (H i pd).
Qed.

Lemma touch_contents now (pds : list provider) : contents <$> (Touch now <$> pds) = contents <$> pds.
Proof. rewrite <- list_fmap_compose. by apply list_fmap_ext. Qed.

Lemma touch_versioned content n now pds : versioned content n pds → versioned content n (Touch now <$> pds).
Proof.
  intros [H1 H2]. split; [by rewrite length_fmap|]. intros i pd. rewrite list_lookup_fmap.
  destruct (pds !! i) as [pd'|] eqn:E; [|done]. cbn. intros [= <-]. exact (H2 i pd' E).
Qed.

Lemma GetProxies_spec content n now touch pds gb :
  0 < n → versioned content n pds → cache_ok content n gb →
  let '(pds', gb', l) := GetProxies now touch pds gb in
  l = current gb (contents <$> pds) ∧ cache_ok content n gb' ∧ same_options gb gb' ∧ contents <$> pds' = contents <$> pds.
Proof.
  intros Hn Hv Hc. unfold GetProxies. set (pds' := if touch then _ else _).
  assert (contents <$> pds' = contents <$> pds ∧ versioned content n pds') as [Ec Hv'].
  { unfold pds'. destruct touch; [split; [apply touch_contents|by apply touch_versioned]|done]. }
  rewrite <- Ec. rewrite (versioned_contents content n pds') by done. clearbody pds'. case_bool_decide as Hb.
  - destruct Hc as [Hc|(Hl & Hp & Hne)].
    + destruct Hv' as [Hlen _]. rewrite Hc in Hb. destruct pds'; [simpl in Hlen; lia|done].
    + split; [|split; [right; auto|split; [done|by apply (versioned_contents content n)]]]. rewrite Hb. unfold current. rewrite <- Hp. by destruct (providerProxies gb).
  - unfold current. destruct (members gb _) as [|p l] eqn:Em; (split; [done|]); (split; [|split; [done|by apply (versioned_contents content n)]]); [done|]. right. cbn [providerVersions providerProxies set_cache].
    split; [rewrite length_fmap; apply Hv'|]. split; [|done]. rewrite (members_options gb) by done. done.
Qed.

Lemma current_nonempty gb pds : current gb pds ≠ [].
Proof. unfold current. by destruct (members gb pds). Qed.

(** Calls of [GetProxies], each with the clock, whether it touches, and the providers at that moment. *)
Fixpoint get_all (gb : GroupBase) (reqs : list (Z * bool * list provider)) : list (list proxy) :=
  match reqs with
  | [] => []
  | (now, touch, pds) :: reqs => let '(_, gb, l) := GetProxies now touch pds gb in l :: get_all gb reqs
  end.

Lemma get_all_spec content n gb reqs :
  0 < n → Forall (λ r, versioned content n r.2) reqs → cache_ok content n gb →
  get_all gb reqs = (λ r, current gb (contents <$> r.2)) <$> reqs.
Proof.
  intros Hn. revert gb. induction reqs as [|[[now touch] pds] reqs IH]; intros gb Hv Hc; [done|]. apply list.Forall_cons in Hv as [Hv1 Hv].
  cbn [get_all]. pose proof (GetProxies_spec content n now touch pds gb Hn Hv1 Hc) as Hs. destruct (GetProxies now touch pds gb) as [[pds' gb'] l].
  destruct Hs as (-> & Hc' & Ho & _). rewrite (IH gb' Hv Hc'), fmap_cons. f_equal. apply list_fmap_ext. intros i r _. by apply current_options.
Qed.

(** ** Choices *)

Lemma named_Some n l p : named n l = Some p → p ∈ l ∧ name p = n.
Proof.
  unfold named. destruct (list_find _ l) as [[i q]|] eqn:E; [|done]. intros [= <-]. apply list_find_Some in E as (Hi & Hn & _).
  split; [by eapply list_elem_of_lookup_2|done].
Qed.
Lemma named_None n l : named n l = None → ∀ p, p ∈ l → name p ≠ n.
Proof.
  unfold named. destruct (list_find _ l) as [[i q]|] eqn:E; [done|]. intros _ p Hp. apply list_find_None in E. rewrite list.Forall_forall in E. by apply E.
Qed.

Definition first_alive (alive : proxy → bool) (l : list proxy) : option proxy := snd <$> list_find (λ p, alive p = true) l.

Lemma first_alive_cons (alive : proxy → bool) p l : first_alive alive (p :: l) = if alive p then Some p else first_alive alive l.
Proof.
  unfold first_alive. cbn [list_find]. destruct (decide (alive p = true)) as [->|Hn]; [done|]. apply not_true_is_false in Hn. rewrite Hn.
  by destruct (list_find _ l) as [[i q]|].
Qed.

Lemma find_alive_free (alive : proxy → bool) l : find_alive alive "" l = ("", first_alive alive l).
Proof. induction l as [|p l IH]; [done|]. rewrite first_alive_cons. cbn [find_alive]. rewrite bool_decide_eq_true_2 by done. by destruct (alive p). Qed.

(** With a selection: the proxies before the selected one are passed over, whatever their state. *)
Lemma find_alive_selected (alive : proxy → bool) sel l :
  sel ≠ "" →
  match named sel l with
  | None => find_alive alive sel l = (sel, None)
  | Some p => if alive p then find_alive alive sel l = (sel, Some p)
              else ∃ pre post, l = pre ++ p :: post ∧ find_alive alive sel l = ("", first_alive alive post)
  end.
Proof.
  intros Hs. induction l as [|p l IH]; [done|]. unfold named in *. cbn [list_find find_alive]. rewrite bool_decide_eq_false_2 by done.
  destruct (decide (name p = sel)) as [->|Hn].
  - rewrite bool_decide_eq_true_2 by done. cbn. destruct (alive p); [done|]. exists [], l. by rewrite find_alive_free.
  - rewrite bool_decide_eq_false_2 by done. destruct (list_find _ l) as [[i q]|]; cbn in *; [|done]. destruct (alive q); [done|].
    destruct IH as (pre & post & -> & ?). by exists (p :: pre), post.
Qed.

(** The proxies a group with these options has now. *)
Definition offered (gb : GroupBase) (pds : list provider) : list proxy := current gb (contents <$> pds).

Section group.
Context (content : nat → Z → bool * list proxy) (n : nat) (Hn : 0 < n).


Lemma selectedProxy_spec now touch pds s :
  versioned content n pds → cache_ok content n (s_base s) →
  let '(_, s', r) := selectedProxy now touch pds s in
  cache_ok content n (s_base s') ∧ same_options (s_base s) (s_base s') ∧ s_selected s' = s_selected s ∧
  r = match named (s_selected s) (offered (s_base s) pds) with Some p => Some p | None => head (offered (s_base s) pds) end ∧ is_Some r.
Proof.
  intros Hv Hc. unfold selectedProxy. pose proof (GetProxies_spec content n now touch pds (s_base s) Hn Hv Hc) as Hs.
  destruct (GetProxies now touch pds (s_base s)) as [[pds' gb] l]. destruct Hs as (-> & ? & ? & _). repeat (split; [done|]).
  destruct (named _ _); [by eexists|]. pose proof (current_nonempty (s_base s) (contents <$> pds)) as Hne. destruct (current _ _); [done|by eexists].
Qed.

Lemma findAliveProxy_spec now h touch pds f :
  versioned content n pds → cache_ok content n (f_base f) →
  let '(_, f', r) := findAliveProxy now h touch pds f in
  cache_ok content n (f_base f') ∧ same_options (f_base f) (f_base f') ∧
  f_selected f' = (find_alive (AliveFor h (f_testUrl f)) (f_selected f) (offered (f_base f) pds)).1 ∧
  r = match (find_alive (AliveFor h (f_testUrl f)) (f_selected f) (offered (f_base f) pds)).2 with
      | Some p => Some p | None => head (offered (f_base f) pds) end ∧ is_Some r.
Proof.
  intros Hv Hc. unfold findAliveProxy. pose proof (GetProxies_spec content n now touch pds (f_base f) Hn Hv Hc) as Hs.
  destruct (GetProxies now touch pds (f_base f)) as [[pds' gb] l]. destruct Hs as (-> & ? & ? & _).
  destruct (find_alive _ _ _) as [sel r]. cbn [fst snd f_base f_selected]. repeat (split; [done|]).
  destruct r; [by eexists|]. pose proof (current_nonempty (f_base f) (contents <$> pds)) as Hne. destruct (current _ _); [done|by eexists].
Qed.
End group.

(** ** The fastest proxy *)

Lemma delay_alive h url p : (DelayFor h url p < 0xffff)%Z → AliveFor h url p = true.
Proof.
  unfold DelayFor, AliveFor, LastDelayForTestUrl, AliveForTestUrl, maxDelay. destruct (extra _ !! url) as [st|]; [|cbn; lia].
  by destruct (alive st).
Qed.

Lemma fastest_fold h url cur l fast ne :
  let '(best, d, ne') := fold_left (fastest_step h url cur) l (fast, DelayFor h url fast, ne) in
  d = DelayFor h url best ∧ (best = fast ∨ best ∈ l) ∧ (d ≤ DelayFor h url fast)%Z ∧
  (∀ q, q ∈ l → AliveFor h url q = true → (d ≤ DelayFor h url q)%Z) ∧
  (ne' = true → ne = true ∧ ∀ q c, q ∈ l → cur = Some c → name q ≠ name c) ∧
  (ne' = false → ne = false ∨ ∃ q c, q ∈ l ∧ cur = Some c ∧ name q = name c).
Proof.
  revert fast ne. induction l as [|p l IH]; intros fast ne; cbn [fold_left].
  - split; [done|]. split; [by left|]. split; [lia|]. split; [by intros ? ?%elem_of_nil|]. split; [|by left]. intros ->. split; [done|]. by intros ? ? ?%elem_of_nil.
  - unfold fastest_step at 2. set (ne1 := match cur with Some c => _ | None => _ end).
    assert ((ne1 = true → ne = true ∧ ∀ c, cur = Some c → name p ≠ name c) ∧ (ne1 = false → ne = false ∨ ∃ c, cur = Some c ∧ name p = name c)) as [N1 N2].
    { unfold ne1. destruct cur as [c|]; [case_bool_decide|]; split; intros E; try done; try (by left); [right; eauto|split; [done|]; by intros ? [= <-]]. }
    clearbody ne1. set (fast1 := if negb (AliveFor h url p) then fast else if (DelayFor h url p <? DelayFor h url fast)%Z then p else fast).
    assert ((if negb (AliveFor h url p) then (fast, DelayFor h url fast, ne1)
             else if (DelayFor h url p <? DelayFor h url fast)%Z then (p, DelayFor h url p, ne1) else (fast, DelayFor h url fast, ne1)) = (fast1, DelayFor h url fast1, ne1)) as ->
      by (unfold fast1; repeat case_match; done).
    assert ((fast1 = fast ∨ fast1 = p) ∧ (DelayFor h url fast1 ≤ DelayFor h url fast)%Z ∧ (AliveFor h url p = true → (DelayFor h url fast1 ≤ DelayFor h url p)%Z)) as (F1 & F2 & F3).
    { unfold fast1. destruct (AliveFor h url p); cbn [negb]; [|split; [by left|]; split; [lia|done]].
      destruct (Z.ltb_spec (DelayFor h url p) (DelayFor h url fast)); split; auto; split; try lia. }
    clearbody fast1. specialize (IH fast1 ne1). destruct (fold_left _ l _) as [[best d] ne']. destruct IH as (-> & H1 & H2 & H3 & H4 & H5).
    split; [done|]. split; [destruct H1 as [->|]; [destruct F1 as [->| ->]; [by left|right; left]|right; by right]|]. split; [lia|]. split.
    + intros q [->|Hq]%elem_of_cons Ha; [specialize (F3 Ha); lia|by apply H3].
    + split.
      * intros E. destruct (H4 E) as [E1 Hn]. destruct (N1 E1) as [-> Hp]. split; [done|]. intros q c [->|Hq]%elem_of_cons; [apply Hp|by apply Hn].
      * intros E. destruct (H5 E) as [E1|(q & c & Hq & ? & ?)]; [destruct (N2 E1) as [|(c & ? & ?)]; [by left|]|]; right; [exists p, c|exists q, c]; (split; [by constructor|done]).
Qed.

Lemma fastest_spec h url cur first l :
  let '(best, _, ne) := fastest h url cur first l in
  (best = first ∨ best ∈ l) ∧ (∀ q, q = first ∨ q ∈ l → q = first ∨ AliveFor h url q = true → (DelayFor h url best ≤ DelayFor h url q)%Z) ∧
  (ne = false → ∃ q c, q ∈ l ∧ cur = Some c ∧ name q = name c) ∧ (ne = true → ∀ q c, q ∈ l → cur = Some c → name q ≠ name c).
Proof.
  unfold fastest. pose proof (fastest_fold h url cur l first true) as H. destruct (fold_left _ l _) as [[best d] ne].
  destruct H as (-> & H1 & H2 & H3 & H4 & H5). split; [done|]. split.
  - intros q Hq Ha. destruct Hq as [->|Hq]; [done|]. destruct Ha as [->|Ha]; [done|by apply H3].
  - split; [intros E; destruct (H5 E); [done|done]|]. intros E. by apply H4.
Qed.

Lemma fast_body_spec content n now h touch pds u :
  0 < n → versioned content n pds → cache_ok content n (u_base u) →
  ∃ pds' u' p, fast_body now h touch (pds, u) = Some (pds', u', p) ∧ cache_ok content n (u_base u') ∧ same_options (u_base u) (u_base u') ∧
    u_fastNode u' = Some p ∧ u_selected u' = u_selected u ∧ u_testUrl u' = u_testUrl u ∧ u_tolerance u' = u_tolerance u ∧
    let l := offered (u_base u) pds in
    match selected_alive h u l with
    | Some q => p = q
    | None => ∃ best, best ∈ l ∧ (∀ q, q ∈ l → AliveFor h (u_testUrl u) q = true → (DelayFor h (u_testUrl u) best ≤ DelayFor h (u_testUrl u) q)%Z) ∧
        (p = best ∨
         (u_fastNode u = Some p ∧ AliveFor h (u_testUrl u) p = true ∧ (∃ q, q ∈ l ∧ name q = name p) ∧
          (DelayFor h (u_testUrl u) p ≤ wrap 16 (DelayFor h (u_testUrl u) best + u_tolerance u))%Z))
    end.
Proof.
  intros Hn Hv Hc. unfold fast_body. pose proof (GetProxies_spec content n now touch pds (u_base u) Hn Hv Hc) as Hs.
  destruct (GetProxies now touch pds (u_base u)) as [[pds' gb] l]. destruct Hs as (El & Hc' & Ho & _). fold (offered (u_base u) pds) in El. cbn zeta. rewrite <- El.
  change (selected_alive h (set_u_base u gb) l) with (selected_alive h u l).
  destruct (selected_alive h u l) as [q|]; [by eexists _, _, _; split; [reflexivity|]|].
  destruct l as [|first l]; [by destruct (current_nonempty (u_base u) (contents <$> pds))|]. cbn [u_testUrl u_fastNode u_tolerance set_u_base].
  pose proof (fastest_spec h (u_testUrl u) (u_fastNode u) first l) as Hf. destruct (fastest _ _ _ _ _) as [[best d] ne]. destruct Hf as (H1 & H2 & H3 & _).
  assert (best ∈ first :: l) as Hb by (destruct H1 as [->|]; [left|by right]).
  assert (∀ q, q ∈ first :: l → AliveFor h (u_testUrl u) q = true → (DelayFor h (u_testUrl u) best ≤ DelayFor h (u_testUrl u) q)%Z) as Hmin
    by (intros q [->|Hq]%elem_of_cons Ha; apply H2; auto).
  destruct (replaces h (u_testUrl u) (u_tolerance u) (u_fastNode u) best ne) eqn:Er; cbn [u_fastNode set_fastNode set_u_base mbind option_bind].
  - eexists _, _, _. split; [reflexivity|]. do 6 (split; [done|]). exists best. auto.
  - destruct (u_fastNode u) as [c|] eqn:Ec; [|done]. cbn [mbind option_bind]. eexists _, _, _. split; [reflexivity|]. do 6 (split; [done|]). exists best.
    split; [done|]. split; [done|]. right. cbn [replaces] in Er. apply orb_false_iff in Er as [[Ene Ea]%orb_false_iff Ed]. apply negb_false_iff in Ea. apply Z.ltb_ge in Ed.
    split; [done|]. split; [done|]. split; [|done]. destruct (H3 Ene) as (q & c' & Hq & [= <-] & ?). exists q. split; [by right|done].
Qed.

(** ** Turns *)

(** The list from position [k] on, around the end. *)
Definition from (k : nat) (l : list proxy) : list proxy := drop (k mod length l) l ++ take (k mod length l) l.

Lemma from_mod k l : from (k mod length l) l = from k l.
Proof. unfold from. destruct l as [|x l]; [done|]. by rewrite Nat.Div0.mod_mod. Qed.

Lemma from_head k l x q : from k l = x :: q → l !! (k mod length l) = Some x ∧ from (S k) l = q ++ [x].
Proof.
  unfold from. intros H. assert (l ≠ []) as Hne by (intros ->; by rewrite drop_nil, take_nil in H).
  assert (0 < length l) as Hpos by (destruct l; simpl; [done|lia]). set (m := k mod length l) in *.
  assert (m < length l) as Hm by (apply Nat.mod_upper_bound; lia). destruct (lookup_lt_is_Some_2 l m Hm) as [y Hy].
  rewrite (drop_S l y m Hy) in H. cbn [app] in H. injection H as -> <-. split; [done|].
  assert (S k mod length l = if decide (S m = length l) then 0 else S m) as ->.
  { rewrite <- Nat.add_1_r, <- Nat.Div0.add_mod_idemp_l. fold m. rewrite Nat.add_1_r. case_decide as E; [rewrite E; apply Nat.Div0.mod_same|apply Nat.mod_small; lia]. }
  case_decide as E.
  - rewrite drop_0, app_nil_r, drop_ge by lia. cbn [app]. rewrite <- (take_S_r l m x Hy). by rewrite take_ge by lia.
  - by rewrite (take_S_r l m x Hy), app_assoc.
Qed.

Lemma from_app k l a b : from k l = a ++ b → from (k + length a) l = b ++ a.
Proof.
  revert k b. induction a as [|x a IH]; intros k b H; cbn [length].
  - by rewrite Nat.add_0_r, H, app_nil_r.
  - cbn [app] in H. apply from_head in H as [_ H]. rewrite <- app_assoc in H. apply IH in H. rewrite Nat.add_succ_r, <- Nat.add_succ_l, H. by rewrite <- app_assoc.
Qed.

Lemma from_length k l : length (from k l) = length l.
Proof. unfold from. rewrite length_app, length_drop, length_take. pose proof (Nat.Div0.mod_le k (length l)). lia. Qed.

Lemma turn_finds alive l idx i pre p post :
  from (idx + i) l = pre ++ p :: post → Forall (λ q, alive q = false) pre → alive p = true →
  ∀ fuel, length pre < fuel → turn fuel alive l idx i = Some (p, i + S (length pre)).
Proof.
  revert i post. induction pre as [|x pre IH]; intros i post Hf Hd Ha [|fuel] Hlt; cbn [length] in *; try lia; cbn [app] in Hf; cbn [turn];
    apply from_head in Hf as [-> Hf].
  - rewrite Ha. f_equal. f_equal. lia.
  - apply list.Forall_cons in Hd as [-> Hd]. rewrite <- app_assoc in Hf. cbn [app] in Hf. rewrite <- Nat.add_succ_r in Hf.
    rewrite (IH (S i) _ Hf Hd Ha fuel) by lia. f_equal. f_equal. lia.
Qed.

Lemma round_robin_step alive idx l pre p post :
  from idx l = pre ++ p :: post → Forall (λ q, alive q = false) pre → alive p = true →
  ∃ idx', strategyRoundRobin alive true idx l = (idx', Some p) ∧ from idx' l = post ++ pre ++ [p].
Proof.
  intros Hf Hd Ha. unfold strategyRoundRobin. rewrite (turn_finds alive l idx 0 pre p post); [|by rewrite Nat.add_0_r|done|done|].
  - eexists. split; [reflexivity|]. rewrite from_mod. replace (0 + S (length pre)) with (length (pre ++ [p])) by (rewrite length_app; simpl; lia).
    apply from_app. by rewrite <- app_assoc.
  - rewrite <- (from_length idx l), Hf, length_app. simpl. lia.
Qed.

(** [k] requests in turn. *)
Fixpoint turns (k : nat) (alive : proxy → bool) (idx : nat) (l : list proxy) : nat * list (option proxy) :=
  match k with
  | O => (idx, [])
  | S k => let '(idx, r) := strategyRoundRobin alive true idx l in let '(idx, rs) := turns k alive idx l in (idx, r :: rs)
  end.

Lemma first_split (alive : proxy → bool) m : filter (λ p, alive p = true) m = [] ∨
  ∃ pre p post, m = pre ++ p :: post ∧ Forall (λ q, alive q = false) pre ∧ alive p = true ∧ filter (λ p, alive p = true) m = p :: filter (λ p, alive p = true) post.
Proof.
  induction m as [|x m IH]; [by left|]. rewrite filter_cons. destruct (decide (alive x = true)) as [Hx|Hx].
  - right. exists [], x, m. auto.
  - apply not_true_is_false in Hx. destruct IH as [->|(pre & p & post & -> & ? & ? & ->)]; [by left|]. right. exists (x :: pre), p, post.
    split; [done|]. split; [by constructor|done].
Qed.

Lemma turns_spec alive l m : ∀ idx don,
  from idx l = m ++ don →
  (turns (length (filter (λ p, alive p = true) m)) alive idx l).2 = Some <$> filter (λ p, alive p = true) m.
Proof.
  induction m as [m IH] using (induction_ltof1 _ (@length proxy)). intros idx don Hf.
  destruct (first_split alive m) as [->|(pre & p & post & -> & Hd & Ha & ->)]; [done|]. cbn [length turns].
  rewrite <- app_assoc in Hf. destruct (round_robin_step alive idx l pre p (post ++ don) Hf Hd Ha) as (idx' & -> & Hf').
  specialize (IH post ltac:(unfold ltof; rewrite length_app; simpl; lia) idx' (don ++ pre ++ [p])). rewrite <- app_assoc in Hf'. specialize (IH Hf').
  destruct (turns _ alive idx' l) as [idx'' rs]. cbn [snd] in *. by rewrite IH.
Qed.

Lemma from_permutation k l : from k l ≡ₚ l.
Proof. unfold from. rewrite (Permutation_app_comm (drop _ _)). by rewrite take_drop. Qed.

(** ** Hashing *)

Context `{BA : Balance}.

Lemma bucket_ok key (l : list proxy) : l ≠ [] → (Z.of_nat (length l) < 2 ^ 31)%Z → ∃ p, bucket key l = Some p ∧ p ∈ l.
Proof.
  intros Hne Hlt. assert (0 < length l) by (destruct l; simpl; [done|lia]).
  destruct (jumpHash_in_range key (Z.of_nat (length l))) as (r & Hr & Hb); [lia|]. unfold bucket. rewrite Hr. cbn [mbind option_bind].
  destruct (lookup_lt_is_Some_2 l (Z.to_nat r)) as [p Hp]; [lia|]. exists p. split; [done|by eapply list_elem_of_lookup_2].
Qed.

Lemma retry_ok n alive key (l : list proxy) : l ≠ [] → (Z.of_nat (length l) < 2 ^ 31)%Z →
  ∃ r, retry n alive key l = Some r ∧ ∀ p, r = Some p → p ∈ l ∧ alive p = true.
Proof.
  intros Hne Hlt. revert key. induction n as [|n IH]; intros key; cbn [retry]; [by eexists|].
  destruct (bucket_ok key l Hne Hlt) as (p & -> & Hp). cbn [mbind option_bind]. destruct (alive p) eqn:Ea; [|apply IH].
  eexists. split; [done|]. by intros q [= <-].
Qed.

Lemma first_alive_spec alive l :
  match first_alive alive l with Some p => p ∈ l ∧ alive p = true | None => ∀ q, q ∈ l → alive q = false end.
Proof.
  unfold first_alive. destruct (list_find _ l) as [[i p]|] eqn:E; cbn.
  - apply list_find_Some in E as (Hi & Ha & _). split; [by eapply list_elem_of_lookup_2|done].
  - intros q Hq. apply list_find_None in E. rewrite list.Forall_forall in E. by apply not_true_is_false, E.
Qed.

(** ** Sticky sessions *)

(** The options of the cache that matter, and a consistent state. *)
Record sticky_ok (s : sticky) : Prop := {
  so_wf : Lru.wf (lruCells s) (lruCache s);
  so_age : maxAge (lruCache s) = 600%Z;
  so_fresh : staleReturn (lruCache s) = false;
  so_get : updateAgeOnGet (lruCache s) = false;
}.

(** The session [key] is on the proxy number [idx] until [exp]. *)
Definition sticks (s : sticky) (key idx exp : Z) : Prop :=
  sticky_ok s ∧ a_find key (abs (lruCells s) (lruCache s)).1 = Some (Entry key idx exp).

Lemma new_sticky_ok : sticky_ok new_sticky.
Proof. split; try done. apply New_wf. Qed.

Lemma sticky_ok_shows s w c a : sticky_ok s → shows (lruCache s) (w, c) a → sticky_ok (mkSticky w c) ∧ abs w c = a.
Proof. intros [H1 H2 H3 H4] (Hwf & Hc & Ha). unfold same_config in Hc. cbn [fst snd] in *. split; [|done]. split; [done|..]; cbn [lruCache]; by rewrite Hc. Qed.

Lemma sticky_expiring s : sticky_ok s → expiring (lruCache s) = true.
Proof. intros [_ Ha Hs _]. unfold expiring. by rewrite Hs, Ha. Qed.

Lemma sticks_get s key idx exp now :
  sticks s key idx exp → (now < exp)%Z →
  ∃ w c, Get now (lruCells s) (lruCache s) key = (w, c, Some idx) ∧ sticks (mkSticky w c) key idx exp.
Proof.
  intros [Hok Hf] Hnow. destruct (get_shows now (lruCells s) (lruCache s) key (so_wf s Hok)) as [Hs Hr]. unfold Get.
  destruct (get now (lruCells s) (lruCache s) key) as [[w c] r]. cbn [fst snd] in *. destruct (sticky_ok_shows s w c _ Hok Hs) as [Hok' Ha].
  unfold a_get in *. rewrite Hf in Ha, Hr. cbn [expires] in *. rewrite (proj2 (Z.leb_gt exp now)) in Ha, Hr by lia. rewrite andb_false_r in Ha, Hr. cbn [fst snd] in *.
  assert (a_refresh (lruCache s) now (Entry key idx exp) = Entry key idx exp) as Er by (unfold a_refresh; by rewrite (so_get s Hok), andb_false_r).
  rewrite Er in Ha, Hr. subst r. exists w, c. split; [done|]. split; [done|]. cbn [lruCells lruCache]. rewrite Ha. cbn [fst].
  apply a_find_last; [done|]. intros x Hx. by apply elem_of_a_remove in Hx as [_ ?].
Qed.

Lemma sticks_set s key idx now :
  sticky_ok s → (0 ≤ now < 2 ^ 62)%Z → let '(w, c) := Set_ now (lruCells s) (lruCache s) key idx in sticks (mkSticky w c) key idx (now + 600)%Z.
Proof.
  intros Hok Hnow. unfold Set_. pose proof (set_shows now (lruCells s) (lruCache s) key idx (so_wf s Hok)) as Hs.
  destruct (set now (lruCells s) (lruCache s) key idx) as [w c]. destruct (sticky_ok_shows s w c _ Hok Hs) as [Hok' Ha].
  split; [done|]. cbn [lruCells lruCache]. rewrite Ha. unfold a_set. rewrite (so_age s Hok). cbn [Z.ltb Z.compare].
  assert (i64 (now + 600) = now + 600)%Z as -> by (unfold i64; rewrite Z.mod_small; lia).
  destruct (a_put_last (lruCache s) now (abs (lruCells s) (lruCache s)) key idx (now + 600)%Z) as (l & -> & Hk); [lia|]. by apply a_find_last.
Qed.

Lemma get_ok s now key : sticky_ok s → let '(w, c, _) := Get now (lruCells s) (lruCache s) key in sticky_ok (mkSticky w c).
Proof.
  intros Hok. destruct (get_shows now (lruCells s) (lruCache s) key (so_wf s Hok)) as [Hs _]. unfold Get.
  destruct (get now (lruCells s) (lruCache s) key) as [[w c] r]. cbn [fst snd] in *. by destruct (sticky_ok_shows s w c _ Hok Hs).
Qed.

(** The tries end, at a proxy of the list; when a session is new, or moves, it is stored. *)
Lemma sticky_tries_ok n alive now nanos key has idx nowIdx l s :
  sticky_ok s → (0 ≤ now < 2 ^ 62)%Z → (0 ≤ nowIdx < Z.of_nat (length l))%Z → (Z.of_nat (length l) < 2 ^ 31)%Z →
  ∃ s' p, sticky_tries n alive now nanos key has idx nowIdx l s = Some (s', Some p) ∧ p ∈ l ∧ sticky_ok s' ∧
    (has = false → alive p = true → ∃ i, l !! Z.to_nat i = Some p ∧ (0 ≤ i < Z.of_nat (length l))%Z ∧ sticks s' key i (now + 600)%Z).
Proof.
  intros Hok Hnow Hidx Hlt. revert nowIdx Hidx. induction n as [|n IH]; intros nowIdx Hidx; cbn [sticky_tries].
  - destruct l as [|p l]; [simpl in Hidx; lia|]. pose proof (sticks_set s key 0 now Hok Hnow) as Hs. destruct (Set_ _ _ _ _ _) as [w c].
    exists (mkSticky w c), p. split; [done|]. split; [left|]. split; [apply Hs|]. intros _ _. exists 0%Z. simpl in *. split; [done|]. split; [lia|done].
  - destruct (lookup_lt_is_Some_2 l (Z.to_nat nowIdx)) as [p Hp]; [lia|]. rewrite Hp. cbn [mbind option_bind].
    destruct (alive p) eqn:Ea.
    + pose proof (sticks_set s key nowIdx now Hok Hnow) as Hs. destruct (Set_ now (lruCells s) (lruCache s) key nowIdx) as [w c].
      assert (p ∈ l) by (by eapply list_elem_of_lookup_2). destruct (negb has || negb (nowIdx =? idx)%Z) eqn:E.
      * exists (mkSticky w c), p. split; [done|]. split; [done|]. split; [apply Hs|]. intros _ _. exists nowIdx. done.
      * exists s, p. split; [done|]. split; [done|]. split; [done|]. intros ->. done.
    + destruct (jumpHash_in_range (wrap 64 (key + nanos n)) (Z.of_nat (length l))) as (r & -> & Hr); [lia|]. cbn [mbind option_bind]. by apply IH.
Qed.

(** ** Properties *)


(** A request to a fallback group: the clock, the state of the proxies, whether it touches, the providers. *)
Definition request : Type := Z * healths * bool * list provider.
Fixpoint unwrap_all (f : fallback) (reqs : list request) : list (option proxy) :=
  match reqs with
  | [] => []
  | (now, h, touch, pds) :: reqs => let '(_, f, r) := findAliveProxy now h touch pds f in r :: unwrap_all f reqs
  end.

(** The first proxy alive, or else the first one. *)
Definition best_effort (url : string) (gb : GroupBase) (r : request) : option proxy :=
  let '(_, h, _, pds) := r in
  match first_alive (AliveFor h url) (offered gb pds) with Some p => Some p | None => head (offered gb pds) end.

(** A fallback group without a fixed proxy gives, at every request and whatever has happened to proxies and providers since
    the last one, the first of its proxies that is alive, and the first of all when none is. *)
Theorem fallback_first_alive content n f (reqs : list request) :
  0 < n → Forall (λ r, versioned content n r.2) reqs → cache_ok content n (f_base f) → f_selected f = "" →
  unwrap_all f reqs = best_effort (f_testUrl f) (f_base f) <$> reqs ∧ Forall is_Some (unwrap_all f reqs).
Proof.
  intros Hn. revert f. induction reqs as [|[[[now h] touch] pds] reqs IH]; intros f Hv Hc Hs; [done|]. apply list.Forall_cons in Hv as [Hv1 Hv].
  cbn [unwrap_all]. pose proof (findAliveProxy_spec content n Hn now h touch pds f Hv1 Hc) as H.
  assert (f_testUrl (findAliveProxy now h touch pds f).1.2 = f_testUrl f) as Eu
    by (unfold findAliveProxy; destruct (GetProxies _ _ _ _) as [[? ?] l0]; destruct (find_alive (AliveFor h (f_testUrl f)) (f_selected f) l0) as [? ?]; reflexivity).
  destruct (findAliveProxy now h touch pds f) as [[pds' f'] r]. cbn [fst snd] in Eu. destruct H as (Hc' & Ho & Hs' & Hr & Hsome).
  rewrite Hs, find_alive_free in Hs', Hr. cbn [fst snd] in *. destruct (IH f' Hv Hc' Hs') as [IH1 IH2]. split; [|by constructor].
  rewrite IH1, fmap_cons, Hr. f_equal. rewrite Eu. apply list_fmap_ext. intros i [[[? ?] ?] pds0] _. unfold best_effort, offered. by rewrite (current_options (f_base f) (f_base f')).
Qed.

(** A url-test group whose shared choice has run out chooses anew: a fixed proxy that is alive; otherwise a proxy with the
    smallest delay, or the proxy in use if it is alive, still in the group by name and slower by the tolerance at most (in
    16-bit arithmetic).  If some proxy is alive with a known delay, the one chosen is alive. *)
Theorem url_test_within_tolerance content n now now' h touch pds u :
  0 < n → versioned content n pds → cache_ok content n (u_base u) → call (u_fastSingle u) = None →
  (∀ r, result (u_fastSingle u) = Some r → wait (u_fastSingle u) ≤ now - SingleDo.Time r)%Z →
  ∃ pds' u' p, fast now now' h touch pds u = Some (pds', u', p) ∧ u_fastNode u' = Some p ∧ cache_ok content n (u_base u') ∧
    let l := offered (u_base u) pds in
    let url := u_testUrl u in
    match selected_alive h u l with
    | Some q => p = q
    | None =>
        (∃ best, best ∈ l ∧ (∀ q, q ∈ l → AliveFor h url q = true → (DelayFor h url best ≤ DelayFor h url q)%Z) ∧
           (p = best ∨
            u_fastNode u = Some p ∧ AliveFor h url p = true ∧ (∃ q, q ∈ l ∧ name q = name p) ∧
            (DelayFor h url p ≤ wrap 16 (DelayFor h url best + u_tolerance u))%Z)) ∧
        ((∃ q, q ∈ l ∧ AliveFor h url q = true ∧ (DelayFor h url q < 0xffff)%Z) → AliveFor h url p = true)
    end.
Proof.
  intros Hn Hv Hc Hcall Hres. unfold fast, Do.
  assert (∃ s, do_enter now (u_fastSingle u) 0 = (s, Lead 0)) as [s ->].
  { unfold do_enter. rewrite Hcall. destruct (result (u_fastSingle u)) as [r|]; [|by eexists]. specialize (Hres r eq_refl).
    destruct (Z.ltb_spec (now - SingleDo.Time r) (wait (u_fastSingle u))); [lia|by eexists]. }
  destruct (fast_body_spec content n now h touch pds u Hn Hv Hc) as (pds' & u' & p & -> & Hc' & _ & Hf & _ & _ & _ & Hp). cbn [mbind option_bind].
  eexists _, _, _. split; [reflexivity|]. split; [exact Hf|]. split; [exact Hc'|]. cbn zeta in *.
  destruct (selected_alive h u _); [done|]. split; [done|]. intros (q & Hq & Ha & Hd). destruct Hp as (best & Hb & Hmin & [->|(_ & ? & _)]); [|done].
  apply delay_alive. specialize (Hmin q Hq Ha). lia.
Qed.

(** Turns are fair: while the proxies and their state stay the same, as many requests in a row as there are proxies alive
    reach every one of them exactly once, in the order of the list from the current position on. *)
Theorem round_robin_fair alive idx l :
  let k := length (filter (λ p, alive p = true) l) in
  ∃ ps, (turns k alive idx l).2 = Some <$> ps ∧ ps = filter (λ p, alive p = true) (from idx l) ∧ ps ≡ₚ filter (λ p, alive p = true) l.
Proof.
  cbn zeta. exists (filter (λ p, alive p = true) (from idx l)).
  assert (filter (λ p, alive p = true) (from idx l) ≡ₚ filter (λ p, alive p = true) l) as Hp by (by rewrite from_permutation).
  split; [|done]. rewrite <- (Permutation_length Hp). apply (turns_spec alive l (from idx l) idx []). by rewrite app_nil_r.
Qed.


(** Requests of one session at the given times; the state of the proxies does not change. *)
Fixpoint session (alive : proxy → bool) (nanos : nat → Z) (keyOf : keyFn) (l : list proxy) (metadata : option Metadata) (times : list Z) (s : sticky)
    : option (list (option proxy)) :=
  match times with
  | [] => Some []
  | now :: times => '(s, r) ← strategyStickySessions alive now nanos keyOf s l metadata; rs ← session alive nanos keyOf l metadata times s; Some (r :: rs)
  end.

(** A new session gets a proxy, and if that proxy is alive the session stays with it for the next ten minutes, however many
    requests it makes. *)
Theorem sticky_session_stays alive nanos keyOf l metadata s now times :
  sticky_ok s → l ≠ [] → (Z.of_nat (length l) < 2 ^ 31)%Z → (0 ≤ now < 2 ^ 62)%Z →
  (Get now (lruCells s) (lruCache s) (MapHash (keyOf metadata))).2 = None → Forall (λ t, t < now + 600)%Z times →
  ∃ s' p, strategyStickySessions alive now nanos keyOf s l metadata = Some (s', Some p) ∧ p ∈ l ∧
    (alive p = true → session alive nanos keyOf l metadata times s' = Some (replicate (length times) (Some p))).
Proof.
  intros Hok Hne Hlt Hnow Hget Hts. assert (0 < length l) as Hpos by (destruct l; simpl; [done|lia]).
  set (key := MapHash (keyOf metadata)) in *.
  assert (∃ s' p, strategyStickySessions alive now nanos keyOf s l metadata = Some (s', Some p) ∧ p ∈ l ∧
    (alive p = true → ∃ i, l !! Z.to_nat i = Some p ∧ (0 ≤ i < Z.of_nat (length l))%Z ∧ sticks s' key i (now + 600)%Z)) as (s' & p & Hs & Hp & Hst).
  { unfold strategyStickySessions. fold key. pose proof (get_ok s now key Hok) as Hok1. destruct (Get now (lruCells s) (lruCache s) key) as [[w c] r].
    cbn [snd] in Hget. subst r. destruct (jumpHash_in_range (wrap 64 (key + nanos maxRetry)) (Z.of_nat (length l))) as (idx & -> & Hidx); [lia|]. cbn [mbind option_bind].
    destruct (sticky_tries_ok (pred maxRetry) alive now nanos key (bool_decide (is_Some (@None Z))) idx idx l (mkSticky w c) Hok1 Hnow Hidx Hlt) as (s' & p & H1 & H2 & _ & H4).
    exists s', p. split; [done|]. split; [done|]. by apply H4. }
  exists s', p. split; [done|]. split; [done|]. intros Ha. destruct (Hst Ha) as (i & Hi & Hib & Hsti). clear Hs Hst Hget.
  revert s' Hsti. induction times as [|t times IH]; intros s' Hsti; cbn [session length replicate]; [done|]. apply list.Forall_cons in Hts as [Ht Hts].
  destruct (sticks_get s' key i (now + 600) t Hsti Ht) as (w & c & Hg & Hsti'). unfold strategyStickySessions at 1. fold key. rewrite Hg.
  rewrite (proj2 (Z.ltb_lt i _)) by lia. cbn [mbind option_bind pred maxRetry sticky_tries]. rewrite Hi. cbn [mbind option_bind]. rewrite Ha.
  rewrite bool_decide_eq_true_2 by (by eexists). rewrite Z.eqb_refl. cbn [negb orb mbind option_bind]. by rewrite (IH Hts (mkSticky w c) Hsti').
Qed.

(** ** Behaviour beside the intention *)

(** A fixed proxy that has left the group turns failover off: every request gets the first proxy, dead or alive, and the
    selection stays. *)
Theorem fallback_missing_selection content n now h touch pds f :
  0 < n → versioned content n pds → cache_ok content n (f_base f) → f_selected f ≠ "" → named (f_selected f) (offered (f_base f) pds) = None →
  let '(_, f', r) := findAliveProxy now h touch pds f in r = head (offered (f_base f) pds) ∧ f_selected f' = f_selected f.
Proof.
  intros Hn Hv Hc Hs Hnone. pose proof (findAliveProxy_spec content n Hn now h touch pds f Hv Hc) as H.
  destruct (findAliveProxy now h touch pds f) as [[pds' f'] r]. destruct H as (_ & _ & Hsel & Hr & _).
  pose proof (find_alive_selected (AliveFor h (f_testUrl f)) (f_selected f) (offered (f_base f) pds) Hs) as Hf. rewrite Hnone in Hf. by rewrite Hf in Hsel, Hr.
Qed.

(** When the proxy in use is the first of the group, the tolerance does not count: the fastest one always replaces it. *)
Theorem url_test_first_not_tolerated h url tolerance first l :
  (∀ q, q ∈ l → name q ≠ name first) →
  let '(best, _, ne) := fastest h url (Some first) first l in replaces h url tolerance (Some first) best ne = true.
Proof.
  intros Hl. pose proof (fastest_spec h url (Some first) first l) as Hf. destruct (fastest h url (Some first) first l) as [[best d] ne]. destruct Hf as (_ & _ & H & _).
  destruct ne; [done|]. destruct (H eq_refl) as (q & c & Hq & [= <-] & Hn). by destruct (Hl q Hq).
Qed.

(** A session whose proxy number is no longer in range gets a proxy chosen by the clock, and the stored number stays: the
    next request is placed anew. *)
Theorem sticky_session_out_of_range alive nanos keyOf l metadata s now idx exp :
  sticks s (MapHash (keyOf metadata)) idx exp → (now < exp)%Z → (Z.of_nat (length l) ≤ idx)%Z → l ≠ [] → (Z.of_nat (length l) < 2 ^ 31)%Z →
  (∀ p, p ∈ l → alive p = true) →
  ∃ s' p, strategyStickySessions alive now nanos keyOf s l metadata = Some (s', Some p) ∧
    bucket (wrap 64 (MapHash (keyOf metadata) + nanos maxRetry)) l = Some p ∧ sticks s' (MapHash (keyOf metadata)) idx exp.
Proof.
  intros Hst Hnow Hidx Hne Hlt Hall. set (key := MapHash (keyOf metadata)) in *. destruct (sticks_get s key idx exp now Hst Hnow) as (w & c & Hg & Hst').
  unfold strategyStickySessions. fold key. rewrite Hg. rewrite (proj2 (Z.ltb_ge idx _)) by lia.
  assert (0 < length l) by (destruct l; simpl; [done|lia]).
  destruct (jumpHash_in_range (wrap 64 (key + nanos maxRetry)) (Z.of_nat (length l))) as (i & Hi & Hb); [lia|]. unfold bucket. rewrite Hi. cbn [mbind option_bind pred].
  destruct (lookup_lt_is_Some_2 l (Z.to_nat i)) as [p Hp]; [lia|]. exists (mkSticky w c), p. change (pred maxRetry) with 4. cbn [sticky_tries]. rewrite Hp. cbn [mbind option_bind].
  rewrite (Hall p) by (by eapply list_elem_of_lookup_2). rewrite bool_decide_eq_true_2, Z.eqb_refl by (by eexists). done.
Qed.
End groups.

(** ** Witnesses *)

Section witnesses.
#[local] Existing Instance ascii_case.

(** A pattern that matches the strings it occurs in. *)
#[local] Instance demo_patterns : Externals := {|
  RegexCompile _ := true;
  RegexMatch reg s := Contains s reg;
  GeodataMode := false;
  InitGeoIP := true;
  InitGeoSite := true;
  InitASN := true;
  LoadGeoIPMatcher _ := None;
  LoadGeoSiteMatcher _ := None;
  LookupCode _ := [];
  LookupASN _ := ("", "");
  uid_supported := true;
|}.
#[local] Instance demo_balance : Balance := {| MapHash s := Z.of_nat (String.length s); EffectiveTLDPlusOne s := Some s |}.

Definition server (i : nat) (n : string) : proxy := mkP i (leaf n Shadowsocks).
Definition hk : proxy := server 1 "hk".
Definition us : proxy := server 2 "us".
Definition jp : proxy := server 3 "jp".
Definition last_resort : proxy := mkP 0 (leaf "COMPATIBLE" Compatible).
Definition own_list : provider := mkProvider true 0 [jp] 0.
Definition feed : provider := mkProvider false 3 [us; hk; jp] 0.
Definition demo_content (i : nat) (v : Z) : bool * list proxy := match i with 0 => (true, [jp]) | _ => (false, [us; hk; jp]) end.

Definition demo_group : GroupBase :=
  mkBase "g" LoadBalance ["hk"; "us"] ["tw"] (Some ["vmess"]) 0 None false 5000 5 last_resort [] [].

Lemma demo_versioned : versioned demo_content 2 [own_list; feed].
Proof. split; [done|]. by intros [|[|i]] pd [= <-]. Qed.


(** The first proxy failed its test, the others were not tested. *)
Definition one_dead (i : nat) : ProxyHealth := if (i =? 1)%nat then run_tests [mkTest false 0 "u" [] (Failed "timeout")] else NewProxy.
Definition demo_fallback : fallback := mkFallback demo_group false "u" "".

Lemma fallback_first_alive_witness :
  unwrap_all demo_fallback [(0%Z, λ _, NewProxy, true, [own_list; feed]); (1%Z, one_dead, true, [own_list; feed])] = [Some hk; Some us].
Proof.
  destruct (fallback_first_alive demo_content 2 demo_fallback [(0%Z, λ _, NewProxy, true, [own_list; feed]); (1%Z, one_dead, true, [own_list; feed])]) as [H _].
  - lia.
  - repeat constructor; apply demo_versioned.
  - by left.
  - reflexivity.
  - rewrite H. vm_compute. reflexivity.
Defined.

(** Tests took 80 ms through the first two proxies and 60 ms through the third. *)
Definition timed (i : nat) : ProxyHealth :=
  run_tests [mkTest false 0 "u" [] (Answered 204 None (if (i =? 3)%nat then 60000000 else 80000000) 0)].
Definition demo_urltest : urltest := mkURLTest demo_group "" "u" 30 false (Some us) (NewSingle 10).

Lemma url_test_within_tolerance_witness : ∃ pds' u' p, fast 0 0 timed true [own_list; feed] demo_urltest = Some (pds', u', p) ∧ AliveFor timed "u" p = true.
Proof.
  destruct (url_test_within_tolerance demo_content 2 0 0 timed true [own_list; feed] demo_urltest) as (pds' & u' & p & H & _ & _ & _ & Ha).
  - lia.
  - apply demo_versioned.
  - by left.
  - reflexivity.
  - by intros r [=].
  - exists pds', u', p. split; [exact H|]. apply Ha. exists jp. split; [|by vm_compute]. vm_compute. do 2 right. left.
Defined.


Lemma sticky_session_stays_witness :
  ∃ s' p, strategyStickySessions (λ _, true) 100 (λ _, 5%Z) getKey new_sticky [hk; us] None = Some (s', Some p) ∧
    session (λ _, true) (λ _, 5%Z) getKey [hk; us] None [150; 699; 300]%Z s' = Some [Some p; Some p; Some p].
Proof.
  destruct (sticky_session_stays (λ _, true) (λ _, 5%Z) getKey [hk; us] None new_sticky 100 [150; 699; 300]%Z) as (s' & p & H1 & _ & H2).
  - exact new_sticky_ok.
  - done.
  - simpl; lia.
  - lia.
  - reflexivity.
  - repeat constructor; lia.
  - exists s', p. split; [exact H1|]. by apply H2.
Defined.
End witnesses.
