(* ===== verification/GroupGraph.v ===== *)
(** * [config/utils.go]: groups without loops

    Groups may contain groups.  [proxyGroupsDagSort] puts the groups of a configuration
    in an order in which every group comes after the groups it contains, or reports
    the groups of a loop; [validateDialerProxies] does the same for proxies that are
    dialled through each other.  A Go map is visited in an unspecified order: the
    argument [shuffle] is the order, a permutation of the keys.  [None] is a panic
    or the end of the fuel. *)

From Stdlib Require Import ZArith Lia.
From stdpp Require Import base list strings numbers gmap fin_maps.
From S2P Require Import Prelude.
#[local] Open Scope string_scope.
#[local] Open Scope list_scope.

(** ** The sort *)

Section dagsort.
(** The mapping of a group in the configuration; decoding it gives a name and the proxies it lists, or an error. *)
Context {D : Type} (decode : D → result string (string * list string)) (shuffle : list string → list string).

Record graphNode := mkNode { indegree : Z; data : option D; outdegree : Z; option_ : option (list string); from : list string }.
Abbreviation graph := (gmap string graphNode).

Inductive dag_error := DecodeError (e : string) | DuplicateGroup (name : string) | LoopDetected (l : list string).

Definition set_indegree (n : graphNode) (d : Z) : graphNode := mkNode d (data n) (outdegree n) (option_ n) (from n).
Definition set_outdegree (n : graphNode) (d : Z) : graphNode := mkNode (indegree n) (data n) d (option_ n) (from n).
Definition add_from (n : graphNode) (f : string) : graphNode := mkNode (indegree n) (data n) (outdegree n) (option_ n) (from n ++ [f]).

(** The names in the order the map is visited. *)
Definition visit (g : graph) : list string := shuffle (fst <$> map_to_list g).

(** Step 1.1. *)
Definition add_child (g : graph) (proxy : string) : graph :=
  match g !! proxy with
  | Some node => <[proxy := set_indegree node (indegree node + 1)]> g
  | None => <[proxy := mkNode 1 None 0 None []]> g
  end.

Fixpoint build (groups : list D) (g : graph) : result dag_error graph :=
  match groups with
  | [] => Ok g
  | mapping :: groups =>
      match decode mapping with
      | Err e => Err (DecodeError e)
      | Ok (groupName, proxies) =>
          match g !! groupName with
          | Some node =>
              if bool_decide (is_Some (data node)) then Err (DuplicateGroup groupName)
              else build groups (fold_left add_child proxies
                     (<[groupName := mkNode (indegree node) (Some mapping) (outdegree node) (Some proxies) (from node)]> g))
          | None => build groups (fold_left add_child proxies (<[groupName := mkNode 0 (Some mapping) 0 (Some proxies) []]> g))
          end
      end
  end.

(** One edge less for each name of a list; the names that have none left join the queue.  [None]: a name is not there. *)
Fixpoint decrease (get : graphNode → Z) (set : graphNode → Z → graphNode) (names : list string) (g : graph) (queue : list string)
    : option (graph * list string) :=
  match names with
  | [] => Some (g, queue)
  | name :: names =>
      node ← g !! name;
      let d := (get node - 1)%Z in
      decrease get set names (<[name := set node d]> g) (if (d =? 0)%Z then queue ++ [name] else queue)
  end.

(** Step 1.2: the children of a node that leaves. *)
Definition release : list string → graph → list string → option (graph * list string) := decrease indegree set_indegree.

(** The queue; the groups met are written from the end of the list. *)
Fixpoint sort_loop (fuel : nat) (g : graph) (queue : list string) (sorted : list D) : option (graph * list D) :=
  match fuel, queue with
  | _, [] => Some (g, sorted)
  | O, _ => None
  | S fuel, name :: queue =>
      node ← g !! name;
      match option_ node with
      | Some proxies =>
          d ← data node;
          '(g, queue) ← release proxies g queue;
          sort_loop fuel (delete name g) queue (d :: sorted)
      | None => sort_loop fuel (delete name g) queue sorted
      end
  end.

(** Step 2.1: the edges of one node of the rest. *)
Fixpoint link (name : string) (proxies : list string) (g : graph) : option graph :=
  match proxies with
  | [] => Some g
  | proxy :: proxies =>
      node ← g !! name;
      let g := <[name := set_outdegree node (outdegree node + 1)]> g in
      child ← g !! proxy;
      link name proxies (<[proxy := add_from child name]> g)
  end.

Fixpoint link_all (names : list string) (g : graph) : option graph :=
  match names with
  | [] => Some g
  | name :: names =>
      node ← g !! name;
      g ← match option_ node with Some proxies => link name proxies g | None => Some g end;
      link_all names g
  end.

(** Step 2.2: the parents of a node that leaves. *)
Definition detach : list string → graph → list string → option (graph * list string) := decrease outdegree set_outdegree.

Fixpoint trim_loop (fuel : nat) (g : graph) (queue : list string) : option graph :=
  match fuel, queue with
  | _, [] => Some g
  | O, _ => None
  | S fuel, name :: queue =>
      node ← g !! name;
      '(g, queue) ← detach (from node) g queue;
      trim_loop fuel (delete name g) queue
  end.

Definition no_indegree (g : graph) (n : string) : bool := match g !! n with Some node => (indegree node =? 0)%Z | None => false end.
Definition no_outdegree (g : graph) (n : string) : bool := match g !! n with Some node => (outdegree node =? 0)%Z | None => false end.

(** The sorted groups overwrite the end of the configuration's list.  [None]: an index below zero. *)
Definition place (groups sorted : list D) : option (list D) :=
  guard (length sorted ≤ length groups)%nat;; Some (take (length groups - length sorted)%nat groups ++ sorted).

Definition proxyGroupsDagSort (groups : list D) : option (result dag_error (list D)) :=
  match build groups ∅ with
  | Err e => Some (Err e)
  | Ok g =>
      '(g, sorted) ← sort_loop (size g) g (filter (λ n, no_indegree g n = true) (visit g)) [];
      groupsConfig ← place groups sorted;
      if bool_decide (size g = 0%nat) then Some (Ok groupsConfig)
      else
        g ← link_all (visit g) g;
        g ← trim_loop (size g) g (filter (λ n, no_outdegree g n = true) (visit g));
        Some (Err (LoopDetected (visit g)))
  end.
End dagsort.

Arguments graphNode : clear implicits.
Arguments dag_error : clear implicits.

(** ** Counting edges *)

Section theory.
Context {D : Type} (decode : D → result string (string * list string)) (shuffle : list string → list string).
Context (shuffle_perm : ∀ l, shuffle l ≡ₚ l).

Definition occ (c : string) (l : list string) : Z := Z.of_nat (length (filter (λ x, x = c) l)).

Lemma occ_nil c : occ c [] = 0%Z.
Proof. done. Qed.
Lemma occ_cons c x l : occ c (x :: l) = ((if decide (x = c) then 1 else 0) + occ c l)%Z.
Proof. unfold occ. rewrite filter_cons. case_decide; simpl length; lia. Qed.
Lemma occ_nonneg c l : (0 ≤ occ c l)%Z.
Proof. unfold occ. lia. Qed.
Lemma occ_pos c l : (0 < occ c l)%Z ↔ c ∈ l.
Proof.
  induction l as [|x l IH]; [split; [unfold occ; simpl; lia|by intros ?%elem_of_nil]|]. rewrite occ_cons, elem_of_cons. pose proof (occ_nonneg c l).
  destruct (decide (x = c)) as [->|Hne]; [split; [by left|lia]|]. rewrite <- IH. split; [intros; right; lia|intros [?|?]; [by subst|lia]].
Qed.
Lemma occ_zero c l : occ c l = 0%Z ↔ c ∉ l.
Proof. rewrite <- occ_pos. pose proof (occ_nonneg c l). lia. Qed.

(** What the options of the nodes say about edges. *)
Abbreviation opts := (gmap string (option (list string))).
Definition children (o : opts) (n : string) : list string := default [] (default None (o !! n)).
Definition edges (o : opts) (c : string) : Z := map_fold (λ _ x acc, occ c (default [] x) + acc)%Z 0%Z o.

Lemma edges_delete (o : opts) n x c : o !! n = Some x → edges o c = (occ c (default [] x) + edges (delete n o) c)%Z.
Proof. intros H. unfold edges. rewrite (map_fold_delete_L _ _ n x o); [done| |done]. intros. lia. Qed.

Lemma edges_insert (o : opts) n x c : o !! n = None → edges (<[n := x]> o) c = (occ c (default [] x) + edges o c)%Z.
Proof. intros H. rewrite (edges_delete _ n x) by apply lookup_insert_eq. by rewrite delete_insert_id. Qed.

Lemma edges_nonneg o c : (0 ≤ edges o c)%Z.
Proof. unfold edges. apply (map_fold_weak_ind (λ r _, 0 ≤ r)%Z); [lia|]. intros. pose proof (occ_nonneg c (default [] x)). lia. Qed.

Lemma edges_child o n c : c ∈ children o n → (0 < edges o c)%Z.
Proof.
  unfold children. destruct (o !! n) as [x|] eqn:E; [|by intros ?%elem_of_nil]. cbn. intros Hc. rewrite (edges_delete o n x) by done.
  pose proof (edges_nonneg (delete n o) c). apply occ_pos in Hc. lia.
Qed.

Lemma edges_zero o c : (∀ n, c ∉ children o n) → edges o c = 0%Z.
Proof.
  unfold children. intros H. unfold edges. cut (∀ r (m : opts), m ⊆ o → map_fold (λ _ x acc, occ c (default [] x) + acc)%Z 0%Z m = r → r = 0%Z); [eauto|].
  intros r m. revert r. induction m as [|n x m Hn Hf IH] using map_first_key_ind; intros r Hsub <-; [done|].
  rewrite map_fold_insert_first_key by done. assert (o !! n = Some x) as Hx by (eapply lookup_weaken; [apply lookup_insert_eq|done]).
  specialize (H n). rewrite Hx in H. cbn in H. apply occ_zero in H. rewrite H, Z.add_0_l. apply (IH _ ltac:(etransitivity; [by apply insert_subseteq|done]) eq_refl).
Qed.

Lemma edges_parent o c : (0 < edges o c)%Z → ∃ n, c ∈ children o n.
Proof.
  intros H. destruct (decide (Exists (λ kx, c ∈ default [] kx.2) (map_to_list o))) as [He|He].
  - apply list.Exists_exists in He as ([n x] & Hin & Hc). apply elem_of_map_to_list in Hin. exists n. unfold children. by rewrite Hin.
  - rewrite edges_zero in H; [lia|]. intros n Hc. apply He. unfold children in Hc. destruct (o !! n) as [x|] eqn:E; [|by apply elem_of_nil in Hc].
    apply list.Exists_exists. exists (n, x). split; [by apply elem_of_map_to_list|done].
Qed.

(** ** Degrees *)

Abbreviation G := (gmap string (graphNode D)).
Definition deg (get : graphNode D → Z) (g : G) (n : string) : Z := from_option get 0%Z (g !! n).

Section decrease.
Context (get : graphNode D → Z) (set : graphNode D → Z → graphNode D).
Context (get_set : ∀ x d, get (set x d) = d) (set_set : ∀ x d d', set (set x d) d' = set x d').

Lemma deg_set g a x d n : g !! a = Some x → deg get (<[a := set x d]> g) n = if decide (a = n) then d else deg get g n.
Proof. intros H. unfold deg. case_decide as E; [subst; rewrite lookup_insert_eq; apply get_set|by rewrite lookup_insert_ne]. Qed.

Lemma decrease_spec names g q :
  (∀ n, n ∈ names → is_Some (g !! n) ∧ (occ n names ≤ deg get g n)%Z ∧ n ∉ q) → NoDup q →
  ∃ g' q', decrease get set names g q = Some (g', q') ∧ NoDup q'
    ∧ (∀ n, deg get g' n = (deg get g n - occ n names)%Z)
    ∧ (λ x, set x 0%Z) <$> g' = (λ x, set x 0%Z) <$> g
    ∧ ∀ n, n ∈ q' ↔ n ∈ q ∨ (n ∈ names ∧ deg get g' n = 0%Z).
Proof.
  revert g q. induction names as [|a names IH]; intros g q H Hq.
  { exists g, q. split_and!; [done|done|intros n; rewrite occ_nil; lia|done|]. intros n. rewrite elem_of_nil. tauto. }
  destruct (H a ltac:(by left)) as ([x Hx] & Ha & Haq). rewrite occ_cons, decide_True in Ha by done.
  assert (deg get g a = get x) as Eg by (unfold deg; by rewrite Hx). pose proof (occ_nonneg a names) as Hnn.
  cbn [decrease]. rewrite Hx. cbn [mbind option_bind].
  destruct (IH (<[a := set x (get x - 1)%Z]> g) (if (get x - 1 =? 0)%Z then q ++ [a] else q)) as (g' & q' & E & Hq' & Hd & He & Hm).
  - intros n Hn. destruct (H n ltac:(by right)) as (Hs & Ho & Hnq). rewrite occ_cons in Ho. rewrite (deg_set _ _ x) by done. split_and!.
    + rewrite lookup_insert_is_Some'. by right.
    + case_decide; [subst; lia|]. lia.
    + destruct (Z.eqb_spec (get x - 1) 0); [|done]. rewrite elem_of_app, list_elem_of_singleton. intros [?|<-]; [done|]. apply occ_pos in Hn. lia.
  - destruct (Z.eqb_spec (get x - 1) 0); [|done]. apply NoDup_app. split_and!; [done| |apply NoDup_singleton]. intros n Hn ->%list_elem_of_singleton. done.
  - exists g', q'. split_and!; [done|done| | |].
    + intros n. rewrite Hd, (deg_set _ _ x), occ_cons by done. case_decide; [subst; lia|lia].
    + rewrite He, fmap_insert, set_set. apply insert_id. by rewrite lookup_fmap, Hx.
    + intros n. rewrite Hm, elem_of_cons. pose proof (Hd a) as Hda. rewrite (deg_set _ _ x), decide_True in Hda by done.
      destruct (Z.eqb_spec (get x - 1) 0) as [Ez|Ez].
      * rewrite elem_of_app, list_elem_of_singleton. assert (occ a names = 0%Z) as E0 by lia. rewrite E0, Ez in Hda.
        split; [intros [[?| ->]|[? ?]]; auto|intros [?|[[-> |?] ?]]; auto].
      * split; [intros [?|[? ?]]; auto|]. intros [?|[[-> |?] Hz]]; auto. right. split; [|done]. apply occ_pos. lia.
Qed.
End decrease.

Lemma erased {B} (f : graphNode D → B) (set : graphNode D → Z → graphNode D) (g g' : G) :
  (∀ x, f (set x 0%Z) = f x) → (λ x, set x 0%Z) <$> g' = (λ x, set x 0%Z) <$> g → f <$> g' = f <$> g.
Proof.
  intros Hf H. apply (f_equal (fmap f)) in H. rewrite <- !map_fmap_compose in H. etransitivity; [|etransitivity; [exact H|]].
  - apply map_fmap_ext. intros. unfold compose. by rewrite Hf.
  - apply map_fmap_ext. intros. unfold compose. by rewrite Hf.
Qed.

Lemma fmap_is_Some {A B} (f : A → B) (g g' : gmap string A) n : f <$> g' = f <$> g → is_Some (g' !! n) ↔ is_Some (g !! n).
Proof. intros H. rewrite <- (fmap_is_Some f (g' !! n)), <- (fmap_is_Some f (g !! n)), <- !lookup_fmap. by rewrite H. Qed.

(** ** The graph of a configuration *)

Definition name_of (d : D) (n : string) : Prop := ∃ ps, decode d = Ok (n, ps).
Definition lists_proxy (d : D) (c : string) : Prop := ∃ n ps, decode d = Ok (n, ps) ∧ c ∈ ps.

(** A node is a group with what it lists, or a name that is only listed. *)
Definition node_ok (n : string) (x : graphNode D) : Prop :=
  outdegree x = 0%Z ∧ from x = []
  ∧ match data x, option_ x with Some d, Some ps => decode d = Ok (n, ps) | None, None => True | _, _ => False end.

Definition counted (g : G) : Prop := ∀ c, deg indegree g c = edges (option_ <$> g) c.
Definition holds (g : G) (d : D) : Prop := ∃ n x, g !! n = Some x ∧ data x = Some d.

Definition graph_ok (g : G) : Prop := counted g ∧ map_Forall node_ok g.

Lemma counted_closed (g : G) n c : counted g → c ∈ children (option_ <$> g) n → is_Some (g !! c).
Proof. intros Hc Hin%edges_child. rewrite <- Hc in Hin. unfold deg in Hin. destruct (g !! c); [by eexists|cbn in Hin; lia]. Qed.

Lemma children_lookup (g : G) n x : g !! n = Some x → children (option_ <$> g) n = default [] (option_ x).
Proof. intros H. unfold children. by rewrite lookup_fmap, H. Qed.

Lemma add_child_spec (g : G) p :
  map_Forall node_ok g →
  map_Forall node_ok (add_child g p) ∧ (∀ c, deg indegree (add_child g p) c = (deg indegree g c + occ c [p])%Z)
  ∧ (∀ c, edges (option_ <$> add_child g p) c = edges (option_ <$> g) c) ∧ (∀ d, holds (add_child g p) d ↔ holds g d).
Proof.
  intros Hok. unfold add_child. destruct (g !! p) as [x|] eqn:E.
  - split_and!.
    + apply map_Forall_insert_2; [|done]. apply (Hok p x E).
    + intros c. unfold deg. rewrite occ_cons, occ_nil. case_decide; [subst; rewrite lookup_insert_eq, E; cbn; lia|rewrite lookup_insert_ne by done; lia].
    + intros c. rewrite fmap_insert. cbn. rewrite insert_id; [done|]. by rewrite lookup_fmap, E.
    + intros d. unfold holds. split; intros (n & y & H & Hd).
      * destruct (decide (p = n)) as [->|]; [rewrite lookup_insert_eq in H; simplify_eq; by exists n, x|rewrite lookup_insert_ne in H by done; by exists n, y].
      * destruct (decide (p = n)) as [->|]; [simplify_eq; exists n; eexists; by rewrite lookup_insert_eq|exists n, y; by rewrite lookup_insert_ne].
  - split_and!.
    + by apply map_Forall_insert_2.
    + intros c. unfold deg. rewrite occ_cons, occ_nil. case_decide; [subst; rewrite lookup_insert_eq, E; cbn; lia|rewrite lookup_insert_ne by done; lia].
    + intros c. rewrite fmap_insert, edges_insert by (by rewrite lookup_fmap, E). cbn. by rewrite occ_nil.
    + intros d. unfold holds. split; intros (n & y & H & Hd).
      * destruct (decide (p = n)) as [->|]; [rewrite lookup_insert_eq in H; by simplify_eq|rewrite lookup_insert_ne in H by done; by exists n, y].
      * exists n, y. rewrite lookup_insert_ne; [done|]. by intros ->; rewrite E in H.
Qed.

Lemma add_children_spec ps (g : G) :
  map_Forall node_ok g →
  let g' := fold_left add_child ps g in
  map_Forall node_ok g' ∧ (∀ c, deg indegree g' c = (deg indegree g c + occ c ps)%Z)
  ∧ (∀ c, edges (option_ <$> g') c = edges (option_ <$> g) c) ∧ (∀ d, holds g' d ↔ holds g d).
Proof.
  revert g. induction ps as [|p ps IH]; intros g Hok; cbn [fold_left]; [split_and!; [done|intros; rewrite occ_nil; lia|done|done]|].
  destruct (add_child_spec g p Hok) as (H1 & H2 & H3 & H4). destruct (IH _ H1) as (I1 & I2 & I3 & I4). split_and!; [done| | |].
  - intros c. rewrite I2, H2, !occ_cons, occ_nil. lia.
  - intros c. by rewrite I3, H3.
  - intros d. by rewrite I4, H4.
Qed.

(** One group enters. *)
Lemma enter_spec (g : G) n ps d (x : option (graphNode D)) :
  graph_ok g → g !! n = x → (x ≫= data) = None → decode d = Ok (n, ps) →
  let x' := mkNode (from_option indegree 0%Z x) (Some d) (from_option outdegree 0%Z x) (Some ps) (from_option from [] x) in
  let g' := fold_left add_child ps (<[n := x']> g) in
  graph_ok g' ∧ ∀ e, holds g' e ↔ holds g e ∨ e = d.
Proof.
  intros [Hc Hok] Hx Hdat Hdec x' g'.
  assert (x ≫= option_ = None ∧ from_option outdegree 0%Z x = 0%Z ∧ from_option from [] x = []) as (Ho & Eo & Ef).
  { destruct x as [x|]; [|done]. destruct (Hok n x Hx) as (H1 & H2 & H3). cbn in *. rewrite Hdat in H3. by destruct (option_ x). }
  assert (map_Forall node_ok (<[n := x']> g)) as Hok' by (apply map_Forall_insert_2; [by unfold x', node_ok|done]).
  destruct (add_children_spec ps _ Hok') as (H1 & H2 & H3 & H4). fold g' in H1, H2, H3, H4. split; [split; [|done]|].
  - intros c. rewrite H2, H3, fmap_insert. cbn [option_ x']. rewrite <- (insert_delete_eq (option_ <$> g) n (Some ps)), edges_insert by apply lookup_delete_eq. cbn.
    assert (deg indegree (<[n := x']> g) c = deg indegree g c) as ->.
    { unfold deg. destruct (decide (n = c)) as [->|]; [by rewrite lookup_insert_eq, Hx; destruct x|by rewrite lookup_insert_ne]. }
    rewrite Hc. destruct x as [x|].
    + cbn in Ho. rewrite (edges_delete (option_ <$> g) n None) by (by rewrite lookup_fmap, Hx; cbn; rewrite Ho). cbn. rewrite occ_nil. lia.
    + rewrite delete_id by (by rewrite lookup_fmap, Hx). lia.
  - intros e. rewrite H4. unfold holds. split.
    + intros (m & y & H & Hd). destruct (decide (n = m)) as [->|]; [rewrite lookup_insert_eq in H; simplify_eq; cbn in Hd; simplify_eq; by right|].
      rewrite lookup_insert_ne in H by done. left. by exists m, y.
    + intros [(m & y & H & Hd)| ->]; [|exists n, x'; by rewrite lookup_insert_eq]. exists m, y. rewrite lookup_insert_ne; [done|]. intros ->. subst x. rewrite H in Hdat. cbn in Hdat. congruence.
Qed.

(** What [build] reports, from what was met before. *)
Definition build_spec (pre groups : list D) (r : result dag_error G) : Prop :=
  match r with
  | Ok g => graph_ok g ∧ (∀ d, holds g d ↔ d ∈ pre ++ groups) ∧ NoDup (pre ++ groups)
  | Err (DecodeError e) => ∃ d, d ∈ groups ∧ decode d = Err e
  | Err (DuplicateGroup n) => ∃ l1 d1 l2 d2 l3, pre ++ groups = l1 ++ d1 :: l2 ++ d2 :: l3 ∧ name_of d1 n ∧ name_of d2 n
  | Err (LoopDetected _) => False
  end.

Lemma build_ok groups (g : G) pre : graph_ok g → (∀ d, holds g d ↔ d ∈ pre) → NoDup pre → build_spec pre groups (build decode groups g).
Proof.
  revert g pre. induction groups as [|d groups IH]; intros g pre Hg Hh Hn.
  { cbn. rewrite app_nil_r. done. }
  cbn [build]. destruct (decode d) as [[n ps]|e] eqn:Ed; [|cbn; exists d; split; [by left|done]].
  assert (∀ r, build_spec (pre ++ [d]) groups r → build_spec pre (d :: groups) r) as Hstep.
  { intros [g'|[ | | ] ]; cbn; rewrite <- ?app_assoc; cbn; [done| |done|done]. intros (d' & ? & ?). exists d'. split; [by right|done]. }
  assert (∀ x, g !! n = x → (x ≫= data) = None → d ∉ pre) as Hnew.
  { intros x Hx Hdat Hin. apply Hh in Hin as (m & y & Hy & Hd). destruct Hg as [_ Hok]. destruct (Hok m y Hy) as (_ & _ & H). rewrite Hd in H.
    destruct (option_ y); [|done]. rewrite Ed in H. simplify_eq. rewrite Hy in Hdat. cbn in Hdat. congruence. }
  assert (∀ x, g !! n = x → (x ≫= data) = None → build_spec pre (d :: groups) (build decode groups (fold_left add_child ps
     (<[n := mkNode (from_option indegree 0%Z x) (Some d) (from_option outdegree 0%Z x) (Some ps) (from_option from [] x)]> g)))) as Henter.
  { intros x Hx Hdat. apply Hstep. destruct (enter_spec g n ps d x Hg Hx Hdat Ed) as [H1 H2]. apply IH; [done| |].
    - intros e. rewrite H2, Hh, elem_of_app, list_elem_of_singleton. done.
    - apply NoDup_app. split_and!; [done| |apply NoDup_singleton]. intros e He ->%list_elem_of_singleton. by apply (Hnew x). }
  destruct (g !! n) as [x|] eqn:Ex; [|exact (Henter None eq_refl eq_refl)].
  destruct (data x) as [d'|] eqn:Ex'; [|rewrite bool_decide_false by (by intros [? ?]); exact (Henter (Some x) eq_refl Ex')].
  rewrite bool_decide_true by done. cbn. assert (d' ∈ pre) as Hin by (apply Hh; by exists n, x).
  destruct Hg as [_ Hok]. destruct (Hok n x Ex) as (_ & _ & H). rewrite Ex' in H. destruct (option_ x) as [ps'|]; [|done].
  apply list_elem_of_split in Hin as (l1 & l2 & ->). exists l1, d', l2, d, groups. rewrite <- app_assoc. split_and!; [done|by exists ps'|by exists ps].
Qed.

(** ** Step 1.2 *)

(** The queue is the nodes without an edge that reaches them. *)
Definition roots (get : graphNode D → Z) (g : G) (q : list string) : Prop :=
  NoDup q ∧ ∀ n, n ∈ q ↔ is_Some (g !! n) ∧ deg get g n = 0%Z.

Lemma deg_delete get (g : G) a n : deg get (delete a g) n = if decide (a = n) then 0%Z else deg get g n.
Proof. unfold deg. case_decide; [subst; by rewrite lookup_delete_eq|by rewrite lookup_delete_ne]. Qed.

(** The head of the queue leaves. *)
Lemma release_ok (g : G) name q x :
  graph_ok g → roots indegree g (name :: q) → g !! name = Some x →
  ∃ g' q', release (default [] (option_ x)) g q = Some (g', q') ∧ graph_ok (delete name g') ∧ roots indegree (delete name g') q'
    ∧ (λ y, set_indegree y 0%Z) <$> g' = (λ y, set_indegree y 0%Z) <$> g.
Proof.
  intros [Hc Hok] [Hnd Hroots] Hx. apply NoDup_cons in Hnd as [Hnq Hnd]. set (ps := default [] (option_ x)).
  assert (∀ c, c ∈ ps → (0 < deg indegree g c)%Z) as Hpos.
  { intros c Hin. rewrite Hc. apply (edges_child _ name). by rewrite (children_lookup g name x). }
  assert (∀ c, deg indegree g c = (occ c ps + edges (option_ <$> delete name g) c)%Z) as Hsplit.
  { intros c. rewrite Hc, (edges_delete _ name (option_ x)), fmap_delete by (by rewrite lookup_fmap, Hx). done. }
  assert (deg indegree g name = 0%Z) as Hname by (apply Hroots; by left).
  destruct (decrease_spec indegree set_indegree ltac:(done) ltac:(done) ps g q) as (g' & q' & E & Hq' & Hd & He & Hm); [|done|].
  { intros n Hn. split_and!.
    - apply (counted_closed g name); [done|]. by rewrite (children_lookup g name x).
    - rewrite Hsplit. pose proof (edges_nonneg (option_ <$> delete name g) n). lia.
    - intros Hin. pose proof (Hpos n Hn). assert (deg indegree g n = 0%Z) by (apply Hroots; by right). lia. }
  pose proof (erased option_ set_indegree g g' ltac:(done) He) as Ho. exists g', q'. split_and!; [done| |split; [done|]|done].
  - split.
    + intros c. rewrite deg_delete, fmap_delete, Ho, <- fmap_delete. specialize (Hsplit c). case_decide; [subst c|rewrite Hd; lia].
      pose proof (edges_nonneg (option_ <$> delete name g) name). pose proof (occ_nonneg name ps). lia.
    + apply map_Forall_delete. intros n y Hy. pose proof (f_equal (lookup n) He) as Hl. rewrite !lookup_fmap, Hy in Hl. cbn in Hl. symmetry in Hl.
      apply fmap_Some in Hl as (z & Hz & Hl). pose proof (Hok n z Hz) as Hz'. change (node_ok n (set_indegree z 0)) in Hz'. rewrite <- Hl in Hz'. exact Hz'.
  - intros n. rewrite Hm, deg_delete. destruct (decide (name = n)) as [<-|Hne].
    + rewrite lookup_delete_eq. split; [|intros [[? ?] _]; done]. intros [?|[Hin _]]; [done|]. apply Hpos in Hin. lia.
    + rewrite lookup_delete_ne, (fmap_is_Some (λ y, set_indegree y 0%Z) g g' n He) by done. specialize (Hroots n). rewrite elem_of_cons in Hroots. rewrite Hd.
      assert (occ n ps = 0%Z ∨ n ∈ ps) as Hcase by (rewrite <- occ_pos; pose proof (occ_nonneg n ps); lia). split.
      * intros [Hin|[Hin Hz]]; [|split; [apply (counted_closed g name); [done|by rewrite (children_lookup g name x)]|done]].
        destruct Hroots as [Hr _]. destruct (Hr ltac:(by right)) as [? ?]. split; [done|]. destruct Hcase as [->|Hin']; [lia|]. apply Hpos in Hin'. lia.
      * intros [Hs Hz]. destruct Hcase as [Ho'|Hin']; [|right; split; done]. rewrite Ho' in Hz. left. destruct Hroots as [_ Hr]. destruct Hr as [->|?]; [|done|done].
        split; [done|lia].
Qed.

(** Every group that lists the name of a group comes after it. *)
Fixpoint parents_after (groups sorted : list D) : Prop :=
  match sorted with
  | [] => True
  | d :: sorted => (∀ n p, name_of d n → p ∈ groups → lists_proxy p n → p ∈ sorted) ∧ parents_after groups sorted
  end.

Definition placed (groups : list D) (g : G) (sorted : list D) : Prop :=
  NoDup sorted ∧ (∀ d, d ∈ groups ↔ d ∈ sorted ∨ holds g d) ∧ (∀ d n, d ∈ sorted → name_of d n → g !! n = None) ∧ parents_after groups sorted.

Lemma holds_alt (g : G) d : holds g d ↔ ∃ n, (data <$> g) !! n = Some (Some d).
Proof. unfold holds. split; intros (n & H); exists n; rewrite lookup_fmap in *; [destruct H as (x & -> & <-); done|apply fmap_Some in H as (x & ? & ?); by exists x]. Qed.

Lemma holds_delete (g g' : G) name x e :
  g !! name = Some x → data <$> g' = data <$> g → (∀ n, (data <$> g) !! n = Some (Some e) → data x = Some e → n = name) →
  holds g e ↔ data x = Some e ∨ holds (delete name g') e.
Proof.
  intros Hx He Hu. rewrite !holds_alt, fmap_delete, He. split.
  - intros [n Hn]. destruct (decide (name = n)) as [->|]; [left|right; exists n; by rewrite lookup_delete_ne]. rewrite lookup_fmap, Hx in Hn. by simplify_eq/=.
  - intros [Hd|[n Hn]]; [exists name; by rewrite lookup_fmap, Hx; cbn; rewrite Hd|]. exists n. by apply lookup_delete_Some in Hn as [_ ?].
Qed.

Lemma placed_step groups (g g' : G) name x sorted :
  graph_ok g → g !! name = Some x → deg indegree g name = 0%Z → data <$> g' = data <$> g →
  placed groups g sorted → placed groups (delete name g') (from_option (λ d, d :: sorted) sorted (data x)).
Proof.
  intros [Hc Hok] Hx H0 He (Hnd & Hin & Hno & Hpa). destruct (Hok name x Hx) as (_ & _ & Hxd).
  assert (∀ n y d, g !! n = Some y → data y = Some d → ∃ ps, option_ y = Some ps ∧ decode d = Ok (n, ps)) as Hdec.
  { intros n y d Hy Hd. destruct (Hok n y Hy) as (_ & _ & H). rewrite Hd in H. destruct (option_ y) as [ps|]; [by exists ps|done]. }
  assert (∀ e, holds g e ↔ data x = Some e ∨ holds (delete name g') e) as Hh.
  { intros e. apply holds_delete; [done|done|]. intros n Hn Hd. rewrite lookup_fmap in Hn. apply fmap_Some in Hn as (y & Hy & Hyd).
    destruct (Hdec n y e Hy ltac:(done)) as (? & ? & E1). destruct (Hdec name x e Hx Hd) as (? & ? & E2). congruence. }
  assert (∀ n, g !! n = None → delete name g' !! n = None) as Hnone.
  { intros n Hn. apply eq_None_not_Some. intros Hs. apply lookup_delete_is_Some in Hs as [_ Hs]. apply (fmap_is_Some data g g' n He) in Hs. rewrite Hn in Hs. by destruct Hs. }
  destruct (data x) as [d|] eqn:Ed; cbn [from_option].
  - destruct (Hdec name x d Hx Ed) as (ps & _ & Edd). unfold placed. split_and!.
    + apply NoDup_cons. split; [|done]. intros Hd. specialize (Hno d name Hd ltac:(by exists ps)). congruence.
    + intros e. rewrite Hin, Hh, elem_of_cons. split; [intros [?|[[= ->]|?]]; auto|intros [[-> |?]|?]; auto].
    + intros e n [->|He']%elem_of_cons Hn; [|by apply Hnone, (Hno e)]. destruct Hn as [ps' Hn]. rewrite Edd in Hn. simplify_eq. apply lookup_delete_eq.
    + cbn [parents_after]. split; [|done]. intros n p [ps' Hn] Hp (m & qs & Ep & Hq). rewrite Edd in Hn. simplify_eq. apply Hin in Hp as [?|(k & y & Hy & Hyd)]; [done|].
      destruct (Hdec k y p Hy Hyd) as (qs' & Eo & E'). rewrite Ep in E'. simplify_eq.
      pose proof (edges_child (option_ <$> g) k n) as Hpos. rewrite (children_lookup g k y Hy), Eo in Hpos. specialize (Hpos Hq). rewrite <- Hc in Hpos. lia.
  - unfold placed. split_and!; [done| | |done].
    + intros e. rewrite Hin, Hh. split; [intros [?|[?|?]]; auto; done|intros [?|?]; auto].
    + intros e n He' Hn. by apply Hnone, (Hno e).
Qed.

Lemma sort_loop_ok groups fuel (g : G) q sorted :
  (size g ≤ fuel)%nat → graph_ok g → roots indegree g q → placed groups g sorted →
  ∃ g' sorted', sort_loop fuel g q sorted = Some (g', sorted') ∧ graph_ok g' ∧ roots indegree g' [] ∧ placed groups g' sorted'.
Proof.
  revert g q sorted. induction fuel as [|fuel IH]; intros g q sorted Hf Hg Hr Hp.
  { assert (g = ∅) as -> by (apply map_size_empty_iff; lia). destruct q as [|a q]; [by exists ∅, sorted|].
    destruct Hr as [_ Hr]. destruct (Hr a) as [H _]. destruct (H ltac:(by left)) as [[? ?] _]. done. }
  destruct q as [|name q]; [by exists g, sorted|]. assert (is_Some (g !! name) ∧ deg indegree g name = 0%Z) as [[x Hx] H0] by (apply Hr; by left).
  destruct (release_ok g name q x Hg Hr Hx) as (g' & q' & E & Hg' & Hr' & He). pose proof (erased data set_indegree g g' ltac:(done) He) as Hed.
  pose proof (placed_step groups g g' name x sorted Hg Hx H0 Hed Hp) as Hp'.
  assert (size (delete name g') ≤ fuel)%nat as Hf'.
  { assert (is_Some (g' !! name)) as Hs by (apply (fmap_is_Some data g g' name Hed); by exists x). rewrite (map_size_delete_Some name g' Hs).
    apply (f_equal size) in Hed. rewrite !map_size_fmap in Hed. assert (0 < size g)%nat by (apply Nat.neq_0_lt_0; intros H%map_size_empty_iff; by rewrite H in Hx). lia. }
  destruct Hg as [_ Hok]. destruct (Hok name x Hx) as (_ & _ & Hxd). cbn [sort_loop]. rewrite Hx. cbn [mbind option_bind].
  destruct (data x) as [d|], (option_ x) as [ps|]; try done; cbn [from_option default] in *.
  - cbn in E. rewrite E. cbn [mbind option_bind]. by apply IH.
  - cbn in E. injection E as <- <-. by apply IH.
Qed.

Lemma visit_roots get (p : G → string → bool) (g : G) :
  (∀ n, p g n = true ↔ is_Some (g !! n) ∧ deg get g n = 0%Z) → roots get g (filter (λ n, p g n = true) (visit shuffle g)).
Proof.
  intros Hp. unfold visit. split; [apply NoDup_filter; rewrite shuffle_perm; apply NoDup_fst_map_to_list|]. intros n. rewrite list_elem_of_filter, Hp.
  split; [tauto|]. intros [[x Hx] ?]. split; [split; [by exists x|done]|]. rewrite shuffle_perm. apply list_elem_of_fmap. exists (n, x). by rewrite elem_of_map_to_list.
Qed.

(** ** Step 2.1 *)

Definition fr (g : G) (c : string) : list string := from_option from [] (g !! c).

Definition linked_more (g g' : G) (w : string → Z) (v : string → string → Z) : Prop :=
  option_ <$> g' = option_ <$> g ∧ (∀ n, deg outdegree g' n = (deg outdegree g n + w n)%Z) ∧ ∀ m c, occ m (fr g' c) = (occ m (fr g c) + v m c)%Z.

Lemma occ_app c l1 l2 : occ c (l1 ++ l2) = (occ c l1 + occ c l2)%Z.
Proof. unfold occ. rewrite filter_app, length_app. lia. Qed.

Lemma link_one (g : G) name p x y :
  g !! name = Some x → (<[name := set_outdegree x (outdegree x + 1)]> g) !! p = Some y →
  linked_more g (<[p := add_from y name]> (<[name := set_outdegree x (outdegree x + 1)]> g))
    (λ n, if decide (n = name) then 1 else 0)%Z (λ m c, if decide (m = name) then occ c [p] else 0)%Z.
Proof.
  intros Hx Hy. set (g1 := <[name := _]> g) in *.
  assert (option_ <$> g1 = option_ <$> g) as E1 by (unfold g1; rewrite fmap_insert; apply insert_id; by rewrite lookup_fmap, Hx).
  assert (∀ c, fr g1 c = fr g c) as E2.
  { intros c. unfold fr, g1. destruct (decide (name = c)) as [->|]; [by rewrite lookup_insert_eq, Hx|by rewrite lookup_insert_ne]. }
  split_and!.
  - rewrite fmap_insert, <- E1. apply insert_id. by rewrite lookup_fmap, Hy.
  - intros n. transitivity (deg outdegree g1 n).
    { unfold deg. destruct (decide (p = n)) as [->|]; [by rewrite lookup_insert_eq, Hy|by rewrite lookup_insert_ne]. }
    unfold deg, g1. case_decide; [subst; rewrite lookup_insert_eq, Hx; cbn; lia|rewrite lookup_insert_ne by done; lia].
  - intros m c. rewrite <- E2, occ_cons, occ_nil. unfold fr. destruct (decide (p = c)) as [->|].
    + rewrite lookup_insert_eq, Hy. cbn. rewrite occ_app, occ_cons, occ_nil. repeat case_decide; subst; lia || done.
    + rewrite lookup_insert_ne by done. case_decide; lia.
Qed.

Lemma link_ok name ps (g : G) :
  is_Some (g !! name) → (∀ c, c ∈ ps → is_Some (g !! c)) →
  ∃ g', link name ps g = Some g' ∧ linked_more g g' (λ n, if decide (n = name) then Z.of_nat (length ps) else 0)%Z (λ m c, if decide (m = name) then occ c ps else 0)%Z.
Proof.
  revert g. induction ps as [|p ps IH]; intros g [x Hx] Hps.
  { exists g. split; [done|]. split_and!; [done|intros; case_decide; cbn; lia|intros; rewrite occ_nil; case_decide; lia]. }
  cbn [link]. rewrite Hx. cbn [mbind option_bind].
  assert (is_Some ((<[name := set_outdegree x (outdegree x + 1)]> g) !! p)) as [y Hy] by (apply lookup_insert_is_Some'; right; apply Hps; by left).
  rewrite Hy. cbn [mbind option_bind]. destruct (link_one g name p x y Hx Hy) as (H1 & H2 & H3).
  destruct (IH (<[p := add_from y name]> (<[name := set_outdegree x (outdegree x + 1)]> g))) as (g' & E & I1 & I2 & I3).
  - apply (fmap_is_Some option_ g _ name H1). by exists x.
  - intros c Hc. apply (fmap_is_Some option_ g _ c H1), Hps. by right.
  - exists g'. split; [done|]. split_and!; [by rewrite I1| |].
    + intros n. rewrite I2, H2. case_decide; cbn [length]; lia.
    + intros m c. rewrite I3, H3, !occ_cons, occ_nil. case_decide; lia.
Qed.

Lemma link_all_ok names (g : G) :
  let o := option_ <$> g in
  NoDup names → (∀ n, n ∈ names → is_Some (g !! n)) → (∀ n c, c ∈ children o n → is_Some (g !! c)) →
  ∃ g', link_all names g = Some g' ∧ linked_more g g' (λ n, if decide (n ∈ names) then Z.of_nat (length (children o n)) else 0)%Z
    (λ m c, if decide (m ∈ names) then occ c (children o m) else 0)%Z.
Proof.
  intros o Hnd. assert (option_ <$> g = o) as Eo by done. clearbody o. revert g Eo. induction Hnd as [|a names Ha Hnd IH]; intros g Eo Hin Hcl.
  { exists g. split; [done|]. split_and!; [done|intros n; rewrite (decide_False (P := n ∈ [])) by apply not_elem_of_nil; lia|intros n c; rewrite (decide_False (P := n ∈ [])) by apply not_elem_of_nil; lia]. }
  destruct (Hin a ltac:(by left)) as [x Hx]. cbn [link_all]. rewrite Hx. cbn [mbind option_bind].
  pose proof (children_lookup g a x Hx) as Ec. rewrite Eo in Ec.
  assert (∃ g', (match option_ x with Some proxies => link a proxies g | None => Some g end) = Some g'
    ∧ linked_more g g' (λ n, if decide (n = a) then Z.of_nat (length (children o a)) else 0)%Z (λ m c, if decide (m = a) then occ c (children o a) else 0)%Z) as (g1 & E1 & H1 & H2 & H3).
  { rewrite Ec. destruct (option_ x) as [ps|]; cbn [default].
    - apply link_ok; [by exists x|]. intros c Hc. apply (Hcl a). by rewrite Ec.
    - exists g. split; [done|]. split_and!; [done|intros; case_decide; cbn; lia|intros; rewrite occ_nil; case_decide; lia]. }
  rewrite E1. cbn [mbind option_bind]. destruct (IH g1) as (g' & E & I1 & I2 & I3).
  - by rewrite H1.
  - intros n Hn. apply (fmap_is_Some option_ g g1 n H1), Hin. by right.
  - intros n c Hc. apply (fmap_is_Some option_ g g1 c H1). by apply (Hcl n).
  - exists g'. split; [done|]. split_and!; [by rewrite I1| |].
    + intros n. rewrite I2, H2. destruct (decide (n = a)) as [->|Hne]; [rewrite decide_False, decide_True by (done || by left); lia|].
      destruct (decide (n ∈ names)); [rewrite decide_True by (by right); lia|rewrite decide_False by (by rewrite elem_of_cons; intros [?|?]); lia].
    + intros m c. rewrite I3, H3. destruct (decide (m = a)) as [->|Hne]; [rewrite decide_False, decide_True by (done || by left); lia|].
      destruct (decide (m ∈ names)); [rewrite decide_True by (by right); lia|rewrite decide_False by (by rewrite elem_of_cons; intros [?|?]); lia].
Qed.

(** ** Step 2.2 *)

(** The edges of the configuration are [o]; [g] is what is left. *)
Definition in_g (g : G) (n : string) : Prop := is_Some (g !! n).

Definition trimmed (o : opts) (g : G) : Prop :=
  (∀ n, in_g g n → deg outdegree g n = Z.of_nat (length (filter (in_g g) (children o n))))
  ∧ (∀ m c, in_g g c → occ m (fr g c) = occ c (children o m))
  ∧ (∀ m c, in_g g c → c ∈ children o m → in_g g m)
  ∧ (∀ c, in_g g c → ∃ m, c ∈ children o m).

Lemma filter_delete (g : G) name l :
  in_g g name → Z.of_nat (length (filter (in_g g) l)) = (occ name l + Z.of_nat (length (filter (in_g (delete name g)) l)))%Z.
Proof.
  intros Hn. induction l as [|a l IH]; [done|]. rewrite !filter_cons, occ_cons. destruct (decide (a = name)) as [->|Hne].
  - rewrite decide_True, (decide_False (P := in_g (delete name g) name)) by (done || unfold in_g; rewrite lookup_delete_eq; by intros [? ?]). cbn [length]. lia.
  - assert (in_g (delete name g) a ↔ in_g g a) as E by (unfold in_g; by rewrite lookup_delete_ne).
    destruct (decide (in_g g a)); [rewrite decide_True by (by apply E)|rewrite decide_False by (by rewrite E)]; cbn [length]; lia.
Qed.

Lemma filter_pos (P : string → Prop) `{∀ x, Decision (P x)} l : (0 < length (filter P l))%nat ↔ ∃ c, c ∈ l ∧ P c.
Proof.
  split.
  - intros Hl. destruct (filter P l) as [|c l'] eqn:E; [cbn in Hl; lia|]. exists c. assert (c ∈ filter P l) as Hc by (rewrite E; by left). by apply list_elem_of_filter in Hc as [? ?].
  - intros (c & Hc & Hp). destruct (filter P l) eqn:E; [|cbn; lia]. exfalso. apply (not_elem_of_nil c). rewrite <- E. by apply list_elem_of_filter.
Qed.

Lemma detach_ok o (g : G) name q x :
  trimmed o g → roots outdegree g (name :: q) → g !! name = Some x →
  ∃ g' q', detach (from x) g q = Some (g', q') ∧ trimmed o (delete name g') ∧ roots outdegree (delete name g') q' ∧ delete name g' ≠ ∅ ∧ (size (delete name g') < size g)%nat.
Proof.
  intros (T1 & T2 & T3 & T4) [Hnd Hroots] Hx. apply NoDup_cons in Hnd as [Hnq Hnd].
  assert (fr g name = from x) as Efr by (unfold fr; by rewrite Hx). assert (in_g g name) as Hin by (by exists x).
  assert (∀ n, occ n (from x) = occ name (children o n)) as Hocc by (intros n; rewrite <- Efr; by apply T2).
  assert (∀ n, n ∈ from x → in_g g n) as Hg by (intros n Hn; apply (T3 n name); [done|]; rewrite <- occ_pos, <- Hocc; by apply occ_pos).
  assert (∀ n, in_g g n → deg outdegree g n = (occ n (from x) + Z.of_nat (length (filter (in_g (delete name g)) (children o n))))%Z) as Hsplit.
  { intros n Hn. by rewrite T1, (filter_delete g name), Hocc. }
  assert (deg outdegree g name = 0%Z) as H0 by (apply Hroots; by left).
  assert (name ∉ from x) as Hself by (rewrite <- occ_zero; pose proof (Hsplit name Hin); pose proof (occ_nonneg name (from x)); lia).
  destruct (decrease_spec outdegree set_outdegree ltac:(done) ltac:(done) (from x) g q) as (g' & q' & E & Hq' & Hd & He & Hm); [|done|].
  { intros n Hn. specialize (Hg n Hn). specialize (Hsplit n Hg). split_and!; [done|lia|]. intros Hi. apply occ_pos in Hn.
    assert (deg outdegree g n = 0%Z) by (apply Hroots; by right). lia. }
  assert (∀ n, in_g g' n ↔ in_g g n) as Hgg by (intros n; exact (fmap_is_Some _ g g' n He)).
  assert (∀ n, in_g (delete name g') n ↔ name ≠ n ∧ in_g g n) as Hdel by (intros n; unfold in_g; rewrite lookup_delete_is_Some; specialize (Hgg n); unfold in_g in Hgg; tauto).
  assert (∀ c, fr g' c = fr g c) as Ef.
  { intros c. pose proof (erased from set_outdegree g g' ltac:(done) He) as Hfe. apply (f_equal (lookup c)) in Hfe. rewrite !lookup_fmap in Hfe. unfold fr. destruct (g' !! c), (g !! c); by simplify_eq/=. }
  exists g', q'. split_and!; [done|unfold trimmed; split_and!|split; [done|]| |].
  - intros n [Hne Hn]%Hdel. rewrite deg_delete, decide_False by done. rewrite Hd, (Hsplit n Hn).
    assert (filter (in_g (delete name g)) (children o n) = filter (in_g (delete name g')) (children o n)) as ->; [|lia].
    apply list_filter_iff. intros a. rewrite Hdel. unfold in_g. rewrite lookup_delete_is_Some. tauto.
  - intros m c [Hne Hc]%Hdel. rewrite <- (T2 m c Hc), <- Ef. unfold fr. by rewrite lookup_delete_ne.
  - intros m c [Hne Hc]%Hdel Hm'. apply Hdel. split; [|by apply (T3 m c)]. intros <-.
    assert (0 < length (filter (in_g g) (children o name)))%nat as Hp by (apply filter_pos; by exists c). rewrite T1 in H0 by done. lia.
  - intros c [Hne Hc]%Hdel. by apply T4.
  - intros n. rewrite Hm, deg_delete. destruct (decide (name = n)) as [<-|Hne].
    + rewrite lookup_delete_eq. split; [|intros [[? ?] _]; done]. intros [?|[? _]]; done.
    + rewrite lookup_delete_ne, Hd by done. change (is_Some (g' !! n)) with (in_g g' n). rewrite Hgg. specialize (Hroots n). rewrite elem_of_cons in Hroots. split.
      * intros [Hi|[Hi Hz]]; [|split; [by apply Hg|done]]. destruct Hroots as [Hr _]. destruct (Hr ltac:(by right)) as [Hs Hz]. split; [done|].
        pose proof (Hsplit n Hs). pose proof (occ_nonneg n (from x)). lia.
      * intros [Hs Hz]. destruct (decide (n ∈ from x)) as [?|Hni]; [right; split; done|]. apply occ_zero in Hni. left. destruct Hroots as [_ Hr].
        destruct Hr as [->|?]; [split; [done|lia]|done|done].
  - destruct (T4 name Hin) as [m Hm']. intros Hemp. apply (is_Some_None (A := graphNode D)). rewrite <- (lookup_empty m), <- Hemp. apply Hdel. split; [|by apply (T3 m name)].
    intros ->. apply Hself, occ_pos. rewrite Hocc. by apply occ_pos.
  - apply (f_equal size) in He. rewrite !map_size_fmap in He. rewrite (map_size_delete_Some name g') by (by apply Hgg).
    assert (size g ≠ 0%nat) by (intros H%map_size_empty_iff; by rewrite H in Hx). lia.
Qed.

Lemma trim_loop_ok o fuel (g : G) q :
  (size g ≤ fuel)%nat → trimmed o g → roots outdegree g q → g ≠ ∅ → ∃ g', trim_loop fuel g q = Some g' ∧ trimmed o g' ∧ roots outdegree g' [] ∧ g' ≠ ∅.
Proof.
  revert g q. induction fuel as [|fuel IH]; intros g q Hf Ht Hr Hne; [by apply Nat.le_0_r, map_size_empty_iff in Hf|].
  destruct q as [|name q]; [by exists g|]. assert (is_Some (g !! name)) as [x Hx] by (apply Hr; by left). cbn [trim_loop]. rewrite Hx. cbn [mbind option_bind].
  destruct (detach_ok o g name q x Ht Hr Hx) as (g' & q' & -> & Ht' & Hr' & Hne' & Hs). cbn [mbind option_bind]. apply IH; [lia|done|done|done].
Qed.

(** ** The whole sort *)

Lemma visit_elem (g : G) n : n ∈ visit shuffle g ↔ is_Some (g !! n).
Proof.
  unfold visit. rewrite shuffle_perm, list_elem_of_fmap. split; [intros ([m x] & -> & H%elem_of_map_to_list); by exists x|].
  intros [x H]. exists (n, x). by rewrite elem_of_map_to_list.
Qed.

Lemma visit_NoDup (g : G) : NoDup (visit shuffle g).
Proof. unfold visit. rewrite shuffle_perm. apply NoDup_fst_map_to_list. Qed.

(** What step 2 leaves when there is a loop. *)
Lemma locate_ok (g : G) :
  graph_ok g → roots indegree g [] → g ≠ ∅ →
  ∃ g1 g2, link_all (visit shuffle g) g = Some g1
    ∧ trim_loop (size g1) g1 (filter (λ n, no_outdegree g1 n = true) (visit shuffle g1)) = Some g2
    ∧ trimmed (option_ <$> g) g2 ∧ roots outdegree g2 [] ∧ g2 ≠ ∅.
Proof.
  intros [Hc Hok] [_ Hr] Hne. set (o := option_ <$> g).
  destruct (link_all_ok (visit shuffle g) g (visit_NoDup g)) as (g1 & E1 & H1 & H2 & H3).
  { intros n. apply visit_elem. }
  { intros n c. by apply counted_closed. }
  fold o in H1, H2, H3. exists g1. assert (∀ n, in_g g1 n ↔ in_g g n) as Hin by (intros n; exact (fmap_is_Some option_ g g1 n H1)).
  assert (∀ n, is_Some (g !! n) ∨ children o n = []) as Hch by (intros n; unfold children, o; rewrite lookup_fmap; destruct (g !! n); [left; by eexists|by right]).
  destruct (trim_loop_ok o (size g1) g1 (filter (λ n, no_outdegree g1 n = true) (visit shuffle g1))) as (g2 & E2 & Ht & Hr2 & Hne2).
  - done.
  - unfold trimmed. split_and!.
    + intros n Hn%Hin. rewrite H2, decide_True by (by apply visit_elem). destruct Hn as [x Hx]. destruct (Hok n x Hx) as (Ho & _ & _). unfold deg. rewrite Hx. cbn. rewrite Ho.
      rewrite list_filter_all; [done|]. intros c Hcc. apply Hin, (counted_closed g n); done.
    + intros m c [y Hy]%Hin. rewrite H3. destruct (Hok c y Hy) as (_ & Hf & _). unfold fr. rewrite Hy. cbn. rewrite Hf, occ_nil.
      destruct (Hch m) as [Hm|Hm]; [rewrite decide_True by (by apply visit_elem); lia|]. rewrite Hm, occ_nil. case_decide; lia.
    + intros m c _ Hcm. apply Hin. destruct (Hch m) as [Hm|Hm]; [done|]. rewrite Hm in Hcm. by apply not_elem_of_nil in Hcm.
    + intros c Hcc%Hin. apply edges_parent. unfold o. rewrite <- Hc. pose proof (edges_nonneg (option_ <$> g) c) as Hp. rewrite <- Hc in Hp.
      destruct (decide (deg indegree g c = 0%Z)) as [E0|]; [|lia]. exfalso. apply (not_elem_of_nil c), Hr. done.
  - apply (visit_roots outdegree no_outdegree). intros n. unfold no_outdegree, deg. destruct (g1 !! n) as [x|]; cbn; [rewrite Z.eqb_eq; split; [split; [by eexists|done]|tauto]|].
    split; [done|intros [[? ?] _]; done].
  - intros ->. apply Hne. apply map_empty. intros n. apply eq_None_not_Some. intros Hs%Hin. unfold in_g in Hs. rewrite lookup_empty in Hs. by destruct Hs.
  - by exists g2.
Qed.

(** What a report of a loop says. *)
Definition loop_report (groups : list D) (l : list string) : Prop :=
  NoDup l ∧ l ≠ []
  ∧ (∀ n, n ∈ l → ∃ d c, d ∈ groups ∧ name_of d n ∧ lists_proxy d c ∧ c ∈ l)
  ∧ (∀ n, n ∈ l → ∃ p m, p ∈ groups ∧ name_of p m ∧ m ∈ l ∧ lists_proxy p n).

Lemma placed_node groups (g : G) sorted n c :
  graph_ok g → placed groups g sorted → c ∈ children (option_ <$> g) n → ∃ d, d ∈ groups ∧ name_of d n ∧ lists_proxy d c.
Proof.
  intros [_ Hok] (_ & Hin & _) Hc. unfold children in Hc. rewrite lookup_fmap in Hc. destruct (g !! n) as [x|] eqn:Ex; [|by apply not_elem_of_nil in Hc]. cbn in Hc.
  destruct (option_ x) as [ps|] eqn:Eo; [|by apply not_elem_of_nil in Hc]. cbn in Hc. destruct (Hok n x Ex) as (_ & _ & H). rewrite Eo in H. destruct (data x) as [d|] eqn:Ed; [|done].
  exists d. split_and!; [apply Hin; right; by exists n, x|by exists ps|by exists n, ps].
Qed.

Lemma loop_report_ok groups (g g2 : G) sorted :
  graph_ok g → placed groups g sorted → trimmed (option_ <$> g) g2 → roots outdegree g2 [] → g2 ≠ ∅ → loop_report groups (visit shuffle g2).
Proof.
  intros Hg Hp (T1 & T2 & T3 & T4) [_ Hr] Hne. unfold loop_report. split_and!; [apply visit_NoDup| | |].
  - intros E. apply Hne, map_empty. intros n. apply eq_None_not_Some. intros Hs%visit_elem. rewrite E in Hs. by apply not_elem_of_nil in Hs.
  - intros n Hn%visit_elem. assert (deg outdegree g2 n ≠ 0%Z) as Hz by (intros Hz; apply (not_elem_of_nil n), Hr; done). rewrite T1 in Hz by done.
    assert (0 < length (filter (in_g g2) (children (option_ <$> g) n)))%nat as Hpos by lia. apply filter_pos in Hpos as (c & Hc & Hcg).
    destruct (placed_node groups g sorted n c Hg Hp Hc) as (d & ? & ? & ?). exists d, c. split_and!; [done|done|done|by apply visit_elem].
  - intros n Hn%visit_elem. destruct (T4 n Hn) as [m Hm]. destruct (placed_node groups g sorted m n Hg Hp Hm) as (d & ? & ? & ?). exists d, m.
    split_and!; [done|done|by apply visit_elem, (T3 m n)|done].
Qed.

Lemma parents_after_at groups l1 a l2 n p :
  parents_after groups (l1 ++ a :: l2) → name_of a n → p ∈ groups → lists_proxy p n → p ∈ l2.
Proof. induction l1 as [|d l1 IH]; cbn [parents_after app]; intros [H1 H2]; [apply H1|by apply IH]. Qed.

Lemma parents_after_index groups sorted i j a b n :
  parents_after groups sorted → NoDup sorted → (∀ d, d ∈ sorted → d ∈ groups) →
  sorted !! i = Some a → sorted !! j = Some b → name_of a n → lists_proxy b n → (i < j)%nat.
Proof.
  intros Hp Hnd Hsub Ha Hb Hn Hl. rewrite <- (take_drop_middle sorted i a Ha) in Hp.
  assert (b ∈ drop (S i) sorted) as Hin by (eapply parents_after_at; eauto; by apply Hsub, (list_elem_of_lookup_2 _ j)).
  apply list_elem_of_lookup in Hin as [k Hk]. rewrite lookup_drop in Hk. pose proof (NoDup_lookup _ _ _ _ Hnd Hk Hb). lia.
Qed.

Lemma loop_report_rank groups l (rank : string → nat) :
  loop_report groups l → ∃ d n c, d ∈ groups ∧ name_of d n ∧ lists_proxy d c ∧ (rank n ≤ rank c)%nat.
Proof.
  intros (_ & Hne & Hd & _). destruct l as [|a l]; [done|]. clear Hne. assert (a ∈ a :: l) as Ha by (by left).
  remember (a :: l) as l' eqn:El. clear El. remember (rank a) as k eqn:Ek. assert (rank a ≤ k)%nat as Hk by lia. clear Ek. revert a Ha Hk.
  induction k as [|k IH]; intros a Ha Hk; destruct (Hd a Ha) as (d & c & Hg & Hn & Hl & Hc).
  - exists d, a, c. split_and!; [done|done|done|lia].
  - destruct (decide (rank a ≤ rank c)%nat); [by exists d, a, c|]. apply (IH c); [done|lia].
Qed.

(** C20. [proxyGroupsDagSort] decides whether groups nest without a loop and says truthfully what it found: it
    always returns (no missing node, no index below zero, whatever the order the maps are visited in); when it
    succeeds the configuration's list is a permutation of what it was in which a group comes after every group it
    lists; a loop is reported only when no ranking of names decreases along nesting, and then every name reported
    is a group that lists, and is listed by, a reported one; a decoding error or a duplicate name is one of the
    configuration. *)
Theorem dag_sort_correct groups :
  match proxyGroupsDagSort decode shuffle groups with
  | None => False
  | Some (Ok sorted) =>
      sorted ≡ₚ groups
      ∧ ∀ i j a b n, sorted !! i = Some a → sorted !! j = Some b → name_of a n → lists_proxy b n → (i < j)%nat
  | Some (Err (LoopDetected l)) =>
      loop_report groups l ∧ ∀ rank : string → nat, ∃ d n c, d ∈ groups ∧ name_of d n ∧ lists_proxy d c ∧ (rank n ≤ rank c)%nat
  | Some (Err (DecodeError e)) => ∃ d, d ∈ groups ∧ decode d = Err e
  | Some (Err (DuplicateGroup n)) => ∃ l1 d1 l2 d2 l3, groups = l1 ++ d1 :: l2 ++ d2 :: l3 ∧ name_of d1 n ∧ name_of d2 n
  end.
Proof.
  unfold proxyGroupsDagSort. assert (build_spec [] groups (build decode groups ∅)) as Hb.
  { apply build_ok; [split; [done|apply map_Forall_empty]| |apply NoDup_nil_2].
    intros d. split; [intros (n & x & H & _); by rewrite lookup_empty in H|intros H; by apply not_elem_of_nil in H]. }
  destruct (build decode groups ∅) as [g|e]; [|destruct e; [exact Hb|exact Hb|done]]. destruct Hb as (Hg & Hh & Hnd).
  assert (placed groups g []) as Hp.
  { unfold placed. split_and!; [apply NoDup_nil_2| | |done].
    - intros d. rewrite Hh. split; [by right|intros [H|?]; [by apply not_elem_of_nil in H|done]].
    - intros d n H. by apply not_elem_of_nil in H. }
  destruct (sort_loop_ok groups (size g) g (filter (λ n, no_indegree g n = true) (visit shuffle g)) [] ltac:(done) Hg) as (g' & sorted & -> & Hg' & Hr' & Hp'); [|done|].
  { apply (visit_roots indegree no_indegree). intros n. unfold no_indegree, deg. destruct (g !! n) as [x|]; cbn; [rewrite Z.eqb_eq; split; [split; [by eexists|done]|tauto]|].
    split; [done|intros [[? ?] _]; done]. }
  cbn [mbind option_bind]. pose proof Hp' as (Hs1 & Hs2 & Hs3 & Hs4). assert (sorted ⊆+ groups) as Hsub by (apply NoDup_submseteq; [done|intros d Hd; apply Hs2; by left]).
  unfold place. rewrite option_guard_True by (by apply submseteq_length). cbn [mbind option_bind]. case_bool_decide as Ez.
  - apply map_size_empty_iff in Ez. subst g'. assert (sorted ≡ₚ groups) as Hperm.
    { apply NoDup_Permutation; [done|done|]. intros d. rewrite Hs2. split; [by left|]. intros [?|(n & x & H & _)]; [done|by rewrite lookup_empty in H]. }
    rewrite (Permutation_length Hperm), Nat.sub_diag, take_0. cbn [app]. split; [done|]. intros i j a b n.
    apply (parents_after_index groups); [done|done|]. intros d. by rewrite Hperm.
  - assert (g' ≠ ∅) as Hne by (intros ->; by rewrite map_size_empty in Ez). destruct (locate_ok g' Hg' Hr' Hne) as (g1 & g2 & -> & E & Ht & Hr2 & Hne2).
    cbn [mbind option_bind]. rewrite E. cbn [mbind option_bind]. pose proof (loop_report_ok groups g' g2 sorted Hg' Hp' Ht Hr2 Hne2) as Hl. split; [done|]. intros rank. by apply (loop_report_rank groups _ rank Hl).
Qed.
End theory.

(** ** Dialer proxies *)

Section dialer.
Context (shuffle : list string → list string).

Inductive dialer_error := DialerNotFound (name dialerProxy : string) | DialerCycle (name : string).

(** The loop that collects the references; [proxies] gives each proxy's [DialerProxy]. *)
Fixpoint collect (names : list string) (proxies graph : gmap string string) : option (result dialer_error (gmap string string)) :=
  match names with
  | [] => Some (Ok graph)
  | name :: names =>
      dialerProxy ← proxies !! name;
      if bool_decide (dialerProxy ≠ "") then
        match proxies !! dialerProxy with
        | None => Some (Err (DialerNotFound name dialerProxy))
        | Some _ => collect names proxies (<[name := dialerProxy]> graph)
        end
      else collect names proxies graph
  end.

(** The answer and the map of visited proxies, which the calls share. *)
Fixpoint validateDialerProxiesHasCycle (fuel : nat) (current : string) (graph : gmap string string) (visited : gset string) (path : list string)
    : option (bool * gset string) :=
  match fuel with
  | O => None
  | S fuel =>
      if bool_decide (current ∈ path) then Some (true, visited)
      else if bool_decide (current ∈ visited) then Some (false, visited)
      else
        let visited := {[ current ]} ∪ visited in
        let path := path ++ [current] in
        match graph !! current with
        | Some dialerProxy => validateDialerProxiesHasCycle fuel dialerProxy graph visited path
        | None => Some (false, visited)
        end
  end.

Fixpoint check_cycles (names : list string) (graph : gmap string string) : option (result dialer_error unit) :=
  match names with
  | [] => Some (Ok tt)
  | name :: names =>
      '(cycle, _) ← validateDialerProxiesHasCycle (S (size graph)) name graph ∅ [];
      if (cycle : bool) then Some (Err (DialerCycle name)) else check_cycles names graph
  end.

Definition validateDialerProxies (proxies : gmap string string) : option (result dialer_error unit) :=
  r ← collect (shuffle (fst <$> map_to_list proxies)) proxies ∅;
  match r with
  | Err e => Some (Err e)
  | Ok graph => check_cycles (shuffle (fst <$> map_to_list graph)) graph
  end.

(** The proxy after [k] dialer proxies. *)
Definition hop (graph : gmap string string) (n : string) (k : nat) : option string := Nat.iter k (λ o, o ≫= λ x, graph !! x) (Some n).

Lemma hop_S g n k : hop g n (S k) = hop g n k ≫= λ x, g !! x.
Proof. done. Qed.

(** What was walked: the first [length path] proxies of the chain, all different, all with a dialer proxy. *)
Definition walked (g : gmap string string) (n : string) (path : list string) (current : string) : Prop :=
  NoDup path ∧ (∀ i x, path !! i = Some x → hop g n i = Some x ∧ is_Some (g !! x)) ∧ hop g n (length path) = Some current.

Lemma hop_forever g n i k x : (i < k)%nat → hop g n i = Some x → hop g n k = Some x → ∀ m, hop g n m ≠ None.
Proof.
  intros Hik Hi Hk. assert (∀ j, hop g n (i + j) = hop g n (k + j)) as Hper.
  { intros j. induction j as [|j IH]; [by rewrite !Nat.add_0_r, Hi, Hk|]. by rewrite !Nat.add_succ_r, !hop_S, IH. }
  assert (∀ m j, hop g n m = None → hop g n (m + j) = None) as Hmono.
  { intros m j Hm. induction j as [|j IH]; [by rewrite Nat.add_0_r|]. by rewrite Nat.add_succ_r, hop_S, IH. }
  intros m. induction m as [m IH] using lt_wf_ind. intros Hm. destruct (decide (m ≤ k)%nat) as [Hle|Hgt].
  - assert (hop g n k = None) as Hn by (replace k with (m + (k - m))%nat by lia; by apply Hmono). congruence.
  - apply (IH (i + (m - k))%nat ltac:(lia)). rewrite Hper. by replace (k + (m - k))%nat with m by lia.
Qed.

Lemma walked_step g n path c d : walked g n path c → c ∉ path → g !! c = Some d → walked g n (path ++ [c]) d.
Proof.
  intros (Hnd & Hp & Hc) Hn Hd. unfold walked. split_and!.
  - apply NoDup_app. split_and!; [done| |apply NoDup_singleton]. intros x Hx ->%list_elem_of_singleton. done.
  - intros i x [Hi|[Hl Hi]]%lookup_app_Some; [by apply Hp|]. apply list_lookup_singleton_Some in Hi as [Hi <-]. replace i with (length path) by lia. split; [done|by exists d].
  - rewrite length_app, Nat.add_comm. cbn [length Nat.add]. by rewrite hop_S, Hc.
Qed.

Lemma has_cycle_ok g n fuel current visited path :
  walked g n path current → (∀ x, x ∈ visited ↔ x ∈ path) → (S (size g) ≤ fuel + length path)%nat →
  ∃ b v, validateDialerProxiesHasCycle fuel current g visited path = Some (b, v) ∧ if b then ∀ m, hop g n m ≠ None else ∃ m, hop g n m = None.
Proof.
  revert current visited path. induction fuel as [|fuel IH]; intros current visited path Hw Hv Hf.
  { exfalso. destruct Hw as (Hnd & Hp & _). assert (path ⊆+ elements (dom g)) as Hs.
    { apply NoDup_submseteq; [done|]. intros x Hx. apply elem_of_elements, elem_of_dom. apply list_elem_of_lookup in Hx as [i Hi]. by apply (Hp i). }
    apply submseteq_length in Hs. change (length (elements (dom g))) with (size (dom g)) in Hs. rewrite size_dom in Hs. lia. }
  cbn [validateDialerProxiesHasCycle]. case_bool_decide as Hin.
  { eexists _, _. split; [done|]. cbn. destruct Hw as (_ & Hp & Hc). apply list_elem_of_lookup in Hin as [i Hi]. destruct (Hp i _ Hi) as [Hi' _].
    apply (hop_forever g n i (length path) current); [by apply lookup_lt_Some in Hi|done|done]. }
  rewrite bool_decide_false by (by rewrite Hv). destruct (g !! current) as [d|] eqn:Ed.
  - apply IH; [by apply walked_step|intros y; rewrite elem_of_union, elem_of_singleton, elem_of_app, list_elem_of_singleton, Hv; tauto|rewrite length_app; cbn; lia].
  - eexists _, _. split; [done|]. cbn. exists (S (length path)). rewrite hop_S. destruct Hw as (_ & _ & ->). done.
Qed.

Lemma has_cycle_start g n : ∃ b v, validateDialerProxiesHasCycle (S (size g)) n g ∅ [] = Some (b, v) ∧ if b then ∀ m, hop g n m ≠ None else ∃ m, hop g n m = None.
Proof. apply has_cycle_ok; [|set_solver|cbn; lia]. unfold walked. split_and!; [apply NoDup_nil_2|done|done]. Qed.

Lemma check_cycles_ok g names :
  match check_cycles names g with
  | None => False
  | Some (Ok _) => ∀ n, n ∈ names → ∃ m, hop g n m = None
  | Some (Err (DialerCycle n)) => n ∈ names ∧ ∀ m, hop g n m ≠ None
  | Some (Err _) => False
  end.
Proof.
  induction names as [|a names IH]; [cbn; intros n Hn; by apply not_elem_of_nil in Hn|]. cbn [check_cycles].
  destruct (has_cycle_start g a) as (b & v & -> & Hb). cbn [mbind option_bind]. destruct b; [split; [by left|done]|].
  destruct (check_cycles names g) as [[[]|[]]|]; [|done| |done]; [intros n [->|Hn]%elem_of_cons; [done|by apply IH]|]. destruct IH as [? ?]. split; [by right|done].
Qed.

Definition references (proxies : gmap string string) : gmap string string := filter (λ nd, nd.2 ≠ "") proxies.

Lemma collect_ok (proxies g : gmap string string) names :
  (∀ n, n ∈ names → is_Some (proxies !! n)) →
  match collect names proxies g with
  | None => False
  | Some (Ok g') =>
      (∀ n, g' !! n = if decide (n ∈ names ∧ is_Some (references proxies !! n)) then references proxies !! n else g !! n)
      ∧ ∀ n d, n ∈ names → references proxies !! n = Some d → is_Some (proxies !! d)
  | Some (Err (DialerNotFound n d)) => references proxies !! n = Some d ∧ proxies !! d = None
  | Some (Err _) => False
  end.
Proof.
  revert g. induction names as [|a names IH]; intros g Hn.
  { cbn. split; [|intros n d H; by apply not_elem_of_nil in H]. intros n. rewrite decide_False; [done|]. intros [H _]. by apply not_elem_of_nil in H. }
  cbn [collect]. destruct (Hn a ltac:(by left)) as [d Hd]. rewrite Hd. cbn [mbind option_bind].
  assert (references proxies !! a = if decide (d ≠ "") then Some d else None) as Ha.
  { unfold references. case_decide as E; [by apply map_lookup_filter_Some|]. apply map_lookup_filter_None. right. intros x Hx. rewrite Hd in Hx. injection Hx as <-. intros H; by apply H. }
  case_bool_decide as E; [rewrite decide_True in Ha by done|rewrite decide_False in Ha by (by intros ?)].
  - destruct (proxies !! d) as [d'|] eqn:Ed; [|done]. specialize (IH (<[a := d]> g) ltac:(intros n H; apply Hn; by right)).
    destruct (collect names proxies (<[a := d]> g)) as [[g'|[]]|]; [|done|done|done]. destruct IH as [I1 I2]. split.
    + intros n. rewrite I1. destruct (decide (n = a)) as [->|Hne].
      * rewrite (decide_True (P := a ∈ a :: names ∧ _)) by (split; [by left|by rewrite Ha]). rewrite Ha, lookup_insert_eq. by case_decide.
      * rewrite lookup_insert_ne by done. apply decide_ext. rewrite elem_of_cons. tauto.
    + intros n e [->|Hs]%elem_of_cons Hr; [rewrite Ha in Hr; simplify_eq; by exists d'|by apply (I2 n)].
  - specialize (IH g ltac:(intros n H; apply Hn; by right)). destruct (collect names proxies g) as [[g'|[]]|]; [|done|done|done]. destruct IH as [I1 I2]. split.
    + intros n. rewrite I1. apply decide_ext. rewrite elem_of_cons. split; [tauto|]. intros [[->|?] Hs]; [rewrite Ha in Hs; by destruct Hs|done].
    + intros n e [->|Hs]%elem_of_cons Hr; [by rewrite Ha in Hr|by apply (I2 n)].
Qed.

Context (shuffle_perm : ∀ l, shuffle l ≡ₚ l).

Lemma shuffle_keys {A} (m : gmap string A) n : n ∈ shuffle (fst <$> map_to_list m) ↔ is_Some (m !! n).
Proof.
  rewrite shuffle_perm, list_elem_of_fmap. split; [intros ([k x] & -> & H%elem_of_map_to_list); by exists x|].
  intros [x H]. exists (n, x). by rewrite elem_of_map_to_list.
Qed.

(** [validateDialerProxies] accepts exactly the proxies whose chains end: it always returns (the search never
    exceeds the number of references); acceptance means that every dialer proxy named exists and that following
    dialer proxies from any proxy ends; a reference reported as missing is one, and from a proxy reported as
    circular the chain never ends. *)
Theorem dialer_chains_end (proxies : gmap string string) :
  match validateDialerProxies proxies with
  | None => False
  | Some (Ok _) => (∀ n d, references proxies !! n = Some d → is_Some (proxies !! d)) ∧ ∀ n, ∃ m, hop (references proxies) n m = None
  | Some (Err (DialerNotFound n d)) => references proxies !! n = Some d ∧ proxies !! d = None
  | Some (Err (DialerCycle n)) => is_Some (references proxies !! n) ∧ ∀ m, hop (references proxies) n m ≠ None
  end.
Proof.
  unfold validateDialerProxies. pose proof (collect_ok proxies ∅ (shuffle (fst <$> map_to_list proxies)) ltac:(intros n; apply shuffle_keys)) as H.
  destruct (collect _ proxies ∅) as [[g|[]]|]; cbn [mbind option_bind]; [|exact H|done|done]. destruct H as [Hg Hex].
  assert (∀ n, is_Some (references proxies !! n) → is_Some (proxies !! n)) as Hsub.
  { intros n [d Hd]. unfold references in Hd. apply map_lookup_filter_Some in Hd as [Hd _]. by exists d. }
  assert (g = references proxies) as ->.
  { apply map_eq. intros n. rewrite Hg, lookup_empty. case_decide as E; [done|]. symmetry. apply eq_None_not_Some. intros Hs. apply E. split; [|done]. apply shuffle_keys. by apply Hsub. }
  pose proof (check_cycles_ok (references proxies) (shuffle (fst <$> map_to_list (references proxies)))) as Hc.
  destruct (check_cycles _ _) as [[[]|[]]|]; [|done| |done].
  - split; [intros n d Hr; apply (Hex n); [apply shuffle_keys, Hsub; by exists d|done]|]. intros n. destruct (references proxies !! n) as [d|] eqn:Ed.
    + apply Hc, shuffle_keys. by exists d.
    + exists 1%nat. rewrite hop_S. cbn. done.
  - destruct Hc as [Hc ?]. split; [by apply shuffle_keys in Hc|done].
Qed.
End dialer.

(** ** Examples *)

Definition demo_decode (d : string * list string) : result string (string * list string) := if bool_decide (d.1 = "") then Err "key 'name' missing" else Ok d.

Definition demo_groups : list (string * list string) := [("top", ["mid"; "direct"; "mid"]); ("low", ["direct"]); ("mid", ["low"; "direct"])].
Definition demo_loop : list (string * list string) := [("top", ["a"]); ("a", ["b"; "direct"]); ("b", ["a"; "low"]); ("low", ["direct"])].

(** A configuration that is sorted and one with a loop. *)
Lemma dag_sort_correct_witness :
  proxyGroupsDagSort demo_decode reverse demo_groups = Some (Ok [("low", ["direct"]); ("mid", ["low"; "direct"]); ("top", ["mid"; "direct"; "mid"])])
  ∧ proxyGroupsDagSort demo_decode reverse demo_loop = Some (Err (LoopDetected ["b"; "a"]))
  ∧ loop_report demo_decode demo_loop ["b"; "a"].
Proof.
  split; [vm_compute; reflexivity|]. split; [vm_compute; reflexivity|].
  pose proof (dag_sort_correct demo_decode reverse (λ l, reverse_Permutation l) demo_loop) as H.
  assert (proxyGroupsDagSort demo_decode reverse demo_loop = Some (Err (LoopDetected ["b"; "a"]))) as E by (vm_compute; reflexivity).
  rewrite E in H. exact (proj1 H).
Defined.

Definition demo_proxies : gmap string string := {[ "a" := "b"; "b" := "c"; "c" := "" ]}.

(** A chain of three, and a chain that bites its tail. *)
Lemma dialer_chains_end_witness :
  validateDialerProxies reverse demo_proxies = Some (Ok tt) ∧ (∃ m, hop (references demo_proxies) "a" m = None)
  ∧ validateDialerProxies reverse (<["c" := "a"]> demo_proxies) ≠ Some (Ok tt).
Proof.
  split; [vm_compute; reflexivity|]. split; [|vm_compute; discriminate].
  pose proof (dialer_chains_end reverse (λ l, reverse_Permutation l) demo_proxies) as H.
  assert (validateDialerProxies reverse demo_proxies = Some (Ok tt)) as E by (vm_compute; reflexivity). rewrite E in H. exact (proj2 H "a").
Defined.
