(* ===== verification/DomainSet.v ===== *)
(** * [component/trie/domain_set.go], [domain_set_bin.go]: the succinct set of domains

    Patterns, reversed and sorted, become a tree of bytes that is stored level by
    level in three arrays: a bit per node that says whether a key ends there, the
    bytes on the edges, and a bitmap with a 0 for each edge and a 1 at the end of
    each node.  Bitmaps are lists of 64-bit words.  An index that is out of range is
    a panic, [None]; so is the end of the fuel, which the theory rules out. *)

From Stdlib Require Import ZArith Lia Ascii.
From stdpp Require Import base list strings numbers sorting.
From S2P Require Import Prelude GoStrings GoNet GoIO DomainTrie.
#[local] Open Scope string_scope.
#[local] Open Scope list_scope.
#[local] Open Scope Z_scope.

Definition complexWildcardByte : ascii := "+".
Definition wildcardByte : ascii := "*".
Definition domainStepByte : ascii := ".".

(** ** [utils.Reverse]

    The runes of a string, as the bytes they are written with; a byte that does not
    belong to a valid sequence becomes the replacement character. *)

Definition within (lo hi : Z) (c : ascii) : bool := (lo <=? byte_val c) && (byte_val c <=? hi).

(** The length of a sequence and the range of its second byte, from its first byte. *)
Definition rune_shape (c : ascii) : option (nat * (Z * Z)) :=
  let b := byte_val c in
  if (b <? 128) then Some (1%nat, (0, 0))
  else if within 194 223 c then Some (2%nat, (128, 191))
  else if (b =? 224) then Some (3%nat, (160, 191))
  else if (b =? 237) then Some (3%nat, (128, 159))
  else if within 225 239 c then Some (3%nat, (128, 191))
  else if (b =? 240) then Some (4%nat, (144, 191))
  else if within 241 243 c then Some (4%nat, (128, 191))
  else if (b =? 244) then Some (4%nat, (128, 143))
  else None.

Definition rune_error : list ascii := byte_of <$> [239; 191; 189].

(** The first rune and how many bytes it takes. *)
Definition decode_rune (s : list ascii) : list ascii * nat :=
  match s with
  | [] => ([], O)
  | c :: rest =>
      match rune_shape c with
      | None => (rune_error, 1%nat)
      | Some (n, (lo, hi)) =>
          let tail_ok := match take (n - 1) rest with
                         | [] => true
                         | second :: more => within lo hi second && forallb (within 128 191) more
                         end in
          if (n <=? length s)%nat && tail_ok then (take n s, n) else (rune_error, 1%nat)
      end
  end.

Fixpoint runes (fuel : nat) (s : list ascii) : list (list ascii) :=
  match fuel, s with
  | O, _ | _, [] => []
  | S fuel, _ => let '(r, n) := decode_rune s in r :: runes fuel (drop n s)
  end.

Definition Reverse (s : string) : string := of_bytes (concat (rev (runes (String.length s) (bytes s)))).

(** ** Bitmaps *)

(** An element of a slice. *)
Definition at_ {A} (l : list A) (i : Z) : option A := if i <? 0 then None else l !! Z.to_nat i.

Definition word_mask : Z := 2 ^ 64.

Definition setBit (bm : list Z) (i : Z) (v : Z) : list Z :=
  let k := Z.to_nat (Z.shiftr i 6) in
  let bm := bm ++ replicate (S k - length bm) 0 in
  match bm !! k with
  | Some w => <[k := Z.lor w (Z.shiftl v (Z.land i 63) `mod` word_mask)]> bm
  | None => bm
  end.

Definition getBit (bm : list Z) (i : Z) : option Z :=
  w ← at_ bm (Z.shiftr i 6); Some (Z.land w (Z.shiftl 1 (Z.land i 63))).

(** The rank and select indexes come from a library: what it counts before a bit and
    where it finds a bit, for bitmaps of words and indexes within them. *)
Definition bit_at (bm : list Z) (i : nat) : bool := Z.testbit (nth (i / 64) bm 0) (Z.of_nat (i mod 64)).
Definition ones (bm : list Z) (i : nat) : nat := length (filter (λ j, bit_at bm j = true) (seq 0 i)).

Definition int32_ (x : Z) : Z := (x + 2 ^ 31) `mod` 2 ^ 32 - 2 ^ 31.

Class Bitmap := {
  IndexSelect32R64 : list Z → list Z * list Z;
  Rank64 : list Z → list Z → Z → option Z;
  Select32R64 : list Z → list Z → list Z → Z → option Z;
}.

Class BitmapLaws `{Bitmap} := {
  rank_counts : ∀ bm i, Forall (unsigned_ok 64) bm → (i < 64 * length bm)%nat → Z.of_nat (64 * length bm) < 2 ^ 31 →
    Rank64 bm (IndexSelect32R64 bm).2 (Z.of_nat i) = Some (Z.of_nat (ones bm i));
  select_finds : ∀ bm p, Forall (unsigned_ok 64) bm → bit_at bm p = true → Z.of_nat (64 * length bm) < 2 ^ 31 →
    Select32R64 bm (IndexSelect32R64 bm).1 (IndexSelect32R64 bm).2 (Z.of_nat (ones bm p)) = Some (Z.of_nat p);
}.

Record DomainSet := mkSet { leaves : list Z; labelBitmap : list Z; labels : list ascii; ranks : list Z; selects : list Z }.

Definition countZeros `{Bitmap} (ss : DomainSet) (i : Z) : option Z := a ← Rank64 (labelBitmap ss) (ranks ss) (int32_ i); Some (i - a).
Definition selectIthOne `{Bitmap} (ss : DomainSet) (i : Z) : option Z := Select32R64 (labelBitmap ss) (selects ss) (ranks ss) (int32_ i).

Definition init `{Bitmap} (ls bm : list Z) (lb : list ascii) : DomainSet :=
  let '(sel, rk) := IndexSelect32R64 bm in mkSet ls bm lb rk sel.

(** ** Building *)

Definition qElt : Type := Z * Z.

(** [sort.Strings] and [slices.Compact]. *)
Fixpoint str_le (a b : list ascii) : bool :=
  match a, b with
  | [], _ => true
  | _ :: _, [] => false
  | x :: a, y :: b => (byte_val x <? byte_val y) || (bool_decide (x = y) && str_le a b)
  end.

Fixpoint Compact {A} `{EqDecision A} (l : list A) : list A :=
  match l with
  | [] => []
  | x :: l => match Compact l with
              | y :: l' => if decide (x = y) then y :: l' else x :: y :: l'
              | [] => [x]
              end
  end.

Definition str_leq (a b : list ascii) : Prop := str_le a b = true.
#[export] Instance str_leq_dec a b : Decision (str_leq a b).
Proof. unfold str_leq. apply _. Defined.

Definition Strings (keys : list (list ascii)) : list (list ascii) := merge_sort str_leq keys.

(** What the loops write. *)
Record building := mkB { b_leaves : list Z; b_bitmap : list Z; b_labels : list ascii; lIdx : Z; nodeID : Z; next : list qElt; terminals : list (list ascii) }.

Section build.
Context (keys : list (list ascii)).

Definition key_byte (j col : Z) : option ascii := k ← at_ keys j; at_ k col.

(** The end of a run of keys with the same byte in a column. *)
Fixpoint run_end (fuel : nat) (j e col : Z) (c : ascii) : option Z :=
  match fuel with
  | O => None
  | S fuel =>
      if j <? e then
        d ← key_byte j col;
        if decide (d = c) then run_end fuel (j + 1) e col c else Some j
      else Some j
  end.

(** The edges of a node. *)
Fixpoint edges_loop (fuel : nat) (j e col : Z) (b : building) : option building :=
  match fuel with
  | O => None
  | S fuel =>
      if j <? e then
        c ← key_byte j col;
        j' ← run_end (S (Z.to_nat (e - j))) j e col c;
        edges_loop fuel j' e col
          (mkB (b_leaves b) (setBit (b_bitmap b) (lIdx b) 0) (b_labels b ++ [c]) (lIdx b + 1) (nodeID b) (next b ++ [(j, j')]) (terminals b))
      else Some b
  end.

(** One node of the queue. *)
Definition node_step (col : Z) (elt : qElt) (b : building) : option building :=
  let '(s, e) := elt in
  k ← at_ keys s;
  let terminal := bool_decide (col = Z.of_nat (length k)) in
  let s := if terminal then s + 1 else s in
  let b := if terminal then mkB (setBit (b_leaves b) (nodeID b) 1) (b_bitmap b) (b_labels b) (lIdx b) (nodeID b) (next b) (terminals b ++ [k]) else b in
  b ← edges_loop (S (Z.to_nat (e - s))) s e col b;
  Some (mkB (b_leaves b) (setBit (b_bitmap b) (lIdx b) 1) (b_labels b) (lIdx b + 1) (nodeID b + 1) (next b) (terminals b)).

Fixpoint level (col : Z) (queue : list qElt) (b : building) : option building :=
  match queue with
  | [] => Some b
  | elt :: queue => b ← node_step col elt b; level col queue b
  end.

(** [for col := 0; len(queue) > 0; col++]. *)
Fixpoint levels (fuel : nat) (col : Z) (queue : list qElt) (b : building) : option building :=
  match queue with
  | [] => Some b
  | _ => match fuel with
         | O => None
         | S fuel =>
             b ← level col queue b;
             levels fuel (col + 1) (next b) (mkB (b_leaves b) (b_bitmap b) (b_labels b) (lIdx b) (nodeID b) [] (terminals b))
         end
  end.
End build.

Definition longest (keys : list (list ascii)) : nat := foldr (λ k m, Nat.max (length k) m) O keys.

(** The set, and the keys [onTerminal] is called with, in order.  [Some None] is a nil set. *)
Definition buildDomainSet `{Bitmap} (keys : list string) : option (option (DomainSet * list string)) :=
  if bool_decide (length keys = O) then Some None
  else
    let keys := Compact (Strings (bytes <$> keys)) in
    b ← levels keys (S (longest keys)) 0 [(0, Z.of_nat (length keys))] (mkB [] [] [] 0 0 [] []);
    Some (Some (init (b_leaves b) (b_bitmap b) (b_labels b), of_bytes <$> terminals b)).

(** The builder: the keys collected, newest last.  [parts[1:]] of a [+.] pattern is inserted before it;
    a leading empty label is written as [+]. *)
Definition builder_insert (keys : list string) (parts : list string) : list string :=
  match parts with
  | first :: rest => keys ++ [Reverse (joinDomain ((if decide (first = dotWildcard) then complexWildcard else first) :: rest))]
  | [] => keys
  end.

Definition Builder_Insert `{UnicodeCase} (keys : list string) (domain : string) : result domain_error (list string) :=
  let! parts := ValidAndSplitDomain domain in
  match parts with
  | first :: rest =>
      if decide (first = complexWildcard) then Ok (builder_insert (builder_insert keys rest) parts)
      else Ok (builder_insert keys parts)
  | [] => Ok keys
  end.

Definition Build `{Bitmap} (keys : list string) : option (option DomainSet) := r ← buildDomainSet keys; Some (option_map fst r).

(** [NewDomainSet] of a trie: the domains in the order the trie lists them. *)
Definition trie_key (domain : string) : option string :=
  match domain with
  | EmptyString => None
  | String c _ => Some (Reverse (if decide (c = domainStepByte) then complexWildcard +:+ domain else domain))
  end.

Definition NewDomainSet {T} `{Bitmap} (t : Node T) : option (option DomainSet) :=
  keys ← mapM trie_key (Foreach t (λ _, true)).*1; Build keys.

(** ** Asking *)

(** [revLowerAt] for every index: the key from its end, in lower case. *)
Definition revLower (key : string) : list ascii := lower_byte <$> rev (bytes key).

Definition byteReverse (s : string) : string := of_bytes (rev (bytes s)).

Definition normalize `{UnicodeCase} (key : string) : string :=
  if all_ascii key then key else byteReverse (ToLower (Reverse key)).

Record wildcardCursor := mkCursor { c_bmIdx : Z; c_index : Z }.

Section has.
Context `{Bitmap} (ss : DomainSet) (key : list ascii).

(** The first dot from an index on. *)
Fixpoint skip_label (rest : list ascii) (j : Z) : Z :=
  match rest with
  | c :: rest => if decide (c = domainStepByte) then j else skip_label rest (j + 1)
  | [] => j
  end.

(** The dot among the edges of a node. *)
Fixpoint find_dot (fuel : nat) (nextNodeId nextBmIdx : Z) : option (option Z) :=
  match fuel with
  | O => None
  | S fuel =>
      b ← getBit (labelBitmap ss) nextBmIdx;
      if b =? 0 then
        l ← at_ (labels ss) (nextBmIdx - nextNodeId);
        if decide (l = domainStepByte) then Some (Some nextBmIdx) else find_dot fuel nextNodeId (nextBmIdx + 1)
      else Some None
  end.

Inductive backed := Answer (b : bool) | Restart (bmIdx nodeId i : Z) (stack : list wildcardCursor).

(** Back to a wildcard met before; the newest is the head of the stack. *)
Fixpoint back (stack : list wildcardCursor) : option backed :=
  match stack with
  | [] => Some (Answer false)
  | cursor :: stack =>
      nextNodeId ← countZeros ss (c_bmIdx cursor + 1);
      let j := skip_label (drop (Z.to_nat (c_index cursor)) key) (c_index cursor) in
      if j =? Z.of_nat (length key) then
        l ← getBit (leaves ss) nextNodeId;
        if l =? 0 then back stack else Some (Answer true)
      else
        p ← selectIthOne ss (nextNodeId - 1);
        r ← find_dot (S (length (labels ss))) nextNodeId (p + 1);
        match r with
        | Some nextBmIdx => Some (Restart nextBmIdx nextNodeId j stack)
        | None => back stack
        end
  end.

(** The label [RESTART] and the loop below it. *)
Fixpoint scan (fuel : nat) (i nodeId bmIdx : Z) (stack : list wildcardCursor) : option bool :=
  match fuel with
  | O => None
  | S fuel =>
      c ← at_ key i;
      bit ← getBit (labelBitmap ss) bmIdx;
      if negb (bit =? 0) then
        r ← back stack;
        match r with
        | Answer b => Some b
        | Restart bmIdx nodeId i stack => scan fuel i nodeId bmIdx stack
        end
      else
        l ← at_ (labels ss) (bmIdx - nodeId);
        if decide (l = complexWildcardByte) then Some true
        else if decide (l = wildcardByte) then scan fuel i nodeId (bmIdx + 1) (mkCursor bmIdx i :: stack)
        else if decide (l = c) then
          let nodeId := bmIdx - nodeId + 1 in
          if i =? Z.of_nat (length key) - 1 then
            leaf ← getBit (leaves ss) nodeId;
            if negb (leaf =? 0) then Some true
            else match stack with
                 | [] => Some false
                 | _ => bmIdx ← selectIthOne ss nodeId; scan fuel i nodeId bmIdx stack
                 end
          else p ← selectIthOne ss (nodeId - 1); scan fuel (i + 1) nodeId (p + 1) stack
        else scan fuel i nodeId (bmIdx + 1) stack
  end.
End has.

Definition Has `{Bitmap} `{UnicodeCase} (ss : option DomainSet) (key : string) : option bool :=
  match ss with
  | None => Some false
  | Some ss =>
      let key := revLower (normalize key) in
      match key with
      | [] => l ← getBit (leaves ss) 0; Some (negb (l =? 0))
      | _ => scan ss key (2 * length (labels ss) + 2) 0 0 0 []
      end
  end.

Definition MatchDomain `{Bitmap} `{UnicodeCase} (ss : option DomainSet) (domain : string) : option bool := Has ss domain.

(** ** Listing *)

Section keys.
Context `{Bitmap} (ss : DomainSet) (f : list (list ascii) → bool).

(** The keys met so far, and whether to go on; [f] sees all of them, the last one last. *)
Fixpoint traverse (fuel : nat) (nodeId bmIdx : Z) (currentKey : list ascii) (log : list (list ascii)) : option (list (list ascii) * bool) :=
  match fuel with
  | O => None
  | S fuel =>
      leaf ← getBit (leaves ss) nodeId;
      let log' := if leaf =? 0 then log else log ++ [currentKey] in
      if negb (leaf =? 0) && negb (f log') then Some (log', false)
      else
        (fix loop (n : nat) (bmIdx : Z) (log : list (list ascii)) : option (list (list ascii) * bool) :=
           match n with
           | O => None
           | S n =>
               bit ← getBit (labelBitmap ss) bmIdx;
               if negb (bit =? 0) then Some (log, true)
               else
                 nextLabel ← at_ (labels ss) (bmIdx - nodeId);
                 let nextNodeId := bmIdx - nodeId + 1 in
                 p ← selectIthOne ss (nextNodeId - 1);
                 '(log, ok) ← traverse fuel nextNodeId (p + 1) (currentKey ++ [nextLabel]) log;
                 if (ok : bool) then loop n (bmIdx + 1) log else Some (log, false)
           end) (S (length (labels ss))) bmIdx log'
  end.
End keys.

Definition keys_ `{Bitmap} (ss : DomainSet) (f : list (list ascii) → bool) : option (list (list ascii)) :=
  '(log, _) ← traverse ss f (S (length (labels ss))) 0 0 [] []; Some log.

(** What [Foreach] calls its function with. *)
Definition set_Foreach `{Bitmap} (ss : DomainSet) : option (list string) :=
  ks ← keys_ ss (λ _, true); Some (map (λ k, Reverse (TrimSuffix (of_bytes k) complexWildcard)) ks).

(** ** The binary form *)

(** [binary.Write] and [binary.Read] of a 64-bit number. *)
Definition write64 {A} (x : Z) (k : prog (result io_error A)) : prog (result io_error A) := write (be_bytes 8 (wrap 64 x)) k.
Definition read64 {A} (k : Z → prog (result io_error A)) : prog (result io_error A) := read 8 (λ b, k (be_value b)).

Fixpoint write_words {A} (l : list Z) (k : prog (result io_error A)) : prog (result io_error A) :=
  match l with [] => k | d :: l => write64 d (write_words l k) end.

Fixpoint read_words {A} (n : nat) (k : list Z → prog (result io_error A)) : prog (result io_error A) :=
  match n with O => k [] | S n => read64 (λ d, read_words n (λ l, k (d :: l))) end.

Definition WriteBin (ss : DomainSet) : prog (result io_error unit) :=
  write [1] (
  write64 (Z.of_nat (length (leaves ss))) (write_words (leaves ss) (
  write64 (Z.of_nat (length (labelBitmap ss))) (write_words (labelBitmap ss) (
  write64 (Z.of_nat (length (labels ss))) (
  write (byte_val <$> labels ss) (Ret (Ok tt)))))))).

(** Allocation does not fail here: a length the machine cannot allocate is a panic in the program. *)
Definition ReadDomainSetBin `{Bitmap} : prog (result io_error DomainSet) :=
  read 1 (λ version,
  if bool_decide (version ≠ [1]) then fail "version is invalid" else
  read64 (λ n, if i64 n <? 1 then fail "length is invalid" else
  read_words (Z.to_nat n) (λ ls,
  read64 (λ n, if i64 n <? 1 then fail "length is invalid" else
  read_words (Z.to_nat n) (λ bm,
  read64 (λ n, if i64 n <? 1 then fail "length is invalid" else
  read (Z.to_nat n) (λ lb, Ret (Ok (init ls bm (byte_of <$> lb)))))))))).

(** ** A concrete index: no tables, the bits are counted each time *)

#[local] Instance counting : Bitmap := {|
  IndexSelect32R64 := λ _, ([], []);
  Rank64 := λ bm _ i, if (0 <=? i) && (i <? Z.of_nat (64 * length bm)) then Some (Z.of_nat (ones bm (Z.to_nat i))) else None;
  Select32R64 := λ bm _ _ i, Z.of_nat <$> head (filter (λ p, bit_at bm p = true ∧ Z.of_nat (ones bm p) = i) (seq 0 (64 * length bm))) |}.
