(* ===== verification/DomainSetTheory.v ===== *)
(** * The succinct set of domains is the set of its patterns

    A node of the tree is the list of what remains of the keys below it.  The three
    arrays list the nodes level by level; the loop of [Has] is followed through them,
    and its answer is compared with matching each pattern on its own. *)

From Stdlib Require Import ZArith Lia Ascii.
From stdpp Require Import base list strings numbers sorting.
From S2P Require Import Prelude GoStrings GoIO DomainTrie DomainSet.
#[local] Open Scope string_scope.
#[local] Open Scope list_scope.

(** ** Bitmaps of words *)

Lemma shiftr6 n : Z.to_nat (Z.shiftr (Z.of_nat n) 6) = (n / 64)%nat.
Proof. rewrite Z.shiftr_div_pow2 by lia. change (2 ^ 6)%Z with (Z.of_nat 64). rewrite <- Nat2Z.inj_div. lia. Qed.

Lemma land63 n : Z.land (Z.of_nat n) 63 = Z.of_nat (n mod 64).
Proof. change 63%Z with (Z.ones 6). rewrite Z.land_ones by lia. change (2 ^ 6)%Z with (Z.of_nat 64). rewrite <- Nat2Z.inj_mod. done. Qed.

Definition words (bm : list Z) : Prop := Forall (unsigned_ok 64) bm.

Lemma shiftl_mask (b : bool) n : (Z.shiftl (if b then 1 else 0) (Z.of_nat (n mod 64)) `mod` word_mask = if b then 2 ^ Z.of_nat (n mod 64) else 0)%Z.
Proof.
  pose proof (Nat.mod_upper_bound n 64). unfold word_mask. destruct b; [|by rewrite Z.shiftl_0_l]. rewrite Z.shiftl_1_l. apply Z.mod_small.
  split; [apply Z.pow_nonneg; lia|apply Z.pow_lt_mono_r; lia].
Qed.

Lemma word_lor w n (b : bool) : unsigned_ok 64 w → unsigned_ok 64 (Z.lor w (if b then 2 ^ Z.of_nat (n mod 64) else 0)).
Proof.
  intros [H0 H1]. assert (0 ≤ if b then 2 ^ Z.of_nat (n mod 64) else 0)%Z as Hp by (destruct b; [apply Z.pow_nonneg; lia|lia]).
  assert ((if b then 2 ^ Z.of_nat (n mod 64) else 0) < 2 ^ 64)%Z as Hq.
  { pose proof (Nat.mod_upper_bound n 64). destruct b; [apply Z.pow_lt_mono_r; lia|lia]. }
  split; [by apply Z.lor_nonneg|]. apply Z.log2_lt_cancel. rewrite Z.log2_lor by done. rewrite (Z.log2_pow2 64) by lia.
  assert (∀ z, 0 ≤ z < 2 ^ 64 → Z.log2 z < 64)%Z as Hl by (intros z [Hz Hz']; destruct (decide (z = 0)%Z) as [->|]; [cbn; lia|apply Z.log2_lt_pow2; lia]).
  apply Z.max_lub_lt; apply Hl; lia.
Qed.

Lemma setBit_spec bm n (b : bool) :
  words bm →
  let bm' := setBit bm (Z.of_nat n) (if b then 1 else 0)%Z in
  words bm' ∧ length bm' = Nat.max (length bm) (S (n / 64)) ∧ ∀ j, bit_at bm' j = (bool_decide (j = n) && b) || bit_at bm j.
Proof.
  intros Hw. unfold setBit. rewrite shiftr6, land63, shiftl_mask. set (k := (n / 64)%nat). set (bm0 := bm ++ replicate (S k - length bm) 0%Z).
  assert (length bm0 = Nat.max (length bm) (S k)) as Hl by (unfold bm0; rewrite length_app, length_replicate; lia).
  assert (words bm0) as Hw0. { apply Forall_app. split; [done|]. apply Forall_replicate. unfold unsigned_ok. lia. }
  assert (∀ i, nth i bm0 0%Z = nth i bm 0%Z) as Hn.
  { intros i. unfold bm0. destruct (decide (i < length bm)%nat); [by rewrite app_nth1|]. rewrite app_nth2, (nth_overflow bm) by lia. rewrite nth_lookup. destruct (replicate _ _ !! _) eqn:E; [|done]. by apply lookup_replicate in E as [-> _]. }
  destruct (lookup_lt_is_Some_2 bm0 k ltac:(lia)) as [w Hk]. rewrite Hk.
  assert (unsigned_ok 64 w) as Hww by (by eapply Forall_lookup_1 in Hw0).
  assert (nth k bm 0%Z = w) as Hkw by (rewrite <- Hn; by apply nth_lookup_Some).
  split_and!.
  - apply Forall_insert; [done|]. by apply word_lor.
  - by rewrite length_insert.
  - intros j. unfold bit_at. destruct (decide (j / 64 = k)%nat) as [Ej|Ej].
    + rewrite Ej. erewrite (nth_lookup_Some _ k); [|apply list_lookup_insert_eq; apply lookup_lt_Some in Hk; lia]. rewrite Z.lor_spec, Hkw. rewrite orb_comm. f_equal.
      destruct b; [|by rewrite Z.bits_0, andb_false_r]. rewrite andb_true_r, Z.pow2_bits_eqb by lia. pose proof (Nat.div_mod_eq j 64). pose proof (Nat.div_mod_eq n 64). fold k in H0.
      apply Bool.eq_iff_eq_true. rewrite Z.eqb_eq, bool_decide_eq_true. split; intros; [|congruence]. assert (n mod 64 = j mod 64)%nat by lia. lia.
    + rewrite bool_decide_false by (intros ->; done). cbn. f_equal. rewrite <- Hn. rewrite !nth_lookup. by rewrite list_lookup_insert_ne.
Qed.

Lemma getBit_spec bm n : words bm → (n < 64 * length bm)%nat → ∃ z, getBit bm (Z.of_nat n) = Some z ∧ (z =? 0)%Z = negb (bit_at bm n).
Proof.
  intros Hw Hn. unfold getBit, at_. rewrite (proj2 (Z.ltb_ge _ _)) by (apply Z.shiftr_nonneg; lia). rewrite shiftr6, land63.
  assert (n / 64 < length bm)%nat as Hd by (apply Nat.Div0.div_lt_upper_bound; lia). destruct (lookup_lt_is_Some_2 bm _ Hd) as [w Hk]. rewrite Hk. cbn [mbind option_bind].
  eexists. split; [done|]. unfold bit_at. rewrite (nth_lookup_Some bm _ 0%Z w Hk). rewrite Z.shiftl_1_l. set (m := Z.of_nat (n mod 64)).
  apply Bool.eq_iff_eq_true. rewrite Z.eqb_eq, negb_true_iff. split; intros H.
  - assert (Z.testbit (Z.land w (2 ^ m)) m = false) as Ht by (rewrite H; apply Z.bits_0). rewrite Z.land_spec, Z.pow2_bits_true in Ht by lia. by rewrite andb_true_r in Ht.
  - apply Z.bits_inj_0. intros i. rewrite Z.land_spec. destruct (decide (i = m)) as [->|]; [by rewrite H|]. rewrite Z.pow2_bits_false by lia. apply andb_false_r.
Qed.

(** ** Sorted keys *)

Abbreviation bstr := (list ascii).

Definition slt (a b : bstr) : Prop := str_le a b = true ∧ a ≠ b.

Lemma byte_val_inj c d : byte_val c = byte_val d → c = d.
Proof. intros H. by rewrite <- (byte_of_val c), <- (byte_of_val d), H. Qed.

Lemma str_le_cons c a d b : str_le (c :: a) (d :: b) = true ↔ (byte_val c < byte_val d)%Z ∨ (c = d ∧ str_le a b = true).
Proof. cbn [str_le]. rewrite orb_true_iff, andb_true_iff, bool_decide_eq_true, Z.ltb_lt. done. Qed.

Lemma str_le_refl a : str_le a a = true.
Proof. induction a as [|c a IH]; [done|]. apply str_le_cons. by right. Qed.

#[export] Instance str_leq_trans : Transitive str_leq.
Proof.
  unfold str_leq. intros a. induction a as [|c a IH]; intros b d; [done|]. destruct b as [|b1 b]; [done|]. destruct d as [|d1 d]; [by destruct b|].
  rewrite !str_le_cons. intros [H1|[-> H1]] [H2|[-> H2]]; [left; lia|left; lia|by left|right; split; [done|by apply (IH b)]].
Qed.

#[export] Instance str_leq_total : Total str_leq.
Proof.
  unfold str_leq. intros a. induction a as [|c a IH]; intros b; [by left|]. destruct b as [|d b]; [by right|]. rewrite !str_le_cons.
  destruct (Z.lt_trichotomy (byte_val c) (byte_val d)) as [?|[E|?]]; [by left; left| |by right; left]. apply byte_val_inj in E as ->.
  destruct (IH b); [left; by right|right; by right].
Qed.

Lemma str_le_antisym a b : str_le a b = true → str_le b a = true → a = b.
Proof.
  revert b. induction a as [|c a IH]; intros [|d b]; try done. rewrite !str_le_cons. intros [H1|[-> H1]] [H2|[E H2]]; [lia|subst; lia|lia|]. f_equal. by apply IH.
Qed.

Lemma slt_cons c a b : slt (c :: a) (c :: b) ↔ slt a b.
Proof. unfold slt. rewrite str_le_cons. split; [intros [[?|[_ ?]] Hn]; [lia|split; [done|congruence]]|intros [? ?]; split; [by right|congruence]]. Qed.

Lemma slt_head c a d b : slt (c :: a) (d :: b) → c ≠ d → (byte_val c < byte_val d)%Z.
Proof. unfold slt. rewrite str_le_cons. intros [[?|[? _]] _] ?; done. Qed.

Lemma slt_nil a : ¬ slt a [].
Proof. intros [H Hn]. by destruct a. Qed.

#[export] Instance slt_trans : Transitive slt.
Proof.
  intros a b c [H1 N1] [H2 N2]. split; [by apply (str_leq_trans a b c)|]. intros ->. apply N2. by apply str_le_antisym.
Qed.

Lemma Compact_elem {A} `{EqDecision A} (l : list A) x : x ∈ Compact l ↔ x ∈ l.
Proof.
  induction l as [|y l IH]; [done|]. cbn [Compact]. rewrite elem_of_cons, <- IH. destruct (Compact l) as [|z l']; [by rewrite list_elem_of_singleton, elem_of_nil; split; [auto|intros [?|[]]]|].
  case_decide; [subst; rewrite elem_of_cons; tauto|by rewrite !elem_of_cons].
Qed.

Lemma Compact_sorted (l : list bstr) : StronglySorted str_leq l → StronglySorted slt (Compact l).
Proof.
  induction 1 as [|x l Hs IH Hx]; [constructor|]. cbn [Compact].
  assert (∀ z, z ∈ Compact l → str_leq x z) as Hx' by (intros z Hz; apply (proj1 (Compact_elem l z)) in Hz; rewrite list.Forall_forall in Hx; apply Hx; exact Hz).
  destruct (Compact l) as [|z l']; [by repeat constructor|]. case_decide as E; [done|]. constructor; [done|]. inversion IH as [|? ? Hs' Hz]; subst.
  assert (slt x z) as Hxz by (split; [apply Hx'; by left|done]). constructor; [done|]. eapply list.Forall_impl; [exact Hz|]. intros y Hy. by transitivity z.
Qed.

Lemma Strings_spec keys : StronglySorted slt (Compact (Strings keys)) ∧ ∀ k, k ∈ Compact (Strings keys) ↔ k ∈ keys.
Proof.
  unfold Strings. split.
  - apply Compact_sorted, StronglySorted_merge_sort; apply _.
  - intros k. rewrite Compact_elem. by rewrite merge_sort_Permutation.
Qed.

(** ** The tree *)

(** A node is what remains of the keys below it: a first empty rest is a key that ends here. *)
Abbreviation node := (list bstr).

Definition leafb (L : node) : bool := match L with [] :: _ => true | _ => false end.
Definition strip (L : node) : node := match L with [] :: L => L | _ => L end.

Fixpoint groups (L : node) : list (ascii * node) :=
  match L with
  | [] => []
  | [] :: L => groups L
  | (c :: w) :: L =>
      match groups L with
      | (d, ws) :: gs => if decide (c = d) then (c, w :: ws) :: gs else (c, [w]) :: (d, ws) :: gs
      | [] => [(c, [w])]
      end
  end.

Definition kids (L : node) : list (ascii * node) := groups (strip L).
Definition wf (L : node) : Prop := L ≠ [] ∧ StronglySorted slt L.

Lemma groups_cons c w L :
  groups ((c :: w) :: L) = match groups L with
                           | (d, ws) :: gs => if decide (c = d) then (c, w :: ws) :: gs else (c, [w]) :: (d, ws) :: gs
                           | [] => [(c, [w])]
                           end.
Proof. done. Qed.

Lemma groups_elem L c w : (c :: w) ∈ L ↔ ∃ ws, (c, ws) ∈ groups L ∧ w ∈ ws.
Proof.
  induction L as [|[|d v] L IH]; [split; [intros ?%elem_of_nil; done|intros (? & ?%elem_of_nil & _); done]| |].
  { rewrite elem_of_cons, IH. cbn [groups]. split; [intros [?|?]; done|by right]. }
  rewrite elem_of_cons, IH, groups_cons. destruct (groups L) as [|[e ws] gs].
  - split; [intros [[= -> ->]|(? & ?%elem_of_nil & _)]; [|done]; exists [v]; split; by left|].
    intros (ws & [= -> ->]%list_elem_of_singleton & ->%list_elem_of_singleton). by left.
  - case_decide as E.
    + subst e. split.
      * intros [[= -> ->]|(us & [[= -> ->]|Hu]%elem_of_cons & Hw)]; [exists (v :: ws); split; by left|exists (v :: ws); split; [by left|by right]|exists us; split; [by right|done]].
      * intros (us & [[= -> ->]|Hu]%elem_of_cons & Hw); [|right; exists us; split; [by right|done]]. apply elem_of_cons in Hw as [->|Hw]; [by left|right; exists ws; split; [by left|done]].
    + split.
      * intros [[= -> ->]|(us & Hu & Hw)]; [exists [v]; split; [by left|by left]|exists us; split; [by right|done]].
      * intros (us & [[= -> ->]|Hu]%elem_of_cons & Hw); [apply list_elem_of_singleton in Hw as ->; by left|right; by exists us].
Qed.

Lemma groups_head L d ws gs : groups L = (d, ws) :: gs → ∃ w, (d :: w) ∈ L ∧ ws ≠ [].
Proof.
  intros E. assert (ws ≠ []) as Hne.
  { clear -E. revert d ws gs E. induction L as [|[|c v] L IH]; intros d ws gs E; [done|by eapply IH|]. rewrite groups_cons in E. destruct (groups L) as [|[e us] hs]; [by simplify_eq|]. case_decide; by simplify_eq. }
  destruct ws as [|w ws]; [done|]. exists w. split; [|done]. apply groups_elem. exists (w :: ws). rewrite E. split; by left.
Qed.

Lemma groups_sorted L :
  StronglySorted slt L → Forall (λ w, w ≠ []) L →
  StronglySorted (λ c d, byte_val c < byte_val d)%Z (groups L).*1 ∧ Forall (λ g, wf g.2) (groups L).
Proof.
  intros Hs Hne. induction Hs as [|k L Hs IH Hk]; [split; constructor|]. apply list.Forall_cons in Hne as [Hk0 Hne]. specialize (IH Hne) as [IH1 IH2].
  destruct k as [|c w]; [done|]. rewrite groups_cons. rewrite list.Forall_forall in Hk. destruct (groups L) as [|[d ws] gs] eqn:Eg.
  { split; [repeat constructor|]. constructor; [|constructor]. split; [done|repeat constructor]. }
  cbn [fmap list_fmap fst] in IH1. apply list.Forall_cons in IH2 as [[Hw1 Hw2] IH2]. case_decide as E.
  - subst d. split; [done|]. constructor; [|done]. split; [done|]. constructor; [done|]. apply list.Forall_forall. intros x Hx.
    apply (slt_cons c). apply Hk. apply groups_elem. exists ws. rewrite Eg. split; [by left|done].
  - cbn [fmap list_fmap fst]. destruct (groups_head L d ws gs Eg) as (v & Hv & _). pose proof (slt_head _ _ _ _ (Hk _ Hv) E) as Hlt. split.
    + constructor; [done|]. inversion IH1 as [|? ? _ Hall]; subst. constructor; [done|]. eapply list.Forall_impl; [exact Hall|]. cbn. intros. lia.
    + constructor; [split; [done|repeat constructor]|]. by constructor.
Qed.

Lemma strip_sorted L : StronglySorted slt L → StronglySorted slt (strip L) ∧ Forall (λ w, w ≠ []) (strip L).
Proof.
  intros Hs. destruct Hs as [|[|c w] L Hs Hk]; cbn [strip]; [split; constructor| |].
  - split; [done|]. eapply list.Forall_impl; [exact Hk|]. intros x Hx ->. by apply slt_nil in Hx.
  - split; [by constructor|]. constructor; [done|]. eapply list.Forall_impl; [exact Hk|]. intros x Hx ->. by apply slt_nil in Hx.
Qed.

Lemma kids_sorted L : wf L → StronglySorted (λ c d, byte_val c < byte_val d)%Z (kids L).*1 ∧ Forall (λ g, wf g.2) (kids L).
Proof. intros [_ Hs]. destruct (strip_sorted L Hs) as [H1 H2]. by apply groups_sorted. Qed.

Lemma kids_elem L c w : (c :: w) ∈ L ↔ ∃ ws, (c, ws) ∈ kids L ∧ w ∈ ws.
Proof. unfold kids. rewrite <- groups_elem. destruct L as [|[|d v] L]; cbn [strip]; [done| |done]. rewrite elem_of_cons. split; [intros [?|?]; done|by right]. Qed.

Lemma leafb_elem L : wf L → leafb L = true ↔ [] ∈ L.
Proof.
  intros [_ Hs]. destruct Hs as [|[|c w] L Hs Hk]; cbn [leafb]; [split; [done|intros ?%elem_of_nil; done]|split; [by left|done]|].
  split; [done|]. intros [?|Hin]%elem_of_cons; [done|]. rewrite list.Forall_forall in Hk. by apply Hk, slt_nil in Hin.
Qed.

(** ** Level by level *)

(** A node with the bytes that lead to it. *)
Abbreviation pnode := (bstr * node)%type.

Definition kidsP (n : pnode) : list pnode := (λ g, (n.1 ++ [g.1], g.2)) <$> kids n.2.
Definition section (n : pnode) : list bool := replicate (length (kids n.2)) false ++ [true].
Definition terminal (n : pnode) : option bstr := if leafb n.2 then Some n.1 else None.

(** A bitmap of words that holds a list of bits. *)
Definition rep (bm : list Z) (bits : list bool) : Prop :=
  words bm ∧ (length bits ≤ 64 * length bm < length bits + 64)%nat ∧ ∀ j, bit_at bm j = nth j bits false.

(** A bitmap whose zeros at the end may be missing. *)
Definition rep_ones (bm : list Z) (bits : list bool) : Prop := words bm ∧ (64 * length bm < length bits + 64)%nat ∧ ∀ j, bit_at bm j = nth j bits false.

Lemma nth_snoc (l : list bool) x j : nth j (l ++ [x]) false = (bool_decide (j = length l) && x) || nth j l false.
Proof.
  destruct (decide (j < length l)%nat); [rewrite app_nth1, bool_decide_false by lia; done|]. rewrite (nth_overflow l) by lia. rewrite app_nth2 by lia. rewrite orb_false_r.
  destruct (decide (j = length l)) as [->|]; [by rewrite bool_decide_true, Nat.sub_diag|]. rewrite bool_decide_false by done. apply nth_overflow. cbn. lia.
Qed.

Lemma rep_snoc bm bits (b : bool) : rep bm bits → rep (setBit bm (Z.of_nat (length bits)) (if b then 1 else 0)%Z) (bits ++ [b]).
Proof.
  intros (Hw & Hl & Hb). destruct (setBit_spec bm (length bits) b Hw) as (Hw' & Hl' & Hb'). split_and!; [done| | |].
  1,2: rewrite Hl', length_app; cbn [length]; pose proof (Nat.div_mod_eq (length bits) 64); pose proof (Nat.mod_upper_bound (length bits) 64); lia.
  intros j. by rewrite Hb', Hb, nth_snoc.
Qed.

Lemma rep_ones_true bm bits : rep_ones bm bits → rep_ones (setBit bm (Z.of_nat (length bits)) 1) (bits ++ [true]).
Proof.
  intros (Hw & Hl & Hb). destruct (setBit_spec bm (length bits) true Hw) as (Hw' & Hl' & Hb'). split; [done|]. split; [|intros j; by rewrite Hb', Hb, nth_snoc].
  rewrite Hl', length_app. cbn [length]. pose proof (Nat.div_mod_eq (length bits) 64). pose proof (Nat.mod_upper_bound (length bits) 64). lia.
Qed.

Lemma rep_ones_false bm bits : rep_ones bm bits → rep_ones bm (bits ++ [false]).
Proof. intros (Hw & Hl & Hb). split; [done|]. split; [rewrite length_app; lia|]. intros j. by rewrite Hb, nth_snoc, andb_false_r. Qed.

Lemma bit_at_nil j : bit_at [] j = nth j [] false.
Proof. unfold bit_at. replace (nth (j / 64) [] 0%Z) with 0%Z by (by destruct (j / 64)%nat). rewrite Z.bits_0. by destruct j. Qed.

Lemma rep_ones_nil : rep_ones [] [].
Proof. split; [constructor|]. split; [cbn; lia|apply bit_at_nil]. Qed.

Lemma rep_nil : rep [] [].
Proof. split; [constructor|]. split; [cbn; lia|apply bit_at_nil]. Qed.

Section levels.
Context (keys : list bstr).

Definition seg (col s e : nat) : node := drop col <$> take (e - s) (drop s keys).

Lemma seg_cons col s e k : keys !! s = Some k → (s < e)%nat → seg col s e = drop col k :: seg col (S s) e.
Proof. intros Hk He. unfold seg. rewrite (drop_S _ _ _ Hk). replace (e - s)%nat with (S (e - S s)) by lia. done. Qed.

Lemma seg_nil col s : seg col s s = [].
Proof. unfold seg. by rewrite Nat.sub_diag. Qed.

Lemma key_byte_nat j col k c : keys !! j = Some k → k !! col = Some c → key_byte keys (Z.of_nat j) (Z.of_nat col) = Some c.
Proof. intros Hj Hc. unfold key_byte, at_. rewrite !(proj2 (Z.ltb_ge _ _)) by lia. rewrite !Nat2Z.id, Hj. cbn. by rewrite Hc. Qed.

(** The keys of a range are longer than the column. *)
Definition longer (col s e : nat) : Prop := ∀ j k, (s ≤ j < e)%nat → keys !! j = Some k → (col < length k)%nat.

Lemma run_end_spec fuel j e col c :
  (e - j < fuel)%nat → (j ≤ e ≤ length keys)%nat → longer col j e →
  ∃ j', run_end keys fuel (Z.of_nat j) (Z.of_nat e) (Z.of_nat col) c = Some (Z.of_nat j') ∧ (j ≤ j' ≤ e)%nat
    ∧ seg col j e = (cons c <$> seg (S col) j j') ++ seg col j' e ∧ ∀ d w L, seg col j' e = (d :: w) :: L → d ≠ c.
Proof.
  revert j. induction fuel as [|fuel IH]; intros j Hf Hj Hl; [lia|]. cbn [run_end]. destruct (decide (j < e)%nat) as [Hlt|Hge].
  - rewrite (proj2 (Z.ltb_lt _ _)) by lia. destruct (lookup_lt_is_Some_2 keys j ltac:(lia)) as [k Hk].
    destruct (lookup_lt_is_Some_2 k col) as [d Hd]; [by apply (Hl j); [lia|]|]. rewrite (key_byte_nat j col k d Hk Hd). cbn [mbind option_bind].
    pose proof (drop_S k d col Hd) as Hdr. case_decide as E.
    + subst d. replace (Z.of_nat j + 1)%Z with (Z.of_nat (S j)) by lia. destruct (IH (S j)) as (j' & E1 & E2 & E3 & E4); [lia|lia|intros i ki Hi; apply Hl; lia|].
      exists j'. split_and!; [done|lia|lia| |done]. rewrite (seg_cons col j e k), (seg_cons (S col) j j' k), E3, Hdr by (done || lia). done.
    + exists j. split_and!; [done|lia|lia| |]. { by rewrite seg_nil. } intros d' w L. rewrite (seg_cons col j e k), Hdr by (done || lia). intros. by simplify_eq.
  - rewrite (proj2 (Z.ltb_ge _ _)) by lia. assert (j = e) as -> by lia. exists e. split_and!; [done|lia|lia|by rewrite !seg_nil|]. intros d w L. by rewrite seg_nil.
Qed.

Lemma groups_run c ws L : ws ≠ [] → (∀ d w L', L = (d :: w) :: L' → d ≠ c) → Forall (λ w, w ≠ []) L → groups ((cons c <$> ws) ++ L) = (c, ws) :: groups L.
Proof.
  intros Hne Hd HL. induction ws as [|w ws IH]; [done|]. cbn [fmap list_fmap app]. rewrite groups_cons. destruct ws as [|v ws].
  - cbn [fmap list_fmap app]. destruct L as [|[|d u] L]; [done|by apply list.Forall_cons in HL as [? _]|].
    specialize (Hd d u L eq_refl). rewrite groups_cons. destruct (groups L) as [|[e us] gs]; [by rewrite decide_False by congruence|].
    case_decide; by rewrite decide_False by congruence.
  - rewrite IH by done. by rewrite decide_True.
Qed.

Definition range_rep (col : nat) (elt : qElt) (n : pnode) : Prop :=
  ∃ s e, elt = (Z.of_nat s, Z.of_nat e) ∧ (s < e ≤ length keys)%nat ∧ n.2 = seg col s e
    ∧ ∀ j k, (s ≤ j < e)%nat → keys !! j = Some k → (col ≤ length k)%nat ∧ take col k = n.1.

(** The arrays list these nodes. *)
Definition arrays (b : building) (P : list pnode) : Prop :=
  rep_ones (b_leaves b) (leafb ∘ snd <$> P) ∧ rep (b_bitmap b) (concat (section <$> P))
  ∧ b_labels b = concat ((λ n, (kids n.2).*1) <$> P) ∧ lIdx b = Z.of_nat (length (b_labels b) + length P)
  ∧ nodeID b = Z.of_nat (length P) ∧ terminals b = omap terminal P.

Lemma seg_nonempty col s e : (e ≤ length keys)%nat → longer col s e → Forall (λ w, w ≠ []) (seg col s e).
Proof.
  intros He Hl. apply list.Forall_forall. intros w Hw. unfold seg in Hw. apply list_elem_of_fmap in Hw as (k & -> & Hk). apply list_elem_of_lookup in Hk as [i Hi].
  apply lookup_take_Some in Hi as [Hi Hi']. rewrite lookup_drop in Hi. specialize (Hl (s + i)%nat k ltac:(lia) Hi). intros Hn. apply (f_equal length) in Hn. rewrite length_drop in Hn. cbn in Hn. lia.
Qed.

(** The edges of one node. *)
Lemma edges_loop_spec fuel j e col p b bits :
  (e - j < fuel)%nat → (j ≤ e ≤ length keys)%nat → longer col j e → (∀ i k, (j ≤ i < e)%nat → keys !! i = Some k → take col k = p) →
  rep (b_bitmap b) bits → lIdx b = Z.of_nat (length bits) →
  let gs := groups (seg col j e) in
  ∃ b', edges_loop keys fuel (Z.of_nat j) (Z.of_nat e) (Z.of_nat col) b = Some b' ∧ b_leaves b' = b_leaves b ∧ nodeID b' = nodeID b ∧ terminals b' = terminals b
    ∧ b_labels b' = b_labels b ++ gs.*1 ∧ rep (b_bitmap b') (bits ++ replicate (length gs) false) ∧ lIdx b' = (lIdx b + Z.of_nat (length gs))%Z
    ∧ ∃ rs, next b' = next b ++ rs ∧ Forall2 (range_rep (S col)) rs ((λ g, (p ++ [g.1], g.2)) <$> gs).
Proof.
  revert j b bits. induction fuel as [|fuel IH]; intros j b bits Hf Hj Hl Hp Hr HI gs; [lia|]. cbn [edges_loop]. destruct (decide (j < e)%nat) as [Hlt|Hge].
  - rewrite (proj2 (Z.ltb_lt _ _)) by lia. destruct (lookup_lt_is_Some_2 keys j ltac:(lia)) as [k Hk].
    destruct (lookup_lt_is_Some_2 k col) as [c Hc]; [by apply (Hl j); [lia|]|]. rewrite (key_byte_nat j col k c Hk Hc). cbn [mbind option_bind].
    replace (Z.to_nat (Z.of_nat e - Z.of_nat j)) with (e - j)%nat by lia.
    destruct (run_end_spec (S (e - j)) j e col c ltac:(lia) Hj Hl) as (j' & -> & Hj' & Hseg & Hhd). cbn [mbind option_bind].
    assert (j < j')%nat as Hjj.
    { destruct (decide (j = j')) as [<-|]; [|lia]. exfalso. apply (Hhd c (drop (S col) k) (seg col (S j) e)); [|done]. by rewrite (seg_cons col j e k), (drop_S k c col Hc) by (done || lia). }
    set (b1 := mkB _ _ _ _ _ _ _).
    destruct (IH j' b1 (bits ++ [false])) as (b' & E & I1 & I2 & I3 & I4 & I5 & I6 & rs & I7 & I8).
    { lia. } { lia. } { intros i ki Hi. apply Hl. lia. } { intros i ki Hi. apply Hp. lia. }
    { unfold b1. cbn [b_bitmap]. rewrite HI. exact (rep_snoc _ _ false Hr). }
    { unfold b1. cbn [lIdx]. rewrite length_app. cbn. lia. }
    assert (gs = (c, seg (S col) j j') :: groups (seg col j' e)) as Hgs.
    { unfold gs. rewrite Hseg. apply groups_run; [by rewrite (seg_cons (S col) j j' k) by (done || lia)|done|]. apply seg_nonempty; [lia|]. intros i ki Hi. apply Hl. lia. }
    rewrite Hgs. exists b'. cbn [fmap list_fmap fst snd length]. split_and!; [done|done|done|done| | | |].
    + rewrite I4. unfold b1. cbn [b_labels]. by rewrite <- app_assoc.
    + cbn [replicate]. by rewrite <- app_assoc in I5.
    + rewrite I6. unfold b1. cbn [lIdx]. lia.
    + exists ((Z.of_nat j, Z.of_nat j') :: rs). split; [rewrite I7; unfold b1; cbn [next]; by rewrite <- app_assoc|]. constructor; [|done].
      exists j, j'. split_and!; [done|lia|lia|done|]. intros i ki Hi Hki. cbn [fst]. specialize (Hl i ki ltac:(lia) Hki). split; [lia|].
      assert (ki !! col = Some c) as Hci.
      { assert (seg col j e !! (i - j)%nat = Some (drop col ki)) as H1 by (unfold seg; rewrite list_lookup_fmap, lookup_take_lt, lookup_drop by lia; replace (j + (i - j))%nat with i by lia; by rewrite Hki).
        rewrite Hseg, lookup_app_l in H1 by (rewrite length_fmap; unfold seg; rewrite length_fmap, length_take, length_drop; lia).
        rewrite list_lookup_fmap in H1. apply fmap_Some in H1 as (w & _ & Hw). rewrite <- (Nat.add_0_r col), <- lookup_drop, Hw. done. }
      rewrite (take_S_r ki col c Hci). by rewrite (Hp i ki) by (done || lia).
  - rewrite (proj2 (Z.ltb_ge _ _)) by lia. assert (j = e) as -> by lia. unfold gs. rewrite seg_nil. cbn [groups fmap list_fmap length replicate]. exists b. rewrite !app_nil_r.
    split_and!; [done|done|done|done|done|done|lia|]. exists []. rewrite app_nil_r. split; [done|constructor].
Qed.

Lemma length_concat_section P : length (concat (section <$> P)) = (length (concat ((λ n, (kids n.2).*1) <$> P)) + length P)%nat.
Proof.
  induction P as [|n P IH]; [done|]. cbn [fmap list_fmap concat length]. unfold section at 1. rewrite !length_app, IH, length_replicate, length_fmap. cbn. lia.
Qed.

Lemma node_step_spec col elt n b P R :
  arrays b P → range_rep col elt n → wf n.2 → Forall2 (range_rep (S col)) (next b) R →
  ∃ b', node_step keys (Z.of_nat col) elt b = Some b' ∧ arrays b' (P ++ [n]) ∧ Forall2 (range_rep (S col)) (next b') (R ++ kidsP n).
Proof.
  intros (A1 & A2 & A3 & A4 & A5 & A6) (s & e & -> & Hse & Hn & Hk) Hwf HR. unfold node_step.
  destruct (lookup_lt_is_Some_2 keys s ltac:(lia)) as [k Hks]. unfold at_ at 1. rewrite (proj2 (Z.ltb_ge _ _)) by lia. rewrite Nat2Z.id, Hks. cbn [mbind option_bind].
  destruct (Hk s k ltac:(lia) Hks) as [Hkl Hkp]. pose proof (seg_cons col s e k Hks ltac:(lia)) as Hseg. rewrite <- Hn in Hseg.
  assert (bool_decide (Z.of_nat col = Z.of_nat (length k)) = leafb n.2) as Hleaf.
  { rewrite Hseg. destruct (decide (col = length k)) as [->|Hne]; [rewrite drop_all; cbn; by apply bool_decide_true|]. rewrite bool_decide_false by lia.
    destruct (drop col k) eqn:Ed; [|done]. apply (f_equal length) in Ed. rewrite length_drop in Ed. cbn in Ed. lia. }
  rewrite Hleaf. set (s' := if leafb n.2 then S s else s). assert ((if leafb n.2 then Z.of_nat s + 1 else Z.of_nat s)%Z = Z.of_nat s') as -> by (unfold s'; destruct (leafb n.2); lia).
  set (b1 := if leafb n.2 then _ else b).
  assert (strip n.2 = seg col s' e) as Hstrip.
  { unfold s'. rewrite Hseg. destruct (drop col k) eqn:Ed; cbn [leafb strip]; [done|]. rewrite (seg_cons col s e k) by (done || lia). by rewrite Ed. }
  destruct (strip_sorted _ (proj2 Hwf)) as [_ Hne].
  assert (longer col s' e) as Hlong.
  { intros j kj Hj Hkj. assert (s ≤ s')%nat as Hss by (unfold s'; destruct (leafb n.2); lia). destruct (Hk j kj ltac:(lia) Hkj) as [Hle _]. destruct (decide (col = length kj)) as [E|]; [|lia]. exfalso.
    rewrite Hstrip, list.Forall_forall in Hne. apply (Hne []); [|done]. unfold seg. apply list_elem_of_fmap. exists kj. split; [by rewrite E, drop_all|].
    apply (list_elem_of_lookup_2 _ (j - s')%nat). rewrite lookup_take_lt, lookup_drop by lia. by replace (s' + (j - s'))%nat with j by lia. }
  assert (rep (b_bitmap b1) (concat (section <$> P)) ∧ lIdx b1 = Z.of_nat (length (concat (section <$> P))) ∧ b_labels b1 = b_labels b ∧ next b1 = next b) as (B1 & B2 & B3 & B4).
  { rewrite length_concat_section, <- A3, <- A4. unfold b1. by destruct (leafb n.2). }
  replace (Z.to_nat (Z.of_nat e - Z.of_nat s')) with (e - s')%nat by lia.
  destruct (edges_loop_spec (S (e - s')) s' e col n.1 b1 (concat (section <$> P)) ltac:(lia) ltac:(unfold s'; destruct (leafb n.2); lia) Hlong) as (b2 & -> & C1 & C2 & C3 & C4 & C5 & C6 & rs & C7 & C8); [|done|done|].
  { intros i ki Hi. apply Hk. unfold s' in Hi. destruct (leafb n.2); lia. }
  cbn [mbind option_bind]. rewrite <- Hstrip in C4, C5, C6, C8. change (groups (strip n.2)) with (kids n.2) in *.
  eexists. split; [reflexivity|]. split; [|cbn [next]; rewrite C7, B4; by apply Forall2_app].
  unfold arrays. cbn [b_leaves b_bitmap b_labels lIdx nodeID terminals]. rewrite C1, C2, C3, C4, C6, B2, B3, !fmap_app, !concat_app, omap_app, length_app. split_and!.
  - unfold b1. destruct (leafb n.2) eqn:El; cbn [b_leaves fmap list_fmap compose snd]; rewrite El; [|by apply rep_ones_false].
    rewrite A5, <- (length_fmap (leafb ∘ snd) P). by apply rep_ones_true.
  - cbn [fmap list_fmap concat]. rewrite app_nil_r. change (section n) with (replicate (length (kids n.2)) false ++ [true]). rewrite app_assoc.
    assert ((Z.of_nat (length (concat (section <$> P))) + Z.of_nat (length (kids n.2)))%Z = Z.of_nat (length (concat (section <$> P) ++ replicate (length (kids n.2)) false))) as ->
      by (rewrite length_app, length_replicate; lia). exact (rep_snoc _ _ true C5).
  - cbn [fmap list_fmap concat]. by rewrite app_nil_r, A3.
  - rewrite length_concat_section, length_app, A3, length_fmap. cbn [length]. lia.
  - rewrite ?length_app. unfold b1. destruct (leafb n.2); cbn [nodeID length]; lia.
  - unfold b1. cbn [omap list_omap]. unfold terminal at 2. destruct (leafb n.2) eqn:El; cbn [terminals]; rewrite A6; [|by rewrite app_nil_r]. f_equal. f_equal.
    rewrite <- Hkp. rewrite firstn_all2; [done|]. apply bool_decide_eq_true in Hleaf. lia.
Qed.

Lemma level_spec col queue Q b P R :
  arrays b P → Forall2 (range_rep col) queue Q → Forall (λ n, wf n.2) Q → Forall2 (range_rep (S col)) (next b) R →
  ∃ b', level keys (Z.of_nat col) queue b = Some b' ∧ arrays b' (P ++ Q) ∧ Forall2 (range_rep (S col)) (next b') (R ++ concat (kidsP <$> Q)).
Proof.
  intros HA HQ. revert b P R HA. induction HQ as [|elt n queue Q Hn HQ IH]; intros b P R HA Hw HR; cbn [level].
  { exists b. by rewrite !app_nil_r. }
  apply list.Forall_cons in Hw as [Hw1 Hw]. destruct (node_step_spec col elt n b P R HA Hn Hw1 HR) as (b1 & -> & HA1 & HR1). cbn [mbind option_bind].
  destruct (IH b1 (P ++ [n]) (R ++ kidsP n) HA1 Hw HR1) as (b2 & E & HA2 & HR2). exists b2. cbn [fmap list_fmap concat]. by rewrite <- !app_assoc in HA2, HR2.
Qed.

Lemma kidsP_wf n : wf n.2 → Forall (λ n, wf n.2) (kidsP n).
Proof. intros H. unfold kidsP. apply Forall_fmap. exact (proj2 (kids_sorted n.2 H)). Qed.

Lemma kidsP_short n m : Forall (λ w, (length w ≤ S m)%nat) n.2 → Forall (λ n, Forall (λ w, (length w ≤ m)%nat) n.2) (kidsP n).
Proof.
  intros H. unfold kidsP. apply Forall_fmap, list.Forall_forall. intros [c ws] Hc. apply list.Forall_forall. intros w Hw. cbn in Hw.
  assert (c :: w ∈ n.2) as Hin by (apply kids_elem; by exists ws). rewrite list.Forall_forall in H. specialize (H _ Hin). cbn in H. lia.
Qed.

Lemma kidsP_end n : Forall (λ w, (length w ≤ 0)%nat) n.2 → kidsP n = [].
Proof.
  intros H. unfold kidsP. destruct (kids n.2) as [|[c ws] gs] eqn:E; [done|]. exfalso. unfold kids in E. destruct (groups_head _ _ _ _ E) as (w & Hw & _).
  assert (c :: w ∈ n.2) as Hin by (destruct n.2 as [|[|d v] L]; cbn [strip] in Hw; [done|by right|done]). rewrite list.Forall_forall in H. specialize (H _ Hin). cbn in H. lia.
Qed.

(** The list of all nodes: the root, and the children of the nodes in order. *)
Definition breadth_first (root : pnode) (nodes : list pnode) : Prop := nodes = root :: concat (kidsP <$> nodes).

(** What holds of the root and passes to children holds of all nodes. *)
Definition inherits (root : pnode) (nodes : list pnode) : Prop :=
  ∀ Inv : pnode → Prop, (∀ n, Inv n → Forall Inv (kidsP n)) → Inv root → Forall Inv nodes.

Lemma levels_spec root fuel m col queue Q b P :
  arrays b P → Forall2 (range_rep col) queue Q → Forall (λ n, wf n.2) (P ++ Q) → next b = [] → P ++ Q = root :: concat (kidsP <$> P) →
  Forall (λ n, Forall (λ w, (length w ≤ m)%nat) n.2) Q → (m < fuel)%nat → inherits root (P ++ Q) →
  ∃ b' nodes, levels keys fuel (Z.of_nat col) queue b = Some b' ∧ arrays b' nodes ∧ Forall (λ n, wf n.2) nodes ∧ breadth_first root nodes ∧ inherits root nodes.
Proof.
  revert m col queue Q b P. induction fuel as [|fuel IH]; intros m col queue Q b P HA HQ Hw Hn HB Hm Hf Hi; [lia|].
  destruct HQ as [|elt n queue Q Hn1 HQ]; [exists b, P; rewrite app_nil_r in *; cbn [levels]; done|]. set (Q' := n :: Q) in *. cbn [levels].
  destruct (level_spec col (elt :: queue) Q' b P [] HA ltac:(by constructor) ltac:(by apply Forall_app in Hw as [_ ?]) ltac:(rewrite Hn; constructor)) as (b1 & -> & HA1 & HR1).
  cbn [mbind option_bind app] in *. set (b2 := mkB _ _ _ _ _ [] _). assert (arrays b2 (P ++ Q')) as HA2 by exact HA1.
  assert (root :: concat (kidsP <$> P ++ Q') = (P ++ Q') ++ concat (kidsP <$> Q')) as HB2 by (by rewrite fmap_app, concat_app, app_comm_cons, <- HB).
  assert (Forall (λ n, wf n.2) ((P ++ Q') ++ concat (kidsP <$> Q'))) as Hw2.
  { apply Forall_app. split; [done|]. apply Forall_concat, Forall_fmap. apply Forall_app in Hw as [_ Hw]. eapply list.Forall_impl; [exact Hw|]. intros. by apply kidsP_wf. }
  assert (inherits root ((P ++ Q') ++ concat (kidsP <$> Q'))) as Hi2.
  { intros Inv Hc Hr. specialize (Hi Inv Hc Hr). apply Forall_app. split; [done|]. apply Forall_concat, Forall_fmap. apply Forall_app in Hi as [_ Hi]. eapply list.Forall_impl; [exact Hi|]. intros. by apply Hc. }
  destruct m as [|m].
  - assert (concat (kidsP <$> Q') = []) as Hk.
    { clear -Hm. induction Q' as [|a l IHl]; [done|]. apply list.Forall_cons in Hm as [H1 H2]. cbn [fmap list_fmap concat]. by rewrite kidsP_end, IHl. }
    rewrite Hk in *. rewrite app_nil_r in *. inversion HR1 as [E1|]; subst. cbn [next b2]. exists b2, (P ++ Q'). destruct fuel; cbn [levels]; split_and!; done.
  - replace (Z.of_nat col + 1)%Z with (Z.of_nat (S col)) by lia. apply (IH m (S col) (next b1) (concat (kidsP <$> Q')) b2 (P ++ Q')); [done|done|done|done|done| |lia|done].
    apply Forall_concat, Forall_fmap. eapply list.Forall_impl; [exact Hm|]. intros. by apply kidsP_short.
Qed.
End levels.

(** ** Reading the arrays *)

Record louds `{Bitmap} (ss : DomainSet) (root : pnode) (nodes : list pnode) : Prop := {
  louds_leaves : rep_ones (leaves ss) (leafb ∘ snd <$> nodes);
  louds_bits : rep (labelBitmap ss) (concat (section <$> nodes));
  louds_labels : labels ss = concat ((λ n, (kids n.2).*1) <$> nodes);
  louds_index : (selects ss, ranks ss) = IndexSelect32R64 (labelBitmap ss);
  louds_wf : Forall (λ n, wf n.2) nodes;
  louds_bfs : breadth_first root nodes;
  louds_inherits : inherits root nodes;
}.

Lemma longest_spec keys : Forall (λ k, (length k ≤ longest keys)%nat) keys.
Proof. induction keys as [|k keys IH]; constructor; cbn [longest foldr]; [lia|]. eapply list.Forall_impl; [exact IH|]. intros x Hx. fold (longest keys). cbn in *. lia. Qed.

Lemma build_louds `{Bitmap} keys :
  keys ≠ [] →
  ∃ ss nodes K, buildDomainSet keys = Some (Some (ss, of_bytes <$> omap terminal nodes)) ∧ louds ss ([], K) nodes
    ∧ ∀ k, k ∈ K ↔ of_bytes k ∈ keys.
Proof.
  intros Hne. unfold buildDomainSet. rewrite bool_decide_false by (by destruct keys). set (K := Compact (Strings (bytes <$> keys))).
  destruct (Strings_spec (bytes <$> keys)) as [HS HE]. fold K in HS, HE.
  assert (∀ k, k ∈ K ↔ of_bytes k ∈ keys) as HK.
  { intros k. rewrite HE, list_elem_of_fmap. split; [intros (s & -> & Hs); by rewrite of_bytes_bytes|]. intros Hs. exists (of_bytes k). by rewrite bytes_of_bytes. }
  assert (K ≠ []) as HKne by (intros E; destruct keys as [|k keys]; [done|]; apply (not_elem_of_nil (bytes k)); rewrite <- E; apply HK; rewrite of_bytes_bytes; by left).
  assert (wf K) as Hwf by done.
  destruct (levels_spec K ([], K) (S (longest K)) (longest K) 0 [(0%Z, Z.of_nat (length K))] [([], K)] (mkB [] [] [] 0 0 [] []) []) as (b & nodes & E & HA & HW & HB & HI).
  - unfold arrays. split; [apply rep_ones_nil|]. split; [apply rep_nil|]. done.
  - constructor; [|constructor]. exists 0%nat, (length K). split_and!; [done|destruct K; cbn; [done|lia]|lia| |].
    + cbn [snd]. unfold seg. rewrite Nat.sub_0_r, drop_0, firstn_all. symmetry. apply (list_fmap_id K).
    + intros j k _ _. cbn. split; [lia|done].
  - cbn. by repeat constructor.
  - done.
  - done.
  - constructor; [|constructor]. apply longest_spec.
  - lia.
  - intros Inv _ Hr. cbn. by repeat constructor.
  - change (Z.of_nat 0) with 0%Z in E. rewrite E. cbn [mbind option_bind]. destruct HA as (A1 & A2 & A3 & A4 & A5 & A6). rewrite A6. eexists _, nodes, K. split; [done|].
    split; [|done]. unfold init. destruct (IndexSelect32R64 (b_bitmap b)) as [sel rk] eqn:Ei. split; cbn; try done.
Qed.

Section navigate.
Context `{HL : BitmapLaws} (ss : DomainSet) (root : pnode) (nodes : list pnode) (HS : louds ss root nodes).
Context (Hsize : (Z.of_nat (64 * length (labelBitmap ss)) < 2 ^ 31)%Z).

Abbreviation labs := (λ n : pnode, (kids n.2).*1).

(** How many edges, and how many bits, come before a node. *)
Definition pre (k : nat) : nat := length (concat (labs <$> take k nodes)).
Definition start (k : nat) : nat := (pre k + k)%nat.

Lemma concat_lookup {A} (l : list (list A)) k x m : l !! k = Some x → (m < length x)%nat → concat l !! (length (concat (take k l)) + m)%nat = x !! m.
Proof.
  intros Hk Hm. replace (concat l) with (concat (take k l ++ x :: drop (S k) l)) by (by rewrite take_drop_middle). rewrite concat_app, lookup_app_r by lia. cbn [concat].
  replace (length (concat (take k l)) + m - length (concat (take k l)))%nat with m by lia. by rewrite lookup_app_l.
Qed.

Lemma pre_S k n : nodes !! k = Some n → pre (S k) = (pre k + length (kids n.2))%nat.
Proof. intros Hk. unfold pre. rewrite (take_S_r nodes k n Hk), fmap_app, concat_app, length_app. cbn [fmap list_fmap concat]. rewrite app_nil_r, length_fmap. done. Qed.

Lemma take_sections k : (k ≤ length nodes)%nat → length (concat (section <$> take k nodes)) = start k.
Proof. intros Hk. rewrite length_concat_section, length_take. unfold start, pre. lia. Qed.

Lemma bits_split k n : nodes !! k = Some n → concat (section <$> nodes) = concat (section <$> take k nodes) ++ section n ++ concat (section <$> drop (S k) nodes).
Proof. intros Hk. rewrite <- (take_drop_middle nodes k n Hk) at 1. by rewrite fmap_app, concat_app. Qed.

Lemma label_at k n m g : nodes !! k = Some n → kids n.2 !! m = Some g → labels ss !! (pre k + m)%nat = Some g.1.
Proof.
  intros Hk Hm. rewrite (louds_labels _ _ _ HS). unfold pre. rewrite fmap_take. rewrite (concat_lookup _ k (labs n) m).
  - rewrite list_lookup_fmap, Hm. done.
  - by rewrite list_lookup_fmap, Hk.
  - rewrite length_fmap. by apply lookup_lt_Some in Hm.
Qed.

Lemma length_concat_kids l : length (concat (kidsP <$> l)) = length (concat (labs <$> l)).
Proof. induction l as [|n l IH]; [done|]. cbn [fmap list_fmap concat]. rewrite !length_app, IH. unfold kidsP. by rewrite !length_fmap. Qed.

Lemma child_at k n m g : nodes !! k = Some n → kids n.2 !! m = Some g → nodes !! S (pre k + m) = Some (n.1 ++ [g.1], g.2).
Proof.
  intros Hk Hm. assert (nodes !! S (pre k + m) = concat (kidsP <$> nodes) !! (pre k + m)%nat) as ->.
  { pose proof (louds_bfs _ _ _ HS) as HB. unfold breadth_first in HB. remember (concat (kidsP <$> nodes)) as C. by rewrite HB. }
  unfold pre. rewrite <- length_concat_kids, fmap_take. rewrite (concat_lookup _ k (kidsP n) m).
  - unfold kidsP. by rewrite list_lookup_fmap, Hm.
  - by rewrite list_lookup_fmap, Hk.
  - unfold kidsP. rewrite length_fmap. by apply lookup_lt_Some in Hm.
Qed.

Lemma length_bits k n : nodes !! k = Some n → (start k + length (kids n.2) < length (concat (section <$> nodes)))%nat.
Proof.
  intros Hk. pose proof (lookup_lt_Some _ _ _ Hk). rewrite (bits_split k n Hk), !length_app, take_sections by lia. unfold section at 1. rewrite length_app, length_replicate. cbn. lia.
Qed.

Lemma bit_in_node k n m : nodes !! k = Some n → (m ≤ length (kids n.2))%nat → bit_at (labelBitmap ss) (start k + m) = bool_decide (m = length (kids n.2)).
Proof.
  intros Hk Hm. destruct (louds_bits _ _ _ HS) as (_ & _ & Hb). rewrite Hb, (bits_split k n Hk). pose proof (lookup_lt_Some _ _ _ Hk).
  rewrite app_nth2 by (rewrite take_sections by lia; lia). rewrite take_sections by lia. replace (start k + m - start k)%nat with m by lia.
  rewrite app_nth1 by (unfold section; rewrite length_app, length_replicate; cbn; lia). unfold section. rewrite nth_snoc, length_replicate, andb_true_r.
  replace (nth m (replicate (length (kids n.2)) false) false) with false; [apply orb_false_r|]. rewrite nth_lookup. destruct (replicate _ false !! m) eqn:E; [|done]. by apply lookup_replicate in E as [-> _].
Qed.

Lemma ones_S bm i : ones bm (S i) = (ones bm i + if bit_at bm i then 1 else 0)%nat.
Proof. unfold ones. rewrite seq_S, filter_app, length_app. cbn [filter list_filter Nat.add]. destruct (bit_at bm i) eqn:E; [by rewrite decide_True|by rewrite decide_False by congruence]. Qed.

Lemma ones_run bm i m : (∀ j, (j < m)%nat → bit_at bm (i + j) = false) → ones bm (i + m) = ones bm i.
Proof.
  induction m as [|m IH]; intros Hz; [by rewrite Nat.add_0_r|]. rewrite Nat.add_succ_r, ones_S, Hz, IH by (lia || intros; apply Hz; lia). lia.
Qed.

Lemma ones_start k : (k ≤ length nodes)%nat → ones (labelBitmap ss) (start k) = k.
Proof.
  induction k as [|k IH]; intros Hk; [done|]. destruct (lookup_lt_is_Some_2 nodes k ltac:(lia)) as [n Hn]. unfold start. rewrite (pre_S k n Hn).
  replace (pre k + length (kids n.2) + S k)%nat with (S (start k + length (kids n.2))) by (unfold start; lia).
  rewrite ones_S, (bit_in_node k n _ Hn), bool_decide_true by done. rewrite ones_run, IH by (lia || intros j Hj; rewrite (bit_in_node k n _ Hn) by lia; apply bool_decide_false; lia). lia.
Qed.

Lemma ones_in_node k n m : nodes !! k = Some n → (m ≤ length (kids n.2))%nat → ones (labelBitmap ss) (start k + m) = k.
Proof.
  intros Hk Hm. pose proof (lookup_lt_Some _ _ _ Hk). rewrite ones_run, ones_start by (lia || intros j Hj; rewrite (bit_in_node k n _ Hk) by lia; apply bool_decide_false; lia). done.
Qed.

Lemma int32_small i : (0 ≤ i < 2 ^ 31)%Z → int32_ i = i.
Proof. intros Hi. unfold int32_. rewrite Z.mod_small; lia. Qed.

Lemma start_bound k n m : nodes !! k = Some n → (m ≤ length (kids n.2))%nat → (start k + m < 64 * length (labelBitmap ss))%nat.
Proof. intros Hk Hm. pose proof (length_bits k n Hk). destruct (louds_bits _ _ _ HS) as (_ & Hl & _). lia. Qed.

Lemma getBit_node k n m :
  nodes !! k = Some n → (m ≤ length (kids n.2))%nat →
  ∃ z, getBit (labelBitmap ss) (Z.of_nat (start k + m)) = Some z ∧ (z =? 0)%Z = negb (bool_decide (m = length (kids n.2))).
Proof.
  intros Hk Hm. destruct (louds_bits _ _ _ HS) as (Hw & _ & _). destruct (getBit_spec (labelBitmap ss) (start k + m) Hw (start_bound k n m Hk Hm)) as (z & Hz & E).
  exists z. split; [done|]. by rewrite E, (bit_in_node k n).
Qed.

Lemma label_node k n m g : nodes !! k = Some n → kids n.2 !! m = Some g → at_ (labels ss) (Z.of_nat (start k + m) - Z.of_nat k) = Some g.1.
Proof.
  intros Hk Hm. unfold at_, start. rewrite (proj2 (Z.ltb_ge _ _)) by lia. replace (Z.to_nat (Z.of_nat (pre k + k + m) - Z.of_nat k)) with (pre k + m)%nat by lia. by apply (label_at k n).
Qed.

Lemma index_eqs : (IndexSelect32R64 (labelBitmap ss)).1 = selects ss ∧ (IndexSelect32R64 (labelBitmap ss)).2 = ranks ss.
Proof. by rewrite <- (louds_index _ _ _ HS). Qed.

Lemma select_node k n : nodes !! k = Some n → selectIthOne ss (Z.of_nat k) = Some (Z.of_nat (start k + length (kids n.2))).
Proof.
  intros Hk. pose proof (start_bound k n _ Hk (le_n _)) as Hb. destruct (louds_bits _ _ _ HS) as (Hw & _ & _). unfold selectIthOne.
  destruct index_eqs as [<- <-]. pose proof (select_finds (labelBitmap ss) (start k + length (kids n.2)) Hw) as Hf. rewrite (ones_in_node k n _ Hk (le_n _)) in Hf.
  rewrite int32_small by (unfold start in Hb; lia). apply Hf; [|done]. rewrite (bit_in_node k n) by done. by apply bool_decide_true.
Qed.

Lemma start_S k n : nodes !! k = Some n → start (S k) = S (start k + length (kids n.2)).
Proof. intros Hk. unfold start. rewrite (pre_S k n Hk). lia. Qed.

(** Where the bits of a node other than the root begin. *)
Lemma select_start c n : nodes !! S c = Some n → ∃ p, selectIthOne ss (Z.of_nat (S c) - 1) = Some p ∧ (p + 1)%Z = Z.of_nat (start (S c) + 0).
Proof.
  intros Hc. destruct (lookup_lt_is_Some_2 nodes c) as [n' Hn']; [apply lookup_lt_Some in Hc; lia|]. replace (Z.of_nat (S c) - 1)%Z with (Z.of_nat c) by lia.
  rewrite (select_node c n' Hn'). eexists. split; [done|]. rewrite (start_S c n' Hn'). lia.
Qed.

Lemma zeros_node k n m : nodes !! k = Some n → (m < length (kids n.2))%nat → countZeros ss (Z.of_nat (start k + m) + 1) = Some (Z.of_nat (S (pre k + m))).
Proof.
  intros Hk Hm. pose proof (start_bound k n (S m) Hk Hm) as Hb. destruct (louds_bits _ _ _ HS) as (Hw & _ & _). unfold countZeros. destruct index_eqs as [_ <-].
  replace (Z.of_nat (start k + m) + 1)%Z with (Z.of_nat (start k + S m)) by lia. rewrite int32_small by lia.
  rewrite (rank_counts (labelBitmap ss) _ Hw Hb Hsize). cbn [mbind option_bind]. rewrite (ones_in_node k n) by (done || lia). f_equal. unfold start. lia.
Qed.

(** A node that is not a leaf has children after it: the last node is a leaf. *)
Lemma last_is_leaf n : last nodes = Some n → leafb n.2 = true.
Proof.
  intros Hl. pose proof (louds_wf _ _ _ HS) as Hwf. assert (wf n.2) as Hw by (rewrite list.Forall_forall in Hwf; by apply Hwf, last_Some_elem_of).
  destruct (leafb n.2) eqn:E; [done|]. exfalso. rewrite last_lookup in Hl. assert (0 < length (kids n.2))%nat as Hk.
  { destruct Hw as [Hne Hs]. destruct n.2 as [|[|c w] L] eqn:En; [done|done|]. assert (c :: w ∈ n.2) as Hin by (rewrite En; by left). apply kids_elem in Hin as (ws & Hws & _). rewrite En in Hws.
    apply lookup_lt_is_Some. apply list_elem_of_lookup in Hws as [[|i] Hi]; [by eexists|]. apply lookup_lt_Some in Hi. apply lookup_lt_is_Some. lia. }
  destruct (lookup_lt_is_Some_2 (kids n.2) (length (kids n.2) - 1)) as [g Hg]; [lia|]. pose proof (child_at _ n _ g Hl Hg) as Hc.
  assert (length nodes = S (pre (length nodes)))%nat as Hlen.
  { unfold pre. rewrite firstn_all, <- length_concat_kids. pose proof (louds_bfs _ _ _ HS) as HB. unfold breadth_first in HB. remember (concat (kidsP <$> nodes)) as C. by rewrite HB. }
  apply lookup_lt_Some in Hl as Hlt. pose proof (pre_S _ n Hl) as Hp. replace (S (pred (length nodes))) with (length nodes) in Hp by lia.
  replace (S (pre (pred (length nodes)) + (length (kids n.2) - 1))) with (pred (length nodes)) in Hc by lia. rewrite Hl in Hc. injection Hc as Hc.
  apply (f_equal (λ p, length p.1)) in Hc. cbn in Hc. rewrite length_app in Hc. cbn in Hc. lia.
Qed.

Lemma getBit_leaf k n : nodes !! k = Some n → ∃ z, getBit (leaves ss) (Z.of_nat k) = Some z ∧ (z =? 0)%Z = negb (leafb n.2).
Proof.
  intros Hk. destruct (louds_leaves _ _ _ HS) as (Hw & _ & Hb). assert (k < 64 * length (leaves ss))%nat as Hlt.
  { apply lookup_lt_Some in Hk. assert (is_Some (last nodes)) as [x Hx] by (rewrite last_is_Some; intros E; rewrite E in Hk; cbn in Hk; lia).
    pose proof (last_is_leaf x Hx) as Hlf. rewrite last_lookup in Hx. pose proof (Hb (pred (length nodes))) as Hbit.
    rewrite nth_lookup, list_lookup_fmap, Hx in Hbit. cbn in Hbit. rewrite Hlf in Hbit.
    destruct (decide (pred (length nodes) / 64 < length (leaves ss))%nat) as [Hd|Hd]; [|unfold bit_at in Hbit; rewrite nth_overflow, Z.bits_0 in Hbit by lia; done].
    pose proof (Nat.div_mod_eq (pred (length nodes)) 64). pose proof (Nat.mod_upper_bound (pred (length nodes)) 64). lia. }
  destruct (getBit_spec (leaves ss) k Hw Hlt) as (z & Hz & E). exists z. split; [done|]. rewrite E, Hb, nth_lookup, list_lookup_fmap, Hk. done.
Qed.
End navigate.
