(* ===== verification/DomainSetSearch.v ===== *)
(** * [Has] of the succinct set follows the patterns

    The loop with its stack of wildcards is a search of the tree; its answer is that
    some key of the set, taken as a pattern of bytes, matches the text. *)

From Stdlib Require Import ZArith Lia Ascii.
From stdpp Require Import base list strings numbers sorting.
From S2P Require Import Prelude GoStrings GoIO DomainTrie DomainSet DomainSetTheory.
#[local] Open Scope string_scope.
#[local] Open Scope list_scope.

Lemma marker_values : byte_val wildcardByte = 42%Z ∧ byte_val complexWildcardByte = 43%Z ∧ byte_val domainStepByte = 46%Z.
Proof. done. Qed.

Lemma at_nat {A} (l : list A) i : at_ l (Z.of_nat i) = l !! i.
Proof. unfold at_. rewrite (proj2 (Z.ltb_ge _ _)) by lia. by rewrite Nat2Z.id. Qed.

(** ** Matching one pattern *)

Fixpoint drop_label (t : bstr) : bstr :=
  match t with
  | [] => []
  | c :: t' => if decide (c = domainStepByte) then t else drop_label t'
  end.

(** [+] takes everything that is left, [*] takes what is before the next dot. *)
Fixpoint pm (w t : bstr) : bool :=
  match w, t with
  | [], [] => true
  | c :: w', c0 :: t' =>
      if decide (c = complexWildcardByte) then true
      else if decide (c = wildcardByte) then
        match w', drop_label t with
        | [], [] => true
        | d :: w'', _ :: rest => if decide (d = domainStepByte) then pm w'' rest else false
        | _, _ => false
        end
      else if decide (c = c0) then pm w' t' else false
  | _, _ => false
  end.

Definition accepts (L : node) (t : bstr) : bool := existsb (λ w, pm w t) L.
Definition kid_accepts (t : bstr) (g : ascii * node) : bool := existsb (λ w, pm (g.1 :: w) t) g.2.

Lemma existsb_elem {A} (f : A → bool) l : existsb f l = true ↔ ∃ x, x ∈ l ∧ f x = true.
Proof. rewrite existsb_exists. split; intros (x & Hx & Hf); exists x; (split; [by apply list_elem_of_In|done]). Qed.

Lemma existsb_false {A} (f : A → bool) l : (∀ x, x ∈ l → f x = false) → existsb f l = false.
Proof. intros H. apply not_true_iff_false. intros (x & Hx & Hf)%existsb_elem. rewrite H in Hf; done. Qed.

Lemma accepts_kids L c t : wf L → accepts L (c :: t) = existsb (kid_accepts (c :: t)) (kids L).
Proof.
  intros Hw. apply Bool.eq_iff_eq_true. unfold accepts. rewrite !existsb_elem. split.
  - intros (w & Hw' & Hp). destruct w as [|d w]; [done|]. apply kids_elem in Hw' as (ws & Hg & Hin). exists (d, ws). split; [done|]. apply existsb_elem. by exists w.
  - intros ([d ws] & Hg & Hk). apply existsb_elem in Hk as (w & Hin & Hp). exists (d :: w). split; [|done]. apply kids_elem. by exists ws.
Qed.

Lemma accepts_end L : wf L → accepts L [] = leafb L.
Proof.
  intros Hw. apply Bool.eq_iff_eq_true. unfold accepts. rewrite existsb_elem, leafb_elem by done. split; [|by exists []].
  intros (w & Hin & Hp). by destruct w.
Qed.

Lemma kid_plus c t ws : ws ≠ [] → kid_accepts (c :: t) (complexWildcardByte, ws) = true.
Proof. intros H. destruct ws as [|w ws]; [done|]. done. Qed.

Lemma kid_plain c d t ws : d ≠ complexWildcardByte → d ≠ wildcardByte → kid_accepts (c :: t) (d, ws) = if decide (d = c) then accepts ws t else false.
Proof.
  intros H1 H2. unfold kid_accepts, accepts. cbn [fst snd]. case_decide as E.
  - apply Bool.eq_iff_eq_true. rewrite !existsb_elem. split; intros (w & Hw & Hp); exists w; (split; [done|]); cbn [pm] in *; rewrite !decide_False in * by done; by rewrite decide_True in * by done.
  - apply existsb_false. intros w _. cbn [pm]. by rewrite !decide_False.
Qed.

Lemma kid_star_end c t ws : wf ws → drop_label (c :: t) = [] → kid_accepts (c :: t) (wildcardByte, ws) = leafb ws.
Proof.
  intros Hw E. unfold kid_accepts. cbn [fst snd]. apply Bool.eq_iff_eq_true. rewrite existsb_elem, leafb_elem by done. split.
  - intros (w & Hin & Hp). cbn [pm] in Hp. rewrite decide_False, decide_True, E in Hp by done. by destruct w.
  - intros Hin. exists []. split; [done|]. cbn [pm]. by rewrite decide_False, decide_True, E.
Qed.

Lemma kid_star_dot c t ws d rest :
  drop_label (c :: t) = d :: rest →
  kid_accepts (c :: t) (wildcardByte, ws) = existsb (λ g, bool_decide (g.1 = domainStepByte) && accepts g.2 rest) (kids ws).
Proof.
  intros E. unfold kid_accepts. cbn [fst snd]. apply Bool.eq_iff_eq_true. rewrite !existsb_elem. split.
  - intros (w & Hin & Hp). cbn [pm] in Hp. rewrite decide_False, decide_True, E in Hp by done. destruct w as [|e w]; [done|]. case_decide as Ee; [|done]. subst e.
    apply kids_elem in Hin as (us & Hg & Hu). exists (domainStepByte, us). split; [done|]. cbn. apply existsb_elem. by exists w.
  - intros ([e us] & Hg & Hp). cbn in Hp. apply andb_true_iff in Hp as [He Hp]. apply bool_decide_eq_true in He as ->. apply existsb_elem in Hp as (w & Hu & Hp). exists (domainStepByte :: w).
    split; [apply kids_elem; by exists us|]. cbn [pm]. rewrite decide_False, decide_True, E by done. by rewrite decide_True.
Qed.

Lemma drop_label_dot t d rest : drop_label t = d :: rest → d = domainStepByte.
Proof. induction t as [|c t IH]; [done|]. cbn [drop_label]. case_decide; [intros; by simplify_eq|done]. Qed.

(** ** How many edges are below a node *)

Fixpoint esize (d : nat) (L : node) : nat :=
  match d with
  | O => O
  | S d => sum_list_with (λ g, S (esize d g.2)) (kids L)
  end.

Definition short (m : nat) (L : node) : Prop := Forall (λ w, (length w ≤ m)%nat) L.

Lemma short_kids m L : short (S m) L → Forall (λ g, short m g.2) (kids L).
Proof.
  intros H. apply list.Forall_forall. intros [c ws] Hc. apply list.Forall_forall. intros w Hw. cbn in Hw.
  assert (c :: w ∈ L) as Hin by (apply kids_elem; by exists ws). unfold short in H. rewrite list.Forall_forall in H. specialize (H _ Hin). cbn in H. lia.
Qed.

Lemma short_end L : short 0 L → kids L = [].
Proof. intros H. pose proof (kidsP_end ([], L) H) as E. unfold kidsP in E. by apply fmap_nil_inv in E. Qed.

Lemma sum_list_with_ext {A} (f g : A → nat) l : (∀ x, x ∈ l → f x = g x) → sum_list_with f l = sum_list_with g l.
Proof. induction l as [|x l IH]; intros H; [done|]. cbn. rewrite H, IH; [done| |by left]. intros y Hy. apply H. by right. Qed.

Lemma esize_stable m d L : short m L → (m ≤ d)%nat → esize (S d) L = sum_list_with (λ g, S (esize (S d) g.2)) (kids L).
Proof.
  revert d L. induction m as [|m IH]; intros d L Hs Hd; [cbn [esize]; by rewrite short_end|]. cbn [esize]. apply sum_list_with_ext. intros g Hg. f_equal.
  pose proof (short_kids m L Hs) as Hk. rewrite list.Forall_forall in Hk. specialize (Hk g Hg). destruct d as [|d]; [lia|]. rewrite (IH d g.2 Hk) by lia.
  change (sum_list_with (λ g0, S (esize (S d) g0.2)) (kids g.2) = sum_list_with (λ g0, S (esize (S d) g0.2)) (kids g.2)). done.
Qed.

(** ** The loop *)

Section scan.
Context `{HL : BitmapLaws} (ss : DomainSet) (root : pnode) (nodes : list pnode) (HS : louds ss root nodes).
Context (Hsize : (Z.of_nat (64 * length (labelBitmap ss)) < 2 ^ 31)%Z).
Context (key : bstr) (Hkey : Forall (λ c, (42 ≤ byte_val c)%Z) key).
Context (M : nat) (Hshort : Forall (λ n, short M n.2) nodes).

Abbreviation E := (esize (S M)).
Definition rem (m : nat) (L : node) : nat := sum_list_with (λ g, S (E g.2)) (drop m (kids L)).
Abbreviation Start := (start nodes).

Lemma node_wf k n : nodes !! k = Some n → wf n.2.
Proof. intros Hk. pose proof (louds_wf _ _ _ HS) as H1. by apply (Forall_lookup_1 _ _ _ _ H1 Hk). Qed.

Lemma node_E k n : nodes !! k = Some n → E n.2 = rem 0 n.2.
Proof. intros Hk. unfold rem. rewrite drop_0. apply (esize_stable M); [|done]. exact (Forall_lookup_1 _ _ _ _ Hshort Hk). Qed.

Lemma rem_kid m L g : kids L !! m = Some g → rem m L = (S (E g.2) + rem (S m) L)%nat.
Proof. intros Hm. unfold rem. by rewrite (drop_S _ _ _ Hm). Qed.

Lemma rem_mono m m' L : (m ≤ m')%nat → (rem m' L ≤ rem m L)%nat.
Proof.
  intros Hm. induction Hm as [|m' Hm IH]; [done|]. etransitivity; [|exact IH]. destruct (kids L !! m') as [g|] eqn:Eg; [rewrite (rem_kid m' L g Eg); lia|].
  unfold rem. apply lookup_ge_None in Eg. by rewrite !drop_ge by lia.
Qed.

(** The labels of a node grow. *)
Lemma kids_after L m c ws g : wf L → kids L !! m = Some (c, ws) → g ∈ drop (S m) (kids L) → (byte_val c < byte_val g.1)%Z.
Proof.
  intros Hw Hm Hg. destruct (kids_sorted L Hw) as [Hs _]. rewrite <- (take_drop_middle _ _ _ Hm), fmap_app in Hs. apply StronglySorted_app in Hs as (_ & _ & Hs).
  cbn [fmap list_fmap fst] in Hs. inversion Hs as [|? ? _ Hall]; subst. rewrite list.Forall_forall in Hall. apply Hall. by apply list_elem_of_fmap_2.
Qed.

Lemma kids_before L m c ws g : wf L → kids L !! m = Some (c, ws) → g ∈ take m (kids L) → (byte_val g.1 < byte_val c)%Z.
Proof.
  intros Hw Hm Hg. apply list_elem_of_lookup in Hg as [i Hi]. apply lookup_take_Some in Hi as [Hi Hlt]. destruct g as [d us]. apply (kids_after L i d us (c, ws) Hw Hi).
  apply (list_elem_of_lookup_2 _ (m - S i)%nat). rewrite lookup_drop. by replace (S i + (m - S i))%nat with m by lia.
Qed.

Lemma kid_wf L m g : wf L → kids L !! m = Some g → wf g.2.
Proof. intros Hw Hm. destruct (kids_sorted L Hw) as [_ Hs]. exact (Forall_lookup_1 _ _ _ _ Hs Hm). Qed.

(** After an edge that is not a wildcard and equals the byte, no other edge matters. *)
Lemma rest_rejects L m c ws t :
  wf L → kids L !! m = Some (c, ws) → (44 ≤ byte_val c)%Z → existsb (kid_accepts (c :: t)) (drop m (kids L)) = accepts ws t.
Proof.
  intros Hw Hm Hc. rewrite (drop_S _ _ _ Hm). cbn [existsb]. assert (∀ d, (44 ≤ byte_val d)%Z → d ≠ complexWildcardByte ∧ d ≠ wildcardByte) as Hd.
  { intros d Hd. pose proof marker_values. split; intros ->; lia. }
  destruct (Hd c Hc) as [Hc1 Hc2]. rewrite kid_plain, decide_True by done. rewrite existsb_false; [apply orb_false_r|]. intros [d us] Hg. pose proof (kids_after L m c ws _ Hw Hm Hg) as Hlt. cbn in Hlt.
  destruct (Hd d ltac:(lia)). rewrite kid_plain, decide_False; [done|intros ->; lia|done|done].
Qed.

Lemma skip_label_spec i :
  (i ≤ length key)%nat →
  ∃ j, skip_label (drop i key) (Z.of_nat i) = Z.of_nat j ∧ (i ≤ j ≤ length key)%nat ∧ drop j key = drop_label (drop i key).
Proof.
  intros Hi. remember (drop i key) as t eqn:Et. revert i Hi Et. induction t as [|c t IH]; intros i Hi Et.
  - exists i. split_and!; [done|lia|lia|done].
  - cbn [skip_label drop_label]. assert (key !! i = Some c) as Hc by (by rewrite <- (Nat.add_0_r i), <- lookup_drop, <- Et). case_decide as Ed; [exists i; by split_and!|].
    replace (Z.of_nat i + 1)%Z with (Z.of_nat (S i)) by lia. destruct (IH (S i)) as (j & E1 & E2 & E3).
    + by apply lookup_lt_Some in Hc.
    + rewrite (drop_S _ _ _ Hc) in Et. by simplify_eq.
    + exists j. split_and!; [done|lia|lia|done].
Qed.

Lemma find_dot_spec fuel k n m :
  nodes !! k = Some n → (m ≤ length (kids n.2))%nat → (length (kids n.2) - m < fuel)%nat →
  ∃ r, find_dot ss fuel (Z.of_nat k) (Z.of_nat (Start k + m)) = Some r ∧
    match r with
    | Some p => ∃ m' ws, p = Z.of_nat (Start k + m') ∧ kids n.2 !! m' = Some (domainStepByte, ws)
    | None => ∀ g, g ∈ drop m (kids n.2) → g.1 ≠ domainStepByte
    end.
Proof.
  intros Hk. revert m. induction fuel as [|fuel IH]; intros m Hm Hf; [lia|]. cbn [find_dot].
  destruct (getBit_node ss root nodes HS Hsize k n m Hk Hm) as (z & -> & Hz). cbn [mbind option_bind]. rewrite Hz. destruct (decide (m = length (kids n.2))) as [->|Hne].
  - rewrite bool_decide_true by done. cbn. exists None. split; [done|]. intros g. rewrite drop_all. intros Hg. by apply not_elem_of_nil in Hg.
  - rewrite bool_decide_false by done. cbn [negb]. destruct (lookup_lt_is_Some_2 (kids n.2) m ltac:(lia)) as [[c ws] Hg].
    rewrite (label_node ss root nodes HS Hsize k n m _ Hk Hg). cbn [mbind option_bind fst]. destruct (decide (c = domainStepByte)) as [->|Ed].
    + exists (Some (Z.of_nat (Start k + m))). split; [done|]. by exists m, ws.
    + replace (Z.of_nat (Start k + m) + 1)%Z with (Z.of_nat (Start k + S m)) by lia. destruct (IH (S m)) as (r & E1 & E2); [lia|lia|]. exists r. split; [done|]. destruct r; [done|].
      intros g Hin. rewrite (drop_S _ _ _ Hg) in Hin. apply elem_of_cons in Hin as [->|Hin]; [done|by apply E2].
Qed.

(** A saved wildcard: where in the text it was met, and what is below it. *)
Definition cur_rep (cu : wildcardCursor) (a : nat * node) : Prop :=
  ∃ k n m, nodes !! k = Some n ∧ kids n.2 !! m = Some (wildcardByte, a.2) ∧ c_bmIdx cu = Z.of_nat (Start k + m) ∧ c_index cu = Z.of_nat a.1 ∧ (a.1 < length key)%nat.
Definition cur_accepts (a : nat * node) : bool := kid_accepts (drop a.1 key) (wildcardByte, a.2).
Abbreviation sizes := (sum_list_with (λ a : nat * node, E a.2)).

Lemma kids_le_labels k n : nodes !! k = Some n → (length (kids n.2) ≤ length (labels ss))%nat.
Proof.
  intros Hk. destruct (length (kids n.2)) as [|d] eqn:El; [lia|]. destruct (lookup_lt_is_Some_2 (kids n.2) d ltac:(lia)) as [g Hg].
  pose proof (label_at ss root nodes HS Hsize k n d g Hk Hg) as Hl. apply lookup_lt_Some in Hl. lia.
Qed.

Lemma back_spec stack C :
  Forall2 cur_rep stack C →
  ∃ r, back ss key stack = Some r ∧
    match r with
    | Answer b => existsb cur_accepts C = b
    | Restart p nid i stack' => ∃ k n m j C', nodes !! k = Some n ∧ (m < length (kids n.2))%nat ∧ p = Z.of_nat (Start k + m) ∧ nid = Z.of_nat k ∧ i = Z.of_nat j
        ∧ (j < length key)%nat ∧ Forall2 cur_rep stack' C' ∧ (rem m n.2 + sizes C' ≤ sizes C)%nat
        ∧ existsb cur_accepts C = existsb (kid_accepts (drop j key)) (drop m (kids n.2)) || existsb cur_accepts C'
    end.
Proof.
  induction 1 as [|cu [i ws] stack C (k & n & m & Hk & Hm & Ep & Ei & Hi) HF IH]; [by exists (Answer false)|]. cbn [snd fst] in *. cbn [back]. rewrite Ep, Ei.
  pose proof (lookup_lt_Some _ _ _ Hm) as Hml. rewrite (zeros_node ss root nodes HS Hsize k n m Hk Hml). cbn [mbind option_bind].
  pose proof (child_at ss root nodes HS Hsize k n m _ Hk Hm) as Hc. cbn [fst snd] in Hc. set (c := (pre nodes k + m)%nat) in *.
  pose proof (node_wf _ _ Hc) as Hcw. cbn [snd] in Hcw. pose proof (node_E _ _ Hc) as HcE. cbn [snd] in HcE.
  rewrite Nat2Z.id. destruct (skip_label_spec i ltac:(lia)) as (j & -> & Hj & Hdj). destruct (lookup_lt_is_Some_2 key i Hi) as [c0 Hc0].
  assert (drop i key = c0 :: drop (S i) key) as Hdi by (by apply drop_S).
  cbn [existsb sum_list_with]. unfold cur_accepts at 1 3 5. cbn [fst snd]. rewrite Hdi in *.
  destruct (decide (j = length key)) as [->|Hne].
  - rewrite Z.eqb_refl. rewrite drop_all in Hdj. destruct (getBit_leaf ss root nodes HS Hsize _ _ Hc) as (z & -> & Hz). cbn [mbind option_bind]. rewrite Hz. cbn [snd].
    rewrite kid_star_end by done. destruct (leafb ws); cbn [negb]; [by exists (Answer true)|]. destruct IH as (r & E1 & E2). exists r. split; [done|]. destruct r; [done|].
    destruct E2 as (k' & n' & m' & j' & C' & ? & ? & ? & ? & ? & ? & ? & ? & ?). exists k', n', m', j', C'. split_and!; try done. lia.
  - rewrite (proj2 (Z.eqb_neq _ _)) by lia. destruct (lookup_lt_is_Some_2 key j ltac:(lia)) as [d Hd]. rewrite (drop_S _ _ _ Hd) in Hdj.
    rewrite (kid_star_dot c0 _ ws d (drop (S j) key)) by done. pose proof (drop_label_dot _ _ _ (eq_sym Hdj)) as ->.
    destruct (select_start ss root nodes HS Hsize c _ Hc) as (p & -> & Hp). cbn [mbind option_bind]. rewrite Hp.
    destruct (find_dot_spec (S (length (labels ss))) (S c) _ 0 Hc ltac:(lia)) as (r & -> & Hr); [pose proof (kids_le_labels _ _ Hc); lia|]. cbn [mbind option_bind snd] in *.
    destruct r as [q|].
    + destruct Hr as (m' & us & -> & Hm'). eexists. split; [done|]. cbv beta iota. exists (S c), (n.1 ++ [wildcardByte], ws), m', j, C. split_and!; [done|cbn; by apply lookup_lt_Some in Hm'|done|done|done|lia|done| |].
      * cbn [snd]. pose proof (rem_mono 0 m' ws ltac:(lia)). lia.
      * cbn [snd]. f_equal. rewrite (drop_S _ _ _ Hd), (rest_rejects ws m' _ us) by (done || (pose proof marker_values; lia)).
        rewrite <- (take_drop_middle _ _ _ Hm') at 1. rewrite existsb_app. cbn [existsb fst snd]. rewrite (bool_decide_true (domainStepByte = domainStepByte)) by done.
        rewrite (existsb_false _ (take m' (kids ws))), (existsb_false _ (drop (S m') (kids ws))); [by rewrite orb_false_r| |].
        -- intros g Hg. pose proof (kids_after ws m' _ us g Hcw Hm' Hg) as Hlt. rewrite bool_decide_false; [done|]. intros Eg. rewrite Eg in Hlt. lia.
        -- intros g Hg. pose proof (kids_before ws m' _ us g Hcw Hm' Hg) as Hlt. rewrite bool_decide_false; [done|]. intros Eg. rewrite Eg in Hlt. lia.
    + rewrite existsb_false; [|intros g Hg; rewrite drop_0 in Hr; by rewrite bool_decide_false by (by apply Hr)]. cbn [orb].
      destruct IH as (r & E1 & E2). exists r. split; [done|]. destruct r; [done|].
      destruct E2 as (k' & n' & m'' & j' & C' & ? & ? & ? & ? & ? & ? & ? & ? & ?). exists k', n', m'', j', C'. split_and!; try done. lia.
Qed.

Lemma set_scan_spec fuel i k n m stack C :
  nodes !! k = Some n → (m ≤ length (kids n.2))%nat → (i < length key)%nat → Forall2 cur_rep stack C →
  (2 * (rem m n.2 + sizes C) + (if decide (m = length (kids n.2)) then 1 else 0) < fuel)%nat →
  scan ss key fuel (Z.of_nat i) (Z.of_nat k) (Z.of_nat (Start k + m)) stack
  = Some (existsb (kid_accepts (drop i key)) (drop m (kids n.2)) || existsb cur_accepts C).
Proof.
  revert i k n m stack C. induction fuel as [|fuel IH]; intros i k n m stack C Hk Hm Hi HF Hfuel; [lia|]. cbn [scan].
  destruct (lookup_lt_is_Some_2 key i Hi) as [c0 Hc0]. rewrite (at_nat key i), Hc0. cbn [mbind option_bind].
  destruct (getBit_node ss root nodes HS Hsize k n m Hk Hm) as (z & -> & Hz). cbn [mbind option_bind]. rewrite Hz.
  destruct (decide (m = length (kids n.2))) as [->|Hne].
  { rewrite bool_decide_true, drop_all by done. cbn [negb existsb orb]. destruct (back_spec stack C HF) as (r & -> & Hr). cbn [mbind option_bind]. destruct r as [b|p nid j stack']; [by rewrite Hr|].
    destruct Hr as (k' & n' & m' & j' & C' & Hk' & Hm' & -> & -> & -> & Hj' & HF' & Hrem & Hacc). rewrite Hacc. apply IH; try done; [lia|]. rewrite decide_False by lia. lia. }
  rewrite bool_decide_false by done. cbn [negb]. destruct (lookup_lt_is_Some_2 (kids n.2) m ltac:(lia)) as [[c ws] Hg].
  rewrite (label_node ss root nodes HS Hsize k n m _ Hk Hg). cbn [mbind option_bind fst]. pose proof (node_wf k n Hk) as Hw. pose proof (kid_wf n.2 m _ Hw Hg) as Hws. cbn [snd] in Hws.
  pose proof (rem_kid m n.2 _ Hg) as Hrem. cbn [snd] in Hrem. pose proof (drop_S _ _ _ Hc0) as Hdi. pose proof (drop_S _ _ _ Hg) as Hdm.
  assert (∀ a : nat, (if decide (S m = a) then 1 else 0) ≤ 1)%nat as Hone by (intros a; destruct (decide (S m = a)); lia).
  pose proof (Hone (length (kids n.2))) as Hone1. replace (Z.of_nat (Start k + m) + 1)%Z with (Z.of_nat (Start k + S m)) by lia.
  destruct (decide (c = complexWildcardByte)) as [->|Hc1].
  { rewrite Hdi, Hdm. cbn [existsb]. rewrite kid_plus; [done|]. by destruct Hws. }
  destruct (decide (c = wildcardByte)) as [->|Hc2].
  { rewrite (IH i k n (S m) _ ((i, ws) :: C)); [|done|lia|done| |cbn [sum_list_with snd]; lia].
    - f_equal. rewrite Hdm. cbn [existsb]. unfold cur_accepts at 1. cbn [fst snd]. by rewrite <- orb_assoc, (orb_assoc _ (kid_accepts _ _)), (orb_comm (existsb _ (drop (S m) _)) (kid_accepts _ _)), <- orb_assoc.
    - constructor; [|done]. by exists k, n, m. }
  destruct (decide (c = c0)) as [->|Hc3].
  2: { rewrite (IH i k n (S m) stack C); [|done|lia|done|done|lia]. f_equal. rewrite Hdm. cbn [existsb]. rewrite Hdi, kid_plain, decide_False by done. done. }
  assert (44 ≤ byte_val c0)%Z as Hc44.
  { pose proof (Forall_lookup_1 _ _ _ _ Hkey Hc0) as H42. cbn in H42. pose proof marker_values as (V1 & V2 & _).
    assert (byte_val c0 ≠ 42)%Z by (intros Ev; apply Hc2, byte_val_inj; congruence). assert (byte_val c0 ≠ 43)%Z by (intros Ev; apply Hc1, byte_val_inj; congruence). lia. }
  rewrite Hdi, (rest_rejects n.2 m c0 ws) by done. pose proof (child_at ss root nodes HS Hsize k n m _ Hk Hg) as Hc. cbn [fst snd] in Hc.
  set (ch := (n.1 ++ [c0], ws)) in *. pose proof (node_E _ _ Hc) as HcE. change (E ch.2) with (E ws) in HcE. set (c := (pre nodes k + m)%nat) in *.
  assert ((Z.of_nat (Start k + m) - Z.of_nat k + 1)%Z = Z.of_nat (S c)) as -> by (unfold start, c; lia).
  destruct (decide (i = length key - 1)%nat) as [Hlast|Hlast].
  - rewrite (proj2 (Z.eqb_eq _ _)) by lia. destruct (getBit_leaf ss root nodes HS Hsize _ _ Hc) as (l & -> & Hl). cbn [mbind option_bind]. rewrite Hl. change (leafb ch.2) with (leafb ws).
    rewrite drop_ge by lia. rewrite accepts_end by done. destruct (leafb ws); cbn [negb]; [done|]. cbn [orb]. destruct HF as [|cu a stack C Hcu HF]; [done|].
    rewrite (select_node ss root nodes HS Hsize _ _ Hc). cbn [mbind option_bind]. rewrite (IH i (S c) ch _ (cu :: stack) (a :: C)); [|done|lia|done|by constructor|].
    + by rewrite drop_all.
    + unfold rem at 1. rewrite drop_all. rewrite decide_True by done. cbn [sum_list_with] in *. lia.
  - rewrite (proj2 (Z.eqb_neq _ _)) by lia. destruct (select_start ss root nodes HS Hsize c _ Hc) as (p & -> & Hp). cbn [mbind option_bind]. rewrite Hp.
    replace (Z.of_nat i + 1)%Z with (Z.of_nat (S i)) by lia. rewrite (IH (S i) (S c) ch 0%nat stack C); [|done|lia|lia|done|].
    + rewrite drop_0. f_equal. f_equal. destruct (lookup_lt_is_Some_2 key (S i) ltac:(lia)) as [c1 Hc1']. rewrite (drop_S _ _ _ Hc1'). symmetry. by apply accepts_kids.
    + rewrite <- HcE. change (E ch.2) with (E ws). clear HcE. generalize dependent (E ws). intros e Hr. destruct (decide (0%nat = _)); lia.
Qed.
End scan.

(** ** The whole search *)

Lemma esize_total `{HL : BitmapLaws} ss root nodes M :
  louds ss root nodes → Forall (λ n, short M n.2) nodes → esize (S M) root.2 = length (labels ss).
Proof.
  intros HS Hsh. rewrite (louds_labels _ _ _ HS). pose proof (louds_bfs _ _ _ HS) as HB. unfold breadth_first in HB.
  set (f := λ n : pnode, esize (S M) n.2). assert (∀ l, Forall (λ n, short M n.2) l → sum_list_with f l = (length (concat ((λ n : pnode, (kids n.2).*1) <$> l)) + sum_list_with f (concat (kidsP <$> l)))%nat) as Hsum.
  { clear. induction l as [|n l IH]; intros Hl; [done|]. apply list.Forall_cons in Hl as [Hn Hl]. cbn [sum_list_with fmap list_fmap concat]. rewrite length_app, sum_list_with_app, (IH Hl), length_fmap.
    assert (f n = length (kids n.2) + sum_list_with f (kidsP n))%nat as ->; [|lia]. unfold f at 1. rewrite (esize_stable M) by done. unfold kidsP. generalize (kids n.2). intros gs.
    induction gs as [|g gs IHg]; [done|]. cbn [sum_list_with fmap list_fmap length]. rewrite IHg. unfold f at 2. cbn [snd]. lia. }
  specialize (Hsum nodes Hsh). assert (sum_list_with f nodes = f root + sum_list_with f (concat (kidsP <$> nodes)))%nat as Hs2 by (remember (concat (kidsP <$> nodes)) as C; by rewrite HB).
  fold (f root). lia.
Qed.

Lemma inherits_short root nodes m : inherits root nodes → short m root.2 → Forall (λ n, short m n.2) nodes.
Proof.
  intros HI Hr. apply HI; [|done]. intros n Hn. unfold kidsP. apply Forall_fmap, list.Forall_forall. intros [c ws] Hc. apply list.Forall_forall. intros w Hw. cbn in Hw.
  assert (c :: w ∈ n.2) as Hin by (apply kids_elem; by exists ws). unfold short in Hn. rewrite list.Forall_forall in Hn. specialize (Hn _ Hin). cbn in Hn. lia.
Qed.

Lemma Has_louds `{HL : BitmapLaws} `{UC : UnicodeCase} ss nodes K q :
  louds ss ([], K) nodes → (Z.of_nat (64 * length (labelBitmap ss)) < 2 ^ 31)%Z → Forall (λ c, (42 ≤ byte_val c)%Z) (revLower (normalize q)) →
  Has (Some ss) q = Some (accepts K (revLower (normalize q))).
Proof.
  intros HS Hsize Hq. unfold Has. set (key := revLower (normalize q)) in *. pose proof (louds_bfs _ _ _ HS) as HB. unfold breadth_first in HB.
  assert (nodes !! 0%nat = Some ([], K)) as Hz0 by (by rewrite HB). assert (wf K) as Hw by (pose proof (louds_wf _ _ _ HS) as Hwf; exact (Forall_lookup_1 _ _ _ _ Hwf Hz0)).
  destruct key as [|c key'] eqn:Ek.
  - destruct (getBit_leaf ss _ nodes HS Hsize 0 _ Hz0) as (z & Hz & E). change (Z.of_nat 0) with 0%Z in Hz. rewrite Hz. cbn [mbind option_bind]. rewrite E, accepts_end by done. cbn [snd]. by rewrite negb_involutive.
  - rewrite <- Ek in *. pose proof (inherits_short _ _ (longest K) (louds_inherits _ _ _ HS) (longest_spec K)) as Hsh. pose proof (esize_total ss _ nodes _ HS Hsh) as Ht. cbn [snd] in Ht.
    pose proof (set_scan_spec ss ([], K) nodes HS Hsize key Hq (longest K) Hsh (2 * length (labels ss) + 2) 0 0 ([], K) 0 [] [] Hz0 ltac:(lia) ltac:(rewrite Ek; cbn; lia) ltac:(constructor)) as Hscan.
    change (Z.of_nat 0) with 0%Z in Hscan. change (Z.of_nat (start nodes 0 + 0)) with 0%Z in Hscan. rewrite Hscan.
    + rewrite !drop_0, Ek. cbn [existsb snd]. rewrite orb_false_r. f_equal. symmetry. by apply accepts_kids.
    + cbn [snd sum_list_with]. assert (rem (longest K) 0 K = length (labels ss)) as ->; [|destruct (decide (0%nat = _)); lia].
      rewrite <- Ht. unfold rem. rewrite drop_0. symmetry. apply (esize_stable (longest K)); [apply longest_spec|done].
Qed.
