(* ===== verification/DomainSetTrie.v ===== *)
(** * The succinct set and the trie agree *)

From Stdlib Require Import ZArith Lia Ascii.
From stdpp Require Import base list strings numbers sorting.
From S2P Require Import Prelude GoStrings GoIO DomainTrie DomainSet DomainSetTheory DomainSetSearch.
#[local] Open Scope string_scope.
#[local] Open Scope list_scope.

(** ** ASCII strings as bytes *)

Definition ascii_str (s : string) : Prop := all_ascii s = true.

Lemma bytes_map_bytes f s : bytes (map_bytes f s) = f <$> bytes s.
Proof. induction s as [|c s IH]; [done|]. cbn. by rewrite IH. Qed.

Lemma bytes_app s t : bytes (s +:+ t) = bytes s ++ bytes t.
Proof. induction s as [|c s IH]; [done|]. change (c :: bytes (s +:+ t) = c :: (bytes s ++ bytes t)). by rewrite IH. Qed.

Lemma ascii_str_bytes s : ascii_str s ↔ Forall (λ c, is_ascii c = true) (bytes s).
Proof.
  unfold ascii_str. induction s as [|c s IH]; [split; [constructor|done]|]. cbn [all_ascii bytes]. rewrite andb_true_iff, IH, list.Forall_cons. done.
Qed.

Lemma decode_rune_ascii c l : is_ascii c = true → decode_rune (c :: l) = ([c], 1%nat).
Proof. unfold is_ascii. intros Hc. unfold decode_rune, rune_shape. by rewrite Hc. Qed.

Lemma runes_ascii fuel l : Forall (λ c, is_ascii c = true) l → (length l ≤ fuel)%nat → runes fuel l = (λ c, [c]) <$> l.
Proof.
  revert l. induction fuel as [|fuel IH]; intros l Hl Hf; [by destruct l; [|cbn in Hf; lia]|]. destruct Hl as [|c l Hc Hl]; [done|]. cbn [runes].
  rewrite decode_rune_ascii by done. change (drop 1 (c :: l)) with l. rewrite IH; [done|done|cbn in Hf; lia].
Qed.

Lemma concat_singletons {A} (l : list A) : concat ((λ c, [c]) <$> l) = l.
Proof. induction l as [|x l IH]; [done|]. cbn. by rewrite IH. Qed.

Lemma bytes_Reverse s : ascii_str s → bytes (Reverse s) = rev (bytes s).
Proof.
  intros Hs. unfold Reverse. rewrite bytes_of_bytes, runes_ascii by (by apply ascii_str_bytes || (rewrite length_bytes; lia)).
  change ((λ c, [c]) <$> bytes s) with (map (λ c, [c]) (bytes s)). rewrite <- map_rev. apply concat_singletons.
Qed.

(** ** A path of labels as bytes from the end *)

Section enc.
Context (lab : string → bstr).

Fixpoint enc (path : list string) : bstr :=
  match path with
  | [] => []
  | l :: path => lab l ++ match path with [] => [] | _ => domainStepByte :: enc path end
  end.

Definition rest_of (path : list string) : bstr := match path with [] => [] | _ => domainStepByte :: enc path end.

Lemma enc_cons l path : enc (l :: path) = lab l ++ rest_of path.
Proof. done. Qed.
End enc.

Definition plain_label (l : string) : bstr := rev (bytes l).
(** The empty first label of a pattern is written [+]. *)
Definition key_label (l : string) : bstr := if decide (l = dotWildcard) then [complexWildcardByte] else plain_label l.

Lemma Join_cons x l sep : l ≠ [] → Join (x :: l) sep = x +:+ sep +:+ Join l sep.
Proof. by destruct l. Qed.

Lemma bytes_Join x l : bytes (Join (x :: l) (String domainStep EmptyString)) = bytes x ++ match l with [] => [] | _ => domainStepByte :: bytes (Join l (String domainStep EmptyString)) end.
Proof. destruct l as [|y l]; [by rewrite app_nil_r|]. rewrite Join_cons by done. by rewrite !bytes_app. Qed.

Lemma Join_snoc l x : l ≠ [] → bytes (Join (l ++ [x]) (String domainStep EmptyString)) = bytes (Join l (String domainStep EmptyString)) ++ domainStepByte :: bytes x.
Proof.
  induction l as [|y l IH]; intros H; [done|]. change ((y :: l) ++ [x]) with (y :: (l ++ [x])). rewrite !bytes_Join. destruct l as [|z l]; [by rewrite app_nil_r|].
  rewrite IH by done. change ((z :: l) ++ [x]) with (z :: (l ++ [x])). cbn [app]. by rewrite <- app_assoc.
Qed.

Lemma enc_join parts : rev (bytes (joinDomain parts)) = enc plain_label (rev parts).
Proof.
  unfold joinDomain. induction parts as [|x parts IH] using rev_ind; [done|]. rewrite rev_app_distr. change (rev [x] ++ rev parts) with (x :: rev parts). rewrite enc_cons.
  destruct parts as [|y parts]; [cbn; by rewrite app_nil_r|]. rewrite Join_snoc by done. set (ps := y :: parts) in *. rewrite rev_app_distr.
  change (rev (domainStepByte :: bytes x)) with (rev (bytes x) ++ [domainStepByte]). rewrite IH, <- app_assoc. unfold rest_of.
  destruct (rev ps) as [|z l] eqn:E; [by apply (f_equal length) in E; rewrite length_rev in E|]. done.
Qed.

(** ** Patterns of labels and patterns of bytes *)

Definition no_dot (l : string) : Prop := domainStepByte ∉ bytes l.
Definition no_marker (l : string) : Prop := l ≠ "" ∧ wildcardByte ∉ bytes l ∧ complexWildcardByte ∉ bytes l.
Definition good_label (l : string) : Prop := no_dot l ∧ (l = wildcard ∨ no_marker l).

(** A path from the last label to the first: the first may be empty. *)
Fixpoint good_path (p : list string) : Prop :=
  match p with
  | [] => True
  | l :: p => (l = dotWildcard ∧ p = []) ∨ (good_label l ∧ good_path p)
  end.

Definition good_text (t : list string) : Prop := Forall (λ s, s ≠ "" ∧ no_dot s) t.

(** What follows a label: nothing, or a dot. *)
Definition after_label (R : bstr) : Prop := R = [] ∨ ∃ R', R = domainStepByte :: R'.

Lemma rest_of_after lab p : after_label (rest_of lab p).
Proof. destruct p; [by left|right; by eexists]. Qed.

Lemma elem_of_rev_bytes c l : c ∈ plain_label l ↔ c ∈ bytes l.
Proof. unfold plain_label. rewrite !list_elem_of_In, <- in_rev. done. Qed.

Lemma pm_plain w u R R2 :
  (∀ c, c ∈ w → c ≠ complexWildcardByte ∧ c ≠ wildcardByte ∧ c ≠ domainStepByte) → domainStepByte ∉ u → after_label R → after_label R2 →
  pm (w ++ R) (u ++ R2) = true ↔ w = u ∧ pm R R2 = true.
Proof.
  intros Hw Hu HR HR2. revert u Hu. induction w as [|c w IH]; intros u Hu; cbn [app].
  - destruct u as [|d u]; [cbn; tauto|]. split; [|by intros [? _]]. intros Hp. exfalso. destruct HR as [->|[R' ->]]; [done|]. cbn [app pm] in Hp. rewrite !decide_False in Hp; [done| |done|done].
    intros <-. apply Hu. by left.
  - destruct (Hw c ltac:(by left)) as (H1 & H2 & H3). destruct u as [|d u].
    + split; [|by intros [? _]]. intros Hp. exfalso. cbn [app] in Hp. destruct HR2 as [->|[R' ->]]; [done|]. cbn [pm] in Hp. by rewrite !decide_False in Hp.
    + cbn [app pm]. rewrite (decide_False (P := c = complexWildcardByte)), (decide_False (P := c = wildcardByte)) by done. destruct (decide (c = d)) as [->|Hne]; [|split; [done|intros [? _]; congruence]].
      rewrite IH; [|intros c Hc; apply Hw; by right|intros Hc; apply Hu; by right]. split; intros [? ?]; split; congruence.
Qed.

Lemma drop_label_rest u R : domainStepByte ∉ u → after_label R → drop_label (u ++ R) = R.
Proof.
  intros Hu HR. induction u as [|c u IH]; cbn [app].
  - destruct HR as [->|[R' ->]]; [done|]. cbn [drop_label]. by rewrite decide_True.
  - cbn [drop_label]. rewrite decide_False by (intros ->; apply Hu; by left). apply IH. intros Hc. apply Hu. by right.
Qed.

Lemma plain_label_nonempty l : l ≠ "" → plain_label l ≠ [].
Proof. intros H E. apply (f_equal length) in E. unfold plain_label in E. rewrite length_rev in E. by destruct l. Qed.

Lemma plain_label_inj l s : plain_label l = plain_label s → l = s.
Proof. unfold plain_label. intros H. apply (f_equal (@rev ascii)) in H. rewrite !rev_involutive in H. by apply bytes_inj. Qed.

Lemma pm_dot w t : pm (domainStepByte :: w) (domainStepByte :: t) = pm w t.
Proof. done. Qed.

Lemma pm_enc p t : good_path p → good_text t → pm (enc key_label p) (enc plain_label t) = true ↔ matches p t.
Proof.
  revert t. induction p as [|l p IH]; intros t Hp Ht.
  { destruct Ht as [|s t [Hs Hd] Ht]; [done|]. rewrite enc_cons. cbn [enc matches]. pose proof (plain_label_nonempty s Hs). by destruct (plain_label s). }
  destruct Ht as [|s t [Hs Hd] Ht].
  { rewrite enc_cons. cbn [enc matches]. assert (key_label l ≠ []) as Hk.
    { unfold key_label. case_decide; [done|by apply plain_label_nonempty]. } by destruct (key_label l). }
  rewrite !enc_cons. assert (plain_label s ≠ []) as Hsn by (by apply plain_label_nonempty). assert (domainStepByte ∉ plain_label s) as Hsd by (by rewrite elem_of_rev_bytes).
  assert (good_path p → pm (rest_of key_label p) (rest_of plain_label t) = true ↔ matches p t) as Hrest.
  { intros Hgp. destruct p as [|l' p], t as [|s' t]; [done|done|done|]. cbn [rest_of]. rewrite pm_dot. by apply IH. }
  cbn [good_path] in Hp. destruct Hp as [[-> ->]|[[Hdl Hl] Hp]].
  - unfold key_label. rewrite decide_True by done. cbn [app]. destruct (plain_label s) as [|c u]; [done|]. cbn [app pm matches]. rewrite decide_True by done. split; [by right|done].
  - specialize (Hrest Hp). cbn [matches]. destruct Hl as [->|(Hne & Hst & Hpl)].
    + change (key_label wildcard) with [wildcardByte]. cbn [app]. destruct (plain_label s) as [|c u] eqn:Eu; [done|]. cbn [app pm]. rewrite decide_False, decide_True by done.
      change (c :: u ++ rest_of plain_label t) with ((c :: u) ++ rest_of plain_label t). rewrite drop_label_rest by (done || apply rest_of_after).
      assert (matches p t ↔ ((wildcard = s ∨ wildcard = wildcard) ∧ matches p t) ∨ wildcard = dotWildcard ∧ p = []) as <- by (split; [intros; left; split; [by right|done]|intros [[_ ?]|[? _]]; done]).
      rewrite <- Hrest. destruct p as [|l' p], t as [|s' t]; cbn [rest_of]; [done|done|done|]. rewrite pm_dot. by rewrite decide_True.
    + unfold key_label. rewrite decide_False by done. rewrite pm_plain; [|..|apply rest_of_after|apply rest_of_after].
      * rewrite Hrest. split.
        -- intros [E Hm]. apply plain_label_inj in E. left. split; [by left|done].
        -- intros [[[->| ->] Hm]|[? _]]; [done| |done]. exfalso. apply Hst. by left.
      * intros c Hc. rewrite elem_of_rev_bytes in Hc. split_and!; intros ->; done.
      * done.
Qed.

(** ** Valid domains *)

Lemma Split_no_sep s sep : Forall (λ l, sep ∉ bytes l) (Split s sep).
Proof.
  induction s as [|c s IH]; cbn [Split]; [constructor; [apply not_elem_of_nil|constructor]|]. case_bool_decide as E; [constructor; [apply not_elem_of_nil|done]|].
  destruct (Split s sep) as [|h t]; [constructor; [|constructor]|apply list.Forall_cons in IH as [Hh Ht]; constructor; [|done]]; cbn [bytes]; rewrite elem_of_cons; intros [?|Hin]; try congruence.
  by apply not_elem_of_nil in Hin.
Qed.

Lemma Split_ascii s sep : ascii_str s → Forall ascii_str (Split s sep).
Proof.
  induction s as [|c s IH]; cbn [Split]; [by repeat constructor|]. rewrite ascii_str_bytes. cbn [bytes]. intros [Hc Hs]%list.Forall_cons. apply ascii_str_bytes in Hs. specialize (IH Hs).
  case_bool_decide; [by constructor|]. destruct (Split s sep) as [|h t]; [constructor; [|constructor]|apply list.Forall_cons in IH as [Hh Ht]; constructor; [|done]]; apply ascii_str_bytes; cbn [bytes]; constructor; try done.
  by apply ascii_str_bytes.
Qed.

Lemma join_ascii l : Forall ascii_str l → ascii_str (joinDomain l).
Proof.
  induction 1 as [|x l Hx Hl IH]; [done|]. apply ascii_str_bytes. unfold joinDomain. rewrite bytes_Join. apply ascii_str_bytes in Hx, IH. apply Forall_app. split; [done|]. destruct l; [constructor|]. by constructor.
Qed.

Lemma lower_ascii `{UnicodeCase} s : ascii_str s → ascii_str (ToLower s) ∧ bytes (ToLower s) = lower_byte <$> bytes s.
Proof.
  intros Hs. unfold ToLower. rewrite Hs. rewrite bytes_map_bytes. split; [|done]. apply ascii_str_bytes. rewrite bytes_map_bytes. apply ascii_str_bytes in Hs. apply Forall_fmap.
  eapply list.Forall_impl; [exact Hs|]. intros c. unfold is_ascii, lower_byte. cbn. rewrite !Z.ltb_lt. intros Hc. destruct ((65 <=? byte_val c)%Z && (byte_val c <=? 90)%Z) eqn:E; [|done].
  apply andb_true_iff in E as [H1%Z.leb_le H2%Z.leb_le]. rewrite byte_val_of; lia.
Qed.

Lemma Contains_char s c : Contains s (String c EmptyString) = true ↔ c ∈ bytes s.
Proof.
  induction s as [|d s IH]; cbn [Contains bytes]; [split; [done|intros H; by apply not_elem_of_nil in H]|]. assert (HasPrefix (String d s) (String c EmptyString) = bool_decide (c = d)) as -> by (cbn; destruct s; by rewrite andb_true_r). rewrite orb_true_iff, IH, bool_decide_eq_true, elem_of_cons. done.
Qed.

Lemma wildcard_error_none n i parts j part :
  wildcard_error n i parts = None → parts !! j = Some part →
  (complexWildcardByte ∈ bytes part → part = complexWildcard ∧ (i + j)%nat = 0%nat ∧ n ≠ 1%nat) ∧ (wildcardByte ∈ bytes part → part = wildcard).
Proof.
  revert i j. induction parts as [|x parts IH]; intros i j He Hj; [done|]. cbn [wildcard_error] in He. unfold complexWildcard, wildcard in He. rewrite <- !Contains_char.
  destruct (Contains x "+" && bool_decide (x ≠ "+")) eqn:E1; [done|]. destruct (Contains x "+" && negb (i =? 0)%nat) eqn:E2; [done|].
  destruct (Contains x "+" && (n =? 1)%nat) eqn:E3; [done|]. destruct (Contains x "*" && bool_decide (x ≠ "*")) eqn:E4; [done|]. destruct j as [|j].
  - cbn in Hj. injection Hj as ->. split; intros Hc; change (String complexWildcardByte "") with "+" in *; change (String wildcardByte "") with "*" in *.
    + rewrite Hc in E1, E2, E3. cbn in E1, E2, E3. apply bool_decide_eq_false in E1. apply negb_false_iff, Nat.eqb_eq in E2. apply Nat.eqb_neq in E3. split_and!; [by apply dec_stable|lia|done].
    + rewrite Hc in E4. cbn in E4. apply bool_decide_eq_false in E4. by apply dec_stable.
  - rewrite !Contains_char. cbn in Hj. destruct (IH (S i) j He Hj) as [H1 H2]. split; [|done]. intros Hc. destruct (H1 Hc) as (? & ? & ?). lia.
Qed.

Lemma empty_label_none k parts : empty_label k parts = None → Forall (λ l, l ≠ "") parts.
Proof. revert k. induction parts as [|x parts IH]; intros k; cbn [empty_label]; [constructor|]. case_decide; [done|]. intros He. constructor; [done|by apply (IH (S k))]. Qed.

(** What a valid domain looks like. *)
Lemma valid_parts `{UnicodeCase} d parts :
  ValidAndSplitDomain d = Ok parts →
  ∃ f rest, parts = f :: rest ∧ parts = Split (ToLower d) domainStep ∧ Forall good_label rest ∧ no_dot f ∧ (f = complexWildcard → rest ≠ [])
    ∧ (f = dotWildcard ∨ f = complexWildcard ∨ good_label f).
Proof.
  unfold ValidAndSplitDomain. repeat (case_decide || case_match; [done|]). set (ps := Split (ToLower d) domainStep) in *. pose proof (Split_no_sep (ToLower d) domainStep) as Hdots. fold ps in Hdots.
  intros Hv. destruct ps as [|f rest] eqn:Eps; [by apply Split_nonempty in Eps|].
  assert (Forall (λ l, l ≠ "") rest) as Hne.
  { destruct rest as [|r rest']; [constructor|]. destruct (empty_label 2 (tail (f :: r :: rest'))) eqn:El; [done|]. by apply (empty_label_none 2). }
  assert (wildcard_error (length (f :: rest)) 0 (f :: rest) = None ∧ parts = f :: rest) as [Hw ->].
  { destruct rest as [|r rest'].
    - destruct (decide (f = "")); [done|]. destruct (wildcard_error _ _ _); [done|]. by simplify_eq.
    - destruct (empty_label 2 (tail (f :: r :: rest'))) eqn:El; [done|]. cbn [fmap option_fmap option_map] in Hv. destruct (wildcard_error _ _ _); [done|]. by simplify_eq. }
  apply list.Forall_cons in Hdots as [Hdf Hdr]. exists f, rest. split_and!; [done|done| |done| |].
  - apply Forall_lookup_2. intros j l Hl. pose proof (wildcard_error_none _ _ _ (S j) l Hw Hl) as [Hp1 Hp2]. split; [exact (Forall_lookup_1 _ _ _ _ Hdr Hl)|].
    destruct (decide (wildcardByte ∈ bytes l)) as [Hs|Hs]; [left; by apply Hp2|right]. split_and!; [exact (Forall_lookup_1 _ _ _ _ Hne Hl)|done|]. intros Hp. destruct (Hp1 Hp) as (_ & ? & _). lia.
  - intros -> ->. pose proof (wildcard_error_none _ _ _ 0 complexWildcard Hw eq_refl) as [Hp1 _]. destruct (Hp1 ltac:(by left)) as (_ & _ & ?). done.
  - pose proof (wildcard_error_none _ _ _ 0 f Hw eq_refl) as [Hp1 Hp2]. destruct (decide (f = dotWildcard)); [by left|right]. destruct (decide (complexWildcardByte ∈ bytes f)) as [Hp|Hp]; [left; by apply Hp1|right].
    split; [done|]. destruct (decide (wildcardByte ∈ bytes f)); [left; by apply Hp2|right]. done.
Qed.

(** ** What the builder collects *)

Section collect.
Context `{UC : UnicodeCase}.

(** The keys after inserting domains; domains that are not valid are skipped. *)
Definition keys_of (domains : list string) : list string :=
  fold_left (λ ks d, match Builder_Insert ks d with Ok ks => ks | Err _ => ks end) domains [].

Lemma enc_ext lab lab' p p' : Forall2 (λ a b, lab a = lab' b) p p' → enc lab p = enc lab' p'.
Proof. induction 1 as [|a b p p' Hab HF IH]; [done|]. rewrite !enc_cons, Hab. f_equal. unfold rest_of. destruct HF; [done|]. by rewrite IH. Qed.

Lemma good_path_rev rest : Forall good_label rest → good_path (rev rest).
Proof.
  intros H. assert (Forall good_label (rev rest)) as Hr by (by rewrite <- (rev_involutive rest) in H; apply Forall_rev in H; rewrite rev_involutive in H).
  induction Hr as [|l p Hl Hp IH]; [done|]. right. done.
Qed.

Lemma good_path_snoc p f : Forall good_label p → f = dotWildcard ∨ good_label f → good_path (p ++ [f]).
Proof. induction 1 as [|l p Hl Hp IH]; intros Hf; cbn [app good_path]; [destruct Hf; [by left|by right]|right; split; [done|by apply IH]]. Qed.

Lemma key_label_plain l : l ≠ "" → key_label l = plain_label l.
Proof. intros H. unfold key_label. by rewrite decide_False. Qed.

Lemma good_label_nonempty l : good_label l → l ≠ "".
Proof. by intros [_ [->|[? _]]]. Qed.

Lemma builder_insert_elem ks f rest :
  Forall ascii_str (f :: rest) → Forall good_label rest →
  ∃ k, builder_insert ks (f :: rest) = ks ++ [k]
    ∧ bytes k = enc key_label (rev rest ++ [if decide (f = complexWildcard) then dotWildcard else f]).
Proof.
  intros [Hf Hr]%list.Forall_cons Hg. eexists. split; [reflexivity|]. set (f' := if decide (f = dotWildcard) then complexWildcard else f).
  assert (Forall ascii_str (f' :: rest)) as Ha by (constructor; [unfold f'; by case_decide|done]). rewrite bytes_Reverse by (by apply join_ascii). rewrite enc_join. cbn [rev].
  apply enc_ext, Forall2_app.
  - apply Forall_Forall2_diag. apply Forall_rev. eapply list.Forall_impl; [exact Hg|]. intros l Hl. cbn. by rewrite key_label_plain by (by apply good_label_nonempty).
  - constructor; [|constructor]. unfold f'. destruct (decide (f = dotWildcard)) as [->|Hn]; [done|]. destruct (decide (f = complexWildcard)) as [->|]; [done|]. by rewrite key_label_plain.
Qed.

Lemma Insert_keys ks d :
  ascii_str d →
  ∃ new, match Builder_Insert ks d with Ok ks => ks | Err _ => ks end = ks ++ new
    ∧ (∀ k, k ∈ new ↔ ∃ p, p ∈ patterns d ∧ bytes k = enc key_label p) ∧ Forall good_path (patterns d).
Proof.
  intros Ha. unfold Builder_Insert, patterns. destruct (ValidAndSplitDomain d) as [parts|e] eqn:Ev; [|exists []; rewrite app_nil_r; split_and!; [done| |constructor]; intros k; split;
    [intros H; by apply not_elem_of_nil in H|intros (p & H & _); by apply not_elem_of_nil in H]].
  destruct (valid_parts d parts Ev) as (f & rest & -> & Es & Hg & Hdf & Hfr & Hf). pose proof (Split_ascii (ToLower d) domainStep (proj1 (lower_ascii d Ha))) as Hsa. rewrite <- Es in Hsa.
  assert (∀ (k : string) b, bytes k = b ↔ k = of_bytes b) as Hkb by (intros k b; split; [intros <-; by rewrite of_bytes_bytes|intros ->; by rewrite bytes_of_bytes]).
  assert (Forall good_label (rev rest)) as Hgr by (by apply Forall_rev).
  cbn [is_ok]. destruct (decide (f = complexWildcard)) as [->|Hn].
  - destruct rest as [|r rest]; [by destruct Hfr|]. apply list.Forall_cons in Hsa as [Hsf Hsr]. pose proof Hg as [Hr Hg']%list.Forall_cons.
    destruct (builder_insert_elem ks r rest Hsr Hg') as (k1 & -> & Hk1). destruct (builder_insert_elem (ks ++ [k1]) complexWildcard (r :: rest) ltac:(by constructor) Hg) as (k2 & -> & Hk2).
    rewrite decide_True in Hk2 by done. rewrite decide_False in Hk1 by (intros ->; destruct Hr as [_ [?|(_ & _ & Hp)]]; [done|apply Hp; by left]).
    exists [k1; k2]. rewrite <- app_assoc. split_and!; [done| |].
    + intros k. rewrite !elem_of_cons, elem_of_nil. apply Hkb in Hk1, Hk2. setoid_rewrite elem_of_cons. setoid_rewrite list_elem_of_singleton. setoid_rewrite Hkb. split.
      * intros [->|[->|[]]]; [exists (rev (r :: rest)); split; [by left|done]|exists (rev (dotWildcard :: r :: rest)); split; [by right|done]].
      * intros (p & [->| ->] & ->); [by left|right; by left].
    + constructor; [by apply good_path_rev|]. constructor; [|constructor]. apply good_path_snoc; [done|by left].
  - destruct (builder_insert_elem ks f rest Hsa Hg) as (k1 & -> & Hk1). rewrite decide_False in Hk1 by done. exists [k1]. split_and!; [done| |].
    + intros k. rewrite list_elem_of_singleton. setoid_rewrite list_elem_of_singleton. rewrite Hkb in Hk1. setoid_rewrite Hkb. split; [intros ->; by exists (rev (f :: rest))|intros (p & -> & ->); done].
    + constructor; [|constructor]. apply good_path_snoc; [done|]. destruct Hf as [->|[->|Hf]]; [by left|done|by right].
Qed.

Lemma keys_of_elem domains :
  Forall ascii_str domains →
  (∀ k, k ∈ keys_of domains ↔ ∃ d p, d ∈ domains ∧ p ∈ patterns d ∧ bytes k = enc key_label p) ∧ ∀ d, d ∈ domains → Forall good_path (patterns d).
Proof.
  unfold keys_of. induction domains as [|d domains IH] using rev_ind; intros Ha.
  { split; [|intros d H; by apply not_elem_of_nil in H]. intros k. split; [intros H; by apply not_elem_of_nil in H|intros (? & ? & H & _); by apply not_elem_of_nil in H]. }
  apply Forall_app in Ha as [Ha [Hd _]%list.Forall_cons]. destruct (IH Ha) as [IH1 IH2]. rewrite fold_left_app. cbn [fold_left].
  destruct (Insert_keys (fold_left (λ ks d, match Builder_Insert ks d with Ok ks => ks | Err _ => ks end) domains []) d Hd) as (new & -> & Hn & Hgp). split.
  - intros k. rewrite elem_of_app, IH1, Hn. setoid_rewrite elem_of_app. setoid_rewrite list_elem_of_singleton. split.
    + intros [(d' & p & ? & ? & ?)|(p & ? & ?)]; [exists d', p; split_and!; [by left|done|done]|exists d, p; split_and!; [by right|done|done]].
    + intros (d' & p & [?| ->] & ? & ?); [left; by exists d', p|right; by exists p].
  - intros d' [?| ->%list_elem_of_singleton]%elem_of_app; [by apply IH2|done].
Qed.
End collect.

(** ** Properties *)

(** The indexes of the library are 32 bits wide. *)
Definition fits (ss : option DomainSet) : Prop :=
  match ss with Some ss => (Z.of_nat (64 * length (labelBitmap ss)) < 2 ^ 31)%Z | None => True end.

Section properties.
Context `{HL : BitmapLaws} `{UC : UnicodeCase}.

End properties.
