(* ===== verification/DomainSetBin.v ===== *)
(** * Listing the succinct set, and its binary form *)

From Stdlib Require Import ZArith Lia Ascii.
From stdpp Require Import base list strings numbers sorting.
From S2P Require Import Prelude GoStrings GoNet GoIO DomainTrie DomainSet DomainSetTheory DomainSetSearch DomainSetTrie.
#[local] Open Scope string_scope.
#[local] Open Scope list_scope.

(** ** The keys come back in order *)

(** The rests below an edge, with its byte. *)
Definition under (g : ascii * node) : node := cons g.1 <$> g.2.

Lemma groups_flatten L : Forall (λ w, w ≠ []) L → concat (under <$> groups L) = L.
Proof.
  induction 1 as [|[|c w] L Hw HL IH]; [done|done|]. rewrite groups_cons. destruct (groups L) as [|[d ws] gs]; [cbn in *; by rewrite <- IH|]. case_decide as E.
  - subst d. cbn [fmap list_fmap concat under fst snd app] in *. by rewrite IH.
  - cbn [fmap list_fmap concat under fst snd app] in *. by rewrite IH.
Qed.

Lemma kids_flatten L : wf L → (if leafb L then [[]] else []) ++ concat (under <$> kids L) = L.
Proof.
  intros [_ Hs]. destruct (strip_sorted L Hs) as [_ Hne]. unfold kids. rewrite groups_flatten by done. by destruct L as [|[|c w] L].
Qed.

Section traverse.
Context `{HL : BitmapLaws} (ss : DomainSet) (root : pnode) (nodes : list pnode) (HS : louds ss root nodes).
Context (Hsize : (Z.of_nat (64 * length (labelBitmap ss)) < 2 ^ 31)%Z).

Lemma traverse_spec fuel k n log :
  nodes !! k = Some n → Forall (λ w, (length w < fuel)%nat) n.2 →
  traverse ss (λ _, true) fuel (Z.of_nat k) (Z.of_nat (start nodes k + 0)) n.1 log = Some (log ++ (app n.1 <$> n.2), true).
Proof.
  revert k n log. induction fuel as [|fuel IH]; intros k n log Hk Hf.
  { exfalso. pose proof (node_wf ss root nodes HS k n Hk) as [Hne _]. destruct n.2 as [|w L]; [done|]. apply list.Forall_cons in Hf as [? _]. lia. }
  pose proof (node_wf ss root nodes HS k n Hk) as Hw. cbn [traverse]. destruct (getBit_leaf ss root nodes HS Hsize k n Hk) as (z & -> & Hz). cbn [mbind option_bind]. rewrite Hz, negb_involutive, andb_false_r.
  pose proof (kids_flatten n.2 Hw) as Hflat. assert ((if negb (leafb n.2) then log else log ++ [n.1]) = log ++ (app n.1 <$> (if leafb n.2 then [[]] else []))) as ->.
  { destruct (leafb n.2); cbn; by rewrite app_nil_r. }
  replace (app n.1 <$> n.2) with (app n.1 <$> ((if leafb n.2 then [[]] else []) ++ concat (under <$> kids n.2))) by (by rewrite Hflat). rewrite fmap_app, app_assoc. generalize (log ++ (app n.1 <$> (if leafb n.2 then [[]] else []))). clear log. intros log.
  pose proof (kids_le_labels ss root nodes HS Hsize k n Hk) as Hlab.
  (* the loop over the edges *)
  assert (∀ N m log, (length (kids n.2) - m < N)%nat → (m ≤ length (kids n.2))%nat →
    (fix loop (N : nat) (bmIdx : Z) (log : list bstr) : option (list bstr * bool) :=
       match N with
       | O => None
       | S N =>
           bit ← getBit (labelBitmap ss) bmIdx;
           if negb (bit =? 0)%Z then Some (log, true)
           else
             nextLabel ← at_ (labels ss) (bmIdx - Z.of_nat k);
             p ← selectIthOne ss (bmIdx - Z.of_nat k + 1 - 1);
             '(log, ok) ← traverse ss (λ _, true) fuel (bmIdx - Z.of_nat k + 1) (p + 1) (n.1 ++ [nextLabel]) log;
             if (ok : bool) then loop N (bmIdx + 1)%Z log else Some (log, false)
       end) N (Z.of_nat (start nodes k + m)) log
    = Some (log ++ (app n.1 <$> concat (under <$> drop m (kids n.2))), true)) as Hloop.
  { clear log Hz Hflat. induction N as [|N IHN]; intros m log HN Hm; [lia|]. destruct (getBit_node ss root nodes HS Hsize k n m Hk Hm) as (b & -> & Hb). cbn [mbind option_bind]. rewrite Hb, negb_involutive.
    destruct (decide (m = length (kids n.2))) as [->|Hne]; [rewrite bool_decide_true, drop_all by done; cbn; by rewrite app_nil_r|]. rewrite bool_decide_false by done.
    destruct (lookup_lt_is_Some_2 (kids n.2) m ltac:(lia)) as [[c ws] Hg]. rewrite (label_node ss root nodes HS Hsize k n m _ Hk Hg). cbn [mbind option_bind fst].
    pose proof (child_at ss root nodes HS Hsize k n m _ Hk Hg) as Hc. cbn [fst snd] in Hc. set (ch := (pre nodes k + m)%nat) in *.
    assert ((Z.of_nat (start nodes k + m) - Z.of_nat k + 1)%Z = Z.of_nat (S ch)) as -> by (unfold start, ch; lia).
    destruct (select_start ss root nodes HS Hsize ch _ Hc) as (p & -> & Hp). cbn [mbind option_bind]. rewrite Hp.
    pose proof (IH (S ch) (n.1 ++ [c], ws) log Hc) as IH1. cbn [fst snd] in IH1. rewrite IH1.
    2: { apply list.Forall_forall. intros w Hw'. assert (c :: w ∈ n.2) as Hin by (apply kids_elem; exists ws; split; [by eapply list_elem_of_lookup_2|done]).
         rewrite list.Forall_forall in Hf. specialize (Hf _ Hin). cbn in Hf. lia. }
    cbn [mbind option_bind]. replace (Z.of_nat (start nodes k + m) + 1)%Z with (Z.of_nat (start nodes k + S m)) by lia. rewrite IHN by lia. rewrite (drop_S _ _ _ Hg). cbn [fmap list_fmap concat]. unfold under at 2. cbn [fst snd].
    rewrite fmap_app, <- app_assoc. f_equal. f_equal. f_equal. f_equal. rewrite <- list_fmap_compose. apply list_fmap_ext. intros i w _. cbn. by rewrite <- app_assoc. }
  etransitivity; [exact (Hloop (S (length (labels ss))) 0%nat log ltac:(lia) ltac:(lia))|by rewrite drop_0].
Qed.
End traverse.

(** A key is no longer than the number of edges. *)
Lemma length_le_esize d L w : w ∈ L → (length w ≤ d)%nat → (length w ≤ esize d L)%nat.
Proof.
  revert L w. induction d as [|d IH]; intros L w Hw Hl; [lia|]. destruct w as [|c w]; [cbn; lia|]. apply kids_elem in Hw as (ws & Hg & Hw). cbn [esize length] in *.
  specialize (IH ws w Hw ltac:(lia)). apply list_elem_of_split in Hg as (l1 & l2 & ->). rewrite sum_list_with_app. cbn [sum_list_with snd]. lia.
Qed.

Lemma keys_louds `{HL : BitmapLaws} ss nodes K :
  louds ss ([], K) nodes → (Z.of_nat (64 * length (labelBitmap ss)) < 2 ^ 31)%Z → keys_ ss (λ _, true) = Some K.
Proof.
  intros HS Hsize. pose proof (louds_bfs _ _ _ HS) as HB. unfold breadth_first in HB. assert (nodes !! 0%nat = Some ([], K)) as H0 by (by rewrite HB).
  pose proof (inherits_short _ _ (longest K) (louds_inherits _ _ _ HS) (longest_spec K)) as Hsh. pose proof (esize_total ss _ nodes _ HS Hsh) as Ht. cbn [snd] in Ht.
  unfold keys_. pose proof (traverse_spec ss _ nodes HS Hsize (S (length (labels ss))) 0 _ [] H0) as Htr. cbn [fst snd] in Htr.
  change (Z.of_nat 0) with 0%Z in Htr. change (Z.of_nat (start nodes 0 + 0)) with 0%Z in Htr. rewrite Htr.
  - cbn [mbind option_bind app]. f_equal. etransitivity; [|apply list_fmap_id]. apply list_fmap_ext. done.
  - pose proof (longest_spec K) as Hl. apply list.Forall_forall. intros w Hw. rewrite list.Forall_forall in Hl. specialize (Hl w Hw). cbn in Hl.
    pose proof (length_le_esize (S (longest K)) K w Hw ltac:(lia)). lia.
Qed.

(** ** Bytes of numbers *)

Lemma be64 x : unsigned_ok 64 x → be_value (be_bytes 8 (wrap 64 x)) = x.
Proof. intros Hx. rewrite wrap_small by done. apply be_value_bytes. change (256 ^ Z.of_nat 8)%Z with (2 ^ 64)%Z. exact Hx. Qed.

(** ** What is written is what is read *)

(** Reading these bytes gives this value, whatever follows. *)
Definition reads {A} (p : prog A) (b : list Z) (v : A) : Prop := ∀ rest w, exec p (b ++ rest) w = Outcome v rest [] w.
Definition wrote {A} (p : prog A) (b : list Z) (v : A) : Prop := ∃ n, ∀ input w, (n ≤ w)%nat → exec p input w = Outcome v input b (w - n).

Lemma reads_ret {A} (v : A) : reads (Ret v) [] v.
Proof. done. Qed.

Lemma reads_read {A} n (k : list Z → prog (result io_error A)) b c v : length b = n → reads (k b) c v → reads (read n k) (b ++ c) v.
Proof.
  intros Hn Hk rest w. unfold read. cbn [exec]. rewrite <- app_assoc, (proj2 (Nat.leb_le _ _)) by (rewrite length_app; lia).
  rewrite take_app_length', drop_app_length' by done. apply Hk.
Qed.

Lemma reads_read64 {A} (k : Z → prog (result io_error A)) x c v : unsigned_ok 64 x → reads (k x) c v → reads (read64 k) (be_bytes 8 (wrap 64 x) ++ c) v.
Proof. intros Hx Hk. unfold read64. apply reads_read; [apply length_be_bytes|]. by rewrite be64. Qed.

Definition word_bytes (l : list Z) : list Z := concat ((λ x, be_bytes 8 (wrap 64 x)) <$> l).

Lemma reads_words {A} l (k : list Z → prog (result io_error A)) c v : words l → reads (k l) c v → reads (read_words (length l) k) (word_bytes l ++ c) v.
Proof.
  intros Hl. revert k. induction Hl as [|x l Hx Hl IH]; intros k Hk; [done|]. cbn [length read_words]. unfold word_bytes. cbn [fmap list_fmap concat]. rewrite <- app_assoc. apply reads_read64; [done|].
  by apply (IH (λ l, k (x :: l))).
Qed.

Lemma wrote_ret {A} (v : A) : wrote (Ret v) [] v.
Proof. exists 0%nat. intros input w _. cbn. by rewrite Nat.sub_0_r. Qed.

Lemma wrote_write {A} b (k : prog (result io_error A)) c v : wrote k c v → wrote (write b k) (b ++ c) v.
Proof.
  intros [n Hk]. exists (S n). intros input w Hw. destruct w as [|w]; [lia|]. unfold write. cbn [exec]. rewrite Hk by lia. done.
Qed.

Lemma wrote_words {A} l (k : prog (result io_error A)) c v : wrote k c v → wrote (write_words l k) (word_bytes l ++ c) v.
Proof.
  intros Hk. induction l as [|x l IH]; [done|]. cbn [write_words]. unfold word_bytes. cbn [fmap list_fmap concat]. rewrite <- app_assoc. unfold write64. by apply wrote_write.
Qed.

Definition length_bytes64 {A} (l : list A) : list Z := be_bytes 8 (wrap 64 (Z.of_nat (length l))).

Definition set_bytes (ss : DomainSet) : list Z :=
  [1%Z] ++ length_bytes64 (leaves ss) ++ word_bytes (leaves ss) ++ length_bytes64 (labelBitmap ss) ++ word_bytes (labelBitmap ss) ++ length_bytes64 (labels ss) ++ (byte_val <$> labels ss) ++ [].

Lemma WriteBin_wrote ss : wrote (WriteBin ss) (set_bytes ss) (Ok tt).
Proof. unfold WriteBin, set_bytes, length_bytes64, write64. do 2 apply wrote_write. apply wrote_words, wrote_write, wrote_words. do 2 apply wrote_write. apply wrote_ret. Qed.

Definition small_length {A} (l : list A) : Prop := (0 < length l)%nat ∧ (Z.of_nat (length l) < 2 ^ 63)%Z.

Lemma small_length_ok {A} (l : list A) : small_length l → unsigned_ok 64 (Z.of_nat (length l)) ∧ (i64 (Z.of_nat (length l)) <? 1)%Z = false ∧ Z.to_nat (Z.of_nat (length l)) = length l.
Proof. intros [H0 H1]. split_and!; [split; lia|rewrite i64_small by lia; lia|lia]. Qed.

Lemma Read_reads `{Bitmap} ss :
  words (leaves ss) → words (labelBitmap ss) → (selects ss, ranks ss) = IndexSelect32R64 (labelBitmap ss) →
  small_length (leaves ss) → small_length (labelBitmap ss) → small_length (labels ss) → reads ReadDomainSetBin (set_bytes ss) (Ok ss).
Proof.
  intros W1 W2 Hi (L1 & L1' & L1'')%small_length_ok (L2 & L2' & L2'')%small_length_ok (L3 & L3' & L3'')%small_length_ok. unfold ReadDomainSetBin, set_bytes, length_bytes64.
  apply reads_read; [done|]. rewrite bool_decide_false by (by intros H'). apply reads_read64; [done|]. rewrite L1', L1''. apply reads_words; [done|]. apply reads_read64; [done|]. rewrite L2', L2''. apply reads_words; [done|].
  apply reads_read64; [done|]. rewrite L3', L3''. apply reads_read; [by rewrite length_fmap|]. rewrite <- list_fmap_compose.
  assert (byte_of ∘ byte_val <$> labels ss = labels ss) as -> by (etransitivity; [|apply list_fmap_id]; apply list_fmap_ext; intros; apply byte_of_val).
  unfold init. rewrite <- Hi. destruct ss. apply reads_ret.
Qed.

(** ** Properties *)

Lemma louds_sizes `{HL : BitmapLaws} ss root nodes w :
  louds ss root nodes → fits (Some ss) → w ∈ root.2 → w ≠ [] →
  words (leaves ss) ∧ words (labelBitmap ss) ∧ small_length (leaves ss) ∧ small_length (labelBitmap ss) ∧ small_length (labels ss).
Proof.
  intros HS Hfit Hw Hne. cbn [fits] in Hfit. destruct (louds_leaves _ _ _ HS) as (W1 & L1 & _). destruct (louds_bits _ _ _ HS) as (W2 & L2 & _). rewrite length_fmap in L1.
  rewrite length_concat_section, <- (louds_labels _ _ _ HS) in L2. pose proof (louds_bfs _ _ _ HS) as HB. unfold breadth_first in HB.
  assert (nodes !! 0%nat = Some root) as H0 by (by rewrite HB). pose proof (lookup_lt_Some _ _ _ H0) as Hn.
  destruct (getBit_leaf ss root nodes HS Hfit 0 root H0) as (z & Hz & _). assert (0 < length (leaves ss))%nat as Hl by (destruct (leaves ss); [done|cbn; lia]).
  assert (0 < length (labels ss))%nat as Hlab.
  { destruct w as [|c w]; [done|]. apply kids_elem in Hw as (ws & Hg & _). apply list_elem_of_lookup in Hg as [m Hm]. pose proof (label_at ss root nodes HS Hfit 0 root m _ H0 Hm) as Hla. apply lookup_lt_Some in Hla. lia. }
  unfold small_length. split_and!; (done || lia).
Qed.

(** C38. Nothing is lost in the succinct form: for any keys of which one is not empty, the set that is built lists the
    distinct keys in byte order, and writing it and reading it back, whatever follows in the stream, gives the same set. *)
Theorem domain_set_roundtrip `{HL : BitmapLaws} (keys : list string) :
  (∃ k, k ∈ keys ∧ k ≠ "") →
  ∃ ss, Build keys = Some (Some ss) ∧
    (fits (Some ss) →
      (∃ K, keys_ ss (λ _, true) = Some K ∧ StronglySorted slt K ∧ ∀ k, k ∈ K ↔ of_bytes k ∈ keys)
      ∧ ∃ n, ∀ input w, (n ≤ w)%nat →
          value_of (exec (WriteBin ss) input w) = Ok tt
          ∧ ∀ rest w', exec ReadDomainSetBin (written (exec (WriteBin ss) input w) ++ rest) w' = Outcome (Ok ss) rest [] w').
Proof.
  intros (k & Hk & Hne). destruct (build_louds keys) as (ss & nodes & K & E & HS & HK); [by intros ->; apply not_elem_of_nil in Hk|]. exists ss. unfold Build. rewrite E. split; [done|]. intros Hfit.
  pose proof (louds_bfs _ _ _ HS) as HB. unfold breadth_first in HB. assert (nodes !! 0%nat = Some ([], K)) as H0 by (by rewrite HB). split.
  - exists K. split_and!; [by apply (keys_louds ss nodes)| |done]. exact (proj2 (node_wf ss _ nodes HS 0 _ H0)).
  - destruct (louds_sizes ss _ nodes (bytes k) HS Hfit) as (W1 & W2 & L1 & L2 & L3); [cbn; apply HK; by rewrite of_bytes_bytes|by destruct k|].
    pose proof (Read_reads ss W1 W2 (louds_index _ _ _ HS) L1 L2 L3) as Hr. destruct (WriteBin_wrote ss) as [n Hn]. exists n. intros input w Hw. rewrite Hn by done. cbn [value_of written]. split; [done|]. apply Hr.
Qed.

(** ** Examples *)

Lemma bit_at_lt bm p : bit_at bm p = true → (p < 64 * length bm)%nat.
Proof.
  intros H. destruct (decide (p / 64 < length bm)%nat) as [Hd|Hd]; [|unfold bit_at in H; rewrite nth_overflow, Z.bits_0 in H by lia; done].
  pose proof (Nat.div_mod_eq p 64). pose proof (Nat.mod_upper_bound p 64). lia.
Qed.

Lemma ones_mono bm p q : (p ≤ q)%nat → (ones bm p ≤ ones bm q)%nat.
Proof. induction 1 as [|q Hq IH]; [done|]. rewrite ones_S. lia. Qed.

Lemma ones_inj bm p q : bit_at bm p = true → bit_at bm q = true → ones bm p = ones bm q → p = q.
Proof.
  intros Hp Hq E. destruct (Nat.lt_trichotomy p q) as [H|[?|H]]; [exfalso|done|exfalso].
  - pose proof (ones_mono bm (S p) q H) as Hm. rewrite ones_S, Hp in Hm. lia.
  - pose proof (ones_mono bm (S q) p H) as Hm. rewrite ones_S, Hq in Hm. lia.
Qed.

#[export] Instance counting_laws : @BitmapLaws counting.
Proof.
  split.
  - intros bm i _ Hi _. cbn. rewrite (proj2 (Z.leb_le _ _)), (proj2 (Z.ltb_lt _ _)) by lia. cbn. by rewrite Nat2Z.id.
  - intros bm p _ Hp _. cbn. set (l := filter _ _). assert (∀ q, q ∈ l ↔ q = p) as Hl.
    { intros q. unfold l. rewrite list_elem_of_filter, elem_of_seq. split; [intros [[Hq Ho] _]; apply (ones_inj bm); [done|done|lia]|]. intros ->. pose proof (bit_at_lt bm p Hp). split; [split; [done|lia]|lia]. }
    destruct l as [|q l]; [exfalso; apply (not_elem_of_nil p), Hl; done|]. cbn. f_equal. f_equal. apply Hl. by left.
Qed.

Definition demo_domains : list string := ["+.example.com"; "*.org"; "a.*.net"; "www.x.y"; "bad..domain"; "x.y"; "*.com"; "&.com"].

#[local] Existing Instance ascii_case.
#[local] Existing Instance counting.


Lemma domain_set_roundtrip_witness :
  ∃ ss K, Build (keys_of demo_domains) = Some (Some ss) ∧ keys_ ss (λ _, true) = Some K.
Proof.
  destruct (domain_set_roundtrip (keys_of demo_domains)) as (ss & E & H).
  - exists "gro.*". split; [apply (bool_decide_unpack _); vm_compute; exact I|discriminate].
  - assert (fits (Some ss)) as Hf.
    { assert (match Build (keys_of demo_domains) with Some (Some ss) => length (labelBitmap ss) | _ => O end = 2%nat) as Hl by (vm_compute; reflexivity). rewrite E in Hl. unfold fits. rewrite Hl. reflexivity. }
    destruct (H Hf) as [(K & HK & _) _]. exists ss, K. split; [exact E|exact HK].
Defined.

(** A pattern whose label starts, from its end, with a character below [*] hides the wildcard beside it: the trie finds
    the domain and the set does not. *)
Theorem low_character_hides_wildcard :
  (ss ← Build (keys_of ["*.com"; "&.com"]); Has ss "a&.com") = Some false
  ∧ is_Some (Search (build ((λ d, (d, tt)) <$> ["*.com"; "&.com"])) "a&.com").
Proof. split; [vm_compute; reflexivity|]. vm_compute. by eexists. Qed.
