(* ===== verification/Arc.v ===== *)
(** * [common/arc]: the adaptive replacement cache

    Two lists of entries with a value ([t1]: seen once, [t2]: seen again) and two of
    ghosts, keys whose value was dropped ([b1], [b2]); the front of a list is its most
    recently used end.  An entry is in at most one list and the map holds one entry
    per key, so a list is a list of keys.  [None] is a panic: taking the last element
    of an empty list, or allocating a slice with a negative capacity. *)

From Stdlib Require Import ZArith Lia.
From stdpp Require Import base gmap fin_maps numbers list.
From S2P Require Import Prelude.
#[local] Open Scope Z_scope.

Inductive which := T1 | B1 | T2 | B2.
#[export] Instance which_eq_dec : EqDecision which.
Proof. solve_decision. Defined.

Section arc.
Context {K V : Type} `{Countable K} (zero : V).

Record entry := mkEntry { value : V; ghost : bool; expires : Z; ll : option which }.

Record ARC := mkARC { p : Z; c : Z; t1 : list K; b1 : list K; t2 : list K; b2 : list K; len : Z; cache : gmap K entry }.

Definition lst (a : ARC) (w : which) : list K := match w with T1 => t1 a | B1 => b1 a | T2 => t2 a | B2 => b2 a end.

Definition set_lst (a : ARC) (w : which) (l : list K) : ARC :=
  match w with
  | T1 => mkARC (p a) (c a) l (b1 a) (t2 a) (b2 a) (len a) (cache a)
  | B1 => mkARC (p a) (c a) (t1 a) l (t2 a) (b2 a) (len a) (cache a)
  | T2 => mkARC (p a) (c a) (t1 a) (b1 a) l (b2 a) (len a) (cache a)
  | B2 => mkARC (p a) (c a) (t1 a) (b1 a) (t2 a) l (len a) (cache a)
  end.
Definition set_p (a : ARC) (p : Z) : ARC := mkARC p (c a) (t1 a) (b1 a) (t2 a) (b2 a) (len a) (cache a).
Definition set_len (a : ARC) (n : Z) : ARC := mkARC (p a) (c a) (t1 a) (b1 a) (t2 a) (b2 a) n (cache a).
Definition set_cache (a : ARC) (m : gmap K entry) : ARC := mkARC (p a) (c a) (t1 a) (b1 a) (t2 a) (b2 a) (len a) m.

Definition Len_ (l : list K) : Z := Z.of_nat (length l).

Definition Clear (a : ARC) : ARC := mkARC 0 (c a) [] [] [] [] 0 ∅.
Definition New (maxSize : Z) : ARC := let a := Clear (mkARC 0 0 [] [] [] [] 0 ∅) in mkARC (p a) maxSize (t1 a) (b1 a) (t2 a) (b2 a) (len a) (cache a).

(** [detach] and [setMRU] of an entry, with the lists only; the entry itself is returned with its new list. *)
Definition detach (a : ARC) (k : K) (l : option which) : ARC :=
  match l with Some w => set_lst a w (filter (λ x, x ≠ k) (lst a w)) | None => a end.
Definition setMRU (a : ARC) (k : K) (e : entry) (w : which) : ARC * entry :=
  let a := detach a k (ll e) in
  (set_lst a w (k :: lst a w), mkEntry (value e) (ghost e) (expires e) (Some w)).

Definition delLRU (a : ARC) (w : which) : option ARC :=
  match last (lst a w) with
  | None => None
  | Some k =>
      let a := set_lst a w (filter (λ x, x ≠ k) (lst a w)) in
      let a := set_len a (len a - 1) in
      Some (set_cache a (delete k (cache a)))
  end.

(** The value of an entry is dropped and the entry becomes a ghost. *)
Definition drop_value (a : ARC) (k : K) (w : which) : option ARC :=
  e ← cache a !! k;
  let e := mkEntry zero true (expires e) (ll e) in
  let a := set_len a (len a - 1) in
  let '(a, e) := setMRU a k e w in
  Some (set_cache a (<[k := e]> (cache a))).

Definition replace (a : ARC) (l : option which) : option ARC :=
  if (0 <? Len_ (t1 a)) && ((p a <? Len_ (t1 a)) || (bool_decide (l = Some B2) && (Len_ (t1 a) =? p a)))
  then k ← last (t1 a); drop_value a k B1
  else k ← last (t2 a); drop_value a k B2.

(** The entry is not in the map yet when it is new. *)
Definition req (a : ARC) (k : K) (e : entry) : option (ARC * entry) :=
  match ll e with
  | Some T1 | Some T2 => Some (setMRU a k e T2)
  | Some B1 =>
      let d := if (Len_ (b2 a) <=? Len_ (b1 a)) then 1 else Len_ (b2 a) / Len_ (b1 a) in
      let a := set_p a (Z.min (p a + d) (c a)) in
      a ← replace a (ll e);
      Some (setMRU a k e T2)
  | Some B2 =>
      let d := if (Len_ (b1 a) <=? Len_ (b2 a)) then 1 else Len_ (b1 a) / Len_ (b2 a) in
      let a := set_p a (Z.max (p a - d) 0) in
      a ← replace a (ll e);
      Some (setMRU a k e T2)
  | None =>
      if (Len_ (t1 a) + Len_ (b1 a) =? c a) then
        a ← (if (Len_ (t1 a) <? c a) then a ← delLRU a B1; replace a (ll e) else delLRU a T1);
        Some (setMRU a k e T1)
      else if (Len_ (t1 a) + Len_ (b1 a) <? c a) then
        let total := Len_ (t1 a) + Len_ (t2 a) + Len_ (b1 a) + Len_ (b2 a) in
        a ← (if (c a <=? total) then a ← (if (total =? 2 * c a) then delLRU a B2 else Some a); replace a (ll e) else Some a);
        Some (setMRU a k e T1)
      else Some (setMRU a k e T1)
  end.

Definition put (r : option (ARC * entry)) (k : K) : option ARC := '(a, e) ← r; Some (set_cache a (<[k := e]> (cache a))).

(** Times are nanoseconds; the expiry is kept in seconds. *)
Definition Unix (t : Z) : Z := t / 1000000000.

Definition setWithExpire (a : ARC) (k : K) (v : V) (t : Z) : option ARC :=
  match cache a !! k with
  | None => put (req (set_len a (len a + 1)) k (mkEntry v false (Unix t) None)) k
  | Some e =>
      let a := if ghost e then set_len a (len a + 1) else a in
      let e := mkEntry v false (Unix t) (ll e) in
      put (req (set_cache a (<[k := e]> (cache a))) k e) k
  end.

Definition Set_ (a : ARC) (k : K) (v : V) : option ARC := setWithExpire a k v 0.
Definition SetWithExpire (a : ARC) (k : K) (v : V) (t : Z) : option ARC := setWithExpire a k v t.

(** A ghost that is asked for is moved like any entry. *)
Definition get (a : ARC) (k : K) : option (ARC * option entry) :=
  match cache a !! k with
  | None => Some (a, None)
  | Some e => a ← put (req a k e) k; Some (a, if ghost e then None else Some e)
  end.

Definition Get (a : ARC) (k : K) : option (ARC * option V) := '(a, r) ← get a k; Some (a, option_map value r).
Definition GetWithExpire (a : ARC) (k : K) : option (ARC * option (V * Z)) :=
  '(a, r) ← get a k; Some (a, option_map (λ e, (value e, expires e * 1000000000)) r).

Definition Len (a : ARC) : Z := len a.

Definition Delete (a : ARC) (k : K) : ARC :=
  match cache a !! k with
  | None => a
  | Some e =>
      let a := detach a k (ll e) in
      let a := if ghost e then a else set_len a (len a - 1) in
      set_cache a (delete k (cache a))
  end.

(** [make([]Item, 0, a.len)] panics when the length is negative. *)
Definition Snapshot (a : ARC) : option (list (K * (V * Z))) :=
  if len a <? 0 then None
  else Some (omap (λ '(k, e), if ghost e then None else Some (k, (value e, expires e * 1000000000))) (map_to_list (cache a))).
End arc.
Arguments entry : clear implicits.
Arguments ARC : clear implicits.
Arguments ARC K V {_ _}.

(** ** Sequences of operations *)

Section ops.
Context {K V : Type} `{Countable K} (zero : V).

Inductive op := OSet (k : K) (v : V) (t : Z) | OGet (k : K) | ODelete (k : K) | OClear.

(** The answer of a [GetWithExpire]. *)
Definition step (a : ARC K V) (o : op) : option (ARC K V * option (option (V * Z))) :=
  match o with
  | OSet k v t => a ← SetWithExpire zero a k v t; Some (a, None)
  | OGet k => '(a, r) ← GetWithExpire zero a k; Some (a, Some r)
  | ODelete k => Some (Delete a k, None)
  | OClear => Some (Clear a, None)
  end.

Fixpoint run (a : ARC K V) (ops : list op) : option (ARC K V) :=
  match ops with
  | [] => Some a
  | o :: ops => '(a, _) ← step a o; run a ops
  end.

(** What was stored last under each key. *)
Definition wrote (m : gmap K (V * Z)) (o : op) : gmap K (V * Z) :=
  match o with
  | OSet k v t => <[k := (v, Unix t * 1000000000)]> m
  | OGet _ => m
  | ODelete k => delete k m
  | OClear => ∅
  end.
End ops.
Arguments op : clear implicits.

(** ** Entries and lists *)

Section theory.
Context {K V : Type} `{Countable K} (zero : V).
Implicit Types (a : ARC K V) (k : K) (e : entry V) (w : which).

(** An entry is in the list it names, and only there. *)
Record linked a : Prop := {
  linked_mem : ∀ k w, k ∈ lst a w ↔ ∃ e, cache a !! k = Some e ∧ ll e = Some w;
  linked_nodup : ∀ w, NoDup (lst a w);
  linked_some : ∀ k e, cache a !! k = Some e → is_Some (ll e);
}.

Definition sz a w : Z := Len_ (lst a w).
Definition hit (b : bool) : Z := if b then 1 else 0.

Lemma lst_set_lst a w l w' : lst (set_lst a w l) w' = if decide (w = w') then l else lst a w'.
Proof. by destruct w, w'. Qed.

Lemma set_lst_fields a w l : p (set_lst a w l) = p a ∧ c (set_lst a w l) = c a ∧ cache (set_lst a w l) = cache a ∧ len (set_lst a w l) = len a.
Proof. by destruct w. Qed.

Lemma length_filter_ne (l : list K) k : NoDup l → k ∈ l → Len_ (filter (λ x, x ≠ k) l) = Len_ l - 1.
Proof.
  intros Hnd Hk. unfold Len_. apply list_elem_of_split in Hk as (l1 & l2 & ->). apply NoDup_app in Hnd as (H1 & H2 & H3). apply NoDup_cons in H3 as [H3 H4].
  rewrite filter_app, filter_cons, decide_False by (by intros ?). rewrite !length_app. rewrite !(list_filter_all (λ x, x ≠ k)); [cbn [length]; lia| |]; intros x Hx ->; (done || (apply (H2 k Hx); by left)).
Qed.

(** An entry that is in the map, or new. *)
Definition known a k e : Prop := (∃ e', cache a !! k = Some e' ∧ ll e' = ll e) ∨ (cache a !! k = None ∧ ll e = None).

Lemma detach_spec a k e :
  linked a → known a k e →
  let a' := detach a k (ll e) in
  (∀ w x, x ∈ lst a' w ↔ x ∈ lst a w ∧ x ≠ k) ∧ (∀ w, NoDup (lst a' w)) ∧ p a' = p a ∧ c a' = c a ∧ cache a' = cache a ∧ len a' = len a
  ∧ ∀ w, sz a' w = sz a w - hit (bool_decide (ll e = Some w)).
Proof.
  intros HL HK. unfold detach. destruct (ll e) as [w0|] eqn:El.
  - destruct HK as [(e' & He & Hl)|[_ ?]]; [|congruence]. assert (k ∈ lst a w0) as Hin by (apply (linked_mem _ HL); exists e'; split; [done|by rewrite Hl, El]).
    destruct (set_lst_fields a w0 (filter (λ x, x ≠ k) (lst a w0))) as (-> & -> & -> & ->). split_and!; try done.
    + intros w x. rewrite lst_set_lst. case_decide; [subst; rewrite list_elem_of_filter; tauto|]. split; [|tauto]. intros Hx. split; [done|]. intros ->.
      apply (linked_mem _ HL) in Hx as (e2 & H2 & H3). rewrite He in H2. simplify_eq. rewrite Hl, El in H3. by simplify_eq.
    + intros w. rewrite lst_set_lst. case_decide; [subst; by apply NoDup_filter, (linked_nodup _ HL)|by apply (linked_nodup _ HL)].
    + intros w. unfold sz. rewrite lst_set_lst. case_decide as E.
      * subst w. rewrite bool_decide_true by done. cbn. rewrite length_filter_ne by (done || by apply (linked_nodup _ HL)). lia.
      * rewrite bool_decide_false by congruence. cbn. lia.
  - split_and!; try done; [|apply (linked_nodup _ HL)|intros w; rewrite bool_decide_false by done; cbn; lia].
    intros w x. split; [|tauto]. intros Hx. split; [done|]. intros ->. apply (linked_mem _ HL) in Hx as (e2 & H2 & H3). destruct HK as [(e' & He & Hl)|[? _]]; [|congruence]. rewrite He in H2. simplify_eq. by rewrite Hl, El in H3.
Qed.

Lemma setMRU_spec a k e w :
  linked a → known a k e →
  let r := setMRU a k e w in
  linked (set_cache r.1 (<[k := r.2]> (cache r.1))) ∧ p r.1 = p a ∧ c r.1 = c a ∧ cache r.1 = cache a ∧ len r.1 = len a
  ∧ value r.2 = value e ∧ ghost r.2 = ghost e ∧ expires r.2 = expires e ∧ ll r.2 = Some w
  ∧ ∀ w', sz r.1 w' = sz a w' - hit (bool_decide (ll e = Some w')) + hit (bool_decide (w = w')).
Proof.
  intros HL HK. destruct (detach_spec a k e HL HK) as (D1 & D2 & D3 & D4 & D5 & D6 & D7). unfold setMRU. set (a' := detach a k (ll e)) in *. cbn [fst snd].
  destruct (set_lst_fields a' w (k :: lst a' w)) as (F1 & F2 & F3 & F4). set (a2 := set_lst a' w (k :: lst a' w)) in *.
  assert (∀ w', lst a2 w' = if decide (w = w') then k :: lst a' w else lst a' w') as HL2 by (intros; apply lst_set_lst).
  split_and!; try congruence; try done.
  - assert (∀ m w', lst (set_cache a2 m) w' = lst a2 w') as Hset by (by intros m []). split.
    + intros x w'. rewrite Hset, HL2. cbn [cache set_cache]. rewrite F3, D5. destruct (decide (x = k)) as [->|Hx].
      * rewrite lookup_insert_eq. case_decide as E; [subst; split; [eexists; done|by left]|]. rewrite D1. split; [by intros [_ ?]|]. intros (e2 & [= <-] & ?). cbn in *. congruence.
      * rewrite lookup_insert_ne by done. rewrite <- (linked_mem _ HL). case_decide; [subst; rewrite elem_of_cons, D1; tauto|rewrite D1; tauto].
    + intros w'. rewrite Hset, HL2. case_decide; [subst|apply D2]. apply NoDup_cons. split; [rewrite D1; by intros [_ ?]|apply D2].
    + intros x e2. cbn [cache set_cache]. rewrite F3, D5. destruct (decide (x = k)) as [->|Hx]; [rewrite lookup_insert_eq; intros [= <-]; by eexists|]. rewrite lookup_insert_ne by done. apply (linked_some _ HL).
  - intros w'. unfold sz at 1. rewrite HL2. rewrite <- D7. unfold sz. case_decide as E; [subst; rewrite bool_decide_true by done|rewrite bool_decide_false by done]; unfold Len_, hit; cbn [length]; lia.
Qed.

Lemma put_spec a k e w :
  linked a → known a k e →
  ∃ a', put (Some (setMRU a k e w)) k = Some a' ∧ linked a' ∧ p a' = p a ∧ c a' = c a
    ∧ (∃ e', cache a' = <[k := e']> (cache a) ∧ value e' = value e ∧ ghost e' = ghost e ∧ expires e' = expires e ∧ ll e' = Some w)
    ∧ ∀ w', sz a' w' = sz a w' - hit (bool_decide (ll e = Some w')) + hit (bool_decide (w = w')).
Proof.
  intros HL HK. destruct (setMRU_spec a k e w HL HK) as (S1 & S2 & S3 & S4 & S5 & S6 & S7 & S8 & S8' & S9). unfold put. destruct (setMRU a k e w) as [a1 e1]. cbn [fst snd] in *.
  eexists. split; [reflexivity|]. split_and!; [done|done|done| |].
  - exists e1. cbn [cache set_cache]. by rewrite S4.
  - intros w'. rewrite <- S9. by destruct w'.
Qed.

(** The last key of a list leaves the cache. *)
Lemma delLRU_spec a w :
  linked a → 0 < sz a w →
  ∃ a' k, delLRU a w = Some a' ∧ linked a' ∧ p a' = p a ∧ c a' = c a ∧ cache a' = delete k (cache a) ∧ k ∈ lst a w
    ∧ ∀ w', sz a' w' = sz a w' - hit (bool_decide (w = w')).
Proof.
  intros HL Hs. unfold delLRU. destruct (last (lst a w)) as [k|] eqn:El; [|apply last_None in El; unfold sz, Len_ in Hs; rewrite El in Hs; cbn in Hs; lia].
  apply last_Some_elem_of in El as Hin. pose proof Hin as (e & He & Hl)%(linked_mem _ HL). destruct (set_lst_fields a w (filter (λ x, x ≠ k) (lst a w))) as (F1 & F2 & F3 & F4).
  pose proof (lst_set_lst a w (filter (λ x, x ≠ k) (lst a w))) as HL2. set (a2 := set_lst a w _) in *. eexists _, k. split; [reflexivity|]. cbn [p c cache set_cache set_len]. split_and!; try done; [|by rewrite F3|].
  - assert (∀ m n w', lst (set_cache (set_len a2 n) m) w' = lst a2 w') as Hset by (by intros m n []). split.
    + intros x w'. rewrite Hset, HL2. cbn [cache set_cache set_len]. rewrite F3. destruct (decide (x = k)) as [->|Hx].
      * rewrite lookup_delete_eq. split; [|by intros (? & ? & _)]. case_decide; [intros [? _]%list_elem_of_filter; done|]. intros Hx. apply (linked_mem _ HL) in Hx as (e2 & H2 & H3). rewrite He in H2. simplify_eq.
      * rewrite lookup_delete_ne by done. rewrite <- (linked_mem _ HL). case_decide; [subst; rewrite list_elem_of_filter; tauto|done].
    + intros w'. rewrite Hset, HL2. case_decide; [by apply NoDup_filter, (linked_nodup _ HL)|apply (linked_nodup _ HL)].
    + intros x e2. cbn [cache set_cache set_len]. rewrite F3. intros [_ H2]%lookup_delete_Some. by apply (linked_some _ HL) in H2.
  - intros w'. unfold sz. assert (lst (set_cache (set_len a2 (len a2 - 1)) (delete k (cache a2))) w' = lst a2 w') as -> by (by destruct w'). rewrite HL2. case_decide as E.
    + subst. rewrite bool_decide_true by done. cbn. apply length_filter_ne; [apply (linked_nodup _ HL)|done].
    + rewrite bool_decide_false by done. cbn. lia.
Qed.

Lemma drop_value_spec a k e w :
  linked a → cache a !! k = Some e →
  ∃ a' e', drop_value zero a k w = Some a' ∧ linked a' ∧ p a' = p a ∧ c a' = c a ∧ cache a' = <[k := e']> (cache a) ∧ ghost e' = true
    ∧ ∀ w', sz a' w' = sz a w' - hit (bool_decide (ll e = Some w')) + hit (bool_decide (w = w')).
Proof.
  intros HL He. unfold drop_value. rewrite He. cbn [mbind option_bind]. set (a1 := set_len a (len a - 1)). set (e1 := mkEntry zero true (expires e) (ll e)).
  assert (∀ w, lst a1 w = lst a w) as Hl1 by (by intros []). assert (linked a1) as HL1.
  { split; [intros x w'; rewrite Hl1; apply (linked_mem _ HL)|intros w'; rewrite Hl1; apply (linked_nodup _ HL)|apply (linked_some _ HL)]. }
  destruct (setMRU_spec a1 k e1 w HL1) as (S1 & S2 & S3 & S4 & S5 & S6 & S7 & S8 & S8' & S9); [left; by exists e|]. destruct (setMRU a1 k e1 w) as [a2 e2]. cbn [fst snd] in *.
  eexists _, e2. split; [reflexivity|]. cbn [p c cache set_cache] in *. rewrite S4. rewrite S4 in S1. split_and!; try done.
Qed.

(** Which list gives up an entry, and whether it may be any. *)
Definition from_t1 a (l : option which) : bool :=
  (0 <? sz a T1) && ((p a <? sz a T1) || (bool_decide (l = Some B2) && (sz a T1 =? p a))).

Lemma replace_spec a l :
  linked a → (from_t1 a l = false → 0 < sz a T2) →
  ∃ a' k e, replace zero a l = Some a' ∧ linked a' ∧ p a' = p a ∧ c a' = c a ∧ cache a' = <[k := e]> (cache a) ∧ ghost e = true ∧ is_Some (cache a !! k)
    ∧ (k ∈ lst a T1 ∨ k ∈ lst a T2)
    ∧ ∀ w, sz a' w = if from_t1 a l then sz a w - hit (bool_decide (T1 = w)) + hit (bool_decide (B1 = w)) else sz a w - hit (bool_decide (T2 = w)) + hit (bool_decide (B2 = w)).
Proof.
  intros HL Hpos. unfold replace. fold (sz a T1). change (Len_ (t1 a)) with (sz a T1). fold (from_t1 a l).
  assert (∀ w w', (w = T1 ∨ w = T2) → 0 < sz a w → ∃ a' k e, (k ← last (lst a w); drop_value zero a k w') = Some a' ∧ linked a' ∧ p a' = p a ∧ c a' = c a ∧ cache a' = <[k := e]> (cache a) ∧ ghost e = true
    ∧ is_Some (cache a !! k) ∧ (k ∈ lst a T1 ∨ k ∈ lst a T2) ∧ ∀ x, sz a' x = sz a x - hit (bool_decide (w = x)) + hit (bool_decide (w' = x))) as Hdrop.
  { intros w w' Hw Hs. destruct (last (lst a w)) as [k|] eqn:El; [|apply last_None in El; unfold sz, Len_ in Hs; rewrite El in Hs; cbn in Hs; lia].
    apply last_Some_elem_of in El as Hin. pose proof Hin as (e & He & Hl)%(linked_mem _ HL). cbn [mbind option_bind].
    destruct (drop_value_spec a k e w' HL He) as (a' & e' & E & D1 & D2 & D3 & D4 & D5 & D6). exists a', k, e'. split_and!; [done|done|done|done|done|done|by eexists|destruct Hw; subst; auto|].
    intros x. rewrite D6, Hl. f_equal. f_equal. f_equal. by destruct w, x. }
  destruct (from_t1 a l) eqn:Ef; [apply (Hdrop T1 B1); [by left|]|apply (Hdrop T2 B2); [by right|by apply Hpos]].
  unfold from_t1 in Ef. apply andb_true_iff in Ef as [Ef%Z.ltb_lt _]. done.
Qed.

(** The bounds of the algorithm. *)
Record bounded a : Prop := {
  bounded_live : sz a T1 + sz a T2 ≤ c a;
  bounded_once : sz a T1 + sz a B1 ≤ c a;
  bounded_all : sz a T1 + sz a T2 + sz a B1 + sz a B2 ≤ 2 * c a;
  bounded_full : 0 < sz a B1 + sz a B2 → sz a T1 + sz a T2 = c a;
  bounded_p : 0 ≤ p a ≤ c a;
}.

Lemma sz_nonneg a w : 0 ≤ sz a w.
Proof. unfold sz, Len_. lia. Qed.

(** Every value of the second map is in the first. *)
Definition values_from (m m' : gmap K (entry V)) : Prop := ∀ x y, m' !! x = Some y → ghost y = false → m !! x = Some y.

Lemma values_from_ghost m k e : ghost e = true → values_from m (<[k := e]> m).
Proof. intros Hg x y Hx Hy. destruct (decide (k = x)) as [->|]; [rewrite lookup_insert_eq in Hx; congruence|by rewrite lookup_insert_ne in Hx]. Qed.

Lemma values_from_delete m k : values_from m (delete k m).
Proof. intros x y [_ Hx]%lookup_delete_Some _. done. Qed.

Lemma values_from_trans m1 m2 m3 : values_from m1 m2 → values_from m2 m3 → values_from m1 m3.
Proof. intros H1 H2 x y Hx Hy. auto. Qed.

(** The entry is put at the front of a list after room was made. *)
Lemma place_spec a a1 k e w :
  linked a1 → known a1 k e → values_from (cache a) (cache a1) →
  ∃ a' e', put (Some (setMRU a1 k e w)) k = Some a' ∧ linked a' ∧ p a' = p a1 ∧ c a' = c a1
    ∧ cache a' !! k = Some e' ∧ value e' = value e ∧ ghost e' = ghost e ∧ expires e' = expires e ∧ ll e' = Some w
    ∧ (∀ x y, x ≠ k → cache a' !! x = Some y → ghost y = false → cache a !! x = Some y)
    ∧ ∀ w', sz a' w' = sz a1 w' - hit (bool_decide (ll e = Some w')) + hit (bool_decide (w = w')).
Proof.
  intros HL HK HV. destruct (put_spec a1 k e w HL HK) as (a' & E & P1 & P2 & P3 & (e' & P4 & P5 & P6 & P7 & P7') & P8). exists a', e'. rewrite P4. split_and!; try done.
  - apply lookup_insert_eq.
  - intros x y Hx. rewrite lookup_insert_ne by done. apply HV.
Qed.

(** Which list is which. *)
Ltac hits := repeat first [rewrite bool_decide_true by done | rewrite bool_decide_false by done]; unfold hit.

(** A request leaves the cache in order. *)
Definition served a a' k e : Prop :=
  linked a' ∧ bounded a' ∧ c a' = c a
  ∧ (∃ e', cache a' !! k = Some e' ∧ value e' = value e ∧ ghost e' = ghost e ∧ expires e' = expires e ∧ (ll e' = Some T1 ∨ ll e' = Some T2))
  ∧ ∀ x y, x ≠ k → cache a' !! x = Some y → ghost y = false → cache a !! x = Some y.

Lemma in_list_pos a k e w : linked a → known a k e → ll e = Some w → 0 < sz a w ∧ k ∈ lst a w ∧ is_Some (cache a !! k).
Proof.
  intros HL [(e' & He & Hl)|[_ ?]] El; [|congruence]. assert (k ∈ lst a w) as Hin by (apply (linked_mem _ HL); exists e'; split; [done|congruence]).
  split_and!; [|done|by eexists]. unfold sz, Len_. destruct (lst a w); [by apply not_elem_of_nil in Hin|cbn; lia].
Qed.

Lemma known_replace a a1 k k0 e e0 :
  linked a → known a k e → cache a1 = <[k0 := e0]> (cache a) → is_Some (cache a !! k0) → k0 ∈ lst a T1 ∨ k0 ∈ lst a T2 → ll e ≠ Some T1 → ll e ≠ Some T2 → known a1 k e.
Proof.
  intros HL HK Hc Hs Hin H1 H2. assert (k0 ≠ k) as Hne.
  { intros ->. destruct HK as [(e' & He & Hl)|[Hn _]]; [|rewrite Hn in Hs; by destruct Hs]. destruct Hin as [Hin|Hin]; apply (linked_mem _ HL) in Hin as (e2 & He2 & Hl2); congruence. }
  unfold known. by rewrite Hc, lookup_insert_ne.
Qed.

(** A ghost that is asked for takes the place of another entry. *)
Lemma req_ghost a a0 k e w :
  0 < c a → linked a → bounded a → known a k e → ll e = Some w → w = B1 ∨ w = B2 →
  (∀ x, lst a0 x = lst a x) → c a0 = c a → cache a0 = cache a → 0 ≤ p a0 ≤ c a → (w = B2 → p a0 < c a) →
  ∃ a', put (a1 ← replace zero a0 (ll e); Some (setMRU a1 k e T2)) k = Some a' ∧ served a a' k e.
Proof.
  intros Hc HL [B1' B2' B3' B4' B5'] HK El Hw Hl0 Hc0 Hca0 Hp0 Hlt. destruct (in_list_pos a k e w HL HK El) as (Hpos & Hin & Hs).
  assert (linked a0) as HL0. { split; [intros x w'; rewrite Hl0, Hca0; apply (linked_mem _ HL)|intros w'; rewrite Hl0; apply (linked_nodup _ HL)|rewrite Hca0; apply (linked_some _ HL)]. }
  assert (∀ x, sz a0 x = sz a x) as Hsz0 by (intros x; unfold sz; by rewrite Hl0). pose proof (sz_nonneg a T1). pose proof (sz_nonneg a T2). pose proof (sz_nonneg a B1). pose proof (sz_nonneg a B2).
  assert (sz a T1 + sz a T2 = c a) as Hfull by (apply B4'; destruct Hw; subst; lia).
  destruct (replace_spec a0 (ll e) HL0) as (a1 & k0 & e0 & -> & R1 & R2 & R3 & R4 & R5 & R6 & R7 & R8).
  { unfold from_t1. rewrite !Hsz0. rewrite andb_false_iff, orb_false_iff, Z.ltb_ge, Z.ltb_ge. intros Hf. destruct Hw as [->| ->]; [lia|]. specialize (Hlt eq_refl). lia. }
  assert (known a0 k e) as HK0 by (unfold known; by rewrite Hca0).
  assert (known a1 k e) as HK1 by (apply (known_replace a0 a1 k k0 e e0); try done; rewrite El; destruct Hw; congruence).
  cbn [mbind option_bind]. destruct (place_spec a a1 k e T2 R1 HK1) as (a' & e' & E & P1 & P2 & P3 & P4 & P5 & P6 & P7 & P7' & P8 & P9).
  { rewrite R4, Hca0. by apply values_from_ghost. }
  exists a'. split; [done|]. unfold served. split_and!; [done| |congruence|exists e'; split_and!; auto|done].
  rewrite El in P9. split; rewrite ?P2, ?P3, ?R2, ?R3, ?Hc0; rewrite ?P9, ?R8, ?Hsz0; destruct Hw as [->| ->], (from_t1 a0 (ll e)) eqn:Ef; hits; lia.
Qed.

Lemma known_delete a a1 k k0 e : known a k e → ll e = None → cache a1 = delete k0 (cache a) → linked a → known a1 k e.
Proof.
  intros HK El Hc HL. destruct HK as [(e' & He & Hl)|[Hn _]]; [apply (linked_some _ HL) in He as [w Hw]; congruence|]. right. split; [|done]. rewrite Hc. apply lookup_delete_None. by right.
Qed.

(** A new entry. *)
Lemma req_new a k e :
  0 < c a → linked a → bounded a → known a k e → ll e = None → ∃ a', put (req zero a k e) k = Some a' ∧ served a a' k e.
Proof.
  intros Hc HL HB HK El. pose proof HB as [B1' B2' B3' B4' B5']. unfold req. rewrite El.
  change (Len_ (t1 a)) with (sz a T1). change (Len_ (t2 a)) with (sz a T2). change (Len_ (b1 a)) with (sz a B1). change (Len_ (b2 a)) with (sz a B2).
  pose proof (sz_nonneg a T1). pose proof (sz_nonneg a T2). pose proof (sz_nonneg a B1). pose proof (sz_nonneg a B2).
  assert (∀ a1, linked a1 → known a1 k e → values_from (cache a) (cache a1) → p a1 = p a → c a1 = c a →
    sz a1 T1 + sz a1 T2 < c a → sz a1 T1 + sz a1 B1 < c a → sz a1 T1 + sz a1 T2 + sz a1 B1 + sz a1 B2 < 2 * c a → (0 < sz a1 B1 + sz a1 B2 → sz a1 T1 + sz a1 T2 = c a - 1) →
    ∃ a', put (Some (setMRU a1 k e T1)) k = Some a' ∧ served a a' k e) as Hplace.
  { intros a1 L1 K1 V1 Hp1 Hc1 N1 N2 N3 N4. destruct (place_spec a a1 k e T1 L1 K1 V1) as (a' & e' & E & P1 & P2 & P3 & P4 & P5 & P6 & P7 & P7' & P8 & P9). exists a'. split; [done|].
    unfold served. split_and!; [done| |congruence|exists e'; split_and!; auto|done]. rewrite El in P9. split; rewrite ?P2, ?P3, ?Hp1, ?Hc1, ?P9; hits; lia. }
  destruct (Z.eqb_spec (sz a T1 + sz a B1) (c a)) as [Ea|Ea]; [destruct (Z.ltb_spec (sz a T1) (c a)) as [Eb|Eb]|destruct (Z.ltb_spec (sz a T1 + sz a B1) (c a)) as [Eb|Eb]; [|lia]].
  - destruct (delLRU_spec a B1 HL ltac:(lia)) as (a1 & k1 & -> & D1 & D2 & D3 & D4 & D5 & D6). cbn [mbind option_bind]. pose proof (known_delete a a1 k k1 e HK El D4 HL) as HK1.
    assert (∀ w, sz a1 w = sz a w - hit (bool_decide (B1 = w))) as D6' by done. assert (sz a1 T1 = sz a T1 ∧ sz a1 T2 = sz a T2 ∧ sz a1 B1 = sz a B1 - 1 ∧ sz a1 B2 = sz a B2) as (N1 & N2 & N3 & N4) by (rewrite !D6; hits; lia).
    destruct (replace_spec a1 None D1) as (a2 & k0 & e0 & -> & R1 & R2 & R3 & R4 & R5 & R6 & R7 & R8).
    { unfold from_t1. rewrite N1, N2, D2. rewrite andb_false_iff, orb_false_iff, Z.ltb_ge, Z.ltb_ge. lia. }
    cbn [mbind option_bind]. apply Hplace; [done|apply (known_replace a1 a2 k k0 e e0); try done; congruence| |congruence|congruence|..].
    + rewrite R4, D4. eapply values_from_trans; [apply values_from_delete|by apply values_from_ghost].
    + rewrite !R8. destruct (from_t1 a1 None); hits; lia.
    + rewrite !R8. destruct (from_t1 a1 None); hits; lia.
    + rewrite !R8. destruct (from_t1 a1 None); hits; lia.
    + rewrite !R8. destruct (from_t1 a1 None); hits; lia.
  - destruct (delLRU_spec a T1 HL ltac:(lia)) as (a1 & k1 & -> & D1 & D2 & D3 & D4 & D5 & D6). cbn [mbind option_bind].
    apply Hplace; [done|by apply (known_delete a a1 k k1 e)|rewrite D4; apply values_from_delete|done|done|..]; rewrite !D6; hits; lia.
  - destruct (Z.leb_spec (c a) (sz a T1 + sz a T2 + sz a B1 + sz a B2)) as [Et|Et]; [|cbn [mbind option_bind]; apply Hplace; [done|done|by intros x y|done|done|lia|lia|lia|lia]].
    assert (∃ a1, (if sz a T1 + sz a T2 + sz a B1 + sz a B2 =? 2 * c a then delLRU a B2 else Some a) = Some a1 ∧ linked a1 ∧ p a1 = p a ∧ c a1 = c a ∧ known a1 k e ∧ values_from (cache a) (cache a1)
      ∧ sz a1 T1 = sz a T1 ∧ sz a1 T2 = sz a T2 ∧ sz a1 B1 = sz a B1 ∧ sz a1 B2 ≤ sz a B2 ∧ sz a T1 + sz a T2 + sz a B1 + sz a1 B2 < 2 * c a) as (a1 & -> & D1 & D2 & D3 & HK1 & V1 & N1 & N2 & N3 & N4 & N5).
    { destruct (Z.eqb_spec (sz a T1 + sz a T2 + sz a B1 + sz a B2) (2 * c a)) as [Ee|Ee]; [|exists a; split_and!; (done || lia || by intros x y)].
      destruct (delLRU_spec a B2 HL ltac:(lia)) as (a1 & k1 & -> & D1 & D2 & D3 & D4 & D5 & D6). exists a1. split_and!; [done|done|done|done|by apply (known_delete a a1 k k1 e)|rewrite D4; apply values_from_delete|..]; rewrite !D6; hits; lia. }
    cbn [mbind option_bind]. destruct (replace_spec a1 None D1) as (a2 & k0 & e0 & -> & R1 & R2 & R3 & R4 & R5 & R6 & R7 & R8).
    { unfold from_t1. rewrite N1, N2, D2. rewrite andb_false_iff, orb_false_iff, Z.ltb_ge, Z.ltb_ge. lia. }
    cbn [mbind option_bind]. apply Hplace; [done|apply (known_replace a1 a2 k k0 e e0); try done; congruence| |congruence|congruence|..].
    + rewrite R4. eapply values_from_trans; [exact V1|by apply values_from_ghost].
    + rewrite !R8. destruct (from_t1 a1 None); hits; lia.
    + rewrite !R8. destruct (from_t1 a1 None); hits; lia.
    + rewrite !R8. destruct (from_t1 a1 None); hits; lia.
    + rewrite !R8. destruct (from_t1 a1 None); hits; lia.
Qed.

Lemma req_spec a k e : 0 < c a → linked a → bounded a → known a k e → ∃ a', put (req zero a k e) k = Some a' ∧ served a a' k e.
Proof.
  intros Hc HL HB HK. destruct (ll e) as [w|] eqn:El; [|by apply req_new]. pose proof HB as [B1' B2' B3' B4' B5'].
  destruct (in_list_pos a k e w HL HK El) as (Hpos & _ & _). unfold req. rewrite El.
  assert (w = T1 ∨ w = T2 → ∃ a', put (Some (setMRU a k e T2)) k = Some a' ∧ served a a' k e) as Hlive.
  { intros Hw. destruct (place_spec a a k e T2 HL HK) as (a' & e' & E & P1 & P2 & P3 & P4 & P5 & P6 & P7 & P7' & P8 & P9); [by intros x y|]. exists a'. split; [done|]. unfold served.
    split_and!; [done| |done|exists e'; split_and!; auto|done]. rewrite El in P9. split; rewrite ?P2, ?P3, ?P9; destruct Hw as [->| ->]; hits; lia. }
  assert (∀ n m : Z, 0 ≤ n → 0 < m → 1 ≤ (if n <=? m then 1 else n / m)) as Hd.
  { intros n m Hn Hm. destruct (Z.leb_spec n m); [lia|]. apply Z.div_le_lower_bound; lia. }
  pose proof (sz_nonneg a B1). pose proof (sz_nonneg a B2).
  destruct w; [by apply Hlive; left| |by apply Hlive; right|].
  - specialize (Hd (sz a B2) (sz a B1) ltac:(lia) Hpos). change (Len_ (b2 a)) with (sz a B2). change (Len_ (b1 a)) with (sz a B1). set (d := if sz a B2 <=? sz a B1 then 1 else _) in *. clearbody d.
    rewrite <- El. apply (req_ghost a _ k e B1); [done|done|done|done|done|by left|by intros []|done|done|cbn; lia|done].
  - specialize (Hd (sz a B1) (sz a B2) ltac:(lia) Hpos). change (Len_ (b2 a)) with (sz a B2). change (Len_ (b1 a)) with (sz a B1). set (d := if sz a B1 <=? sz a B2 then 1 else _) in *. clearbody d.
    rewrite <- El. apply (req_ghost a _ k e B2); [done|done|done|done|done|by right|by intros []|done|done|cbn; lia|intros _; cbn; lia].
Qed.

(** ** Sequences *)

(** Values are the ones written last, and only entries of the first two lists have one. *)
Record holds a (m : gmap K (V * Z)) : Prop := {
  holds_linked : linked a;
  holds_bounded : bounded a;
  holds_live : ∀ k e, cache a !! k = Some e → ghost e = false → (ll e = Some T1 ∨ ll e = Some T2) ∧ m !! k = Some (value e, expires e * 1000000000);
}.

Lemma served_holds a a' k e m v :
  served a a' k e → (∀ x y, x ≠ k → cache a !! x = Some y → ghost y = false → (ll y = Some T1 ∨ ll y = Some T2) ∧ m !! x = Some (value y, expires y * 1000000000)) →
  (ghost e = false → v = (value e, expires e * 1000000000) ∧ m !! k = Some v) → holds a' m.
Proof.
  intros (S1 & S2 & S3 & (e' & S4 & S5 & S6 & S7 & S8) & S9) Hoth Hk. split; [done|done|]. intros x y Hx Hy. destruct (decide (x = k)) as [->|Hne].
  - rewrite S4 in Hx. simplify_eq. split; [done|]. rewrite S6 in Hy. destruct (Hk Hy) as [-> Hm]. by rewrite S5, S7.
  - apply Hoth; [done|by apply S9|done].
Qed.

Lemma linked_set_entry a k e0 e : linked a → cache a !! k = Some e0 → ll e = ll e0 → linked (set_cache a (<[k := e]> (cache a))).
Proof.
  intros HL He Hl. assert (∀ m w, lst (set_cache a m) w = lst a w) as Hset by (by intros m []). split.
  - intros x w. rewrite Hset. cbn [cache set_cache]. rewrite (linked_mem _ HL). destruct (decide (k = x)) as [->|]; [rewrite lookup_insert_eq|by rewrite lookup_insert_ne].
    split; [intros (y & Hy & Hw); exists e; split; [done|congruence]|intros (y & [= <-] & Hw); exists e0; split; [done|congruence]].
  - intros w. rewrite Hset. apply (linked_nodup _ HL).
  - intros x y. cbn [cache set_cache]. destruct (decide (k = x)) as [->|]; [rewrite lookup_insert_eq; intros [= <-]; rewrite Hl; by apply (linked_some _ HL) in He|rewrite lookup_insert_ne by done; apply (linked_some _ HL)].
Qed.

Lemma bounded_same a a' : (∀ w, lst a' w = lst a w) → p a' = p a → c a' = c a → bounded a → bounded a'.
Proof. intros Hl Hp Hcc. assert (∀ w, sz a' w = sz a w) as Hs by (intros w; unfold sz; by rewrite Hl). intros [? ? ? ? ?]. split; rewrite ?Hs, ?Hcc, ?Hp; done. Qed.

Lemma linked_same a a' : (∀ w, lst a' w = lst a w) → cache a' = cache a → linked a → linked a'.
Proof. intros Hl Hc HL. split; [intros x w; rewrite Hl, Hc; apply (linked_mem _ HL)|intros w; rewrite Hl; apply (linked_nodup _ HL)|rewrite Hc; apply (linked_some _ HL)]. Qed.

Lemma same_lists a a' : (∀ w, lst a' w = lst a w) → cache a' = cache a → p a' = p a → c a' = c a → (linked a → linked a') ∧ (bounded a → bounded a').
Proof.
  intros Hl Hc Hp Hcc. split.
  - by apply linked_same.
  - by apply bounded_same.
Qed.

(** ** Whenever a request returns

    Without the bounds (after [Delete] they may fail) a request can panic, but what it
    leaves behind is right. *)

Definition kept a a' k e : Prop :=
  linked a' ∧ (∃ e', cache a' !! k = Some e' ∧ value e' = value e ∧ ghost e' = ghost e ∧ expires e' = expires e)
  ∧ ∀ x y, x ≠ k → cache a' !! x = Some y → ghost y = false → cache a !! x = Some y.

Lemma delLRU_returns a w a' : linked a → delLRU a w = Some a' → linked a' ∧ ∃ k, cache a' = delete k (cache a).
Proof.
  intros HL E. assert (0 < sz a w) as Hs. { unfold delLRU in E. unfold sz, Len_. destruct (lst a w); [done|cbn; lia]. }
  destruct (delLRU_spec a w HL Hs) as (a1 & k & E1 & L1 & _ & _ & C1 & _). rewrite E1 in E. simplify_eq. split; [done|]. by exists k.
Qed.

Lemma replace_returns a l a' : linked a → replace zero a l = Some a' →
  linked a' ∧ ∃ k e, cache a' = <[k := e]> (cache a) ∧ ghost e = true ∧ is_Some (cache a !! k) ∧ (k ∈ lst a T1 ∨ k ∈ lst a T2).
Proof.
  intros HL E. destruct (replace_spec a l HL) as (a1 & k & e & E1 & L1 & _ & _ & C1 & G1 & S1 & I1 & _).
  { intros Hf. unfold replace in E. change (Len_ (t1 a)) with (sz a T1) in E. fold (from_t1 a l) in E. rewrite Hf in E. unfold sz, Len_. cbn [lst]. destruct (t2 a); [done|cbn; lia]. }
  rewrite E1 in E. simplify_eq. split; [done|]. by exists k, e.
Qed.

Lemma place_kept a a1 k e w a' : linked a1 → known a1 k e → values_from (cache a) (cache a1) → put (Some (setMRU a1 k e w)) k = Some a' → kept a a' k e.
Proof.
  intros HL HK HV E. destruct (place_spec a a1 k e w HL HK HV) as (a2 & e' & E2 & P1 & _ & _ & P4 & P5 & P6 & P7 & _ & P8 & _). rewrite E2 in E. simplify_eq. split_and!; [done| |done]. by exists e'.
Qed.

(** A list gives up an entry, then the request is placed. *)
Lemma replace_kept a a0 l k e w a' :
  linked a0 → known a0 k e → ll e ≠ Some T1 → ll e ≠ Some T2 → values_from (cache a) (cache a0) →
  put (a1 ← replace zero a0 l; Some (setMRU a1 k e w)) k = Some a' → kept a a' k e.
Proof.
  intros HL HK N1 N2 HV. destruct (replace zero a0 l) as [a1|] eqn:E1; [|done]. cbn [mbind option_bind]. destruct (replace_returns a0 l a1 HL E1) as (L1 & k0 & e0 & C1 & G1 & S1 & I1).
  apply place_kept; [done|by apply (known_replace a0 a1 k k0 e e0)|]. rewrite C1. eapply values_from_trans; [done|by apply values_from_ghost].
Qed.

Lemma req_returns a k e a' : linked a → known a k e → put (req zero a k e) k = Some a' → kept a a' k e.
Proof.
  intros HL HK. unfold req. destruct (ll e) as [[]|] eqn:El.
  - apply place_kept; [done|done|by intros x y].
  - apply replace_kept; [by apply (linked_same a); [intros []|..]|done|congruence|congruence|by intros x y].
  - apply place_kept; [done|done|by intros x y].
  - apply replace_kept; [by apply (linked_same a); [intros []|..]|done|congruence|congruence|by intros x y].
  - destruct (_ =? c a); [destruct (_ <? c a)|destruct (_ <? c a); [|apply place_kept; [done|done|by intros x y]]].
    + destruct (delLRU a B1) as [a1|] eqn:E1; [|done]. cbn [mbind option_bind]. destruct (delLRU_returns a B1 a1 HL E1) as [L1 [k1 C1]].
      apply replace_kept; [done|by apply (known_delete a a1 k k1 e)|congruence|congruence|rewrite C1; apply values_from_delete].
    + destruct (delLRU a T1) as [a1|] eqn:E1; [|done]. cbn [mbind option_bind]. destruct (delLRU_returns a T1 a1 HL E1) as [L1 [k1 C1]].
      apply place_kept; [done|by apply (known_delete a a1 k k1 e)|rewrite C1; apply values_from_delete].
    + destruct (_ <=? _); [|apply place_kept; [done|done|by intros x y]]. destruct (_ =? 2 * c a).
      * destruct (delLRU a B2) as [a1|] eqn:E1; [|done]. cbn [mbind option_bind]. destruct (delLRU_returns a B2 a1 HL E1) as [L1 [k1 C1]].
        apply replace_kept; [done|by apply (known_delete a a1 k k1 e)|congruence|congruence|rewrite C1; apply values_from_delete].
      * cbn [mbind option_bind]. apply replace_kept; [done|done|congruence|congruence|by intros x y].
Qed.

Lemma set_ok a m k v t : 0 < c a → holds a m → ∃ a', SetWithExpire zero a k v t = Some a' ∧ c a' = c a ∧ holds a' (<[k := (v, Unix t * 1000000000)]> m) ∧ ∃ e, cache a' !! k = Some e ∧ ghost e = false ∧ value e = v ∧ expires e = Unix t.
Proof.
  intros Hc [HL HB Hv]. unfold SetWithExpire, setWithExpire.
  assert (∀ a0 e, linked a0 → bounded a0 → known a0 k e → c a0 = c a → (∀ x y, x ≠ k → cache a0 !! x = Some y → cache a !! x = Some y) → value e = v → ghost e = false → expires e = Unix t →
    ∃ a', put (req zero a0 k e) k = Some a' ∧ c a' = c a ∧ holds a' (<[k := (v, Unix t * 1000000000)]> m) ∧ ∃ e, cache a' !! k = Some e ∧ ghost e = false ∧ value e = v ∧ expires e = Unix t) as Hreq.
  { intros a0 e HL0 HB0 HK0 Hc0 Hsub He1 He2 He3. destruct (req_spec a0 k e ltac:(lia) HL0 HB0 HK0) as (a' & E & HS). exists a'. split; [done|]. pose proof HS as (_ & _ & Hc' & (e' & E1 & E2 & E3 & E4 & _) & _).
    split_and!; [congruence| |exists e'; split_and!; congruence].
    apply (served_holds a0 a' k e _ (v, Unix t * 1000000000) HS); [|intros _; split; [by subst; rewrite He3|apply lookup_insert_eq]].
    intros x y Hx Hxy Hy. rewrite lookup_insert_ne by done. apply Hv; [by apply Hsub|done]. }
  destruct (cache a !! k) as [e|] eqn:Ek.
  - set (a1 := if ghost e then set_len a (len a + 1) else a). assert ((∀ w, lst a1 w = lst a w) ∧ cache a1 = cache a ∧ p a1 = p a ∧ c a1 = c a) as (L1 & C1 & P1 & CC1) by (unfold a1; destruct (ghost e); by split_and!; try intros []).
    destruct (same_lists a a1 L1 C1 P1 CC1) as [SL SB]. apply Hreq; try done.
    + apply (linked_set_entry a1 k e); [by apply SL|by rewrite C1|done].
    + apply (bounded_same a); [intros []; apply (L1 T1) || apply (L1 B1) || apply (L1 T2) || apply (L1 B2)|done|done|done].
    + left. eexists. split; [apply lookup_insert_eq|done].
    + intros x y Hx. cbn [cache set_cache]. by rewrite lookup_insert_ne, C1 by done.
  - destruct (same_lists a (set_len a (len a + 1))) as [SL SB]; [by intros []|done..|]. apply Hreq; try done; [by apply SL|by apply SB|by right].
Qed.
Lemma arc_get_ok a m k :
  0 < c a → holds a m → ∃ a' r, GetWithExpire zero a k = Some (a', r) ∧ c a' = c a ∧ holds a' m ∧ (∀ vt, r = Some vt → m !! k = Some vt)
    ∧ ∀ e, cache a !! k = Some e → ghost e = false → r = Some (value e, expires e * 1000000000).
Proof.
  intros Hc HH. pose proof HH as [HL HB Hv]. unfold GetWithExpire, get. destruct (cache a !! k) as [e|] eqn:Ek; [|exists a, None; by split_and!].
  destruct (req_spec a k e Hc HL HB) as (a' & -> & HS); [left; by exists e|]. cbn [mbind option_bind]. eexists a', _. split; [reflexivity|]. pose proof HS as (_ & _ & Hc' & _).
  split_and!; [done| | |].
  - apply (served_holds a a' k e _ (value e, expires e * 1000000000) HS); [intros x y _; apply Hv|]. intros Hg. split; [done|by apply (Hv k e)].
  - destruct (ghost e) eqn:Eg; [done|]. intros vt [= <-]. by apply (Hv k e).
  - intros e2 [= <-] Hg. by rewrite Hg.
Qed.

Lemma empty_holds a : 0 < c a → (∀ w, lst a w = []) → cache a = ∅ → p a = 0 → holds a ∅.
Proof.
  intros Hc Hl Hca Hp. assert (∀ w, sz a w = 0) as Hs by (intros w; unfold sz; by rewrite Hl). split.
  - split; [intros k w; rewrite Hl, Hca; split; [by intros ?%not_elem_of_nil|by intros (? & ? & _)]|intros w; rewrite Hl; constructor|intros k e; by rewrite Hca].
  - split; rewrite ?Hs, ?Hp; lia.
  - intros k e. by rewrite Hca.
Qed.

Definition keeps (o : op K V) : bool := match o with ODelete _ => false | _ => true end.

Lemma step_ok a m o : 0 < c a → holds a m → keeps o → ∃ a' r, step zero a o = Some (a', r) ∧ c a' = c a ∧ holds a' (wrote m o).
Proof.
  intros Hc HH. destruct o as [k v t|k|k|]; cbn [keeps step wrote]; [intros _..|done|intros _].
  - destruct (set_ok a m k v t Hc HH) as (a' & -> & H1 & H2 & _). by eexists a', _.
  - destruct (arc_get_ok a m k Hc HH) as (a' & r & -> & H1 & H2 & _). by eexists a', _.
  - eexists _, _. split; [done|]. split; [done|]. by apply empty_holds; [|intros []|..].
Qed.

Lemma run_ok ops : ∀ a m, 0 < c a → holds a m → Forall keeps ops → ∃ a', run zero a ops = Some a' ∧ c a' = c a ∧ holds a' (foldl wrote m ops).
Proof.
  induction ops as [|o ops IH]; intros a m Hc HH Hk; [by exists a|]. apply list.Forall_cons in Hk as [Ho Hk].
  destruct (step_ok a m o Hc HH Ho) as (a1 & r & E1 & C1 & H1). cbn [run foldl]. rewrite E1. cbn [mbind option_bind].
  destruct (IH a1 (wrote m o)) as (a' & E & C & H'); [lia|done|done|]. exists a'. split; [done|]. split; [congruence|done].
Qed.

(** The entries with a value. *)
Definition live a : list K := omap (λ '(k, e), if ghost e then None else Some k) (map_to_list (cache a)).

Lemma live_bound a m : holds a m → Z.of_nat (length (live a)) ≤ sz a T1 + sz a T2.
Proof.
  intros [HL HB Hv]. unfold sz, Len_. rewrite <- Nat2Z.inj_add, <- length_app. apply inj_le, submseteq_length, NoDup_submseteq.
  - unfold live. pose proof (NoDup_fst_map_to_list (cache a)) as Hnd. revert Hnd. generalize (map_to_list (cache a)). intros l. induction l as [|[k e] l IH]; [constructor|].
    rewrite fmap_cons. intros [Hn Hnd]%NoDup_cons. cbn. destruct (ghost e); [by apply IH|]. apply NoDup_cons. split; [|by apply IH].
    intros Hin. apply Hn. apply list_elem_of_omap in Hin as ([k' e'] & Hin & He). destruct (ghost e'); simplify_eq. apply list_elem_of_fmap. by exists (k, e').
  - intros k Hk. apply list_elem_of_omap in Hk as ([k' e'] & Hin & He). apply elem_of_map_to_list in Hin. destruct (ghost e') eqn:Eg; simplify_eq.
    apply elem_of_app. destruct (Hv k e' Hin Eg) as [[Hl|Hl] _]; [left; apply (linked_mem _ HL k T1)|right; apply (linked_mem _ HL k T2)]; by exists e'.
Qed.
End theory.



(** ** What goes wrong with [Delete] and with the count *)

(** After the only live entry is deleted, asking for a ghost takes the last element of
    an empty list. *)
Lemma delete_then_ghost_panics : run 0%nat (New 1) [OSet 1%nat 0%nat 0; OGet 1%nat; OSet 2%nat 0%nat 0; ODelete 2%nat; OGet 1%nat] = None.
Proof. vm_compute. reflexivity. Qed.

(** Every key that leaves the history is counted as a live one, so the count falls below
    zero and [Snapshot] panics. *)
Lemma count_falls_below_zero :
  ∃ a, run 0%nat (New 1) (mjoin ((λ k, [OSet k 0%nat 0; OGet k]) <$> [1; 2; 3; 4; 5; 6]%nat)) = Some a
    ∧ Len a < 0 ∧ length (live a) = 1%nat ∧ Snapshot a = None.
Proof. eexists. split; [vm_compute; reflexivity|]. split; [vm_compute; reflexivity|]. split; vm_compute; reflexivity. Qed.
