(* ===== verification/DevCache.v ===== *)
(** * [component/dev_cache/cache.go]: values with a refresh deadline

    A cache in front of one of two replacement policies (the interface [backend]: class
    [Backend]), with refreshes that several callers share.  A refresh is two critical
    sections: [Refresh] joins or starts a flight, and its worker comes back with
    whatever was fetched ([publish]).  A flight is a number; [results] holds the flights
    whose channel is closed, with their result.  [None] is a panic: of the backend, or a
    channel closed twice.  The clock is read once per operation; times are nanoseconds. *)

From Stdlib Require Import ZArith Lia.
From stdpp Require Import base gmap fin_maps numbers list.
From S2P Require Import Prelude.
#[local] Open Scope Z_scope.

Definition RetryDelay : Z := 3 * 1000000000.
Definition RetentionPeriod : Z := 30 * 24 * 3600 * 1000000000.

(** [time.Time{}]: the first of January of year 1. *)
Definition zeroTime : Z := -62135596800 * 1000000000.

(** Deadlines are kept in seconds by both policies. *)
Definition seconds (t : Z) : Z := t / 1000000000 * 1000000000.

Class Backend (K V B : Type) := {
  bGetWithExpire : Z → B → K → option (B * option (V * Z));
  bSetWithExpire : Z → B → K → V → Z → option B;
  bDelete : B → K → B;
  bClear : B → B;
  bSnapshot : B → option (list (K * (V * Z)));
}.

(** ** What the cache relies on

    [view] is what a policy can answer; an operation may drop other keys, never change them. *)

Class BackendLaws {K V B} `{EqDecision K} `{!Backend K V B} (ok : B → Prop) (view : B → K → option (V * Z)) := {
  law_get : ∀ now b k b' r, ok b → bGetWithExpire now b k = Some (b', r) →
    ok b' ∧ r = view b k ∧ view b' k = view b k ∧ ∀ k' x, view b' k' = Some x → view b k' = Some x;
  law_set : ∀ now b k v t b', ok b → bSetWithExpire now b k v t = Some b' →
    ok b' ∧ view b' k = Some (v, seconds t) ∧ ∀ k' x, k' ≠ k → view b' k' = Some x → view b k' = Some x;
  law_delete : ∀ b k, ok b → ok (bDelete b k) ∧ view (bDelete b k) k = None ∧ ∀ k', k' ≠ k → view (bDelete b k) k' = view b k';
  law_clear : ∀ b, ok b → ok (bClear b) ∧ ∀ k, view (bClear b) k = None;
  law_snapshot : ∀ b l, ok b → bSnapshot b = Some l → NoDup l.*1 ∧ ∀ k x, (k, x) ∈ l ↔ view b k = Some x;
}.

(** A policy that never panics. *)
Class BackendTotal {K V B} `{!Backend K V B} (ok : B → Prop) := {
  total_get : ∀ now b k, ok b → is_Some (bGetWithExpire now b k);
  total_set : ∀ now b k v t, ok b → is_Some (bSetWithExpire now b k v t);
  total_snapshot : ∀ b, ok b → is_Some (bSnapshot b);
}.

(** A policy that drops nothing while it holds fewer than [room] keys. *)
Class BackendRoom {K V B} `{EqDecision K} `{!Backend K V B} (ok : B → Prop) (view : B → K → option (V * Z)) (room : Z) := {
  room_get : ∀ now b k b' r, ok b → bGetWithExpire now b k = Some (b', r) → ∀ k', view b' k' = view b k';
  room_set : ∀ now b k v t b' ks, ok b → bSetWithExpire now b k v t = Some b' →
    (∀ k', is_Some (view b k') → k' ∈ ks) → Z.of_nat (length ks) < room → ∀ k', k' ≠ k → view b' k' = view b k';
}.

(** ** The cache *)

Record storedValue (V : Type) := mkStored { value : V; updatedAt : Z }.
Arguments mkStored {V}.
Arguments value {V}.
Arguments updatedAt {V}.

Record Item (K V : Type) := mkItem { Key : K; Value : V; Expires : Z; UpdatedAt : Z }.
Arguments mkItem {K V}.
Arguments Key {K V}.
Arguments Value {K V}.
Arguments Expires {K V}.
Arguments UpdatedAt {K V}.

Inductive error := ErrInvalidated | FetchError (n : nat).
#[export] Instance error_eq_dec : EqDecision error.
Proof. solve_decision. Defined.

Record Result (V : Type) := mkResult { rValue : V; rErr : option error }.
Arguments mkResult {V}.
Arguments rValue {V}.
Arguments rErr {V}.

Section cache.
Context {K V B : Type} `{Countable K} `{!Backend K (storedValue V) B} (zero : V).

Record Cache := mkCache { data : B; flights : gmap K nat; retry : gmap K Z; results : gmap nat (Result V); started : nat }.

Definition New (b : B) : Cache := mkCache b ∅ ∅ ∅ 0.

Definition set_data (c : Cache) (b : B) : Cache := mkCache b (flights c) (retry c) (results c) (started c).
Definition set_retry (c : Cache) (m : gmap K Z) : Cache := mkCache (data c) (flights c) m (results c) (started c).
Definition set_flights (c : Cache) (m : gmap K nat) : Cache := mkCache (data c) m (retry c) (results c) (started c).

(** [c.retry[key]] of an absent key is the zero time. *)
Definition Status (c : Cache) (k : K) : bool * Z := (bool_decide (is_Some (flights c !! k)), default zeroTime (retry c !! k)).

Definition expire (c : Cache) (k : K) : Cache := set_retry (set_data c (bDelete (data c) k)) (delete k (retry c)).

Definition get (now : Z) (c : Cache) (k : K) : option (Cache * option (storedValue V * Z)) :=
  '(b, r) ← bGetWithExpire now (data c) k;
  let c := set_data c b in
  match r with
  | Some (v, due) => if updatedAt v <=? now - RetentionPeriod then Some (expire c k, None) else Some (c, Some (v, due))
  | None => Some (c, None)
  end.

Definition GetWithExpire (now : Z) (c : Cache) (k : K) : option (Cache * option (V * Z)) :=
  '(c, r) ← get now c k; Some (c, option_map (λ x, (value x.1, x.2)) r).
Definition Get (now : Z) (c : Cache) (k : K) : option (Cache * option V) := '(c, r) ← GetWithExpire now c k; Some (c, option_map fst r).

Definition GetWithExpireValidated (now : Z) (c : Cache) (k : K) (accept : V → bool) : option (Cache * option (V * Z)) :=
  '(c, r) ← get now c k;
  match r with
  | Some (v, due) =>
      if accept (value v) then Some (c, Some (value v, due))
      else Some (set_retry (set_data c (bDelete (data c) k)) (delete k (retry c)), None)
  | None => Some (c, None)
  end.

Definition SetWithExpire (now : Z) (c : Cache) (k : K) (v : V) (due : Z) : option Cache :=
  b ← bSetWithExpire now (data c) k (mkStored v now) due;
  Some (set_retry (set_data c b) (delete k (retry c))).

(** [close(f.done)] after the result was written; closing twice panics. *)
Definition close_flight (c : Cache) (f : nat) (r : Result V) : option Cache :=
  match results c !! f with
  | Some _ => None
  | None => Some (mkCache (data c) (flights c) (retry c) (<[f := r]> (results c)) (started c))
  end.

Definition invalidateFlight (c : Cache) (k : K) : option Cache :=
  match flights c !! k with
  | None => Some c
  | Some f => close_flight (set_flights c (delete k (flights c))) f (mkResult zero (Some ErrInvalidated))
  end.

Definition delete_ (c : Cache) (k : K) : option Cache :=
  invalidateFlight (set_retry (set_data c (bDelete (data c) k)) (delete k (retry c))) k.
Definition Delete (c : Cache) (k : K) : option Cache := delete_ c k.

(** The caller's function sees the zero value and the zero time on a miss; it answers
    the value, its deadline and whether to remove the key. *)
Definition ComputeWithExpire (now : Z) (c : Cache) (k : K) (f : V → Z → bool → V * Z * bool) : option (Cache * (V * bool)) :=
  '(c, r) ← get now c k;
  let '(v, due, remove) := match r with Some (s, due) => f (value s) due true | None => f zero zeroTime false end in
  if (remove : bool) then c ← delete_ c k; Some (c, (v, false))
  else b ← bSetWithExpire now (data c) k (mkStored v now) due; Some (set_data c b, (v, true)).

Definition Compute_ (now : Z) (c : Cache) (k : K) (f : V → bool → V * bool) : option (Cache * (V * bool)) :=
  ComputeWithExpire now c k (λ v due ok, let '(v, remove) := f v ok in (v, due, remove)).

Definition restore (now : Z) (c : Cache) (k : K) (v : V) (due updatedAt : Z) : option Cache :=
  if updatedAt <=? now - RetentionPeriod then Some c
  else
    '(c, r) ← get now c k;
    match r with
    | Some _ => Some c
    | None => b ← bSetWithExpire now (data c) k (mkStored v updatedAt) due; Some (set_data c b)
    end.

(** The loops over the flights; every round only touches its own key. *)
Fixpoint invalidate_all (c : Cache) (ks : list K) : option Cache :=
  match ks with [] => Some c | k :: ks => c ← invalidateFlight c k; invalidate_all c ks end.

Definition flying (c : Cache) (m : K → bool) : list K := filter (λ k, m k) (map_to_list (flights c)).*1.

Definition Clear (c : Cache) : option Cache :=
  let c := set_retry (set_data c (bClear (data c))) ∅ in
  invalidate_all c (flying c (λ _, true)).

Definition add (now : Z) (s : Cache * list (Item K V)) (i : K * (storedValue V * Z)) : Cache * list (Item K V) :=
  let '(k, (v, due)) := i in
  if updatedAt v <=? now - RetentionPeriod then (expire s.1 k, s.2)
  else (s.1, s.2 ++ [mkItem k (value v) due (updatedAt v)]).

Definition snapshot (now : Z) (c : Cache) : option (Cache * list (Item K V)) :=
  l ← bSnapshot (data c); Some (foldl (add now) (c, []) l).
Definition Snapshot (now : Z) (c : Cache) : option (Cache * list (Item K V)) := snapshot now c.

Fixpoint delete_items (c : Cache) (m : K → bool) (l : list (Item K V)) (n : Z) : option (Cache * Z) :=
  match l with
  | [] => Some (c, n)
  | i :: l => if m (Key i) then c ← delete_ c (Key i); delete_items c m l (n + 1) else delete_items c m l n
  end.

Definition DeleteMatching (now : Z) (c : Cache) (m : K → bool) : option (Cache * Z) :=
  '(c, l) ← snapshot now c;
  '(c, n) ← delete_items c m l 0;
  c ← invalidate_all c (flying c m);
  Some (c, n).

Fixpoint stale_items (now : Z) (c : Cache) (m : K → bool) (l : list (Item K V)) : option Cache :=
  match l with
  | [] => Some c
  | i :: l =>
      if m (Key i)
      then b ← bSetWithExpire now (data c) (Key i) (mkStored (Value i) (UpdatedAt i)) 0;
           stale_items now (set_retry (set_data c b) (delete (Key i) (retry c))) m l
      else stale_items now c m l
  end.

Definition MarkStale (now : Z) (c : Cache) (m : K → bool) : option Cache :=
  '(c, l) ← snapshot now c;
  c ← stale_items now c m l;
  invalidate_all c (flying c m).

(** What a caller of [Refresh] waits for: a value it has already, or a flight. *)
Inductive waiting := Ready (v : V) | Waits (f : nat).

Definition start (c : Cache) (k : K) : Cache * waiting :=
  (mkCache (data c) (<[k := started c]> (flights c)) (retry c) (results c) (S (started c)), Waits (started c)).

Definition Refresh (now : Z) (c : Cache) (k : K) : option (Cache * waiting) :=
  match flights c !! k with
  | Some f => Some (c, Waits f)
  | None =>
      if now <? default zeroTime (retry c !! k) then
        '(c, r) ← get now c k;
        match r with
        | Some (v, _) => Some (c, Ready (value v))
        | None => Some (start c k)
        end
      else Some (start c k)
  end.

(** The worker of flight [f] for [k] comes back with [fetch]'s answer. *)
Definition publish (now : Z) (c : Cache) (k : K) (f : nat) (v : V) (due : Z) (err : option error) : option Cache :=
  if bool_decide (flights c !! k = Some f) then
    let c := set_flights c (delete k (flights c)) in
    c ← match err with
        | None =>
            b ← (if due =? zeroTime then Some (data c) else bSetWithExpire now (data c) k (mkStored v now) due);
            Some (set_retry (set_data c b) (delete k (retry c)))
        | Some _ =>
            '(c, r) ← get now c k;
            match r with
            | Some _ => Some (set_retry c (<[k := now + RetryDelay]> (retry c)))
            | None => Some c
            end
        end;
    close_flight c f (mkResult v err)
  else Some c.

(** A waiter that is not cancelled returns once the channel is closed. *)
Definition await (c : Cache) (w : waiting) : option (V * option error) :=
  match w with
  | Ready v => Some (v, None)
  | Waits f => option_map (λ r, (rValue r, rErr r)) (results c !! f)
  end.

(** ** Sequences of operations, with workers that come back at any time *)

Record sys := mkSys { cache : Cache; running : gmap nat K }.

Inductive op :=
| OGet (k : K)
| OValidated (k : K) (accept : V → bool)
| OSet (k : K) (v : V) (due : Z)
| OCompute (k : K) (f : V → Z → bool → V * Z * bool)
| ORestore (k : K) (v : V) (due updatedAt : Z)
| ODelete (k : K)
| OClear
| OSnapshot
| ODeleteMatching (m : K → bool)
| OMarkStale (m : K → bool)
| ORefresh (k : K)
| ODone (f : nat) (v : V) (due : Z) (err : option error).

(** A worker that is not running has nothing to say. *)
Definition step (now : Z) (s : sys) (o : op) : option sys :=
  let c := cache s in
  match o with
  | OGet k => '(c, _) ← GetWithExpire now c k; Some (mkSys c (running s))
  | OValidated k accept => '(c, _) ← GetWithExpireValidated now c k accept; Some (mkSys c (running s))
  | OSet k v due => c ← SetWithExpire now c k v due; Some (mkSys c (running s))
  | OCompute k f => '(c, _) ← ComputeWithExpire now c k f; Some (mkSys c (running s))
  | ORestore k v due u => c ← restore now c k v due u; Some (mkSys c (running s))
  | ODelete k => c ← Delete c k; Some (mkSys c (running s))
  | OClear => c ← Clear c; Some (mkSys c (running s))
  | OSnapshot => '(c, _) ← Snapshot now c; Some (mkSys c (running s))
  | ODeleteMatching m => '(c, _) ← DeleteMatching now c m; Some (mkSys c (running s))
  | OMarkStale m => c ← MarkStale now c m; Some (mkSys c (running s))
  | ORefresh k =>
      '(c', w) ← Refresh now c k;
      Some (mkSys c' (if bool_decide (started c' = started c) then running s else <[started c := k]> (running s)))
  | ODone f v due err =>
      match running s !! f with
      | None => Some s
      | Some k => c ← publish now c k f v due err; Some (mkSys c (delete f (running s)))
      end
  end.

Fixpoint run (s : sys) (ops : list (Z * op)) : option sys :=
  match ops with
  | [] => Some s
  | (now, o) :: ops => s ← step now s o; run s ops
  end.
End cache.
Arguments Cache : clear implicits.
Arguments Cache K V B {_ _}.
Arguments sys : clear implicits.
Arguments sys K V B {_ _}.
Arguments op : clear implicits.
