(* ===== verification/DevCacheTheory.v ===== *)
(** * Theory of [DevCache]

    What each operation does to the values a policy can answer and to the flights, for
    any policy with the laws of [BackendLaws]; then sequences of operations. *)

From Stdlib Require Import ZArith Lia.
From stdpp Require Import base gmap fin_maps numbers list.
From S2P Require Import Prelude DevCache.
#[local] Open Scope Z_scope.

Section theory.
Context {K V B : Type} `{Countable K} `{!Backend K (storedValue V) B} (zero : V).
Context (ok : B → Prop) (view : B → K → option (storedValue V * Z)) `{HLaws : !BackendLaws ok view}.
Implicit Types (c : Cache K V B) (k : K) (b : B).

Definition see c k : option (storedValue V * Z) := view (data c) k.

(** Nothing but the data and the retry times changed. *)
Definition frame c c' : Prop := flights c' = flights c ∧ results c' = results c ∧ started c' = started c.

Lemma frame_refl c : frame c c.
Proof. done. Qed.
Lemma frame_trans c1 c2 c3 : frame c1 c2 → frame c2 c3 → frame c1 c3.
Proof. intros (? & ? & ?) (? & ? & ?). unfold frame. by split_and!; etrans. Qed.

(** Values are dropped, never changed. *)
Definition shrinks c c' : Prop := ∀ k x, see c' k = Some x → see c k = Some x.

Lemma expire_spec c k :
  ok (data c) → ok (data (expire c k)) ∧ frame c (expire c k) ∧ see (expire c k) k = None ∧ ∀ k', k' ≠ k → see (expire c k) k' = see c k'.
Proof. intros Hok. destruct (law_delete (data c) k Hok) as (H1 & H2 & H3). by split_and!. Qed.

Lemma cache_get_spec now c k c' r :
  ok (data c) → get now c k = Some (c', r) →
  ok (data c') ∧ frame c c' ∧ shrinks c c' ∧
  match r with
  | Some (v, due) => see c k = Some (v, due) ∧ see c' k = Some (v, due) ∧ now - RetentionPeriod < updatedAt v
  | None => see c' k = None ∧ ∀ x, see c k = Some x → updatedAt x.1 ≤ now - RetentionPeriod
  end.
Proof.
  intros Hok. unfold get. destruct (bGetWithExpire now (data c) k) as [[b r0]|] eqn:Eg; [|done]. cbn [mbind option_bind].
  destruct (law_get _ _ _ _ _ Hok Eg) as (L1 & L2 & L3 & L4). destruct r0 as [[v due]|].
  - destruct (Z.leb_spec (updatedAt v) (now - RetentionPeriod)); intros [= <- <-].
    + destruct (expire_spec (set_data c b) k L1) as (E1 & E2 & E3 & E4). split_and!; try done. intros k' x. destruct (decide (k' = k)) as [->|]; [by rewrite E3|rewrite E4 by done; apply L4].
      intros x Hx. unfold see in Hx. rewrite <- L2 in Hx. by simplify_eq.
    + split_and!; try done. unfold see. cbn. by rewrite L3.
  - intros [= <- <-]. split_and!; try done; unfold see; cbn; [by rewrite L3|]. intros x Hx. congruence.
Qed.

(** The value of one key is written, with its time. *)
Definition puts (k : K) (s : storedValue V) (due : Z) c c' : Prop :=
  see c' k = Some (s, seconds due) ∧ ∀ k' x, k' ≠ k → see c' k' = Some x → see c k' = Some x.

Lemma set_spec now c k s due b :
  ok (data c) → bSetWithExpire now (data c) k s due = Some b → ok b ∧ ∀ c', data c' = b → puts k s due c c'.
Proof. intros Hok E. destruct (law_set _ _ _ _ _ _ Hok E) as (L1 & L2 & L3). split; [done|]. intros c' <-. by split. Qed.

(** ** Flights *)

(** A flight is closed or flies, under one key. *)
Record tidy c : Prop := {
  tidy_flying : ∀ k f, flights c !! k = Some f → (f < started c)%nat ∧ results c !! f = None;
  tidy_inj : ∀ k k' f, flights c !! k = Some f → flights c !! k' = Some f → k = k';
  tidy_closed : ∀ f, is_Some (results c !! f) → (f < started c)%nat;
  tidy_all : ∀ f, (f < started c)%nat → is_Some (results c !! f) ∨ ∃ k, flights c !! k = Some f;
}.

Lemma tidy_frame c c' : frame c c' → tidy c → tidy c'.
Proof. intros (F1 & F2 & F3) [T1 T2 T3 T4]. split; rewrite ?F1, ?F2, ?F3; done. Qed.

(** Results are written once. *)
Definition grows c c' : Prop := ∀ f r, results c !! f = Some r → results c' !! f = Some r.

Lemma close_spec c k f r :
  tidy c → flights c !! k = Some f →
  ∃ c', close_flight (set_flights c (delete k (flights c))) f r = Some c' ∧ data c' = data c ∧ retry c' = retry c ∧ started c' = started c
    ∧ flights c' = delete k (flights c) ∧ results c' !! f = Some r ∧ grows c c' ∧ tidy c'.
Proof.
  intros [T1 T2 T3 T4] Hf. destruct (T1 k f Hf) as [Hlt Hn]. unfold close_flight. cbn [results set_flights]. rewrite Hn. eexists. split; [reflexivity|]. cbn.
  split_and!; try done; [by rewrite lookup_insert_eq|intros f' r' Hr; cbn; rewrite lookup_insert_ne; [done|congruence]|]. split; cbn.
  - intros k' f' [Hk Hf']%lookup_delete_Some. destruct (T1 _ _ Hf') as [H1 H2]. split; [done|]. rewrite lookup_insert_ne; [done|]. intros <-. by apply Hk, (T2 _ _ f).
  - intros k1 k2 f' [_ H1]%lookup_delete_Some [_ H2]%lookup_delete_Some. by eapply T2.
  - intros f'. destruct (decide (f = f')) as [<-|]; [done|]. rewrite lookup_insert_ne by done. apply T3.
  - intros f' Hf'. destruct (decide (f = f')) as [<-|]; [left; rewrite lookup_insert_eq; by eexists|]. rewrite lookup_insert_ne by done. destruct (T4 f' Hf') as [?|[k' Hk']]; [by left|].
    right. exists k'. rewrite lookup_delete_ne; [done|]. congruence.
Qed.

Abbreviation invalidated := (mkResult zero (Some ErrInvalidated)).

Lemma invalidateFlight_spec c k :
  tidy c → ∃ c', invalidateFlight zero c k = Some c' ∧ data c' = data c ∧ retry c' = retry c ∧ started c' = started c
    ∧ flights c' = delete k (flights c) ∧ (∀ f, flights c !! k = Some f → results c' !! f = Some invalidated) ∧ grows c c' ∧ tidy c'.
Proof.
  intros HT. unfold invalidateFlight. destruct (flights c !! k) as [f|] eqn:Ef.
  - destruct (close_spec c k f invalidated HT Ef) as (c' & E & H1 & H2 & H3 & H4 & H5 & H6 & H7). exists c'. split_and!; try done. by intros f' [= <-].
  - exists c. split_and!; [done..|by rewrite delete_id|done|by intros ?|done].
Qed.

Lemma invalidate_all_spec ks : ∀ c,
  tidy c → ∃ c', invalidate_all zero c ks = Some c' ∧ data c' = data c ∧ retry c' = retry c ∧ started c' = started c
    ∧ (∀ k, flights c' !! k = if decide (k ∈ ks) then None else flights c !! k)
    ∧ (∀ k f, k ∈ ks → flights c !! k = Some f → results c' !! f = Some invalidated) ∧ grows c c' ∧ tidy c'.
Proof.
  induction ks as [|k0 ks IH]; intros c HT.
  - exists c. split_and!; [done..|intros k; by rewrite decide_False by apply not_elem_of_nil|intros k f Hk; by apply not_elem_of_nil in Hk|by intros ?|done].
  - destruct (invalidateFlight_spec c k0 HT) as (c1 & E1 & D1 & R1 & S1 & F1 & V1 & G1 & T1). destruct (IH c1 T1) as (c2 & E2 & D2 & R2 & S2 & F2 & V2 & G2 & T2).
    exists c2. cbn [invalidate_all]. rewrite E1. cbn [mbind option_bind]. split_and!; [done|congruence|congruence|congruence| | |intros f r Hr; by apply G2, G1|done].
    + intros k. rewrite F2, F1. destruct (decide (k ∈ ks)); [rewrite decide_True; [done|by right]|]. destruct (decide (k = k0)) as [->|].
      * rewrite decide_True by (by left). by rewrite lookup_delete_eq.
      * rewrite decide_False by (rewrite elem_of_cons; tauto). by rewrite lookup_delete_ne.
    + intros k f Hk Hf. destruct (decide (k = k0)) as [->|]; [by apply G2, V1|]. apply elem_of_cons in Hk as [?|Hk]; [done|]. apply (V2 k f Hk). by rewrite F1, lookup_delete_ne.
Qed.

Lemma flying_spec c m k : k ∈ flying c m ↔ m k = true ∧ is_Some (flights c !! k).
Proof.
  unfold flying. rewrite list_elem_of_filter, list_elem_of_fmap. split.
  - intros [Hm ([k' f] & -> & Hin)]. apply elem_of_map_to_list in Hin. split; [by destruct (m _)|by eexists].
  - intros [Hm [f Hf]]. split; [by rewrite Hm|]. exists (k, f). split; [done|]. by apply elem_of_map_to_list.
Qed.

(** All flights of the keys that match. *)
Lemma invalidate_flying c m :
  tidy c → ∃ c', invalidate_all zero c (flying c m) = Some c' ∧ data c' = data c ∧ started c' = started c
    ∧ (∀ k, flights c' !! k = if m k then None else flights c !! k)
    ∧ (∀ k f, m k = true → flights c !! k = Some f → results c' !! f = Some invalidated) ∧ grows c c' ∧ tidy c'.
Proof.
  intros HT. destruct (invalidate_all_spec (flying c m) c HT) as (c' & E & D & R & S & F & V0 & G & T). exists c'. split_and!; try done.
  - intros k. rewrite F. destruct (decide (k ∈ flying c m)) as [Hin|Hin]; rewrite flying_spec in Hin; [destruct Hin as [-> _]; done|].
    destruct (m k); [|done]. destruct (flights c !! k) eqn:E'; [|done]. exfalso. apply Hin. split; [done|by eexists].
  - intros k f Hm Hf. apply (V0 k f); [|done]. rewrite flying_spec. split; [done|by eexists].
Qed.
(** ** Steps that start no flight

    Every value was there before, possibly with another deadline, or [w] allows it. *)

Definition evolves (w : K → storedValue V → Prop) c c' : Prop :=
  ∀ k s due, see c' k = Some (s, due) → see c k = Some (s, due) ∨ (due = 0 ∧ ∃ d, see c k = Some (s, d)) ∨ w k s.

Record calm (w : K → storedValue V → Prop) c c' : Prop := {
  calm_ok : ok (data c');
  calm_tidy : tidy c';
  calm_evolves : evolves w c c';
  calm_flights : ∀ k f, flights c' !! k = Some f → flights c !! k = Some f;
  calm_grows : grows c c';
  calm_started : started c' = started c;
}.

Lemma calm_trans w c1 c2 c3 : calm w c1 c2 → calm w c2 c3 → calm w c1 c3.
Proof.
  intros [O1 T1 E1 F1 G1 S1] [O2 T2 E2 F2 G2 S2]. split; [done|done| |eauto|intros f r Hr; by apply G2, G1|congruence].
  intros k s due Hs. destruct (E2 k s due Hs) as [H1|[[-> [d H1]]|H1]]; [by apply E1| |tauto].
  destruct (E1 k s d H1) as [H2|[[-> H2]|H2]]; [right; left; by eauto|tauto|tauto].
Qed.

Lemma calm_mono (w w' : K → storedValue V → Prop) c c' : (∀ k s, w k s → w' k s) → calm w c c' → calm w' c c'.
Proof. intros Hw [O1 T1 E1 F1 G1 S1]. split; try done. intros k s due Hs. destruct (E1 k s due Hs) as [?|[?|?]]; eauto. Qed.

Definition never (k : K) (s : storedValue V) : Prop := False.

Lemma calm_never w c c' : calm never c c' → calm w c c'.
Proof. by apply calm_mono. Qed.

Lemma calm_frame w c c' : ok (data c') → tidy c → frame c c' → evolves w c c' → calm w c c'.
Proof.
  intros Hok HT HF HE. pose proof HF as (F1 & F2 & F3). split; [done|by apply (tidy_frame c)|done|by rewrite F1|intros f r; by rewrite F2|done].
Qed.

Lemma shrinks_evolves w c c' : shrinks c c' → evolves w c c'.
Proof. intros HS k s due Hs. left. by apply HS. Qed.

Lemma calm_refl w c : ok (data c) → tidy c → calm w c c.
Proof. intros Hok HT. apply calm_frame; [done..|]. apply shrinks_evolves. by intros k x. Qed.

Lemma calm_get now c k c' r : ok (data c) → tidy c → get now c k = Some (c', r) → calm never c c'.
Proof. intros Hok HT E. destruct (cache_get_spec _ _ _ _ _ Hok E) as (G1 & G2 & G3 & _). by apply calm_frame; [..|apply shrinks_evolves]. Qed.

Lemma calm_delete c k m : ok (data c) → tidy c → calm never c (set_retry (set_data c (bDelete (data c) k)) m).
Proof.
  intros Hok HT. destruct (law_delete (data c) k Hok) as (L1 & L2 & L3). apply calm_frame; [done..|]. apply shrinks_evolves. intros k' x. unfold see. cbn.
  destruct (decide (k' = k)) as [->|]; [by rewrite L2|by rewrite L3].
Qed.

Lemma calm_put now c k s due b m (w : K → storedValue V → Prop) :
  ok (data c) → tidy c → bSetWithExpire now (data c) k s due = Some b → w k s → calm w c (set_retry (set_data c b) m).
Proof.
  intros Hok HT E Hw. destruct (set_spec _ _ _ _ _ _ Hok E) as (S1 & S2). destruct (S2 (set_retry (set_data c b) m) eq_refl) as [P1 P2].
  apply calm_frame; [done..|]. intros k' s' due' Hs. destruct (decide (k' = k)) as [->|]; [right; right; congruence|left; by apply P2].
Qed.

Lemma calm_invalidate c k : ok (data c) → tidy c → ∃ c', invalidateFlight zero c k = Some c' ∧ calm never c c' ∧ data c' = data c ∧ flights c' = delete k (flights c) ∧ (∀ f, flights c !! k = Some f → results c' !! f = Some invalidated).
Proof.
  intros Hok HT. destruct (invalidateFlight_spec c k HT) as (c' & E & D & R & S & F & V0 & G & T). exists c'. split_and!; try done. split; [by rewrite D|done| | |done|done].
  - apply shrinks_evolves. intros k' x. unfold see. by rewrite D.
  - intros k' f. rewrite F. by intros [_ ?]%lookup_delete_Some.
Qed.

Lemma calm_flying c m : ok (data c) → tidy c →
  ∃ c', invalidate_all zero c (flying c m) = Some c' ∧ calm never c c' ∧ data c' = data c ∧ (∀ k, flights c' !! k = if m k then None else flights c !! k) ∧ (∀ k f, m k = true → flights c !! k = Some f → results c' !! f = Some invalidated).
Proof.
  intros Hok HT. destruct (invalidate_flying c m HT) as (c' & E & D & S & F & V0 & G & T). exists c'. split_and!; try done. split; [by rewrite D|done| | |done|done].
  - apply shrinks_evolves. intros k' x. unfold see. by rewrite D.
  - intros k' f. rewrite F. by destruct (m k').
Qed.

(** [delete]: the key is gone and so is its flight. *)
Lemma delete_spec c k :
  ok (data c) → tidy c → ∃ c', delete_ zero c k = Some c' ∧ calm never c c' ∧ see c' k = None ∧ flights c' = delete k (flights c)
    ∧ (∀ f, flights c !! k = Some f → results c' !! f = Some invalidated) ∧ ∀ k', k' ≠ k → see c' k' = see c k'.
Proof.
  intros Hok HT. unfold delete_. pose proof (calm_delete c k (delete k (retry c)) Hok HT) as C1. destruct (calm_invalidate _ k (calm_ok _ _ _ C1) (calm_tidy _ _ _ C1)) as (c' & E & C2 & D & F & V0).
  destruct (law_delete (data c) k Hok) as (_ & L2 & L3). exists c'. split_and!; [done|by eapply calm_trans| |done|done|]; unfold see; rewrite D; done.
Qed.

(** ** Snapshots *)

Definition item k (x : storedValue V * Z) : Item K V := mkItem k (value x.1) x.2 (updatedAt x.1).

Lemma add_spec now l : ∀ c out, ok (data c) → tidy c → NoDup l.*1 →
  let r := foldl (add now) (c, out) l in
  calm never c r.1 ∧ flights r.1 = flights c
  ∧ (∀ k, k ∉ l.*1 → see r.1 k = see c k)
  ∧ (∀ k x, (k, x) ∈ l → if updatedAt x.1 <=? now - RetentionPeriod then see r.1 k = None else see r.1 k = see c k ∧ item k x ∈ r.2)
  ∧ (∀ i, i ∈ out → i ∈ r.2) ∧ ∀ i, i ∈ r.2 → i ∈ out ∨ ∃ k x, (k, x) ∈ l ∧ i = item k x ∧ now - RetentionPeriod < updatedAt x.1.
Proof.
  induction l as [|[k [v due]] l IH]; intros c out Hok HT Hnd.
  - cbn. split_and!; [by apply calm_refl|done|done|intros k x Hx; by apply not_elem_of_nil in Hx|done|by left].
  - rewrite fmap_cons in Hnd. apply NoDup_cons in Hnd as [Hn Hnd]. cbn [foldl add]. destruct (Z.leb_spec (updatedAt v) (now - RetentionPeriod)) as [Ho|Ho]; cbn [fst snd].
    + destruct (expire_spec c k Hok) as (E1 & E2 & E3 & E4). pose proof (calm_delete c k (delete k (retry c)) Hok HT) as C1. fold (expire c k) in C1.
      destruct (IH (expire c k) out E1 (calm_tidy _ _ _ C1) Hnd) as (I1 & I2 & I3 & I4 & I5 & I6). split_and!; [by eapply calm_trans|by rewrite I2|..|done|].
      * intros k'. rewrite fmap_cons, not_elem_of_cons. intros [Hk' Hl]. cbn in Hk'. by rewrite I3, E4.
      * intros k' x. rewrite elem_of_cons. intros [[= -> ->]|Hx]; [cbn; rewrite (proj2 (Z.leb_le _ _)) by done; by rewrite I3|]. specialize (I4 k' x Hx). destruct (updatedAt x.1 <=? _); [done|].
        rewrite <- E4; [done|]. intros ->. apply Hn, list_elem_of_fmap. by exists (k, x).
      * intros i Hi. destruct (I6 i Hi) as [?|(k' & x & Hx & ?)]; [by left|]. right. exists k', x. split; [by right|done].
    + destruct (IH c (out ++ [mkItem k (value v) due (updatedAt v)]) Hok HT Hnd) as (I1 & I2 & I3 & I4 & I5 & I6). split_and!; [done|done|..].
      * intros k'. rewrite fmap_cons, not_elem_of_cons. intros [_ Hl]. by apply I3.
      * intros k' x. rewrite elem_of_cons. intros [[= -> ->]|Hx]; [|by apply I4]. cbn. rewrite (proj2 (Z.leb_gt _ _)) by done. split; [by apply I3|]. apply I5, elem_of_app. right. by apply list_elem_of_singleton.
      * intros i Hi. apply I5, elem_of_app. by left.
      * intros i Hi. destruct (I6 i Hi) as [[?|Hi']%elem_of_app|(k' & x & Hx & ?)]; [by left| |right; exists k', x; split; [by right|done]].
        apply list_elem_of_singleton in Hi'. right. exists k, (v, due). split; [by left|]. split; [done|cbn; lia].
Qed.

(** The items are exactly what is retained, and only that is still there afterwards. *)
Lemma snapshot_spec now c c' l :
  ok (data c) → tidy c → snapshot now c = Some (c', l) →
  calm never c c' ∧ flights c' = flights c ∧ (∀ k x, see c' k = Some x ↔ see c k = Some x ∧ now - RetentionPeriod < updatedAt x.1)
  ∧ ∀ i, i ∈ l ↔ ∃ k x, see c' k = Some x ∧ i = item k x.
Proof.
  intros Hok HT. unfold snapshot. destruct (bSnapshot (data c)) as [l0|] eqn:Es; [|done]. cbn [mbind option_bind]. intros [= E].
  destruct (law_snapshot _ _ Hok Es) as [Hnd Hl]. destruct (add_spec now l0 c [] Hok HT Hnd) as (A1 & A2 & A3 & A4 & A5 & A6). rewrite E in *. cbn [fst snd] in *.
  assert (∀ k x, see c' k = Some x ↔ see c k = Some x ∧ now - RetentionPeriod < updatedAt x.1) as Hsee.
  { intros k x. destruct (see c k) as [y|] eqn:Ey.
    - pose proof (proj2 (Hl k y) Ey) as Hin. specialize (A4 k y Hin). destruct (Z.leb_spec (updatedAt y.1) (now - RetentionPeriod)) as [Ho|Ho].
      + rewrite A4. split; [done|]. intros [[= ->] ?]. lia.
      + rewrite (proj1 A4), Ey. split; [intros [= ->]; split; [done|lia]|by intros [? _]].
    - rewrite A3, Ey; [split; [done|by intros [? _]]|]. intros ([k' y] & Hk & Hin)%list_elem_of_fmap. cbn in Hk. subst k'. apply Hl in Hin. unfold see in Ey. congruence. }
  split_and!; [done|done|done|]. intros i. split.
  - intros Hi. destruct (A6 i Hi) as [?%not_elem_of_nil|(k & x & Hin & -> & Hr)]; [done|]. exists k, x. split; [|done]. apply Hsee. split; [by apply Hl|done].
  - intros (k & x & Hx & ->). pose proof (proj1 (Hsee k x) Hx) as [Hc Hr]. apply Hl in Hc. specialize (A4 k x Hc). rewrite (proj2 (Z.leb_gt _ _)) in A4 by lia. apply A4.
Qed.
(** ** Invalidation *)

Lemma calm_none c c' k : calm never c c' → see c k = None → see c' k = None.
Proof. intros HC Hn. destruct (see c' k) as [[s due]|] eqn:E; [|done]. by destruct (calm_evolves _ _ _ HC k s due E) as [?|[[_ [d ?]]|[]]]; congruence. Qed.

Lemma delete_items_spec m l : ∀ c n, ok (data c) → tidy c →
  ∃ c' n', delete_items zero c m l n = Some (c', n') ∧ calm never c c'
    ∧ (∀ i, i ∈ l → m (Key i) = true → see c' (Key i) = None)
    ∧ (∀ k, m k = false → see c' k = see c k ∧ flights c' !! k = flights c !! k)
    ∧ ∀ k f, flights c !! k = Some f → flights c' !! k = Some f ∨ results c' !! f = Some invalidated.
Proof.
  induction l as [|i l IH]; intros c n Hok HT; cbn [delete_items].
  - exists c, n. split_and!; [done|by apply calm_refl|intros i Hi; by apply not_elem_of_nil in Hi|done|by left].
  - destruct (m (Key i)) eqn:Em.
    + destruct (delete_spec c (Key i) Hok HT) as (c1 & -> & C1 & D1 & D2 & D3 & D4). cbn [mbind option_bind]. destruct (IH c1 (n + 1) (calm_ok _ _ _ C1) (calm_tidy _ _ _ C1)) as (c2 & n2 & -> & C2 & I1 & I3 & I2).
      exists c2, n2. split_and!; [done|by eapply calm_trans| | |].
      * intros j [->|Hj]%elem_of_cons Hm; [by apply (calm_none c1)|by apply I1].
      * intros k Hm. assert (k ≠ Key i) as Hk by congruence. destruct (I3 k Hm) as [-> ->]. by rewrite D2, lookup_delete_ne, D4 by done.
      * intros k f Hf. destruct (decide (k = Key i)) as [->|Hk]; [right; by apply (calm_grows _ _ _ C2), D3|]. apply I2. by rewrite D2, lookup_delete_ne.
    + destruct (IH c n Hok HT) as (c2 & n2 & -> & C2 & I1 & I3 & I2). exists c2, n2. split_and!; [done|done| |done|done]. intros j [->|Hj]%elem_of_cons Hm; [congruence|by apply I1].
Qed.

(** What invalidation leaves of a key: no flight, and its waiters know. *)
Definition cut c c' k : Prop := flights c' !! k = None ∧ ∀ f, flights c !! k = Some f → results c' !! f = Some invalidated.

Lemma DeleteMatching_spec now c m c' n :
  ok (data c) → tidy c → DeleteMatching zero now c m = Some (c', n) → calm never c c' ∧ (∀ k, m k = true → see c' k = None ∧ cut c c' k)
  ∧ ∀ k, m k = false → flights c' !! k = flights c !! k ∧ ∀ x, see c' k = Some x ↔ see c k = Some x ∧ now - RetentionPeriod < updatedAt x.1.
Proof.
  intros Hok HT. unfold DeleteMatching. destruct (snapshot now c) as [[c1 l]|] eqn:Es; [|done]. cbn [mbind option_bind].
  destruct (snapshot_spec now c c1 l Hok HT Es) as (C1 & F1 & S1 & L1). destruct (delete_items_spec m l c1 0 (calm_ok _ _ _ C1) (calm_tidy _ _ _ C1)) as (c2 & n2 & -> & C2 & I1 & I3 & I2). cbn [mbind option_bind].
  destruct (calm_flying c2 m (calm_ok _ _ _ C2) (calm_tidy _ _ _ C2)) as (c3 & -> & C3 & D3 & F3 & V3). intros [= <- <-]. split; [by eapply calm_trans, calm_trans|]. split.
  2: { intros k Hm. destruct (I3 k Hm) as [J1 J2]. split; [by rewrite F3, Hm, J2, F1|]. intros x. unfold see at 1. rewrite D3. fold (see c2 k). by rewrite J1, S1. }
  intros k Hm. split; [|split; [by rewrite F3, Hm|]].
  - apply (calm_none c2 c3 k C3). destruct (see c1 k) as [x|] eqn:Ex; [|by apply (calm_none c1)]. apply (I1 (item k x)); [apply L1; by exists k, x|done].
  - intros f Hf. rewrite <- F1 in Hf. destruct (I2 k f Hf) as [?|?]; [by apply (V3 k)|by apply (calm_grows _ _ _ C3)].
Qed.

Lemma Clear_spec c : ok (data c) → tidy c → ∃ c', Clear zero c = Some c' ∧ calm never c c' ∧ ∀ k, see c' k = None ∧ cut c c' k.
Proof.
  intros Hok HT. unfold Clear. set (c1 := set_retry (set_data c (bClear (data c))) ∅). assert (∀ k, see c1 k = None) as Hcl by (intros k; by apply law_clear).
  assert (calm never c c1) as C1 by (apply calm_frame; [exact (proj1 (law_clear _ Hok))|done|done|]; apply shrinks_evolves; intros k x; by rewrite (Hcl k)).
  destruct (calm_flying c1 (λ _, true) (calm_ok _ _ _ C1) (calm_tidy _ _ _ C1)) as (c2 & -> & C2 & D2 & F2 & V2). exists c2. split; [done|]. split; [by eapply calm_trans|].
  intros k. split; [unfold see; rewrite D2; apply Hcl|]. split; [apply F2|]. intros f. by apply (V2 k).
Qed.

Lemma stale_items_spec now m c0 l : ∀ c c',
  calm never c0 c → (∀ i, i ∈ l → ∃ d, see c0 (Key i) = Some (mkStored (Value i) (UpdatedAt i), d)) → stale_items now c m l = Some c' →
  calm never c0 c' ∧ flights c' = flights c
  ∧ ∀ k s due, m k = true → (∃ i, i ∈ l ∧ Key i = k) ∨ (∀ x, see c k = Some x → x.2 = 0) → see c' k = Some (s, due) → due = 0.
Proof.
  induction l as [|i l IH]; intros c c' C0 Hl; cbn [stale_items].
  - intros [= <-]. split_and!; [done|done|]. intros k s due _ [(i & Hi & _)|Hz]; [by apply not_elem_of_nil in Hi|]. intros Hs. apply (Hz _ Hs).
  - assert (∀ j, j ∈ l → ∃ d, see c0 (Key j) = Some (mkStored (Value j) (UpdatedAt j), d)) as Hl' by (intros j Hj; apply Hl; by right).
    destruct (m (Key i)) eqn:Em.
    + destruct (bSetWithExpire now (data c) (Key i) _ 0) as [b|] eqn:Eb; [|done]. cbn [mbind option_bind]. intros E.
      destruct (set_spec _ _ _ _ _ _ (calm_ok _ _ _ C0) Eb) as (S1 & S2). set (c1 := set_retry (set_data c b) (delete (Key i) (retry c))) in *. destruct (S2 c1 eq_refl) as [P1 P2].
      assert (calm never c0 c1) as C1.
      { destruct C0 as [O1 T1 E1 F1 G1 S1']. split; [done|by apply (tidy_frame c)| |done|done|done]. intros k s due Hs. destruct (decide (k = Key i)) as [->|]; [|by apply E1, P2]. right. left.
        rewrite P1 in Hs. simplify_eq. split; [done|]. apply Hl. by left. }
      destruct (IH c1 c' C1 Hl' E) as (I1 & I2 & I3). split_and!; [done|done|]. intros k s due Hm Hk. apply I3; [done|].
      destruct (decide (k = Key i)) as [->|Hne]; [right; rewrite P1; by intros x [= <-]|]. destruct Hk as [(j & [->|Hj]%elem_of_cons & Hk)|Hz]; [done|left; by exists j|].
      right. intros x Hx. apply Hz. by apply P2.
    + intros E. destruct (IH c c' C0 Hl' E) as (I1 & I2 & I3). split_and!; [done|done|]. intros k s due Hm Hk. apply I3; [done|].
      destruct Hk as [(j & [->|Hj]%elem_of_cons & Hk)|Hz]; [congruence|left; by exists j|by right].
Qed.

Lemma MarkStale_spec now c m c' :
  ok (data c) → tidy c → MarkStale zero now c m = Some c' → calm never c c' ∧ ∀ k, m k = true → cut c c' k ∧ ∀ s due, see c' k = Some (s, due) → due = 0 ∧ ∃ d, see c k = Some (s, d).
Proof.
  intros Hok HT. unfold MarkStale. destruct (snapshot now c) as [[c1 l]|] eqn:Es; [|done]. cbn [mbind option_bind].
  destruct (snapshot_spec now c c1 l Hok HT Es) as (C1 & F1 & V1 & L1). destruct (stale_items now c1 m l) as [c2|] eqn:Et; [|done]. cbn [mbind option_bind].
  destruct (stale_items_spec now m c1 l c1 c2) as (C2 & F2 & Z2); [apply calm_refl; apply C1| |done|].
  { intros i Hi. apply L1 in Hi as (k & [[v u] d] & Hs & ->). by exists d. }
  destruct (calm_flying c2 m (calm_ok _ _ _ C2) (calm_tidy _ _ _ C2)) as (c3 & -> & C3 & D3 & F3 & V3). intros [= <-]. split; [by eapply calm_trans, calm_trans|]. intros k Hm.
  split; [split; [by rewrite F3, Hm|]|].
  - intros f Hf. apply (V3 k); [done|]. by rewrite F2, F1.
  - intros s due Hs. assert (see c2 k = Some (s, due)) as Hs2 by (unfold see in *; by rewrite <- D3).
    assert (due = 0) as ->. { apply (Z2 k s due Hm); [|done]. destruct (see c1 k) as [x|] eqn:Ex; [|by right]. left. exists (item k x). split; [apply L1; by exists k, x|done]. }
    split; [done|]. destruct (calm_evolves _ _ _ C2 k s 0 Hs2) as [H1|[[_ [d H1]]|[]]]; apply V1 in H1 as [H1 _]; by eauto.
Qed.
(** ** Flights that come back *)

Lemma close_frame c c2 k f r :
  tidy c → flights c !! k = Some f → frame (set_flights c (delete k (flights c))) c2 →
  ∃ c', close_flight c2 f r = Some c' ∧ data c' = data c2 ∧ retry c' = retry c2 ∧ started c' = started c
    ∧ flights c' = delete k (flights c) ∧ results c' !! f = Some r ∧ grows c c' ∧ tidy c'.
Proof.
  intros HT Hf (F1 & F2 & F3). cbn in F1, F2, F3. destruct (close_spec (set_flights c2 (flights c)) k f r) as (c' & E & H1 & H2 & H3 & H4 & H5 & H6 & H7); [by apply (tidy_frame c)|done|].
  exists c'. cbn in *. split_and!; try done; [|congruence|intros f' r'; rewrite <- F2; apply H6]. rewrite <- F1 in E. by destruct c2.
Qed.

Lemma publish_spec now c k f v due err c' :
  ok (data c) → tidy c → flights c !! k = Some f → publish now c k f v due err = Some c' →
  calm (λ k' s, k' = k ∧ err = None ∧ s = mkStored v now) c c' ∧ flights c' = delete k (flights c) ∧ results c' !! f = Some (mkResult v err)
  ∧ (err ≠ None → ∀ x, see c k = Some x → now - RetentionPeriod < updatedAt x.1 → see c' k = Some x ∧ retry c' !! k = Some (now + RetryDelay))
  ∧ (err = None → due ≠ zeroTime → see c' k = Some (mkStored v now, seconds due)).
Proof.
  intros Hok HT Hf. unfold publish. rewrite bool_decide_true by done. set (c1 := set_flights c (delete k (flights c))).
  set (w := λ k' s, k' = k ∧ err = None ∧ s = mkStored v now).
  assert (∀ c2, ok (data c2) → frame c1 c2 → evolves w c c2 → close_flight c2 f (mkResult v err) = Some c' → calm w c c' ∧ flights c' = delete k (flights c) ∧ results c' !! f = Some (mkResult v err) ∧ data c' = data c2 ∧ retry c' = retry c2) as Hclose.
  { intros c2 O2 F2 E2. destruct (close_frame c c2 k f (mkResult v err) HT Hf F2) as (c3 & -> & H1 & H2 & H3 & H4 & H5 & H6 & H7). intros [= <-]. split_and!; try done.
    split; try done; [by rewrite H1| |rewrite H4; by intros k' f' [_ ?]%lookup_delete_Some]. intros k' s d. unfold see at 1. rewrite H1. apply E2. }
  destruct err as [e|].
  - destruct (get now c1 k) as [[c2 r]|] eqn:Eg; [|done]. cbn [mbind option_bind]. destruct (cache_get_spec now c1 k c2 r Hok Eg) as (G1 & G2 & G3 & G4).
    assert (evolves w c c2) as HE by (apply shrinks_evolves; exact G3). destruct r as [[v0 d0]|]; cbn [mbind option_bind]; intros E.
    + destruct (Hclose (set_retry c2 (<[k := now + RetryDelay]> (retry c2))) G1 G2 HE E) as (C1 & C2 & C3 & C4 & C5). split_and!; try done. intros _ x Hx _. destruct G4 as (G4 & G5 & _).
      split; [|rewrite C5; cbn; by rewrite lookup_insert_eq]. unfold see in *. rewrite C4. cbn in *. congruence.
    + destruct (Hclose c2 G1 G2 HE E) as (C1 & C2 & C3 & C4 & C5). split_and!; try done. intros _ x Hx Hr. destruct G4 as [_ G4]. specialize (G4 x Hx). lia.
  - destruct (Z.eqb_spec due zeroTime) as [Ed|Ed]; cbn [mbind option_bind].
    + intros E. destruct (Hclose (set_retry (set_data c1 (data c1)) (delete k (retry c1)))) as (C1 & C2 & C3 & C4 & C5); [done|done|apply shrinks_evolves; by intros k' x|done|]. by split_and!.
    + destruct (bSetWithExpire now (data c1) k (mkStored v now) due) as [b|] eqn:Eb; [|done]. cbn [mbind option_bind]. intros E.
      destruct (set_spec _ c _ _ _ _ Hok Eb) as (S1 & S2). set (c2 := set_retry (set_data c1 b) (delete k (retry c1))) in *. destruct (S2 c2 eq_refl) as [P1 P2].
      destruct (Hclose c2 S1) as (C1 & C2 & C3 & C4 & C5); [done| |done|]; [|split_and!; try done; intros _ _; unfold see; rewrite C4; exact P1].
      intros k' s d Hs. destruct (decide (k' = k)) as [->|Hk]; [|left; by apply P2]. right. right. rewrite P1 in Hs. by simplify_eq.
Qed.

(** ** Steps *)

(** Every flight in the map has its worker. *)
Record good (s : sys K V B) : Prop := {
  good_ok : ok (data (cache s));
  good_tidy : tidy (cache s);
  good_runs : ∀ k f, flights (cache s) !! k = Some f → running s !! f = Some k;
  good_started : ∀ f k, running s !! f = Some k → (f < started (cache s))%nat;
}.

(** What an operation writes: the contents under a key. *)
Definition writes (now : Z) (s : sys K V B) (o : op K V) (k : K) (x : storedValue V) : Prop :=
  match o with
  | OSet k' v _ => k' = k ∧ x = mkStored v now
  | OCompute k' f => k' = k ∧ ∃ old due hit v due', f old due hit = (v, due', false) ∧ x = mkStored v now
  | ORestore k' v _ u => k' = k ∧ x = mkStored v u
  | ODone f v _ err => running s !! f = Some k ∧ flights (cache s) !! k = Some f ∧ err = None ∧ x = mkStored v now
  | _ => False
  end.

Lemma calm_good w s c' : good s → calm w (cache s) c' → good (mkSys c' (running s)).
Proof. intros [O1 T1 R1 S1] HC. split; [apply HC|apply HC| |cbn; by rewrite (calm_started _ _ _ HC)]. intros k f Hf. apply R1. by apply (calm_flights _ _ _ HC). Qed.
Lemma Set_calm now c k v due c' :
  ok (data c) → tidy c → SetWithExpire now c k v due = Some c' → calm (λ k' x, k = k' ∧ x = mkStored v now) c c'.
Proof.
  intros Hok HT. unfold SetWithExpire. destruct (bSetWithExpire now (data c) k _ due) as [b|] eqn:Eb; [|done]. intros [= <-]. by eapply calm_put.
Qed.

Lemma set_data_retry c b : set_data c b = set_retry (set_data c b) (retry c).
Proof. done. Qed.

Lemma Compute_calm now c k f c' r :
  ok (data c) → tidy c → ComputeWithExpire zero now c k f = Some (c', r) → calm (λ k' x, k = k' ∧ ∃ old due hit v due', f old due hit = (v, due', false) ∧ x = mkStored v now) c c'.
Proof.
  intros Hok HT. unfold ComputeWithExpire. destruct (get now c k) as [[c1 r0]|] eqn:Eg; [|done]. cbn [mbind option_bind]. pose proof (calm_get _ _ _ _ _ Hok HT Eg) as C1.
  assert (∃ old due hit, (match r0 with Some (s, due) => f (value s) due true | None => f zero zeroTime false end) = f old due hit) as (old & due & hit & ->) by (destruct r0 as [[? ?]|]; eauto).
  destruct (f old due hit) as [[v due'] []] eqn:Ef.
  - destruct (delete_spec c1 k (calm_ok _ _ _ C1) (calm_tidy _ _ _ C1)) as (c2 & -> & C2 & _). cbn [mbind option_bind]. intros [= <- _]. apply calm_never. by eapply calm_trans.
  - destruct (bSetWithExpire now (data c1) k _ due') as [b|] eqn:Eb; [|done]. cbn [mbind option_bind]. intros [= <- _]. eapply calm_trans; [by apply calm_never|]. rewrite set_data_retry.
    eapply calm_put; [apply C1|apply C1|done|]. split; [done|]. by exists old, due, hit, v, due'.
Qed.

Lemma restore_calm now c k v due u c' :
  ok (data c) → tidy c → restore now c k v due u = Some c' → calm (λ k' x, k = k' ∧ x = mkStored v u) c c'.
Proof.
  intros Hok HT. unfold restore. destruct (u <=? now - RetentionPeriod); [intros [= <-]; by apply calm_refl|]. destruct (get now c k) as [[c1 r0]|] eqn:Eg; [|done]. cbn [mbind option_bind]. pose proof (calm_get _ _ _ _ _ Hok HT Eg) as C1.
  destruct r0; [intros [= <-]; by apply calm_never|]. destruct (bSetWithExpire now (data c1) k _ due) as [b|] eqn:Eb; [|done]. cbn [mbind option_bind]. intros [= <-].
  eapply calm_trans; [by apply calm_never|]. rewrite set_data_retry. eapply calm_put; [apply C1|apply C1|done|done].
Qed.

Lemma Validated_calm now c k accept c' r : ok (data c) → tidy c → GetWithExpireValidated now c k accept = Some (c', r) → calm never c c'.
Proof.
  intros Hok HT. unfold GetWithExpireValidated. destruct (get now c k) as [[c1 r0]|] eqn:Eg; [|done]. cbn [mbind option_bind]. pose proof (calm_get _ _ _ _ _ Hok HT Eg) as C1.
  destruct r0 as [[v due]|]; [|by intros [= <- _]]. destruct (accept (value v)); intros [= <- _]; [done|]. eapply calm_trans; [done|]. apply calm_delete; apply C1.
Qed.

(** Operations other than the two halves of a refresh. *)
Definition plain (o : op K V) : bool := match o with ORefresh _ | ODone _ _ _ _ => false | _ => true end.

Lemma plain_calm now s o s' : good s → plain o → step zero now s o = Some s' → running s' = running s ∧ calm (writes now s o) (cache s) (cache s').
Proof.
  intros [Hok HT _ _] Hp. destruct o; try done; cbn [step writes]; intros E.
  - unfold GetWithExpire in E. destruct (get now (cache s) k) as [[c1 r]|] eqn:Eg; [|done]. injection E as <-. split; [done|]. by apply calm_never, (calm_get now _ k _ r).
  - destruct (GetWithExpireValidated now (cache s) k accept) as [[c1 r]|] eqn:Eg; [|done]. injection E as <-. split; [done|]. by eapply calm_never, Validated_calm.
  - destruct (SetWithExpire now (cache s) k v due) as [c1|] eqn:Eg; [|done]. injection E as <-. split; [done|]. by eapply Set_calm.
  - destruct (ComputeWithExpire zero now (cache s) k f) as [[c1 r]|] eqn:Eg; [|done]. injection E as <-. split; [done|]. by eapply Compute_calm.
  - destruct (restore now (cache s) k v due updatedAt) as [c1|] eqn:Eg; [|done]. injection E as <-. split; [done|]. by eapply restore_calm.
  - destruct (delete_spec (cache s) k Hok HT) as (c1 & E1 & C1 & _). unfold Delete in E. rewrite E1 in E. injection E as <-. split; [done|]. by apply calm_never.
  - destruct (Clear_spec (cache s) Hok HT) as (c1 & E1 & C1 & _). rewrite E1 in E. injection E as <-. split; [done|]. by apply calm_never.
  - unfold Snapshot in E. destruct (snapshot now (cache s)) as [[c1 l]|] eqn:Es; [|done]. injection E as <-. split; [done|]. by eapply calm_never, snapshot_spec.
  - destruct (DeleteMatching zero now (cache s) m) as [[c1 n]|] eqn:Es; [|done]. injection E as <-. split; [done|]. by eapply calm_never, DeleteMatching_spec.
  - destruct (MarkStale zero now (cache s) m) as [c1|] eqn:Es; [|done]. injection E as <-. split; [done|]. by eapply calm_never, MarkStale_spec.
Qed.

(** [Refresh] joins the flight of its key, answers the value it has, or starts a flight. *)
Lemma start_tidy c k : tidy c → flights c !! k = None → tidy (start c k).1.
Proof.
  intros [T1 T2 T3 T4] Hn. split; cbn.
  - intros k' f. destruct (decide (k = k')) as [<-|]; [rewrite lookup_insert_eq; intros [= <-]; split; [lia|]; destruct (results c !! started c) eqn:E; [|done]; assert (started c < started c)%nat by (apply T3; by rewrite E); lia|].
    rewrite lookup_insert_ne by done. intros Hf. destruct (T1 _ _ Hf). split; [lia|done].
  - intros k1 k2 f. destruct (decide (k = k1)) as [<-|], (decide (k = k2)) as [<-|]; rewrite ?lookup_insert_eq, ?lookup_insert_ne by done; [done|..|by apply T2].
    + intros [= <-] Hf. destruct (T1 _ _ Hf). lia.
    + intros Hf [= <-]. destruct (T1 _ _ Hf). lia.
  - intros f Hf. specialize (T3 f Hf). lia.
  - intros f Hf. destruct (decide (f = started c)) as [->|]; [right; exists k; by rewrite lookup_insert_eq|]. destruct (T4 f ltac:(lia)) as [?|[k' Hk']]; [by left|]. right. exists k'. rewrite lookup_insert_ne; [done|congruence].
Qed.

Lemma Refresh_spec now c k c' w :
  ok (data c) → tidy c → Refresh now c k = Some (c', w) →
  match w with
  | Waits f => (flights c !! k = Some f ∧ c' = c) ∨ (flights c !! k = None ∧ ∃ c1, calm never c c1 ∧ flights c1 = flights c ∧ c' = (start c1 k).1 ∧ f = started c)
  | Ready v => flights c !! k = None ∧ calm never c c' ∧ flights c' = flights c ∧ now < default zeroTime (retry c !! k) ∧ ∃ x, see c k = Some x ∧ value x.1 = v ∧ now - RetentionPeriod < updatedAt x.1
  end.
Proof.
  intros Hok HT. unfold Refresh. destruct (flights c !! k) as [f|] eqn:Ef; [intros [= <- <-]; by left|].
  destruct (Z.ltb_spec now (default zeroTime (retry c !! k))); [|intros [= <- <-]; right; split; [done|]; exists c; split_and!; try done; by apply calm_refl].
  destruct (get now c k) as [[c1 r]|] eqn:Eg; [|done]. cbn [mbind option_bind]. pose proof (calm_get _ _ _ _ _ Hok HT Eg) as C1. destruct (cache_get_spec _ _ _ _ _ Hok Eg) as (G1 & (G2 & G3 & G4) & G5 & G6).
  destruct r as [[v due]|]; intros [= <- <-].
  - split_and!; try done. exists (v, due). by split_and!; try apply G6.
  - right. split; [done|]. exists c1. by split_and!.
Qed.

Lemma step_spec now s o s' :
  good s → step zero now s o = Some s' →
  good s' ∧ evolves (writes now s o) (cache s) (cache s') ∧ (∀ k f, flights (cache s') !! k = Some f → flights (cache s) !! k = Some f ∨ o = ORefresh k) ∧ grows (cache s) (cache s').
Proof.
  intros HG E. destruct (plain o) eqn:Ep.
  { destruct (plain_calm now s o s' HG ltac:(by rewrite Ep) E) as [R1 C1]. split_and!; [|apply C1|left; by apply (calm_flights _ _ _ C1)|apply C1]. destruct s' as [c' r']. cbn in *. rewrite R1. by eapply calm_good. }
  pose proof HG as [Hok HT HR HS']. destruct o; try done; cbn [step] in E.
  - destruct (Refresh now (cache s) k) as [[c1 w]|] eqn:Er; [|done]. cbn [mbind option_bind] in E. injection E as <-. pose proof (Refresh_spec _ _ _ _ _ Hok HT Er) as HS. destruct w as [v|f].
    + destruct HS as (_ & C1 & F1 & _). rewrite (bool_decide_true (started c1 = _)) by apply C1. cbn. split_and!; [by eapply calm_good|exact (calm_evolves _ _ _ (calm_never _ _ _ C1))|left; by rewrite <- F1|apply C1].
    + destruct HS as [[Hf ->]|(Hf & c2 & C2 & F2 & -> & ->)].
      * rewrite bool_decide_true by done. split_and!; [by destruct s|apply shrinks_evolves; by intros k' x|by left|by intros ?].
      * cbn [start fst started]. rewrite (bool_decide_false (S _ = _)) by (rewrite (calm_started _ _ _ C2); lia). cbn [cache]. split_and!.
        -- split; cbn [cache running]; [apply C2|apply (start_tidy c2 k); [apply C2|by rewrite F2]| |].
           2: { cbn. rewrite (calm_started _ _ _ C2). intros f' k' [[<- _]|[_ Hf']]%lookup_insert_Some; [lia|]. specialize (HS' _ _ Hf'). lia. }
           cbn [flights]. rewrite (calm_started _ _ _ C2), F2. intros k' f. destruct (decide (k = k')) as [<-|]; [rewrite lookup_insert_eq; intros [= <-]; by rewrite lookup_insert_eq|].
           rewrite lookup_insert_ne by done. intros Hf'. rewrite lookup_insert_ne; [by apply HR|]. destruct (tidy_flying _ HT _ _ Hf'). lia.
        -- intros k' x d Hx. by apply (calm_evolves _ _ _ (calm_never _ _ _ C2)).
        -- cbn [flights]. intros k' f. destruct (decide (k = k')) as [<-|]; [by right|]. rewrite lookup_insert_ne by done. rewrite F2. by left.
        -- apply C2.
  - destruct (running s !! f) as [k|] eqn:Ek; [|injection E as <-; split_and!; [done|apply shrinks_evolves; by intros k' x|by left|by intros ?]].
    destruct (publish now (cache s) k f v due err) as [c1|] eqn:Epu; [|done]. injection E as <-. cbn [cache]. destruct (decide (flights (cache s) !! k = Some f)) as [Hf|Hf].
    + destruct (publish_spec _ _ _ _ _ _ _ _ Hok HT Hf Epu) as (C1 & F1 & _). split_and!; [|eapply calm_mono in C1; [apply C1|]; intros k' x (-> & -> & ->); by split_and!|left; by apply (calm_flights _ _ _ C1)|apply C1].
      split; cbn [cache running]; [apply C1|apply C1| |rewrite (calm_started _ _ _ C1); intros f' k' [_ Hf']%lookup_delete_Some; by eapply HS']. rewrite F1. intros k' f' [Hk Hf']%lookup_delete_Some. pose proof (HR _ _ Hf'). rewrite lookup_delete_ne; [done|]. intros <-. congruence.
    + unfold publish in Epu. rewrite bool_decide_false in Epu by done. injection Epu as <-. split_and!; [|apply shrinks_evolves; by intros k' x|by left|by intros ?].
      split; cbn [cache running]; [done|done| |intros f' k' [_ Hf']%lookup_delete_Some; by eapply HS']. intros k' f' Hf'. pose proof (HR _ _ Hf'). rewrite lookup_delete_ne; [done|]. intros <-. congruence.
Qed.
(** ** Sequences *)

Lemma run_app ops1 ops2 s : run zero s (ops1 ++ ops2) = (s1 ← run zero s ops1; run zero s1 ops2).
Proof. revert s. induction ops1 as [|[t o] ops1 IH]; intros s; [done|]. cbn [app run]. destruct (step zero t s o); cbn; [apply IH|done]. Qed.

Lemma run_good ops : ∀ s s', good s → run zero s ops = Some s' → good s' ∧ grows (cache s) (cache s').
Proof.
  induction ops as [|[t o] ops IH]; intros s s' HG; cbn [run]; [intros [= <-]; split; [done|by intros ?]|]. destruct (step zero t s o) as [s1|] eqn:E; [|done]. cbn [mbind option_bind]. intros Hr.
  destruct (step_spec t s o s1 HG E) as (G1 & _ & _ & W1). destruct (IH s1 s' G1 Hr) as [G2 W2]. split; [done|]. intros f r Hf. by apply W2, W1.
Qed.

Definition initial (b : B) : sys K V B := mkSys (New b) ∅.

Lemma initial_good b : ok b → good (initial b).
Proof. intros Hok. split; [done| |by intros k f ?|by intros f k ?]. split; cbn; [by intros k f ?|by intros k k' f ?|by intros f [? ?]|intros f ?; lia]. Qed.

(** Every value was written by an earlier operation. *)
Lemma provenance b ops : ∀ s k x due,
  ok b → (∀ k, view b k = None) → run zero (initial b) ops = Some s → see (cache s) k = Some (x, due) →
  ∃ ops1 t o ops2 s1, ops = ops1 ++ (t, o) :: ops2 ∧ run zero (initial b) ops1 = Some s1 ∧ writes t s1 o k x.
Proof.
  intros s k x due Hok Hb. revert s k x due. induction ops as [|[t o] ops IH] using rev_ind; intros s k x due.
  - intros [= <-]. unfold see. cbn. by rewrite Hb.
  - rewrite run_app. destruct (run zero (initial b) ops) as [s1|] eqn:E1; [|done]. cbn. destruct (step zero t s1 o) as [s2|] eqn:E2; [|done]. cbn. intros [= <-] Hs.
    destruct (run_good ops _ s1 (initial_good b Hok) E1) as [G1 _]. destruct (step_spec t s1 o s2 G1 E2) as (_ & HE & _).
    assert (∀ d, see (cache s1) k = Some (x, d) → ∃ ops1 t' o' ops2 s1', ops ++ [(t, o)] = ops1 ++ (t', o') :: ops2 ∧ run zero (initial b) ops1 = Some s1' ∧ writes t' s1' o' k x) as Hold.
    { intros d Hd. destruct (IH s1 k x d eq_refl Hd) as (ops1 & t' & o' & ops2 & s1' & -> & R1 & W1). exists ops1, t', o', (ops2 ++ [(t, o)]), s1'. split_and!; [by rewrite <- app_assoc|done|done]. }
    destruct (HE k x due Hs) as [?|[[_ [d ?]]|?]]; [by eapply Hold|by eapply Hold|]. by exists ops, t, o, [], s1.
Qed.

(** What an operation at [now] hands out for a key. *)
Definition served (now : Z) c k (v : V) : Prop :=
  (∃ c' due, GetWithExpire now c k = Some (c', Some (v, due)))
  ∨ (∃ c', Refresh now c k = Some (c', Ready v))
  ∨ ∃ c' l i, Snapshot now c = Some (c', l) ∧ i ∈ l ∧ Key i = k ∧ Value i = v.

Lemma served_fresh now c k v : ok (data c) → tidy c → served now c k v → ∃ x due, see c k = Some (x, due) ∧ value x = v ∧ now - RetentionPeriod < updatedAt x.
Proof.
  intros Hok HT [(c' & due & E)|[[c' E]|(c' & l & i & E & Hi & <- & <-)]].
  - unfold GetWithExpire in E. destruct (get now c k) as [[c1 r]|] eqn:Eg; [|done]. destruct (cache_get_spec _ _ _ _ _ Hok Eg) as (_ & _ & _ & G). destruct r as [[x d]|]; cbn in E; [|done]. simplify_eq. exists x, due. by split_and!; try apply G.
  - pose proof (Refresh_spec _ _ _ _ _ Hok HT E) as (_ & _ & _ & _ & [x d] & H1 & H2 & H3). by exists x, d.
  - destruct (snapshot_spec _ _ _ _ Hok HT E) as (_ & _ & S1 & S2). apply S2 in Hi as (k' & [x d] & Hs & ->). apply S1 in Hs as [Hs Hr]. by exists x, d.
Qed.
End theory.

(** C23. Whatever happened to a cache and to its refreshes, a value it hands out (to a
    reader, to a refresh within its retry delay, to a snapshot) was written under that
    key by a store, a computation, a successful refresh or a restored record, and its
    time of writing, the record's own for a restored one, lies within the last 30 days:
    reading, failing refreshes and marking as stale renew nothing. *)
Theorem dev_cache_retention {K V B} `{Countable K} `{!Backend K (storedValue V) B} (zero : V) ok view `{!BackendLaws ok view}
    (b : B) (ops : list (Z * op K V)) (s : sys K V B) now k v :
  ok b → (∀ k, view b k = None) → run zero (initial b) ops = Some s → served now (cache s) k v →
  ∃ ops1 t o ops2 s1 u, ops = ops1 ++ (t, o) :: ops2 ∧ run zero (initial b) ops1 = Some s1
    ∧ writes t s1 o k (mkStored v u) ∧ now - RetentionPeriod < u.
Proof.
  intros Hok Hb Hr Hs. destruct (run_good zero ok view ops _ s (initial_good ok b Hok) Hr) as [[G1 G2 _ _] _].
  destruct (served_fresh ok view now (cache s) k v G1 G2 Hs) as ([v' u] & due & Hx & Hv & Hu). cbn in Hv, Hu. subst v'.
  destruct (provenance zero ok view b ops s k _ due Hok Hb Hr Hx) as (ops1 & t & o & ops2 & s1 & H1 & H2 & H3). by exists ops1, t, o, ops2, s1, u.
Qed.
