(* ===== verification/DevCacheRefresh.v ===== *)
(** * Invalidation, flights and failed refreshes of [DevCache]

    What sequences of operations guarantee to the callers of [Refresh], on top of the
    step lemmas of [DevCacheTheory]. *)

From Stdlib Require Import ZArith Lia.
From stdpp Require Import base gmap fin_maps numbers list.
From S2P Require Import Prelude DevCache DevCacheTheory.
#[local] Open Scope Z_scope.

(** Operations that put a value under a key or start a flight for it. *)
Definition fills {K V} `{EqDecision K} (o : op K V) (k : K) : bool :=
  match o with
  | OSet k' _ _ | OCompute k' _ | ORestore k' _ _ _ | ORefresh k' => bool_decide (k' = k)
  | _ => false
  end.

(** Operations that invalidate a key; [OMarkStale] keeps its value. *)
Definition invalidates {K V} `{EqDecision K} (o : op K V) (k : K) : bool :=
  match o with
  | ODelete k' => bool_decide (k' = k)
  | OClear => true
  | ODeleteMatching m | OMarkStale m => m k
  | _ => false
  end.

Definition marks {K V} (o : op K V) : bool := match o with OMarkStale _ => true | _ => false end.

Section refresh.
Context {K V B : Type} `{Countable K} `{!Backend K (storedValue V) B} (zero : V).
Context (ok : B → Prop) (view : B → K → option (storedValue V * Z)) `{HLaws : !BackendLaws ok view}.
Implicit Types (s : sys K V B) (c : Cache K V B).
#[local] Abbreviation see := (see view).
#[local] Abbreviation good := (good ok).

(** A key without a flight whose value, if any, is of a certain form. *)
Definition settled (k : K) (P : storedValue V → Z → Prop) s : Prop :=
  flights (cache s) !! k = None ∧ ∀ x due, see (cache s) k = Some (x, due) → P x due.

Lemma settled_step now s o s' k P :
  good s → step zero now s o = Some s' → fills o k = false → (∀ x d, P x d → P x 0) → settled k P s → settled k P s'.
Proof.
  intros HG E Hf HP [S1 S2]. destruct (step_spec zero ok view now s o s' HG E) as (_ & HE & HF & _). split.
  - destruct (flights (cache s') !! k) as [f|] eqn:Ef; [|done]. destruct (HF k f Ef) as [?| ->]; [congruence|]. cbn in Hf. by rewrite bool_decide_true in Hf.
  - intros x due Hx. destruct (HE k x due Hx) as [?|[[-> [d ?]]|Hw]]; [by apply S2|by eapply HP, S2|].
    destruct o; cbn in Hw, Hf; try done; try (destruct Hw as [-> _]; by rewrite bool_decide_true in Hf). destruct Hw as (_ & ? & _). congruence.
Qed.

Lemma settled_run ops k P : ∀ s s',
  good s → run zero s ops = Some s' → Forall (λ p, fills p.2 k = false) ops → (∀ x d, P x d → P x 0) → settled k P s → settled k P s'.
Proof.
  induction ops as [|[t o] ops IH]; intros s s' HG; cbn [run]; [by intros [= <-]|]. destruct (step zero t s o) as [s1|] eqn:E; [|done]. cbn [mbind option_bind].
  intros Hr [Ho Hops]%list.Forall_cons HP HS. destruct (step_spec zero ok view t s o s1 HG E) as (G1 & _). apply (IH s1 s' G1 Hr Hops HP). by apply (settled_step t s o s1 k P).
Qed.

Lemma invalidates_spec now s o s' k :
  good s → step zero now s o = Some s' → invalidates o k = true →
  cut zero (cache s) (cache s') k ∧ ∀ x due, see (cache s') k = Some (x, due) → marks o = true ∧ due = 0 ∧ ∃ d, see (cache s) k = Some (x, d).
Proof.
  intros [Hok HT _ _] E Hi. destruct o; try done; cbn [step invalidates marks] in *.
  - apply bool_decide_eq_true in Hi as ->. destruct (delete_spec zero ok view (cache s) k Hok HT) as (c1 & E1 & _ & D1 & D2 & D3 & _). unfold Delete in E. rewrite E1 in E. injection E as <-. cbn [cache].
    split; [split; [rewrite D2; apply lookup_delete_eq|done]|]. intros x due. by rewrite D1.
  - destruct (Clear_spec zero ok view (cache s) Hok HT) as (c1 & E1 & _ & C1). rewrite E1 in E. injection E as <-. cbn [cache]. destruct (C1 k) as [C2 C3]. split; [done|]. intros x due. by rewrite C2.
  - destruct (DeleteMatching zero now (cache s) m) as [[c1 n]|] eqn:Es; [|done]. injection E as <-. cbn [cache]. destruct (DeleteMatching_spec zero ok view _ _ _ _ _ Hok HT Es) as (_ & D & _). destruct (D k Hi) as [D1 D2]. split; [done|]. intros x due. by rewrite D1.
  - destruct (MarkStale zero now (cache s) m) as [c1|] eqn:Es; [|done]. injection E as <-. cbn [cache]. destruct (MarkStale_spec zero ok view _ _ _ _ Hok HT Es) as [_ D]. destruct (D k Hi) as [D1 D2]. split; [done|]. intros x due Hx. split; [done|]. by apply D2.
Qed.

(** ** No panic *)

Context `{HTotal : !BackendTotal ok}.

Lemma get_total now c k : ok (data c) → is_Some (get now c k).
Proof. intros Hok. unfold get. destruct (total_get now _ k Hok) as [[b r] ->]. cbn. destruct r as [[v due]|]; [|by eexists]. case_match; by eexists. Qed.

Lemma snapshot_total now c : ok (data c) → is_Some (snapshot now c).
Proof. intros Hok. unfold snapshot. destruct (total_snapshot _ Hok) as [l ->]. by eexists. Qed.

Lemma stale_items_total now m l : ∀ c, ok (data c) → is_Some (stale_items now c m l).
Proof.
  induction l as [|i l IH]; intros c Hok; cbn [stale_items]; [by eexists|]. destruct (m (Key i)); [|by apply IH].
  destruct (total_set now _ (Key i) (mkStored (Value i) (UpdatedAt i)) 0 Hok) as [b Eb]. rewrite Eb. cbn [mbind option_bind]. apply IH. by destruct (law_set _ _ _ _ _ _ Hok Eb).
Qed.

Lemma MarkStale_total now c m : ok (data c) → tidy c → is_Some (MarkStale zero now c m).
Proof.
  intros Hok HT. unfold MarkStale. destruct (snapshot_total now c Hok) as [[c1 l] Es]. rewrite Es. cbn [mbind option_bind]. destruct (snapshot_spec ok view now c c1 l Hok HT Es) as (C1 & _ & V1 & L1).
  destruct (stale_items_total now m l c1 (calm_ok _ _ _ _ _ C1)) as [c2 E2]. rewrite E2. cbn [mbind option_bind].
  destruct (stale_items_spec ok view now m c1 l c1 c2) as (C2 & _); [apply (calm_refl ok view); apply C1| |done|].
  { intros i Hi. apply L1 in Hi as (k & [[v u] d] & Hs & ->). by exists d. }
  destruct (calm_flying zero ok view c2 m (calm_ok _ _ _ _ _ C2) (calm_tidy _ _ _ _ _ C2)) as (c3 & -> & _). by eexists.
Qed.

Lemma publish_total now c k f v due err : ok (data c) → tidy c → is_Some (publish now c k f v due err).
Proof.
  intros Hok HT. unfold publish. destruct (decide (flights c !! k = Some f)) as [Hf|Hf]; [rewrite bool_decide_true by done|rewrite bool_decide_false by done; by eexists].
  set (c1 := set_flights c (delete k (flights c))). assert (∀ c2, frame c1 c2 → is_Some (close_flight c2 f (mkResult v err))) as Hcl.
  { intros c2 F2. destruct (close_frame c c2 k f (mkResult v err) HT Hf F2) as (c' & -> & _). by eexists. }
  destruct err as [e|].
  - destruct (get_total now c1 k Hok) as [[c2 r] Eg]. rewrite Eg. cbn [mbind option_bind]. destruct (cache_get_spec ok view now c1 k c2 r Hok Eg) as (_ & F2 & _). destruct r; cbn [mbind option_bind]; by apply Hcl.
  - destruct (due =? zeroTime); cbn [mbind option_bind]; [by apply Hcl|]. destruct (total_set now (data c1) k (mkStored v now) due Hok) as [b ->]. cbn [mbind option_bind]. by apply Hcl.
Qed.

Lemma step_total now s o : good s → is_Some (step zero now s o).
Proof.
  intros [Hok HT _ _]. destruct o as [k|k accept|k v due|k f|k v due u|k| | |m|m|k|f v due err]; cbn [step].
  - unfold GetWithExpire. destruct (get_total now _ k Hok) as [[c r] ->]. by eexists.
  - unfold GetWithExpireValidated. destruct (get_total now _ k Hok) as [[c r] ->]. cbn. destruct r as [[v due]|]; [destruct (accept (value v))|]; by eexists.
  - unfold SetWithExpire. destruct (total_set now _ k (mkStored v now) due Hok) as [b ->]. by eexists.
  - unfold ComputeWithExpire. destruct (get_total now _ k Hok) as [[c r] Eg]. rewrite Eg. cbn [mbind option_bind]. pose proof (calm_get ok view _ _ _ _ _ Hok HT Eg) as C1.
    destruct (match r with Some _ => _ | None => _ end) as [[v due] []].
    + destruct (delete_spec zero ok view c k (calm_ok _ _ _ _ _ C1) (calm_tidy _ _ _ _ _ C1)) as (c2 & -> & _). by eexists.
    + destruct (total_set now (data c) k (mkStored v now) due (calm_ok _ _ _ _ _ C1)) as [b ->]. by eexists.
  - unfold restore. destruct (u <=? now - RetentionPeriod); [by eexists|]. destruct (get_total now _ k Hok) as [[c r] Eg]. rewrite Eg. cbn [mbind option_bind]. pose proof (calm_get ok view _ _ _ _ _ Hok HT Eg) as C1.
    destruct r; [by eexists|]. destruct (total_set now (data c) k (mkStored v u) due (calm_ok _ _ _ _ _ C1)) as [b ->]. by eexists.
  - unfold Delete. destruct (delete_spec zero ok view _ k Hok HT) as (c2 & -> & _). by eexists.
  - destruct (Clear_spec zero ok view _ Hok HT) as (c2 & -> & _). by eexists.
  - unfold Snapshot. destruct (snapshot_total now _ Hok) as [[c l] ->]. by eexists.
  - unfold DeleteMatching. destruct (snapshot_total now _ Hok) as [[c1 l] Es]. rewrite Es. cbn [mbind option_bind]. destruct (snapshot_spec ok view _ _ _ _ Hok HT Es) as (C1 & _).
    destruct (delete_items_spec zero ok view m l c1 0 (calm_ok _ _ _ _ _ C1) (calm_tidy _ _ _ _ _ C1)) as (c2 & n & -> & C2 & _). cbn [mbind option_bind].
    destruct (calm_flying zero ok view c2 m (calm_ok _ _ _ _ _ C2) (calm_tidy _ _ _ _ _ C2)) as (c3 & -> & _). by eexists.
  - destruct (MarkStale_total now _ m Hok HT) as [c1 ->]. by eexists.
  - unfold Refresh. destruct (flights _ !! k); [by eexists|]. destruct (now <? _); [|by eexists]. destruct (get_total now _ k Hok) as [[c r] ->]. cbn [mbind option_bind]. destruct r as [[v due]|]; by eexists.
  - destruct (running s !! f) as [k|]; [|by eexists]. destruct (publish_total now _ k f v due err Hok HT) as [c1 ->]. by eexists.
Qed.

Lemma run_total ops : ∀ s, good s → is_Some (run zero s ops).
Proof.
  induction ops as [|[t o] ops IH]; intros s HG; [by eexists|]. cbn [run]. destruct (step_total t s o HG) as [s1 E]. rewrite E. cbn [mbind option_bind]. apply IH. by destruct (step_spec zero ok view t s o s1 HG E).
Qed.
End refresh.

(** C22. Once a key is invalidated, refreshes that were under way cannot bring anything
    back: until somebody stores under the key, restores it or starts a new refresh, a
    reader finds nothing, or after [MarkStale] the value it had before with a deadline
    that has passed; everybody who waited for the old refresh gets [ErrInvalidated]. *)
Theorem dev_cache_invalidation {K V B} `{Countable K} `{!Backend K (storedValue V) B} (zero : V) ok view `{!BackendLaws ok view}
    (b : B) (ops1 ops2 : list (Z * op K V)) (o : op K V) (now : Z) (s1 s2 s3 : sys K V B) (k : K) :
  ok b → run zero (initial b) ops1 = Some s1 → step zero now s1 o = Some s2 → run zero s2 ops2 = Some s3 →
  invalidates o k = true → Forall (λ p, fills p.2 k = false) ops2 →
  (∀ f, flights (cache s1) !! k = Some f → await (cache s3) (Waits f) = Some (zero, Some ErrInvalidated))
  ∧ (∀ now' c' v due, GetWithExpire now' (cache s3) k = Some (c', Some (v, due)) →
      marks o = true ∧ due = 0 ∧ ∃ u d, view (data (cache s1)) k = Some (mkStored v u, d)).
Proof.
  intros Hok R1 E2 R3 Hi Hf. destruct (run_good zero ok view ops1 _ s1 (initial_good ok b Hok) R1) as [G1 _]. destruct (step_spec zero ok view now s1 o s2 G1 E2) as (G2 & _ & _ & _).
  destruct (run_good zero ok view ops2 _ s3 G2 R3) as [G3 W3]. destruct (invalidates_spec zero ok view now s1 o s2 k G1 E2 Hi) as [[C1 C2] C3]. split.
  - intros f Hff. unfold await. by rewrite (W3 _ _ (C2 f Hff)).
  - destruct (settled_run zero ok view ops2 k (λ x d, marks o = true ∧ d = 0 ∧ ∃ d', see view (cache s1) k = Some (x, d')) s2 s3 G2 R3 Hf) as [_ S3]; [by intros x d (? & _ & ?)|done|].
    intros now' c' v due E. destruct G3 as [O3 T3 _ _]. unfold GetWithExpire in E. destruct (get now' (cache s3) k) as [[c1 r]|] eqn:Eg; [|done].
    destruct (cache_get_spec ok view _ _ _ _ _ O3 Eg) as (_ & _ & _ & G). destruct r as [[[v' u] d]|]; cbn in E; [|done]. simplify_eq. destruct G as [G _]. destruct (S3 _ _ G) as (? & ? & d' & ?). split_and!; [done|done|]. by exists u, d'.
Qed.

(** C39. On a policy that never panics no sequence of operations and of returning workers
    panics, in particular no channel is closed twice.  Every flight ever started has its
    result or flies under one key with its worker still running; when a worker comes
    back, with whatever outcome, everybody waiting for its flight has an answer, and an
    answer never changes. *)
Theorem dev_cache_flights_land {K V B} `{Countable K} `{!Backend K (storedValue V) B} (zero : V) ok view `{!BackendLaws ok view} `{!BackendTotal ok}
    (b : B) (ops : list (Z * op K V)) :
  ok b → ∃ s, run zero (initial b) ops = Some s
    ∧ (∀ f, (f < started (cache s))%nat → is_Some (await (cache s) (Waits f)) ∨ ∃ k, flights (cache s) !! k = Some f ∧ running s !! f = Some k)
    ∧ (∀ k k' f, flights (cache s) !! k = Some f → flights (cache s) !! k' = Some f → k = k')
    ∧ (∀ now f k v due err, running s !! f = Some k → ∃ s', step zero now s (ODone f v due err) = Some s' ∧ is_Some (await (cache s') (Waits f)))
    ∧ (∀ more s' f r, run zero s more = Some s' → await (cache s) (Waits f) = Some r → await (cache s') (Waits f) = Some r).
Proof.
  intros Hok. destruct (run_total zero ok view ops _ (initial_good ok b Hok)) as [s E]. exists s. split; [done|]. destruct (run_good zero ok view ops _ s (initial_good ok b Hok) E) as [HG _].
  pose proof HG as [O1 T1 R1 S1]. unfold await. split_and!.
  - intros f Hf. destruct (tidy_all _ T1 f Hf) as [[r ->]|[k Hk]]; [left; by eexists|right; eauto].
  - apply (tidy_inj _ T1).
  - intros now f k v due err Hf. destruct (step_total zero ok view now s (ODone f v due err) HG) as [s' E']. exists s'. split; [done|]. destruct (step_spec zero ok view now s _ s' HG E') as (_ & _ & _ & W).
    cbn [step] in E'. rewrite Hf in E'. destruct (publish now (cache s) k f v due err) as [c1|] eqn:Ep; [|done]. injection E' as <-. cbn [cache] in *.
    destruct (decide (flights (cache s) !! k = Some f)) as [Hk|Hk].
    + destruct (publish_spec ok view _ _ _ _ _ _ _ _ O1 T1 Hk Ep) as (_ & _ & -> & _). by eexists.
    + destruct (tidy_all _ T1 f (S1 f k Hf)) as [[r Hr]|[k' Hk']]; [rewrite (W _ _ Hr); by eexists|]. pose proof (R1 _ _ Hk'). congruence.
  - intros more s' f r Hr. destruct (run_good zero ok view more s s' HG Hr) as [_ W]. destruct (results (cache s) !! f) as [r0|] eqn:Er; [|done]. by rewrite (W _ _ Er).
Qed.

(** A refresh that fails leaves the retained value and its deadline as they were, and
    for the next three seconds further refreshes of the key answer that value at once
    instead of fetching again; the waiters of the failed one get its error. *)
Theorem failed_refresh_keeps_value {K V B} `{Countable K} `{!Backend K (storedValue V) B} (zero : V) ok view `{!BackendLaws ok view}
    (b : B) (ops : list (Z * op K V)) (s s' : sys K V B) now k f v0 d0 e v u due :
  ok b → run zero (initial b) ops = Some s → flights (cache s) !! k = Some f →
  view (data (cache s)) k = Some (mkStored v u, due) → now - RetentionPeriod < u →
  step zero now s (ODone f v0 d0 (Some e)) = Some s' →
  await (cache s') (Waits f) = Some (v0, Some e)
  ∧ view (data (cache s')) k = Some (mkStored v u, due)
  ∧ ∀ now' c' w, now' < now + RetryDelay → now' - RetentionPeriod < u → Refresh now' (cache s') k = Some (c', w) → w = Ready v.
Proof.
  intros Hok R Hf Hv Hu E. destruct (run_good zero ok view ops _ s (initial_good ok b Hok) R) as [HG _]. pose proof HG as [O1 T1 R1 _]. destruct (step_spec zero ok view now s _ s' HG E) as ([O2 T2 _ _] & _).
  cbn [step] in E. rewrite (R1 _ _ Hf) in E. destruct (publish now (cache s) k f v0 d0 (Some e)) as [c1|] eqn:Ep; [|done]. injection E as <-. cbn [cache] in *.
  destruct (publish_spec ok view _ _ _ _ _ _ _ _ O1 T1 Hf Ep) as (_ & F1 & P1 & P2 & _). destruct (P2 ltac:(done) _ Hv Hu) as [P3 P4]. unfold await. rewrite P1. split_and!; [done|done|].
  intros now' c' w Hn Hr. unfold Refresh. rewrite F1, lookup_delete_eq, P4. cbn [default]. rewrite (proj2 (Z.ltb_lt _ _)) by done.
  destruct (get now' c1 k) as [[c2 r]|] eqn:Eg; [|done]. cbn [mbind option_bind]. destruct (cache_get_spec ok view _ _ _ _ _ O2 Eg) as (_ & _ & _ & G). destruct r as [[x d]|].
  - destruct G as [G _]. intros [= <- <-]. rewrite P3 in G. by injection G as <- <-.
  - destruct G as [_ G]. specialize (G _ P3). cbn in G. lia.
Qed.
