(* ===== verification/DevBackends.v ===== *)
(** * The two replacement policies behind [DevCache]

    [New] of [component/dev_cache/cache.go] puts an LRU cache with stale answers or an
    adaptive replacement cache behind the interface [backend].  Both have the laws the
    cache relies on; only the LRU cache never panics. *)

From Stdlib Require Import ZArith Lia.
From stdpp Require Import base gmap fin_maps numbers list.
From S2P Require Import Prelude Lru Arc DevCache DevCacheTheory DevCacheRefresh.
#[local] Open Scope Z_scope.

(** ** The LRU cache *)

Section lru.
Context {K V : Type} `{Countable K}.

Definition lru_state : Type := Lru.world K V * Lru.LruCache K.
Definition stale_config (n : Z) : Lru.LruCache K := Lru.New [Lru.WithSize n; Lru.WithStale true].

#[export] Instance lru_backend : Backend K V lru_state := {|
  bGetWithExpire now b k := let '(w, c, r) := Lru.GetWithExpire (Arc.Unix now) b.1 b.2 k in Some ((w, c), option_map (λ x, (x.1, x.2 * 1000000000)) r);
  bSetWithExpire now b k v t := Some (Lru.SetWithExpire (Arc.Unix now) b.1 b.2 k v (Arc.Unix t));
  bDelete b k := Lru.Delete b.1 b.2 k;
  bClear b := (b.1, Lru.Clear b.2);
  bSnapshot b := Some ((λ e, (Lru.key e, (Lru.value e, Lru.expires e * 1000000000))) <$> Lru.Snapshot b.1 b.2);
|}.

Definition lru_ok (n : Z) (b : lru_state) : Prop := Lru.wf b.1 b.2 ∧ Lru.same_config (stale_config n) b.2.

Definition found (e : Lru.entry K V) : V * Z := (Lru.value e, Lru.expires e * 1000000000).
Definition lru_view (b : lru_state) (k : K) : option (V * Z) := found <$> Lru.a_find k (Lru.Snapshot b.1 b.2).

Lemma lru_view_elem n b k x : lru_ok n b → lru_view b k = Some x ↔ ∃ e, e ∈ Lru.Snapshot b.1 b.2 ∧ Lru.key e = k ∧ found e = x.
Proof.
  intros [Hwf _]. unfold lru_view. split.
  - intros (e & [H1 H2]%Lru.a_find_Some & ->)%fmap_Some. by exists e.
  - intros (e & Hin & <- & <-). rewrite (Lru.a_find_nodup _ e); [done| |done]. by apply Lru.wf_nodup_keys.
Qed.

(** The options are those of [stale_config]: nothing expires by age. *)
Lemma stale_fields n c : Lru.same_config (stale_config n) c → Lru.expiring c = false ∧ Lru.maxAge c = 0 ∧ ∀ now (a : list (Lru.entry K V) * list (K * V)), Lru.a_trim c now a = a.
Proof. intros ->. by split_and!. Qed.

(** Moving entries around changes no answer. *)
Lemma lru_same_entries n b b' : lru_ok n b → lru_ok n b' → (∀ e, e ∈ Lru.Snapshot b'.1 b'.2 ↔ e ∈ Lru.Snapshot b.1 b.2) → ∀ k, lru_view b' k = lru_view b k.
Proof.
  intros O1 O2 He k. apply option_eq. intros x. rewrite !(lru_view_elem n) by done. by setoid_rewrite He.
Qed.

Lemma lru_get_law n now b k b' r :
  lru_ok n b → bGetWithExpire now b k = Some (b', r) → lru_ok n b' ∧ r = lru_view b k ∧ ∀ k', lru_view b' k' = lru_view b k'.
Proof.
  intros [Hwf Hp]. destruct b as [w c]. cbn -[Lru.GetWithExpire]. cbn in Hwf, Hp. unfold Lru.GetWithExpire. destruct (Lru.get_shows (Arc.Unix now) w c k Hwf) as [(Hwf' & Hc & Ha) Hr].
  destruct (Lru.get (Arc.Unix now) w c k) as [[w' c'] r0]. cbn [fst snd] in Hwf', Hc, Ha, Hr. intros [= <- <-]. assert (lru_ok n (w', c')) as Hok' by (split; [done|by eapply Lru.same_config_trans]).
  split; [done|]. destruct (stale_fields n c Hp) as (X1 & X2 & _). unfold Lru.a_get in Ha, Hr. cbn [fst snd Lru.abs] in Ha, Hr. unfold lru_view at 1. cbn [fst snd].
  destruct (Lru.a_find k (Lru.Snapshot w c)) as [e|] eqn:Ef.
  - rewrite X1 in Ha, Hr. cbn [andb fst snd] in Ha, Hr. assert (Lru.a_refresh c (Arc.Unix now) e = e) as Hre by (unfold Lru.a_refresh; by rewrite X2). rewrite Hre in Ha, Hr. subst r0. split; [done|].
    apply (lru_same_entries n); [done|done|]. injection Ha as Hs _. intros x. cbn. rewrite Hs, elem_of_app, Lru.elem_of_a_remove, list_elem_of_singleton. apply Lru.a_find_Some in Ef as [Hin Hk].
    split; [by intros [[? _]| ->]|]. intros Hx. destruct (decide (Lru.key x = k)) as [Hxk|]; [|by left]. right. assert (Lru.a_find k (Lru.Snapshot w c) = Some x) as Hf by (rewrite <- Hxk; apply Lru.a_find_nodup; [by apply Lru.wf_nodup_keys|done]).
    assert (Lru.a_find k (Lru.Snapshot w c) = Some e) as Hf' by (rewrite <- Hk; apply Lru.a_find_nodup; [by apply Lru.wf_nodup_keys|done]). congruence.
  - subst r0. split; [done|]. injection Ha as Hs _. apply (lru_same_entries n); [done|done|]. intros x. cbn. by rewrite Hs.
Qed.

Lemma lru_set_law n now b k v t b' :
  lru_ok n b → bSetWithExpire now b k v t = Some b' → lru_ok n b' ∧ lru_view b' k = Some (v, seconds t) ∧ ∀ k' x, k' ≠ k → lru_view b' k' = Some x → lru_view b k' = Some x.
Proof.
  intros Hok. pose proof Hok as [Hwf Hp]. destruct b as [w c]. cbn -[Lru.SetWithExpire]. cbn in Hwf, Hp. unfold Lru.SetWithExpire. destruct (Lru.setWithExpire_shows (Arc.Unix now) w c k v (Arc.Unix t) Hwf) as (Hwf' & Hc & Ha).
  intros [= <-]. destruct (Lru.setWithExpire (Arc.Unix now) w c k v (Arc.Unix t)) as [w' c']. cbn in Hwf', Hc, Ha. assert (lru_ok n (w', c')) as Hok' by (split; [done|by eapply Lru.same_config_trans]).
  destruct (stale_fields n c Hp) as (_ & _ & X3). unfold Lru.a_put in Ha. rewrite X3 in Ha. cbn [fst snd Lru.abs] in Ha. set (ne := Lru.Entry k v (Arc.Unix t)) in *.
  assert (ne ∈ Lru.Snapshot w' c' ∧ ∀ e, e ∈ Lru.Snapshot w' c' → e = ne ∨ e ∈ Lru.Snapshot w c) as [Hin Hsub].
  { destruct (Lru.a_find k (Lru.Snapshot w c)) as [e0|] eqn:Ef.
    - injection Ha as Hs _. rewrite Hs. split; [apply elem_of_app; right; by apply list_elem_of_singleton|]. intros e [[He _]%Lru.elem_of_a_remove|He%list_elem_of_singleton]%elem_of_app; auto.
    - unfold Lru.a_bound in Ha. cbn [fst snd] in Ha. destruct (Lru.Snapshot w c) as [|e1 l1] eqn:El; cbn [app] in Ha.
      + assert ((0 <? Lru.maxSize c) && (Lru.maxSize c <? Z.of_nat (length [ne])) = false) as Hb by (cbn [length]; apply andb_false_iff; rewrite !Z.ltb_ge; lia). rewrite Hb in Ha. injection Ha as Hs _. rewrite Hs. split; [by left|]. intros e He%list_elem_of_singleton. by left.
      + destruct (_ && _); injection Ha as Hs _; rewrite Hs.
        * split; [apply elem_of_app; right; by apply list_elem_of_singleton|]. intros e [He|He%list_elem_of_singleton]%elem_of_app; [right; by right|by left].
        * split; [right; apply elem_of_app; right; by apply list_elem_of_singleton|]. intros e [->|[He|He%list_elem_of_singleton]%elem_of_app]%elem_of_cons; [right; by left|right; by right|by left]. }
  split_and!; [done|apply (lru_view_elem n); [done|]; by exists ne|]. intros k' x Hk. rewrite !(lru_view_elem n) by done. intros (e & He & Hke & Hx). exists e. split; [|done]. destruct (Hsub e He) as [->|]; [done|done].
Qed.

Lemma lru_delete_law n b k : lru_ok n b → lru_ok n (bDelete b k) ∧ lru_view (bDelete b k) k = None ∧ ∀ k', k' ≠ k → lru_view (bDelete b k) k' = lru_view b k'.
Proof.
  intros Hok. pose proof Hok as [Hwf Hp]. destruct b as [w c]. cbn in Hwf, Hp |- *. unfold Lru.Delete. destruct (Lru.delete_shows w c k Hwf) as (Hwf' & Hc & Ha). destruct (Lru.delete_ w c k) as [w' c']. cbn [fst snd] in Hwf', Hc, Ha.
  assert (lru_ok n (w', c')) as Hok' by (split; [done|by eapply Lru.same_config_trans]). assert (Lru.Snapshot w' c' = Lru.a_remove k (Lru.Snapshot w c)) as Hs.
  { unfold Lru.a_delete, Lru.abs in Ha. cbn [fst snd] in Ha. destruct (Lru.a_find k (Lru.Snapshot w c)) eqn:E; injection Ha as Hs _; [done|]. rewrite Lru.a_remove_notin; [done|]. by apply Lru.a_find_None. }
  split; [done|]. unfold lru_view. cbn [fst snd]. rewrite Hs. split; [|intros k' Hk; by rewrite Lru.a_find_remove_ne by done].
  rewrite (proj2 (Lru.a_find_None k _)); [done|]. by intros e [_ ?]%Lru.elem_of_a_remove.
Qed.

#[export] Instance lru_laws n : BackendLaws (lru_ok n) lru_view.
Proof.
  split.
  - intros now b k b' r Hok E. destruct (lru_get_law n now b k b' r Hok E) as (L1 & L2 & L3). split_and!; try done. intros k' x. by rewrite L3.
  - intros now b k v t b'. apply lru_set_law.
  - apply lru_delete_law.
  - intros b [Hwf Hp]. split; [split; [apply Lru.Clear_wf|by eapply Lru.same_config_trans]|]. done.
  - intros b l Hok [= <-]. split.
    + rewrite <- list_fmap_compose. by apply Lru.wf_nodup_keys, Hok.
    + intros k x. rewrite (lru_view_elem n) by done. rewrite list_elem_of_fmap. split; [intros (e & [= -> ->] & He); by exists e|intros (e & He & <- & <-); by exists e].
Qed.

#[export] Instance lru_total n : BackendTotal (lru_ok n).
Proof.
  split; [intros now b k _|intros; by eexists|intros; by eexists]. cbn. destruct (Lru.GetWithExpire _ _ _ _) as [[w c] r]. by eexists.
Qed.

(** Below its size the LRU cache evicts nothing. *)
Lemma lru_room_set n now b k v t b' ks :
  lru_ok n b → bSetWithExpire now b k v t = Some b' → (∀ k', is_Some (lru_view b k') → k' ∈ ks) → Z.of_nat (length ks) < n → ∀ k' x, k' ≠ k → lru_view b k' = Some x → lru_view b' k' = Some x.
Proof.
  intros Hok E Hks Hlen k' x Hk. destruct (lru_set_law n now b k v t b' Hok E) as (Hok' & _). rewrite !(lru_view_elem n) by done. intros (e & He & Hke & Hx). exists e. split; [|done]. pose proof Hok as [Hwf Hp].
  destruct b as [w c]. cbn [fst snd] in *. cbn -[Lru.SetWithExpire] in E. unfold Lru.SetWithExpire in E. destruct (Lru.setWithExpire_shows (Arc.Unix now) w c k v (Arc.Unix t) Hwf) as (_ & _ & Ha). injection E as <-.
  destruct (Lru.setWithExpire (Arc.Unix now) w c k v (Arc.Unix t)) as [w' c']. cbn [fst snd] in *. unfold Lru.abs in Ha. destruct (stale_fields n c Hp) as (_ & _ & X3). unfold Lru.a_put in Ha. rewrite X3 in Ha. cbn [fst snd] in Ha.
  assert ((length (Lru.Snapshot w c) ≤ length ks)%nat) as Hl.
  { rewrite <- (length_fmap Lru.key). apply submseteq_length, NoDup_submseteq; [by apply Lru.wf_nodup_keys|]. intros y (e1 & -> & He1)%list_elem_of_fmap. apply Hks. exists (found e1). apply (lru_view_elem n (w, c)); [done|]. by exists e1. }
  destruct (Lru.a_find k (Lru.Snapshot w c)) as [e0|] eqn:Ef.
  - injection Ha as Hs _. rewrite Hs. apply elem_of_app. left. apply Lru.elem_of_a_remove. split; [done|congruence].
  - assert (Lru.maxSize c = n) as Hn by (by rewrite Hp). unfold Lru.a_bound in Ha. cbn [fst snd] in Ha.
    destruct (Lru.Snapshot w c ++ [Lru.Entry k v (Arc.Unix t)]) as [|e1 l1] eqn:El; [by destruct (Lru.Snapshot w c)|].
    assert (length (e1 :: l1) = S (length (Lru.Snapshot w c))) as Hl1 by (rewrite <- El, length_app; cbn; lia).
    assert ((0 <? Lru.maxSize c) && (Lru.maxSize c <? Z.of_nat (length (e1 :: l1))) = false) as Hb by (apply andb_false_iff; rewrite !Z.ltb_ge; lia).
    rewrite Hb in Ha. injection Ha as Hs _. rewrite Hs, <- El. apply elem_of_app. by left.
Qed.

#[export] Instance lru_room n : BackendRoom (lru_ok n) lru_view n.
Proof.
  split.
  - intros now b k b' r Hok E. by destruct (lru_get_law n now b k b' r Hok E) as (_ & _ & L3).
  - intros now b k v t b' ks Hok E Hks Hlen k' Hk. destruct (lru_set_law n now b k v t b' Hok E) as (_ & _ & L3). apply option_eq. intros x. split; [by apply L3|by eapply lru_room_set].
Qed.

Definition lru_new (n : Z) : lru_state := (Lru.World ∅ [], stale_config n).

Lemma lru_new_ok n : lru_ok n (lru_new n) ∧ ∀ k, lru_view (lru_new n) k = None.
Proof. split; [split; [apply (Lru.New_wf (Lru.World ∅ []))|done]|done]. Qed.
End lru.

(** ** The adaptive replacement cache *)

Section arc.
Context {K V : Type} `{Countable K} (zero : V).
Implicit Types (a : Arc.ARC K V) (k : K).

#[local] Instance arc_backend : Backend K V (Arc.ARC K V) := {|
  bGetWithExpire _ a k := Arc.GetWithExpire zero a k;
  bSetWithExpire _ a k v t := Arc.SetWithExpire zero a k v t;
  bDelete := Arc.Delete;
  bClear := Arc.Clear;
  bSnapshot := Arc.Snapshot;
|}.

Definition arc_view (a : Arc.ARC K V) (k : K) : option (V * Z) :=
  e ← Arc.cache a !! k; if Arc.ghost e then None else Some (Arc.value e, Arc.expires e * 1000000000).

Lemma arc_view_Some a k x : arc_view a k = Some x ↔ ∃ e, Arc.cache a !! k = Some e ∧ Arc.ghost e = false ∧ x = (Arc.value e, Arc.expires e * 1000000000).
Proof.
  unfold arc_view. destruct (Arc.cache a !! k) as [e|]; cbn; [|by split; [|intros (? & ? & _)]]. destruct (Arc.ghost e) eqn:Eg.
  - split; [done|]. intros (? & [= <-] & ? & _). congruence.
  - split; [intros [= <-]; by exists e|]. by intros (? & [= <-] & _ & ->).
Qed.

Lemma arc_kept_view a a' k e : Arc.kept a a' k e → (∀ k' x, k' ≠ k → arc_view a' k' = Some x → arc_view a k' = Some x)
  ∧ arc_view a' k = if Arc.ghost e then None else Some (Arc.value e, Arc.expires e * 1000000000).
Proof.
  intros (_ & (e' & E1 & E2 & E3 & E4) & E5). split; [|unfold arc_view; by rewrite E1, <- E2, <- E3, <- E4].
  intros k' x Hk (y & Hy & Hg & ->)%arc_view_Some. apply arc_view_Some. exists y. split_and!; [by apply E5|done|done].
Qed.

Lemma arc_delete_linked a k : Arc.linked a → Arc.linked (Arc.Delete a k) ∧ Arc.cache (Arc.Delete a k) = delete k (Arc.cache a).
Proof.
  intros HL. unfold Arc.Delete. destruct (Arc.cache a !! k) as [e|] eqn:Ek; [|split; [done|by rewrite delete_id]].
  destruct (Arc.detach_spec a k e HL) as (D1 & D2 & D3 & D4 & D5 & D6 & _); [left; by exists e|]. set (a1 := Arc.detach a k (Arc.ll e)) in *. set (a2 := if Arc.ghost e then a1 else Arc.set_len a1 (Arc.len a1 - 1)).
  assert ((∀ w, Arc.lst a2 w = Arc.lst a1 w) ∧ Arc.cache a2 = Arc.cache a) as [L2 C2] by (unfold a2; split; [by destruct (Arc.ghost e); intros []|by destruct (Arc.ghost e)]).
  split; [|cbn; by rewrite C2]. assert (∀ w, Arc.lst (Arc.set_cache a2 (delete k (Arc.cache a2))) w = Arc.lst a1 w) as L3 by (intros w; rewrite <- L2; by destruct w). split.
  - intros x w. rewrite L3, D1. cbn [Arc.cache Arc.set_cache]. rewrite C2, (Arc.linked_mem _ HL). destruct (decide (x = k)) as [->|Hx]; [rewrite lookup_delete_eq; split; [by intros [_ ?]|by intros (? & ? & _)]|].
    rewrite lookup_delete_ne by done. tauto.
  - intros w. rewrite L3. apply D2.
  - intros x y. cbn [Arc.cache Arc.set_cache]. rewrite C2. intros [_ Hy]%lookup_delete_Some. by apply (Arc.linked_some _ HL) in Hy.
Qed.

Lemma arc_set_law a k v t a' : Arc.linked a → Arc.SetWithExpire zero a k v t = Some a' → Arc.kept a a' k (Arc.mkEntry v false (Arc.Unix t) None).
Proof.
  intros HL. unfold Arc.SetWithExpire, Arc.setWithExpire. destruct (Arc.cache a !! k) as [e|] eqn:Ek; intros E.
  - set (a1 := if Arc.ghost e then Arc.set_len a (Arc.len a + 1) else a) in *. assert ((∀ w, Arc.lst a1 w = Arc.lst a w) ∧ Arc.cache a1 = Arc.cache a) as [L1 C1] by (unfold a1; destruct (Arc.ghost e); by split; try intros []).
    apply (Arc.req_returns zero) in E as (K1 & K2 & K3).
    + split; [done|]. split; [exact K2|]. intros x y Hx Hy Hg. specialize (K3 x y Hx Hy Hg). cbn in K3. by rewrite lookup_insert_ne, C1 in K3 by done.
    + apply (Arc.linked_set_entry a1 k e); [by apply (Arc.linked_same a)|by rewrite C1|done].
    + left. eexists. split; [apply lookup_insert_eq|done].
  - apply (Arc.req_returns zero) in E; [done|by apply (Arc.linked_same a); [intros []|..]|by right].
Qed.

#[local] Instance arc_laws : BackendLaws (B := Arc.ARC K V) Arc.linked arc_view.
Proof.
  split.
  - intros now a k a' r HL. cbn [bGetWithExpire arc_backend]. unfold Arc.GetWithExpire, Arc.get. destruct (Arc.cache a !! k) as [e|] eqn:Ek; [|intros [= <- <-]; split_and!; [done|unfold arc_view; by rewrite Ek|done|done]].
    destruct (Arc.put _ k) as [a1|] eqn:Ep; [|done]. cbn [mbind option_bind]. intros [= <- <-]. apply (Arc.req_returns zero) in Ep as HK; [|done|left; by exists e]. destruct (arc_kept_view a a1 k e HK) as [V1 V2].
    assert (arc_view a k = if Arc.ghost e then None else Some (Arc.value e, Arc.expires e * 1000000000)) as V3 by (unfold arc_view; by rewrite Ek).
    split_and!; [apply HK|rewrite V3; by destruct (Arc.ghost e)|congruence|]. intros k' x. destruct (decide (k' = k)) as [->|]; [by rewrite V2, V3|by apply V1].
  - intros now a k v t a' HL E. pose proof (arc_set_law a k v t a' HL E) as HK. destruct (arc_kept_view _ _ _ _ HK) as [V1 V2]. split_and!; [apply HK|done|done].
  - intros a k HL. destruct (arc_delete_linked a k HL) as [L1 C1]. split; [done|]. unfold arc_view. cbn [bDelete arc_backend]. rewrite C1. split; [by rewrite lookup_delete_eq|]. intros k' Hk. by rewrite lookup_delete_ne.
  - intros a _. split; [|done]. split; cbn; [intros k []; split; cbn; (by intros ?%not_elem_of_nil) || (by intros (? & ? & _))|intros []; constructor|done].
  - intros a l HL. cbn [bSnapshot arc_backend]. unfold Arc.Snapshot. destruct (Arc.len a <? 0); [done|]. intros [= <-]. split.
    + pose proof (NoDup_fst_map_to_list (Arc.cache a)) as Hnd. revert Hnd. generalize (map_to_list (Arc.cache a)). intros l. induction l as [|[k e] l IH]; [constructor|].
      rewrite fmap_cons. intros [Hn Hnd]%NoDup_cons. cbn. destruct (Arc.ghost e); [by apply IH|]. rewrite fmap_cons. apply NoDup_cons. split; [|by apply IH].
      intros ([k' x] & Hk & Hin)%list_elem_of_fmap. cbn in Hk. subst k'. apply Hn. apply list_elem_of_omap in Hin as ([k' e'] & Hin & He). destruct (Arc.ghost e'); simplify_eq. apply list_elem_of_fmap. by exists (k, e').
    + intros k x. rewrite list_elem_of_omap, arc_view_Some. split.
      * intros ([k' e] & Hin%elem_of_map_to_list & He). destruct (Arc.ghost e) eqn:Eg; simplify_eq. by exists e.
      * intros (e & He & Hg & ->). exists (k, e). split; [by apply elem_of_map_to_list|by rewrite Hg].
Qed.
End arc.

(** ** Concrete runs *)

Abbreviation demo := (list (Z * op nat nat)).
Abbreviation lru_demo := (lru_state (K := nat) (V := storedValue nat)).
Definition day : Z := 24 * 3600 * 1000000000.

(** A value stored on day 100 and handed out on day 129. *)
Definition demo_store : demo := [(100 * day, OSet 1%nat 7%nat (101 * day)); (128 * day, OGet 1%nat)].

Lemma dev_cache_retention_witness :
  ∃ (s : sys nat nat lru_demo) ops1 t o ops2 (s1 : sys nat nat lru_demo) u, run 0%nat (initial (lru_new 4)) demo_store = Some s ∧ demo_store = ops1 ++ (t, o) :: ops2
    ∧ writes t s1 o 1%nat (mkStored 7%nat u) ∧ 129 * day - RetentionPeriod < u.
Proof.
  destruct (lru_new_ok (K := nat) (V := storedValue nat) 4) as [Hok Hv].
  destruct (run 0%nat (initial (lru_new 4)) demo_store) as [s|] eqn:E; [|by vm_compute in E].
  destruct (dev_cache_retention 0%nat (lru_ok 4) lru_view (lru_new 4) demo_store s (129 * day) 1%nat 7%nat Hok Hv E) as (ops1 & t & o & ops2 & s1 & u & H1 & _ & H2 & H3).
  { left. vm_compute in E. injection E as <-. eexists _, _. vm_compute. reflexivity. }
  by exists s, ops1, t, o, ops2, s1, u.
Defined.

(** A refresh is under way when its key is deleted; its answer comes too late. *)
Lemma dev_cache_invalidation_witness :
  ∃ s1 s2 s3 : sys nat nat lru_demo, run 0%nat (initial (lru_new 4)) [(1, ORefresh 1%nat)] = Some s1 ∧ step 0%nat 2 s1 (ODelete 1%nat) = Some s2
    ∧ run 0%nat s2 [(3, ODone 0 9%nat day None)] = Some s3 ∧ await (cache s3) (Waits 0) = Some (0%nat, Some ErrInvalidated).
Proof.
  destruct (run 0%nat (initial (lru_new 4)) [(1, ORefresh 1%nat)]) as [s1|] eqn:E1; [|by vm_compute in E1].
  destruct (step 0%nat 2 s1 (ODelete 1%nat)) as [s2|] eqn:E2; [|by vm_compute in E1; injection E1 as <-; vm_compute in E2].
  destruct (run 0%nat s2 [(3, ODone 0 9%nat day None)]) as [s3|] eqn:E3; [|by vm_compute in E1; injection E1 as <-; vm_compute in E2; injection E2 as <-; vm_compute in E3].
  destruct (dev_cache_invalidation 0%nat (lru_ok 4) lru_view (lru_new 4) [(1, ORefresh 1%nat)] [(3, ODone 0 9%nat day None)] (ODelete 1%nat) 2 s1 s2 s3 1%nat) as [Hw _]; try done.
  { apply (lru_new_ok 4). }
  { by repeat constructor. }
  exists s1, s2, s3. split_and!; try done. apply Hw. vm_compute in E1. injection E1 as <-. vm_compute. reflexivity.
Defined.

Lemma dev_cache_flights_land_witness :
  ∃ s : sys nat nat lru_demo, run 0%nat (initial (lru_new 4)) [(1, ORefresh 1%nat); (2, OClear); (3, ORefresh 1%nat); (4, ODone 0 9%nat day None); (5, ODone 1 8%nat day None)] = Some s.
Proof.
  destruct (dev_cache_flights_land 0%nat (lru_ok 4) lru_view (lru_new 4) [(1, ORefresh 1%nat); (2, OClear); (3, ORefresh 1%nat); (4, ODone 0 9%nat day None); (5, ODone 1 8%nat day None)]) as (s & E & _); [apply (lru_new_ok 4)|].
  by exists s.
Defined.

#[local] Instance arc_of_nat : Backend nat (storedValue nat) (Arc.ARC nat (storedValue nat)) := arc_backend (mkStored 0%nat 0).
#[local] Instance arc_of_nat_laws : BackendLaws (B := Arc.ARC nat (storedValue nat)) Arc.linked arc_view := arc_laws (mkStored 0%nat 0).

(** A refresh of a retained value fails, in front of an adaptive cache. *)
Lemma failed_refresh_keeps_value_witness :
  ∃ s s' : sys nat nat (Arc.ARC nat (storedValue nat)), run 0%nat (initial (Arc.New 2)) [(1, OSet 1%nat 7%nat 2); (3, ORefresh 1%nat)] = Some s
    ∧ step 0%nat 4 s (ODone 0 0%nat zeroTime (Some (FetchError 1))) = Some s' ∧ await (cache s') (Waits 0) = Some (0%nat, Some (FetchError 1)).
Proof.
  destruct (run 0%nat (initial (Arc.New 2)) [(1, OSet 1%nat 7%nat 2); (3, ORefresh 1%nat)]) as [s|] eqn:E1; [|by vm_compute in E1].
  destruct (step 0%nat 4 s (ODone 0 0%nat zeroTime (Some (FetchError 1)))) as [s'|] eqn:E2; [|by vm_compute in E1; injection E1 as <-; vm_compute in E2].
  destruct (failed_refresh_keeps_value 0%nat Arc.linked arc_view (Arc.New 2) [(1, OSet 1%nat 7%nat 2); (3, ORefresh 1%nat)] s s' 4 1%nat 0%nat 0%nat zeroTime (FetchError 1) 7%nat 1 0) as [Hw _]; try done.
  { by apply (Arc.holds_linked _ ∅), Arc.empty_holds; [|intros []|..]. }
  { vm_compute in E1. injection E1 as <-. vm_compute. reflexivity. }
  { vm_compute in E1. injection E1 as <-. vm_compute. reflexivity. }
  by exists s, s'.
Defined.

(** In front of an adaptive cache of one value, deleting the live key and asking for the
    one it replaced panics. *)
Lemma arc_cache_panics :
  run 0%nat (initial (Arc.New 1)) [(1, OSet 1%nat 7%nat 2); (2, OGet 1%nat); (3, OSet 2%nat 7%nat 4); (4, ODelete 2%nat); (5, OGet 1%nat)] = None.
Proof. vm_compute. reflexivity. Qed.
