(* ===== verification/DevRegistry.v ===== *)
(** * [component/dev_cache/registry.go], [scope.go]: persistence and network scopes

    The registry holds the caches that outlive a configuration, under their namespaces,
    and the records that were restored before their cache was attached.  The closures of
    [registered] are the cache with its two coders; all caches have one type of values
    here.  Keys carry the network scope they belong to. *)

From Stdlib Require Import ZArith Lia Ascii String.
From stdpp Require Import base strings gmap fin_maps numbers sorting list.
From S2P Require Import Prelude GoStrings GoNet GoNetText Arc DevCache.
#[local] Open Scope Z_scope.

(** ** Scopes *)

Definition Separator : string := String (byte_of 0) "".

Definition ScopedKey (scope key : string) : string := (scope +:+ Separator +:+ key)%string.
Definition InScope (key scope : string) : bool := bool_decide (scope ≠ "") && HasPrefix key (scope +:+ Separator).

Definition EnvironmentScope (environment : string) : string :=
  let environment := TrimSpace environment in
  if bool_decide (environment ≠ "") then ("environment|" +:+ environment)%string else "".

(** [desktop] is the answer of the provider, when one is set. *)
Record scopeState := mkScopes { environment : string; desktop : option string; platformPartitions : bool }.

Definition SetPlatformNetworkPartitions (s : scopeState) (enabled : bool) : scopeState := mkScopes (environment s) (desktop s) enabled.
Definition PlatformNetworkPartitions (s : scopeState) : bool := platformPartitions s.
Definition SetDesktopScopeProvider (s : scopeState) (provider : option string) : scopeState := mkScopes (environment s) provider (platformPartitions s).

Definition CurrentScope (s : scopeState) : string :=
  if bool_decide (environment s ≠ "") then EnvironmentScope (environment s)
  else match desktop s with Some d => d | None => "ipv4-private|unknown" end.

Definition str_le (a b : string) : Prop := String.leb a b = true.
#[export] Instance str_le_dec : RelDecision str_le.
Proof. intros a b. unfold str_le. apply _. Defined.

Definition desktop_part (prefix : Prefix) : option string :=
  let ip := Unmap (paddr prefix) in
  if Is4 ip && IsPrivate ip then Some (PrefixString (Masked (mkPrefix ip 16))) else None.

Definition DesktopScope (prefixes : list Prefix) : string :=
  let seen : gset string := list_to_set (omap desktop_part prefixes) in
  match merge_sort str_le (elements seen) with
  | [] => "ipv4-private|unknown"
  | parts => ("ipv4-private|" +:+ Join parts ",")%string
  end.

(** ** Records *)

Record Record_ := mkRecord { Namespace : string; rKey : string; rValue : list ascii; rDue : Z; rUpdatedAt : Z }.

(** The first of January 2000. *)
Definition year2000 : Z := 946684800 * 1000000000.

Definition recordUpdatedAt (r : Record_) (now : Z) : Z :=
  let updated :=
    if rUpdatedAt r =? zeroTime
    then (if rDue r <? year2000 then now else rDue r)
    else rUpdatedAt r in
  if now <? updated then now else updated.

(** ** The registry *)

Section registry.
Context {V B : Type} `{!Backend string (storedValue V) B} (zero : V).

Record registered := mkRegistered { rcache : Cache string V B; encode : V → option (list ascii); decode : list ascii → option V }.

Definition set_rcache (r : registered) (c : Cache string V B) : registered := mkRegistered c (encode r) (decode r).

Record registry := mkRegistry { entries : gmap string registered; pending : gmap string (list Record_); loaded : bool }.

Definition rclear (r : registered) : option registered := c ← Clear zero (rcache r); Some (set_rcache r c).
Definition revict (now : Z) (scope : string) (r : registered) : option (registered * Z) :=
  '(c, n) ← DeleteMatching zero now (rcache r) (λ k, InScope k scope); Some (set_rcache r c, n).
Definition rstale (now : Z) (scope : string) (r : registered) : option registered :=
  c ← MarkStale zero now (rcache r) (λ k, InScope k scope); Some (set_rcache r c).

(** Values that cannot be encoded are left out. *)
Definition record_of (name : string) (r : registered) (i : Item string V) : option Record_ :=
  value ← encode r (Value i); Some (mkRecord name (Key i) value (Expires i) (UpdatedAt i)).
Definition rsnapshot (now : Z) (name : string) (r : registered) : option (registered * list Record_) :=
  '(c, l) ← Snapshot now (rcache r); Some (set_rcache r c, omap (M := list) (record_of name r) l).

Fixpoint load_records (now : Z) (r : registered) (c : Cache string V B) (records : list Record_) : option (Cache string V B) :=
  match records with
  | [] => Some c
  | x :: records =>
      match decode r (rValue x) with
      | Some v => c ← restore now c (rKey x) v (rDue x) (rUpdatedAt x); load_records now r c records
      | None => load_records now r c records
      end
  end.
Definition rload (now : Z) (r : registered) (records : list Record_) : option registered :=
  c ← load_records now r (rcache r) records; Some (set_rcache r c).

(** [pending[name]] of an absent name is empty. *)
Definition pending_of (R : registry) (name : string) : list Record_ := default [] (pending R !! name).

(** The cache the caller goes on with: the one registered already, or its own. *)
Definition Attach (now : Z) (R : registry) (name : string) (c : Cache string V B) (enc : V → option (list ascii)) (dec : list ascii → option V) : option (registry * Cache string V B) :=
  match entries R !! name with
  | Some old => Some (R, rcache old)
  | None =>
      let r := mkRegistered c enc dec in
      match pending_of R name with
      | [] => Some (mkRegistry (<[name := r]> (entries R)) (pending R) (loaded R), c)
      | records =>
          r ← rload now r records;
          Some (mkRegistry (<[name := r]> (entries R)) (delete name (pending R)) (loaded R), rcache r)
      end
  end.

(** A loop over the entries. *)
Fixpoint each {A} (f : string → registered → option (registered * A)) (l : list (string * registered)) (m : gmap string registered) : option (gmap string registered * list A) :=
  match l with
  | [] => Some (m, [])
  | (name, r) :: l =>
      '(r, a) ← f name r;
      '(m, out) ← each f l (<[name := r]> m);
      Some (m, a :: out)
  end.

Definition each_entry {A} (f : string → registered → option (registered * A)) (R : registry) : option (registry * list A) :=
  '(m, out) ← each f (map_to_list (entries R)) (entries R); Some (mkRegistry m (pending R) (loaded R), out).

(** A record that is old enough to be dropped is not kept for its namespace. *)
Definition keep_record (now : Z) (m : gmap string (list Record_)) (r : Record_) : gmap string (list Record_) :=
  let r := mkRecord (Namespace r) (rKey r) (rValue r) (rDue r) (recordUpdatedAt r now) in
  if rUpdatedAt r <=? now - RetentionPeriod then m
  else <[Namespace r := default [] (m !! Namespace r) ++ [r]]> m.

Definition restoreAt (R : registry) (records : list Record_) (now : Z) : option (registry * bool) :=
  if loaded R then Some (R, false)
  else
    let R := mkRegistry (entries R) (foldl (keep_record now) ∅ records) true in
    '(R, _) ← each_entry (λ name r, r ← rload now r (pending_of R name); Some (r, tt)) R;
    Some (mkRegistry (entries R) (filter (λ p, entries R !! p.1 = None) (pending R)) true, true).

(** The records of the caches, then those that wait; old ones are dropped. *)
Definition snapshotAt (R : registry) (now : Z) : option (registry * list Record_) :=
  '(R, ls) ← each_entry (rsnapshot now) R;
  let kept := filter (λ p, p.2 ≠ []) ((λ l, filter (λ r, now - RetentionPeriod < rUpdatedAt r) l) <$> pending R) in
  Some (mkRegistry (entries R) kept (loaded R), concat ls ++ concat (map_to_list kept).*2).

Definition RetainNamespaces (R : registry) (keep : string → bool) : option (registry * Z) :=
  '(R', _) ← each_entry (λ name r, if keep name then Some (r, tt) else r ← rclear r; Some (r, tt)) R;
  let kept := filter (λ p, keep p.1) (entries R') in
  let waiting := filter (λ p, keep p.1) (pending R') in
  Some (mkRegistry kept waiting (loaded R), Z.of_nat (size (entries R)) - Z.of_nat (size kept) + (Z.of_nat (size (pending R)) - Z.of_nat (size waiting))).

Definition ClearAll (R : registry) : option registry :=
  '(R, _) ← each_entry (λ _ r, r ← rclear r; Some (r, tt)) R;
  Some (mkRegistry (entries R) ∅ (loaded R)).

Definition RefreshScope (now : Z) (R : registry) (scope : string) : option registry :=
  if bool_decide (scope = "") then Some R
  else '(R, _) ← each_entry (λ _ r, r ← rstale now scope r; Some (r, tt)) R; Some R.

(** Namespaces whose records are all evicted stay, with an empty list. *)
Definition EvictScope (now : Z) (R : registry) (scope : string) : option (registry * Z) :=
  if bool_decide (scope = "") then Some (R, 0)
  else
    '(R, ns) ← each_entry (λ _ r, revict now scope r) R;
    let out := (λ l, filter (λ r, InScope (rKey r) scope) l) <$> pending R in
    let kept := (λ l, filter (λ r, ¬ InScope (rKey r) scope) l) <$> pending R in
    Some (mkRegistry (entries R) kept (loaded R), foldl Z.add 0 ns + Z.of_nat (length (concat (map_to_list out).*2))).

(** The environment is stored trimmed; what belonged to the old one is marked stale. *)
Definition SetEnvironment (now : Z) (s : scopeState) (R : registry) (env : string) : option (scopeState * registry) :=
  let old := environment s in
  let s := mkScopes (TrimSpace env) (desktop s) (platformPartitions s) in
  if bool_decide (old = TrimSpace env) then Some (s, R)
  else R ← RefreshScope now R (EnvironmentScope old); Some (s, R).
End registry.
Arguments registered : clear implicits.
Arguments registry : clear implicits.
