(* ===== verification/DevRegistryTheory.v ===== *)
(** * Theory of [DevRegistry]

    Scopes do not reach into each other, eviction of a scope is complete and touches
    nothing else, and what a snapshot saves comes back after a restart. *)

From Stdlib Require Import ZArith Lia Ascii String.
From stdpp Require Import base strings gmap fin_maps numbers sorting list.
From S2P Require Import Prelude GoStrings GoNet GoNetText Arc DevCache DevCacheTheory DevBackends DevRegistry.
#[local] Open Scope Z_scope.

(** ** Scopes *)

(** A scope contains no separator. *)
Definition scope_name (s : string) : bool := bool_decide (s ≠ "") && str_all (λ c, negb (bool_decide (c = byte_of 0))) s.

Lemma append_cons c (s t : string) : (String c s +:+ t = String c (s +:+ t))%string.
Proof. done. Qed.

Lemma HasPrefix_separator (s s' k : string) :
  str_all (λ c, negb (bool_decide (c = byte_of 0))) s → str_all (λ c, negb (bool_decide (c = byte_of 0))) s' →
  HasPrefix (s +:+ Separator +:+ k) (s' +:+ Separator) = bool_decide (s = s').
Proof.
  unfold Separator. revert s'. induction s as [|c s IH]; intros s' Hs Hs'; destruct s' as [|c' s']; cbn [str_all] in *.
  - change (bool_decide (byte_of 0 = byte_of 0) && HasPrefix k "" = bool_decide ("" = "")). rewrite bool_decide_true by done. by destruct k.
  - apply andb_prop_elim in Hs' as [Hc _]. change (bool_decide (c' = byte_of 0) && HasPrefix k (s' +:+ String (byte_of 0) "") = bool_decide ("" = String c' s')).
    rewrite (bool_decide_false (_ = String _ _)) by done. rewrite bool_decide_false; [done|]. intros ->. by rewrite bool_decide_true in Hc.
  - apply andb_prop_elim in Hs as [Hc _]. rewrite append_cons. change (bool_decide (byte_of 0 = c) && HasPrefix (s +:+ String (byte_of 0) "" +:+ k) "" = bool_decide (String c s = "")).
    rewrite (bool_decide_false (String _ _ = _)) by done. rewrite bool_decide_false; [done|]. intros <-. by rewrite bool_decide_true in Hc.
  - apply andb_prop_elim in Hs as [_ Hs], Hs' as [_ Hs']. change (bool_decide (c' = c) && HasPrefix (s +:+ String (byte_of 0) "" +:+ k) (s' +:+ String (byte_of 0) "") = bool_decide (String c s = String c' s')). rewrite (IH s' Hs Hs'). destruct (decide (c' = c)) as [->|Hc].
    + rewrite bool_decide_true by done. cbn [andb]. apply bool_decide_ext. split; [by intros ->|by intros [= ->]].
    + rewrite bool_decide_false by done. cbn [andb]. symmetry. apply bool_decide_false. congruence.
Qed.

(** The keys of a scope are in that scope and in no other. *)
Lemma InScope_ScopedKey scope scope' key : scope_name scope → scope_name scope' → InScope (ScopedKey scope key) scope' = bool_decide (scope = scope').
Proof.
  unfold scope_name, InScope, ScopedKey. intros [Hn Hs]%andb_prop_elim [Hn' Hs']%andb_prop_elim. rewrite HasPrefix_separator by done. apply bool_decide_unpack in Hn'. by rewrite bool_decide_true.
Qed.

Lemma not_Is_true (b : bool) : ¬ b ↔ b = false.
Proof. destruct b; cbn; naive_solver. Qed.

(** ** Loops over the entries *)

Section loops.
Context {V B A : Type} `{!Backend string (storedValue V) B}.
Implicit Types (m : gmap string (registered V B)).

Lemma each_spec (f : string → registered V B → option (registered V B * A)) l : ∀ m m' out,
  NoDup l.*1 → each f l m = Some (m', out) →
  (∀ name, name ∉ l.*1 → m' !! name = m !! name)
  ∧ (∀ name r, (name, r) ∈ l → ∃ r' a, f name r = Some (r', a) ∧ m' !! name = Some r' ∧ a ∈ out)
  ∧ (∀ a, a ∈ out → ∃ name r r', (name, r) ∈ l ∧ f name r = Some (r', a)).
Proof.
  induction l as [|[name r] l IH]; intros m m' out Hnd; cbn [each].
  - intros [= <- <-]. split_and!; [done|intros name r Hr; by apply not_elem_of_nil in Hr|intros a Ha; by apply not_elem_of_nil in Ha].
  - rewrite fmap_cons in Hnd. apply NoDup_cons in Hnd as [Hn Hnd]. destruct (f name r) as [[r' a]|] eqn:Ef; [|done]. cbn [mbind option_bind].
    destruct (each f l (<[name := r']> m)) as [[m1 out1]|] eqn:E; [|done]. cbn [mbind option_bind]. intros [= <- <-]. destruct (IH _ _ _ Hnd E) as (I1 & I2 & I3). split_and!.
    + intros n. rewrite fmap_cons, not_elem_of_cons. intros [Hn1 Hn2]. rewrite I1 by done. by rewrite lookup_insert_ne.
    + intros n x [[= -> ->]|Hx]%elem_of_cons; [exists r', a; split_and!; [done|by rewrite I1, lookup_insert_eq|by left]|]. destruct (I2 n x Hx) as (r2 & a2 & ? & ? & ?). exists r2, a2. split_and!; [done|done|by right].
    + intros x [->|Hx]%elem_of_cons; [exists name, r, r'; split; [by left|done]|]. destruct (I3 x Hx) as (n & r2 & r3 & ? & ?). exists n, r2, r3. split; [by right|done].
Qed.

Lemma each_entry_spec (f : string → registered V B → option (registered V B * A)) R R' out :
  each_entry f R = Some (R', out) →
  pending R' = pending R ∧ loaded R' = loaded R
  ∧ (∀ name r, entries R !! name = Some r → ∃ r' a, f name r = Some (r', a) ∧ entries R' !! name = Some r' ∧ a ∈ out)
  ∧ (∀ name, entries R !! name = None → entries R' !! name = None)
  ∧ (∀ a, a ∈ out → ∃ name r r', entries R !! name = Some r ∧ f name r = Some (r', a)).
Proof.
  unfold each_entry. destruct (each f _ _) as [[m out1]|] eqn:E; [|done]. cbn [mbind option_bind]. intros [= <- <-]. destruct (each_spec f _ _ _ _ (NoDup_fst_map_to_list _) E) as (I1 & I2 & I3).
  cbn. split_and!; [done|done| | |].
  - intros name r Hr. apply I2. by apply elem_of_map_to_list.
  - intros name Hn. rewrite I1; [done|]. intros ([n r] & -> & Hin)%list_elem_of_fmap. apply elem_of_map_to_list in Hin. cbn in Hn. congruence.
  - intros a Ha. destruct (I3 a Ha) as (name & r & r' & Hin & Hf). apply elem_of_map_to_list in Hin. by exists name, r, r'.
Qed.
End loops.

(** ** Eviction *)

Section evict.
Context {V B : Type} `{!Backend string (storedValue V) B} (zero : V).
Context (ok : B → Prop) (view : B → string → option (storedValue V * Z)) `{HLaws : !BackendLaws ok view}.

(** The caches of a registry are in order. *)
Definition registry_ok (R : registry V B) : Prop := ∀ name r, entries R !! name = Some r → ok (data (rcache r)) ∧ tidy (rcache r).

Lemma evict_entry now scope r r' n :
  ok (data (rcache r)) → tidy (rcache r) → revict zero now scope r = Some (r', n) →
  ok (data (rcache r')) ∧ tidy (rcache r')
  ∧ (∀ k, InScope k scope = true → view (data (rcache r')) k = None ∧ flights (rcache r') !! k = None)
  ∧ ∀ k, InScope k scope = false → flights (rcache r') !! k = flights (rcache r) !! k
      ∧ ∀ x, view (data (rcache r')) k = Some x ↔ view (data (rcache r)) k = Some x ∧ now - RetentionPeriod < updatedAt x.1.
Proof.
  intros Hok HT. unfold revict. destruct (DeleteMatching zero now (rcache r) _) as [[c1 n1]|] eqn:E; [|done]. intros [= <- <-]. cbn [rcache set_rcache].
  destruct (DeleteMatching_spec zero ok view _ _ _ _ _ Hok HT E) as (C1 & D1 & D2). split_and!; [apply C1|apply C1| |done]. intros k Hk. destruct (D1 k Hk) as [? [? _]]. done.
Qed.

Lemma pending_filter (P : Record_ → Prop) `{∀ r, Decision (P r)} (m : gmap string (list Record_)) name x :
  x ∈ default [] (((λ l, filter P l) <$> m) !! name) ↔ x ∈ default [] (m !! name) ∧ P x.
Proof. rewrite lookup_fmap. destruct (m !! name) as [l|]; cbn; [rewrite list_elem_of_filter; tauto|]. split; [by intros ?%not_elem_of_nil|]. by intros [?%not_elem_of_nil _]. Qed.
End evict.

(** After a network scope is evicted no attached cache holds a key of it or runs a
    refresh for one, and no waiting record carries one; keys of every other scope, their
    refreshes and their records are what they were, but for values past their 30 days. *)
Theorem evict_scope_complete {V B} `{!Backend string (storedValue V) B} (zero : V) ok view `{!BackendLaws ok view} now (R R' : registry V B) scope n :
  registry_ok ok R → scope_name scope → EvictScope zero now R scope = Some (R', n) →
  (∀ name r' key, entries R' !! name = Some r' →
     view (data (rcache r')) (ScopedKey scope key) = None ∧ flights (rcache r') !! ScopedKey scope key = None)
  ∧ (∀ name x, x ∈ pending_of R' name ↔ x ∈ pending_of R name ∧ InScope (rKey x) scope = false)
  ∧ (∀ name r other key, entries R !! name = Some r → scope_name other → other ≠ scope →
      ∃ r', entries R' !! name = Some r' ∧ flights (rcache r') !! ScopedKey other key = flights (rcache r) !! ScopedKey other key
        ∧ ∀ x, view (data (rcache r')) (ScopedKey other key) = Some x ↔ view (data (rcache r)) (ScopedKey other key) = Some x ∧ now - RetentionPeriod < updatedAt x.1).
Proof.
  intros HR Hs. unfold EvictScope. rewrite bool_decide_false; [|unfold scope_name in Hs; apply andb_prop_elim in Hs as [Hs _]; by apply bool_decide_unpack in Hs].
  destruct (each_entry _ R) as [[R1 ns]|] eqn:E; [|done]. intros [= <- _]. destruct (each_entry_spec _ _ _ _ E) as (P1 & L1 & E1 & N1 & _). cbn [entries]. split_and!.
  - intros name r' key Hr'. destruct (entries R !! name) as [r|] eqn:Er; [|specialize (N1 _ Er); congruence]. destruct (E1 name r Er) as (r1 & a & Hf & Hr1 & _). assert (r1 = r') as -> by congruence.
    destruct (HR name r Er) as [O1 T1]. destruct (evict_entry zero ok view now scope r r' a O1 T1 Hf) as (_ & _ & D1 & _). apply D1. by rewrite InScope_ScopedKey, bool_decide_true.
  - intros name x. unfold pending_of. cbn [pending]. by rewrite pending_filter, P1, not_Is_true.
  - intros name r other key Hr Ho Hne. destruct (E1 name r Hr) as (r1 & a & Hf & Hr1 & _). exists r1. split; [done|]. destruct (HR name r Hr) as [O1 T1]. destruct (evict_entry zero ok view now scope r r1 a O1 T1 Hf) as (_ & _ & _ & D2).
    apply D2. rewrite InScope_ScopedKey by done. by apply bool_decide_false.
Qed.

(** ** Restarts *)

(** What a snapshot lists, in the order of the policy. *)
Lemma add_items {K V B} `{Countable K} `{!Backend K (storedValue V) B} now (l : list (K * (storedValue V * Z))) : ∀ (c : Cache K V B) out,
  (foldl (add now) (c, out) l).2 = out ++ omap (M := list) (λ '(k, x), if updatedAt x.1 <=? now - RetentionPeriod then None else Some (item k x)) l.
Proof.
  induction l as [|[k [v due]] l IH]; intros c out; [by rewrite app_nil_r|]. cbn [foldl add omap list_omap fst snd]. destruct (updatedAt v <=? now - RetentionPeriod); rewrite IH; [done|]. by rewrite <- app_assoc.
Qed.

Lemma NoDup_omap_keys {A C K} (f : A → option C) (g : A → K) (h : C → K) (l : list A) :
  (∀ a x, f a = Some x → h x = g a) → NoDup (g <$> l) → NoDup (h <$> omap f l).
Proof.
  intros Hf. induction l as [|a l IH]; [constructor|]. rewrite fmap_cons. intros [Hn Hnd]%NoDup_cons. cbn. destruct (f a) as [x|] eqn:E; [|by apply IH]. rewrite fmap_cons. apply NoDup_cons. split; [|by apply IH].
  rewrite (Hf a x E). intros (y & Hy & (a' & Ha' & Hfa)%list_elem_of_omap)%list_elem_of_fmap. apply Hn, list_elem_of_fmap. exists a'. split; [|done]. by rewrite Hy, (Hf a' y Hfa).
Qed.

Section restart.
Context {V B : Type} `{!Backend string (storedValue V) B} (zero : V).
Context (ok : B → Prop) (view : B → string → option (storedValue V * Z)) (room : Z) `{HLaws : !BackendLaws ok view} `{HRoom : !BackendRoom ok view room}.
Implicit Types (c : Cache string V B) (r : registered V B).

Lemma snapshot_nodup now c c' l : ok (data c) → snapshot now c = Some (c', l) → NoDup (Key <$> l).
Proof.
  intros Hok. unfold snapshot. destruct (bSnapshot (data c)) as [l0|] eqn:Es; [|done]. cbn [mbind option_bind]. intros [= E]. pose proof (add_items now l0 c []) as Ha. rewrite E in Ha. cbn [snd app] in Ha. rewrite Ha.
  destruct (law_snapshot _ _ Hok Es) as [Hnd _]. revert Hnd. apply NoDup_omap_keys. intros [k x] y. cbn. by destruct (_ <=? _); intros [= <-].
Qed.

(** A record restored under a key that is not there. *)
Lemma restore_fresh now c k v due u c' ks :
  ok (data c) → tidy c → now - RetentionPeriod < u → see view c k = None → (∀ k', is_Some (see view c k') → k' ∈ ks) → Z.of_nat (length ks) < room →
  restore now c k v due u = Some c' → ok (data c') ∧ tidy c' ∧ see view c' k = Some (mkStored v u, seconds due) ∧ ∀ k', k' ≠ k → see view c' k' = see view c k'.
Proof.
  intros Hok HT Hu Hn Hks Hlen E. pose proof (restore_calm ok view _ _ _ _ _ _ _ Hok HT E) as C1. split; [apply C1|]. split; [apply C1|]. unfold restore in E. rewrite (proj2 (Z.leb_gt _ _)) in E by done.
  unfold get in E. destruct (bGetWithExpire now (data c) k) as [[b r0]|] eqn:Eg; [|done]. cbn [mbind option_bind] in E. destruct (law_get _ _ _ _ _ Hok Eg) as (L1 & L2 & _). pose proof (room_get _ _ _ _ _ Hok Eg) as L3.
  unfold see in Hn. rewrite Hn in L2. subst r0. cbn [mbind option_bind] in E. destruct (bSetWithExpire now (data (set_data c b)) k _ due) as [b'|] eqn:Eb; [|done]. cbn [mbind option_bind] in E. injection E as <-.
  cbn [data set_data] in Eb. destruct (law_set _ _ _ _ _ _ L1 Eb) as (_ & S2 & _). split; [exact S2|]. intros k' Hk. unfold see. cbn [data set_data].
  rewrite <- (L3 k'). apply (room_set now b k (mkStored v u) due b' ks); [done|done| |done|done]. intros k2. rewrite (L3 k2). apply Hks.
Qed.

Definition restored r (xs : list Record_) (k : string) (y : storedValue V * Z) : Prop :=
  ∃ x v, x ∈ xs ∧ rKey x = k ∧ decode r (rValue x) = Some v ∧ y = (mkStored v (rUpdatedAt x), seconds (rDue x)).

Lemma load_fresh now r xs : ∀ c c' ks,
  ok (data c) → tidy c → Forall (λ x, now - RetentionPeriod < rUpdatedAt x) xs → NoDup (rKey <$> xs) → (∀ x, x ∈ xs → see view c (rKey x) = None) →
  (∀ k', is_Some (see view c k') → k' ∈ ks) → Z.of_nat (length ks + length xs) ≤ room → load_records now r c xs = Some c' →
  ∀ k y, see view c' k = Some y ↔ see view c k = Some y ∨ restored r xs k y.
Proof.
  induction xs as [|x xs IH]; intros c c' ks Hok HT Hr Hnd Hn Hks Hlen; cbn [load_records].
  - intros [= <-] k y. split; [by left|]. intros [?|(x & v & Hx & _)]; [done|by apply not_elem_of_nil in Hx].
  - rewrite fmap_cons in Hnd. apply NoDup_cons in Hnd as [Hn1 Hnd]. apply list.Forall_cons in Hr as [Hr1 Hr]. cbn [length] in Hlen. destruct (decode r (rValue x)) as [v|] eqn:Ed.
    + destruct (restore now c (rKey x) v (rDue x) (rUpdatedAt x)) as [c1|] eqn:E1; [|done]. cbn [mbind option_bind]. intros E.
      destruct (restore_fresh now c (rKey x) v (rDue x) (rUpdatedAt x) c1 ks Hok HT Hr1 (Hn x ltac:(by left)) Hks ltac:(lia) E1) as (O1 & T1 & S1 & S2).
      intros k y. rewrite (IH c1 c' (rKey x :: ks) O1 T1 Hr Hnd) by first
        [ done | cbn [length]; lia
        | intros x' Hx'; rewrite S2; [apply Hn; by right|]; intros Heq; apply Hn1, list_elem_of_fmap; by exists x'
        | intros k' Hk'; destruct (decide (k' = rKey x)) as [->|]; [by left|right; apply Hks; by rewrite <- S2] ].
      split.
      * intros [Hs|(x' & v' & Hx' & H1 & H2 & H3)]; [|right; exists x', v'; split_and!; [by right|done..]]. destruct (decide (k = rKey x)) as [->|]; [|left; by rewrite <- S2]. right. exists x, v. rewrite S1 in Hs. injection Hs as <-. split_and!; [by left|done..].
      * intros [Hs|(x' & v' & [->|Hx']%elem_of_cons & H1 & H2 & H3)]; [|left; subst; rewrite Ed in H2; by simplify_eq|right; by exists x', v'].
        left. rewrite S2; [done|]. intros ->. rewrite (Hn x) in Hs; [done|by left].
    + intros E k y. rewrite (IH c c' ks Hok HT Hr Hnd) by first [done | lia | intros x' Hx'; apply Hn; by right]. split.
      * intros [?|(x' & v' & Hx' & ?)]; [by left|right; exists x', v'; split; [by right|done]].
      * intros [?|(x' & v' & [->|Hx']%elem_of_cons & H1 & H2 & H3)]; [by left|congruence|right; by exists x', v'].
Qed.
End restart.

(** The record of a namespace, with its time made valid, if it is to be kept. *)
Definition kept_record (now : Z) (name : string) (r : Record_) : option Record_ :=
  if bool_decide (Namespace r = name) && (now - RetentionPeriod <? recordUpdatedAt r now)
  then Some (mkRecord (Namespace r) (rKey r) (rValue r) (rDue r) (recordUpdatedAt r now)) else None.

Lemma keep_fold now name l : ∀ m,
  default [] (foldl (keep_record now) m l !! name) = default [] (m !! name) ++ omap (M := list) (kept_record now name) l.
Proof.
  induction l as [|x l IH]; intros m; cbn [foldl]; [by rewrite app_nil_r|]. rewrite IH. unfold keep_record, kept_record. cbn [rUpdatedAt Namespace omap list_omap].
  destruct (Z.leb_spec (recordUpdatedAt x now) (now - RetentionPeriod)) as [Ho|Ho].
  - by rewrite (proj2 (Z.ltb_ge _ _)), andb_false_r by done.
  - rewrite (proj2 (Z.ltb_lt _ _)), andb_true_r by done. destruct (decide (Namespace x = name)) as [<-|Hne].
    + rewrite bool_decide_true, lookup_insert_eq by done. cbn [from_option id]. by rewrite <- app_assoc.
    + by rewrite bool_decide_false, lookup_insert_ne by done.
Qed.

(** Nothing of another namespace is among the records of a list. *)
Lemma kept_other now name (l : list Record_) : (∀ x, x ∈ l → Namespace x ≠ name) → omap (M := list) (kept_record now name) l = [].
Proof.
  induction l as [|x l IH]; intros Hl; [done|]. cbn [omap list_omap]. unfold kept_record at 1. rewrite bool_decide_false by (apply Hl; by left). cbn [andb]. apply IH. intros y Hy. apply Hl. by right.
Qed.

Section registry_restart.
Context {V B : Type} `{!Backend string (storedValue V) B} (zero : V).
Context (ok : B → Prop) (view : B → string → option (storedValue V * Z)) (room : Z) `{HLaws : !BackendLaws ok view} `{HRoom : !BackendRoom ok view room}.

Lemma each_forall2 {A} (f : string → registered V B → option (registered V B * A)) l : ∀ m m' out,
  each f l m = Some (m', out) → Forall2 (λ p a, ∃ r', f p.1 p.2 = Some (r', a)) l out.
Proof.
  induction l as [|[name r] l IH]; intros m m' out; cbn [each]; [intros [= _ <-]; constructor|]. destruct (f name r) as [[r' a]|] eqn:Ef; [|done]. cbn [mbind option_bind].
  destruct (each f l _) as [[m1 out1]|] eqn:E; [|done]. cbn [mbind option_bind]. intros [= _ <-]. constructor; [by exists r'|by eapply IH].
Qed.

Lemma rsnapshot_namespace now name r r' a : rsnapshot now name r = Some (r', a) → ∀ x, x ∈ a → Namespace x = name.
Proof.
  unfold rsnapshot. destruct (Snapshot now (rcache r)) as [[c l]|]; [|done]. cbn [mbind option_bind]. intros [= _ <-] x (i & _ & Hi)%list_elem_of_omap. unfold record_of in Hi. by destruct (encode r (Value i)); simplify_eq/=.
Qed.

(** The records of one namespace come from its cache. *)
Lemma snapshot_of_namespace now t2 name r l out :
  Forall2 (λ p a, ∃ r', rsnapshot (V := V) (B := B) now p.1 p.2 = Some (r', a)) l out → NoDup l.*1 → (name, r) ∈ l →
  ∃ r' a, rsnapshot now name r = Some (r', a) ∧ omap (M := list) (kept_record t2 name) (concat out) = omap (M := list) (kept_record t2 name) a.
Proof.
  induction 1 as [|[n x] a l out [r1 Hr1] Hl IH]; [by intros _ ?%not_elem_of_nil|]. rewrite fmap_cons. intros [Hn Hnd]%NoDup_cons Hin. cbn [concat]. rewrite omap_app. cbn [fst snd] in *. apply elem_of_cons in Hin as [[= -> ->]|Hin].
  - exists r1, a. split; [done|]. rewrite (kept_other t2 n (concat out)); [by rewrite app_nil_r|]. intros y Hy. apply list_elem_of_In, in_concat in Hy as (a' & Ha' & Hy). apply list_elem_of_In in Ha', Hy.
    apply list_elem_of_lookup in Ha' as [i Hi]. destruct (Forall2_lookup_r _ _ _ _ _ Hl Hi) as ([n' x'] & Hi' & r2 & Hr2). cbn in Hr2. rewrite (rsnapshot_namespace _ _ _ _ _ Hr2 y Hy). intros <-. apply Hn, list_elem_of_fmap. exists (n', x'). split; [done|]. by eapply list_elem_of_lookup_2.
  - destruct (IH Hnd Hin) as (r2 & a2 & E & Ho). exists r2, a2. split; [done|]. rewrite (kept_other t2 name a), Ho; [done|]. intros y Hy. rewrite (rsnapshot_namespace _ _ _ _ _ Hr1 y Hy). intros ->. apply Hn, list_elem_of_fmap. by exists (name, r).
Qed.

Definition fresh_registry : registry V B := mkRegistry ∅ ∅ false.

Lemma restore_empty records now : ∃ R, restoreAt fresh_registry records now = Some (R, true) ∧ entries R = ∅ ∧ ∀ name, pending_of R name = omap (M := list) (kept_record now name) records.
Proof.
  unfold restoreAt. cbn [loaded fresh_registry entries]. unfold each_entry. cbn [entries]. rewrite map_to_list_empty. cbn [each mbind option_bind entries pending]. eexists. split; [reflexivity|]. cbn [entries]. split; [done|].
  intros name. unfold pending_of. cbn [pending]. pose proof (keep_fold now name records ∅) as Hk. rewrite lookup_empty in Hk. cbn [from_option app] in Hk. rewrite <- Hk. f_equal. rewrite map_lookup_filter. destruct (foldl _ _ _ !! name) as [l|]; [|done]. cbn. by rewrite option_guard_True.
Qed.
End registry_restart.

Lemma length_omap_le {A C} (f : A → option C) (l : list A) : (length (omap f l) ≤ length l)%nat.
Proof. induction l as [|a l IH]; [done|]. change (omap f (a :: l)) with (match f a with Some y => y :: omap f l | None => omap f l end). destruct (f a); cbn [length]; lia. Qed.

(** A record written after 1970 and not in the future keeps its time. *)
Lemma recordUpdatedAt_keeps x now : 0 ≤ now → rUpdatedAt x ≤ now → now - RetentionPeriod < rUpdatedAt x → recordUpdatedAt x now = rUpdatedAt x.
Proof.
  intros H0 H1 H2. unfold recordUpdatedAt. rewrite (proj2 (Z.eqb_neq (rUpdatedAt x) zeroTime)) by (unfold RetentionPeriod, zeroTime in *; lia). by rewrite (proj2 (Z.ltb_ge _ _)) by lia.
Qed.

(** What waits for a namespace after a restart: the values of its cache. *)
Lemma waiting_records {V B} `{!Backend string (storedValue V) B} ok view `{!BackendLaws ok view} t t2 name (r r' : registered V B) a :
  ok (data (rcache r)) → tidy (rcache r) → rsnapshot t name r = Some (r', a) → 0 ≤ t → t ≤ t2 → (∀ k y, view (data (rcache r)) k = Some y → updatedAt y.1 ≤ t2) →
  let xs := omap (M := list) (kept_record t2 name) a in
  NoDup (rKey <$> xs) ∧ Forall (λ x, t2 - RetentionPeriod < rUpdatedAt x) xs
  ∧ ∀ x, x ∈ xs ↔ ∃ v due bytes, view (data (rcache r)) (rKey x) = Some (mkStored v (rUpdatedAt x), due) ∧ encode r v = Some bytes
      ∧ x = mkRecord name (rKey x) bytes due (rUpdatedAt x) ∧ t2 - RetentionPeriod < rUpdatedAt x.
Proof.
  intros Hok HT E H0 Ht Hpast xs. unfold rsnapshot in E. destruct (Snapshot t (rcache r)) as [[c' l]|] eqn:Es; [|done]. cbn [mbind option_bind] in E. injection E as _ Ha. unfold Snapshot in Es.
  destruct (snapshot_spec ok view _ _ _ _ Hok HT Es) as (_ & _ & S1 & S2). pose proof (snapshot_nodup ok view _ _ _ _ Hok Es) as Hnd.
  assert (∀ x, x ∈ xs ↔ ∃ v due bytes, view (data (rcache r)) (rKey x) = Some (mkStored v (rUpdatedAt x), due) ∧ encode r v = Some bytes
      ∧ x = mkRecord name (rKey x) bytes due (rUpdatedAt x) ∧ t2 - RetentionPeriod < rUpdatedAt x) as Hxs.
  { intros x. unfold xs. rewrite list_elem_of_omap. subst a. split.
    - intros (y & Hy & Hk). apply list_elem_of_omap in Hy as (i & Hi & Hrec). apply S2 in Hi as (k & [[v u] due] & Hs & ->). apply S1 in Hs as [Hs Hu]. pose proof (Hpast _ _ Hs) as Hp. cbn in Hu, Hp.
      unfold record_of in Hrec. cbn in Hrec. destruct (encode r v) as [bytes|] eqn:Ee; [|done]. cbn in Hrec. injection Hrec as <-. unfold kept_record in Hk. cbn [Namespace] in Hk. rewrite bool_decide_true in Hk by done. cbn [andb] in Hk.
      destruct (Z.ltb_spec (t2 - RetentionPeriod) (recordUpdatedAt (mkRecord name k bytes due u) t2)) as [Hr|Hr]; [|done]. injection Hk as <-. cbn [rKey rUpdatedAt rValue rDue].
      assert (recordUpdatedAt (mkRecord name k bytes due u) t2 = u) as Hrec.
      { unfold recordUpdatedAt. cbn [rUpdatedAt rDue]. unfold recordUpdatedAt in Hr. cbn [rUpdatedAt rDue] in Hr. destruct (Z.eqb_spec u zeroTime); [unfold RetentionPeriod, zeroTime in *; lia|]. by rewrite (proj2 (Z.ltb_ge _ _)) in * by lia. }
      rewrite Hrec in *. by exists v, due, bytes.
    - intros (v & due & bytes & Hs & Ee & Hx & Hr). pose proof (Hpast _ _ Hs) as Hp. cbn in Hp. exists x. split.
      + apply list_elem_of_omap. exists (item (rKey x) (mkStored v (rUpdatedAt x), due)). split; [apply S2; eexists _, _; split; [apply S1; split; [exact Hs|cbn; lia]|done]|]. unfold record_of. cbn. rewrite Ee. cbn. by rewrite <- Hx.
      + unfold kept_record. rewrite recordUpdatedAt_keeps by (done || lia). rewrite (proj2 (Z.ltb_lt _ _)) by done. rewrite bool_decide_true by (by rewrite Hx). cbn. by destruct x. }
  split_and!; [|apply list.Forall_forall; intros x Hx; apply Hxs in Hx as (? & ? & ? & ? & ? & ? & ?); done|done].
  unfold xs. apply NoDup_omap_keys with (g := rKey); [intros y x; unfold kept_record; by case_match; intros [= <-]|]. rewrite <- Ha. apply NoDup_omap_keys with (g := Key); [|done].
  intros i x. unfold record_of. destruct (encode r (Value i)); cbn; [by intros [= <-]|done].
Qed.

(** C24. Restarting keeps the caches: the records written by a snapshot of the registry at
    [t], restored by a fresh process at [t2] and picked up by the cache that attaches to
    their namespace, give it exactly the values of the old cache that can be encoded and
    are younger than 30 days, each with the time of its last update and its deadline in
    seconds; a snapshot does not make anything younger. *)
Theorem snapshot_restore_roundtrip {V B} `{!Backend string (storedValue V) B} ok view room `{!BackendLaws ok view} `{!BackendRoom ok view room}
    (R R1 R2 R3 : registry V B) records t t2 name r b c3 enc dec :
  registry_ok ok R → entries R !! name = Some r → (∀ n x, x ∈ pending_of R n → Namespace x ≠ name) →
  (∀ v bytes, encode r v = Some bytes → dec bytes = Some v) → (∀ k y, view (data (rcache r)) k = Some y → updatedAt y.1 ≤ t2) →
  0 ≤ t → t ≤ t2 → snapshotAt R t = Some (R1, records) → Z.of_nat (length records) ≤ room →
  restoreAt fresh_registry records t2 = Some (R2, true) → ok b → (∀ k, view b k = None) → Attach t2 R2 name (New b) enc dec = Some (R3, c3) →
  ∀ k v u d, view (data c3) k = Some (mkStored v u, d) ↔
    ∃ due, view (data (rcache r)) k = Some (mkStored v u, due) ∧ is_Some (encode r v) ∧ t2 - RetentionPeriod < u ∧ d = seconds due.
Proof.
  intros HR Hr Hpend Hcodec Hpast H0 Ht Hsnap Hroom Hres Hb Hempty Hatt. destruct (HR name r Hr) as [Hok HT].
  unfold snapshotAt, each_entry in Hsnap. destruct (each (rsnapshot t) _ _) as [[m ls]|] eqn:Ee; [|done]. cbn [mbind option_bind pending] in Hsnap. injection Hsnap as _ Hrec.
  destruct (snapshot_of_namespace t t2 name r _ _ (each_forall2 _ _ _ _ _ Ee) (NoDup_fst_map_to_list _)) as (r' & a & Hrs & Ho); [by apply elem_of_map_to_list|].
  destruct (restore_empty (V := V) (B := B) records t2) as (R2' & E2 & En2 & P2). rewrite E2 in Hres. injection Hres as ->. specialize (P2 name).
  assert (pending_of R2 name = omap (M := list) (kept_record t2 name) a) as HP.
  { rewrite P2, <- Hrec, omap_app, Ho. rewrite (kept_other t2 name (concat _)); [by rewrite app_nil_r|]. intros x Hx. apply list_elem_of_In, in_concat in Hx as (l' & Hl' & Hx). apply list_elem_of_In in Hl', Hx. apply list_elem_of_fmap in Hl' as ([n l2] & -> & Hin).
    apply elem_of_map_to_list, map_lookup_filter_Some in Hin as [Hin _]. rewrite lookup_fmap in Hin. destruct (pending R !! n) as [l3|] eqn:El; [|done]. cbn in Hin. injection Hin as <-. apply list_elem_of_filter in Hx as [_ Hx]. apply (Hpend n). unfold pending_of. by rewrite El. }
  assert (Z.of_nat (length (pending_of R2 name)) ≤ room) as Hlen by (rewrite P2; pose proof (length_omap_le (kept_record t2 name) records); lia).
  destruct (waiting_records ok view t t2 name r r' a Hok HT Hrs H0 Ht Hpast) as (N1 & N2 & N3). rewrite <- HP in N1, N2, N3.
  assert (∀ k y, view (data c3) k = Some y ↔ restored (mkRegistered (New b) enc dec) (pending_of R2 name) k y) as Hc3.
  { unfold Attach in Hatt. rewrite En2, lookup_empty in Hatt. destruct (pending_of R2 name) as [|x xs] eqn:Ep.
    - injection Hatt as _ <-. intros k y. cbn. rewrite Hempty. split; [done|]. intros (x & _ & Hx & _). by apply not_elem_of_nil in Hx.
    - unfold rload in Hatt. destruct (load_records t2 _ _ _) as [c'|] eqn:El; [|done]. cbn [mbind option_bind] in Hatt. injection Hatt as _ <-. cbn [rcache set_rcache] in *. intros k y.
      destruct (initial_good (K := string) (V := V) ok b Hb) as [_ T0 _ _]. cbn in T0. assert (∀ k', see view (New (V := V) b) k' = None) as Hs0 by (intros k'; apply Hempty).
      assert (see view c' k = Some y ↔ see view (New (V := V) b) k = Some y ∨ restored (mkRegistered (New b) enc dec) (x :: xs) k y) as HL.
      { apply (load_fresh ok view room t2 _ (x :: xs) (New b) c' []); try done. by intros k' [? Hk']; rewrite Hs0 in Hk'. }
      rewrite Hs0 in HL. unfold see in HL. rewrite HL. split; [by intros [?|?]|by right]. }
  intros k v u d. rewrite Hc3. unfold restored. split.
  - intros (x & v1 & Hx & Hk & Hd & Hy). apply N3 in Hx as (v2 & due & bytes & Hs & Hen & Hxe & Hu). destruct x as [n0 k0 bs d0 u0]. cbn in *. injection Hxe as -> -> ->. rewrite (Hcodec _ _ Hen) in Hd. injection Hd as ->. injection Hy as -> -> ->. subst k0. exists due. split_and!; [done|by eexists|done|done].
  - intros (due & Hs & [bytes Hen] & Hu & ->). exists (mkRecord name k bytes due u), v. split_and!; [|done|by apply Hcodec|done]. apply N3. cbn. by exists v, due, bytes.
Qed.

(** ** A concrete registry *)

Lemma nothing_pending {V B} `{!Backend string (storedValue V) B} (R : registry V B) : pending R = ∅ → ∀ n x, x ∉ pending_of R n.
Proof. intros Hp n x. unfold pending_of. rewrite Hp, lookup_empty. apply not_elem_of_nil. Qed.

Abbreviation lru_strings := (lru_state (K := string) (V := storedValue nat)).

Definition enc_nat (n : nat) : option (list ascii) := Some (repeat (byte_of 97) n).
Definition dec_nat (l : list ascii) : option nat := Some (length l).

Definition demo_sys : option (sys string nat lru_strings) :=
  run 0%nat (initial (lru_new 4)) [(100 * day, OSet (ScopedKey "wifi" "a") 7%nat (101 * day)); (100 * day, OSet (ScopedKey "sim" "b") 8%nat (101 * day))].
Definition demo_cache : Cache string nat lru_strings := match demo_sys with Some s => cache s | None => New (lru_new 4) end.
Definition demo_registry : registry nat lru_strings := mkRegistry {["dns" := mkRegistered demo_cache enc_nat dec_nat]} ∅ true.

Lemma demo_ok : lru_ok 4 (data demo_cache) ∧ tidy demo_cache.
Proof.
  unfold demo_cache, demo_sys. destruct (run 0%nat (initial (lru_new 4)) _) as [s|] eqn:E; [|by vm_compute in E].
  destruct (run_good 0%nat (lru_ok 4) lru_view _ _ s (initial_good (lru_ok 4) (lru_new 4) (proj1 (lru_new_ok 4))) E) as [[O1 T1 _ _] _]. done.
Qed.

Lemma demo_registry_ok : registry_ok (lru_ok 4) demo_registry.
Proof. intros name r Hr. cbn [entries demo_registry] in Hr. apply lookup_singleton_Some in Hr as [_ <-]. apply demo_ok. Qed.

Lemma evict_scope_complete_witness :
  ∃ R' n, EvictScope 0%nat (110 * day) demo_registry "wifi" = Some (R', n) ∧ n = 1
    ∧ ∀ r', entries R' !! "dns" = Some r' → lru_view (data (rcache r')) (ScopedKey "wifi" "a") = None.
Proof.
  destruct (EvictScope 0%nat (110 * day) demo_registry "wifi") as [[R' n]|] eqn:E; [|by vm_compute in E].
  destruct (evict_scope_complete 0%nat (lru_ok 4) lru_view (110 * day) demo_registry R' "wifi" n demo_registry_ok) as (W & _); [by vm_compute|done|].
  exists R', n. split_and!; [done|by vm_compute in E; injection E as _ <-|]. intros r' Hr'. by apply (W "dns" r' "a").
Defined.

Definition demo_records : list Record_ := match snapshotAt demo_registry (110 * day) with Some (_, l) => l | None => [] end.

(** Saved on day 110, restored on day 120. *)
Lemma snapshot_restore_roundtrip_witness :
  ∃ R2 R3 c3, restoreAt fresh_registry demo_records (120 * day) = Some (R2, true)
    ∧ Attach (120 * day) R2 "dns" (New (lru_new 4 : lru_strings)) enc_nat dec_nat = Some (R3, c3)
    ∧ lru_view (data c3) (ScopedKey "wifi" "a") = Some (mkStored 7%nat (100 * day), 101 * day).
Proof.
  destruct (lru_new_ok (K := string) (V := storedValue nat) 4) as [Hok Hv].
  destruct (snapshotAt demo_registry (110 * day)) as [[R1 l]|] eqn:E1; [|by vm_compute in E1]. assert (l = demo_records) as -> by (unfold demo_records; by rewrite E1).
  destruct (restoreAt (fresh_registry (V := nat) (B := lru_strings)) demo_records (120 * day)) as [[R2 b]|] eqn:E2; [|by vm_compute in E2].
  assert (b = true) as -> by (vm_compute in E2; by injection E2). destruct (Attach (120 * day) R2 "dns" (New (lru_new 4)) enc_nat dec_nat) as [[R3 c3]|] eqn:E3; [|by vm_compute in E2; injection E2 as <-; vm_compute in E3].
  exists R2, R3, c3. split_and!; [done|done|].
  assert (entries demo_registry !! "dns" = Some (mkRegistered demo_cache enc_nat dec_nat)) as Hr by apply lookup_singleton_eq.
  assert (∀ n x, x ∈ pending_of demo_registry n → Namespace x ≠ "dns") as Hpend by (intros n x Hx; by destruct (nothing_pending demo_registry eq_refl n x)).
  assert (∀ v bytes, enc_nat v = Some bytes → dec_nat bytes = Some v) as Hcodec by (intros v bytes [= <-]; unfold dec_nat; by rewrite repeat_length).
  assert (∀ k y, lru_view (data demo_cache) k = Some y → updatedAt y.1 ≤ 120 * day) as Hpast.
  { intros k y (e & He & _ & <-)%(lru_view_elem 4 _ _ _ (proj1 demo_ok)). vm_compute in He. repeat (apply elem_of_cons in He as [->|He]; [by vm_compute|]). exfalso. exact (not_elem_of_nil _ He). }
  apply (proj2 (snapshot_restore_roundtrip (lru_ok 4) lru_view 4 demo_registry R1 R2 R3 demo_records (110 * day) (120 * day) "dns" (mkRegistered demo_cache enc_nat dec_nat) (lru_new 4) c3 enc_nat dec_nat
    demo_registry_ok Hr Hpend Hcodec Hpast ltac:(by vm_compute) ltac:(by vm_compute) E1 ltac:(by vm_compute) E2 Hok Hv E3 (ScopedKey "wifi" "a") 7%nat (100 * day) (101 * day))).
  exists (101 * day). split_and!; [vm_compute; reflexivity|by eexists|vm_compute; reflexivity|vm_compute; reflexivity].
Defined.
