(* ===== verification/OverridePath.v ===== *)
(** * [adapter/provider/override_expr.go]: documents and the paths into them

    An override expression changes the mapping of a proxy before the proxy is made.  A
    value is [nil], a scalar (any Go value that is neither a mapping nor an array), an
    array or a mapping; a mapping is the list of its entries in the order of their keys,
    the order in which the code visits them whenever it matters.  Documents are trees:
    the code updates them in place, and its result is the value of the tree it updated. *)

From Stdlib Require Import ZArith Lia String.
From stdpp Require Import base strings numbers list.
From S2P Require Import Prelude.
#[local] Open Scope Z_scope.

Inductive overridePathSegment := Field (key : string) | Index (index : Z) | Wildcard.
Abbreviation path := (list overridePathSegment).

(** An error is its format and arguments; [Wrapf] adds context to a cause. *)
Inductive error :=
| IndexOutOfRange (i : Z)
| Errorf (format : string) (args : list string)
| Wrapf (format : string) (args : list string) (cause : error).

Section values.
Context {S : Type}.

Inductive value := VNull | VScalar (s : S) | VArr (l : list value) | VMap (m : list (string * value)).

(** ** Mappings *)

Fixpoint mget (m : list (string * value)) (k : string) : option value :=
  match m with
  | [] => None
  | (k', v) :: m => if bool_decide (k = k') then Some v else mget m k
  end.

(** [m[k] = v] *)
Fixpoint mset (m : list (string * value)) (k : string) (v : value) : list (string * value) :=
  match m with
  | [] => [(k, v)]
  | (k', v') :: m =>
      if bool_decide (k = k') then (k, v) :: m
      else if String.ltb k k' then (k, v) :: (k', v') :: m
      else (k', v') :: mset m k v
  end.

(** [m[k]] of an absent key is [nil]. *)
Definition field (m : list (string * value)) (k : string) : value := default VNull (mget m k).

Fixpoint cloneOverrideValue (v : value) : value :=
  match v with
  | VMap m => VMap ((fix go m := match m with [] => [] | (k, v) :: m => (k, cloneOverrideValue v) :: go m end) m)
  | VArr l => VArr ((fix go l := match l with [] => [] | v :: l => cloneOverrideValue v :: go l end) l)
  | v => v
  end.

(** ** Paths *)

(** A negative index counts from the end. *)
Definition resolve_index (i : Z) (len : nat) : Z := if i <? 0 then i + Z.of_nat len else i.
Definition in_range (i : Z) (len : nat) : bool := (0 <=? i) && (i <? Z.of_nat len).

Fixpoint lookupOverridePathStream (v : value) (p : path) : list value :=
  match p with
  | [] => [v]
  | Field k :: p => match v with VMap m => lookupOverridePathStream (field m k) p | _ => [VNull] end
  | Index i :: p =>
      match v with
      | VArr l =>
          let i := resolve_index i (length l) in
          if in_range i (length l) then lookupOverridePathStream (nth (Z.to_nat i) l VNull) p else [VNull]
      | _ => [VNull]
      end
  | Wildcard :: p =>
      match v with
      | VArr l => concat ((λ x, lookupOverridePathStream x p) <$> l)
      | VMap m => concat ((λ e, lookupOverridePathStream e.2 p) <$> m)
      | _ => []
      end
  end.

(** An update of each element in turn; the first error ends it.  The code visits a
    mapping in no fixed order here, the model in the order of the keys: the order decides
    only which of several errors is the one reported. *)
Fixpoint update_list (f : value → result error value) (l : list value) : result error (list value) :=
  match l with
  | [] => Ok []
  | v :: l => let! v := f v in let! l := update_list f l in Ok (v :: l)
  end.
Fixpoint update_map (f : value → result error value) (m : list (string * value)) : result error (list (string * value)) :=
  match m with
  | [] => Ok []
  | (k, v) :: m => let! v := f v in let! m := update_map f m in Ok ((k, v) :: m)
  end.

(** [for len(array) <= index { array = append(array, nil) }] *)
Definition extend (l : list value) (n : nat) : list value := l ++ replicate (n + 1 - length l) VNull.

Fixpoint updateOverridePath (v : value) (p : path) (updater : value → result error value) : result error value :=
  match p with
  | [] => updater v
  | Field k :: p =>
      match (match v with VNull => VMap [] | v => v end) with
      | VMap m => let! x := updateOverridePath (field m k) p updater in Ok (VMap (mset m k x))
      | v => Ok v
      end
  | Index i :: p =>
      match (match v with VNull => VArr [] | v => v end) with
      | VArr l =>
          let j := resolve_index i (length l) in
          if j <? 0 then Err (IndexOutOfRange i)
          else
            let l := extend l (Z.to_nat j) in
            let! x := updateOverridePath (nth (Z.to_nat j) l VNull) p updater in
            Ok (VArr (<[Z.to_nat j := x]> l))
      | v => Ok v
      end
  | Wildcard :: p =>
      match v with
      | VArr l => let! l := update_list (λ x, updateOverridePath x p updater) l in Ok (VArr l)
      | VMap m => let! m := update_map (λ x, updateOverridePath x p updater) m in Ok (VMap m)
      | v => Ok v
      end
  end.

(** ** Selected targets *)

Record overrideTargetSelection := mkSelection { sel_value : value; sel_path : path }.

Fixpoint expandOverrideTargetPath (s : overrideTargetSelection) (p : path) : list overrideTargetSelection :=
  match p with
  | [] => [s]
  | Field k :: p =>
      match sel_value s with
      | VNull => expandOverrideTargetPath (mkSelection VNull (sel_path s ++ [Field k])) p
      | VMap m => expandOverrideTargetPath (mkSelection (field m k) (sel_path s ++ [Field k])) p
      | _ => []
      end
  | Index i :: p =>
      match sel_value s with
      | VNull => expandOverrideTargetPath (mkSelection VNull (sel_path s ++ [Index i])) p
      | VArr l =>
          let j := resolve_index i (length l) in
          if j <? 0 then []
          else expandOverrideTargetPath (mkSelection (nth (Z.to_nat j) l VNull) (sel_path s ++ [Index j])) p
      | _ => []
      end
  | Wildcard :: p =>
      match sel_value s with
      | VArr l => concat (imap (λ i x, expandOverrideTargetPath (mkSelection x (sel_path s ++ [Index (Z.of_nat i)])) p) l)
      | VMap m => concat ((λ e, expandOverrideTargetPath (mkSelection e.2 (sel_path s ++ [Field e.1])) p) <$> m)
      | _ => []
      end
  end.

(** A stage follows a path or keeps what satisfies a condition; [nil] and [false] do not. *)
Inductive overrideTargetStage := StagePath (p : path) | StageCondition (cond : value → result error (list value)).

Fixpoint keep_selections (truthy : value → bool) (cond : value → result error (list value)) (ss : list overrideTargetSelection) : result error (list overrideTargetSelection) :=
  match ss with
  | [] => Ok []
  | s :: ss =>
      let! matches := cond (sel_value s) in
      let! ss := keep_selections truthy cond ss in
      Ok (if existsb truthy matches then s :: ss else ss)
  end.

Fixpoint resolve_stages (truthy : value → bool) (stages : list overrideTargetStage) (ss : list overrideTargetSelection) : result error (list overrideTargetSelection) :=
  match stages with
  | [] => Ok ss
  | StagePath p :: stages => resolve_stages truthy stages (concat ((λ s, expandOverrideTargetPath s p) <$> ss))
  | StageCondition cond :: stages => let! ss := keep_selections truthy cond ss in resolve_stages truthy stages ss
  end.

Definition resolve (truthy : value → bool) (stages : list overrideTargetStage) (root : value) : result error (list overrideTargetSelection) :=
  resolve_stages truthy stages [mkSelection root []].

(** The updates of the selected targets, one after the other. *)
Fixpoint update_selected (v : value) (ps : list path) (updater : value → result error value) : result error value :=
  match ps with
  | [] => Ok v
  | p :: ps => let! v := updateOverridePath v p updater in update_selected v ps updater
  end.

(** ** Deletion *)

(** What the paths say about the child under a key: whether it goes, and what remains of the paths. *)
Definition key_matches (k : string) (s : overridePathSegment) : bool := match s with Wildcard => true | Field k' => bool_decide (k' = k) | Index _ => false end.
Definition index_matches (i len : nat) (s : overridePathSegment) : bool :=
  match s with Wildcard => true | Index j => resolve_index j len =? Z.of_nat i | Field _ => false end.

Definition removes (matches : overridePathSegment → bool) (ps : list path) : bool :=
  existsb (λ p, match p with [s] => matches s | _ => false end) ps.
Definition tails (matches : overridePathSegment → bool) (ps : list path) : list path :=
  omap (λ p, match p with s :: (_ :: _) as t => if matches s then Some (tail p) else None | _ => None end) ps.

Fixpoint deleteOverridePaths (v : value) (ps : list path) {struct v} : value :=
  match v with
  | VMap m =>
      VMap ((fix go m :=
        match m with
        | [] => []
        | (k, x) :: m =>
            if removes (key_matches k) ps then go m
            else (k, match tails (key_matches k) ps with [] => x | ts => deleteOverridePaths x ts end) :: go m
        end) m)
  | VArr l =>
      VArr ((fix go i l' :=
        match l' with
        | [] => []
        | x :: l' =>
            if removes (index_matches i (length l)) ps then go (Datatypes.S i) l'
            else (match tails (index_matches i (length l)) ps with [] => x | ts => deleteOverridePaths x ts end) :: go (Datatypes.S i) l'
        end) 0%nat l)
  | v => v
  end.
End values.
Arguments value : clear implicits.
Arguments overrideTargetSelection : clear implicits.
Arguments overrideTargetStage : clear implicits.
