(* ===== verification/OverridePathTheory.v ===== *)
(** * Theory of [OverridePath]

    Updates change what their path selects and nothing beside it; updating the selected
    targets one by one is updating along the path; deletion removes exactly the selected
    positions, all at once; documents stay documents. *)

From Stdlib Require Import ZArith Lia String OrdersEx.
From stdpp Require Import base strings numbers sorting list.
From S2P Require Import Prelude OverridePath.
#[local] Open Scope Z_scope.

Lemma fmap_concat {A C} (g : A → C) (ls : list (list A)) : g <$> concat ls = concat ((λ l : list A, g <$> l) <$> ls).
Proof. induction ls as [|l ls IH]; [done|]. cbn [concat]. by rewrite fmap_app, IH. Qed.

Section theory.
Context {S : Type}.
Implicit Types (v x : value S) (m : list (string * value S)) (l : list (value S)) (p : path) (f : value S → result error (value S)).

Lemma value_rect' (P : value S → Prop) :
  P VNull → (∀ s, P (VScalar s)) → (∀ l, Forall P l → P (VArr l)) → (∀ m, Forall (λ e, P e.2) m → P (VMap m)) → ∀ v, P v.
Proof.
  intros H1 H2 H3 H4. fix IH 1. intros [|s|l|m]; [done|apply H2| |].
  - apply H3. induction l as [|v l IHl]; constructor; [apply IH|done].
  - apply H4. induction m as [|[k v] m IHm]; constructor; [apply IH|done].
Qed.

(** A clone is the same value. *)
Lemma clone_id v : cloneOverrideValue v = v.
Proof.
  induction v as [|s|l IH|m IH] using value_rect'; [done|done| |]; cbn; f_equal.
  - induction IH as [|x l Hx _ IH]; [done|]. by rewrite Hx, IH.
  - induction IH as [|[k x] m Hx _ IH]; [done|]. cbn in Hx. by rewrite Hx, IH.
Qed.

(** ** Mappings *)

Lemma mget_mset m k x k' : mget (mset m k x) k' = if bool_decide (k' = k) then Some x else mget m k'.
Proof.
  induction m as [|[k0 x0] m IH]; cbn [mset]; [done|]. destruct (decide (k = k0)) as [<-|Hne].
  - rewrite bool_decide_true by done. cbn [mget]. by destruct (decide (k' = k)); [rewrite !bool_decide_true by done|rewrite !bool_decide_false by done].
  - rewrite (bool_decide_false (k = k0)) by done. destruct (String.ltb k k0); cbn [mget]; [done|]. rewrite IH. destruct (decide (k' = k0)) as [->|]; [rewrite (bool_decide_true (k0 = k0)), (bool_decide_false (k0 = k)) by done; done|by rewrite (bool_decide_false (k' = k0))].
Qed.

Lemma field_mset m k x : field (mset m k x) k = x.
Proof. unfold field. by rewrite mget_mset, bool_decide_true. Qed.
Lemma field_mset_ne m k x k' : k' ≠ k → field (mset m k x) k' = field m k'.
Proof. intros Hk. unfold field. by rewrite mget_mset, bool_decide_false. Qed.

(** ** Arrays *)

Lemma resolve_extend i l : 0 ≤ resolve_index i (length l) → resolve_index i (length (extend l (Z.to_nat (resolve_index i (length l))))) = resolve_index i (length l).
Proof.
  unfold resolve_index, extend. rewrite length_app, length_replicate. destruct (Z.ltb_spec i 0); [|done]. lia.
Qed.

Lemma extend_length l n : (n < length (extend l n))%nat ∧ (length l ≤ length (extend l n))%nat.
Proof. unfold extend. rewrite length_app, length_replicate. lia. Qed.

Lemma nth_extend l n j : nth j (extend l n) VNull = nth j l VNull.
Proof.
  unfold extend. destruct (Nat.lt_ge_cases j (length l)) as [Hj|Hj]; [by rewrite app_nth1|]. rewrite app_nth2, (nth_overflow l) by done.
  set (d := (n + 1 - length l)%nat). generalize (j - length l)%nat. clear. induction d as [|d IH]; intros [|j]; cbn; [done|done|done|apply IH].
Qed.

Lemma nth_insert l i x j : (i < length l)%nat → nth j (<[i := x]> l) VNull = if decide (i = j) then x else nth j l VNull.
Proof.
  intros Hi. rewrite !nth_lookup. destruct (decide (i = j)) as [<-|Hj]; [by rewrite list_lookup_insert_eq|by rewrite list_lookup_insert_ne].
Qed.

Lemma in_range_true j n : 0 ≤ j → j < Z.of_nat n → in_range j n = true.
Proof. intros. unfold in_range. apply andb_true_iff. rewrite Z.leb_le, Z.ltb_lt. lia. Qed.

(** ** Updating and reading back *)

Definition nowild p : bool := forallb (λ s, match s with Wildcard => false | _ => true end) p.

(** Following a path through [nil]: fields and positive indexes are created, a wildcard
    finds nothing. *)
Definition creatable p : bool := nowild p && forallb (λ s, match s with Index i => 0 <=? i | _ => true end) p.

(** Every step of the path finds a collection of its kind, or [nil]. *)
Fixpoint reaches v p : bool :=
  match p with
  | [] => true
  | Field k :: p' => match v with VNull => creatable p' | VMap m => reaches (field m k) p' | _ => false end
  | Index i :: p' =>
      match v with
      | VNull => creatable p
      | VArr l =>
          let j := resolve_index i (length l) in
          (0 <=? j) && (if in_range j (length l) then reaches (nth (Z.to_nat j) l VNull) p' else creatable p')
      | _ => false
      end
  | Wildcard :: p' => match v with VArr l => forallb (λ x, reaches x p') l | VMap m => forallb (λ e, reaches e.2 p') m | _ => true end
  end.

Lemma creatable_reaches p : creatable p = true → reaches VNull p = true.
Proof. destruct p as [|[k|i|] p]; cbn; [done| |done|done]. unfold creatable. cbn. done. Qed.

Lemma creatable_tail s p : creatable (s :: p) = true → creatable p = true.
Proof. unfold creatable. cbn. intros [H1 H2]%andb_true_iff. apply andb_true_iff in H1 as [_ H1], H2 as [_ H2]. apply andb_true_iff. done. Qed.

Lemma lookup_null p : nowild p = true → lookupOverridePathStream (@VNull S) p = [VNull].
Proof. by destruct p as [|[k|i|] p]. Qed.

Lemma update_list_app f l1 l2 : update_list f (l1 ++ l2) = (let! a := update_list f l1 in let! b := update_list f l2 in Ok (a ++ b)).
Proof.
  induction l1 as [|x l1 IH]; cbn [app update_list]; [by destruct (update_list f l2)|]. destruct (f x) as [y|e]; [|done]. rewrite IH. destruct (update_list f l1); [|done]. by destruct (update_list f l2).
Qed.
Abbreviation look := lookupOverridePathStream.
Abbreviation upd := updateOverridePath.

(** The part of an array behind an index, before and after an update there. *)
Lemma look_inserted l i j x p : resolve_index i (length l) = j → 0 ≤ j → look (VArr (<[Z.to_nat j := x]> (extend l (Z.to_nat j)))) (Index i :: p) = look x p.
Proof.
  intros <- Hj. cbn [lookupOverridePathStream]. rewrite length_insert, resolve_extend by done. set (j := resolve_index i (length l)) in *. destruct (extend_length l (Z.to_nat j)) as [He _].
  rewrite in_range_true by lia. by rewrite nth_insert, decide_True by (done || lia).
Qed.

(** Reading along the path after an update gives the old values, each updated, in the old
    order; the first error is the same. *)
Lemma update_reads p : ∀ v f, reaches v p = true → (let! w := upd v p f in Ok (look w p)) = update_list f (look v p).
Proof.
  induction p as [|[k|i|] p IH]; intros v f Hr; [cbn; by destruct (f v)|..].
  - cbn [reaches] in Hr. destruct v as [|s|l|m]; [|done|done|].
    + specialize (IH VNull f (creatable_reaches _ Hr)). cbn [updateOverridePath lookupOverridePathStream]. change (field [] k) with (@VNull S). rewrite <- (lookup_null p), <- IH by (by apply andb_true_iff in Hr as [? _]).
      destruct (upd VNull p f) as [x|e]; [|done]. cbn [lookupOverridePathStream]. by rewrite field_mset.
    + specialize (IH (field m k) f Hr). cbn [updateOverridePath lookupOverridePathStream]. rewrite <- IH. destruct (upd (field m k) p f) as [x|e]; [|done]. cbn [lookupOverridePathStream]. by rewrite field_mset.
  - assert (∀ l, 0 ≤ resolve_index i (length l) → reaches (nth (Z.to_nat (resolve_index i (length l))) l VNull) p = true →
      (let! w := upd (VArr l) (Index i :: p) f in Ok (look w (Index i :: p))) = update_list f (look (nth (Z.to_nat (resolve_index i (length l))) l VNull) p)) as Harr.
    { intros l Hj Hx. cbn [updateOverridePath]. rewrite (proj2 (Z.ltb_ge _ _)) by done. rewrite nth_extend, <- (IH _ f Hx). destruct (upd _ p f) as [x|e]; [|done]. by rewrite (look_inserted l i _ x p eq_refl Hj). }
    destruct v as [|s|l|m]; [|done| |done].
    + cbn [reaches] in Hr. pose proof (creatable_tail _ _ Hr) as Hp. unfold creatable in Hr. cbn in Hr. assert (0 ≤ i) as Hi by (apply andb_true_iff in Hr as [_ Hr]; apply andb_true_iff in Hr as [Hr _]; lia).
      assert (resolve_index i 0 = i) as Hres by (unfold resolve_index; by rewrite (proj2 (Z.ltb_ge i 0))). specialize (Harr []). cbn [length] in Harr. rewrite Hres in Harr. change (upd VNull (Index i :: p) f) with (upd (VArr []) (Index i :: p) f).
      assert (nth (Z.to_nat i) [] (@VNull S) = VNull) as Hn by (by destruct (Z.to_nat i)). rewrite Hn in Harr. rewrite Harr by (done || by apply creatable_reaches). cbn [lookupOverridePathStream]. rewrite lookup_null; [done|]. by apply andb_true_iff in Hp as [? _].
    + cbn [reaches] in Hr. apply andb_true_iff in Hr as [Hj%Z.leb_le Hr]. destruct (in_range (resolve_index i (length l)) (length l)) eqn:Er; [rewrite Harr by done; cbn [lookupOverridePathStream]; by rewrite Er|].
      assert (nth (Z.to_nat (resolve_index i (length l))) l VNull = VNull) as Hn by (apply nth_overflow; unfold in_range in Er; rewrite (proj2 (Z.leb_le _ _)) in Er by done; cbn in Er; lia).
      specialize (Harr l). rewrite Hn in Harr. rewrite Harr by (done || by apply creatable_reaches). cbn [lookupOverridePathStream]. rewrite Er, lookup_null; [done|]. by apply andb_true_iff in Hr as [? _].
  - destruct v as [|s|l|m]; [done|done| |]; cbn [reaches] in Hr; cbn [updateOverridePath lookupOverridePathStream].
    + induction l as [|x l IHl]; [done|]. cbn [forallb] in Hr. apply andb_true_iff in Hr as [Hx Hr]. cbn [update_list]. rewrite fmap_cons. cbn [concat]. rewrite update_list_app, <- (IH x f Hx), <- (IHl Hr). destruct (upd x p f) as [y|e]; [|done]. by destruct (update_list _ l).
    + induction m as [|[k x] m IHm]; [done|]. cbn [forallb snd] in Hr. apply andb_true_iff in Hr as [Hx Hr]. cbn [update_map]. rewrite fmap_cons. cbn [concat snd]. rewrite update_list_app, <- (IH x f Hx), <- (IHm Hr). destruct (upd x p f) as [y|e]; [|done]. by destruct (update_map _ m).
Qed.

(** ** Beside the path *)

(** The paths part ways at two different keys or two different positions. *)
Fixpoint apart p (q : path) : bool :=
  match p, q with
  | Field a :: p, Field b :: q => if bool_decide (a = b) then apart p q else true
  | Index i :: p, Index j :: q => (0 <=? i) && (0 <=? j) && (if i =? j then apart p q else true)
  | _, _ => false
  end.

Lemma update_beside p : ∀ q v f v', apart p q = true → nowild q = true → upd v p f = Ok v' → look v' q = look v q.
Proof.
  induction p as [|[k|i|] p IH]; intros [|[k'|i'|] q] v f v' Ha Hq E; try done; cbn [apart] in Ha; cbn [nowild forallb] in Hq; fold (nowild q) in Hq.
  - assert (∀ m, upd (VMap m) (Field k :: p) f = Ok v' → look v' (Field k' :: q) = look (field m k') q) as Hm.
    { intros m. cbn [updateOverridePath]. destruct (upd (field m k) p f) as [x|e] eqn:Ex; [|done]. intros [= <-]. cbn [lookupOverridePathStream]. destruct (decide (k = k')) as [<-|Hk].
      - rewrite bool_decide_true in Ha by done. rewrite field_mset. by eapply IH.
      - by rewrite field_mset_ne. }
    destruct v as [|s|l|m]; [|cbn in E; by injection E as <-|cbn in E; by injection E as <-|by apply Hm].
    rewrite (Hm [] E). cbn. by rewrite lookup_null.
  - apply andb_true_iff in Ha as [Hi Ha]. apply andb_true_iff in Hi as [Hi%Z.leb_le Hi'%Z.leb_le].
    assert (∀ n, resolve_index i n = i ∧ resolve_index i' n = i') as Hres by (intros n; unfold resolve_index; by rewrite !(proj2 (Z.ltb_ge _ _)) by done).
    assert (∀ l, upd (VArr l) (Index i :: p) f = Ok v' → look v' (Index i' :: q) = look (nth (Z.to_nat i') l VNull) q) as Hm.
    { intros l. cbn [updateOverridePath]. rewrite (proj1 (Hres _)), (proj2 (Z.ltb_ge _ _)), nth_extend by done. destruct (upd (nth (Z.to_nat i) l VNull) p f) as [x|e] eqn:Ex; [|done]. intros [= <-]. destruct (extend_length l (Z.to_nat i)) as [He _].
      destruct (Z.eqb_spec i i') as [<-|Hne].
      - rewrite (look_inserted l i i x q (proj1 (Hres _)) Hi). by eapply IH.
      - cbn [lookupOverridePathStream]. rewrite length_insert, (proj2 (Hres _)), nth_insert, decide_False, nth_extend by (done || lia). destruct (in_range i' _) eqn:Er; [done|].
        rewrite nth_overflow; [by rewrite lookup_null|]. unfold in_range in Er. rewrite (proj2 (Z.leb_le _ _)) in Er by done. cbn in Er. destruct (extend_length l (Z.to_nat i)). lia. }
    destruct v as [|s|l|m]; [|cbn in E; by injection E as <-| |cbn in E; by injection E as <-].
    + rewrite (Hm [] E). cbn [lookupOverridePathStream]. assert (nth (Z.to_nat i') [] (@VNull S) = VNull) as -> by (by destruct (Z.to_nat i')). by rewrite lookup_null.
    + rewrite (Hm l E). cbn [lookupOverridePathStream]. rewrite (proj2 (Hres _)). destruct (in_range i' (length l)) eqn:Er; [done|]. rewrite nth_overflow; [by rewrite lookup_null|]. unfold in_range in Er. rewrite (proj2 (Z.leb_le _ _)) in Er by done. cbn in Er. lia.
Qed.

(** ** Well-formed documents: the keys of a mapping are distinct and in order, and the
    scalars satisfy a condition (none for [wf]) *)

Definition key_lt (a b : string) : Prop := String.ltb a b = true.

Fixpoint wfs (P : S → Prop) v : Prop :=
  match v with
  | VArr l => (fix go l := match l with [] => True | x :: l => wfs P x ∧ go l end) l
  | VMap m => StronglySorted key_lt m.*1 ∧ (fix go m := match m with [] => True | (_, x) :: m => wfs P x ∧ go m end) m
  | VScalar s => P s
  | VNull => True
  end.
Abbreviation wf := (wfs (λ _, True)).

Lemma wf_arr (P : S → Prop) l : wfs P (VArr l) ↔ Forall (wfs P) l.
Proof. cbn [wfs]. induction l as [|x l IH]; [by split|]. by rewrite list.Forall_cons, <- IH. Qed.
Lemma wf_map (P : S → Prop) m : wfs P (VMap m) ↔ StronglySorted key_lt m.*1 ∧ Forall (λ e, wfs P e.2) m.
Proof.
  cbn [wfs]. enough ((fix go m := match m with [] => True | (_, x) :: m => wfs P x ∧ go m end) m ↔ Forall (λ e, wfs P e.2) m) as -> by done.
  induction m as [|[k x] m IH]; [by split|]. by rewrite list.Forall_cons, <- IH.
Qed.

Lemma key_lt_compare a b : key_lt a b ↔ String.compare a b = Lt.
Proof. unfold key_lt, String.ltb. by destruct (String.compare a b). Qed.
Lemma key_lt_flip a b : key_lt a b → String.ltb b a = false ∧ b ≠ a.
Proof.
  rewrite key_lt_compare. intros H1. unfold String.ltb. rewrite String.compare_antisym, H1. split; [done|]. intros ->. pose proof (String.compare_antisym a a) as H2. by rewrite H1 in H2.
Qed.
Lemma key_lt_trans a b d : key_lt a b → key_lt b d → key_lt a d.
Proof. rewrite !key_lt_compare. apply String_as_OT.lt_strorder. Qed.
Lemma key_lt_total a b : a ≠ b → String.ltb a b = false → key_lt b a.
Proof.
  intros Hne. rewrite key_lt_compare. unfold String.ltb. rewrite (String.compare_antisym b a). destruct (String.compare a b) eqn:E; [|done|done]. by apply String.compare_eq_iff in E.
Qed.

(** Writing to a key that is there changes the entry in place. *)
Lemma mset_replace (pre post : list (string * value S)) k x y :
  Forall (λ e, key_lt e.1 k) pre → mset (pre ++ (k, x) :: post) k y = pre ++ (k, y) :: post.
Proof.
  induction pre as [|[k0 x0] pre IH]; cbn [app mset]; [by rewrite bool_decide_true|]. intros [H1 H2]%list.Forall_cons. cbn in H1. destruct (key_lt_flip _ _ H1) as [-> Hne]. rewrite bool_decide_false by done. by rewrite IH.
Qed.

Lemma mset_present m k x : StronglySorted key_lt m.*1 → mget m k = Some x → mset m k x = m.
Proof.
  induction m as [|[k0 x0] m IH]; [done|]. rewrite fmap_cons. intros [Hs Hf]%StronglySorted_inv. cbn [mget mset]. destruct (decide (k = k0)) as [->|Hne]; [rewrite bool_decide_true by done; by intros [= ->]|]. rewrite bool_decide_false by done. intros Hg.
  assert (key_lt k0 k) as Hlt.
  { clear IH. assert (k ∈ m.*1) as Hin. { clear Hs Hf. induction m as [|[k1 x1] m IH]; [done|]. cbn [mget] in Hg. rewrite fmap_cons. destruct (decide (k = k1)) as [->|]; [by left|]. rewrite bool_decide_false in Hg by done. right. by apply IH. }
    cbn in Hf. rewrite list.Forall_forall in Hf. by apply Hf. }
  destruct (key_lt_flip _ _ Hlt) as [-> _]. by rewrite IH.
Qed.

Lemma mset_mset m k x y : mset (mset m k x) k y = mset m k y.
Proof.
  induction m as [|[k0 x0] m IH]; cbn [mset]; [by rewrite bool_decide_true|]. destruct (decide (k = k0)) as [<-|Hne].
  - rewrite !(bool_decide_true (k = k)) by done. cbn [mset]. by rewrite bool_decide_true.
  - rewrite !(bool_decide_false (k = k0)) by done. destruct (String.ltb k k0) eqn:El; cbn [mset]; [by rewrite bool_decide_true|]. by rewrite bool_decide_false, El, IH by done.
Qed.

(** ** One target at a time *)

(** No wildcard behind something that is not there: what a path would create on the way
    to nothing. *)
Fixpoint firm v p : bool :=
  match p with
  | [] => true
  | Field k :: p' => match v with VNull => nowild p | VMap m => match mget m k with Some x => firm x p' | None => nowild p' end | _ => true end
  | Index i :: p' =>
      match v with
      | VNull => nowild p
      | VArr l =>
          let j := resolve_index i (length l) in
          (0 <=? j) && (if in_range j (length l) then firm (nth (Z.to_nat j) l VNull) p' else nowild p')
      | _ => true
      end
  | Wildcard :: p' => match v with VArr l => forallb (λ x, firm x p') l | VMap m => forallb (λ e, firm e.2 p') m | _ => true end
  end.

(** The paths of the selections, relative to where the expansion starts. *)
Fixpoint targets v p : list path :=
  match p with
  | [] => [[]]
  | Field k :: p => match v with VNull => cons (Field k) <$> targets VNull p | VMap m => cons (Field k) <$> targets (field m k) p | _ => [] end
  | Index i :: p =>
      match v with
      | VNull => cons (Index i) <$> targets VNull p
      | VArr l => let j := resolve_index i (length l) in if j <? 0 then [] else cons (Index j) <$> targets (nth (Z.to_nat j) l VNull) p
      | _ => []
      end
  | Wildcard :: p =>
      match v with
      | VArr l => concat (imap (λ i x, cons (Index (Z.of_nat i)) <$> targets x p) l)
      | VMap m => concat ((λ e, cons (Field e.1) <$> targets e.2 p) <$> m)
      | _ => []
      end
  end.

Lemma expand_targets p : ∀ v pre, sel_path <$> expandOverrideTargetPath (mkSelection v pre) p = app pre <$> targets v p.
Proof.
  assert (∀ (s : overridePathSegment) pre (ps : list path), app (pre ++ [s]) <$> ps = app pre <$> (cons s <$> ps)) as Happ.
  { intros s pre ps. rewrite <- list_fmap_compose. apply list_fmap_ext. intros _ q _. cbn. by rewrite <- app_assoc. }
  induction p as [|[k|i|] p IH]; intros v pre; cbn [expandOverrideTargetPath sel_value sel_path targets]; [cbn; by rewrite app_nil_r|..].
  - destruct v as [|s|l|m]; [|done|done|]; by rewrite IH, Happ.
  - destruct v as [|s|l|m]; [by rewrite IH, Happ|done| |done]. destruct (_ <? 0); [done|]. by rewrite IH, Happ.
  - destruct v as [|s|l|m]; [done|done| |].
    + rewrite !fmap_concat. f_equal. rewrite !fmap_imap. apply imap_ext. intros n x _. cbn. by rewrite IH, Happ.
    + rewrite !fmap_concat. f_equal. rewrite <- !list_fmap_compose. apply list_fmap_ext. intros _ e _. cbn. by rewrite IH, Happ.
Qed.

Lemma update_selected_app v (ps1 ps2 : list path) f : update_selected v (ps1 ++ ps2) f = (let! w := update_selected v ps1 f in update_selected w ps2 f).
Proof. revert v. induction ps1 as [|p ps1 IH]; intros v; cbn [app update_selected]; [done|]. destruct (upd v p f); [apply IH|done]. Qed.

(** Updates below one key, or below one position. *)
Lemma selected_field m k ps f : ps ≠ [] → update_selected (VMap m) (cons (Field k) <$> ps) f = (let! y := update_selected (field m k) ps f in Ok (VMap (mset m k y))).
Proof.
  induction ps as [|p ps IH] in m |- *; [done|]. intros _. rewrite fmap_cons. cbn [update_selected updateOverridePath]. destruct (upd (field m k) p f) as [x|e]; [|done].
  destruct ps as [|p' ps]; [done|]. rewrite IH by done. rewrite field_mset. destruct (update_selected x (p' :: ps) f); [|done]. by rewrite mset_mset.
Qed.

Lemma selected_null_field k ps f : ps ≠ [] → update_selected VNull (cons (Field k) <$> ps) f = (let! y := update_selected VNull ps f in Ok (VMap (mset [] k y))).
Proof. intros Hps. etransitivity; [|exact (selected_field [] k ps f Hps)]. by destruct ps. Qed.

Lemma selected_index l i ps f : (i < length l)%nat → update_selected (VArr l) (cons (Index (Z.of_nat i)) <$> ps) f = (let! y := update_selected (nth i l VNull) ps f in Ok (VArr (<[i := y]> l))).
Proof.
  intros Hi. induction ps as [|p ps IH] in l, Hi |- *; cbn [update_selected].
  - cbn. f_equal. f_equal. symmetry. apply list_insert_id. rewrite nth_lookup. destruct (l !! i) eqn:E; [done|]. apply lookup_ge_None in E. lia.
  - rewrite fmap_cons. cbn [update_selected updateOverridePath]. assert (resolve_index (Z.of_nat i) (length l) = Z.of_nat i) as -> by (unfold resolve_index; by rewrite (proj2 (Z.ltb_ge _ _)) by lia).
    rewrite (proj2 (Z.ltb_ge _ _)), Nat2Z.id by lia. assert (extend l i = l) as -> by (unfold extend; replace (i + 1 - length l)%nat with 0%nat by lia; by rewrite app_nil_r).
    destruct (upd (nth i l VNull) p f) as [x|e]; [|done]. rewrite IH by (by rewrite length_insert). rewrite nth_insert, decide_True by done. destruct (update_selected x ps f); [|done]. by rewrite list_insert_insert_eq.
Qed.
Lemma selected_present m k x ps f : StronglySorted key_lt m.*1 → mget m k = Some x → update_selected (VMap m) (cons (Field k) <$> ps) f = (let! y := update_selected x ps f in Ok (VMap (mset m k y))).
Proof.
  intros Hs Hg. destruct ps as [|p ps]; [cbn; by rewrite mset_present|]. rewrite selected_field by done. unfold field. by rewrite Hg.
Qed.

Lemma targets_null p : nowild p = true → targets VNull p = [p].
Proof. induction p as [|[k|i|] p IH]; cbn; [done| | |done]; intros Hp; by rewrite IH. Qed.

Lemma update_selected_one v q f : update_selected v [q] f = upd v q f.
Proof. cbn [update_selected]. by destruct (upd v q f). Qed.

(** All the elements of an array, and all the entries of a mapping. *)
Lemma selected_all_arr p f : ∀ todo done, Forall (λ x, update_selected x (targets x p) f = upd x p f) todo →
  update_selected (VArr (done ++ todo)) (concat (imap (λ i x, cons (Index (Z.of_nat (length done + i))) <$> targets x p) todo)) f
  = (let! y := update_list (λ x, upd x p f) todo in Ok (VArr (done ++ y))).
Proof.
  induction todo as [|x todo IH]; intros done_ Hall; [done|]. apply list.Forall_cons in Hall as [Hx Hall]. cbn [imap concat update_list]. rewrite update_selected_app, Nat.add_0_r, selected_index by (rewrite length_app; cbn; lia).
  rewrite app_nth2, Nat.sub_diag by lia. cbn [nth]. rewrite Hx. destruct (upd x p f) as [y|e]; [|done]. rewrite insert_app_r_alt, Nat.sub_diag by lia. cbn [insert list_insert].
  specialize (IH (done_ ++ [y]) Hall). rewrite <- app_assoc in IH. cbn [app] in IH. rewrite length_app in IH. cbn [length] in IH.
  assert (imap ((λ i x, cons (Index (Z.of_nat (length done_ + i))) <$> targets x p) ∘ Datatypes.S) todo = imap (λ i x, cons (Index (Z.of_nat (length done_ + 1 + i))) <$> targets x p) todo) as ->.
  { apply imap_ext. intros n z _. cbn. by replace (length done_ + Datatypes.S n)%nat with (length done_ + 1 + n)%nat by lia. }
  rewrite IH. destruct (update_list _ todo) as [z|e]; [|done]. by rewrite <- app_assoc.
Qed.

Lemma mget_app_ne (pre post : list (string * value S)) k x : Forall (λ e, key_lt e.1 k) pre → mget (pre ++ (k, x) :: post) k = Some x.
Proof.
  induction pre as [|[k0 x0] pre IH]; cbn [app mget]; [by rewrite bool_decide_true|]. intros [H1 H2]%list.Forall_cons. cbn in H1. destruct (key_lt_flip _ _ H1) as [_ Hne]. rewrite bool_decide_false by done. by apply IH.
Qed.

Lemma sorted_before (pre post : list (string * value S)) k x : StronglySorted key_lt (pre ++ (k, x) :: post).*1 → Forall (λ e, key_lt e.1 k) pre.
Proof.
  rewrite fmap_app, fmap_cons. induction pre as [|[k0 x0] pre IH]; [constructor|]. rewrite fmap_cons. cbn [app]. intros [Hs Hf]%StronglySorted_inv. constructor; [|by apply IH]. cbn. rewrite list.Forall_forall in Hf. apply Hf, elem_of_app. right. by left.
Qed.

Lemma selected_all_map p f : ∀ todo done, StronglySorted key_lt (done ++ todo).*1 → Forall (λ e, update_selected e.2 (targets e.2 p) f = upd e.2 p f) todo →
  update_selected (VMap (done ++ todo)) (concat ((λ e, cons (Field e.1) <$> targets e.2 p) <$> todo)) f
  = (let! y := update_map (λ x, upd x p f) todo in Ok (VMap (done ++ y))).
Proof.
  induction todo as [|[k x] todo IH]; intros done_ Hs Hall; [done|]. apply list.Forall_cons in Hall as [Hx Hall]. cbn [snd] in Hx. rewrite fmap_cons. cbn [concat update_map fst snd]. pose proof (sorted_before _ _ _ _ Hs) as Hb.
  rewrite update_selected_app, (selected_present _ k x) by (done || by apply mget_app_ne). rewrite Hx. destruct (upd x p f) as [y|e]; [|done]. rewrite mset_replace by done.
  specialize (IH (done_ ++ [(k, y)])). rewrite <- app_assoc in IH. cbn [app] in IH. rewrite IH; [|by rewrite fmap_app, fmap_cons in Hs |- *|done]. destruct (update_map _ todo) as [z|e]; [|done]. by rewrite <- app_assoc.
Qed.

(** Updating the targets of a path one by one is updating along the path. *)
Lemma one_by_one p : ∀ v f, wf v → firm v p = true → update_selected v (targets v p) f = upd v p f.
Proof.
  induction p as [|[k|i|] p IH]; intros v f Hwf Hf; [cbn; by destruct (f v)|..].
  - destruct v as [|s|l|m]; [|done|done|]; cbn [firm] in Hf.
    + rewrite targets_null by done. apply update_selected_one.
    + apply wf_map in Hwf as [Hs Hm]. cbn [targets]. unfold field. destruct (mget m k) as [x|] eqn:Eg; cbn [from_option id].
      * assert (wf x) as Hx. { clear - Eg Hm. induction Hm as [|[k1 x1] m H1 _ IH]; [done|]. cbn [mget] in Eg. destruct (bool_decide (k = k1)); [by injection Eg as ->|by apply IH]. }
        rewrite (selected_present m k x) by done. rewrite (IH x f Hx Hf). cbn [updateOverridePath]. unfold field. by rewrite Eg.
      * rewrite targets_null by done. apply update_selected_one.
  - destruct v as [|s|l|m]; [|done| |done]; cbn [firm] in Hf.
    + rewrite targets_null by done. apply update_selected_one.
    + apply andb_true_iff in Hf as [Hj%Z.leb_le Hf]. cbn [targets]. rewrite (proj2 (Z.ltb_ge _ _)) by done. set (j := resolve_index i (length l)) in *. destruct (in_range j (length l)) eqn:Er.
      * unfold in_range in Er. apply andb_true_iff in Er as [_ Er%Z.ltb_lt]. apply wf_arr in Hwf. assert (j = Z.of_nat (Z.to_nat j)) as Hjn by lia. rewrite Hjn at 1. rewrite selected_index by lia.
        rewrite IH; [|rewrite list.Forall_forall in Hwf; apply Hwf, list_elem_of_In, nth_In; lia|done]. cbn [updateOverridePath]. fold j. rewrite (proj2 (Z.ltb_ge _ _)), nth_extend by done.
        unfold extend. replace (Z.to_nat j + 1 - length l)%nat with 0%nat by lia. by rewrite app_nil_r.
      * unfold in_range in Er. rewrite (proj2 (Z.leb_le _ _)) in Er by done. cbn in Er. assert (nth (Z.to_nat j) l VNull = VNull) as -> by (apply nth_overflow; lia). rewrite targets_null by done. rewrite list_fmap_singleton, update_selected_one.
        assert (j = i) as -> by (unfold j, resolve_index in *; destruct (Z.ltb_spec i 0); lia). done.
  - destruct v as [|s|l|m]; [done|done| |]; cbn [firm] in Hf; cbn [targets updateOverridePath].
    + apply (selected_all_arr p f l []). apply wf_arr in Hwf. rewrite forallb_forall in Hf. rewrite list.Forall_forall in Hwf |- *. intros x Hx. apply IH; [by apply Hwf|]. apply Hf. by apply list_elem_of_In.
    + apply wf_map in Hwf as [Hs Hwf]. apply (selected_all_map p f m []); [done|]. rewrite forallb_forall in Hf. rewrite list.Forall_forall in Hwf |- *. intros e He. apply IH; [by apply Hwf|]. apply Hf. by apply list_elem_of_In.
Qed.
(** ** Deletion by positions

    The reference: the positions in a document that a path selects, and the document
    without the positions of a set, read off the document as it was. *)

Inductive step := PKey (k : string) | PIdx (n : nat).
#[local] Instance step_eq_dec : EqDecision step.
Proof. solve_decision. Defined.

Fixpoint positions v p : list (list step) :=
  match p with
  | [] => [[]]
  | Field k :: p => match v with VMap m => match mget m k with Some x => cons (PKey k) <$> positions x p | None => [] end | _ => [] end
  | Index i :: p =>
      match v with
      | VArr l => let j := resolve_index i (length l) in if in_range j (length l) then cons (PIdx (Z.to_nat j)) <$> positions (nth (Z.to_nat j) l VNull) p else []
      | _ => []
      end
  | Wildcard :: p =>
      match v with
      | VArr l => concat (imap (λ i x, cons (PIdx i) <$> positions x p) l)
      | VMap m => concat ((λ e, cons (PKey e.1) <$> positions e.2 p) <$> m)
      | _ => []
      end
  end.

Fixpoint prune (sel : list step → bool) v : value S :=
  match v with
  | VMap m =>
      VMap ((fix go m := match m with [] => [] | (k, x) :: m => if sel [PKey k] then go m else (k, prune (λ q, sel (PKey k :: q)) x) :: go m end) m)
  | VArr l =>
      VArr ((fix go i l := match l with [] => [] | x :: l => if sel [PIdx i] then go (Datatypes.S i) l else prune (λ q, sel (PIdx i :: q)) x :: go (Datatypes.S i) l end) 0%nat l)
  | v => v
  end.

Definition selects v (ps : list path) (q : list step) : bool := existsb (λ p, bool_decide (q ∈ positions v p)) ps.

Lemma delete_nil v : deleteOverridePaths v [] = v.
Proof.
  destruct v as [|s|l|m]; cbn; [done|done| |]; f_equal.
  - generalize 0%nat. generalize (length l). intros n. induction l as [|x l IH]; intros i; [done|]. by rewrite IH.
  - induction m as [|[k x] m IH]; [done|]. by rewrite IH.
Qed.

Lemma delete_tails x (ts : list path) : match ts with [] => x | t :: ts => deleteOverridePaths x (t :: ts) end = deleteOverridePaths x ts.
Proof. destruct ts; [by rewrite delete_nil|done]. Qed.

Lemma delete_map m ps : deleteOverridePaths (VMap m) ps
  = VMap (concat ((λ e, if removes (key_matches e.1) ps then [] else [(e.1, deleteOverridePaths e.2 (tails (key_matches e.1) ps))]) <$> m)).
Proof.
  cbn [deleteOverridePaths]. f_equal. induction m as [|[k x] m IH]; [done|]. rewrite fmap_cons. cbn [concat fst snd]. destruct (removes (key_matches k) ps); [done|]. cbn [app]. by rewrite <- IH, <- (delete_tails x (tails (key_matches k) ps)).
Qed.

Lemma delete_arr l ps : deleteOverridePaths (VArr l) ps
  = VArr (concat (imap (λ i x, if removes (index_matches i (length l)) ps then [] else [deleteOverridePaths x (tails (index_matches i (length l)) ps)]) l)).
Proof.
  cbn [deleteOverridePaths]. f_equal. generalize (length l). intros n.
  enough (∀ i, (fix go (i : nat) (l' : list (value S)) := match l' with [] => [] | x :: l' =>
            if removes (index_matches i n) ps then go (Datatypes.S i) l' else (match tails (index_matches i n) ps with [] => x | ts => deleteOverridePaths x ts end) :: go (Datatypes.S i) l' end) i l
    = concat (imap (λ j x, if removes (index_matches (i + j) n) ps then [] else [deleteOverridePaths x (tails (index_matches (i + j) n) ps)]) l)) as Hgo by apply (Hgo 0%nat).
  induction l as [|x l IH]; intros i; [done|]. rewrite IH. cbn [imap concat]. rewrite Nat.add_0_r. rewrite <- (delete_tails x (tails _ _)).
  assert (imap (λ j x, if removes (index_matches (Datatypes.S i + j) n) ps then [] else [deleteOverridePaths x (tails (index_matches (Datatypes.S i + j) n) ps)]) l
    = imap ((λ j x, if removes (index_matches (i + j) n) ps then [] else [deleteOverridePaths x (tails (index_matches (i + j) n) ps)]) ∘ Datatypes.S) l) as ->.
  { apply imap_ext. intros j y _. cbn. by rewrite <- plus_n_Sm. }
  by destruct (removes (index_matches i n) ps).
Qed.

Lemma prune_map m sel : prune sel (VMap m) = VMap (concat ((λ e, if sel [PKey e.1] then [] else [(e.1, prune (λ q, sel (PKey e.1 :: q)) e.2)]) <$> m)).
Proof. cbn [prune]. f_equal. induction m as [|[k x] m IH]; [done|]. rewrite fmap_cons. cbn [concat fst snd]. by destruct (sel [PKey k]); rewrite IH. Qed.

Lemma prune_arr l sel : prune sel (VArr l) = VArr (concat (imap (λ i x, if sel [PIdx i] then [] else [prune (λ q, sel (PIdx i :: q)) x]) l)).
Proof.
  cbn [prune]. f_equal.
  enough (∀ i, (fix go (i : nat) (l : list (value S)) := match l with [] => [] | x :: l => if sel [PIdx i] then go (Datatypes.S i) l else prune (λ q, sel (PIdx i :: q)) x :: go (Datatypes.S i) l end) i l
    = concat (imap (λ j x, if sel [PIdx (i + j)] then [] else [prune (λ q, sel (PIdx (i + j) :: q)) x]) l)) as Hgo by apply (Hgo 0%nat).
  induction l as [|x l IH]; intros i; [done|]. rewrite IH. cbn [imap concat]. rewrite Nat.add_0_r.
  assert (imap (λ j x, if sel [PIdx (Datatypes.S i + j)] then [] else [prune (λ q, sel (PIdx (Datatypes.S i + j) :: q)) x]) l
    = imap ((λ j x, if sel [PIdx (i + j)] then [] else [prune (λ q, sel (PIdx (i + j) :: q)) x]) ∘ Datatypes.S) l) as ->.
  { apply imap_ext. intros j y _. cbn. by rewrite <- plus_n_Sm. }
  by destruct (sel [PIdx i]).
Qed.

Lemma prune_ext v : ∀ sel sel', (∀ q, q ≠ [] → sel q = sel' q) → prune sel v = prune sel' v.
Proof.
  induction v as [|s|l IH|m IH] using value_rect'; intros sel sel' He; [done|done| |].
  - rewrite !prune_arr. f_equal. f_equal. apply imap_ext. intros i x Hx. rewrite He by done. destruct (sel' [PIdx i]); [done|]. f_equal. rewrite list.Forall_forall in IH. apply IH; [by eapply list_elem_of_lookup_2|]. intros q _. by apply He.
  - rewrite !prune_map. f_equal. f_equal. apply list_fmap_ext. intros i [k x] Hx. cbn. rewrite He by done. destruct (sel' [PKey k]); [done|]. do 2 f_equal. rewrite list.Forall_forall in IH. apply (IH (k, x)); [by eapply list_elem_of_lookup_2|]. intros q _. by apply He.
Qed.
(** What a path says about one child. *)
Lemma mget_elem m k x : NoDup m.*1 → (k, x) ∈ m → mget m k = Some x.
Proof.
  induction m as [|[k0 x0] m IH]; [by intros _ ?%not_elem_of_nil|]. rewrite fmap_cons. intros [Hn Hnd]%NoDup_cons [[= -> ->]|Hin]%elem_of_cons; cbn [mget]; [by rewrite bool_decide_true|].
  rewrite bool_decide_false; [by apply IH|]. intros ->. apply Hn, list_elem_of_fmap. by exists (k0, x).
Qed.

Lemma sorted_nodup m : StronglySorted key_lt m.*1 → NoDup m.*1.
Proof.
  induction m as [|[k x] m IH]; [constructor|]. rewrite fmap_cons. intros [Hs Hf]%StronglySorted_inv. apply NoDup_cons. split; [|by apply IH]. intros Hin. cbn in Hf. rewrite list.Forall_forall in Hf. destruct (key_lt_flip _ _ (Hf _ Hin)) as [_ ?]. done.
Qed.

Lemma elem_of_cons_fmap {A} (a b : A) (r : list A) (ls : list (list A)) : a :: r ∈ cons b <$> ls ↔ a = b ∧ r ∈ ls.
Proof. rewrite list_elem_of_fmap. split; [intros (r' & [= -> ->] & ?); done|intros [-> ?]; by exists r]. Qed.

Lemma positions_nil v p : [] ∈ positions v p ↔ p = [].
Proof.
  split; [|intros ->; by left]. destruct p as [|[k|i|] p]; [done|..]; cbn [positions]; destruct v as [|s|l|m]; try by intros ?%not_elem_of_nil.
  - destruct (mget m k); [|by intros ?%not_elem_of_nil]. by intros (? & ? & _)%list_elem_of_fmap.
  - destruct (in_range _ _); [|by intros ?%not_elem_of_nil]. by intros (? & ? & _)%list_elem_of_fmap.
  - intros Hin. apply list_elem_of_In, in_concat in Hin as (ls & Hls & Hin). apply list_elem_of_In in Hls, Hin. apply elem_of_lookup_imap in Hls as (j & x & -> & _). by apply list_elem_of_fmap in Hin as (? & ? & _).
  - intros Hin. apply list_elem_of_In, in_concat in Hin as (ls & Hls & Hin). apply list_elem_of_In in Hls, Hin. apply list_elem_of_fmap in Hls as (e & -> & _). by apply list_elem_of_fmap in Hin as (? & ? & _).
Qed.

Lemma positions_key m k x s p r : NoDup m.*1 → (k, x) ∈ m → PKey k :: r ∈ positions (VMap m) (s :: p) ↔ key_matches k s = true ∧ r ∈ positions x p.
Proof.
  intros Hnd Hin. destruct s as [k'|i|]; cbn [positions key_matches].
  - rewrite bool_decide_eq_true. destruct (decide (k' = k)) as [->|Hne]; [rewrite (mget_elem m k x Hnd Hin), elem_of_cons_fmap; tauto|].
    split; [|by intros [? _]]. destruct (mget m k') as [y|]; [rewrite elem_of_cons_fmap; intros [[= ->] _]; done|by intros ?%not_elem_of_nil].
  - split; [by intros ?%not_elem_of_nil|by intros [? _]].
  - split.
    + intros Hr. split; [done|]. apply list_elem_of_In, in_concat in Hr as (ls & Hls & Hr). apply list_elem_of_In in Hls, Hr. apply list_elem_of_fmap in Hls as ([k1 x1] & -> & Hin1). apply elem_of_cons_fmap in Hr as [[= ->] Hr]. cbn in *.
      assert (mget m k1 = Some x) by (by apply mget_elem). assert (mget m k1 = Some x1) by (by apply mget_elem). congruence.
    + intros [_ Hr]. apply list_elem_of_In, in_concat. exists (cons (PKey k) <$> positions x p). split; [apply list_elem_of_In, list_elem_of_fmap; by exists (k, x)|]. by apply list_elem_of_In, elem_of_cons_fmap.
Qed.

Lemma positions_idx l i x s p r : l !! i = Some x → PIdx i :: r ∈ positions (VArr l) (s :: p) ↔ index_matches i (length l) s = true ∧ r ∈ positions x p.
Proof.
  intros Hin. pose proof (lookup_lt_Some _ _ _ Hin) as Hlt. destruct s as [k'|j|]; cbn [positions index_matches].
  - split; [by intros ?%not_elem_of_nil|by intros [? _]].
  - rewrite Z.eqb_eq. set (j' := resolve_index j (length l)). destruct (in_range j' (length l)) eqn:Er; unfold in_range in Er.
    + apply andb_true_iff in Er as [E1%Z.leb_le E2%Z.ltb_lt]. rewrite elem_of_cons_fmap. split.
      * intros [[= ->] Hr]. split; [lia|]. by rewrite nth_lookup, Hin in Hr.
      * intros [-> Hr]. rewrite Nat2Z.id. split; [done|]. by rewrite nth_lookup, Hin.
    + split; [by intros ?%not_elem_of_nil|]. intros [-> _]. rewrite (proj2 (Z.leb_le 0 _)), (proj2 (Z.ltb_lt _ _)) in Er by lia. done.
  - split.
    + intros Hr. split; [done|]. apply list_elem_of_In, in_concat in Hr as (ls & Hls & Hr). apply list_elem_of_In in Hls, Hr. apply elem_of_lookup_imap in Hls as (j & y & -> & Hj). apply elem_of_cons_fmap in Hr as [[= ->] Hr]. congruence.
    + intros [_ Hr]. apply list_elem_of_In, in_concat. exists (cons (PIdx i) <$> positions x p). split; [apply list_elem_of_In, elem_of_lookup_imap; by exists i, x|]. by apply list_elem_of_In, elem_of_cons_fmap.
Qed.

(** The child goes when a path ends there; the other paths go on inside it. *)
Lemma selects_child v x (st : step) (mt : overridePathSegment → bool) ps :
  (∀ s p r, st :: r ∈ positions v (s :: p) ↔ mt s = true ∧ r ∈ positions x p) →
  removes mt ps = selects v ps [st] ∧ ∀ r, r ≠ [] → selects v ps (st :: r) = selects x (tails mt ps) r.
Proof.
  intros Hst. assert (∀ r, st :: r ∉ positions v []) as Hnil by (intros r ?%list_elem_of_singleton; done). split.
  - apply eq_iff_eq_true. unfold removes, selects. rewrite !existsb_exists. split.
    + intros (p & Hp & Hm). exists p. split; [done|]. apply bool_decide_eq_true. destruct p as [|s [|? ?]]; [done| |done]. apply Hst. split; [done|by left].
    + intros (p & Hp & Hm%bool_decide_eq_true). exists p. split; [done|]. destruct p as [|s p]; [by apply Hnil in Hm|]. apply Hst in Hm as [Hm Hr]. apply positions_nil in Hr as ->. done.
  - intros r Hr. apply eq_iff_eq_true. unfold selects. rewrite !existsb_exists. split.
    + intros (p & Hp & Hm%bool_decide_eq_true). destruct p as [|s p]; [by apply Hnil in Hm|]. apply Hst in Hm as [Hm Hq]. destruct p as [|s2 p]; [by apply list_elem_of_singleton in Hq|].
      exists (s2 :: p). split; [|by apply bool_decide_eq_true]. apply list_elem_of_In, list_elem_of_omap. exists (s :: s2 :: p). split; [by apply list_elem_of_In|]. cbn. by rewrite Hm.
    + intros (p & Hp & Hq%bool_decide_eq_true). apply list_elem_of_In, list_elem_of_omap in Hp as (p0 & Hp0 & Hm). destruct p0 as [|s [|s2 p2]]; [done|done|]. destruct (mt s) eqn:Es; [|done]. injection Hm as <-.
      exists (s :: s2 :: p2). split; [by apply list_elem_of_In|]. by apply bool_decide_eq_true, Hst.
Qed.

Lemma delete_prune v : ∀ ps, wf v → deleteOverridePaths v ps = prune (selects v ps) v.
Proof.
  induction v as [|s|l IH|m IH] using value_rect'; intros ps Hwf; [done|done| |].
  - rewrite delete_arr, prune_arr. f_equal. f_equal. apply imap_ext. intros i x Hx. destruct (selects_child (VArr l) x (PIdx i) (index_matches i (length l)) ps) as [H1 H2]; [intros; by apply positions_idx|].
    rewrite H1. destruct (selects (VArr l) ps [PIdx i]); [done|]. f_equal. apply wf_arr in Hwf. rewrite list.Forall_forall in Hwf, IH. pose proof (list_elem_of_lookup_2 _ _ _ Hx) as Hin. rewrite (IH x Hin _ (Hwf x Hin)). apply prune_ext. intros r Hr. by rewrite H2.
  - apply wf_map in Hwf as [Hs Hwf]. rewrite delete_map, prune_map. f_equal. f_equal. apply list_fmap_ext. intros i [k x] Hx. pose proof (list_elem_of_lookup_2 _ _ _ Hx) as Hin. cbn [fst snd].
    destruct (selects_child (VMap m) x (PKey k) (key_matches k) ps) as [H1 H2]; [intros; apply positions_key; [by apply sorted_nodup|done]|].
    rewrite H1. destruct (selects (VMap m) ps [PKey k]); [done|]. do 2 f_equal. rewrite list.Forall_forall in Hwf, IH. rewrite (IH (k, x) Hin _ (Hwf (k, x) Hin)). apply prune_ext. intros r Hr. by rewrite H2.
Qed.
(** ** Documents stay well-formed *)

Lemma mset_keys m k x k' : k' ∈ (mset m k x).*1 → k' = k ∨ k' ∈ m.*1.
Proof.
  induction m as [|[k0 x0] m IH]; cbn [mset]; [intros ?%list_elem_of_singleton; by left|]. destruct (bool_decide (k = k0)) eqn:E1.
  - apply bool_decide_eq_true in E1 as <-. rewrite !fmap_cons, !elem_of_cons. cbn. tauto.
  - destruct (String.ltb k k0); rewrite !fmap_cons, !elem_of_cons; cbn; [tauto|]. intros [?|Hin]; [tauto|]. specialize (IH Hin). tauto.
Qed.

Lemma mset_sorted m k x : StronglySorted key_lt m.*1 → StronglySorted key_lt (mset m k x).*1.
Proof.
  induction m as [|[k0 x0] m IH]; cbn [mset]; [intros _; repeat constructor|]. rewrite fmap_cons. intros [Hs Hf]%StronglySorted_inv. cbn in Hf. destruct (decide (k = k0)) as [<-|Hne]; [rewrite bool_decide_true by done; by constructor|].
  rewrite bool_decide_false by done. destruct (String.ltb k k0) eqn:El; rewrite !fmap_cons; cbn.
  - constructor; [by constructor|]. constructor; [done|]. eapply list.Forall_impl; [exact Hf|]. cbn. intros y. by apply key_lt_trans.
  - constructor; [by apply IH|]. apply list.Forall_forall. intros y [->|Hy]%mset_keys; [by apply key_lt_total|]. rewrite list.Forall_forall in Hf. by apply Hf.
Qed.

Lemma mset_wf (P : S → Prop) m k x : (wfs P) (VMap m) → (wfs P) x → (wfs P) (VMap (mset m k x)).
Proof.
  rewrite !wf_map. intros [Hs Hm] Hx. split; [by apply mset_sorted|]. clear Hs. induction Hm as [|[k0 x0] m H0 Hm IH]; cbn [mset]; [by repeat constructor|].
  destruct (bool_decide (k = k0)); [by constructor|]. destruct (String.ltb k k0); [by repeat constructor|by constructor].
Qed.

Lemma field_wf (P : S → Prop) m k : (wfs P) (VMap m) → (wfs P) (field m k).
Proof.
  rewrite wf_map. intros [_ Hm]. unfold field. induction Hm as [|[k0 x0] m H0 _ IH]; cbn [mget]; [done|]. by destruct (bool_decide (k = k0)).
Qed.

Lemma update_list_wf (P : S → Prop) g l l' : (∀ x y, (wfs P) x → g x = Ok y → (wfs P) y) → Forall (wfs P) l → update_list g l = Ok l' → Forall (wfs P) l'.
Proof.
  intros Hg Hl. revert l'. induction Hl as [|x l Hx _ IH]; intros l'; cbn [update_list]; [intros [= <-]; constructor|]. destruct (g x) as [y|e] eqn:E; [|done]. destruct (update_list g l) as [l1|e]; [|done]. intros [= <-]. constructor; [by eapply Hg|by apply IH].
Qed.

Lemma update_map_wf (P : S → Prop) g m m' : (∀ x y, (wfs P) x → g x = Ok y → (wfs P) y) → Forall (λ e, (wfs P) e.2) m → update_map g m = Ok m' → m'.*1 = m.*1 ∧ Forall (λ e, (wfs P) e.2) m'.
Proof.
  intros Hg Hl. revert m'. induction Hl as [|[k x] m Hx _ IH]; intros m'; cbn [update_map]; [intros [= <-]; by split|]. destruct (g x) as [y|e] eqn:E; [|done]. destruct (update_map g m) as [m1|e]; [|done]. intros [= <-]. destruct (IH m1 eq_refl) as [I1 ?]. split; [by rewrite !fmap_cons, I1|]. constructor; [by eapply Hg|done].
Qed.

Lemma update_wf (P : S → Prop) p : ∀ v f v', (∀ x y, (wfs P) x → f x = Ok y → (wfs P) y) → (wfs P) v → upd v p f = Ok v' → (wfs P) v'.
Proof.
  induction p as [|[k|i|] p IH]; intros v f v' Hf Hwf; [by apply Hf|..].
  - assert (∀ m, (wfs P) (VMap m) → upd (VMap m) (Field k :: p) f = Ok v' → (wfs P) v') as Hm.
    { intros m Hm. cbn [updateOverridePath]. destruct (upd (field m k) p f) as [x|e] eqn:E; [|done]. intros [= <-]. apply mset_wf; [done|]. eapply IH; [done| |done]. by apply field_wf. }
    destruct v as [|s|l|m]; [apply (Hm []); apply wf_map; repeat constructor|by intros [= <-]|by intros [= <-]|by apply Hm].
  - assert (∀ l, (wfs P) (VArr l) → upd (VArr l) (Index i :: p) f = Ok v' → (wfs P) v') as Hl.
    { intros l. rewrite wf_arr. intros Hl. cbn [updateOverridePath]. destruct (_ <? 0); [done|]. set (j := Z.to_nat _). assert (Forall (wfs P) (extend l j)) as He by (unfold extend; apply list.Forall_app; split; [done|apply Forall_replicate; done]).
      destruct (upd _ p f) as [x|e] eqn:E; [|done]. intros [= <-]. apply wf_arr. apply Forall_insert; [done|]. eapply IH; [done| |done]. rewrite nth_lookup. destruct (extend l j !! j) eqn:Ej; [|done]. cbn. rewrite list.Forall_forall in He. by eapply He, list_elem_of_lookup_2. }
    destruct v as [|s|l|m]; [apply (Hl []); done|by intros [= <-]|by apply Hl|by intros [= <-]].
  - destruct v as [|s|l|m]; cbn [updateOverridePath]; [by intros [= <-]|by intros [= <-]| |].
    + rewrite wf_arr in Hwf. destruct (update_list _ l) as [l'|e] eqn:E; [|done]. intros [= <-]. apply wf_arr. eapply update_list_wf; [|done|done]. intros x y Hx. by apply IH.
    + rewrite wf_map in Hwf. destruct Hwf as [Hs Hm]. destruct (update_map _ m) as [m'|e] eqn:E; [|done]. intros [= <-]. apply wf_map. eapply update_map_wf in E as [-> ?]; [done| |done]. intros x y Hx. by apply IH.
Qed.

Lemma delete_wf (P : S → Prop) v : ∀ ps, (wfs P) v → (wfs P) (deleteOverridePaths v ps).
Proof.
  induction v as [|s|l IH|m IH] using value_rect'; intros ps Hwf; [done|done| |].
  - rewrite delete_arr. rewrite wf_arr in Hwf |- *. apply list.Forall_forall. intros y Hy. apply list_elem_of_In, in_concat in Hy as (ls & Hls & Hy). apply list_elem_of_In in Hls, Hy. apply elem_of_lookup_imap in Hls as (i & x & -> & Hx).
    destruct (removes _ ps); [by apply not_elem_of_nil in Hy|]. apply list_elem_of_singleton in Hy as ->. rewrite list.Forall_forall in IH, Hwf. pose proof (list_elem_of_lookup_2 _ _ _ Hx). by apply IH, Hwf.
  - rewrite delete_map. rewrite wf_map in Hwf |- *. destruct Hwf as [Hs Hm]. induction IH as [|[k x] m Hx IHm IH]; [by repeat constructor|]. rewrite fmap_cons in Hs. apply StronglySorted_inv in Hs as [Hs Hf]. apply list.Forall_cons in Hm as [H1 Hm]. cbn [fst snd] in *.
    destruct (IH Hs Hm) as [I1 I2]. rewrite fmap_cons. cbn [concat fst snd]. destruct (removes (key_matches k) ps); [done|]. cbn [app]. rewrite fmap_cons. split; [|constructor; [by apply Hx|done]]. constructor; [done|]. cbn [fst].
    apply list.Forall_forall. intros k' (e & -> & He)%list_elem_of_fmap. apply list_elem_of_In, in_concat in He as (ls & Hls & He). apply list_elem_of_In in Hls, He. apply list_elem_of_fmap in Hls as ([k2 x2] & -> & Hin). cbn in He.
    destruct (removes (key_matches k2) ps); [by apply not_elem_of_nil in He|]. apply list_elem_of_singleton in He as ->. cbn. rewrite list.Forall_forall in Hf. apply Hf, list_elem_of_fmap. by exists (k2, x2).
Qed.
End theory.
Abbreviation wf := (wfs (λ _, True)).


(** Assigning to a selected target is assigning along its path: the concrete paths the
    expansion finds in a document, updated one after the other, leave the same document,
    or the same error, as one update along the path, unless the path would have to create
    something in front of a wildcard or counts back past the start of an array. *)
Theorem override_targets_one_by_one {S} (truthy : value S → bool) (v : value S) (p : path) (f : value S → result error (value S)) :
  wf v → firm v p = true →
  ∃ sels, resolve truthy [StagePath p] v = Ok sels ∧ update_selected v (sel_path <$> sels) f = updateOverridePath v p f.
Proof.
  intros Hwf Hf. eexists. split; [reflexivity|]. cbn [fmap list_fmap concat]. rewrite app_nil_r. rewrite expand_targets. assert (app [] <$> targets v p = targets v p) as -> by apply list_fmap_id. by apply one_by_one.
Qed.

(** Deleting several paths at once removes exactly the positions they select in the
    document as it was, nothing else: an index means the same element whatever else is
    deleted, and the order of the paths does not matter. *)
Theorem override_delete_positions {S} (v : value S) (ps : list path) :
  wf v → deleteOverridePaths v ps = prune (selects v ps) v ∧ ∀ ps', ps' ≡ₚ ps → deleteOverridePaths v ps' = deleteOverridePaths v ps.
Proof.
  intros Hwf. split; [by apply delete_prune|]. intros ps' Hp. rewrite !delete_prune by done. apply prune_ext. intros r _. unfold selects. apply eq_iff_eq_true. rewrite !existsb_exists. setoid_rewrite <- list_elem_of_In. by setoid_rewrite Hp.
Qed.

(** A mapping stays a mapping with ordered, distinct keys under every update along a
    path that is not the root and under every deletion. *)
Theorem override_keeps_mappings {S} (m : list (string * value S)) (f : value S → result error (value S)) :
  wf (VMap m) → (∀ x y, wf x → f x = Ok y → wf y) →
  (∀ p v, p ≠ [] → updateOverridePath (VMap m) p f = Ok v → ∃ m', v = VMap m' ∧ wf (VMap m'))
  ∧ ∀ ps, ∃ m', deleteOverridePaths (VMap m) ps = VMap m' ∧ wf (VMap m').
Proof.
  intros Hwf Hf. split.
  - intros p v Hp E. pose proof (update_wf _ p _ _ _ Hf Hwf E) as Hv. destruct p as [|[k|i|] p]; [done|..]; cbn [updateOverridePath] in E.
    + destruct (updateOverridePath (field m k) p f); [|done]. injection E as <-. by eexists.
    + injection E as <-. by exists m.
    + destruct (update_map _ m) as [m'|]; [|done]. injection E as <-. by eexists.
  - intros ps. pose proof (delete_wf _ _ ps Hwf) as Hd. rewrite delete_map in *. by eexists.
Qed.

(** ** A concrete document *)

Definition doc : value nat := VMap [("alpn", VArr [VScalar 1%nat; VScalar 2%nat; VScalar 3%nat]); ("name", VScalar 0%nat)].
Definition bump (v : value nat) : result error (value nat) := match v with VScalar n => Ok (VScalar (n + 10)%nat) | v => Ok v end.

Lemma doc_wf : wf doc.
Proof. apply wf_map. split; [by repeat constructor|]. repeat constructor. Qed.


Lemma override_targets_one_by_one_witness :
  ∃ sels, resolve (λ _, true) [StagePath [Field "alpn"; Index (-1)]] doc = Ok sels ∧ update_selected doc (sel_path <$> sels) bump = updateOverridePath doc [Field "alpn"; Index (-1)] bump.
Proof. apply (override_targets_one_by_one (λ _, true) doc [Field "alpn"; Index (-1)] bump doc_wf). reflexivity. Defined.

Lemma override_delete_positions_witness :
  deleteOverridePaths doc [[Field "alpn"; Index 0]; [Field "alpn"; Index 1]] = VMap [("alpn", VArr [VScalar 3%nat]); ("name", VScalar 0%nat)].
Proof. rewrite (proj1 (override_delete_positions doc [[Field "alpn"; Index 0]; [Field "alpn"; Index 1]] doc_wf)). reflexivity. Defined.

Lemma override_keeps_mappings_witness : ∃ m', deleteOverridePaths doc [[Field "alpn"]] = VMap m' ∧ wf (VMap m').
Proof.
  assert (∀ x y, wf x → bump x = Ok y → wf y) as Hb by (intros [] y Hx [= <-]; done).
  exact (proj2 (override_keeps_mappings _ bump doc_wf Hb) [[Field "alpn"]]).
Defined.

(** A wildcard behind a missing key writes [nil] there, and the same target in its
    selected form leaves the document alone. *)
Lemma wildcard_writes_nil :
  updateOverridePath (VMap []) [Field "alpn"; Wildcard] bump = Ok (VMap [("alpn", VNull)])
  ∧ resolve (λ _, true) [StagePath [Field "alpn"; Wildcard]] (VMap [] : value nat) = Ok [].
Proof. split; reflexivity. Qed.

(** Counting back past the start of an array is an error, and in a selected target it is nothing. *)
Lemma negative_index_differs :
  updateOverridePath doc [Field "alpn"; Index (-4)] bump = Err (IndexOutOfRange (-4)) ∧ resolve (λ _, true) [StagePath [Field "alpn"; Index (-4)]] doc = Ok [].
Proof. split; reflexivity. Qed.
