(* ===== verification/OverrideValue.v ===== *)
(** * [adapter/provider/override_expr.go]: the values of expressions and the operators on them

    Numbers go through [float64] as in the code: [overrideNumber] converts every integer
    to [float64] and back, with the rounding of IEEE 754, computed here by the
    executable floats of the Standard Library ([SpecFloat], 53 bits).  [int] has 64
    bits.  What the code takes from other libraries is the class [OverrideLib]. *)

From Stdlib Require Import ZArith Lia String Ascii SpecFloat.
From stdpp Require Import base strings numbers list.
From S2P Require Import Prelude GoStrings OverridePath.
#[local] Open Scope Z_scope.

(** ** Strings *)

(** [strings.Split(s, sep)] for a separator that is not empty; [skip] bytes of one are left. *)
Fixpoint split_at (sep : string) (skip : nat) (s : string) : list string :=
  match s with
  | EmptyString => [""]
  | String c t =>
      match skip with
      | Datatypes.S n => split_at sep n t
      | O =>
          if HasPrefix s sep then "" :: split_at sep (String.length sep - 1) t
          else match split_at sep 0 t with
               | [] => [String c EmptyString]
               | h :: l => String c h :: l
               end
      end
  end.

(** The length of the first UTF-8 sequence, 1 for a byte that starts none. *)
Definition between (lo hi : Z) (c : ascii) : bool := (lo <=? byte_val c) && (byte_val c <=? hi).
Definition cont (c : ascii) : bool := between 128 191 c.
Definition rune_size (s : string) : nat :=
  match s with
  | String a (String b (String c (String d _))) =>
      if between 194 223 a && cont b then 2
      else if ((between 224 224 a && between 160 191 b) || ((between 225 236 a || between 238 239 a) && cont b) || (between 237 237 a && between 128 159 b)) && cont c then 3
      else if ((between 240 240 a && between 144 191 b) || (between 241 243 a && cont b) || (between 244 244 a && between 128 143 b)) && cont c && cont d then 4
      else 1
  | String a (String b (String c _)) =>
      if between 194 223 a && cont b then 2
      else if ((between 224 224 a && between 160 191 b) || ((between 225 236 a || between 238 239 a) && cont b) || (between 237 237 a && between 128 159 b)) && cont c then 3
      else 1
  | String a (String b _) => if between 194 223 a && cont b then 2 else 1
  | _ => 1
  end%nat.

(** [strings.explode]: [left] bytes of the current sequence are still to come. *)
Fixpoint explode (left : nat) (s : string) : list string :=
  match s with
  | EmptyString => []
  | String c t =>
      match left with
      | Datatypes.S (Datatypes.S n) =>
          match explode (Datatypes.S n) t with [] => [String c EmptyString] | h :: l => String c h :: l end
      | _ => String c EmptyString :: explode (rune_size t) t
      end
  end.

Definition SplitString (s sep : string) : list string :=
  if String.eqb sep "" then explode (rune_size s) s else split_at sep 0 s.

Fixpoint Repeat (s : string) (n : nat) : string :=
  match n with O => "" | Datatypes.S n => s +:+ Repeat s n end.

(** [strconv.ParseInt(s, base, 64)] for the bases 8, 10 and 16. *)
Definition base_digit (base : Z) (c : ascii) : option Z :=
  let v := byte_val c in
  let d := if (48 <=? v) && (v <=? 57) then v - 48
           else if (97 <=? v) && (v <=? 122) then v - 87
           else if (65 <=? v) && (v <=? 90) then v - 55 else 99 in
  if d <? base then Some d else None.
Fixpoint parse_base (base acc : Z) (s : string) : option Z :=
  match s with
  | EmptyString => Some acc
  | String c s => match base_digit base c with Some d => parse_base base (acc * base + d) s | None => None end
  end.
Definition ParseIntBase (s : string) (base : Z) : option Z :=
  let '(neg, digits) := match s with String "+" t => (false, t) | String "-" t => (true, t) | _ => (false, s) end in
  match digits with
  | EmptyString => None
  | _ => match parse_base base 0 digits with
         | Some v => if neg then if v <=? 2 ^ 63 then Some (- v) else None
                     else if v <? 2 ^ 63 then Some v else None
         | None => None
         end
  end.

(** ** [float64] *)

Definition float := spec_float.
Definition f_of_int (z : Z) : float := binary_normalize 53 1024 z 0 false.
Definition f_zero : float := S754_zero false.
Definition f_add : float → float → float := SFadd 53 1024.
Definition f_sub : float → float → float := SFsub 53 1024.
Definition f_mul : float → float → float := SFmul 53 1024.
Definition f_div : float → float → float := SFdiv 53 1024.

(** [math.Mod]: exact, with the sign of the first argument. *)
Definition f_mod (x y : float) : float :=
  match x, y with
  | S754_nan, _ | _, S754_nan | S754_infinity _, _ | _, S754_zero _ => S754_nan
  | S754_zero s, _ => x
  | _, S754_infinity _ => x
  | S754_finite s mx ex, S754_finite _ my ey =>
      let e := Z.min ex ey in
      let r := Z.rem (Z.pos mx * 2 ^ (ex - e)) (Z.pos my * 2 ^ (ey - e)) in
      binary_normalize 53 1024 (if s then - r else r) e s
  end.

(** The integer part; [None] for infinities and NaN. *)
Definition f_trunc (x : float) : option Z :=
  match x with
  | S754_zero _ => Some 0
  | S754_finite s m e =>
      let v := if e <? 0 then Z.pos m / 2 ^ (- e) else Z.pos m * 2 ^ e in
      Some (if s then - v else v)
  | _ => None
  end.

(** ** Scalars *)

Inductive int_kind := KInt | KInt8 | KInt16 | KInt32 | KInt64 | KUint | KUint8 | KUint16 | KUint32 | KUint64.
#[export] Instance int_kind_eq_dec : EqDecision int_kind.
Proof. solve_decision. Defined.

(** [SFloat single f] is a [float32] or a [float64], [SOther] any Go value the code has no
    case for, [SNoMatch] the value [overrideNoMatch{}]. *)
Inductive scalar (O : Type) :=
| SBool (b : bool)
| SInt (k : int_kind) (z : Z)
| SFloat (single : bool) (f : float)
| SStr (s : string)
| SOther (o : O)
| SNoMatch.
Arguments SBool {O} b.
Arguments SInt {O} k z.
Arguments SFloat {O} single f.
Arguments SStr {O} s.
Arguments SOther {O} o.
Arguments SNoMatch {O}.

(** What the code takes from other libraries: the type name and the deep comparison of
    values it has no case for, the printing of floats, the conversion of a float that no
    [int] equals, YAML encoding, regular expressions, and the parsing of floats. *)
Class OverrideLib (O : Type) := {
  other_type : O → string;
  other_equal : O → O → bool;
  sprint_other : O → string;
  sprint_float : bool → float → string;
  float_overflow : float → Z;
  Marshal : value (scalar O) → result string string;
  regexp_compile : string → option string;
  regexp_match : string → string → bool;
  regexp_replace : string → string → string → string;
  ParseFloat : string → option float;
}.

Abbreviation doc O := (value (scalar O)).

Section values.
Context {O : Type} `{OverrideLib O}.
Abbreviation val := (value (scalar O)).
Abbreviation R := (result error).

Definition vbool (b : bool) : val := VScalar (SBool b).
Definition vstr (s : string) : val := VScalar (SStr s).
Definition vint (z : Z) : val := VScalar (SInt KInt z).
Definition vfloat (f : float) : val := VScalar (SFloat false f).
Definition overrideNoMatch : val := VScalar SNoMatch.

Definition isOverrideNoMatch (v : val) : bool := match v with VScalar SNoMatch => true | _ => false end.

(** The number and whether it is an integer. *)
Definition overrideNumber (v : val) : option (float * bool) :=
  match v with
  | VScalar (SInt _ z) => Some (f_of_int z, true)
  | VScalar (SFloat _ f) => Some (f, false)
  | _ => None
  end.

(** [int(x)] of a [float64]. *)
Definition to_int (x : float) : Z :=
  match f_trunc x with
  | Some z => if (- 2 ^ 63 <=? z) && (z <? 2 ^ 63) then z else float_overflow x
  | None => float_overflow x
  end.

(** [fmt.Sprint] of a scalar. *)
Definition Sprint (s : scalar O) : string :=
  match s with
  | SBool b => if b then "true" else "false"
  | SInt _ z => Itoa z
  | SFloat single f => sprint_float single f
  | SStr s => s
  | SOther o => sprint_other o
  | SNoMatch => "{}"
  end.
(** [fmt.Sprint] of the values it is called with; [nil] prints as a word. *)
Definition sprint (v : val) : string := match v with VScalar s => Sprint s | _ => "<nil>" end.

Definition overrideTruthy (v : val) : bool :=
  match v with VNull => false | VScalar (SBool b) => b | _ => true end.

Definition overrideType (v : val) : string :=
  match v with
  | VNull => "!!null"
  | VScalar (SBool _) => "!!bool"
  | VScalar (SStr _) => "!!str"
  | VArr _ => "!!seq"
  | VMap _ => "!!map"
  | VScalar (SFloat _ _) => "!!float"
  | VScalar (SInt _ _) => "!!int"
  | VScalar (SOther o) => other_type o
  | VScalar SNoMatch => "provider.overrideNoMatch"
  end.

Definition isOverrideScalar (v : val) : bool :=
  match v with
  | VNull | VScalar (SBool _) | VScalar (SStr _) => true
  | _ => match overrideNumber v with Some _ => true | None => false end
  end.

(** ** Equality and containment *)

Definition scalar_equal (s t : scalar O) : bool :=
  match s, t with
  | SBool a, SBool b => Bool.eqb a b
  | SInt k a, SInt k' b => bool_decide (k = k') && (a =? b)
  | SFloat k a, SFloat k' b => Bool.eqb k k' && SFeqb a b
  | SStr a, SStr b => String.eqb a b
  | SOther a, SOther b => other_equal a b
  | SNoMatch, SNoMatch => true
  | _, _ => false
  end.

(** [reflect.DeepEqual] on trees. *)
Fixpoint DeepEqual (l r : val) {struct l} : bool :=
  match l, r with
  | VNull, VNull => true
  | VScalar s, VScalar t => scalar_equal s t
  | VArr a, VArr b =>
      (fix go a b := match a, b with
                     | [], [] => true
                     | x :: a, y :: b => DeepEqual x y && go a b
                     | _, _ => false
                     end) a b
  | VMap m, VMap n =>
      Nat.eqb (length m) (length n) &&
      forallb (λ e, match mget n e.1 with Some y => DeepEqual e.2 y | None => false end) m
  | _, _ => false
  end.

Definition overrideEqual (l r : val) : bool :=
  match overrideNumber l with
  | Some (x, xi) => match overrideNumber r with Some (y, yi) => Bool.eqb xi yi && SFeqb x y | None => false end
  | None => DeepEqual l r
  end.

Definition overrideYQEqual (l r : val) : bool :=
  if negb (isOverrideScalar l) || negb (isOverrideScalar r) then false
  else match l, r with
       | VNull, VNull => true
       | VNull, _ | _, VNull => false
       | _, _ =>
           match overrideNumber l, overrideNumber r with
           | Some (x, xi), Some (y, yi) => Bool.eqb xi yi && SFeqb x y
           | _, _ => String.eqb (sprint l) (sprint r)
           end
       end.

Fixpoint overrideContains (container contained : val) {struct container} : bool :=
  match container with
  | VScalar (SStr s) => match contained with VScalar (SStr t) => Contains s t | _ => false end
  | VArr l =>
      let values := match contained with VArr ws => ws | w => [w] end in
      forallb (λ w, existsb (λ c, overrideEqual c w || overrideContains c w) l) values
  | VMap m =>
      match contained with
      | VMap ws =>
          forallb (λ e, (fix find m := match m with
                         | [] => false
                         | (k, c) :: m => if bool_decide (e.1 = k) then overrideEqual c e.2 || overrideContains c e.2 else find m
                         end) m) ws
      | _ => false
      end
  | _ => false
  end.

(** ** Comparison and sorting *)

Definition compareOverrideValues (l r : val) : R Z :=
  match overrideNumber l with
  | Some (x, _) =>
      match overrideNumber r with
      | None => Err (Errorf "cannot compare number and %s" [overrideType r])
      | Some (y, _) => Ok (if SFltb x y then -1 else if SFltb y x then 1 else 0)
      end
  | None =>
      match l, r with
      | VScalar (SStr s), VScalar (SStr t) => Ok (match String.compare s t with Lt => -1 | Eq => 0 | Gt => 1 end)
      | _, _ => Err (Errorf "cannot compare %s and %s" [overrideType l; overrideType r])
      end
  end.

Definition rank (v : val) : Z :=
  match v with
  | VNull => 0
  | VScalar (SBool _) => 1
  | VScalar (SStr _) => 3
  | VArr _ | VMap _ => 4
  | _ => match overrideNumber v with Some _ => 2 | None => 4 end
  end.

Definition compareOverrideSortValues (l r : val) : R Z :=
  if negb (rank l =? rank r) then Ok (if rank l <? rank r then -1 else 1)
  else match l, r with
       | VNull, _ => Ok 0
       | VScalar (SBool a), VScalar (SBool b) => Ok (if Bool.eqb a b then 0 else if negb a then -1 else 1)
       | _, _ =>
           if (rank l =? 2) || (rank l =? 3) then compareOverrideValues l r
           else Err (Errorf "sort only supports scalar array values in override-expr" [])
       end.

(** [sort.SliceStable] with the error its comparison keeps: an element moves to the left
    past the elements of [done] (the last one first) that it is less than.  For more than
    20 elements the library merges blocks sorted in this way, which gives the same result
    for every order in which the incomparable elements are the equal ones. *)
Fixpoint sort_insert (x : val) (done : list val) (e : option error) : list val * option error :=
  match done with
  | [] => ([x], e)
  | y :: done' =>
      let '(c, e) := match compareOverrideSortValues x y with
                     | Ok c => (c, e)
                     | Err e' => (0, match e with Some e => Some e | None => Some e' end)
                     end in
      if c <? 0 then let '(l, e) := sort_insert x done' e in (y :: l, e) else (x :: done, e)
  end.
Fixpoint sort_loop (todo done : list val) (e : option error) : list val * option error :=
  match todo with
  | [] => (rev done, e)
  | x :: todo => let '(done, e) := sort_insert x done e in sort_loop todo done e
  end.
Definition sort_values (values : list val) : R (list val) :=
  match sort_loop values [] None with (l, None) => Ok l | (_, Some e) => Err e end.

(** ** Arrays and mappings *)

Fixpoint flatten_value (depth : Z) (v : val) : list val :=
  match v with
  | VArr children =>
      if depth =? 0 then [cloneOverrideValue v]
      else concat (map (flatten_value (if 0 <? depth then depth - 1 else depth)) children)
  | _ => [cloneOverrideValue v]
  end.
Definition flattenOverrideArray (values : list val) (depth : Z) : list val := concat (map (flatten_value depth) values).

Definition overrideUniqueKey (v : val) : R string :=
  if isOverrideScalar v then Ok (match v with VNull => "null" | v => sprint v end)
  else match Marshal v with Ok s => Ok s | Err e => Err (Errorf e []) end.
Fixpoint unique_loop (values : list val) (seen : list string) : R (list val) :=
  match values with
  | [] => Ok []
  | v :: values =>
      let! key := overrideUniqueKey v in
      if bool_decide (key ∈ seen) then unique_loop values seen
      else let! l := unique_loop values (key :: seen) in Ok (cloneOverrideValue v :: l)
  end.

(** [result[key] = cloneOverrideValue(value)] for every entry of a mapping. *)
Definition copy_into (result m : list (string * val)) : list (string * val) :=
  fold_left (λ acc e, mset acc e.1 (cloneOverrideValue e.2)) m result.

Definition clone_entries (m : list (string * val)) : list (string * val) := map (λ e, (e.1, cloneOverrideValue e.2)) m.

(** Two mappings are merged entry by entry, anything else is replaced. *)
Fixpoint merge_value (l r : val) {struct r} : val :=
  match l, r with
  | VMap m, VMap n =>
      VMap ((fix go acc n := match n with
                             | [] => acc
                             | (k, v) :: n => go (mset acc k (merge_value (field acc k) v)) n
                             end) (clone_entries m) n)
  | _, _ => cloneOverrideValue r
  end.
Definition mergeOverrideMaps (m n : list (string * val)) : val := merge_value (VMap m) (VMap n).

(** ** Operators *)

Inductive operator := OpAnd | OpOr | OpAlternative | OpEqual | OpNotEqual | OpLess | OpLessEqual | OpGreater | OpGreaterEqual
  | OpAdd | OpSubtract | OpMultiply | OpDivide | OpModulo.
Definition operator_text (op : operator) : string :=
  match op with
  | OpAnd => "and" | OpOr => "or" | OpAlternative => "//" | OpEqual => "==" | OpNotEqual => "!=" | OpLess => "<" | OpLessEqual => "<="
  | OpGreater => ">" | OpGreaterEqual => ">=" | OpAdd => "+" | OpSubtract => "-" | OpMultiply => "*" | OpDivide => "/" | OpModulo => "%"
  end.

Definition evaluateOverrideNumbers (op : operator) (l r : val) : R val :=
  match overrideNumber l, overrideNumber r with
  | Some (x, xi), Some (y, yi) =>
      match op with
      | OpAdd => Ok (if xi && yi then vint (i64 (to_int x + to_int y)) else vfloat (f_add x y))
      | OpSubtract => Ok (if xi && yi then vint (i64 (to_int x - to_int y)) else vfloat (f_sub x y))
      | OpMultiply => Ok (if xi && yi then vint (i64 (to_int x * to_int y)) else vfloat (f_mul x y))
      | OpDivide => Ok (vfloat (f_div x y))
      | OpModulo =>
          if xi && yi then
            if SFeqb y f_zero then Err (Errorf "cannot modulo by zero" [])
            else Ok (vint (Z.rem (to_int x) (to_int y)))
          else Ok (vfloat (f_mod x y))
      | _ => Err (Errorf "unsupported numeric operator %q" [operator_text op])
      end
  | _, _ => Err (Errorf "operator %s cannot be used with %s and %s" [operator_text op; overrideType l; overrideType r])
  end.

Definition repeat_string (s : string) (count : val) : R val :=
  match overrideNumber count with
  | Some (n, true) =>
      if SFltb n f_zero then Err (Errorf "string multiplier must be a non-negative integer" [])
      else if SFltb (f_of_int 10000000) n then Err (Errorf "string multiplier cannot exceed 10 million" [])
      else Ok (vstr (Repeat s (Z.to_nat (to_int n))))
  | _ => Err (Errorf "string multiplier must be a non-negative integer" [])
  end.

Definition evaluate_comparison (holds : Z → bool) (both_null : bool) (l r : val) : R val :=
  if negb (isOverrideScalar l) || negb (isOverrideScalar r) then Err (Errorf "cannot compare %s and %s" [overrideType l; overrideType r])
  else match l, r with
       | VNull, VNull => Ok (vbool both_null)
       | VNull, _ | _, VNull => Ok (vbool false)
       | _, _ => let! c := compareOverrideValues l r in Ok (vbool (holds c))
       end.

Definition evaluate_add (l r : val) : R val :=
  match l with
  | VNull => Ok (cloneOverrideValue r)
  | VScalar (SStr s) =>
      match r with
      | VNull => Ok (vstr s)
      | _ => if negb (isOverrideScalar r) then Err (Errorf "cannot add string and %s" [overrideType r]) else Ok (vstr (s +:+ sprint r))
      end
  | VArr a =>
      match r with
      | VNull => Ok (VArr a)
      | VArr b => Ok (VArr (a ++ map cloneOverrideValue b))
      | _ => Ok (VArr (a ++ [cloneOverrideValue r]))
      end
  | VMap m =>
      match r with
      | VMap n => Ok (VMap (copy_into (clone_entries m) n))
      | _ => Err (Errorf "cannot add mapping and %s" [overrideType r])
      end
  | _ =>
      match r with
      | VScalar (SStr t) => if isOverrideScalar l then Ok (vstr (sprint l +:+ t)) else evaluateOverrideNumbers OpAdd l r
      | _ => evaluateOverrideNumbers OpAdd l r
      end
  end.

Definition evaluate_subtract (l r : val) : R val :=
  match l with
  | VNull => Ok (cloneOverrideValue r)
  | VArr a =>
      match r with
      | VArr b => Ok (VArr (List.filter (λ x, negb (existsb (overrideEqual x) b)) a))
      | _ => Err (Errorf "%s cannot be subtracted from !!seq" [overrideType r])
      end
  | _ => evaluateOverrideNumbers OpSubtract l r
  end.

Definition evaluate_multiply (l r : val) : R val :=
  match l, r with
  | _, VNull => Ok (cloneOverrideValue l)
  | VNull, (VArr _ | VMap _) => Ok (cloneOverrideValue r)
  | VMap m, VMap n => Ok (mergeOverrideMaps m n)
  | VMap _, _ => Err (Errorf "cannot multiply mapping and %s" [overrideType r])
  | VArr _, VArr _ => Ok (cloneOverrideValue r)
  | VScalar (SStr s), _ => repeat_string s r
  | _, VScalar (SStr s) => repeat_string s l
  | _, _ => evaluateOverrideNumbers OpMultiply l r
  end.

Definition evaluate_divide (l r : val) : R val :=
  match l with
  | VScalar (SStr s) =>
      match r with
      | VScalar (SStr t) => Ok (VArr (if String.eqb s "" then [] else map vstr (SplitString s t)))
      | _ => Err (Errorf "operator / cannot be used with !!str and %s" [overrideType r])
      end
  | _ => evaluateOverrideNumbers OpDivide l r
  end.

Definition evaluateOverrideBinary (op : operator) (l r : val) : R val :=
  match op with
  | OpAnd => Ok (vbool (overrideTruthy l && overrideTruthy r))
  | OpOr => Ok (vbool (overrideTruthy l || overrideTruthy r))
  | OpAlternative => Ok (if overrideTruthy l then l else r)
  | OpEqual => Ok (vbool (overrideYQEqual l r))
  | OpNotEqual => Ok (vbool (negb (overrideYQEqual l r)))
  | OpLess => evaluate_comparison (λ c, c <? 0) false l r
  | OpLessEqual => evaluate_comparison (λ c, c <=? 0) true l r
  | OpGreater => evaluate_comparison (λ c, 0 <? c) false l r
  | OpGreaterEqual => evaluate_comparison (λ c, 0 <=? c) true l r
  | OpAdd => evaluate_add l r
  | OpSubtract => evaluate_subtract l r
  | OpMultiply => evaluate_multiply l r
  | OpDivide => evaluate_divide l r
  | OpModulo => evaluateOverrideNumbers OpModulo l r
  end.
End values.
