(* ===== verification/OverrideEval.v ===== *)
(** * [adapter/provider/override_expr.go]: expressions, functions and statements

    An expression maps a value to a stream of values.  The code has three methods,
    [eval], [evalAll] and [evalAllInputs], of which a type of expressions has some; here
    [evalOverrideStreamInputs] has one case per type, and the stream of one input is the
    one of a list of one input, which is the same for every type: only a union looks at
    all inputs at once.  An expression that yields [overrideNoMatch{}] yields nothing. *)

From Stdlib Require Import ZArith Lia String Ascii SpecFloat.
From stdpp Require Import base strings numbers list.
From S2P Require Import Prelude GoStrings OverridePath OverrideValue.
#[local] Open Scope Z_scope.

(** ** Syntax *)

Inductive function_name := FLength | FType | FKeys | FHas | FContains | FSelect | FSub | FTest | FSplit | FJoin | FUpcase | FDowncase
  | FTrim | FTostring | FTonumber | FNot | FReverse | FSort | FUnique | FFlatten | FAny | FAll.
Inductive stream_function_name := SMap | SMapValues | SFilter | SToEntries | SFromEntries | SWithEntries | SAnyC | SAllC.

Definition function_text (f : function_name) : string :=
  match f with
  | FLength => "length" | FType => "type" | FKeys => "keys" | FHas => "has" | FContains => "contains" | FSelect => "select" | FSub => "sub"
  | FTest => "test" | FSplit => "split" | FJoin => "join" | FUpcase => "upcase" | FDowncase => "downcase" | FTrim => "trim"
  | FTostring => "tostring" | FTonumber => "tonumber" | FNot => "not" | FReverse => "reverse" | FSort => "sort" | FUnique => "unique"
  | FFlatten => "flatten" | FAny => "any" | FAll => "all"
  end.
Definition stream_function_text (f : stream_function_name) : string :=
  match f with
  | SMap => "map" | SMapValues => "map_values" | SFilter => "filter" | SToEntries => "to_entries" | SFromEntries => "from_entries"
  | SWithEntries => "with_entries" | SAnyC => "any_c" | SAllC => "all_c"
  end.

Inductive assign_operator := Assign | UpdateAssign | AddAssign | SubtractAssign | MultiplyAssign.
(** The operator of a compound assignment. *)
Definition compound_operator (op : assign_operator) : operator :=
  match op with SubtractAssign => OpSubtract | MultiplyAssign => OpMultiply | _ => OpAdd end.

Section syntax.
Context (O : Type).

(** A part of a string is its text, or an expression when it has one. *)
Inductive overrideValueExpr :=
| overrideLiteralExpr (v : value (scalar O))
| overrideStringExpr (parts : list (string * option overrideValueExpr))
| overridePathExpr (p : path)
| overrideArrayExpr (values : list overrideValueExpr)
| overrideMapExpr (entries : list (string * overrideValueExpr))
| overrideValueUpdateExpr (p : path) (op : assign_operator) (e : overrideValueExpr)
| overrideBinaryExpr (op : operator) (left right : overrideValueExpr)
| overrideFunctionExpr (name : function_name) (args : list overrideValueExpr)
| overrideStreamFunctionExpr (name : stream_function_name) (args : list overrideValueExpr)
| overridePipelineExpr (stages : list overrideValueExpr)
| overrideUnionExpr (values : list overrideValueExpr).

Inductive targetStage := TargetPath (p : path) | TargetCondition (e : overrideValueExpr).

Inductive overrideStatement :=
| overrideAssignStatement (p : path) (target : option (list targetStage)) (op : assign_operator) (e : overrideValueExpr)
| overrideFilterStatement (e : overrideValueExpr)
| overrideDeleteStatement (paths : list path).
End syntax.
Arguments overrideLiteralExpr {O}. Arguments overrideStringExpr {O}. Arguments overridePathExpr {O}. Arguments overrideArrayExpr {O}.
Arguments overrideMapExpr {O}. Arguments overrideValueUpdateExpr {O}. Arguments overrideBinaryExpr {O}. Arguments overrideFunctionExpr {O}.
Arguments overrideStreamFunctionExpr {O}. Arguments overridePipelineExpr {O}. Arguments overrideUnionExpr {O}.
Arguments TargetPath {O}. Arguments TargetCondition {O}.
Arguments overrideAssignStatement {O}. Arguments overrideFilterStatement {O}. Arguments overrideDeleteStatement {O}.

(** [overridePath.String] *)
Fixpoint path_text (first : bool) (p : path) : string :=
  match p with
  | [] => ""
  | Field k :: p => (if first then "" else ".") +:+ k +:+ path_text false p
  | Index i :: p => "[" +:+ Itoa i +:+ "]" +:+ path_text false p
  | Wildcard :: p => "[]" +:+ path_text false p
  end.
Definition path_String (p : path) : string := "." +:+ path_text true p.

(** Results of all elements, in order; the first error ends the loop. *)
Section each.
Context {E A B : Type} (f : A → result E (list B)).
Fixpoint each (l : list A) : result E (list B) :=
  match l with
  | [] => Ok []
  | x :: l => let! ys := f x in let! zs := each l in Ok (ys ++ zs)
  end.
End each.

(** The stages of a pipeline, each on all results of the one before. *)
Section pipe.
Context {E A B : Type} (f : A → list B → result E (list B)).
Fixpoint pipe (stages : list A) (values : list B) : result E (list B) :=
  match stages with
  | [] => Ok values
  | e :: stages => let! next := f e values in pipe stages next
  end.
End pipe.

Section eval.
Context {O : Type} `{OverrideLib O} `{UnicodeCase}.
Abbreviation val := (value (scalar O)).
Abbreviation R := (result error).
Abbreviation expr := (overrideValueExpr O).

(** ** Functions of one value *)

Definition show_counts (want : list Z) : string := "[" +:+ Join (Itoa <$> want) " " +:+ "]".
Definition argCount (name : function_name) (args : list val) (want : list Z) : R unit :=
  if bool_decide (Z.of_nat (length args) ∈ want) then Ok tt
  else Err (Errorf "%s expects %v arguments, got %d" [function_text name; show_counts want; Itoa (Z.of_nat (length args))]).
Definition stringArg (name : function_name) (args : list val) (i : nat) : R string :=
  match args !! i with
  | Some (VScalar (SStr s)) => Ok s
  | _ => Err (Errorf "%s argument %d must be a string" [function_text name; Itoa (Z.of_nat i + 1)])
  end.
Definition arg (args : list val) (i : nat) : val := default VNull (args !! i).

Definition arrayInput (format : string) (args : list string) (input : val) : R (list val) :=
  match input with VArr l => Ok l | _ => Err (Errorf format (args ++ [overrideType input])) end.
Definition stringInput (format : string) (args : list string) (input : val) : R string :=
  match input with VScalar (SStr s) => Ok s | _ => Err (Errorf format args) end.

Definition marshal (v : val) : R string := match Marshal v with Ok s => Ok s | Err e => Err (Errorf e []) end.
Definition newline : string := String (ascii_of_nat 10) EmptyString.
Definition encode (v : val) : R string := let! s := marshal v in Ok (TrimSuffix s newline).

Definition fn_length (input : val) : R val :=
  match input with
  | VNull => Ok (vint 0)
  | VScalar (SStr s) => Ok (vint (Z.of_nat (String.length s)))
  | VArr l => Ok (vint (Z.of_nat (length l)))
  | VMap m => Ok (vint (Z.of_nat (length m)))
  | VScalar (SBool _ as s) | VScalar (SInt _ _ as s) | VScalar (SFloat _ _ as s) => Ok (vint (Z.of_nat (String.length (Sprint s))))
  | _ => Err (Errorf "length cannot be used with %s" [overrideType input])
  end.

Definition fn_keys (input : val) : R val :=
  match input with
  | VMap m => Ok (VArr (map (λ e, vstr e.1) m))
  | VArr l => Ok (VArr (imap (λ i _, vint (Z.of_nat i)) l))
  | _ => Err (Errorf "%s cannot be used with %s" ["keys"; overrideType input])
  end.

Definition fn_has (input : val) (args : list val) : R val :=
  match input with
  | VMap m => let! k := stringArg FHas args 0 in Ok (vbool (bool_decide (is_Some (mget m k))))
  | VArr l =>
      match overrideNumber (arg args 0) with
      | Some (x, true) => Ok (vbool (in_range (resolve_index (to_int x) (length l)) (length l)))
      | _ => Ok (vbool false)
      end
  | _ => Ok (vbool false)
  end.

Definition fn_contains (input : val) (args : list val) : R val :=
  let a := arg args 0 in
  match input with
  | VScalar (SStr s) => let! needle := stringArg FContains args 0 in Ok (vbool (Contains s needle))
  | VArr _ =>
      match a with
      | VArr _ => Ok (vbool (overrideContains input a))
      | _ => Err (Errorf "%s cannot check contained in !!seq" [overrideType a])
      end
  | VMap _ =>
      match a with
      | VMap _ => Ok (vbool (overrideContains input a))
      | _ => Err (Errorf "%s cannot check contained in !!map" [overrideType a])
      end
  | _ =>
      if negb (isOverrideScalar a) then Err (Errorf "%s cannot check contained in %s" [overrideType a; overrideType input])
      else if negb (String.eqb (overrideType input) (overrideType a)) then Ok (vbool false)
      else Ok (vbool (overrideEqual input a))
  end.

Definition compile (pattern : string) : R unit :=
  match regexp_compile pattern with None => Ok tt | Some e => Err (Wrapf "invalid regular expression: %w" [] (Errorf e [])) end.

Definition fn_test (input : val) (args : list val) : R val :=
  let! _ := argCount FTest args [1; 2] in
  let! _ := match args with
            | [_; _] => let! options := stringArg FTest args 1 in
                        if negb (String.eqb (Trim options (Ascii.eqb "g")) "") then Err (Errorf "unsupported test options %q" [options]) else Ok tt
            | _ => Ok tt
            end in
  let! s := stringInput "%s requires string input" ["test"] input in
  let! pattern := stringArg FTest args 0 in
  let! _ := compile pattern in
  Ok (vbool (regexp_match pattern s)).

Definition fn_sub (input : val) (args : list val) : R val :=
  let! _ := argCount FSub args [2] in
  let! s := stringInput "%s requires string input" ["sub"] input in
  let! pattern := stringArg FSub args 0 in
  let! _ := compile pattern in
  let! replacement := stringArg FSub args 1 in
  Ok (vstr (regexp_replace pattern s replacement)).

Definition fn_join (values : list val) (separator : string) : string :=
  Join (map (λ v, match v with VNull | VArr _ | VMap _ => "" | VScalar s => Sprint s end) values) separator.

Definition fn_tonumber (input : val) : R val :=
  match overrideNumber input with
  | Some _ => Ok input
  | None =>
      let! s := stringInput "tonumber requires string or number input" [] input in
      let error := Err (Errorf "cannot convert %q to number" [s]) in
      let convert base digits :=
        match ParseIntBase digits base with
        | Some z => Ok (vint z)
        | None => match ParseFloat s with Some f => Ok (vfloat f) | None => error end
        end in
      if HasPrefix s "0x" || HasPrefix s "0X" then convert 16 (drop_bytes 2 s)
      else if HasPrefix s "0o" then convert 8 (drop_bytes 2 s)
      else if HasPrefix s "0b" || HasPrefix s "0B" then error
      else convert 10 s
  end.

Definition fn_flatten (values : list val) (args : list val) : R val :=
  match args with
  | [a] =>
      match overrideNumber a with
      | Some (x, true) =>
          if SFltb x f_zero then Err (Errorf "flatten depth must be a non-negative integer" [])
          else Ok (VArr (flattenOverrideArray values (to_int x)))
      | _ => Err (Errorf "flatten depth must be a non-negative integer" [])
      end
  | _ => Ok (VArr (flattenOverrideArray values (-1)))
  end.

(** [overrideFunctionExpr.eval] once its arguments are evaluated. *)
Definition call_function (name : function_name) (input : val) (args : list val) : R val :=
  match name with
  | FSelect =>
      let! _ := argCount name args [1] in
      Ok (if isOverrideNoMatch (arg args 0) || negb (overrideTruthy (arg args 0)) then overrideNoMatch else input)
  | FNot => let! _ := argCount name args [0] in Ok (vbool (negb (overrideTruthy input)))
  | FReverse => let! _ := argCount name args [0] in
      let! l := arrayInput "reverse only supports arrays, got %s" [] input in Ok (VArr (rev (map cloneOverrideValue l)))
  | FSort => let! _ := argCount name args [0] in
      let! l := arrayInput "sort only supports arrays in override-expr, got %s" [] input in
      let! l := sort_values (map cloneOverrideValue l) in Ok (VArr l)
  | FUnique => let! _ := argCount name args [0] in
      let! l := arrayInput "unique only supports arrays, got %s" [] input in
      let! l := unique_loop l [] in Ok (VArr l)
  | FFlatten => let! _ := argCount name args [0; 1] in
      let! l := arrayInput "flatten only supports arrays, got %s" [] input in fn_flatten l args
  | FAny => let! _ := argCount name args [0] in
      let! l := arrayInput "%s only supports arrays, got %s" ["any"] input in Ok (vbool (existsb overrideTruthy l))
  | FAll => let! _ := argCount name args [0] in
      let! l := arrayInput "%s only supports arrays, got %s" ["all"] input in Ok (vbool (forallb overrideTruthy l))
  | FLength => let! _ := argCount name args [0] in fn_length input
  | FType => let! _ := argCount name args [0] in Ok (vstr (overrideType input))
  | FKeys => let! _ := argCount name args [0] in fn_keys input
  | FHas => let! _ := argCount name args [1] in fn_has input args
  | FContains => let! _ := argCount name args [1] in fn_contains input args
  | FSub => fn_sub input args
  | FTest => fn_test input args
  | FSplit => let! _ := argCount name args [1] in
      match input with
      | VNull => Ok overrideNoMatch
      | _ => let! s := stringInput "split requires string input" [] input in
             let! separator := stringArg name args 0 in Ok (VArr (map vstr (SplitString s separator)))
      end
  | FJoin => let! _ := argCount name args [1] in
      match input with
      | VArr l => let! separator := stringArg name args 0 in Ok (vstr (fn_join l separator))
      | _ => Err (Errorf "join requires array input" [])
      end
  | FUpcase => let! _ := argCount name args [0] in let! s := stringInput "%s requires string input" ["upcase"] input in Ok (vstr (ToUpper s))
  | FDowncase => let! _ := argCount name args [0] in let! s := stringInput "%s requires string input" ["downcase"] input in Ok (vstr (ToLower s))
  | FTrim => let! _ := argCount name args [0] in let! s := stringInput "%s requires string input" ["trim"] input in Ok (vstr (TrimSpace s))
  | FTostring => let! _ := argCount name args [0] in
      match input with VScalar (SStr s) => Ok (vstr s) | _ => let! s := encode input in Ok (vstr s) end
  | FTonumber => let! _ := argCount name args [0] in fn_tonumber input
  end.

(** ** Functions that take expressions *)

Definition overrideCollectionValues (input : val) : R (list val) :=
  match input with
  | VArr l => Ok l
  | VMap m => Ok (map snd m)
  | _ => Err (Errorf "expected array or mapping, got %s" [overrideType input])
  end.

Definition entry (key v : val) : val := VMap [("key", key); ("value", v)].

(** [None] is the nil slice. *)
Definition toOverrideEntries (input : val) : R (option (list val)) :=
  match input with
  | VNull => Ok None
  | VArr l => Ok (Some (imap (λ i x, entry (vint (Z.of_nat i)) (cloneOverrideValue x)) l))
  | VMap m => Ok (Some (map (λ e, entry (vstr e.1) (cloneOverrideValue e.2)) m))
  | _ => Err (Errorf "%s has no keys" [overrideType input])
  end.

Fixpoint collect_entries (i : Z) (entries : list val) (acc : list (string * val)) : R (list (string * val)) :=
  match entries with
  | [] => Ok acc
  | VMap m :: entries =>
      match mget m "key" with
      | None => Err (Errorf "entry %d has no key" [Itoa i])
      | Some key =>
          match mget m "value" with
          | None => Err (Errorf "entry %d has no value" [Itoa i])
          | Some v =>
              match key with
              | VScalar (SStr k) => collect_entries (i + 1) entries (mset acc k (cloneOverrideValue v))
              | _ => Err (Errorf "entry %d key must be a string in override-expr" [Itoa i])
              end
          end
      end
  | _ => Err (Errorf "entry %d must be a mapping" [Itoa i])
  end.
Definition fromOverrideEntries (input : val) : R (list (string * val)) :=
  match input with
  | VArr entries => collect_entries 0 entries []
  | _ => Err (Errorf "from_entries only supports arrays" [])
  end.

(** The loops of [overrideStreamFunctionExpr.evalAll]; [items] are the results of all its
    arguments for one value. *)
Section stream.
Context (items : val → R (list val)).

Definition keep (v : val) : R (list val) :=
  let! vs := items v in Ok (if existsb overrideTruthy vs then [cloneOverrideValue v] else []).

Definition transform (v : val) : R val :=
  let! vs := items (cloneOverrideValue v) in Ok (match vs with x :: _ => cloneOverrideValue x | [] => cloneOverrideValue v end).

(** [any_c] stops at the first match, [all_c] at the first mismatch ([stop]). *)
Fixpoint quantify (stop : bool) (values : list val) : R bool :=
  match values with
  | [] => Ok (negb stop)
  | v :: values =>
      let! vs := items v in
      match vs with
      | x :: _ => if Bool.eqb (overrideTruthy x) stop then Ok stop else quantify stop values
      | [] => quantify stop values
      end
  end.
End stream.

(** [overrideStreamFunctionExpr.evalAll]; [batch] are the results of all arguments, each
    for all values, [noargs] tells that there are none. *)
Definition call_stream_function (name : stream_function_name) (noargs : bool) (batch : list val → R (list val)) (input : val) : R (list val) :=
  let text := stream_function_text name in
  let items x := batch [x] in
  match name with
  | SMap | SFilter =>
      if noargs then Err (Errorf "%s expects an expression" [text])
      else match overrideCollectionValues input with
           | Err e => Err (Wrapf "%s: %w" [text] e)
           | Ok values =>
               let! result := match name with SMap => batch values | _ => each (keep items) values end in
               Ok [VArr result]
           end
  | SMapValues =>
      if noargs then Err (Errorf "map_values expects an expression" [])
      else match input with
           | VArr l => let! l := update_list (transform items) l in Ok [VArr l]
           | VMap m => let! m := update_map (transform items) m in Ok [VMap m]
           | _ => Err (Errorf "map_values only supports arrays and mappings, got %s" [overrideType input])
           end
  | SToEntries =>
      if negb noargs then Err (Errorf "to_entries expects no arguments" [])
      else let! entries := toOverrideEntries input in Ok (match entries with None => [] | Some l => [VArr l] end)
  | SFromEntries =>
      if negb noargs then Err (Errorf "from_entries expects no arguments" [])
      else let! m := fromOverrideEntries input in Ok [VMap m]
  | SWithEntries =>
      if noargs then Err (Errorf "with_entries expects an expression" [])
      else match input with
           | VMap _ =>
               let! entries := toOverrideEntries input in
               match entries with
               | None => Ok []
               | Some entries => let! l := each items entries in let! m := fromOverrideEntries (VArr l) in Ok [VMap m]
               end
           | _ => Err (Errorf "with_entries only supports mappings, got %s" [overrideType input])
           end
  | SAnyC | SAllC =>
      if noargs then Err (Errorf "%s expects a condition" [text])
      else match input with
           | VArr l => let! b := quantify items (match name with SAnyC => true | _ => false end) l in Ok [vbool b]
           | _ => Err (Errorf "%s only supports arrays, got %s" [text; overrideType input])
           end
  end.

(** ** Expressions *)

(** What [evalOverrideStream] makes of the result of [eval]. *)
Definition emit (v : val) : list val := if isOverrideNoMatch v then [] else [v].

(** What [evalOverrideSingle] makes of a stream. *)
Definition one (vs : list val) : R val :=
  match vs with
  | [] => Ok overrideNoMatch
  | [v] => Ok v
  | _ => Err (Errorf "expression produced %d results; collect them with [...]" [Itoa (Z.of_nat (length vs))])
  end.

(** The results of a part of a string. *)
Definition part_text (vs : list val) : R string :=
  match vs with
  | [] => Ok ""
  | v :: _ =>
      match v with
      | VScalar (SStr s) => Ok s
      | VNull => Ok "null"
      | _ => if isOverrideScalar v then Ok (sprint v) else encode v
      end
  end.
Section parts.
Context {E : Type} (f : E → R (list val)).
Fixpoint concat_parts (parts : list (string * option E)) : R string :=
  match parts with
  | [] => Ok ""
  | (literal, None) :: parts => let! s := concat_parts parts in Ok (literal +:+ s)
  | (_, Some e) :: parts => let! vs := f e in let! t := part_text vs in let! s := concat_parts parts in Ok (t +:+ s)
  end.

(** A mapping: an entry without results is left out, of several the last one counts. *)
Fixpoint build_map (entries : list (string * E)) (acc : list (string * val)) : R (list (string * val)) :=
  match entries with
  | [] => Ok acc
  | (k, e) :: entries => let! vs := f e in build_map entries (match last vs with Some v => mset acc k v | None => acc end)
  end.

Fixpoint eval_args (args : list E) : R (list val) :=
  match args with
  | [] => Ok []
  | e :: args => let! vs := f e in let! v := one vs in let! l := eval_args args in Ok (v :: l)
  end.
End parts.

(** The updater of [|=]: nothing leaves the old value. *)
Definition update_with (f : val → R (list val)) (old : val) : R val :=
  let! vs := f old in let! v := one vs in Ok (if isOverrideNoMatch v then old else v).

Definition wrap_update (p : path) (r : R val) : R val :=
  match r with Ok v => Ok v | Err e => Err (Wrapf "update %s: %w" [path_String p] e) end.

(** [overrideValueUpdateExpr.eval]; [f] evaluates the right side. *)
Definition value_update (p : path) (op : assign_operator) (f : val → R (list val)) (input : val) : R val :=
  let root := cloneOverrideValue input in
  match op with
  | Assign =>
      let! vs := f root in let! v := one vs in
      if isOverrideNoMatch v then Ok root else wrap_update p (updateOverridePath root p (λ _, Ok (cloneOverrideValue v)))
  | UpdateAssign => wrap_update p (updateOverridePath root p (update_with f))
  | _ =>
      let! vs := f root in let! v := one vs in
      wrap_update p (updateOverridePath root p (λ old, evaluateOverrideBinary (compound_operator op) old v))
  end.

(** [overrideBinaryExpr.evalAll]; [right] evaluates the right side. *)
Definition binary (op : operator) (lefts : list val) (right : unit → R (list val)) : R (list val) :=
  let all := let! rights := right tt in
             each (λ l, each (λ r, let! v := evaluateOverrideBinary op l r in Ok [v]) rights) lefts in
  match op with
  | OpAlternative =>
      match lefts with
      | [] => right tt
      | _ => each (λ l, if overrideTruthy l then Ok [l] else right tt) lefts
      end
  | OpAnd =>
      if existsb overrideTruthy lefts then
        let! rights := right tt in
        each (λ l, if overrideTruthy l then each (λ r, let! v := evaluateOverrideBinary op l r in Ok [v]) rights else Ok [vbool false]) lefts
      else Ok (map (λ _, vbool false) lefts)
  | OpOr =>
      if existsb (λ l, negb (overrideTruthy l)) lefts then
        let! rights := right tt in
        each (λ l, if overrideTruthy l then Ok [vbool true] else each (λ r, let! v := evaluateOverrideBinary op l r in Ok [v]) rights) lefts
      else Ok (map (λ l, vbool (overrideTruthy l)) lefts)
  | _ => all
  end.

Fixpoint evalOverrideStreamInputs (e : expr) (inputs : list val) {struct e} : R (list val) :=
  match e with
  | overrideUnionExpr es => each (λ e, evalOverrideStreamInputs e inputs) es
  | overridePipelineExpr stages => each (λ x, pipe evalOverrideStreamInputs stages [x]) inputs
  | overridePathExpr p => each (λ x, Ok (lookupOverridePathStream x p)) inputs
  | overrideBinaryExpr op l r =>
      each (λ x, let! lefts := evalOverrideStreamInputs l [x] in binary op lefts (λ _, evalOverrideStreamInputs r [x])) inputs
  | overrideStreamFunctionExpr name args =>
      each (call_stream_function name (match args with [] => true | _ => false end)
              (λ values, each (λ e, evalOverrideStreamInputs e values) args)) inputs
  | overrideLiteralExpr v => each (λ _, Ok (emit (cloneOverrideValue v))) inputs
  | overrideStringExpr parts =>
      each (λ x, let! s := concat_parts (λ e, evalOverrideStreamInputs e [x]) parts in Ok [vstr s]) inputs
  | overrideArrayExpr es => each (λ x, let! l := each (λ e, evalOverrideStreamInputs e [x]) es in Ok [VArr l]) inputs
  | overrideMapExpr entries =>
      each (λ x, let! m := build_map (λ e, evalOverrideStreamInputs e [x]) entries [] in Ok [VMap m]) inputs
  | overrideValueUpdateExpr p op e =>
      each (λ x, let! v := value_update p op (λ y, evalOverrideStreamInputs e [y]) x in Ok (emit v)) inputs
  | overrideFunctionExpr name args =>
      each (λ x, if isOverrideNoMatch x then Ok []
                 else let! vs := eval_args (λ e, evalOverrideStreamInputs e [x]) args in
                      let! v := call_function name x vs in Ok (emit v)) inputs
  end.

Definition evalOverrideStream (e : expr) (input : val) : R (list val) := evalOverrideStreamInputs e [input].
Definition evalOverrideSingle (e : expr) (input : val) : R val := let! vs := evalOverrideStream e input in one vs.

(** ** Statements *)

Definition target_stage (s : targetStage O) : overrideTargetStage (scalar O) :=
  match s with TargetPath p => StagePath p | TargetCondition e => StageCondition (evalOverrideStream e) end.

(** The updater of an assignment, [None] when there is nothing to assign. *)
Definition assign_updater (op : assign_operator) (e : expr) (root : val) : R (option (val → R val)) :=
  match op with
  | Assign => let! v := evalOverrideSingle e root in
      Ok (if isOverrideNoMatch v then None else Some (λ _, Ok (cloneOverrideValue v)))
  | UpdateAssign => Ok (Some (update_with (evalOverrideStream e)))
  | _ => let! v := evalOverrideSingle e root in
      Ok (if isOverrideNoMatch v then None else Some (λ old, evaluateOverrideBinary (compound_operator op) old v))
  end.

(** One update of the mapping, which it replaces when the path is the root. *)
Definition update_mapping (context : string) (args : list string) (m : list (string * val)) (p : path) (updater : val → R val) : R (list (string * val)) :=
  match updateOverridePath (VMap m) p updater with
  | Err e => Err (Wrapf context args e)
  | Ok (VMap m) => Ok (match p with [] => clone_entries m | _ => m end)
  | Ok v => Err (Errorf "root expression must produce a mapping, got %s" [overrideType v])
  end.
Fixpoint update_selections (m : list (string * val)) (ps : list path) (updater : val → R val) : R (list (string * val)) :=
  match ps with
  | [] => Ok m
  | p :: ps => let! m := update_mapping "update selected path: %w" [] m p updater in update_selections m ps updater
  end.

Definition apply_assign (p : path) (target : option (list (targetStage O))) (op : assign_operator) (e : expr) (m : list (string * val)) : R (list (string * val)) :=
  let! updater := assign_updater op e (VMap m) in
  match updater with
  | None => Ok m
  | Some updater =>
      match target with
      | Some stages =>
          let! selections := resolve overrideTruthy (target_stage <$> stages) (VMap m) in
          update_selections m (sel_path <$> selections) updater
      | None => update_mapping "update %s: %w" [path_String p] m p updater
      end
  end.

Definition apply_filter (e : expr) (m : list (string * val)) : R (list (string * val)) :=
  let! v := evalOverrideSingle e (VMap m) in
  if isOverrideNoMatch v then Err (Errorf "filter expression produced no result; a mapping is required" [])
  else match v with
       | VMap m => Ok (clone_entries m)
       | _ => Err (Errorf "filter expression must produce a mapping, got %s" [overrideType v])
       end.

Definition apply_delete (paths : list path) (m : list (string * val)) : R (list (string * val)) :=
  match deleteOverridePaths (VMap m) paths with
  | VMap m => Ok m
  | _ => Err (Errorf "root expression must produce a mapping" [])
  end.

Definition apply_statement (s : overrideStatement O) (m : list (string * val)) : R (list (string * val)) :=
  match s with
  | overrideAssignStatement p target op e => apply_assign p target op e m
  | overrideFilterStatement e => apply_filter e m
  | overrideDeleteStatement paths => apply_delete paths m
  end.

(** [Apply]: the statements in order, until one fails. *)
Fixpoint Apply (statements : list (overrideStatement O)) (m : list (string * val)) : R (list (string * val)) :=
  match statements with
  | [] => Ok m
  | s :: statements => let! m := apply_statement s m in Apply statements m
  end.
End eval.
