(* ===== verification/OverrideEvalTheory.v ===== *)
(** * What override expressions compute

    Evaluation and application keep documents well formed and free of the internal marker
    [overrideNoMatch{}]; entries, merging and selected targets. *)

From Stdlib Require Import ZArith Lia String Ascii SpecFloat Sorted.
From stdpp Require Import base strings numbers list.
From S2P Require Import Prelude GoStrings OverridePath OverridePathTheory OverrideValue OverrideEval.
#[local] Open Scope Z_scope.

(** A scalar that is not the marker; when not [strict] any scalar will do. *)
Definition marked {O} (s : scalar O) : bool := match s with SNoMatch => true | _ => false end.
Definition unmarked {O} (strict : bool) (s : scalar O) : Prop := strict = true → marked s = false.

(** Literals the parser makes and, when [strict], no compound assignment inside an expression. *)
Definition literal_ok {O} (v : value (scalar O)) : bool :=
  match v with VNull => true | VScalar s => negb (marked s) | _ => false end.
Definition simple_update (op : assign_operator) : bool := match op with Assign | UpdateAssign => true | _ => false end.

Fixpoint plain {O} (strict : bool) (e : overrideValueExpr O) : bool :=
  match e with
  | overrideLiteralExpr v => literal_ok v
  | overrideStringExpr parts => forallb (λ p, match p.2 with Some e => plain strict e | None => true end) parts
  | overridePathExpr _ => true
  | overrideArrayExpr es | overridePipelineExpr es | overrideUnionExpr es => forallb (plain strict) es
  | overrideMapExpr entries => forallb (λ p, plain strict p.2) entries
  | overrideValueUpdateExpr _ op e => (simple_update op || negb strict) && plain strict e
  | overrideBinaryExpr _ l r => plain strict l && plain strict r
  | overrideFunctionExpr _ args | overrideStreamFunctionExpr _ args => forallb (plain strict) args
  end.

Definition plain_statement {O} (strict : bool) (s : overrideStatement O) : bool :=
  match s with
  | overrideAssignStatement _ target _ e =>
      plain strict e && match target with Some stages => forallb (λ st, match st with TargetPath _ => true | TargetCondition e => plain strict e end) stages | None => true end
  | overrideFilterStatement e => plain strict e
  | overrideDeleteStatement _ => true
  end.

Section expr_ind.
Context {O : Type} (P : overrideValueExpr O → Prop).
Context (Hlit : ∀ v, P (overrideLiteralExpr v))
  (Hstr : ∀ parts, Forall (λ p, match p.2 with Some e => P e | None => True end) parts → P (overrideStringExpr parts))
  (Hpath : ∀ p, P (overridePathExpr p))
  (Harr : ∀ es, Forall P es → P (overrideArrayExpr es))
  (Hmap : ∀ entries, Forall (λ p, P p.2) entries → P (overrideMapExpr entries))
  (Hupd : ∀ p op e, P e → P (overrideValueUpdateExpr p op e))
  (Hbin : ∀ op l r, P l → P r → P (overrideBinaryExpr op l r))
  (Hfun : ∀ name args, Forall P args → P (overrideFunctionExpr name args))
  (Hsfun : ∀ name args, Forall P args → P (overrideStreamFunctionExpr name args))
  (Hpipe : ∀ es, Forall P es → P (overridePipelineExpr es))
  (Hunion : ∀ es, Forall P es → P (overrideUnionExpr es)).

Lemma expr_rect' : ∀ e, P e.
Proof using All.
  fix IH 1.
  intros [v|parts|p|es|entries|p op e|op l r|name args|name args|es|es].
  - apply Hlit.
  - apply Hstr. induction parts as [|[t [e|]] parts IHp]; constructor; [apply IH|done|done|done].
  - apply Hpath.
  - apply Harr. induction es; constructor; [apply IH|done].
  - apply Hmap. induction entries as [|[k e] es IHp]; constructor; [apply IH|done].
  - apply Hupd, IH.
  - apply Hbin; apply IH.
  - apply Hfun. induction args; constructor; [apply IH|done].
  - apply Hsfun. induction args; constructor; [apply IH|done].
  - apply Hpipe. induction es; constructor; [apply IH|done].
  - apply Hunion. induction es; constructor; [apply IH|done].
Qed.
End expr_ind.

Lemma each_forall {E A B} (P : B → Prop) (f : A → result E (list B)) l zs :
  (∀ x ys, x ∈ l → f x = Ok ys → Forall P ys) → each f l = Ok zs → Forall P zs.
Proof.
  revert zs. induction l as [|x l IH]; intros zs Hf; cbn [each]; [intros [= <-]; constructor|].
  destruct (f x) as [ys|] eqn:E1; [|done]. destruct (each f l) as [zs'|]; [|done]. intros [= <-].
  apply list.Forall_app. split; [eapply Hf; [by left|done]|]. apply IH; [|done]. intros y ys' Hy. apply Hf. by right.
Qed.

Lemma each_id {E A} (f : A → result E (list A)) l : (∀ x, f x = Ok [x]) → each f l = Ok l.
Proof. intros Hf. induction l as [|x l IH]; [done|]. cbn [each]. by rewrite Hf, IH. Qed.

Lemma each_one {E A B} (f : A → result E (list B)) x : each f [x] = f x.
Proof. cbn [each]. destruct (f x); [by rewrite app_nil_r|done]. Qed.

Lemma forallb_Forall {A} (b : A → bool) (P : A → Prop) l : Forall (λ x, b x = true → P x) l → forallb b l = true → Forall P l.
Proof. induction 1 as [|x l Hx _ IH]; [constructor|]. cbn. intros [? ?]%andb_true_iff. constructor; auto. Qed.

Section values.
Context {O : Type} `{OverrideLib O} `{UnicodeCase}.
Abbreviation val := (value (scalar O)).
Context (strict : bool).
Abbreviation good := (wfs (@unmarked O strict)).
Implicit Types (v x : val) (m n : list (string * val)).

Lemma clone_entries_id m : clone_entries m = m.
Proof. unfold clone_entries. induction m as [|[k v] m IH]; [done|]. cbn. by rewrite clone_id, IH. Qed.
Lemma clone_list_id (l : list val) : map cloneOverrideValue l = l.
Proof. induction l as [|v l IH]; [done|]. cbn. by rewrite clone_id, IH. Qed.

Lemma good_empty : good (VMap []).
Proof. apply wf_map. split; constructor. Qed.

Lemma good_emit v : (isOverrideNoMatch v = false → good v) → Forall good (emit v).
Proof. unfold emit. destruct (isOverrideNoMatch v); [constructor|]. intros Hv. constructor; [by apply Hv|constructor]. Qed.

Lemma good_one vs v : Forall good vs → one vs = Ok v → isOverrideNoMatch v = false → good v.
Proof. intros Hvs. destruct Hvs as [|x vs Hx Hvs]; cbn; [by intros [= <-]|]. destruct vs; [by intros [= <-]|done]. Qed.

Lemma lookup_good p : ∀ v, good v → Forall good (lookupOverridePathStream v p).
Proof.
  induction p as [|[k|i|] p IH]; intros v Hv; cbn [lookupOverridePathStream]; [by apply Forall_singleton|..].
  - destruct v; try by repeat constructor. apply IH. by apply field_wf.
  - destruct v as [| |l|]; try by repeat constructor. destruct (in_range _ _); [|by repeat constructor]. apply IH. rewrite nth_lookup. apply wf_arr in Hv.
    destruct (l !! _) eqn:E; [|done]. cbn. by eapply Forall_lookup_1.
  - destruct v as [| |l|m]; try by repeat constructor.
    + apply wf_arr in Hv. induction Hv as [|x l Hx _ IHl]; [constructor|]. cbn [fmap list_fmap concat]. apply list.Forall_app. split; [by apply IH|done].
    + apply wf_map in Hv as [_ Hv]. induction Hv as [|x l Hx _ IHl]; [constructor|]. cbn [fmap list_fmap concat]. apply list.Forall_app. split; [by apply IH|done].
Qed.

(** ** Operators *)

Lemma copy_into_good m n : good (VMap m) → Forall (λ e, good e.2) n → good (VMap (copy_into m n)).
Proof.
  intros Hm Hn. unfold copy_into. revert m Hm. induction Hn as [|[k x] n Hx _ IH]; intros m Hm; cbn [fold_left]; [done|]. apply IH. apply mset_wf; [done|]. by rewrite clone_id.
Qed.

Lemma merge_good r : ∀ l, good l → good r → good (merge_value l r).
Proof.
  induction r as [|s|l' IH|n IH] using value_rect'; intros l Hl Hr; [by destruct l|by destruct l|destruct l; cbn [merge_value]; by rewrite clone_id|].
  destruct l as [|s|l|m]; cbn [merge_value]; rewrite ?clone_id; [done|done|done|]. rewrite clone_entries_id. apply wf_map in Hr as [_ Hr]. revert m Hl.
  induction IH as [|[k x] n Hx _ IHn]; intros m Hm; [done|]. apply list.Forall_cons in Hr as [Hgx Hr]. apply IHn; [done|]. apply mset_wf; [done|]. apply Hx; [by apply field_wf|done].
Qed.

Lemma flatten_good v : ∀ depth, good v → Forall good (flatten_value depth v).
Proof.
  induction v as [|s|l IH|m IH] using value_rect'; intros depth Hv; cbn [flatten_value]; rewrite ?clone_id; try by apply Forall_singleton.
  destruct (depth =? 0); [by apply Forall_singleton|]. apply wf_arr in Hv. induction IH as [|x l Hx _ IHl]; [constructor|]. apply list.Forall_cons in Hv as [H1 Hv]. cbn [map concat]. apply list.Forall_app. split; [by apply Hx|by apply IHl].
Qed.
Lemma flatten_array_good (l : list val) depth : Forall good l → Forall good (flattenOverrideArray l depth).
Proof. unfold flattenOverrideArray. induction 1 as [|x l Hx _ IH]; [constructor|]. cbn [map concat]. apply list.Forall_app. split; [by apply flatten_good|done]. Qed.

Lemma unique_good (l : list val) : ∀ seen l', Forall good l → unique_loop l seen = Ok l' → Forall good l'.
Proof.
  induction l as [|x l IH]; intros seen l' Hl; cbn [unique_loop]; [intros [= <-]; constructor|]. apply list.Forall_cons in Hl as [Hx Hl]. destruct (overrideUniqueKey x); [|done].
  destruct (bool_decide _); [by apply IH|]. destruct (unique_loop l _) eqn:E; [|done]. intros [= <-]. constructor; [by rewrite clone_id|by eapply IH].
Qed.

Lemma sort_insert_perm x done e : (sort_insert x done e).1 ≡ₚ x :: done.
Proof.
  revert e. induction done as [|y done IH]; intros e; cbn [sort_insert]; [done|].
  destruct (match compareOverrideSortValues x y with Ok c => (c, e) | Err e' => _ end) as [c e1]. destruct (c <? 0); [|done].
  specialize (IH e1). destruct (sort_insert x done e1) as [l e2]. cbn [fst] in *. rewrite IH. apply Permutation_swap.
Qed.
Lemma sort_loop_perm todo : ∀ done e, (sort_loop todo done e).1 ≡ₚ todo ++ done.
Proof.
  induction todo as [|x todo IH]; intros done e; cbn [sort_loop]; [cbn; by rewrite <- Permutation_rev|].
  pose proof (sort_insert_perm x done e) as Hp. destruct (sort_insert x done e) as [d e1]. cbn [fst] in Hp. rewrite IH, Hp. cbn [app]. by rewrite Permutation_middle.
Qed.
Lemma sort_values_perm l l' : sort_values l = Ok l' → l' ≡ₚ l.
Proof. unfold sort_values. pose proof (sort_loop_perm l [] None) as Hp. destruct (sort_loop l [] None) as [d [e|]]; [done|]. intros [= <-]. cbn in Hp. by rewrite app_nil_r in Hp. Qed.

Lemma forall_good_perm (l l' : list val) : l' ≡ₚ l → Forall good l → Forall good l'.
Proof. intros Hp. by rewrite Hp. Qed.

Lemma strings_good (l : list string) : good (VArr (map (λ s, @vstr O s) l)).
Proof. apply wf_arr. induction l; constructor; done. Qed.

Lemma numbers_good op l r v : evaluateOverrideNumbers op l r = Ok v → good v.
Proof.
  unfold evaluateOverrideNumbers. destruct (overrideNumber l) as [[x xi]|]; [|done]. destruct (overrideNumber r) as [[y yi]|]; [|done].
  destruct op; try done; try (intros [= <-]; by destruct (xi && yi)); try by intros [= <-]. destruct (xi && yi); [destruct (SFeqb _ _); [done|]|]; by intros [= <-].
Qed.

Lemma comparison_good holds b l r v : evaluate_comparison holds b l r = Ok v → good v.
Proof. unfold evaluate_comparison. destruct (_ || _); [done|]. destruct l, r; try (by intros [= <-]); destruct (compareOverrideValues _ _); try done; by intros [= <-]. Qed.

Lemma repeat_good s c v : repeat_string s c = Ok v → good v.
Proof. unfold repeat_string. destruct (overrideNumber c) as [[n []]|]; [|done|done]. do 2 (destruct (SFltb _ _); [done|]). by intros [= <-]. Qed.

Lemma add_good l r v : good l → good r → evaluate_add l r = Ok v → good v.
Proof.
  intros Hl Hr. assert (∀ w, evaluateOverrideNumbers OpAdd l r = Ok w → good w) as Hn by (intros; by eapply numbers_good). unfold evaluate_add. destruct l as [|s|a|m].
  - intros [= <-]. by rewrite clone_id.
  - destruct s, r as [|[]| |]; cbn [isOverrideScalar overrideNumber negb]; first [apply Hn|by intros [= <-]].
  - rewrite wf_arr in Hl. rewrite (clone_id r). destruct r as [|s|b|n]; rewrite ?clone_list_id; intros [= <-]; apply wf_arr; [done| | |]; apply list.Forall_app; (split; [done|]); [by apply Forall_singleton|by apply wf_arr in Hr|by apply Forall_singleton].
  - destruct r as [|s|b|n]; try done. intros [= <-]. rewrite clone_entries_id. apply copy_into_good; [done|]. by apply wf_map in Hr as [_ ?].
Qed.

Lemma binary_good op l r v : good l → good r → evaluateOverrideBinary op l r = Ok v → good v.
Proof.
  intros Hl Hr. destruct op; cbn [evaluateOverrideBinary]; try (by intros [= <-]); try apply comparison_good; try apply numbers_good.
  - intros [= <-]. by destruct (overrideTruthy l).
  - by apply add_good.
  - unfold evaluate_subtract. destruct l as [|s|a|m]; try apply numbers_good; [intros [= <-]; by rewrite clone_id|]. destruct r as [|s|b|n]; try done. intros [= <-].
    apply wf_arr. rewrite wf_arr in Hl. apply list.Forall_forall. intros x Hx. apply list_elem_of_In, filter_In in Hx as [Hx _]. rewrite list.Forall_forall in Hl. apply Hl. by apply list_elem_of_In.
  - unfold evaluate_multiply. rewrite !clone_id.
    destruct l as [|[]| |], r as [|[]| |]; first [apply numbers_good|apply repeat_good|done|intros [= <-]; done|intros [= <-]; by apply merge_good].
  - unfold evaluate_divide. destruct l as [|[]| |]; try apply numbers_good. destruct r as [|[]| |]; try done. intros [= <-]. destruct (String.eqb _ _); [by apply wf_arr|apply strings_good].
Qed.

(** ** Functions *)

Lemma call_function_good name input args v : good input → call_function name input args = Ok v → isOverrideNoMatch v = false → good v.
Proof.
  intros Hin. destruct name; cbn [call_function]; try (destruct (argCount _ args _); [|done]).
  - unfold fn_length. destruct input as [|[]| |]; try done; by intros [= <-].
  - by intros [= <-].
  - unfold fn_keys. destruct input as [| |l|m]; try done; intros [= <-] _.
    + apply wf_arr, list.Forall_forall. intros x Hx. apply elem_of_lookup_imap in Hx as (? & ? & -> & ?). done.
    + apply wf_arr, list.Forall_forall. intros x (e & <- & _)%list_elem_of_In%in_map_iff. done.
  - unfold fn_has. destruct input as [| |l|m]; try (by intros [= <-]); [destruct (overrideNumber _) as [[? []]|]; by intros [= <-]|]. destruct (stringArg _ _ _); [|done]. by intros [= <-].
  - unfold fn_contains. destruct input as [|s|l|m]; [..|destruct (arg args 0); by intros [= <-]|destruct (arg args 0); by intros [= <-]];
      [|destruct s; [..|destruct (stringArg _ _ _); [|done]; by intros [= <-]| |]]; destruct (negb _); try done; destruct (negb _); by intros [= <-].
  - intros [= <-]. by destruct (_ || _).
  - unfold fn_sub. destruct (argCount _ _ _); [|done]. destruct (stringInput _ _ _); [|done]. destruct (stringArg _ _ _); [|done]. destruct (compile _); [|done]. destruct (stringArg _ _ _); [|done]. by intros [= <-].
  - unfold fn_test. destruct (argCount _ _ _); [|done]. destruct (match args with [_; _] => _ | _ => _ end); [|done]. destruct (stringInput _ _ _); [|done]. destruct (stringArg _ _ _); [|done]. destruct (compile _); [|done]. by intros [= <-].
  - destruct input as [|s| |]; [by intros [= <-]|..]; destruct (stringInput _ _ _); try done; destruct (stringArg _ _ _); try done; intros [= <-] _; apply strings_good.
  - destruct input; try done. destruct (stringArg _ _ _); [|done]. by intros [= <-].
  - destruct (stringInput _ _ _); [|done]. by intros [= <-].
  - destruct (stringInput _ _ _); [|done]. by intros [= <-].
  - destruct (stringInput _ _ _); [|done]. by intros [= <-].
  - destruct input as [|[]| |]; try (by intros [= <-]); (destruct (encode _); [|done]); by intros [= <-].
  - unfold fn_tonumber. destruct (overrideNumber input); [by intros [= <-]|]. destruct (stringInput _ _ _); [|done].
    repeat (destruct (_ || _) || destruct (HasPrefix _ _)); try done; (destruct (ParseIntBase _ _); [by intros [= <-]|]; destruct (ParseFloat _); [by intros [= <-]|done]).
  - by intros [= <-].
  - destruct input as [| |l|]; try done. cbn [arrayInput]. intros [= <-] _. rewrite clone_list_id. apply wf_arr. eapply forall_good_perm; [symmetry; apply Permutation_rev|]. by apply wf_arr.
  - destruct input as [| |l|]; try done. cbn [arrayInput]. rewrite clone_list_id. destruct (sort_values l) eqn:E; [|done]. intros [= <-] _. apply wf_arr. eapply forall_good_perm; [by apply sort_values_perm|]. by apply wf_arr.
  - destruct input as [| |l|]; try done. cbn [arrayInput]. destruct (unique_loop l []) eqn:E; [|done]. intros [= <-] _. apply wf_arr. eapply unique_good; [|done]. by apply wf_arr.
  - destruct input as [| |l|]; try done. cbn [arrayInput]. unfold fn_flatten. apply wf_arr in Hin.
    destruct args as [|a0 [|? ?]]; [intros [= <-] _; by apply wf_arr, flatten_array_good| |intros [= <-] _; by apply wf_arr, flatten_array_good].
    destruct (overrideNumber a0) as [[? []]|]; try done. destruct (SFltb _ _); [done|]. intros [= <-] _. by apply wf_arr, flatten_array_good.
  - destruct (arrayInput _ _ _); [|done]. by intros [= <-].
  - destruct (arrayInput _ _ _); [|done]. by intros [= <-].
Qed.

Lemma entries_good v l : good v → toOverrideEntries v = Ok (Some l) → Forall good l.
Proof.
  assert (∀ key x, good key → good x → good (entry key x)) as He by (intros; apply wf_map; split; [by repeat constructor|by repeat constructor]).
  destruct v as [| |l0|m]; cbn [toOverrideEntries]; try done; intros Hv [= <-]; apply list.Forall_forall; intros x Hx.
  - apply elem_of_lookup_imap in Hx as (i & y & -> & Hy). rewrite clone_id. apply He; [done|]. apply wf_arr in Hv. by eapply Forall_lookup_1.
  - apply list_elem_of_In, in_map_iff in Hx as (e & <- & Hx). rewrite clone_id. apply He; [done|]. apply wf_map in Hv as [_ Hv]. rewrite list.Forall_forall in Hv. by apply Hv, list_elem_of_In.
Qed.

Lemma mget_good (P : scalar O → Prop) m k x : wfs P (VMap m) → mget m k = Some x → wfs P x.
Proof. intros Hm Hg. pose proof (field_wf _ m k Hm) as Hf. unfold field in Hf. by rewrite Hg in Hf. Qed.

Lemma collect_good (l : list val) : ∀ i acc m, Forall good l → good (VMap acc) → collect_entries i l acc = Ok m → good (VMap m).
Proof.
  induction l as [|v l IH]; intros i acc m Hl Ha; cbn [collect_entries]; [by intros [= <-]|]. apply list.Forall_cons in Hl as [Hv Hl]. destruct v as [| | |e]; try done.
  destruct (mget e "key") as [key|]; [|done]. destruct (mget e "value") as [x|] eqn:Ex; [|done]. destruct key as [|[]| |]; try done. apply IH; [done|]. apply mset_wf; [done|]. rewrite clone_id. by eapply (mget_good _ e).
Qed.

Lemma from_entries_good v m : good v → fromOverrideEntries v = Ok m → good (VMap m).
Proof. destruct v; try done. intros Hv. apply collect_good; [by apply wf_arr|exact good_empty]. Qed.

Lemma transform_good items v y : (∀ x ys, good x → items x = Ok ys → Forall good ys) → good v → transform items v = Ok y → good y.
Proof.
  intros Hi Hv. unfold transform. rewrite clone_id. destruct (items v) as [vs|] eqn:E; [|done]. intros [= <-]. specialize (Hi _ _ Hv E). destruct Hi; [done|by rewrite clone_id].
Qed.

(** Collections of good values, and their functions. *)
Lemma stream_function_good name noargs batch input vs :
  (∀ xs ys, Forall good xs → batch xs = Ok ys → Forall good ys) → good input → call_stream_function name noargs batch input = Ok vs → Forall good vs.
Proof.
  intros Hb Hin. assert (∀ x ys, good x → batch [x] = Ok ys → Forall good ys) as Hi by (intros x ys Hx; apply Hb; by apply Forall_singleton).
  assert (∀ values, overrideCollectionValues input = Ok values → Forall good values) as Hc.
  { intros values. destruct input as [| |l|m]; try done; intros [= <-]; [by apply wf_arr|]. apply wf_map in Hin as [_ Hin]. by apply Forall_fmap. }
  assert (∀ ys, each (λ x, batch [x]) ys = Ok vs → Forall good ys → Forall good vs) as He.
  { intros ys Hys Hg. eapply each_forall; [|done]. intros x zs Hx. apply Hi. rewrite list.Forall_forall in Hg. by apply Hg. }
  destruct name; cbn [call_stream_function]; destruct noargs; cbn [negb]; try done.
  - destruct (overrideCollectionValues input) as [values|]; [|done]. destruct (batch values) eqn:E; [|done]. intros [= <-]. apply Forall_singleton, wf_arr. eapply Hb; [|done]. by apply Hc.
  - destruct input as [| |l|m]; try done.
    + destruct (update_list _ l) as [l'|] eqn:E; [|done]. intros [= <-]. apply Forall_singleton, wf_arr. apply wf_arr in Hin. eapply update_list_wf; [|done|done]. intros x y. by apply transform_good.
    + destruct (update_map _ m) as [m'|] eqn:E; [|done]. intros [= <-]. apply Forall_singleton, wf_map. apply wf_map in Hin as [Hs Hm]. eapply update_map_wf in E as [-> ?]; [done| |done]. intros x y. by apply transform_good.
  - destruct (overrideCollectionValues input) as [values|]; [|done]. destruct (each _ values) as [l|] eqn:E; [|done]. intros [= <-]. apply Forall_singleton, wf_arr. eapply each_forall; [|done].
    intros x ys Hx. unfold keep. destruct (batch [x]); [|done]. intros [= <-]. destruct (existsb _ _); [|constructor]. apply Forall_singleton. rewrite clone_id. specialize (Hc _ eq_refl). rewrite list.Forall_forall in Hc. by apply Hc.
  - destruct (toOverrideEntries input) as [[l|]|] eqn:E; try done; intros [= <-]; [|constructor]. apply Forall_singleton, wf_arr. by eapply entries_good.
  - destruct (fromOverrideEntries input) as [m|] eqn:E; [|done]. intros [= <-]. apply Forall_singleton. by eapply from_entries_good.
  - destruct input as [| | |m]; try done. destruct (toOverrideEntries (VMap m)) as [[l|]|] eqn:E; [|by intros [= <-]|done]. destruct (each _ l) as [l'|] eqn:E2; [|done].
    destruct (fromOverrideEntries (VArr l')) as [m'|] eqn:E3; [|done]. intros [= <-]. apply Forall_singleton. eapply from_entries_good; [|done]. apply wf_arr. eapply each_forall; [|done]. intros x zs Hx. apply Hi.
    pose proof (entries_good _ _ Hin E) as Hl. rewrite list.Forall_forall in Hl. by apply Hl.
  - destruct input; try done. destruct (quantify _ _ _); [|done]. intros [= <-]. by apply Forall_singleton.
  - destruct input; try done. destruct (quantify _ _ _); [|done]. intros [= <-]. by apply Forall_singleton.
Qed.

(** ** Expressions *)

Lemma pipe_good {E} (f : E → list val → result error (list val)) stages : ∀ xs ys,
  Forall (λ e, ∀ xs ys, Forall good xs → f e xs = Ok ys → Forall good ys) stages → Forall good xs → pipe f stages xs = Ok ys → Forall good ys.
Proof.
  induction stages as [|e stages IH]; intros xs ys Hf Hx; cbn [pipe]; [by intros [= <-]|]. apply list.Forall_cons in Hf as [He Hf].
  destruct (f e xs) as [zs|] eqn:E1; [|done]. apply IH; [done|]. by eapply He.
Qed.

Lemma binary_stream_good op lefts right vs : Forall good lefts → (∀ ys, right tt = Ok ys → Forall good ys) → binary op lefts right = Ok vs → Forall good vs.
Proof.
  intros Hl Hr. rewrite list.Forall_forall in Hl.
  assert (∀ l rights ys, l ∈ lefts → right tt = Ok rights → each (λ r, let! w := evaluateOverrideBinary op l r in Ok [w]) rights = Ok ys → Forall good ys) as Hrow.
  { intros l rights ys Hin Hrs. apply each_forall. intros r zs Hz. destruct (evaluateOverrideBinary op l r) as [v|] eqn:E; [|done]. intros [= <-]. apply Forall_singleton. specialize (Hr _ Hrs). rewrite list.Forall_forall in Hr. eapply binary_good; [| |done]; auto. }
  destruct op; cbn [binary]; try (destruct (right tt) as [rights|] eqn:E; [|done]; apply each_forall; intros l ys Hin; by apply Hrow).
  - destruct (existsb _ _); [|intros [= <-]; apply list.Forall_forall; by intros x (? & <- & _)%list_elem_of_In%in_map_iff].
    destruct (right tt) as [rights|] eqn:E; [|done]. apply each_forall. intros l ys Hin. destruct (overrideTruthy l); [by apply Hrow|]. intros [= <-]. by apply Forall_singleton.
  - destruct (existsb _ _); [|intros [= <-]; apply list.Forall_forall; by intros x (? & <- & _)%list_elem_of_In%in_map_iff].
    destruct (right tt) as [rights|] eqn:E; [|done]. apply each_forall. intros l ys Hin. destruct (overrideTruthy l); [|by apply Hrow]. intros [= <-]. by apply Forall_singleton.
  - destruct lefts as [|l0 lefts]; [apply Hr|]. apply each_forall. intros l ys Hin. destruct (overrideTruthy l); [intros [= <-]; by apply Forall_singleton, Hl|apply Hr].
Qed.

Lemma build_map_good {E} (f : E → result error (list val)) entries : ∀ acc m,
  Forall (λ p, ∀ ys, f p.2 = Ok ys → Forall good ys) entries → good (VMap acc) → build_map f entries acc = Ok m → good (VMap m).
Proof.
  induction entries as [|[k e] entries IH]; intros acc m Hf Ha; cbn [build_map]; [by intros [= <-]|]. apply list.Forall_cons in Hf as [He Hf].
  destruct (f e) as [vs|] eqn:E1; [|done]. apply IH; [done|]. destruct (last vs) as [v|] eqn:El; [|done]. apply mset_wf; [done|]. specialize (He _ E1). rewrite list.Forall_forall in He. apply He. by apply last_Some_elem_of.
Qed.

Lemma update_with_good f old v : (∀ ys, f old = Ok ys → Forall good ys) → good old → update_with f old = Ok v → good v.
Proof.
  unfold update_with. intros Hf Ho. destruct (f old) as [vs|]; [|done]. destruct (one vs) as [w|] eqn:E; [|done]. intros [= <-].
  destruct (isOverrideNoMatch w) eqn:Em; [done|]. eapply good_one; [|done|done]. by apply Hf.
Qed.

Lemma value_update_good p op f x v : simple_update op || negb strict = true → (∀ y ys, good y → f y = Ok ys → Forall good ys) → good x → value_update p op f x = Ok v → good v.
Proof.
  intros Hop Hf Hx. unfold value_update. rewrite clone_id.
  assert (∀ vs w op', strict = false → f x = Ok vs → one vs = Ok w → (wrap_update p (updateOverridePath x p (λ old, evaluateOverrideBinary op' old w))) = Ok v → good v) as Hc.
  { intros vs w op' Hst E1 E2. destruct (updateOverridePath x p _) as [v'|] eqn:E3; [|done]. intros [= <-]. eapply update_wf; [|exact Hx|exact E3]. intros y z Hy. apply binary_good; [done|].
    destruct (isOverrideNoMatch w) eqn:Em; [destruct w as [|[]| |]; try done; intros Ht; by rewrite Hst in Ht|]. eapply good_one; [|done|done]. exact (Hf _ _ Hx E1). }
  destruct op; cbn [simple_update orb] in Hop.
  - destruct (f x) as [vs|] eqn:E1; [|done]. destruct (one vs) as [w|] eqn:E2; [|done]. destruct (isOverrideNoMatch w) eqn:Em; [by intros [= <-]|].
    destruct (updateOverridePath x p _) as [v'|] eqn:E3; [|done]. intros [= <-]. eapply update_wf; [|exact Hx|exact E3]. intros _ y _ [= <-]. rewrite clone_id. eapply good_one; [|done|done]. by eapply Hf.
  - destruct (updateOverridePath x p _) as [v'|] eqn:E3; [|done]. intros [= <-]. eapply update_wf; [|exact Hx|exact E3]. intros y z Hy. apply update_with_good; [|done]. intros ys. by apply Hf.
  - apply negb_true_iff in Hop. destruct (f x) as [vs|]; [|done]. destruct (one vs) as [w|] eqn:E2; [|done]. by eapply Hc.
  - apply negb_true_iff in Hop. destruct (f x) as [vs|]; [|done]. destruct (one vs) as [w|] eqn:E2; [|done]. by eapply Hc.
  - apply negb_true_iff in Hop. destruct (f x) as [vs|]; [|done]. destruct (one vs) as [w|] eqn:E2; [|done]. by eapply Hc.
Qed.

Definition keeps_good (e : overrideValueExpr O) : Prop := ∀ inputs vs, Forall good inputs → evalOverrideStreamInputs e inputs = Ok vs → Forall good vs.

Lemma eval_good e : plain strict e = true → keeps_good e.
Proof.
  induction e as [v|parts IH|p|es IH|entries IH|p op e IH|op l r IHl IHr|name args IH|name args IH|es IH|es IH] using expr_rect'; cbn [plain]; intros Hp inputs vs Hin;
    rewrite list.Forall_forall in Hin; cbn [evalOverrideStreamInputs]; apply each_forall.
  - intros x ys _ [= <-]. rewrite clone_id. apply good_emit. intros _. destruct v as [|s| |]; try done. intros _. by apply negb_true_iff in Hp.
  - intros x ys _. destruct (concat_parts _ parts); [|done]. intros [= <-]. by apply Forall_singleton.
  - intros x ys Hx [= <-]. by apply lookup_good, Hin.
  - intros x ys Hx. destruct (each _ es) as [l|] eqn:E; [|done]. intros [= <-]. apply Forall_singleton, wf_arr. apply (forallb_Forall (plain strict) keeps_good) in IH; [|exact Hp]. rewrite list.Forall_forall in IH. eapply each_forall; [|done].
    intros e zs He. apply IH; [done|]. by apply Forall_singleton, Hin.
  - intros x ys Hx. destruct (build_map _ entries []) as [m|] eqn:E; [|done]. intros [= <-]. apply Forall_singleton. pose proof (forallb_Forall (λ p, plain strict p.2) (λ p, keeps_good p.2) entries IH Hp) as Hk. eapply (build_map_good _ _ [] m); [|exact good_empty|exact E].
    eapply list.Forall_impl; [exact Hk|]. intros [k e] He zs. apply He. by apply Forall_singleton, Hin.
  - intros x ys Hx. apply andb_true_iff in Hp as [Hop Hp]. destruct (value_update _ _ _ x) as [v|] eqn:E; [|done]. intros [= <-]. apply good_emit. intros _. eapply value_update_good; [done| |by apply Hin|done].
    intros y zs Hy. apply IH; [done|]. by apply Forall_singleton.
  - intros x ys Hx. apply andb_true_iff in Hp as [Hpl Hpr]. destruct (evalOverrideStreamInputs l [x]) as [lefts|] eqn:E; [|done]. apply binary_stream_good.
    + eapply IHl; [done| |done]. by apply Forall_singleton, Hin.
    + intros zs. apply IHr; [done|]. by apply Forall_singleton, Hin.
  - intros x ys Hx. destruct (isOverrideNoMatch x); [intros [= <-]; constructor|]. destruct (eval_args _ args) as [vs'|]; [|done]. destruct (call_function name x vs') as [v|] eqn:E; [|done]. intros [= <-].
    apply good_emit. eapply call_function_good; [|done]. by apply Hin.
  - intros x ys Hx. apply stream_function_good; [|by apply Hin]. intros xs zs Hxs. apply (forallb_Forall (plain strict) keeps_good) in IH; [|exact Hp]. rewrite list.Forall_forall in IH. apply each_forall. intros e ws He. by apply IH.
  - intros x ys Hx. apply pipe_good; [|by apply Forall_singleton, Hin]. exact (forallb_Forall (plain strict) keeps_good es IH Hp).
  - intros e ys He. apply (forallb_Forall (plain strict) keeps_good) in IH; [|exact Hp]. rewrite list.Forall_forall in IH. apply IH; [done|]. by apply list.Forall_forall.
Qed.

(** ** Statements *)

Lemma update_mapping_good c a m p f m' : (∀ x y, good x → f x = Ok y → good y) → good (VMap m) → update_mapping c a m p f = Ok m' → good (VMap m').
Proof.
  intros Hf Hm. unfold update_mapping. destruct (updateOverridePath (VMap m) p f) as [v|] eqn:E; [|done]. pose proof (update_wf _ _ _ _ _ Hf Hm E) as Hv. destruct v; try done. intros [= <-]. rewrite clone_entries_id. by destruct p.
Qed.
Lemma update_selections_good ps f : ∀ m m', (∀ x y, good x → f x = Ok y → good y) → good (VMap m) → update_selections m ps f = Ok m' → good (VMap m').
Proof.
  induction ps as [|p ps IH]; intros m m' Hf Hm; cbn [update_selections]; [by intros [= <-]|]. destruct (update_mapping _ _ m p f) as [m1|] eqn:E; [|done]. apply IH; [done|]. by eapply update_mapping_good.
Qed.

Lemma single_good e x v : plain strict e = true → good x → evalOverrideSingle e x = Ok v → isOverrideNoMatch v = false → good v.
Proof.
  intros Hp Hx. unfold evalOverrideSingle, evalOverrideStream. destruct (evalOverrideStreamInputs e [x]) as [vs|] eqn:E; [|done]. apply good_one. eapply eval_good; [done| |done]. by apply Forall_singleton.
Qed.

Lemma assign_updater_good op e m f : plain strict e = true → good (VMap m) → assign_updater op e (VMap m) = Ok (Some f) → ∀ x y, good x → f x = Ok y → good y.
Proof.
  intros Hp Hm Hf x y Hx.
  assert (∀ v, evalOverrideSingle e (VMap m) = Ok v → isOverrideNoMatch v = false → good v) as Hs by (intros v; by apply single_good).
  destruct op; cbn [assign_updater] in Hf; try (destruct (evalOverrideSingle e (VMap m)) as [v|]; [|done]; specialize (Hs v eq_refl); destruct (isOverrideNoMatch v); [done|]); injection Hf as <-.
  - intros [= <-]. rewrite clone_id. by apply Hs.
  - apply update_with_good; [|done]. intros ys. apply eval_good; [done|]. by apply Forall_singleton.
  - apply (binary_good OpAdd); [done|by apply Hs].
  - apply (binary_good OpSubtract); [done|by apply Hs].
  - apply (binary_good OpMultiply); [done|by apply Hs].
Qed.

Lemma statement_good s m m' : plain_statement strict s = true → good (VMap m) → apply_statement s m = Ok m' → good (VMap m').
Proof.
  intros Hp Hm. destruct s as [p target op e|e|ps]; cbn [apply_statement plain_statement] in *.
  - apply andb_true_iff in Hp as [Hp _]. unfold apply_assign. destruct (assign_updater op e (VMap m)) as [[f|]|] eqn:E; [|by intros [= <-]|done]. pose proof (assign_updater_good _ _ _ _ Hp Hm E) as Hf.
    destruct target as [stages|]; [|by apply update_mapping_good]. destruct (resolve _ _ _); [|done]. by apply update_selections_good.
  - unfold apply_filter. destruct (evalOverrideSingle e (VMap m)) as [v|] eqn:E; [|done]. destruct (isOverrideNoMatch v) eqn:Em; [done|]. pose proof (single_good _ _ _ Hp Hm E Em) as Hv. destruct v; try done. intros [= <-]. by rewrite clone_entries_id.
  - unfold apply_delete. pose proof (delete_wf _ _ ps Hm) as Hd. destruct (deleteOverridePaths (VMap m) ps); try done. by intros [= <-].
Qed.

Lemma Apply_good ss : ∀ m m', forallb (plain_statement strict) ss = true → good (VMap m) → Apply ss m = Ok m' → good (VMap m').
Proof.
  induction ss as [|s ss IH]; intros m m'; cbn [forallb Apply]; [by intros _ ? [= <-]|]. intros [Hs Hss]%andb_true_iff Hm. destruct (apply_statement s m) as [m1|] eqn:E; [|done]. apply IH; [done|]. by eapply statement_good.
Qed.

(** ** Entries *)

Lemma mset_append m k x : Forall (λ e, key_lt e.1 k) m → mset m k x = m ++ [(k, x)].
Proof.
  induction 1 as [|[k0 x0] m Hk _ IH]; cbn [mset app]; [done|]. cbn in Hk. destruct (key_lt_flip _ _ Hk) as [-> Hne]. rewrite bool_decide_false by done. by rewrite IH.
Qed.

Lemma collect_step k x (l : list val) i acc : collect_entries i (entry (vstr k) x :: l) acc = collect_entries (i + 1) l (mset acc k (cloneOverrideValue x)).
Proof. reflexivity. Qed.

Lemma collect_all m : ∀ i acc, StronglySorted key_lt (acc ++ m).*1 → collect_entries i (map (λ e, entry (vstr e.1) (cloneOverrideValue e.2)) m) acc = Ok (acc ++ m).
Proof.
  induction m as [|[k x] m IH]; intros i acc Hs; cbn [map]; [cbn; by rewrite app_nil_r|]. rewrite collect_step. cbn [fst snd]. rewrite !clone_id.
  rewrite mset_append by (by eapply sorted_before). rewrite IH; rewrite <- app_assoc; [done|exact Hs].
Qed.

Lemma entries_roundtrip m : wf (VMap m) → (let! l := toOverrideEntries (VMap m) in fromOverrideEntries (VArr (default [] l))) = Ok m.
Proof. intros [Hs _]%wf_map. cbn [toOverrideEntries from_option id default fromOverrideEntries]. by apply (collect_all m 0 []). Qed.

(** ** Merging *)

(** The value under a list of keys, and whether something that is no mapping is in its way. *)
Fixpoint get_keys v (ks : list string) : option val :=
  match ks with
  | [] => Some v
  | k :: ks => match v with VMap m => match mget m k with Some x => get_keys x ks | None => None end | _ => None end
  end.
Fixpoint blocked v (ks : list string) : bool :=
  match ks with
  | [] => false
  | k :: ks => match v with VMap m => match mget m k with Some x => blocked x ks | None => false end | _ => true end
  end.

Lemma merge_null v : merge_value VNull v = v.
Proof. destruct v; apply clone_id. Qed.

Lemma mget_merge n : ∀ m k, NoDup n.*1 → ∃ m', merge_value (VMap m) (VMap n) = VMap m' ∧ mget m' k = match mget n k with Some y => Some (merge_value (field m k) y) | None => mget m k end.
Proof.
  intros m k Hnd. cbn [merge_value]. eexists. split; [reflexivity|]. rewrite clone_entries_id. revert m. induction n as [|[k0 x] n IH]; intros m; [done|].
  rewrite fmap_cons in Hnd. apply NoDup_cons in Hnd as [Hn Hnd]. cbn [fst] in Hn. rewrite (IH Hnd). cbn [mget]. rewrite mget_mset. destruct (decide (k = k0)) as [->|Hne].
  - rewrite !bool_decide_true by done. destruct (mget n k0) as [y|] eqn:E; [|done]. exfalso. apply Hn. clear -E. induction n as [|[k1 y1] n IH]; [done|]. rewrite fmap_cons. cbn [mget fst] in *. destruct (decide (k0 = k1)) as [->|Hne]; [by left|]. rewrite bool_decide_false in E by done. right. by apply IH.
  - rewrite !bool_decide_false by done. by rewrite field_mset_ne.
Qed.

Lemma merge_reads ks : ∀ l r, wf r → get_keys (merge_value l r) ks =
  match get_keys r ks with
  | Some y => Some (merge_value (default VNull (get_keys l ks)) y)
  | None => if blocked r ks then None else get_keys l ks
  end.
Proof.
  induction ks as [|k ks IH]; intros l r Hr; cbn [get_keys blocked]; [done|].
  destruct r as [|s|a|n]; [by destruct l|by destruct l|destruct l; cbn [merge_value]; by rewrite clone_id|].
  assert (∀ l' : val, (∀ m, l' ≠ VMap m) → merge_value l' (VMap n) = VMap n) as Hnot by (intros [| | |m] Hl; cbn [merge_value]; [apply clone_id..|by destruct (Hl m)]).
  destruct l as [|s|a|m]; [rewrite Hnot by done..|].
  1-3: destruct (mget n k) as [x|]; [|done]; destruct (get_keys x ks); [cbn; by rewrite merge_null|by destruct (blocked x ks)].
  destruct (mget_merge n m k) as (m' & -> & ->); [by apply sorted_nodup; apply wf_map in Hr as [? _]|]. destruct (mget n k) as [y|] eqn:E; [|done].
  rewrite IH by (by eapply mget_good).
  unfold field. destruct (mget m k) as [x|]; cbn [from_option id default]; [done|]. destruct (get_keys y ks) eqn:Ey; [by destruct ks|]. destruct ks; [by cbn in Ey|]. by destruct (blocked y _).
Qed.
End values.

(** ** Properties *)

(** Multiplying two mappings merges them at every depth: under a list of keys that the
    right one has, the result is the right value, merged with the left one when both are
    mappings; under any other list of keys it is what the left one has, unless the right
    one has something that is no mapping on the way. *)
Theorem override_merge_reads {O} `{OverrideLib O} (m n : list (string * value (scalar O))) :
  wf (VMap n) →
  ∃ v, evaluateOverrideBinary OpMultiply (VMap m) (VMap n) = Ok v ∧
    ∀ ks, get_keys v ks =
      match get_keys (VMap n) ks with
      | Some y => Some (match get_keys (VMap m) ks, y with Some (VMap a), VMap b => mergeOverrideMaps a b | _, _ => y end)
      | None => if blocked (VMap n) ks then None else get_keys (VMap m) ks
      end.
Proof.
  intros Hn. eexists. split; [reflexivity|]. intros ks. unfold mergeOverrideMaps at 1. rewrite merge_reads by done.
  destruct (get_keys (VMap n) ks) as [y|]; [|done]. f_equal. destruct (get_keys (VMap m) ks) as [x|]; cbn [from_option id default]; [|by rewrite merge_null].
  destruct x as [| | |a]; destruct y; try done; cbn [merge_value]; apply clone_id.
Qed.

(** Turning a mapping into entries and back gives the mapping, as two stages of a
    pipeline and as [with_entries] of the identity. *)
Theorem override_entries_roundtrip {O} `{OverrideLib O} `{UnicodeCase} (m : list (string * value (scalar O))) :
  wf (VMap m) →
  evalOverrideStream (overridePipelineExpr [overrideStreamFunctionExpr SToEntries []; overrideStreamFunctionExpr SFromEntries []]) (VMap m) = Ok [VMap m]
  ∧ evalOverrideStream (overrideStreamFunctionExpr SWithEntries [overridePathExpr []]) (VMap m) = Ok [VMap m].
Proof.
  intros Hm. pose proof (entries_roundtrip m Hm) as Hr. cbn [toOverrideEntries default from_option id] in Hr. unfold evalOverrideStream. split.
  - cbn [evalOverrideStreamInputs]. rewrite each_one. cbn [pipe evalOverrideStreamInputs]. rewrite each_one. cbn [call_stream_function negb toOverrideEntries]. rewrite each_one. cbn [call_stream_function negb]. by rewrite Hr.
  - cbn [evalOverrideStreamInputs]. rewrite each_one. cbn [call_stream_function toOverrideEntries].
    rewrite each_id; [by rewrite Hr|done].
Qed.

(** ** Witnesses *)

(** Libraries that know nothing: no foreign values, no regular expressions, no floats. *)
Definition plain_lib : OverrideLib Empty_set := {|
  other_type _ := "";
  other_equal _ _ := true;
  sprint_other _ := "";
  sprint_float _ _ := "float";
  float_overflow _ := - 2 ^ 63;
  Marshal _ := Ok "document";
  regexp_compile pattern := Some pattern;
  regexp_match _ _ := false;
  regexp_replace _ s _ := s;
  ParseFloat _ := None;
|}.
Definition tls (b : bool) : list (string * value (scalar Empty_set)) := [("tls", VMap [("enabled", VScalar (SBool b))])].

Lemma tls_wf b : wf (VMap (tls b)).
Proof. apply wf_map. split; repeat constructor. Qed.

Lemma override_merge_reads_witness : ∃ v, @evaluateOverrideBinary _ plain_lib OpMultiply (VMap (tls true)) (VMap (tls false)) = Ok v ∧ get_keys v ["tls"; "enabled"] = Some (VScalar (SBool false)).
Proof. destruct (@override_merge_reads _ plain_lib (tls true) (tls false) (tls_wf false)) as (v & Hv & Hk). exists v. split; [exact Hv|]. rewrite Hk. reflexivity. Defined.

Lemma override_entries_roundtrip_witness :
  @evalOverrideStream _ plain_lib ascii_case (overrideStreamFunctionExpr SWithEntries [overridePathExpr []]) (VMap (tls true)) = Ok [VMap (tls true)].
Proof. exact (proj2 (@override_entries_roundtrip _ plain_lib ascii_case (tls true) (tls_wf true))). Defined.
