(* ===== verification/OverrideParser.v ===== *)
(** * [adapter/provider/override_expr.go]: the lexer and the parser

    The lexer looks at single bytes.  A list of tokens stands for the tokens up to the
    end-of-input token, which the lexer appends and the parser never passes: reading the
    empty list reads that token, whose position is [eof].  The parser is the recursive
    descent of the code: a function takes the tokens from the current position on and gives
    back those that are left.  The recursion through [parseValueExpression] has fuel, and a
    loop as many rounds as there are tokens; [OutOfFuel] is the error of both. *)

From Stdlib Require Import ZArith Lia String Ascii.
From stdpp Require Import base strings numbers list.
From S2P Require Import Prelude GoStrings OverridePath OverrideValue OverrideEval.
#[local] Open Scope Z_scope.

Inductive overrideTokenKind := Dot | Identifier | StringToken | Number | LeftParen | RightParen | LeftBracket | RightBracket | LeftBrace | RightBrace
  | Comma | Semicolon | Colon | Pipe | AssignToken | UpdateAssignToken | AddAssignToken | SubtractAssignToken | MultiplyAssignToken
  | Plus | Minus | Multiply | Divide | Modulo | Alternative | EqualToken | NotEqualToken | Less | LessEqual | Greater | GreaterEqual | EOF.
#[export] Instance overrideTokenKind_eq_dec : EqDecision overrideTokenKind.
Proof. solve_decision. Defined.

Record overrideToken := mkToken { kind : overrideTokenKind; text : string; pos : Z }.

(** [At] is [errorf] of the parser with its column, [Nested] an error inside a token. *)
Inductive parse_error :=
| OutOfFuel
| At (column : Z) (format : string) (args : list string)
| AtColumn (format : string) (args : list string) (column : Z)
| Empty
| Nested (column : Z) (cause : parse_error).
Abbreviation P A := (result parse_error A).

(** ** Characters *)

(** [unicode.IsSpace], [unicode.IsLetter] and [unicode.IsDigit] of a byte taken as a rune. *)
Definition is_space (c : ascii) : bool := between 9 13 c || between 32 32 c || between 133 133 c || between 160 160 c.
Definition is_letter (c : ascii) : bool :=
  between 65 90 c || between 97 122 c || between 170 170 c || between 181 181 c || between 186 186 c || between 192 214 c || between 216 246 c || between 248 255 c.
Definition is_dec (c : ascii) : bool := between 48 57 c.
Definition is_hex (c : ascii) : bool := between 48 57 c || between 97 102 c || between 65 70 c.
Definition is_char (d c : ascii) : bool := Ascii.eqb c d.
Definition isOverrideIdentifierStart (c : ascii) : bool := is_char "_" c || is_letter c.
Definition isOverrideIdentifierPart (c : ascii) : bool := is_char "_" c || is_char "-" c || is_letter c || is_dec c.

(** The longest prefix of bytes with a property, and the rest. *)
Fixpoint span (p : ascii → bool) (s : string) : string * string :=
  match s with
  | String c t => if p c then let '(a, b) := span p t in (String c a, b) else ("", s)
  | EmptyString => ("", "")
  end.
(** One such byte, if there is one. *)
Definition optional (p : ascii → bool) (s : string) : string * string :=
  match s with String c t => if p c then (String c "", t) else ("", s) | EmptyString => ("", "") end.

(** ** The lexer *)

Definition backslash : ascii := "\".
Definition quote : ascii := ascii_of_nat 34.

(** What is between the quotes, still encoded, and what follows them. *)
Fixpoint scan_string (s : string) : option (string * string) :=
  match s with
  | EmptyString => None
  | String c t =>
      if is_char backslash c then
        match t with
        | String d t => match scan_string t with Some (raw, rest) => Some (String c (String d raw), rest) | None => None end
        | EmptyString => None
        end
      else if is_char quote c then Some ("", t)
      else match scan_string t with Some (raw, rest) => Some (String c raw, rest) | None => None end
  end.

Definition scanOverrideNumber (s : string) : string * string :=
  match s with
  | String a (String b t) =>
      if is_char "0" a && (is_char "x" b || is_char "X" b) then let '(ds, rest) := span is_hex t in (String a (String b ds), rest)
      else
        let '(ds, s) := span is_dec s in
        let '(dot, s) := optional (is_char ".") s in
        let '(fs, s) := if String.eqb dot "" then ("", s) else span is_dec s in
        let '(e, s) := optional (λ c, is_char "e" c || is_char "E" c) s in
        let '(sign, s) := if String.eqb e "" then ("", s) else optional (λ c, is_char "+" c || is_char "-" c) s in
        let '(es, s) := if String.eqb e "" then ("", s) else span is_dec s in
        (ds +:+ dot +:+ fs +:+ e +:+ sign +:+ es, s)
  | _ => (s, "")
  end.

(** Characters that are tokens, and characters whose token depends on the next one. *)
Fixpoint assoc {A} (c : ascii) (l : list (ascii * A)) : option A :=
  match l with [] => None | (d, a) :: l => if Ascii.eqb c d then Some a else assoc c l end.
Definition singles : list (ascii * overrideTokenKind) :=
  [("."%char, Dot); ("("%char, LeftParen); (")"%char, RightParen); ("["%char, LeftBracket); ("]"%char, RightBracket); ("{"%char, LeftBrace);
   ("}"%char, RightBrace); (","%char, Comma); (";"%char, Semicolon); (":"%char, Colon); ("%"%char, Modulo); ("~"%char, Identifier)].
Definition doubles : list (ascii * (ascii * overrideTokenKind * option overrideTokenKind)) :=
  [("|"%char, ("="%char, UpdateAssignToken, Some Pipe)); ("+"%char, ("="%char, AddAssignToken, Some Plus)); ("-"%char, ("="%char, SubtractAssignToken, Some Minus));
   ("*"%char, ("="%char, MultiplyAssignToken, Some Multiply)); ("/"%char, ("/"%char, Alternative, Some Divide)); ("="%char, ("="%char, EqualToken, Some AssignToken));
   ("!"%char, ("="%char, NotEqualToken, None)); ("<"%char, ("="%char, LessEqual, Some Less)); (">"%char, ("="%char, GreaterEqual, Some Greater))].

Definition unexpected (c : ascii) (at_ : Z) : parse_error := AtColumn "unexpected %q at column %d" [String c ""] (at_ + 1).

(** The token that starts with [c], and what follows it. *)
Definition lex_token (at_ : Z) (c : ascii) (t : string) : P (overrideToken * string) :=
  match assoc c singles with
  | Some k => Ok (mkToken k (String c "") at_, t)
  | None =>
      match assoc c doubles with
      | Some (d, long, short) =>
          match (match t with String d' t => if Ascii.eqb d' d then Some t else None | EmptyString => None end), short with
          | Some t, _ => Ok (mkToken long (String c (String d "")) at_, t)
          | None, Some k => Ok (mkToken k (String c "") at_, t)
          | None, None => Err (unexpected c at_)
          end
      | None =>
          if is_char quote c then
            match scan_string t with
            | Some (raw, rest) => Ok (mkToken StringToken raw at_, rest)
            | None => Err (AtColumn "unterminated string at column %d" [] (at_ + 1))
            end
          else if is_dec c then let '(ds, rest) := scanOverrideNumber (String c t) in Ok (mkToken Number ds at_, rest)
          else if isOverrideIdentifierStart c then let '(name, rest) := span isOverrideIdentifierPart t in Ok (mkToken Identifier (String c name) at_, rest)
          else Err (unexpected c at_)
      end
  end.

Definition slen (s : string) : Z := Z.of_nat (String.length s).

Fixpoint lex (fuel : nat) (at_ : Z) (s : string) : P (list overrideToken) :=
  match s with
  | EmptyString => Ok []
  | String c t =>
      match fuel with
      | Datatypes.O => Err OutOfFuel
      | Datatypes.S fuel =>
          if is_space c then lex fuel (at_ + 1) t
          else if is_char "#" c then Ok []
          else let! (token, rest) := lex_token at_ c t in
               let! tokens := lex fuel (at_ + (slen s - slen rest)) rest in
               Ok (token :: tokens)
      end
  end.
Definition lexOverrideExpr (source : string) : P (list overrideToken) := lex (String.length source) 0 source.

(** ** Strings *)

Fixpoint decodeOverrideString (raw : string) (column : Z) : P string :=
  match raw with
  | EmptyString => Ok ""
  | String c t =>
      if is_char backslash c then
        match t with
        | EmptyString => Err (AtColumn "invalid string escape at column %d" [] column)
        | String d t =>
            let! s := decodeOverrideString t (column + 2) in
            Ok (if is_char quote d then String quote s
                else if is_char "n" d then String (ascii_of_nat 10) s
                else if is_char backslash d then String backslash s
                else String backslash (String d s))
        end
      else let! s := decodeOverrideString t (column + 1) in Ok (String c s)
  end.

(** The expression of an interpolation, up to the parenthesis that closes it, and what follows. *)
Fixpoint findOverrideInterpolationEnd (depth : nat) (quoted : bool) (s : string) : option (string * string) :=
  let put c r := match r with Some (a, b) => Some (String c a, b) | None => None end in
  match s with
  | EmptyString => None
  | String c t =>
      if is_char backslash c then
        match t with String d t => put c (put d (findOverrideInterpolationEnd depth quoted t)) | EmptyString => None end
      else if quoted then put c (findOverrideInterpolationEnd depth (negb (is_char quote c)) t)
      else if is_char quote c then put c (findOverrideInterpolationEnd depth true t)
      else if is_char "(" c then put c (findOverrideInterpolationEnd (Datatypes.S depth) false t)
      else if is_char ")" c then
        match depth with O => Some ("", t) | Datatypes.S depth => put c (findOverrideInterpolationEnd depth false t) end
      else put c (findOverrideInterpolationEnd depth false t)
  end.

(** Escaped quotes become quotes. *)
Fixpoint unescape_quotes (s : string) : string :=
  match s with
  | String c t =>
      match t with
      | String d t' => if is_char backslash c && is_char quote d then String quote (unescape_quotes t') else String c (unescape_quotes t)
      | EmptyString => s
      end
  | EmptyString => ""
  end.

(** ** The parser *)

Definition errorf (t : overrideToken) (format : string) (args : list string) : parse_error := At (pos t + 1) format args.

Definition assignment_operator (k : overrideTokenKind) : option assign_operator :=
  match k with
  | AssignToken => Some Assign | UpdateAssignToken => Some UpdateAssign | AddAssignToken => Some AddAssign
  | SubtractAssignToken => Some SubtractAssign | MultiplyAssignToken => Some MultiplyAssign | _ => None
  end.
Definition isOverrideAssignmentToken (k : overrideTokenKind) : bool := match assignment_operator k with Some _ => true | None => false end.

(** Functions by their names. *)
Definition functions : list function_name := [FLength; FType; FKeys; FHas; FContains; FSelect; FSub; FTest; FSplit; FJoin; FUpcase; FDowncase; FTrim;
  FTostring; FTonumber; FNot; FReverse; FSort; FUnique; FFlatten; FAny; FAll].
Definition stream_functions : list stream_function_name := [SMap; SMapValues; SFilter; SToEntries; SFromEntries; SWithEntries; SAnyC; SAllC].
Definition function_of (name : string) : option function_name := List.find (λ f, String.eqb (function_text f) name) functions.
Definition stream_function_of (name : string) : option stream_function_name := List.find (λ f, String.eqb (stream_function_text f) name) stream_functions.

Section parser.
Context (eof : Z).
Abbreviation tokens := (list overrideToken).

Definition eof_token : overrideToken := mkToken EOF "" eof.
Definition peek (ts : tokens) : overrideToken := match ts with t :: _ => t | [] => eof_token end.
Definition peekIdentifier (value : string) (ts : tokens) : bool := bool_decide (kind (peek ts) = Identifier) && String.eqb (text (peek ts)) value.
Definition expect (k : overrideTokenKind) (message : string) (ts : tokens) : P (overrideToken * tokens) :=
  if bool_decide (kind (peek ts) = k) then Ok (peek ts, tail ts) else Err (errorf (peek ts) "%s" [message]).

(** Items with a separator between them; the rounds are at most [n]. *)
Fixpoint separated {A} (n : nat) (item : tokens → P (A * tokens)) (sep : overrideTokenKind → bool) (ts : tokens) : P (list A * tokens) :=
  match n with
  | Datatypes.O => Err OutOfFuel
  | Datatypes.S n =>
      let! (a, ts) := item ts in
      match ts with
      | t :: ts' => if sep (kind t) then let! (l, ts) := separated n item sep ts' in Ok (a :: l, ts) else Ok ([a], ts)
      | [] => Ok ([a], [])
      end
  end.
Definition items {A} (item : tokens → P (A * tokens)) (sep : overrideTokenKind → bool) (ts : tokens) : P (list A * tokens) :=
  separated (Datatypes.S (length ts)) item sep ts.
Definition is_kind (k k' : overrideTokenKind) : bool := bool_decide (k' = k).

(** *** Paths *)

Definition pathField (t : overrideToken) : P string :=
  match kind t with
  | Identifier => Ok (text t)
  | _ => match decodeOverrideString (text t) (pos t + 1) with Ok s => Ok s | Err e => Err (Nested (pos t + 1) e) end
  end.
Definition is_name (k : overrideTokenKind) : bool := match k with Identifier | StringToken => true | _ => false end.

Fixpoint path_segments (ts : tokens) (acc : path) : P (path * tokens) :=
  match ts with
  | [] => Ok (acc, [])
  | t :: ts1 =>
      match kind t with
      | Dot =>
          match ts1 with
          | [] => Err (errorf eof_token "expected field name after '.'" [])
          | name :: ts2 =>
              if is_name (kind name) then let! k := pathField name in path_segments ts2 (acc ++ [Field k])
              else Err (errorf name "expected field name after '.'" [])
          end
      | LeftBracket =>
          let close (s : overridePathSegment) ts :=
            match ts with
            | t :: ts => if bool_decide (kind t = RightBracket) then Ok s else Err (errorf t "%s" ["expected ']' after path index"])
            | [] => Err (errorf eof_token "%s" ["expected ']' after path index"])
            end in
          match ts1 with
          | [] => Err (errorf eof_token "expected field name or array index" [])
          | t1 :: ts2 =>
              match kind t1 with
              | RightBracket => path_segments ts2 (acc ++ [Wildcard])
              | Identifier | StringToken =>
                  let! k := pathField t1 in
                  let! s := close (Field k) ts2 in
                  match ts2 with [] => Ok (acc, []) | _ :: ts3 => path_segments ts3 (acc ++ [s]) end
              | Number =>
                  match ParseInt (text t1) 64 with
                  | None => Err (errorf t1 "invalid array index %q" [text t1])
                  | Some i =>
                      let! s := close (Index i) ts2 in
                      match ts2 with [] => Ok (acc, []) | _ :: ts3 => path_segments ts3 (acc ++ [s]) end
                  end
              | Minus =>
                  match ts2 with
                  | [] => Err (errorf eof_token "%s" ["expected array index after '-'"])
                  | number :: ts3 =>
                      if bool_decide (kind number = Number) then
                        match ParseInt (text t1 +:+ text number) 64 with
                        | None => Err (errorf t1 "invalid array index %q" [text t1 +:+ text number])
                        | Some i =>
                            let! s := close (Index i) ts3 in
                            match ts3 with [] => Ok (acc, []) | _ :: ts4 => path_segments ts4 (acc ++ [s]) end
                        end
                      else Err (errorf number "%s" ["expected array index after '-'"])
                  end
              | _ => Err (errorf t1 "expected field name or array index" [])
              end
          end
      | _ => Ok (acc, ts)
      end
  end.

Definition parsePath (ts : tokens) : P (path * tokens) :=
  let! (_, ts) := expect Dot "expected path starting with '.'" ts in
  if is_name (kind (peek ts)) then let! k := pathField (peek ts) in path_segments (tail ts) [Field k]
  else path_segments ts [].

(** *** Values *)

Context {O : Type} `{OverrideLib O}.
Abbreviation expr := (overrideValueExpr O).

Definition parseNumber (t : overrideToken) : P expr :=
  if negb (str_all (λ c, negb (is_char "." c || is_char "e" c || is_char "E" c)) (text t)) then
    match ParseFloat (text t) with
    | Some f => Ok (overrideLiteralExpr (vfloat f))
    | None => Err (errorf t "invalid number %q" [text t])
    end
  else
    match (if HasPrefix (text t) "0x" || HasPrefix (text t) "0X" then ParseIntBase (drop_bytes 2 (text t)) 16 else ParseIntBase (text t) 10) with
    | Some z => Ok (overrideLiteralExpr (vint z))
    | None => Err (errorf t "invalid number %q" [text t])
    end.

(** The parts of a string.  [raw] is the text since the last interpolation, which ends at
    [lstart], and [interpolate] parses an expression. *)
Definition literal_part (s : string) : list (string * option expr) := if String.eqb s "" then [] else [(s, None)].
Fixpoint string_parts (n : nat) (t : overrideToken) (interpolate : string → P expr) (lstart : Z) (raw s : string) : P (list (string * option expr) * string) :=
  match n with
  | Datatypes.O => Err OutOfFuel
  | Datatypes.S n =>
      match s with
      | EmptyString => let! literal := decodeOverrideString raw (pos t + 1 + lstart) in Ok ([], literal)
      | String c s1 =>
          match s1 with
          | String d s2 =>
              if is_char backslash c then
                if is_char "(" d then
                  let! literal := decodeOverrideString raw (pos t + 1 + lstart) in
                  match findOverrideInterpolationEnd 0 false s2 with
                  | None => Err (errorf t "%v" ["unterminated interpolation"])
                  | Some (src, rest) =>
                      let! e := match interpolate (unescape_quotes src) with
                                | Ok e => Ok e
                                | Err OutOfFuel => Err OutOfFuel
                                | Err e => Err (Nested (pos t + 1) e)
                                end in
                      let! (parts, last) := string_parts n t interpolate (slen (text t) - slen rest) "" rest in
                      Ok (literal_part literal ++ ("", Some e) :: parts, last)
                  end
                else string_parts n t interpolate lstart (raw +:+ String c (String d "")) s2
              else string_parts n t interpolate lstart (raw +:+ String c "") s1
          | EmptyString => string_parts n t interpolate lstart (raw +:+ String c "") s1
          end
      end
  end.
Definition parseString (interpolate : string → P expr) (t : overrideToken) : P expr :=
  let! (parts, last) := string_parts (Datatypes.S (String.length (text t))) t interpolate 0 "" (text t) in
  match parts with
  | [] => Ok (overrideLiteralExpr (vstr last))
  | _ => Ok (overrideStringExpr (parts ++ literal_part last))
  end.

(** Binary operators of one level, from left to right. *)
Fixpoint binary_loop (n : nat) (op : overrideToken → option operator) (sub : tokens → P (expr * tokens)) (l : expr) (ts : tokens) : P (expr * tokens) :=
  match ts with
  | [] => Ok (l, [])
  | t :: ts' =>
      match op t with
      | None => Ok (l, ts)
      | Some o =>
          match n with
          | Datatypes.O => Err OutOfFuel
          | Datatypes.S n => let! (r, ts) := sub ts' in binary_loop n op sub (overrideBinaryExpr o l r) ts
          end
      end
  end.
Definition level (op : overrideToken → option operator) (sub : tokens → P (expr * tokens)) (ts : tokens) : P (expr * tokens) :=
  let! (l, ts) := sub ts in binary_loop (length ts) op sub l ts.

Definition word_operator (word : string) (o : operator) (t : overrideToken) : option operator :=
  if bool_decide (kind t = Identifier) && String.eqb (text t) word then Some o else None.
Definition alternative_operator (t : overrideToken) : option operator := match kind t with Alternative => Some OpAlternative | _ => None end.
Definition comparison_operator (t : overrideToken) : option operator :=
  match kind t with
  | EqualToken => Some OpEqual | NotEqualToken => Some OpNotEqual | Less => Some OpLess | LessEqual => Some OpLessEqual
  | Greater => Some OpGreater | GreaterEqual => Some OpGreaterEqual | _ => None
  end.
Definition additive_operator (t : overrideToken) : option operator := match kind t with Plus => Some OpAdd | Minus => Some OpSubtract | _ => None end.
Definition multiplicative_operator (t : overrideToken) : option operator :=
  match kind t with Multiply => Some OpMultiply | Divide => Some OpDivide | Modulo => Some OpModulo | _ => None end.

(** One expression stands for itself, several for their union. *)
Definition union_of (es : list expr) : expr := match es with [e] => e | _ => overrideUnionExpr es end.

Section descent.
(** [value low] is [parseValueExpression], [interpolate] is [parseOverrideValueExpr]. *)
Context (value : bool → tokens → P (expr * tokens)) (interpolate : string → P expr).

Definition parseUnionExpression (low : bool) (ts : tokens) : P (expr * tokens) :=
  let! (es, ts) := items (value low) (is_kind Comma) ts in Ok (union_of es, ts).

(** Expressions up to a closing token, which may follow at once. *)
Definition bracketed {A} (item : tokens → P (A * tokens)) (sep : overrideTokenKind → bool) (close : overrideTokenKind) (message : string) (ts : tokens) : P (list A * tokens) :=
  if bool_decide (kind (peek ts) = close) then Ok ([], tail ts)
  else let! (l, ts) := items item sep ts in let! (_, ts) := expect close message ts in Ok (l, ts).

Definition parse_entry (ts : tokens) : P ((string * expr) * tokens) :=
  let key := peek ts in
  if negb (bool_decide (kind key = StringToken)) then Err (errorf key "expected quoted map key" [])
  else let! (_, ts) := expect Colon "expected ':' after map key" (tail ts) in
       let! k := decodeOverrideString (text key) (pos key + 1) in
       let! (e, ts) := value true ts in Ok ((k, e), ts).

Definition parse_call (t : overrideToken) (ts : tokens) : P (expr * tokens) :=
  if String.eqb (text t) "true" then Ok (overrideLiteralExpr (vbool true), ts)
  else if String.eqb (text t) "false" then Ok (overrideLiteralExpr (vbool false), ts)
  else if String.eqb (text t) "null" || String.eqb (text t) "~" then Ok (overrideLiteralExpr VNull, ts)
  else
    let! (args, ts) := if bool_decide (kind (peek ts) = LeftParen)
                       then bracketed (value true) (λ k, is_kind Comma k || is_kind Semicolon k) RightParen "expected ')' after function arguments" (tail ts)
                       else Ok ([], ts) in
    match stream_function_of (text t), function_of (text t) with
    | Some f, _ => Ok (overrideStreamFunctionExpr f args, ts)
    | None, Some f => Ok (overrideFunctionExpr f args, ts)
    | None, None => Err (errorf t "unknown function %q" [text t])
    end.

Definition parsePrimary (ts : tokens) : P (expr * tokens) :=
  let t := peek ts in
  match kind t with
  | Dot => let! (p, ts) := parsePath ts in Ok (overridePathExpr p, ts)
  | StringToken => let! e := parseString interpolate t in Ok (e, tail ts)
  | Number => let! e := parseNumber t in Ok (e, tail ts)
  | LeftParen => let! (e, ts) := parseUnionExpression true (tail ts) in let! (_, ts) := expect RightParen "expected ')'" ts in Ok (e, ts)
  | LeftBracket => let! (es, ts) := bracketed (value true) (is_kind Comma) RightBracket "expected ']' after array" (tail ts) in Ok (overrideArrayExpr es, ts)
  | LeftBrace => let! (es, ts) := bracketed parse_entry (is_kind Comma) RightBrace "expected '}' after map" (tail ts) in Ok (overrideMapExpr es, ts)
  | Identifier => parse_call t (tail ts)
  | _ => Err (errorf t "expected value" [])
  end.

Definition parseUnary (ts : tokens) : P (expr * tokens) :=
  match kind (peek ts) with
  | Minus =>
      let number := peek (tail ts) in
      if negb (bool_decide (kind number = Number)) then Err (errorf (peek ts) "unary '-' is only supported for number literals" [])
      else let! e := parseNumber (mkToken Number (String "-" (text number)) (pos number)) in Ok (e, tail (tail ts))
  | _ => parsePrimary ts
  end.

Definition parseMultiplicative := level multiplicative_operator parseUnary.
Definition parseAdditive := level additive_operator parseMultiplicative.
Definition parseComparison := level comparison_operator parseAdditive.
Definition parseAlternative := level alternative_operator parseComparison.
Definition parseAnd := level (word_operator "and" OpAnd) parseAlternative.
Definition parseOr := level (word_operator "or" OpOr) parseAnd.

(** [None] when the tokens are no update. *)
Definition parseValueUpdateExpression (ts : tokens) : option (P (expr * tokens)) :=
  match kind (peek ts) with
  | Dot =>
      match parsePath ts with
      | Ok (p, t :: ts) =>
          match assignment_operator (kind t) with
          | Some op => Some (let! (e, ts) := value false ts in Ok (overrideValueUpdateExpr p op e, ts))
          | None => None
          end
      | _ => None
      end
  | _ => None
  end.
Definition parse_stage (ts : tokens) : P (expr * tokens) :=
  match parseValueUpdateExpression ts with Some r => r | None => parseOr ts end.

(** The body of [parseValueExpression]. *)
Definition parse_value (low : bool) (ts : tokens) : P (expr * tokens) :=
  if low then
    let! (stages, ts) := items parse_stage (is_kind Pipe) ts in
    Ok (match stages with [e] => e | _ => overridePipelineExpr stages end, ts)
  else match parseValueUpdateExpression ts with Some r => r | None => parseAlternative ts end.
End descent.
End parser.

Section program.
Context {O : Type} `{OverrideLib O}.
Abbreviation expr := (overrideValueExpr O).
Abbreviation tokens := (list overrideToken).

(** [parseOverrideValueExpr], given [parseValueExpression] on tokens that end at a position. *)
Definition interpolate_with (value : Z → bool → tokens → P (expr * tokens)) (source : string) : P expr :=
  let! ts := lexOverrideExpr source in
  let! (e, ts) := parseUnionExpression (value (slen source)) true ts in
  match ts with
  | [] => Ok e
  | t :: _ => Err (errorf t "unexpected %q" [text t])
  end.

Fixpoint parseValueExpression (fuel : nat) (eof : Z) (low : bool) (ts : tokens) : P (expr * tokens) :=
  match fuel with
  | Datatypes.O => Err OutOfFuel
  | Datatypes.S fuel => parse_value eof (parseValueExpression fuel eof) (interpolate_with (parseValueExpression fuel)) low ts
  end.

(** ** Statements *)

Section statements.
Context (fuel : nat) (eof : Z).
Abbreviation value := (parseValueExpression fuel eof).

(** From an opening parenthesis: whether an assignment follows the one that closes it. *)
Fixpoint assignment_follows (depth : Z) (ts : tokens) : bool :=
  match ts with
  | [] => false
  | t :: ts =>
      match kind t with
      | LeftParen => assignment_follows (depth + 1) ts
      | RightParen => if depth - 1 =? 0 then isOverrideAssignmentToken (kind (peek eof ts)) else assignment_follows (depth - 1) ts
      | _ => assignment_follows depth ts
      end
  end.
Definition startsAssignmentStatement (ts : tokens) : bool :=
  match kind (peek eof ts) with
  | Dot => match parsePath eof ts with Ok (_, ts) => isOverrideAssignmentToken (kind (peek eof ts)) | Err _ => false end
  | LeftParen => assignment_follows 0 ts
  | _ => false
  end.

Definition parse_target_stage (ts : tokens) : P (targetStage O * tokens) :=
  if peekIdentifier eof "select" ts then
    let! (_, ts) := expect eof LeftParen "expected '(' after select" (tail ts) in
    let! (e, ts) := value true ts in
    let! (_, ts) := expect eof RightParen "expected ')' after select condition" ts in
    Ok (TargetCondition e, ts)
  else let! (p, ts) := parsePath eof ts in Ok (TargetPath p, ts).
Definition parseAssignmentTarget (ts : tokens) : P (list (targetStage O) * tokens) :=
  let! (_, ts) := expect eof LeftParen "expected '('" ts in
  let! (stages, ts) := items parse_target_stage (is_kind Pipe) ts in
  let! (_, ts) := expect eof RightParen "expected ')' after assignment path" ts in
  if existsb (λ s, match s with TargetPath _ => true | TargetCondition _ => false end) stages then Ok (stages, ts)
  else Err (errorf (peek eof ts) "conditional assignment must select a path" []).

Definition parse_delete (ts : tokens) : P (overrideStatement O * tokens) :=
  let! (_, ts) := expect eof LeftParen "expected '(' after del" ts in
  let! (paths, ts) := items (parsePath eof) (is_kind Comma) ts in
  let! (_, ts) := expect eof RightParen "expected ')' after del arguments" ts in
  if existsb (λ p, match p with [] => true | _ => false end) paths then Err (errorf (peek eof ts) "del(.) cannot be represented by a mapping override" [])
  else Ok (overrideDeleteStatement paths, ts).

Definition parse_assignment (ts : tokens) : P (overrideStatement O * tokens) :=
  let! ((p, target), ts) := match kind (peek eof ts) with
                            | LeftParen => let! (stages, ts) := parseAssignmentTarget ts in Ok (([], Some stages), ts)
                            | _ => let! (p, ts) := parsePath eof ts in Ok ((p, None), ts)
                            end in
  match assignment_operator (kind (peek eof ts)) with
  | None => Err (errorf (peek eof ts) "expected assignment operator after path" [])
  | Some op => let! (e, ts) := value false (tail ts) in Ok (overrideAssignStatement p target op e, ts)
  end.

Definition parseStatement (ts : tokens) : P (overrideStatement O * tokens) :=
  if peekIdentifier eof "del" ts then parse_delete (tail ts)
  else if negb (startsAssignmentStatement ts) then let! (e, ts) := parseUnionExpression value true ts in Ok (overrideFilterStatement e, ts)
  else parse_assignment ts.

(** A statement, after a pipe. *)
Definition parse_next (first : bool) (ts : tokens) : P (overrideStatement O * tokens) :=
  match ts with
  | [] => if first then Err Empty else Err (errorf (eof_token eof) "expected expression after pipe" [])
  | _ => parseStatement ts
  end.
Fixpoint statements (n : nat) (first : bool) (ts : tokens) : P (list (overrideStatement O) * tokens) :=
  match n with
  | Datatypes.O => Err OutOfFuel
  | Datatypes.S n =>
      let! (s, ts) := parse_next first ts in
      match ts with
      | t :: ts' => if bool_decide (kind t = Pipe) then let! (l, ts) := statements n false ts' in Ok (s :: l, ts) else Ok ([s], ts)
      | [] => Ok ([s], [])
      end
  end.

Definition parse (ts : tokens) : P (list (overrideStatement O)) :=
  let! (l, ts) := statements (Datatypes.S (length ts)) true ts in
  match ts with
  | [] => Ok l
  | t :: _ => Err (errorf t "unexpected %q" [text t])
  end.
End statements.

(** One more step of fuel than the text has bytes. *)
Definition NewOverrideExpr (source : string) : P (list (overrideStatement O)) :=
  let! ts := lexOverrideExpr source in parse (Datatypes.S (String.length source)) (slen source) ts.
End program.
