(* ===== verification/OverrideParserTheory.v ===== *)
(** * The parser of override expressions ends, and what it accepts can be applied safely *)

From Stdlib Require Import ZArith Lia String Ascii SpecFloat.
From stdpp Require Import base strings numbers list.
From S2P Require Import Prelude GoStrings OverridePath OverridePathTheory OverrideValue OverrideEval OverrideEvalTheory OverrideParser.
#[local] Open Scope nat_scope.

Abbreviation tokens := (list overrideToken).

(** ** The lexer *)

(** A token is worth one step, and a string one more for every byte of it. *)
Definition weight (t : overrideToken) : nat := 1 + match kind t with StringToken => String.length (text t) | _ => 0 end.
Fixpoint weights (ts : tokens) : nat := match ts with [] => 0 | t :: ts => weight t + weights ts end.

Lemma weights_suffix ts ts' : ts' `suffix_of` ts → weights ts' ≤ weights ts.
Proof. intros [k ->]. induction k as [|t k IH]; cbn; lia. Qed.
Lemma length_suffix (ts ts' : tokens) : ts' `suffix_of` ts → length ts' ≤ length ts.
Proof. apply suffix_length. Qed.
Lemma suffix_tail (ts : tokens) : tail ts `suffix_of` ts.
Proof. destruct ts as [|t ts]; [done|]. by exists [t]. Qed.
#[local] Hint Resolve suffix_tail : core.

Lemma span_length p s : String.length (span p s).2 ≤ String.length s.
Proof. induction s as [|c s IH]; cbn; [done|]. destruct (p c); [|done]. destruct (span p s). cbn in *. lia. Qed.
Lemma optional_length p s : String.length (optional p s).2 ≤ String.length s.
Proof. destruct s; cbn; [done|]. destruct (p a); cbn; lia. Qed.

Lemma scan_string_length s raw rest : scan_string s = Some (raw, rest) → String.length raw + String.length rest < String.length s.
Proof.
  enough (∀ n s raw rest, String.length s ≤ n → scan_string s = Some (raw, rest) → String.length raw + String.length rest < String.length s) as Hn by (intros; by eapply Hn).
  clear. induction n as [|n IH]; intros s raw rest Hs; [by destruct s; [|cbn in Hs; lia]|]. destruct s as [|c t]; [done|]. cbn [scan_string]. cbn in Hs. destruct (is_char backslash c).
  - destruct t as [|d t]; [done|]. cbn in Hs. destruct (scan_string t) as [[r x]|] eqn:E; [|done]. intros [= <- <-]. apply IH in E; cbn; lia.
  - destruct (is_char quote c); [intros [= <- <-]; cbn; lia|]. destruct (scan_string t) as [[r x]|] eqn:E; [|done]. intros [= <- <-]. apply IH in E; cbn; lia.
Qed.

(** A number has at least the digit it starts with. *)
Lemma scan_number_length c t : is_dec c = true → String.length (scanOverrideNumber (String c t)).2 ≤ String.length t.
Proof.
  intros Hc. unfold scanOverrideNumber. destruct t as [|d t]; [done|]. destruct (is_char "0" c && _).
  - pose proof (span_length is_hex t) as H1. destruct (span is_hex t). cbn in *. lia.
  - cbn [span]. rewrite Hc. pose proof (span_length is_dec (String d t)) as H1. cbn [span] in H1.
    destruct (if is_dec d then let '(a, b) := span is_dec t in (String d a, b) else ("", String d t)) as [ds s1]. cbn [snd] in H1.
    pose proof (optional_length (is_char ".") s1) as H2. destruct (optional (is_char ".") s1) as [dot s2]. cbn [snd] in H2.
    assert (String.length (if String.eqb dot "" then ("", s2) else span is_dec s2).2 ≤ String.length s2) as H3 by (destruct (String.eqb dot ""); [done|apply span_length]).
    destruct (if String.eqb dot "" then ("", s2) else span is_dec s2) as [fs s3]. cbn [snd] in H3.
    pose proof (optional_length (λ c, is_char "e" c || is_char "E" c) s3) as H4. destruct (optional (λ c, is_char "e" c || is_char "E" c) s3) as [e s4]. cbn [snd] in H4.
    pose proof (optional_length (λ c, is_char "+" c || is_char "-" c) s4) as H5. destruct (String.eqb e "").
    + cbn [snd]. lia.
    + destruct (optional (λ c, is_char "+" c || is_char "-" c) s4) as [sign s5]. cbn [snd] in H5. pose proof (span_length is_dec s5) as H6. destruct (span is_dec s5). cbn [snd] in *. lia.
Qed.

Lemma assoc_in {A} c (l : list (ascii * A)) a : assoc c l = Some a → (c, a) ∈ l.
Proof. induction l as [|[d b] l IH]; [done|]. cbn. destruct (Ascii.eqb_spec c d) as [->|]; [intros [= ->]; by left|]. intros E. right. by apply IH. Qed.

Lemma kinds_plain : Forall (λ e, e.2 ≠ StringToken) singles ∧ Forall (λ e, e.2.1.2 ≠ StringToken ∧ e.2.2 ≠ Some StringToken) doubles.
Proof. split; repeat constructor; done. Qed.

Lemma lex_token_weight at_ c t tok rest : lex_token at_ c t = Ok (tok, rest) → weight tok + String.length rest ≤ S (String.length t).
Proof.
  destruct kinds_plain as [Hs Hd]. rewrite list.Forall_forall in Hs. rewrite list.Forall_forall in Hd. unfold lex_token.
  assert (∀ k txt, k ≠ StringToken → weight (mkToken k txt at_) = 1) as Hw by (intros k txt Hk; unfold weight; cbn; by destruct k).
  destruct (assoc c singles) as [k|] eqn:Es; [intros [= <- <-]; rewrite Hw; [lia|exact (Hs _ (assoc_in _ _ _ Es))]|].
  destruct (assoc c doubles) as [[[d long] short]|] eqn:Ed.
  - destruct (Hd _ (assoc_in _ _ _ Ed)) as [Hl Hsh]. cbn [fst snd] in Hl, Hsh.
    assert (∀ k, short = Some k → weight (mkToken k (String c "") at_) = 1) as Hk by (intros k ->; apply Hw; congruence).
    destruct t as [|d' t]; [|destruct (Ascii.eqb d' d)]; [destruct short as [k|]; [|done]| |destruct short as [k|]; [|done]]; intros [= <- <-]; rewrite ?Hw, ?Hk by done; cbn; lia.
  - destruct (is_char quote c).
    + destruct (scan_string t) as [[raw r]|] eqn:E; [|done]. intros [= <- <-]. apply scan_string_length in E. cbn. lia.
    + destruct (is_dec c) eqn:Ec; [|destruct (isOverrideIdentifierStart c); [|done]].
      * pose proof (scan_number_length c t Ec) as Hn. destruct (scanOverrideNumber (String c t)) as [ds r]. intros [= <- <-]. cbn in *. lia.
      * pose proof (span_length isOverrideIdentifierPart t) as Hn. destruct (span _ t) as [nm r]. intros [= <- <-]. cbn in *. lia.
Qed.

Lemma lex_token_error at_ c t e : lex_token at_ c t = Err e → e ≠ OutOfFuel.
Proof.
  unfold lex_token. destruct (assoc c singles); [done|]. destruct (assoc c doubles) as [[[d long] short]|].
  - destruct t as [|d' t]; [|destruct (Ascii.eqb d' d)]; try done; destruct short; try done; by intros [= <-].
  - destruct (is_char quote c); [destruct (scan_string t) as [[]|]; [done|by intros [= <-]]|]. destruct (is_dec c); [by destruct (scanOverrideNumber _)|].
    destruct (isOverrideIdentifierStart c); [by destruct (span _ t)|by intros [= <-]].
Qed.

Lemma lex_weight fuel : ∀ at_ s, String.length s ≤ fuel → match lex fuel at_ s with Ok ts => weights ts ≤ String.length s | Err e => e ≠ OutOfFuel end.
Proof.
  induction fuel as [|fuel IH]; intros at_ s Hs; (destruct s as [|c t]; [cbn; lia|]); cbn in Hs; [lia|]. cbn [lex].
  destruct (is_space c); [specialize (IH (at_ + 1)%Z t); destruct (lex fuel _ t); [cbn; lia|apply IH; lia]|]. destruct (is_char "#" c); [cbn; lia|].
  destruct (lex_token at_ c t) as [[tok rest]|e] eqn:E; [|by eapply lex_token_error]. apply lex_token_weight in E. assert (1 ≤ weight tok) by (unfold weight; lia).
  specialize (IH (at_ + (slen (String c t) - slen rest))%Z rest). destruct (lex fuel _ rest) as [ts|e]; cbn in *; [|apply IH; lia]. lia.
Qed.

Lemma lexer_ends source : match lexOverrideExpr source with Ok ts => weights ts ≤ String.length source | Err e => e ≠ OutOfFuel end.
Proof. by apply lex_weight. Qed.

(** ** The parser *)

(** A result that did not run out of fuel, and if it is one leaves a rest of the tokens. *)
Definition fine {A} (Q : A → Prop) (r : P (A * tokens)) (ts : tokens) : Prop :=
  match r with
  | Ok (a, ts') => ts' `suffix_of` ts ∧ Q a
  | Err e => e ≠ OutOfFuel
  end.

Lemma fine_suffix {A} (Q : A → Prop) r (ts ts' : tokens) : ts' `suffix_of` ts → fine Q r ts' → fine Q r ts.
Proof. intros Hs. destruct r as [[a t]|e]; cbn; [|done]. intros [H1 H2]. split; [by etransitivity|done]. Qed.

(** Sequencing. *)
Lemma fine_bind {A B} (Q : A → Prop) (Q' : B → Prop) r (k : A → tokens → P (B * tokens)) ts :
  fine Q r ts → (∀ a ts', ts' `suffix_of` ts → Q a → fine Q' (k a ts') ts') →
  fine Q' (match r with Ok p => let (a, ts') := p in k a ts' | Err e => Err e end) ts.
Proof. destruct r as [[a t]|e]; cbn [fine]; [|done]. intros [H1 H2] Hk. eapply fine_suffix; [exact H1|]. by apply Hk. Qed.

Lemma fine_pure {A} (Q : A → Prop) a ts : Q a → fine Q (Ok (a, ts)) ts.
Proof. by split. Qed.

Section tokens.
Context (eof : Z).

Lemma peek_cons k ts : kind (peek eof ts) = k → k ≠ EOF → ts = peek eof ts :: tail ts.
Proof. destruct ts; [|done]. cbn. congruence. Qed.

Lemma tail_lighter k ts : kind (peek eof ts) = k → k ≠ EOF → weights (tail ts) < weights ts.
Proof. intros Hk He. rewrite (peek_cons k ts Hk He) at 2. cbn [weights]. unfold weight. lia. Qed.

Lemma expect_fine k m ts : fine (λ _, True) (expect eof k m ts) ts.
Proof. unfold expect. destruct (bool_decide _); cbn; [by split|done]. Qed.

(** Loops over items and operators. *)
Lemma separated_fine {A} (Q : A → Prop) w item sep n : (∀ ts, weights ts ≤ w → fine Q (item ts) ts) →
  ∀ ts, weights ts ≤ w → length ts < n → fine (λ l, l ≠ [] ∧ Forall Q l) (separated n item sep ts) ts.
Proof.
  intros Hitem. induction n as [|n IH]; intros ts Hw Hn; [lia|]. cbn [separated]. eapply fine_bind; [by apply Hitem|]. intros a ts1 Hs Ha.
  pose proof (weights_suffix _ _ Hs). pose proof (length_suffix _ _ Hs). destruct ts1 as [|t ts2]; [by apply fine_pure; repeat constructor|].
  destruct (sep (kind t)); [|by apply fine_pure; repeat constructor]. cbn in *. eapply fine_suffix; [by exists [t]|]. eapply fine_bind; [apply IH; lia|]. intros l ts3 _ [_ Hl]. apply fine_pure. split; [done|by constructor].
Qed.
Lemma items_fine {A} (Q : A → Prop) w item sep ts : (∀ ts, weights ts ≤ w → fine Q (item ts) ts) → weights ts ≤ w → fine (λ l, l ≠ [] ∧ Forall Q l) (items item sep ts) ts.
Proof. intros. eapply separated_fine; [done|done|lia]. Qed.

(** *** Paths *)

Lemma decode_fuel raw column e : decodeOverrideString raw column = Err e → e ≠ OutOfFuel.
Proof.
  enough (∀ n raw column e, String.length raw ≤ n → decodeOverrideString raw column = Err e → e ≠ OutOfFuel) as Hn by (by eapply Hn).
  clear. induction n as [|n IH]; intros raw column e Hr; (destruct raw as [|c t]; [done|]); cbn in Hr; [lia|]. cbn [decodeOverrideString]. destruct (is_char backslash c).
  - destruct t as [|d t]; [by intros [= <-]|]. cbn in Hr. destruct (decodeOverrideString t _) eqn:E; [done|]. intros [= <-]. eapply IH; [|done]. lia.
  - destruct (decodeOverrideString t _) eqn:E; [done|]. intros [= <-]. eapply IH; [|done]. lia.
Qed.

Lemma field_fuel t e : pathField t = Err e → e ≠ OutOfFuel.
Proof. unfold pathField. destruct (kind t); try done; (destruct (decodeOverrideString _ _); [done|]); by intros [= <-]. Qed.

Lemma segments_fine ts : ∀ acc, fine (λ _, True) (path_segments eof ts acc) ts.
Proof.
  enough (∀ n ts, length ts ≤ n → ∀ acc, fine (λ _, True) (path_segments eof ts acc) ts) as Hn by (by eapply Hn).
  clear. induction n as [|n IH]; intros ts Hl acc; (destruct ts as [|t ts1]; [by split|]); cbn in Hl; [lia|].
  assert (∀ ts' acc, ts' `suffix_of` ts1 → fine (λ _, True) (path_segments eof ts' acc) (t :: ts1)) as Hrec.
  { intros ts' acc' Hs. eapply fine_suffix; [|apply IH; apply length_suffix in Hs; lia]. etransitivity; [exact Hs|]. by exists [t]. }
  assert (∀ t1 (ts2 : tokens), ts1 = t1 :: ts2 → ts2 `suffix_of` ts1) as H1 by (intros t1 ts2 ->; by exists [t1]).
  cbn [path_segments]. destruct (kind t); try by apply fine_pure.
  - destruct ts1 as [|name ts2]; [done|]. destruct (is_name _); [|done]. destruct (pathField name) eqn:E; [|by eapply field_fuel]. by apply Hrec, (H1 name).
  - destruct ts1 as [|t1 ts2]; [done|]. specialize (H1 t1 ts2 eq_refl). destruct (kind t1); try done.
    1,2: destruct (pathField t1) eqn:E; [|by eapply field_fuel]; destruct ts2 as [|t2 ts3]; [done|]; destruct (bool_decide _); [|done]; apply Hrec; by exists [t1; t2].
    + destruct (ParseInt _ _); [|done]. destruct ts2 as [|t2 ts3]; [done|]. destruct (bool_decide _); [|done]. apply Hrec. by exists [t1; t2].
    + by apply Hrec.
    + destruct ts2 as [|number ts3]; [done|]. destruct (bool_decide (kind number = Number)); [|done]. destruct (ParseInt _ _); [|done]. destruct ts3 as [|t3 ts4]; [done|]. destruct (bool_decide _); [|done]. apply Hrec. by exists [t1; number; t3].
Qed.

Lemma path_fine ts : fine (λ _, True) (parsePath eof ts) ts.
Proof.
  unfold parsePath. eapply fine_bind; [apply expect_fine|]. intros _ ts1 _ _. destruct (is_name _); [|apply segments_fine]. destruct (pathField _) eqn:E; [|by eapply field_fuel].
  eapply fine_suffix; [apply suffix_tail|apply segments_fine].
Qed.
End tokens.

Section expressions.
Context {O : Type} `{OverrideLib O}.
Abbreviation expr := (overrideValueExpr O).

(** The literals of a parsed expression are [nil], booleans, numbers and strings. *)
Definition parsed (e : expr) : Prop := plain false e = true.
Definition parsed_part (p : string * option expr) : Prop := match p.2 with Some e => parsed e | None => True end.

Lemma forallb_parsed (es : list expr) : Forall parsed es → forallb (plain false) es = true.
Proof. induction 1 as [|e es He _ IH]; [done|]. cbn. by rewrite He, IH. Qed.

Lemma parsed_string parts : Forall parsed_part parts → parsed (overrideStringExpr parts).
Proof. unfold parsed. cbn. induction 1 as [|[s [e|]] parts He _ IH]; [done| |done]. cbn in *. rewrite IH. unfold parsed in He. by rewrite He. Qed.
Lemma parsed_map (entries : list (string * expr)) : Forall (λ e, parsed e.2) entries → parsed (overrideMapExpr entries).
Proof. unfold parsed. cbn. induction 1 as [|[s e] parts He _ IH]; [done|]. cbn in *. unfold parsed in He. by rewrite He, IH. Qed.
Lemma parsed_binary op l r : parsed l → parsed r → parsed (overrideBinaryExpr op l r).
Proof. unfold parsed. cbn. by intros -> ->. Qed.

Lemma number_parsed t : match parseNumber t with Ok e => parsed e | Err e => e ≠ OutOfFuel end.
Proof.
  unfold parseNumber. destruct (negb _); [by destruct (ParseFloat _)|]. by destruct (if HasPrefix (text t) "0x" || HasPrefix (text t) "0X" then _ else _).
Qed.

(** *** Strings *)

Lemma unescape_length s : String.length (unescape_quotes s) ≤ String.length s.
Proof.
  enough (∀ n s, String.length s ≤ n → String.length (unescape_quotes s) ≤ String.length s) as Hn by (by eapply Hn).
  clear. induction n as [|n IH]; intros s Hs; (destruct s as [|c t]; [done|]); cbn in Hs; [lia|]. cbn [unescape_quotes]. destruct t as [|d t]; [done|]. cbn in Hs. destruct (_ && _); cbn.
  - pose proof (IH t). lia.
  - pose proof (IH (String d t)) as H1. cbn in H1. lia.
Qed.

Lemma interpolation_length s : ∀ depth quoted src rest, findOverrideInterpolationEnd depth quoted s = Some (src, rest) → String.length src + String.length rest < String.length s.
Proof.
  enough (∀ n s, String.length s ≤ n → ∀ depth quoted src rest, findOverrideInterpolationEnd depth quoted s = Some (src, rest) → String.length src + String.length rest < String.length s) as Hn by (by eapply Hn).
  clear. induction n as [|n IH]; intros s Hs depth quoted src rest; (destruct s as [|c t]; [done|]); cbn in Hs; [lia|].
  assert (∀ dp q, match findOverrideInterpolationEnd dp q t with Some (a, b) => Some (String c a, b) | None => None end = Some (src, rest) → String.length src + String.length rest < String.length (String c t)) as Hput.
  { intros dp q. destruct (findOverrideInterpolationEnd dp q t) as [[a b]|] eqn:E; [|done]. intros [= <- <-]. apply IH in E; cbn; lia. }
  cbn [findOverrideInterpolationEnd]. destruct (is_char backslash c).
  - destruct t as [|d t]; [done|]. cbn in Hs. destruct (findOverrideInterpolationEnd depth quoted t) as [[a b]|] eqn:E; [|done]. intros [= <- <-]. apply IH in E; cbn; lia.
  - destruct quoted; [apply Hput|]. destruct (is_char quote c); [apply Hput|]. destruct (is_char "(" c); [apply Hput|]. destruct (is_char ")" c); [|apply Hput]. destruct depth; [intros [= <- <-]; cbn; lia|apply Hput].
Qed.

Lemma parts_fine t interpolate n : ∀ s lstart raw,
  (∀ src, String.length src < String.length s → match interpolate src with Ok e => parsed e | Err e => e ≠ OutOfFuel end) → String.length s < n →
  match string_parts n t interpolate lstart raw s with Ok (parts, _) => Forall parsed_part parts | Err e => e ≠ OutOfFuel end.
Proof.
  induction n as [|n IH]; intros s lstart raw Hi Hn; [lia|]. cbn [string_parts]. destruct s as [|c s1]; [destruct (decodeOverrideString raw _) eqn:E; [constructor|by eapply decode_fuel]|].
  cbn in Hn. destruct s1 as [|d s2]; [apply IH; [|cbn; lia]; intros src Hs; cbn in Hs; lia|]. cbn in Hn. destruct (is_char backslash c).
  2:{ apply IH; [|cbn; lia]. intros src Hs. apply Hi. cbn in *. lia. }
  destruct (is_char "(" d). 2:{ apply IH; [|lia]. intros src Hs. apply Hi. cbn. lia. }
  destruct (decodeOverrideString raw _) as [literal|e] eqn:Ed; [|by eapply decode_fuel]. destruct (findOverrideInterpolationEnd 0 false s2) as [[src rest]|] eqn:Ef; [|done].
  apply interpolation_length in Ef. specialize (Hi (unescape_quotes src)) as He. pose proof (unescape_length src). destruct (interpolate (unescape_quotes src)) as [e|e]; [|destruct e; try done; exfalso; apply He; [cbn; lia|done]].
  specialize (IH rest (slen (text t) - slen rest)%Z ""). destruct (string_parts n t interpolate _ "" rest) as [[parts last]|e']; [|apply IH; [intros src' Hs; apply Hi; cbn; lia|lia]].
  apply list.Forall_app. split; [unfold literal_part; destruct (String.eqb literal ""); by repeat constructor|]. constructor; [cbn; apply He; cbn; lia|]. apply IH; [intros src' Hs; apply Hi; cbn; lia|lia].
Qed.

Lemma string_parsed interpolate t :
  (∀ src, String.length src < String.length (text t) → match interpolate src with Ok e => parsed e | Err e => e ≠ OutOfFuel end) →
  match parseString interpolate t with Ok e => parsed e | Err e => e ≠ OutOfFuel end.
Proof.
  intros Hi. unfold parseString. pose proof (parts_fine t interpolate (S (String.length (text t))) (text t) 0 "" Hi ltac:(lia)) as Hp.
  destruct (string_parts _ t interpolate 0 "" (text t)) as [[parts last]|e]; [|done]. destruct parts as [|p parts]; [done|]. apply parsed_string. apply list.Forall_app. split; [done|].
  unfold literal_part. destruct (String.eqb last ""); by repeat constructor.
Qed.

(** *** Levels of operators *)

Lemma binary_loop_fine w op (sub : tokens → P (expr * tokens)) n : (∀ ts, weights ts ≤ w → fine parsed (sub ts) ts) →
  ∀ l ts, parsed l → weights ts ≤ w → length ts ≤ n → fine parsed (binary_loop n op sub l ts) ts.
Proof.
  intros Hsub. induction n as [|n IH]; intros l ts Hl Hw Hn; (destruct ts as [|t ts1]; [by apply fine_pure|]); cbn in Hn, Hw; [lia|]. cbn [binary_loop].
  destruct (op t) as [o|]; [|by apply fine_pure]. eapply fine_suffix; [by exists [t]|]. eapply fine_bind; [apply Hsub; lia|]. intros r ts2 Hs Hr. pose proof (weights_suffix _ _ Hs). pose proof (length_suffix _ _ Hs).
  apply IH; [by apply parsed_binary|lia|lia].
Qed.
Lemma level_fine w op (sub : tokens → P (expr * tokens)) : (∀ ts, weights ts ≤ w → fine parsed (sub ts) ts) → ∀ ts, weights ts ≤ w → fine parsed (level op sub ts) ts.
Proof. intros Hsub ts Hw. unfold level. eapply fine_bind; [by apply Hsub|]. intros l ts1 Hs Hl. eapply binary_loop_fine; [done|done| |done]. pose proof (weights_suffix _ _ Hs). lia. Qed.

(** *** The descent *)

Section descent.
Context (eof : Z) (w : nat) (value : bool → tokens → P (expr * tokens)) (interpolate : string → P expr).
Context (Hvalue : ∀ low ts, weights ts < w → fine parsed (value low ts) ts).
Context (Hinter : ∀ src, String.length src < w → match interpolate src with Ok e => parsed e | Err e => e ≠ OutOfFuel end).

Lemma union_fine low ts : weights ts < w → fine parsed (parseUnionExpression value low ts) ts.
Proof.
  intros Hw. unfold parseUnionExpression. eapply fine_bind; [apply (items_fine parsed (weights ts)); [|done]; intros ts' Hle; apply Hvalue; lia|]. intros es ts1 _ [_ Hes]. apply fine_pure.
  unfold union_of. destruct es as [|e [|e' es]]; [done|by inversion Hes|]. by apply forallb_parsed.
Qed.

Lemma bracketed_fine {A} (Q : A → Prop) (item : tokens → P (A * tokens)) sep close m ts :
  (∀ ts, weights ts < w → fine Q (item ts) ts) → weights ts < w → fine (Forall Q) (bracketed eof item sep close m ts) ts.
Proof.
  intros Hitem Hw. unfold bracketed. destruct (bool_decide _); [by split|]. eapply fine_bind; [apply (items_fine Q (weights ts)); [|done]; intros ts' Hle; apply Hitem; lia|].
  intros l ts1 _ [_ Hl]. eapply fine_bind; [apply expect_fine|]. intros _ ts2 _ _. by apply fine_pure.
Qed.

Lemma entry_fine ts : weights ts < w → fine (λ e, parsed e.2) (parse_entry eof value ts) ts.
Proof.
  intros Hw. unfold parse_entry. destruct (negb _); [done|]. eapply fine_suffix; [apply suffix_tail|]. eapply fine_bind; [apply expect_fine|]. intros _ ts1 Hs _.
  destruct (decodeOverrideString _ _) as [k|e] eqn:E; [|by eapply decode_fuel]. pose proof (weights_suffix _ _ Hs). pose proof (weights_suffix _ _ (suffix_tail ts)).
  eapply fine_bind; [apply Hvalue; lia|]. intros e ts2 _ He. by apply fine_pure.
Qed.

Lemma call_fine t ts : weights ts < w → fine parsed (parse_call eof value t ts) ts.
Proof.
  intros Hw. unfold parse_call. do 3 (destruct (_ : bool); [by apply fine_pure|]). eapply (fine_bind (Forall parsed)).
  - destruct (bool_decide _); [|by apply fine_pure]. eapply fine_suffix; [apply suffix_tail|]. apply bracketed_fine; [apply Hvalue|]. pose proof (weights_suffix _ _ (suffix_tail ts)). lia.
  - intros args ts1 _ Ha. destruct (stream_function_of _); [apply fine_pure; by apply forallb_parsed|]. destruct (function_of _); [apply fine_pure; by apply forallb_parsed|done].
Qed.

Lemma primary_fine ts : weights ts ≤ w → fine parsed (parsePrimary eof value interpolate ts) ts.
Proof.
  intros Hw. unfold parsePrimary. destruct (kind (peek eof ts)) eqn:Ek; try done;
    (pose proof (tail_lighter eof _ ts Ek ltac:(done)) as Ht; assert (weights (tail ts) < w) as Htw by lia).
  - eapply fine_bind; [apply path_fine|]. intros p ts1 _ _. by apply fine_pure.
  - eapply fine_suffix; [apply suffix_tail|]. apply call_fine; lia.
  - pose proof (string_parsed interpolate (peek eof ts)) as Hs. destruct (parseString interpolate (peek eof ts)).
    + split; [apply suffix_tail|]. apply Hs. intros src Hl. apply Hinter. rewrite (peek_cons eof _ ts Ek) in Hw by done. cbn [weights] in Hw. unfold weight in Hw. rewrite Ek in Hw. lia.
    + apply Hs. intros src Hl. apply Hinter. rewrite (peek_cons eof _ ts Ek) in Hw by done. cbn [weights] in Hw. unfold weight in Hw. rewrite Ek in Hw. lia.
  - pose proof (number_parsed (peek eof ts)) as Hn. destruct (parseNumber _); [|done]. split; [apply suffix_tail|done].
  - eapply fine_suffix; [apply suffix_tail|]. eapply fine_bind; [by apply union_fine|]. intros e ts1 _ He. eapply fine_bind; [apply expect_fine|]. intros _ ts2 _ _. by apply fine_pure.
  - eapply fine_suffix; [apply suffix_tail|]. eapply fine_bind; [apply (bracketed_fine parsed); [apply Hvalue|done]|]. intros es ts1 _ Hes. apply fine_pure. by apply forallb_parsed.
  - eapply fine_suffix; [apply suffix_tail|]. eapply fine_bind; [apply (bracketed_fine (λ e, parsed e.2)); [apply entry_fine|done]|]. intros es ts1 _ Hes. apply fine_pure. by apply parsed_map.
Qed.

Lemma unary_fine ts : weights ts ≤ w → fine parsed (parseUnary eof value interpolate ts) ts.
Proof.
  intros Hw. unfold parseUnary. destruct (kind (peek eof ts)); try by apply primary_fine. destruct (negb _); [done|]. pose proof (number_parsed (mkToken Number (String "-" (text (peek eof (tail ts)))) (pos (peek eof (tail ts))))) as Hn.
  destruct (parseNumber _); [|done]. split; [|done]. etransitivity; apply suffix_tail.
Qed.

Lemma alternative_fine ts : weights ts ≤ w → fine parsed (parseAlternative eof value interpolate ts) ts.
Proof. revert ts. do 4 (apply level_fine). apply unary_fine. Qed.
Lemma or_fine ts : weights ts ≤ w → fine parsed (parseOr eof value interpolate ts) ts.
Proof. revert ts. do 2 (apply level_fine). apply alternative_fine. Qed.

Lemma update_fine ts r : weights ts ≤ w → parseValueUpdateExpression eof value ts = Some r → fine parsed r ts.
Proof.
  intros Hw. unfold parseValueUpdateExpression. destruct (kind (peek eof ts)); try done. pose proof (path_fine eof ts) as Hp. destruct (parsePath eof ts) as [[p [|t ts1]]|]; try done. destruct Hp as [Hs _].
  destruct (assignment_operator _) as [op|]; [|done]. intros [= <-]. pose proof (weights_suffix _ _ Hs) as Hl. cbn [weights] in Hl. unfold weight in Hl.
  eapply fine_suffix; [etransitivity; [|exact Hs]; by exists [t]|]. eapply fine_bind; [apply Hvalue; lia|]. intros e ts2 _ He. apply fine_pure. unfold parsed in *. cbn. by rewrite He, orb_true_r.
Qed.

Lemma value_fine low ts : weights ts ≤ w → fine parsed (parse_value eof value interpolate low ts) ts.
Proof.
  intros Hw. unfold parse_value. destruct low.
  - eapply fine_bind.
    + apply (items_fine parsed w); [|done]. intros ts1 Hw1. unfold parse_stage. destruct (parseValueUpdateExpression eof value ts1) eqn:E; [by eapply update_fine|by apply or_fine].
    + intros es ts1 _ [_ Hes]. apply fine_pure. destruct es as [|e [|e' es]]; [done|by inversion Hes|]. by apply forallb_parsed.
  - destruct (parseValueUpdateExpression eof value ts) eqn:E; [by eapply update_fine|by apply alternative_fine].
Qed.
End descent.

Lemma expression_fine fuel : ∀ eof low ts, weights ts < fuel → fine parsed (parseValueExpression fuel eof low ts) ts.
Proof.
  induction fuel as [|fuel IH]; intros eof low ts Hw; [lia|]. cbn [parseValueExpression]. apply (value_fine eof fuel); [intros; by apply IH| |lia].
  intros src Hs. unfold interpolate_with. pose proof (lexer_ends src) as Hl. destruct (lexOverrideExpr src) as [ts1|e]; [|done].
  pose proof (union_fine fuel (parseValueExpression fuel (slen src)) ltac:(intros; by apply IH) true ts1 ltac:(lia)) as Hu. destruct (parseUnionExpression _ true ts1) as [[e ts2]|e]; [|done]. destruct Hu as [_ Hu]. by destruct ts2.
Qed.

(** *** Statements *)

(** Every deletion has paths and none is the root, and a selected target has a path. *)
Definition legal (s : overrideStatement O) : Prop :=
  match s with
  | overrideAssignStatement _ (Some stages) _ _ => Exists (λ st, ∃ p, st = TargetPath p) stages
  | overrideDeleteStatement paths => paths ≠ [] ∧ Forall (λ p, p ≠ []) paths
  | _ => True
  end.
Definition accepted (s : overrideStatement O) : Prop := plain_statement false s = true ∧ legal s.
Definition parsed_stage (s : targetStage O) : Prop := match s with TargetPath _ => True | TargetCondition e => parsed e end.

Section statements.
Context (fuel : nat) (eof : Z).

Lemma stage_fine ts : weights ts < fuel → fine parsed_stage (parse_target_stage fuel eof ts) ts.
Proof.
  intros Hw. unfold parse_target_stage. destruct (peekIdentifier _ _ _).
  - eapply fine_suffix; [apply suffix_tail|]. eapply fine_bind; [apply expect_fine|]. intros _ ts1 Hs _. pose proof (weights_suffix _ _ Hs). pose proof (weights_suffix _ _ (suffix_tail ts)).
    eapply fine_bind; [apply expression_fine; lia|]. intros e ts2 _ He. eapply fine_bind; [apply expect_fine|]. intros _ ts3 _ _. by apply fine_pure.
  - eapply fine_bind; [apply path_fine|]. intros p ts1 _ _. by apply fine_pure.
Qed.

Lemma target_fine ts : weights ts < fuel → fine (λ stages, Forall parsed_stage stages ∧ Exists (λ st, ∃ p, st = TargetPath p) stages) (parseAssignmentTarget fuel eof ts) ts.
Proof.
  intros Hw. unfold parseAssignmentTarget. eapply fine_bind; [apply expect_fine|]. intros _ ts1 Hs1 _. pose proof (weights_suffix _ _ Hs1).
  eapply fine_bind; [apply (items_fine parsed_stage (weights ts1)); [|done]; intros ts' Hle; apply stage_fine; lia|]. intros stages ts2 Hs2 [_ Hst]. eapply fine_bind; [apply expect_fine|]. intros _ ts3 _ _.
  destruct (existsb _ _) eqn:E; [|done]. apply fine_pure. split; [done|]. apply existsb_exists in E as ([p|e] & Hin & E); [|done]. apply Exists_exists. exists (TargetPath p). split; [by apply list_elem_of_In|by exists p].
Qed.

Lemma delete_fine ts : fine accepted (parse_delete eof ts) ts.
Proof.
  unfold parse_delete. eapply fine_bind; [apply expect_fine|]. intros _ ts1 _ _. eapply fine_bind; [apply (items_fine (λ _, True) (weights ts1)); [|done]; intros; apply path_fine|]. intros ps ts2 _ [Hne _].
  eapply fine_bind; [apply expect_fine|]. intros _ ts3 _ _. destruct (existsb _ ps) eqn:E; [done|]. apply fine_pure. split; [done|]. split; [done|]. apply list.Forall_forall. intros p Hp ->.
  assert (existsb (λ p : path, match p with [] => true | _ => false end) ps = true) as E' by (apply existsb_exists; exists []; split; [by apply list_elem_of_In|done]). by rewrite E in E'.
Qed.

Lemma stages_plain (stages : list (targetStage O)) : Forall parsed_stage stages → forallb (λ st, match st with TargetPath _ => true | TargetCondition e => plain false e end) stages = true.
Proof. induction 1 as [|[p|e] stages He _ IH]; [done|done|]. cbn in *. unfold parsed in He. by rewrite He, IH. Qed.

Lemma assignment_fine ts : weights ts < fuel → fine accepted (parse_assignment fuel eof ts) ts.
Proof.
  intros Hw. unfold parse_assignment.
  eapply (fine_bind (λ pt : path * option (list (targetStage O)), match pt.2 with Some stages => Forall parsed_stage stages ∧ Exists (λ st, ∃ p, st = TargetPath p) stages | None => True end) _ _
    (λ pt ts, let '(p, target) := pt in match assignment_operator (kind (peek eof ts)) with
      | None => Err (errorf (peek eof ts) "expected assignment operator after path" [])
      | Some op => match parseValueExpression fuel eof false (tail ts) with Ok (e, ts) => Ok (overrideAssignStatement p target op e, ts) | Err e => Err e end end)).
  - destruct (kind (peek eof ts)); try (eapply fine_bind; [apply path_fine|]; intros p ts1 _ _; by apply fine_pure). eapply fine_bind; [by apply target_fine|]. intros stages ts1 _ Hst. by apply fine_pure.
  - intros [p target] ts1 Hs Ht. cbn [snd] in Ht. destruct (assignment_operator _) as [op|]; [|done]. eapply fine_suffix; [apply suffix_tail|]. pose proof (weights_suffix _ _ Hs). pose proof (weights_suffix _ _ (suffix_tail ts1)).
    eapply fine_bind; [apply expression_fine; lia|]. intros e ts2 _ He. apply fine_pure. unfold parsed in He. split; cbn; rewrite ?He; destruct target as [stages|]; try done; [apply stages_plain|]; by destruct Ht.
Qed.

Lemma parse_statement_fine ts : weights ts < fuel → fine accepted (parseStatement fuel eof ts) ts.
Proof.
  intros Hw. unfold parseStatement. destruct (peekIdentifier _ _ _); [eapply fine_suffix; [apply suffix_tail|apply delete_fine]|]. destruct (negb _); [|by apply assignment_fine].
  eapply fine_bind; [apply (union_fine fuel); [intros; by apply expression_fine|done]|]. intros e ts1 _ He. by apply fine_pure.
Qed.

Lemma statements_fine n : ∀ first ts, weights ts < fuel → length ts < n → fine (λ l, l ≠ [] ∧ Forall accepted l) (statements fuel eof n first ts) ts.
Proof.
  induction n as [|n IH]; intros first ts Hw Hn; [lia|]. cbn [statements]. eapply fine_bind; [unfold parse_next; destruct ts; [by destruct first|by apply parse_statement_fine]|]. intros s ts1 Hs Hq.
  pose proof (weights_suffix _ _ Hs). pose proof (length_suffix _ _ Hs). destruct ts1 as [|t ts2]; [apply fine_pure; split; [done|by apply Forall_singleton]|]. cbn in *.
  destruct (bool_decide _); [|apply fine_pure; split; [done|by apply Forall_singleton]]. eapply fine_suffix; [by exists [t]|]. eapply fine_bind; [apply IH; lia|]. intros l ts3 _ [_ Hl]. apply fine_pure. split; [done|by constructor].
Qed.
End statements.

Lemma program_fine source : match NewOverrideExpr source with Ok program => program ≠ [] ∧ Forall accepted program | Err e => e ≠ OutOfFuel end.
Proof.
  unfold NewOverrideExpr. pose proof (lexer_ends source) as Hl. destruct (lexOverrideExpr source) as [ts|e]; [|done]. unfold parse.
  pose proof (statements_fine (S (String.length source)) (slen source) (S (length ts)) true ts ltac:(lia) ltac:(lia)) as Hs. destruct (statements _ _ _ true ts) as [[l ts']|e]; [|done]. destruct Hs as [_ Hs]. by destruct ts'.
Qed.
End expressions.

(** ** Properties *)

(** C26. Reading a program ends on every text: one step of fuel for each byte of the text,
    and one more, is enough for the lexer, the recursive descent and the expressions nested
    in strings.  A program that is accepted has a statement, deletes no root, and each
    selected target of it names a path. *)
Theorem override_parser_ends {O} `{OverrideLib O} (source : string) :
  match NewOverrideExpr source with
  | Ok program => program ≠ [] ∧ Forall legal program
  | Err e => e ≠ OutOfFuel
  end.
Proof.
  pose proof (program_fine source) as Hp. destruct (NewOverrideExpr source) as [program|e]; [|done]. destruct Hp as [Hne Hp]. split; [done|]. eapply list.Forall_impl; [exact Hp|]. by intros s [_ ?].
Qed.

(** C27. A program read from a text, applied to a mapping with ordered and distinct keys at
    every depth, gives such a mapping or an error; and unless one of its expressions has a
    compound assignment inside, the marker for "no result" never gets into the mapping. *)
Theorem override_programs_keep_mappings {O} `{OverrideLib O} `{UnicodeCase} (source : string) (program : list (overrideStatement O)) (m m' : list (string * value (scalar O))) :
  NewOverrideExpr source = Ok program → wf (VMap m) → Apply program m = Ok m' →
  wf (VMap m') ∧ (forallb (plain_statement true) program = true → wfs (unmarked true) (VMap m) → wfs (unmarked true) (VMap m')).
Proof.
  intros Hp Hm Ha. split; [|intros Hplain Hu; by eapply Apply_good].
  pose proof (program_fine source) as Hf. rewrite Hp in Hf. destruct Hf as [_ Hf].
  assert (∀ v : value (scalar O), wf v ↔ wfs (unmarked false) v) as Hw.
  { induction v as [|s|l IH|n IH] using value_rect'; [done|by split|rewrite !wf_arr|rewrite !wf_map].
    - rewrite !list.Forall_forall. rewrite list.Forall_forall in IH. split; intros Hl x Hx; by apply IH, Hl.
    - rewrite !list.Forall_forall. rewrite list.Forall_forall in IH. split; intros [Hs Hl]; (split; [done|]); intros x Hx; by apply IH, Hl. }
  apply Hw. eapply Apply_good; [|by apply Hw|exact Ha]. apply forallb_forall. intros s Hs%list_elem_of_In. rewrite list.Forall_forall in Hf. by apply Hf.
Qed.
