(* ===== verification/OverrideText.v ===== *)
(** * From the text of an assignment to its effect

    The text of a path, as the code prints it, is read back as the path, and the text of
    an assignment of a number does to a mapping what it says: lexer, parser, evaluation and
    update together. *)

From Stdlib Require Import ZArith Lia String Ascii SpecFloat.
From stdpp Require Import base strings numbers list.
From S2P Require Import Prelude GoStrings OverridePath OverridePathTheory OverrideValue OverrideEval OverrideEvalTheory OverrideParser OverrideParserTheory.
#[local] Open Scope Z_scope.

(** ** Characters *)

Lemma dec_digit c : is_digit c = is_dec c.
Proof. by destruct c as [[] [] [] [] [] [] [] []]. Qed.

Lemma base_ten c : base_digit 10 c = digit_val c.
Proof. by destruct c as [[] [] [] [] [] [] [] []]. Qed.

(** The first byte of a name is no other token. *)
Lemma start_byte c : isOverrideIdentifierStart c = true →
  is_space c = false ∧ is_char "#" c = false ∧ assoc c singles = None ∧ assoc c doubles = None ∧ is_char quote c = false ∧ is_dec c = false.
Proof. destruct c as [[] [] [] [] [] [] [] []]; try (by intros [=]); intros _; by split_and!. Qed.

Lemma digit_byte c : is_dec c = true →
  is_space c = false ∧ is_char "#" c = false ∧ assoc c singles = None ∧ assoc c doubles = None ∧ is_char quote c = false
  ∧ is_char "." c || is_char "e" c || is_char "E" c = false ∧ is_char "x" c || is_char "X" c = false ∧ Ascii.eqb c "=" = false ∧ Ascii.eqb c "+" = false ∧ Ascii.eqb c "-" = false.
Proof. destruct c as [[] [] [] [] [] [] [] []]; try (by intros [=]); intros _; by split_and!. Qed.

(** ** Numbers *)

Definition digits (s : string) : Prop := s ≠ "" ∧ str_all is_dec s = true.

Lemma FormatUint_dec n : 0 ≤ n → digits (FormatUint n).
Proof.
  intros Hn. split; [apply FormatUint_nonempty|]. eapply (str_all_impl is_digit); [intros c; by rewrite dec_digit|by apply FormatUint_digits].
Qed.

Lemma parse_digits_format n : 0 ≤ n < 2 ^ 64 → parse_digits 0 (FormatUint n) = Some n.
Proof.
  intros Hn. destruct (print_parse 20 n "") as (k & Hk & Hp); [|lia|].
  - split; [lia|]. etrans; [apply Hn|]. vm_compute. done.
  - unfold FormatUint. by rewrite (Hp 0).
Qed.

Lemma unsigned_text s : digits s → (match s with String "+" t => (false, t) | String "-" t => (true, t) | _ => (false, s) end) = (false, s).
Proof.
  intros [Hne Hs]. destruct s as [|c t]; [done|]. cbn in Hs. apply andb_true_iff in Hs as [Hc _]. destruct c as [[] [] [] [] [] [] [] []]; done.
Qed.

Lemma ParseInt_format n : 0 ≤ n < 2 ^ 63 → ParseInt (FormatUint n) 64 = Some n.
Proof.
  intros Hn. pose proof (FormatUint_dec n) as Hd. unfold ParseInt. rewrite unsigned_text by (apply Hd; lia). rewrite parse_digits_format by lia.
  destruct (FormatUint n) eqn:E; [by destruct (FormatUint_nonempty n)|]. by rewrite (proj2 (Z.ltb_lt _ _)) by lia.
Qed.
Lemma ParseInt_minus n : 0 ≤ n ≤ 2 ^ 63 → ParseInt (String "-" (FormatUint n)) 64 = Some (- n).
Proof.
  intros Hn. unfold ParseInt. rewrite parse_digits_format by lia. destruct (FormatUint n) eqn:E; [by destruct (FormatUint_nonempty n)|]. by rewrite (proj2 (Z.leb_le _ _)) by lia.
Qed.

Lemma parse_base_ten s : ∀ acc, parse_base 10 acc s = parse_digits acc s.
Proof. induction s as [|c s IH]; intros acc; [done|]. cbn [parse_base parse_digits]. rewrite base_ten. by destruct (digit_val c). Qed.
Lemma ParseIntBase_ten s : ParseIntBase s 10 = ParseInt s 64.
Proof. unfold ParseIntBase, ParseInt. destruct (match s with String "+" t => _ | _ => _ end) as [neg ds]. by rewrite parse_base_ten. Qed.

(** ** The lexer on known text *)

Definition lexx (at_ : Z) (s : string) : P (list overrideToken) := lex (String.length s) at_ s.

Lemma lex_more fuel : ∀ at_ s, (String.length s ≤ fuel)%nat → lex fuel at_ s = lexx at_ s.
Proof.
  unfold lexx. enough (∀ n f at_ s, String.length s ≤ n → String.length s ≤ f → lex f at_ s = lex (String.length s) at_ s)%nat as Hn by (intros; by eapply Hn).
  clear. induction n as [|n IH]; intros f at_ s Hs Hf; (destruct s as [|c t]; [by destruct f|]); cbn in Hs, Hf; [lia|]. destruct f as [|f]; [lia|]. cbn [lex String.length].
  destruct (is_space c); [apply IH; lia|]. destruct (is_char "#" c); [done|]. destruct (lex_token at_ c t) as [[tok rest]|e] eqn:E; [|done]. apply lex_token_weight in E. unfold weight in E.
  rewrite (IH f) by lia. rewrite (IH (String.length t)) by lia. done.
Qed.

Lemma lexx_step at_ c t tok rest : is_space c = false → is_char "#" c = false → lex_token at_ c t = Ok (tok, rest) →
  ∃ at', lexx at_ (String c t) = (let! ts := lexx at' rest in Ok (tok :: ts)).
Proof.
  intros Hs Hh E. unfold lexx at 1. cbn [String.length lex]. rewrite Hs, Hh, E. apply lex_token_weight in E. unfold weight in E. rewrite lex_more by lia. by eexists.
Qed.

Lemma lexx_space at_ t : lexx at_ (String " " t) = lexx (at_ + 1) t.
Proof. done. Qed.

Definition stops (s : string) : Prop := match s with String c _ => isOverrideIdentifierPart c = false | EmptyString => True end.

Lemma span_stops p s rest : str_all p s = true → match rest with String c _ => p c = false | EmptyString => True end → span p (s +:+ rest) = (s, rest).
Proof.
  intros Hs Hr. induction s as [|c s IH]; [destruct rest as [|c t]; [done|]; change ("" +:+ String c t) with (String c t); cbn; by rewrite Hr|].
  cbn in Hs. apply andb_true_iff in Hs as [Hc Hs]. change (String c s +:+ rest) with (String c (s +:+ rest)). cbn [span]. by rewrite Hc, IH.
Qed.

(** A name, a number. *)
Definition printable_key (k : string) : bool :=
  match k with String c t => isOverrideIdentifierStart c && str_all isOverrideIdentifierPart t | EmptyString => false end.

Lemma lexx_name at_ k rest : printable_key k = true → stops rest → ∃ at' tok, kind tok = Identifier ∧ text tok = k ∧ lexx at_ (k +:+ rest) = (let! ts := lexx at' rest in Ok (tok :: ts)).
Proof.
  destruct k as [|c k]; [done|]. cbn [printable_key]. intros [Hc Hk]%andb_true_iff Hr. change (String c k +:+ rest) with (String c (k +:+ rest)).
  destruct (start_byte c Hc) as (H1 & H2 & H3 & H4 & H5 & H6).
  destruct (lexx_step at_ c (k +:+ rest) (mkToken Identifier (String c k) at_) rest H1 H2) as [at' E]; [unfold lex_token; rewrite H3, H4, H5, H6, Hc; by rewrite span_stops|].
  rewrite E. by exists at', (mkToken Identifier (String c k) at_).
Qed.

(** What follows a number here: a bracket, or the end. *)
Definition ends_number (s : string) : Prop := s = "" ∨ ∃ t, s = String "]" t.

Lemma scan_digits s rest : digits s → ends_number rest → scanOverrideNumber (s +:+ rest) = (s, rest).
Proof.
  intros [Hne Hs] Hr. destruct s as [|c s]; [done|]. cbn in Hs. apply andb_true_iff in Hs as [Hc Hs].
  assert (span is_dec (String c s +:+ rest) = (String c s, rest)) as Hspan by (apply span_stops; [cbn; by rewrite Hc, Hs|by destruct Hr as [->|[t ->]]]).
  change (String c s +:+ rest) with (String c (s +:+ rest)) in *.
  destruct (s +:+ rest) as [|d t] eqn:Esr; [assert (s = "" ∧ rest = "") as [-> ->] by (destruct s; [done|by change (String a s +:+ rest) with (String a (s +:+ rest)) in Esr]); done|].
  unfold scanOverrideNumber. assert (is_char "0" c && (is_char "x" d || is_char "X" d) = false) as ->.
  { apply andb_false_iff. right. destruct s as [|d' s]; [destruct Hr as [->|[t' ->]]; [done|]; by injection Esr as <- <-|].
    change (String d' s +:+ rest) with (String d' (s +:+ rest)) in Esr. injection Esr as -> _. cbn in Hs. apply andb_true_iff in Hs as [Hd _]. by destruct (digit_byte d Hd) as (_ & _ & _ & _ & _ & _ & ? & _). }
  rewrite Hspan. destruct Hr as [->|[t' ->]]; cbn -[String.append]; change ("" +:+ "") with ""; by rewrite string_app_nil_r.
Qed.

Lemma lexx_number at_ s rest : digits s → ends_number rest → ∃ at' tok, kind tok = Number ∧ text tok = s ∧ lexx at_ (s +:+ rest) = (let! ts := lexx at' rest in Ok (tok :: ts)).
Proof.
  intros Hd Hr. pose proof (scan_digits s rest Hd Hr) as Hscan. destruct Hd as [Hne Hs]. destruct s as [|c s]; [done|]. cbn in Hs. apply andb_true_iff in Hs as [Hc Hs]. change (String c s +:+ rest) with (String c (s +:+ rest)) in *.
  destruct (digit_byte c Hc) as (H1 & H2 & H3 & H4 & H5 & _).
  destruct (lexx_step at_ c (s +:+ rest) (mkToken Number (String c s) at_) rest H1 H2) as [at' E]; [unfold lex_token; rewrite H3, H4, H5, Hc; by rewrite Hscan|].
  rewrite E. by exists at', (mkToken Number (String c s) at_).
Qed.

(** ** Paths *)

Definition printable_segment (s : overridePathSegment) : bool :=
  match s with Field k => printable_key k | Index i => (- 2 ^ 63 <=? i) && (i <? 2 ^ 63) | Wildcard => true end.
Definition printable (p : path) : bool := forallb printable_segment p.

(** The tokens a path is written with, after its first dot when [first]. *)
Inductive spells : bool → path → list overrideToken → Prop :=
| spells_nil first : spells first [] []
| spells_first k p ts name : kind name = Identifier → text name = k → spells false p ts → spells true (Field k :: p) (name :: ts)
| spells_field k p ts dot name : kind dot = Dot → kind name = Identifier → text name = k → spells false p ts → spells false (Field k :: p) (dot :: name :: ts)
| spells_index first i p ts a b c : kind a = LeftBracket → kind b = Number → text b = FormatUint i → kind c = RightBracket →
    0 ≤ i < 2 ^ 63 → spells false p ts → spells first (Index i :: p) (a :: b :: c :: ts)
| spells_back first i p ts a b c d : kind a = LeftBracket → kind b = Minus → text b = "-" → kind c = Number → text c = FormatUint i → kind d = RightBracket →
    0 ≤ i ≤ 2 ^ 63 → spells false p ts → spells first (Index (- i) :: p) (a :: b :: c :: d :: ts)
| spells_wild first p ts a b : kind a = LeftBracket → kind b = RightBracket → spells false p ts → spells first (Wildcard :: p) (a :: b :: ts).

(** One byte that is a token. *)
Lemma lexx_single at_ c k t : is_space c = false → is_char "#" c = false → assoc c singles = Some k →
  ∃ at' tok, kind tok = k ∧ text tok = String c "" ∧ lexx at_ (String c t) = (let! ts := lexx at' t in Ok (tok :: ts)).
Proof.
  intros H1 H2 H3. destruct (lexx_step at_ c t (mkToken k (String c "") at_) t H1 H2) as [at' E]; [unfold lex_token; by rewrite H3|]. rewrite E. by exists at', (mkToken k (String c "") at_).
Qed.

Lemma path_text_stops p rest : stops rest → stops (path_text false p +:+ rest).
Proof. by destruct p as [|[k|i|] p]. Qed.

Lemma str_cons_app c s t : String c s +:+ t = String c (s +:+ t).
Proof. done. Qed.
Lemma str_app_assoc s t u : (s +:+ t) +:+ u = s +:+ (t +:+ u).
Proof. induction s as [|c s IH]; [done|]. by rewrite !str_cons_app, IH. Qed.

(** The minus sign of an index. *)
Lemma lexx_minus at_ s rest : digits s → ends_number rest → ∃ at' a b, kind a = Minus ∧ text a = "-" ∧ kind b = Number ∧ text b = s
  ∧ lexx at_ (String "-" (s +:+ rest)) = (let! ts := lexx at' rest in Ok (a :: b :: ts)).
Proof.
  intros Hd Hr. destruct (lexx_step at_ "-" (s +:+ rest) (mkToken Minus "-" at_) (s +:+ rest) eq_refl eq_refl) as [at1 E].
  { destruct Hd as [Hne Hs]. destruct s as [|c s]; [done|]. cbn in Hs. apply andb_true_iff in Hs as [Hc _]. destruct (digit_byte c Hc) as (_ & _ & _ & _ & _ & _ & _ & He & _). rewrite str_cons_app. unfold lex_token. cbn [assoc singles doubles Ascii.eqb eqb]. cbn. by rewrite He. }
  rewrite E. destruct (lexx_number at1 s rest Hd Hr) as (at2 & tok & Hk & Ht & ->). exists at2, (mkToken Minus "-" at_), tok. split_and!; try done. by destruct (lexx at2 rest).
Qed.

Lemma lex_path p : ∀ first at_ rest, printable p = true → stops rest → ∃ ts at', spells first p ts ∧ lexx at_ (path_text first p +:+ rest) = (let! r := lexx at' rest in Ok (ts ++ r)).
Proof.
  induction p as [|s p IH]; intros first at_ rest Hp Hr; [exists [], at_; split; [constructor|]; change (path_text first [] +:+ rest) with rest; by destruct (lexx at_ rest)|].
  cbn [printable forallb] in Hp. apply andb_true_iff in Hp as [Hs Hp]. specialize (IH false). pose proof (path_text_stops p rest Hr) as Hstop.
  assert (∀ pre : list overrideToken, ∀ at_, (∀ ts, spells false p ts → spells first (s :: p) (pre ++ ts)) →
    ∃ ts at', spells first (s :: p) ts ∧ (let! r := lexx at_ (path_text false p +:+ rest) in Ok (pre ++ r)) = (let! r := lexx at' rest in Ok (ts ++ r))) as Hend.
  { intros pre at1 Hsp. destruct (IH at1 rest Hp Hr) as (ts & at' & H1 & ->). exists (pre ++ ts), at'. split; [by apply Hsp|]. destruct (lexx at' rest); [by rewrite app_assoc|done]. }
  destruct s as [k|i|]; cbn [path_text printable_segment] in *.
  - destruct first.
    + rewrite !str_app_assoc. change ("" +:+ (k +:+ (path_text false p +:+ rest))) with (k +:+ (path_text false p +:+ rest)). destruct (lexx_name at_ k _ Hs Hstop) as (at1 & name & Hk & Ht & ->).
      apply (Hend [name] at1). intros ts Hts. by constructor.
    + rewrite !str_app_assoc. change ("." +:+ (k +:+ (path_text false p +:+ rest))) with (String "." (k +:+ (path_text false p +:+ rest))).
      destruct (lexx_single at_ "." Dot (k +:+ (path_text false p +:+ rest)) eq_refl eq_refl eq_refl) as (at1 & dot & Hd & _ & ->). destruct (lexx_name at1 k _ Hs Hstop) as (at2 & name & Hk & Ht & ->).
      destruct (Hend [dot; name] at2) as (ts & at' & H1 & H2); [intros ts Hts; by constructor|]. exists ts, at'. split; [done|]. rewrite <- H2. by destruct (lexx at2 _).
  - apply andb_true_iff in Hs as [Hlo%Z.leb_le Hhi%Z.ltb_lt]. rewrite !str_app_assoc. change ("[" +:+ (Itoa i +:+ ("]" +:+ (path_text false p +:+ rest)))) with (String "[" (Itoa i +:+ (String "]" (path_text false p +:+ rest)))).
    destruct (lexx_single at_ "[" LeftBracket (Itoa i +:+ String "]" (path_text false p +:+ rest)) eq_refl eq_refl eq_refl) as (at1 & a & Ha & _ & ->).
    assert (ends_number (String "]" (path_text false p +:+ rest))) as Hen by (right; by eexists). unfold Itoa. destruct (Z.ltb_spec i 0) as [Hi|Hi].
    + rewrite str_cons_app. destruct (lexx_minus at1 (FormatUint (- i)) _ (FormatUint_dec (- i) ltac:(lia)) Hen) as (at2 & b & c & Hb & Hbt & Hc & Hct & ->).
      destruct (lexx_single at2 "]" RightBracket (path_text false p +:+ rest) eq_refl eq_refl eq_refl) as (at3 & d & Hd & _ & ->).
      destruct (Hend [a; b; c; d] at3) as (ts & at' & H1 & H2); [intros ts Hts; replace i with (- (- i)) by lia; by apply spells_back; try lia|]. exists ts, at'. split; [done|]. rewrite <- H2. by destruct (lexx at3 _).
    + destruct (lexx_number at1 (FormatUint i) _ (FormatUint_dec i Hi) Hen) as (at2 & b & Hb & Hbt & ->).
      destruct (lexx_single at2 "]" RightBracket (path_text false p +:+ rest) eq_refl eq_refl eq_refl) as (at3 & d & Hd & _ & ->).
      destruct (Hend [a; b; d] at3) as (ts & at' & H1 & H2); [intros ts Hts; by apply spells_index|]. exists ts, at'. split; [done|]. rewrite <- H2. by destruct (lexx at3 _).
  - rewrite !str_app_assoc. change ("[]" +:+ (path_text false p +:+ rest)) with (String "[" (String "]" (path_text false p +:+ rest))).
    destruct (lexx_single at_ "[" LeftBracket (String "]" (path_text false p +:+ rest)) eq_refl eq_refl eq_refl) as (at1 & a & Ha & _ & ->).
    destruct (lexx_single at1 "]" RightBracket (path_text false p +:+ rest) eq_refl eq_refl eq_refl) as (at2 & b & Hb & _ & ->).
    destruct (Hend [a; b] at2) as (ts & at' & H1 & H2); [intros ts Hts; by apply spells_wild|]. exists ts, at'. split; [done|]. rewrite <- H2. by destruct (lexx at2 _).
Qed.

(** ** The parser on known tokens *)

Section parse.
Context (eof : Z).

Lemma segments_spell p ts : spells false p ts → ∀ r acc, path_segments eof (ts ++ r) acc = path_segments eof r (acc ++ p).
Proof.
  remember false as first eqn:Ef. induction 1 as [f|k p ts name Hn Ht _ IH|k p ts dot name Hd Hn Ht _ IH|f i p ts a b c Ha Hb Hbt Hc Hi _ IH|f i p ts a b c d Ha Hb Hbt Hc Hct Hd Hi _ IH|f p ts a b Ha Hb _ IH];
    intros r acc; cbn [app path_segments]; [by rewrite app_nil_r|done|..].
  - rewrite Hd, Hn. cbn [is_name]. unfold pathField. rewrite Hn, Ht, IH by done. by rewrite <- app_assoc.
  - rewrite Ha, Hb, Hbt, ParseInt_format, Hc by done. rewrite bool_decide_true by done. rewrite IH by done. by rewrite <- app_assoc.
  - rewrite Ha, Hb, Hc, Hbt, Hct. rewrite bool_decide_true by done. change ("-" +:+ FormatUint i) with (String "-" (FormatUint i)). rewrite ParseInt_minus, Hd by done. rewrite bool_decide_true by done. rewrite IH by done. by rewrite <- app_assoc.
  - rewrite Ha, Hb, IH by done. by rewrite <- app_assoc.
Qed.

(** Tokens that do not continue a path. *)
Definition ends_path (r : list overrideToken) : Prop :=
  match r with [] => True | t :: _ => match kind t with Dot | LeftBracket | Identifier | StringToken => False | _ => True end end.

Lemma segments_end r acc : ends_path r → path_segments eof r acc = Ok (acc, r).
Proof. destruct r as [|t r]; [done|]. cbn. by destruct (kind t). Qed.

Lemma path_spell dot p ts r : kind dot = Dot → spells true p ts → ends_path r → parsePath eof (dot :: ts ++ r) = Ok (p, r).
Proof.
  intros Hd Hs Hr. unfold parsePath, expect. cbn [peek tail]. rewrite bool_decide_true by done.
  assert (∀ q ts', spells false q ts' → ∀ acc, path_segments eof (ts' ++ r) acc = Ok (acc ++ q, r)) as Hseg by (intros q ts' Hq acc; rewrite (segments_spell q ts' Hq); by apply segments_end).
  assert (∀ ts' : list overrideToken, kind (peek eof ts') = LeftBracket → (if is_name (kind (peek eof ts')) then let! k := pathField (peek eof ts') in path_segments eof (tail ts') [Field k] else path_segments eof ts' []) = path_segments eof ts' []) as Hlb by (intros ts' ->; done).
  inversion Hs; subst.
  - cbn [app]. destruct r as [|t r]; [done|]. cbn [peek tail]. cbn in Hr. rewrite (segments_end (t :: r)) by done. by destruct (kind t).
  - cbn [app peek tail]. unfold pathField. repeat match goal with H : kind _ = Identifier |- _ => rewrite H end. cbn [is_name]. by apply (Hseg p0 ts0).
  - rewrite Hlb by done. by apply (Hseg (Index i :: p0) (a :: b :: c :: ts0)), spells_index.
  - rewrite Hlb by done. by apply (Hseg (Index (- i) :: p0) (a :: b :: c :: d :: ts0)), spells_back.
  - rewrite Hlb by done. by apply (Hseg (Wildcard :: p0) (a :: b :: ts0)), spells_wild.
Qed.

Context {O : Type} `{OverrideLib O}.

Lemma number_literal tok n : text tok = FormatUint n → 0 ≤ n < 2 ^ 63 → parseNumber tok = Ok (@overrideLiteralExpr O (vint n)).
Proof.
  intros Ht Hn. pose proof (FormatUint_dec n ltac:(lia)) as [Hne Hd]. unfold parseNumber. rewrite Ht.
  rewrite (str_all_impl is_dec _ _) by (done || (intros c Hc; destruct (digit_byte c Hc) as (_ & _ & _ & _ & _ & E & _); by rewrite E)). cbn [negb].
  assert (∀ x, is_dec x = false → HasPrefix (FormatUint n) (String "0" (String x "")) = false) as Hp.
  { intros x Hx. destruct (FormatUint n) as [|c [|c' s]]; [done|cbn; apply andb_false_r|]. cbn in Hd |- *. apply andb_true_iff in Hd as [_ [Hd _]%andb_true_iff]. rewrite (bool_decide_false (x = c')) by congruence. cbn. apply andb_false_r. }
  rewrite !Hp by done. cbn [orb]. by rewrite ParseIntBase_ten, ParseInt_format.
Qed.

Lemma value_number fuel tok (e : overrideValueExpr O) : kind tok = Number → parseNumber tok = Ok e → parseValueExpression (S fuel) eof false [tok] = Ok (e, []).
Proof.
  destruct tok as [k t p]. cbn. intros -> E. unfold parse_value, parseValueUpdateExpression, parseAlternative, parseComparison, parseAdditive, parseMultiplicative, level, parseUnary, parsePrimary. cbn [peek kind tail]. by rewrite E.
Qed.

Lemma assignment_spell fuel dot p ts eq number n :
  kind dot = Dot → spells true p ts → kind eq = AssignToken → kind number = Number → text number = FormatUint n → 0 ≤ n < 2 ^ 63 →
  parse (S fuel) eof (dot :: ts ++ [eq; number]) = Ok [@overrideAssignStatement O p None Assign (overrideLiteralExpr (vint n))].
Proof.
  intros Hd Hs He Hn Ht Hb. assert (parsePath eof (dot :: ts ++ [eq; number]) = Ok (p, [eq; number])) as Hp by (apply path_spell; [done|done|cbn; by rewrite He]).
  unfold parse. cbn [statements parse_next]. unfold parseStatement, peekIdentifier, startsAssignmentStatement, parse_assignment. cbn [peek tail]. rewrite Hd, Hp. cbn [peek tail]. rewrite He. cbn [isOverrideAssignmentToken assignment_operator negb].
  rewrite bool_decide_false by done. cbn [andb]. by rewrite (value_number fuel number _ Hn (number_literal number n Ht Hb)).
Qed.
End parse.

(** The text of an assignment. *)
Lemma lexx_assign at_ n : 0 ≤ n → ∃ eq number, kind eq = AssignToken ∧ kind number = Number ∧ text number = FormatUint n ∧ lexx at_ (" = " +:+ FormatUint n) = Ok [eq; number].
Proof.
  intros Hn. change (" = " +:+ FormatUint n) with (String " " (String "=" (String " " (FormatUint n)))). rewrite lexx_space.
  destruct (lexx_step (at_ + 1) "=" (String " " (FormatUint n)) (mkToken AssignToken "=" (at_ + 1)) (String " " (FormatUint n)) eq_refl eq_refl eq_refl) as [at1 ->]. rewrite lexx_space.
  destruct (lexx_number (at1 + 1) (FormatUint n) "" (FormatUint_dec n Hn) (or_introl eq_refl)) as (at2 & number & Hk & Ht & E). rewrite string_app_nil_r in E. rewrite E. by exists (mkToken AssignToken "=" (at_ + 1)), number.
Qed.

Lemma assignment_text {O} `{OverrideLib O} p n : printable p = true → 0 ≤ n < 2 ^ 63 →
  NewOverrideExpr (path_String p +:+ " = " +:+ Itoa n) = Ok [@overrideAssignStatement O p None Assign (overrideLiteralExpr (vint n))].
Proof.
  intros Hp Hn. assert (Itoa n = FormatUint n) as -> by (unfold Itoa; by rewrite (proj2 (Z.ltb_ge n 0)) by lia). unfold NewOverrideExpr, path_String.
  set (source := ("." +:+ path_text true p) +:+ " = " +:+ FormatUint n). assert (source = String "." (path_text true p +:+ (" = " +:+ FormatUint n))) as Hsrc by (unfold source; by rewrite str_app_assoc).
  change (lexOverrideExpr source) with (lexx 0 source). rewrite Hsrc at 1. destruct (lexx_single 0 "." Dot (path_text true p +:+ (" = " +:+ FormatUint n)) eq_refl eq_refl eq_refl) as (at1 & dot & Hd & _ & ->).
  destruct (lex_path p true at1 (" = " +:+ FormatUint n) Hp eq_refl) as (ts & at2 & Hs & ->). destruct (lexx_assign at2 n ltac:(lia)) as (eq & number & He & Hk & Ht & ->). by apply assignment_spell.
Qed.

(** Updating with a constant. *)
Lemma update_const {S} (v : value S) p x : reaches v p = true →
  ∃ v', updateOverridePath v p (λ _, Ok (cloneOverrideValue x)) = Ok v' ∧ lookupOverridePathStream v' p = map (λ _, x) (lookupOverridePathStream v p)
    ∧ ∀ q, apart p q = true → nowild q = true → lookupOverridePathStream v' q = lookupOverridePathStream v q.
Proof.
  intros Hr. pose proof (update_reads p v (λ _, Ok (cloneOverrideValue x)) Hr) as Hu.
  assert (∀ l : list (value S), update_list (λ _, Ok (cloneOverrideValue x)) l = Ok (map (λ _, x) l)) as Hc by (induction l as [|y l IH]; [done|]; cbn [update_list map]; by rewrite IH, clone_id).
  rewrite Hc in Hu. destruct (updateOverridePath v p _) as [v'|] eqn:E; [|done]. exists v'. injection Hu as Hu. split_and!; [done|done|]. intros q Ha Hq. by eapply update_beside.
Qed.

Lemma update_mapping_const {O} `{OverrideLib O} (m : list (string * value (scalar O))) p (x v : value (scalar O)) : p ≠ [] → updateOverridePath (VMap m) p (λ _, Ok (cloneOverrideValue x)) = Ok v →
  ∃ m', v = VMap m' ∧ ∀ c a, update_mapping c a m p (λ _, Ok (cloneOverrideValue x)) = Ok m'.
Proof.
  intros Hne E. unfold update_mapping. rewrite E. destruct p as [|[k|i|] p]; [done|..]; cbn [updateOverridePath] in E.
  - destruct (updateOverridePath (field m k) p _); [|done]. injection E as <-. by eexists.
  - injection E as <-. by eexists.
  - destruct (update_map _ m); [|done]. injection E as <-. by eexists.
Qed.

(** ** Properties *)

(** A path whose keys are names is read back from the text the code prints for it. *)
Theorem override_path_roundtrip (p : path) :
  printable p = true → ∃ ts, lexOverrideExpr (path_String p) = Ok ts ∧ parsePath (slen (path_String p)) ts = Ok (p, []).
Proof.
  intros Hp. unfold path_String. change ("." +:+ path_text true p) with (String "." (path_text true p)). change (lexOverrideExpr (String "." (path_text true p))) with (lexx 0 (String "." (path_text true p))).
  destruct (lexx_single 0 "." Dot (path_text true p) eq_refl eq_refl eq_refl) as (at1 & dot & Hd & _ & ->). destruct (lex_path p true at1 "" Hp I) as (ts & at2 & Hs & E). rewrite string_app_nil_r in E. rewrite E.
  eexists. split; [reflexivity|]. cbn [app]. by apply path_spell.
Qed.

(** C25. Assigning a number to a path, from the text to the mapping: the text is a program,
    the program changes a mapping through which the path goes, afterwards every place on
    the path has the number, and every path that parts from it reads what it read before. *)
Theorem override_assignment_end_to_end {O} `{OverrideLib O} `{UnicodeCase} (p : path) (n : Z) (m : list (string * value (scalar O))) :
  printable p = true → p ≠ [] → 0 ≤ n < 2 ^ 63 → reaches (VMap m) p = true →
  ∃ program m', NewOverrideExpr (path_String p +:+ " = " +:+ Itoa n) = Ok program ∧ Apply program m = Ok m'
    ∧ lookupOverridePathStream (VMap m') p = map (λ _, vint n) (lookupOverridePathStream (VMap m) p)
    ∧ ∀ q, apart p q = true → nowild q = true → lookupOverridePathStream (VMap m') q = lookupOverridePathStream (VMap m) q.
Proof.
  intros Hp Hne Hn Hr. destruct (update_const (VMap m) p (vint n) Hr) as (v & Hv & Hlook & Hq). destruct (update_mapping_const m p (vint n) v Hne Hv) as (m' & -> & Hm).
  eexists _, m'. rewrite assignment_text by done. split_and!; [reflexivity| |done|done]. cbn [Apply apply_statement]. unfold apply_assign. cbn. by rewrite Hm.
Qed.

(** ** Witnesses *)

#[local] Existing Instance plain_lib.
#[local] Existing Instance ascii_case.
Abbreviation mapping := (list (string * value (scalar Empty_set))).
Definition port_path : path := [Field "plugin-opts"; Index 0; Field "port"].

Lemma override_path_roundtrip_witness : ∃ ts, lexOverrideExpr ".plugin-opts[0].port" = Ok ts ∧ parsePath 20 ts = Ok (port_path, []).
Proof. exact (override_path_roundtrip port_path eq_refl). Defined.

Lemma override_assignment_end_to_end_witness :
  ∃ program m', NewOverrideExpr ".plugin-opts[0].port = 443" = Ok program ∧ Apply program ([] : mapping) = Ok m' ∧ lookupOverridePathStream (VMap m') port_path = [vint 443].
Proof.
  destruct (override_assignment_end_to_end port_path 443 ([] : mapping) eq_refl ltac:(discriminate) ltac:(lia) eq_refl) as (program & m' & H1 & H2 & H3 & _).
  exists program, m'. split; [exact H1|]. split; [exact H2|exact H3].
Defined.

Definition two_statements : list (overrideStatement Empty_set) := [overrideAssignStatement [Field "a"] None Assign (overrideLiteralExpr (vint 1)); overrideDeleteStatement [[Field "b"]]].

Lemma override_programs_keep_mappings_witness :
  NewOverrideExpr ".a = 1 | del(.b)" = Ok two_statements ∧ Apply two_statements [("b", vint 2)] = Ok [("a", vint 1)] ∧ wf (VMap [("a", @vint Empty_set 1)]).
Proof.
  assert (NewOverrideExpr ".a = 1 | del(.b)" = Ok two_statements) as H1 by (vm_compute; reflexivity).
  assert (Apply two_statements [("b", vint 2)] = Ok [("a", vint 1)]) as H2 by (vm_compute; reflexivity).
  assert (wf (VMap [("b", @vint Empty_set 2)])) as Hm by (apply wf_map; split; repeat constructor).
  exact (conj H1 (conj H2 (proj1 (override_programs_keep_mappings ".a = 1 | del(.b)" two_statements _ _ H1 Hm H2)))).
Defined.

(** ** What the code does against its documentation *)

Definition run (source : string) (m : mapping) : option (result error mapping) := match NewOverrideExpr source with Ok program => Some (Apply program m) | Err _ => None end.

(** Integers go through [float64]: adding zero changes a large one. *)
Example large_integer_changes : run ".a = 9007199254740993 + 0" [] = Some (Ok [("a", vint 9007199254740992)]).
Proof. vm_compute. reflexivity. Qed.

(** An update without a result creates the key it is said to leave untouched. *)
Example update_without_result_creates_null : run ".a.b |= select(false)" [] = Some (Ok [("a", VMap [("b", VNull)])]).
Proof. vm_compute. reflexivity. Qed.

(** A compound assignment inside an expression stores the marker for "no result". *)
Example marker_is_stored : run ".x |= (.y += select(false))" [] = Some (Ok [("x", VMap [("y", VScalar SNoMatch)])]).
Proof. vm_compute. reflexivity. Qed.

(** A hexadecimal number with the digit e is taken for a float. *)
Example hexadecimal_e_is_rejected : NewOverrideExpr ".a = 0xFE" = Err (At 6 "invalid number %q" ["0xFE"]) ∧ run ".a = 0xFF" [] = Some (Ok [("a", vint 255)]).
Proof. vm_compute. split; reflexivity. Qed.

(** The two bytes of a letter outside ASCII are read as a letter and a space. *)
Example letter_is_split : run (String "." (String (ascii_of_nat 195) (String (ascii_of_nat 160) " = 1"))) [] = Some (Ok [(String (ascii_of_nat 195) "", vint 1)]).
Proof. vm_compute. reflexivity. Qed.
