(* ===== verification/OpenVpnPacket.v ===== *)
(** * [transport/openvpn]: control packets and their protection

    [packet.go], [tlsauth.go], [tlscrypt.go], [tlscrypt_v2.go], the framing on TCP of
    [packetio.go] and the names of digests of [config.go].  Bytes are integers in
    [[0, 256)]; the field [receivedAt] of a packet is local metadata and is left out.
    [crypto/hmac] and [crypto/aes] are the class [Crypto], what the code relies on is
    the class [CryptoLaws]. *)

From Stdlib Require Import ZArith Lia.
From stdpp Require Import base strings numbers sets list.
From S2P Require Import Prelude GoStrings GoIO.
#[local] Open Scope Z_scope.

Abbreviation octets := (list Z).

(** ** Numbers of several bytes, most significant first *)

Definition PutUint32 (x : Z) : octets := [wrap 8 (Z.shiftr x 24); wrap 8 (Z.shiftr x 16); wrap 8 (Z.shiftr x 8); wrap 8 x].
Definition Uint32 (b : octets) : Z := Z.lor (Z.lor (Z.lor (Z.shiftl (nth 0 b 0) 24) (Z.shiftl (nth 1 b 0) 16)) (Z.shiftl (nth 2 b 0) 8)) (nth 3 b 0).

(** ** Opcodes *)

Definition KeyIDMask : Z := 7.
Definition OpcodeShift : Z := 3.
Definition SessionIDSize : nat := 8.
Definition reliableAckSize : nat := 8.

Definition PControlHardResetClientV1 : Z := 1.
Definition PControlHardResetServerV1 : Z := 2.
Definition PControlSoftResetV1 : Z := 3.
Definition PControlV1 : Z := 4.
Definition PAckV1 : Z := 5.
Definition PDataV1 : Z := 6.
Definition PControlHardResetClientV2 : Z := 7.
Definition PControlHardResetServerV2 : Z := 8.
Definition PDataV2 : Z := 9.
Definition PControlHardResetClientV3 : Z := 10.
Definition PControlWKCV1 : Z := 11.

Definition IsControl (o : Z) : bool :=
  bool_decide (o ∈ [PControlHardResetClientV1; PControlHardResetServerV1; PControlSoftResetV1; PControlV1; PAckV1;
                    PControlHardResetClientV2; PControlHardResetServerV2; PControlHardResetClientV3; PControlWKCV1]).
Definition HasMessageID (o : Z) : bool := IsControl o && negb (o =? PAckV1).

Abbreviation SessionID := octets (only parsing).
Definition noSession : SessionID := replicate SessionIDSize 0.

Record ControlPacket := mkControlPacket {
  Opcode : Z;
  KeyID : Z;
  LocalSession : SessionID;
  AckIDs : list Z;
  AckRemoteSession : SessionID;
  MessageID : Z;
  Payload : octets;
}.
#[export] Instance ControlPacket_eq_dec : EqDecision ControlPacket.
Proof. solve_decision. Defined.

Definition opcodeKeyID (opcode keyID : Z) : Z := Z.lor (wrap 8 (Z.shiftl opcode OpcodeShift)) (Z.land keyID KeyIDMask).
Definition parseOpcodeKeyID (b : Z) : Z * Z := (Z.shiftr b OpcodeShift, Z.land b KeyIDMask).

(** ** Plain control packets *)

Definition EncodePlain (p : ControlPacket) : result string octets :=
  if negb (IsControl (Opcode p)) then Err "not a control opcode"
  else if (reliableAckSize <? length (AckIDs p))%nat then Err "too many ack ids"
  else Ok ([wrap 8 (Z.of_nat (length (AckIDs p)))] ++ concat (PutUint32 <$> AckIDs p)
           ++ (if (0 <? length (AckIDs p))%nat then AckRemoteSession p else [])
           ++ (if HasMessageID (Opcode p) then PutUint32 (MessageID p) ++ Payload p else [])).

Fixpoint read_acks (n : nat) (b : octets) : list Z :=
  match n with O => [] | S n => Uint32 (take 4 b) :: read_acks n (drop 4 b) end.

Definition DecodeControlPlain (opcode : Z) (plain : octets) : result string (list Z * SessionID * Z * octets) :=
  match plain with
  | [] => Err "control payload too short"
  | n :: rest =>
      let ackLen := Z.to_nat n in
      if (reliableAckSize <? ackLen)%nat then Err "control ack array exceeds 8 entries"
      else if (length rest <? ackLen * 4)%nat then Err "control ack array truncated"
      else
        let acks := read_acks ackLen rest in
        let rest := drop (ackLen * 4) rest in
        if (0 <? ackLen)%nat && (length rest <? SessionIDSize)%nat then Err "control ack remote session truncated"
        else
          let remote := if (0 <? ackLen)%nat then take SessionIDSize rest else noSession in
          let rest := if (0 <? ackLen)%nat then drop SessionIDSize rest else rest in
          if HasMessageID opcode then
            if (length rest <? 4)%nat then Err "control message id truncated"
            else Ok (acks, remote, Uint32 (take 4 rest), drop 4 rest)
          else if bool_decide (rest = []) then Ok (acks, remote, 0, [])
          else Err "ack packet has trailing payload"
  end.

(** ** Digests and keys *)

Inductive Digest := MD5 | SHA1 | SHA256 | SHA384 | SHA512.
Definition Size (d : Digest) : nat := match d with MD5 => 16 | SHA1 => 20 | SHA256 => 32 | SHA384 => 48 | SHA512 => 64 end.

Inductive AEAD := GCM | ChaCha20Poly1305.
Definition AESBlockSize : nat := 16.
Definition DataChannelTagSize : nat := 16.

(** The standard library's ciphers, by key, vector and data. *)
Class Crypto := {
  hmac : Digest → octets → octets → octets;
  ctr : octets → octets → octets → octets;
  Seal : AEAD → octets → octets → octets → octets → octets;
  Open_ : AEAD → octets → octets → octets → octets → option octets;
  cbcEncrypt : octets → octets → octets → octets;
  cbcDecrypt : octets → octets → octets → octets;
}.

(** A tag has the size of its digest; the stream cipher undoes itself; an AEAD cipher
    opens what it sealed and adds a tag; CBC decryption undoes encryption of whole
    blocks, and keeps the length. *)
Class CryptoLaws `{Crypto} : Prop := {
  hmac_length d key data : length (hmac d key data) = Size d;
  ctr_involutive key iv data : ctr key iv (ctr key iv data) = data;
  ctr_length key iv data : length (ctr key iv data) = length data;
  Open_Seal a key nonce plain ad : Open_ a key nonce (Seal a key nonce plain ad) ad = Some plain;
  Seal_length a key nonce plain ad : length (Seal a key nonce plain ad) = (length plain + DataChannelTagSize)%nat;
  cbc_length key iv data : length (cbcEncrypt key iv data) = length data;
  cbc_inverse key iv data : (length data mod AESBlockSize = 0)%nat → cbcDecrypt key iv (cbcEncrypt key iv data) = data;
}.

Definition TLSCryptHeaderSize : nat := 9.
Definition TLSAuthPIDSize : nat := 8.
Definition TLSCryptPIDSize : nat := 8.
Definition TLSCryptTagSize : nat := Size SHA256.
Definition staticKeySize : nat := 256.
Definition keySlotSize : nat := 128.
Definition cipherKeySize : nat := 32.
Definition hmacKeySize : nat := 32.
Definition tlsAuthHMACKeyOffset : nat := 64.

Section names.
Context `{UnicodeCase}.
Definition normalizeAuth (auth : string) : string :=
  let a := ToUpper (TrimSpace auth) in
  if String.eqb a "" then "SHA256" else if String.eqb a "SHA-1" then "SHA1" else a.
Definition newDataChannelAuth (authName : string) : result string Digest :=
  if String.eqb authName "MD5" then Ok MD5
  else if String.eqb authName "SHA1" then Ok SHA1
  else if String.eqb authName "SHA256" then Ok SHA256
  else if String.eqb authName "SHA384" then Ok SHA384
  else if String.eqb authName "SHA512" then Ok SHA512
  else Err "unsupported openvpn auth".
End names.

Record TLSAuth := mkTLSAuth { newHash : Digest; encryptHMACKey : octets; decryptHMACKey : octets }.
Definition tagSize (a : TLSAuth) : nat := Size (newHash a).
Record TLSCrypt := mkTLSCrypt { encryptCipherKey : octets; encryptKey : octets; decryptCipherKey : octets; decryptKey : octets }.
Record TLSCryptV2 := mkTLSCryptV2 { crypt_v1 : TLSCrypt; wrappedClientKey : octets }.

Section crypt.
Context `{UnicodeCase, Crypto}.

(** [encrypt[64 : 64+n]] of a slot of 128 bytes. *)
Definition hmac_part (n : nat) (slot : octets) : octets := take n (drop tlsAuthHMACKeyOffset slot).

Definition NewTLSAuth (staticKey : octets) (keyDirection authName : string) : result string TLSAuth :=
  if negb (length staticKey =? staticKeySize)%nat then Err "invalid tls-auth static key length"
  else if negb (String.eqb keyDirection "0") && negb (String.eqb keyDirection "1") && negb (String.eqb keyDirection "") then Err "invalid tls-auth key-direction"
  else
    let! newHash := newDataChannelAuth (normalizeAuth authName) in
    let key0 := take keySlotSize staticKey in
    let key1 := drop keySlotSize staticKey in
    let '(encrypt, decrypt) :=
      if String.eqb keyDirection "1" then (key1, key0) else if String.eqb keyDirection "0" then (key0, key1) else (key0, key0) in
    Ok (mkTLSAuth newHash (hmac_part (Size newHash) encrypt) (hmac_part (Size newHash) decrypt)).

(** The eight bytes of packet number and time. *)
Definition pid (packetID unixTime : Z) : octets := PutUint32 packetID ++ PutUint32 unixTime.

Definition auth_wrap (a : TLSAuth) (header : octets) (packetID unixTime : Z) (plaintext : octets) : result string octets :=
  if negb (length header =? TLSCryptHeaderSize)%nat then Err "invalid tls-auth header length"
  else
    let id := pid packetID unixTime in
    Ok (header ++ hmac (newHash a) (encryptHMACKey a) (id ++ header ++ plaintext) ++ id ++ plaintext).

Definition auth_unwrap (a : TLSAuth) (packet : octets) : result string (octets * Z * Z * octets) :=
  if (length packet <? TLSCryptHeaderSize + tagSize a + TLSAuthPIDSize + 1)%nat then Err "tls-auth packet too short"
  else
    let headerEnd := TLSCryptHeaderSize in
    let tagEnd := (headerEnd + tagSize a)%nat in
    let pidEnd := (tagEnd + TLSAuthPIDSize)%nat in
    let header := take headerEnd packet in
    let tag := take (tagSize a) (drop headerEnd packet) in
    let id := take TLSAuthPIDSize (drop tagEnd packet) in
    let plaintext := drop pidEnd packet in
    if negb (bool_decide (tag = hmac (newHash a) (decryptHMACKey a) (id ++ header ++ plaintext))) then Err "tls-auth authentication failed"
    else Ok (header, Uint32 (take 4 id), Uint32 (drop 4 id), plaintext).

Definition NewTLSCrypt (staticKey : octets) (client : bool) : result string TLSCrypt :=
  if negb (length staticKey =? staticKeySize)%nat then Err "invalid tls-crypt static key length"
  else
    let key0 := take keySlotSize staticKey in
    let key1 := drop keySlotSize staticKey in
    let '(encrypt, decrypt) := if client then (key1, key0) else (key0, key1) in
    Ok (mkTLSCrypt (take cipherKeySize encrypt) (hmac_part hmacKeySize encrypt) (take cipherKeySize decrypt) (hmac_part hmacKeySize decrypt)).

(** [aes.NewCipher] takes keys of 16, 24 and 32 bytes. *)
Definition aes_key_ok (key : octets) : bool := bool_decide (length key ∈ [16; 24; 32]%nat).
Definition aes256ctr (key iv data : octets) : result string octets :=
  if aes_key_ok key then Ok (ctr key iv data) else Err "crypto/aes: invalid key size".

Definition crypt_wrap (c : TLSCrypt) (header : octets) (packetID unixTime : Z) (plaintext : octets) : result string octets :=
  if negb (length header =? TLSCryptHeaderSize)%nat then Err "invalid tls-crypt header length"
  else
    let ad := header ++ pid packetID unixTime in
    let tag := hmac SHA256 (encryptKey c) (ad ++ plaintext) in
    let! ciphertext := aes256ctr (encryptCipherKey c) (take AESBlockSize tag) plaintext in
    Ok (ad ++ tag ++ ciphertext).

Definition crypt_unwrap (c : TLSCrypt) (packet : octets) : result string (octets * Z * Z * octets) :=
  if (length packet <? TLSCryptHeaderSize + TLSCryptPIDSize + TLSCryptTagSize)%nat then Err "tls-crypt packet too short"
  else
    let header := take TLSCryptHeaderSize packet in
    let adEnd := (TLSCryptHeaderSize + TLSCryptPIDSize)%nat in
    let tagEnd := (adEnd + TLSCryptTagSize)%nat in
    let ad := take adEnd packet in
    let tag := take TLSCryptTagSize (drop adEnd packet) in
    let ciphertext := drop tagEnd packet in
    let! plaintext := aes256ctr (decryptCipherKey c) (take AESBlockSize tag) ciphertext in
    if negb (bool_decide (tag = hmac SHA256 (decryptKey c) (ad ++ plaintext))) then Err "tls-crypt authentication failed"
    else Ok (header, Uint32 (take 4 (drop TLSCryptHeaderSize packet)), Uint32 (take 4 (drop (TLSCryptHeaderSize + 4) packet)), plaintext).

Definition NewTLSCryptV2 (keyMaterial wrapped : octets) : result string TLSCryptV2 :=
  if negb (length keyMaterial =? 256)%nat then Err "invalid tls-crypt-v2 key material length"
  else if (length wrapped =? 0)%nat then Err "missing wrapped tls-crypt-v2 client key"
  else let! crypt := NewTLSCrypt keyMaterial true in Ok (mkTLSCryptV2 crypt wrapped).

(** ** Protected control packets *)

(** The types that implement the interface. *)
Inductive ControlCryptor := CAuth (a : TLSAuth) | CCrypt (c : TLSCrypt) | CCryptV2 (c : TLSCryptV2).
Definition Wrap (c : ControlCryptor) : octets → Z → Z → octets → result string octets :=
  match c with CAuth a => auth_wrap a | CCrypt c => crypt_wrap c | CCryptV2 c => crypt_wrap (crypt_v1 c) end.
Definition Unwrap (c : ControlCryptor) : octets → result string (octets * Z * Z * octets) :=
  match c with CAuth a => auth_unwrap a | CCrypt c => crypt_unwrap c | CCryptV2 c => crypt_unwrap (crypt_v1 c) end.

Definition Encode (p : ControlPacket) (crypt : option ControlCryptor) (packetID unixTime : Z) : result string octets :=
  let! plain := EncodePlain p in
  let header := opcodeKeyID (Opcode p) (KeyID p) :: LocalSession p in
  match crypt with
  | None => Ok (header ++ plain)
  | Some c => Wrap c header packetID unixTime plain
  end.

Definition decode_parts (header plain : octets) : result string ControlPacket :=
  let '(opcode, keyID) := parseOpcodeKeyID (nth 0 header 0) in
  if negb (IsControl opcode) then Err "not a control opcode"
  else let! (acks, remote, messageID, payload) := DecodeControlPlain opcode plain in
       Ok (mkControlPacket opcode keyID (tail header) acks remote messageID payload).

Definition DecodeControlPacket (crypt : option ControlCryptor) (packet : octets) : result string (ControlPacket * Z * Z) :=
  match crypt with
  | None =>
      if (length packet <? TLSCryptHeaderSize + 1)%nat then Err "control packet too short"
      else let! p := decode_parts (take TLSCryptHeaderSize packet) (drop TLSCryptHeaderSize packet) in Ok (p, 0, 0)
  | Some c =>
      let! (header, packetID, unixTime, plain) := Unwrap c packet in
      if negb (length header =? TLSCryptHeaderSize)%nat then Err "invalid control header length"
      else let! p := decode_parts header plain in Ok (p, packetID, unixTime)
  end.
End crypt.

(** ** Packets on a stream *)

Definition Uint16 (b : octets) : Z := Z.lor (Z.shiftl (nth 0 b 0) 8) (nth 1 b 0).
Definition stream_ReadPacket : prog (result io_error octets) :=
  read! length <- 2%nat;
  let size := Uint16 length in
  if size =? 0 then fail "empty openvpn TCP packet"
  else read! packet <- Z.to_nat size; Ret (Ok packet).
Definition stream_WritePacket (packet : octets) : prog (result io_error unit) :=
  let n := Z.of_nat (length packet) in
  if 65535 <? n then fail "openvpn TCP packet too large"
  else write ([wrap 8 (Z.shiftr n 8); wrap 8 n] ++ packet) (Ret (Ok ())).

(** ** Lemmas *)

Lemma put_length x : length (PutUint32 x) = 4%nat.
Proof. done. Qed.

Lemma wrap_bit x k : 0 ≤ k → Z.testbit (wrap 8 x) k = (k <? 8) && Z.testbit x k.
Proof.
  intros Hk. unfold wrap. destruct (Z.ltb_spec k 8); [by rewrite Z.mod_pow2_bits_low by lia|]. by rewrite Z.mod_pow2_bits_high by lia.
Qed.

Lemma uint32_put x rest : 0 ≤ x < 2 ^ 32 → Uint32 (PutUint32 x ++ rest) = x.
Proof.
  intros Hx. unfold Uint32, PutUint32. cbn [app nth]. apply Z.bits_inj'. intros k Hk.
  assert (∀ n, 0 ≤ n → Z.testbit (Z.shiftl (wrap 8 (Z.shiftr x n)) n) k = (n <=? k) && (k <? n + 8) && Z.testbit x k) as Hs.
  { intros n Hn. rewrite Z.shiftl_spec by done. destruct (Z.leb_spec n k); cbn [andb]; [|by apply Z.testbit_neg_r; lia]. rewrite wrap_bit, Z.shiftr_spec by lia. replace (k - n + n) with k by lia.
    by destruct (Z.ltb_spec (k - n) 8), (Z.ltb_spec k (n + 8)); try lia. }
  rewrite !Z.lor_spec, !Hs, wrap_bit by lia.
  destruct (Z.lt_ge_cases k 32) as [H32|H32].
  - destruct (Z.leb_spec 24 k), (Z.leb_spec 16 k), (Z.leb_spec 8 k), (Z.ltb_spec k (24 + 8)), (Z.ltb_spec k (16 + 8)), (Z.ltb_spec k (8 + 8)), (Z.ltb_spec k 8); try lia; cbn; by rewrite ?orb_false_r.
  - assert (Z.testbit x k = false) as ->; [|by rewrite !andb_false_r]. destruct (Z.eq_dec x 0) as [->|]; [apply Z.testbit_0_l|]. apply Z.bits_above_log2; [lia|]. apply Z.log2_lt_pow2; [lia|]. eapply Z.lt_le_trans; [apply Hx|]. apply Z.pow_le_mono_r; lia.
Qed.

Lemma uint32_take x rest : 0 ≤ x < 2 ^ 32 → Uint32 (take 4 (PutUint32 x ++ rest)) = x.
Proof. intros Hx. rewrite take_app_length' by reflexivity. rewrite <- (app_nil_r (PutUint32 x)). by apply uint32_put. Qed.

Lemma read_acks_put acks rest : Forall (λ x, 0 ≤ x < 2 ^ 32) acks → read_acks (length acks) (concat (PutUint32 <$> acks) ++ rest) = acks ∧ drop (length acks * 4) (concat (PutUint32 <$> acks) ++ rest) = rest.
Proof.
  induction 1 as [|x acks Hx _ [IH1 IH2]]; [done|]. cbn [length read_acks fmap list_fmap concat]. rewrite <- app_assoc. rewrite uint32_take by done. rewrite drop_app_length' by reflexivity. split; [by rewrite IH1|].
  replace (S (length acks) * 4)%nat with (4 + length acks * 4)%nat by lia. rewrite <- drop_drop. by rewrite drop_app_length' by reflexivity.
Qed.
Lemma acks_length (acks : list Z) : length (concat (PutUint32 <$> acks)) = (length acks * 4)%nat.
Proof. induction acks as [|x acks IH]; [done|]. cbn [fmap list_fmap concat]. rewrite length_app, IH. cbn. lia. Qed.

(** A packet that the code can send; what it does not send reads back as zero. *)
Definition uint32_ok (x : Z) : Prop := 0 ≤ x < 2 ^ 32.
Definition sendable (p : ControlPacket) : Prop :=
  IsControl (Opcode p) = true ∧ 0 ≤ KeyID p < 8 ∧ length (LocalSession p) = SessionIDSize ∧ (length (AckIDs p) ≤ reliableAckSize)%nat
  ∧ Forall uint32_ok (AckIDs p) ∧ length (AckRemoteSession p) = SessionIDSize ∧ uint32_ok (MessageID p).
Definition sent_form (p : ControlPacket) : ControlPacket :=
  mkControlPacket (Opcode p) (KeyID p) (LocalSession p) (AckIDs p)
    (if (0 <? length (AckIDs p))%nat then AckRemoteSession p else noSession)
    (if HasMessageID (Opcode p) then MessageID p else 0) (if HasMessageID (Opcode p) then Payload p else []).

Lemma plain_roundtrip p : sendable p → ∃ b, EncodePlain p = Ok b ∧ b ≠ [] ∧
  DecodeControlPlain (Opcode p) b = Ok (AckIDs p, AckRemoteSession (sent_form p), MessageID (sent_form p), Payload (sent_form p)).
Proof.
  intros (Hc & _ & _ & Hl & Ha & Hr & Hm). unfold EncodePlain. rewrite Hc. cbn [negb]. rewrite (proj2 (Nat.ltb_ge _ _)) by done. eexists. split; [reflexivity|]. split; [done|].
  cbn [app DecodeControlPlain]. assert (Z.to_nat (wrap 8 (Z.of_nat (length (AckIDs p)))) = length (AckIDs p)) as -> by (unfold wrap; rewrite Z.mod_small by (unfold reliableAckSize in Hl; lia); lia).
  rewrite (proj2 (Nat.ltb_ge _ _)) by done. rewrite (proj2 (Nat.ltb_ge _ _)) by (rewrite length_app, acks_length; lia).
  destruct (read_acks_put (AckIDs p) ((if (0 <? length (AckIDs p))%nat then AckRemoteSession p else []) ++ (if HasMessageID (Opcode p) then PutUint32 (MessageID p) ++ Payload p else [])) Ha) as [-> ->].
  unfold sent_form. cbn [AckRemoteSession MessageID Payload].
  destruct (0 <? length (AckIDs p))%nat; cbn [andb app].
  - rewrite (proj2 (Nat.ltb_ge _ _)) by (rewrite length_app, Hr; lia). rewrite take_app_length', drop_app_length' by done. destruct (HasMessageID (Opcode p)); [|done].
    rewrite (proj2 (Nat.ltb_ge _ _)) by (rewrite length_app, put_length; lia). rewrite uint32_take by done. by rewrite drop_app_length' by reflexivity.
  - destruct (HasMessageID (Opcode p)); [|done]. rewrite (proj2 (Nat.ltb_ge _ _)) by (rewrite length_app, put_length; lia). rewrite uint32_take by done. by rewrite drop_app_length' by reflexivity.
Qed.

Lemma opcode_roundtrip o k : IsControl o = true → 0 ≤ k < 8 → parseOpcodeKeyID (opcodeKeyID o k) = (o, k).
Proof.
  intros Ho Hk. unfold IsControl in Ho. apply bool_decide_eq_true in Ho.
  assert (Forall (λ o, Forall (λ k, parseOpcodeKeyID (opcodeKeyID o k) = (o, k)) (seqZ 0 8)) [1; 2; 3; 4; 5; 7; 8; 10; 11]) as Hall by (repeat constructor).
  rewrite list.Forall_forall in Hall. specialize (Hall o Ho). cbn beta in Hall. rewrite list.Forall_forall in Hall. apply Hall, elem_of_seqZ. lia.
Qed.

Lemma parts_roundtrip p b : sendable p → EncodePlain p = Ok b → decode_parts (opcodeKeyID (Opcode p) (KeyID p) :: LocalSession p) b = Ok (sent_form p).
Proof.
  intros Hs Hb. pose proof Hs as (Hc & Hk & _). destruct (plain_roundtrip p Hs) as (b' & Hb' & _ & Hd). rewrite Hb in Hb'. injection Hb' as <-. unfold decode_parts. cbn [nth tail]. rewrite opcode_roundtrip by done. rewrite Hc. cbn [negb]. by rewrite Hd.
Qed.

(** *** Protection undone by the peer *)

Lemma pid_read packetID unixTime rest : uint32_ok packetID → uint32_ok unixTime →
  Uint32 (take 4 (pid packetID unixTime ++ rest)) = packetID ∧ Uint32 (take 4 (drop 4 (pid packetID unixTime ++ rest))) = unixTime.
Proof. intros Hp Ht. unfold pid. rewrite <- app_assoc. split; [by apply uint32_take|]. rewrite drop_app_length' by reflexivity. by apply uint32_take. Qed.

Section roundtrip.
Context `{UnicodeCase, C : Crypto, !CryptoLaws}.

Lemma auth_roundtrip a a' header packetID unixTime plain :
  newHash a' = newHash a → decryptHMACKey a' = encryptHMACKey a → length header = TLSCryptHeaderSize → plain ≠ [] → uint32_ok packetID → uint32_ok unixTime →
  ∃ b, auth_wrap a header packetID unixTime plain = Ok b ∧ auth_unwrap a' b = Ok (header, packetID, unixTime, plain).
Proof.
  intros Hh Hk Hl Hn Hp Ht. unfold auth_wrap. rewrite Hl. cbn [negb Nat.eqb TLSCryptHeaderSize]. eexists. split; [reflexivity|].
  set (tag := hmac _ _ _). assert (length tag = tagSize a') as Htag by (unfold tag, tagSize; by rewrite hmac_length, Hh).
  unfold auth_unwrap. rewrite (proj2 (Nat.ltb_ge _ _)); last first.
  { rewrite !length_app, Hl, Htag. change (length (pid packetID unixTime)) with TLSAuthPIDSize. destruct plain; [done|]. cbn [length]. lia. }
  rewrite take_app_length', drop_app_length' by done. rewrite take_app_length' by done.
  rewrite <- !drop_drop. rewrite !(drop_app_length' header) by done. rewrite !(drop_app_length' tag) by done. rewrite (take_app_length' (pid _ _)), (drop_app_length' (pid _ _)) by done.
  rewrite bool_decide_eq_true_2 by (unfold tag; by rewrite Hh, Hk). cbn [negb].
  destruct (pid_read packetID unixTime [] Hp Ht) as [E1 E2]. rewrite app_nil_r in E1, E2. rewrite E1. by rewrite take_ge in E2 by done; rewrite E2.
Qed.

Lemma crypt_roundtrip c c' header packetID unixTime plain :
  decryptKey c' = encryptKey c → decryptCipherKey c' = encryptCipherKey c → aes_key_ok (encryptCipherKey c) = true →
  length header = TLSCryptHeaderSize → uint32_ok packetID → uint32_ok unixTime →
  ∃ b, crypt_wrap c header packetID unixTime plain = Ok b ∧ crypt_unwrap c' b = Ok (header, packetID, unixTime, plain).
Proof.
  intros Hk Hck Hok Hl Hp Ht. unfold crypt_wrap, aes256ctr. rewrite Hl, Hok. cbn [negb Nat.eqb TLSCryptHeaderSize]. eexists. split; [reflexivity|].
  set (tag := hmac _ _ _). assert (length tag = TLSCryptTagSize) as Htag by (unfold tag; by rewrite hmac_length).
  assert (length (header ++ pid packetID unixTime) = (TLSCryptHeaderSize + TLSCryptPIDSize)%nat) as Had by (by rewrite length_app, Hl).
  unfold crypt_unwrap. rewrite (proj2 (Nat.ltb_ge _ _)) by (rewrite length_app, Had, length_app, Htag; lia).
  rewrite <- !(drop_drop _ _ (TLSCryptHeaderSize + TLSCryptPIDSize)), !(drop_app_length' (header ++ _)), (take_app_length' (header ++ _)) by done.
  rewrite (take_app_length' tag), (drop_app_length' tag) by done. unfold aes256ctr. rewrite Hck, Hok, ctr_involutive, Hk. cbn [negb]. rewrite bool_decide_eq_true_2 by done. cbn [negb].
  rewrite <- !app_assoc. rewrite <- !(drop_drop _ _ TLSCryptHeaderSize), !(drop_app_length' header), take_app_length' by done.
  by destruct (pid_read packetID unixTime (tag ++ ctr (encryptCipherKey c) (take AESBlockSize tag) plain) Hp Ht) as [-> ->].
Qed.

(** The protection of the two ends, made from the same key. *)
Inductive paired : option ControlCryptor → option ControlCryptor → Prop :=
| paired_none : paired None None
| paired_auth key auth d d' a a' : (d, d') ∈ [("0", "1"); ("1", "0"); ("", "")] →
    NewTLSAuth key d auth = Ok a → NewTLSAuth key d' auth = Ok a' → paired (Some (CAuth a)) (Some (CAuth a'))
| paired_crypt key client c c' : NewTLSCrypt key client = Ok c → NewTLSCrypt key (negb client) = Ok c' → paired (Some (CCrypt c)) (Some (CCrypt c'))
| paired_v2 key wrapped c c' : NewTLSCryptV2 key wrapped = Ok c → NewTLSCrypt key false = Ok c' → paired (Some (CCryptV2 c)) (Some (CCrypt c')).

Lemma auth_keys key auth d d' a a' : (d, d') ∈ [("0", "1"); ("1", "0"); ("", "")] → NewTLSAuth key d auth = Ok a → NewTLSAuth key d' auth = Ok a' →
  newHash a' = newHash a ∧ decryptHMACKey a' = encryptHMACKey a.
Proof.
  intros Hd. unfold NewTLSAuth. destruct (length key =? staticKeySize)%nat; [|done]. cbn [negb]. destruct (newDataChannelAuth _) as [h|]; [|by intros; go_cases].
  set_unfold in Hd. destruct Hd as [[= -> ->]|[[= -> ->]|[[= -> ->]|[]]]]; cbn; by intros [= <-] [= <-].
Qed.
Lemma crypt_keys key client c c' : NewTLSCrypt key client = Ok c → NewTLSCrypt key (negb client) = Ok c' →
  decryptKey c' = encryptKey c ∧ decryptCipherKey c' = encryptCipherKey c ∧ aes_key_ok (encryptCipherKey c) = true.
Proof.
  unfold NewTLSCrypt. destruct (length key =? staticKeySize)%nat eqn:El; [|done]. apply Nat.eqb_eq in El. cbn [negb].
  destruct client; cbn [negb]; intros [= <-] [= <-]; (split; [done|]; split; [done|]); unfold aes_key_ok; cbn [encryptCipherKey]; apply bool_decide_eq_true; rewrite length_take, ?length_drop, ?length_take, El; vm_compute; set_solver.
Qed.

Lemma crypt_pair_wraps c s header packetID unixTime plain : paired (Some c) (Some s) → length header = TLSCryptHeaderSize → plain ≠ [] → uint32_ok packetID → uint32_ok unixTime →
  ∃ b, Wrap c header packetID unixTime plain = Ok b ∧ Unwrap s b = Ok (header, packetID, unixTime, plain).
Proof.
  intros Hc Hl Hn Hp Ht. inversion Hc as [|key auth d d' a a' Hd H1 H2|key client c1 c2 H1 H2|key wrapped c1 c2 H1 H2]; subst; cbn [Wrap Unwrap].
  - destruct (auth_keys _ _ _ _ _ _ Hd H1 H2). by apply auth_roundtrip.
  - destruct (crypt_keys _ _ _ _ H1 H2) as (? & ? & ?). by apply crypt_roundtrip.
  - unfold NewTLSCryptV2 in H1. go_cases. destruct (crypt_keys key true _ c2 ltac:(eassumption) H2) as (? & ? & ?). by apply crypt_roundtrip.
Qed.

Lemma packet_roundtrip c s p packetID unixTime :
  paired c s → sendable p → uint32_ok packetID → uint32_ok unixTime →
  ∃ b, Encode p c packetID unixTime = Ok b ∧
       DecodeControlPacket s b = Ok (sent_form p, (if c is Some _ then packetID else 0), (if c is Some _ then unixTime else 0)).
Proof.
  intros Hc Hs Hp Ht. destruct (plain_roundtrip p Hs) as (plain & Hb & Hn & _). pose proof (parts_roundtrip p plain Hs Hb) as Hd. pose proof Hs as (_ & _ & Hl & _).
  unfold Encode. rewrite Hb. assert (length (opcodeKeyID (Opcode p) (KeyID p) :: LocalSession p) = TLSCryptHeaderSize) as Hh by (cbn [length]; by rewrite Hl).
  destruct c as [c|], s as [s|]; try (by inversion Hc).
  - destruct (crypt_pair_wraps c s _ packetID unixTime plain Hc Hh Hn Hp Ht) as (b & -> & Hu). exists b. split; [done|]. unfold DecodeControlPacket. rewrite Hu, Hh. cbn [negb Nat.eqb TLSCryptHeaderSize]. by rewrite Hd.
  - eexists. split; [reflexivity|]. unfold DecodeControlPacket. rewrite (proj2 (Nat.ltb_ge _ _)) by (rewrite length_app, Hh; destruct plain; [done|]; cbn [length]; lia).
    rewrite take_app_length', drop_app_length' by done. by rewrite Hd.
Qed.

(** A control packet survives the wire: whatever acknowledgements, message number and
    payload a packet has, what one end encodes (in the clear, or protected by
    [--tls-auth], [--tls-crypt] or [--tls-crypt-v2]) the other end, which made its
    protection from the same static key, decodes to the same packet with the same packet
    number and time; only the fields the wire format does not carry read back as zero. *)
Theorem control_packet_roundtrip c s p packetID unixTime :
  paired c s → sendable p → uint32_ok packetID → uint32_ok unixTime →
  ∃ b, Encode p c packetID unixTime = Ok b ∧
       DecodeControlPacket s b = Ok (sent_form p, (if c is Some _ then packetID else 0), (if c is Some _ then unixTime else 0)).
Proof. apply packet_roundtrip. Qed.
End roundtrip.

(** ** Framing on a stream *)

Lemma uint16_put n : 0 ≤ n < 2 ^ 16 → Uint16 [wrap 8 (Z.shiftr n 8); wrap 8 n] = n.
Proof.
  intros Hn. unfold Uint16. cbn [nth]. apply Z.bits_inj'. intros k Hk. rewrite Z.lor_spec, Z.shiftl_spec by done. rewrite (wrap_bit n) by done.
  destruct (Z.lt_ge_cases k 8) as [H8|H8].
  - rewrite Z.testbit_neg_r by lia. by rewrite (proj2 (Z.ltb_lt k 8)).
  - rewrite wrap_bit, Z.shiftr_spec by lia. replace (k - 8 + 8) with k by lia. rewrite (proj2 (Z.ltb_ge k 8)) by done. rewrite orb_false_r.
    destruct (Z.ltb_spec (k - 8) 8); [done|]. symmetry. destruct (Z.eq_dec n 0) as [->|]; [apply Z.testbit_0_l|]. apply Z.bits_above_log2; [lia|]. apply Z.log2_lt_pow2; [lia|].
    eapply Z.lt_le_trans; [apply Hn|]. apply Z.pow_le_mono_r; lia.
Qed.

(** Over TCP the reader gets each packet that was written as it was, and nothing of the
    next one; a packet that has no bytes or more than 65535 is refused by one end. *)
Theorem stream_packet_roundtrip packet rest input w w' : (0 < length packet)%nat → Z.of_nat (length packet) ≤ 65535 →
  let sent := exec (stream_WritePacket packet) input (S w) in
  sent = Outcome (Ok ()) input (written sent) w ∧ exec stream_ReadPacket (written sent ++ rest) w' = Outcome (Ok packet) rest [] w'.
Proof.
  intros H0 Hmax. unfold stream_WritePacket. rewrite (proj2 (Z.ltb_ge _ _)) by done. cbn [exec write value_of unread written writes_left]. split; [done|].
  rewrite app_nil_r. set (n := Z.of_nat (length packet)). rewrite <- (app_assoc [wrap 8 (Z.shiftr n 8); wrap 8 n]). unfold stream_ReadPacket, read. rewrite (exec_read 2 _ [wrap 8 (Z.shiftr n 8); wrap 8 n]) by done. rewrite uint16_put by lia. rewrite (proj2 (Z.eqb_neq _ _)) by lia. rewrite exec_read by lia. done.
Qed.

(** ** A concrete instance *)

Definition toy_crypto : Crypto := {|
  hmac d key data := replicate (Size d) (wrap 8 (foldr Z.add 0 key + 3 * foldr Z.add 0 data));
  ctr key iv data := Z.lxor 90 <$> data;
  Seal a key nonce plain ad := plain ++ replicate DataChannelTagSize (wrap 8 (foldr Z.add 0 ad));
  Open_ a key nonce sealed ad :=
    let n := (length sealed - DataChannelTagSize)%nat in
    if bool_decide (drop n sealed = replicate DataChannelTagSize (wrap 8 (foldr Z.add 0 ad))) then Some (take n sealed) else None;
  cbcEncrypt key iv data := rev data;
  cbcDecrypt key iv data := rev data;
|}.
Lemma toy_laws : @CryptoLaws toy_crypto.
Proof.
  split; cbn [hmac ctr Seal Open_ cbcEncrypt cbcDecrypt toy_crypto]; intros.
  - apply length_replicate.
  - rewrite <- list_fmap_compose. erewrite list_fmap_ext; [apply list_fmap_id|]. intros ? x ?. cbn beta. unfold compose. by rewrite <- Z.lxor_assoc, Z.lxor_nilpotent, Z.lxor_0_l.
  - apply length_fmap.
  - rewrite length_app, length_replicate. replace (length plain + DataChannelTagSize - DataChannelTagSize)%nat with (length plain) by lia. by rewrite drop_app_length, take_app_length, bool_decide_eq_true_2.
  - by rewrite length_app, length_replicate.
  - apply length_rev.
  - apply rev_involutive.
Qed.

Definition demo_key : octets := seqZ 0 256.
Definition demo_session (k : Z) : octets := seqZ k 8.
Definition demo_packet : ControlPacket := mkControlPacket PControlV1 1 (demo_session 16) [5; 4294967295] (demo_session 32) 3 [22; 3; 1].

Definition demo_crypt (client : bool) : TLSCrypt :=
  match @NewTLSCrypt demo_key client with Ok c => c | Err _ => mkTLSCrypt [] [] [] [] end.

Lemma control_packet_roundtrip_witness :
  ∃ b, @Encode toy_crypto demo_packet (Some (CCrypt (demo_crypt true))) 7 1700000000 = Ok b ∧
       @DecodeControlPacket toy_crypto (Some (CCrypt (demo_crypt false))) b = Ok (sent_form demo_packet, 7, 1700000000).
Proof.
  apply (@control_packet_roundtrip ascii_case toy_crypto toy_laws (Some (CCrypt (demo_crypt true))) (Some (CCrypt (demo_crypt false))) demo_packet 7 1700000000).
  - apply (paired_crypt demo_key true); vm_compute; reflexivity.
  - unfold sendable, uint32_ok, demo_packet. cbn [Opcode KeyID LocalSession AckIDs AckRemoteSession MessageID]. split_and!; try lia; try reflexivity; [cbn; unfold reliableAckSize; lia|]. rewrite !list.Forall_cons. split_and!; [lia..|constructor].
  - unfold uint32_ok. lia.
  - unfold uint32_ok. lia.
Defined.
