(* ===== verification/OpenVpnData.v ===== *)
(** * [transport/openvpn/data.go]: the data channel

    The ciphers are those of the class [Crypto]; [crypto/rand.Read], which never fails, is
    the class [Random]: the bytes of its [n]-th call.  The pools of hash states and the
    buffers that are reused are left out, as is the lock: every operation holds it
    throughout.  An operation returns its result and the new state, also when it fails. *)

From Stdlib Require Import ZArith Lia.
From stdpp Require Import base strings numbers gmap sets list.
From S2P Require Import Prelude GoStrings OpenVpnPacket.
#[local] Open Scope Z_scope.

Definition DataChannelIVSize : nat := 12.
Definition DataChannelCBCIVSize : nat := 16.
Definition dataChannelIVRandBuf : nat := 32 * 1024.
Definition dataChannelReplayWindow : Z := 64.
Definition PeerIDUnset : Z := 16777215.
Definition dataPacketIDRekeyThreshold : Z := 4278190080.

Definition openVPNPingPacket : octets := [42; 24; 123; 243; 100; 30; 180; 203; 7; 237; 45; 10; 152; 31; 199; 72].
Definition IsPingPacket (packet : octets) : bool := bool_decide (packet = openVPNPingPacket).

Record KeyMaterial := mkKeyMaterial { SendCipherKey : octets; SendHMACKey : octets; RecvCipherKey : octets; RecvHMACKey : octets }.

(** The fields that are set for an AEAD cipher, or for a block cipher and a digest. *)
Inductive Suite :=
| SAEAD (kind : AEAD) (sendKey recvKey sendImplicitIV recvImplicitIV : octets)
| SCBC (sendKey recvKey sendHMACKey recvHMACKey : octets) (authHash : Digest).

Record DataChannel := mkDataChannel {
  suite : Suite;
  dc_keyID : Z;
  dc_peerID : Z;
  dc_header : octets;
  sendPacketID : Z;
  recvEvidence : bool;
  recvHighest : Z;
  recvWindow : Z;
  recvSeen : bool;
  randBuf : octets;
  randOffset : nat;
  randCalls : nat;
}.

Class Random := { rand_Read : nat → nat → octets }.
Class RandomLaws `{Random} : Prop := { rand_length k n : length (rand_Read k n) = n }.

Definition set_send (d : DataChannel) (id : Z) : DataChannel :=
  mkDataChannel (suite d) (dc_keyID d) (dc_peerID d) (dc_header d) id (recvEvidence d) (recvHighest d) (recvWindow d) (recvSeen d) (randBuf d) (randOffset d) (randCalls d).
Definition set_recv (d : DataChannel) (highest window : Z) : DataChannel :=
  mkDataChannel (suite d) (dc_keyID d) (dc_peerID d) (dc_header d) (sendPacketID d) (recvEvidence d) highest window true (randBuf d) (randOffset d) (randCalls d).
Definition set_rand (d : DataChannel) (buf : octets) (offset calls : nat) : DataChannel :=
  mkDataChannel (suite d) (dc_keyID d) (dc_peerID d) (dc_header d) (sendPacketID d) (recvEvidence d) (recvHighest d) (recvWindow d) (recvSeen d) buf offset calls.

(** ** Construction *)

Definition isDataChannelAEAD (cipherName : string) : bool :=
  bool_decide (cipherName ∈ ["AES-128-GCM"; "AES-192-GCM"; "AES-256-GCM"; "CHACHA20-POLY1305"]).
(** The name of the construction; [chacha20poly1305.New] takes keys of 32 bytes. *)
Definition newDataChannelAEAD (cipherName : string) (key : octets) : result string AEAD :=
  if bool_decide (cipherName ∈ ["AES-128-GCM"; "AES-192-GCM"; "AES-256-GCM"]) then
    if aes_key_ok key then Ok GCM else Err "crypto/aes: invalid key size"
  else if String.eqb cipherName "CHACHA20-POLY1305" then
    if (length key =? 32)%nat then Ok ChaCha20Poly1305 else Err "chacha20poly1305: bad key length"
  else Err "unsupported openvpn cipher".
Definition newDataChannelCBC (cipherName : string) (key : octets) : result string unit :=
  if bool_decide (cipherName ∈ ["AES-CBC"; "AES-128-CBC"; "AES-192-CBC"; "AES-256-CBC"]) then
    if aes_key_ok key then Ok () else Err "crypto/aes: invalid key size"
  else Err "unsupported openvpn cipher".

Definition dataHeader (peerID keyID : Z) : octets :=
  if negb (peerID =? PeerIDUnset) then [opcodeKeyID PDataV2 keyID; wrap 8 (Z.shiftr peerID 16); wrap 8 (Z.shiftr peerID 8); wrap 8 peerID]
  else [opcodeKeyID PDataV1 keyID].

Definition fresh_channel (s : Suite) (peerID keyID : Z) : DataChannel :=
  mkDataChannel s (Z.land keyID KeyIDMask) peerID (dataHeader peerID keyID) 0 false 0 0 false [] 0 0.

Definition NewDataChannel (keys : option KeyMaterial) (cipherName authName : string) (peerID keyID : Z) : result string DataChannel :=
  match keys with
  | None => Err "nil openvpn key material"
  | Some keys =>
      if isDataChannelAEAD cipherName then
        let! kind := newDataChannelAEAD cipherName (SendCipherKey keys) in
        let! _ := newDataChannelAEAD cipherName (RecvCipherKey keys) in
        if (length (SendHMACKey keys) <? DataChannelIVSize - 4)%nat || (length (RecvHMACKey keys) <? DataChannelIVSize - 4)%nat
        then Err "openvpn implicit IV keys are too short"
        else
          let implicit key := replicate 4 0 ++ take (DataChannelIVSize - 4) key in
          Ok (fresh_channel (SAEAD kind (SendCipherKey keys) (RecvCipherKey keys) (implicit (SendHMACKey keys)) (implicit (RecvHMACKey keys))) peerID keyID)
      else
        let! _ := newDataChannelCBC cipherName (SendCipherKey keys) in
        let! _ := newDataChannelCBC cipherName (RecvCipherKey keys) in
        let! authHash := newDataChannelAuth authName in
        let authSize := Size authHash in
        if (length (SendHMACKey keys) <? authSize)%nat || (length (RecvHMACKey keys) <? authSize)%nat
        then Err "openvpn HMAC keys are too short"
        else Ok (fresh_channel (SCBC (SendCipherKey keys) (RecvCipherKey keys) (take authSize (SendHMACKey keys)) (take authSize (RecvHMACKey keys)) authHash) peerID keyID)
  end.

(** ** Packet numbers *)

Definition nextPacketID (d : DataChannel) : result string Z * DataChannel :=
  if dataPacketIDRekeyThreshold <=? sendPacketID d then (Err "openvpn data packet id reached rekey threshold", d)
  else let id := wrap 32 (sendPacketID d + 1) in (Ok id, set_send d id).

Definition acceptPacketID (d : DataChannel) (packetID : Z) : result string unit * DataChannel :=
  if negb (recvSeen d) then (Ok (), set_recv d packetID 1)
  else if recvHighest d <? packetID then
    let shift := wrap 32 (packetID - recvHighest d) in
    let window := if dataChannelReplayWindow <=? shift then 1 else Z.lor (wrap 64 (Z.shiftl (recvWindow d) shift)) 1 in
    (Ok (), set_recv d packetID window)
  else
    let diff := wrap 32 (recvHighest d - packetID) in
    if dataChannelReplayWindow <=? diff then (Err "openvpn replayed data packet id", d)
    else
      let mask := wrap 64 (Z.shiftl 1 diff) in
      if negb (Z.land (recvWindow d) mask =? 0) then (Err "openvpn replayed data packet id", d)
      else (Ok (), set_recv d (recvHighest d) (Z.lor (recvWindow d) mask)).

Definition MarkPeerActive (d : DataChannel) : DataChannel :=
  mkDataChannel (suite d) (dc_keyID d) (dc_peerID d) (dc_header d) (sendPacketID d) true (recvHighest d) (recvWindow d) (recvSeen d) (randBuf d) (randOffset d) (randCalls d).
Definition PeerActive (d : DataChannel) : bool := recvEvidence d.

(** ** Packets *)

Definition aeadAdditionalData (header packetID : octets) : octets :=
  (if (0 <? length header)%nat && ((parseOpcodeKeyID (nth 0 header 0)).1 =? PDataV2) then header else []) ++ packetID.

Definition nonce (packetID : Z) (implicit : octets) : octets :=
  PutUint32 (Z.lxor (Uint32 (take 4 implicit)) packetID) ++ drop 4 implicit.

Definition dataPacketHeaderSize (packet : octets) : result string nat :=
  match packet with
  | [] => Err "empty openvpn data packet"
  | b :: _ =>
      let opcode := (parseOpcodeKeyID b).1 in
      if opcode =? PDataV1 then Ok 1%nat
      else if opcode =? PDataV2 then
        if (length packet <? 4)%nat then Err "openvpn P_DATA_V2 packet missing peer id" else Ok 4%nat
      else Err "not an openvpn data packet"
  end.

Definition pkcs7Unpad (padded : octets) (blockSize : nat) : result string octets :=
  if (length padded =? 0)%nat || negb (length padded mod blockSize =? 0)%nat then Err "invalid openvpn CBC padding length"
  else
    let padding := Z.to_nat (nth (length padded - 1) padded 0) in
    if (padding =? 0)%nat || (blockSize <? padding)%nat || (length padded <? padding)%nat then Err "invalid openvpn CBC padding"
    else if forallb (λ b, (Z.to_nat b =? padding)%nat) (drop (length padded - padding) padded)
    then Ok (take (length padded - padding) padded)
    else Err "invalid openvpn CBC padding".

Section channel.
Context `{Crypto, Random}.

(** [fillCBCIV]: take bytes from the buffer, and fill the buffer when it is used up. *)
Fixpoint fill (fuel want : nat) (d : DataChannel) : octets * DataChannel :=
  match fuel, want with
  | S fuel, S _ =>
      let d := if (randOffset d =? length (randBuf d))%nat then set_rand d (rand_Read (randCalls d) dataChannelIVRandBuf) 0 (S (randCalls d)) else d in
      let got := take want (drop (randOffset d) (randBuf d)) in
      let '(rest, d') := fill fuel (want - length got) (set_rand d (randBuf d) (randOffset d + length got) (randCalls d)) in
      (got ++ rest, d')
  | _, _ => ([], d)
  end.
Definition fillCBCIV (d : DataChannel) : octets * DataChannel := fill DataChannelCBCIVSize DataChannelCBCIVSize d.

Definition encryptAEAD (kind : AEAD) (key implicit header packet : octets) (packetID : Z) : octets :=
  let packetIDBytes := PutUint32 packetID in
  let sealed := Seal kind key (nonce packetID implicit) packet (aeadAdditionalData header packetIDBytes) in
  let n := (length sealed - DataChannelTagSize)%nat in
  header ++ packetIDBytes ++ drop n sealed ++ take n sealed.

Definition encryptCBC (key hmacKey : octets) (authHash : Digest) (d : DataChannel) (packet : octets) (packetID : Z) : octets * DataChannel :=
  let plainLen := (4 + length packet)%nat in
  let padding := (AESBlockSize - plainLen mod AESBlockSize)%nat in
  let padding := if (padding =? 0)%nat then AESBlockSize else padding in
  let '(iv, d) := fillCBCIV d in
  let ciphertext := cbcEncrypt key iv (PutUint32 packetID ++ packet ++ replicate padding (Z.of_nat padding)) in
  (dc_header d ++ hmac authHash hmacKey (iv ++ ciphertext) ++ iv ++ ciphertext, d).

Definition Encrypt (d : DataChannel) (packet : octets) : result string octets * DataChannel :=
  match nextPacketID d with
  | (Err e, d) => (Err e, d)
  | (Ok packetID, d) =>
      match suite d with
      | SAEAD kind sendKey _ sendIV _ => (Ok (encryptAEAD kind sendKey sendIV (dc_header d) packet packetID), d)
      | SCBC sendKey _ sendHMAC _ authHash => let '(out, d) := encryptCBC sendKey sendHMAC authHash d packet packetID in (Ok out, d)
      end
  end.

(** What both kinds do with a plain text and its number. *)
Definition accepting (d : DataChannel) (packetID : Z) (plain : octets) : result string octets * DataChannel :=
  match acceptPacketID d packetID with (Ok _, d') => (Ok plain, d') | (Err e, d') => (Err e, d') end.

Definition decryptAEAD (kind : AEAD) (key implicit : octets) (d : DataChannel) (packet : octets) (headerSize : nat) : result string octets * DataChannel :=
  if (length packet <? 1)%nat then (Err "empty openvpn data packet", d)
  else if (length packet <? headerSize + 4 + DataChannelTagSize + 1)%nat then (Err "openvpn data packet too short", d)
  else
    let header := take headerSize packet in
    let packetIDBytes := take 4 (drop headerSize packet) in
    let packetID := Uint32 packetIDBytes in
    let tag := take DataChannelTagSize (drop (headerSize + 4) packet) in
    let ciphertext := drop (headerSize + 4 + DataChannelTagSize) packet in
    match Open_ kind key (nonce packetID implicit) (ciphertext ++ tag) (aeadAdditionalData header packetIDBytes) with
    | None => (Err "cipher: message authentication failed", d)
    | Some plain => accepting d packetID plain
    end.

Definition decryptCBC (key hmacKey : octets) (authHash : Digest) (d : DataChannel) (packet : octets) (headerSize : nat) : result string octets * DataChannel :=
  let blockSize := AESBlockSize in
  let authSize := Size authHash in
  if (length packet <? headerSize + authSize + blockSize + blockSize)%nat then (Err "openvpn CBC data packet too short", d)
  else
    let body := drop headerSize packet in
    let tag := take authSize body in
    let authenticated := drop authSize body in
    if negb (bool_decide (tag = hmac authHash hmacKey authenticated)) then (Err "openvpn CBC data packet HMAC authentication failed", d)
    else
      let iv := take blockSize authenticated in
      let ciphertext := drop blockSize authenticated in
      if (length ciphertext =? 0)%nat || negb (length ciphertext mod blockSize =? 0)%nat then (Err "invalid openvpn CBC ciphertext length", d)
      else match pkcs7Unpad (cbcDecrypt key iv ciphertext) blockSize with
           | Err e => (Err e, d)
           | Ok plain =>
               if (length plain <? 4)%nat then (Err "openvpn CBC plaintext missing packet id", d)
               else accepting d (Uint32 (take 4 plain)) (drop 4 plain)
           end.

Definition Decrypt (d : DataChannel) (packet : octets) : result string octets * DataChannel :=
  match dataPacketHeaderSize packet with
  | Err e => (Err e, d)
  | Ok headerSize =>
      match suite d with
      | SAEAD kind _ recvKey _ recvIV => decryptAEAD kind recvKey recvIV d packet headerSize
      | SCBC _ recvKey _ recvHMAC authHash => decryptCBC recvKey recvHMAC authHash d packet headerSize
      end
  end.
End channel.

(** ** The replay window *)

(** What the window promises, without a window: a number is taken when it was not taken
    before and no number taken is ahead of it by 64 or more. *)
Fixpoint window_spec (seen ids : list Z) : list Z :=
  match ids with
  | [] => []
  | id :: ids =>
      if bool_decide (id ∉ seen ∧ Forall (λ x, x - id < dataChannelReplayWindow) seen) then id :: window_spec (id :: seen) ids
      else window_spec seen ids
  end.

(** The numbers that the code takes, one call after the other. *)
Fixpoint accept_all (d : DataChannel) (ids : list Z) : list Z :=
  match ids with
  | [] => []
  | id :: ids => match acceptPacketID d id with (Ok _, d') => id :: accept_all d' ids | (Err _, d') => accept_all d' ids end
  end.

Definition window_ok (d : DataChannel) (seen : list Z) : Prop :=
  if recvSeen d then
    recvHighest d ∈ seen ∧ uint32_ok (recvHighest d) ∧ Forall (λ x, x ≤ recvHighest d) seen
    ∧ ∀ k, 0 ≤ k < 64 → Z.testbit (recvWindow d) k = bool_decide (recvHighest d - k ∈ seen)
  else seen = [].

Lemma one_bit k : Z.testbit 1 k = (k =? 0).
Proof. change 1 with (2 ^ 0). rewrite Z.pow2_bits_eqb by lia. apply Z.eqb_sym. Qed.
Lemma wrap64_bit x k : 0 ≤ k < 64 → Z.testbit (wrap 64 x) k = Z.testbit x k.
Proof. intros Hk. unfold wrap. apply Z.mod_pow2_bits_low. lia. Qed.
Lemma wrap32_small x : uint32_ok x → wrap 32 x = x.
Proof. apply (wrap_small 32). Qed.

(** One number added to what was seen, by its distance to the highest. *)
Lemma seen_cons (high id k : Z) (seen : list Z) : bool_decide (high - k ∈ id :: seen) = (k =? high - id) || bool_decide (high - k ∈ seen).
Proof.
  destruct (Z.eqb_spec k (high - id)) as [->|Hne]; cbn [orb].
  - apply bool_decide_eq_true. replace (high - (high - id)) with id by lia. left.
  - apply bool_decide_ext. rewrite elem_of_cons. split; [intros [?|?]; [lia|done]|by right].
Qed.
Lemma above_unseen (high x : Z) (seen : list Z) : Forall (λ y, y ≤ high) seen → high < x → bool_decide (x ∈ seen) = false.
Proof. intros Hs Hx. apply bool_decide_eq_false. intros Hin. rewrite list.Forall_forall in Hs. specialize (Hs x Hin). cbn in Hs. lia. Qed.

Definition acceptable (id : Z) (seen : list Z) : bool := bool_decide (id ∉ seen ∧ Forall (λ x, x - id < dataChannelReplayWindow) seen).

Lemma window_forward d seen id : recvSeen d = true → window_ok d seen → uint32_ok id → recvHighest d < id →
  acceptable id seen = true ∧ ∃ w, acceptPacketID d id = (Ok (), set_recv d id w) ∧ window_ok (set_recv d id w) (id :: seen).
Proof.
  intros Hseen Hw Hid Hlt. unfold window_ok in Hw. rewrite Hseen in Hw. destruct Hw as (Hin & Hu & Hle & Hbits).
  assert (acceptable id seen = true) as Hok.
  { apply bool_decide_eq_true. split; [by eapply bool_decide_eq_false_1, (above_unseen (recvHighest d))|]. eapply list.Forall_impl; [done|]. intros x Hx. cbn in *. unfold dataChannelReplayWindow. lia. }
  split; [done|]. unfold acceptPacketID. rewrite Hseen, (proj2 (Z.ltb_lt _ _) Hlt). cbn [negb]. unfold uint32_ok in *. rewrite wrap32_small by (unfold uint32_ok; lia). eexists. split; [reflexivity|].
  unfold window_ok. cbn [recvSeen recvHighest recvWindow set_recv]. split_and!; [left|exact Hid|constructor; [lia|]|].
  { eapply list.Forall_impl; [done|]. cbn. lia. }
  intros k Hk. rewrite seen_cons. replace (id - id) with 0 by lia. unfold dataChannelReplayWindow. destruct (Z.leb_spec 64 (id - recvHighest d)).
  - rewrite one_bit, (above_unseen (recvHighest d)) by (done || lia). by rewrite orb_false_r.
  - rewrite Z.lor_spec, wrap64_bit, one_bit, Z.shiftl_spec by lia. rewrite orb_comm. f_equal. destruct (Z.lt_ge_cases k (id - recvHighest d)).
    + rewrite Z.testbit_neg_r by lia. symmetry. apply (above_unseen (recvHighest d)); [done|lia].
    + rewrite Hbits by lia. by replace (recvHighest d - (k - (id - recvHighest d))) with (id - k) by lia.
Qed.

Lemma window_backward d seen id : recvSeen d = true → window_ok d seen → uint32_ok id → id ≤ recvHighest d →
  if acceptable id seen then ∃ w, acceptPacketID d id = (Ok (), set_recv d (recvHighest d) w) ∧ window_ok (set_recv d (recvHighest d) w) (id :: seen)
  else acceptPacketID d id = (Err "openvpn replayed data packet id", d).
Proof.
  intros Hseen Hw Hid Hle'. unfold window_ok in Hw. rewrite Hseen in Hw. destruct Hw as (Hin & Hu & Hle & Hbits). unfold uint32_ok in *.
  unfold acceptPacketID. rewrite Hseen, (proj2 (Z.ltb_ge _ _) Hle'). cbn [negb]. rewrite wrap32_small by (unfold uint32_ok; lia). unfold dataChannelReplayWindow.
  destruct (Z.leb_spec 64 (recvHighest d - id)) as [Hfar|Hnear].
  - assert (acceptable id seen = false) as ->; [|done]. apply bool_decide_eq_false. intros [_ Hall]. rewrite list.Forall_forall in Hall. specialize (Hall _ Hin). cbn in Hall. unfold dataChannelReplayWindow in Hall. lia.
  - assert (wrap 64 (Z.shiftl 1 (recvHighest d - id)) = 2 ^ (recvHighest d - id)) as Hmask.
    { rewrite Z.shiftl_1_l. apply wrap_small. split; [lia|]. apply Z.pow_lt_mono_r; lia. }
    rewrite Hmask. assert ((Z.land (recvWindow d) (2 ^ (recvHighest d - id)) =? 0) = negb (bool_decide (id ∈ seen))) as ->.
    { assert (bool_decide (id ∈ seen) = Z.testbit (recvWindow d) (recvHighest d - id)) as -> by (rewrite Hbits by lia; by replace (recvHighest d - (recvHighest d - id)) with id by lia). destruct (Z.testbit (recvWindow d) (recvHighest d - id)) eqn:Eb; cbn [negb].
      - apply Z.eqb_neq. intros E0. assert (Z.testbit (Z.land (recvWindow d) (2 ^ (recvHighest d - id))) (recvHighest d - id) = false) as E1 by (rewrite E0; apply Z.testbit_0_l).
        rewrite Z.land_spec, Z.pow2_bits_true, Eb in E1 by lia. done.
      - apply Z.eqb_eq, Z.bits_inj'. intros k Hk. rewrite Z.land_spec, Z.testbit_0_l. rewrite Z.pow2_bits_eqb by lia. destruct (Z.eqb_spec (recvHighest d - id) k) as [<-|]; [by rewrite Eb|apply andb_false_r]. }
    rewrite negb_involutive. assert (acceptable id seen = negb (bool_decide (id ∈ seen))) as ->.
    { unfold acceptable. rewrite <- bool_decide_not. apply bool_decide_ext. split; [by intros [? _]|]. intros Hn. split; [done|]. eapply list.Forall_impl; [done|]. cbn. unfold dataChannelReplayWindow. lia. }
    destruct (bool_decide (id ∈ seen)); cbn [negb]; [done|]. eexists. split; [reflexivity|]. unfold window_ok. cbn [recvSeen recvHighest recvWindow set_recv]. split_and!; [by right|exact Hu|by constructor|].
    intros k Hk. rewrite seen_cons, Z.lor_spec, Z.pow2_bits_eqb, Hbits, orb_comm by lia. by rewrite (Z.eqb_sym (recvHighest d - id)).
Qed.

Lemma accept_step d seen id : window_ok d seen → uint32_ok id →
  if acceptable id seen then ∃ h w, acceptPacketID d id = (Ok (), set_recv d h w) ∧ window_ok (set_recv d h w) (id :: seen)
  else acceptPacketID d id = (Err "openvpn replayed data packet id", d).
Proof.
  intros Hw Hid. destruct (recvSeen d) eqn:Hseen.
  - destruct (Z.lt_ge_cases (recvHighest d) id) as [Hlt|Hge].
    + destruct (window_forward d seen id Hseen Hw Hid Hlt) as (-> & w & ? & ?). eauto.
    + pose proof (window_backward d seen id Hseen Hw Hid Hge) as Hb. destruct (acceptable id seen); [|done]. destruct Hb as (w & ? & ?). eauto.
  - unfold window_ok in Hw. rewrite Hseen in Hw. subst seen. cbn [acceptable]. unfold acceptPacketID. rewrite Hseen. cbn [negb]. unfold acceptable. rewrite bool_decide_eq_true_2 by (split; [set_solver|constructor]).
    exists id, 1. split; [done|]. unfold window_ok. cbn [recvSeen recvHighest recvWindow set_recv]. split_and!; [set_solver|exact Hid|by apply Forall_singleton|].
    intros k Hk. rewrite one_bit, seen_cons. replace (id - id) with 0 by lia. by rewrite (bool_decide_eq_false_2 (_ ∈ [])) by set_solver; rewrite orb_false_r.
Qed.

Lemma accept_all_spec ids : ∀ d seen, window_ok d seen → Forall uint32_ok ids → accept_all d ids = window_spec seen ids.
Proof.
  induction ids as [|id ids IH]; intros d seen Hw Hi; [done|]. apply list.Forall_cons in Hi as [Hid Hi]. cbn [accept_all window_spec]. pose proof (accept_step d seen id Hw Hid) as Hs. fold (acceptable id seen).
  destruct (acceptable id seen).
  - destruct Hs as (h & w & -> & Hw'). f_equal. by apply IH.
  - rewrite Hs. by apply IH.
Qed.
Lemma window_spec_fresh ids : ∀ seen, Forall (λ x, x ∉ seen) (window_spec seen ids) ∧ NoDup (window_spec seen ids).
Proof.
  induction ids as [|id ids IH]; intros seen; cbn [window_spec]; [split; constructor|]. case_bool_decide as Hb; [|apply IH]. destruct Hb as [Hn _]. destruct (IH (id :: seen)) as [IH1 IH2].
  split; constructor; try done.
  - eapply list.Forall_impl; [done|]. set_solver.
  - intros Hin. rewrite list.Forall_forall in IH1. apply (IH1 id Hin). left.
Qed.

(** ** From one end to the other *)

Definition suites_paired (s r : Suite) : Prop :=
  match s, r with
  | SAEAD k sk _ siv _, SAEAD k' _ rk _ riv => k' = k ∧ rk = sk ∧ riv = siv
  | SCBC sk _ sh _ a, SCBC _ rk _ rh a' => rk = sk ∧ rh = sh ∧ a' = a
  | _, _ => False
  end.
Definition rand_ok (d : DataChannel) : Prop := (randOffset d ≤ length (randBuf d))%nat.

Lemma data_opcode o keyID : o ∈ [PDataV1; PDataV2] → (parseOpcodeKeyID (opcodeKeyID o keyID)).1 = o.
Proof.
  intros Ho. assert (opcodeKeyID o keyID = opcodeKeyID o (Z.land keyID KeyIDMask)) as -> by (unfold opcodeKeyID; by rewrite <- (Z.land_assoc keyID), Z.land_diag).
  assert (Z.land keyID KeyIDMask ∈ seqZ 0 8) as Hk.
  { change KeyIDMask with (Z.ones 3). rewrite Z.land_ones by lia. apply elem_of_seqZ. pose proof (Z.mod_pos_bound keyID (2 ^ 3)). lia. }
  assert (Forall (λ o, Forall (λ k, (parseOpcodeKeyID (opcodeKeyID o k)).1 = o) (seqZ 0 8)) [PDataV1; PDataV2]) as Hall by (repeat constructor).
  rewrite list.Forall_forall in Hall. specialize (Hall o Ho). cbn beta in Hall. rewrite list.Forall_forall in Hall. by apply Hall.
Qed.

Lemma header_size peerID keyID rest : dataPacketHeaderSize (dataHeader peerID keyID ++ rest) = Ok (length (dataHeader peerID keyID)).
Proof.
  unfold dataHeader. destruct (peerID =? PeerIDUnset); cbn [negb app]; unfold dataPacketHeaderSize; rewrite data_opcode by set_solver; [done|]. cbn [length]. done.
Qed.

Lemma pkcs7_roundtrip l n : (1 ≤ n ≤ 16)%nat → ((length l + n) mod 16 = 0)%nat → pkcs7Unpad (l ++ replicate n (Z.of_nat n)) AESBlockSize = Ok l.
Proof.
  intros Hn Hm. unfold pkcs7Unpad. rewrite length_app, length_replicate. rewrite (proj2 (Nat.eqb_neq (length l + n) 0)) by lia. unfold AESBlockSize. rewrite Hm. cbn [orb negb Nat.eqb].
  rewrite app_nth2 by lia. replace (length l + n - 1 - length l)%nat with (n - 1)%nat by lia. rewrite nth_lookup. rewrite lookup_replicate_2 by lia. change (default 0 (Some (Z.of_nat n))) with (Z.of_nat n). rewrite Nat2Z.id.
  rewrite (proj2 (Nat.eqb_neq n 0)), !(proj2 (Nat.ltb_ge _ _)) by lia. cbn [orb]. replace (length l + n - n)%nat with (length l) by lia. rewrite drop_app_length, take_app_length.
  assert (forallb (λ b, (Z.to_nat b =? n)%nat) (replicate n (Z.of_nat n)) = true) as ->; [|done]. apply forallb_forall. intros x Hx. apply list_elem_of_In, elem_of_replicate in Hx as [-> _]. rewrite Nat2Z.id. apply Nat.eqb_refl.
Qed.

Section delivery.
Context `{C : Crypto, !CryptoLaws, R : Random, !RandomLaws}.

Lemma iv_fill_spec fuel : ∀ want d, (want ≤ fuel)%nat → rand_ok d →
  let '(iv, d') := fill fuel want d in length iv = want ∧ rand_ok d' ∧ d' = set_rand d (randBuf d') (randOffset d') (randCalls d').
Proof.
  induction fuel as [|fuel IH]; intros want d Hw Hr; [destruct want; [|lia]; by destruct d|]. destruct want as [|want]; [by destruct d|].
  cbn [fill]. set (d1 := if (randOffset d =? length (randBuf d))%nat then set_rand d _ _ _ else d).
  assert ((randOffset d1 < length (randBuf d1))%nat ∧ d1 = set_rand d (randBuf d1) (randOffset d1) (randCalls d1)) as [Hlt Hd1].
  { unfold d1, rand_ok in *. destruct (Nat.eqb_spec (randOffset d) (length (randBuf d))); [|split; [lia|by destruct d]]. cbn [randOffset randBuf set_rand]. rewrite rand_length. unfold dataChannelIVRandBuf. split; [lia|done]. }
  clearbody d1. set (got := take (S want) (drop (randOffset d1) (randBuf d1))).
  assert (length got = S want `min` (length (randBuf d1) - randOffset d1))%nat as Hg by (unfold got; by rewrite length_take, length_drop).
  specialize (IH (S want - length got)%nat (set_rand d1 (randBuf d1) (randOffset d1 + length got) (randCalls d1)) ltac:(lia)).
  destruct (fill fuel _ _) as [rest d']. destruct IH as (IH1 & IH2 & IH3); [unfold rand_ok; cbn [randOffset randBuf set_rand]; lia|].
  split_and!; [rewrite length_app, IH1; lia|done|]. rewrite IH3 at 1. by rewrite Hd1.
Qed.

Lemma aead_roundtrip kind key implicit peerID keyID packet packetID (r : DataChannel) : packet ≠ [] → uint32_ok packetID →
  let header := dataHeader peerID keyID in
  decryptAEAD kind key implicit r (encryptAEAD kind key implicit header packet packetID) (length header) = accepting r packetID packet.
Proof.
  intros Hp Hid header. unfold encryptAEAD. set (ad := aeadAdditionalData header (PutUint32 packetID)). set (sealed := Seal _ _ _ _ _).
  assert (length sealed = (length packet + DataChannelTagSize)%nat) as Hs by apply Seal_length. rewrite Hs. replace (length packet + DataChannelTagSize - DataChannelTagSize)%nat with (length packet) by lia.
  assert (length (drop (length packet) sealed) = DataChannelTagSize) as Ht by (rewrite length_drop; lia).
  assert (0 < length packet)%nat as Hp' by (destruct packet; [done|]; cbn; lia).
  unfold decryptAEAD. rewrite !length_app, put_length, Ht, length_take. rewrite !(proj2 (Nat.ltb_ge _ _)) by lia.
  rewrite take_app_length, drop_app_length, <- !drop_drop, !drop_app_length. rewrite (take_app_length' (PutUint32 packetID)), !(drop_app_length' (PutUint32 packetID)) by done.
  rewrite (take_app_length' (drop _ sealed)), (drop_app_length' (drop _ sealed)) by done. rewrite take_drop. assert (Uint32 (PutUint32 packetID) = packetID) as -> by (rewrite <- (app_nil_r (PutUint32 packetID)); by apply uint32_put).
  fold ad. unfold sealed. by rewrite Open_Seal.
Qed.

Lemma cbc_roundtrip key hmacKey authHash (d : DataChannel) peerID keyID packet packetID (r : DataChannel) :
  dc_header d = dataHeader peerID keyID → rand_ok d → uint32_ok packetID →
  let '(b, d') := encryptCBC key hmacKey authHash d packet packetID in
  (∃ rest, b = dc_header d ++ rest) ∧ rand_ok d' ∧ d' = set_rand d (randBuf d') (randOffset d') (randCalls d')
  ∧ decryptCBC key hmacKey authHash r b (length (dc_header d)) = accepting r packetID packet.
Proof.
  intros Hh Hr Hid. unfold encryptCBC. set (n := (AESBlockSize - (4 + length packet) mod AESBlockSize)%nat).
  assert (1 ≤ n ≤ 16 ∧ (4 + length packet + n) mod 16 = 0)%nat as [Hn Hm].
  { unfold n, AESBlockSize. pose proof (Nat.mod_upper_bound (4 + length packet) 16). split; [lia|]. pose proof (Nat.div_mod_eq (4 + length packet) 16). set (q := ((4 + length packet) / 16)%nat) in *. set (m := ((4 + length packet) mod 16)%nat) in *.
    replace (4 + length packet + (16 - m))%nat with ((q + 1) * 16)%nat by lia. by apply Nat.Div0.mod_mul. }
  rewrite (proj2 (Nat.eqb_neq n 0)) by lia. pose proof (iv_fill_spec DataChannelCBCIVSize DataChannelCBCIVSize d ltac:(lia) Hr) as Hf. unfold fillCBCIV. destruct (fill DataChannelCBCIVSize DataChannelCBCIVSize d) as [iv d']. destruct Hf as (Hiv & Hr' & Hd').
  assert (dc_header d' = dc_header d) as Hhd by (by rewrite Hd'). rewrite Hhd.
  set (plain := PutUint32 packetID ++ packet ++ _). assert (length plain = (4 + length packet + n)%nat) as Hpl by (unfold plain; rewrite !length_app, length_replicate, put_length; lia).
  set (ct := cbcEncrypt key iv plain). assert (length ct = (4 + length packet + n)%nat) as Hct by (unfold ct; by rewrite cbc_length).
  split_and!; [eauto|done|done|]. set (tag := hmac _ _ _). assert (length tag = Size authHash) as Htag by apply hmac_length.
  assert (16 ≤ length ct)%nat by (rewrite Hct; apply Nat.Lcm0.mod_divide in Hm as [q Hq]; lia).
  unfold decryptCBC. rewrite !length_app, Htag, Hiv. rewrite (proj2 (Nat.ltb_ge _ _)) by (unfold AESBlockSize, DataChannelCBCIVSize; lia).
  rewrite drop_app_length. rewrite (take_app_length' tag), (drop_app_length' tag) by done. rewrite bool_decide_eq_true_2 by done. cbn [negb].
  rewrite (take_app_length' iv), (drop_app_length' iv) by done. rewrite (proj2 (Nat.eqb_neq (length ct) 0)) by lia. rewrite Hct. unfold AESBlockSize at 1. rewrite Hm. cbn [Nat.eqb orb negb].
  unfold ct. rewrite cbc_inverse by (by rewrite Hpl). unfold plain. rewrite app_assoc. rewrite pkcs7_roundtrip by (done || (rewrite length_app, put_length; done)).
  rewrite length_app, put_length. rewrite (proj2 (Nat.ltb_ge _ _)) by lia. rewrite uint32_take by done. by rewrite drop_app_length' by reflexivity.
Qed.

Definition sender_ok (d : DataChannel) : Prop := (∃ peerID keyID, dc_header d = dataHeader peerID keyID) ∧ rand_ok d ∧ 0 ≤ sendPacketID d.

Lemma encrypt_decrypt s packet : sender_ok s → sendPacketID s < dataPacketIDRekeyThreshold → packet ≠ [] →
  ∃ b s', Encrypt s packet = (Ok b, s') ∧ sender_ok s' ∧ sendPacketID s' = sendPacketID s + 1 ∧ suite s' = suite s
          ∧ ∀ r, suites_paired (suite s) (suite r) → Decrypt r b = accepting r (sendPacketID s + 1) packet.
Proof.
  intros ((peerID & keyID & Hh) & Hr & Hz) Hlt Hp. unfold dataPacketIDRekeyThreshold in Hlt. assert (uint32_ok (sendPacketID s + 1)) as Hid by (unfold uint32_ok; lia).
  unfold Encrypt, nextPacketID, dataPacketIDRekeyThreshold. rewrite (proj2 (Z.leb_gt _ _)) by lia. rewrite wrap32_small by done. set (s1 := set_send s _).
  assert (sender_ok s1 ∧ sendPacketID s1 = sendPacketID s + 1 ∧ suite s1 = suite s ∧ dc_header s1 = dataHeader peerID keyID) as (Hs1 & Hn1 & Hsu & Hh1).
  { unfold sender_ok, s1, set_send. cbn. split_and!; eauto; lia. }
  rewrite Hsu, Hh1. destruct (suite s) as [kind sk rk siv riv|sk rk sh rh a] eqn:Es.
  - eexists _, s1. split; [reflexivity|]. split_and!; [done..|]. intros r Hr'. destruct (suite r) as [kind' sk' rk' siv' riv'|] eqn:Er; [|done]. destruct Hr' as (-> & -> & ->).
    unfold Decrypt, encryptAEAD. rewrite header_size, Er. by apply (aead_roundtrip kind sk siv peerID keyID packet).
  - destruct Hs1 as (_ & Hr1 & _). destruct (encryptCBC sk sh a s1 packet (sendPacketID s + 1)) as [b s'] eqn:Eb. exists b, s'. split; [done|].
    assert (∀ r, (∃ rest, b = dc_header s1 ++ rest) ∧ rand_ok s' ∧ s' = set_rand s1 (randBuf s') (randOffset s') (randCalls s') ∧ decryptCBC sk sh a r b (length (dc_header s1)) = accepting r (sendPacketID s + 1) packet) as Hc.
    { intros r. pose proof (cbc_roundtrip sk sh a s1 peerID keyID packet (sendPacketID s + 1) r Hh1 Hr1 Hid) as Hc. by rewrite Eb in Hc. }
    destruct (Hc s) as ((rest & Hb) & Hr' & Hs' & _). split_and!; [|by rewrite Hs'|by rewrite Hs'|].
    { unfold sender_ok. split_and!; [exists peerID, keyID; by rewrite Hs'|done|]. rewrite Hs'. cbn [sendPacketID set_rand]. rewrite Hn1. lia. }
    intros r Hr2. destruct (suite r) as [|sk' rk' sh' rh' a'] eqn:Er; [done|]. destruct Hr2 as (-> & -> & ->). unfold Decrypt. rewrite Hb, Hh1, header_size, Er, <- Hh1, <- Hb. apply Hc.
Qed.

(** The packets that one end makes, and the plain texts that the other end gives out. *)
Fixpoint send_all (d : DataChannel) (packets : list octets) : list octets :=
  match packets with
  | [] => []
  | p :: ps => match Encrypt d p with (Ok b, d') => b :: send_all d' ps | (Err _, d') => send_all d' ps end
  end.
Fixpoint recv_all (d : DataChannel) (packets : list octets) : list octets :=
  match packets with
  | [] => []
  | b :: bs => match Decrypt d b with (Ok p, d') => p :: recv_all d' bs | (Err _, d') => recv_all d' bs end
  end.

Lemma send_all_spec ps : ∀ s, sender_ok s → sendPacketID s + Z.of_nat (length ps) ≤ dataPacketIDRekeyThreshold → Forall (λ p, p ≠ []) ps →
  ∀ i p, ps !! i = Some p → ∃ b, send_all s ps !! i = Some b ∧ ∀ r, suites_paired (suite s) (suite r) → Decrypt r b = accepting r (sendPacketID s + 1 + Z.of_nat i) p.
Proof.
  induction ps as [|p ps IH]; intros s Hs Hlen Hn i q Hi; [done|]. apply list.Forall_cons in Hn as [Hp Hn]. cbn [length] in Hlen.
  destruct (encrypt_decrypt s p Hs ltac:(lia) Hp) as (b & s' & He & Hs' & Hid & Hsu & Hd). cbn [send_all]. rewrite He. destruct i as [|i]; cbn [lookup list_lookup] in *.
  - injection Hi as <-. exists b. split; [done|]. by rewrite Z.add_0_r.
  - destruct (IH s' Hs' ltac:(lia) Hn i q Hi) as (b' & Hb' & Hd'). exists b'. split; [done|]. rewrite Hsu in Hd'. intros r Hr. rewrite (Hd' r Hr). f_equal. lia.
Qed.

Lemma accept_suite d id r d' : acceptPacketID d id = (r, d') → suite d' = suite d.
Proof. unfold acceptPacketID. intros. by go_cases. Qed.

Lemma recv_all_spec (sent packet : Z → octets) su ids : (∀ id r, id ∈ ids → suites_paired su (suite r) → Decrypt r (sent id) = accepting r id (packet id)) →
  ∀ r, suites_paired su (suite r) → recv_all r (sent <$> ids) = packet <$> accept_all r ids.
Proof.
  induction ids as [|id ids IH]; intros Hd r Hr; [done|]. cbn [fmap list_fmap recv_all accept_all]. rewrite Hd by (done || left). unfold accepting. destruct (acceptPacketID r id) as [[u|e] r'] eqn:Ea.
  - cbn [fmap list_fmap]. f_equal. apply IH; [intros; apply Hd; [by right|done]|]. by rewrite (accept_suite _ _ _ _ Ea).
  - apply IH; [intros; apply Hd; [by right|done]|]. by rewrite (accept_suite _ _ _ _ Ea).
Qed.

Definition mirror (k : KeyMaterial) : KeyMaterial := mkKeyMaterial (RecvCipherKey k) (RecvHMACKey k) (SendCipherKey k) (SendHMACKey k).

Lemma new_channels keys cipherName authName peerID keyID peerID' keyID' s r :
  NewDataChannel (Some keys) cipherName authName peerID keyID = Ok s → NewDataChannel (Some (mirror keys)) cipherName authName peerID' keyID' = Ok r →
  suites_paired (suite s) (suite r) ∧ sender_ok s ∧ sendPacketID s = 0 ∧ window_ok r [].
Proof.
  unfold NewDataChannel, mirror. cbn [SendCipherKey SendHMACKey RecvCipherKey RecvHMACKey]. destruct (isDataChannelAEAD cipherName).
  - destruct (newDataChannelAEAD cipherName (SendCipherKey keys)) as [k|] eqn:E1; [|done]. destruct (newDataChannelAEAD cipherName (RecvCipherKey keys)) as [k'|] eqn:E2; [|done].
    assert (k' = k) as -> by (unfold newDataChannelAEAD in *; go_cases). intros. go_cases. unfold sender_ok, rand_ok, window_ok. cbn. split_and!; eauto; lia.
  - intros. go_cases. unfold sender_ok, rand_ok, window_ok. cbn. split_and!; eauto; lia.
Qed.

(** C31. The data channel delivers what was sent, each packet at most once.  One end sends
    packets of any content; of these, the network hands the other end (which has the
    mirrored keys) any numbers in any order, lost, reordered and repeated.  Then the other
    end gives out exactly the packets of the numbers that the specification of the window
    takes: those not seen before that are less than 64 behind every number seen; no number
    is taken twice. *)
Theorem data_channel_delivery keys cipherName authName peerID keyID peerID' keyID' s r ps ids :
  NewDataChannel (Some keys) cipherName authName peerID keyID = Ok s → NewDataChannel (Some (mirror keys)) cipherName authName peerID' keyID' = Ok r →
  Forall (λ p, p ≠ []) ps → Z.of_nat (length ps) ≤ dataPacketIDRekeyThreshold → Forall (λ id, 1 ≤ id ≤ Z.of_nat (length ps)) ids →
  let at_ (l : list octets) id := nth (Z.to_nat (id - 1)) l [] in
  recv_all r (at_ (send_all s ps) <$> ids) = at_ ps <$> window_spec [] ids ∧ NoDup (window_spec [] ids).
Proof.
  intros Hs Hr Hn Hlen Hids at_. destruct (new_channels _ _ _ _ _ _ _ _ _ Hs Hr) as (Hp & Hok & Hz & Hw). split; [|apply window_spec_fresh].
  rewrite <- (accept_all_spec ids r []); [|done|]; last first.
  { eapply list.Forall_impl; [done|]. intros id Hid. cbn in Hid. unfold uint32_ok. unfold dataPacketIDRekeyThreshold in Hlen. lia. }
  apply (recv_all_spec _ _ (suite s)); [|done]. intros id r' Hin Hr'. rewrite list.Forall_forall in Hids. specialize (Hids id Hin). cbn in Hids.
  destruct (lookup_lt_is_Some_2 ps (Z.to_nat (id - 1))) as [p Hp']; [lia|]. destruct (send_all_spec ps s Hok ltac:(lia) Hn _ _ Hp') as (b & Hb & Hd). unfold at_.
  rewrite (nth_lookup_Some _ _ _ _ Hb), (nth_lookup_Some _ _ _ _ Hp'). rewrite (Hd r' Hr'). f_equal. lia.
Qed.
End delivery.

Definition toy_random : Random := {| rand_Read k n := replicate n (wrap 8 (Z.of_nat k)) |}.
Lemma toy_random_laws : @RandomLaws toy_random.
Proof. split. intros. apply length_replicate. Qed.

Definition demo_keys : KeyMaterial := mkKeyMaterial (seqZ 0 16) (seqZ 16 64) (seqZ 80 16) (seqZ 96 64).
Definition demo_channel (keys : KeyMaterial) : DataChannel :=
  match NewDataChannel (Some keys) "AES-128-GCM" "SHA256" 3 1 with Ok d => d | Err _ => fresh_channel (SCBC [] [] [] [] MD5) 0 0 end.

Lemma data_channel_delivery_witness :
  let at_ (l : list octets) id := nth (Z.to_nat (id - 1)) l [] in
  let ps := [[69; 0]; [1]; [2; 2; 2]] in
  @recv_all toy_crypto (demo_channel (mirror demo_keys)) (at_ (@send_all toy_crypto toy_random (demo_channel demo_keys) ps) <$> [2; 1; 2; 3; 1]) = at_ ps <$> window_spec [] [2; 1; 2; 3; 1]
  ∧ NoDup (window_spec [] [2; 1; 2; 3; 1]).
Proof.
  apply (@data_channel_delivery toy_crypto toy_laws toy_random toy_random_laws demo_keys "AES-128-GCM" "SHA256" 3 1 3 1 (demo_channel demo_keys) (demo_channel (mirror demo_keys)) [[69; 0]; [1]; [2; 2; 2]] [2; 1; 2; 3; 1]).
  - vm_compute. reflexivity.
  - vm_compute. reflexivity.
  - rewrite !list.Forall_cons. split_and!; done.
  - cbn. unfold dataPacketIDRekeyThreshold. lia.
  - cbn. rewrite !list.Forall_cons. split_and!; lia || constructor.
Defined.
