(* ===== verification/OpenVpnControl.v ===== *)
(** * [transport/openvpn/control.go]: the reliable control channel

    A channel keeps what it sent until it is acknowledged, acknowledges what it takes,
    buffers what comes early and gives packets out in order.  The state is a record and
    every operation returns its result, the packets it writes and the new state; the
    clocks are arguments in nanoseconds.  What arrives is a list of raw packets, each with
    the time at which it is read.  The deadlines, the cancellation of writes, the send gate
    (every write of the model is one step) and the channel that wakes the writer of
    acknowledgements carry no protocol state and are left out. *)

From Stdlib Require Import ZArith Lia.
From stdpp Require Import base strings numbers gmap sets list.
From S2P Require Import Prelude GoStrings OpenVpnPacket.
#[local] Open Scope Z_scope.

Definition controlReplayWindow : Z := 64.
Definition controlReplayTimeBacktrack : Z := 15000000000.
Definition reliableCapacity : Z := 12.
Definition controlSendAckMax : nat := 4.
Definition maxTLSControlPayload : nat := 1100.

Record replayState := mkReplay { r_time : Z; highID : Z; slots : list Z; seen : bool }.
Definition no_slots : list Z := replicate 64 0.
Definition no_replay : replayState := mkReplay 0 0 no_slots false.

Record ControlChannel := mkChannel {
  crypt : option ControlCryptor;
  keyID : Z;
  local : octets;
  remote : octets;
  sendPacketID : Z;
  sendPacketTime : Z;
  sendMessage : Z;
  recvMessage : Z;
  ackPending : list Z;
  lruAcks : list Z;
  pending : gmap Z ControlPacket;
  recvPending : gmap Z ControlPacket;
  pendingSoftReset : option ControlPacket;
  parkedTLS : list octets;
  recReplay : replayState;
  initialReceived : bool;
}.

Definition NewControlChannel (crypt : option ControlCryptor) (local : octets) : ControlChannel :=
  mkChannel crypt 0 local noSession 0 0 0 0 [] [] ∅ ∅ None [] no_replay false.

(** ** One field at a time *)

Definition with_remote (c : ControlChannel) (x : octets) (mark : bool) : ControlChannel :=
  mkChannel (crypt c) (keyID c) (local c) x (sendPacketID c) (sendPacketTime c) (sendMessage c) (recvMessage c) (ackPending c) (lruAcks c) (pending c) (recvPending c) (pendingSoftReset c) (parkedTLS c) (recReplay c) mark.
Definition with_packet_id (c : ControlChannel) (id time : Z) : ControlChannel :=
  mkChannel (crypt c) (keyID c) (local c) (remote c) id time (sendMessage c) (recvMessage c) (ackPending c) (lruAcks c) (pending c) (recvPending c) (pendingSoftReset c) (parkedTLS c) (recReplay c) (initialReceived c).
Definition with_sent (c : ControlChannel) (next : Z) (p : gmap Z ControlPacket) : ControlChannel :=
  mkChannel (crypt c) (keyID c) (local c) (remote c) (sendPacketID c) (sendPacketTime c) next (recvMessage c) (ackPending c) (lruAcks c) p (recvPending c) (pendingSoftReset c) (parkedTLS c) (recReplay c) (initialReceived c).
Definition with_acks (c : ControlChannel) (acks lru : list Z) : ControlChannel :=
  mkChannel (crypt c) (keyID c) (local c) (remote c) (sendPacketID c) (sendPacketTime c) (sendMessage c) (recvMessage c) acks lru (pending c) (recvPending c) (pendingSoftReset c) (parkedTLS c) (recReplay c) (initialReceived c).
Definition with_recv (c : ControlChannel) (next : Z) (p : gmap Z ControlPacket) : ControlChannel :=
  mkChannel (crypt c) (keyID c) (local c) (remote c) (sendPacketID c) (sendPacketTime c) (sendMessage c) next (ackPending c) (lruAcks c) (pending c) p (pendingSoftReset c) (parkedTLS c) (recReplay c) (initialReceived c).
Definition with_reset (c : ControlChannel) (p : option ControlPacket) : ControlChannel :=
  mkChannel (crypt c) (keyID c) (local c) (remote c) (sendPacketID c) (sendPacketTime c) (sendMessage c) (recvMessage c) (ackPending c) (lruAcks c) (pending c) (recvPending c) p (parkedTLS c) (recReplay c) (initialReceived c).
Definition with_parked (c : ControlChannel) (l : list octets) : ControlChannel :=
  mkChannel (crypt c) (keyID c) (local c) (remote c) (sendPacketID c) (sendPacketTime c) (sendMessage c) (recvMessage c) (ackPending c) (lruAcks c) (pending c) (recvPending c) (pendingSoftReset c) l (recReplay c) (initialReceived c).
Definition with_replay (c : ControlChannel) (r : replayState) : ControlChannel :=
  mkChannel (crypt c) (keyID c) (local c) (remote c) (sendPacketID c) (sendPacketTime c) (sendMessage c) (recvMessage c) (ackPending c) (lruAcks c) (pending c) (recvPending c) (pendingSoftReset c) (parkedTLS c) r (initialReceived c).

(** ** Anti-replay *)

Definition recvWindowOK (recvMessage messageID buffered : Z) : bool :=
  (wrap 32 (messageID - recvMessage) <? reliableCapacity) && (buffered <? reliableCapacity).
Definition reliableMessageBefore (messageID recvMessage : Z) : bool := 2 ^ 31 <=? wrap 32 (messageID - recvMessage).

Fixpoint reap_slots (expire : bool) (l : list Z) (now : Z) : list Z :=
  match l with
  | [] => []
  | accepted :: rest =>
      if accepted =? 1 then l
      else
        let expire := expire || ((1 <? accepted) && (accepted + controlReplayTimeBacktrack <? now)) in
        (if expire then 1 else accepted) :: reap_slots expire rest now
  end.
Definition reap (r : replayState) (now : Z) : replayState := mkReplay (r_time r) (highID r) (reap_slots false (slots r) now) (seen r).

Definition check_replay (r : replayState) (packetID unixTime now : Z) : result string unit * replayState :=
  if packetID =? 0 then (Err "openvpn control replay: packet id 0", r)
  else if negb (seen r) || (r_time r <? unixTime) then (Ok (), mkReplay unixTime packetID (<[0%nat := now]> no_slots) true)
  else if unixTime <? r_time r then (Err "openvpn control replay: timestamp backtrack", r)
  else
    let r := reap r now in
    if highID r <? packetID then
      let shift := wrap 32 (packetID - highID r) in
      let moved := if controlReplayWindow <=? shift then no_slots
                   else replicate (Z.to_nat shift) 0 ++ take (64 - Z.to_nat shift) (slots r) in
      (Ok (), mkReplay (r_time r) packetID (<[0%nat := now]> moved) (seen r))
    else
      let diff := wrap 32 (highID r - packetID) in
      if controlReplayWindow <=? diff then (Err "openvpn control replay: stale packet id", r)
      else if negb (nth (Z.to_nat diff) (slots r) 0 =? 0) then (Err "openvpn control replay: replayed or expired packet id", r)
      else (Ok (), mkReplay (r_time r) (highID r) (<[Z.to_nat diff := now]> (slots r)) (seen r)).
Definition checkReplayLocked (c : ControlChannel) (packetID unixTime now : Z) : result string unit * ControlChannel :=
  let '(res, r) := check_replay (recReplay c) packetID unixTime now in (res, with_replay c r).

(** ** Epochs and acknowledgements *)

Definition SetRemoteSessionID (c : ControlChannel) (id : octets) : ControlChannel := with_remote c id (initialReceived c).

Definition NextKeyID (current : Z) : Z :=
  let next := Z.land (wrap 8 (current + 1)) KeyIDMask in if next =? 0 then 1 else next.

Definition beginEpochLocked (c : ControlChannel) (key : Z) : ControlChannel :=
  mkChannel (crypt c) (Z.land key KeyIDMask) (local c) (remote c) (sendPacketID c) (sendPacketTime c) 0 0 [] [] ∅ ∅ (pendingSoftReset c) [] (recReplay c) (initialReceived c).
Definition RotateKeyID (c : ControlChannel) : Z * ControlChannel := let c := beginEpochLocked c (NextKeyID (keyID c)) in (keyID c, c).
Definition AdoptKeyID (c : ControlChannel) (key : Z) : ControlChannel := beginEpochLocked c key.

Definition appendAck (acks : list Z) (ack : Z) : list Z := if bool_decide (ack ∈ acks) then acks else acks ++ [ack].
Definition QueueAck (c : ControlChannel) (messageID : Z) : ControlChannel := with_acks c (appendAck (ackPending c) messageID) (lruAcks c).
Definition PendingACKs (c : ControlChannel) : nat := length (ackPending c).
Definition PendingMessages (c : ControlChannel) : nat := size (pending c).

Definition MarkReceived (c : ControlChannel) (messageID : Z) : ControlChannel :=
  let next := wrap 32 (messageID + 1) in
  with_recv c (if negb (next =? recvMessage c) && negb (reliableMessageBefore next (recvMessage c)) then next else recvMessage c) (delete messageID (recvPending c)).

(** The inner loop: put [move] where the loop stands and carry on with what was there,
    until that is [id]. *)
Fixpoint shift_in (id move : Z) (l : list Z) : list Z * Z * bool :=
  match l with
  | [] => ([], move, false)
  | x :: l =>
      if x =? id then (move :: l, x, true)
      else let '(l', m, found) := shift_in id x l in (move :: l', m, found)
  end.
Definition to_front (id : Z) (lru : list Z) : list Z :=
  let '(l, move, found) := shift_in id id lru in
  if negb found && (length lru <? reliableAckSize)%nat then l ++ [move] else l.

Definition takeAcksLocked (c : ControlChannel) (max : nat) : list Z * ControlChannel :=
  let n := (length (ackPending c) `min` max)%nat in
  let lru := foldr to_front (lruAcks c) (take n (ackPending c)) in
  let lru := if (reliableAckSize <? length lru)%nat then take reliableAckSize lru else lru in
  (take (length lru `min` max) lru, with_acks c (drop n (ackPending c)) lru).

Definition dedicatedAckMax (c : ControlChannel) : nat := if crypt c is Some _ then reliableAckSize else controlSendAckMax.

(** ** Writing *)

(** What the transport says to a packet: written, dropped on the way out, or failed. *)
Inductive io_result := Written | Dropped | Failed (e : string).

Section channel.
Context `{Crypto}.
Context (io : octets → io_result).

Definition writeControlPacketGranted (c : ControlChannel) (now : Z) (packet : ControlPacket) : result string unit * list octets * ControlChannel :=
  if (if crypt c is Some _ then sendPacketID c =? 4294967295 else false) then (Err "openvpn control packet id exhausted; new session required", [], c)
  else
    let time := if (if crypt c is Some _ then sendPacketTime c =? 0 else false) then wrap 32 (now `div` 1000000000) else sendPacketTime c in
    let packetID := wrap 32 (sendPacketID c + 1) in
    let c := with_packet_id c packetID time in
    match Encode packet (crypt c) packetID time with
    | Err e => (Err e, [], c)
    | Ok encoded =>
        let encoded := if crypt c is Some (CCryptV2 v2) then
                         if (Opcode packet =? PControlHardResetClientV3) && (MessageID packet =? 0) then encoded ++ wrappedClientKey v2 else encoded
                       else encoded in
        match io encoded with
        | Written => (Ok (), [encoded], c)
        | Dropped => (Ok (), [], c)
        | Failed e => (Err e, [], c)
        end
    end.

Definition Send (c : ControlChannel) (now : Z) (opcode : Z) (payload : octets) : result string Z * list octets * ControlChannel :=
  if negb (HasMessageID opcode) then (Err "opcode cannot carry a reliable message", [], c)
  else
    let messageID := sendMessage c in
    let '(ackIDs, c) := takeAcksLocked c controlSendAckMax in
    let packet := mkControlPacket opcode (keyID c) (local c) ackIDs (remote c) messageID payload in
    let c := with_sent c (wrap 32 (messageID + 1)) (<[messageID := packet]> (pending c)) in
    match writeControlPacketGranted c now packet with
    | (Ok _, out, c) => (Ok messageID, out, c)
    | (Err e, out, c) => (Err e, out, c)
    end.

Definition SendReset (c : ControlChannel) (now : Z) : result string Z * list octets * ControlChannel :=
  Send c now (if crypt c is Some (CCryptV2 _) then PControlHardResetClientV3 else PControlHardResetClientV2) [].
Definition SendSoftReset (c : ControlChannel) (now : Z) : result string Z * list octets * ControlChannel := Send c now PControlSoftResetV1 [].

Definition SendAck (c : ControlChannel) (now : Z) : result string unit * list octets * ControlChannel :=
  if (length (ackPending c) =? 0)%nat then (Ok (), [], c)
  else
    let '(ackIDs, c) := takeAcksLocked c (dedicatedAckMax c) in
    writeControlPacketGranted c now (mkControlPacket PAckV1 (keyID c) (local c) ackIDs (remote c) 0 []).

Fixpoint write_all (c : ControlChannel) (now : Z) (packets : list ControlPacket) : result string unit * list octets * ControlChannel :=
  match packets with
  | [] => (Ok (), [], c)
  | p :: ps =>
      match writeControlPacketGranted c now p with
      | (Ok _, out, c) => let '(r, out', c) := write_all c now ps in (r, out ++ out', c)
      | (Err e, out, c) => (Err e, out, c)
      end
  end.
(** The packets go out in some order of the map. *)
Definition RetransmitPending (c : ControlChannel) (now : Z) : result string unit * list octets * ControlChannel :=
  if (size (pending c) =? 0)%nat then (Ok (), [], c)
  else
    let '(ackIDs, c) := takeAcksLocked c controlSendAckMax in
    write_all c now ((λ kp, let p := kp.2 in mkControlPacket (Opcode p) (KeyID p) (LocalSession p) ackIDs (remote c) (MessageID p) (Payload p)) <$> map_to_list (pending c)).

(** ** Reading *)

(** [softReset] and [valid]. *)
Definition classifyWatchPacketLocked (c : ControlChannel) (packet : ControlPacket) : bool * bool :=
  if bool_decide (remote c = noSession) || negb (bool_decide (LocalSession packet = remote c)) then (false, false)
  else if Opcode packet =? PControlSoftResetV1 then
    let expected := NextKeyID (keyID c) in
    let ok := (KeyID packet =? expected) && (MessageID packet =? 0) in (ok, ok)
  else (false, KeyID packet =? keyID c).

(** The head of the loop of [read]: the packet that is next and was buffered. *)
Definition take_buffered (c : ControlChannel) (watch : bool) : option ControlPacket * ControlChannel :=
  match recvPending c !! recvMessage c with
  | None => (None, c)
  | Some packet =>
      let rest := delete (recvMessage c) (recvPending c) in
      let '(softReset, valid) := if watch then classifyWatchPacketLocked c packet else (false, true) in
      if negb valid then (None, with_recv c (recvMessage c) rest)
      else if softReset then (Some packet, with_recv c (recvMessage c) rest)
      else (Some packet, with_recv c (wrap 32 (recvMessage c + 1)) rest)
  end.

(** [c.crypt != nil] and the check. *)
Definition guard_replay (c : ControlChannel) (packetID unixTime now : Z) : bool * ControlChannel :=
  if crypt c is Some _ then let '(r, c) := checkReplayLocked c packetID unixTime now in (is_ok r, c) else (true, c).

(** A first packet of the server sets the session; [(known, checked, state)]. *)
Definition learn_session (c : ControlChannel) (packet : ControlPacket) (packetID unixTime now : Z) : bool * bool * ControlChannel :=
  if negb (bool_decide (remote c = noSession)) then (true, false, c)
  else
    let initialReset := ((Opcode packet =? PControlHardResetServerV2) || (Opcode packet =? PControlHardResetServerV1))
                        && (KeyID packet =? keyID c) && (MessageID packet =? 0) in
    if negb initialReset then (false, false, c)
    else
      let '(ok, c) := guard_replay c packetID unixTime now in
      if ok then (true, bool_decide (is_Some (crypt c)), with_remote c (LocalSession packet) true) else (false, false, c).

Definition drop_acked (c : ControlChannel) (packet : ControlPacket) : ControlChannel :=
  with_sent c (sendMessage c) (foldl (λ m id, delete id m) (pending c) (AckIDs packet)).

(** The reliable layer: what happens to a packet of the session and of the epoch. *)
Definition reliable (c : ControlChannel) (packet : ControlPacket) : option ControlPacket * ControlChannel :=
  let c := drop_acked c packet in
  let id := MessageID packet in
  if Opcode packet =? PAckV1 then (None, c)
  else if negb (HasMessageID (Opcode packet)) then (Some packet, c)
  else if reliableMessageBefore id (recvMessage c) then (None, QueueAck c id)
  else if id =? recvMessage c then (Some packet, let c := QueueAck c id in with_recv c (wrap 32 (recvMessage c + 1)) (recvPending c))
  else if bool_decide (is_Some (recvPending c !! id)) then (None, QueueAck c id)
  else if recvWindowOK (recvMessage c) id (Z.of_nat (size (recvPending c))) then (None, QueueAck (with_recv c (recvMessage c) (<[id := packet]> (recvPending c))) id)
  else (None, c).

(** A soft reset in the middle of an epoch is parked. *)
Definition park_reset (c : ControlChannel) (packet : ControlPacket) (packetID unixTime now : Z) : ControlChannel :=
  if (KeyID packet =? NextKeyID (keyID c)) && (MessageID packet =? 0) && (bool_decide (remote c = noSession) || bool_decide (LocalSession packet = remote c)) then
    let '(ok, c) := guard_replay c packetID unixTime now in
    if ok then drop_acked (if pendingSoftReset c is None then with_reset c (Some packet) else c) packet else c
  else c.

Definition handle_packet (c : ControlChannel) (watch : bool) (packet : ControlPacket) (packetID unixTime now : Z) : option ControlPacket * ControlChannel :=
  if bool_decide (LocalSession packet = noSession) then (None, c)
  else if (0 <? length (AckIDs packet))%nat && negb (bool_decide (AckRemoteSession packet = local c)) then (None, c)
  else
    let '(known, replayChecked, c) := learn_session c packet packetID unixTime now in
    if negb known || negb (bool_decide (LocalSession packet = remote c)) then (None, c)
    else if watch then
      let '(softReset, valid) := classifyWatchPacketLocked c packet in
      if negb valid then (None, c)
      else
        let '(ok, c) := guard_replay c packetID unixTime now in
        if negb ok then (None, c)
        else if softReset then (Some packet, c) else reliable c packet
    else if Opcode packet =? PControlSoftResetV1 then (None, park_reset c packet packetID unixTime now)
    else if negb (KeyID packet =? keyID c) then (None, c)
    else
      let '(ok, c) := if replayChecked then (true, c) else guard_replay c packetID unixTime now in
      if ok then reliable c packet else (None, c).

Definition handle_raw (c : ControlChannel) (watch : bool) (raw : octets) (now : Z) : option ControlPacket * ControlChannel :=
  match DecodeControlPacket (crypt c) raw with
  | Err _ => (None, c)
  | Ok (packet, packetID, unixTime) => handle_packet c watch packet packetID unixTime now
  end.

(** [read]: the packet it returns, the state and what has not been read; [None] is the end
    of what arrives. *)
Fixpoint read (c : ControlChannel) (watch : bool) (input : list (octets * Z)) : option ControlPacket * ControlChannel * list (octets * Z) :=
  match take_buffered c watch with
  | (Some packet, c) => (Some packet, c, input)
  | (None, c) =>
      match input with
      | [] => (None, c, [])
      | (raw, now) :: input =>
          match handle_raw c watch raw now with
          | (Some packet, c) => (Some packet, c, input)
          | (None, c) => read c watch input
          end
      end
  end.

(** [waitForSoftReset]: the reset, or that a payload was parked, or the end. *)
Inductive wait_result := Reset (p : ControlPacket) | ParkedTLS | NoMore.
Fixpoint wait_loop (fuel : nat) (c : ControlChannel) (input : list (octets * Z)) : wait_result * ControlChannel * list (octets * Z) :=
  match fuel with
  | O => (NoMore, c, input)
  | S fuel =>
      match read c true input with
      | (None, c, input) => (NoMore, c, input)
      | (Some packet, c, input) =>
          if Opcode packet =? PControlSoftResetV1 then (Reset packet, c, input)
          else if (Opcode packet =? PControlV1) && (0 <? length (Payload packet))%nat then (ParkedTLS, with_parked c (parkedTLS c ++ [Payload packet]), input)
          else wait_loop fuel c input
      end
  end.
Definition waitForSoftReset (c : ControlChannel) (input : list (octets * Z)) : wait_result * ControlChannel * list (octets * Z) :=
  let fuel := S (length input + size (recvPending c)) in
  match pendingSoftReset c with
  | Some packet =>
      let c := with_reset c None in
      if negb (KeyID packet =? NextKeyID (keyID c)) || negb (MessageID packet =? 0) then wait_loop fuel c input else (Reset packet, c, input)
  | None => wait_loop fuel c input
  end.

(** [ReadAll]: the parked payloads, then the buffered packets that are next. *)
Fixpoint drain (fuel : nat) (c : ControlChannel) : list ControlPacket * ControlChannel :=
  match fuel with
  | O => ([], c)
  | S fuel =>
      match recvPending c !! recvMessage c with
      | None => ([], c)
      | Some pkt =>
          let '(l, c') := drain fuel (with_recv c (wrap 32 (recvMessage c + 1)) (delete (recvMessage c) (recvPending c))) in (pkt :: l, c')
      end
  end.
Definition ReadAll (c : ControlChannel) : list ControlPacket * ControlChannel :=
  if (size (recvPending c) + length (parkedTLS c) =? 0)%nat then ([], c)
  else
    let parked := (λ payload, mkControlPacket PControlV1 0 noSession [] noSession 0 payload) <$> parkedTLS c in
    let c := with_parked c [] in
    let '(l, c) := drain (size (recvPending c)) c in (parked ++ l, c).

(** ** The connection on top *)

Record ControlConn := mkConn { channel : ControlChannel; readBuf : octets; closed : bool }.
Definition NewControlConn (c : ControlChannel) : ControlConn := mkConn c [] false.
Definition conn_Reset (k : ControlConn) : ControlConn := mkConn (channel k) [] false.
Definition UnsafeFeed (k : ControlConn) (payload : octets) : ControlConn := mkConn (channel k) (readBuf k ++ payload) (closed k).
Definition conn_Close (k : ControlConn) : ControlConn := mkConn (channel k) [] true.

(** A read into a buffer of [n] bytes; [None] is the end of what arrives. *)
Fixpoint conn_read_loop (fuel : nat) (k : ControlConn) (n : nat) (input : list (octets * Z)) : option octets * ControlConn * list (octets * Z) :=
  match fuel with
  | O => (None, k, input)
  | S fuel =>
      match read (channel k) false input with
      | (None, c, input) => (None, mkConn c (readBuf k) (closed k), input)
      | (Some packet, c, input) =>
          let k := mkConn c (readBuf k) (closed k) in
          if negb (Opcode packet =? PControlV1) || (length (Payload packet) =? 0)%nat then conn_read_loop fuel k n input
          else (Some (take n (Payload packet)), mkConn c (readBuf k ++ drop n (Payload packet)) (closed k), input)
      end
  end.
Definition conn_Read (k : ControlConn) (n : nat) (input : list (octets * Z)) : result string (option octets) * ControlConn * list (octets * Z) :=
  if closed k then (Err "use of closed network connection", k, input)
  else if (0 <? length (readBuf k))%nat then (Ok (Some (take n (readBuf k))), mkConn (channel k) (drop n (readBuf k)) (closed k), input)
  else let '(r, k, input) := conn_read_loop (S (length input + size (recvPending (channel k)))) k n input in (Ok r, k, input).

Fixpoint send_chunks (fuel : nat) (c : ControlChannel) (now : Z) (b : octets) (written : nat) : result string unit * nat * list octets * ControlChannel :=
  match fuel, b with
  | S fuel, _ :: _ =>
      let n := (length b `min` maxTLSControlPayload)%nat in
      match Send c now PControlV1 (take n b) with
      | (Err e, out, c) => (Err e, written, out, c)
      | (Ok _, out, c) => let '(r, w, out', c) := send_chunks fuel c now (drop n b) (written + n) in (r, w, out ++ out', c)
      end
  | _, _ => (Ok (), written, [], c)
  end.
Definition conn_Write (k : ControlConn) (now : Z) (b : octets) : result string unit * nat * list octets * ControlConn :=
  if closed k then (Err "use of closed network connection", 0%nat, [], k)
  else
    match SendAck (channel k) now with
    | (Err e, out, c) => (Err e, 0%nat, out, mkConn c (readBuf k) (closed k))
    | (Ok _, out, c) =>
        let '(r, w, out', c) := send_chunks (length b) c now b 0 in (r, w, out ++ out', mkConn c (readBuf k) (closed k))
    end.
End channel.
