(* ===== verification/OpenVpnControlTheory.v ===== *)
(** * [transport/openvpn/control.go]: what the control channel guarantees

    The replay window of protected packets, the acknowledgements that go out, and the
    reliable layer: every message is given out once and in order. *)

From Stdlib Require Import ZArith Lia.
From stdpp Require Import base strings numbers gmap sets list.
From S2P Require Import Prelude GoStrings OpenVpnPacket OpenVpnControl.
#[local] Open Scope Z_scope.

(** ** Repeated reads *)

Section reads.
Context `{Crypto}.

(** [Read] until nothing more arrives. *)
Fixpoint reads (fuel : nat) (c : ControlChannel) (input : list (octets * Z)) : list ControlPacket * ControlChannel :=
  match fuel with
  | O => ([], c)
  | S fuel =>
      match read c false input with
      | (None, c, _) => ([], c)
      | (Some p, c, rest) => let '(l, c') := reads fuel c rest in (p :: l, c')
      end
  end.

(** The same as one pass over what arrives: give out what is buffered, then look at the
    next packet. *)
Definition flush (c : ControlChannel) : list ControlPacket * ControlChannel := drain (size (recvPending c)) c.
Fixpoint run (c : ControlChannel) (input : list (octets * Z)) : list ControlPacket * ControlChannel :=
  match input with
  | [] => flush c
  | (raw, now) :: input =>
      let '(l, c) := flush c in
      let '(o, c) := handle_raw c false raw now in
      let '(l', c) := run c input in (l ++ option_list o ++ l', c)
  end.

Lemma take_buffered_read c : take_buffered c false =
  match recvPending c !! recvMessage c with
  | Some p => (Some p, with_recv c (wrap 32 (recvMessage c + 1)) (delete (recvMessage c) (recvPending c)))
  | None => (None, c)
  end.
Proof. done. Qed.

Lemma flush_none c : recvPending c !! recvMessage c = None → flush c = ([], c).
Proof. intros Hn. unfold flush. destruct (size _); cbn [drain]; [done|]. by rewrite Hn. Qed.
Lemma flush_some c p : recvPending c !! recvMessage c = Some p →
  let c' := with_recv c (wrap 32 (recvMessage c + 1)) (delete (recvMessage c) (recvPending c)) in
  flush c = (p :: (flush c').1, (flush c').2) ∧ S (size (recvPending c')) = size (recvPending c).
Proof.
  intros Hp c'. assert (S (size (recvPending c')) = size (recvPending c)) as Hs.
  { unfold c'. cbn [recvPending with_recv]. rewrite map_size_delete, Hp. assert (size (recvPending c) ≠ 0%nat); [|lia]. intros Hz. apply map_size_empty_inv in Hz. by rewrite Hz, lookup_empty in Hp. }
  split; [|done]. unfold flush. rewrite <- Hs. cbn [drain]. rewrite Hp. fold c'. by destruct (drain _ c').
Qed.

(** *** What a packet can change *)

Definition same_recv (c c' : ControlChannel) : Prop :=
  crypt c' = crypt c ∧ keyID c' = keyID c ∧ local c' = local c ∧ remote c' = remote c ∧ recvMessage c' = recvMessage c
  ∧ recvPending c' = recvPending c ∧ ackPending c' = ackPending c.

Lemma guard_same c a b now ok c' : guard_replay c a b now = (ok, c') → same_recv c c'.
Proof. unfold guard_replay, checkReplayLocked, same_recv. destruct (crypt c) eqn:E; [|by intros [= <- <-]]. destruct (check_replay _ _ _ _) as [r s]. intros [= <- <-]. cbn. by rewrite E. Qed.
Lemma drop_acked_same c p : same_recv c (drop_acked c p).
Proof. done. Qed.
Lemma same_trans a b c : same_recv a b → same_recv b c → same_recv a c.
Proof. unfold same_recv. intros (? & ? & ? & ? & ? & ? & ?) (? & ? & ? & ? & ? & ? & ?). split_and!; congruence. Qed.

Lemma park_same c p a b now : same_recv c (park_reset c p a b now).
Proof.
  unfold park_reset. destruct (_ && _); [|done]. destruct (guard_replay c a b now) as [ok c1] eqn:E. apply guard_same in E. destruct ok; [|done]. eapply same_trans; [done|].
  eapply same_trans; [|apply drop_acked_same]. by destruct (pendingSoftReset c1).
Qed.

(** A packet that reaches the reliable layer belongs to the session and to the epoch. *)
Definition addressed (c : ControlChannel) (raw : octets) (p : ControlPacket) : Prop :=
  (∃ packetID unixTime, DecodeControlPacket (crypt c) raw = Ok (p, packetID, unixTime)) ∧
  LocalSession p = remote c ∧ KeyID p = keyID c ∧ Opcode p ≠ PControlSoftResetV1.

Lemma handle_cases c raw now o c' : remote c ≠ noSession → handle_raw c false raw now = (o, c') →
  (o = None ∧ same_recv c c') ∨ (∃ p c1, addressed c raw p ∧ same_recv c c1 ∧ reliable c1 p = (o, c')).
Proof.
  intros Hr. unfold handle_raw. destruct (DecodeControlPacket (crypt c) raw) as [[[p id] t]|e] eqn:Ed; [|intros [= <- <-]; by left]. unfold handle_packet.
  case_bool_decide; [intros [= <- <-]; by left|]. destruct (_ && _); [intros [= <- <-]; by left|]. unfold learn_session. rewrite (bool_decide_eq_false_2 (remote c = noSession)) by done. cbn [negb orb].
  case_bool_decide as Hl; cbn [negb]; [|intros [= <- <-]; by left]. destruct (Z.eqb_spec (Opcode p) PControlSoftResetV1) as [|Ho]; [intros [= <- <-]; left; split; [done|apply park_same]|].
  destruct (Z.eqb_spec (KeyID p) (keyID c)) as [Hk|]; cbn [negb]; [|intros [= <- <-]; by left]. destruct (guard_replay c id t now) as [ok c1] eqn:Eg. apply guard_same in Eg.
  destruct ok; [|intros [= <- <-]; by left]. intros Hrel. right. exists p, c1. split_and!; try done. unfold addressed. eauto 6.
Qed.

Lemma handle_plain c raw now p : remote c ≠ noSession → crypt c = None → addressed c raw p → (AckIDs p = [] ∨ AckRemoteSession p = local c) →
  handle_raw c false raw now = reliable c p.
Proof.
  intros Hr Hc ((id & t & Hd) & Hl & Hk & Ho) Ha. unfold handle_raw. rewrite Hd. unfold handle_packet. rewrite bool_decide_eq_false_2 by (by rewrite Hl).
  replace ((0 <? length (AckIDs p))%nat && negb (bool_decide (AckRemoteSession p = local c))) with false; last first.
  { destruct Ha as [->|Ha]; [done|]. rewrite (bool_decide_eq_true_2 _ Ha). by rewrite andb_false_r. }
  unfold learn_session. rewrite (bool_decide_eq_false_2 (remote c = noSession)) by done. cbn [negb orb]. rewrite (bool_decide_eq_true_2 _ Hl). cbn [negb]. rewrite (proj2 (Z.eqb_neq _ _) Ho), (proj2 (Z.eqb_eq _ _) Hk). cbn [negb].
  unfold guard_replay. by rewrite Hc.
Qed.
End reads.

(** ** The reliable layer *)

Lemma decode_is_control `{Crypto} crypt raw p id t : DecodeControlPacket crypt raw = Ok (p, id, t) → IsControl (Opcode p) = true.
Proof.
  assert (∀ h plain q, decode_parts h plain = Ok q → IsControl (Opcode q) = true) as Hp.
  { intros h plain q. unfold decode_parts. destruct (parseOpcodeKeyID _) as [o k]. destruct (IsControl o) eqn:E; [|done]. cbn [negb]. destruct (DecodeControlPlain o plain) as [[[[? ?] ?] ?]|]; [|done]. by intros [= <-]. }
  unfold DecodeControlPacket. intros. go_cases; eauto.
Qed.

Lemma wrap32_ahead a b : 0 ≤ a < 2 ^ 31 → 0 ≤ b < 2 ^ 31 →
  reliableMessageBefore a b = (a <? b) ∧ (b ≤ a → wrap 32 (a - b) = a - b) ∧ wrap 32 (a + 1) = a + 1.
Proof.
  intros Ha Hb. unfold reliableMessageBefore, wrap. split_and!; [|intros; apply Z.mod_small; lia|apply Z.mod_small; lia].
  destruct (Z.ltb_spec a b) as [Hlt|Hge].
  - apply Z.leb_le. rewrite <- (Z.mod_unique (a - b) (2 ^ 32) (-1) (a - b + 2 ^ 32)); lia.
  - apply Z.leb_gt. rewrite Z.mod_small; lia.
Qed.

Section delivery.
Context `{Crypto}.
(** The messages of the peer: opcode and payload of message 0, 1, 2 and so on. *)
Context (stream : list (Z * octets)) (Hlen : Z.of_nat (length stream) < 2 ^ 31).

Definition content (p : ControlPacket) : Z * octets := (Opcode p, Payload p).
Definition genuine (p : ControlPacket) : Prop :=
  HasMessageID (Opcode p) = true → 0 ≤ MessageID p ∧ stream !! Z.to_nat (MessageID p) = Some (content p).

Record Inv (c : ControlChannel) : Prop := {
  inv_next : 0 ≤ recvMessage c ≤ Z.of_nat (length stream);
  inv_buffer id p : recvPending c !! id = Some p → recvMessage c ≤ id < recvMessage c + reliableCapacity ∧ stream !! Z.to_nat id = Some (content p);
  inv_acks id : id ∈ ackPending c → 0 ≤ id < recvMessage c ∨ is_Some (recvPending c !! id);
}.

Lemma Inv_same c c' : same_recv c c' → Inv c → Inv c'.
Proof. intros (_ & _ & _ & _ & Hm & Hp & Ha) [H1 H2 H3]. split; rewrite ?Hm, ?Hp, ?Ha; done. Qed.

Lemma appendAck_elem acks a id : id ∈ appendAck acks a ↔ id = a ∨ id ∈ acks.
Proof. unfold appendAck. case_bool_decide; set_solver. Qed.

Lemma stream_bound id x : 0 ≤ id → stream !! Z.to_nat id = Some x → id < Z.of_nat (length stream).
Proof. intros Hid Hs. apply lookup_lt_Some in Hs. lia. Qed.

Lemma queue_inv c id : Inv c → 0 ≤ id < recvMessage c ∨ is_Some (recvPending c !! id) → Inv (QueueAck c id).
Proof. intros [H1 H2 H3] Hid. split; [done..|]. cbn [QueueAck ackPending recvMessage recvPending with_acks]. intros x Hx. apply appendAck_elem in Hx as [->|Hx]; [done|by apply H3]. Qed.

Lemma advance_inv c : Inv c → recvMessage c < Z.of_nat (length stream) → (∀ id p, recvPending c !! id = Some p → id ≠ recvMessage c) →
  Inv (with_recv c (recvMessage c + 1) (recvPending c)).
Proof.
  intros [H1 H2 H3] Hlt Hn. split; cbn [recvMessage recvPending ackPending with_recv]; [lia| |].
  - intros id p Hp. destruct (H2 id p Hp). split; [|done]. specialize (Hn id p Hp). lia.
  - intros id Hid. destruct (H3 id Hid); [left; lia|by right].
Qed.

(** What the reliable layer does with a packet of the peer when the next message is not buffered. *)
Lemma reliable_step c p o c' : Inv c → recvPending c !! recvMessage c = None → IsControl (Opcode p) = true → genuine p → reliable c p = (o, c') →
  Inv c' ∧ (size (recvPending c') + length (option_list o) ≤ S (size (recvPending c)))%nat ∧
  match o with
  | Some q => q = p ∧ HasMessageID (Opcode p) = true ∧ MessageID p = recvMessage c ∧ recvMessage c' = recvMessage c + 1
  | None => recvMessage c' = recvMessage c ∧ (HasMessageID (Opcode p) = true → MessageID p ≠ recvMessage c)
  end ∧ crypt c' = crypt c ∧ keyID c' = keyID c ∧ local c' = local c ∧ remote c' = remote c.
Proof.
  intros Hi Hn Hc Hg. pose proof (Inv_same _ _ (drop_acked_same c p) Hi) as Hi0. unfold reliable. assert (crypt (drop_acked c p) = crypt c ∧ keyID (drop_acked c p) = keyID c ∧ local (drop_acked c p) = local c ∧ remote (drop_acked c p) = remote c ∧ recvMessage (drop_acked c p) = recvMessage c ∧ recvPending (drop_acked c p) = recvPending c) as (E1 & E2 & E3 & E4 & E5 & E6) by done.
  set (d := drop_acked c p) in *. clearbody d. rewrite E5, E6. clear Hi.
  destruct (Z.eqb_spec (Opcode p) PAckV1) as [Ha|Ha].
  { intros [= <- <-]. rewrite E5, E6. assert (HasMessageID (Opcode p) = false) as -> by (by rewrite Ha). split_and!; try done. cbn. lia. }
  assert (HasMessageID (Opcode p) = true) as Hm by (unfold HasMessageID; rewrite Hc; cbn [andb]; by rewrite (proj2 (Z.eqb_neq _ _) Ha)). rewrite Hm. cbn [negb].
  destruct (Hg Hm) as [H0 Hs]. pose proof (stream_bound _ _ H0 Hs) as Hb. pose proof (inv_next _ Hi0) as Hnext. rewrite E5 in Hnext.
  destruct (wrap32_ahead (MessageID p) (recvMessage c) ltac:(lia) ltac:(lia)) as (-> & Hw & _). destruct (Z.ltb_spec (MessageID p) (recvMessage c)) as [Hlt|Hge].
  { intros [= <- <-]. cbn [QueueAck recvPending recvMessage crypt keyID local remote with_acks]. rewrite E5, E6. split_and!; try done; [apply queue_inv; [done|]; rewrite E5; left; lia|cbn; lia|intros _; lia]. }
  destruct (Z.eqb_spec (MessageID p) (recvMessage c)) as [He|He].
  { intros [= <- <-]. assert (wrap 32 (recvMessage c + 1) = recvMessage c + 1) as Hw1 by (unfold wrap; rewrite Z.mod_small; lia). cbn [QueueAck recvPending recvMessage crypt keyID local remote with_acks with_recv]. rewrite E5, E6, Hw1. split_and!; try done; [|cbn; lia].
    assert (Inv (with_recv d (recvMessage c + 1) (recvPending d))) as Hd'.
    { rewrite <- E5 at 1. apply advance_inv; [done|lia|]. intros id q Hq ->. rewrite E5, E6 in Hq. congruence. }
    destruct Hd' as [I1 I2 I3]. split; cbn [QueueAck recvPending recvMessage ackPending with_acks with_recv] in *; [done|by rewrite <- E6|].
    intros x Hx. apply appendAck_elem in Hx as [->|Hx]; [left; lia|]. specialize (I3 x Hx). by rewrite E6 in I3. }
  case_bool_decide as Hbuf.
  { intros [= <- <-]. cbn [QueueAck recvPending recvMessage crypt keyID local remote with_acks]. rewrite E5, E6. split_and!; try done; [apply queue_inv; [done|]; right; by rewrite E6|cbn; lia]. }
  unfold recvWindowOK. rewrite Hw by lia. destruct ((_ <? _) && _) eqn:Eok; intros [= <- <-]; [|rewrite E5, E6; split_and!; try done; cbn; lia].
  apply andb_true_iff in Eok as [Ew%Z.ltb_lt _]. cbn [QueueAck recvPending recvMessage crypt keyID local remote with_acks with_recv]. split_and!; try done; last first.
  { rewrite map_size_insert_None by (by apply eq_None_not_Some). cbn. lia. }
  apply queue_inv; [|right; cbn; by rewrite lookup_insert_eq]. destruct Hi0 as [I1 I2 I3]. rewrite E5, E6 in *. split; cbn [recvMessage recvPending ackPending with_recv]; [lia| |].
  - intros id q. destruct (decide (id = MessageID p)) as [->|Hne]; [rewrite lookup_insert_eq; intros [= <-]; split; [lia|done]|rewrite lookup_insert_ne by done; apply I2].
  - intros id Hid. destruct (I3 id Hid); [by left|right]. destruct (decide (id = MessageID p)) as [->|Hne]; [by rewrite lookup_insert_eq|by rewrite lookup_insert_ne].
Qed.

Lemma flush_step c p : Inv c → recvPending c !! recvMessage c = Some p →
  let c' := with_recv c (wrap 32 (recvMessage c + 1)) (delete (recvMessage c) (recvPending c)) in
  Inv c' ∧ recvMessage c' = recvMessage c + 1 ∧ stream !! Z.to_nat (recvMessage c) = Some (content p).
Proof.
  intros Hi Hp c'. pose proof (inv_next _ Hi) as Hn. destruct (inv_buffer _ Hi _ _ Hp) as [_ Hs]. pose proof (stream_bound (recvMessage c) _ ltac:(lia) Hs) as Hb.
  assert (wrap 32 (recvMessage c + 1) = recvMessage c + 1) as Hw by (unfold wrap; rewrite Z.mod_small; lia). split_and!; [|done|done]. destruct Hi as [I1 I2 I3]. unfold c'. split; cbn [recvMessage recvPending ackPending with_recv]; rewrite Hw; [lia| |].
  - intros id q. rewrite lookup_delete_Some. intros [Hne Hq]. destruct (I2 id q Hq). split; [lia|done].
  - intros id Hid. destruct (decide (id = recvMessage c)) as [->|Hne]; [left; lia|]. rewrite lookup_delete_ne by done. destruct (I3 id Hid); [left; lia|by right].
Qed.

(** From one state to another, giving out the next messages of the stream. *)
Definition same_config (c c' : ControlChannel) : Prop := crypt c' = crypt c ∧ keyID c' = keyID c ∧ local c' = local c ∧ remote c' = remote c.
Definition delivers (c : ControlChannel) (l : list ControlPacket) (c' : ControlChannel) : Prop :=
  Inv c' ∧ same_config c c' ∧ recvMessage c' = recvMessage c + Z.of_nat (length l)
  ∧ content <$> l = take (length l) (drop (Z.to_nat (recvMessage c)) stream).

Lemma delivers_nil c c' : Inv c' → same_config c c' → recvMessage c' = recvMessage c → delivers c [] c'.
Proof. intros Hi Hc Hm. unfold delivers. cbn. split_and!; try done. lia. Qed.
Lemma delivers_one c p c' : Inv c' → same_config c c' → recvMessage c' = recvMessage c + 1 → stream !! Z.to_nat (recvMessage c) = Some (content p) → delivers c [p] c'.
Proof. intros Hi Hc Hm Hs. unfold delivers. cbn [length fmap list_fmap]. split_and!; try done. rewrite (drop_S _ _ _ Hs). done. Qed.
Lemma delivers_app c l c1 l' c2 : 0 ≤ recvMessage c → delivers c l c1 → delivers c1 l' c2 → delivers c (l ++ l') c2.
Proof.
  intros H0 (Hi & (? & ? & ? & ?) & Hm & Hl) (Hi' & (? & ? & ? & ?) & Hm' & Hl'). unfold delivers, same_config. rewrite length_app, fmap_app, Hl, Hl'. split_and!; try done; try congruence; [lia|].
  rewrite Hm. replace (Z.to_nat (recvMessage c + Z.of_nat (length l))) with (Z.to_nat (recvMessage c) + length l)%nat by lia. rewrite <- drop_drop. set (X := drop (Z.to_nat (recvMessage c)) stream) in *.
  rewrite <- (take_drop (length l) X) at 3. rewrite take_app. f_equal; [by rewrite take_take, Nat.min_r by lia|].
  assert (length (take (length l) X) = length l) as ->; [|f_equal; lia]. rewrite <- Hl. apply length_fmap.
Qed.

Lemma flush_spec n : ∀ c, size (recvPending c) = n → Inv c →
  let '(l, c') := flush c in delivers c l c' ∧ recvPending c' !! recvMessage c' = None ∧ (size (recvPending c') + length l = n)%nat.
Proof.
  induction n as [|n IH]; intros c Hn Hi.
  - assert (recvPending c !! recvMessage c = None) as Hp by (apply map_size_empty_inv in Hn; rewrite Hn; apply lookup_empty). rewrite flush_none by done. split_and!; [by apply delivers_nil|done|cbn; lia].
  - destruct (recvPending c !! recvMessage c) as [p|] eqn:Hp; [|rewrite flush_none by done; split_and!; [by apply delivers_nil|done|cbn; lia]].
    destruct (flush_some c p Hp) as [-> Hs]. destruct (flush_step c p Hi Hp) as (Hi' & Hm & Hst). set (c1 := with_recv c _ _) in *. specialize (IH c1 ltac:(lia) Hi'). destruct (flush c1) as [l c']. destruct IH as (Hd & Hnone & Hsz).
    cbn [fst snd]. split_and!; [|done|cbn; lia]. change (p :: l) with ([p] ++ l). eapply delivers_app; [apply (inv_next _ Hi)| |done]. by apply delivers_one.
Qed.

Definition authentic (c : ControlChannel) (raw : octets) : Prop := ∀ p, addressed c raw p → genuine p.

Lemma addressed_same c c' raw p : same_config c c' → addressed c' raw p → addressed c raw p.
Proof. intros (H1 & H2 & _ & H3). unfold addressed. by rewrite H1, H2, H3. Qed.
Lemma recv_config c c' : same_recv c c' → same_config c c'.
Proof. intros (? & ? & ? & ? & _). done. Qed.

Lemma handle_step c raw now o c' : Inv c → remote c ≠ noSession → recvPending c !! recvMessage c = None → authentic c raw → handle_raw c false raw now = (o, c') →
  delivers c (option_list o) c' ∧ (size (recvPending c') + length (option_list o) ≤ S (size (recvPending c)))%nat.
Proof.
  intros Hi Hr Hn Ha Hh. destruct (handle_cases _ _ _ _ _ Hr Hh) as [[-> Hs]|(p & c1 & Hp & Hs & Hrel)].
  - pose proof Hs as (_ & _ & _ & _ & Hm & Hpend & _). rewrite Hpend. split; [|cbn; lia]. apply delivers_nil; [by eapply Inv_same|by apply recv_config|done].
  - pose proof Hs as (S1 & S2 & S3 & S4 & Hm & Hpend & _). pose proof Hp as ((id & t & Hd) & _). assert (Inv c1) as Hi1 by (by eapply Inv_same). rewrite <- Hpend, <- Hm in Hn.
    destruct (reliable_step c1 p o c' Hi1 Hn (decode_is_control _ _ _ _ _ Hd) (Ha p Hp) Hrel) as (Hi' & Hsz & Ho & E1 & E2 & E3 & E4). rewrite <- Hpend. split; [|done].
    assert (same_config c c') by (unfold same_config; split_and!; congruence). destruct o as [q|].
    + destruct Ho as (-> & Hmid & Hid & Hnext). apply delivers_one; [done..|by rewrite Hnext, Hm|]. destruct (Ha p Hp Hmid) as [_ Hst]. by rewrite <- Hm, <- Hid.
    + apply delivers_nil; [done..|]. destruct Ho as [-> _]. done.
Qed.

(** A packet of message [i] that is not dropped: its acknowledgements, if any, are for this channel. *)
Definition carries (c : ControlChannel) (raw : octets) (i : Z) : Prop :=
  ∃ p, addressed c raw p ∧ HasMessageID (Opcode p) = true ∧ MessageID p = i ∧ (AckIDs p = [] ∨ AckRemoteSession p = local c).
Fixpoint carry_from (c : ControlChannel) (i : Z) (sub : list (octets * Z)) : Prop :=
  match sub with [] => True | x :: sub => carries c x.1 i ∧ carry_from c (i + 1) sub end.

Lemma carry_same c c' sub : same_config c c' → ∀ i, carry_from c i sub → carry_from c' i sub.
Proof.
  intros Hc. induction sub as [|x sub IH]; intros i; [done|]. intros [(p & Hp & Hm & Hi & Ha) Hs]. split; [|by apply IH]. exists p. destruct Hc as (E1 & E2 & E3 & E4). split_and!; [|done..|by rewrite E3].
  unfold addressed. rewrite E1, E2, E4. exact Hp.
Qed.

Lemma carries_next c raw now o c' : Inv c → remote c ≠ noSession → crypt c = None → recvPending c !! recvMessage c = None → authentic c raw → carries c raw (recvMessage c) →
  handle_raw c false raw now = (o, c') → recvMessage c' = recvMessage c + 1.
Proof.
  intros Hi Hr Hc Hn Ha (p & Hp & Hm & Hid & Hack). rewrite (handle_plain _ _ _ p) by done. intros Hrel. pose proof Hp as ((id & t & Hd) & _).
  destruct (reliable_step c p o c' Hi Hn (decode_is_control _ _ _ _ _ Hd) (Ha p Hp) Hrel) as (_ & _ & Ho & _). destruct o as [q|]; [by destruct Ho as (_ & _ & _ & ?)|]. destruct Ho as [_ Ho]. by destruct (Ho Hm).
Qed.

Lemma run_spec input : ∀ c, Inv c → remote c ≠ noSession → Forall (λ x, authentic c x.1) input →
  let '(l, c') := run c input in
  delivers c l c' ∧ recvPending c' !! recvMessage c' = None ∧
  (crypt c = None → ∀ i sub, i ≤ recvMessage c → sub `sublist_of` input → carry_from c i sub → i + Z.of_nat (length sub) ≤ recvMessage c').
Proof.
  induction input as [|[raw now] input IH]; intros c Hi Hr Ha; cbn [run].
  { pose proof (flush_spec _ c eq_refl Hi) as Hf. destruct (flush c) as [l c']. destruct Hf as (Hd & Hn & _). split_and!; [done..|]. intros _ i sub Hle Hsub _. apply sublist_nil_r in Hsub as ->. destruct Hd as (_ & _ & -> & _). cbn. lia. }
  apply list.Forall_cons in Ha as [Ha Has]. pose proof (flush_spec _ c eq_refl Hi) as Hf. destruct (flush c) as [l c1]. destruct Hf as (Hd1 & Hn1 & _). pose proof Hd1 as (Hi1 & Hc1 & Hm1 & _).
  assert (remote c1 ≠ noSession) as Hr1 by (by destruct Hc1 as (_ & _ & _ & ->)). assert (∀ c' raw', same_config c c' → authentic c raw' → authentic c' raw') as Hauth by (intros c' raw' Hs H1 p Hp; by apply H1, (addressed_same c c')).
  cbn [fst] in Ha. destruct (handle_raw c1 false raw now) as [o c2] eqn:Eh. destruct (handle_step _ _ _ _ _ Hi1 Hr1 Hn1 (Hauth _ _ Hc1 Ha) Eh) as [Hd2 _]. pose proof Hd2 as (Hi2 & Hc2 & Hm2 & _).
  assert (same_config c c2) as Hc02 by (destruct Hc1 as (? & ? & ? & ?), Hc2 as (? & ? & ? & ?); unfold same_config; split_and!; congruence).
  assert (remote c2 ≠ noSession) as Hr2 by (by destruct Hc02 as (_ & _ & _ & ->)).
  specialize (IH c2 Hi2 Hr2). destruct (run c2 input) as [l' c'] eqn:Er. destruct IH as (Hd & Hn & Hlive); [eapply list.Forall_impl; [done|]; intros x Hx; by apply (Hauth c2)|].
  split_and!; [|done|].
  - eapply delivers_app; [apply (inv_next _ Hi)|done|]. eapply delivers_app; [apply (inv_next _ Hi1)|done|done].
  - intros Hcr i sub Hle Hsub Hcar. assert (crypt c2 = None) as Hcr2 by (by destruct Hc02 as (-> & _)). specialize (Hlive Hcr2).
    apply sublist_cons_r in Hsub as [Hsub|(sub' & -> & Hsub)]; [apply Hlive; [lia|done|by apply (carry_same c)]|]. destruct Hcar as [Hx Hcar]. cbn [fst length] in *.
    assert (i + 1 ≤ recvMessage c2) as Hnext.
    { destruct (decide (i = recvMessage c1)) as [Ei|]; [|lia]. subst i. assert (crypt c1 = None) as Hcr1 by (by destruct Hc1 as (-> & _)).
      assert (carries c1 raw (recvMessage c1)) as Hx1 by (by apply (carry_same c c1 [(raw, now)] Hc1 (recvMessage c1))).
      pose proof (carries_next c1 raw now o c2 Hi1 Hr1 Hcr1 Hn1 (Hauth _ _ Hc1 Ha) Hx1 Eh). lia. }
    specialize (Hlive (i + 1) sub' Hnext Hsub (carry_same _ _ _ Hc02 _ Hcar)). lia.
Qed.

(** *** The reads of the code make one pass *)

Lemma read_run input : ∀ c, Inv c → remote c ≠ noSession → Forall (λ x, authentic c x.1) input →
  match read c false input with
  | (None, c', rest) => run c input = ([], c')
  | (Some p, c', rest) => run c input = (p :: (run c' rest).1, (run c' rest).2) ∧ Inv c' ∧ same_config c c' ∧ rest `suffix_of` input
                          ∧ (length rest + size (recvPending c') < length input + size (recvPending c))%nat
  end.
Proof.
  induction input as [|[raw now] input IH]; intros c Hi Hr Ha; cbn [read]; rewrite take_buffered_read.
  - destruct (recvPending c !! recvMessage c) as [p|] eqn:Hp; [|by apply flush_none]. destruct (flush_some c p Hp) as [Hf Hs]. destruct (flush_step c p Hi Hp) as (Hi' & _). cbn [run]. split_and!; try done. cbn [length] in *. lia.
  - destruct (recvPending c !! recvMessage c) as [p|] eqn:Hp.
    + destruct (flush_some c p Hp) as [Hf Hs]. destruct (flush_step c p Hi Hp) as (Hi' & _). set (c1 := with_recv c _ _) in *. split_and!; try done; [|lia]. cbn [run]. rewrite Hf. destruct (flush c1) as [l c2]. cbn [fst snd]. destruct (handle_raw c2 false raw now) as [o c3]. by destruct (run c3 input) as [l' c4].
    + apply list.Forall_cons in Ha as [Ha Has]. destruct (handle_raw c false raw now) as [o c1] eqn:Eh. destruct (handle_step _ _ _ _ _ Hi Hr Hp Ha Eh) as [(Hi1 & Hc1 & _) Hsz].
      assert (run c ((raw, now) :: input) = (option_list o ++ (run c1 input).1, (run c1 input).2)) as Hrun by (cbn [run]; rewrite (flush_none c Hp), Eh; by destruct (run c1 input)).
      destruct o as [p|]; [split_and!; try done; [by apply suffix_cons_r|cbn in *; lia]|]. cbn [option_list app length] in *.
      assert (remote c1 ≠ noSession) as Hr1 by (by destruct Hc1 as (_ & _ & _ & ->)). specialize (IH c1 Hi1 Hr1). destruct (read c1 false input) as [[[p|] c'] rest].
      * destruct IH as (IH1 & IH2 & IH3 & IH4 & IH5); [eapply list.Forall_impl; [done|]; intros x Hx q Hq; by apply Hx, (addressed_same c c1)|]. rewrite Hrun, IH1. split_and!; try done; [|by apply suffix_cons_r|lia].
        destruct Hc1 as (? & ? & ? & ?), IH3 as (? & ? & ? & ?). unfold same_config. split_and!; congruence.
      * rewrite Hrun, IH by (eapply list.Forall_impl; [done|]; intros x Hx q Hq; by apply Hx, (addressed_same c c1)). done.
Qed.

Lemma reads_run fuel : ∀ c input, Inv c → remote c ≠ noSession → Forall (λ x, authentic c x.1) input → (length input + size (recvPending c) < fuel)%nat → reads fuel c input = run c input.
Proof.
  induction fuel as [|fuel IH]; intros c input Hi Hr Ha Hf; [lia|]. cbn [reads]. pose proof (read_run input c Hi Hr Ha) as Hrd. destruct (read c false input) as [[[p|] c'] rest]; [|done].
  destruct Hrd as (-> & Hi' & Hc & Hsuf & Hlt). rewrite IH; [by destruct (run c' rest)|done|by destruct Hc as (_ & _ & _ & ->)| |lia].
  destruct Hsuf as [pre ->]. apply Forall_app in Ha as [_ Ha]. eapply list.Forall_impl; [done|]. intros x Hx q Hq. by apply Hx, (addressed_same c c').
Qed.
End delivery.

(** ** The theorem on delivery *)

Definition fresh_epoch (c : ControlChannel) : Prop := recvMessage c = 0 ∧ recvPending c = ∅ ∧ ackPending c = [].

Lemma buffer_bound stream c : Inv stream c → (size (recvPending c) ≤ Z.to_nat reliableCapacity)%nat.
Proof.
  intros [_ Hb _]. rewrite <- size_dom. assert (dom (recvPending c) ⊆ (list_to_set (seqZ (recvMessage c) reliableCapacity) : gset Z)) as Hsub.
  { intros id [p Hp]%elem_of_dom. apply elem_of_list_to_set, elem_of_seqZ. by destruct (Hb id p Hp). }
  apply subseteq_size in Hsub. rewrite size_list_to_set in Hsub by apply NoDup_seqZ. by rewrite length_seqZ in Hsub.
Qed.

Lemma delivery_facts `{Crypto} stream c input :
  Z.of_nat (length stream) < 2 ^ 31 → remote c ≠ noSession → fresh_epoch c → Forall (λ x, authentic stream c x.1) input →
  let '(l, c') := reads (S (length input)) c input in
  content <$> l = take (length l) stream
  ∧ (∀ id, id ∈ ackPending c' → 0 ≤ id < Z.of_nat (length l) ∨ is_Some (recvPending c' !! id))
  ∧ (size (recvPending c') ≤ 12)%nat
  ∧ (crypt c = None → ∀ sub, sub `sublist_of` input → carry_from c 0 sub → (length sub ≤ length l)%nat).
Proof.
  intros Hlen Hr (Hm & Hp & Ha) Hauth. assert (Inv stream c) as Hi.
  { split; [lia|rewrite Hp; intros ? ?; by rewrite lookup_empty|rewrite Ha; by intros ? ?%not_elem_of_nil]. }
  rewrite (reads_run stream Hlen) by (done || (rewrite Hp, map_size_empty; lia)). pose proof (run_spec stream Hlen input c Hi Hr Hauth) as Hrun. destruct (run c input) as [l c']. destruct Hrun as (Hd & _ & Hlive). destruct Hd as (Hi' & _ & Hm' & Hl). rewrite Hm in *.
  split_and!; [done| |by apply (buffer_bound stream)|].
  - intros id Hid. destruct (inv_acks _ _ Hi' id Hid) as [?|?]; [left; lia|by right].
  - intros Hc sub Hsub Hcar. specialize (Hlive Hc 0 sub ltac:(lia) Hsub Hcar). lia.
Qed.

(** C30. The control channel is reliable.  In an epoch, whatever arrives (packets of the
    peer lost, repeated and out of order, and others that are not of the session or do not
    decode), the packets that [Read] returns are the peer's messages from the first on,
    each once and in order; a message is acknowledged only when it was returned or is held
    in the buffer, which never holds more than 12; and without packet protection nothing
    is withheld: when the messages up to some number came in this order among everything
    else, as they do when the peer sends again what is not acknowledged, all of these were
    returned. *)
Theorem control_delivery `{Crypto} stream c input :
  Z.of_nat (length stream) < 2 ^ 31 → remote c ≠ noSession → fresh_epoch c → Forall (λ x, authentic stream c x.1) input →
  let '(l, c') := reads (S (length input)) c input in
  content <$> l = take (length l) stream
  ∧ (∀ id, id ∈ ackPending c' → 0 ≤ id < Z.of_nat (length l) ∨ is_Some (recvPending c' !! id))
  ∧ (size (recvPending c') ≤ 12)%nat
  ∧ (crypt c = None → ∀ sub, sub `sublist_of` input → carry_from c 0 sub → (length sub ≤ length l)%nat).
Proof. apply delivery_facts. Qed.

Definition all_written (_ : octets) : io_result := Written.
Definition demo_peer : ControlChannel := SetRemoteSessionID (NewControlChannel None (demo_session 16)) (demo_session 32).
Definition demo_client : ControlChannel := SetRemoteSessionID (NewControlChannel None (demo_session 32)) (demo_session 16).
Definition demo_raw (k : nat) : octets :=
  let '(_, out0, p) := @Send toy_crypto all_written demo_peer 0 PControlV1 [10] in
  let '(_, out1, p) := @Send toy_crypto all_written p 0 PControlV1 [11; 11] in
  let '(_, out2, _) := @Send toy_crypto all_written p 0 PControlV1 [12] in
  nth k (out0 ++ out1 ++ out2) [].
Definition demo_input : list (octets * Z) := (λ r, (r, 0)) <$> [demo_raw 1; demo_raw 0; [1; 2]; demo_raw 1; demo_raw 1; demo_raw 2].

Lemma demo_authentic : Forall (λ x, @authentic toy_crypto [(4, [10]); (4, [11; 11]); (4, [12])] demo_client x.1) demo_input.
Proof.
  assert (∀ raw p id t, @DecodeControlPacket toy_crypto None raw = Ok (p, id, t) → [(4, [10]); (4, [11; 11]); (4, [12])] !! Z.to_nat (MessageID p) = Some (content p) → 0 ≤ MessageID p →
    @authentic toy_crypto [(4, [10]); (4, [11; 11]); (4, [12])] demo_client raw) as Hk.
  { intros raw p id t Hd Hs H0 q ((id' & t' & Hd') & _) _. change (crypt demo_client) with (@None ControlCryptor) in Hd'. rewrite Hd in Hd'. by injection Hd' as <- _ _. }
  unfold demo_input. cbn [fmap list_fmap]. rewrite !list.Forall_cons. cbn [fst]. split_and!.
  7: constructor.
  3: { intros p ((id & t & Hd) & _). by vm_compute in Hd. }
  all: eapply Hk; [vm_compute; reflexivity|reflexivity|cbn; lia].
Qed.

Lemma control_delivery_witness :
  let '(l, c') := @reads toy_crypto 7 demo_client demo_input in
  content <$> l = take (length l) [(4, [10]); (4, [11; 11]); (4, [12])]
  ∧ (∀ id, id ∈ ackPending c' → 0 ≤ id < Z.of_nat (length l) ∨ is_Some (recvPending c' !! id))
  ∧ (size (recvPending c') ≤ 12)%nat
  ∧ (crypt demo_client = None → ∀ sub, sub `sublist_of` demo_input → @carry_from toy_crypto demo_client 0 sub → (length sub ≤ length l)%nat).
Proof.
  apply (@control_delivery toy_crypto [(4, [10]); (4, [11; 11]); (4, [12])] demo_client demo_input).
  - cbn. lia.
  - vm_compute. congruence.
  - vm_compute. done.
  - exact demo_authentic.
Defined.

(** ** Replays of protected packets *)

(** The numbers and times that are taken, one call after the other; a call is a number, a
    time and the clock. *)
Fixpoint check_all (r : replayState) (l : list (Z * Z * Z)) : list (Z * Z) :=
  match l with
  | [] => []
  | (id, t, now) :: l => match check_replay r id t now with (Ok _, r') => (id, t) :: check_all r' l | (Err _, r') => check_all r' l end
  end.

Definition replay_ok (r : replayState) (acc : list (Z * Z)) : Prop :=
  length (slots r) = 64%nat ∧ if seen r then uint32_ok (highID r) ∧ Forall (λ x, x.2 ≤ r_time r ∧
    (x.2 = r_time r → x.1 ≤ highID r ∧ (highID r - x.1 < 64 → nth (Z.to_nat (highID r - x.1)) (slots r) 0 ≠ 0))) acc
  else acc = [].

Lemma reap_length l : ∀ e now, length (reap_slots e l now) = length l.
Proof. induction l as [|a l IH]; intros e now; [done|]. cbn [reap_slots]. destruct (a =? 1); [done|]. cbn [length]. by rewrite IH. Qed.
Lemma reap_nonzero l : ∀ e now i, nth i l 0 ≠ 0 → nth i (reap_slots e l now) 0 ≠ 0.
Proof.
  induction l as [|a l IH]; intros e now i Hi; [done|]. cbn [reap_slots]. destruct (a =? 1); [done|]. destruct i as [|i]; cbn [nth] in *; [by destruct (e || _)|by apply IH].
Qed.
Lemma slot_insert (l : list Z) i j x : (i < length l)%nat → nth j (<[i := x]> l) 0 = if decide (i = j) then x else nth j l 0.
Proof.
  intros Hi. rewrite !nth_lookup. destruct (decide (i = j)) as [->|Hne]; [by rewrite list_lookup_insert_eq by done|by rewrite list_lookup_insert_ne].
Qed.

(** The packet that comes first at its time. *)
Lemma replay_new r acc id t now : length (slots r) = 64%nat → uint32_ok id → 1 < now → Forall (λ x, x.2 < t) acc →
  replay_ok (mkReplay t id (<[0%nat := now]> no_slots) true) ((id, t) :: acc).
Proof.
  intros Hs Hid Hnow Hacc. split; [done|]. cbn [seen highID r_time slots]. split; [done|]. apply list.Forall_cons. split.
  - cbn [fst snd]. split; [lia|]. intros _. split; [lia|]. intros _. replace (id - id) with 0 by lia. rewrite slot_insert by (cbn; lia). rewrite decide_True by done. lia.
  - eapply list.Forall_impl; [done|]. intros x Hx. cbn in Hx. split; [lia|lia].
Qed.

Lemma replay_forward r acc id now : length (slots r) = 64%nat → seen r = true → replay_ok r acc → uint32_ok id → 1 < now → highID r < id →
  let shift := wrap 32 (id - highID r) in
  replay_ok (mkReplay (r_time r) id (<[0%nat := now]> (if controlReplayWindow <=? shift then no_slots else replicate (Z.to_nat shift) 0 ++ take (64 - Z.to_nat shift) (slots r))) (seen r)) ((id, r_time r) :: acc).
Proof.
  intros Hl Hseen [_ Hr] Hid Hnow Hlt shift. rewrite Hseen in *. destruct Hr as [Hhigh Hacc]. assert (shift = id - highID r) as -> by (unfold shift, uint32_ok in *; apply (wrap_small 32); split; lia). unfold controlReplayWindow.
  set (moved := if 64 <=? id - highID r then no_slots else _). assert (length moved = 64%nat) as Hm. { unfold moved. destruct (Z.leb_spec 64 (id - highID r)); [done|]. rewrite length_app, length_replicate, length_take. lia. }
  split; [cbn [slots]; by rewrite length_insert|]. cbn [seen highID r_time slots]. split; [done|]. apply list.Forall_cons. split.
  - cbn [fst snd]. split; [lia|]. intros _. split; [lia|]. intros _. replace (id - id) with 0 by lia. rewrite slot_insert by lia. rewrite decide_True by done. lia.
  - eapply list.Forall_impl; [done|]. intros [x t] [Ht Hx]. cbn [fst snd] in *. split; [done|]. intros He. destruct (Hx He) as [Hle Hne]. split; [lia|]. intros Hd. rewrite slot_insert by lia. rewrite decide_False by lia.
    unfold moved. rewrite (proj2 (Z.leb_gt _ _)) by lia. rewrite app_nth2 by (rewrite length_replicate; lia). rewrite length_replicate, nth_lookup, lookup_take_lt, <- nth_lookup by lia.
    replace (Z.to_nat (id - x) - Z.to_nat (id - highID r))%nat with (Z.to_nat (highID r - x)) by lia. apply Hne. lia.
Qed.

Lemma replay_step r acc id t now : replay_ok r acc → uint32_ok id → 1 < now →
  match check_replay r id t now with (Ok _, r') => (id, t) ∉ acc ∧ replay_ok r' ((id, t) :: acc) | (Err _, r') => replay_ok r' acc end.
Proof.
  intros Hr Hid Hnow. pose proof Hr as [Hl Hs]. unfold check_replay. destruct (id =? 0); [done|].
  destruct (negb (seen r) || (r_time r <? t)) eqn:E1.
  { assert (Forall (λ x, x.2 < t) acc) as Hacc.
    { destruct (seen r); [|subst acc; constructor]. cbn [negb orb] in E1. apply Z.ltb_lt in E1. destruct Hs as [_ Hs]. eapply list.Forall_impl; [done|]. intros x [Hx _]. cbn in *. lia. }
    split; [|by apply (replay_new r)]. intros Hin. rewrite list.Forall_forall in Hacc. specialize (Hacc _ Hin). cbn in Hacc. lia. }
  apply orb_false_iff in E1 as [Hseen%negb_false_iff Ht%Z.ltb_ge]. destruct (Z.ltb_spec t (r_time r)); [done|]. assert (t = r_time r) as -> by lia.
  set (r1 := reap r now). assert (replay_ok r1 acc) as Hr1.
  { split; [cbn; by rewrite reap_length|]. cbn [reap seen highID r_time slots r1]. rewrite Hseen in *. destruct Hs as [Hhigh Hs]. split; [done|]. eapply list.Forall_impl; [done|]. intros x [H1 H2]. split; [done|]. intros He. destruct (H2 He) as [H3 H4]. split; [done|]. intros Hd. apply reap_nonzero. by apply H4. }
  assert (seen r1 = true) as Hseen1 by done. change (r_time r) with (r_time r1). pose proof Hr1 as [Hl1 Hs1]. rewrite Hseen1 in Hs1. destruct Hs1 as [Hhigh Hs1]. clearbody r1.
  destruct (Z.ltb_spec (highID r1) id) as [Hlt|Hge].
  { split; [|by apply replay_forward]. intros Hin. rewrite list.Forall_forall in Hs1. destruct (Hs1 _ Hin) as [_ Hx]. destruct (Hx eq_refl) as [Hle _]. cbn in Hle. lia. }
  assert (wrap 32 (highID r1 - id) = highID r1 - id) as -> by (unfold uint32_ok in *; apply (wrap_small 32); split; lia). unfold controlReplayWindow. destruct (Z.leb_spec 64 (highID r1 - id)); [done|].
  destruct (Z.eqb_spec (nth (Z.to_nat (highID r1 - id)) (slots r1) 0) 0) as [Hz|]; cbn [negb]; [|done]. split.
  { intros Hin. rewrite list.Forall_forall in Hs1. destruct (Hs1 _ Hin) as [_ Hx]. destruct (Hx eq_refl) as [_ Hne]. by apply Hne. }
  split; [cbn [slots]; by rewrite length_insert|]. cbn [seen highID r_time slots]. rewrite Hseen1. split; [done|]. apply list.Forall_cons. split.
  - cbn [fst snd]. split; [lia|]. intros _. split; [lia|]. intros _. rewrite slot_insert by lia. rewrite decide_True by done. lia.
  - eapply list.Forall_impl; [done|]. intros x [H1 H2]. split; [done|]. intros He. destruct (H2 He) as [H3 H4]. split; [done|]. intros Hd. rewrite slot_insert by lia. destruct (decide _); [lia|by apply H4].
Qed.

Lemma check_all_fresh l : ∀ r acc, replay_ok r acc → Forall (λ x, uint32_ok x.1.1 ∧ 1 < x.2) l → Forall (λ x, x ∉ acc) (check_all r l) ∧ NoDup (check_all r l).
Proof.
  induction l as [|[[id t] now] l IH]; intros r acc Hr Hl; cbn [check_all]; [split; constructor|]. apply list.Forall_cons in Hl as [[Hid Hnow] Hl]. cbn [fst snd] in *. pose proof (replay_step r acc id t now Hr Hid Hnow) as Hs.
  destruct (check_replay r id t now) as [[u|e] r']; [|by apply IH]. destruct Hs as [Hn Hr']. destruct (IH r' _ Hr' Hl) as [H1 H2]. split; constructor; try done.
  - eapply list.Forall_impl; [done|]. set_solver.
  - intros Hin. rewrite list.Forall_forall in H1. apply (H1 _ Hin). left.
Qed.

(** No protected control packet is taken twice: whatever packet numbers and times
    arrive, in any order and at any times of the local clock, the pairs of number and time
    that the window takes are all different, although entries of the window expire. *)
Theorem control_replay_once l : Forall (λ x, uint32_ok x.1.1 ∧ 1 < x.2) l → NoDup (check_all no_replay l).
Proof. intros Hl. apply (check_all_fresh l no_replay []); [|done]. split; done. Qed.

Lemma control_replay_once_witness : NoDup (check_all no_replay [(5, 100, 10); (3, 100, 20); (5, 100, 15000000021); (4, 100, 15000000022); (6, 100, 15000000023); (5, 100, 15000000024); (1, 101, 15000000025)]).
Proof. apply control_replay_once. rewrite !list.Forall_cons. unfold uint32_ok. cbn. split_and!; try lia. constructor. Defined.

(** ** Acknowledgements *)

Lemma filter_ne_id (a : Z) (l : list Z) : a ∉ l → filter (λ x, x ≠ a) l = l.
Proof. intros Ha. apply list_filter_all. intros x Hx ->. done. Qed.

(** The loop moves what it meets one place on, up to the place of [id] or to the end. *)
Lemma shift_in_spec id : ∀ (l : list Z) move, NoDup l →
  shift_in id move l = if decide (id ∈ l) then (move :: filter (λ x, x ≠ id) l, id, true) else (take (length l) (move :: l), nth (length l) (move :: l) 0, false).
Proof.
  induction l as [|x l IH]; intros move Hnd; [done|]. apply NoDup_cons in Hnd as [Hx Hnd]. cbn [shift_in]. destruct (Z.eqb_spec x id) as [->|Hne].
  - rewrite decide_True by left. rewrite filter_cons_False by (intros Hn; by apply Hn). by rewrite filter_ne_id.
  - rewrite (IH x Hnd). destruct (decide (id ∈ l)) as [Hin|Hin].
    + rewrite decide_True by (by right). by rewrite filter_cons_True.
    + rewrite decide_False by (intros [?|?]%elem_of_cons; congruence). cbn [length take]. done.
Qed.
Lemma take_last_snoc (l : list Z) move : take (length l) (move :: l) ++ [nth (length l) (move :: l) 0] = move :: l.
Proof. revert move. induction l as [|x l IH]; intros move; [done|]. cbn [length take app]. f_equal. apply (IH x). Qed.

Lemma to_front_spec id l : NoDup l → (length l ≤ reliableAckSize)%nat → to_front id l = take reliableAckSize (id :: filter (λ x, x ≠ id) l).
Proof.
  intros Hnd Hl. unfold to_front. rewrite (shift_in_spec id l id Hnd). destruct (decide (id ∈ l)) as [Hin|Hin]; cbn [negb andb].
  - rewrite take_ge; [done|]. cbn [length]. assert (length (filter (λ x, x ≠ id) l) < length l)%nat; [|lia]. by apply (length_filter_lt _ l id); [|tauto].
  - rewrite filter_ne_id by done. destruct (Nat.ltb_spec (length l) reliableAckSize).
    + rewrite (take_ge (id :: l) reliableAckSize) by (cbn [length]; lia). apply take_last_snoc.
    + by replace reliableAckSize with (length l) by lia.
Qed.

Lemma take_filter_ne (a : Z) (l : list Z) : ∀ n, NoDup l → take n (filter (λ x, x ≠ a) (take (S n) l)) = take n (filter (λ x, x ≠ a) l).
Proof.
  induction l as [|x l IH]; intros n Hnd; [done|]. apply NoDup_cons in Hnd as [Hx Hnd]. cbn [take]. destruct (decide (x = a)) as [->|Hne].
  - rewrite !filter_cons_False by (intros Hn; by apply Hn). rewrite !filter_ne_id; [by rewrite take_take, Nat.min_id|done|]. intros Hin. apply Hx. revert Hin. intros (i & Hi & _)%elem_of_take; by eapply list_elem_of_lookup_2.
  - rewrite !filter_cons_True by done. destruct n as [|n]; [done|]. cbn [take]. f_equal. by apply IH.
Qed.

Lemma to_front_all batch : ∀ lru, NoDup batch → (length batch ≤ reliableAckSize)%nat → NoDup lru → (length lru ≤ reliableAckSize)%nat →
  foldr to_front lru batch = take reliableAckSize (batch ++ filter (λ x, x ∉ batch) lru).
Proof.
  induction batch as [|a batch IH]; intros lru Hb Hbl Hl Hll; cbn [foldr].
  { cbn [app]. rewrite list_filter_all by (intros x _; apply not_elem_of_nil). by rewrite take_ge. }
  apply NoDup_cons in Hb as [Ha Hb]. cbn [length] in Hbl. rewrite IH by (done || lia). set (X := batch ++ filter (λ x, x ∉ batch) lru).
  assert (NoDup X) as HX by (apply NoDup_app; split_and!; [done|intros x Hx [Hn _]%list_elem_of_filter; done|by apply NoDup_filter]).
  rewrite to_front_spec by (rewrite ?length_take; (lia || by eapply sublist_NoDup, sublist_take)). change reliableAckSize with (S 7). cbn [take app]. f_equal. rewrite take_filter_ne by done. f_equal. unfold X. rewrite filter_app, (filter_ne_id a batch) by done. f_equal.
  rewrite list_filter_filter. apply list_filter_iff. intros x. rewrite not_elem_of_cons. tauto.
Qed.

(** The acknowledgements of a packet: the oldest that wait, as many as the packet may
    carry, come first and in order; what is left of the packet repeats the most recent
    ones, none twice; the rest waits for the next packet, so none is lost.  The list of
    recent ones, which the code shifts in place, is the batch followed by what was there
    without the batch, cut at 8. *)
Theorem acks_oldest_first c max : NoDup (ackPending c) → NoDup (lruAcks c) → (length (lruAcks c) ≤ reliableAckSize)%nat → (max ≤ reliableAckSize)%nat →
  let '(ids, c') := takeAcksLocked c max in
  let batch := take max (ackPending c) in
  ids = take max (lruAcks c') ∧ batch `prefix_of` ids ∧ ackPending c' = drop max (ackPending c) ∧ NoDup (lruAcks c')
  ∧ lruAcks c' = take reliableAckSize (batch ++ filter (λ x, x ∉ batch) (lruAcks c)).
Proof.
  intros Ha Hl Hll Hmax. unfold takeAcksLocked. set (batch := take max (ackPending c)).
  assert (take (length (ackPending c) `min` max) (ackPending c) = batch) as -> by (unfold batch; destruct (Nat.min_spec (length (ackPending c)) max) as [[? ->]|[? ->]]; [rewrite !take_ge by lia; done|done]).
  assert (drop (length (ackPending c) `min` max) (ackPending c) = drop max (ackPending c)) as -> by (destruct (Nat.min_spec (length (ackPending c)) max) as [[? ->]|[? ->]]; [rewrite !drop_ge by lia; done|done]).
  assert (NoDup batch) as Hb by (by eapply sublist_NoDup, sublist_take). assert (length batch ≤ max)%nat as Hbl by (unfold batch; rewrite length_take; lia).
  rewrite to_front_all by (done || lia). set (X := batch ++ filter (λ x, x ∉ batch) (lruAcks c)). rewrite (proj2 (Nat.ltb_ge _ _)) by (rewrite length_take; lia). cbn [ackPending lruAcks with_acks].
  assert (NoDup X) as HX by (apply NoDup_app; split_and!; [done|intros x Hx [Hn _]%list_elem_of_filter; done|by apply NoDup_filter]).
  assert (take (length (take reliableAckSize X) `min` max) (take reliableAckSize X) = take max (take reliableAckSize X)) as Hids.
  { destruct (Nat.min_spec (length (take reliableAckSize X)) max) as [[? ->]|[? ->]]; [rewrite (take_ge (take reliableAckSize X) (length _)), (take_ge (take reliableAckSize X) max) by lia; done|done]. }
  split_and!; [done| |done|by eapply sublist_NoDup, sublist_take|done]. rewrite Hids, take_take, Nat.min_l by lia. unfold X. rewrite take_app. rewrite (take_ge batch) by lia. by eexists.
Qed.

Definition acks_demo : ControlChannel := with_acks demo_client [7; 8; 9; 10; 11] [6; 8; 5; 4; 3; 2; 1; 0].
Lemma acks_oldest_first_witness :
  let '(ids, c') := takeAcksLocked acks_demo controlSendAckMax in
  let batch := take controlSendAckMax (ackPending acks_demo) in
  ids = take controlSendAckMax (lruAcks c') ∧ batch `prefix_of` ids ∧ ackPending c' = drop controlSendAckMax (ackPending acks_demo) ∧ NoDup (lruAcks c')
  ∧ lruAcks c' = take reliableAckSize (batch ++ filter (λ x, x ∉ batch) (lruAcks acks_demo)).
Proof.
  apply (acks_oldest_first acks_demo controlSendAckMax).
  - apply (bool_decide_unpack _). vm_compute. done.
  - apply (bool_decide_unpack _). vm_compute. done.
  - unfold reliableAckSize. cbn. lia.
  - unfold controlSendAckMax, reliableAckSize. lia.
Defined.
