(* ===== verification/OpenVpnStream.v ===== *)
(** * [transport/openvpn/control.go]: the byte stream of the control connection

    [ControlConn] cuts what it is given into packets of the control channel; here its
    packets are followed through protection, the network and the reliable layer of the
    peer. *)

From Stdlib Require Import ZArith Lia.
From stdpp Require Import base strings numbers gmap sets list.
From S2P Require Import Prelude GoStrings OpenVpnPacket OpenVpnControl OpenVpnControlTheory.
#[local] Open Scope Z_scope.

(** ** The pieces *)

Fixpoint chunks (fuel : nat) (b : octets) : list octets :=
  match fuel, b with
  | S fuel, _ :: _ => take maxTLSControlPayload b :: chunks fuel (drop maxTLSControlPayload b)
  | _, _ => []
  end.
Lemma chunks_concat fuel : ∀ b, (length b ≤ fuel)%nat → concat (chunks fuel b) = b ∧ (length (chunks fuel b) ≤ length b)%nat.
Proof.
  induction fuel as [|fuel IH]; intros [|x b] Hb; try (cbn in *; done || lia). cbn [chunks concat].
  assert (length (drop maxTLSControlPayload (x :: b)) ≤ fuel)%nat as Hd by (rewrite length_drop; cbn [length] in *; unfold maxTLSControlPayload; lia).
  destruct (IH _ Hd) as [IH1 IH2]. rewrite IH1. split; [apply take_drop|]. cbn [length]. rewrite length_drop in IH2. cbn [length] in IH2. unfold maxTLSControlPayload in *. lia.
Qed.
Lemma concat_take_prefix {A} (n : nat) (l : list (list A)) : concat (take n l) `prefix_of` concat l.
Proof. rewrite <- (take_drop n l) at 2. rewrite concat_app. by eexists. Qed.

(** ** Sending them *)

Section sending.
Context `{UnicodeCase, C : Crypto, !CryptoLaws}.

(** A channel that has nothing to acknowledge and room for [n] more packets. *)
Record ready (c : ControlChannel) (n : Z) : Prop := {
  ready_acks : ackPending c = [] ∧ lruAcks c = [];
  ready_message : 0 ≤ sendMessage c ∧ sendMessage c + n < 2 ^ 31;
  ready_id : 0 ≤ sendPacketID c ∧ sendPacketID c + n < 2 ^ 32 - 1;
  ready_time : uint32_ok (sendPacketTime c);
  ready_key : 0 ≤ keyID c < 8;
  ready_sessions : length (local c) = SessionIDSize ∧ length (remote c) = SessionIDSize;
}.

Definition arrives_as (c : ControlChannel) (m : Z) (payload raw : octets) : Prop :=
  ∀ s, paired (crypt c) s → ∃ id t, DecodeControlPacket s raw = Ok (mkControlPacket PControlV1 (keyID c) (local c) [] noSession m payload, id, t).

Lemma write_one c now p : 0 ≤ sendPacketID c < 2 ^ 32 - 1 → uint32_ok (sendPacketTime c) → sendable p → Opcode p ≠ PControlHardResetClientV3 → (∃ s, paired (crypt c) s) →
  ∃ raw c', writeControlPacketGranted all_written c now p = (Ok (), [raw], c')
    ∧ c' = with_packet_id c (sendPacketID c + 1) (sendPacketTime c') ∧ uint32_ok (sendPacketTime c')
    ∧ ∀ s, paired (crypt c) s → ∃ id t, DecodeControlPacket s raw = Ok (sent_form p, id, t).
Proof.
  intros Hroom Ht Hp Ho [s0 Hs0]. unfold writeControlPacketGranted.
  assert ((if crypt c is Some _ then sendPacketID c =? 4294967295 else false) = false) as -> by (destruct (crypt c); [apply Z.eqb_neq; lia|done]).
  set (t := if (if crypt c is Some _ then sendPacketTime c =? 0 else false) then wrap 32 (now `div` 1000000000) else sendPacketTime c). assert (uint32_ok t) as Htime by (unfold t; destruct (if crypt c is Some _ then sendPacketTime c =? 0 else false); [apply (wrap_range 32); lia|done]). clearbody t.
  assert (wrap 32 (sendPacketID c + 1) = sendPacketID c + 1) as -> by (apply (wrap_small 32); split; lia). cbn [crypt with_packet_id].
  assert (uint32_ok (sendPacketID c + 1)) as Hid by (unfold uint32_ok; lia). destruct (packet_roundtrip (crypt c) s0 p (sendPacketID c + 1) t Hs0 Hp Hid Htime) as (raw & Hraw & _). rewrite Hraw.
  assert ((if crypt c is Some (CCryptV2 v2) then if (Opcode p =? PControlHardResetClientV3) && (MessageID p =? 0) then raw ++ wrappedClientKey v2 else raw else raw) = raw) as ->.
  { destruct (crypt c) as [[]|]; try done. by rewrite (proj2 (Z.eqb_neq _ _) Ho). }
  cbn [all_written]. exists raw. eexists. split; [reflexivity|]. split_and!; [done|done|]. intros s Hs. destruct (packet_roundtrip (crypt c) s p (sendPacketID c + 1) t Hs Hp Hid Htime) as (raw' & Hraw' & Hd).
  rewrite Hraw in Hraw'. injection Hraw' as <-. by eexists _, _.
Qed.

Lemma send_one c n now payload : ready c n → 0 < n → (∃ s, paired (crypt c) s) →
  ∃ raw c', Send all_written c now PControlV1 payload = (Ok (sendMessage c), [raw], c')
    ∧ ready c' (n - 1) ∧ sendMessage c' = sendMessage c + 1 ∧ crypt c' = crypt c ∧ keyID c' = keyID c ∧ local c' = local c
    ∧ arrives_as c (sendMessage c) payload raw.
Proof.
  intros Hr Hn Hs. pose proof Hr as [[Ha Hl] [Hm0 Hm1] [Hid0 Hid1] Ht Hk [Hlo Hre]]. unfold Send. cbn [negb HasMessageID IsControl bool_decide PControlV1]. change (HasMessageID PControlV1) with true. cbn [negb].
  unfold takeAcksLocked. rewrite Ha, Hl. cbn [length Nat.min take drop foldr keyID local remote pending with_acks reliableAckSize Nat.ltb Nat.leb].
  assert (wrap 32 (sendMessage c + 1) = sendMessage c + 1) as -> by (apply (wrap_small 32); split; lia). set (p := mkControlPacket _ _ _ _ _ _ _). set (c1 := with_sent _ _ _).
  assert (sendable p) as Hp. { unfold sendable, p. cbn [Opcode KeyID LocalSession AckIDs AckRemoteSession MessageID length]. unfold uint32_ok, reliableAckSize. split_and!; try done; try lia. }
  destruct (write_one c1 now p) as (raw & c2 & Hw & Hc2 & Ht2 & Hd); [cbn; lia|done|done|done|done|]. rewrite Hw. exists raw, c2. split; [done|].
  split_and!; [|by rewrite Hc2..|].
  - split; rewrite Hc2; cbn [c1 with_packet_id with_sent with_acks ackPending lruAcks sendMessage sendPacketID sendPacketTime keyID local remote]; try done; lia.
  - intros s Hps. exact (Hd s Hps).
Qed.

(** The pieces arrive as they were cut, numbered from the next message on. *)
Lemma send_chunks_spec fuel : ∀ c b now w n, (length b ≤ fuel)%nat → Z.of_nat (length b) ≤ n → ready c n → (∃ s, paired (crypt c) s) →
  ∃ out c', send_chunks all_written fuel c now b w = (Ok (), (w + length b)%nat, out, c') ∧ length out = length (chunks fuel b)
    ∧ ∀ i raw, out !! i = Some raw → ∃ chunk, chunks fuel b !! i = Some chunk ∧ arrives_as c (sendMessage c + Z.of_nat i) chunk raw.
Proof.
  induction fuel as [|fuel IH]; intros c b now w n Hb Hn Hr Hs.
  { destruct b; [|cbn in Hb; lia]. exists [], c. cbn. by rewrite Nat.add_0_r. }
  destruct b as [|x b]; [exists [], c; cbn; by rewrite Nat.add_0_r|]. set (bs := x :: b) in *. assert (0 < length bs)%nat as Hpos by (cbn; lia).
  assert (take (length bs `min` maxTLSControlPayload) bs = take maxTLSControlPayload bs) as Et by (destruct (Nat.min_spec (length bs) maxTLSControlPayload) as [[? ->]|[? ->]]; [rewrite !take_ge by lia; done|done]).
  assert (drop (length bs `min` maxTLSControlPayload) bs = drop maxTLSControlPayload bs) as Ed by (destruct (Nat.min_spec (length bs) maxTLSControlPayload) as [[? ->]|[? ->]]; [rewrite !drop_ge by lia; done|done]).
  destruct (send_one c n now (take maxTLSControlPayload bs) Hr ltac:(lia) Hs) as (raw & c1 & Hsend & Hr1 & Hm & Hcr & Hk & Hl & Harr).
  assert (length (drop maxTLSControlPayload bs) = length bs - maxTLSControlPayload)%nat as Hld by apply length_drop.
  destruct (IH c1 (drop maxTLSControlPayload bs) now (w + length bs `min` maxTLSControlPayload)%nat (n - 1)) as (out & c' & Hout & Hlen & Hi); [unfold maxTLSControlPayload in *; lia..|done|by rewrite Hcr|].
  exists (raw :: out), c'. change (send_chunks all_written (S fuel) c now bs w) with
    (match Send all_written c now PControlV1 (take (length bs `min` maxTLSControlPayload) bs) with
     | (Err e, out, c) => (Err e, w, out, c)
     | (Ok _, out, c) => let '(r, w, out', c) := send_chunks all_written fuel c now (drop (length bs `min` maxTLSControlPayload) bs) (w + length bs `min` maxTLSControlPayload) in (r, w, out ++ out', c)
     end).
  rewrite Et, Hsend, Ed, Hout. change (chunks (S fuel) bs) with (take maxTLSControlPayload bs :: chunks fuel (drop maxTLSControlPayload bs)). split_and!; [replace (w + length bs)%nat with (w + length bs `min` maxTLSControlPayload + length (drop maxTLSControlPayload bs))%nat by lia; done|cbn [length]; lia|].
  intros [|i] r Hraw; cbn [lookup list_lookup] in *; [injection Hraw as <-; eexists; split; [done|]; by rewrite Z.add_0_r|]. destruct (Hi i r Hraw) as (chunk & Hc & Ha). exists chunk. split; [done|].
  unfold arrives_as in *. rewrite Hcr, Hk, Hl, Hm in Ha. replace (sendMessage c + Z.of_nat (S i)) with (sendMessage c + 1 + Z.of_nat i) by lia. done.
Qed.

(** *** Sending again *)

Lemma shift_in_Forall P id : ∀ l move, P move → Forall P l → let '(l', m, _) := shift_in id move l in Forall P l' ∧ P m.
Proof.
  induction l as [|x l IH]; intros move Hm Hl; cbn [shift_in]; [done|]. apply list.Forall_cons in Hl as [Hx Hl]. destruct (x =? id); [split; [by constructor|done]|].
  specialize (IH x Hx Hl). destruct (shift_in id x l) as [[l' m] f]. destruct IH. split; [by constructor|done].
Qed.
Lemma to_front_Forall P id l : P id → Forall P l → Forall P (to_front id l).
Proof.
  intros Hid Hl. unfold to_front. pose proof (shift_in_Forall P id l id Hid Hl) as Hs. destruct (shift_in id id l) as [[l' m] f]. destruct Hs as [Hl' Hm]. destruct (negb f && _); [|done]. apply Forall_app. split; [done|by apply Forall_singleton].
Qed.
Lemma take_acks_Forall P c max ids c' : Forall P (ackPending c) → Forall P (lruAcks c) → takeAcksLocked c max = (ids, c') → Forall P ids ∧ (length ids ≤ max)%nat.
Proof.
  intros Ha Hl. unfold takeAcksLocked. set (lru := foldr to_front _ _). assert (Forall P lru) as Hlru.
  { unfold lru. assert (Forall P (take (length (ackPending c) `min` max) (ackPending c))) as Ht by (by apply Forall_take). induction Ht as [|x l Hx _ IH]; [done|]. cbn [foldr]. by apply to_front_Forall. }
  clearbody lru. intros [= <- _]. split; [apply Forall_take; destruct (_ <? _)%nat; [by apply Forall_take|done]|]. rewrite length_take. lia.
Qed.

Lemma write_all_spec ps : ∀ c now, 0 ≤ sendPacketID c → sendPacketID c + Z.of_nat (length ps) < 2 ^ 32 - 1 → uint32_ok (sendPacketTime c) →
  Forall (λ p, sendable p ∧ Opcode p ≠ PControlHardResetClientV3) ps → (∃ s, paired (crypt c) s) →
  ∃ out c', write_all all_written c now ps = (Ok (), out, c') ∧ pending c' = pending c ∧ length out = length ps ∧
    ∀ i p s, ps !! i = Some p → paired (crypt c) s → ∃ raw id t, out !! i = Some raw ∧ DecodeControlPacket s raw = Ok (sent_form p, id, t).
Proof.
  induction ps as [|p ps IH]; intros c now Hid0 Hid1 Ht Hps Hs; cbn [write_all]; [by eexists [], c|]. apply list.Forall_cons in Hps as [[Hp Ho] Hps]. cbn [length] in Hid1.
  destruct (write_one c now p) as (raw & c1 & -> & Hc1 & Ht1 & Hd); [lia|done..|]. destruct (IH c1 now) as (out & c' & Hw & Hpend & Hlen & Hout); try done; [rewrite Hc1; cbn; lia..|by rewrite Hc1|].
  rewrite Hw. exists ([raw] ++ out), c'. split_and!; [done|by rewrite Hpend, Hc1|cbn; lia|]. intros [|i] q s Hq Hsp; cbn [lookup list_lookup app] in *.
  - injection Hq as <-. destruct (Hd s Hsp) as (id & t & ?). eauto.
  - apply Hout; [done|]. by rewrite Hc1.
Qed.

(** What is not acknowledged is sent again: every message that waits for its
    acknowledgement goes out once more, and the peer decodes it to the same message. *)
Theorem retransmission_complete c now : 0 ≤ sendPacketID c → sendPacketID c + Z.of_nat (size (pending c)) < 2 ^ 32 - 1 → uint32_ok (sendPacketTime c) →
  Forall uint32_ok (ackPending c) → Forall uint32_ok (lruAcks c) → length (remote c) = SessionIDSize →
  (∀ id p, pending c !! id = Some p → MessageID p = id ∧ sendable p ∧ HasMessageID (Opcode p) = true ∧ Opcode p ≠ PControlHardResetClientV3) → (∃ s, paired (crypt c) s) →
  ∃ out c', RetransmitPending all_written c now = (Ok (), out, c') ∧ pending c' = pending c ∧ length out = size (pending c) ∧
    ∀ id p s, pending c !! id = Some p → paired (crypt c) s →
      ∃ raw q n t, raw ∈ out ∧ DecodeControlPacket s raw = Ok (q, n, t) ∧ MessageID q = id ∧ Opcode q = Opcode p ∧ KeyID q = KeyID p ∧ LocalSession q = LocalSession p ∧ Payload q = Payload p.
Proof.
  intros Hid0 Hid1 Ht Ha Hl Hrem Hpend Hs. unfold RetransmitPending. destruct (Nat.eqb_spec (size (pending c)) 0) as [Hz|Hz].
  { exists [], c. split_and!; try done. intros id p s Hp. apply map_size_empty_inv in Hz. by rewrite Hz, lookup_empty in Hp. }
  destruct (takeAcksLocked c controlSendAckMax) as [ids c1] eqn:Et. destruct (take_acks_Forall uint32_ok c _ ids c1 Ha Hl Et) as [Hids Hlen]. unfold takeAcksLocked in Et. injection Et as _ <-. cbn [remote pending with_acks].
  set (again := λ kp : Z * ControlPacket, _). set (c1 := with_acks _ _ _). destruct (write_all_spec (again <$> map_to_list (pending c)) c1 now) as (out & c' & -> & Hp' & Hlo & Hout); [done|cbn; rewrite length_fmap, length_map_to_list; lia|done| |done|].
  { apply Forall_fmap, list.Forall_forall. intros [id p] Hin. apply elem_of_map_to_list in Hin. destruct (Hpend id p Hin) as (_ & (S1 & S2 & S3 & _ & _ & _ & S7) & _ & Ho). unfold sendable, again. cbn [snd Opcode KeyID LocalSession AckIDs AckRemoteSession MessageID compose]. unfold reliableAckSize. unfold controlSendAckMax in Hlen. split_and!; try done; lia. }
  exists out, c'. split_and!; [done|done|by rewrite Hlo, length_fmap, length_map_to_list|]. intros id p s Hp Hsp. destruct (Hpend id p Hp) as (Hm & _ & Hmid & _). apply elem_of_map_to_list, list_elem_of_lookup in Hp as [i Hi].
  destruct (Hout i (again (id, p)) s) as (raw & n & t & Hraw & Hd); [by rewrite list_lookup_fmap, Hi|done|]. exists raw, (sent_form (again (id, p))), n, t. split_and!; try done; [by eapply list_elem_of_lookup_2|..]; unfold sent_form, again; cbn [snd Opcode MessageID Payload]; by rewrite Hmid.
Qed.

(** The two ends of an epoch: sessions, key and protection agree. *)
Record peers (c s : ControlChannel) : Prop := {
  peers_crypt : paired (crypt c) (crypt s);
  peers_local : remote s = local c;
  peers_known : local c ≠ noSession;
  peers_key : keyID s = keyID c;
}.

Lemma arrives_addressed c s m payload raw p : peers c s → arrives_as c m payload raw → addressed s raw p → p = mkControlPacket PControlV1 (keyID c) (local c) [] noSession m payload.
Proof. intros [Hp _ _ _] Ha ((id & t & Hd) & _). destruct (Ha _ Hp) as (id' & t' & Hd'). rewrite Hd in Hd'. by injection Hd'. Qed.
Lemma arrives_carries c s m payload raw : peers c s → arrives_as c m payload raw → carries s raw m.
Proof.
  intros [Hp Hl Hn Hk] Ha. destruct (Ha _ Hp) as (id & t & Hd). eexists. split; [split; [by eexists _, _|]|]; cbn [LocalSession KeyID Opcode MessageID AckIDs]; [done|]. split_and!; [done|done|by left].
Qed.

Lemma carry_from_spec s sub : ∀ i, (∀ j x, sub !! j = Some x → carries s x.1 (i + Z.of_nat j)) → carry_from s i sub.
Proof.
  induction sub as [|x sub IH]; intros i Hi; [done|]. split; [rewrite <- (Z.add_0_r i); by apply (Hi 0%nat)|]. apply IH. intros j y Hj. replace (i + 1 + Z.of_nat j) with (i + Z.of_nat (S j)) by lia. by apply Hi.
Qed.

End sending.

Definition demo_conn : ControlConn := NewControlConn demo_peer.
Definition demo_bytes : octets := [1; 2; 3].
