(* ===== verification/OpenVpnGate.v ===== *)
(** * [transport/openvpn/mux.go]: the gate before the physical connection

    One write at a time; who waits is served in turn, control packets before data.  A
    waiter is a number, its state the entry of a map; who got the gate without waiting
    (the [nil] waiter) is counted.  Threads interleave at the locked sections, which are
    the steps. *)

From Stdlib Require Import ZArith Lia.
From stdpp Require Import base numbers gmap sets relations list.
From S2P Require Import Prelude.

Inductive writeWaiterState := writeWaiterQueued | writeWaiterGranted | writeWaiterReleased.
#[export] Instance writeWaiterState_eq_dec : EqDecision writeWaiterState.
Proof. solve_decision. Defined.

Record priorityWriteGate := mkGate {
  active : bool;
  control : list nat;
  data : list nat;
  waiters : gmap nat writeWaiterState;
  direct : nat;
}.
Definition new_gate : priorityWriteGate := mkGate false [] [] ∅ 0.

Definition set_state (g : priorityWriteGate) (w : nat) (s : writeWaiterState) : priorityWriteGate :=
  mkGate (active g) (control g) (data g) (<[w := s]> (waiters g)) (direct g).

(** The locked part of [acquire], for a waiter that is new; whether the gate was free. *)
Definition acquire (g : priorityWriteGate) (isControl : bool) (w : nat) : bool * priorityWriteGate :=
  if negb (active g) then (true, mkGate true (control g) (data g) (waiters g) (S (direct g)))
  else if isControl then (false, mkGate true (control g ++ [w]) (data g) (<[w := writeWaiterQueued]> (waiters g)) (direct g))
  else (false, mkGate true (control g) (data g ++ [w]) (<[w := writeWaiterQueued]> (waiters g)) (direct g)).

Definition grantNextLocked (g : priorityWriteGate) : priorityWriteGate :=
  match control g, data g with
  | w :: rest, _ => mkGate (active g) rest (data g) (<[w := writeWaiterGranted]> (waiters g)) (direct g)
  | [], w :: rest => mkGate (active g) [] rest (<[w := writeWaiterGranted]> (waiters g)) (direct g)
  | [], [] => mkGate false [] [] (waiters g) (direct g)
  end.

Fixpoint removeWriteWaiter (l : list nat) (target : nat) : list nat :=
  match l with [] => [] | w :: l => if decide (w = target) then l else w :: removeWriteWaiter l target end.

Definition abandon (g : priorityWriteGate) (w : nat) : priorityWriteGate :=
  match waiters g !! w with
  | Some writeWaiterQueued => mkGate (active g) (removeWriteWaiter (control g) w) (removeWriteWaiter (data g) w) (<[w := writeWaiterReleased]> (waiters g)) (direct g)
  | Some writeWaiterGranted => grantNextLocked (set_state g w writeWaiterReleased)
  | _ => g
  end.

(** [release], by who did not wait and by a waiter. *)
Definition release (g : priorityWriteGate) (w : option nat) : priorityWriteGate :=
  match w with
  | None => grantNextLocked (mkGate (active g) (control g) (data g) (waiters g) (pred (direct g)))
  | Some w => if decide (waiters g !! w = Some writeWaiterGranted) then grantNextLocked (set_state g w writeWaiterReleased) else g
  end.

(** A thread comes, gives up waiting (it may have been granted the gate meanwhile), or is
    done with the gate that it has. *)
Inductive step : priorityWriteGate → priorityWriteGate → Prop :=
| step_acquire g isControl w : waiters g !! w = None → step g (acquire g isControl w).2
| step_abandon g w : waiters g !! w = Some writeWaiterQueued ∨ waiters g !! w = Some writeWaiterGranted → step g (abandon g w)
| step_release g w : waiters g !! w = Some writeWaiterGranted → step g (release g (Some w))
| step_release_direct g : (0 < direct g)%nat → step g (release g None).

(** Who may write now. *)
Definition granted_of (m : gmap nat writeWaiterState) : gmap nat writeWaiterState := filter (λ kv, kv.2 = writeWaiterGranted) m.
Definition granted (g : priorityWriteGate) : gmap nat writeWaiterState := granted_of (waiters g).
Definition owners (g : priorityWriteGate) : nat := direct g + size (granted g).

Record gate_ok (g : priorityWriteGate) : Prop := {
  ok_owners : owners g = if active g then 1%nat else 0%nat;
  ok_queue w : w ∈ control g ++ data g ↔ waiters g !! w = Some writeWaiterQueued;
  ok_nodup : NoDup (control g ++ data g);
  ok_idle : active g = false → control g = [] ∧ data g = [];
}.

(** ** Lemmas *)

Lemma granted_insert_other m w s : s ≠ writeWaiterGranted → m !! w ≠ Some writeWaiterGranted → granted_of (<[w := s]> m) = granted_of m.
Proof.
  intros Hs Hm. unfold granted_of. rewrite map_filter_insert_False by done. apply map_filter_delete_not. intros x Hx Hg. cbn in Hg. by subst x.
Qed.
Lemma granted_insert_new m w : m !! w ≠ Some writeWaiterGranted → size (granted_of (<[w := writeWaiterGranted]> m)) = S (size (granted_of m)).
Proof.
  intros Hm. unfold granted_of. rewrite map_filter_insert_True by done. apply map_size_insert_None. apply map_lookup_filter_None. right. intros x Hx. cbn. by intros ->.
Qed.
Lemma granted_some m w : m !! w = Some writeWaiterGranted → granted_of m !! w = Some writeWaiterGranted ∧ size (granted_of m) ≠ 0%nat.
Proof.
  intros Hm. assert (granted_of m !! w = Some writeWaiterGranted) as Hl by (by apply map_lookup_filter_Some). split; [done|]. intros Hz. apply map_size_empty_inv in Hz. by rewrite Hz, lookup_empty in Hl.
Qed.
Lemma granted_insert_drop m w s : s ≠ writeWaiterGranted → m !! w = Some writeWaiterGranted → S (size (granted_of (<[w := s]> m))) = size (granted_of m).
Proof.
  intros Hs Hm. destruct (granted_some m w Hm) as [Hl Hz]. unfold granted_of in *. rewrite map_filter_insert_False, map_filter_delete, map_size_delete, Hl by done. lia.
Qed.

Lemma removeWaiter_elem l w x : NoDup l → x ∈ removeWriteWaiter l w ↔ x ∈ l ∧ x ≠ w.
Proof.
  induction l as [|y l IH]; intros Hn; [set_solver|]. apply NoDup_cons in Hn as [Hy Hn]. cbn [removeWriteWaiter]. destruct (decide (y = w)) as [->|Hne]; [set_solver|]. rewrite !elem_of_cons, IH by done. set_solver.
Qed.
Lemma removeWaiter_sub l w : removeWriteWaiter l w `sublist_of` l.
Proof. induction l as [|y l IH]; [done|]. cbn [removeWriteWaiter]. destruct (decide (y = w)); [by apply sublist_cons|by apply sublist_skip]. Qed.

(** The gate is handed on: its owner left. *)
Lemma grant_ok g : owners g = 0%nat → active g = true → (∀ w, w ∈ control g ++ data g ↔ waiters g !! w = Some writeWaiterQueued) → NoDup (control g ++ data g) → gate_ok (grantNextLocked g).
Proof.
  intros Ho Ha Hq Hn. assert (∀ w rest, control g ++ data g ≡ₚ w :: rest → NoDup (w :: rest) → ∀ c d, c ++ d = rest → gate_ok (mkGate (active g) c d (<[w := writeWaiterGranted]> (waiters g)) (direct g))) as Hgrant.
  { intros w rest Hp Hnd c d Hcd. apply NoDup_cons in Hnd as [Hw Hnd]. assert (waiters g !! w = Some writeWaiterQueued) as Hqw by (apply Hq; rewrite Hp; left).
    split; cbn [owners active control data waiters direct granted].
    - rewrite Ha. unfold owners, granted in *. cbn [direct waiters]. rewrite granted_insert_new by (by rewrite Hqw). lia.
    - intros x. rewrite Hcd. destruct (decide (x = w)) as [->|Hne]; [rewrite lookup_insert_eq; split; [by intros ?%Hw|done]|]. rewrite lookup_insert_ne by done. rewrite <- Hq, Hp. set_solver.
    - by rewrite Hcd.
    - by rewrite Ha. }
  unfold grantNextLocked. destruct (control g) as [|w c] eqn:Ec; [destruct (data g) as [|w d] eqn:Ed|].
  - split; done.
  - by apply (Hgrant w d).
  - apply (Hgrant w (c ++ data g)); done.
Qed.

(** A waiter that was granted the gate leaves. *)
Lemma leave_ok g w : gate_ok g → waiters g !! w = Some writeWaiterGranted → gate_ok (grantNextLocked (set_state g w writeWaiterReleased)).
Proof.
  intros [Ho Hq Hn Hidle] Hw. pose proof (granted_insert_drop (waiters g) w writeWaiterReleased ltac:(done) Hw) as Hdrop. destruct (granted_some _ _ Hw) as [_ Hz]. unfold owners, granted in Ho.
  apply grant_ok; unfold owners, granted; cbn [set_state active control data waiters direct]; [destruct (active g); lia|destruct (active g); [done|lia]| |done].
  intros x. rewrite Hq. destruct (decide (x = w)) as [->|Hne]; [by rewrite lookup_insert_eq, Hw|by rewrite lookup_insert_ne].
Qed.

Lemma gate_step_ok g g' : gate_ok g → step g g' → gate_ok g'.
Proof.
  intros Hg Hs. pose proof Hg as [Ho Hq Hn Hidle]. destruct Hs as [g isControl w Hw|g w Hw|g w Hw|g Hd].
  - unfold acquire. destruct (active g) eqn:Ha; cbn [negb snd].
    + assert (∀ c d, c ++ d ≡ₚ w :: control g ++ data g → gate_ok (mkGate true c d (<[w := writeWaiterQueued]> (waiters g)) (direct g))) as Hadd.
      { intros c d Hp. split; cbn [owners active control data waiters direct].
        - unfold owners, granted in *. cbn [direct waiters]. by rewrite granted_insert_other by (by rewrite ?Hw).
        - intros x. rewrite Hp, elem_of_cons. destruct (decide (x = w)) as [->|Hne]; [rewrite lookup_insert_eq; tauto|]. rewrite lookup_insert_ne, <- Hq by done. tauto.
        - rewrite Hp. apply NoDup_cons. split; [|done]. rewrite Hq, Hw. done.
        - done. }
      destruct isControl; apply Hadd; [rewrite <- app_assoc; symmetry; apply Permutation_middle|rewrite app_assoc; symmetry; apply Permutation_cons_append].
    + destruct (Hidle eq_refl) as [Hc Hdd]. split; cbn; try done. unfold owners, granted in *. cbn [direct waiters]. lia.
  - unfold abandon. destruct Hw as [Hw|Hw]; rewrite Hw.
    + apply NoDup_app in Hn as (Hn1 & Hdis & Hn2). split; cbn [owners active control data waiters direct].
      * unfold owners, granted in *. cbn [direct waiters]. by rewrite granted_insert_other by (by rewrite ?Hw).
      * intros x. rewrite elem_of_app, !removeWaiter_elem by done. destruct (decide (x = w)) as [->|Hne]; [rewrite lookup_insert_eq; split; [tauto|done]|]. rewrite lookup_insert_ne, <- Hq, elem_of_app by done. tauto.
      * apply (sublist_NoDup _ (control g ++ data g)); [apply NoDup_app; done|]. apply sublist_app; apply removeWaiter_sub.
      * intros Ha. destruct (Hidle Ha) as [-> ->]. done.
    + by apply leave_ok.
  - unfold release. rewrite decide_True by done. by apply leave_ok.
  - unfold release. apply grant_ok; cbn [owners active control data waiters direct]; try done; unfold owners in *; cbn [direct waiters granted] in *; [|by destruct (active g); [|lia]]. unfold granted in *. cbn [waiters]. destruct (active g); lia.
Qed.


Definition demo_gate : priorityWriteGate :=
  let g := (acquire new_gate false 0).2 in
  let g := (acquire g false 1).2 in
  let g := (acquire g true 2).2 in
  release g None.
