(* ===== verification/OpenVpnKeys.v ===== *)
(** * [transport/openvpn]: key method 2, derived keys and the choice of ciphers

    [keymethod.go] and the names and the negotiation of [config.go].  Bytes are integers in
    [[0, 256)]; the strings of the records are byte strings as well. *)

From Stdlib Require Import ZArith Lia.
From stdpp Require Import base strings numbers gmap sets sorting list.
From S2P Require Import Prelude GoStrings GoIO OpenVpnPacket OpenVpnData.
#[local] Open Scope Z_scope.

Definition keySourcePreMasterSize : nat := 48.
Definition keySourceRandomSize : nat := 32.
Definition maxCipherKeyLength : nat := 64.
Definition maxHMACKeyLength : nat := 64.
Definition keyBlockSize : nat := 256.
Definition KeyMethod2 : Z := 2.
Definition keyExpansionID : string := "OpenVPN".

Record KeySource := mkKeySource { PreMaster : octets; Random1 : octets; Random2 : octets }.
Definition no_source : KeySource := mkKeySource (replicate 48 0) (replicate 32 0) (replicate 32 0).
Record KeySource2 := mkKeySource2 { Client : KeySource; Server : KeySource }.
Record KeyMethod2Record := mkRecord { Sources : KeySource2; Options : octets; Username : octets; Password : octets; PeerInfo : octets }.

(** ** Strings with their length *)

Definition PutUint16 (x : Z) : octets := [wrap 8 (Z.shiftr x 8); wrap 8 x].

Definition appendOpenVPNString (out s : octets) : octets :=
  match s with
  | [] => out ++ PutUint16 0
  | _ => let s := if 65535 <? Z.of_nat (length s) + 1 then take (Z.to_nat 65534) s else s in
         out ++ PutUint16 (wrap 16 (Z.of_nat (length s) + 1)) ++ s ++ [0]
  end.

(** [ioStringEOF], or another error. *)
Inductive km_error := StringEOF | KMErr (text : string).

Definition readOpenVPNString (packet : octets) (offset : nat) : result km_error (octets * nat) :=
  if (length packet <? offset + 2)%nat then Err StringEOF
  else
    let size := Z.to_nat (Uint16 (take 2 (drop offset packet))) in
    if (size =? 0)%nat then Ok ([], (offset + 2)%nat)
    else if (length packet <? offset + 2 + size)%nat then Err StringEOF
    else
      let raw := take size (drop (offset + 2) packet) in
      Ok (if nth (size - 1) raw 0 =? 0 then take (size - 1) raw else raw, (offset + 2 + size)%nat).

Fixpoint drop_zeros (b : octets) : octets := match b with 0 :: b => drop_zeros b | _ => b end.
Definition looksLikeFollowingTLSControl (b : octets) : bool :=
  let b := drop_zeros b in
  if (length b =? 0)%nat then false
  else existsb (λ word, let w := of_string word in bool_decide (take (length w) b = w))
         ["PUSH_REPLY"; "AUTH_FAILED"; "PUSH_REQUEST"; "AUTH_PENDING"; "INFO_PRE"; "INFO"; "RESTART"; "HALT"; "EXIT"; "CR_RESPONSE"].

Definition readKM2TrailingString (packet : octets) (offset : nat) : result km_error (octets * nat) :=
  match readOpenVPNString packet offset with
  | Ok r => Ok r
  | Err StringEOF => if looksLikeFollowingTLSControl (drop offset packet) then Ok ([], offset) else Err StringEOF
  | Err e => Err e
  end.

(** ** Records *)

Definition MarshalClient (r : option KeyMethod2Record) : result km_error octets :=
  match r with
  | None => Err (KMErr "nil key method 2 record")
  | Some r =>
      let c := Client (Sources r) in
      let out := PutUint32 0 ++ [KeyMethod2] ++ PreMaster c ++ Random1 c ++ Random2 c in
      Ok (appendOpenVPNString (appendOpenVPNString (appendOpenVPNString (appendOpenVPNString out (Options r)) (Username r)) (Password r)) (PeerInfo r))
  end.

Definition ParseServerKeyMethod2RecordConsumed (packet : octets) : result km_error (KeyMethod2Record * nat) :=
  if (length packet <? 4 + 1 + keySourceRandomSize * 2)%nat then Err (KMErr "key method 2 packet too short")
  else if negb (Uint32 (take 4 packet) =? 0) then Err (KMErr "invalid key method 2 prefix")
  else if negb (Z.land (nth 4 packet 0) 15 =? KeyMethod2) then Err (KMErr "unsupported key method")
  else
    let random1 := take keySourceRandomSize (drop 5 packet) in
    let random2 := take keySourceRandomSize (drop (5 + keySourceRandomSize) packet) in
    let! (options, offset) := readOpenVPNString packet (5 + keySourceRandomSize + keySourceRandomSize) in
    let! (username, offset) := readKM2TrailingString packet offset in
    let! (password, offset) := readKM2TrailingString packet offset in
    let! (peerInfo, offset) := readKM2TrailingString packet offset in
    Ok (mkRecord (mkKeySource2 no_source (mkKeySource (PreMaster no_source) random1 random2)) options username password peerInfo, offset).
Definition ParseServerKeyMethod2Record (packet : octets) : result km_error KeyMethod2Record :=
  let! (record, _) := ParseServerKeyMethod2RecordConsumed packet in Ok record.

Definition km2StrComplete (packet : octets) (offset : nat) : bool :=
  if (length packet <? offset + 2)%nat then false
  else
    let size := Z.to_nat (Uint16 (take 2 (drop offset packet))) in
    if (size =? 0)%nat then true else (offset + 2 + size <=? length packet)%nat.
Definition next_offset (packet : octets) (offset : nat) : nat := (offset + (2 + Z.to_nat (Uint16 (take 2 (drop offset packet)))))%nat.
(** One string, then [for range 3]. *)
Fixpoint strings_complete (n : nat) (packet : octets) (offset : nat) : bool * nat :=
  match n with
  | O => (true, offset)
  | S n => if km2StrComplete packet offset then strings_complete n packet (next_offset packet offset) else (false, 0%nat)
  end.
Definition RecordComplete (packet : octets) : bool * nat :=
  if (length packet <? 4 + 1 + keySourceRandomSize * 2)%nat then (false, 0%nat)
  else if negb (Uint32 (take 4 packet) =? 0) then (false, 0%nat)
  else if negb (Z.land (nth 4 packet 0) 15 =? KeyMethod2) then (false, 0%nat)
  else strings_complete 4 packet (5 + keySourceRandomSize * 2).

(** ** Keys *)

Section keys.
Context `{UnicodeCase, Crypto, Random}.

Definition NewClientKeyMethod2Record (call : nat) (options peerInfo username password : octets) : KeyMethod2Record :=
  mkRecord (mkKeySource2 (mkKeySource (rand_Read call keySourcePreMasterSize) (rand_Read (S call) keySourceRandomSize) (rand_Read (S (S call)) keySourceRandomSize)) no_source)
    options username password peerInfo.

Definition hmacSum (d : Digest) (key data : octets) : octets := hmac d key data.
(** The loop of [pHash]; every turn adds bytes, so [size] turns are enough. *)
Fixpoint pHash_loop (fuel : nat) (d : Digest) (secret seed a out : octets) (size : nat) : octets :=
  match fuel with
  | O => out
  | S fuel => if (length out <? size)%nat then pHash_loop fuel d secret seed (hmacSum d secret a) (out ++ hmacSum d secret (a ++ seed)) size else out
  end.
Definition pHash (d : Digest) (secret seed : octets) (size : nat) : octets :=
  take size (pHash_loop size d secret seed (hmacSum d secret seed) [] size).

Definition openvpnPRF (secret : octets) (label : string) (clientSeed serverSeed clientSession serverSession : octets) (size : nat) : octets :=
  let seed := of_string label ++ clientSeed ++ serverSeed ++ clientSession ++ serverSession in
  let split := ((length secret + 1) / 2)%nat in
  let s1 := take split secret in
  let s2 := drop (length secret - split) secret in
  zip_with Z.lxor (pHash MD5 s1 seed size) (pHash SHA1 s2 seed size).

Definition DeriveClientKeyMaterial (sources : KeySource2) (clientSession serverSession : octets) (cipherKeyLen : nat) : result string KeyMaterial :=
  if negb (bool_decide (cipherKeyLen ∈ [16; 24; 32]%nat)) then Err "unsupported data cipher key length"
  else
    let master := openvpnPRF (PreMaster (Client sources)) (keyExpansionID +:+ " master secret") (Random1 (Client sources)) (Random1 (Server sources)) [] [] 48 in
    let keyBlock := openvpnPRF master (keyExpansionID +:+ " key expansion") (Random2 (Client sources)) (Random2 (Server sources)) clientSession serverSession keyBlockSize in
    let clientToServer := take (maxCipherKeyLength + maxHMACKeyLength) keyBlock in
    let serverToClient := drop (maxCipherKeyLength + maxHMACKeyLength) keyBlock in
    Ok (mkKeyMaterial (take cipherKeyLen clientToServer) (take maxHMACKeyLength (drop maxCipherKeyLength clientToServer))
                      (take cipherKeyLen serverToClient) (take maxHMACKeyLength (drop maxCipherKeyLength serverToClient))).

(** ** Ciphers by name *)

Definition CipherKeyLength (cipher : string) : nat :=
  if bool_decide (cipher ∈ ["AES-256-GCM"; "AES-256-CBC"; "CHACHA20-POLY1305"]) then 32
  else if bool_decide (cipher ∈ ["AES-192-GCM"; "AES-192-CBC"]) then 24 else 16.
Definition isSupportedCipher (cipher : string) : bool :=
  bool_decide (cipher ∈ ["AES-128-GCM"; "AES-192-GCM"; "AES-256-GCM"; "AES-128-CBC"; "AES-192-CBC"; "AES-256-CBC"; "CHACHA20-POLY1305"]).
Definition normalizeCipher (cipher : string) : string :=
  let c := ToUpper (TrimSpace cipher) in
  if String.eqb c "" then "AES-128-GCM" else if String.eqb c "AES-CBC" then "AES-128-CBC" else c.

(** The fields of the configuration that the choice reads. *)
Record CipherConfig := mkCipherConfig { Cipher : string; DataCiphers : list string; FallbackCipher : string }.
Definition NegotiateCipher (c : CipherConfig) (pushedCiphers : list string) (pushedCipher : string) : result string string :=
  if (length pushedCiphers =? 0)%nat && String.eqb pushedCipher "" then Ok (Cipher c)
  else if (0 <? length (DataCiphers c))%nat then
    let serverList := if (length pushedCiphers =? 0)%nat && negb (String.eqb pushedCipher "") then [pushedCipher] else pushedCiphers in
    match list_find (λ s, existsb (λ l, String.eqb (normalizeCipher l) (normalizeCipher s)) (DataCiphers c) = true) serverList with
    | Some (_, s) => Ok (normalizeCipher s)
    | None => if negb (String.eqb (FallbackCipher c) "") then Ok (normalizeCipher (FallbackCipher c)) else Err "no common data cipher"
    end
  else if negb (String.eqb pushedCipher "") then
    let normalized := normalizeCipher pushedCipher in
    if String.eqb normalized (Cipher c) then Ok normalized
    else if negb (String.eqb (FallbackCipher c) "") then Ok (normalizeCipher (FallbackCipher c))
    else if isSupportedCipher normalized then Ok normalized
    else Err "server pushed unsupported cipher"
  else
    match list_find (λ s, isSupportedCipher (normalizeCipher s) = true) pushedCiphers with
    | Some (_, s) => if negb (String.eqb (FallbackCipher c) "") then Ok (normalizeCipher (FallbackCipher c)) else Ok (normalizeCipher s)
    | None => Ok (Cipher c)
    end.

(** ** What the client tells about itself *)

Definition InstallScriptOptionsString (proto cipher auth compLZO : string) : string :=
  let protoName := if String.eqb proto "tcp" then "TCPv4_CLIENT" else "UDPv4" in
  let keysize := if bool_decide (cipher ∈ ["AES-256-GCM"; "AES-256-CBC"; "CHACHA20-POLY1305"]) then "256" else "128" in
  let mtu := if String.eqb compLZO "yes" then "1544" else "1550" in
  let comp := if String.eqb compLZO "yes" then "comp-lzo," else "" in
  "V4,dev-type tun,link-mtu " +:+ mtu +:+ ",tun-mtu 1500,proto " +:+ protoName +:+ "," +:+ comp +:+ "cipher " +:+ cipher +:+ ",auth " +:+ auth +:+ ",keysize " +:+ keysize +:+ ",key-method 2,tls-client".

(** [sort.Strings]. *)
Definition key_le (a b : string) : Prop := String.leb a b = true.
#[export] Instance key_le_dec a b : Decision (key_le a b).
Proof. unfold key_le. apply _. Defined.
Definition newline : string := String (byte_of 10) EmptyString.
Definition InstallScriptPeerInfo (cipher : string) (dataCiphers : list string) (compLZO : string) (peerInfo : gmap string string) : string :=
  let ivVer := default "mihomo-openvpn" (peerInfo !! "IV_VER") in
  let lzo := if String.eqb compLZO "yes" then "IV_LZO=1" +:+ newline else "" in
  let ivCiphers := match dataCiphers with [] => cipher | _ => Join (normalizeCipher <$> dataCiphers) ":" end in
  let head := "IV_VER=" +:+ ivVer +:+ newline +:+ "IV_PROTO=22" +:+ newline +:+ lzo +:+ "IV_CIPHERS=" +:+ ivCiphers +:+ newline in
  let kept key := negb (bool_decide (key ∈ ["IV_VER"; "IV_PROTO"; "IV_CIPHERS"])) && negb (String.eqb key "IV_LZO" && negb (String.eqb lzo "")) in
  let keys := merge_sort key_le (filter (λ key, kept key = true) (map_to_list peerInfo).*1) in
  foldl (λ info key, info +:+ key +:+ "=" +:+ default "" (peerInfo !! key) +:+ newline) head keys.
End keys.

(** ** The end of a record *)

Lemma str_complete_app p q o : km2StrComplete p o = true →
  (next_offset p o ≤ length p)%nat ∧ km2StrComplete (p ++ q) o = true ∧ next_offset (p ++ q) o = next_offset p o.
Proof.
  unfold km2StrComplete, next_offset. destruct (Nat.ltb_spec (length p) (o + 2)) as [|Hlen]; [done|]. intros Hc.
  assert (take 2 (drop o (p ++ q)) = take 2 (drop o p)) as Et by (rewrite drop_app_le by lia; apply take_app_le; rewrite length_drop; lia). rewrite Et. set (size := Z.to_nat _) in *.
  assert (o + (2 + size) ≤ length p)%nat as Hle by (destruct (Nat.eqb_spec size 0); [lia|apply Nat.leb_le in Hc; lia]).
  split_and!; [done| |done]. rewrite length_app, (proj2 (Nat.ltb_ge _ _)) by lia. destruct (size =? 0)%nat; [done|]. apply Nat.leb_le. lia.
Qed.

(** A packet cut before the end of the string. *)
Lemma str_complete_cut p k o : km2StrComplete p o = true →
  if decide (next_offset p o ≤ k)%nat then km2StrComplete (take k p) o = true ∧ next_offset (take k p) o = next_offset p o
  else km2StrComplete (take k p) o = false.
Proof.
  intros Hc. destruct (str_complete_app p [] o Hc) as (Hle & _). case_decide as Hk.
  - assert (take 2 (drop o (take k p)) = take 2 (drop o p)) as Et.
    { unfold next_offset in *. rewrite <- (take_drop k p) at 2. rewrite drop_app_le by (rewrite length_take; lia). symmetry. apply take_app_le. rewrite length_drop, length_take. lia. }
    unfold km2StrComplete, next_offset in *. rewrite Et. split; [|done]. rewrite length_take. rewrite (proj2 (Nat.ltb_ge _ _)) by lia. destruct (_ =? 0)%nat; [done|]. apply Nat.leb_le. lia.
  - unfold km2StrComplete. rewrite length_take. destruct (Nat.ltb_spec (k `min` length p) (o + 2)); [done|].
    assert (take 2 (drop o (take k p)) = take 2 (drop o p)) as Et.
    { unfold next_offset in *. rewrite <- (take_drop k p) at 2. rewrite drop_app_le by (rewrite length_take; lia). symmetry. apply take_app_le. rewrite length_drop, length_take. lia. }
    unfold next_offset in *. rewrite Et. set (size := Z.to_nat _) in *. destruct (Nat.eqb_spec size 0); [lia|]. apply Nat.leb_gt. lia.
Qed.

Lemma strings_complete_app n p q : ∀ o e, (o ≤ length p)%nat → strings_complete n p o = (true, e) → strings_complete n (p ++ q) o = (true, e) ∧ (o ≤ e ≤ length p)%nat.
Proof.
  induction n as [|n IH]; intros o e Ho; cbn [strings_complete]; [intros [= <-]; split; [done|lia]|]. destruct (km2StrComplete p o) eqn:Ec; [|done]. destruct (str_complete_app p q o Ec) as (Hle & -> & ->).
  intros He. destruct (IH _ _ Hle He) as [-> Hb]. split; [done|]. unfold next_offset in Hb. lia.
Qed.
Lemma strings_complete_cut n p k : ∀ o e, (o ≤ length p)%nat → strings_complete n p o = (true, e) → (o ≤ k)%nat → (k < e)%nat → strings_complete n (take k p) o = (false, 0%nat).
Proof.
  induction n as [|n IH]; intros o e Ho; cbn [strings_complete]; [intros [= <-]; lia|]. destruct (km2StrComplete p o) eqn:Ec; [|done]. intros He Hk Hke. pose proof (str_complete_cut p k o Ec) as Hcut. destruct (str_complete_app p [] o Ec) as (Hle & _).
  case_decide as Hd; [|by rewrite Hcut]. destruct Hcut as [-> ->]. by apply (IH _ e).
Qed.

Lemma read_complete p o : km2StrComplete p o = true → ∃ s, readOpenVPNString p o = Ok (s, next_offset p o) ∧ readKM2TrailingString p o = Ok (s, next_offset p o).
Proof.
  unfold readKM2TrailingString, readOpenVPNString, km2StrComplete, next_offset. destruct (length p <? o + 2)%nat; [done|]. set (size := Z.to_nat _). destruct (Nat.eqb_spec size 0) as [->|].
  - intros _. exists []. by rewrite Nat.add_0_r.
  - intros Hle%Nat.leb_le. rewrite (proj2 (Nat.ltb_ge _ _)) by done. rewrite Nat.add_assoc. by eexists.
Qed.

(** Where a record ends does not depend on how much of the stream was read: when the
    code finds a record complete, it ends within what was read, it is found at the same
    place when more follows, it is not found complete when any of its bytes are missing,
    and the parser takes it to the same end. *)
Theorem record_boundary p n : RecordComplete p = (true, n) →
  (n ≤ length p)%nat ∧ (∀ q, RecordComplete (p ++ q) = (true, n)) ∧ (∀ k, (k < n)%nat → RecordComplete (take k p) = (false, 0%nat))
  ∧ ∃ r, ParseServerKeyMethod2RecordConsumed p = Ok (r, n).
Proof.
  unfold RecordComplete. destruct (Nat.ltb_spec (length p) (4 + 1 + keySourceRandomSize * 2)) as [|Hlen]; [done|]. unfold keySourceRandomSize in Hlen.
  assert (∀ q, (5 ≤ length q)%nat → take 5 q = take 5 p → Uint32 (take 4 q) = Uint32 (take 4 p) ∧ nth 4 q 0 = nth 4 p 0) as Hhead.
  { intros q Hq Hqp. do 5 (destruct q as [|? q]; [cbn in Hq; lia|]). do 5 (destruct p as [|? p]; [cbn in Hlen; lia|]). cbn in Hqp. by injection Hqp as -> -> -> -> ->. }
  destruct (Uint32 (take 4 p) =? 0) eqn:E1; [|done]. destruct (Z.land (nth 4 p 0) 15 =? KeyMethod2) eqn:E2; [|done]. cbn [negb]. intros He.
  set (o := (5 + keySourceRandomSize * 2)%nat) in *. assert (o ≤ length p)%nat as Ho by (unfold o, keySourceRandomSize; lia). destruct (strings_complete_app 4 p [] o n Ho He) as [_ [Hon Hn]].
  split_and!; [done| | |].
  - intros q. destruct (Hhead (p ++ q)) as [-> ->]; [rewrite length_app; lia|apply take_app_le; lia|]. rewrite E1, E2. cbn [negb]. rewrite (proj2 (Nat.ltb_ge _ _)) by (rewrite length_app; unfold keySourceRandomSize; lia). by apply (strings_complete_app 4 p q o n).
  - intros k Hk. rewrite length_take. destruct (Nat.ltb_spec (k `min` length p) (4 + 1 + keySourceRandomSize * 2)) as [|Hk2]; [done|]. unfold keySourceRandomSize in Hk2. destruct (Hhead (take k p)) as [-> ->]; [rewrite length_take; lia|by rewrite take_take, Nat.min_l by lia|].
    rewrite E1, E2. cbn [negb]. apply (strings_complete_cut 4 p k o n); try done. unfold o, keySourceRandomSize. lia.
  - unfold ParseServerKeyMethod2RecordConsumed. rewrite (proj2 (Nat.ltb_ge _ _)) by (unfold keySourceRandomSize; lia). rewrite E1, E2. cbn [negb]. change (5 + keySourceRandomSize + keySourceRandomSize)%nat with o.
    cbn [strings_complete] in He. destruct (km2StrComplete p o) eqn:C1; [|done]. destruct (read_complete p o C1) as (s1 & -> & _). set (o2 := next_offset p o) in *.
    destruct (km2StrComplete p o2) eqn:C2; [|done]. destruct (read_complete p o2 C2) as (s2 & _ & ->). set (o3 := next_offset p o2) in *.
    destruct (km2StrComplete p o3) eqn:C3; [|done]. destruct (read_complete p o3 C3) as (s3 & _ & ->). set (o4 := next_offset p o3) in *.
    destruct (km2StrComplete p o4) eqn:C4; [|done]. destruct (read_complete p o4 C4) as (s4 & _ & ->). injection He as <-. by eexists.
Qed.

Definition demo_record : octets := PutUint32 0 ++ [2] ++ seqZ 0 32 ++ seqZ 32 32 ++ appendOpenVPNString [] (of_string "V4,tls-server") ++ PutUint16 0 ++ PutUint16 0 ++ appendOpenVPNString [] (of_string "IV=1").
Lemma record_boundary_witness :
  (96 ≤ length demo_record)%nat ∧ (∀ q, RecordComplete (demo_record ++ q) = (true, 96%nat)) ∧ (∀ k, (k < 96)%nat → RecordComplete (take k demo_record) = (false, 0%nat))
  ∧ ∃ r, ParseServerKeyMethod2RecordConsumed demo_record = Ok (r, 96%nat).
Proof. apply (record_boundary demo_record 96). vm_compute. reflexivity. Defined.

(** ** Strings are read as written *)

Lemma string_roundtrip pre s rest : (length s ≤ Z.to_nat 65534)%nat →
  readOpenVPNString (appendOpenVPNString pre s ++ rest) (length pre) = Ok (s, length (appendOpenVPNString pre s)).
Proof.
  intros Hs. unfold appendOpenVPNString. destruct s as [|x s'].
  - unfold readOpenVPNString. rewrite <- app_assoc, drop_app_length. rewrite !length_app. rewrite (proj2 (Nat.ltb_ge _ _)) by (cbn; lia). done.
  - set (s := x :: s') in *. set (n := Z.of_nat (length s)). assert (0 < length s)%nat as Hpos by (cbn; lia). rewrite (proj2 (Z.ltb_ge 65535 (n + 1))) by lia. rewrite (wrap_small 16) by (unfold unsigned_ok; lia).
    unfold readOpenVPNString. rewrite <- !app_assoc, drop_app_length, <- drop_drop, drop_app_length. rewrite (take_app_length' (PutUint16 _)), (drop_app_length' (PutUint16 _)) by done.
    fold n. assert (Uint16 (PutUint16 (n + 1)) = n + 1) as -> by (apply uint16_put; lia). rewrite !length_app. change (length (PutUint16 (n + 1))) with 2%nat. cbn [length app]. rewrite !(proj2 (Nat.ltb_ge _ _)) by lia. rewrite (proj2 (Nat.eqb_neq _ _)) by lia.
    replace (Z.to_nat (n + 1)) with (length s + 1)%nat by lia. change (0 :: rest) with ([0] ++ rest). rewrite (app_assoc s [0] rest). rewrite (take_app_length' (s ++ [0])) by (by rewrite length_app). replace (length s + 1 - 1)%nat with (length s) by lia. rewrite nth_middle, take_app_length. do 2 f_equal. lia.
Qed.

(** ** Derived keys have the sizes that the ciphers need *)

Section fit.
Context `{C : Crypto, !CryptoLaws}.

Lemma pHash_loop_length d secret seed size fuel : ∀ a out, (size `min` (length out + fuel) ≤ length (pHash_loop fuel d secret seed a out size))%nat.
Proof.
  induction fuel as [|fuel IH]; intros a out; cbn [pHash_loop]; [lia|]. destruct (Nat.ltb_spec (length out) size); [|lia]. etrans; [|apply IH]. rewrite length_app. unfold hmacSum. rewrite hmac_length. destruct d; cbn; lia.
Qed.
Lemma pHash_length d secret seed size : length (pHash d secret seed size) = size.
Proof. unfold pHash. rewrite length_take. pose proof (pHash_loop_length d secret seed size size (hmacSum d secret seed) []). cbn in *. lia. Qed.
Lemma prf_length secret label a b c d size : length (openvpnPRF secret label a b c d size) = size.
Proof. unfold openvpnPRF. rewrite length_zip_with, !pHash_length. lia. Qed.

Lemma supported_kinds cipher : isSupportedCipher cipher = true →
  (isDataChannelAEAD cipher = true ∧ ∀ key, aes_key_ok key = true → length key = CipherKeyLength cipher → ∃ kind, newDataChannelAEAD cipher key = Ok kind) ∨
  (isDataChannelAEAD cipher = false ∧ ∀ key, aes_key_ok key = true → newDataChannelCBC cipher key = Ok ()).
Proof.
  intros Hc. unfold isSupportedCipher in Hc. apply bool_decide_eq_true in Hc. set_unfold in Hc.
  destruct Hc as [->|[->|[->|[->|[->|[->|[->|[]]]]]]]].
  1-3: left; split; [reflexivity|]; intros key Hk _; exists GCM; unfold newDataChannelAEAD; rewrite Hk; reflexivity.
  1-3: right; split; [reflexivity|]; intros key Hk; unfold newDataChannelCBC; rewrite Hk; reflexivity.
  left. split; [reflexivity|]. intros key _ Hl. exists ChaCha20Poly1305. unfold newDataChannelAEAD. rewrite Hl. reflexivity.
Qed.

(** Every cipher that the configuration accepts gets a data channel from the keys that are
    derived for it. *)
Theorem derived_keys_fit sources clientSession serverSession cipher auth peerID keyID :
  isSupportedCipher cipher = true → auth ∈ ["MD5"; "SHA1"; "SHA256"; "SHA384"; "SHA512"] →
  ∃ keys d, DeriveClientKeyMaterial sources clientSession serverSession (CipherKeyLength cipher) = Ok keys ∧ NewDataChannel (Some keys) cipher auth peerID keyID = Ok d.
Proof.
  intros Hc Ha. unfold DeriveClientKeyMaterial. set (block := openvpnPRF _ _ _ _ _ _ keyBlockSize). assert (length block = 256%nat) as Hb by apply prf_length.
  assert (CipherKeyLength cipher ∈ [16; 24; 32]%nat) as Hlen by (unfold CipherKeyLength; repeat case_bool_decide; set_solver). rewrite bool_decide_eq_true_2 by done. cbn [negb].
  set (n := CipherKeyLength cipher) in *. assert (n ≤ 32)%nat as Hn by (set_unfold; lia).
  set (keys := mkKeyMaterial _ _ _ _). assert (length (SendCipherKey keys) = n ∧ length (RecvCipherKey keys) = n ∧ length (SendHMACKey keys) = 64%nat ∧ length (RecvHMACKey keys) = 64%nat) as (L1 & L2 & L3 & L4).
  { unfold keys, maxCipherKeyLength, maxHMACKeyLength. cbn [SendCipherKey RecvCipherKey SendHMACKey RecvHMACKey]. rewrite !length_take, !length_drop, !length_take, Hb. lia. }
  exists keys. cut (∃ d, NewDataChannel (Some keys) cipher auth peerID keyID = Ok d); [intros [d Hd]; by exists d|].
  clearbody keys. assert (aes_key_ok (SendCipherKey keys) = true ∧ aes_key_ok (RecvCipherKey keys) = true) as [A1 A2] by (unfold aes_key_ok; rewrite L1, L2; by rewrite !bool_decide_eq_true_2).
  assert (∃ h, newDataChannelAuth auth = Ok h) as [h Hh] by (set_unfold in Ha; destruct Ha as [->|[->|[->|[->|[->|[]]]]]]; eexists; reflexivity).
  assert (Size h ≤ 64)%nat by (destruct h; cbn; lia). destruct (supported_kinds cipher Hc) as [[E K]|[E K]]; unfold NewDataChannel; rewrite E.
  - destruct (K _ A1 L1) as [k1 ->], (K _ A2 L2) as [k2 ->]. rewrite !(proj2 (Nat.ltb_ge _ _)) by (rewrite ?L3, ?L4; unfold DataChannelIVSize; lia). cbn [orb]. eauto.
  - rewrite (K _ A1), (K _ A2), Hh. rewrite !(proj2 (Nat.ltb_ge _ _)) by lia. cbn [orb]. eauto.
Qed.
End fit.

(** ** Observations *)

(** A server that pushes no cipher does not negotiate; then the fallback cipher is not used. *)
Example fallback_unused_without_push :
  @NegotiateCipher ascii_case (mkCipherConfig "AES-128-GCM" ["AES-256-GCM"] "AES-256-CBC") [] "" = Ok "AES-128-GCM"%string.
Proof. reflexivity. Qed.
(** With a list of its own, the client refuses the one cipher that is pushed although it is
    the configured one. *)
Example configured_cipher_is_refused :
  @NegotiateCipher ascii_case (mkCipherConfig "AES-256-CBC" ["AES-128-GCM"] "") [] "AES-256-CBC" = Err "no common data cipher"%string.
Proof. reflexivity. Qed.
(** The options announce 128 bits for a cipher whose key has 192. *)
Example keysize_of_192 :
  InstallScriptOptionsString "udp" "AES-192-CBC" "SHA1" "" =
    "V4,dev-type tun,link-mtu 1550,tun-mtu 1500,proto UDPv4,cipher AES-192-CBC,auth SHA1,keysize 128,key-method 2,tls-client"%string
  ∧ CipherKeyLength "AES-192-CBC" = 24%nat.
Proof. split; reflexivity. Qed.
(** A record without the strings that may be omitted is taken as incomplete. *)
Example record_without_strings :
  ParseServerKeyMethod2RecordConsumed (take 86 demo_record) = Err StringEOF.
Proof. vm_compute. reflexivity. Qed.
