(* ===== verification/OpenVpnText.v ===== *)
(** * [transport/openvpn]: push replies and static keys

    [push.go], and from [config.go] the static key and the names that are normalized.  The
    fields of a push reply that [client.go] fills later are left out. *)

From Stdlib Require Import ZArith Lia Ascii.
From stdpp Require Import base strings numbers sets list.
From S2P Require Import Prelude GoStrings GoNet GoNetText GoIO OpenVpnPacket OpenVpnData.
#[local] Open Scope Z_scope.

(** ** The standard library *)

(** [strings.Fields]: words between spaces. *)
Fixpoint fields_from (fuel : nat) (s word : string) : list string :=
  let flush := match word with EmptyString => [] | _ => [string_rev word] end in
  match fuel, s with
  | S fuel, String c t =>
      match leading_space s with
      | O => fields_from fuel t (String c word)
      | n => flush ++ fields_from fuel (drop_bytes n s) EmptyString
      end
  | _, _ => flush
  end.
Definition Fields (s : string) : list string := fields_from (String.length s) s EmptyString.

(** [encoding/base64]: six bits per letter; [padded] is [StdEncoding], otherwise [RawStdEncoding]. *)
Definition base64_val (c : ascii) : option Z :=
  let v := byte_val c in
  if (65 <=? v) && (v <=? 90) then Some (v - 65)
  else if (97 <=? v) && (v <=? 122) then Some (v - 71)
  else if (48 <=? v) && (v <=? 57) then Some (v + 4)
  else if v =? 43 then Some 62 else if v =? 47 then Some 63 else None.
Definition is_pad (c : ascii) : bool := byte_val c =? 61.
Definition bytes3 (a b c d : Z) : octets :=
  let v := a * 262144 + b * 4096 + c * 64 + d in [v `div` 65536; (v `div` 256) `mod` 256; v `mod` 256].
Fixpoint base64_quanta (padded : bool) (l : list ascii) : option octets :=
  match l with
  | [] => Some []
  | a :: b :: c :: d :: rest =>
      match base64_val a, base64_val b, base64_val c, base64_val d with
      | Some a, Some b, Some c, Some d => option_map (λ out, bytes3 a b c d ++ out) (base64_quanta padded rest)
      | Some a, Some b, Some c, None => if padded && is_pad d && bool_decide (rest = []) then Some (take 2 (bytes3 a b c 0)) else None
      | Some a, Some b, None, None => if padded && is_pad c && is_pad d && bool_decide (rest = []) then Some (take 1 (bytes3 a b 0 0)) else None
      | _, _, _, _ => None
      end
  | [a; b; c] => if padded then None else
      match base64_val a, base64_val b, base64_val c with Some a, Some b, Some c => Some (take 2 (bytes3 a b c 0)) | _, _, _ => None end
  | [a; b] => if padded then None else
      match base64_val a, base64_val b with Some a, Some b => Some (take 1 (bytes3 a b 0 0)) | _, _ => None end
  | _ => None
  end.
Definition base64_DecodeString (padded : bool) (s : string) : option octets :=
  base64_quanta padded (List.filter (λ c, negb ((byte_val c =? 10) || (byte_val c =? 13))) (bytes s)).

(** [hex.DecodeString]. *)
Fixpoint hex_pairs (l : list ascii) : option octets :=
  match l with
  | [] => Some []
  | a :: b :: rest =>
      match hex_val a, hex_val b with Some x, Some y => option_map (λ out, (16 * x + y) :: out) (hex_pairs rest) | _, _ => None end
  | _ => None
  end.
Definition hex_DecodeString (s : string) : option octets := hex_pairs (bytes s).

(** ** Push replies *)

Record PushReply := mkPushReply {
  Raw : string;
  Prefixes : list Prefix;
  Routes : list Prefix;
  DNS : list Addr;
  PeerID : Z;
  Redirect : bool;
  BlockIPv6 : bool;
  DataCiphers : list string;
  Cipher : string;
  AuthTokenUser : string;
  AuthTokenPass : string;
  PushContinuation : Z;
}.

Definition is_nul (c : ascii) : bool := byte_val c =? 0.
Definition splitPushOptions (message : string) : list string :=
  let parts := Split (trim_right is_nul message) ","%char in
  let parts := match parts with p :: rest => if String.eqb p "PUSH_REPLY" then rest else parts | [] => [] end in
  List.filter (λ p, negb (String.eqb p "")) (TrimSpace <$> parts).

(** The bits of the four bytes, the highest first. *)
Fixpoint mask_bits (l : list bool) (ones : Z) (seenZero : bool) : option Z :=
  match l with
  | [] => Some ones
  | false :: l => mask_bits l ones true
  | true :: l => if seenZero then None else mask_bits l (ones + 1) seenZero
  end.
Definition addr_bits (v : Z) : list bool := (λ i, Z.testbit v (31 - Z.of_nat i)) <$> seq 0 32.
Definition ipv4MaskSize (mask : Z) : option Z := mask_bits (addr_bits mask) 0 false.

Definition parseIPv4Ifconfig (address maskOrPeer : string) : result string Prefix :=
  match ParseAddr address, ParseAddr maskOrPeer with
  | None, _ => Err "parse pushed ipv4 address"
  | _, None => Err "parse pushed ipv4 mask"
  | Some (V4 a), Some (V4 m) => match ipv4MaskSize m with Some ones => Ok (mkPrefix (V4 a) ones) | None => Ok (mkPrefix (V4 a) 32) end
  | _, _ => Err "openvpn ifconfig requires ipv4 address and mask"
  end.
Definition parseIPv4Route (network mask : string) : result string Prefix :=
  match ParseAddr network, ParseAddr mask with
  | None, _ => Err "parse route network"
  | _, None => Err "parse route mask"
  | Some (V4 a), Some (V4 m) => match ipv4MaskSize m with Some ones => Ok (mkPrefix (V4 a) ones) | None => Err "invalid route mask" end
  | _, _ => Err "openvpn route requires ipv4 address and mask"
  end.

Definition decodeBase64Auth (raw : string) : result string string :=
  match base64_DecodeString true raw with
  | Some data => Ok (to_string data)
  | None => match base64_DecodeString false raw with Some data => Ok (to_string data) | None => Err "illegal base64 data" end
  end.
Definition decodeAuthTokenUser (raw : string) : result string string := decodeBase64Auth (TrimSpace raw).

Definition with_prefix (r : PushReply) (p : Prefix) := mkPushReply (Raw r) (Prefixes r ++ [p]) (Routes r) (DNS r) (PeerID r) (Redirect r) (BlockIPv6 r) (DataCiphers r) (Cipher r) (AuthTokenUser r) (AuthTokenPass r) (PushContinuation r).
Definition with_route (r : PushReply) (p : Prefix) := mkPushReply (Raw r) (Prefixes r) (Routes r ++ [p]) (DNS r) (PeerID r) (Redirect r) (BlockIPv6 r) (DataCiphers r) (Cipher r) (AuthTokenUser r) (AuthTokenPass r) (PushContinuation r).
Definition with_dns (r : PushReply) (a : Addr) := mkPushReply (Raw r) (Prefixes r) (Routes r) (DNS r ++ [a]) (PeerID r) (Redirect r) (BlockIPv6 r) (DataCiphers r) (Cipher r) (AuthTokenUser r) (AuthTokenPass r) (PushContinuation r).
Definition with_peer (r : PushReply) (id : Z) := mkPushReply (Raw r) (Prefixes r) (Routes r) (DNS r) id (Redirect r) (BlockIPv6 r) (DataCiphers r) (Cipher r) (AuthTokenUser r) (AuthTokenPass r) (PushContinuation r).
Definition with_flags (r : PushReply) (redirect block : bool) := mkPushReply (Raw r) (Prefixes r) (Routes r) (DNS r) (PeerID r) redirect block (DataCiphers r) (Cipher r) (AuthTokenUser r) (AuthTokenPass r) (PushContinuation r).
Definition with_ciphers (r : PushReply) (l : list string) (c : string) := mkPushReply (Raw r) (Prefixes r) (Routes r) (DNS r) (PeerID r) (Redirect r) (BlockIPv6 r) l c (AuthTokenUser r) (AuthTokenPass r) (PushContinuation r).
Definition with_token (r : PushReply) (user pass : string) := mkPushReply (Raw r) (Prefixes r) (Routes r) (DNS r) (PeerID r) (Redirect r) (BlockIPv6 r) (DataCiphers r) (Cipher r) user pass (PushContinuation r).
Definition with_continuation (r : PushReply) (n : Z) := mkPushReply (Raw r) (Prefixes r) (Routes r) (DNS r) (PeerID r) (Redirect r) (BlockIPv6 r) (DataCiphers r) (Cipher r) (AuthTokenUser r) (AuthTokenPass r) n.

(** The body of the loop: one option, by its fields. *)
Definition push_option (reply : PushReply) (fields : list string) : result string PushReply :=
  let arg i := nth i fields ""%string in
  let n := length fields in
  match fields with
  | [] => Ok reply
  | name :: _ =>
      let named s := String.eqb name s in
      if named "ifconfig"%string then
        if (3 <=? n)%nat then let! p := parseIPv4Ifconfig (arg 1%nat) (arg 2%nat) in Ok (with_prefix reply p) else Ok reply
      else if named "ifconfig-ipv6"%string then
        if (2 <=? n)%nat then match ParsePrefix (arg 1%nat) with Some p => Ok (with_prefix reply p) | None => Err "parse pushed ipv6 address" end else Ok reply
      else if named "route"%string then
        if (3 <=? n)%nat then match parseIPv4Route (arg 1%nat) (arg 2%nat) with Ok p => Ok (with_route reply p) | Err _ => Ok reply end else Ok reply
      else if named "route-ipv6"%string then
        if (2 <=? n)%nat then match ParsePrefix (arg 1%nat) with Some p => Ok (with_route reply p) | None => Ok reply end else Ok reply
      else if named "dhcp-option"%string then
        if (3 <=? n)%nat && String.eqb (arg 1%nat) "DNS" then match ParseAddr (arg 2%nat) with Some a => Ok (with_dns reply a) | None => Ok reply end else Ok reply
      else if named "peer-id"%string then
        if (2 <=? n)%nat then match ParseUint (arg 1%nat) 24 with Some id => Ok (with_peer reply id) | None => Err "parse pushed peer-id" end else Ok reply
      else if named "redirect-gateway"%string then Ok (with_flags reply true (BlockIPv6 reply))
      else if named "block-ipv6"%string then Ok (with_flags reply (Redirect reply) true)
      else if named "data-ciphers"%string || named "ncp-ciphers"%string then
        if (2 <=? n)%nat then Ok (with_ciphers reply (DataCiphers reply ++ List.filter (λ c, negb (String.eqb c "")) (TrimSpace <$> Split (arg 1%nat) ":"%char)) (Cipher reply)) else Ok reply
      else if named "cipher"%string then
        if (2 <=? n)%nat then Ok (with_ciphers reply (DataCiphers reply) (TrimSpace (arg 1%nat))) else Ok reply
      else if named "auth-token"%string then
        if (2 <=? n)%nat then Ok (with_token reply (AuthTokenUser reply) (TrimSpace (arg 1%nat))) else Ok reply
      else if named "auth-token-user"%string then
        if (2 <=? n)%nat then let! user := decodeAuthTokenUser (arg 1%nat) in Ok (with_token reply user (AuthTokenPass reply)) else Ok reply
      else if named "push-continuation"%string then
        if negb (n =? 2)%nat then Err "invalid push-continuation"
        else match ParseInt (arg 1%nat) 64 with
             | Some k => if (k <? 0) || (2 <? k) then Err "invalid push-continuation" else Ok (with_continuation reply k)
             | None => Err "invalid push-continuation"
             end
      else Ok reply
  end.
Fixpoint push_options (reply : PushReply) (options : list string) : result string PushReply :=
  match options with
  | [] => Ok reply
  | o :: options => let! reply := push_option reply (Fields o) in push_options reply options
  end.

Definition parsePushReplyInner (message : string) : result string PushReply :=
  let message := trim_right is_nul message in
  if negb (HasPrefix message "PUSH_REPLY") then Err "unexpected openvpn push message"
  else push_options (mkPushReply message [] [] [] PeerIDUnset false false [] "" "" "" 0) (splitPushOptions message).
Definition ParsePushReply (message : string) : result string PushReply :=
  let! reply := parsePushReplyInner message in
  if (length (Prefixes reply) =? 0)%nat then Err "openvpn push reply missing ifconfig address" else Ok reply.
Definition AuthToken (p : option PushReply) : string * string * bool :=
  match p with
  | Some p => if String.eqb (AuthTokenPass p) "" then ("", "", false)%string else (AuthTokenUser p, AuthTokenPass p, true)
  | None => ("", "", false)%string
  end.

(** ** Static keys *)

Definition newline_char : ascii := byte_of 10.
Definition DecodeStaticKey (block : string) : result string octets :=
  let lines := TrimSpace <$> Split block newline_char in
  let hexLines := List.filter (λ line,
    negb (String.eqb line "" || HasPrefix line "#")
    && negb (HasPrefix line "-----BEGIN OpenVPN Static key" || HasPrefix line "-----END OpenVPN Static key")) lines in
  match hex_DecodeString (Join hexLines "") with
  | None => Err "encoding/hex: invalid input"
  | Some key => if negb (length key =? 256)%nat then Err "invalid static key length" else Ok key
  end.

Section names.
Context `{UnicodeCase}.
Definition normalizeProto (proto : string) : string :=
  let p := ToLower (TrimSpace proto) in
  if bool_decide (p ∈ [""; "udp"; "udp4"]%string) then "udp"
  else if bool_decide (p ∈ ["tcp"; "tcp-client"; "tcp4"; "tcp4-client"]%string) then "tcp" else p.
Definition normalizeCompLZO (compLZO : string) : string :=
  let c := ToLower (TrimSpace compLZO) in
  if bool_decide (c ∈ ["yes"; "adaptive"]%string) then "yes" else c.
End names.

(** ** Net masks *)

Lemma mask_bits_zeros l : ∀ ones, mask_bits l ones true = if bool_decide (Forall (λ b, b = false) l) then Some ones else None.
Proof.
  induction l as [|[] l IH]; intros ones; cbn [mask_bits]; [done| |].
  - rewrite bool_decide_eq_false_2; [done|]. by inversion 1.
  - rewrite IH. case_bool_decide as H1; case_bool_decide as H2; try done; exfalso; [apply H2; by constructor|apply H1; by inversion H2].
Qed.
Lemma mask_bits_spec l : ∀ ones n, mask_bits l ones false = Some n → ∃ k, (k ≤ length l)%nat ∧ n = ones + Z.of_nat k ∧ l = replicate k true ++ replicate (length l - k) false.
Proof.
  induction l as [|[] l IH]; intros ones n; cbn [mask_bits].
  - intros [= <-]. exists 0%nat. cbn. split_and!; [lia|lia|done].
  - intros Hm. destruct (IH _ _ Hm) as (k & Hk & -> & Hl). exists (S k). cbn [length replicate app]. split_and!; [lia|lia|]. f_equal. done.
  - rewrite mask_bits_zeros. case_bool_decide as Hz; [|done]. intros [= <-]. exists 0%nat. cbn [length replicate app Nat.sub]. split_and!; [lia|lia|]. f_equal. symmetry. apply replicate_as_Forall_2; [done|]. eapply list.Forall_impl; [done|]. by intros ? ->.
Qed.

Lemma addr_bits_inj u v : 0 ≤ u < 2 ^ 32 → 0 ≤ v < 2 ^ 32 → addr_bits u = addr_bits v → u = v.
Proof.
  intros Hu Hv He. apply Z.bits_inj'. intros i Hi. destruct (Z.lt_ge_cases i 32) as [Hlt|Hge].
  - assert (addr_bits u !! Z.to_nat (31 - i) = addr_bits v !! Z.to_nat (31 - i)) as Hb by (by rewrite He). unfold addr_bits in Hb. rewrite !list_lookup_fmap, lookup_seq_lt in Hb by lia. cbn in Hb. injection Hb as Hb.
    replace (31 - Z.of_nat (Z.to_nat (31 - i))) with i in Hb by lia. done.
  - assert (∀ x, 0 ≤ x < 2 ^ 32 → Z.testbit x i = false) as Hz; [|by rewrite !Hz].
    intros x Hx. destruct (Z.eq_dec x 0) as [->|]; [apply Z.testbit_0_l|]. apply Z.bits_above_log2; [lia|]. apply Z.log2_lt_pow2; [lia|]. eapply Z.lt_le_trans; [apply Hx|]. apply Z.pow_le_mono_r; lia.
Qed.

Definition netmask (n : Z) : Z := 2 ^ 32 - 2 ^ (32 - n).

(** The size of a pushed net mask: it is [n] exactly for the mask of [n] ones, and every
    other address has none. *)
Theorem mask_size_exact v n : 0 ≤ v < 2 ^ 32 → ipv4MaskSize v = Some n ↔ 0 ≤ n ≤ 32 ∧ v = netmask n.
Proof.
  intros Hv. assert (Forall (λ k, addr_bits (netmask (Z.of_nat k)) = replicate k true ++ replicate (32 - k) false ∧ 0 ≤ netmask (Z.of_nat k) < 2 ^ 32 ∧ ipv4MaskSize (netmask (Z.of_nat k)) = Some (Z.of_nat k)) (seq 0 33)) as Hall.
  { apply list.Forall_forall. intros k Hk. apply elem_of_seq in Hk. do 33 (destruct k as [|k]; [vm_compute; split_and!; congruence|]). lia. }
  rewrite list.Forall_forall in Hall. split.
  - intros Hs. destruct (mask_bits_spec _ _ _ Hs) as (k & Hk & -> & Hb). change (length (addr_bits v)) with 32%nat in *. destruct (Hall k) as (Hm & Hr & _); [apply elem_of_seq; lia|]. rewrite Z.add_0_l. split; [lia|].
    apply addr_bits_inj; [done|done|]. by rewrite Hb, Hm.
  - intros [Hn ->]. destruct (Hall (Z.to_nat n)) as (_ & _ & Hs); [apply elem_of_seq; lia|]. by rewrite Z2Nat.id in Hs by lia.
Qed.

(** ** Static keys are read as they are printed *)

Definition hex_byte (b : Z) : string := String (hex_digit (b `div` 16)) (String (hex_digit (b `mod` 16)) EmptyString).
Definition hex_line (l : octets) : string := foldr (λ b s, hex_byte b +:+ s) EmptyString l.
(** The file that [openvpn --genkey] writes: a line before, the key in lines, a line after. *)
Definition key_file (lines : list octets) : string :=
  Join (["-----BEGIN OpenVPN Static key V1-----"%string] ++ (hex_line <$> lines) ++ ["-----END OpenVPN Static key V1-----"%string]) (String newline_char EmptyString).

Lemma hex_line_cons b l : hex_line (b :: l) = String (hex_digit (b `div` 16)) (String (hex_digit (b `mod` 16)) (hex_line l)).
Proof. done. Qed.
Definition hex_ok (c : ascii) : bool := bool_decide (is_Some (hex_val c)).
Lemma hex_digit_ok d : 0 ≤ d < 16 → hex_val (hex_digit d) = Some d.
Proof.
  intros Hd. assert (Forall (λ d, hex_val (hex_digit d) = Some d) (seqZ 0 16)) as Hall by (repeat constructor). rewrite list.Forall_forall in Hall. apply Hall, elem_of_seqZ. lia.
Qed.
Lemma hex_line_ok l : Forall (λ b, 0 ≤ b < 256) l → str_all hex_ok (hex_line l) = true.
Proof.
  induction 1 as [|b l Hb Hl IH]; [done|]. rewrite hex_line_cons. cbn [str_all]. rewrite IH. unfold hex_ok. rewrite !hex_digit_ok; [done|pose proof (Z.mod_pos_bound b 16); lia|]. split; [apply Z.div_pos; lia|apply Z.div_lt_upper_bound; lia].
Qed.
Lemma hex_line_decode l : Forall (λ b, 0 ≤ b < 256) l → ∀ rest, hex_pairs (bytes (hex_line l) ++ rest) = option_map (λ out, l ++ out) (hex_pairs rest).
Proof.
  induction 1 as [|b l Hb Hl IH]; intros rest; [cbn; by destruct (hex_pairs rest)|]. rewrite hex_line_cons. cbn [bytes app hex_pairs]. rewrite !hex_digit_ok by (first [pose proof (Z.mod_pos_bound b 16); lia|split; [apply Z.div_pos; lia|apply Z.div_lt_upper_bound; lia]]).
  rewrite IH. destruct (hex_pairs rest); [|done]. cbn. do 2 f_equal. rewrite <- Z.div_mod by lia. done.
Qed.
Lemma hex_all c : hex_ok c = true → graphic c = true ∧ bool_decide (c = newline_char) = false ∧ bool_decide (c = "#"%char) = false ∧ bool_decide (c = "-"%char) = false.
Proof. destruct c as [[] [] [] [] [] [] [] []]; vm_compute; done. Qed.

Lemma hex_line_kept l : l ≠ [] → Forall (λ b, 0 ≤ b < 256) l →
  TrimSpace (hex_line l) = hex_line l ∧
  (negb (String.eqb (hex_line l) "" || HasPrefix (hex_line l) "#") && negb (HasPrefix (hex_line l) "-----BEGIN OpenVPN Static key" || HasPrefix (hex_line l) "-----END OpenVPN Static key")) = true.
Proof.
  intros Hn Hl. pose proof (hex_line_ok l Hl) as Hok. split; [apply TrimSpace_graphic; eapply str_all_impl; [|done]; intros c Hc; by apply hex_all|].
  destruct l as [|b l]; [done|]. rewrite hex_line_cons in *. cbn [str_all] in Hok. apply andb_true_iff in Hok as [Hc _]. destruct (hex_all _ Hc) as (_ & _ & H1 & H2). cbn [HasPrefix String.eqb orb].
  rewrite !(bool_decide_ext (_ = hex_digit _) (hex_digit (b `div` 16) = _)) by (split; done). by rewrite H1, H2.
Qed.

Lemma bytes_cat s t : bytes (s +:+ t) = bytes s ++ bytes t.
Proof. induction s as [|c s IH]; [done|]. change (String c s +:+ t) with (String c (s +:+ t)). cbn [bytes app]. by rewrite IH. Qed.
Lemma join_decode lines : Forall (Forall (λ b, 0 ≤ b < 256)) lines → hex_pairs (bytes (Join (hex_line <$> lines) "")) = Some (concat lines).
Proof.
  induction 1 as [|l lines Hl Hls IH]; [done|]. destruct lines as [|l' lines].
  - cbn [fmap list_fmap Join concat]. rewrite <- (app_nil_r (bytes (hex_line l))). by rewrite hex_line_decode.
  - change (Join (hex_line <$> l :: l' :: lines) "") with (hex_line l +:+ (EmptyString +:+ Join (hex_line <$> l' :: lines) "")). change (EmptyString +:+ ?x) with x. rewrite bytes_cat, hex_line_decode by done. by rewrite IH.
Qed.

(** A static key is read from the file it was printed to, however its bytes are put in
    lines; the key then serves for [--tls-auth] and [--tls-crypt]. *)
Theorem static_key_roundtrip lines : Forall (λ l, l ≠ [] ∧ Forall (λ b, 0 ≤ b < 256) l) lines → length (concat lines) = 256%nat → DecodeStaticKey (key_file lines) = Ok (concat lines).
Proof.
  intros Hl Hlen. unfold DecodeStaticKey, key_file. rewrite Split_Join; [|done|]; last first.
  { apply Forall_app. split; [by apply Forall_singleton|]. apply Forall_app. split; [|by apply Forall_singleton]. apply Forall_fmap. eapply list.Forall_impl; [done|]. intros l [_ Hb]. cbn. eapply str_all_impl; [|by apply hex_line_ok]. intros c Hc. by destruct (hex_all c Hc) as (_ & -> & _). }
  rewrite !fmap_app. set (keep := λ line, _). rewrite !List.filter_app. change (List.filter keep (TrimSpace <$> ["-----BEGIN OpenVPN Static key V1-----"%string])) with (@nil string). change (List.filter keep (TrimSpace <$> ["-----END OpenVPN Static key V1-----"%string])) with (@nil string). rewrite app_nil_r, app_nil_l.
  assert (List.filter keep (TrimSpace <$> (hex_line <$> lines)) = hex_line <$> lines) as ->.
  { clear Hlen. induction Hl as [|l lines [Hn Hb] Hls IH]; [done|]. cbn [fmap list_fmap List.filter]. destruct (hex_line_kept l Hn Hb) as [-> Hk]. change (keep (hex_line l)) with (negb (String.eqb (hex_line l) "" || HasPrefix (hex_line l) "#") && negb (HasPrefix (hex_line l) "-----BEGIN OpenVPN Static key" || HasPrefix (hex_line l) "-----END OpenVPN Static key")). rewrite Hk. by f_equal. }
  unfold hex_DecodeString. rewrite join_decode by (eapply list.Forall_impl; [done|]; by intros l [_ ?]). by rewrite Hlen.
Qed.

Lemma static_key_roundtrip_witness : DecodeStaticKey (key_file (replicate 16 (seqZ 0 16))) = Ok (concat (replicate 16 (seqZ 0 16))).
Proof.
  apply static_key_roundtrip; [|reflexivity]. apply Forall_replicate. split; [done|]. apply list.Forall_forall. intros b Hb. apply elem_of_seqZ in Hb. lia.
Defined.

Example push_reply_example :
  ParsePushReply "PUSH_REPLY,route 10.8.0.0 255.255.255.0,ifconfig 10.8.0.6 10.8.0.5, peer-id 3,data-ciphers AES-256-GCM:AES-128-GCM,auth-token-user dXNlcg==,auth-token t0"
  = Ok (mkPushReply "PUSH_REPLY,route 10.8.0.0 255.255.255.0,ifconfig 10.8.0.6 10.8.0.5, peer-id 3,data-ciphers AES-256-GCM:AES-128-GCM,auth-token-user dXNlcg==,auth-token t0"
          [mkPrefix (V4 168296454) 32] [mkPrefix (V4 168296448) 24] [] 3 false false ["AES-256-GCM"; "AES-128-GCM"]%string "" "user" "t0" 0).
Proof. vm_compute. reflexivity. Qed.
