(* ===== verification/DnsMessage.v ===== *)
(** * [dns/util.go], [dns/upstream_answer.go], [dns/direct_negative.go], [dns/edns0_subnet.go]: messages and their times to live

    What the resolver does with a message of a name server: the addresses in it, the
    deadline under which it is cached, the times to live of the copies that are served
    from the cache, the client subnet of a request.  Times are in nanoseconds, times to
    live are 32 bits wide.  A copy of a message is the message. *)

From Stdlib Require Import ZArith Lia.
From stdpp Require Import base strings numbers gmap list.
From S2P Require Import Prelude GoStrings GoNet DevCache DnsHandler.
#[local] Open Scope string_scope.
#[local] Open Scope list_scope.
#[local] Open Scope Z_scope.

Definition TypeNS : Z := 2.
Definition TypeSOA : Z := 6.
Definition TypeTXT : Z := 16.
Definition RcodeServerFailure : Z := 2.
Definition RcodeRefused : Z := 5.
Definition EDNS0SUBNET : Z := 8.
Definition second : Z := 1000000000.

(** What is used of [github.com/samber/lo]: the least element of a slice (none of an empty one), and a number forced
    between two bounds. *)
Class Lo := { MinBy : list RR → (RR → RR → bool) → option RR; Clamp : Z → Z → Z → Z }.
Class LoLaws `{Lo} : Prop := {
  MinBy_empty f : MinBy [] f = None;
  MinBy_least l (key : RR → Z) : l ≠ [] → ∃ r, MinBy l (λ a b, key a <? key b) = Some r ∧ r ∈ l ∧ ∀ x, x ∈ l → key r <= key x;
  Clamp_within v lo hi : lo <= hi → Clamp v lo hi = Z.max lo (Z.min v hi);
}.

(** ** Addresses *)

Definition record_ip (r : RR) : option Addr :=
  match rr_data r with
  | DAAAA ip | DA ip => ip ← AddrFromSlice ip; if IsValid ip then Some (Unmap ip) else None
  | _ => None
  end.
Definition msgToIP (m : Msg) : list Addr := omap record_ip (Answer m).

Definition msgToDomain (m : Msg) : string := match Questions m with q :: _ => trim_right is_dot (q_name q) | [] => "" end.

(** [m] may be nil. *)
Definition msgToAddressIPs (m : option Msg) (qType : Z) : list Addr :=
  match m with
  | Some m =>
      if negb (Rcode m =? RcodeSuccess) then []
      else omap (λ ip, if ((qType =? TypeA) && Is4 (Unmap ip)) || ((qType =? TypeAAAA) && Is6 ip && negb (Is4In6 ip))
                       then Some (Unmap ip) else None) (msgToIP m)
  | None => []
  end.

Definition hasUpstreamFakeIP (IsFakeIP : Addr → bool) (m : option Msg) : bool :=
  match m with Some m => existsb IsFakeIP (msgToIP m) | None => false end.

(** ** Times to live *)

Section ttl.
Context `{Lo}.

Definition minimalTTL (records : list RR) : Z :=
  match MinBy records (λ r1 r2, rr_ttl r1 <? rr_ttl r2) with Some rr => rr_ttl rr | None => 0 end.

Definition updateTTL (records : list RR) (ttl : Z) : list RR :=
  match records with
  | [] => []
  | _ => let delta := wrap 32 (minimalTTL records - ttl) in
         (λ r, set_ttl r (Clamp (wrap 32 (rr_ttl r - delta)) 1 (rr_ttl r))) <$> records
  end.

Definition updateMsgTTL (m : Msg) (ttl : Z) : Msg :=
  set_sections m (updateTTL (Answer m) ttl) (updateTTL (Ns m) ttl) (updateTTL (Extra m) ttl).

Definition negativeCacheTTL : Z := 30.

(** The message to keep and its refresh deadline, the zero time for one that is not cached. *)
Definition prepareCachedMessage (now : Z) (q : Question) (m : Msg) : Msg * Z :=
  if (q_type q =? TypeTXT) && HasPrefix (q_name q) "_acme-challenge." then (m, zeroTime)
  else
    let m := set_sections m (Answer m) (Ns m) (filter (λ r, rr_type r ≠ TypeOPT) (Extra m)) in
    let ttl := minimalTTL (Answer m ++ Ns m ++ Extra m) in
    let ttl := if (length (Answer m) =? 0)%nat && (ttl <? negativeCacheTTL) then negativeCacheTTL else ttl in
    (m, now + ttl * second).

(** The loop over the authority section: the first SOA record decides. *)
Fixpoint negative_ttl (ns : list RR) : Z :=
  match ns with
  | [] => negativeCacheTTL
  | r :: ns => match rr_data r with DSOA minttl => Z.min (rr_ttl r) minttl | _ => negative_ttl ns end
  end.

(** Two readings of the clock: one for the deadline of an answer with addresses, one for the deadline of another. *)
Definition prepareDirectCachedMessage (now1 now2 : Z) (q : Question) (m : Msg) : Msg * Z :=
  let '(stored, due) := prepareCachedMessage now1 q m in
  match msgToAddressIPs (Some stored) (q_type q) with
  | _ :: _ => (stored, due)
  | [] => let ttl := negative_ttl (Ns stored) in
          let ttl := match Answer stored with [] => ttl | _ => Z.min ttl (minimalTTL (Answer stored)) end in
          (stored, now2 + ttl * second)
  end.

(** [time.Until], a 64-bit duration that does not wrap around. *)
Definition Until (now due : Z) : Z := Z.max (- 2 ^ 63) (Z.min (2 ^ 63 - 1) (due - now)).

(** The clock is read to see whether the deadline has passed, and again for the time that is left. *)
Definition cachedReply (now1 now2 : Z) (m : Msg) (due : Z) (request : Msg) : Msg :=
  let m := set_question m (Id request) (Questions request) in
  if due =? zeroTime then m
  else if due <=? now1 then setMsgTTL m 3
  else updateMsgTTL m (wrap 32 (Z.max 1 (Until now2 due ÷ second))).
End ttl.

(** ** The client subnet *)

Definition is_subnet (o : EDNS0) : bool := match o with EDNS0_SUBNET _ _ _ _ _ => true | OtherOption _ => false end.

(** The loop [findExists] over the additional section: the positions held by [optRecord] and [subnetOption] when it ends.
    A record that is not an OPT record sets [optRecord] to nil again. *)
Fixpoint findExists (extra : list RR) (i : nat) (optRecord : option nat) : option nat * option nat :=
  match extra with
  | [] => (optRecord, None)
  | r :: extra =>
      match rr_data r with
      | DOPT options => match list_find is_subnet options with
                        | Some (j, _) => (Some i, Some j)
                        | None => findExists extra (S i) (Some i)
                        end
      | _ => findExists extra (S i) None
      end
  end.

Definition empty_subnet : EDNS0 := EDNS0_SUBNET 0 0 0 0 [].
Definition opt_record : RR := mkRR "." TypeOPT 0 0 (DOPT []).

(** The option for a prefix; the scope is the one the option had. *)
Definition subnet_of (clientSubnet : Prefix) (o : EDNS0) : EDNS0 :=
  EDNS0_SUBNET EDNS0SUBNET (if Is4 (paddr clientSubnet) then 1 else 2) (wrap 8 (pbits clientSubnet))
    (match o with EDNS0_SUBNET _ _ _ scope _ => scope | OtherOption _ => 0 end) (AsSlice (paddr clientSubnet)).

Definition on_options (f : list EDNS0 → list EDNS0) (r : RR) : RR :=
  match rr_data r with DOPT options => mkRR (rr_name r) (rr_type r) (rr_class r) (rr_ttl r) (DOPT (f options)) | _ => r end.

Definition setEdns0Subnet (m : Msg) (clientSubnet : Prefix) (override : bool) : Msg * bool :=
  let '(optRecord, subnetOption) := findExists (Extra m) 0 None in
  match subnetOption, override with
  | Some _, false => (m, false)
  | _, _ =>
      let '(extra, i) := match optRecord with
                         | Some i => (Extra m, i)
                         | None => (Extra m ++ [opt_record], length (Extra m))
                         end in
      let put options := match subnetOption with
                         | Some j => alter (subnet_of clientSubnet) j options
                         | None => options ++ [subnet_of clientSubnet empty_subnet]
                         end in
      (set_sections m (Answer m) (Ns m) (alter (on_options put) i extra), true)
  end.

(** ** Served answers do not outlive the records they are made of *)

Section ttl_theory.
Context `{LoLaws}.
Implicit Types (r : RR) (l : list RR) (m : Msg).

Lemma minimalTTL_le l r : r ∈ l → minimalTTL l <= rr_ttl r.
Proof.
  intros Hr. assert (l ≠ []) as Hl by (intros ->; by apply elem_of_nil in Hr). unfold minimalTTL.
  destruct (MinBy_least l rr_ttl Hl) as (x & -> & _ & Hx). by apply Hx.
Qed.

Lemma minimalTTL_in l : l ≠ [] → ∃ r, r ∈ l ∧ minimalTTL l = rr_ttl r.
Proof. intros Hl. unfold minimalTTL. destruct (MinBy_least l rr_ttl Hl) as (x & -> & ? & _). by exists x. Qed.

Lemma minimalTTL_mono l l' : l ≠ [] → l ⊆ l' → minimalTTL l' <= minimalTTL l.
Proof. intros Hl Hs. destruct (minimalTTL_in l Hl) as (r & Hr & ->). by apply minimalTTL_le, Hs. Qed.

(** The records keep their distance to the first one to expire. *)
Lemma updateTTL_spec l ttl :
  Forall (λ r, rr_ttl r < 2 ^ 32) l → 1 <= ttl → (l ≠ [] → ttl <= minimalTTL l) →
  updateTTL l ttl = (λ r, set_ttl r (rr_ttl r - (minimalTTL l - ttl))) <$> l.
Proof.
  intros Hl Ht Hm. destruct (decide (l = [])) as [->|Hne]; [done|]. specialize (Hm Hne).
  replace (updateTTL l ttl) with ((λ r, set_ttl r (Clamp (wrap 32 (rr_ttl r - wrap 32 (minimalTTL l - ttl))) 1 (rr_ttl r))) <$> l) by (by destruct l).
  apply list_fmap_ext. intros i r Hi. apply list_elem_of_lookup_2 in Hi as Hr. f_equal.
  pose proof (minimalTTL_le l r Hr) as Hle. pose proof (proj1 (list.Forall_forall _ _) Hl r Hr) as Hlt. cbn beta in Hlt.
  unfold wrap. rewrite (Z.mod_small (minimalTTL l - ttl)), Z.mod_small by lia. rewrite Clamp_within by lia. lia.
Qed.

(** A record [r] received at [t0] and the record served in its place at [t]. *)
Definition served_as (t0 t : Z) r r' : Prop :=
  r' = set_ttl r (rr_ttl r') ∧ 1 <= rr_ttl r' <= rr_ttl r ∧ t + rr_ttl r' * second <= t0 + rr_ttl r * second + second.

Lemma until_seconds now1 now2 due ttl :
  now1 <= now2 -> now1 < due → due - now1 <= ttl * second → 1 <= ttl < 2 ^ 32 →
  let rem := Z.max 1 (Until now2 due ÷ second) in 1 <= rem <= ttl ∧ now1 + rem * second <= due + second.
Proof.
  intros H12 H1 Hd Ht. unfold Until, second in *. cbn zeta.
  assert (due - now2 ≤ 0 ∨ 0 < due - now2) as [Hn|Hp] by lia.
  - assert (Z.max (- 2 ^ 63) (Z.min (2 ^ 63 - 1) (due - now2)) ÷ 1000000000 <= 0) as Hq; [|lia].
    apply Z.opp_nonneg_nonpos. rewrite <- Z.quot_opp_l by lia. apply Z.quot_pos; lia.
  - replace (Z.max (- 2 ^ 63) (Z.min (2 ^ 63 - 1) (due - now2))) with (due - now2) by lia.
    rewrite Z.quot_div_nonneg by lia. pose proof (Z.div_mod (due - now2) 1000000000 ltac:(lia)) as E. pose proof (Z.mod_pos_bound (due - now2) 1000000000 ltac:(lia)). lia.
Qed.

Lemma updateTTL_served t0 t M l ttl :
  Forall (λ r, rr_ttl r < 2 ^ 32) l → 1 <= ttl <= M → (l ≠ [] → M <= minimalTTL l) → t + ttl * second <= t0 + M * second + second →
  Forall2 (served_as t0 t) l (updateTTL l ttl).
Proof.
  intros Hl Ht HM Hb. rewrite updateTTL_spec; [|done|lia|intros Hne; specialize (HM Hne); lia].
  apply list.Forall2_fmap_r, Forall_Forall2_diag, list.Forall_forall. intros r Hr. unfold served_as. cbn [rr_ttl set_ttl].
  pose proof (minimalTTL_le l r Hr). assert (l ≠ []) as Hne by (intros ->; by apply elem_of_nil in Hr). specialize (HM Hne). unfold second in *. split; [done|]. cbn [rr_ttl set_ttl]. lia.
Qed.

Lemma prepareCachedMessage_cases now q m m' due :
  prepareCachedMessage now q m = (m', due) → due ≠ zeroTime → Answer m' ≠ [] →
  let l := Answer m' ++ Ns m' ++ Extra m' in due = now + minimalTTL l * second ∧ l ⊆ Answer m ++ Ns m ++ Extra m ∧ Forall (λ r, rr_type r ≠ TypeOPT) (Extra m').
Proof.
  unfold prepareCachedMessage. case_match; [by intros [= _ <-]|]. intros [= <- <-] _ Ha. cbn [Answer Ns Extra set_sections] in *. cbn zeta.
  replace (length (Answer m) =? 0)%nat with false by (by destruct (Answer m)). cbn [andb]. split; [done|]. split; [|apply list.Forall_forall; by intros r [? _]%list_elem_of_filter].
  intros r. rewrite !elem_of_app, list_elem_of_filter. naive_solver.
Qed.
End ttl_theory.


(** ** The client subnet reaches the request *)

(** A client subnet in a section. *)
Definition asks_subnet (p : Prefix) (extra : list RR) : Prop :=
  ∃ r options scope, r ∈ extra ∧ rr_data r = DOPT options ∧
    EDNS0_SUBNET EDNS0SUBNET (if Is4 (paddr p) then 1 else 2) (wrap 8 (pbits p)) scope (AsSlice (paddr p)) ∈ options.

Lemma findExists_spec extra : ∀ i optRecord o s,
  findExists extra i optRecord = (o, s) → (∀ k, optRecord = Some k → (k < i)%nat) →
  (o = optRecord ∨ o = None ∨ ∃ k r options, o = Some (i + k)%nat ∧ extra !! k = Some r ∧ rr_data r = DOPT options ∧
    ∀ j, s = Some j → ∃ x, options !! j = Some x ∧ is_subnet x = true) ∧ (o = optRecord ∨ o = None → s = None).
Proof.
  induction extra as [|r extra IH]; intros i optRecord o s; cbn [findExists]; [intros [= <- <-]; naive_solver|].
  assert (∀ opt, findExists extra (S i) opt = (o, s) → opt = None ∨ opt = Some i ∧ (∃ options, rr_data r = DOPT options) → (∀ k, optRecord = Some k → (k < i)%nat) →
    (o = optRecord ∨ o = None ∨ ∃ k r0 options, o = Some (i + k)%nat ∧ (r :: extra) !! k = Some r0 ∧ rr_data r0 = DOPT options ∧
    ∀ j, s = Some j → ∃ x, options !! j = Some x ∧ is_subnet x = true) ∧ (o = optRecord ∨ o = None → s = None)) as Hstep.
  { intros opt E Hopt Hk. destruct (IH (S i) opt o s E) as [[->|[->|(k & r0 & options & -> & Hl & Hd & Hj)]] Hs].
    - intros k ->. destruct Hopt as [|[[= ->] _]]; [done|lia].
    - destruct Hopt as [->|[-> [options Hd]]]; [naive_solver|]. assert (s = None) as -> by naive_solver. split; [|done]. right; right. exists 0%nat, r, options. by rewrite Nat.add_0_r.
    - assert (s = None) as -> by naive_solver. naive_solver.
    - split; [right; right; exists (S k), r0, options; by rewrite <- Nat.add_succ_comm|]. intros [E'|]; [|done]. specialize (Hk _ (eq_sym E')). lia. }
  destruct (rr_data r) as [| | | | | |options|] eqn:Ed; try (intros E Hk; apply (Hstep None E); [by left|done]).
  destruct (list_find is_subnet options) as [[j x]|] eqn:Ef; [|intros E Hk; apply (Hstep (Some i) E); [right; eauto|done]].
  intros [= <- <-] Hk. apply list_find_Some in Ef as (Hl & Hx & _). split.
  - right; right. exists 0%nat, r, options. rewrite Nat.add_0_r. split; [done|]. split; [done|]. split; [done|]. intros ? [= <-]. exists x. split; [done|]. by apply Is_true_true.
  - intros [E|]; [|done]. specialize (Hk _ (eq_sym E)). lia.
Qed.

Lemma subnet_put p (options : list EDNS0) (j : nat) o scope_of :
  options !! j = Some o → is_subnet o = true → scope_of = match o with EDNS0_SUBNET _ _ _ s _ => s | OtherOption _ => 0 end →
  EDNS0_SUBNET EDNS0SUBNET (if Is4 (paddr p) then 1 else 2) (wrap 8 (pbits p)) scope_of (AsSlice (paddr p)) ∈ alter (subnet_of p) j options.
Proof. intros Hl _ ->. apply list_elem_of_lookup. exists j. rewrite list_lookup_alter_eq, Hl. done. Qed.

(** A request that is sent with a client subnet carries it, for the prefix that was configured, and is otherwise unchanged;
    it is left alone only where it had a client subnet that is not to be overridden. *)
Theorem edns0_subnet_set m p override m' changed :
  setEdns0Subnet m p override = (m', changed) →
  (changed = true → asks_subnet p (Extra m')) ∧ (changed = false → m' = m ∧ override = false ∧ (findExists (Extra m) 0 None).2 ≠ None) ∧
  m' = set_sections m (Answer m) (Ns m) (Extra m').
Proof.
  unfold setEdns0Subnet. destruct (findExists (Extra m) 0 None) as [o s] eqn:E.
  destruct (findExists_spec (Extra m) 0 None o s E) as [Ho Hs]; [done|].
  assert (m = set_sections m (Answer m) (Ns m) (Extra m)) as Hm by (by destruct m).
  destruct (decide (is_Some s ∧ override = false)) as [[[j ->] ->]|Hn]; [intros [= <- <-]; naive_solver|].
  assert (o = None ∧ s = None ∨ ∃ k r options, o = Some k ∧ Extra m !! k = Some r ∧ rr_data r = DOPT options ∧
    ∀ j, s = Some j → ∃ x, options !! j = Some x ∧ is_subnet x = true) as Ho' by (destruct Ho as [->|[->|(k & r & os & -> & ?)]]; [naive_solver..|right; exists k, r, os; naive_solver]).
  clear Ho Hs E. intros Hset.
  assert (∃ extra i r options, (match o with Some i => (Extra m, i) | None => (Extra m ++ [opt_record], length (Extra m)) end) = (extra, i) ∧
    extra !! i = Some r ∧ rr_data r = DOPT options ∧ ∀ j, s = Some j → ∃ x, options !! j = Some x ∧ is_subnet x = true) as (extra & i & r & options & E & Hl & Hd & Hj).
  { destruct Ho' as [[-> ->]|(k & r & os & -> & ? & ? & ?)]; [|by exists (Extra m), k, r, os]. exists (Extra m ++ [opt_record]), (length (Extra m)), opt_record, [].
    split; [done|]. split; [|done]. rewrite lookup_app_r by lia. by rewrite Nat.sub_diag. }
  rewrite E in Hset.
  assert ((set_sections m (Answer m) (Ns m) (alter (on_options (λ options, match s with
      | Some j => alter (subnet_of p) j options | None => options ++ [subnet_of p empty_subnet] end)) i extra), true) = (m', changed)) as [= <- <-].
  { destruct s; [|done]. destruct override; [done|]. exfalso. apply Hn. by split; [eexists|]. }
  split; [|by cbn [Extra set_sections]]. intros _. cbn [Extra set_sections].
  destruct s as [j|]; [destruct (Hj j eq_refl) as (x & Hx & Hsub)|];
    (eexists (on_options _ r), _, _; split; [apply list_elem_of_lookup; exists i; rewrite list_lookup_alter_eq, Hl; done|]; unfold on_options; rewrite Hd; split; [done|]).
  - by eapply subnet_put.
  - apply elem_of_app. right. apply list_elem_of_singleton. done.
Qed.

(** A record after the OPT record of a request makes the loop forget that record: the request gets a second one, which a
    message must not have. *)
Theorem edns0_second_opt m p r x options :
  Extra m = [r; x] → rr_data r = DOPT options → existsb is_subnet options = false → rr_data x = DOther →
  ∃ r', (setEdns0Subnet m p false).1 = set_sections m (Answer m) (Ns m) [r; x; r'] ∧ rr_type r' = TypeOPT.
Proof.
  intros He Hr Ho Hx. unfold setEdns0Subnet. rewrite He. cbn [findExists]. rewrite Hr.
  assert (list_find is_subnet options = None) as ->.
  { apply list_find_None, list.Forall_forall. intros o Hin Hs. apply Is_true_true in Hs. apply not_true_iff_false in Ho. apply Ho, existsb_exists. exists o. by rewrite <- list_elem_of_In. }
  rewrite Hx. eexists. split; [reflexivity|done].
Qed.

(** ** Witnesses *)

Section witnesses.
#[local] Instance demo_lo : Lo := {|
  MinBy l f := match l with [] => None | r :: l => Some (fold_left (λ m x, if f x m then x else m) l r) end;
  Clamp v lo hi := if v <? lo then lo else if hi <? v then hi else v;
|}.
#[local] Instance demo_lo_laws : LoLaws.
Proof.
  split; [done| |intros v lo hi ?; cbn; destruct (Z.ltb_spec v lo); [lia|]; destruct (Z.ltb_spec hi v); lia].
  intros [|r l] key Hl; [done|]. clear Hl. cbn [MinBy demo_lo]. eexists. split; [reflexivity|]. revert r.
  induction l as [|x l IH]; intros r; cbn [fold_left]; [split; [by left|]; intros y [->|Hy]%elem_of_cons; [lia|by apply elem_of_nil in Hy]|].
  destruct (Z.ltb_spec (key x) (key r)) as [Hlt|Hge].
  - destruct (IH x) as [Hin Hmin]. split; [by right|]. intros y [->|Hy]%elem_of_cons; [|by apply Hmin]. specialize (Hmin x ltac:(by left)). lia.
  - destruct (IH r) as [Hin Hmin]. split; [apply elem_of_cons in Hin as [E|Hin]; [rewrite E; by left|by right; right]|].
    intros y [->|[->|Hy]%elem_of_cons]%elem_of_cons; [apply Hmin; by left| |apply Hmin; by right]. specialize (Hmin r ltac:(by left)). lia.
Qed.

Definition demo_answer : Msg :=
  set_sections (set_question empty_msg 9 [mkQuestion "a.org." TypeA ClassINET])
    [mkRR "a.org." TypeCNAME ClassINET 300 (DCNAME "b.org."); mkRR "b.org." TypeA ClassINET 60 (DA [192; 0; 2; 1])] [] [opt_record].

End witnesses.
