(* ===== verification/DnsClients.v ===== *)
(** * [dns/util.go], [dns/rcode.go], [common/picker/picker.go], [dns/resolver.go]: clients of name servers and their races

    A client is a transport, a fixed return code, or a wrapper around a client.  What a
    server answers is a function of the transport and the request.  A client may answer
    with the request it was given: an answer is the request itself or a message of its
    own ([ref]), and an exchange gives the request back as it leaves it.  The goroutines
    of a race take effect in the order in which they come back, one order per race.
    [None] is a panic. *)

From Stdlib Require Import ZArith Lia.
From stdpp Require Import base strings numbers gmap list.
From S2P Require Import Prelude GoStrings GoNet GoNetText DnsHandler DnsMessage.
#[local] Open Scope string_scope.
#[local] Open Scope list_scope.
#[local] Open Scope Z_scope.

(** ** Name servers *)

(** A proxy adapter is known by its identity. *)
Record NameServer := mkNameServer {
  Net : string; NsAddr : string; ProxyAdapter : option nat; ProxyName : string; Params : gmap string string; PreferH3 : bool;
}.

Definition NameServer_Equal (ns ns2 : NameServer) : bool :=
  bool_decide (Net ns = Net ns2) && bool_decide (NsAddr ns = NsAddr ns2) && bool_decide (ProxyAdapter ns = ProxyAdapter ns2) &&
  bool_decide (ProxyName ns = ProxyName ns2) && bool_decide (Params ns = Params ns2) && Bool.eqb (PreferH3 ns) (PreferH3 ns2).

Definition isDisableTypesParam (key : string) : bool :=
  bool_decide (key = "disable-ipv4") || bool_decide (key = "disable-ipv6") || HasPrefix key "disable-qtype-".
Definition isEdns0SubnetParam (key : string) : bool := bool_decide (key = "ecs") || bool_decide (key = "ecs-override").
Definition isWrapperOnlyParam (key : string) : bool := isDisableTypesParam key || isEdns0SubnetParam key.

Definition paramsEqual (a b : gmap string string) : bool :=
  forallb (λ kv, isWrapperOnlyParam kv.1 || bool_decide (b !! kv.1 = Some kv.2)) (map_to_list a).

Definition transportEqual (ns ns2 : NameServer) : bool :=
  bool_decide (Net ns = Net ns2) && bool_decide (NsAddr ns = NsAddr ns2) && bool_decide (ProxyAdapter ns = ProxyAdapter ns2) &&
  bool_decide (ProxyName ns = ProxyName ns2) && Bool.eqb (PreferH3 ns) (PreferH3 ns2) &&
  paramsEqual (Params ns) (Params ns2) && paramsEqual (Params ns2) (Params ns).

(** ** Clients *)

(** [Transport id ns]: the [id]-th client that was made for a server, with the configuration it was made from. *)
Inductive dnsClient :=
| rcodeClient (rcode : Z)
| Transport (id : nat) (ns : NameServer)
| clientWithDisableTypes (c : dnsClient) (disableTypes : gset Z)
| clientWithEdns0Subnet (c : dnsClient) (ecsPrefix : Prefix) (ecsAuto ecsOverride : bool).

Definition newRCodeClient (addr : string) : option dnsClient :=
  if bool_decide (addr = "success") then Some (rcodeClient 0)
  else if bool_decide (addr = "format_error") then Some (rcodeClient 1)
  else if bool_decide (addr = "server_failure") then Some (rcodeClient RcodeServerFailure)
  else if bool_decide (addr = "name_error") then Some (rcodeClient RcodeNameError)
  else if bool_decide (addr = "not_implemented") then Some (rcodeClient 4)
  else if bool_decide (addr = "refused") then Some (rcodeClient RcodeRefused)
  else None.

Fixpoint unwrap (c : dnsClient) : dnsClient :=
  match c with clientWithDisableTypes c _ | clientWithEdns0Subnet c _ _ _ => unwrap c | _ => c end.

Section clients.
Context (TypeToRR : Z → bool).

Definition param (params : gmap string string) (key : string) : string := default "" (params !! key).

(** What one parameter adds to the disabled types. *)
Definition disabled_qtype (kv : string * string) : option Z :=
  if HasPrefix kv.1 "disable-qtype-" && bool_decide (kv.2 = "true") then
    qType ← ParseUint (drop_bytes (String.length "disable-qtype-") kv.1) 16;
    if TypeToRR qType then Some qType else None
  else None.

Definition disabled_types (params : gmap string string) : gset Z :=
  (if bool_decide (param params "disable-ipv4" = "true") then {[TypeA]} else ∅) ∪
  (if bool_decide (param params "disable-ipv6" = "true") then {[TypeAAAA]} else ∅) ∪
  list_to_set (omap disabled_qtype (map_to_list params)).

Definition wrapClientWithDisableTypes (c : dnsClient) (params : gmap string string) : dnsClient :=
  let types := disabled_types params in if bool_decide (types = ∅) then c else clientWithDisableTypes c types.

Definition zero_prefix : Prefix := mkPrefix NoAddr 0.

(** The prefix of the parameter [ecs], and whether it is to be discovered. *)
Definition ecs_param (value : string) : option Prefix * bool :=
  if bool_decide (value = "") then (None, false)
  else if bool_decide (value = "auto") then (None, true)
  else match ParsePrefix value with
       | Some prefix => (Some prefix, false)
       | None => match ParseAddr value with Some addr => (Some (mkPrefix (WithoutZone addr) (BitLen addr)), false) | None => (None, false) end
       end.

Definition wrapClientWithEdns0Subnet (c : dnsClient) (params : gmap string string) : dnsClient :=
  let '(ecsPrefix, ecsAuto) := ecs_param (param params "ecs") in
  if ecsAuto || bool_decide (is_Some ecsPrefix)
  then clientWithEdns0Subnet c (default zero_prefix ecsPrefix) ecsAuto (bool_decide (param params "ecs-override" = "true"))
  else c.

Definition rewrapClient (c : dnsClient) (params : gmap string string) : dnsClient :=
  wrapClientWithDisableTypes (wrapClientWithEdns0Subnet (unwrap c) params) params.

(** One server; [id] is the identity of a transport made for it. *)
Definition raw_client (id : nat) (s : NameServer) : option dnsClient :=
  if bool_decide (Net s = "rcode") then newRCodeClient (NsAddr s) else Some (Transport id s).
Definition transform1 (id : nat) (s : NameServer) : option dnsClient := c ← raw_client id s; Some (rewrapClient c (Params s)).

Fixpoint transform (id : nat) (servers : list NameServer) : option (list dnsClient) :=
  match servers with
  | [] => Some []
  | s :: servers => c ← transform1 id s; l ← transform (S id) servers; Some (c :: l)
  end.

(** ** Shared transports: [cacheTransform] of [NewResolver] *)

(** The scan of [nameServerCache]: the client of an equal server, or the first one that can be wrapped again. *)
Fixpoint scan (cache : list (NameServer * dnsClient)) (ns : NameServer) (dc : option dnsClient) : dnsClient + option dnsClient :=
  match cache with
  | [] => inr dc
  | (s, c) :: cache =>
      if NameServer_Equal s ns then inl c
      else scan cache ns (match dc with None => if transportEqual s ns then Some c else None | Some _ => dc end)
  end.

Definition cacheTransform1 (cache : list (NameServer * dnsClient)) (ns : NameServer) : option (list (NameServer * dnsClient) * dnsClient) :=
  match scan cache ns None with
  | inl c => Some (cache, c)
  | inr dc =>
      dc ← match dc with Some dc => Some (rewrapClient dc (Params ns)) | None => transform1 (length cache) ns end;
      Some (cache ++ [(ns, dc)], dc)
  end.

Fixpoint cacheTransform (cache : list (NameServer * dnsClient)) (nameserver : list NameServer) : option (list (NameServer * dnsClient) * list dnsClient) :=
  match nameserver with
  | [] => Some (cache, [])
  | ns :: nameserver =>
      '(cache, c) ← cacheTransform1 cache ns;
      '(cache, l) ← cacheTransform cache nameserver;
      Some (cache, c :: l)
  end.
End clients.

(** ** Exchanges *)

Inductive dnsError :=
| NetError (n : nat)
| errUpstreamFakeIP
| ServerFailed (rcode : Z)
| AllFailed (first : option dnsError)
| Unusable
| OneQuestion
| ErrIPNotFound
| ErrIPVersion
| CacheError (n : nat)
| Cancelled.

(** An answer: the request, or a message of its own. *)
Inductive ref := Request | Own (m : Msg).
Definition deref (request : Msg) (r : ref) : Msg := match r with Request => request | Own m => m end.

(** [github.com/metacubex/mihomo/component/ecs]: the prefixes of the addresses of this machine, as far as they are known. *)
Record ecsState := mkEcs { prefix4 : option Prefix; prefix6 : option Prefix }.
Definition ecs_Prefix (e : ecsState) (ipv4 : bool) : option Prefix :=
  let '(primary, secondary) := if ipv4 then (prefix4 e, prefix6 e) else (prefix6 e, prefix4 e) in
  match primary with Some p => Some p | None => secondary end.

Definition set_rcode (m : Msg) (rcode : Z) : Msg :=
  mkMsg (Id m) rcode (Authoritative m) (RecursionAvailable m) (AuthenticatedData m) (Questions m) (Answer m) (Ns m) (Extra m) true (Truncated m).

Definition without (types : gset Z) (m : Msg) : Msg :=
  let keep := filter (λ r, rr_type r ∉ types) in set_sections m (keep (Answer m)) (keep (Ns m)) (keep (Extra m)).

Section exchange.
Context `{DnsLib} (net : nat → NameServer → Msg → option Msg * option dnsError) (ecs : ecsState).

(** The request as it is left, with the answer and the error. *)
Definition exchanged : Type := Msg * (option ref * option dnsError).

Fixpoint ExchangeContext (c : dnsClient) (m : Msg) : option exchanged :=
  match c with
  | rcodeClient rcode => Some (set_rcode m rcode, (Some Request, None))
  | Transport id ns => let '(a, err) := net id ns m in Some (m, (option_map Own a, err))
  | clientWithDisableTypes c types =>
      if existsb (λ q, bool_decide (q_type q ∈ types)) (Questions m) then Some (m, (Some (Own (handleMsgWithEmptyAnswer m)), None))
      else
        '(m, (a, err)) ← ExchangeContext c m;
        match err, a with
        | Some _, _ => Some (m, (a, err))
        | None, None => None
        | None, Some Request => Some (without types m, (Some Request, None))
        | None, Some (Own x) => Some (m, (Some (Own (without types x)), None))
        end
  | clientWithEdns0Subnet c ecsPrefix ecsAuto ecsOverride =>
      let ipv4 := match Questions m with q :: _ => negb (q_type q =? TypeAAAA) | [] => true end in
      let send prefix :=
        '(m', (a, err)) ← ExchangeContext c (setEdns0Subnet m prefix ecsOverride).1;
        Some (m, (option_map (λ r, Own (deref m' r)) a, err)) in
      if ecsAuto then match ecs_Prefix ecs ipv4 with None => ExchangeContext c m | Some p => send p end
      else send ecsPrefix
  end.

(** [ctxErr]: the error of the context, if it is over. *)
Context (IsFakeIP : Addr → bool) (ctxErr : option dnsError).

Definition normalizeDNSExchangeError (err : option dnsError) : option dnsError :=
  match err, ctxErr with Some _, Some e => Some e | _, _ => err end.

Definition exchangeDiagnostic (c : dnsClient) (m : Msg) : option exchanged :=
  '(m, (a, err)) ← ExchangeContext c m;
  let err := normalizeDNSExchangeError err in
  if negb (bool_decide (is_Some err)) && hasUpstreamFakeIP IsFakeIP (option_map (deref m) a) then Some (m, (None, Some errUpstreamFakeIP))
  else Some (m, (a, err)).
End exchange.

(** ** [common/picker] *)

Section picker.
Context {T E : Type}.

(** The result and the error, each written once; [cancelled] when the context was. *)
Record Picker := mkPicker { presult : option T; perr : option E; cancelled : bool }.

Definition newPicker : Picker := mkPicker None None false.

(** A function given to [Go] returns. *)
Definition finish (p : Picker) (r : T + E) : Picker :=
  match r with
  | inl v => match presult p with None => mkPicker (Some v) (perr p) true | Some _ => p end
  | inr e => match perr p with None => mkPicker (presult p) (Some e) (cancelled p) | Some _ => p end
  end.

(** All functions have returned. *)
Definition Wait (p : Picker) : Picker * option T := (mkPicker (presult p) (perr p) true, presult p).

Lemma finish_all l : ∀ p, fold_left finish l p =
  mkPicker (match presult p with Some v => Some v | None => head (omap (λ r, match r with inl v => Some v | inr _ => None end) l) end)
    (match perr p with Some e => Some e | None => head (omap (λ r, match r with inl _ => None | inr e => Some e end) l) end)
    (cancelled p || (negb (bool_decide (is_Some (presult p))) && existsb (λ r, match r with inl _ => true | inr _ => false end) l)).
Proof.
  induction l as [|r l IH]; intros [res err can]; cbn [fold_left]; [cbn; rewrite andb_false_r, orb_false_r; by destruct res, err|].
  rewrite IH. destruct r as [v|e]; cbn [finish presult perr cancelled]; destruct res, err; cbn; try done; by rewrite ?orb_true_r, ?orb_false_r.
Qed.
End picker.
Arguments Picker : clear implicits.

(** ** A batch of clients *)

Section batch.
Context `{DnsLib} (net : nat → NameServer → Msg → option Msg * option dnsError) (ecs : ecsState) (IsFakeIP : Addr → bool) (ctxErr : option dnsError).

(** The function given to the picker for one client. *)
Definition query (c : dnsClient) (m : Msg) : option (Msg * (ref + dnsError)) :=
  '(m, (a, err)) ← exchangeDiagnostic net ecs IsFakeIP ctxErr c m;
  match err, a with
  | Some e, _ => Some (m, inr e)
  | None, None => None
  | None, Some a =>
      let rcode := Rcode (deref m a) in
      if (rcode =? RcodeServerFailure) || (rcode =? RcodeRefused) then Some (m, inr (ServerFailed rcode)) else Some (m, inl a)
  end.

(** The clients in the order in which they return. *)
Fixpoint queries (clients : list dnsClient) (m : Msg) : option (Msg * list (ref + dnsError)) :=
  match clients with
  | [] => Some (m, [])
  | c :: clients => '(m, r) ← query c m; '(m, l) ← queries clients m; Some (m, r :: l)
  end.

Fixpoint first_rcode (clients : list dnsClient) : option Z :=
  match clients with [] => None | rcodeClient rcode :: _ => Some rcode | _ :: clients => first_rcode clients end.

(** [order]: the positions of the clients in the order in which they return.  A client with a fixed code answers at once, and
    the clients started before it are abandoned.  The flag says whether the answer may be cached. *)
Definition batchExchange (order : list nat) (clients : list dnsClient) (m : Msg) : option (Msg * (option ref * bool * option dnsError)) :=
  match first_rcode clients with
  | Some rcode => Some (set_rcode m rcode, (Some Request, false, None))
  | None =>
      '(m, l) ← queries (omap (λ i, clients !! i) order) m;
      let fast := fold_left finish l newPicker in
      let '(fast, msg) := Wait fast in
      Some (m, (msg, true, match msg with None => Some (AllFailed (perr fast)) | Some _ => None end))
  end.
End batch.

(** ** Servers with the same transport share one client *)

Section sharing.
Context (TypeToRR : Z → bool).
Implicit Types (ns s : NameServer) (c : dnsClient) (cache : list (NameServer * dnsClient)).

Lemma paramsEqual_spec a b : paramsEqual a b = true ↔ ∀ k v, a !! k = Some v → isWrapperOnlyParam k = true ∨ b !! k = Some v.
Proof.
  unfold paramsEqual. rewrite forallb_forall. split.
  - intros Hf k v Hk. specialize (Hf (k, v)). rewrite <- list_elem_of_In, elem_of_map_to_list in Hf. specialize (Hf Hk). by apply orb_true_iff in Hf as [?|?%bool_decide_eq_true]; [left|right].
  - intros Hf [k v]. rewrite <- list_elem_of_In, elem_of_map_to_list. intros Hk. apply orb_true_iff. rewrite bool_decide_eq_true. by apply Hf.
Qed.

Lemma transportEqual_spec ns ns2 : transportEqual ns ns2 = true ↔
  Net ns = Net ns2 ∧ NsAddr ns = NsAddr ns2 ∧ ProxyAdapter ns = ProxyAdapter ns2 ∧ ProxyName ns = ProxyName ns2 ∧ PreferH3 ns = PreferH3 ns2 ∧
  ∀ k, isWrapperOnlyParam k = false → Params ns !! k = Params ns2 !! k.
Proof.
  unfold transportEqual. rewrite !andb_true_iff, !bool_decide_eq_true, eqb_true_iff, !paramsEqual_spec. split.
  - intros ((((((? & ?) & ?) & ?) & ?) & P1) & P2). repeat (split; [done|]). intros k Hk. apply option_eq. intros v.
    split; [intros Hv; destruct (P1 k v Hv)|intros Hv; destruct (P2 k v Hv)]; congruence.
  - intros (? & ? & ? & ? & ? & HP). repeat (split; try done); intros k v Hv; destruct (isWrapperOnlyParam k) eqn:E; [by left| |by left|]; right; rewrite <- Hv; [symmetry|]; by apply HP.
Qed.

Lemma transportEqual_eq ns ns2 s : transportEqual ns ns2 = true → transportEqual s ns = transportEqual s ns2.
Proof.
  rewrite transportEqual_spec. intros (? & ? & ? & ? & ? & HP). apply eq_true_iff_eq. rewrite !transportEqual_spec. split; intros (? & ? & ? & ? & ? & HQ).
  - repeat (split; [congruence|]). intros k Hk. by rewrite HQ, HP.
  - repeat (split; [congruence|]). intros k Hk. by rewrite HQ, HP.
Qed.

Lemma transportEqual_refl ns : transportEqual ns ns = true.
Proof. by apply transportEqual_spec. Qed.

Lemma transportEqual_sym ns ns2 : transportEqual ns ns2 = transportEqual ns2 ns.
Proof. apply eq_true_iff_eq. rewrite !transportEqual_spec. split; intros (? & ? & ? & ? & ? & HP); repeat (split; [done|]); intros k Hk; symmetry; by apply HP. Qed.

Lemma Equal_eq ns ns2 : NameServer_Equal ns ns2 = true → ns = ns2.
Proof. destruct ns, ns2. unfold NameServer_Equal. cbn. rewrite !andb_true_iff, !bool_decide_eq_true, eqb_true_iff. intros (((((-> & ->) & ->) & ->) & ->) & ->). done. Qed.

Lemma unwrap_idemp c : unwrap (unwrap c) = unwrap c.
Proof. by induction c. Qed.

Lemma unwrap_rewrap c params : unwrap (rewrapClient TypeToRR c params) = unwrap c.
Proof.
  unfold rewrapClient, wrapClientWithDisableTypes, wrapClientWithEdns0Subnet. destruct (ecs_param _) as [p auto].
  case_match; case_match; cbn [unwrap]; apply unwrap_idemp.
Qed.

Lemma rewrap_rewrap c p params : rewrapClient TypeToRR (rewrapClient TypeToRR c p) params = rewrapClient TypeToRR c params.
Proof. unfold rewrapClient at 1 3. by rewrite unwrap_rewrap. Qed.

(** The client of a server: wrapped for its own parameters around the transport of the first server with that transport. *)
Definition client_of cache ns c : Prop :=
  c = rewrapClient TypeToRR c (Params ns) ∧
  ∃ j s c', list_find (λ p, transportEqual p.1 ns = true) cache = Some (j, (s, c')) ∧ raw_client j s = Some (unwrap c).

Lemma client_of_app cache cache' ns c : client_of cache ns c → client_of (cache ++ cache') ns c.
Proof. intros [Hc (j & s & c' & Hf & Hr)]. split; [done|]. exists j, s, c'. by rewrite (list_find_app_l _ _ _ _ _ Hf). Qed.

Lemma ns_scan_spec cache ns : ∀ dc, match scan cache ns dc with
  | inl c => (ns, c) ∈ cache
  | inr r => r = match dc with Some _ => dc | None => option_map (λ x, x.2.2) (list_find (λ p, transportEqual p.1 ns = true) cache) end
  end.
Proof.
  induction cache as [|[s c] cache IH]; intros dc; cbn [scan]; [by destruct dc|].
  destruct (NameServer_Equal s ns) eqn:E; [apply Equal_eq in E as ->; by left|].
  match goal with |- context [scan cache ns ?d] => specialize (IH d); destruct (scan cache ns d) as [c0|r] end; [by right|]. rewrite IH.
  destruct dc; [done|]. cbn [list_find fst]. destruct (decide (transportEqual s ns = true)) as [Et|Et]; [by rewrite Et|].
  apply not_true_iff_false in Et. rewrite Et. by destruct (list_find _ cache) as [[? [? ?]]|].
Qed.

Definition clients_ok cache : Prop := ∀ ns c, (ns, c) ∈ cache → client_of cache ns c.

Lemma cacheTransform1_spec cache ns cache' c :
  clients_ok cache → cacheTransform1 TypeToRR cache ns = Some (cache', c) → (∃ l, cache' = cache ++ l) ∧ clients_ok cache' ∧ client_of cache' ns c.
Proof.
  intros HI. unfold cacheTransform1. pose proof (ns_scan_spec cache ns None) as Hs. destruct (scan cache ns None) as [c0|dc].
  { intros [= <- <-]. split; [exists []; by rewrite app_nil_r|]. split; [done|]. by apply HI. }
  assert (∀ c0, client_of (cache ++ [(ns, c0)]) ns c0 → clients_ok (cache ++ [(ns, c0)])) as Hnew.
  { intros c0 Hc0 s1 c1 [Hin|[= -> ->]%list_elem_of_singleton]%elem_of_app; [by apply client_of_app, HI|done]. }
  subst dc. destruct (list_find _ cache) as [[j [s c1]]|] eqn:Ef; cbn [option_map snd mbind option_bind].
  - intros [= <- <-]. set (c0 := rewrapClient TypeToRR c1 (Params ns)). assert (client_of (cache ++ [(ns, c0)]) ns c0) as Hc0; [|by eauto].
    apply client_of_app. split; [unfold c0; by rewrite rewrap_rewrap|]. exists j, s, c1. split; [done|]. unfold c0. rewrite unwrap_rewrap.
    apply list_find_Some in Ef as Ef'. destruct Ef' as (Hl & Ht & _). apply list_elem_of_lookup_2 in Hl. destruct (HI s c1 Hl) as [_ (j' & s' & c' & Hf & Hr)].
    rewrite (list_find_ext _ (λ p, transportEqual p.1 ns = true)) in Hf by (intros x; by rewrite (transportEqual_eq s ns x.1)). rewrite Ef in Hf. by injection Hf as <- <- <-.
  - unfold transform1. destruct (raw_client (length cache) ns) as [raw|] eqn:Er; [|done]. cbn [mbind option_bind]. intros [= <- <-].
    set (c0 := rewrapClient TypeToRR raw (Params ns)). assert (client_of (cache ++ [(ns, c0)]) ns c0) as Hc0; [|by eauto].
    split; [unfold c0; by rewrite rewrap_rewrap|]. exists (length cache), ns, c0. split.
    + rewrite (list_find_app_r _ _ _ Ef). cbn [list_find fst]. rewrite decide_True by apply transportEqual_refl. done.
    + unfold c0. rewrite unwrap_rewrap, Er. f_equal. unfold raw_client, newRCodeClient in Er. repeat case_match; by simplify_eq/=.
Qed.

Lemma cacheTransform_spec servers : ∀ cache cache' clients,
  clients_ok cache → cacheTransform TypeToRR cache servers = Some (cache', clients) →
  (∃ l, cache' = cache ++ l) ∧ clients_ok cache' ∧ Forall2 (client_of cache') servers clients.
Proof.
  induction servers as [|ns servers IH]; intros cache cache' clients HI; cbn [cacheTransform].
  { intros [= <- <-]. split; [exists []; by rewrite app_nil_r|]. by split; [|constructor]. }
  destruct (cacheTransform1 TypeToRR cache ns) as [[cache1 c]|] eqn:E1; [|done]. cbn [mbind option_bind].
  destruct (cacheTransform TypeToRR cache1 servers) as [[cache2 l]|] eqn:E2; [|done]. cbn [mbind option_bind]. intros [= <- <-].
  destruct (cacheTransform1_spec cache ns cache1 c HI E1) as ([l1 ->] & I1 & C1). destruct (IH _ _ _ I1 E2) as ([l2 ->] & I2 & C2).
  split; [exists (l1 ++ l2); by rewrite app_assoc|]. split; [done|]. constructor; [by apply client_of_app|done].
Qed.

(** Only a return code that does not exist makes a panic. *)
Lemma cacheTransform_total servers : Forall (λ s, Net s = "rcode" → is_Some (newRCodeClient (NsAddr s))) servers →
  ∀ cache, is_Some (cacheTransform TypeToRR cache servers).
Proof.
  induction 1 as [|ns servers Hns _ IH]; intros cache; cbn [cacheTransform]; [by eexists|].
  assert (is_Some (cacheTransform1 TypeToRR cache ns)) as [[cache1 c] ->].
  { unfold cacheTransform1. destruct (scan cache ns None) as [c|[dc|]]; [by eexists..|]. unfold transform1, raw_client. case_bool_decide as Hr; [|by eexists].
    destruct (Hns Hr) as [c ->]. by eexists. }
  cbn [mbind option_bind]. destruct (IH cache1) as [[cache2 l] ->]. by eexists.
Qed.
End sharing.

(** Two clients made for servers over one list share their transport exactly when the servers' configurations differ in wrapper
    parameters only. *)
Lemma client_of_shared TypeToRR cache ns ns' c c' :
  client_of TypeToRR cache ns c → client_of TypeToRR cache ns' c' → Net ns ≠ "rcode" →
  (∃ id s, unwrap c = Transport id s ∧ transportEqual s ns = true) ∧ (unwrap c = unwrap c' ↔ transportEqual ns ns' = true).
Proof.
  intros [_ (k & s & x & Hf & Hraw)] [_ (k' & s' & x' & Hf' & Hraw')] Hr.
  apply list_find_Some in Hf as Hk. destruct Hk as (_ & Ht & _). apply list_find_Some in Hf' as Hk'. destruct Hk' as (_ & Ht' & _). cbn [fst] in Ht, Ht'.
  assert (Net s = Net ns) as Hnet by (apply transportEqual_spec in Ht; naive_solver).
  assert (unwrap c = Transport k s) as Hc by (unfold raw_client in Hraw; rewrite bool_decide_false in Hraw by (by rewrite Hnet); congruence).
  split; [by exists k, s|]. split.
  - intros Heq. rewrite <- Heq, Hc in Hraw'. unfold raw_client in Hraw'. case_bool_decide; [unfold newRCodeClient in Hraw'; repeat case_match; done|].
    injection Hraw' as -> ->. by rewrite <- (transportEqual_eq s ns' ns Ht'), transportEqual_sym.
  - intros Heq. rewrite (list_find_ext _ (λ p, transportEqual p.1 ns' = true)) in Hf by (intros y; by rewrite (transportEqual_eq ns ns' y.1)).
    rewrite Hf in Hf'. injection Hf' as <- <- <-. congruence.
Qed.

Lemma client_of_wrapped TypeToRR cache ns c : client_of TypeToRR cache ns c → c = rewrapClient TypeToRR (unwrap c) (Params ns).
Proof. intros [Hc _]. rewrite Hc at 1. unfold rewrapClient. by rewrite unwrap_idemp. Qed.

(** ** A race is won by the first client with a usable answer *)

Section races.
Context `{DnsLib} (net : nat → NameServer → Msg → option Msg * option dnsError) (ecs : ecsState) (IsFakeIP : Addr → bool) (ctxErr : option dnsError).
Implicit Types (c : dnsClient) (m : Msg).

(** A client that asks a server, and a transport that gives an answer or an error. *)
Definition talks c : Prop := match unwrap c with Transport _ _ => True | _ => False end.
Definition net_ok : Prop := ∀ id ns m, (net id ns m).2 = None → is_Some (net id ns m).1.

(** An answer that a resolver may use. *)
Definition usable (x : Msg) : Prop := hasUpstreamFakeIP IsFakeIP (Some x) = false ∧ Rcode x ≠ RcodeServerFailure ∧ Rcode x ≠ RcodeRefused.

Lemma ExchangeContext_talks c : net_ok → talks c → ∀ m, ∃ a err, ExchangeContext net ecs c m = Some (m, (option_map Own a, err)) ∧ (err = None → is_Some a).
Proof.
  intros Hn. unfold talks. induction c as [rcode|id ns|c IH types|c IH p auto ov]; intros Ht m; cbn [unwrap] in Ht; try done; cbn [ExchangeContext].
  - pose proof (Hn id ns m). destruct (net id ns m) as [a err]. by exists a, err.
  - destruct (existsb _ _); [by exists (Some (handleMsgWithEmptyAnswer m)), None|]. destruct (IH Ht m) as (a & err & -> & Ha). cbn [mbind option_bind].
    destruct err as [e|]; [by exists a, (Some e)|]. destruct (Ha eq_refl) as [x ->]. by exists (Some (without types x)), None.
  - assert (∀ p, ∃ a err, ('(m', (a, err)) ← ExchangeContext net ecs c (setEdns0Subnet m p ov).1; Some (m, (option_map (λ r, Own (deref m' r)) a, err)))
      = Some (m, (option_map Own a, err)) ∧ (err = None → is_Some a)) as Hs.
    { intros p0. destruct (IH Ht (setEdns0Subnet m p0 ov).1) as (a & err & -> & Ha). cbn [mbind option_bind]. exists a, err. by destruct a. }
    destruct auto; [|apply Hs]. destruct (ecs_Prefix _ _); [apply Hs|by apply IH].
Qed.

Lemma query_talks c m : net_ok → talks c → ∃ r, query net ecs IsFakeIP ctxErr c m = Some (m, r) ∧ ∀ a, r = inl a → ∃ x, a = Own x ∧ usable x.
Proof.
  intros Hn Ht. destruct (ExchangeContext_talks c Hn Ht m) as (a & err & E & Ha). unfold query, exchangeDiagnostic. rewrite E. cbn [mbind option_bind].
  destruct err as [e|].
  - assert (∃ e', normalizeDNSExchangeError ctxErr (Some e) = Some e') as [e' ->] by (unfold normalizeDNSExchangeError; case_match; by eexists).
    rewrite bool_decide_true by (by eexists). cbn. by exists (inr e').
  - destruct (Ha eq_refl) as [x ->]. unfold normalizeDNSExchangeError. rewrite bool_decide_false by (by intros [? ?]). cbn [negb andb option_map deref].
    destruct (hasUpstreamFakeIP IsFakeIP (Some x)) eqn:Ef; cbn [mbind option_bind]; [by exists (inr errUpstreamFakeIP)|]. cbn [deref].
    destruct ((Rcode x =? RcodeServerFailure) || (Rcode x =? RcodeRefused)) eqn:Er; [by exists (inr (ServerFailed (Rcode x)))|].
    exists (inl (Own x)). split; [done|]. intros ? [= <-]. exists x. apply orb_false_iff in Er as [?%Z.eqb_neq ?%Z.eqb_neq]. done.
Qed.

Definition wins c m x : Prop := query net ecs IsFakeIP ctxErr c m = Some (m, inl (Own x)).
Definition loses c m : Prop := ∃ e, query net ecs IsFakeIP ctxErr c m = Some (m, inr e).

(** The clients of a race, in the order in which they return. *)
Definition race_of (l : list dnsClient) m (a : option Msg) (err : option dnsError) : Prop :=
  match a with
  | Some x => err = None ∧ usable x ∧ ∃ before c after, l = before ++ c :: after ∧ wins c m x ∧ Forall (λ c, loses c m) before
  | None => (∃ e, err = Some (AllFailed e)) ∧ Forall (λ c, loses c m) l
  end.

Lemma queries_talks l m : net_ok → Forall talks l →
  ∃ rs, queries net ecs IsFakeIP ctxErr l m = Some (m, rs) ∧ Forall2 (λ c r, query net ecs IsFakeIP ctxErr c m = Some (m, r) ∧ ∀ a, r = inl a → ∃ x, a = Own x ∧ usable x) l rs.
Proof.
  intros Hn. induction 1 as [|c l Hc _ IH]; cbn [queries]; [by exists []|]. destruct (query_talks c m Hn Hc) as (r & Hq & Hr). rewrite Hq. cbn [mbind option_bind].
  destruct IH as (rs & -> & HF). cbn [mbind option_bind]. exists (r :: rs). split; [done|]. by constructor.
Qed.

Lemma batch_race order clients m :
  net_ok → Forall talks clients →
  ∃ a err, batchExchange net ecs IsFakeIP ctxErr order clients m = Some (m, (option_map Own a, true, err)) ∧ race_of (omap (λ i, clients !! i) order) m a err.
Proof.
  intros Hn Ht. unfold batchExchange.
  assert (first_rcode clients = None) as -> by (clear -Ht; induction Ht as [|c l Hc _ IH]; [done|]; destruct c; done).
  assert (Forall talks (omap (λ i, clients !! i) order)) as Ho.
  { apply list.Forall_forall. intros c (i & _ & Hi)%list_elem_of_omap. by apply (Forall_lookup_1 _ _ _ _ Ht Hi). }
  set (l := omap (λ i, clients !! i) order) in *. clearbody l. destruct (queries_talks l m Hn Ho) as (rs & -> & HF). cbn [mbind option_bind].
  rewrite finish_all. cbn [Wait newPicker presult perr cancelled fst snd].
  assert (∃ a, head (omap (λ r : ref + dnsError, match r with inl v => Some v | inr _ => None end) rs) = option_map Own a ∧
    match a with
    | Some x => usable x ∧ ∃ before c after, l = before ++ c :: after ∧ wins c m x ∧ Forall (λ c, loses c m) before
    | None => Forall (λ c, loses c m) l end) as (a & -> & Ha).
  { clear Ho. induction HF as [|c r l rs [Hq Hr] HF IH]; [by exists None|]. destruct r as [v|e]; cbn [omap list_omap].
    - destruct (Hr v eq_refl) as (x & -> & Hx). exists (Some x). split; [done|]. split; [done|]. by exists [], c, l.
    - destruct IH as (a & Ha & Hw). exists a. split; [done|]. assert (loses c m) as Hl by (by exists e). destruct a as [x|]; [|by constructor].
      destruct Hw as (Hx & before & c' & after & -> & Hc' & Hb). split; [done|]. exists (c :: before), c', after. split; [done|]. split; [done|]. by constructor. }
  destruct a as [x|]; cbn [option_map]; eexists _, _; (split; [by instantiate (2 := Some x) || by instantiate (2 := None)|]); cbn; naive_solver.
Qed.
End races.
