(* ===== verification/DnsResolver.v ===== *)
(** * [dns/resolver.go], [dns/policy.go]: the resolver

    Policies choose the servers for a name, [ipExchange] the answer among main and
    fallback servers, and answers are kept in a cache of [DevCache].  Two batches of
    clients that run at once take effect one after the other, in either order.  A
    query that misses the cache waits for a flight: [ExchangeContext] has a part before
    the wait and one after it.  [None] is a panic.  Resolvers with a domain client are
    not modelled. *)

From Stdlib Require Import ZArith Lia.
From stdpp Require Import base strings numbers gmap list.
From S2P Require Import Prelude GoStrings GoNet GoNetText DomainTrie DevCache DevCacheTheory DevRegistry DnsHandler DnsMessage DnsClients.
#[local] Open Scope string_scope.
#[local] Open Scope list_scope.
#[local] Open Scope Z_scope.

(** ** Policies *)

Inductive dnsPolicy :=
| domainTriePolicy (t : Node (list dnsClient))
| domainMatcherPolicy (matcher : string → bool) (dnsClients : list dnsClient).

Definition policy_Match `{UnicodeCase} (p : dnsPolicy) (domain : string) : list dnsClient :=
  match p with
  | domainTriePolicy t => match Search t domain with Some record => default [] (DomainTrie.data record) | None => [] end
  | domainMatcherPolicy matcher dnsClients => if matcher domain then dnsClients else []
  end.

(** A policy of the configuration: a matcher, or a domain for the trie; the clients are made by [cacheTransform]. *)
Record Policy := mkPolicy { PDomain : string; PMatcher : option (string → bool); PNameServers : list NameServer }.

Definition flush (triePolicy : option (Node (list dnsClient))) : list dnsPolicy :=
  match triePolicy with Some t => [domainTriePolicy (optimize t)] | None => [] end.

(** [makePolicy], with the policies made so far and the trie under construction. *)
Fixpoint makePolicy `{UnicodeCase} (TypeToRR : Z → bool) (cache : list (NameServer * dnsClient)) (triePolicy : option (Node (list dnsClient)))
    (policies : list Policy) : option (list (NameServer * dnsClient) * list dnsPolicy) :=
  match policies with
  | [] => Some (cache, flush triePolicy)
  | p :: policies =>
      '(cache, clients) ← cacheTransform TypeToRR cache (PNameServers p);
      match PMatcher p with
      | Some matcher =>
          '(cache, l) ← makePolicy TypeToRR cache None policies;
          Some (cache, flush triePolicy ++ domainMatcherPolicy matcher clients :: l)
      | None =>
          let t := default DomainTrie.New triePolicy in
          makePolicy TypeToRR cache (Some (match Insert t (PDomain p) clients with Ok t => t | Err _ => t end)) policies
      end
  end.

(** ** Servers for a request *)

(** [fallback] is nil without fallback servers. *)
Record Resolver := mkResolver {
  main : list dnsClient;
  fallback : option (list dnsClient);
  fallbackDomainFilters : list (string → bool);
  fallbackIPFilters : list (Addr → bool);
  fallbackLazyQuery : bool;
  policy : list dnsPolicy;
}.

(** ** [NewResolver] *)

Record Config := mkConfig {
  cMain : list NameServer; cFallback : list NameServer; cDefault : list NameServer; cProxyServer : list NameServer; cDirectServer : list NameServer;
  cDirectFollowPolicy : bool; cFallbackIPFilter : list (Addr → bool); cFallbackDomainFilter : list (string → bool); cFallbackLazyQuery : bool;
  cPolicy : list Policy; cProxyServerPolicy : list Policy;
}.

(** The direct resolver has one more cache for each of its servers. *)
Record Resolvers := mkResolvers { rMain : Resolver; ProxyResolver : option Resolver; DirectResolver : Resolver; sourceCaches : nat; BootstrapResolver : Resolver }.

Definition without_fallback (main : list dnsClient) (policy : list dnsPolicy) : Resolver := mkResolver main None [] [] false policy.

(** The transports of the default servers are made apart from the shared ones. *)
Definition NewResolver `{UnicodeCase} (TypeToRR : Z → bool) (config : Config) : option Resolvers :=
  defaults ← transform TypeToRR 0 (cDefault config);
  '(cache, mains) ← cacheTransform TypeToRR [] (cMain config);
  '(cache, policies) ← makePolicy TypeToRR cache None (cPolicy config);
  '(cache, proxy) ← (match cProxyServer config with
                     | [] => Some (cache, None)
                     | servers => '(cache, clients) ← cacheTransform TypeToRR cache servers;
                                  '(cache, own) ← makePolicy TypeToRR cache None (cProxyServerPolicy config);
                                  Some (cache, Some (without_fallback clients own))
                     end);
  '(cache, directs) ← cacheTransform TypeToRR cache (cDirectServer config);
  let direct := match cDirectServer config with
                | [] => without_fallback [] []
                | _ => without_fallback directs (if cDirectFollowPolicy config then policies else [])
                end in
  '(cache, fallbacks) ← cacheTransform TypeToRR cache (cFallback config);
  let r := match cFallback config with
           | [] => without_fallback mains policies
           | _ => mkResolver mains (Some fallbacks) (cFallbackDomainFilter config) (cFallbackIPFilter config) (cFallbackLazyQuery config) policies
           end in
  Some (mkResolvers r proxy direct (length (main direct)) (without_fallback defaults [])).

Section resolver.
Context `{UnicodeCase} `{DnsLib} `{Lo} (IsFakeIP : Addr → bool) (ecs : ecsState).
Implicit Types (r : Resolver) (m : Msg).

Definition shouldIPFallback r (ip : Addr) : bool := existsb (λ filter, filter ip) (fallbackIPFilters r).

Definition matchPolicy r m : list dnsClient :=
  let domain := msgToDomain m in
  if bool_decide (domain = "") then []
  else default [] (head (filter (λ l, l ≠ []) ((λ p, policy_Match p domain) <$> policy r))).

Definition shouldOnlyQueryFallback r m : bool :=
  match fallback r, fallbackDomainFilters r with
  | None, _ | _, [] => false
  | _, filters =>
      let domain := msgToDomain m in
      if bool_decide (domain = "") then false else existsb (λ df, df domain) filters
  end.

(** What happens to a batch: the answers of the servers, the state of the context, the order in which the clients return. *)
Record batch := mkBatch { bnet : nat → NameServer → Msg → option Msg * option dnsError; bctx : option dnsError; border : list nat }.

Definition exchange_batch (b : batch) (clients : list dnsClient) m : option (Msg * (option ref * bool * option dnsError)) :=
  batchExchange (bnet b) ecs IsFakeIP (bctx b) (border b) clients m.

(** [asyncExchange] and the read of its channel. *)
Definition asyncExchange (b : batch) (clients : list dnsClient) m : option exchanged :=
  '(m, (a, _, err)) ← exchange_batch b clients m; Some (m, (a, err)).

(** The answer of the main servers needs no fallback. *)
Definition shouldNotFallback r m (a : option ref) (err : option dnsError) : option bool :=
  match err, a with
  | Some _, _ => Some false
  | None, None => None
  | None, Some a => let ips := msgToIP (deref m a) in
                    Some (negb (bool_decide (ips = [])) && forallb (λ ip, negb (shouldIPFallback r ip)) ips)
  end.

(** [bm] and [bf]: the first batch and that of the fallback servers; [swap]: the fallback batch comes first where both run. *)
Definition ipExchange (bm bf : batch) (swap : bool) r m : option exchanged :=
  match matchPolicy r m with
  | (_ :: _) as matched => asyncExchange bm matched m
  | [] =>
      if shouldOnlyQueryFallback r m then asyncExchange bf (default [] (fallback r)) m
      else
        match fallback r with
        | None => asyncExchange bm (main r) m
        | Some servers =>
            if fallbackLazyQuery r then
              '(m, (a, err)) ← asyncExchange bm (main r) m;
              keep ← shouldNotFallback r m a err;
              if (keep : bool) then Some (m, (a, err)) else asyncExchange bf servers m
            else
              let run (b : batch) clients (m : Msg) := asyncExchange b clients m in
              '(m, ((a, err), second_)) ← (if swap
                then '(m, f) ← run bf servers m; '(m, x) ← run bm (main r) m; Some (m, (x, f))
                else '(m, x) ← run bm (main r) m; '(m, f) ← run bf servers m; Some (m, (x, f)));
              keep ← shouldNotFallback r m a err;
              Some (m, if (keep : bool) then (a, err) else second_)
        end
  end.

(** The worker of a refresh: the message to hand out, its deadline, or an error. *)
Definition fetch (now : Z) (bm bf : batch) (swap : bool) r m : option (option Msg * Z * option dnsError) :=
  q ← head (Questions m);
  '(m, (a, cache, err)) ←
    (if isIPRequest q then '(m, (a, err)) ← ipExchange bm bf swap r m; Some (m, (a, true, err))
     else match matchPolicy r m with
          | (_ :: _) as matched => exchange_batch bm matched m
          | [] => exchange_batch bm (main r) m
          end);
  match err, a with
  | Some e, _ => Some (None, zeroTime, Some e)
  | None, None => Some (None, zeroTime, Some Unusable)
  | None, Some a =>
      let msg := deref m a in
      if Truncated msg || (negb (Rcode msg =? RcodeSuccess) && negb (Rcode msg =? RcodeNameError)) then Some (None, zeroTime, Some Unusable)
      else if negb cache then Some (Some msg, zeroTime, None)
      else let '(stored, due) := prepareCachedMessage now q msg in Some (Some stored, due, None)
  end.
End resolver.

(** ** The resolvers share their transports *)

Section configured.
Context `{UnicodeCase} (TypeToRR : Z → bool).
Implicit Types (cache : list (NameServer * dnsClient)).

(** The clients of [cache] are in order, and stay so as it grows. *)
Definition extends cache cache' : Prop := (∃ l, cache' = cache ++ l) ∧ clients_ok TypeToRR cache'.

Lemma extends_trans c1 c2 c3 : extends c1 c2 → extends c2 c3 → extends c1 c3.
Proof. intros [[l1 ->] _] [[l2 ->] ?]. split; [exists (l1 ++ l2); by rewrite app_assoc|done]. Qed.

Lemma cacheTransform_extends cache servers cache' clients :
  clients_ok TypeToRR cache → cacheTransform TypeToRR cache servers = Some (cache', clients) → extends cache cache' ∧ Forall2 (client_of TypeToRR cache') servers clients.
Proof. intros HI E. destruct (cacheTransform_spec TypeToRR servers cache cache' clients HI E) as (? & ? & ?). done. Qed.

Lemma makePolicy_extends policies : ∀ cache t cache' l,
  clients_ok TypeToRR cache → makePolicy TypeToRR cache t policies = Some (cache', l) → extends cache cache'.
Proof.
  induction policies as [|p policies IH]; intros cache t cache' l HI; cbn [makePolicy]; [intros [= <- _]; split; [exists []; by rewrite app_nil_r|done]|].
  destruct (cacheTransform TypeToRR cache (PNameServers p)) as [[cache1 clients]|] eqn:E; [|done]. cbn [mbind option_bind].
  destruct (cacheTransform_extends _ _ _ _ HI E) as [X1 _]. destruct (PMatcher p).
  - destruct (makePolicy TypeToRR cache1 None policies) as [[cache2 l2]|] eqn:E2; [|done]. intros [= <- _]. eapply extends_trans; [done|]. by eapply IH; [apply X1|].
  - intros E2. eapply extends_trans; [done|]. by eapply IH; [apply X1|].
Qed.

Lemma extends_clients cache cache' servers clients : extends cache cache' → Forall2 (client_of TypeToRR cache) servers clients → Forall2 (client_of TypeToRR cache') servers clients.
Proof. intros [[l ->] _] HF. eapply list.Forall2_impl; [exact HF|]. intros ns c. apply client_of_app. Qed.

(** The servers of a configuration with the clients made for them. *)
Definition made config (rs : Resolvers) : list (NameServer * dnsClient) :=
  zip (cMain config) (main (rMain rs)) ++ zip (cFallback config) (default [] (fallback (rMain rs))) ++
  zip (cDirectServer config) (main (DirectResolver rs)) ++ zip (cProxyServer config) (from_option main [] (ProxyResolver rs)).

Lemma zip_client_of cache servers clients ns c : Forall2 (client_of TypeToRR cache) servers clients → (ns, c) ∈ zip servers clients → client_of TypeToRR cache ns c.
Proof. intros HF [i Hi]%list_elem_of_lookup. apply lookup_zip_with_Some in Hi as (x & y & [= -> ->] & Hx & Hy). by eapply Forall2_lookup_lr. Qed.

Lemma NewResolver_clients config rs : NewResolver TypeToRR config = Some rs → ∃ cache, ∀ ns c, (ns, c) ∈ made config rs → client_of TypeToRR cache ns c.
Proof.
  unfold NewResolver. destruct (transform _ _ _) as [defaults|]; [|done]. cbn [mbind option_bind].
  destruct (cacheTransform TypeToRR [] (cMain config)) as [[c1 mains]|] eqn:E1; [|done]. cbn [mbind option_bind].
  destruct (cacheTransform_extends [] _ _ _ ltac:(intros ? ? Hin; by apply elem_of_nil in Hin) E1) as [X1 F1].
  destruct (makePolicy TypeToRR c1 None (cPolicy config)) as [[c2 policies]|] eqn:E2; [|done]. cbn [mbind option_bind]. pose proof (makePolicy_extends _ _ _ _ _ (proj2 X1) E2) as X2.
  set (p := match cProxyServer config with [] => _ | _ => _ end).
  assert (∀ c3 proxy, p = Some (c3, proxy) → extends c2 c3 ∧ ∀ ns c, (ns, c) ∈ zip (cProxyServer config) (from_option main [] proxy) → client_of TypeToRR c3 ns c) as Hp.
  { intros c3 proxy. unfold p. destruct (cProxyServer config) as [|s0 l0]; [intros [= <- <-]; split; [split; [exists []; by rewrite app_nil_r|apply X2]|intros ? ? Hin; by apply elem_of_nil in Hin]|].
    destruct (cacheTransform TypeToRR c2 (s0 :: l0)) as [[c2' clients]|] eqn:E; [|done]. cbn [mbind option_bind]. destruct (cacheTransform_extends _ _ _ _ (proj2 X2) E) as [X F].
    destruct (makePolicy TypeToRR c2' None _) as [[c3' own]|] eqn:E'; [|done]. intros [= <- <-]. pose proof (makePolicy_extends _ _ _ _ _ (proj2 X) E') as X'.
    split; [by eapply extends_trans|]. intros ns c. by apply zip_client_of, (extends_clients c2'). }
  clearbody p. destruct p as [[c3 proxy]|]; [|done]. cbn [mbind option_bind]. destruct (Hp c3 proxy eq_refl) as [X3 F3].
  destruct (cacheTransform TypeToRR c3 (cDirectServer config)) as [[c4 directs]|] eqn:E4; [|done]. cbn [mbind option_bind]. destruct (cacheTransform_extends _ _ _ _ (proj2 X3) E4) as [X4 F4].
  destruct (cacheTransform TypeToRR c4 (cFallback config)) as [[c5 fallbacks]|] eqn:E5; [|done]. cbn [mbind option_bind]. destruct (cacheTransform_extends _ _ _ _ (proj2 X4) E5) as [X5 F5].
  intros [= <-]. exists c5. intros ns c. unfold made. cbn [rMain DirectResolver ProxyResolver]. rewrite !elem_of_app. intros [Hin|[Hin|[Hin|Hin]]].
  - eapply zip_client_of; [|by destruct (cFallback config)]. eapply extends_clients; [|exact F1]. by eapply extends_trans, extends_trans, extends_trans.
  - eapply zip_client_of; [exact F5|]. destruct (cFallback config); [by apply elem_of_nil in Hin|done].
  - eapply zip_client_of; [by eapply extends_clients|]. destruct (cDirectServer config); [by apply elem_of_nil in Hin|done].
  - destruct X4 as [[l4 ->] _], X5 as [[l5 ->] _]. by apply client_of_app, client_of_app, F3.
Qed.
End configured.


(** ** Main and fallback servers *)

Section fallbacks.
Context `{UnicodeCase} `{DnsLib} `{Lo} (IsFakeIP : Addr → bool) (ecs : ecsState).
Implicit Types (r : Resolver) (m : Msg).

(** The clients of a batch in the order in which they return, and the result of their race. *)
Definition arrivals (b : batch) (clients : list dnsClient) : list dnsClient := omap (λ i, clients !! i) (border b).
Definition race (b : batch) (clients : list dnsClient) m (a : option Msg) (err : option dnsError) : Prop :=
  race_of (bnet b) ecs IsFakeIP (bctx b) (arrivals b clients) m a err.

Lemma async_race b clients m :
  net_ok (bnet b) → Forall talks clients → ∃ a err, asyncExchange IsFakeIP ecs b clients m = Some (m, (option_map Own a, err)) ∧ race b clients m a err.
Proof.
  intros Hn Ht. unfold asyncExchange, exchange_batch. destruct (batch_race (bnet b) ecs IsFakeIP (bctx b) (border b) clients m Hn Ht) as (a & err & -> & Hr).
  exists a, err. by split.
Qed.

(** An answer with addresses, none of which is filtered. *)
Definition trusted r (x : Msg) : bool := negb (bool_decide (msgToIP x = [])) && forallb (λ ip, negb (shouldIPFallback r ip)) (msgToIP x).

Lemma race_some b clients m x err : race b clients m (Some x) err → err = None.
Proof. by intros [? _]. Qed.
Lemma race_none b clients m err : race b clients m None err → ∃ e, err = Some (AllFailed e).
Proof. by intros [? _]. Qed.

Lemma shouldNotFallback_race r b clients m a err :
  race b clients m a err → shouldNotFallback r m (option_map Own a) err = Some (match a with Some x => trusted r x | None => false end).
Proof. destruct a as [x|]; intros Hr; [by rewrite (race_some _ _ _ _ _ Hr)|]. by destruct (race_none _ _ _ _ Hr) as [e ->]. Qed.
End fallbacks.

(** C17. Where fallback servers are configured, no policy applies and the domain is not one for the fallback servers only, an address
    query always ends, and with the answer of the main servers exactly if it has addresses of which none matches an address
    filter: a filtered answer, an empty one or a failure gives way to what the fallback servers say, whether they are
    asked at once or only then, and in whatever order servers return.  Each group's answer is that of the first of its
    servers to return a usable one. *)
Theorem ip_exchange_fallback `{UnicodeCase} `{DnsLib} (IsFakeIP : Addr → bool) (ecs : ecsState) bm bf swap r m servers :
  matchPolicy r m = [] → shouldOnlyQueryFallback r m = false → fallback r = Some servers →
  net_ok (bnet bm) → net_ok (bnet bf) → Forall talks (main r) → Forall talks servers →
  ∃ a err af ef, race IsFakeIP ecs bm (main r) m a err ∧ race IsFakeIP ecs bf servers m af ef ∧
    ipExchange IsFakeIP ecs bm bf swap r m =
      Some (m, if match a with Some x => trusted r x | None => false end then (option_map Own a, err) else (option_map Own af, ef)).
Proof.
  intros Hp Ho Hf Hn Hn' Ht Ht'. unfold ipExchange. rewrite Hp, Ho, Hf.
  destruct (async_race IsFakeIP ecs bm (main r) m Hn Ht) as (a & err & Ea & Ra). destruct (async_race IsFakeIP ecs bf servers m Hn' Ht') as (af & ef & Ef & Rf).
  exists a, err, af, ef. split; [done|]. split; [done|]. pose proof (shouldNotFallback_race IsFakeIP ecs r bm (main r) m a err Ra) as Hk.
  destruct (fallbackLazyQuery r); [|destruct swap]; repeat (rewrite ?Ea, ?Ef, ?Hk; cbn [mbind option_bind fst snd]); [|done|done].
  by destruct (match a with Some x => trusted r x | None => false end).
Qed.

(** ** Answers from the cache *)

Definition on_name `{UnicodeCase} (q : Question) : Question := mkQuestion (ToLower (q_name q)) (q_type q) (q_class q).

(** The copy of the request that is sent, with the name in lower case. *)
Definition request_of `{UnicodeCase} (m : Msg) : Msg :=
  set_question m (Id m) (match Questions m with q :: l => on_name q :: l | [] => [] end).

Section exchange.
Context `{UnicodeCase} `{DnsLib} `{Lo} {B : Type} `{!Backend string (storedValue (option Msg)) B}.
Context (IsFakeIP : Addr → bool) (ecs : ecsState) (r : Resolver) (QuestionString : Question → string) (tag : dnsError → nat).
#[local] Abbreviation cache_t := (Cache string (option Msg) B).

Definition cache_key (scope : string) (m : Msg) : string :=
  ScopedKey scope (match Questions (request_of m) with q :: _ => QuestionString q | [] => "" end).

Definition accept (v : option Msg) : bool := match v with Some _ => negb (hasUpstreamFakeIP IsFakeIP v) | None => false end.
Definition readUpstreamCache (now : Z) (c : cache_t) (key : string) : option (cache_t * option (option Msg * Z)) :=
  GetWithExpireValidated now c key accept.

(** What a caller has before it waits: an error, a reply, or a flight. *)
Inductive begun := Refused (e : dnsError) | Replied (m : Msg) | Waiting (w : waiting (V := option Msg)).

(** The clock is read before each decision: [t 0] by the cache, [t 1] for the deadline, [t 2] by the refresh, [t 3] and [t 4]
    for the times to live. *)
Definition ExchangeContext_begin (t : nat → Z) (scope : string) (c : cache_t) (m : Msg) : option (cache_t * begun) :=
  if negb (length (Questions m) =? 1)%nat then Some (c, Refused OneQuestion)
  else
    let key := cache_key scope m in
    '(c, hit) ← readUpstreamCache (t 0%nat) c key;
    match hit with
    | Some (Some msg, due) =>
        c ← (if due <=? t 1%nat then '(c, _) ← Refresh (t 2%nat) c key; Some c else Some c);
        Some (c, Replied (cachedReply (t 3%nat) (t 4%nat) msg due m))
    | _ => '(c, w) ← Refresh (t 2%nat) c key; Some (c, Waiting w)
    end.

(** The rest of it, once the flight has landed; [None] while it flies (or for a nil message, of which there is none). *)
Definition ExchangeContext_end (c : cache_t) (w : waiting (V := option Msg)) (m : Msg) : option (Msg + DevCache.error) :=
  match await c w with
  | Some (_, Some err) => Some (inr err)
  | Some (Some msg, None) => Some (inl (cachedReply 0 0 msg zeroTime m))
  | _ => None
  end.

(** ** Sequences of queries, returning workers and other uses of the cache *)

(** The cache with its workers, and the key and the request each of them was started for. *)
Record state := mkState { store : sys string (option Msg) B; asked : gmap nat (string * Msg) }.

Inductive event :=
| EQuery (t : nat → Z) (scope : string) (m : Msg)
| EWorker (now : Z) (f : nat) (bm bf : batch) (swap : bool)
| ERestore (now : Z) (key : string) (v : option Msg) (due updated : Z)
| EClear
| EStale (now : Z) (scope : string).

(** After a query the worker it may have started runs. *)
Definition launch (s : state) (c : cache_t) (key : string) (m : Msg) : state :=
  let n := started (cache (store s)) in
  if (started c =? n)%nat then mkState (mkSys c (running (store s))) (asked s)
  else mkState (mkSys c (<[n := key]> (running (store s)))) (<[n := (key, request_of m)]> (asked s)).

Definition resolver_step (s : state) (e : event) : option state :=
  match e with
  | EQuery t scope m =>
      '(c, _) ← ExchangeContext_begin t scope (cache (store s)) m;
      Some (launch s c (cache_key scope m) m)
  | EWorker now f bm bf swap =>
      match asked s !! f with
      | None => Some s
      | Some (_, m) =>
          '(v, due, err) ← fetch IsFakeIP ecs now bm bf swap r m;
          st ← step None now (store s) (ODone f v due (option_map (λ e, FetchError (tag e)) err));
          Some (mkState st (asked s))
      end
  | ERestore now key v due updated => st ← step None now (store s) (ORestore key v due updated); Some (mkState st (asked s))
  | EClear => st ← step None 0 (store s) OClear; Some (mkState st (asked s))
  | EStale now scope => st ← step None now (store s) (OMarkStale (λ key, InScope key scope)); Some (mkState st (asked s))
  end.

Fixpoint resolver_run (s : state) (es : list event) : option state :=
  match es with [] => Some s | e :: es => s ← resolver_step s e; resolver_run s es end.
End exchange.
Arguments state : clear implicits.
