(* ===== verification/DnsResolverTheory.v ===== *)
(** * What a resolver answers

    Whatever sequence of queries, returning workers, restored records, clears and network
    changes a resolver sees, its replies fit the request, carry no address of the fake-IP
    pools and come from an answer of its own servers to that question, or from a record
    that was restored. *)

From Stdlib Require Import ZArith Lia.
From stdpp Require Import base strings numbers gmap list.
From S2P Require Import Prelude GoStrings GoNet DomainTrie DevCache DevCacheTheory DevCacheRefresh DevBackends DevRegistry DnsHandler DnsMessage DnsClients DnsResolver.
#[local] Open Scope string_scope.
#[local] Open Scope list_scope.
#[local] Open Scope Z_scope.

(** ** The flights of a cache that land *)

Section lands.
Context {K V B : Type} `{Countable K} `{!Backend K (storedValue V) B} (zero : V).
Implicit Types (c : Cache K V B).

Definition lands c c' : Prop := ∀ f r, results c' !! f = Some r → results c !! f = Some r ∨ rErr r = Some ErrInvalidated.

Lemma lands_eq c c' : results c' = results c → lands c c'.
Proof. intros E f r. rewrite E. by left. Qed.
Lemma lands_trans c1 c2 c3 : lands c1 c2 → lands c2 c3 → lands c1 c3.
Proof. intros L1 L2 f r Hr. destruct (L2 f r Hr) as [?|?]; [by apply L1|by right]. Qed.

Lemma get_results now c k c' r : get now c k = Some (c', r) → results c' = results c.
Proof.
  unfold get. destruct (bGetWithExpire now (data c) k) as [[b x]|]; [|done]. cbn [mbind option_bind].
  destruct x as [[v due]|]; [|by intros [= <- <-]]. destruct (_ <=? _); by intros [= <- <-].
Qed.

Lemma invalidate_all_lands ks : ∀ c c', invalidate_all zero c ks = Some c' → lands c c'.
Proof.
  induction ks as [|k ks IH]; intros c c'; cbn [invalidate_all]; [intros [= <-]; by apply lands_eq|].
  destruct (invalidateFlight zero c k) as [c1|] eqn:E; [|done]. cbn [mbind option_bind]. intros Hr. eapply lands_trans; [|by apply IH].
  unfold invalidateFlight in E. destruct (flights c !! k) as [f|]; [|injection E as <-; by apply lands_eq].
  unfold close_flight in E. cbn in E. destruct (results c !! f); [done|]. injection E as <-. intros f' r'. cbn [results].
  intros [[_ <-]|[_ ?]]%lookup_insert_Some; [by right|by left].
Qed.

Lemma Clear_lands c c' : Clear zero c = Some c' → lands c c'.
Proof. unfold Clear. intros E. apply (lands_trans c (set_retry (set_data c (bClear (data c))) ∅)); [by apply lands_eq|]. by eapply invalidate_all_lands. Qed.

Lemma foldl_add_results now l : ∀ c out, results (foldl (add now) (c, out) l).1 = results c.
Proof. induction l as [|[k [v due]] l IH]; intros c out; [done|]. cbn [foldl add]. destruct (_ <=? _); cbn [fst snd]; by rewrite IH. Qed.

Lemma stale_items_results now m l : ∀ c c', stale_items now c m l = Some c' → results c' = results c.
Proof.
  induction l as [|i l IH]; intros c c'; cbn [stale_items]; [by intros [= <-]|]. destruct (m (DevCache.Key i)); [|apply IH].
  destruct (bSetWithExpire _ _ _ _ _); [|done]. cbn [mbind option_bind]. intros E. apply (IH _ _ E).
Qed.

Lemma MarkStale_lands now c m c' : MarkStale zero now c m = Some c' → lands c c'.
Proof.
  unfold MarkStale, snapshot. destruct (bSnapshot (data c)) as [l|]; [|done]. cbn [mbind option_bind]. pose proof (foldl_add_results now l c []) as Hf.
  destruct (foldl (add now) (c, []) l) as [c1 l1]. destruct (stale_items now c1 m l1) as [c2|] eqn:E; [|done]. cbn [mbind option_bind fst] in *. intros Hi.
  apply (lands_trans c c2); [apply lands_eq; by rewrite (stale_items_results _ _ _ _ _ E)|]. by eapply invalidate_all_lands.
Qed.

Lemma restore_results now c k v due u c' : restore now c k v due u = Some c' → results c' = results c.
Proof.
  unfold restore. destruct (_ <=? _); [by intros [= <-]|]. destruct (get now c k) as [[c1 r]|] eqn:E; [|done]. cbn [mbind option_bind]. apply get_results in E.
  destruct r; [by intros [= <-]|]. destruct (bSetWithExpire _ _ _ _ _); [|done]. by intros [= <-].
Qed.

Lemma Validated_results now c k acc c' r : GetWithExpireValidated now c k acc = Some (c', r) → results c' = results c.
Proof.
  unfold GetWithExpireValidated. destruct (get now c k) as [[c1 x]|] eqn:E; [|done]. cbn [mbind option_bind]. apply get_results in E.
  destruct x as [[v due]|]; [|by intros [= <- <-]]. destruct (acc (value v)); by intros [= <- <-].
Qed.

Lemma Refresh_results now c k c' w : Refresh now c k = Some (c', w) → results c' = results c.
Proof.
  unfold Refresh. destruct (flights c !! k); [by intros [= <- <-]|]. destruct (_ <? _); [|by intros [= <- <-]].
  destruct (get now c k) as [[c1 r]|] eqn:E; [|done]. cbn [mbind option_bind]. apply get_results in E. destruct r as [[v due]|]; by intros [= <- <-].
Qed.

Lemma publish_results now c k f v due err c' : publish now c k f v due err = Some c' →
  results c' = results c ∨ results c' = <[f := mkResult v err]> (results c).
Proof.
  unfold publish. case_bool_decide; [|intros [= <-]; by left].
  assert (∀ c2, results c2 = results c → close_flight c2 f (mkResult v err) = Some c' → results c' = <[f := mkResult v err]> (results c)) as Hc.
  { intros c2 E2. unfold close_flight. destruct (results c2 !! f); [done|]. intros [= <-]. cbn. by rewrite E2. }
  destruct err as [e|].
  - destruct (get now _ k) as [[c1 r]|] eqn:E; [|done]. cbn [mbind option_bind]. apply get_results in E. cbn in E. destruct r; cbn [mbind option_bind]; intros Hp; right; (eapply Hc; [|exact Hp]; exact E).
  - destruct (due =? zeroTime); cbn [mbind option_bind]; [intros Hp; right; (eapply Hc; [|exact Hp]; done)|]. destruct (bSetWithExpire _ _ _ _ _); [|done]. cbn [mbind option_bind]. intros Hp. right. eapply Hc; [|exact Hp]; done.
Qed.
End lands.

(** ** What a worker fetches *)

Section fetches.
Context `{UnicodeCase} `{DnsLib} `{Lo} (IsFakeIP : Addr → bool) (ecs : ecsState).
Implicit Types (m : Msg).

(** A request and what clients make of it: they may set the return code. *)
Definition request_kept m m' : Prop := Answer m' = [] ∧ Questions m' = Questions m.

Lemma request_kept_refl m : Answer m = [] → request_kept m m.
Proof. by split. Qed.
Lemma request_kept_trans m1 m2 m3 : request_kept m1 m2 → request_kept m2 m3 → request_kept m1 m3.
Proof. intros [? ?] [? ?]. split; congruence. Qed.

Lemma ExchangeContext_kept net c : ∀ m m' x, Answer m = [] → ExchangeContext net ecs c m = Some (m', x) → request_kept m m'.
Proof.
  induction c as [rcode|id ns|c IH types|c IH p auto ov]; intros m m' x Ha; cbn [ExchangeContext].
  - intros [= <- _]. by split.
  - destruct (net id ns m). intros [= <- _]. by split.
  - destruct (existsb _ _); [intros [= <- _]; by split|]. destruct (ExchangeContext net ecs c m) as [[m1 [a err]]|] eqn:E; [|done]. cbn [mbind option_bind].
    destruct (IH m m1 _ Ha E) as [A1 Q1]. destruct err, a as [[|y]|]; try done; intros [= <- _]; split; try done. cbn [Answer without set_sections]. by rewrite A1.
  - assert (∀ p, ('(m', (a, err)) ← ExchangeContext net ecs c (setEdns0Subnet m p ov).1; Some (m, (option_map (λ r, Own (deref m' r)) a, err))) = Some (m', x) → request_kept m m') as Hs.
    { intros p0. destruct (ExchangeContext net ecs c _) as [[m1 [a err]]|]; [|done]. intros [= <- _]. by split. }
    destruct auto; [|apply Hs]. destruct (ecs_Prefix _ _); [apply Hs|by apply IH].
Qed.

Lemma query_kept net ctx c m m' x : Answer m = [] → query net ecs IsFakeIP ctx c m = Some (m', x) →
  request_kept m m' ∧ ∀ y, x = inl (Own y) → hasUpstreamFakeIP IsFakeIP (Some y) = false.
Proof.
  intros Ha. unfold query, exchangeDiagnostic. destruct (ExchangeContext net ecs c m) as [[m1 [a err]]|] eqn:E; [|done]. cbn [mbind option_bind].
  pose proof (ExchangeContext_kept net c m m1 _ Ha E) as Hk. destruct (normalizeDNSExchangeError ctx err) as [e|].
  - rewrite bool_decide_true by (by eexists). cbn. intros [= <- <-]. by split.
  - rewrite bool_decide_false by (by intros [? ?]). cbn [negb andb]. destruct (hasUpstreamFakeIP IsFakeIP (option_map (deref m1) a)) eqn:Ef; cbn [mbind option_bind]; [intros [= <- <-]; by split|].
    destruct a as [a|]; [|done]. destruct (_ || _); intros [= <- <-]; split; try done. intros y [= ->]. exact Ef.
Qed.

Lemma queries_kept net ctx l : ∀ m m' rs, Answer m = [] → queries net ecs IsFakeIP ctx l m = Some (m', rs) →
  request_kept m m' ∧ ∀ y, inl (Own y) ∈ rs → hasUpstreamFakeIP IsFakeIP (Some y) = false.
Proof.
  induction l as [|c l IH]; intros m m' rs Ha; cbn [queries]; [intros [= <- <-]; split; [by split|]; intros y Hy; by apply elem_of_nil in Hy|].
  destruct (query net ecs IsFakeIP ctx c m) as [[m1 x]|] eqn:E; [|done]. cbn [mbind option_bind]. destruct (query_kept net ctx c m m1 x Ha E) as [K1 F1].
  destruct (queries net ecs IsFakeIP ctx l m1) as [[m2 xs]|] eqn:E2; [|done]. intros [= <- <-]. destruct (IH m1 m2 xs (proj1 K1) E2) as [K2 F2].
  split; [by eapply request_kept_trans|]. intros y [Hy|Hy]%elem_of_cons; [by apply F1|by apply F2].
Qed.

(** An answer that is a message of its own has no fake address. *)
Definition unfaked (a : option ref) : Prop := ∀ y, a = Some (Own y) → hasUpstreamFakeIP IsFakeIP (Some y) = false.

Lemma batch_kept b clients m m' a cached err : Answer m = [] → exchange_batch IsFakeIP ecs b clients m = Some (m', (a, cached, err)) → request_kept m m' ∧ unfaked a.
Proof.
  intros Ha. unfold exchange_batch, batchExchange. destruct (first_rcode clients); [intros [= <- <- _ _]; by split|].
  destruct (queries _ _ _ _ _ m) as [[m1 rs]|] eqn:E; [|done]. cbn [mbind option_bind]. rewrite finish_all. cbn. intros [= <- <- _ _].
  destruct (queries_kept _ _ _ _ _ _ Ha E) as [K F]. split; [done|]. intros y Hy. apply F.
  apply head_Some_elem_of, list_elem_of_omap in Hy as ([v|e] & Hin & Heq); [|done]. by injection Heq as ->.
Qed.

Lemma async_kept b clients m m' a err : Answer m = [] → asyncExchange IsFakeIP ecs b clients m = Some (m', (a, err)) → request_kept m m' ∧ unfaked a.
Proof.
  intros Ha. unfold asyncExchange. destruct (exchange_batch _ _ _ _ _) as [[m1 [[a1 c1] e1]]|] eqn:E; [|done]. intros [= <- <- _]. by eapply batch_kept.
Qed.

Lemma ipExchange_kept bm bf swap r m m' a err : Answer m = [] → ipExchange IsFakeIP ecs bm bf swap r m = Some (m', (a, err)) → request_kept m m' ∧ unfaked a.
Proof.
  intros Ha. unfold ipExchange. destruct (matchPolicy r m); [|by apply async_kept]. destruct (shouldOnlyQueryFallback r m); [by apply async_kept|].
  destruct (fallback r) as [servers|]; [|by apply async_kept]. destruct (fallbackLazyQuery r).
  - destruct (asyncExchange _ _ bm _ m) as [[m1 [a1 e1]]|] eqn:E1; [|done]. cbn [mbind option_bind]. destruct (async_kept _ _ _ _ _ _ Ha E1) as [K1 F1].
    destruct (shouldNotFallback r m1 a1 e1) as [[]|]; [|cbn [mbind option_bind]|done]; [by intros [= <- <- _]|].
    intros E2. destruct (async_kept _ _ _ _ _ _ (proj1 K1) E2) as [K2 F2]. split; [by eapply request_kept_trans|done].
  - intros E.
    assert (∃ a1 e1 a2 e2 keep, (a, err) = (if (keep : bool) then (a1, e1) else (a2, e2)) ∧ request_kept m m' ∧ unfaked a1 ∧ unfaked a2) as (a1 & e1 & a2 & e2 & keep & Heq & K & F1 & F2).
    { destruct swap.
      - destruct (asyncExchange _ _ bf _ m) as [[m1 [a2 e2]]|] eqn:E1; [|done]. cbn [mbind option_bind] in E. destruct (async_kept _ _ _ _ _ _ Ha E1) as [K1 F1].
        destruct (asyncExchange _ _ bm _ m1) as [[m2 [a1 e1]]|] eqn:E2; [|done]. cbn [mbind option_bind] in E. destruct (async_kept _ _ _ _ _ _ (proj1 K1) E2) as [K2 F2].
        destruct (shouldNotFallback r m2 a1 e1) as [keep|]; [|done]. cbn [mbind option_bind] in E. injection E as <- Heq. exists a1, e1, a2, e2, keep.
        split; [by destruct keep|]. split; [by eapply request_kept_trans|done].
      - destruct (asyncExchange _ _ bm _ m) as [[m1 [a1 e1]]|] eqn:E1; [|done]. cbn [mbind option_bind] in E. destruct (async_kept _ _ _ _ _ _ Ha E1) as [K1 F1].
        destruct (asyncExchange _ _ bf _ m1) as [[m2 [a2 e2]]|] eqn:E2; [|done]. cbn [mbind option_bind] in E. destruct (async_kept _ _ _ _ _ _ (proj1 K1) E2) as [K2 F2].
        destruct (shouldNotFallback r m2 a1 e1) as [keep|]; [|done]. cbn [mbind option_bind] in E. injection E as <- Heq. exists a1, e1, a2, e2, keep.
        split; [by destruct keep|]. split; [by eapply request_kept_trans|done]. }
    split; [done|]. destruct keep; by simplify_eq.
Qed.

(** What a worker hands out without an error. *)
Definition answer_ok (v : option Msg) : Prop :=
  ∃ x, v = Some x ∧ hasUpstreamFakeIP IsFakeIP (Some x) = false ∧ Truncated x = false ∧ (Rcode x = RcodeSuccess ∨ Rcode x = RcodeNameError).

Lemma fetch_ok now bm bf swap r m v due : Answer m = [] → fetch IsFakeIP ecs now bm bf swap r m = Some (v, due, None) → answer_ok v.
Proof.
  intros Ha. unfold fetch. destruct (head (Questions m)) as [q|]; [|done]. cbn [mbind option_bind].
  set (x := if isIPRequest q then _ else _). assert (∀ m' a c err, x = Some (m', (a, c, err)) → request_kept m m' ∧ unfaked a) as Hx.
  { intros m' a c err. unfold x. destruct (isIPRequest q).
    - destruct (ipExchange _ _ _ _ _ _ _) as [[m1 [a1 e1]]|] eqn:E; [|done]. intros [= <- <- _ _]. by eapply ipExchange_kept.
    - destruct (matchPolicy r m); by apply batch_kept. }
  clearbody x. destruct x as [[m' [[a c] err]]|]; [|done]. destruct (Hx _ _ _ _ eq_refl) as [K F]. cbn [mbind option_bind].
  destruct err; [done|]. destruct a as [a|]; [|done].
  assert (hasUpstreamFakeIP IsFakeIP (Some (deref m' a)) = false) as Hf by (destruct a as [|y]; [unfold deref, hasUpstreamFakeIP, msgToIP; by rewrite (proj1 K)|by apply F]).
  destruct (Truncated (deref m' a)) eqn:Et; [done|]. cbn [orb].
  destruct (negb (Rcode (deref m' a) =? RcodeSuccess) && negb (Rcode (deref m' a) =? RcodeNameError)) eqn:Er; [done|].
  assert (Rcode (deref m' a) = RcodeSuccess ∨ Rcode (deref m' a) = RcodeNameError) as Hr.
  { apply andb_false_iff in Er as [?%negb_false_iff%Z.eqb_eq|?%negb_false_iff%Z.eqb_eq]; tauto. }
  destruct c; cbn [negb]; [|intros [= <- _]; by eexists].
  unfold prepareCachedMessage. destruct ((q_type q =? TypeTXT) && _); intros [= <- _]; by eexists.
Qed.
End fetches.

(** ** Replies keep the records *)

Definition same_records (x reply : Msg) : Prop :=
  let same := Forall2 (λ r r', ∃ ttl, r' = set_ttl r ttl) in
  Rcode reply = Rcode x ∧ same (Answer x) (Answer reply) ∧ same (Ns x) (Ns reply) ∧ same (Extra x) (Extra reply).

Lemma updateTTL_same `{Lo} l ttl : Forall2 (λ r r', ∃ ttl, r' = set_ttl r ttl) l (updateTTL l ttl).
Proof. destruct l as [|r0 l0]; [done|]. unfold updateTTL. apply list.Forall2_fmap_r, Forall_Forall2_diag, list.Forall_true. by eexists. Qed.

Lemma cachedReply_same `{Lo} now1 now2 m due request : same_records m (cachedReply now1 now2 m due request).
Proof.
  unfold cachedReply. assert (∀ l, Forall2 (λ r r', ∃ ttl, r' = set_ttl r ttl) l l) as Hrefl by (intros l; apply Forall_Forall2_diag, list.Forall_true; intros r; exists (rr_ttl r); by destruct r).
  destruct (due =? zeroTime); [by split|]. destruct (due <=? now1).
  - unfold setMsgTTL, same_records. cbn [Answer Ns Extra Rcode set_sections set_question]. split; [done|].
    split_and!; apply list.Forall2_fmap_r, Forall_Forall2_diag, list.Forall_true; intros r; try by eexists. cbn. destruct (rr_type r =? TypeOPT); [exists (rr_ttl r); by destruct r|by eexists].
  - unfold updateMsgTTL, same_records. cbn [Answer Ns Extra Rcode set_sections set_question]. split_and!; [done|apply updateTTL_same..].
Qed.

Lemma same_records_fake IsFakeIP x reply : same_records x reply → hasUpstreamFakeIP IsFakeIP (Some reply) = hasUpstreamFakeIP IsFakeIP (Some x).
Proof.
  intros (_ & Ha & _). unfold hasUpstreamFakeIP, msgToIP. f_equal. induction Ha as [|r r' l l' [ttl ->] _ IH]; [done|]. cbn [omap list_omap]. rewrite IH. done.
Qed.

Lemma cachedReply_question `{Lo} now1 now2 m due request :
  Id (cachedReply now1 now2 m due request) = Id request ∧ Questions (cachedReply now1 now2 m due request) = Questions request.
Proof. unfold cachedReply. destruct (due =? zeroTime); [done|]. by destruct (due <=? now1). Qed.

(** ** The resolver over any sequence of events *)

Section replies.
Context `{UnicodeCase} `{DnsLib} `{Lo} {B : Type} `{!Backend string (storedValue (option Msg)) B}.
Context (ok : B → Prop) (view : B → string → option (storedValue (option Msg) * Z)) `{HLaws : !BackendLaws ok view}.
Context (IsFakeIP : Addr → bool) (ecs : ecsState) (r : Resolver) (QuestionString : Question → string) (tag : dnsError → nat).
Context (restored : string → option Msg → Prop).
#[local] Abbreviation see := (DevCacheTheory.see view).
#[local] Abbreviation good := (DevCacheTheory.good ok).
#[local] Abbreviation key_of := (cache_key QuestionString).
Implicit Types (s : state B) (st : sys string (option Msg) B).

(** An answer of the resolver's servers to a request with that key. *)
Definition fetched (key : string) (v : option Msg) : Prop :=
  ∃ scope m now bm bf swap due, key = key_of scope m ∧ Answer m = [] ∧ fetch IsFakeIP ecs now bm bf swap r (request_of m) = Some (v, due, None).

Definition asked_ok (key : string) (req : Msg) : Prop := ∃ scope m, key = key_of scope m ∧ Answer m = [] ∧ req = request_of m.

Record inv s : Prop := {
  inv_good : good (store s);
  inv_asked : ∀ f key req, asked s !! f = Some (key, req) → asked_ok key req;
  inv_runs : ∀ f key, running (store s) !! f = Some key → ∃ req, asked s !! f = Some (key, req);
  inv_values : ∀ key x due, see (cache (store s)) key = Some (x, due) → fetched key (value x) ∨ restored key (value x);
  inv_results : ∀ f res, results (cache (store s)) !! f = Some res → rErr res = None → ∃ key req, asked s !! f = Some (key, req) ∧ fetched key (DevCache.rValue res);
}.

Lemma inv_step s now o st a :
  inv s → step None now (store s) o = Some st →
  (∀ key x, writes now (store s) o key x → fetched key (value x) ∨ restored key (value x)) →
  (∀ f res, results (cache st) !! f = Some res → rErr res = None → results (cache (store s)) !! f = Some res ∨
    ∃ key req, (f < started (cache (store s)))%nat ∧ asked s !! f = Some (key, req) ∧ fetched key (DevCache.rValue res)) →
  (∀ f key, running st !! f = Some key → ∃ req, a !! f = Some (key, req)) →
  (∀ f, (f < started (cache (store s)))%nat → a !! f = asked s !! f) → (∀ f key req, a !! f = Some (key, req) → asked_ok key req) →
  inv (mkState st a).
Proof.
  intros [HG IA IR IV IS] E Hw Hres Hrun Ha Hok. destruct (step_spec None ok view now (store s) o st HG E) as (G1 & HE & _). split; cbn [store asked]; [done|done|done| |].
  - intros key x due Hx. destruct (HE key x due Hx) as [?|[[_ [d ?]]|?]]; [by eapply IV..|by apply Hw].
  - intros f res Hf He. destruct (Hres f res Hf He) as [Hold|(key & req & Hlt & Hk & Hfe)].
    + destruct (IS f res Hold He) as (key & req & Hk & Hfe). exists key, req. split; [|done]. rewrite Ha; [done|]. apply (tidy_closed _ (good_tidy _ _ HG)). by rewrite Hold.
    + exists key, req. split; [by rewrite Ha|done].
Qed.

(** A step that starts nothing and closes flights as invalidated only. *)
Lemma inv_plain s now o st :
  inv s → step None now (store s) o = Some st → plain o = true → lands (cache (store s)) (cache st) →
  (∀ key x, writes now (store s) o key x → fetched key (value x) ∨ restored key (value x)) → inv (mkState st (asked s)).
Proof.
  intros HI E Hp HL Hw. pose proof HI as [HG IA IR _ _]. destruct (plain_calm None ok view now (store s) o st HG ltac:(by rewrite Hp) E) as [Hr _].
  apply (inv_step s now o st (asked s) HI E Hw); [|by rewrite Hr|done|done].
  intros f res Hf He. destruct (HL f res Hf) as [?|?]; [by left|congruence].
Qed.

(** A query is a read of the cache and possibly a refresh. *)
Lemma query_steps s t scope m c b :
  good (store s) → ExchangeContext_begin IsFakeIP QuestionString t scope (cache (store s)) m = Some (c, b) →
  let key := key_of scope m in let s' := launch s c key m in
  (s' = s ∧ b = Refused OneQuestion) ∨
  ∃ st1, step None (t 0%nat) (store s) (OValidated key (accept IsFakeIP)) = Some st1 ∧
    ((s' = mkState st1 (asked s) ∧ ∃ x d, see (cache (store s)) key = Some (x, d) ∧ ∃ msg, value x = Some msg ∧ accept IsFakeIP (Some msg) = true ∧ b = Replied (cachedReply (t 3%nat) (t 4%nat) msg d m)) ∨
     ∃ w, (∃ c1, c1 = cache st1 ∧ Refresh (t 2%nat) c1 key = Some (c, w)) ∧ step None (t 2%nat) st1 (ORefresh key) = Some (store s') ∧
       ((∃ x d, see (cache (store s)) key = Some (x, d) ∧ ∃ msg, value x = Some msg ∧ accept IsFakeIP (Some msg) = true ∧ b = Replied (cachedReply (t 3%nat) (t 4%nat) msg d m)) ∨
        see (cache st1) key = None ∧ b = Waiting w)).
Proof.
  intros HG. unfold ExchangeContext_begin. destruct (length (Questions m) =? 1)%nat; cbn [negb].
  2: { intros [= <- <-]. left. split; [|done]. unfold launch. rewrite Nat.eqb_refl. by destruct s as [[? ?] ?]. }
  pose proof HG as [Hok HT _ _]. unfold readUpstreamCache. set (key := key_of scope m). cbn [step].
  destruct (GetWithExpireValidated (t 0%nat) (cache (store s)) key (accept IsFakeIP)) as [[c1 hit]|] eqn:Ev; [|done]. cbn [mbind option_bind]. intros Hb. right.
  exists (mkSys c1 (running (store s))). split; [done|]. cbn zeta.
  pose proof (Validated_calm ok view _ _ _ _ _ _ Hok HT Ev) as C1. pose proof (calm_started _ _ _ _ _ C1) as S1.
  assert (∀ c2 w, Refresh (t 2%nat) c1 key = Some (c2, w) → step None (t 2%nat) (mkSys c1 (running (store s))) (ORefresh key) = Some (store (launch s c2 key m))) as Hst.
  { intros c2 w Er. cbn [step cache running]. rewrite Er. cbn [mbind option_bind]. unfold launch. rewrite <- S1. destruct (Nat.eqb_spec (started c2) (started c1)) as [E|E]; [by rewrite bool_decide_true|by rewrite bool_decide_false]. }
  assert (match hit with
    | Some (v, d) => ∃ x, see (cache (store s)) key = Some (x, d) ∧ value x = v ∧ accept IsFakeIP v = true
    | None => see c1 key = None end) as Hhit.
  { unfold GetWithExpireValidated in Ev. destruct (get (t 0%nat) (cache (store s)) key) as [[c2 r0]|] eqn:Eg; [|done]. cbn [mbind option_bind] in Ev.
    destruct (cache_get_spec ok view _ _ _ _ _ Hok Eg) as (O2 & _ & _ & G). destruct r0 as [[v d]|]; [|injection Ev as <- <-; apply G].
    destruct (accept IsFakeIP (value v)) eqn:Ea; injection Ev as <- <-; [exists v; by split_and!; [apply G|..]|]. unfold DevCacheTheory.see. cbn. by apply (law_delete (data c2) key O2). }
  destruct hit as [[[msg|] d]|].
  - destruct Hhit as (x & Hx & Hv & Ha).
    destruct (d <=? t 1%nat).
    + destruct (Refresh (t 2%nat) c1 key) as [[c2 w]|] eqn:Er; [|done]. cbn [mbind option_bind] in Hb. injection Hb as <- <-. right. exists w. split; [by exists c1|]. split; [by apply Hst with w|].
      left. exists x, d. split; [done|]. by exists msg.
    + cbn [mbind option_bind] in Hb. injection Hb as <- <-. left. split; [|exists x, d; split; [done|]; by exists msg]. unfold launch. by rewrite <- S1, Nat.eqb_refl.
  - destruct Hhit as (x & _ & _ & Ha). done.
  - destruct (Refresh (t 2%nat) c1 key) as [[c2 w]|] eqn:Er; [|done]. cbn [mbind option_bind] in Hb. injection Hb as <- <-. right. exists w. split; [by exists c1|]. split; [by apply Hst with w|]. by right.
Qed.

Definition allowed (e : event) : Prop :=
  match e with
  | EQuery _ _ m => Answer m = []
  | ERestore _ key v _ _ => restored key v
  | _ => True
  end.

Lemma lands_refl (c : Cache string (option Msg) B) : lands c c.
Proof. by apply lands_eq. Qed.

Lemma inv_query s t scope m c b :
  inv s → Answer m = [] → ExchangeContext_begin IsFakeIP QuestionString t scope (cache (store s)) m = Some (c, b) → inv (launch s c (key_of scope m) m).
Proof.
  intros HI Ha Eb. destruct (query_steps s t scope m c b (inv_good _ HI) Eb) as [[-> _]|(st1 & E1 & Hn)]; [done|]. set (key := key_of scope m) in *.
  assert (inv (mkState st1 (asked s))) as I1.
  { apply (inv_plain s _ _ st1 HI E1 eq_refl); [|by intros ? ? ?]. cbn [step] in E1. destruct (GetWithExpireValidated _ _ _ _) as [[c1 hit]|] eqn:Ev; [|done]. injection E1 as <-.
    apply lands_eq. cbn. by eapply Validated_results. }
  destruct Hn as [[-> _]|(w & (c1 & -> & Er) & E2 & _)]; [done|].
  destruct (plain_calm None ok view (t 0%nat) (store s) (OValidated key (accept IsFakeIP)) st1 (inv_good _ HI) I E1) as [R1 C1]. pose proof (calm_started _ _ _ _ _ C1) as S1.
  destruct (inv_step (mkState st1 (asked s)) _ _ _ (asked (launch s c key m)) I1 E2) as [J1 J2 J3 J4 J5]; [by intros ? ? ?| | | | |].
  - cbn [store]. intros f res Hf _. left. cbn [step] in E2. rewrite Er in E2. injection E2 as E2. rewrite <- E2 in Hf. cbn [cache] in Hf. by rewrite (Refresh_results _ _ _ _ _ Er) in Hf.
  - cbn [step] in E2. rewrite Er in E2. injection E2 as E2. rewrite <- E2. cbn [running].
    intros f key'. unfold launch. rewrite S1. destruct (Nat.eqb_spec (started c) (started (cache (store s)))) as [E|E]; cbn [asked].
    + rewrite bool_decide_true by done. rewrite R1. apply (inv_runs _ HI).
    + rewrite bool_decide_false by done. rewrite R1. intros [[<- <-]|[Hne Hf]]%lookup_insert_Some; [exists (request_of m); by rewrite lookup_insert_eq|].
      rewrite lookup_insert_ne by done. by apply (inv_runs _ HI).
  - cbn [store asked]. intros f Hf. unfold launch. destruct (_ =? _)%nat; cbn [asked]; [done|]. rewrite lookup_insert_ne; [done|]. lia.
  - intros f key' req. unfold launch. destruct (_ =? _)%nat; cbn [asked]; [apply (inv_asked _ HI)|].
    intros [[_ [= <- <-]]|[_ Hf]]%lookup_insert_Some; [by exists scope, m|by eapply (inv_asked _ HI)].
  - by destruct (launch s c key m).
Qed.

Lemma inv_event s e s' : inv s → allowed e → resolver_step IsFakeIP ecs r QuestionString tag s e = Some s' → inv s'.
Proof.
  intros HI Ha. destruct e as [t scope m|now f bm bf swap|now key v due u| |now scope]; cbn [resolver_step].
  - destruct (ExchangeContext_begin _ _ t scope _ m) as [[c b]|] eqn:E; [|done]. intros [= <-]. by eapply inv_query.
  - destruct (asked s !! f) as [[key req]|] eqn:Ef; [|by intros [= <-]].
    destruct (fetch IsFakeIP ecs now bm bf swap r req) as [[[v due] err]|] eqn:Eq; [|done]. cbn [mbind option_bind].
    destruct (step None now (store s) _) as [st|] eqn:E; [|done]. intros [= <-]. destruct (inv_asked _ HI f key req Ef) as (scope & m & -> & Hm & ->).
    assert (err = None → fetched (key_of scope m) v) as Hfe by (intros ->; exists scope, m, now, bm, bf, swap, due; done).
    apply (inv_step s now _ st (asked s) HI E); [| | |done|apply (inv_asked _ HI)].
    + intros key' x (Hr & _ & He & ->). left. cbn. destruct (inv_runs _ HI f key' Hr) as [req' Hreq]. rewrite Ef in Hreq. injection Hreq as <- _. apply Hfe. by destruct err.
    + intros f' res Hf' He. cbn [step] in E. destruct (running (store s) !! f) as [k|] eqn:Hrun; [|injection E as <-; by left].
      destruct (publish _ _ _ _ _ _ _) as [c|] eqn:Ep; [|done]. injection E as <-. cbn [cache] in Hf'. destruct (publish_results _ _ _ _ _ _ _ _ Ep) as [Er|Er]; rewrite Er in Hf'; [by left|].
      apply lookup_insert_Some in Hf' as [[<- <-]|[_ ?]]; [|by left]. right. exists (key_of scope m), (request_of m). split; [by apply (good_started _ _ (inv_good _ HI) f k)|]. split; [done|]. apply Hfe. by destruct err.
    + cbn [step] in E. destruct (running (store s) !! f) as [k|] eqn:Hrun; [|injection E as <-; apply (inv_runs _ HI)].
      destruct (publish _ _ _ _ _ _ _) as [c|]; [|done]. injection E as <-. cbn [running]. intros f' key' [_ Hf']%lookup_delete_Some. by apply (inv_runs _ HI).
  - destruct (step None now (store s) _) as [st|] eqn:E; [|done]. intros [= <-]. apply (inv_plain s _ _ st HI E eq_refl); [|intros key' x [<- ->]; by right].
    cbn [step] in E. destruct (restore _ _ _ _ _ _) as [c|] eqn:Er; [|done]. injection E as <-. apply lands_eq. by eapply restore_results.
  - destruct (step None 0 (store s) OClear) as [st|] eqn:E; [|done]. intros [= <-]. apply (inv_plain s _ _ st HI E eq_refl); [|by intros ? ? ?].
    cbn [step] in E. destruct (Clear None (cache (store s))) as [c|] eqn:Er; [|done]. injection E as <-. by eapply Clear_lands.
  - destruct (step None now (store s) _) as [st|] eqn:E; [|done]. intros [= <-]. apply (inv_plain s _ _ st HI E eq_refl); [|by intros ? ? ?].
    cbn [step] in E. destruct (MarkStale None now _ _) as [c|] eqn:Er; [|done]. injection E as <-. by eapply MarkStale_lands.
Qed.

Lemma resolver_inv_run es : ∀ s s', inv s → Forall allowed es → resolver_run IsFakeIP ecs r QuestionString tag s es = Some s' → inv s'.
Proof.
  induction es as [|e es IH]; intros s s' HI Ha; cbn [resolver_run]; [by intros [= <-]|]. apply list.Forall_cons in Ha as [He Hes].
  destruct (resolver_step _ _ _ _ _ s e) as [s1|] eqn:E; [|done]. cbn [mbind option_bind]. by apply IH; [eapply inv_event|].
Qed.

Definition start_state (b : B) : state B := mkState (initial b) ∅.

Lemma inv_start b : ok b → (∀ k, view b k = None) → inv (start_state b).
Proof.
  intros Hok Hb. split; cbn; [by apply initial_good|done|done| |done]. intros key x due. unfold DevCacheTheory.see. cbn. by rewrite Hb.
Qed.

Lemma started_mono st now o st' : good st → step None now st o = Some st' → (started (cache st) <= started (cache st'))%nat.
Proof.
  intros HG E. pose proof HG as [Hok HT _ _]. destruct (plain o) eqn:Ep.
  { destruct (plain_calm None ok view now st o st' HG ltac:(by rewrite Ep) E) as [_ C]. by rewrite (calm_started _ _ _ _ _ C). }
  destruct o; try done; cbn [step] in E.
  - destruct (Refresh now (cache st) k) as [[c w]|] eqn:Er; [|done]. injection E as <-. cbn [cache]. pose proof (Refresh_spec ok view _ _ _ _ _ Hok HT Er) as HS. destruct w as [v|f].
    + destruct HS as (_ & C & _). by rewrite (calm_started _ _ _ _ _ C).
    + destruct HS as [[_ ->]|(_ & c1 & C & _ & -> & _)]; [done|]. cbn. rewrite (calm_started _ _ _ _ _ C). lia.
  - destruct (running st !! f) as [k|]; [|by injection E as <-]. destruct (publish now (cache st) k f v due err) as [c|] eqn:Ep'; [|done]. injection E as <-. cbn [cache].
    destruct (decide (flights (cache st) !! k = Some f)) as [Hf|Hf].
    + destruct (publish_spec ok view _ _ _ _ _ _ _ _ Hok HT Hf Ep') as (C & _). by rewrite (calm_started _ _ _ _ _ C).
    + unfold publish in Ep'. rewrite bool_decide_false in Ep' by done. by injection Ep' as <-.
Qed.

Lemma event_asked s e s' f : inv s → resolver_step IsFakeIP ecs r QuestionString tag s e = Some s' → (f < started (cache (store s)))%nat →
  asked s' !! f = asked s !! f ∧ (f < started (cache (store s')))%nat.
Proof.
  intros HI E Hf. pose proof (inv_good _ HI) as HG. assert (∀ st now o, step None now (store s) o = Some st → (f < started (cache st))%nat) as Hm.
  { intros st now o Es. pose proof (started_mono _ _ _ _ HG Es). lia. }
  destruct e as [t scope m|now g bm bf swap|now key v due u| |now scope]; cbn [resolver_step] in E;
    try (destruct (step None _ (store s) _) as [st|] eqn:Es; [|done]; injection E as <-; split; [done|by eapply Hm]).
  - destruct (ExchangeContext_begin _ _ t scope _ m) as [[c b]|] eqn:Eb; [|done]. injection E as <-. split.
    { unfold launch. destruct (_ =? _)%nat; cbn [asked]; [done|]. rewrite lookup_insert_ne; [done|lia]. }
    destruct (query_steps s t scope m c b HG Eb) as [[-> _]|(st1 & E1 & [[-> _]|(w & _ & E2 & _)])]; [done|by eapply Hm|].
    pose proof (Hm _ _ _ E1) as Hf1. destruct (step_spec None ok view _ _ _ _ HG E1) as (G1 & _). pose proof (started_mono _ _ _ _ G1 E2). lia.
  - destruct (asked s !! g) as [[key req]|]; [|by injection E as <-]. destruct (fetch _ _ _ _ _ _ _ _) as [[[v due] err]|]; [|done]. cbn [mbind option_bind] in E.
    destruct (step None now (store s) _) as [st|] eqn:Es; [|done]. injection E as <-. split; [done|by eapply Hm].
Qed.

Lemma run_asked es : ∀ s s' f, inv s → Forall allowed es → resolver_run IsFakeIP ecs r QuestionString tag s es = Some s' →
  (f < started (cache (store s)))%nat → asked s' !! f = asked s !! f.
Proof.
  induction es as [|e es IH]; intros s s' f HI Ha; cbn [resolver_run]; [by intros [= <-]|]. apply list.Forall_cons in Ha as [He Hes].
  destruct (resolver_step _ _ _ _ _ s e) as [s1|] eqn:E; [|done]. cbn [mbind option_bind]. intros Hr Hf. destruct (event_asked s e s1 f HI E Hf) as [<- Hf1].
  by apply IH; [eapply inv_event|..].
Qed.

(** A query that finds nothing waits for the flight of its key. *)
Lemma query_waits s t scope m c w :
  inv s → Answer m = [] → ExchangeContext_begin IsFakeIP QuestionString t scope (cache (store s)) m = Some (c, Waiting w) →
  ∃ f req, w = Waits f ∧ (f < started (cache (store (launch s c (key_of scope m) m))))%nat ∧ asked (launch s c (key_of scope m) m) !! f = Some (key_of scope m, req).
Proof.
  intros HI Ha Eb. pose proof (inv_query _ _ _ _ _ _ HI Ha Eb) as I2.
  destruct (query_steps s t scope m c _ (inv_good _ HI) Eb) as [[_ ?]|(st1 & E1 & Hn)]; [done|].
  destruct Hn as [(_ & x & d & _ & msg & _ & _ & ?)|(w' & (c1 & -> & Er) & E2 & [(x & d & _ & msg & _ & _ & ?)|[Hnone Hw]])]; [done|done|]. injection Hw as <-.
  destruct (step_spec None ok view _ _ _ _ (inv_good _ HI) E1) as ([O1 T1 _ _] & _). pose proof (Refresh_spec ok view _ _ _ _ _ O1 T1 Er) as HS.
  assert (cache (store (launch s c (key_of scope m) m)) = c) as Hc by (unfold launch; by destruct (_ =? _)%nat).
  destruct w as [v|f]; [destruct HS as (_ & _ & _ & _ & x & Hx & _); congruence|].
  assert (flights c !! key_of scope m = Some f) as Hf.
  { destruct HS as [[Hf ->]|(_ & c2 & C2 & _ & -> & ->)]; [done|]. cbn. rewrite (calm_started _ _ _ _ _ C2). apply lookup_insert_eq. }
  pose proof (inv_good _ I2) as G2. rewrite <- Hc in Hf. pose proof (good_runs _ _ G2 _ _ Hf) as Hrun. destruct (inv_runs _ I2 _ _ Hrun) as [req Hreq].
  exists f, req. split; [done|]. split; [by eapply (good_started _ _ G2)|done].
Qed.

(** A reply for a request. *)
Definition fits (m reply : Msg) : Prop := Id reply = Id m ∧ Questions reply = Questions m ∧ hasUpstreamFakeIP IsFakeIP (Some reply) = false.

(** What a reply was made from: an answer for the key of the request. *)
Definition made_from (P : string → option Msg → Prop) (scope : string) (m reply : Msg) : Prop :=
  ∃ x, P (key_of scope m) (Some x) ∧ same_records x reply.
End replies.


(** ** Servers that are return codes *)

Section rcodes.
Context `{UnicodeCase} `{DnsLib} `{LoLaws} (IsFakeIP : Addr → bool) (ecs : ecsState).

Lemma fetch_rcode now bm bf swap r m q l rcode clients :
  Questions m = q :: l → matchPolicy r m = rcodeClient rcode :: clients →
  fetch IsFakeIP ecs now bm bf swap r m =
    (if Truncated m || (negb (rcode =? RcodeSuccess) && negb (rcode =? RcodeNameError)) then Some (None, zeroTime, Some Unusable)
     else if isIPRequest q then let '(stored, due) := prepareCachedMessage now q (set_rcode m rcode) in Some (Some stored, due, None)
     else Some (Some (set_rcode m rcode), zeroTime, None)).
Proof.
  intros Hq Hp. unfold fetch, ipExchange. rewrite Hq, Hp. cbn [head mbind option_bind].
  destruct (isIPRequest q); reflexivity.
Qed.
End rcodes.

(** A policy whose server is a return code other than success and the absence of the name never gives that code to anybody: the
    answer of such a server counts as unusable, and the query fails. *)
Theorem rcode_never_served `{UnicodeCase} `{DnsLib} `{LoLaws} IsFakeIP ecs now bm bf swap r m q l rcode clients :
  Questions m = q :: l → matchPolicy r m = rcodeClient rcode :: clients → rcode ≠ RcodeSuccess → rcode ≠ RcodeNameError →
  fetch IsFakeIP ecs now bm bf swap r m = Some (None, zeroTime, Some Unusable).
Proof.
  intros Hq Hp H1' H2'. rewrite (fetch_rcode IsFakeIP ecs now bm bf swap r m q l rcode clients Hq Hp).
  rewrite (proj2 (Z.eqb_neq _ _) H1'), (proj2 (Z.eqb_neq _ _) H2'). by rewrite orb_true_r.
Qed.

(** The answer of the server [rcode://success] is cached for half a minute if an address was asked for, and not at all for any
    other question. *)
Theorem rcode_cached_for_addresses `{UnicodeCase} `{DnsLib} `{LoLaws} IsFakeIP ecs now bm bf swap r m q l clients :
  Questions m = q :: l → matchPolicy r m = rcodeClient RcodeSuccess :: clients → Truncated m = false → Answer m = [] → Ns m = [] → Extra m = [] →
  ∃ x, fetch IsFakeIP ecs now bm bf swap r m = Some (Some x, (if isIPRequest q then now + negativeCacheTTL * second else zeroTime), None).
Proof.
  intros Hq Hp Ht Ha Hn He. rewrite (fetch_rcode IsFakeIP ecs now bm bf swap r m q l _ clients Hq Hp), Ht. cbn [orb andb negb]. rewrite Z.eqb_refl. cbn [andb negb orb].
  destruct (isIPRequest q) eqn:Ei; [|by eexists]. unfold prepareCachedMessage, isIPRequest in *. cbn [Answer Ns Extra set_sections set_rcode]. rewrite Ha, Hn, He.
  assert (q_type q =? TypeTXT = false) as ->.
  { apply andb_true_iff in Ei as [_ Ei]. apply Z.eqb_neq. intros E. by rewrite E in Ei. }
  cbn [andb filter app length]. unfold minimalTTL. rewrite MinBy_empty. cbn. by eexists.
Qed.

(** A parameter that makes a wrapper around a return code turns its answer into a failure of the server. *)
Theorem rcode_wrapped_fails `{DnsLib} net ecs IsFakeIP types m q :
  Questions m = [q] → q_type q ∉ types → Answer m = [] →
  query net ecs IsFakeIP None (clientWithDisableTypes (rcodeClient RcodeRefused) types) m =
    Some (without types (set_rcode m RcodeRefused), inr (ServerFailed RcodeRefused)).
Proof.
  intros Hq Ht Ha. unfold query, exchangeDiagnostic. cbn [ExchangeContext]. rewrite Hq. cbn [existsb]. rewrite bool_decide_false by done. cbn [orb mbind option_bind].
  cbn [normalizeDNSExchangeError]. rewrite bool_decide_false by (by intros [? ?]). cbn [negb andb option_map deref].
  assert (hasUpstreamFakeIP IsFakeIP (Some (without types (set_rcode m RcodeRefused))) = false) as ->; [|done].
  unfold hasUpstreamFakeIP, msgToIP. cbn [Answer without set_sections set_rcode]. by rewrite Ha.
Qed.

(** ** Witnesses *)

Section witnesses.
#[local] Existing Instances ascii_case demo_lib demo_lo demo_lo_laws.

Definition server (addr : string) (params : list (string * string)) : NameServer := mkNameServer "" addr None "" (list_to_map params) false.

(** The fallback server is a main server without IPv6. *)
Definition demo_config : Config :=
  mkConfig [server "1.1.1.1:53" []; server "8.8.8.8:53" []] [server "1.1.1.1:53" [("disable-ipv6", "true")]] [] [] [] false [] [] true [] [].


(** The main server gives an address that is filtered, the fallback server another one. *)
Definition demo_query4 : Msg := set_question empty_msg 7 [mkQuestion "a.org." TypeA ClassINET].
Definition demo_reply (ip : list Z) (m : Msg) : Msg :=
  set_sections (set_rcode m RcodeSuccess) [mkRR "a.org." TypeA ClassINET 60 (DA ip)] [] [].
Definition demo_net (id : nat) (ns : NameServer) (m : Msg) : option Msg * option dnsError :=
  (Some (demo_reply (if (id =? 0)%nat then [192; 0; 2; 1] else [203; 0; 113; 9]) m), None).
Definition demo_batch : batch := mkBatch demo_net None [0%nat].
Definition demo_resolver : Resolver :=
  mkResolver [Transport 0 (server "1.1.1.1:53" [])] (Some [Transport 1 (server "8.8.8.8:53" [])]) [] [λ ip, bool_decide (ip = V4 0xC0000201)] false [].
Definition no_ecs : ecsState := mkEcs None None.

Lemma demo_net_ok : net_ok demo_net.
Proof. intros id ns m _. by eexists. Qed.

Lemma ip_exchange_fallback_witness :
  ∃ a err af ef, race (λ _, false) no_ecs demo_batch (main demo_resolver) demo_query4 a err ∧
    race (λ _, false) no_ecs demo_batch [Transport 1 (server "8.8.8.8:53" [])] demo_query4 af ef ∧
    ipExchange (λ _, false) no_ecs demo_batch demo_batch true demo_resolver demo_query4 = Some (demo_query4, (option_map Own af, ef)) ∧
    option_map msgToIP af = Some [V4 0xCB007109].
Proof.
  destruct (ip_exchange_fallback (λ _, false) no_ecs demo_batch demo_batch true demo_resolver demo_query4 [Transport 1 (server "8.8.8.8:53" [])])
    as (a & err & af & ef & Ra & Rf & E); [reflexivity|reflexivity|reflexivity|exact demo_net_ok|exact demo_net_ok|by repeat constructor|by repeat constructor|].
  exists a, err, af, ef. split; [exact Ra|]. split; [exact Rf|].
  assert (∀ id ns x e, race (λ _, false) no_ecs demo_batch [Transport id ns] demo_query4 x e →
    x = Some (demo_reply (if (id =? 0)%nat then [192; 0; 2; 1] else [203; 0; 113; 9]) demo_query4)) as Hrace.
  { intros id ns x e. unfold race, race_of, arrivals. cbn [demo_batch border bnet bctx omap list_omap lookup list_lookup]. intros Hr.
    destruct x as [x|]; [destruct Hr as (_ & _ & before & c & after & Hl & Hw & _)|destruct Hr as [_ Hl]; apply list.Forall_cons in Hl as [[e' Hl] _]; unfold query in Hl; cbn in Hl; destruct (id =? 0)%nat; done].
    destruct before as [|? [|]]; [|done..]. injection Hl as <- <-. unfold wins, query in Hw. cbn in Hw. destruct (id =? 0)%nat; cbn in Hw; congruence. }
  pose proof (Hrace _ _ a err Ra) as Ha. pose proof (Hrace _ _ af ef Rf) as Haf. cbn in Ha, Haf.
  rewrite E, Ha, Haf. split; reflexivity.
Defined.

(** A query, the worker it starts, and the same question again one second later, in capital letters. *)
Definition demo_events : list event := [EQuery (λ _, 0) "net" demo_query4; EWorker 0 0 demo_batch demo_batch false].
Definition demo_again : Msg := set_question empty_msg 8 [mkQuestion "A.ORG." TypeA ClassINET].


Lemma rcode_never_served_witness :
  fetch (λ _, false) no_ecs 0 demo_batch demo_batch false (mkResolver [] None [] [] false [domainMatcherPolicy (λ _, true) [rcodeClient RcodeRefused]]) demo_query4
  = Some (None, zeroTime, Some Unusable).
Proof.
  apply (rcode_never_served (λ _, false) no_ecs 0 demo_batch demo_batch false _ demo_query4 (mkQuestion "a.org." TypeA ClassINET) [] RcodeRefused []); [reflexivity|vm_compute; reflexivity|done|done].
Defined.
End witnesses.
