(* ===== verification/ResolverLookup.v ===== *)
(** * [component/resolver/resolver.go] and the lookups of [dns/resolver.go]: from host names to addresses

    The callers' side of name resolution: the hosts table first, then addresses that are
    written out, then a resolver.  The hosts table is a function, a resolver a record of
    its lookups; the lookups of the DNS resolver are built from its exchange.  What runs
    in a goroutine is the value that it sends, or nothing if the timer fires first. *)

From Stdlib Require Import ZArith Lia Ascii.
From stdpp Require Import base strings numbers list.
From S2P Require Import Prelude GoStrings GoNet GoNetText DnsHandler DnsMessage DnsClients.
#[local] Open Scope string_scope.
#[local] Open Scope list_scope.
#[local] Open Scope Z_scope.

Inductive lookupError := LNotFound | LVersion | LDisabled | LOther (e : dnsError).

(** Addresses and an error; both may be there. *)
Definition lookup_result : Type := list Addr * option lookupError.

(** ** Addresses that are written out *)

Definition last_byte (s : string) : option ascii := last (bytes s).

Definition mayBeAddrLiteral (host : string) : bool :=
  match last_byte host with
  | None => false
  | Some c => bool_decide (colon ∈ bytes host) || ((48 <=? byte_val c) && (byte_val c <=? 57))
  end.

Definition parseAddrLiteral (host : string) : option Addr := if negb (mayBeAddrLiteral host) then None else ParseAddr host.

(** ** The lookups of the DNS resolver *)

Section dns.
Context `{DnsLib} (ask : Msg → Msg + dnsError).

(** [SetQuestion], with the identifier it draws. *)
Definition question_for (id : Z) (host : string) (dnsType : Z) : Msg := set_question empty_msg id [mkQuestion (Fqdn host) dnsType ClassINET].

Definition lookupIP (id : Z) (host : string) (dnsType : Z) : lookup_result :=
  match ParseAddr host with
  | Some ip =>
      let ip := Unmap ip in
      let isIPv4 := Is4 ip in
      if (dnsType =? TypeAAAA) && negb isIPv4 then ([ip], None)
      else if (dnsType =? TypeA) && isIPv4 then ([ip], None)
      else ([], Some LVersion)
  | None =>
      match ask (question_for id host dnsType) with
      | inr e => ([], Some (LOther e))
      | inl msg => match msgToIP msg with [] => ([], Some LNotFound) | ips => (ips, None) end
      end
  end.

(** What comes out of the channel of a lookup: the addresses, or that it is closed. *)
Definition sent (x : lookup_result) : option (list Addr) := match x.2 with None => Some x.1 | Some _ => None end.

Definition LookupIPPrimaryIPv4 (id4 id6 : Z) (host : string) : lookup_result :=
  match lookupIP id4 host TypeA with
  | (ips, None) => (ips, None)
  | _ => match sent (lookupIP id6 host TypeAAAA) with None => ([], Some LNotFound) | Some ip => (ip, None) end
  end.

(** [in_time]: the other lookup is over before the timer fires. *)
Definition LookupIP_dns (id4 id6 : Z) (in_time : bool) (host : string) : lookup_result :=
  let '(ips, err) := lookupIP id4 host TypeA in
  if in_time then
    match sent (lookupIP id6 host TypeAAAA), err with
    | None, Some _ => ([], Some LNotFound)
    | ipv6s, _ => (ips ++ default [] ipv6s, None)
    end
  else (ips, None).
End dns.

(** ** Lookups with a resolver *)

Record resolver := mkResolver_ { Invalid : bool; rLookupIP : string → lookup_result; rLookupIPv4 : string → lookup_result; rLookupIPv6 : string → lookup_result }.

Section lookups.
Context (hosts : string → option (list Addr)) (DisableIPv6 : bool) (SystemResolver : resolver) (IntN : nat → nat).

Definition usable_resolver (r : option resolver) : resolver := match r with Some r => if Invalid r then r else SystemResolver | None => SystemResolver end.

Definition from_hosts (family : Addr → bool) (host : string) : list Addr := match hosts host with Some ips => filter (λ ip, family ip = true) ips | None => [] end.

Definition LookupIPv4WithResolver (host : string) (r : option resolver) : lookup_result :=
  match from_hosts Is4 host with
  | (_ :: _) as addrs => (addrs, None)
  | [] =>
      match parseAddrLiteral host with
      | Some ip => let ip := Unmap ip in if Is4 ip then ([ip], None) else ([], Some LVersion)
      | None => rLookupIPv4 (usable_resolver r) host
      end
  end.

Definition LookupIPv6WithResolver (host : string) (r : option resolver) : lookup_result :=
  if DisableIPv6 then ([], Some LDisabled)
  else
    match from_hosts Is6 host with
    | (_ :: _) as addrs => (addrs, None)
    | [] =>
        match parseAddrLiteral host with
        | Some ip => let ip := Unmap ip in if Is6 ip then ([ip], None) else ([], Some LVersion)
        | None => rLookupIPv6 (usable_resolver r) host
        end
    end.

Definition LookupIPWithResolver (host : string) (r : option resolver) : lookup_result :=
  match hosts host with
  | Some ips => (ips, None)
  | None =>
      match r, DisableIPv6 with
      | Some r', true => if Invalid r' then rLookupIPv4 r' host else LookupIPv4WithResolver host r
      | None, true => LookupIPv4WithResolver host r
      | _, false =>
          let direct := match parseAddrLiteral host with Some ip => ([Unmap ip], None) | None => rLookupIP SystemResolver host end in
          match r with Some r => if Invalid r then rLookupIP r host else direct | None => direct end
      end
  end.

Definition SortationAddr (ips : list Addr) : list Addr * list Addr :=
  (filter (λ v, Is4 (Unmap v) = true) ips, filter (λ v, Is4 (Unmap v) = false) ips).

(** An index into a slice; [None] is a panic. *)
Definition pick (ips : list Addr) : option Addr := ips !! IntN (length ips).

(** [Some (inr e)] is an error. *)
Definition resolve_first (l : lookup_result) (choose : list Addr → option Addr) : option (Addr + lookupError) :=
  match l with
  | (_, Some e) => Some (inr e)
  | ([], None) => Some (inr LNotFound)
  | (ips, None) => inl <$> choose ips
  end.

Definition ResolveIPv4WithResolver (host : string) (r : option resolver) := resolve_first (LookupIPv4WithResolver host r) pick.
Definition ResolveIPv6WithResolver (host : string) (r : option resolver) := resolve_first (LookupIPv6WithResolver host r) pick.
Definition ResolveIPWithResolver (host : string) (r : option resolver) :=
  resolve_first (LookupIPWithResolver host r) (λ ips, let '(ipv4s, ipv6s) := SortationAddr ips in match ipv4s with _ :: _ => pick ipv4s | [] => pick ipv6s end).
Definition ResolveIPPrefer6WithResolver (host : string) (r : option resolver) :=
  resolve_first (LookupIPWithResolver host r) (λ ips, let '(ipv4s, ipv6s) := SortationAddr ips in match ipv6s with _ :: _ => pick ipv6s | [] => pick ipv4s end).
End lookups.

(** ** The filter before the parser loses nothing *)

Lemma last_cons_some {A} (x : A) l y : last l = Some y → last (x :: l) = Some y.
Proof. by destruct l. Qed.

Lemma Split_single s sep : ∀ h, Split s sep = [h] → h = s.
Proof.
  induction s as [|c s IH]; intros h; cbn [Split]; [by intros [= <-]|]. case_bool_decide; [by destruct s as [|c' s'] eqn:E; cbn [Split]; [|case_bool_decide; [|destruct (Split s' sep)]]|].
  destruct (Split s sep) as [|h' t] eqn:E; [by destruct s; cbn in E; [|case_bool_decide; [|destruct (Split s sep)]]|]. intros [= <- ->]. by rewrite (IH h').
Qed.

Lemma Split_last s sep d y : last (Split s sep) = Some d → last (bytes d) = Some y → last (bytes s) = Some y.
Proof.
  revert d. induction s as [|c s IH]; intros d; cbn [Split bytes]; [by intros [= <-]|].
  pose proof (Split_nonempty s sep) as Hn. pose proof (Split_single s sep) as H1. case_bool_decide.
  - destruct (Split s sep) as [|h t] eqn:E; [done|]. intros Hd Hy. apply last_cons_some. by apply (IH d).
  - destruct (Split s sep) as [|h [|h2 t]]; [done| |].
    + intros [= <-]. cbn [bytes]. by rewrite (H1 h eq_refl).
    + intros Hd Hy. apply last_cons_some. by apply (IH d).
Qed.

Lemma parse_digits_last s : ∀ acc v, parse_digits acc s = Some v → s ≠ "" → ∃ c, last (bytes s) = Some c ∧ is_Some (digit_val c).
Proof.
  induction s as [|c s IH]; intros acc v; [done|]. cbn [parse_digits bytes]. destruct (digit_val c) as [d|] eqn:Ed; [|done]. intros Hp _.
  destruct s as [|c' s']; [exists c; by rewrite Ed|]. destruct (IH _ _ Hp) as (x & Hx & Hd); [done|]. exists x. split; [by apply last_cons_some|done].
Qed.

Lemma digit_val_range c : is_Some (digit_val c) → (48 <=? byte_val c) && (byte_val c <=? 57) = true.
Proof. unfold digit_val. destruct (_ && _); [done|]. by intros [? ?]. Qed.

Lemma parse_octet_last s v : parse_octet s = Some v → ∃ c, last (bytes s) = Some c ∧ is_Some (digit_val c).
Proof.
  intros Hp. assert (s = "0" ∨ ∃ w, s ≠ "" ∧ parse_digits 0 s = Some w) as [->|(w & Hs & Hw)]; [|by exists "0"%char; split; [|eexists]|by eapply parse_digits_last].
  destruct s as [|c s]; [done|]. right. unfold parse_octet in Hp.
  destruct (parse_digits 0 (String c s)) as [w|] eqn:E; [by exists w|]. exfalso. revert Hp E. clear. destruct c as [[] [] [] [] [] [] [] []]; try done; destruct s; try done.
Qed.

Lemma addr_kind_in l c : addr_kind l = Some c → c ∈ l.
Proof. induction l as [|x l IH]; [done|]. cbn [addr_kind]. destruct (_ || _); [intros [= ->]; by left|]. intros Hc. right. by apply IH. Qed.

(** The cheap test in front of the parser of addresses does not change what is parsed: whatever it rejects is no address. *)
Theorem addr_literal_prefilter host : parseAddrLiteral host = ParseAddr host.
Proof.
  unfold parseAddrLiteral, mayBeAddrLiteral, last_byte. destruct (last (bytes host)) as [y|] eqn:El.
  2: { destruct host as [|c host]; [done|]. cbn [bytes] in El. rewrite last_cons in El. by destruct (last (bytes host)). }
  destruct (bool_decide (colon ∈ bytes host)) eqn:Ec; [done|]. apply bool_decide_eq_false in Ec. cbn [orb].
  destruct ((48 <=? byte_val y) && (byte_val y <=? 57)) eqn:Ey; [done|]. cbn [negb]. symmetry. unfold ParseAddr.
  destruct (addr_kind (bytes host)) as [k|] eqn:Ek; [|done]. apply addr_kind_in in Ek.
  destruct (decide (k = colon)) as [->|Hk]; [done|]. destruct (decide (k = dot)) as [->|Hk'].
  2: { destruct k as [[] [] [] [] [] [] [] []]; done. }
  cbn. unfold parseIPv4Fields. destruct (Split host dot) as [|a [|b [|c [|d [|]]]]] eqn:Es; try done.
  destruct (parse_octet a), (parse_octet b), (parse_octet c), (parse_octet d) as [v|] eqn:Ed; try done. exfalso.
  destruct (parse_octet_last d v Ed) as (x & Hx & Hd). rewrite (Split_last host dot d x) in El; [|by rewrite Es|done]. injection El as ->.
  by rewrite (digit_val_range y Hd) in Ey.
Qed.

(** ** Lookups *)

Section theorems.
Context (hosts : string → option (list Addr)) (DisableIPv6 : bool) (SystemResolver : resolver) (IntN : nat → nat).
Hypothesis IntN_range : ∀ n, (0 < n)%nat → (IntN n < n)%nat.

Lemma pick_in ips : ips ≠ [] → ∃ ip, pick IntN ips = Some ip ∧ ip ∈ ips.
Proof.
  intros Hn. unfold pick. assert (IntN (length ips) < length ips)%nat as Hlt by (apply IntN_range; destruct ips; cbn; [done|lia]).
  destruct (lookup_lt_is_Some_2 ips _ Hlt) as [ip Hip]. exists ip. split; [done|]. by eapply list_elem_of_lookup_2.
Qed.

Lemma sortation_split ips : (SortationAddr ips).1 = [] → (SortationAddr ips).2 = ips.
Proof.
  unfold SortationAddr. cbn [fst snd]. induction ips as [|ip ips IH]; [done|]. rewrite !filter_cons. destruct (Is4 (Unmap ip)) eqn:E.
  - by rewrite decide_True.
  - rewrite decide_False, decide_True by done. intros Hf. by rewrite IH.
Qed.
Lemma sortation_split6 ips : (SortationAddr ips).2 = [] → (SortationAddr ips).1 = ips.
Proof.
  unfold SortationAddr. cbn [fst snd]. induction ips as [|ip ips IH]; [done|]. rewrite !filter_cons. destruct (Is4 (Unmap ip)) eqn:E.
  - rewrite decide_False, decide_True by done. intros Hf. by rewrite IH.
  - rewrite decide_True by done. intros Hf. discriminate Hf.
Qed.
End theorems.

(** Resolving a host never panics: it gives the error of the lookup, or one of the addresses that were found; an IPv4 address if
    there is one, and with the preference for IPv6 an IPv6 address if there is one. *)
Theorem resolve_picks hosts DisableIPv6 SystemResolver IntN host r :
  (∀ n, (0 < n)%nat → (IntN n < n)%nat) →
  let '(ips, err) := LookupIPWithResolver hosts DisableIPv6 SystemResolver host r in
  let outcome (res : option (Addr + lookupError)) (four : bool) := match err, ips with
    | Some e, _ => res = Some (inr e)
    | None, [] => res = Some (inr LNotFound)
    | None, _ => ∃ ip, res = Some (inl ip) ∧ ip ∈ ips ∧ ∀ x, x ∈ ips → Is4 (Unmap x) = four → Is4 (Unmap ip) = four
    end in
  outcome (ResolveIPWithResolver hosts DisableIPv6 SystemResolver IntN host r) true ∧
  outcome (ResolveIPPrefer6WithResolver hosts DisableIPv6 SystemResolver IntN host r) false.
Proof.
  intros HI. unfold ResolveIPWithResolver, ResolveIPPrefer6WithResolver. destruct (LookupIPWithResolver _ _ _ _ _) as [ips [e|]]; [by destruct ips; split|].
  destruct ips as [|ip0 ips0]; [by split|]. cbn [resolve_first]. cbn zeta iota beta. assert (ip0 :: ips0 ≠ []) as Hne by done. generalize dependent (ip0 :: ips0). intros ips Hne.
  pose proof (sortation_split ips) as S4. pose proof (sortation_split6 ips) as S6. unfold SortationAddr in *. cbn [fst snd] in *. split.
  - destruct (filter (λ v, Is4 (Unmap v) = true) ips) as [|a l] eqn:E4.
    + rewrite S4 by done. destruct (pick_in IntN HI ips Hne) as (ip & -> & Hin). exists ip. split; [done|]. split; [done|]. intros x Hx Hx4. exfalso.
      assert (x ∈ filter (λ v, Is4 (Unmap v) = true) ips) as Hf by (by apply list_elem_of_filter). rewrite E4 in Hf. by apply elem_of_nil in Hf.
    + destruct (pick_in IntN HI (a :: l)) as (ip & -> & Hin); [done|]. rewrite <- E4 in Hin. apply list_elem_of_filter in Hin as [H4 Hin]. exists ip. done.
  - destruct (filter (λ v, Is4 (Unmap v) = false) ips) as [|a l] eqn:E6.
    + rewrite S6 by done. destruct (pick_in IntN HI ips Hne) as (ip & -> & Hin). exists ip. split; [done|]. split; [done|]. intros x Hx Hx6. exfalso.
      assert (x ∈ filter (λ v, Is4 (Unmap v) = false) ips) as Hf by (by apply list_elem_of_filter). rewrite E6 in Hf. by apply elem_of_nil in Hf.
    + destruct (pick_in IntN HI (a :: l)) as (ip & -> & Hin); [done|]. rewrite <- E6 in Hin. apply list_elem_of_filter in Hin as [H6 Hin]. exists ip. done.
Qed.

(** ** Both families *)

(** When both lookups are over in time, the addresses are those of both, IPv4 first, and there is an error exactly if both failed. *)
Theorem lookup_both_families `{DnsLib} ask id4 id6 host :
  let '(ips4, err4) := lookupIP ask id4 host TypeA in
  let '(ips6, err6) := lookupIP ask id6 host TypeAAAA in
  LookupIP_dns ask id4 id6 true host =
    match err4, err6 with
    | Some _, Some _ => ([], Some LNotFound)
    | None, Some _ => (ips4, None)
    | Some _, None => (ips6, None)
    | None, None => (ips4 ++ ips6, None)
    end.
Proof.
  assert (∀ id ty, match lookupIP ask id host ty with (ips, Some _) => ips = [] | _ => True end) as Hemp.
  { intros id ty. unfold lookupIP. destruct (ParseAddr host); [by repeat case_match; simplify_eq|]. destruct (ask _); [by destruct (msgToIP _)|done]. }
  pose proof (Hemp id4 TypeA) as H4. unfold LookupIP_dns. destruct (lookupIP ask id4 host TypeA) as [ips4 err4], (lookupIP ask id6 host TypeAAAA) as [ips6 err6].
  unfold sent. cbn [fst snd]. destruct err4, err6; cbn; [done|by rewrite H4|by rewrite app_nil_r|done].
Qed.

(** When the IPv4 lookup fails and the other one is not over in time, there are no addresses and there is no error either. *)
Theorem lookup_timeout_empty `{DnsLib} ask id4 id6 host e : lookupIP ask id4 host TypeA = ([], Some e) → LookupIP_dns ask id4 id6 false host = ([], None).
Proof. intros E. unfold LookupIP_dns. by rewrite E. Qed.

(** A lookup of IPv4 addresses gives whatever addresses the answer holds, of either family. *)
Theorem lookup_any_family `{DnsLib} ask id host m ip :
  ParseAddr host = None → ask (question_for id host TypeA) = inl m → ip ∈ msgToIP m → lookupIP ask id host TypeA = (msgToIP m, None).
Proof. intros Hp Ha Hi. unfold lookupIP. rewrite Hp, Ha. destruct (msgToIP m); [by apply elem_of_nil in Hi|done]. Qed.
